(* ===== verification/_CoqProject ===== *)
-Q . S2P
Prelude.v
Consensus.v
UInt128.v
BitUtil.v
MMRIndex.v
MMRUtil.v
Serial.v
BigInteger.v
File.v
Roaring.v
PruneList.v
BitmapFile.v
MMRHash.v
SegmentId.v
SegmentProof.v
Bitmap.v
Segment.v
BitmapSegment.v
SegmentTracker.v
Segmenter.v
PruneableMMR.v
PruneableSpec.v
UncheckedHash.v
Transaction.v
Crypto.v
KernelMMR.v
KernelSpec.v
Header.v
Block.v
BlockSpec.v
Validation.v
ValidationSpec.v
Chain.v
OrphanPool.v
HeaderMMR.v
BlockDB.v
TxHashSet.v
UtxoSpec.v
TxHashSetSpec.v
TxHashSetBlocks.v
TxHashSetTheorems.v
TxHashSetValidator.v
TxHashSetValidatorSpec.v
TxPool.v
TxPoolSpec.v
Desegmenter.v
DesegmenterSpec.v
Pibd.v
PibdSpec.v
TxHashSetSync.v
Difficulty.v
Cuckoo.v
Cycle.v
CuckooSpec.v
CuckaroomSpec.v
CuckaroodSpec.v
PowSpec.v
ChainState.v
HeaderProcessor.v
BlockProcessor.v
BlockChain.v
ChainStateSpec.v
HeaderSpec.v
BlockHistory.v
BlockProcessorSpec.v
NodeSpec.v
HeaderSync.v
HeaderSyncSpec.v
Message.v
MessageSpec.v
Pipes.v
MessageProcessor.v
MessageProcessorSpec.v
