(* ===== verification/Prelude.v ===== *)
(** * Grin++: transaction hash sets, segment sync and proof of work

    A verification development for the consensus-critical core of Grin++, a node
    of a Mimblewimble chain.  The node keeps its outputs, range proofs, kernels
    and headers in Merkle mountain ranges (MMRs) over append-only files, hands
    them to syncing nodes in segments with proofs (PIBD), accepts headers by
    difficulty and proof of work and blocks by their effect on the hash set,
    reorganises its chains, and pools transactions.  The definitions translate the C++ sources;
    paths are those of the repository below src/.

    ** Parts and files, in the order they build on each other

    Foundations.  [Prelude]: wrapping integers, errors, the state monad, runs of
    operations and their simulation.  [Consensus] ([include/Consensus.h]):
    constants and functions of the height.  [UInt128] ([src/PoW/uint128.cpp]).
    [BitUtil].  [Serial] ([include/Core/Serialization]): byte order helpers,
    [Serializer], [ByteBuffer] as a reader monad that throws, and the class
    [Serializable] with its laws.  [BigInteger].

    Storage.  [File] ([AppendOnlyFile.cpp], [DataFile.h]): a committed file with a
    working tail; the abstract state is a pair of byte strings or of record
    lists.  [Roaring]: the interface of the third-party bitmap as a class with
    its documented laws, and a list implementation to evaluate with.  [PruneList]
    ([PruneList.cpp]): roots of pruned subtrees with shift caches.  [BitmapFile]
    ([BitmapFile.h], [LeafSet.h]): one bit per leaf.

    MMRs.  [MMRIndex], [MMRUtil] ([Index.cpp], [LeafIndex.h], [MMRUtil.cpp]):
    positions, against the closed form [node_pos].  [MMRHash] ([MMRHashUtil.cpp]):
    hashes and roots, against the tree [node_hash].  [PruneableMMR],
    [PruneableSpec] ([PruneableMMR.h]): the MMR of outputs and range proofs;
    [UncheckedHash]: a segment that is validated by one hash and applied with others.
    [KernelMMR], [KernelSpec] ([KernelMMR.cpp]): the MMR of kernels in its fixed
    and its variable format.

    Segments.  [SegmentId], [SegmentProof], [Segment] ([Segment*.h]); [Bitmap],
    [BitmapSegment] ([BitmapAccumulator.h], [BitmapSegment.h]): the accumulator of
    the unspent bitmap and its segments; [SegmentTracker]: requests under way;
    [Segmenter] ([TxHashSetSegmenter.h]): the serving side.

    Chain data.  [Transaction] ([Core/Models], [TxBodyValidator.cpp],
    [TransactionUtil.h]), [Header] ([ProofOfWork.cpp], [BlockHeader.cpp]), [Block]
    (full and compact blocks, short ids, block sums, output locations, spent
    outputs, [CompactBlockFactory.cpp], [BlockHydrator.cpp]) with [BlockSpec].
    [Crypto]: commitments, range proofs with their cache and signatures over an
    interface of libsecp256k1.  [Validation], [ValidationSpec]: the validators of
    kernel sums, transactions and blocks.

    Transaction hash set.  [HeaderMMR] ([HeaderMMRImpl.cpp]).  [BlockDB]: the
    interface of the block database, with its laws.  [TxHashSet]
    ([TxHashSetImpl.cpp]) over three MMRs and the database; [UtxoSpec]: the
    abstract chain state, on which a block is spent and a chain rewound;
    [TxHashSetSpec], [TxHashSetBlocks], [TxHashSetTheorems]: the hash set follows it.
    [TxHashSetValidator] with [TxHashSetValidatorSpec] ([TxHashSetValidator.cpp]): the
    checks of a hash set that was received.
    [TxPool], [TxPoolSpec] ([src/TxPool]).

    Receiving a sync.  [Desegmenter] ([TxHashSetDesegmenter.h]) with
    [DesegmenterSpec]; [Pibd] ([TxHashSetPipe.cpp]) with [PibdSpec]; [TxHashSetSync]:
    the hash set that a sync leaves.

    Proof of work.  [Difficulty] ([DifficultyLoader.cpp], [DifficultyCalculator.cpp]);
    [Cuckoo] (siphash, the five verifiers, [PoWValidator.cpp]); [Cycle]: the walk of
    the verifiers on any graph; [CuckooSpec], [CuckaroomSpec], [CuckaroodSpec]: what
    each accepts; [PowSpec]: [IsPoWValid], and the main network's genesis proof
    evaluated.

    The node.  [Chain], [OrphanPool] ([Chain.cpp], [ChainStore.cpp], [OrphanPool]);
    [ChainState] ([ChainState.cpp]): chains, database, header MMR and hash set, with
    batches that commit or roll back all four; [HeaderProcessor]
    ([BlockHeaderProcessor.cpp], [BlockHeaderValidator.cpp]); [BlockProcessor]
    ([BlockProcessor.cpp]); [BlockChain] ([BlockChainImpl.cpp]).  Their theorems:
    [ChainStateSpec] (a node as a record [NState] of abstract values, and every
    operation of the state as one on it), [HeaderSpec], [BlockHistory] (chains of
    blocks as histories), [BlockProcessorSpec], [NodeSpec].

    Peers.  [HeaderSync], [HeaderSyncSpec] ([BlockLocator.cpp], [HeaderBatchCache.cpp]):
    headers by locators, and the cache of their batches, over an interface of the
    chain that the node implements.  [Message], [MessageSpec] ([src/P2P/Messages]):
    the frame and the bodies of all messages, as instances of [IMessage] with its
    laws.  [Pipes] ([BlockPipe.cpp], [TransactionPipe.cpp], [ConcurrentQueue.h]) and
    [MessageProcessor] ([MessageProcessor.cpp], the receiving side of
    [Connection.cpp]): the state all peers reach, the dispatch of what they send,
    and the turns of the threads; [MessageProcessorSpec]: their theorems.

    State and operations: a C++ class is a [Record] of the same name, a method is
    a definition of the method's name, prefixed by the class where it would
    clash; a method that changes state is a computation [ST S A] whose state
    stays as it was changed when an exception is thrown.  The components meet at
    interfaces: [HashFile] (a file of hashes), [Roaring], [Serializable],
    [IBlockDB], [SyncTarget] (the hash set a sync fills), [HeaderChain] (the chain
    that headers are handed to), [IMessage], [Secp256k1], [LRUCache]; the clients' theorems are proved against the class and
    its laws, and every class has an instance to evaluate with.  In a state
    computation over a larger state, [st_zoom] runs one of a component.

    ** What the theorems show

    - The node: as long as what it is offered meets the conditions under
      Parameters below, whatever it is otherwise, in whatever order and with
      whatever exceptions, reorganisations and rollbacks, its confirmed chain is a history
      of validated blocks, of which hash set, positions and sums have exactly the
      effect, and its candidate chain one of validated headers ([node_invariant]);
      the supply is one reward for every block ([node_supply]); a block that is
      refused leaves what the check of its header alone leaves
      ([ProcessBlock_atomic]); the search for
      a fork point ends ([DetermineBlockStatus_terminates]).
    - Blocks: applying one is spending it on the abstract chain state
      ([ApplyBlock_spec]), rewinding undoes any number ([Rewind_undoes_blocks]), roots
      are checked against those of the state ([ValidateRoots_spec]), commit and
      rollback are atomic ([Commit_Rollback_atomic]).
    - Transactions create no value ([TransactionValidator_conserves]); the pools stay
      jointly valid when a block comes ([ReconcileBlock_valid]).
    - A sync with honest peers ends with the hash set of the archive header
      ([sync_restores_TxHashSet]); a hash set the validator accepts is that of its
      headers ([TxHashSetValidator_sound]).
    - Peers: whatever bytes they send, as long as the headers and blocks read from
      them meet the same conditions, interleaved with the threads in whatever
      order, the node stays one and the queues hold nothing twice
      ([p2p_invariant]); fed with batches of linked headers, the cache hands over
      only headers that follow on top of the candidate chain
      ([HeaderBatchCache_keeps_node]).
    - Refinement: files, prunable MMR, kernel MMR and request tracker behave as
      abstract machines for every sequence of operations, exceptions included
      ([AppendOnlyFile_refines], [PruneableMMR_refines], [KernelMMR_refines],
      [SegmentRequestTracker_map]); appending refines the hash tree
      ([AddHashes_refines]).
    - Security of sync: a segment that validates holds the leaves of the MMR, and
      roots bind leaves, unless two hashed inputs collide: these theorems return
      the colliding pair, they do not assume that the hash has none
      ([Segment_Validate_sound], [SegmentProof_sound], [Root_binding]).
    - Availability: what the serving node builds validates, and what validates is
      applied ([Segment_Validate_complete], [OutputBitmapSegment_validates],
      [BuildSegment_unpruned_validates], [PruneableMMR_ApplySegment_honest]).
    - Round trips of the wire formats, messages and their frames included
      (error messages apart, [Message_roundtrip]), and of files across restarts.
    - Caches against their definition: [AddPrunedRoot_equals_rebuild],
      [GetShift_counts_compacted], [BitmapAccumulator_AppendChunk_Build].
    - Consensus: a header passes exactly when its difficulty is the network's and
      its nonces are a cycle ([IsPoWValid_spec]; the walks end, and the check of
      the xors is redundant); bounds of the difficulty adjustment; cut-through
      and aggregation.
    - Behaviour that deviates from what the code means to do is stated as it is:
      for every tree with a spent half there is a segment that validates and
      installs hashes of other leaves ([ApplySegment_unchecked_hash], in
      [UncheckedHash]), the
      walk of cuckarood can run forever ([cuckarood_follow_diverges]), kernel files
      can be taken for the other format ([KernelMMR_Load_ambiguous]), duplicate
      inputs can pass ([VerifySorted_repeated_input]), padding changes a header's
      hash ([ProofOfWork_padding]), length checks wrap ([read_bytes_outcome]),
      headers that name each other are followed for ever
      ([ProcessOrphan_diverges]), blocks are accepted with a header of their own
      ([forged_block_accepted]) or more kernels than it counts
      ([ValidateRoots_extra_kernels]), a repeated input dereferences a missing output
      ([ApplyBlock_repeated_input]), a body without outputs reads an empty vector
      ([VerifySelfConsistent_no_outputs]), proofs are looked up by commitment
      ([VerifyRangeProofs_cached]), a body that cannot be read locks a mutex twice
      ([malformed_body_locks_twice]), banning a peer keeps its connection open
      ([banned_peer_stays_connected]), batches of headers of different peers are merged
      and one of them banned for all ([merged_batch_bans]), error messages are always
      refused ([Message_roundtrip]),
      incrementing the maximum leaves the vector ([BigInteger_incr_spec]), and
      difficulty padding reads an empty vector ([LoadDifficultyData_spec]).

    ** Bounds and fuel

    Integers wrap at their width; theorems about positions assume sizes that no
    disk holds (positions below 2^62, leaves below 2^58, segments below 2^50) or
    what the code itself is limited to (32-bit roaring positions, fewer than 2^32
    kernels).  Loops over bits have 64 as fuel, loops over a buffer its length,
    loops over an MMR its height or its size: each is shown to be enough, as the
    theorems give results and not only properties of results.  The cycle walk
    has 84 turns, one per endpoint, and ends within them ([follow_ends]); cuckarood
    takes its fuel as an argument, since no number is enough.  The loops back to a
    fork point take theirs as an argument too: for blocks their height is enough,
    for headers no number is.

    ** Parameters

    [Blake2b] (a function on bytes, its 32-byte length, and that no hash is the
    zero hash, where needed); siphash of short ids; the roaring bitmap; RocksDB and
    the LRU caches behind their interfaces; libsecp256k1, whose commitments are a
    commutative group in which a value and a blinding factor add up; the clock,
    random numbers and the probability of the pool; the genesis kernel and root
    where [Load] uses them; the network.  Disks are byte lists, and
    operating-system failures are not modelled.

    The theorems on a node assume of the headers and blocks that are offered
    ([offered], [offered_blocks]): what is offered under one hash is one header and
    one block, since the hash is that of the proof of work alone; a header counts
    what its block adds, since nothing checks that; headers offered together are
    linked; and all of them fit the bounds above.  What fails without the first
    two is stated with the deviations.  The theorems on peers assume it of the
    headers and blocks that are read from what they send.  The sums bind values only as far as the
    group's elements do: that a commitment hides one value is not part of it.

    ** Not modelled

    Vendored code (deps/); sockets, Tor, RPC and API servers, daemons; of P2P the
    managers of connections and peers, the handshake, dialling and sending, seeding,
    Dandelion and the syncers, which sleep and poll around sockets and clocks: what
    is asked of them is recorded as a call; the wallet; JSON, hexadecimal and string formats; logging.  Locks run batches
    one after the other, and a commit's threads in sequence.  Of the chain:
    archives of the hash set, the manager's files, the resync, the compaction at start-up. *)
From stdpp Require Export base tactics numbers list gmap sorting.
From Stdlib Require Export ZArith Lia.

#[export] Set Default Goal Selector "!".
#[global] Open Scope Z_scope.
#[global] Coercion Z.of_nat : nat >-> Z.

(** ** Machine integers

    A [w]-bit unsigned integer of the C++ source is a [Z] and wraps explicitly.
    In [u64_scope] an expression of sums, differences and products is wrapped
    once, at its outermost operation: reduction modulo [2 ^ 64] is compatible
    with these operations, so this is the value of the source's expression.
    Operands of shifts, divisions and comparisons are wrapped on their own. *)
Definition uint (w z : Z) : Z := z mod 2 ^ w.

Declare Scope u64_scope.
Delimit Scope u64_scope with u64.
Notation "a + b" := (uint 64 (a + b)) : u64_scope.
Notation "a - b" := (uint 64 (a - b)) : u64_scope.
Notation "a * b" := (uint 64 (a * b)) : u64_scope.
Notation "a << b" := (uint 64 (Z.shiftl a b)) (at level 50, left associativity) : u64_scope.
Notation "a >> b" := (Z.shiftr a b) (at level 50, left associativity) : u64_scope.

(** A value of the type [uint<w>_t]. *)
Definition is_uint (w z : Z) : Prop := 0 <= z < 2 ^ w.

Lemma uint_small w z : is_uint w z -> uint w z = z.
Proof. apply Z.mod_small. Qed.

Lemma uint_range w z : 0 <= w -> is_uint w (uint w z).
Proof. intros. apply Z.mod_pos_bound. lia. Qed.

Lemma uint_idemp w z : uint w (uint w z) = uint w z.
Proof. unfold uint. apply Zmod_mod. Qed.

(** [uint_id] rewrites a wrapped operation to the plain one when [lia] sees that
    it does not overflow. *)
Ltac uint_solve := unfold is_uint; lia.
Ltac uint_id :=
  repeat match goal with
  | |- context [uint 64 ?e] => rewrite (uint_small 64 e) by uint_solve
  end.
Ltac uint_id_in H :=
  repeat match type of H with
  | context [uint 64 ?e] => rewrite (uint_small 64 e) in H by uint_solve
  end.

(** Powers of two with a natural exponent. *)
Lemma pow2_0 : 2 ^ 0%nat = 1.
Proof. reflexivity. Qed.

Lemma pow2_S (k : nat) : 2 ^ S k = 2 * 2 ^ k.
Proof. rewrite Nat2Z.inj_succ, Z.pow_succ_r by lia. done. Qed.

Lemma pow2_S1 (k : nat) : 2 ^ (S k + 1) = 2 * 2 ^ (k + 1).
Proof. replace (S k + 1) with (Z.succ (k + 1)) by lia. rewrite Z.pow_succ_r by lia. done. Qed.

Lemma pow2_1 k : 0 <= k -> 2 ^ (k + 1) = 2 * 2 ^ k.
Proof. intros. rewrite Z.pow_add_r by lia. lia. Qed.

Lemma pow2_pos k : 0 <= k -> 0 < 2 ^ k.
Proof. intros. apply Z.pow_pos_nonneg; lia. Qed.

(** Parity and halves. *)
Lemma odd_even j : Z.odd (2 * j) = false.
Proof. by rewrite Z.odd_mul. Qed.

Lemma odd_odd j : Z.odd (2 * j + 1) = true.
Proof. rewrite Z.odd_add, odd_even. done. Qed.

Lemma half_even j : 2 * j / 2 = j.
Proof. rewrite Z.mul_comm. by apply Z.div_mul. Qed.

Lemma half_odd j : (2 * j + 1) / 2 = j.
Proof. symmetry. apply Z.div_unique with 1; lia. Qed.

(** Filters that keep nothing. *)
Lemma filter_none {A} (P : A -> Prop) `{!forall x, Decision (P x)} l :
  Forall (fun x => ~ P x) l -> filter P l = [].
Proof. induction 1 as [|x l Hx _ IH]; [done|]. by rewrite filter_cons, decide_False. Qed.

Lemma filter_range_length a b (n : nat) :
  0 <= a <= b -> length (filter (fun x => a <= x < b) (seqZ 0 n)) = Z.max 0 (Z.min b n - a) :> Z.
Proof.
  intros Hab. induction n as [|n IH]; [simpl; lia|].
  rewrite seqZ_S, filter_app, length_app, Nat2Z.inj_add, IH.
  rewrite filter_cons. destruct (decide (a <= 0 + n < b)); simpl; lia.
Qed.

Lemma filter_or_length {A} (P Q S : A -> Prop) `{!forall x, Decision (P x), !forall x, Decision (Q x), !forall x, Decision (S x)} l :
  (forall x, x ∈ l -> (S x <-> P x \/ Q x) /\ ~ (P x /\ Q x)) ->
  length (filter S l) = (length (filter P l) + length (filter Q l))%nat.
Proof.
  induction l as [|x l IH]; intros HS; [done|]. rewrite !filter_cons.
  destruct (HS x ltac:(left)) as [HS1 HS2]. specialize (IH ltac:(intros y Hy; apply HS; by right)).
  do 3 case_decide; simpl; try lia; tauto.
Qed.

Lemma filter_all {A} (P : A -> Prop) `{!forall x, Decision (P x)} l :
  Forall P l -> filter P l = l.
Proof. induction 1 as [|x l Hx _ IH]; [done|]. rewrite filter_cons, decide_True by done. by f_equal. Qed.

Lemma filter_iff_in {A} (P Q : A -> Prop) `{!forall x, Decision (P x), !forall x, Decision (Q x)} (l : list A) :
  (forall x, x ∈ l -> P x <-> Q x) -> filter P l = filter Q l.
Proof.
  induction l as [|x l IH]; intros HPQ; [done|]. rewrite !filter_cons.
  rewrite IH by (intros y Hy; apply HPQ; by right). pose proof (HPQ x ltac:(left)).
  do 2 case_decide; done || tauto.
Qed.

(** ** Selecting list elements by their index *)

(** The elements of [l] whose index, counted from [k], satisfies [P]. *)
Fixpoint select {A} (P : Z -> bool) (k : Z) (l : list A) : list A :=
  match l with
  | [] => []
  | x :: l => if P k then x :: select P (k + 1) l else select P (k + 1) l
  end.

(** The number of indices from [k], [n] of them, that are not selected. *)
Definition skipped (P : Z -> bool) (k n : Z) : Z := length (filter (fun x => P x = false) (seqZ k n)).

Section select.
Context {A : Type}.
Implicit Types (P : Z -> bool) (l : list A).

Lemma skipped_0 P k : skipped P k 0 = 0.
Proof. done. Qed.

Lemma skipped_succ P k n : 0 <= n -> skipped P k (n + 1) = (if P k then 0 else 1) + skipped P (k + 1) n.
Proof.
  intros Hn. unfold skipped. rewrite seqZ_cons by lia. rewrite filter_cons.
  replace (Z.pred (n + 1)) with n by lia. replace (Z.succ k) with (k + 1) by lia.
  destruct (P k); case_decide; (done || cbn [length]; lia).
Qed.

Lemma skipped_add P k m n : 0 <= m -> 0 <= n -> skipped P k (m + n) = skipped P k m + skipped P (k + m) n.
Proof. intros Hm Hn. unfold skipped. rewrite seqZ_app, filter_app, length_app by lia. lia. Qed.

Lemma skipped_bound P k n : 0 <= n -> 0 <= skipped P k n <= n.
Proof.
  intros Hn. unfold skipped. pose proof (length_filter (fun x => P x = false) (seqZ k n)) as H.
  rewrite length_seqZ in H. lia.
Qed.

(** The number of selected indices grows with the range. *)
Lemma skipped_mono P k m n : 0 <= m <= n -> m - skipped P k m <= n - skipped P k n.
Proof.
  intros Hm. replace n with (m + (n - m)) by lia. rewrite skipped_add by lia.
  pose proof (skipped_bound P (k + m) (n - m) ltac:(lia)). lia.
Qed.

Lemma skipped_none P k n : (forall q, k <= q < k + n -> P q = true) -> skipped P k n = 0.
Proof.
  intros Hp. unfold skipped. rewrite filter_none; [done|]. apply Forall_forall. intros q Hq.
  apply elem_of_seqZ in Hq. rewrite Hp by lia. done.
Qed.

Lemma skipped_ext P P' k n : (forall q, k <= q < k + n -> P q = P' q) -> skipped P k n = skipped P' k n.
Proof.
  intros Hp. unfold skipped. f_equal. f_equal. apply filter_iff_in. intros q Hq.
  apply elem_of_seqZ in Hq. by rewrite Hp by lia.
Qed.

Lemma select_app P k l l' : select P k (l ++ l') = select P k l ++ select P (k + length l) l'.
Proof.
  revert k. induction l as [|x l IH]; intros k; cbn [select app length].
  - by rewrite Z.add_0_r.
  - rewrite IH. replace (k + S (length l)) with (k + 1 + length l) by lia. by destruct (P k).
Qed.

Lemma select_length P k l : length (select P k l) = length l - skipped P k (length l) :> Z.
Proof.
  revert k. induction l as [|x l IH]; intros k; [done|]. cbn [select length].
  rewrite Nat2Z.inj_succ, <- Z.add_1_r, skipped_succ by lia.
  destruct (P k); cbn [length]; specialize (IH (k + 1)); lia.
Qed.

Lemma select_ext P P' k l : (forall q, k <= q < k + length l -> P q = P' q) -> select P k l = select P' k l.
Proof.
  revert k. induction l as [|x l IH]; intros k Hp; [done|]. cbn [select length] in *.
  rewrite (Hp k) by lia. rewrite (IH (k + 1)) by (intros q Hq; apply Hp; lia). done.
Qed.

Lemma select_all P k l : (forall q, k <= q < k + length l -> P q = true) -> select P k l = l.
Proof.
  revert k. induction l as [|x l IH]; intros k Hp; [done|]. cbn [select length] in *.
  rewrite Hp by lia. f_equal. apply IH. intros q Hq. apply Hp. lia.
Qed.

Lemma select_none P k l : (forall q, k <= q < k + length l -> P q = false) -> select P k l = [].
Proof.
  revert k. induction l as [|x l IH]; intros k Hp; [done|]. cbn [select length] in *.
  rewrite Hp by lia. apply IH. intros q Hq. apply Hp. lia.
Qed.

(** A selected element is found at its rank among the selected ones. *)
Lemma select_lookup P k l q :
  k <= q < k + length l -> P q = true ->
  select P k l !! Z.to_nat (q - k - skipped P k (q - k)) = l !! Z.to_nat (q - k).
Proof.
  revert k. induction l as [|x l IH]; intros k Hq Hp; cbn [length] in Hq; [lia|].
  destruct (decide (q = k)) as [->|Hne].
  - rewrite Z.sub_diag, skipped_0. cbn [select]. by rewrite Hp.
  - replace (q - k) with (q - (k + 1) + 1) by lia. rewrite skipped_succ by lia.
    specialize (IH (k + 1) ltac:(lia) Hp). pose proof (skipped_bound P (k + 1) (q - (k + 1)) ltac:(lia)).
    cbn [select]. set (m := q - (k + 1)) in *.
    replace (Z.to_nat (m + 1)) with (S (Z.to_nat m)) by lia. change ((x :: l) !! S (Z.to_nat m)) with (l !! Z.to_nat m); rewrite <- IH.
    destruct (P k); [|f_equal; lia].
    replace (Z.to_nat (m + 1 - (0 + skipped P (k + 1) m))) with (S (Z.to_nat (m - skipped P (k + 1) m))) by lia.
    done.
Qed.

(** A prefix of the selection is the selection of a prefix. *)
Lemma select_take P k l n :
  0 <= n <= length l ->
  take (Z.to_nat (n - skipped P k n)) (select P k l) = select P k (take (Z.to_nat n) l).
Proof.
  intros Hn. rewrite <- (take_drop (Z.to_nat n) l) at 1. rewrite select_app.
  assert (length (take (Z.to_nat n) l) = n :> Z) as Hl by (rewrite length_take; lia).
  pose proof (select_length P k (take (Z.to_nat n) l)) as Hs. rewrite Hl in Hs.
  apply take_app_length'. lia.
Qed.

End select.

Lemma Forall2_rev {A B} (P : A -> B -> Prop) l k : Forall2 P l k -> Forall2 P (rev l) (rev k).
Proof. rewrite !rev_alt. apply Forall2_reverse. Qed.

Lemma Forall2_impl_l {A B} (P Q : A -> B -> Prop) (S : A -> Prop) l k :
  Forall2 P l k -> Forall S l -> (forall x y, S x -> P x y -> Q x y) -> Forall2 Q l k.
Proof.
  intros Hp Hs HQ. induction Hp; [constructor|]. apply Forall_cons in Hs as [Hx Hs].
  constructor; [by apply HQ|by apply IHHp].
Qed.

Create HintDb arith64.
#[export] Hint Rewrite odd_even odd_odd half_even half_odd : arith64.

(** Case analysis on every boolean comparison of integers in sight. *)
Ltac zcases :=
  repeat (first
  [ match goal with |- context [?a =? ?b] => destruct (Z.eqb_spec a b) end
  | match goal with |- context [?a <? ?b] => destruct (Z.ltb_spec a b) end
  | match goal with |- context [?a <=? ?b] => destruct (Z.leb_spec a b) end
  | match goal with |- context [?a >=? ?b] => rewrite (Z.geb_leb a b) end
  | match goal with |- context [?a >? ?b] => rewrite (Z.gtb_ltb a b) end ]).

(** ** Exceptions

    The exceptions the modelled code throws.  [UB] marks an execution that
    C++ leaves undefined (an access outside a vector), [OutOfFuel] a loop that
    exceeds the iteration bound of its model. *)
Inductive exn :=
| FileException
| RuntimeError
| DeserializationException
| TxHashSetException
| BadDataException
| DatabaseException
| BlockChainException
| CryptoException
| StdException
| UB
| OutOfFuel.

Inductive result (A : Type) :=
| Ok (a : A)
| Throw (e : exn).
Arguments Ok {A} a.
Arguments Throw {A} e.

#[export] Instance result_ret : MRet result := @Ok.
#[export] Instance result_bind : MBind result := fun A B f m =>
  match m with Ok a => f a | Throw e => Throw e end.

Definition of_option {A} (e : exn) (o : option A) : result A :=
  match o with Some a => Ok a | None => Throw e end.

#[export] Instance exn_eq_dec : EqDecision exn.
Proof. solve_decision. Defined.

(** ** State with exceptions

    A member function that changes [this] and may throw: the changes made
    before the exception stay. *)
Definition ST (S A : Type) : Type := S -> result A * S.

#[export] Instance ST_ret S : MRet (ST S) := fun A a s => (Ok a, s).
#[export] Instance ST_bind S : MBind (ST S) := fun A B f m s =>
  match m s with
  | (Ok a, s') => f a s'
  | (Throw e, s') => (Throw e, s')
  end.

Definition st_throw {S A} (e : exn) : ST S A := fun s => (Throw e, s).
Definition st_get {S} : ST S S := fun s => (Ok s, s).
Definition st_modify {S} (f : S -> S) : ST S unit := fun s => (Ok tt, f s).
Definition st_lift {S A} (r : result A) : ST S A := fun s => (r, s).

(** [catch (std::exception&)] that throws [e'] instead; undefined behaviour is
    not an exception. *)
Definition is_std (e : exn) : bool := match e with UB | OutOfFuel => false | _ => true end.
Definition rethrow (e' e : exn) : exn := if is_std e then e' else e.
Definition catch_as {A} (e' : exn) (r : result A) : result A :=
  match r with Ok a => Ok a | Throw e => Throw (rethrow e' e) end.
Definition st_catch_as {S A} (e' : exn) (m : ST S A) : ST S A := fun s =>
  let '(r, s') := m s in (catch_as e' r, s').

(** Throw unless a condition holds. *)
Definition require (e : exn) (b : bool) : result unit := if b then Ok tt else Throw e.

(** Run a computation on a field of the state. *)
Definition st_zoom {S T A} (get : S -> T) (set : T -> S -> S) (m : ST T A) : ST S A := fun s =>
  let '(r, t) := m (get s) in (r, set t s).

Lemma st_bind_ok {S A B} (m : ST S A) (f : A -> ST S B) s a s' : m s = (Ok a, s') -> (m ≫= f) s = f a s'.
Proof. intros E. unfold mbind, ST_bind. by rewrite E. Qed.

Lemma st_bind_throw {S A B} (m : ST S A) (f : A -> ST S B) s e s' : m s = (Throw e, s') -> (m ≫= f) s = (Throw e, s').
Proof. intros E. unfold mbind, ST_bind. by rewrite E. Qed.

Lemma st_lift_ok {S A B} (r : result A) (a : A) (f : A -> ST S B) s : r = Ok a -> (st_lift r ≫= f) s = f a s.
Proof. by intros ->. Qed.

Lemma st_zoom_run {S T A} (get : S -> T) (set : T -> S -> S) (m : ST T A) s r x :
  m (get s) = (r, x) -> st_zoom get set m s = (r, set x s).
Proof. intros E. unfold st_zoom. by rewrite E. Qed.

(** What every run of a computation leaves true of the state. *)
Definition st_keeps {S A} (P : S -> Prop) (m : ST S A) : Prop := forall s, P s -> P (m s).2.

Lemma st_keeps_bind {S A B} (P : S -> Prop) (m : ST S A) (f : A -> ST S B) :
  st_keeps P m -> (forall a, st_keeps P (f a)) -> st_keeps P (m ≫= f).
Proof.
  intros Hm Hf s Hs. specialize (Hm s Hs). unfold mbind, ST_bind. destruct (m s) as [[a|e] s']; [by apply Hf|done].
Qed.

Lemma st_keeps_ret {S A} (P : S -> Prop) (a : A) : st_keeps P (mret a).
Proof. by intros s Hs. Qed.
Lemma st_keeps_get {S} (P : S -> Prop) : st_keeps P st_get.
Proof. by intros s Hs. Qed.
Lemma st_keeps_throw {S A} (P : S -> Prop) e : st_keeps P (st_throw (A := A) e).
Proof. by intros s Hs. Qed.
Lemma st_keeps_lift {S A} (P : S -> Prop) (r : result A) : st_keeps P (st_lift r).
Proof. by intros s Hs. Qed.
Lemma st_keeps_modify {S} (P : S -> Prop) (f : S -> S) : (forall s, P s -> P (f s)) -> st_keeps P (st_modify f).
Proof. by intros Hf s Hs; apply Hf. Qed.

Lemma st_keeps_zoom {S T A} (P : S -> Prop) (get : S -> T) (set : T -> S -> S) (m : ST T A) :
  (forall x s, P s -> P (set x s)) -> st_keeps P (st_zoom get set m).
Proof. intros Hset s Hs. unfold st_zoom. destruct (m (get s)) as [r x]. by apply Hset. Qed.

Lemma st_keeps_fields {S T A} (P : S -> Prop) (Q : T -> Prop) (get : S -> T) (set : T -> S -> S) (m : ST T A) :
  (forall s, P s -> Q (get s)) -> (forall x s, P s -> Q x -> P (set x s)) -> st_keeps Q m -> st_keeps P (st_zoom get set m).
Proof.
  intros Hget Hset Hm s Hs. specialize (Hm _ (Hget s Hs)). unfold st_zoom. destruct (m (get s)) as [r x]. by apply Hset.
Qed.

Create HintDb keeps.
#[export] Hint Resolve st_keeps_bind st_keeps_ret st_keeps_get st_keeps_throw st_keeps_lift : keeps.

(** ** Sequences of operations

    The results and the last state of a sequence of operations, and the forward
    simulation that carries a refinement of one operation to a sequence. *)
Section run.
Context {O E S T : Type}.

Fixpoint run {S} (step : O -> S -> E * S) (ops : list O) (s : S) : list E * S :=
  match ops with
  | [] => ([], s)
  | o :: ops =>
      let '(r, s) := step o s in
      let '(rs, s) := run step ops s in (r :: rs, s)
  end.

(** Every operation is admissible in the state it meets. *)
Fixpoint ops_ok {S} (op_ok : O -> S -> Prop) (step : O -> S -> E * S) (ops : list O) (s : S) : Prop :=
  match ops with
  | [] => True
  | o :: ops => op_ok o s /\ ops_ok op_ok step ops (step o s).2
  end.

Lemma run_simulation (rel : S -> T -> Prop) (op_ok : O -> S -> Prop) (spec : O -> S -> E * S) (step : O -> T -> E * T) :
  (forall o s t, rel s t -> op_ok o s -> exists t', step o t = ((spec o s).1, t') /\ rel (spec o s).2 t') ->
  forall ops s t, rel s t -> ops_ok op_ok spec ops s ->
    let '(rs, t') := run step ops t in
    let '(rs', s') := run spec ops s in rs = rs' /\ rel s' t'.
Proof.
  intros Hstep ops. induction ops as [|o ops IH]; intros s t Hrel Hops; [done|]. destruct Hops as [Ho Hops].
  destruct (Hstep o s t Hrel Ho) as (t1 & E1 & Hrel1). cbn [run]. rewrite E1.
  destruct (spec o s) as [r s1]. cbn [fst snd] in *. specialize (IH s1 t1 Hrel1 Hops).
  destruct (run step ops t1) as [rs t2], (run spec ops s1) as [rs' s2]. by destruct IH as [-> IH].
Qed.

End run.

(** [for (a : l) s = f(a, s)] where the body may throw, and its invariant. *)
Fixpoint fold_result {A S} (f : A -> S -> result S) (l : list A) (s : S) : result S :=
  match l with
  | [] => Ok s
  | a :: l => match f a s with Ok s => fold_result f l s | Throw e => Throw e end
  end.

Lemma fold_result_inv {A S} (I : nat -> S -> Prop) (f : A -> S -> result S) l s :
  I 0%nat s ->
  (forall i a s, l !! i = Some a -> I i s -> exists s', f a s = Ok s' /\ I (i + 1)%nat s') ->
  exists s', fold_result f l s = Ok s' /\ I (length l) s'.
Proof.
  revert I s. induction l as [|a l IH]; intros I s H0 Hf; [by exists s|]. cbn [fold_result length].
  destruct (Hf 0%nat a s eq_refl H0) as (s1 & -> & H1). destruct (IH (fun i => I (i + 1)%nat) s1 H1) as (s' & E & H').
  - intros i b t Hb Ht. apply (Hf (i + 1)%nat b t); [|done]. by rewrite Nat.add_1_r.
  - exists s'. by rewrite Nat.add_1_r in H'.
Qed.
