(* ===== verification/Consensus.v ===== *)
(** * Consensus parameters ([include/Consensus.h])

    The constants and the functions of the block height.  [Global::GetEnv()] is
    an argument.  Numbers are unsigned 64-bit unless noted. *)
From S2P Require Import Prelude.

(** [Environment]. *)
Inductive Environment := MAINNET | FLOONET | AUTOMATED_TESTING.

#[export] Instance Environment_eq_dec : EqDecision Environment.
Proof. solve_decision. Defined.

(** ** Rewards and weights *)
Definition GRIN_BASE : Z := 1000000000.
Definition MILLI_GRIN : Z := GRIN_BASE / 1000.
Definition MICRO_GRIN : Z := MILLI_GRIN / 1000.
Definition NANO_GRIN : Z := 1.
Definition REWARD : Z := 60 * GRIN_BASE.

Definition INPUT_WEIGHT : Z := 1.
Definition OUTPUT_WEIGHT : Z := 21.
Definition KERNEL_WEIGHT : Z := 3.
Definition MAX_BLOCK_WEIGHT : Z := 40000.

(** [CalculateWeightV4] computes with signed 64-bit numbers. *)
Definition CalculateWeightV4 (num_inputs num_outputs numKernels : Z) : Z :=
  Z.max ((-1 * num_inputs) + (4 * num_outputs) + (1 * numKernels)) 1.

Definition CalculateWeightV5 (num_inputs num_outputs num_kernels : Z) : Z :=
  ((num_inputs * INPUT_WEIGHT) + (num_outputs * OUTPUT_WEIGHT) + (num_kernels * KERNEL_WEIGHT))%u64.

(** ** Time *)
Definition BLOCK_TIME_SEC : Z := 60.
Definition HOUR_HEIGHT : Z := 3600 / BLOCK_TIME_SEC.
Definition HOURS (num_hours : Z) : Z := (num_hours * HOUR_HEIGHT)%u64.
Definition DAY_HEIGHT : Z := 24 * HOUR_HEIGHT.
Definition DAYS (num_days : Z) : Z := (num_days * DAY_HEIGHT)%u64.
Definition WEEK_HEIGHT : Z := 7 * DAY_HEIGHT.
Definition WEEKS (num_weeks : Z) : Z := (num_weeks * WEEK_HEIGHT)%u64.
Definition YEAR_HEIGHT : Z := 52 * WEEK_HEIGHT.
Definition YEARS (num_years : Z) : Z := (num_years * YEAR_HEIGHT)%u64.
Definition COINBASE_MATURITY : Z := (24 * 60 * 60) / BLOCK_TIME_SEC.

Definition GetMaxCoinbaseHeight (environment : Environment) (blockHeight : Z) : Z :=
  if bool_decide (environment = AUTOMATED_TESTING) then (Z.max blockHeight 25 - 25)%u64
  else (Z.max blockHeight COINBASE_MATURITY - COINBASE_MATURITY)%u64.

Definition CUT_THROUGH_HORIZON : Z := WEEK_HEIGHT.
Definition GetHorizonHeight (blockHeight : Z) : Z := (Z.max blockHeight CUT_THROUGH_HORIZON - CUT_THROUGH_HORIZON)%u64.

Definition STATE_SYNC_THRESHOLD : Z := 2 * DAY_HEIGHT.
Definition TXHASHSET_ARCHIVE_INTERVAL : Z := 12 * HOUR_HEIGHT.
Definition TESTING_TXHASHSET_ARCHIVE_INTERVAL : Z := 10.

Definition GetTxHashSetArchiveInterval (environment : Environment) : Z :=
  if bool_decide (environment = AUTOMATED_TESTING) then TESTING_TXHASHSET_ARCHIVE_INTERVAL else TXHASHSET_ARCHIVE_INTERVAL.

Definition GetTxHashSetArchiveHeight (env : Environment) (headerHeight : Z) : Z :=
  let archiveInterval := GetTxHashSetArchiveInterval env in
  let txHashSetHeight := if headerHeight >? STATE_SYNC_THRESHOLD then (headerHeight - STATE_SYNC_THRESHOLD)%u64 else 0 in
  (txHashSetHeight - txHashSetHeight mod archiveInterval)%u64.

Definition DIFFICULTY_ADJUST_WINDOW : Z := HOUR_HEIGHT.
Definition BLOCK_TIME_WINDOW : Z := DIFFICULTY_ADJUST_WINDOW * BLOCK_TIME_SEC.
Definition WTEMA_HALF_LIFE : Z := 4 * 3600.

(** ** Difficulty *)
Definition PROOFSIZE : Z := 42.
Definition DEFAULT_MIN_EDGE_BITS : Z := 31.
Definition SECOND_POW_EDGE_BITS : Z := 29.
Definition BASE_EDGE_BITS : Z := 24.
Definition CLAMP_FACTOR : Z := 2.
Definition DMA_DAMP_FACTOR : Z := 3.
Definition AR_SCALE_DAMP_FACTOR : Z := 13.
Definition MIN_AR_SCALE : Z := AR_SCALE_DAMP_FACTOR.
Definition MIN_DMA_DIFFICULTY : Z := DMA_DAMP_FACTOR.

(** A 64-bit shift by [n], undefined from 64 on. *)
Definition shift_left_64 (a n : Z) : result Z := if n <? 64 then Ok (a << n)%u64 else Throw UB.

Definition GraphWeight (height edge_bits : Z) : result Z :=
  let expiry_height := YEAR_HEIGHT in
  let xpr_edge_bits := edge_bits in
  let xpr_edge_bits :=
    if (edge_bits =? 31) && (height >=? expiry_height)
    then (xpr_edge_bits - Z.min xpr_edge_bits (1 + (height - expiry_height) / WEEK_HEIGHT)%u64)%u64
    else xpr_edge_bits in
  weight ← shift_left_64 2 (uint 64 (edge_bits - BASE_EDGE_BITS));
  mret (weight * xpr_edge_bits)%u64.

(** [(uint32_t)GraphWeight(0, SECOND_POW_EDGE_BITS)]. *)
Definition INITIAL_GRAPH_WEIGHT : Z := match GraphWeight 0 SECOND_POW_EDGE_BITS with Ok w => uint 32 w | Throw _ => 0 end.

Definition Damp (actual goal damp_factor : Z) : Z := (actual + (damp_factor - 1) * goal)%u64 / damp_factor.
Definition Clamp (actual goal clamp_factor : Z) : Z := Z.max (goal / clamp_factor) (Z.min actual (goal * clamp_factor)%u64).

Definition SecondaryPOWRatio (height : Z) : Z := (90 - Z.min 90 (height / (2 * YEAR_HEIGHT / 90)))%u64.

Definition ScalingDifficulty (edgeBits : Z) : result Z :=
  weight ← shift_left_64 2 (uint 64 (edgeBits - BASE_EDGE_BITS));
  mret (weight * edgeBits)%u64.

Definition C32_GRAPH_WEIGHT : Z := Z.shiftl 2 (32 - BASE_EDGE_BITS) * 32.

Definition min_wtema_graph_weight (env : Environment) : result Z :=
  if bool_decide (env = MAINNET) then mret C32_GRAPH_WEIGHT else GraphWeight 0 SECOND_POW_EDGE_BITS.

(** ** Hard forks *)
Definition HARD_FORK_INTERVAL : Z := YEAR_HEIGHT / 2.
Definition FLOONET_FIRST_HARD_FORK : Z := 185040.
Definition FLOONET_SECOND_HARD_FORK : Z := 298080.
Definition FLOONET_THIRD_HARD_FORK : Z := 552960.
Definition FLOONET_FOURTH_HARD_FORK : Z := 642240.

Definition GetHeaderVersion (environment : Environment) (height : Z) : Z :=
  if bool_decide (environment = FLOONET) then
    if height <? FLOONET_FIRST_HARD_FORK then 1
    else if height <? FLOONET_SECOND_HARD_FORK then 2
    else if height <? FLOONET_THIRD_HARD_FORK then 3
    else if height <? FLOONET_FOURTH_HARD_FORK then 4
    else 5
  else
    if height <? HARD_FORK_INTERVAL then 1
    else if height <? 2 * HARD_FORK_INTERVAL then 2
    else if height <? 3 * HARD_FORK_INTERVAL then 3
    else if height <? 4 * HARD_FORK_INTERVAL then 4
    else 5.

(** ** Lemmas *)

Lemma Damp_small actual goal damp_factor :
  0 <= actual < 2 ^ 62 -> 0 <= (damp_factor - 1) * goal < 2 ^ 62 ->
  Damp actual goal damp_factor = (actual + (damp_factor - 1) * goal) / damp_factor.
Proof. intros Ha Hg. unfold Damp. by rewrite uint_small by uint_solve. Qed.

(** The clamped value lies within the factor of the goal. *)
Lemma Clamp_bounds actual goal clamp_factor :
  0 <= goal < 2 ^ 32 -> 0 < clamp_factor < 2 ^ 31 ->
  goal / clamp_factor <= Clamp actual goal clamp_factor <= goal * clamp_factor.
Proof.
  intros Hg Hc. unfold Clamp. rewrite uint_small by (unfold is_uint; nia).
  assert (goal / clamp_factor <= goal) by (apply Z.div_le_upper_bound; nia). assert (goal <= goal * clamp_factor) by nia. lia.
Qed.

Lemma SecondaryPOWRatio_small height : 0 <= height -> SecondaryPOWRatio height = 90 - Z.min 90 (height / 11648).
Proof.
  intros Hh. unfold SecondaryPOWRatio. change (2 * YEAR_HEIGHT / 90) with 11648.
  pose proof (Z.div_pos height 11648 Hh ltac:(lia)). by rewrite uint_small by uint_solve.
Qed.

(** ** Properties *)

(** the header version of a height is one of 1 to 5, starts at 1 and never
    decreases with the height. *)
Theorem GetHeaderVersion_monotone env h1 h2 :
  0 <= h1 <= h2 -> 1 <= GetHeaderVersion env h1 <= GetHeaderVersion env h2 /\ GetHeaderVersion env h2 <= 5 /\ GetHeaderVersion env 0 = 1.
Proof.
  intros Hh. split; [|split; [|by destruct env]]; unfold GetHeaderVersion; change HARD_FORK_INTERVAL with 262080;
    change FLOONET_FIRST_HARD_FORK with 185040; change FLOONET_SECOND_HARD_FORK with 298080;
    change FLOONET_THIRD_HARD_FORK with 552960; change FLOONET_FOURTH_HARD_FORK with 642240;
    destruct (bool_decide (env = FLOONET)); repeat (match goal with |- context [?a <? ?b] => destruct (Z.ltb_spec a b) end); lia.
Qed.

(** the archive height of a header is a multiple of the interval, at least
    the threshold below the header unless there is no such block, and every
    height in between that is a multiple of the interval is below it. *)
Theorem GetTxHashSetArchiveHeight_spec env height :
  0 <= height < 2 ^ 64 ->
  let a := GetTxHashSetArchiveHeight env height in
  let i := GetTxHashSetArchiveInterval env in
  (i | a) /\ 0 <= a /\ a <= Z.max 0 (height - STATE_SYNC_THRESHOLD) < a + i /\
  (forall h', (i | h') -> 0 <= h' <= Z.max 0 (height - STATE_SYNC_THRESHOLD) -> h' <= a).
Proof.
  intros Hh a i. set (t := Z.max 0 (height - STATE_SYNC_THRESHOLD)).
  assert (0 < i) as Hi by (unfold i, GetTxHashSetArchiveInterval; destruct (bool_decide _); done).
  assert (a = t - t mod i) as Ea.
  { unfold a, GetTxHashSetArchiveHeight. fold i.
    assert ((if height >? STATE_SYNC_THRESHOLD then (height - STATE_SYNC_THRESHOLD)%u64 else 0) = t) as ->.
    { unfold t. change STATE_SYNC_THRESHOLD with 2880. destruct (Z.gtb_spec height 2880); [rewrite uint_small by uint_solve|]; lia. }
    pose proof (Z.mod_pos_bound t i Hi). pose proof (Z.mod_le t i ltac:(unfold t; lia) Hi). unfold t in *. change STATE_SYNC_THRESHOLD with 2880 in *.
    by rewrite uint_small by uint_solve. }
  pose proof (Z.mod_pos_bound t i Hi). pose proof (Z.mod_le t i ltac:(unfold t; lia) Hi). pose proof (Z.div_mod t i ltac:(lia)).
  split; [exists (t / i); lia|]. split; [lia|]. split; [lia|].
  intros h' [q ->] Hq. destruct (Z.le_gt_cases (q * i) a); [done|]. exfalso.
  assert (q <= t / i) by (apply Z.div_le_lower_bound; lia). nia.
Qed.

(** ** Evaluation *)

Lemma GetHeaderVersion_monotone_witness :
  1 <= GetHeaderVersion MAINNET 262079 <= GetHeaderVersion MAINNET 262080 /\ GetHeaderVersion MAINNET 262080 = 2.
Proof. split; [|reflexivity]. apply (GetHeaderVersion_monotone MAINNET 262079 262080). lia. Defined.

Lemma GetTxHashSetArchiveHeight_spec_witness :
  (720 | GetTxHashSetArchiveHeight MAINNET 5000) /\ GetTxHashSetArchiveHeight MAINNET 5000 = 1440.
Proof. split; [|reflexivity]. apply (GetTxHashSetArchiveHeight_spec MAINNET 5000). lia. Defined.
