(* ===== verification/UInt128.v ===== *)
(** * 128-bit integers ([src/PoW/uint128.cpp], [uint128.h])

    Two 64-bit halves.  The operations are shown to be those of the integers
    modulo [2 ^ 128]; the division is long division on the bits. *)
From S2P Require Import Prelude.

Record uint128 := mkU128 { UPPER : Z; LOWER : Z }.

Definition uint128_0 : uint128 := mkU128 0 0.
Definition uint128_1 : uint128 := mkU128 0 1.

(** The conversion from an unsigned 64-bit integer, and to [bool] and back. *)
Definition u128_of (rhs : Z) : uint128 := mkU128 0 rhs.
Definition u128_bool (x : uint128) : bool := negb (Z.lor (UPPER x) (LOWER x) =? 0).
Definition u128_to_u64 (x : uint128) : Z := LOWER x.

Definition u128_and (x rhs : uint128) : uint128 := mkU128 (Z.land (UPPER x) (UPPER rhs)) (Z.land (LOWER x) (LOWER rhs)).
Definition u128_or (x rhs : uint128) : uint128 := mkU128 (Z.lor (UPPER x) (UPPER rhs)) (Z.lor (LOWER x) (LOWER rhs)).
Definition u128_xor (x rhs : uint128) : uint128 := mkU128 (Z.lxor (UPPER x) (UPPER rhs)) (Z.lxor (LOWER x) (LOWER rhs)).
Definition u128_not (x : uint128) : uint128 := mkU128 (uint 64 (Z.lnot (UPPER x))) (uint 64 (Z.lnot (LOWER x))).

Definition u128_shl (x rhs : uint128) : uint128 :=
  let shift := LOWER rhs in
  if negb (UPPER rhs =? 0) || (shift >=? 128) then uint128_0
  else if shift =? 64 then mkU128 (LOWER x) 0
  else if shift =? 0 then x
  else if shift <? 64 then mkU128 ((UPPER x << shift)%u64 + (LOWER x >> (64 - shift))%u64)%u64 (LOWER x << shift)%u64
  else if (128 >? shift) && (shift >? 64) then mkU128 (LOWER x << (shift - 64))%u64 0
  else uint128_0.

Definition u128_shr (x rhs : uint128) : uint128 :=
  let shift := LOWER rhs in
  if negb (UPPER rhs =? 0) || (shift >=? 128) then uint128_0
  else if shift =? 64 then mkU128 0 (UPPER x)
  else if shift =? 0 then x
  else if shift <? 64 then mkU128 (UPPER x >> shift)%u64 ((UPPER x << (64 - shift))%u64 + (LOWER x >> shift)%u64)%u64
  else if (128 >? shift) && (shift >? 64) then mkU128 0 (UPPER x >> (shift - 64))%u64
  else uint128_0.

Definition u128_eq (x rhs : uint128) : bool := (UPPER x =? UPPER rhs) && (LOWER x =? LOWER rhs).
Definition u128_ne (x rhs : uint128) : bool := negb (UPPER x =? UPPER rhs) || negb (LOWER x =? LOWER rhs).
Definition u128_gt (x rhs : uint128) : bool := if UPPER x =? UPPER rhs then LOWER x >? LOWER rhs else UPPER x >? UPPER rhs.
Definition u128_lt (x rhs : uint128) : bool := if UPPER x =? UPPER rhs then LOWER x <? LOWER rhs else UPPER x <? UPPER rhs.
Definition u128_ge (x rhs : uint128) : bool := u128_gt x rhs || u128_eq x rhs.
Definition u128_le (x rhs : uint128) : bool := u128_lt x rhs || u128_eq x rhs.

(** A comparison of two numbers counts as 0 or 1. *)
Definition u128_add (x rhs : uint128) : uint128 :=
  mkU128 (UPPER x + UPPER rhs + Z.b2z ((LOWER x + LOWER rhs)%u64 <? LOWER x))%u64 (LOWER x + LOWER rhs)%u64.
Definition u128_sub (x rhs : uint128) : uint128 :=
  mkU128 (UPPER x - UPPER rhs - Z.b2z ((LOWER x - LOWER rhs)%u64 >? LOWER x))%u64 (LOWER x - LOWER rhs)%u64.

(** Schoolbook multiplication on 32-bit digits; [product x y] is
    [products[3 - x][y]] of the source, so that its row [r] has [x = 3 - r]. *)
Definition low32 (z : Z) : Z := Z.land z 0xffffffff.
Definition high32 (z : Z) : Z := Z.shiftr z 32.

Definition u128_mul (x rhs : uint128) : uint128 :=
  let product a b := (a * b)%u64 in
  let '(t0, t1, t2, t3) := (high32 (UPPER x), low32 (UPPER x), high32 (LOWER x), low32 (LOWER x)) in
  let '(b0, b1, b2, b3) := (high32 (UPPER rhs), low32 (UPPER rhs), high32 (LOWER rhs), low32 (LOWER rhs)) in
  (* first row *)
  let fourth32 := low32 (product t3 b3) in
  let third32 := (low32 (product t3 b2) + high32 (product t3 b3))%u64 in
  let second32 := (low32 (product t3 b1) + high32 (product t3 b2))%u64 in
  let first32 := (low32 (product t3 b0) + high32 (product t3 b1))%u64 in
  (* second row *)
  let third32 := (third32 + low32 (product t2 b3))%u64 in
  let second32 := (second32 + (low32 (product t2 b2) + high32 (product t2 b3)))%u64 in
  let first32 := (first32 + (low32 (product t2 b1) + high32 (product t2 b2)))%u64 in
  (* third row *)
  let second32 := (second32 + low32 (product t1 b3))%u64 in
  let first32 := (first32 + (low32 (product t1 b2) + high32 (product t1 b3)))%u64 in
  (* fourth row *)
  let first32 := (first32 + low32 (product t0 b3))%u64 in
  (* carries *)
  let third32 := (third32 + high32 fourth32)%u64 in
  let second32 := (second32 + high32 third32)%u64 in
  let first32 := (first32 + high32 second32)%u64 in
  let fourth32 := low32 fourth32 in
  let third32 := low32 third32 in
  let second32 := low32 second32 in
  let first32 := low32 first32 in
  mkU128 (Z.lor (first32 << 32)%u64 second32) (Z.lor (third32 << 32)%u64 fourth32).

Definition u128_incr (x : uint128) : uint128 := u128_add x uint128_1.
Definition u128_decr (x : uint128) : uint128 := u128_sub x uint128_1.
Definition u128_neg (x : uint128) : uint128 := u128_add (u128_not x) uint128_1.

(** [while (v) { v >>= 1; out++; }]: 64 turns suffice for 64 bits. *)
Fixpoint bits_loop (fuel : nat) (v out : Z) : Z :=
  if v =? 0 then out
  else match fuel with
       | O => out
       | S fuel => bits_loop fuel (Z.shiftr v 1) (uint 8 (out + 1))
       end.

Definition u128_bits (x : uint128) : Z :=
  if negb (UPPER x =? 0) then bits_loop 64 (UPPER x) 64 else bits_loop 64 (LOWER x) 0.

(** The loop of [divmod] for [x], [x - 1], ..., 1. *)
Fixpoint divmod_loop (x : nat) (lhs rhs : uint128) (qr : uint128 * uint128) : uint128 * uint128 :=
  match x with
  | O => qr
  | S x' =>
      let '(q, r) := qr in
      let q := u128_shl q uint128_1 in
      let r := u128_shl r uint128_1 in
      let r := if u128_bool (u128_and (u128_shr lhs (u128_of x')) (u128_of 1)) then u128_incr r else r in
      let '(q, r) := if u128_ge r rhs then (u128_incr q, u128_sub r rhs) else (q, r) in
      divmod_loop x' lhs rhs (q, r)
  end.

Definition u128_divmod (lhs rhs : uint128) : result (uint128 * uint128) :=
  if u128_eq rhs uint128_0 then Throw RuntimeError
  else if u128_eq rhs uint128_1 then Ok (lhs, uint128_0)
  else if u128_eq lhs rhs then Ok (uint128_1, uint128_0)
  else if u128_eq lhs uint128_0 || u128_lt lhs rhs then Ok (uint128_0, lhs)
  else Ok (divmod_loop (Z.to_nat (u128_bits lhs)) lhs rhs (uint128_0, uint128_0)).

Definition u128_div (x rhs : uint128) : result uint128 := '(q, _) ← u128_divmod x rhs; mret q.
Definition u128_mod (x rhs : uint128) : result uint128 := '(_, r) ← u128_divmod x rhs; mret r.

(** ** Values *)

Definition u128_val (x : uint128) : Z := UPPER x * 2 ^ 64 + LOWER x.
Definition u128_wf (x : uint128) : Prop := is_uint 64 (UPPER x) /\ is_uint 64 (LOWER x).
Definition u128_represents (x : uint128) (z : Z) : Prop := u128_wf x /\ u128_val x = z.

Lemma u128_val_range x : u128_wf x -> 0 <= u128_val x < 2 ^ 128.
Proof. unfold u128_wf, u128_val, is_uint. change (2 ^ 128) with (2 ^ 64 * 2 ^ 64). lia. Qed.

Lemma u128_represents_unique x y z : u128_represents x z -> u128_represents y z -> x = y.
Proof.
  destruct x as [xu xl], y as [yu yl]. unfold u128_represents, u128_wf, u128_val, is_uint. cbn [UPPER LOWER].
  intros [Hx <-] [Hy E]. f_equal; lia.
Qed.

(** The halves of a number below [2 ^ 128]. *)
Lemma u128_split z : 0 <= z < 2 ^ 128 -> u128_represents (mkU128 (z / 2 ^ 64) (z mod 2 ^ 64)) z.
Proof.
  intros Hz. change (2 ^ 128) with (2 ^ 64 * 2 ^ 64) in Hz. pose proof (Z.div_mod z (2 ^ 64)). pose proof (Z.mod_pos_bound z (2 ^ 64)).
  unfold u128_represents, u128_wf, u128_val, is_uint. cbn [UPPER LOWER].
  assert (0 <= z / 2 ^ 64 < 2 ^ 64) by (split; [apply Z.div_pos|apply Z.div_lt_upper_bound]; lia). lia.
Qed.

(** A pair of halves wrapped at 64 bits has the value modulo [2 ^ 128]. *)
Lemma u128_mod_val u l z : is_uint 64 l -> (u * 2 ^ 64 + l) mod 2 ^ 128 = z mod 2 ^ 128 ->
  u128_represents (mkU128 (uint 64 u) l) (z mod 2 ^ 128).
Proof.
  intros Hl <-. split; [split; [apply uint_range; lia|done]|]. unfold u128_val, uint. cbn [UPPER LOWER].
  unfold is_uint in Hl. pose proof (Z.mod_pos_bound u (2 ^ 64)). pose proof (Z.div_mod u (2 ^ 64)).
  apply Z.mod_unique_pos with (u / 2 ^ 64); change (2 ^ 128) with (2 ^ 64 * 2 ^ 64); lia.
Qed.

Section ops.
Context (x y : uint128) (Hx : u128_wf x) (Hy : u128_wf y).

Lemma u128_add_ok : u128_represents (u128_add x y) ((u128_val x + u128_val y) mod 2 ^ 128).
Proof.
  destruct x as [xu xl], y as [yu yl]. destruct Hx as [Hxu Hxl], Hy as [Hyu Hyl]. cbn [UPPER LOWER] in *.
  unfold u128_add, u128_val. cbn [UPPER LOWER]. unfold is_uint in *.
  apply u128_mod_val; [apply uint_range; lia|]. f_equal. unfold uint.
  pose proof (Z.div_mod (xl + yl) (2 ^ 64)). pose proof (Z.mod_pos_bound (xl + yl) (2 ^ 64)).
  destruct (Z.ltb_spec ((xl + yl) mod 2 ^ 64) xl); cbn [Z.b2z]; nia.
Qed.

Lemma u128_sub_ok : u128_represents (u128_sub x y) ((u128_val x - u128_val y) mod 2 ^ 128).
Proof.
  destruct x as [xu xl], y as [yu yl]. destruct Hx as [Hxu Hxl], Hy as [Hyu Hyl]. cbn [UPPER LOWER] in *.
  unfold u128_sub, u128_val. cbn [UPPER LOWER]. unfold is_uint in *.
  apply u128_mod_val; [apply uint_range; lia|]. f_equal. unfold uint.
  pose proof (Z.div_mod (xl - yl) (2 ^ 64)). pose proof (Z.mod_pos_bound (xl - yl) (2 ^ 64)).
  destruct (Z.gtb_spec ((xl - yl) mod 2 ^ 64) xl); cbn [Z.b2z]; nia.
Qed.

Lemma u128_compare_ok :
  u128_eq x y = (u128_val x =? u128_val y) /\ u128_ne x y = negb (u128_val x =? u128_val y) /\
  u128_lt x y = (u128_val x <? u128_val y) /\ u128_gt x y = (u128_val x >? u128_val y) /\
  u128_le x y = (u128_val x <=? u128_val y) /\ u128_ge x y = (u128_val x >=? u128_val y).
Proof.
  destruct x as [xu xl], y as [yu yl]. destruct Hx as [Hxu Hxl], Hy as [Hyu Hyl]. cbn [UPPER LOWER] in *.
  unfold u128_ge, u128_le, u128_eq, u128_ne, u128_lt, u128_gt, u128_val. cbn [UPPER LOWER]. unfold is_uint in *.
  destruct (Z.eqb_spec xu yu) as [<-|], (Z.eqb_spec xl yl) as [<-|]; cbn [andb negb orb]; rewrite ?orb_false_r, ?orb_true_r;
    repeat split; lia.
Qed.

End ops.

(** *** Shifts *)

Lemma u128_shl_ok x n : u128_wf x -> 0 <= n < 2 ^ 64 -> u128_represents (u128_shl x (u128_of n)) ((u128_val x * 2 ^ n) mod 2 ^ 128).
Proof.
  intros [Hu Hl] Hn. destruct x as [u l]. unfold u128_shl, u128_of, u128_val. cbn [UPPER LOWER] in *. cbn [Z.eqb negb orb].
  unfold is_uint in *. destruct (Z.geb_spec n 128).
  { replace n with ((n - 128) + 128) by lia. rewrite Z.pow_add_r, Z.mul_assoc, Z.mod_mul by lia. by apply (u128_split 0). }
  destruct (Z.eqb_spec n 64) as [->|].
  { rewrite <- (uint_small 64 l) at 1 by done. apply u128_mod_val; [unfold is_uint; lia|].
    replace ((u * 2 ^ 64 + l) * 2 ^ 64) with (l * 2 ^ 64 + 0 + u * 2 ^ 128) by lia. by rewrite Z.mod_add by lia. }
  destruct (Z.eqb_spec n 0) as [->|].
  { rewrite Z.pow_0_r, Z.mul_1_r, Z.mod_small by (change (2 ^ 128) with (2 ^ 64 * 2 ^ 64); lia). done. }
  destruct (Z.ltb_spec n 64).
  - assert (2 ^ 64 = 2 ^ n * 2 ^ (64 - n)) as Ep by (rewrite <- Z.pow_add_r by lia; f_equal; lia).
    rewrite !Z.shiftl_mul_pow2, Z.shiftr_div_pow2 by lia.
    pose proof (Z.div_mod l (2 ^ (64 - n)) ltac:(lia)) as Ed. pose proof (Z.mod_pos_bound l (2 ^ (64 - n)) ltac:(lia)) as Hm.
    assert (uint 64 (l * 2 ^ n) = (l mod 2 ^ (64 - n)) * 2 ^ n) as El.
    { unfold uint. symmetry. apply Z.mod_unique_pos with (l / 2 ^ (64 - n)); nia. }
    assert ((uint 64 (u * 2 ^ n) + l / 2 ^ (64 - n))%u64 = uint 64 (u * 2 ^ n + l / 2 ^ (64 - n))) as ->
      by (unfold uint; by rewrite Zplus_mod_idemp_l).
    rewrite El. apply u128_mod_val; [unfold is_uint; nia|]. f_equal. rewrite Ed at 3. rewrite Ep. ring.
  - destruct (Z.gtb_spec 128 n); [|lia]. destruct (Z.gtb_spec n 64); [|lia]. cbn [andb].
    rewrite Z.shiftl_mul_pow2 by lia. apply u128_mod_val; [unfold is_uint; lia|].
    assert (2 ^ n = 2 ^ (n - 64) * 2 ^ 64) as -> by (rewrite <- Z.pow_add_r by lia; f_equal; lia).
    replace ((u * 2 ^ 64 + l) * (2 ^ (n - 64) * 2 ^ 64)) with (l * 2 ^ (n - 64) * 2 ^ 64 + 0 + (u * 2 ^ (n - 64)) * 2 ^ 128)
      by (change (2 ^ 128) with (2 ^ 64 * 2 ^ 64); ring). by rewrite Z.mod_add by lia.
Qed.

Lemma u128_shr_ok x n : u128_wf x -> 0 <= n < 2 ^ 64 -> u128_represents (u128_shr x (u128_of n)) (u128_val x / 2 ^ n).
Proof.
  intros Hx Hn. pose proof (u128_val_range x Hx) as Hr. destruct Hx as [Hu Hl]. destruct x as [u l].
  unfold u128_shr, u128_of, u128_val in *. cbn [UPPER LOWER] in *. cbn [Z.eqb negb orb].
  unfold is_uint in *. destruct (Z.geb_spec n 128).
  { rewrite Z.div_small; [by apply (u128_split 0)|]. pose proof (Z.pow_le_mono_r 2 128 n). lia. }
  assert (forall a b, is_uint 64 b -> is_uint 64 a -> u128_represents (mkU128 a b) (a * 2 ^ 64 + b)) as Hrep by done.
  destruct (Z.eqb_spec n 64) as [->|].
  { rewrite Z.add_comm, Z.div_add, Z.div_small by lia. apply (Hrep 0 u); unfold is_uint; lia. }
  destruct (Z.eqb_spec n 0) as [->|]; [rewrite Z.pow_0_r, Z.div_1_r; by apply Hrep|].
  destruct (Z.ltb_spec n 64).
  - assert (2 ^ 64 = 2 ^ n * 2 ^ (64 - n)) as Ep by (rewrite <- Z.pow_add_r by lia; f_equal; lia).
    assert (0 < 2 ^ n) by (apply Z.pow_pos_nonneg; lia). assert (0 < 2 ^ (64 - n)) by (apply Z.pow_pos_nonneg; lia).
    rewrite !Z.shiftl_mul_pow2, !Z.shiftr_div_pow2 by lia.
    pose proof (Z.div_mod u (2 ^ n) ltac:(lia)) as Eu. pose proof (Z.mod_pos_bound u (2 ^ n) ltac:(lia)) as Hm.
    assert (0 <= l / 2 ^ n < 2 ^ (64 - n)) by (split; [apply Z.div_pos|apply Z.div_lt_upper_bound]; lia).
    assert (0 <= u / 2 ^ n < 2 ^ 64) by (split; [apply Z.div_pos; lia|apply Z.div_lt_upper_bound; nia]).
    assert (uint 64 (u * 2 ^ (64 - n)) = (u mod 2 ^ n) * 2 ^ (64 - n)) as ->.
    { unfold uint. symmetry. apply Z.mod_unique_pos with (u / 2 ^ n); nia. }
    rewrite uint_small by (unfold is_uint; nia).
    assert ((u * 2 ^ 64 + l) / 2 ^ n = u / 2 ^ n * 2 ^ 64 + (u mod 2 ^ n * 2 ^ (64 - n) + l / 2 ^ n)) as ->; [|apply Hrep; unfold is_uint; nia].
    rewrite Z.add_comm. replace (u * 2 ^ 64) with ((u * 2 ^ (64 - n)) * 2 ^ n) by (rewrite Ep; ring). rewrite Z.div_add by lia.
    rewrite Eu at 1. rewrite Ep. ring.
  - destruct (Z.gtb_spec 128 n); [|lia]. destruct (Z.gtb_spec n 64); [|lia]. cbn [andb]. rewrite Z.shiftr_div_pow2 by lia.
    assert (0 < 2 ^ (n - 64)) by (apply Z.pow_pos_nonneg; lia).
    assert (2 ^ n = 2 ^ 64 * 2 ^ (n - 64)) as -> by (rewrite <- Z.pow_add_r by lia; f_equal; lia).
    rewrite <- Z.div_div by lia. rewrite (Z.add_comm _ l), Z.div_add, (Z.div_small l) by lia. apply (Hrep 0); unfold is_uint; [|lia].
    cbn [Z.add]. split; [apply Z.div_pos; lia|]. apply Z.div_lt_upper_bound; nia.
Qed.

(** *** Multiplication *)

Lemma low32_high32 z : 0 <= z -> z = high32 z * 2 ^ 32 + low32 z /\ 0 <= low32 z < 2 ^ 32 /\ 0 <= high32 z.
Proof.
  intros Hz. unfold high32, low32. change 0xffffffff with (Z.ones 32). rewrite Z.land_ones, Z.shiftr_div_pow2 by lia.
  pose proof (Z.div_mod z (2 ^ 32)). pose proof (Z.mod_pos_bound z (2 ^ 32)). pose proof (Z.div_pos z (2 ^ 32)). lia.
Qed.

Lemma lor_digits a b : 0 <= a < 2 ^ 32 -> 0 <= b < 2 ^ 32 -> Z.lor (a << 32)%u64 b = a * 2 ^ 32 + b.
Proof.
  intros Ha Hb. rewrite Z.shiftl_mul_pow2 by lia. rewrite uint_small by uint_solve.
  assert (Z.land (a * 2 ^ 32) b = 0) as Hland.
  { apply Z.bits_inj'. intros n Hn. rewrite Z.land_spec, Z.bits_0. destruct (Z.lt_ge_cases n 32).
    - by rewrite Z.mul_pow2_bits_low by lia.
    - rewrite <- (Z.mod_small b (2 ^ 32)) by lia. by rewrite (Z.mod_pow2_bits_high b), andb_false_r by lia. }
  by rewrite Z.add_nocarry_lxor, Z.lxor_lor.
Qed.

Lemma product_digits a b : 0 <= a < 2 ^ 32 -> 0 <= b < 2 ^ 32 ->
  exists p, (a * b)%u64 = p /\ p = a * b /\ 0 <= p /\ p = high32 p * 2 ^ 32 + low32 p /\ 0 <= low32 p < 2 ^ 32 /\ 0 <= high32 p < 2 ^ 32.
Proof.
  intros Ha Hb. exists (a * b). rewrite uint_small by (unfold is_uint; nia). assert (0 <= a * b) as Hp by nia.
  destruct (low32_high32 (a * b) Hp) as (E & Hl & Hh). split; [done|]. split; [done|]. split; [done|]. split; [done|]. split; [done|]. nia.
Qed.

Lemma uint_plus_l a b : (uint 64 a + b)%u64 = (a + b)%u64.
Proof. unfold uint. apply Zplus_mod_idemp_l. Qed.

Lemma uint_plus_l2 a b c : uint 64 (uint 64 a + b + c) = uint 64 (a + b + c).
Proof. by rewrite <- !Z.add_assoc, uint_plus_l. Qed.
Lemma uint_plus_l3 a b c d : uint 64 (uint 64 a + b + c + d) = uint 64 (a + b + c + d).
Proof. by rewrite <- !Z.add_assoc, uint_plus_l. Qed.

Lemma uint_plus_l4 a b c d e : uint 64 (uint 64 a + b + c + d + e) = uint 64 (a + b + c + d + e).
Proof. by rewrite <- !Z.add_assoc, uint_plus_l. Qed.

Lemma u128_mul_ok x y : u128_wf x -> u128_wf y -> u128_represents (u128_mul x y) ((u128_val x * u128_val y) mod 2 ^ 128).
Proof.
  intros [Hxu Hxl] [Hyu Hyl]. destruct x as [xu xl], y as [yu yl]. unfold u128_val, is_uint in *. cbn [UPPER LOWER] in *.
  unfold u128_mul. cbn [UPPER LOWER].
  destruct (low32_high32 xu) as (E1 & L1 & H1); [lia|]. destruct (low32_high32 xl) as (E2 & L2 & H2); [lia|].
  destruct (low32_high32 yu) as (E3 & L3 & H3); [lia|]. destruct (low32_high32 yl) as (E4 & L4 & H4); [lia|].
  set (t0 := high32 xu) in *. set (t1 := low32 xu) in *. set (t2 := high32 xl) in *. set (t3 := low32 xl) in *.
  set (b0 := high32 yu) in *. set (b1 := low32 yu) in *. set (b2 := high32 yl) in *. set (b3 := low32 yl) in *.
  assert (0 <= t0 < 2 ^ 32 /\ 0 <= t2 < 2 ^ 32 /\ 0 <= b0 < 2 ^ 32 /\ 0 <= b2 < 2 ^ 32) as (T0 & T2 & B0 & B2) by lia.
  clearbody t0 t1 t2 t3 b0 b1 b2 b3.
  destruct (product_digits t3 b3) as (p33 & -> & P33 & _ & Q33 & R33 & S33); [done|done|].
  destruct (product_digits t3 b2) as (p32 & -> & P32 & _ & Q32 & R32 & S32); [done|done|].
  destruct (product_digits t3 b1) as (p31 & -> & P31 & _ & Q31 & R31 & S31); [done|done|].
  destruct (product_digits t3 b0) as (p30 & -> & P30 & _ & Q30 & R30 & S30); [done|done|].
  destruct (product_digits t2 b3) as (p23 & -> & P23 & _ & Q23 & R23 & S23); [done|done|].
  destruct (product_digits t2 b2) as (p22 & -> & P22 & _ & Q22 & R22 & S22); [done|done|].
  destruct (product_digits t2 b1) as (p21 & -> & P21 & _ & Q21 & R21 & S21); [done|done|].
  destruct (product_digits t1 b3) as (p13 & -> & P13 & _ & Q13 & R13 & S13); [done|done|].
  destruct (product_digits t1 b2) as (p12 & -> & P12 & _ & Q12 & R12 & S12); [done|done|].
  destruct (product_digits t0 b3) as (p03 & -> & P03 & _ & Q03 & R03 & S03); [done|done|].
  (* the digits with their carries *)
  repeat (rewrite uint_plus_l || rewrite uint_plus_l2 || rewrite uint_plus_l3 || rewrite uint_plus_l4). set (d3 := low32 p33). destruct (low32_high32 d3) as (F3 & LF3 & HF3); [lia|].
  rewrite (uint_small 64 (low32 p32 + high32 p33 + low32 p23 + high32 d3)) by (unfold is_uint; lia).
  set (d2 := low32 p32 + high32 p33 + low32 p23 + high32 d3). destruct (low32_high32 d2) as (F2 & LF2 & HF2); [lia|].
  rewrite (uint_small 64 (low32 p31 + high32 p32 + (low32 p22 + high32 p23) + low32 p13 + high32 d2)) by (unfold is_uint; lia).
  set (d1 := low32 p31 + high32 p32 + (low32 p22 + high32 p23) + low32 p13 + high32 d2). destruct (low32_high32 d1) as (F1 & LF1 & HF1); [lia|].
  rewrite (uint_small 64 (low32 p30 + high32 p31 + (low32 p21 + high32 p22) + (low32 p12 + high32 p13) + low32 p03 + high32 d1)) by (unfold is_uint; lia).
  set (d0 := low32 p30 + high32 p31 + (low32 p21 + high32 p22) + (low32 p12 + high32 p13) + low32 p03 + high32 d1).
  destruct (low32_high32 d0) as (F0 & LF0 & HF0); [lia|].
  rewrite !lor_digits by done.
  split; [unfold u128_wf, is_uint; cbn [UPPER LOWER]; lia|]. unfold u128_val. cbn [UPPER LOWER].
  apply Z.mod_unique_pos with (high32 d0 + high32 p30 + high32 p21 + high32 p12 + high32 p03
    + (t2 * b0 + t1 * b1 + t0 * b2 + 2 ^ 32 * (t1 * b0 + t0 * b1) + 2 ^ 64 * (t0 * b0))); [lia|].
  rewrite E1, E2, E3, E4.
  transitivity (p33 + 2 ^ 32 * (p32 + p23) + 2 ^ 64 * (p31 + p22 + p13) + 2 ^ 96 * (p30 + p21 + p12 + p03)
    + 2 ^ 128 * (t2 * b0 + t1 * b1 + t0 * b2 + 2 ^ 32 * (t1 * b0 + t0 * b1) + 2 ^ 64 * (t0 * b0))).
  { rewrite P33, P32, P23, P31, P22, P13, P30, P21, P12, P03. ring. }
  generalize (t2 * b0 + t1 * b1 + t0 * b2 + 2 ^ 32 * (t1 * b0 + t0 * b1) + 2 ^ 64 * (t0 * b0)). intros rest.
  clear P33 P32 P23 P31 P22 P13 P30 P21 P12 P03 E1 E2 E3 E4. unfold d0, d1, d2, d3 in *. lia.
Qed.

(** *** Division *)

Lemma bits_loop_spec (fuel : nat) v out : 0 <= v < 2 ^ fuel -> 0 <= out -> out + fuel < 256 ->
  bits_loop fuel v out = if v =? 0 then out else out + Z.log2 v + 1.
Proof.
  revert v out. induction fuel as [|fuel IH]; intros v out Hv Ho Hf; cbn [bits_loop].
  - change (2 ^ 0%nat) with 1 in Hv. assert (v = 0) as -> by lia. done.
  - destruct (Z.eqb_spec v 0) as [->|Hn]; [done|]. rewrite pow2_S in Hv. rewrite uint_small by uint_solve.
    rewrite Z.shiftr_div_pow2 by lia. change (2 ^ 1) with 2.
    assert (0 <= v / 2 < 2 ^ fuel) by (split; [apply Z.div_pos; lia|apply Z.div_lt_upper_bound; lia]).
    rewrite IH by lia. destruct (Z.eqb_spec (v / 2) 0) as [E|E].
    + apply Z.div_small_iff in E; [|lia]. assert (v = 1) as -> by lia. change (Z.log2 1) with 0. lia.
    + assert (1 < v) by (destruct (Z.eq_dec v 1) as [->|]; [by destruct E|lia]).
      pose proof (Z.log2_shiftr v 1 ltac:(lia)) as El.
      rewrite Z.shiftr_div_pow2 in El by lia. change (2 ^ 1) with 2 in El. pose proof (Z.log2_pos v ltac:(lia)). lia.
Qed.

Lemma u128_bits_spec x : u128_wf x -> 0 <= u128_bits x <= 128 /\ u128_val x < 2 ^ u128_bits x.
Proof.
  intros [Hu Hl]. destruct x as [u l]. unfold u128_bits, u128_val, is_uint in *. cbn [UPPER LOWER] in *.
  destruct (Z.eqb_spec u 0) as [->|]; cbn [negb].
  - rewrite (bits_loop_spec 64) by (done || lia). destruct (Z.eqb_spec l 0) as [->|]; [done|].
    pose proof (Z.log2_spec l ltac:(lia)). pose proof (Z.log2_nonneg l). assert (Z.log2 l < 64) by (apply Z.log2_lt_pow2; lia).
    replace (0 + Z.log2 l + 1) with (Z.succ (Z.log2 l)) by lia. lia.
  - rewrite (bits_loop_spec 64) by (done || lia). destruct (Z.eqb_spec u 0); [lia|].
    pose proof (Z.log2_spec u ltac:(lia)) as Hs. pose proof (Z.log2_nonneg u). assert (Z.log2 u < 64) by (apply Z.log2_lt_pow2; lia).
    split; [lia|]. replace (64 + Z.log2 u + 1) with (Z.succ (Z.log2 u) + 64) by lia. rewrite Z.pow_add_r by lia. nia.
Qed.

(** The test of bit [n] in the loop. *)
Lemma u128_bit_ok x n : u128_wf x -> 0 <= n < 2 ^ 64 ->
  u128_bool (u128_and (u128_shr x (u128_of n)) (u128_of 1)) = Z.odd (u128_val x / 2 ^ n).
Proof.
  intros Hx Hn. destruct (u128_shr_ok x n Hx Hn) as [Hw <-]. destruct (u128_shr x (u128_of n)) as [u l].
  unfold u128_bool, u128_and, u128_of, u128_val. cbn [UPPER LOWER]. rewrite Z.land_0_r. cbn [Z.lor].
  change 1 with (Z.ones 1) at 1. rewrite Z.land_ones by lia. change (2 ^ 1) with 2.
  rewrite Z.odd_add. change (2 ^ 64) with (2 * 2 ^ 63). replace (u * (2 * 2 ^ 63)) with (2 * (u * 2 ^ 63)) by ring.
  rewrite Z.odd_mul. cbn [Z.odd andb xorb]. rewrite Zmod_odd. by destruct (Z.odd l).
Qed.

Lemma divmod_loop_ok (x : nat) lhs rhs q r :
  u128_wf lhs -> u128_wf rhs -> 0 < u128_val rhs -> x <= 128 ->
  u128_represents q (u128_val lhs / 2 ^ x / u128_val rhs) -> u128_represents r ((u128_val lhs / 2 ^ x) mod u128_val rhs) ->
  let '(q', r') := divmod_loop x lhs rhs (q, r) in
  u128_represents q' (u128_val lhs / u128_val rhs) /\ u128_represents r' (u128_val lhs mod u128_val rhs).
Proof.
  intros Hl Hr Hpos. revert q r. induction x as [|x IH]; intros q r Hx Hq Hrem; cbn [divmod_loop].
  - change (2 ^ 0%nat) with 1 in *. rewrite Z.div_1_r in *. done.
  - set (L := u128_val lhs) in *. set (R := u128_val rhs) in *. set (A := L / 2 ^ x). pose proof (u128_val_range lhs Hl) as HL. fold L in HL.
    pose proof (u128_val_range rhs Hr) as HR. fold R in HR.
    assert (0 < 2 ^ x) by (apply Z.pow_pos_nonneg; lia).
    assert (0 <= A < 2 ^ 128).
    { split; [apply Z.div_pos; lia|]. apply Z.div_lt_upper_bound; nia. }
    assert (L / 2 ^ S x = A / 2) as EA by (unfold A; rewrite pow2_S, Z.mul_comm, <- Z.div_div by lia; done).
    rewrite EA in *. set (B := A / 2) in *.
    assert (A = 2 * B + Z.b2z (Z.odd A)) as EB by (unfold B; rewrite <- Z.div2_div; apply Z.div2_odd).
    pose proof (Z.div_mod B R ltac:(lia)) as ED. pose proof (Z.mod_pos_bound B R Hpos) as HM.
    assert (0 <= Z.b2z (Z.odd A) <= 1) by (destruct (Z.odd A); simpl; lia).
    assert (0 <= B) by (apply Z.div_pos; lia). assert (0 <= B / R) by (apply Z.div_pos; lia).
    destruct Hq as [Hqw Hqv], Hrem as [Hrw Hrv].
    (* the quotient and the remainder, doubled *)
    destruct (u128_shl_ok q 1 Hqw ltac:(lia)) as [Hq1w Hq1v]. destruct (u128_shl_ok r 1 Hrw ltac:(lia)) as [Hr1w Hr1v].
    change (u128_of 1) with uint128_1 in *. rewrite Hqv in Hq1v. rewrite Hrv in Hr1v. change (2 ^ 1) with 2 in *.
    rewrite Z.mod_small in Hq1v by nia. rewrite Z.mod_small in Hr1v by nia.
    pose proof (u128_bit_ok lhs x Hl ltac:(lia)) as Hbit. change (u128_of 1) with uint128_1 in Hbit. change (u128_of 1) with uint128_1. rewrite Hbit. fold L A.
    assert (exists r1, u128_represents r1 (B mod R * 2 + Z.b2z (Z.odd A)) /\
      (if Z.odd A then u128_incr (u128_shl r uint128_1) else u128_shl r uint128_1) = r1) as (r1 & [Hw1 Hv1] & ->).
    { eexists. split; [|reflexivity]. destruct (Z.odd A); cbn [Z.b2z].
      - destruct (u128_add_ok (u128_shl r uint128_1) uint128_1 Hr1w ltac:(done)) as [Hw Hv]. split; [done|].
        unfold u128_incr. rewrite Hv, Hr1v. change (u128_val uint128_1) with 1. apply Z.mod_small. nia.
      - rewrite Z.add_0_r. done. }
    destruct (u128_compare_ok r1 rhs Hw1 Hr) as (_ & _ & _ & _ & _ & ->). rewrite Hv1. fold R.
    destruct (Z.geb_spec (B mod R * 2 + Z.b2z (Z.odd A)) R).
    + destruct (u128_add_ok (u128_shl q uint128_1) uint128_1 Hq1w ltac:(done)) as [Hw2 Hv2].
      destruct (u128_sub_ok r1 rhs Hw1 Hr) as [Hw3 Hv3]. apply IH; [lia|split; [done|]|split; [done|]]; fold A.
      * unfold u128_incr. rewrite Hv2, Hq1v. change (u128_val uint128_1) with 1. rewrite Z.mod_small by nia.
        apply Z.div_unique_pos with (B mod R * 2 + Z.b2z (Z.odd A) - R); nia.
      * rewrite Hv3, Hv1. fold R. rewrite Z.mod_small by nia. apply Z.mod_unique_pos with (B / R * 2 + 1); nia.
    + apply IH; [lia|split; [done|]|split; [done|]]; fold A.
      * rewrite Hq1v. apply Z.div_unique_pos with (B mod R * 2 + Z.b2z (Z.odd A)); nia.
      * rewrite Hv1. apply Z.mod_unique_pos with (B / R * 2); nia.
Qed.

Lemma u128_divmod_ok lhs rhs :
  u128_wf lhs -> u128_wf rhs ->
  match u128_divmod lhs rhs with
  | Ok (q, r) => 0 < u128_val rhs /\ u128_represents q (u128_val lhs / u128_val rhs) /\ u128_represents r (u128_val lhs mod u128_val rhs)
  | Throw e => e = RuntimeError /\ u128_val rhs = 0
  end.
Proof.
  intros Hl Hr. pose proof (u128_val_range rhs Hr) as HR. pose proof (u128_val_range lhs Hl) as HL. unfold u128_divmod.
  assert (u128_wf uint128_0) as Hz by done. assert (u128_wf uint128_1) as Ho by done.
  destruct (u128_compare_ok rhs uint128_0 Hr Hz) as (-> & _). destruct (u128_compare_ok rhs uint128_1 Hr Ho) as (-> & _).
  destruct (u128_compare_ok lhs rhs Hl Hr) as (-> & _ & -> & _). destruct (u128_compare_ok lhs uint128_0 Hl Hz) as (-> & _).
  change (u128_val uint128_0) with 0. change (u128_val uint128_1) with 1.
  destruct (Z.eqb_spec (u128_val rhs) 0) as [E|]; [done|].
  destruct (Z.eqb_spec (u128_val rhs) 1) as [->|]; [rewrite Z.div_1_r, Z.mod_1_r; done|].
  destruct (Z.eqb_spec (u128_val lhs) (u128_val rhs)) as [->|]; [rewrite Z.div_same, Z.mod_same by done; split; [lia|done]|].
  destruct (Z.eqb_spec (u128_val lhs) 0) as [El|]; cbn [orb].
  { rewrite El, Z.div_0_l, Z.mod_0_l by done. split; [lia|]. split; [done|]. by split. }
  destruct (Z.ltb_spec (u128_val lhs) (u128_val rhs)).
  { rewrite Z.div_small, Z.mod_small by lia. split; [lia|]. split; [done|]. by split. }
  destruct (u128_bits_spec lhs Hl) as [Hb Hlt].
  pose proof (divmod_loop_ok (Z.to_nat (u128_bits lhs)) lhs rhs uint128_0 uint128_0 Hl Hr) as Hm.
  rewrite Z2Nat.id, (Z.div_small (u128_val lhs) (2 ^ u128_bits lhs)), Z.div_0_l, Z.mod_0_l in Hm by lia.
  destruct (divmod_loop _ _ _ _) as [q r]. split; [lia|]. apply Hm; [lia|lia|done|done].
Qed.

Lemma u128_div_ok x y : u128_wf x -> u128_wf y -> 0 < u128_val y ->
  exists q, u128_div x y = Ok q /\ u128_represents q (u128_val x / u128_val y).
Proof.
  intros Hx Hy Hpos. unfold u128_div. pose proof (u128_divmod_ok x y Hx Hy) as H. destruct (u128_divmod x y) as [[q r]|e]; [|lia].
  destruct H as (_ & H & _). by exists q.
Qed.

(** ** Properties *)

(** addition, subtraction, multiplication and negation of two halves are
    those of the integers modulo [2 ^ 128], and the comparisons their order. *)
Theorem uint128_arithmetic x y :
  u128_wf x -> u128_wf y ->
  u128_represents (u128_add x y) ((u128_val x + u128_val y) mod 2 ^ 128) /\
  u128_represents (u128_sub x y) ((u128_val x - u128_val y) mod 2 ^ 128) /\
  u128_represents (u128_mul x y) ((u128_val x * u128_val y) mod 2 ^ 128) /\
  u128_represents (u128_neg x) ((- u128_val x) mod 2 ^ 128) /\
  u128_eq x y = (u128_val x =? u128_val y) /\ u128_lt x y = (u128_val x <? u128_val y) /\
  u128_gt x y = (u128_val x >? u128_val y) /\ u128_le x y = (u128_val x <=? u128_val y) /\
  u128_ge x y = (u128_val x >=? u128_val y) /\ u128_ne x y = negb (u128_val x =? u128_val y).
Proof.
  intros Hx Hy. destruct (u128_compare_ok x y Hx Hy) as (E1 & E2 & E3 & E4 & E5 & E6).
  split; [by apply u128_add_ok|]. split; [by apply u128_sub_ok|]. split; [by apply u128_mul_ok|].
  split; [|by rewrite E1, E2, E3, E4, E5, E6].
  assert (u128_represents (u128_not x) (2 ^ 128 - 1 - u128_val x)) as [Hn En].
  { destruct x as [u l]. destruct Hx as [Hu Hl]. unfold u128_represents, u128_not, u128_wf, u128_val, is_uint in *. cbn [UPPER LOWER] in *.
    assert (forall z, 0 <= z < 2 ^ 64 -> uint 64 (Z.lnot z) = 2 ^ 64 - 1 - z) as Hnot.
    { intros z Hz. unfold uint, Z.lnot. symmetry. apply Z.mod_unique_pos with (-1); lia. }
    rewrite !Hnot by done. lia. }
  unfold u128_neg. pose proof (u128_add_ok (u128_not x) uint128_1 Hn ltac:(done)) as H. rewrite En in H.
  change (u128_val uint128_1) with 1 in H. replace (2 ^ 128 - 1 - u128_val x + 1) with (- u128_val x + 1 * 2 ^ 128) in H by lia.
  by rewrite Z.mod_add in H by lia.
Qed.

(** the shifts multiply and divide by a power of two, also across the halves
    and from 128 on. *)
Theorem uint128_shifts x n :
  u128_wf x -> 0 <= n < 2 ^ 64 ->
  u128_represents (u128_shl x (u128_of n)) ((u128_val x * 2 ^ n) mod 2 ^ 128) /\
  u128_represents (u128_shr x (u128_of n)) (u128_val x / 2 ^ n).
Proof. intros Hx Hn. split; [by apply u128_shl_ok|by apply u128_shr_ok]. Qed.

(** the long division terminates with quotient and remainder, and throws for
    the divisor zero only. *)
Theorem uint128_divmod lhs rhs :
  u128_wf lhs -> u128_wf rhs ->
  match u128_divmod lhs rhs with
  | Ok (q, r) => 0 < u128_val rhs /\ u128_represents q (u128_val lhs / u128_val rhs) /\ u128_represents r (u128_val lhs mod u128_val rhs)
  | Throw e => e = RuntimeError /\ u128_val rhs = 0
  end.
Proof. apply u128_divmod_ok. Qed.

(** ** Evaluation *)

Lemma uint128_arithmetic_witness :
  u128_represents (u128_mul (mkU128 3 (2 ^ 64 - 1)) (mkU128 5 7)) (((3 * 2 ^ 64 + (2 ^ 64 - 1)) * (5 * 2 ^ 64 + 7)) mod 2 ^ 128).
Proof. apply (uint128_arithmetic (mkU128 3 (2 ^ 64 - 1)) (mkU128 5 7)); by vm_compute. Defined.

Lemma uint128_shifts_witness : u128_represents (u128_shl (mkU128 1 3) (u128_of 70)) ((1 * 2 ^ 64 + 3) * 2 ^ 70 mod 2 ^ 128).
Proof. apply (uint128_shifts (mkU128 1 3) 70); by vm_compute. Defined.

Lemma uint128_divmod_witness :
  match u128_divmod (mkU128 5 1) (mkU128 0 (2 ^ 63)) with
  | Ok (q, r) => u128_val q = 10 /\ u128_val r = 1
  | Throw _ => False
  end.
Proof.
  pose proof (uint128_divmod (mkU128 5 1) (mkU128 0 (2 ^ 63)) ltac:(by vm_compute) ltac:(by vm_compute)) as H.
  destruct (u128_divmod _ _) as [[q r]|e]; [|destruct H as [_ H]; vm_compute in H; discriminate].
  destruct H as (_ & [_ Hq] & [_ Hr]). rewrite Hq, Hr. split; vm_compute; reflexivity.
Defined.
