(* ===== verification/BitUtil.v ===== *)
(** * Bit utilities ([include/Common/Util/BitUtil.h]) *)
From S2P Require Import Prelude.

(** [BitUtil::FillOnesToRight]: smear the highest set bit to the right. *)
Definition FillOnesToRight (input : Z) : Z :=
  let x := input in
  let x := Z.lor x (Z.shiftr x 1) in
  let x := Z.lor x (Z.shiftr x 2) in
  let x := Z.lor x (Z.shiftr x 4) in
  let x := Z.lor x (Z.shiftr x 8) in
  let x := Z.lor x (Z.shiftr x 16) in
  let x := Z.lor x (Z.shiftr x 32) in
  x.

(** The [while (n)] loop of [BitUtil::CountBitsSet]; [count] is a [uint8_t]. *)
Fixpoint CountBitsSet_loop (fuel : nat) (n count : Z) : Z :=
  match fuel with
  | O => count
  | S fuel =>
      if n =? 0 then count
      else CountBitsSet_loop fuel (Z.shiftr n 1)
             (uint 8 (count + uint 8 (Z.land n 1)))
  end.

Definition CountBitsSet (input : Z) : Z := CountBitsSet_loop 64 input 0.

(** [BitUtil::IsSet]: bit 0 is the least significant one. *)
Definition IsSet (byte bit : Z) : bool := Z.land byte (Z.shiftl 1 bit) >? 0.

Definition ConvertToU16 (byte1 byte2 : Z) : Z :=
  Z.lor (Z.shiftl byte1 8) byte2.

Definition ConvertToU32 (byte1 byte2 byte3 byte4 : Z) : Z :=
  Z.lor (Z.lor (Z.lor (Z.shiftl byte1 24) (Z.shiftl byte2 16)) (Z.shiftl byte3 8)) byte4.

Definition ConvertToU64 (byte1 byte2 byte3 byte4 byte5 byte6 byte7 byte8 : Z) : Z :=
  Z.lor (Z.lor (Z.lor (Z.lor (Z.lor (Z.lor (Z.lor
    (Z.shiftl byte1 56) (Z.shiftl byte2 48)) (Z.shiftl byte3 40)) (Z.shiftl byte4 32))
    (Z.shiftl byte5 24)) (Z.shiftl byte6 16)) (Z.shiftl byte7 8)) byte8.

(** ** Population count: the reference for [CountBitsSet] *)
Fixpoint pos_pop (p : positive) : Z :=
  match p with
  | xH => 1
  | xO p => pos_pop p
  | xI p => 1 + pos_pop p
  end.

Definition pop (z : Z) : Z := match z with Zpos p => pos_pop p | _ => 0 end.

Lemma pop_even n : pop (2 * n) = pop n.
Proof. by destruct n. Qed.

Lemma pop_odd n : 0 <= n -> pop (2 * n + 1) = 1 + pop n.
Proof. destruct n; done || lia. Qed.

Lemma pop_nonneg n : 0 <= pop n.
Proof. destruct n as [|p|p]; simpl; [lia| |lia]. induction p; simpl; lia. Qed.

Lemma pop_le n : 0 <= n -> pop n <= n.
Proof. destruct n as [|p|p]; simpl; [lia| |lia]. intros _. induction p; simpl; lia. Qed.

(** Induction on the binary digits of a non-negative integer. *)
Lemma binary_ind (P : Z -> Prop) :
  P 0 -> (forall n, 0 < n -> P n -> P (2 * n)) -> (forall n, 0 <= n -> P n -> P (2 * n + 1)) ->
  forall n, 0 <= n -> P n.
Proof.
  intros H0 He Ho [|p|p] Hn; [done| |lia].
  induction p as [p IH|p IH|].
  - apply (Ho (Zpos p)); auto with lia.
  - apply (He (Zpos p)); auto with lia.
  - apply (Ho 0); [lia|done].
Qed.

Lemma pop_succ n : 0 <= n -> pop (n + 1) <= pop n + 1.
Proof.
  intros Hn. revert n Hn. apply binary_ind; [done| |]; intros n Hn IH.
  - rewrite pop_odd, pop_even by lia. lia.
  - replace (2 * n + 1 + 1) with (2 * (n + 1)) by lia.
    rewrite pop_even, pop_odd by lia. lia.
Qed.

(** The digits of [i * 2^k + r] are those of [i] followed by those of [r]. *)
Lemma pop_concat (k : nat) i r :
  0 <= i -> 0 <= r < 2 ^ k -> pop (i * 2 ^ k + r) = pop i + pop r.
Proof.
  revert r. induction k as [|k IH]; intros r Hi Hr.
  - replace r with 0 by (rewrite pow2_0 in Hr; lia).
    rewrite pow2_0. replace (i * 1 + 0) with i by lia. simpl. lia.
  - rewrite pow2_S in *.
    destruct (Z.Even_or_Odd r) as [[q ->]|[q ->]].
    + replace (i * (2 * 2 ^ k) + 2 * q) with (2 * (i * 2 ^ k + q)) by lia.
      rewrite !pop_even. apply IH; lia.
    + replace (i * (2 * 2 ^ k) + (2 * q + 1)) with (2 * (i * 2 ^ k + q) + 1) by lia.
      rewrite !pop_odd by nia. rewrite IH by lia. lia.
Qed.

Lemma pop_pow2 (k : nat) : pop (2 ^ k) = 1.
Proof.
  replace (2 ^ k) with (1 * 2 ^ k + 0) by lia. by rewrite pop_concat by lia.
Qed.

Lemma pop_ones (k : nat) : pop (2 ^ k - 1) = k.
Proof.
  induction k as [|k IH]; [done|].
  rewrite pow2_S.
  replace (2 * 2 ^ k - 1) with (2 * (2 ^ k - 1) + 1) by lia.
  rewrite pop_odd by lia. lia.
Qed.

Lemma pop_bound (k : nat) n : 0 <= n < 2 ^ k -> pop n <= k.
Proof.
  revert n. induction k as [|k IH]; intros n Hn.
  - replace n with 0 by (rewrite pow2_0 in Hn; lia). done.
  - rewrite pow2_S in *.
    destruct (Z.Even_or_Odd n) as [[q ->]|[q ->]].
    + rewrite pop_even. specialize (IH q). lia.
    + rewrite pop_odd by lia. specialize (IH q). lia.
Qed.

(** [CountBitsSet] computes the population count of every 64-bit word. *)
Lemma CountBitsSet_loop_pop (fuel : nat) n c :
  0 <= n < 2 ^ fuel -> 0 <= c -> c + fuel < 256 ->
  CountBitsSet_loop fuel n c = c + pop n.
Proof.
  revert n c. induction fuel as [|f IH]; intros n c Hn Hc Hf; simpl.
  - replace n with 0 by (rewrite pow2_0 in Hn; lia). simpl. lia.
  - rewrite pow2_S in Hn.
    destruct (Z.eqb_spec n 0) as [->|Hne]; [simpl; lia|].
    rewrite <- Z.div2_spec.
    destruct (Z.Even_or_Odd n) as [[q ->]|[q ->]].
    + replace (Z.land (2 * q) 1) with 0 by (rewrite Z.land_ones with (n := 1), Z.mul_comm, Z.mod_mul; lia).
      rewrite pop_even, Z.div2_div, Z.mul_comm, Z.div_mul by lia.
      rewrite (uint_small 8 0), uint_small by uint_solve. rewrite IH by lia. lia.
    + replace (Z.land (2 * q + 1) 1) with 1
        by (rewrite Z.land_ones with (n := 1), Z.add_comm, Z.mul_comm, Z.mod_add; done).
      replace (Z.div2 (2 * q + 1)) with q by (rewrite Z.div2_div; apply Z.div_unique with 1; lia).
      rewrite pop_odd by lia.
      rewrite (uint_small 8 1), uint_small by uint_solve. rewrite IH by lia. lia.
Qed.

Lemma CountBitsSet_pop n : is_uint 64 n -> CountBitsSet n = pop n.
Proof.
  intros Hn. unfold CountBitsSet. rewrite CountBitsSet_loop_pop; [lia|exact Hn|lia|lia].
Qed.

(** ** [FillOnesToRight] rounds up to a full power of two minus one *)

(** [filled x n y]: bit [i] of [y] is set iff one of the bits [i .. i+n-1] of [x] is. *)
Definition filled (x n y : Z) : Prop :=
  forall i, 0 <= i -> (Z.testbit y i = true <-> exists j, 0 <= j < n /\ Z.testbit x (i + j) = true).

Lemma filled_start x : filled x 1 x.
Proof.
  intros i Hi. split.
  - intros H. exists 0. split; [lia|]. by rewrite Z.add_0_r.
  - intros (j & Hj & H). replace (i + j) with i in H by lia. done.
Qed.

Lemma filled_step x n y s :
  0 <= s <= n -> filled x n y -> filled x (n + s) (Z.lor y (Z.shiftr y s)).
Proof.
  intros Hs Hf i Hi. rewrite Z.lor_spec, Z.shiftr_spec, orb_true_iff by lia.
  rewrite (Hf i), (Hf (i + s)) by lia. split.
  - intros [(j & Hj & H)|(j & Hj & H)].
    + exists j. split; [lia|done].
    + exists (j + s). split; [lia|]. by replace (i + (j + s)) with (i + s + j) by lia.
  - intros (j & Hj & H). destruct (decide (j < n)).
    + left. exists j. split; [lia|done].
    + right. exists (j - s). split; [lia|]. by replace (i + s + (j - s)) with (i + j) by lia.
Qed.

Lemma FillOnesToRight_filled x : filled x 64 (FillOnesToRight x).
Proof.
  unfold FillOnesToRight.
  apply (filled_step x 32); [lia|]. apply (filled_step x 16); [lia|].
  apply (filled_step x 8); [lia|]. apply (filled_step x 4); [lia|].
  apply (filled_step x 2); [lia|]. apply (filled_step x 1); [lia|].
  apply filled_start.
Qed.

Lemma FillOnesToRight_spec x :
  0 < x < 2 ^ 64 -> FillOnesToRight x = 2 ^ (Z.log2 x + 1) - 1.
Proof.
  intros Hx. pose proof (Z.log2_nonneg x) as Hl.
  assert (Z.log2 x < 64) by (apply Z.log2_lt_pow2; lia).
  rewrite Z.sub_1_r, <- Z.ones_equiv.
  apply Z.bits_inj'. intros i Hi.
  pose proof (FillOnesToRight_filled x i Hi) as Hf.
  destruct (decide (i < Z.log2 x + 1)).
  - rewrite Z.ones_spec_low by lia. apply Hf.
    exists (Z.log2 x - i). split; [lia|].
    replace (i + (Z.log2 x - i)) with (Z.log2 x) by lia. apply Z.bit_log2. lia.
  - rewrite Z.ones_spec_high by lia. apply not_true_iff_false. rewrite Hf.
    intros (j & Hj & Hb). rewrite Z.bits_above_log2 in Hb by lia. done.
Qed.

Lemma FillOnesToRight_0 : FillOnesToRight 0 = 0.
Proof. reflexivity. Qed.

(** Shifting a block of ones right by one drops one of them. *)
Lemma ones_shiftr k : 0 <= k -> Z.shiftr (2 ^ (k + 1) - 1) 1 = 2 ^ k - 1.
Proof.
  intros Hk. rewrite <- Z.div2_spec, Z.div2_div, Z.pow_add_r by lia.
  symmetry. apply Z.div_unique with 1; lia.
Qed.

(** Bitwise operations stay within the width. *)
Lemma uint_land_ones w z : 0 <= w -> uint w z = Z.land z (Z.ones w).
Proof. intros Hw. unfold uint. by rewrite Z.land_ones. Qed.

Lemma uint_fixed w z : 0 <= w -> is_uint w z <-> uint w z = z.
Proof. intros Hw. split; [apply uint_small|]. intros <-. by apply uint_range. Qed.

Lemma uint_lor w a b : 0 <= w -> is_uint w a -> is_uint w b -> is_uint w (Z.lor a b).
Proof.
  intros Hw Ha Hb. rewrite uint_fixed, uint_land_ones in * by done. by rewrite Z.land_lor_distr_l, Ha, Hb.
Qed.

Lemma uint_land w a b : 0 <= w -> is_uint w a -> is_uint w (Z.land a b).
Proof.
  intros Hw Ha. rewrite uint_fixed, uint_land_ones in * by done. by rewrite <- Z.land_assoc, (Z.land_comm b), Z.land_assoc, Ha.
Qed.
