(* ===== verification/MMRIndex.v ===== *)
(** * Positions of an MMR ([include/PMMR/Common/Index.h], [LeafIndex.h],
    [src/PMMR/Common/Index.cpp])

    An MMR is stored in post-order; [Index] pairs a position with its height and
    [LeafIndex] pairs the number of a leaf with its position.  The reference
    is the closed form [node_pos h i]: the position of the [i]-th node of height
    [h].  Every position is [node_pos h i] for exactly one [(h, i)], and each
    operation of the two classes is characterised in these coordinates. *)
From S2P Require Import Prelude BitUtil.

Record Index := mkIndex { m_position : Z; m_height : Z }.

#[export] Instance Index_eq_dec : EqDecision Index.
Proof. solve_decision. Defined.

(** ** [Index] *)

(** The [while (peakSize != 0)] loop of [Index::CalculateHeight]. *)
Fixpoint CalculateHeight_loop (fuel : nat) (peakSize height : Z) : Z :=
  match fuel with
  | O => height
  | S fuel =>
      if peakSize =? 0 then height
      else CalculateHeight_loop fuel (peakSize >> 1)%u64
             (if height >=? peakSize then (height - peakSize)%u64 else height)
  end.

Definition CalculateHeight (position : Z) : Z :=
  CalculateHeight_loop 64 (FillOnesToRight position) position.

(** The loop of [Index::CalculateLeafIndex]. *)
Fixpoint CalculateLeafIndex_loop (fuel : nat) (peakSize numLeft leafIndex : Z) : Z :=
  match fuel with
  | O => leafIndex
  | S fuel =>
      if peakSize =? 0 then leafIndex
      else if numLeft >=? peakSize
      then CalculateLeafIndex_loop fuel (peakSize >> 1)%u64 (numLeft - peakSize)%u64
             (leafIndex + (peakSize + 1)%u64 / 2)%u64
      else CalculateLeafIndex_loop fuel (peakSize >> 1)%u64 numLeft leafIndex
  end.

Definition CalculateLeafIndex (position : Z) : Z :=
  CalculateLeafIndex_loop 64 (FillOnesToRight position) position 0.

Definition Index_At (position : Z) : Index :=
  mkIndex position (CalculateHeight position).

Definition Index_IsLeaf (idx : Index) : bool := m_height idx =? 0.

Definition Index_GetLeafIndex (idx : Index) : Z := CalculateLeafIndex (m_position idx).

Definition Index_GetNext (idx : Index) : Index := Index_At (m_position idx + 1)%u64.
Definition Index_sub (idx : Index) (dec : Z) : Index := Index_At (m_position idx - dec)%u64.
Definition Index_add (idx : Index) (inc : Z) : Index := Index_At (m_position idx + inc)%u64.

Definition Index_GetParent (idx : Index) : Index :=
  if CalculateHeight (m_position idx + 1)%u64 =? (m_height idx + 1)%u64
  then mkIndex (m_position idx + 1)%u64 (m_height idx + 1)%u64
  else mkIndex (m_position idx + (1 << (m_height idx + 1)))%u64 (m_height idx + 1)%u64.

Definition Index_GetSibling (idx : Index) : Index :=
  if CalculateHeight (m_position idx + 1)%u64 =? (m_height idx + 1)%u64
  then mkIndex ((m_position idx + 1) - (1 << (m_height idx + 1)))%u64 (m_height idx)
  else mkIndex ((m_position idx + (1 << (m_height idx + 1))) - 1)%u64 (m_height idx).

Definition Index_GetLeftChild (idx : Index) : Index :=
  mkIndex (m_position idx - (1 << m_height idx))%u64 (m_height idx - 1)%u64.

Definition Index_GetRightChild (idx : Index) : Index :=
  mkIndex (m_position idx - 1)%u64 (m_height idx - 1)%u64.

(** ** [LeafIndex] *)

Record LeafIndex := mkLeafIndex { m_leafIndex : Z; m_nodeIndex : Index }.

(** The constructor [LeafIndex(leafIndex, position)]: the node has height 0. *)
Definition LeafIndex_new (leafIndex position : Z) : LeafIndex :=
  mkLeafIndex leafIndex (mkIndex position 0).

Definition LeafIndex_At (leafIndex : Z) : LeafIndex :=
  LeafIndex_new leafIndex ((2 * leafIndex) - CountBitsSet leafIndex)%u64.

Definition LeafIndex_From (mmr_idx : Index) : LeafIndex :=
  LeafIndex_new (Index_GetLeafIndex mmr_idx) (m_position mmr_idx).

Definition LeafIndex_AtPos (mmr_idx : Z) : LeafIndex := LeafIndex_From (Index_At mmr_idx).

Definition LeafIndex_GetPosition (l : LeafIndex) : Z := m_position (m_nodeIndex l).
Definition LeafIndex_Next (l : LeafIndex) : LeafIndex := LeafIndex_At (m_leafIndex l + 1)%u64.
Definition LeafIndex_Prev (l : LeafIndex) : LeafIndex := LeafIndex_At (m_leafIndex l - 1)%u64.

(** ** Coordinates *)

(** Position of the [i]-th node of height [h], counting from 0. *)
Definition node_pos (h i : Z) : Z := 2 ^ (h + 1) * (i + 1) - 2 - pop i.

(** Number of nodes of an MMR with [n] leaves. *)
Definition mmr_size (n : Z) : Z := 2 * n - pop n.

(** The positions the theorems speak about: far beyond any real MMR, and small
    enough for no 64-bit operation on a node or its parent to overflow. *)
Definition pos_ok (p : Z) : Prop := 0 <= p < 2 ^ 62.

Lemma node_pos_leaf i : node_pos 0 i = mmr_size i.
Proof. unfold node_pos, mmr_size. change (2 ^ (0 + 1)) with 2. lia. Qed.

Lemma node_pos_root (k : nat) : node_pos k 0 = 2 * 2 ^ k - 2.
Proof. unfold node_pos. rewrite Z.pow_add_r by lia. simpl pop. lia. Qed.

Lemma pow_split k h : 0 <= h <= k -> 2 ^ k = 2 ^ h * 2 ^ (k - h).
Proof. intros. rewrite <- Z.pow_add_r by lia. f_equal. lia. Qed.

(** The right subtree of a perfect tree is a copy of the left one. *)
Lemma node_pos_right (k : nat) h i :
  0 <= h <= k -> 0 <= i < 2 ^ (k - h) ->
  node_pos h (2 ^ (k - h) + i) = 2 ^ (k + 1) - 1 + node_pos h i.
Proof.
  intros Hh Hi. unfold node_pos.
  replace (2 ^ (k - h) + i) with (1 * 2 ^ Z.to_nat (k - h) + i) by (rewrite Z2Nat.id; lia).
  rewrite pop_concat by (rewrite ?Z2Nat.id; lia). rewrite Z2Nat.id by lia.
  rewrite (pow_split (k + 1) (h + 1)) by lia.
  replace (k + 1 - (h + 1)) with (k - h) by lia. simpl pop. nia.
Qed.

Lemma node_pos_lower h i : 0 <= h -> 0 <= i -> 2 ^ h * (i + 1) - 1 <= node_pos h i.
Proof.
  intros Hh Hi. unfold node_pos. rewrite Z.pow_add_r by lia.
  pose proof (pop_le i Hi). pose proof (Z.pow_pos_nonneg 2 h). nia.
Qed.

Lemma node_pos_nonneg h i : 0 <= h -> 0 <= i -> 0 <= node_pos h i.
Proof.
  intros Hh Hi. pose proof (node_pos_lower h i Hh Hi).
  pose proof (Z.pow_pos_nonneg 2 h). nia.
Qed.

(** Nodes in the left half of a perfect tree of height [S k] come before its
    right half. *)
Lemma node_pos_bound (k : nat) h i :
  0 <= h <= k -> 0 <= i < 2 ^ (k - h) -> node_pos h i <= 2 ^ (k + 1) - 2.
Proof.
  intros Hh Hi. unfold node_pos. rewrite (pow_split (k + 1) (h + 1)) by lia.
  replace (k + 1 - (h + 1)) with (k - h) by lia.
  pose proof (pop_nonneg i). pose proof (Z.pow_pos_nonneg 2 (h + 1)). nia.
Qed.

(** ** Heights *)

Lemma CalculateHeight_loop_root (j : nat) (fuel : nat) c :
  (j <= fuel)%nat -> -2 <= c -> 2 ^ (j + 1) + c < 2 ^ 64 ->
  CalculateHeight_loop fuel (2 ^ j - 1) (2 ^ (j + 1) + c) = c + 2 + j.
Proof.
  revert fuel c. induction j as [|j IH]; intros fuel c Hf Hc Hb.
  - rewrite pow2_0. change (2 ^ (0%nat + 1)) with 2.
    destruct fuel; simpl; lia.
  - destruct fuel as [|fuel]; [lia|]. cbn [CalculateHeight_loop].
    pose proof (pow2_pos j). pose proof (pow2_1 j). rewrite pow2_S, pow2_S1 in *.
    replace (Z.shiftr (2 * 2 ^ j - 1) 1) with (2 ^ j - 1)
      by (rewrite <- pow2_1, ones_shiftr; lia).
    destruct (Z.eqb_spec (2 * 2 ^ j - 1) 0); [lia|].
    rewrite Z.geb_leb. destruct (Z.leb_spec (2 * 2 ^ j - 1) (2 * 2 ^ (j + 1) + c)); [|lia].
    uint_id. replace (2 * 2 ^ (j + 1) + c - (2 * 2 ^ j - 1)) with (2 ^ (j + 1) + (c + 1)) by lia.
    rewrite IH by lia. lia.
Qed.

(** The loop run on a node of a perfect tree of height [k] returns its height. *)
Lemma CalculateHeight_loop_node (k fuel : nat) h i :
  (k <= fuel)%nat -> (k < 63)%nat -> 0 <= h <= k -> 0 <= i < 2 ^ (k - h) ->
  CalculateHeight_loop fuel (2 ^ k - 1) (node_pos h i) = h.
Proof.
  revert fuel h i. induction k as [|k IH]; intros fuel h i Hf Hk Hh Hi.
  - assert (h = 0) as -> by lia. assert (i = 0) as -> by (change (2 ^ (0%nat - 0)) with 1 in Hi; lia).
    destruct fuel; reflexivity.
  - destruct (decide (h = S k)) as [->|Hne].
    { rewrite Z.sub_diag, Z.pow_0_r in Hi. assert (i = 0) as -> by lia.
      rewrite node_pos_root. replace (2 * 2 ^ S k - 2) with (2 ^ (S k + 1) + -2) by (rewrite pow2_1; lia).
      rewrite CalculateHeight_loop_root; [lia|lia|lia|].
      assert (2 ^ (S k + 1) <= 2 ^ 63) by (apply Z.pow_le_mono_r; lia). lia. }
    destruct fuel as [|fuel]; [lia|]. cbn [CalculateHeight_loop].
    pose proof (pow2_pos k). pose proof (pow2_1 k).
    assert (2 ^ (k + 1) <= 2 ^ 63) by (apply Z.pow_le_mono_r; lia).
    rewrite pow2_S in *.
    replace (Z.shiftr (2 * 2 ^ k - 1) 1) with (2 ^ k - 1) by (rewrite <- pow2_1, ones_shiftr; lia).
    destruct (Z.eqb_spec (2 * 2 ^ k - 1) 0); [lia|].
    replace (2 ^ (S k - h)) with (2 * 2 ^ (k - h)) in Hi
      by (rewrite <- pow2_1 by lia; f_equal; lia).
    rewrite Z.geb_leb. destruct (decide (i < 2 ^ (k - h))) as [Hl|Hr].
    + pose proof (node_pos_bound k h i ltac:(lia) ltac:(lia)).
      destruct (Z.leb_spec (2 * 2 ^ k - 1) (node_pos h i)); [lia|]. apply IH; lia.
    + replace i with (2 ^ (k - h) + (i - 2 ^ (k - h))) by lia.
      set (i' := i - 2 ^ (k - h)). rewrite node_pos_right by lia.
      pose proof (node_pos_bound k h i' ltac:(lia) ltac:(lia)).
      pose proof (node_pos_nonneg h i').
      destruct (Z.leb_spec (2 * 2 ^ k - 1) (2 ^ (k + 1) - 1 + node_pos h i')); [|lia].
      uint_id. replace (2 ^ (k + 1) - 1 + node_pos h i' - (2 * 2 ^ k - 1)) with (node_pos h i') by lia.
      apply IH; lia.
Qed.

(** A position lies in the perfect tree whose root has height [log2 pos + 1]. *)
Lemma node_pos_log2 h i :
  0 <= h -> 0 <= i -> 0 < node_pos h i ->
  h <= Z.log2 (node_pos h i) + 1 /\ i < 2 ^ (Z.log2 (node_pos h i) + 1 - h).
Proof.
  intros Hh Hi Hp. set (K := Z.log2 (node_pos h i) + 1).
  pose proof (Z.log2_nonneg (node_pos h i)).
  pose proof (Z.log2_spec _ Hp) as [_ Hlt]. fold K in Hlt.
  pose proof (node_pos_lower h i Hh Hi) as Hlow. pose proof (pow2_pos h Hh).
  assert (2 ^ h * (i + 1) <= 2 ^ K) as HK by (unfold K in *; rewrite <- Z.add_1_r in Hlt; lia).
  assert (h <= K) as HhK.
  { destruct (decide (h <= K)); [done|]. assert (2 ^ K < 2 ^ h) by (apply Z.pow_lt_mono_r; lia). nia. }
  split; [done|]. rewrite (pow_split K h) in HK by lia. nia.
Qed.

Lemma CalculateHeight_node h i :
  0 <= h -> 0 <= i -> pos_ok (node_pos h i) -> CalculateHeight (node_pos h i) = h.
Proof.
  intros Hh Hi [Hp0 Hp]. unfold CalculateHeight.
  destruct (decide (node_pos h i = 0)) as [E|E].
  - pose proof (node_pos_lower h i Hh Hi) as Hl. rewrite E in *. simpl.
    destruct (decide (h = 0)) as [->|]; [done|].
    assert (2 ^ 1 <= 2 ^ h) by (apply Z.pow_le_mono_r; lia). nia.
  - pose proof (node_pos_log2 h i Hh Hi ltac:(lia)) as [HK HiK].
    assert (Z.log2 (node_pos h i) < 62) by (apply Z.log2_lt_pow2; lia).
    pose proof (Z.log2_nonneg (node_pos h i)).
    rewrite FillOnesToRight_spec by lia.
    rewrite <- (Z2Nat.id (Z.log2 (node_pos h i) + 1)) by lia.
    apply CalculateHeight_loop_node; rewrite ?Z2Nat.id; lia.
Qed.

Lemma Index_At_node h i :
  0 <= h -> 0 <= i -> pos_ok (node_pos h i) ->
  Index_At (node_pos h i) = mkIndex (node_pos h i) h.
Proof. intros. unfold Index_At. by rewrite CalculateHeight_node. Qed.

(** ** Leaf numbers *)

Lemma CalculateLeafIndex_loop_node (k fuel : nat) i acc :
  (k <= fuel)%nat -> (k < 63)%nat -> 0 <= i < 2 ^ k -> 0 <= acc -> acc + i < 2 ^ 64 ->
  CalculateLeafIndex_loop fuel (2 ^ k - 1) (node_pos 0 i) acc = acc + i.
Proof.
  revert fuel i acc. induction k as [|k IH]; intros fuel i acc Hf Hk Hi Ha Hb.
  - rewrite pow2_0 in *. assert (i = 0) as -> by lia. destruct fuel; simpl; lia.
  - destruct fuel as [|fuel]; [lia|]. cbn [CalculateLeafIndex_loop].
    pose proof (pow2_pos k). pose proof (pow2_1 k).
    assert (2 ^ (k + 1) <= 2 ^ 63) by (apply Z.pow_le_mono_r; lia).
    rewrite pow2_S in *.
    replace (Z.shiftr (2 * 2 ^ k - 1) 1) with (2 ^ k - 1) by (rewrite <- pow2_1, ones_shiftr; lia).
    destruct (Z.eqb_spec (2 * 2 ^ k - 1) 0); [lia|].
    rewrite Z.geb_leb. destruct (decide (i < 2 ^ k)) as [Hl|Hr].
    + pose proof (node_pos_bound k 0 i ltac:(lia) ltac:(rewrite Z.sub_0_r; lia)).
      destruct (Z.leb_spec (2 * 2 ^ k - 1) (node_pos 0 i)); [lia|]. apply IH; lia.
    + replace (node_pos 0 i) with (2 ^ (k + 1) - 1 + node_pos 0 (i - 2 ^ k))
        by (rewrite <- node_pos_right by (rewrite ?Z.sub_0_r; lia); rewrite Z.sub_0_r; f_equal; lia).
      set (i' := i - 2 ^ k). assert (i = 2 ^ k + i') by lia.
      pose proof (node_pos_bound k 0 i' ltac:(lia) ltac:(rewrite Z.sub_0_r; lia)).
      pose proof (node_pos_nonneg 0 i').
      destruct (Z.leb_spec (2 * 2 ^ k - 1) (2 ^ (k + 1) - 1 + node_pos 0 i')); [|lia].
      assert (uint 64 (2 * 2 ^ k - 1 + 1) / 2 = 2 ^ k) as ->.
      { uint_id. replace (2 * 2 ^ k - 1 + 1) with (2 ^ k * 2) by lia. by rewrite Z.div_mul. }
      uint_id. replace (2 ^ (k + 1) - 1 + node_pos 0 i' - (2 * 2 ^ k - 1)) with (node_pos 0 i') by lia.
      rewrite IH by lia. lia.
Qed.

Lemma mmr_size_ge n : 0 <= n -> n <= mmr_size n.
Proof. unfold mmr_size. pose proof (pop_le n). lia. Qed.

Lemma mmr_size_pos n : 0 < n -> 0 < mmr_size n.
Proof. pose proof (mmr_size_ge n). lia. Qed.

Lemma CalculateLeafIndex_leaf n :
  0 <= n -> pos_ok (mmr_size n) -> CalculateLeafIndex (mmr_size n) = n.
Proof.
  intros Hn [Hp0 Hp]. unfold CalculateLeafIndex. pose proof (mmr_size_ge n Hn).
  destruct (decide (n = 0)) as [->|Hne]; [reflexivity|].
  rewrite <- node_pos_leaf in *.
  pose proof (node_pos_log2 0 n ltac:(lia) ltac:(lia) ltac:(lia)) as [_ Hlog].
  rewrite Z.sub_0_r in Hlog.
  assert (Z.log2 (node_pos 0 n) < 62) by (apply Z.log2_lt_pow2; lia).
  pose proof (Z.log2_nonneg (node_pos 0 n)).
  rewrite FillOnesToRight_spec by lia.
  rewrite <- (Z2Nat.id (Z.log2 (node_pos 0 n) + 1)) by lia.
  rewrite CalculateLeafIndex_loop_node; rewrite ?Z2Nat.id; lia.
Qed.

Lemma LeafIndex_At_pos n :
  0 <= n -> pos_ok (mmr_size n) -> LeafIndex_At n = mkLeafIndex n (mkIndex (mmr_size n) 0).
Proof.
  intros Hn [Hp0 Hp]. unfold LeafIndex_At, LeafIndex_new. pose proof (mmr_size_ge n Hn).
  unfold mmr_size in *.
  rewrite CountBitsSet_pop by uint_solve. pose proof (pop_le n Hn). pose proof (pop_nonneg n).
  uint_id. done.
Qed.

Lemma LeafIndex_AtPos_leaf n :
  0 <= n -> pos_ok (mmr_size n) -> LeafIndex_AtPos (mmr_size n) = LeafIndex_At n.
Proof.
  intros Hn Hp. rewrite LeafIndex_At_pos by done. unfold LeafIndex_AtPos, LeafIndex_From, LeafIndex_new.
  unfold Index_GetLeafIndex, Index_At. simpl. by rewrite CalculateLeafIndex_leaf.
Qed.

(** ** Every position is a node *)

Lemma node_pos_surj_bounded (k : nat) p :
  0 <= p <= 2 ^ (k + 1) - 2 ->
  exists h i, 0 <= h <= k /\ 0 <= i < 2 ^ (k - h) /\ p = node_pos h i.
Proof.
  revert p. induction k as [|k IH]; intros p Hp.
  - exists 0, 0. change (2 ^ (0%nat + 1)) with 2 in Hp. split; [lia|]. split; [done|].
    unfold node_pos. simpl. lia.
  - rewrite pow2_S1 in Hp. pose proof (pow2_pos (k + 1)).
    destruct (decide (p = 2 * 2 ^ (k + 1) - 2)) as [->|Hne].
    { exists (S k), 0. split; [lia|]. split; [by rewrite Z.sub_diag|].
      rewrite node_pos_root. rewrite pow2_1, pow2_S by lia. lia. }
    destruct (decide (p <= 2 ^ (k + 1) - 2)) as [Hl|Hr].
    + destruct (IH p ltac:(lia)) as (h & i & Hh & Hi & ->). exists h, i.
      split; [lia|]. split; [|done]. split; [lia|]. eapply Z.lt_le_trans; [apply Hi|].
      apply Z.pow_le_mono_r; lia.
    + destruct (IH (p - (2 ^ (k + 1) - 1)) ltac:(lia)) as (h & i & Hh & Hi & E).
      exists h, (2 ^ (k - h) + i). pose proof (pow2_pos (k - h) ltac:(lia)).
      split; [lia|]. split.
      * replace (S k - h) with (k - h + 1) by lia. rewrite pow2_1 by lia. lia.
      * rewrite node_pos_right by lia. lia.
Qed.

Lemma node_pos_surj p : 0 <= p -> exists h i, 0 <= h /\ 0 <= i /\ p = node_pos h i.
Proof.
  intros Hp. destruct (node_pos_surj_bounded (Z.to_nat p) p) as (h & i & Hh & Hi & E).
  - rewrite Z2Nat.id by lia. pose proof (Z.pow_gt_lin_r 2 p ltac:(lia) Hp).
    rewrite pow2_1 by lia. lia.
  - exists h, i. split; [lia|]. split; [lia|done].
Qed.

Lemma node_pos_step h i : 0 <= h -> 0 <= i -> node_pos h i < node_pos h (i + 1).
Proof.
  intros Hh Hi. unfold node_pos. pose proof (pop_succ i Hi).
  rewrite pow2_1 by lia. pose proof (pow2_pos h Hh). nia.
Qed.

Lemma node_pos_mono h i j : 0 <= h -> 0 <= i < j -> node_pos h i < node_pos h j.
Proof.
  intros Hh [Hi Hij]. replace j with (i + 1 + Z.to_nat (j - i - 1)) by lia.
  induction (Z.to_nat (j - i - 1)) as [|d IH].
  - rewrite Z.add_0_r. by apply node_pos_step.
  - replace (i + 1 + S d) with (i + 1 + d + 1) by lia.
    pose proof (node_pos_step h (i + 1 + d)). lia.
Qed.

Lemma mmr_size_mono i j : 0 <= i <= j -> mmr_size i <= mmr_size j.
Proof.
  intros Hij. destruct (decide (i = j)) as [->|]; [lia|].
  rewrite <- !node_pos_leaf. apply Z.lt_le_incl, node_pos_mono; lia.
Qed.

Lemma mmr_size_lt i j : 0 <= i < j -> mmr_size i < mmr_size j.
Proof. intros. rewrite <- !node_pos_leaf. apply node_pos_mono; lia. Qed.

Lemma mmr_size_inj i j : 0 <= i -> 0 <= j -> mmr_size i = mmr_size j -> i = j.
Proof.
  intros Hi Hj E. destruct (Z.lt_trichotomy i j) as [H|[H|H]]; [|done|].
  - pose proof (mmr_size_lt i j). lia.
  - pose proof (mmr_size_lt j i). lia.
Qed.

Lemma node_pos_inj h i h' i' :
  0 <= h -> 0 <= i -> 0 <= h' -> 0 <= i' -> pos_ok (node_pos h i) ->
  node_pos h i = node_pos h' i' -> h = h' /\ i = i'.
Proof.
  intros Hh Hi Hh' Hi' Hok E.
  assert (h = h') as <-.
  { rewrite <- (CalculateHeight_node h i), <- (CalculateHeight_node h' i') by (done || by rewrite <- E).
    by rewrite E. }
  split; [done|]. destruct (Z.lt_trichotomy i i') as [H|[H|H]]; [|done|].
  - pose proof (node_pos_mono h i i' Hh). lia.
  - pose proof (node_pos_mono h i' i Hh). lia.
Qed.

(** ** Parents, siblings and children *)

Lemma node_pos_parent_left h j :
  0 <= h -> 0 <= j -> node_pos (h + 1) j = node_pos h (2 * j) + 2 ^ (h + 1).
Proof. intros. unfold node_pos. rewrite pop_even, !pow2_1 by lia. lia. Qed.

Lemma node_pos_parent_right h j :
  0 <= h -> 0 <= j -> node_pos (h + 1) j = node_pos h (2 * j + 1) + 1.
Proof. intros. unfold node_pos. rewrite pop_odd, !pow2_1 by lia. lia. Qed.

Lemma node_pos_sibling h j :
  0 <= h -> 0 <= j -> node_pos h (2 * j + 1) = node_pos h (2 * j) + 2 ^ (h + 1) - 1.
Proof.
  intros. pose proof (node_pos_parent_left h j). pose proof (node_pos_parent_right h j). lia.
Qed.

(** After a left child comes a leaf, or the first leaf under its sibling. *)
Lemma node_pos_next_left h j :
  0 <= h -> 0 <= j -> node_pos h (2 * j) + 1 = node_pos 0 ((2 * j + 1) * 2 ^ h).
Proof.
  intros Hh Hj. rewrite node_pos_leaf. unfold node_pos, mmr_size.
  replace ((2 * j + 1) * 2 ^ h) with ((2 * j + 1) * 2 ^ Z.to_nat h + 0) by (rewrite Z2Nat.id; lia).
  pose proof (pow2_pos h Hh).
  rewrite pop_concat by (rewrite ?Z2Nat.id; lia). rewrite Z2Nat.id by lia.
  rewrite pop_even, pop_odd, pow2_1 by lia. simpl pop. lia.
Qed.

Lemma pow2_le_node h i : 0 <= h -> 0 <= i -> 2 ^ (h + 1) <= node_pos h i + 2.
Proof.
  intros. unfold node_pos. pose proof (pop_le i). rewrite pow2_1 by lia.
  pose proof (pow2_pos h). nia.
Qed.

Lemma node_pos_parent_bound h i :
  0 <= h -> 0 <= i ->
  node_pos h i < node_pos (h + 1) (i / 2) <= 2 * node_pos h i + 2.
Proof.
  intros Hh Hi. pose proof (pow2_le_node h i Hh Hi). pose proof (node_pos_nonneg h i Hh Hi).
  pose proof (pow2_pos (h + 1)).
  destruct (Z.Even_or_Odd i) as [[j ->]|[j ->]].
  - rewrite half_even, node_pos_parent_left by lia. lia.
  - rewrite half_odd, node_pos_parent_right by lia. lia.
Qed.

(** Whether the next position is the parent. *)
Lemma next_is_parent h i :
  0 <= h -> 0 <= i -> pos_ok (node_pos h i + 1) ->
  (CalculateHeight (node_pos h i + 1) =? h + 1) = Z.odd i.
Proof.
  intros Hh Hi Hok. destruct (Z.Even_or_Odd i) as [[j ->]|[j ->]].
  - rewrite odd_even.
    rewrite node_pos_next_left in * by lia.
    rewrite CalculateHeight_node; [|lia| |done].
    + apply Z.eqb_neq. lia.
    + pose proof (pow2_pos h Hh). nia.
  - rewrite odd_odd.
    rewrite <- node_pos_parent_right in * by lia.
    rewrite CalculateHeight_node by (done || lia). apply Z.eqb_refl.
Qed.

Lemma shiftl_1 k : 0 <= k -> Z.shiftl 1 k = 2 ^ k.
Proof. intros. rewrite Z.shiftl_mul_pow2 by lia. lia. Qed.

(** A position at most [2^61] keeps its whole family below [2^62]. *)
Definition fam_ok (p : Z) : Prop := 0 <= p < 2 ^ 60.

Lemma height_small h i : 0 <= h -> 0 <= i -> fam_ok (node_pos h i) -> 2 ^ (h + 1) <= 2 ^ 60 + 1.
Proof. intros ? ? []. pose proof (pow2_le_node h i). lia. Qed.

Lemma height_lt h i : 0 <= h -> 0 <= i -> fam_ok (node_pos h i) -> h < 62.
Proof.
  intros Hh Hi Hok. pose proof (height_small h i Hh Hi Hok).
  destruct (decide (h < 62)); [done|].
  assert (2 ^ 62 <= 2 ^ (h + 1)) by (apply Z.pow_le_mono_r; lia). lia.
Qed.

Ltac family h i :=
  let P := fresh in
  match goal with Hok : fam_ok (node_pos h i) |- _ =>
    pose proof (height_small h i ltac:(lia) ltac:(lia) Hok);
    pose proof (height_lt h i ltac:(lia) ltac:(lia) Hok);
    pose proof (pow2_pos (h + 1) ltac:(lia));
    pose proof Hok as [? ?]
  end.

Lemma Index_GetParent_node h i :
  0 <= h -> 0 <= i -> fam_ok (node_pos h i) ->
  Index_GetParent (mkIndex (node_pos h i) h) = mkIndex (node_pos (h + 1) (i / 2)) (h + 1).
Proof.
  intros Hh Hi Hok. family h i. unfold Index_GetParent; simpl.
  rewrite (uint_small 64 (h + 1)), (uint_small 64 (node_pos h i + 1)) by uint_solve.
  rewrite next_is_parent, shiftl_1 by (unfold pos_ok; lia).
  destruct (Z.Even_or_Odd i) as [[j ->]|[j ->]].
  - rewrite odd_even. uint_id.
    rewrite half_even, node_pos_parent_left by lia. done.
  - rewrite odd_odd.
    rewrite half_odd, node_pos_parent_right by lia. done.
Qed.

(** The sibling of the [i]-th node of its height: [2j] and [2j+1] are siblings. *)
Definition sib (i : Z) : Z := if Z.odd i then i - 1 else i + 1.

Lemma Index_GetSibling_node h i :
  0 <= h -> 0 <= i -> fam_ok (node_pos h i) ->
  Index_GetSibling (mkIndex (node_pos h i) h) = mkIndex (node_pos h (sib i)) h.
Proof.
  intros Hh Hi Hok. family h i. unfold Index_GetSibling, sib; simpl.
  rewrite (uint_small 64 (h + 1)), (uint_small 64 (node_pos h i + 1)) by uint_solve.
  rewrite next_is_parent, shiftl_1 by (unfold pos_ok; lia).
  destruct (Z.Even_or_Odd i) as [[j ->]|[j ->]].
  - rewrite odd_even.
    pose proof (node_pos_sibling h j). uint_id. f_equal. lia.
  - rewrite odd_odd.
    pose proof (node_pos_sibling h j). pose proof (node_pos_nonneg h (2 * j)).
    replace (2 * j + 1 - 1) with (2 * j) by lia. uint_id. f_equal. lia.
Qed.

Lemma Index_GetLeftChild_node h i :
  0 <= h -> 0 <= i -> fam_ok (node_pos (h + 1) i) ->
  Index_GetLeftChild (mkIndex (node_pos (h + 1) i) (h + 1)) = mkIndex (node_pos h (2 * i)) h.
Proof.
  intros Hh Hi Hok. family (h + 1) i. unfold Index_GetLeftChild; simpl.
  pose proof (node_pos_parent_left h i). pose proof (node_pos_nonneg h (2 * i)).
  rewrite shiftl_1 by lia. rewrite (pow2_1 (h + 1)) in * by lia.
  uint_id. f_equal; lia.
Qed.

Lemma Index_GetRightChild_node h i :
  0 <= h -> 0 <= i -> fam_ok (node_pos (h + 1) i) ->
  Index_GetRightChild (mkIndex (node_pos (h + 1) i) (h + 1)) = mkIndex (node_pos h (2 * i + 1)) h.
Proof.
  intros Hh Hi Hok. family (h + 1) i. unfold Index_GetRightChild; simpl.
  pose proof (node_pos_parent_right h i). pose proof (node_pos_nonneg h (2 * i + 1)).
  uint_id. f_equal; lia.
Qed.

(** ** Properties *)

(** every position of the MMR is one node of the tree: it has exactly one
    pair of coordinates (height, index within the height), and [Index::At]
    computes that height. *)
Theorem Index_At_coordinates p :
  pos_ok p ->
  exists h i, 0 <= h /\ 0 <= i /\ p = node_pos h i /\ Index_At p = mkIndex p h /\
    forall h' i', 0 <= h' -> 0 <= i' -> p = node_pos h' i' -> h' = h /\ i' = i.
Proof.
  intros Hp. destruct (node_pos_surj p) as (h & i & Hh & Hi & ->); [apply Hp|].
  exists h, i. split; [done|]. split; [done|]. split; [done|].
  split; [by apply Index_At_node|]. intros h' i' Hh' Hi' E.
  destruct (node_pos_inj h i h' i'); done.
Qed.

Lemma Index_At_coordinates_witness :
  pos_ok 37 /\
  exists h i, 0 <= h /\ 0 <= i /\ 37 = node_pos h i /\ Index_At 37 = mkIndex 37 h /\
    forall h' i', 0 <= h' -> 0 <= i' -> 37 = node_pos h' i' -> h' = h /\ i' = i.
Proof. split; [unfold pos_ok; lia|apply (Index_At_coordinates 37); unfold pos_ok; lia]. Defined.

(** leaf numbers and leaf positions convert into each other without loss:
    the position of leaf [n] is [2n] minus the number of ones of [n], [AtPos]
    of it gives leaf [n] back, [Next] and [Prev] step by one leaf. *)
Theorem LeafIndex_roundtrip n :
  0 <= n -> pos_ok (mmr_size (n + 1)) ->
  LeafIndex_GetPosition (LeafIndex_At n) = 2 * n - pop n /\
  LeafIndex_AtPos (LeafIndex_GetPosition (LeafIndex_At n)) = LeafIndex_At n /\
  Index_IsLeaf (Index_At (LeafIndex_GetPosition (LeafIndex_At n))) = true /\
  LeafIndex_Prev (LeafIndex_Next (LeafIndex_At n)) = LeafIndex_At n /\
  LeafIndex_GetPosition (LeafIndex_At n) < LeafIndex_GetPosition (LeafIndex_Next (LeafIndex_At n)).
Proof.
  intros Hn Hok. pose proof (mmr_size_lt n (n + 1) ltac:(lia)) as Hlt.
  pose proof (mmr_size_ge n Hn) as Hge. pose proof (mmr_size_ge (n + 1) ltac:(lia)) as Hge1.
  unfold pos_ok in Hok. assert (pos_ok (mmr_size n)) as Hok' by (unfold pos_ok; lia).
  unfold LeafIndex_Next, LeafIndex_Prev. rewrite (LeafIndex_At_pos n) by done.
  cbn [m_leafIndex]. rewrite (uint_small 64 (n + 1)) by uint_solve.
  rewrite (LeafIndex_At_pos (n + 1)) by (assumption || lia). cbn [m_leafIndex].
  rewrite Z.add_simpl_r, (uint_small 64 n) by uint_solve.
  unfold LeafIndex_GetPosition. cbn [m_nodeIndex m_position].
  rewrite LeafIndex_AtPos_leaf, LeafIndex_At_pos by done.
  split; [done|]. split; [done|]. split; [|done].
  rewrite <- node_pos_leaf, Index_At_node by (assumption || lia || by rewrite node_pos_leaf). done.
Qed.

Lemma LeafIndex_roundtrip_witness :
  LeafIndex_GetPosition (LeafIndex_At 5) = 8 /\ LeafIndex_AtPos 8 = LeafIndex_At 5.
Proof.
  destruct (LeafIndex_roundtrip 5) as (E & R & _); [lia|unfold pos_ok; vm_compute; split; congruence|].
  split; [exact E|]. rewrite E in R. exact R.
Defined.

(** the family relations are consistent: a node and its sibling are the two
    children of their parent, and the sibling of the sibling is the node. *)
Theorem Index_family h i :
  0 <= h -> 0 <= i -> 4 * node_pos h i + 4 < 2 ^ 60 ->
  let idx := Index_At (node_pos h i) in
  let parent := Index_GetParent idx in
  (if Z.even i
   then Index_GetLeftChild parent = idx /\ Index_GetRightChild parent = Index_GetSibling idx
   else Index_GetRightChild parent = idx /\ Index_GetLeftChild parent = Index_GetSibling idx) /\
  Index_GetSibling (Index_GetSibling idx) = idx /\
  Index_GetParent (Index_GetSibling idx) = parent /\
  parent = Index_At (m_position parent).
Proof.
  intros Hh Hi Hb. cbv zeta. pose proof (node_pos_nonneg h i Hh Hi) as H0.
  pose proof (node_pos_parent_bound h i Hh Hi) as Hp.
  assert (0 <= sib i /\ sib i / 2 = i / 2 /\ sib (sib i) = i) as (Hs & Hs2 & Hss).
  { destruct (Z.even i) eqn:E.
    - apply Z.even_spec in E as [j ->]. unfold sib. rewrite odd_even, odd_odd, half_even, half_odd. lia.
    - assert (Z.odd i = true) as O by (by rewrite <- Z.negb_even, E).
      apply Z.odd_spec in O as [j ->]. unfold sib. rewrite odd_odd, Z.add_simpl_r, odd_even, half_even, half_odd. lia. }
  pose proof (node_pos_nonneg h (sib i) Hh Hs).
  pose proof (node_pos_parent_bound h (sib i) Hh Hs) as Hps. rewrite Hs2 in Hps.
  rewrite (Index_At_node h i) by (unfold pos_ok; lia).
  rewrite (Index_GetParent_node h i) by (unfold fam_ok; lia).
  rewrite (Index_GetSibling_node h i) by (unfold fam_ok; lia).
  rewrite (Index_GetSibling_node h (sib i)) by (unfold fam_ok; lia).
  rewrite (Index_GetParent_node h (sib i)) by (unfold fam_ok; lia).
  assert (0 <= i / 2) by (apply Z.div_pos; lia).
  rewrite (Index_GetLeftChild_node h (i / 2)) by (unfold fam_ok; lia).
  rewrite (Index_GetRightChild_node h (i / 2)) by (unfold fam_ok; lia).
  cbn [m_position]. rewrite (Index_At_node (h + 1)) by (unfold pos_ok; lia).
  rewrite Hs2, Hss. split; [|done]. destruct (Z.even i) eqn:E.
  - apply Z.even_spec in E as [j ->]. unfold sib. rewrite odd_even, half_even. done.
  - assert (Z.odd i = true) as O by (by rewrite <- Z.negb_even, E).
    apply Z.odd_spec in O as [j ->]. unfold sib. rewrite odd_odd, half_odd, Z.add_simpl_r. done.
Qed.

Lemma Index_family_witness :
  4 * node_pos 0 1 + 4 < 2 ^ 60 /\
  Index_GetSibling (Index_GetSibling (Index_At (node_pos 0 1))) = Index_At (node_pos 0 1).
Proof.
  split; [vm_compute; done|].
  destruct (Index_family 0 1) as (_ & H & _); [lia|lia|vm_compute; done|exact H].
Defined.
