(* ===== verification/MMRUtil.v ===== *)
(** * MMR geometry ([src/PMMR/Common/MMRUtil.cpp])

    Peaks, leaf counts, siblings and family branches of an MMR, characterised
    against the number of its leaves. *)
From S2P Require Import Prelude BitUtil MMRIndex.

(** The [while (peakSize != 0)] loop of [MMRUtil::GetPeakIndices]; returns the
    peaks pushed so far and [numLeft]. *)
Fixpoint GetPeakIndices_loop (fuel : nat) (peakSize numLeft sumPrevPeaks : Z)
    (peakIndices : list Z) : list Z * Z :=
  match fuel with
  | O => (peakIndices, numLeft)
  | S fuel =>
      if peakSize =? 0 then (peakIndices, numLeft)
      else if numLeft >=? peakSize
      then GetPeakIndices_loop fuel (peakSize >> 1)%u64 (numLeft - peakSize)%u64
             (sumPrevPeaks + peakSize)%u64
             (peakIndices ++ [((sumPrevPeaks + peakSize) - 1)%u64])
      else GetPeakIndices_loop fuel (peakSize >> 1)%u64 numLeft sumPrevPeaks peakIndices
  end.

Definition GetPeakIndices (size : Z) : list Z :=
  if size >? 0 then
    let '(peakIndices, numLeft) :=
      GetPeakIndices_loop 64 (FillOnesToRight size) size 0 [] in
    if numLeft >? 0 then [] else peakIndices
  else [].

Definition CountLeaves (size : Z) : Z :=
  if size =? 0 then 0 else m_leafIndex (LeafIndex_AtPos size).

Definition IsLeftSibling (position : Z) : bool :=
  let index := Index_At position in
  let parent := Index_GetParent index in
  bool_decide (Index_GetLeftChild parent = index).

(** The [while (parent.GetPosition() < size)] loop of [MMRUtil::FamilyBranch]. *)
Fixpoint FamilyBranch_loop (fuel : nat) (size : Z) (current parent : Index)
    (branch : list (Z * Z)) : list (Z * Z) :=
  match fuel with
  | O => branch
  | S fuel =>
      if m_position parent <? size
      then FamilyBranch_loop fuel size parent (Index_GetParent parent)
             (branch ++ [(m_position parent, m_position (Index_GetSibling current))])
      else branch
  end.

Definition FamilyBranch (position size : Z) : list (Z * Z) :=
  if (size =? 0) || (position >=? size) then []
  else
    let current := Index_At position in
    FamilyBranch_loop 64 size current (Index_GetParent current) [].

(** ** Leaves below a node *)

(** A node of height [h] is present exactly when all leaves below it are. *)
Lemma node_in_mmr h i n :
  0 <= h -> 0 <= i -> 0 <= n -> (node_pos h i < mmr_size n <-> (i + 1) * 2 ^ h <= n).
Proof.
  intros Hh Hi Hn. pose proof (pow2_pos h Hh).
  assert (node_pos h i < mmr_size ((i + 1) * 2 ^ h)) as Hup.
  { unfold node_pos, mmr_size. rewrite pow2_1 by lia.
    replace ((i + 1) * 2 ^ h) with ((i + 1) * 2 ^ Z.to_nat h + 0) by (rewrite Z2Nat.id; lia).
    rewrite pop_concat by (rewrite ?Z2Nat.id; lia). rewrite Z2Nat.id by lia.
    pose proof (pop_succ i Hi). simpl pop. lia. }
  split.
  - intros Hlt. destruct (decide ((i + 1) * 2 ^ h <= n)) as [|Hge]; [done|].
    pose proof (mmr_size_mono n ((i + 1) * 2 ^ h - 1) ltac:(lia)) as Hm.
    enough (mmr_size ((i + 1) * 2 ^ h - 1) <= node_pos h i) by lia.
    unfold node_pos, mmr_size. rewrite pow2_1 by lia.
    replace ((i + 1) * 2 ^ h - 1) with (i * 2 ^ Z.to_nat h + (2 ^ Z.to_nat h - 1))
      by (rewrite Z2Nat.id; lia).
    rewrite pop_concat by (rewrite ?Z2Nat.id; lia). rewrite pop_ones, Z2Nat.id by lia. lia.
  - intros Hle. pose proof (mmr_size_mono ((i + 1) * 2 ^ h) n). lia.
Qed.

(** The nodes below a node are the positions from its first leaf up to itself. *)
Lemma subtree_first h i : 0 <= h -> 0 <= i -> node_pos h i + 2 - 2 ^ (h + 1) = mmr_size (i * 2 ^ h).
Proof.
  intros Hh Hi. unfold node_pos, mmr_size. pose proof (pow2_pos h Hh).
  replace (i * 2 ^ h) with (i * 2 ^ Z.to_nat h + 0) by (rewrite Z2Nat.id; lia).
  rewrite pop_concat by (rewrite ?Z2Nat.id; lia). rewrite Z2Nat.id, pow2_1 by lia. simpl pop. lia.
Qed.

(** The leaves of a node that lies strictly below another. *)
Lemma below_node h i H I :
  0 <= h -> 0 <= i -> 0 <= H -> 0 <= I -> mmr_size (I * 2 ^ H) <= node_pos h i < node_pos H I ->
  h < H /\ I * 2 ^ H <= i * 2 ^ h /\ (i + 1) * 2 ^ h <= (I + 1) * 2 ^ H.
Proof.
  intros Hh Hi HH HI [Hlo Hhi]. pose proof (pow2_pos h Hh). pose proof (pow2_pos H HH).
  pose proof (proj2 (node_in_mmr H I ((I + 1) * 2 ^ H) HH HI ltac:(lia)) ltac:(lia)).
  assert ((i + 1) * 2 ^ h <= (I + 1) * 2 ^ H) as Ha by (apply node_in_mmr; lia).
  assert (I * 2 ^ H < (i + 1) * 2 ^ h) as Hb'.
  { apply Z.nle_gt. intros Hle. apply (proj2 (node_in_mmr h i (I * 2 ^ H) Hh Hi ltac:(lia))) in Hle. lia. }
  destruct (decide (h < H)) as [Hlt|Hge].
  - split; [done|]. split; [|done]. rewrite (pow_split H h) in * by lia.
    pose proof (pow2_pos (H - h) ltac:(lia)).
    assert (I * 2 ^ (H - h) < i + 1) by nia. nia.
  - exfalso. rewrite (pow_split h H) in Ha, Hb' by lia. pose proof (pow2_pos (h - H) ltac:(lia)).
    assert ((i + 1) * 2 ^ (h - H) = I + 1) as E by nia.
    revert Hhi. apply Z.le_ngt. unfold node_pos.
    assert (pop I = pop i + (h - H)) as Ep.
    { replace I with (i * 2 ^ Z.to_nat (h - H) + (2 ^ Z.to_nat (h - H) - 1)) by (rewrite Z2Nat.id; lia).
      rewrite pop_concat by (rewrite ?Z2Nat.id; lia). rewrite pop_ones, Z2Nat.id by lia. lia. }
    rewrite Ep, <- E, !pow2_1 by lia. rewrite (pow_split h H) by lia. nia.
Qed.

(** With a node strictly below another comes its parent. *)
Lemma below_parent h i H I :
  0 <= h -> 0 <= i -> 0 <= H -> 0 <= I -> mmr_size (I * 2 ^ H) <= node_pos h i < node_pos H I ->
  (i / 2 + 1) * 2 ^ (h + 1) <= (I + 1) * 2 ^ H.
Proof.
  intros Hh Hi HH HI Hb. destruct (below_node h i H I) as (Hlt & Ha & Hb'); [done..|].
  pose proof (pow2_pos h Hh). rewrite pow2_1 by done.
  rewrite (pow_split H h) in * by lia. pose proof (pow_split (H - h) 1 ltac:(lia)) as Es.
  change (2 ^ 1) with 2 in Es. pose proof (pow2_pos (H - h - 1) ltac:(lia)).
  assert (i + 1 <= (I + 1) * 2 ^ (H - h)) by nia. rewrite Es in *.
  set (t := 2 ^ (H - h - 1)) in *.
  pose proof (Z.div_lt_upper_bound i 2 ((I + 1) * t) ltac:(lia) ltac:(lia)). nia.
Qed.

(** Between the last leaf of a node and the node lie its right descendants. *)
Lemma last_leaf_pos h i : 0 <= h -> 0 <= i -> node_pos h i = mmr_size ((i + 1) * 2 ^ h - 1) + h.
Proof.
  intros Hh Hi. unfold node_pos, mmr_size. pose proof (pow2_pos h Hh). rewrite pow2_1 by done.
  replace ((i + 1) * 2 ^ h - 1) with (i * 2 ^ Z.to_nat h + (2 ^ Z.to_nat h - 1)) by (rewrite Z2Nat.id; lia).
  rewrite pop_concat by (rewrite ?Z2Nat.id; lia). rewrite pop_ones, Z2Nat.id by lia. lia.
Qed.

(** The leaves strictly below a node. *)
Lemma leaf_below h i j : 0 < h -> 0 <= i -> 0 <= j ->
  mmr_size (i * 2 ^ h) <= mmr_size j < node_pos h i <-> i * 2 ^ h <= j < (i + 1) * 2 ^ h.
Proof.
  intros Hh Hi Hj. pose proof (pow2_pos h ltac:(lia)). split.
  - rewrite <- (node_pos_leaf j). intros Hb.
    destruct (below_node 0 j h i) as (_ & Ha & Hc); [lia|lia|lia|lia|done|].
    change (2 ^ 0) with 1 in *. lia.
  - intros [Ha Hb]. pose proof (mmr_size_mono (i * 2 ^ h) j ltac:(nia)).
    pose proof (mmr_size_mono j ((i + 1) * 2 ^ h - 1) ltac:(lia)).
    rewrite last_leaf_pos by lia. lia.
Qed.

(** ** [CountLeaves] and [IsLeftSibling] *)

Lemma CountLeaves_mmr_size n : 0 <= n -> pos_ok (mmr_size n) -> CountLeaves (mmr_size n) = n.
Proof.
  intros Hn Hok. unfold CountLeaves. destruct (Z.eqb_spec (mmr_size n) 0) as [E|E].
  - pose proof (mmr_size_ge n Hn). lia.
  - rewrite LeafIndex_AtPos_leaf, LeafIndex_At_pos by done. done.
Qed.

Lemma IsLeftSibling_node h i :
  0 <= h -> 0 <= i -> 4 * node_pos h i + 4 < 2 ^ 60 -> IsLeftSibling (node_pos h i) = Z.even i.
Proof.
  intros Hh Hi Hb. pose proof (node_pos_nonneg h i Hh Hi). pose proof (pow2_le_node h i Hh Hi).
  assert (fam_ok (node_pos h i)) by (unfold fam_ok; lia).
  pose proof (Z.div_pos i 2 Hi ltac:(lia)).
  pose proof (node_pos_parent_bound h i Hh Hi).
  assert (fam_ok (node_pos (h + 1) (i / 2))) by (unfold fam_ok; lia).
  unfold IsLeftSibling. rewrite Index_At_node by (unfold pos_ok, fam_ok in *; lia).
  rewrite Index_GetParent_node, Index_GetLeftChild_node by assumption.
  destruct (Z.Even_or_Odd i) as [[j ->]|[j ->]].
  - rewrite half_even, Z.even_mul. by apply bool_decide_eq_true.
  - rewrite half_odd in *. rewrite <- Z.negb_odd, odd_odd. apply bool_decide_eq_false.
    intros E. injection E as E. pose proof (node_pos_step h (2 * j)). lia.
Qed.

(** ** Family branches *)

(** Parent and sibling positions on the way up from node [(h, i)], as long as the
    parent belongs to an MMR with [n] leaves. *)
Fixpoint branch_spec (fuel : nat) (n h i : Z) : list (Z * Z) :=
  match fuel with
  | O => []
  | S fuel =>
      if (i / 2 + 1) * 2 ^ (h + 1) <=? n
      then (node_pos (h + 1) (i / 2), node_pos h (sib i)) :: branch_spec fuel n (h + 1) (i / 2)
      else []
  end.

Definition size_ok (n : Z) : Prop := 0 <= n /\ 8 * mmr_size n + 8 < 2 ^ 60.

Lemma FamilyBranch_loop_spec (fuel : nat) n h i acc :
  size_ok n -> 0 <= h -> 0 <= i -> fam_ok (node_pos h i) -> fam_ok (node_pos (h + 1) (i / 2)) ->
  FamilyBranch_loop fuel (mmr_size n) (mkIndex (node_pos h i) h)
    (mkIndex (node_pos (h + 1) (i / 2)) (h + 1)) acc = acc ++ branch_spec fuel n h i.
Proof.
  intros [Hn Hsz] . revert h i acc. induction fuel as [|fuel IH]; intros h i acc Hh Hi Hok Hpok.
  - simpl. by rewrite app_nil_r.
  - cbn [FamilyBranch_loop branch_spec m_position].
    assert (0 <= i / 2) by (apply Z.div_pos; lia).
    pose proof (node_in_mmr (h + 1) (i / 2) n ltac:(lia) ltac:(lia) Hn) as Hin.
    destruct (Z.ltb_spec (node_pos (h + 1) (i / 2)) (mmr_size n)) as [Hlt|Hge];
      destruct (Z.leb_spec ((i / 2 + 1) * 2 ^ (h + 1)) n); try lia.
    + rewrite Index_GetSibling_node, Index_GetParent_node by (assumption || lia). cbn [m_position].
      rewrite IH; [by rewrite <- app_assoc|lia|lia|assumption|].
      pose proof (node_pos_nonneg (h + 1) (i / 2)).
      pose proof (node_pos_parent_bound (h + 1) (i / 2)). unfold fam_ok. lia.
    + by rewrite app_nil_r.
Qed.

Lemma FamilyBranch_node n h i :
  size_ok n -> 0 <= h -> 0 <= i -> (i + 1) * 2 ^ h <= n ->
  FamilyBranch (node_pos h i) (mmr_size n) = branch_spec 64 n h i.
Proof.
  intros Hs Hh Hi Hin. pose proof Hs as [Hn Hsz].
  pose proof (proj2 (node_in_mmr h i n Hh Hi Hn) Hin) as Hlt.
  pose proof (node_pos_nonneg h i Hh Hi). pose proof (pow2_le_node h i Hh Hi).
  assert (fam_ok (node_pos h i)) by (unfold fam_ok; lia).
  assert (0 <= i / 2) by (apply Z.div_pos; lia).
  unfold FamilyBranch. rewrite Z.geb_leb.
  destruct (Z.eqb_spec (mmr_size n) 0); [lia|].
  destruct (Z.leb_spec (mmr_size n) (node_pos h i)); [lia|]. cbn [orb].
  rewrite Index_At_node by (unfold pos_ok, fam_ok in *; lia).
  rewrite Index_GetParent_node by assumption.
  pose proof (node_pos_parent_bound h i Hh Hi).
  rewrite FamilyBranch_loop_spec; [done|done|lia|lia|assumption|]. unfold fam_ok. lia.
Qed.

(** ** Peaks *)

(** The peaks of heights [k-1 .. 0] of an MMR with [n] leaves: one per set bit
    of [n], from left to right. *)
Fixpoint peaks_from (k : nat) (n : Z) : list Z :=
  match k with
  | O => []
  | S k =>
      (if Z.testbit n k then [node_pos k (2 * (n / 2 ^ (k + 1)))] else []) ++ peaks_from k n
  end.

Definition mmr_peaks (n : Z) : list Z := peaks_from 64 n.

(** A leading perfect tree of height [k] adds its [2^(k+1) - 1] nodes. *)
Lemma mmr_size_add (k : nat) q r :
  0 <= q -> 0 <= r < 2 ^ k -> mmr_size (q * 2 ^ k + r) = mmr_size (q * 2 ^ k) + mmr_size r.
Proof.
  intros Hq Hr. unfold mmr_size. pose proof (pop_concat k q 0 Hq ltac:(lia)) as E.
  rewrite Z.add_0_r in E. rewrite E, pop_concat by lia. simpl pop. lia.
Qed.

Lemma mmr_size_pow2 (k : nat) : mmr_size (2 ^ k) = 2 * 2 ^ k - 1.
Proof. unfold mmr_size. rewrite pop_pow2. lia. Qed.

Lemma mmr_size_small (k : nat) r : 0 <= r < 2 ^ k -> mmr_size r <= 2 * 2 ^ k - 2.
Proof.
  intros Hr. pose proof (mmr_size_mono r (2 ^ k - 1) ltac:(lia)) as H.
  unfold mmr_size in *. rewrite pop_ones in H. lia.
Qed.

Lemma testbit_block (k : nat) q r :
  0 <= q -> 0 <= r < 2 ^ S k -> Z.testbit (q * 2 ^ S k + r) k = (2 ^ k <=? r).
Proof.
  intros Hq Hr. pose proof (pow2_pos k). rewrite Z.testbit_eqb by lia.
  rewrite pow2_S in *.
  destruct (Z.leb_spec (2 ^ k) r).
  - replace (q * (2 * 2 ^ k) + r) with ((2 * q + 1) * 2 ^ k + (r - 2 ^ k)) by lia.
    rewrite Z.div_add_l, (Z.div_small (r - 2 ^ k)) by lia.
    apply Z.eqb_eq. replace (2 * q + 1 + 0) with (1 + q * 2) by lia. by rewrite Z.mod_add.
  - replace (q * (2 * 2 ^ k) + r) with (2 * q * 2 ^ k + r) by lia.
    rewrite Z.div_add_l, (Z.div_small r) by lia.
    apply Z.eqb_neq. replace (2 * q + 0) with (q * 2) by lia. rewrite Z.mod_mul; lia.
Qed.

Lemma GetPeakIndices_loop_complete (j fuel : nat) q r acc :
  (j <= fuel)%nat -> (j < 62)%nat -> 0 <= q -> 0 <= r < 2 ^ j ->
  mmr_size (q * 2 ^ j + r) < 2 ^ 62 ->
  GetPeakIndices_loop fuel (2 ^ j - 1) (mmr_size r) (mmr_size (q * 2 ^ j)) acc
  = (acc ++ peaks_from j (q * 2 ^ j + r), 0).
Proof.
  revert fuel q r acc. induction j as [|j IH]; intros fuel q r acc Hf Hj Hq Hr Hb.
  - rewrite pow2_0 in *. assert (r = 0) as -> by lia. simpl peaks_from. rewrite app_nil_r.
    by destruct fuel.
  - destruct fuel as [|fuel]; [lia|]. cbn [GetPeakIndices_loop peaks_from].
    pose proof (pow2_pos j). assert (2 ^ S j <= 2 ^ 62) by (apply Z.pow_le_mono_r; lia).
    pose proof (mmr_size_ge r ltac:(lia)). pose proof (mmr_size_ge (q * 2 ^ S j) ltac:(lia)).
    pose proof (mmr_size_small (S j) r Hr) as Hsmall.
    rewrite mmr_size_add in Hb by lia. rewrite testbit_block by lia.
    replace (j + 1) with (Z.of_nat (S j)) by lia.
    rewrite Z.div_add_l, (Z.div_small r), Z.add_0_r by lia.
    rewrite pow2_S in *.
    replace (Z.shiftr (2 * 2 ^ j - 1) 1) with (2 ^ j - 1) by (rewrite <- pow2_1, ones_shiftr; lia).
    destruct (Z.eqb_spec (2 * 2 ^ j - 1) 0); [lia|]. rewrite Z.geb_leb.
    destruct (Z.leb_spec (2 ^ j) r) as [Hge|Hlt].
    + assert (mmr_size r = 2 * 2 ^ j - 1 + mmr_size (r - 2 ^ j)) as Er.
      { replace r with (1 * 2 ^ j + (r - 2 ^ j)) at 1 by lia.
        rewrite mmr_size_add by lia. rewrite Z.mul_1_l, mmr_size_pow2. lia. }
      pose proof (mmr_size_ge (r - 2 ^ j) ltac:(lia)).
      destruct (Z.leb_spec (2 * 2 ^ j - 1) (mmr_size r)); [|lia].
      assert (mmr_size (q * (2 * 2 ^ j)) + (2 * 2 ^ j - 1) = mmr_size ((2 * q + 1) * 2 ^ j)) as Eq.
      { rewrite <- mmr_size_pow2. replace (q * (2 * 2 ^ j)) with (q * 2 ^ S j) by (rewrite pow2_S; lia).
        rewrite <- mmr_size_add by (rewrite ?pow2_S; lia). f_equal. rewrite pow2_S. lia. }
      uint_id. rewrite Eq, Er.
      replace (2 * 2 ^ j - 1 + mmr_size (r - 2 ^ j) - (2 * 2 ^ j - 1)) with (mmr_size (r - 2 ^ j)) by lia.
      replace (q * (2 * 2 ^ j) + r) with ((2 * q + 1) * 2 ^ j + (r - 2 ^ j)) by lia.
      rewrite IH by (rewrite ?mmr_size_add; lia).
      rewrite <- app_assoc. simpl app. do 3 f_equal.
      rewrite <- Eq. unfold node_pos, mmr_size.
      replace (q * (2 * 2 ^ j)) with (q * 2 ^ S j + 0) by (rewrite pow2_S; lia).
      rewrite pop_concat, pop_even by (rewrite ?pow2_S; lia). rewrite pow2_1, pow2_S by lia. simpl pop. lia.
    + pose proof (mmr_size_small j r ltac:(lia)).
      destruct (Z.leb_spec (2 * 2 ^ j - 1) (mmr_size r)); [lia|].
      replace (q * (2 * 2 ^ j)) with ((2 * q) * 2 ^ j) by lia.
      simpl app. apply IH; rewrite ?mmr_size_add; try lia.
      replace (2 * q * 2 ^ j) with (q * (2 * 2 ^ j)) by lia. lia.
Qed.

(** Whatever the size, the loop subtracts the size of some complete MMR. *)
Lemma GetPeakIndices_loop_left (j fuel : nat) x s acc :
  (j <= fuel)%nat -> (j < 64)%nat -> 0 <= x < 2 ^ 64 ->
  exists r, 0 <= r < 2 ^ j /\ mmr_size r <= x /\
    (GetPeakIndices_loop fuel (2 ^ j - 1) x s acc).2 = x - mmr_size r.
Proof.
  revert fuel x s acc. induction j as [|j IH]; intros fuel x s acc Hf Hj Hx.
  - exists 0. rewrite pow2_0. split; [lia|]. split; [unfold mmr_size; simpl; lia|].
    destruct fuel; unfold mmr_size; simpl; lia.
  - destruct fuel as [|fuel]; [lia|]. cbn [GetPeakIndices_loop].
    pose proof (pow2_pos j). assert (2 ^ S j <= 2 ^ 63) by (apply Z.pow_le_mono_r; lia).
    rewrite pow2_S in *.
    replace (Z.shiftr (2 * 2 ^ j - 1) 1) with (2 ^ j - 1) by (rewrite <- pow2_1, ones_shiftr; lia).
    destruct (Z.eqb_spec (2 * 2 ^ j - 1) 0); [lia|]. rewrite Z.geb_leb.
    destruct (Z.leb_spec (2 * 2 ^ j - 1) x) as [Hge|Hlt].
    + rewrite (uint_small 64 (x - _)) by uint_solve.
      match goal with |- context [GetPeakIndices_loop fuel _ _ ?s' ?acc'] =>
        destruct (IH fuel (x - (2 * 2 ^ j - 1)) s' acc' ltac:(lia) ltac:(lia) ltac:(lia))
          as (r & Hr & Hle & E) end.
      exists (1 * 2 ^ j + r). rewrite mmr_size_add, Z.mul_1_l, mmr_size_pow2 by lia.
      split; [lia|]. split; [lia|]. rewrite E. lia.
    + destruct (IH fuel x s acc ltac:(lia) ltac:(lia) Hx) as (r & Hr & Hle & E).
      exists r. split; [lia|]. done.
Qed.

Lemma peaks_from_high (k : nat) n (m : nat) :
  0 <= n < 2 ^ k -> (k <= m)%nat -> peaks_from m n = peaks_from k n.
Proof.
  intros Hn. induction 1 as [|m Hm IH]; [done|]. cbn [peaks_from]. rewrite IH.
  assert (2 ^ k <= 2 ^ m) by (apply Z.pow_le_mono_r; lia).
  rewrite Z.testbit_eqb, Z.div_small by lia. done.
Qed.

Lemma peaks_from_nil (k : nat) n : 0 <= n < 2 ^ k -> peaks_from k n = [] -> n = 0.
Proof.
  induction k as [|k IH]; intros Hn E.
  - rewrite pow2_0 in Hn. lia.
  - cbn [peaks_from] in E. apply app_eq_nil in E as [E1 E2].
    pose proof (testbit_block k 0 n ltac:(lia) Hn) as Ht. rewrite Z.mul_0_l, Z.add_0_l in Ht.
    rewrite Ht in E1. destruct (Z.leb_spec (2 ^ k) n); [done|]. apply IH; [lia|done].
Qed.

Lemma pos_bits p : 0 < p < 2 ^ 62 ->
  exists k : nat, (k < 63)%nat /\ FillOnesToRight p = 2 ^ k - 1 /\ p < 2 ^ k.
Proof.
  intros Hp. exists (Z.to_nat (Z.log2 p + 1)). pose proof (Z.log2_nonneg p).
  assert (Z.log2 p < 62) by (apply Z.log2_lt_pow2; lia).
  rewrite Z2Nat.id by lia. split; [lia|]. split; [apply FillOnesToRight_spec; lia|].
  rewrite Z.add_1_r. apply Z.log2_spec. lia.
Qed.

Lemma GetPeakIndices_mmr_size n :
  0 <= n -> mmr_size n < 2 ^ 61 -> GetPeakIndices (mmr_size n) = mmr_peaks n.
Proof.
  intros Hn Hb. unfold GetPeakIndices. pose proof (mmr_size_ge n Hn).
  rewrite Z.gtb_ltb. destruct (Z.ltb_spec 0 (mmr_size n)) as [Hpos|Hz].
  - assert (Z.log2 (mmr_size n) < 61) by (apply Z.log2_lt_pow2; lia).
    pose proof (Z.log2_nonneg (mmr_size n)). pose proof (Z.log2_spec _ Hpos) as [_ Hl].
    rewrite FillOnesToRight_spec by lia.
    set (k := Z.to_nat (Z.log2 (mmr_size n) + 1)).
    assert (Z.log2 (mmr_size n) + 1 = k) as -> by lia.
    assert (n < 2 ^ k) by (replace (Z.of_nat k) with (Z.succ (Z.log2 (mmr_size n))) by lia; lia).
    pose proof (GetPeakIndices_loop_complete k 64 0 n [] ltac:(lia) ltac:(lia) ltac:(lia) ltac:(lia)
      ltac:(rewrite Z.mul_0_l, Z.add_0_l; lia)) as E.
    rewrite Z.mul_0_l, Z.add_0_l in E. change (mmr_size 0) with 0 in E. rewrite E.
    cbn [app]. unfold mmr_peaks. symmetry. apply peaks_from_high; lia.
  - replace n with 0 by lia. reflexivity.
Qed.

Lemma mmr_peaks_nil n : 0 <= n < 2 ^ 62 -> mmr_peaks n = [] -> n = 0.
Proof. intros Hn. apply (peaks_from_nil 64). lia. Qed.

(** A size for which peaks are found is the size of a complete MMR. *)
Lemma GetPeakIndices_incomplete size :
  0 < size < 2 ^ 62 -> (forall n, 0 <= n -> size <> mmr_size n) -> GetPeakIndices size = [].
Proof.
  intros Hs Hno. unfold GetPeakIndices. rewrite !Z.gtb_ltb.
  destruct (Z.ltb_spec 0 size); [|done].
  destruct (pos_bits size Hs) as (k & Hk & -> & _).
  destruct (GetPeakIndices_loop_left k 64 size 0 [] ltac:(lia) ltac:(lia) ltac:(lia)) as (r & Hr & Hle & E).
  destruct (GetPeakIndices_loop 64 (2 ^ k - 1) size 0 []) as [l left]. cbn [snd] in E. subst left.
  rewrite Z.gtb_ltb. destruct (Z.ltb_spec 0 (size - mmr_size r)); [done|].
  exfalso. apply (Hno r); lia.
Qed.

(** ** Properties *)

(** [GetPeakIndices] recognises exactly the sizes of complete MMRs: for the
    size of an MMR of [n] leaves it returns the positions of its peaks, the
    perfect trees of the binary decomposition of [n], left to right; for every
    other size it returns nothing. *)
Theorem GetPeakIndices_spec size :
  0 <= size < 2 ^ 61 ->
  (exists n, 0 <= n /\ size = mmr_size n /\ GetPeakIndices size = mmr_peaks n /\
             (GetPeakIndices size = [] -> n = 0)) \/
  ((forall n, 0 <= n -> size <> mmr_size n) /\ GetPeakIndices size = []).
Proof.
  intros Hs.
  destruct (decide (Exists (fun n : nat => size = mmr_size n) (seq 0 (S (Z.to_nat size))))) as [Hex|Hno].
  - left. apply Exists_exists in Hex as (n & _ & ->). exists n.
    pose proof (mmr_size_ge n ltac:(lia)). split; [lia|]. split; [done|].
    rewrite GetPeakIndices_mmr_size by lia. split; [done|]. apply mmr_peaks_nil. lia.
  - right. assert (forall n, 0 <= n -> size <> mmr_size n) as Hne.
    { intros n Hn ->. apply Hno, Exists_exists. exists (Z.to_nat n).
      rewrite Z2Nat.id by done. split; [|done]. pose proof (mmr_size_ge n Hn).
      apply elem_of_seq. lia. }
    split; [done|]. destruct (decide (size = 0)) as [->|]; [done|].
    apply GetPeakIndices_incomplete; [lia|done].
Qed.

Lemma GetPeakIndices_spec_witness :
  GetPeakIndices 11 = [6; 9; 10] /\ GetPeakIndices 9 = [] /\
  ((exists n, 0 <= n /\ 11 = mmr_size n /\ GetPeakIndices 11 = mmr_peaks n /\
              (GetPeakIndices 11 = [] -> n = 0)) \/
   ((forall n, 0 <= n -> 11 <> mmr_size n) /\ GetPeakIndices 11 = [])).
Proof.
  split; [vm_compute; done|]. split; [vm_compute; done|].
  apply (GetPeakIndices_spec 11). split; [lia|vm_compute; done].
Defined.

Lemma branch_spec_nth (fuel : nat) n h i k :
  0 <= h -> 0 <= i ->
  branch_spec fuel n h i !! k =
    if decide (k < length (branch_spec fuel n h i))%nat
    then Some (node_pos (h + k + 1) (i / 2 ^ (k + 1)), node_pos (h + k) (sib (i / 2 ^ k)))
    else None.
Proof.
  revert h i k. induction fuel as [|fuel IH]; intros h i k Hh Hi; simpl; [done|].
  destruct ((i / 2 + 1) * 2 ^ (h + 1) <=? n); [|done].
  destruct k as [|k]; simpl.
  - change (2 ^ (0%nat + 1)) with 2. change (2 ^ 0%nat) with 1.
    rewrite Z.div_1_r, Z.add_0_r. done.
  - rewrite IH by (lia || apply Z.div_pos; lia).
    rewrite !Zdiv.Zdiv_Zdiv by (lia || apply Z.pow_nonneg; lia).
    rewrite <- pow2_S, <- pow2_S1.
    replace (h + 1 + k + 1) with (h + S k + 1) by lia. replace (h + 1 + k) with (h + S k) by lia.
    do 2 case_decide; done || lia.
Qed.

Lemma branch_spec_stop (fuel : nat) n h i :
  0 <= h -> 0 <= i -> 0 <= n < 2 ^ (h + fuel) -> (i + 1) * 2 ^ h <= n ->
  let k := length (branch_spec fuel n h i) in
  (i / 2 ^ k + 1) * 2 ^ (h + k) <= n /\ n < (i / 2 ^ (k + 1) + 1) * 2 ^ (h + k + 1).
Proof.
  revert h i. induction fuel as [|fuel IH]; intros h i Hh Hi Hn Hin; simpl.
  { rewrite Z.add_0_r in Hn. nia. }
  destruct (Z.leb_spec ((i / 2 + 1) * 2 ^ (h + 1)) n) as [Hle|Hgt]; cbn [length].
  - destruct (IH (h + 1) (i / 2)) as [H1 H2]; [lia|apply Z.div_pos; lia| |done|].
    { replace (h + 1 + fuel) with (h + S fuel) by lia. done. }
    rewrite Zdiv.Zdiv_Zdiv in H1, H2 by (lia || apply Z.pow_nonneg; lia).
    rewrite <- pow2_S in H1. rewrite <- pow2_S1 in H2. revert H1 H2.
    replace (h + 1 + _) with (h + S (length (branch_spec fuel n (h + 1) (i / 2)))) by lia. done.
  - change (2 ^ (0%nat + 1)) with 2. change (2 ^ 0%nat) with 1.
    rewrite Z.div_1_r, Z.add_0_r. done.
Qed.

(** [FamilyBranch] walks from a node of the MMR to its peak: entry [k] is
    the ancestor [k+1] levels up with the sibling met below it, the last
    ancestor is in the MMR and its parent is not. *)
Theorem FamilyBranch_spec n h i :
  size_ok n -> 0 <= h -> 0 <= i -> (i + 1) * 2 ^ h <= n ->
  let branch := FamilyBranch (node_pos h i) (mmr_size n) in
  (forall k : nat, (k < length branch)%nat ->
     branch !! k = Some (node_pos (h + k + 1) (i / 2 ^ (k + 1)), node_pos (h + k) (sib (i / 2 ^ k)))) /\
  node_pos (h + length branch) (i / 2 ^ length branch) < mmr_size n /\
  mmr_size n <= node_pos (h + length branch + 1) (i / 2 ^ (length branch + 1)).
Proof.
  intros Hok Hh Hi Hin. cbv zeta. rewrite FamilyBranch_node by done.
  pose proof Hok as [Hn Hb]. pose proof (mmr_size_ge n Hn) as Hge.
  destruct (branch_spec_stop 64 n h i) as [H1 H2]; [done|done| |done|].
  { split; [done|]. apply Z.lt_le_trans with (2 ^ 60); [lia|]. apply Z.pow_le_mono_r; lia. }
  assert (0 <= i / 2 ^ length (branch_spec 64 n h i)) by (apply Z.div_pos; [lia|apply pow2_pos; lia]).
  assert (0 <= i / 2 ^ (length (branch_spec 64 n h i) + 1)) by (apply Z.div_pos; [lia|apply pow2_pos; lia]).
  split; [|split].
  - intros k Hk. rewrite branch_spec_nth by done. by rewrite decide_True by done.
  - apply node_in_mmr; lia.
  - apply Z.nlt_ge. rewrite node_in_mmr by lia. lia.
Qed.

Lemma FamilyBranch_spec_witness :
  FamilyBranch 0 11 = [(2, 1); (6, 5)] /\
  node_pos 2 0 < mmr_size 7 <= node_pos 3 0.
Proof.
  destruct (FamilyBranch_spec 7 0 0) as (_ & H1 & H2).
  - split; vm_compute; congruence.
  - lia.
  - lia.
  - vm_compute. congruence.
  - split; [vm_compute; done|]. split; [exact H1|exact H2].
Defined.

(** the leaf count of an MMR is recovered from its size, and
    [IsLeftSibling] tells the left child of a pair from the right one. *)
Theorem CountLeaves_IsLeftSibling n h i :
  0 <= n -> pos_ok (mmr_size n) -> 0 <= h -> 0 <= i -> 4 * node_pos h i + 4 < 2 ^ 60 ->
  CountLeaves (mmr_size n) = n /\ IsLeftSibling (node_pos h i) = Z.even i.
Proof. intros. split; [by apply CountLeaves_mmr_size|by apply IsLeftSibling_node]. Qed.

Lemma CountLeaves_IsLeftSibling_witness :
  CountLeaves 11 = 7 /\ IsLeftSibling 5 = false.
Proof.
  apply (CountLeaves_IsLeftSibling 7 1 1); try lia; unfold pos_ok; vm_compute; try split; congruence.
Defined.
