(* ===== verification/Serial.v ===== *)
(** * Byte serialization ([include/Core/Serialization/EndianHelper.h],
    [Serializer.h], [ByteBuffer.h], [src/Core/Traits/Serializable.cpp],
    [include/Core/Enums/ProtocolVersion.h])

    Bytes are integers below 256.  Writers append to a [Serializer]; readers are
    functions of a [ByteBuffer] that may throw.  The class [Serializable] is the
    contract of [Traits::ISerializable]: what is written can be read back. *)
From S2P Require Import Prelude BitUtil.

Abbreviation byte := Z (only parsing).
Abbreviation bytes := (list Z) (only parsing).

Definition is_byte (b : byte) : Prop := is_uint 8 b.

(** ** Protocol versions *)
Inductive EProtocolVersion := V1 | V2 | V3 | V1000.

#[export] Instance EProtocolVersion_eq_dec : EqDecision EProtocolVersion.
Proof. solve_decision. Defined.

Definition ProtocolVersion_Local : EProtocolVersion := V1000.

Definition ProtocolVersion_ToEnum (version : Z) : EProtocolVersion :=
  if version >=? 1000 then V1000
  else if version >=? 3 then V3
  else if version =? 2 then V2
  else V1.

(** ** Object representation

    [le_bytes n v] is the memory of an [n]-byte little-endian integer. *)
Fixpoint le_bytes (n : nat) (v : Z) : bytes :=
  match n with
  | O => []
  | S n => v mod 256 :: le_bytes n (v / 256)
  end.

Fixpoint le_val (bs : bytes) : Z :=
  match bs with
  | [] => 0
  | b :: bs => b + 256 * le_val bs
  end.

(** What [memcpy] of an integer yields on a host of the given endianness, and
    the integer that [memcpy] of bytes yields. *)
Definition memcpy_from (big : bool) (n : nat) (v : Z) : bytes :=
  if big then rev (le_bytes n v) else le_bytes n v.
Definition memcpy_to (big : bool) (bs : bytes) : Z :=
  if big then le_val (rev bs) else le_val bs.

Lemma length_le_bytes (n : nat) v : length (le_bytes n v) = n.
Proof. revert v. induction n as [|n IH]; intros v; simpl; [done|]. by rewrite IH. Qed.

Lemma le_bytes_byte (n : nat) v : Forall is_byte (le_bytes n v).
Proof.
  revert v. induction n as [|n IH]; intros v; simpl; constructor; [|apply IH].
  unfold is_byte, is_uint. change (2 ^ 8) with 256. apply Z.mod_pos_bound. lia.
Qed.

Lemma le_val_bytes (n : nat) v : 0 <= v < 256 ^ n -> le_val (le_bytes n v) = v.
Proof.
  revert v. induction n as [|n IH]; intros v Hv; simpl.
  - change (256 ^ 0%nat) with 1 in Hv. lia.
  - rewrite Nat2Z.inj_succ, Z.pow_succ_r in Hv by lia.
    rewrite IH.
    + pose proof (Z.div_mod v 256). lia.
    + split; [apply Z.div_pos; lia|]. apply Z.div_lt_upper_bound; lia.
Qed.

Lemma le_val_range bs : Forall is_byte bs -> 0 <= le_val bs < 256 ^ length bs.
Proof.
  induction 1 as [|b bs Hb _ IH]; simpl length.
  - change (256 ^ 0%nat) with 1. simpl. lia.
  - rewrite Nat2Z.inj_succ, Z.pow_succ_r by lia. simpl.
    unfold is_byte, is_uint in Hb. change (2 ^ 8) with 256 in Hb. lia.
Qed.

Lemma le_bytes_val bs : Forall is_byte bs -> le_bytes (length bs) (le_val bs) = bs.
Proof.
  induction 1 as [|b bs Hb _ IH]; [done|]. simpl.
  unfold is_byte, is_uint in Hb. change (2 ^ 8) with 256 in Hb.
  rewrite (Z.mul_comm 256), Z.mod_add, Z.mod_small, Z.div_add, (Z.div_small b), Z.add_0_l, IH by lia. done.
Qed.

Lemma uint_pow256 (n : nat) v : is_uint (8 * n) v <-> 0 <= v < 256 ^ n.
Proof. unfold is_uint. rewrite Z.pow_mul_r by lia. done. Qed.

(** ** [EndianHelper] *)
Definition changeEndianness16 (val : Z) : Z :=
  uint 16 (Z.lor (Z.shiftl val 8) (Z.land (Z.shiftr val 8) 0xff)).

Definition changeEndianness32 (val : Z) : Z :=
  uint 32 (Z.lor (Z.lor (Z.lor (Z.shiftl val 24) (Z.land (Z.shiftl val 8) 0x00ff0000))
    (Z.land (Z.shiftr val 8) 0x0000ff00)) (Z.land (Z.shiftr val 24) 0xff)).

Definition changeEndianness64 (val : Z) : Z :=
  let x := val in
  let x := Z.lor (uint 64 (Z.shiftl (Z.land x 0x00000000FFFFFFFF) 32))
                 (Z.shiftr (Z.land x 0xFFFFFFFF00000000) 32) in
  let x := Z.lor (uint 64 (Z.shiftl (Z.land x 0x0000FFFF0000FFFF) 16))
                 (Z.shiftr (Z.land x 0xFFFF0000FFFF0000) 16) in
  let x := Z.lor (uint 64 (Z.shiftl (Z.land x 0x00FF00FF00FF00FF) 8))
                 (Z.shiftr (Z.land x 0xFF00FF00FF00FF00) 8) in
  x.

(** [IsBigEndian()] is a property of the host, passed as [big]. *)
Definition GetBigEndian16 (big : bool) (val : Z) : Z := if big then val else changeEndianness16 val.
Definition GetBigEndian32 (big : bool) (val : Z) : Z := if big then val else changeEndianness32 val.
Definition GetBigEndian64 (big : bool) (val : Z) : Z := if big then val else changeEndianness64 val.
Definition GetLittleEndian32 (big : bool) (val : Z) : Z := if negb big then val else changeEndianness32 val.
Definition GetLittleEndian64 (big : bool) (val : Z) : Z := if negb big then val else changeEndianness64 val.
Definition ReadBE32 (big : bool) (ptr : bytes) : Z := GetBigEndian32 big (memcpy_to big (take 4 ptr)).
Definition ReadBE64 (big : bool) (ptr : bytes) : Z := GetBigEndian64 big (memcpy_to big (take 8 ptr)).
Definition WriteBE32 (big : bool) (x : Z) : bytes := memcpy_from big 4 (GetBigEndian32 big x).
Definition WriteBE64 (big : bool) (x : Z) : bytes := memcpy_from big 8 (GetBigEndian64 big x).
Definition ReadLE32 (big : bool) (ptr : bytes) : Z := GetLittleEndian32 big (memcpy_to big (take 4 ptr)).
Definition WriteLE32 (big : bool) (x : Z) : bytes := memcpy_from big 4 (GetLittleEndian32 big x).
Definition WriteLE64 (big : bool) (x : Z) : bytes := memcpy_from big 8 (GetLittleEndian64 big x).

(** ** [Serializer] *)
Record Serializer := mkSerializer { s_version : EProtocolVersion; s_bytes : bytes }.

Definition Serializer_new (v : EProtocolVersion) : Serializer := mkSerializer v [].

Definition Serializer_put (bs : bytes) (s : Serializer) : Serializer :=
  mkSerializer (s_version s) (s_bytes s ++ bs).

(** [Append<T>] for an integral [T] of [n] bytes, on a host of endianness [big]. *)
Definition Append_on (big : bool) (n : nat) (t : Z) (s : Serializer) : Serializer :=
  let temp := memcpy_from big n t in
  if big then Serializer_put temp s else Serializer_put (rev temp) s.

Definition AppendLittleEndian_on (big : bool) (n : nat) (t : Z) (s : Serializer) : Serializer :=
  let temp := memcpy_from big n t in
  if big then Serializer_put (rev temp) s else Serializer_put temp s.

Definition Append (n : nat) (t : Z) (s : Serializer) : Serializer := Append_on false n t s.
Definition AppendU8 := Append 1.
Definition AppendU16 := Append 2.
Definition AppendU32 := Append 4.
Definition AppendU64 := Append 8.

Inductive ESerializeLength := LenU32 | LenU64 | LenNone.

Definition AppendLength (prepend_length : ESerializeLength) (len : Z) (s : Serializer) : Serializer :=
  match prepend_length with
  | LenU64 => AppendU64 len s
  | LenU32 => AppendU32 (uint 32 len) s
  | LenNone => s
  end.

Definition AppendByteVector (bs : bytes) (prepend_length : ESerializeLength) (s : Serializer) : Serializer :=
  Serializer_put bs (AppendLength prepend_length (length bs) s).

Definition AppendVarStr (str : bytes) (s : Serializer) : Serializer :=
  Serializer_put str (AppendLength LenU64 (length str) s).

Definition AppendStr (str : bytes) (prepend_length : ESerializeLength) (s : Serializer) : Serializer :=
  Serializer_put str (AppendLength prepend_length (length str) s).

Definition AppendBigInteger (bigInteger : bytes) (s : Serializer) : Serializer :=
  Serializer_put bigInteger s.

(** ** [ByteBuffer] *)
Record ByteBuffer := mkByteBuffer { m_index : Z; m_bytes : bytes; b_version : EProtocolVersion }.

Definition ByteBuffer_new (bs : bytes) (v : EProtocolVersion) : ByteBuffer := mkByteBuffer 0 bs v.

(** Readers: a value and the buffer after it, or an exception. *)
Definition reader (A : Type) : Type := ByteBuffer -> result (A * ByteBuffer).

#[export] Instance reader_ret : MRet reader := fun A a b => Ok (a, b).
#[export] Instance reader_bind : MBind reader := fun A B f m b =>
  match m b with
  | Ok (a, b') => f a b'
  | Throw e => Throw e
  end.

Definition reader_throw {A} (e : exn) : reader A := fun _ => Throw e.
Definition GetProtocolVersion : reader EProtocolVersion := fun b => Ok (b_version b, b).

(** The bounds check [m_index + n > m_bytes.size()] in 64-bit arithmetic, then
    the [n] bytes at [m_index]; reading past the end of the vector is undefined. *)
Definition read_bytes (n : Z) : reader bytes := fun b =>
  if (m_index b + n)%u64 >? length (m_bytes b) then Throw DeserializationException
  else if m_index b + n >? length (m_bytes b) then Throw UB
  else Ok (take (Z.to_nat n) (drop (Z.to_nat (m_index b)) (m_bytes b)),
           mkByteBuffer (m_index b + n) (m_bytes b) (b_version b)).

Definition ReadBigEndian_on (big : bool) (n : nat) : reader Z :=
  data ← read_bytes n;
  mret (if big then memcpy_to big data else memcpy_to big (rev data)).

Definition ReadLittleEndian_on (big : bool) (n : nat) : reader Z :=
  data ← read_bytes n;
  mret (if big then memcpy_to big (rev data) else memcpy_to big data).

Definition ReadU8 : reader Z := ReadBigEndian_on false 1.
Definition ReadU16 : reader Z := ReadBigEndian_on false 2.
Definition ReadU32 : reader Z := ReadBigEndian_on false 4.
Definition ReadU64 : reader Z := ReadBigEndian_on false 8.
Definition ReadU64_LE : reader Z := ReadLittleEndian_on false 8.

(** Signed reads reinterpret the [8n]-bit pattern in two's complement. *)
Definition to_signed (w z : Z) : Z := if z <? 2 ^ (w - 1) then z else z - 2 ^ w.
Definition ReadSigned (n : nat) : reader Z :=
  z ← ReadBigEndian_on false n; mret (to_signed (8 * n) z).
Definition Read8 : reader Z := ReadSigned 1.
Definition Read16 : reader Z := ReadSigned 2.
Definition Read32 : reader Z := ReadSigned 4.
Definition Read64 : reader Z := ReadSigned 8.

Definition ReadVector (numBytes : Z) : reader bytes := read_bytes numBytes.
Definition ReadBigInteger (NUM_BYTES : nat) : reader bytes := read_bytes NUM_BYTES.
Definition ReadArray (T : nat) : reader bytes := read_bytes T.
Definition ReadString (size : Z) : reader bytes := read_bytes size.

Definition ReadVarStr : reader bytes :=
  stringLength ← ReadU64;
  if stringLength =? 0 then mret [] else read_bytes stringLength.

Definition GetRemainingSize (b : ByteBuffer) : Z := length (m_bytes b) - m_index b.

Definition ReadRemainingBytes : reader bytes := fun b =>
  Ok (drop (Z.to_nat (m_index b)) (m_bytes b),
      mkByteBuffer (m_index b + GetRemainingSize b) (m_bytes b) (b_version b)).

(** [for (i = 0; i < size; ++i) push_back(read())]. *)
Fixpoint read_list {A} (n : nat) (r : reader A) : reader (list A) :=
  match n with
  | O => mret []
  | S n => a ← r; l ← read_list n r; mret (a :: l)
  end.

(** ** Reading back what was written *)

(** [reads v r enc a]: wherever the bytes [enc] stand in a buffer of protocol
    version [v], [r] consumes exactly them and returns [a]. *)
Definition reads {A} (v : EProtocolVersion) (r : reader A) (enc : bytes) (a : A) : Prop :=
  forall pre post, length (pre ++ enc ++ post) < 2 ^ 64 ->
    r (mkByteBuffer (length pre) (pre ++ enc ++ post) v)
    = Ok (a, mkByteBuffer (length pre + length enc) (pre ++ enc ++ post) v).

Lemma reads_ret {A} v (a : A) : reads v (mret a) [] a.
Proof.
  intros pre post _. unfold mret, reader_ret. simpl length. rewrite Z.add_0_r. done.
Qed.

Lemma reads_bind {A B} v (r : reader A) (k : A -> reader B) e1 e2 a b :
  reads v r e1 a -> reads v (k a) e2 b -> reads v (r ≫= k) (e1 ++ e2) b.
Proof.
  intros H1 H2 pre post Hlen. unfold mbind, reader_bind.
  rewrite <- app_assoc in *. rewrite (H1 pre (e2 ++ post)) by done.
  specialize (H2 (pre ++ e1) post). rewrite <- app_assoc, (length_app pre e1), (Nat2Z.inj_add (length pre)) in H2.
  rewrite H2 by done. rewrite (length_app e1), Nat2Z.inj_add, Z.add_assoc. done.
Qed.

Lemma reads_bytes v (n : Z) bs : n = length bs -> reads v (read_bytes n) bs bs.
Proof.
  intros -> pre post Hlen. unfold read_bytes. cbn [m_index m_bytes b_version].
  rewrite !length_app in *. rewrite uint_small by uint_solve.
  destruct (Z.gtb_spec (length pre + length bs) (length pre + (length bs + length post))%nat); [lia|].
  rewrite !Nat2Z.id, drop_app_length, take_app_length. done.
Qed.

Lemma reads_int v (n : nat) t :
  0 <= t < 256 ^ n -> reads v (ReadBigEndian_on false n) (rev (le_bytes n t)) t.
Proof.
  intros Ht. unfold ReadBigEndian_on, memcpy_to.
  rewrite <- (app_nil_r (rev (le_bytes n t))). eapply reads_bind.
  - apply reads_bytes. by rewrite length_rev, length_le_bytes.
  - rewrite rev_involutive, le_val_bytes by done. apply reads_ret.
Qed.

Lemma reads_list {A} v (r : reader A) (enc : A -> bytes) (l : list A) :
  Forall (fun a => reads v r (enc a) a) l ->
  reads v (read_list (length l) r) (concat (map enc l)) l.
Proof.
  induction 1 as [|a l Ha _ IH]; simpl.
  - apply reads_ret.
  - eapply reads_bind; [apply Ha|]. rewrite <- (app_nil_r (concat (map enc l))).
    eapply reads_bind; [apply IH|]. apply reads_ret.
Qed.

(** Reading a whole buffer from its start. *)
Lemma reads_whole {A} v (r : reader A) enc (a : A) :
  reads v r enc a -> length enc < 2 ^ 64 ->
  r (ByteBuffer_new enc v) = Ok (a, mkByteBuffer (length enc) enc v).
Proof.
  intros H Hlen. specialize (H [] []). simpl in H. rewrite app_nil_r in H. by apply H.
Qed.

(** ** The contract of [Traits::ISerializable] *)
Class Serializable (A : Type) := {
  Serialize : A -> Serializer -> Serializer;
  Deserialize : reader A;
}.

(** [Traits::ISerializable::Serialized] and [SerializeWithIndex]. *)
Definition Serialized `{Serializable A} (v : EProtocolVersion) (a : A) : bytes :=
  s_bytes (Serialize a (Serializer_new v)).

Definition SerializeWithIndex `{Serializable A} (index : Z) (a : A) : bytes :=
  s_bytes (Serialize a (AppendU64 index (Serializer_new V1))).

(** [Serialize] only appends, what it appends depends on the protocol version
    alone, and [Deserialize] inverts it on the well-formed values. *)
Class SerializableLaws (A : Type) `{Serializable A} (wf : EProtocolVersion -> A -> Prop) := {
  serialize_appends a s :
    Serialize a s = mkSerializer (s_version s) (s_bytes s ++ Serialized (s_version s) a);
  deserialize_reads v a : wf v a -> reads v Deserialize (Serialized v a) a;
}.

Lemma SerializeWithIndex_app `{SerializableLaws A wf} index (a : A) :
  SerializeWithIndex index a = rev (le_bytes 8 index) ++ Serialized V1 a.
Proof. unfold SerializeWithIndex. rewrite serialize_appends. done. Qed.

Lemma serialized_roundtrip `{SerializableLaws A wf} v (a : A) :
  wf v a -> length (Serialized v a) < 2 ^ 64 ->
  Deserialize (ByteBuffer_new (Serialized v a) v)
  = Ok (a, mkByteBuffer (length (Serialized v a)) (Serialized v a) v).
Proof. intros Hwf Hlen. apply reads_whole; [by apply deserialize_reads|done]. Qed.

(** [Append<T>] and [Read<T>] do not depend on the endianness of the host. *)
Lemma Append_on_host big n t s : Append_on big n t s = Append n t s.
Proof. by destruct big. Qed.

Lemma ReadBigEndian_on_host big n b : ReadBigEndian_on big n b = ReadBigEndian_on false n b.
Proof. by destruct big. Qed.

(** Bytes appended by a list of big-endian integers / of raw values. *)
Fixpoint append_all {A} (f : A -> Serializer -> Serializer) (l : list A) (s : Serializer) : Serializer :=
  match l with
  | [] => s
  | a :: l => append_all f l (f a s)
  end.

Lemma append_all_bytes {A} (f : A -> Serializer -> Serializer) (enc : A -> bytes) l s :
  (forall a s, f a s = mkSerializer (s_version s) (s_bytes s ++ enc a)) ->
  append_all f l s = mkSerializer (s_version s) (s_bytes s ++ concat (map enc l)).
Proof.
  intros Hf. revert s. induction l as [|a l IH]; intros s; simpl.
  - rewrite app_nil_r. by destruct s.
  - rewrite IH, Hf. simpl. by rewrite app_assoc.
Qed.

Definition be_bytes (n : nat) (v : Z) : bytes := rev (le_bytes n v).

Lemma Append_be n t s : Append n t s = mkSerializer (s_version s) (s_bytes s ++ be_bytes n t).
Proof. done. Qed.

Lemma length_be_bytes n v : length (be_bytes n v) = n.
Proof. unfold be_bytes. by rewrite length_rev, length_le_bytes. Qed.

Lemma reads_be v (n : nat) t : 0 <= t < 256 ^ n -> reads v (ReadBigEndian_on false n) (be_bytes n t) t.
Proof. apply reads_int. Qed.

(** ** Byte order

    Bits of a little-endian byte string, and the byte swaps as reversals. *)
Lemma testbit_le_val bs i :
  Forall is_byte bs -> 0 <= i ->
  Z.testbit (le_val bs) i = Z.testbit (nth (Z.to_nat (i / 8)) bs 0) (i mod 8).
Proof.
  intros Hbs. revert i. induction Hbs as [|b bs Hb _ IH]; intros i Hi; cbn [le_val].
  - rewrite Z.bits_0. destruct (Z.to_nat (i / 8)); simpl; by rewrite Z.bits_0.
  - unfold is_byte, is_uint in Hb. destruct (Z.lt_ge_cases i 8) as [Hlt|Hge].
    + rewrite Z.div_small, Z.mod_small by lia. simpl nth.
      rewrite <- (Z.mod_pow2_bits_low (b + 256 * le_val bs) 8) by lia.
      change 256 with (2 ^ 8). rewrite (Z.mul_comm (2 ^ 8)), Z.mod_add, Z.mod_small by (done || lia). done.
    + replace i with ((i - 8) + 8) at 1 by lia. change 256 with (2 ^ 8).
      rewrite <- Z.div_pow2_bits, (Z.mul_comm (2 ^ 8)) by lia.
      rewrite Z.div_add, Z.div_small, Z.add_0_l by (done || lia).
      rewrite IH by lia.
      assert (i / 8 = (i - 8) / 8 + 1) as -> by (rewrite <- Z.div_add by lia; f_equal; lia).
      assert (i mod 8 = (i - 8) mod 8) as -> by (rewrite <- (Z.mod_add (i - 8) 1) by lia; f_equal; lia).
      assert (0 <= (i - 8) / 8) by (apply Z.div_pos; lia).
      replace (Z.to_nat ((i - 8) / 8 + 1)) with (S (Z.to_nat ((i - 8) / 8))) by lia. done.
Qed.

Lemma testbit_nth_le_bytes (n : nat) v k j :
  (k < n)%nat -> 0 <= j < 8 -> Z.testbit (nth k (le_bytes n v) 0) j = Z.testbit v (8 * k + j).
Proof.
  revert v k. induction n as [|n IH]; intros v k Hk Hj; [lia|].
  cbn [le_bytes]. destruct k as [|k]; simpl nth.
  - change 256 with (2 ^ 8). rewrite Z.mod_pow2_bits_low by lia. f_equal; lia.
  - rewrite IH by lia. change 256 with (2 ^ 8). rewrite Z.div_pow2_bits by lia. f_equal; lia.
Qed.

(** The integer with the bytes of [v] in reverse order. *)
Definition byte_swap (n : nat) (v : Z) : Z := le_val (rev (le_bytes n v)).

Lemma testbit_byte_swap (n : nat) v i :
  0 <= i < 8 * n ->
  Z.testbit (byte_swap n v) i = Z.testbit v (8 * (n - 1 - i / 8) + i mod 8).
Proof.
  intros Hi. unfold byte_swap.
  rewrite testbit_le_val by (try apply Forall_rev, le_bytes_byte; lia).
  assert (0 <= i / 8 < n) by (split; [apply Z.div_pos|apply Z.div_lt_upper_bound]; lia).
  rewrite rev_nth by (rewrite length_le_bytes; lia). rewrite length_le_bytes.
  rewrite testbit_nth_le_bytes by (try apply Z.mod_pos_bound; lia). f_equal. lia.
Qed.

Lemma byte_swap_range (n : nat) v : 0 <= byte_swap n v < 256 ^ n.
Proof.
  unfold byte_swap. pose proof (le_val_range (rev (le_bytes n v))) as H.
  rewrite length_rev, length_le_bytes in H. apply H. apply Forall_rev, le_bytes_byte.
Qed.

Lemma testbit_above (n : nat) v i : 0 <= v < 2 ^ n -> n <= i -> Z.testbit v i = false.
Proof.
  intros Hv Hi. destruct (decide (v = 0)) as [->|]; [apply Z.bits_0|].
  apply Z.bits_above_log2; [lia|]. apply Z.log2_lt_pow2; [lia|].
  apply Z.lt_le_trans with (2 ^ n); [lia|]. apply Z.pow_le_mono_r; lia.
Qed.

(** Two [8n]-bit values with the same low bits. *)
Lemma bits_eq (n : nat) a b :
  0 <= a < 2 ^ n -> 0 <= b < 2 ^ n ->
  Forall (fun i : nat => Z.testbit a i = Z.testbit b i) (seq 0 n) -> a = b.
Proof.
  intros Ha Hb Hbits. apply Z.bits_inj_iff'. intros i Hi.
  destruct (Z.lt_ge_cases i n) as [Hlt|Hge]; [|by rewrite !(testbit_above n)].
  rewrite Forall_forall in Hbits. rewrite <- (Z2Nat.id i) by done. apply Hbits, elem_of_seq. lia.
Qed.

Lemma lor_range (n : nat) a b : 0 <= a < 2 ^ n -> 0 <= b < 2 ^ n -> 0 <= Z.lor a b < 2 ^ n.
Proof.
  intros Ha Hb. assert (0 <= Z.lor a b) by (apply Z.lor_nonneg; lia). split; [done|].
  destruct (decide (Z.lor a b = 0)) as [->|Hne]; [apply pow2_pos; lia|].
  apply Z.log2_lt_pow2; [lia|]. rewrite Z.log2_lor by lia.
  destruct (decide (n = 0%nat)) as [->|].
  { change (2 ^ 0%nat) with 1 in *. assert (a = 0) as -> by lia. assert (b = 0) as -> by lia. done. }
  apply Z.max_lub_lt; [destruct (decide (a = 0)) as [->|]|destruct (decide (b = 0)) as [->|]];
    try (rewrite Z.log2_nonpos by lia; lia); apply Z.log2_lt_pow2; lia.
Qed.

(** One stage of the 64-bit swap exchanges neighbouring blocks of [s] bits. *)
Definition stage_masks (s ML MH : Z) : bool :=
  forallb (fun i : nat => Bool.eqb (Z.testbit ML (i - s)) (Z.odd (i / s))
                       && Bool.eqb (Z.testbit MH (i + s)) (Z.even (i / s))) (seq 0 64).

Lemma testbit_stage s ML MH x i :
  stage_masks s ML MH = true -> 0 < s -> 0 <= i < 64 ->
  Z.testbit (Z.lor (uint 64 (Z.shiftl (Z.land x ML) s)) (Z.shiftr (Z.land x MH) s)) i
  = Z.testbit x (if Z.odd (i / s) then i - s else i + s).
Proof.
  intros Hm Hs Hi. unfold stage_masks in Hm. rewrite forallb_forall in Hm.
  specialize (Hm (Z.to_nat i) ltac:(apply in_seq; lia)). rewrite Z2Nat.id in Hm by lia.
  apply andb_prop in Hm as [H1 H2]. apply Bool.eqb_prop in H1, H2. unfold uint.
  rewrite Z.lor_spec, Z.mod_pow2_bits_low, Z.shiftl_spec, Z.shiftr_spec, !Z.land_spec, H1, H2 by lia.
  rewrite <- Z.negb_odd. destruct (Z.odd (i / s)); simpl;
    by rewrite ?andb_true_r, ?andb_false_r, ?orb_false_r.
Qed.

Lemma stage_range s ML MH x :
  0 <= x < 2 ^ 64 -> 0 <= s -> 0 <= MH ->
  0 <= Z.lor (uint 64 (Z.shiftl (Z.land x ML) s)) (Z.shiftr (Z.land x MH) s) < 2 ^ 64.
Proof.
  intros Hx Hs Hm. apply (lor_range 64); [apply (uint_range 64); lia|].
  assert (0 <= Z.land x MH <= x) as H.
  { apply Z.ldiff_le; [lia|]. apply Z.bits_inj_iff'. intros i _.
    rewrite Z.ldiff_spec, Z.land_spec, Z.bits_0. by destruct (Z.testbit x i), (Z.testbit MH i). }
  rewrite Z.shiftr_div_pow2 by done. pose proof (pow2_pos s Hs).
  split; [apply Z.div_pos; lia|]. apply Z.le_lt_trans with x; [|apply Hx].
  etransitivity; [|apply H]. apply Z.div_le_upper_bound; nia.
Qed.

Ltac swap_bits f :=
  unfold uint;
  repeat first
  [ rewrite Z.testbit_neg_r by lia
  | rewrite Z.lor_spec | rewrite Z.land_spec
  | rewrite Z.mod_pow2_bits_low by lia
  | rewrite Z.shiftr_spec by lia
  | rewrite Z.shiftl_spec by lia ];
  generalize f; let g := fresh in intros g; vm_compute;
  repeat match goal with |- context [g ?z] => destruct (g z) end; reflexivity.

Lemma changeEndianness16_swap v : changeEndianness16 v = byte_swap 2 v.
Proof.
  apply (bits_eq 16); [apply (uint_range 16); lia|apply (byte_swap_range 2)|].
  unfold changeEndianness16. repeat constructor;
    (rewrite testbit_byte_swap by lia); swap_bits (Z.testbit v).
Qed.

Lemma changeEndianness32_swap v : changeEndianness32 v = byte_swap 4 v.
Proof.
  apply (bits_eq 32); [apply (uint_range 32); lia|apply (byte_swap_range 4)|].
  unfold changeEndianness32. repeat constructor;
    (rewrite testbit_byte_swap by lia); swap_bits (Z.testbit v).
Qed.

Lemma changeEndianness64_swap v : is_uint 64 v -> changeEndianness64 v = byte_swap 8 v.
Proof.
  intros Hv. unfold changeEndianness64.
  apply (bits_eq 64); [repeat apply stage_range; done || lia|apply (byte_swap_range 8)|].
  apply Forall_forall. intros i Hi. apply elem_of_seq in Hi.
  rewrite testbit_byte_swap by lia.
  set (n := fun s i => if Z.odd (i / s) then i - s else i + s).
  assert (forallb (fun i : nat => (n 32 (n 16 (n 8 i)) =? 8 * (8 - 1 - i / 8) + i mod 8)
      && (0 <=? n 8 i) && (n 8 i <? 64) && (0 <=? n 16 (n 8 i)) && (n 16 (n 8 i) <? 64))
    (seq 0 64) = true) as Hb by (vm_compute; done).
  rewrite forallb_forall in Hb. specialize (Hb i ltac:(apply in_seq; lia)).
  rewrite !andb_true_iff, Z.eqb_eq, !Z.leb_le, !Z.ltb_lt in Hb.
  assert (0 <= i < 64) by lia. destruct Hb as [[[[Hb ?] ?] ?] ?].
  rewrite (testbit_stage 8) by (done || (vm_compute; done)). fold (n 8 i).
  rewrite (testbit_stage 16) by (done || (vm_compute; done)). fold (n 16 (n 8 i)).
  rewrite (testbit_stage 32) by (done || (vm_compute; done)). fold (n 32 (n 16 (n 8 i))).
  rewrite Hb. done.
Qed.

(** ** A sequence of fields *)

(** The items the serializers of the program write, and their layout. *)
Inductive field :=
| FInt (n : nat) (t : Z)
| FIntLE (n : nat) (t : Z)
| FBytes (bs : bytes)
| FVarStr (str : bytes).

Definition field_wf (f : field) : Prop :=
  match f with
  | FInt n t | FIntLE n t => 0 <= t < 256 ^ n
  | FBytes _ => True
  | FVarStr str => length str < 2 ^ 64
  end.

Definition append_field (big : bool) (f : field) : Serializer -> Serializer :=
  match f with
  | FInt n t => Append_on big n t
  | FIntLE n t => AppendLittleEndian_on big n t
  | FBytes bs => AppendByteVector bs LenNone
  | FVarStr str => AppendVarStr str
  end.

(** Read a field of the same layout; the values of the argument are not used. *)
Definition read_field (big : bool) (f : field) : reader field :=
  match f with
  | FInt n _ => t ← ReadBigEndian_on big n; mret (FInt n t)
  | FIntLE n _ => t ← ReadLittleEndian_on big n; mret (FIntLE n t)
  | FBytes bs => x ← ReadVector (length bs); mret (FBytes x)
  | FVarStr _ => x ← ReadVarStr; mret (FVarStr x)
  end.

Fixpoint read_fields (big : bool) (l : list field) : reader (list field) :=
  match l with
  | [] => mret []
  | f :: l => a ← read_field big f; r ← read_fields big l; mret (a :: r)
  end.

Definition field_bytes (f : field) : bytes :=
  match f with
  | FInt n t => be_bytes n t
  | FIntLE n t => le_bytes n t
  | FBytes bs => bs
  | FVarStr str => be_bytes 8 (length str) ++ str
  end.

Lemma append_field_bytes big f s :
  append_field big f s = mkSerializer (s_version s) (s_bytes s ++ field_bytes f).
Proof.
  destruct f; simpl.
  - by destruct big.
  - unfold AppendLittleEndian_on, memcpy_from. destruct big; by rewrite ?rev_involutive.
  - done.
  - unfold AppendVarStr, Serializer_put. simpl. by rewrite <- app_assoc.
Qed.

Lemma ReadLittleEndian_on_host big n b : ReadLittleEndian_on big n b = ReadLittleEndian_on false n b.
Proof.
  unfold ReadLittleEndian_on, mbind, reader_bind. destruct (read_bytes n b) as [[]|]; [|done].
  unfold memcpy_to. destruct big; [by rewrite rev_involutive|done].
Qed.

(** Reading a mapped value with nothing after it. *)
Lemma reads_map {A B} v (r : reader A) enc a (k : A -> B) :
  reads v r enc a -> reads v (x ← r; mret (k x)) enc (k a).
Proof.
  intros H. rewrite <- (app_nil_r enc). eapply reads_bind; [apply H|apply reads_ret].
Qed.

Lemma reads_VarStr v str : length str < 2 ^ 64 -> reads v ReadVarStr (be_bytes 8 (length str) ++ str) str.
Proof.
  intros Hl. eapply reads_bind; [apply reads_be; change (256 ^ 8%nat) with (2 ^ 64); lia|].
  destruct (Z.eqb_spec (length str) 0).
  - destruct str; [apply reads_ret|done].
  - by apply reads_bytes.
Qed.

Lemma reads_field v big f : field_wf f -> reads v (read_field big f) (field_bytes f) f.
Proof.
  destruct f; simpl; intros Hwf.
  - apply reads_map. intros pre post Hl. rewrite ReadBigEndian_on_host. by apply reads_be.
  - apply (reads_map _ _ _ _ (FIntLE n)). intros pre post Hl. rewrite ReadLittleEndian_on_host.
    revert pre post Hl. change (reads v (ReadLittleEndian_on false n) (le_bytes n t) t).
    rewrite <- (le_val_bytes n t) at 2 by done.
    apply (reads_map v (read_bytes n) (le_bytes n t) (le_bytes n t) le_val), reads_bytes.
    by rewrite length_le_bytes.
  - apply reads_map. by apply reads_bytes.
  - apply reads_map. by apply reads_VarStr.
Qed.

Lemma reads_fields v big l :
  Forall field_wf l -> reads v (read_fields big l) (concat (map field_bytes l)) l.
Proof.
  induction 1 as [|f l Hf _ IH]; simpl; [apply reads_ret|].
  eapply reads_bind; [by apply reads_field|]. by apply (reads_map _ _ _ _ (cons f)).
Qed.

(** ** Properties *)

(** whatever sequence of integers (big or little endian, of any width),
    raw bytes and length-prefixed strings is appended to a [Serializer] on a
    host of one endianness, a [ByteBuffer] on a host of any endianness reads
    the same sequence back and ends exactly at the end of the bytes. *)
Theorem serializer_fields_roundtrip (host host' : bool) v l :
  Forall field_wf l ->
  let enc := s_bytes (append_all (append_field host) l (Serializer_new v)) in
  length enc < 2 ^ 64 ->
  read_fields host' l (ByteBuffer_new enc v) = Ok (l, mkByteBuffer (length enc) enc v).
Proof.
  intros Hl enc Hlen. subst enc.
  rewrite (append_all_bytes _ field_bytes) in * by apply append_field_bytes. simpl in *.
  apply reads_whole; [by apply reads_fields|done].
Qed.

Lemma serializer_fields_roundtrip_witness :
  let l := [FInt 2 258; FVarStr [104; 105]; FIntLE 8 5; FBytes [1; 2; 3]] in
  let enc := [1; 2; 0; 0; 0; 0; 0; 0; 0; 2; 104; 105; 5; 0; 0; 0; 0; 0; 0; 0; 1; 2; 3] in
  read_fields true l (ByteBuffer_new enc V1) = Ok (l, mkByteBuffer 23 enc V1).
Proof.
  apply (serializer_fields_roundtrip false true V1
           [FInt 2 258; FVarStr [104; 105]; FIntLE 8 5; FBytes [1; 2; 3]]).
  - repeat constructor; vm_compute; congruence.
  - vm_compute. congruence.
Defined.

(** the byte-order helpers agree on every host: what [WriteBE64],
    [WriteBE32], [WriteLE64] and [WriteLE32] store is the big-endian
    (little-endian) representation, and the reads invert them. *)
Theorem EndianHelper_host_independent (host host' : bool) x y :
  is_uint 64 x -> is_uint 32 y ->
  WriteBE64 host x = be_bytes 8 x /\ ReadBE64 host' (WriteBE64 host x) = x /\
  WriteBE32 host y = be_bytes 4 y /\ ReadBE32 host' (WriteBE32 host y) = y /\
  WriteLE64 host x = le_bytes 8 x /\
  WriteLE32 host y = le_bytes 4 y /\ ReadLE32 host' (WriteLE32 host y) = y.
Proof.
  intros Hx Hy. pose proof (proj1 (uint_pow256 8 x) Hx) as Hx'.
  pose proof (proj1 (uint_pow256 4 y) Hy) as Hy'.
  assert (forall n v, le_bytes n (byte_swap n v) = be_bytes n v) as Hsw.
  { intros n v. unfold byte_swap, be_bytes. rewrite <- (length_le_bytes n v), <- length_rev at 1.
    apply le_bytes_val, Forall_rev, le_bytes_byte. }
  assert (forall (n : nat) v, 0 <= v < 256 ^ n -> byte_swap n (byte_swap n v) = v) as Hinv.
  { intros n v Hv. unfold byte_swap at 1. rewrite Hsw. unfold be_bytes.
    by rewrite rev_involutive, le_val_bytes. }
  assert (forall n v, rev (be_bytes n v) = le_bytes n v) as Hrev
    by (intros; apply rev_involutive).
  assert (is_uint 64 (byte_swap 8 x)) by (apply (proj2 (uint_pow256 8 _)), byte_swap_range).
  assert (WriteBE64 host x = be_bytes 8 x) as E1.
  { unfold WriteBE64, GetBigEndian64, memcpy_from. destruct host; [done|]. cbv iota. by rewrite changeEndianness64_swap, Hsw. }
  assert (WriteBE32 host y = be_bytes 4 y) as E2.
  { unfold WriteBE32, GetBigEndian32, memcpy_from. destruct host; [done|]. cbv iota. by rewrite changeEndianness32_swap, Hsw. }
  assert (WriteLE64 host x = le_bytes 8 x) as E3.
  { unfold WriteLE64, GetLittleEndian64, memcpy_from. destruct host; cbn [negb]; cbv iota; [|done]. by rewrite changeEndianness64_swap, Hsw. }
  assert (WriteLE32 host y = le_bytes 4 y) as E4.
  { unfold WriteLE32, GetLittleEndian32, memcpy_from. destruct host; cbn [negb]; cbv iota; [|done]. by rewrite changeEndianness32_swap, Hsw. }
  rewrite E1, E2, E3, E4. unfold ReadBE64, ReadBE32, ReadLE32.
  rewrite !take_ge by (rewrite ?length_be_bytes, ?length_le_bytes; lia).
  unfold GetBigEndian64, GetBigEndian32, GetLittleEndian32, memcpy_to.
  assert (le_val (be_bytes 8 x) = byte_swap 8 x) as -> by done.
  assert (le_val (be_bytes 4 y) = byte_swap 4 y) as -> by done.
  destruct host'; cbn [negb]; cbv iota; rewrite ?Hrev, ?le_val_bytes, ?changeEndianness64_swap, ?changeEndianness32_swap by done.
  - fold (be_bytes 4 y). change (le_val (be_bytes 4 y)) with (byte_swap 4 y). by rewrite Hinv.
  - by rewrite !Hinv.
Qed.

Lemma EndianHelper_host_independent_witness :
  WriteBE64 false 0x0102030405060708 = [1; 2; 3; 4; 5; 6; 7; 8] /\
  ReadBE64 true (WriteBE64 false 0x0102030405060708) = 0x0102030405060708.
Proof.
  destruct (EndianHelper_host_independent false true 0x0102030405060708 7) as (H1 & H2 & _).
  - unfold is_uint. lia.
  - unfold is_uint. lia.
  - split; [exact H1|exact H2].
Defined.

(** the outcome of every length-checked read ([ReadVector], [ReadString],
    [ReadBigInteger], [ReadArray], the integer reads): the bytes when they are
    there, a [DeserializationException] when they are not - except that a
    length so large that [m_index + n] wraps around 64 bits passes the check,
    and the read then leaves the vector. *)
Theorem read_bytes_outcome b n :
  0 <= m_index b <= length (m_bytes b) -> length (m_bytes b) < 2 ^ 63 -> 0 <= n < 2 ^ 64 ->
  (m_index b + n <= length (m_bytes b) ->
   exists data, ReadVector n b = Ok (data, mkByteBuffer (m_index b + n) (m_bytes b) (b_version b)) /\
     length data = n :> Z /\ m_bytes b = take (Z.to_nat (m_index b)) (m_bytes b) ++ data ++
       drop (Z.to_nat (m_index b + n)) (m_bytes b)) /\
  (length (m_bytes b) < m_index b + n < 2 ^ 64 -> ReadVector n b = Throw DeserializationException) /\
  (2 ^ 64 <= m_index b + n -> ReadVector n b = Throw UB).
Proof.
  intros Hi Hl Hn. unfold ReadVector, read_bytes. split; [|split]; intros H.
  - rewrite uint_small, !Z.gtb_ltb by uint_solve.
    destruct (Z.ltb_spec (length (m_bytes b)) (m_index b + n)); [lia|].
    eexists. split; [done|]. split; [rewrite length_take, length_drop; lia|].
    rewrite <- (take_drop (Z.to_nat (m_index b)) (m_bytes b)) at 1. f_equal.
    rewrite <- (take_drop (Z.to_nat n) (drop _ _)) at 1. f_equal.
    rewrite drop_drop. f_equal. lia.
  - rewrite uint_small, !Z.gtb_ltb by uint_solve.
    destruct (Z.ltb_spec (length (m_bytes b)) (m_index b + n)); [done|lia].
  - assert ((m_index b + n)%u64 = m_index b + n - 2 ^ 64) as ->.
    { unfold uint. symmetry. apply Z.mod_unique_pos with 1; lia. }
    rewrite !Z.gtb_ltb. destruct (Z.ltb_spec (length (m_bytes b)) (m_index b + n - 2 ^ 64)); [lia|].
    destruct (Z.ltb_spec (length (m_bytes b)) (m_index b + n)); [done|lia].
Qed.

(** The string read by [ReadVarStr] of a nine-byte message with length
    [2^64 - 8] leaves the vector. *)
Lemma read_bytes_outcome_witness :
  ReadVector (2 ^ 64 - 8) (mkByteBuffer 8 [255; 255; 255; 255; 255; 255; 255; 248; 65] V1) = Throw UB /\
  ReadVarStr (ByteBuffer_new [255; 255; 255; 255; 255; 255; 255; 248; 65] V1) = Throw UB.
Proof.
  split; [|vm_compute; done].
  apply (read_bytes_outcome (mkByteBuffer 8 [255; 255; 255; 255; 255; 255; 255; 248; 65] V1) (2 ^ 64 - 8)); simpl; lia.
Defined.
