(* ===== verification/BigInteger.v ===== *)
(** * Fixed-size byte strings ([include/Crypto/Models/BigInteger.h])

    [CBigInteger<NUM_BYTES>] is a vector of [NUM_BYTES] bytes, most significant
    first.  Hashes, commitments and blinding factors are such values. *)
From S2P Require Import Prelude BitUtil Serial.

Abbreviation BigInteger := (list Z) (only parsing).

Definition BigInteger_wf (n : nat) (x : BigInteger) : Prop := length x = n /\ Forall is_byte x.

(** The number a value denotes. *)
Definition be_val (x : BigInteger) : Z := le_val (rev x).

Definition ZERO (n : nat) : BigInteger := repeat 0 n.

Definition BigInteger_ValueOf (n : nat) (value : Z) : BigInteger := <[(n - 1)%nat := value]> (repeat 0 n).

Definition BigInteger_GetMaximumValue (n : nat) : BigInteger := repeat 0xFF n.

Definition BigInteger_erase (x : BigInteger) : BigInteger := map (fun _ => 0) x.

(** [operator<]: the first differing byte decides. *)
Fixpoint BigInteger_lt (x rhs : BigInteger) : bool :=
  match x, rhs with
  | b :: x, r :: rhs => if r =? b then BigInteger_lt x rhs else b <? r
  | _, _ => false
  end.

(** [operator==]: the [NUM_BYTES] bytes compared one by one. *)
Fixpoint BigInteger_eq (x rhs : BigInteger) : bool :=
  match x, rhs with
  | b :: x, r :: rhs => if b =? r then BigInteger_eq x rhs else false
  | _, _ => true
  end.

Definition BigInteger_gt (x rhs : BigInteger) : bool := BigInteger_lt rhs x.
Definition BigInteger_neq (x rhs : BigInteger) : bool := negb (BigInteger_eq x rhs).
Definition BigInteger_le (x rhs : BigInteger) : bool := BigInteger_lt x rhs || BigInteger_eq x rhs.
Definition BigInteger_ge (x rhs : BigInteger) : bool := BigInteger_gt x rhs || BigInteger_eq x rhs.

(** [operator^]. *)
Definition BigInteger_xor (x rhs : BigInteger) : BigInteger := zip_with Z.lxor x rhs.

(** The loop of [operator++], with [i] the number of bytes left of the current
    one plus one.  The loop variable is a [size_t], so [i >= 0] never fails and
    below index 0 the loop writes outside the vector. *)
Fixpoint BigInteger_incr_loop (i : nat) (m_data : BigInteger) : result BigInteger :=
  match i with
  | O => Throw UB
  | S i =>
      match m_data !! i with
      | None => Throw UB
      | Some b =>
          if b =? 255 then BigInteger_incr_loop i (<[i := 0]> m_data)
          else Ok (<[i := b + 1]> m_data)
      end
  end.

Definition BigInteger_incr (x : BigInteger) : result BigInteger := BigInteger_incr_loop (length x) x.

(** ** Order and equality *)

Lemma be_val_cons b x : be_val (b :: x) = b * 256 ^ length x + be_val x.
Proof.
  unfold be_val. simpl. rewrite <- (length_rev x). generalize (rev x) as l.
  induction l as [|c l IH]; simpl length; simpl le_val.
  - change (256 ^ 0%nat) with 1. lia.
  - rewrite Nat2Z.inj_succ, Z.pow_succ_r by lia. lia.
Qed.

Lemma be_val_range x : Forall is_byte x -> 0 <= be_val x < 256 ^ length x.
Proof.
  intros Hx. unfold be_val. rewrite <- (length_rev x). apply le_val_range.
  by apply Forall_rev.
Qed.

Lemma be_val_inj x y : length x = length y -> Forall is_byte x -> Forall is_byte y ->
  be_val x = be_val y -> x = y.
Proof.
  intros Hl Hx Hy E. apply (f_equal (fun v => rev (le_bytes (length x) v))) in E.
  revert E. unfold be_val. rewrite <- (length_rev x) at 1. rewrite Hl at 1. rewrite <- (length_rev y).
  rewrite !le_bytes_val by (by apply Forall_rev). by rewrite !rev_involutive.
Qed.

Lemma BigInteger_lt_spec x y :
  length x = length y -> Forall is_byte x -> Forall is_byte y ->
  BigInteger_lt x y = (be_val x <? be_val y).
Proof.
  revert y. induction x as [|b x IH]; intros [|c y] Hl Hx Hy; try done.
  injection Hl as Hl. apply Forall_cons in Hx as [Hb Hx]. apply Forall_cons in Hy as [Hc Hy].
  simpl BigInteger_lt. rewrite !be_val_cons, <- Hl.
  pose proof (be_val_range x Hx) as Rx. pose proof (be_val_range y Hy) as Ry. rewrite <- Hl in Ry.
  destruct (Z.eqb_spec c b) as [->|Hne].
  - rewrite IH by done. zcases; lia || done.
  - zcases; nia || done.
Qed.

Lemma BigInteger_eq_spec x y : length x = length y -> BigInteger_eq x y = bool_decide (x = y).
Proof.
  revert y. induction x as [|b x IH]; intros [|c y] Hl; try done.
  injection Hl as Hl. simpl. destruct (Z.eqb_spec b c) as [->|Hne].
  - rewrite IH by done. apply bool_decide_ext. split; congruence.
  - symmetry. apply bool_decide_eq_false. congruence.
Qed.

(** ** Increment *)

Lemma be_val_app x y : be_val (x ++ y) = be_val x * 256 ^ length y + be_val y.
Proof.
  induction x as [|b x IH]; [done|]. simpl app. rewrite !be_val_cons, IH, length_app.
  rewrite Nat2Z.inj_add, Z.pow_add_r by lia. lia.
Qed.

Lemma be_val_max n : be_val (repeat 255 n) = 256 ^ n - 1.
Proof.
  induction n as [|n IH]; [done|]. simpl repeat. rewrite be_val_cons, IH, repeat_length.
  rewrite Nat2Z.inj_succ, Z.pow_succ_r by lia. lia.
Qed.

Lemma be_val_zero n : be_val (repeat 0 n) = 0.
Proof. induction n as [|n IH]; [done|]. simpl repeat. rewrite be_val_cons, IH. lia. Qed.

(** The loop over a prefix [x], when the bytes right of it have wrapped to 0. *)
Lemma BigInteger_incr_loop_spec x (n : nat) :
  Forall is_byte x ->
  match BigInteger_incr_loop (length x) (x ++ repeat 0 n) with
  | Ok y => length y = (length x + n)%nat /\ Forall is_byte y /\ be_val y = (be_val x + 1) * 256 ^ n
  | Throw e => e = UB /\ x = repeat 255 (length x)
  end.
Proof.
  revert n. induction x as [|b x IH] using rev_ind; intros n Hx; [done|].
  apply Forall_app in Hx as [Hx Hb]. rewrite Forall_singleton in Hb.
  rewrite length_app, Nat.add_comm. simpl length. cbn [Nat.add BigInteger_incr_loop].
  rewrite <- app_assoc. simpl app.
  rewrite list_lookup_middle by done. rewrite be_val_app. simpl length. change (256 ^ 1%nat) with 256.
  assert (be_val [b] = b) as -> by (unfold be_val; simpl; lia).
  destruct (Z.eqb_spec b 255) as [->|Hne]; rewrite insert_app_r_alt, Nat.sub_diag by lia; simpl insert.
  - specialize (IH (S n) Hx). simpl repeat in IH.
    destruct (BigInteger_incr_loop (length x) (x ++ 0 :: repeat 0 n)) as [y|e].
    + destruct IH as (Hl & Hy & E). split; [lia|]. split; [done|]. rewrite E.
      rewrite Nat2Z.inj_succ, Z.pow_succ_r by lia. lia.
    + destruct IH as [-> IH]. split; [done|]. rewrite IH at 1.
      change (S (length x)) with (1 + length x)%nat. rewrite Nat.add_comm, repeat_app. done.
  - rewrite length_app. simpl length. rewrite repeat_length. split; [lia|].
    unfold is_byte, is_uint in Hb. change (2 ^ 8) with 256 in Hb. split.
    + apply Forall_app. split; [done|]. constructor; [unfold is_byte; uint_solve|].
      apply Forall_forall. intros z Hz. apply list_elem_of_In, repeat_spec in Hz as ->. unfold is_byte. uint_solve.
    + rewrite be_val_app, be_val_cons, be_val_zero. simpl length. rewrite repeat_length.
      rewrite Nat2Z.inj_succ, Z.pow_succ_r by lia. lia.
Qed.

(** ** Properties *)

(** the comparison operators are the numeric order of the big-endian values
    and their equality. *)
Theorem BigInteger_order n x y :
  BigInteger_wf n x -> BigInteger_wf n y ->
  BigInteger_lt x y = (be_val x <? be_val y) /\
  BigInteger_gt x y = (be_val y <? be_val x) /\
  BigInteger_le x y = (be_val x <=? be_val y) /\
  BigInteger_ge x y = (be_val y <=? be_val x) /\
  BigInteger_eq x y = (be_val x =? be_val y) /\
  (BigInteger_eq x y = true <-> x = y) /\
  BigInteger_neq x y = negb (be_val x =? be_val y).
Proof.
  intros [Hx Bx] [Hy By]. assert (length x = length y) as Hl by congruence.
  assert (BigInteger_eq x y = (be_val x =? be_val y)) as E.
  { rewrite BigInteger_eq_spec by done. case_bool_decide as Hd; symmetry.
    - apply Z.eqb_eq. by subst.
    - apply Z.eqb_neq. intros Hv. apply Hd. by apply be_val_inj. }
  unfold BigInteger_neq, BigInteger_le, BigInteger_ge, BigInteger_gt.
  rewrite !BigInteger_lt_spec, E by done.
  split; [done|]. split; [done|]. split; [zcases; done || lia|]. split; [zcases; done || lia|].
  split; [done|]. split; [|done]. rewrite <- E, BigInteger_eq_spec by done. apply bool_decide_eq_true.
Qed.

Lemma BigInteger_order_witness :
  BigInteger_lt [1; 255] [2; 0] = (be_val [1; 255] <? be_val [2; 0]).
Proof.
  apply (BigInteger_order 2 [1; 255] [2; 0]);
    (split; [reflexivity|]; repeat constructor; vm_compute; congruence).
Defined.

(** [operator++] adds one to the value when it is not the maximum; at
    the maximum its loop, whose unsigned counter is never negative, writes
    outside the vector. *)
Theorem BigInteger_incr_spec n x :
  BigInteger_wf n x ->
  (x <> BigInteger_GetMaximumValue n ->
   exists y, BigInteger_incr x = Ok y /\ BigInteger_wf n y /\ be_val y = be_val x + 1) /\
  (x = BigInteger_GetMaximumValue n -> BigInteger_incr x = Throw UB).
Proof.
  intros [Hl Hx]. unfold BigInteger_incr, BigInteger_GetMaximumValue.
  pose proof (BigInteger_incr_loop_spec x 0 Hx) as H. simpl repeat in H. rewrite app_nil_r in H.
  destruct (BigInteger_incr_loop (length x) x) as [y|e].
  - destruct H as (Hly & Hy & Hv). change (256 ^ 0%nat) with 1 in Hv. split.
    + intros _. exists y. split; [done|]. split; [split; [lia|done]|lia].
    + intros E. pose proof (be_val_range y Hy) as R. rewrite E, be_val_max in Hv.
      replace (length y) with n in R by lia. lia.
  - destruct H as [-> H]. split; [|done]. rewrite H, Hl. done.
Qed.

Lemma BigInteger_incr_spec_witness :
  BigInteger_incr [255; 255] = Throw UB /\
  exists y, BigInteger_incr [0; 255] = Ok y /\ BigInteger_wf 2 y /\ be_val y = 256.
Proof.
  split.
  - apply (BigInteger_incr_spec 2 [255; 255]); [|reflexivity].
    split; [reflexivity|]. repeat constructor; vm_compute; congruence.
  - apply (BigInteger_incr_spec 2 [0; 255]); [|discriminate].
    split; [reflexivity|]. repeat constructor; vm_compute; congruence.
Defined.
