(* ===== verification/File.v ===== *)
(** * Files with a working tail ([src/Core/File/AppendOnlyFile.cpp],
    [include/Core/File/DataFile.h], [include/Core/Traits/Batchable.h],
    [src/Core/File/MappedFile_Nix.cpp])

    An [AppendOnlyFile] is the committed file on disk plus uncommitted bytes in
    memory; [DataFile<NUM_BYTES>] is its view as records.  The disk is the byte
    list [disk]: reads and writes of the operating system are taken to
    succeed. *)
From S2P Require Import Prelude Serial.

(** ** [MappedFile] *)

(** [FileUtil::TruncateFile]: resize, with zero bytes past the old end. *)
Definition TruncateFile (size : Z) (disk : bytes) : bytes :=
  take (Z.to_nat size) (disk ++ repeat 0 (Z.to_nat size - length disk)).

Definition MappedFile_Write (startIndex : Z) (data disk : bytes) : bytes :=
  TruncateFile startIndex disk ++ data.

Definition MappedFile_Read (position numBytes : Z) (disk : bytes) : bytes :=
  take (Z.to_nat numBytes) (drop (Z.to_nat position) disk).

(** ** [AppendOnlyFile] *)
Record AppendOnlyFile := mkAppendOnlyFile {
  m_bufferIndex : Z;
  m_fileSize : Z;
  m_buffer : bytes;
  disk : bytes;
}.

Definition AppendOnlyFile_Load (disk : bytes) : AppendOnlyFile :=
  mkAppendOnlyFile (length disk) (length disk) [] disk.

Definition AppendOnlyFile_Flush (f : AppendOnlyFile) : bool * AppendOnlyFile :=
  if (m_fileSize f =? m_bufferIndex f) && bool_decide (m_buffer f = []) then (true, f)
  else if m_fileSize f <? m_bufferIndex f then (false, f)
  else
    let disk' := MappedFile_Write (m_bufferIndex f) (m_buffer f) (disk f) in
    let fileSize' := (m_bufferIndex f + length (m_buffer f))%u64 in
    (true, mkAppendOnlyFile fileSize' fileSize' [] disk').

Definition AppendOnlyFile_Commit (f : AppendOnlyFile) : result AppendOnlyFile :=
  match AppendOnlyFile_Flush f with
  | (true, f') => Ok f'
  | (false, _) => Throw FileException
  end.

Definition AppendOnlyFile_Append (data : bytes) (f : AppendOnlyFile) : AppendOnlyFile :=
  mkAppendOnlyFile (m_bufferIndex f) (m_fileSize f) (m_buffer f ++ data) (disk f).

Definition AppendOnlyFile_Rewind (nextPosition : Z) (f : AppendOnlyFile) : bool * AppendOnlyFile :=
  if nextPosition >? (m_bufferIndex f + length (m_buffer f))%u64 then (false, f)
  else if nextPosition <=? m_bufferIndex f
  then (true, mkAppendOnlyFile nextPosition (m_fileSize f) [] (disk f))
  else (true, mkAppendOnlyFile (m_bufferIndex f) (m_fileSize f)
                (take (Z.to_nat (nextPosition - m_bufferIndex f)) (m_buffer f)) (disk f)).

Definition AppendOnlyFile_Discard (f : AppendOnlyFile) : AppendOnlyFile :=
  mkAppendOnlyFile (m_fileSize f) (m_fileSize f) [] (disk f).

Definition AppendOnlyFile_Rollback := AppendOnlyFile_Discard.

Definition AppendOnlyFile_GetSize (f : AppendOnlyFile) : Z :=
  (m_bufferIndex f + length (m_buffer f))%u64.

(** [Read] returns [false] out of range, [true] and the data otherwise. *)
Definition AppendOnlyFile_Read (position numBytes : Z) (f : AppendOnlyFile) : option bytes :=
  if numBytes =? 0 then Some []
  else if (position >? AppendOnlyFile_GetSize f)
       || (numBytes >? (AppendOnlyFile_GetSize f - position)%u64) then None
  else if position <? m_bufferIndex f then
    let mappedBytes := Z.min numBytes (m_bufferIndex f - position)%u64 in
    let data := MappedFile_Read position mappedBytes (disk f) in
    if mappedBytes =? numBytes then Some data
    else
      let remainingBytes := (numBytes - mappedBytes)%u64 in
      if remainingBytes >? length (m_buffer f) then None
      else Some (data ++ take (Z.to_nat remainingBytes) (m_buffer f))
  else
    let firstBufferIndex := (position - m_bufferIndex f)%u64 in
    if (firstBufferIndex >? length (m_buffer f))
       || (numBytes >? (length (m_buffer f) - firstBufferIndex)%u64) then None
    else Some (take (Z.to_nat numBytes) (drop (Z.to_nat firstBufferIndex) (m_buffer f))).

(** *** Abstract view: the working contents *)
Definition working (f : AppendOnlyFile) : bytes :=
  take (Z.to_nat (m_bufferIndex f)) (disk f) ++ m_buffer f.

(** The invariant of every reachable file; the bound on the size is the size of
    a file system, and keeps sums of positions inside 64 bits. *)
Record file_ok (f : AppendOnlyFile) : Prop := {
  file_index : 0 <= m_bufferIndex f <= m_fileSize f;
  file_size : m_fileSize f = length (disk f);
  file_small : length (disk f) + length (m_buffer f) < 2 ^ 63;
}.

Lemma length_working f : file_ok f -> length (working f) = m_bufferIndex f + length (m_buffer f) :> Z.
Proof.
  intros [Hi Hs _]. unfold working. rewrite length_app, length_take. lia.
Qed.

Lemma GetSize_working f : file_ok f -> AppendOnlyFile_GetSize f = length (working f).
Proof.
  intros Hf. rewrite length_working by done. destruct Hf as [Hi Hs Hb].
  unfold AppendOnlyFile_GetSize. uint_id. done.
Qed.

Lemma Load_ok d : length d < 2 ^ 63 -> file_ok (AppendOnlyFile_Load d).
Proof. intros Hd. constructor; simpl; lia. Qed.

Lemma Load_working d : working (AppendOnlyFile_Load d) = d.
Proof. unfold working. simpl. rewrite Nat2Z.id, app_nil_r. apply take_ge. lia. Qed.

Lemma Append_ok data f :
  file_ok f -> length (disk f) + length (m_buffer f) + length data < 2 ^ 63 ->
  file_ok (AppendOnlyFile_Append data f) /\
  working (AppendOnlyFile_Append data f) = working f ++ data.
Proof.
  intros [Hi Hs Hb] Hd. split.
  - constructor; simpl; rewrite ?length_app; lia.
  - unfold working. simpl. by rewrite app_assoc.
Qed.

Lemma Rewind_ok n f :
  file_ok f -> 0 <= n ->
  let '(b, f') := AppendOnlyFile_Rewind n f in
  file_ok f' /\ disk f' = disk f /\ b = (n <=? length (working f)) /\
  working f' = (if b then take (Z.to_nat n) (working f) else working f).
Proof.
  intros Hf Hn. pose proof (length_working f Hf) as Hl. pose proof Hf as [Hi Hs Hb].
  unfold AppendOnlyFile_Rewind. rewrite uint_small, Z.gtb_ltb by uint_solve.
  destruct (Z.ltb_spec (m_bufferIndex f + length (m_buffer f)) n).
  { split; [done|]. split; [done|]. split; [|done]. symmetry. apply Z.leb_gt. lia. }
  assert ((n <=? length (working f)) = true) as -> by (apply Z.leb_le; lia).
  destruct (Z.leb_spec n (m_bufferIndex f)).
  - split; [constructor; simpl; lia|]. split; [done|]. split; [done|].
    unfold working. simpl. rewrite app_nil_r, take_app_le by (rewrite length_take; lia).
    rewrite take_take. f_equal. lia.
  - split; [constructor; simpl; rewrite ?length_take; lia|]. split; [done|]. split; [done|].
    unfold working. simpl. rewrite take_app_ge by (rewrite length_take; lia).
    rewrite length_take. do 2 f_equal. lia.
Qed.

Lemma Discard_ok f :
  file_ok f ->
  file_ok (AppendOnlyFile_Discard f) /\ working (AppendOnlyFile_Discard f) = disk f /\
  disk (AppendOnlyFile_Discard f) = disk f.
Proof.
  intros [Hi Hs Hb]. split; [constructor; simpl; lia|]. split; [|done].
  unfold working. simpl. rewrite app_nil_r. apply take_ge. lia.
Qed.

Lemma TruncateFile_le n d : 0 <= n <= length d -> TruncateFile n d = take (Z.to_nat n) d.
Proof.
  intros Hn. unfold TruncateFile. replace (Z.to_nat n - length d)%nat with 0%nat by lia.
  simpl. by rewrite app_nil_r.
Qed.

(** [Flush] always succeeds, keeps the contents and puts them on disk. *)
Lemma Flush_ok f :
  file_ok f ->
  exists f', AppendOnlyFile_Flush f = (true, f') /\ file_ok f' /\
    working f' = working f /\ disk f' = working f.
Proof.
  intros Hf. pose proof (length_working f Hf) as Hl. pose proof Hf as [Hi Hs Hb].
  unfold AppendOnlyFile_Flush.
  destruct (Z.eqb_spec (m_fileSize f) (m_bufferIndex f)) as [E|E]; cbn [andb].
  - case_bool_decide as Eb.
    + exists f. split; [done|]. split; [done|]. split; [done|].
      unfold working. rewrite Eb, app_nil_r, take_ge by lia. done.
    + destruct (Z.ltb_spec (m_fileSize f) (m_bufferIndex f)); [lia|].
      eexists. split; [done|]. unfold MappedFile_Write. rewrite TruncateFile_le by lia.
      rewrite uint_small by uint_solve. fold (working f).
      split; [constructor; simpl; lia|]. split; [|done].
      unfold working at 1. simpl. rewrite app_nil_r. apply take_ge. lia.
  - destruct (Z.ltb_spec (m_fileSize f) (m_bufferIndex f)); [lia|].
    eexists. split; [done|]. unfold MappedFile_Write. rewrite TruncateFile_le by lia.
    rewrite uint_small by uint_solve. fold (working f).
    split; [constructor; simpl; lia|]. split; [|done].
    unfold working at 1. simpl. rewrite app_nil_r. apply take_ge. lia.
Qed.

Lemma Read_ok p n f :
  file_ok f -> 0 <= p < 2 ^ 64 -> 0 <= n < 2 ^ 64 ->
  AppendOnlyFile_Read p n f =
    if (n =? 0) || (p + n <=? length (working f))
    then Some (take (Z.to_nat n) (drop (Z.to_nat p) (working f))) else None.
Proof.
  intros Hf Hp Hn. pose proof (length_working f Hf) as Hl. pose proof Hf as [Hi Hs Hb].
  unfold AppendOnlyFile_Read. rewrite GetSize_working by done.
  destruct (Z.eqb_spec n 0) as [->|Hn0]; [done|]. cbn [orb].
  rewrite !Z.gtb_ltb. destruct (Z.ltb_spec (length (working f)) p) as [Hgt|Hle]; cbn [orb].
  { destruct (Z.leb_spec (p + n) (length (working f))); [lia|done]. }
  rewrite (uint_small 64 (length (working f) - p)) by uint_solve.
  destruct (Z.ltb_spec (length (working f) - p) n) as [Hgt|Hin];
    destruct (Z.leb_spec (p + n) (length (working f))) as [Hle'|Hgt']; try lia; [done|].
  destruct (Z.ltb_spec p (m_bufferIndex f)).
  - rewrite (uint_small 64 (m_bufferIndex f - p)) by uint_solve.
    unfold MappedFile_Read, working.
    destruct (Z.eqb_spec (Z.min n (m_bufferIndex f - p)) n) as [Emin|Emin].
    + rewrite drop_app_le, take_app_le by (rewrite ?length_drop, ?length_take; lia).
      rewrite skipn_firstn_comm, take_take, Emin. do 2 f_equal. lia.
    + rewrite Z.min_r by lia. rewrite (uint_small 64 (n - _)) by uint_solve.
      destruct (Z.ltb_spec (length (m_buffer f)) (n - (m_bufferIndex f - p))); [lia|].
      rewrite drop_app_le, take_app_ge by (rewrite ?length_drop, ?length_take; lia).
      rewrite length_drop, length_take. f_equal. f_equal.
      * rewrite skipn_firstn_comm. f_equal. lia.
      * f_equal. lia.
  - rewrite (uint_small 64 (p - m_bufferIndex f)) by uint_solve.
    destruct (Z.ltb_spec (length (m_buffer f)) (p - m_bufferIndex f)); [lia|].
    rewrite (uint_small 64 (_ - _)) by uint_solve. cbn [orb].
    destruct (Z.ltb_spec (length (m_buffer f) - (p - m_bufferIndex f)) n); [lia|].
    unfold working. rewrite drop_app_ge by (rewrite length_take; lia).
    rewrite length_take. do 3 f_equal. lia.
Qed.

(** *** The specification: working and committed contents *)
Record FileSpec := mkFileSpec { spec_working : bytes; spec_disk : bytes }.

Inductive file_op := OpAppend (data : bytes) | OpRewind (n : Z) | OpFlush | OpDiscard.

(** One operation with the [bool] it returns; [Append] and [Discard] return nothing. *)
Definition file_step (o : file_op) (f : AppendOnlyFile) : bool * AppendOnlyFile :=
  match o with
  | OpAppend data => (true, AppendOnlyFile_Append data f)
  | OpRewind n => AppendOnlyFile_Rewind n f
  | OpFlush => AppendOnlyFile_Flush f
  | OpDiscard => (true, AppendOnlyFile_Discard f)
  end.

Definition spec_step (o : file_op) (s : FileSpec) : bool * FileSpec :=
  match o with
  | OpAppend data => (true, mkFileSpec (spec_working s ++ data) (spec_disk s))
  | OpRewind n =>
      if n <=? length (spec_working s)
      then (true, mkFileSpec (take (Z.to_nat n) (spec_working s)) (spec_disk s))
      else (false, s)
  | OpFlush => (true, mkFileSpec (spec_working s) (spec_working s))
  | OpDiscard => (true, mkFileSpec (spec_disk s) (spec_disk s))
  end.

Definition file_abs (f : AppendOnlyFile) : FileSpec := mkFileSpec (working f) (disk f).

(** Bytes a sequence of operations may append, and its well-formedness. *)
Fixpoint ops_size (ops : list file_op) : Z :=
  match ops with
  | [] => 0
  | OpAppend data :: ops => length data + ops_size ops
  | _ :: ops => ops_size ops
  end.

Definition op_wf (o : file_op) : Prop := match o with OpRewind n => 0 <= n | _ => True end.

Lemma file_step_refines o f n :
  file_ok f -> op_wf o -> 0 <= n -> length (working f) + length (disk f) + n + ops_size [o] < 2 ^ 62 ->
  let '(b, f') := file_step o f in
  let '(b', s') := spec_step o (file_abs f) in
  b = b' /\ file_abs f' = s' /\ file_ok f' /\
  length (working f') <= Z.max (length (working f)) (length (disk f)) + ops_size [o] /\
  length (disk f') <= Z.max (length (working f)) (length (disk f)).
Proof.
  intros Hf Hwf Hn Hroom. destruct o as [data|k| |]; cbn [file_step spec_step ops_size op_wf] in *.
  - pose proof (length_working f Hf) as Hl.
    destruct (Append_ok data f Hf) as [Hok Hw]; [destruct Hf; lia|].
    unfold file_abs. rewrite Hw. cbn [AppendOnlyFile_Append disk]. rewrite length_app.
    split; [done|]. split; [done|]. split; [done|]. split; lia.
  - pose proof (Rewind_ok k f Hf Hwf) as H.
    destruct (AppendOnlyFile_Rewind k f) as [b f'] eqn:E. destruct H as (Hok & Hd & -> & Hw).
    unfold file_abs. cbn [spec_working spec_disk]. rewrite Hd, Hw.
    destruct (Z.leb_spec k (length (working f))).
    + split; [done|]. split; [done|]. split; [done|]. rewrite length_take. split; lia.
    + split; [done|]. split; [done|]. split; [done|]. split; lia.
  - destruct (Flush_ok f Hf) as (f' & -> & Hok & Hw & Hd). unfold file_abs. rewrite Hd, Hw.
    cbn [spec_working]. split; [done|]. split; [done|]. split; [done|]. split; lia.
  - destruct (Discard_ok f Hf) as (Hok & Hw & Hd). unfold file_abs. rewrite Hw, Hd.
    cbn [spec_disk]. split; [done|]. split; [done|]. split; [done|]. split; lia.
Qed.

Lemma ops_size_nonneg ops : 0 <= ops_size ops.
Proof. induction ops as [|[] ops IH]; simpl; lia. Qed.

Lemma ops_size_cons o ops : ops_size (o :: ops) = ops_size [o] + ops_size ops.
Proof. destruct o; simpl; lia. Qed.

Lemma run_refines ops f :
  file_ok f -> Forall op_wf ops ->
  2 * Z.max (length (working f)) (length (disk f)) + 2 * ops_size ops < 2 ^ 62 ->
  let '(bs, f') := run file_step ops f in
  run spec_step ops (file_abs f) = (bs, file_abs f') /\ file_ok f'.
Proof.
  revert f. induction ops as [|o ops IH]; intros f Hf Hwf Hsz; [done|].
  apply Forall_cons in Hwf as [Ho Hwf]. rewrite ops_size_cons in Hsz.
  pose proof (ops_size_nonneg ops). pose proof (ops_size_nonneg [o]).
  cbn [run].
  pose proof (file_step_refines o f 0 Hf Ho ltac:(lia) ltac:(lia)) as H1.
  destruct (file_step o f) as [b f1], (spec_step o (file_abs f)) as [b' s1].
  destruct H1 as (<- & <- & Hok & Hw & Hd).
  specialize (IH f1 Hok Hwf ltac:(lia)).
  destruct (run file_step ops f1) as [bs f2]. destruct IH as [-> Hok2]. done.
Qed.

(** ** [DataFile<NUM_BYTES>] *)
Record DataFile := mkDataFile { m_pFile : AppendOnlyFile; m_dirty : bool }.

Definition DataFile_Load (disk : bytes) : DataFile := mkDataFile (AppendOnlyFile_Load disk) false.

Definition DataFile_Commit : ST DataFile unit := fun f =>
  if m_dirty f then
    match AppendOnlyFile_Flush (m_pFile f) with
    | (true, file) => (Ok tt, mkDataFile file false)
    | (false, file) => (Throw FileException, mkDataFile file (m_dirty f))
    end
  else (Ok tt, mkDataFile (m_pFile f) false).

Definition DataFile_Rollback (f : DataFile) : DataFile :=
  mkDataFile (if m_dirty f then AppendOnlyFile_Discard (m_pFile f) else m_pFile f) false.

Definition DataFile_Rewind (NUM_BYTES : Z) (size : Z) : ST DataFile unit := fun f =>
  match AppendOnlyFile_Rewind (size * NUM_BYTES)%u64 (m_pFile f) with
  | (true, file) => (Ok tt, mkDataFile file true)
  | (false, file) => (Throw FileException, mkDataFile file true)
  end.

Definition DataFile_GetSize (NUM_BYTES : Z) (f : DataFile) : Z :=
  AppendOnlyFile_GetSize (m_pFile f) / NUM_BYTES.

Definition DataFile_GetDataAt (NUM_BYTES : Z) (position : Z) (f : DataFile) : result bytes :=
  of_option FileException
    (AppendOnlyFile_Read (position * NUM_BYTES)%u64 NUM_BYTES (m_pFile f)).

Definition DataFile_AddData (data : bytes) (f : DataFile) : DataFile :=
  mkDataFile (AppendOnlyFile_Append data (m_pFile f)) true.

(** ** Records of a [DataFile]

    [records n l bs]: the bytes [bs] are the [n]-byte records [l]. *)
Definition records (n : nat) (l : list bytes) (bs : bytes) : Prop :=
  Forall (fun r => length r = n) l /\ bs = concat l.

Lemma concat_length_records (n : nat) (l : list bytes) :
  Forall (fun r => length r = n) l -> length (concat l) = (n * length l)%nat.
Proof. induction 1 as [|r l Hr _ IH]; simpl; [lia|]. rewrite length_app, IH, Hr. lia. Qed.

Lemma concat_take_records (n : nat) (k : nat) (l : list bytes) :
  Forall (fun r => length r = n) l -> take (n * k) (concat l) = concat (take k l).
Proof.
  intros Hl. revert k. induction Hl as [|r l Hr Hl IH]; intros k; simpl concat; [by rewrite !take_nil|].
  destruct k as [|k]; simpl; [by rewrite Nat.mul_0_r|].
  rewrite take_app_ge by lia. rewrite Hr. f_equal. rewrite <- IH. f_equal. lia.
Qed.

Lemma concat_drop_records (n : nat) (k : nat) (l : list bytes) :
  Forall (fun r => length r = n) l -> drop (n * k) (concat l) = concat (drop k l).
Proof.
  intros Hl. revert k. induction Hl as [|r l Hr Hl IH]; intros k; simpl concat; [by rewrite !drop_nil|].
  destruct k as [|k]; simpl; [by rewrite Nat.mul_0_r|].
  rewrite drop_app_ge by lia. rewrite Hr. rewrite <- IH. f_equal. lia.
Qed.

(** A [DataFile] of [n]-byte records [l], with the records [c] on disk; the
    dirty flag is set whenever they differ. *)
Record datafile_ok (n : nat) (l c : list bytes) (f : DataFile) : Prop := {
  df_file : file_ok (m_pFile f);
  df_width : (0 < n)%nat;
  df_work : records n l (working (m_pFile f));
  df_disk : records n c (disk (m_pFile f));
  df_dirty : m_dirty f = false -> working (m_pFile f) = disk (m_pFile f);
}.

Lemma datafile_length n l c f :
  datafile_ok n l c f -> length (working (m_pFile f)) = (n * length l)%nat.
Proof. intros [_ _ [H ->] _ _]. by apply concat_length_records. Qed.

Lemma datafile_small n l c f : datafile_ok n l c f -> (n * length l)%nat < 2 ^ 63.
Proof.
  intros Hf. rewrite <- (datafile_length n l c f Hf), length_working by apply Hf.
  destruct (df_file _ _ _ _ Hf). lia.
Qed.

Lemma DataFile_GetSize_ok n l c f : datafile_ok n l c f -> DataFile_GetSize n f = length l.
Proof.
  intros Hf. unfold DataFile_GetSize. rewrite GetSize_working by apply Hf.
  rewrite (datafile_length n l c f Hf), Nat2Z.inj_mul, Z.mul_comm, Z.div_mul; [done|].
  destruct Hf. lia.
Qed.

Lemma DataFile_GetDataAt_ok n l c f p :
  datafile_ok n l c f -> 0 <= p -> (p + 1) * n < 2 ^ 64 ->
  DataFile_GetDataAt n p f = of_option FileException (l !! Z.to_nat p).
Proof.
  intros Hf Hp Hb. pose proof (df_width _ _ _ _ Hf) as Hn.
  pose proof (datafile_length n l c f Hf) as Hlen. pose proof (datafile_small n l c f Hf).
  unfold DataFile_GetDataAt. rewrite (uint_small 64 (p * n)) by (unfold is_uint; nia).
  rewrite Read_ok by (apply Hf || nia). f_equal. rewrite Hlen.
  destruct (Z.eqb_spec n 0); [lia|]. cbn [orb].
  destruct (df_work _ _ _ _ Hf) as [Hr ->].
  destruct (l !! Z.to_nat p) as [r|] eqn:E.
  - pose proof (lookup_lt_Some _ _ _ E).
    destruct (Z.leb_spec (p * n + n) (n * length l)%nat); [|nia]. f_equal.
    replace (Z.to_nat (p * n)) with (n * Z.to_nat p)%nat by nia.
    rewrite concat_drop_records, Nat2Z.id by done.
    rewrite <- (Nat.mul_1_r n), concat_take_records by (by apply Forall_drop).
    rewrite (drop_S l r) by done. simpl. by rewrite app_nil_r.
  - apply lookup_ge_None in E.
    destruct (Z.leb_spec (p * n + n) (n * length l)%nat); [nia|done].
Qed.

Lemma DataFile_AddData_ok n l c f r :
  datafile_ok n l c f -> length r = n ->
  length (disk (m_pFile f)) + length (m_buffer (m_pFile f)) + n < 2 ^ 63 ->
  datafile_ok n (l ++ [r]) c (DataFile_AddData r f).
Proof.
  intros [Hf Hn [Hr Hw] Hd Hdirty] Hl Hb.
  destruct (Append_ok r (m_pFile f) Hf) as [Hok Hw']; [lia|].
  constructor; simpl; [done|done| |done|done]. split.
  - apply Forall_app. split; [done|]. by apply Forall_singleton.
  - rewrite Hw', Hw, concat_app. simpl. by rewrite app_nil_r.
Qed.

Lemma DataFile_Rewind_ok n l c f k :
  datafile_ok n l c f -> 0 <= k -> k * n < 2 ^ 64 ->
  let '(r, f') := DataFile_Rewind n k f in
  if k <=? length l then r = Ok tt /\ datafile_ok n (take (Z.to_nat k) l) c f'
  else r = Throw FileException /\ datafile_ok n l c f'.
Proof.
  intros Hf Hk Hb. pose proof (datafile_length n l c f Hf) as Hlen.
  destruct Hf as [Hf Hn [Hr Hw] Hd Hdirty].
  unfold DataFile_Rewind. rewrite (uint_small 64 (k * n)) by (unfold is_uint; nia).
  pose proof (Rewind_ok (k * n) (m_pFile f) Hf ltac:(nia)) as H.
  destruct (AppendOnlyFile_Rewind (k * n) (m_pFile f)) as [b f'].
  destruct H as (Hok & Hd' & -> & Hw'). rewrite Hlen in *.
  destruct (Z.leb_spec (k * n) (n * length l)%nat), (Z.leb_spec k (length l)); try nia.
  - split; [done|]. constructor; simpl; [done|done| |by rewrite Hd'|done].
    split; [by apply Forall_take|]. rewrite Hw', Hw.
    replace (Z.to_nat (k * n)) with (n * Z.to_nat k)%nat by nia. by apply concat_take_records.
  - split; [done|]. constructor; simpl; [done|done| |by rewrite Hd'|done]. by rewrite Hw'.
Qed.

Lemma DataFile_Commit_ok n l c f :
  datafile_ok n l c f ->
  exists f', DataFile_Commit f = (Ok tt, f') /\ datafile_ok n l l f' /\ m_dirty f' = false.
Proof.
  intros [Hf Hn Hw Hd Hdirty]. unfold DataFile_Commit.
  destruct (Flush_ok (m_pFile f) Hf) as (f' & -> & Hok & Hw' & Hd').
  destruct (m_dirty f) eqn:E; eexists; (split; [done|]); (split; [|done]).
  - constructor; simpl; [done|done|by rewrite Hw'|by rewrite Hd'|congruence].
  - specialize (Hdirty eq_refl). constructor; simpl; [done|done|done|by rewrite <- Hdirty|done].
Qed.

Lemma DataFile_Rollback_ok n l c f :
  datafile_ok n l c f -> datafile_ok n c c (DataFile_Rollback f).
Proof.
  intros [Hf Hn Hw Hd Hdirty]. unfold DataFile_Rollback.
  destruct (Discard_ok (m_pFile f) Hf) as (Hok & Hw' & Hd').
  destruct (m_dirty f) eqn:E.
  - constructor; simpl; [done|done|by rewrite Hw'|done|congruence].
  - specialize (Hdirty eq_refl). constructor; simpl; [done|done|by rewrite Hdirty|done|done].
Qed.

(** ** The interface of hash files

    [HashFile] is [DataFile<32>].  The code above it (hash computations, MMRs)
    uses these operations, and relies on this contract: [hf_repr l c f] says
    that the file holds the hashes [l], of which [c] are on disk. *)
Class HashFile (F : Type) := {
  hf_GetSize : F -> Z;
  hf_GetDataAt : Z -> F -> result bytes;
  hf_AddData : bytes -> F -> F;
  hf_Rewind : Z -> ST F unit;
  hf_Commit : ST F unit;
  hf_Rollback : F -> F;
}.

(** Room for one more hash. *)
Definition hf_room (l c : list bytes) : Prop := length l + length c < 2 ^ 57.

Class HashFileLaws (F : Type) `{HashFile F} := {
  hf_repr : list bytes -> list bytes -> F -> Prop;
  hf_repr_small l c f : hf_repr l c f -> length l < 2 ^ 58;
  hf_size_ok l c f : hf_repr l c f -> hf_GetSize f = length l;
  hf_get_ok l c f p : hf_repr l c f -> 0 <= p < 2 ^ 58 ->
    hf_GetDataAt p f = of_option FileException (l !! Z.to_nat p);
  hf_add_ok l c f r : hf_repr l c f -> length r = 32%nat -> hf_room l c ->
    hf_repr (l ++ [r]) c (hf_AddData r f);
  hf_rewind_ok l c f k : hf_repr l c f -> 0 <= k < 2 ^ 58 ->
    let '(r, f') := hf_Rewind k f in
    if k <=? length l then r = Ok tt /\ hf_repr (take (Z.to_nat k) l) c f'
    else r = Throw FileException /\ hf_repr l c f';
  hf_commit_ok l c f : hf_repr l c f ->
    exists f', hf_Commit f = (Ok tt, f') /\ hf_repr l l f';
  hf_rollback_ok l c f : hf_repr l c f -> hf_repr c c (hf_Rollback f);
}.

#[export] Instance DataFile_HashFile : HashFile DataFile := {
  hf_GetSize := DataFile_GetSize 32;
  hf_GetDataAt := DataFile_GetDataAt 32;
  hf_AddData := DataFile_AddData;
  hf_Rewind := DataFile_Rewind 32;
  hf_Commit := DataFile_Commit;
  hf_Rollback := DataFile_Rollback;
}.

Lemma datafile_room n l c f :
  datafile_ok n l c f ->
  length (disk (m_pFile f)) = (n * length c)%nat /\ (length (m_buffer (m_pFile f)) <= n * length l)%nat.
Proof.
  intros Hf. pose proof (datafile_length n l c f Hf) as Hl.
  destruct Hf as [[Hi Hs Hb] Hn Hw [Hr ->] Hdirty]. split; [by apply concat_length_records|].
  rewrite <- Hl. unfold working. rewrite length_app. lia.
Qed.

#[export] Program Instance DataFile_HashFileLaws : HashFileLaws DataFile := {
  hf_repr := datafile_ok 32;
}.
Next Obligation. intros l c f Hf. pose proof (datafile_small _ _ _ _ Hf). lia. Qed.
Next Obligation. intros l c f Hf. by eapply (DataFile_GetSize_ok 32). Qed.
Next Obligation. intros l c f p Hf Hp. eapply (DataFile_GetDataAt_ok 32); [done|lia|lia]. Qed.
Next Obligation.
  intros l c f r Hf Hr Hroom. apply DataFile_AddData_ok; [done..|].
  destruct (datafile_room _ _ _ _ Hf). unfold hf_room in Hroom. lia.
Qed.
Next Obligation. intros l c f k Hf Hk. apply (DataFile_Rewind_ok 32); [done|lia|lia]. Qed.
Next Obligation.
  intros l c f Hf. destruct (DataFile_Commit_ok 32 l c f Hf) as (f' & E & Hf' & _). by exists f'.
Qed.
Next Obligation. intros l c f Hf. by eapply DataFile_Rollback_ok. Qed.

(** ** Properties *)

(** C34: the buffered file behaves like a pair of byte strings, the working
    contents and the committed ones: every sequence of appends, rewinds,
    flushes and discards returns the same results as on the specification and
    ends in the corresponding state. *)
Theorem AppendOnlyFile_refines d ops :
  Forall op_wf ops -> 2 * length d + 2 * ops_size ops < 2 ^ 62 ->
  let '(bs, f) := run file_step ops (AppendOnlyFile_Load d) in
  let '(bs', s) := run spec_step ops (mkFileSpec d d) in
  bs = bs' /\ working f = spec_working s /\ disk f = spec_disk s /\ file_ok f.
Proof.
  intros Hwf Hsz. pose proof (ops_size_nonneg ops) as Hnn.
  pose proof (run_refines ops (AppendOnlyFile_Load d)) as H.
  destruct (run file_step ops (AppendOnlyFile_Load d)) as [bs f].
  destruct H as [H Hok]; [apply Load_ok; lia|done|rewrite Load_working; simpl; lia|].
  unfold file_abs in H. rewrite Load_working in H. simpl in H. rewrite H. done.
Qed.

Lemma AppendOnlyFile_refines_witness :
  let ops := [OpAppend [3; 4]; OpRewind 1; OpAppend [9]; OpRewind 5; OpFlush; OpRewind 0; OpDiscard] in
  let '(bs, f) := run file_step ops (AppendOnlyFile_Load [1; 2]) in
  let '(bs', s) := run spec_step ops (mkFileSpec [1; 2] [1; 2]) in
  bs = bs' /\ working f = spec_working s /\ disk f = spec_disk s /\ file_ok f.
Proof.
  apply (AppendOnlyFile_refines [1; 2]
           [OpAppend [3; 4]; OpRewind 1; OpAppend [9]; OpRewind 5; OpFlush; OpRewind 0; OpDiscard]).
  - repeat constructor; simpl; lia.
  - simpl. lia.
Defined.

(** [Read] serves any range of the working contents, whether it lies on
    disk, in the buffer or across both, and fails exactly when the range is not
    inside the file. *)
Theorem AppendOnlyFile_Read_spec p n f :
  file_ok f -> 0 <= p < 2 ^ 64 -> 0 <= n < 2 ^ 64 ->
  (n = 0 \/ p + n <= length (working f) ->
   AppendOnlyFile_Read p n f = Some (take (Z.to_nat n) (drop (Z.to_nat p) (working f)))) /\
  (0 < n -> length (working f) < p + n -> AppendOnlyFile_Read p n f = None).
Proof.
  intros Hf Hp Hn. rewrite Read_ok by done. split.
  - intros H. destruct (Z.eqb_spec n 0), (Z.leb_spec (p + n) (length (working f))); done || lia.
  - intros H H'. destruct (Z.eqb_spec n 0), (Z.leb_spec (p + n) (length (working f))); done || lia.
Qed.

Lemma AppendOnlyFile_Read_spec_witness :
  AppendOnlyFile_Read 1 2 (AppendOnlyFile_Append [7; 8] (AppendOnlyFile_Load [5; 6])) = Some [6; 7].
Proof.
  apply (AppendOnlyFile_Read_spec 1 2 (AppendOnlyFile_Append [7; 8] (AppendOnlyFile_Load [5; 6]))).
  - constructor; simpl; lia.
  - lia.
  - lia.
  - right. vm_compute. congruence.
Defined.

(** a [DataFile] is a list of fixed-width records with a committed copy:
    size, lookup, append and rewind act on the records, [Commit] makes them
    durable and [Rollback] restores the committed ones; the errors are the
    reads and rewinds past the end. *)
Theorem DataFile_spec n l c f r k :
  datafile_ok n l c f -> length r = n -> 0 <= k -> (k + 1) * n < 2 ^ 64 ->
  length (disk (m_pFile f)) + length (m_buffer (m_pFile f)) + n < 2 ^ 63 ->
  DataFile_GetSize n f = length l /\
  DataFile_GetDataAt n k f = of_option FileException (l !! Z.to_nat k) /\
  datafile_ok n (l ++ [r]) c (DataFile_AddData r f) /\
  (let '(res, f') := DataFile_Rewind n k f in
   if k <=? length l then res = Ok tt /\ datafile_ok n (take (Z.to_nat k) l) c f'
   else res = Throw FileException /\ datafile_ok n l c f') /\
  (exists f', DataFile_Commit f = (Ok tt, f') /\ datafile_ok n l l f' /\ m_dirty f' = false) /\
  datafile_ok n c c (DataFile_Rollback f).
Proof.
  intros Hf Hr Hk Hb Hroom.
  split; [by eapply DataFile_GetSize_ok|]. split; [by eapply DataFile_GetDataAt_ok|].
  split; [by apply DataFile_AddData_ok|]. split; [apply DataFile_Rewind_ok; done || nia|].
  split; [by eapply DataFile_Commit_ok|by eapply DataFile_Rollback_ok].
Qed.

Lemma DataFile_spec_witness :
  datafile_ok 2 [[1; 2]; [3; 4]] [[1; 2]; [3; 4]] (DataFile_Load [1; 2; 3; 4]) /\
  DataFile_GetDataAt 2 1 (DataFile_Load [1; 2; 3; 4]) = Ok [3; 4].
Proof.
  assert (datafile_ok 2 [[1; 2]; [3; 4]] [[1; 2]; [3; 4]] (DataFile_Load [1; 2; 3; 4])) as Hf.
  { constructor; simpl; [constructor; simpl; lia|lia| | |done];
      (split; [repeat constructor|reflexivity]). }
  split; [exact Hf|].
  apply (DataFile_spec 2 [[1; 2]; [3; 4]] [[1; 2]; [3; 4]] (DataFile_Load [1; 2; 3; 4]) [0; 0] 1);
    [exact Hf|reflexivity|lia|lia|simpl; lia].
Defined.
