(* ===== verification/Roaring.v ===== *)
(** * Roaring bitmaps

    [Roaring] is a third-party set of 32-bit integers.  Its interface is the
    class [Roaring] of the operations the sources call, and the class
    [RoaringLaws] of their documented behaviour; [list_roaring] is a small
    implementation, used to evaluate the model on concrete inputs. *)
From S2P Require Import Prelude Serial.

Class Roaring (R : Type) := {
  Roaring_empty : R;
  Roaring_add : Z -> R -> R;
  Roaring_remove : Z -> R -> R;
  Roaring_contains : Z -> R -> bool;
  Roaring_rank : Z -> R -> Z;
  Roaring_maximum : R -> Z;
  Roaring_isEmpty : R -> bool;
  Roaring_elems : R -> list Z;
  Roaring_runOptimize : R -> R;
  Roaring_write : R -> bytes;
  Roaring_readSafe : bytes -> result R;
}.

(** Keys up to [k] in a list. *)
Definition count_le (k : Z) (l : list Z) : Z := length (filter (fun x : Z => (x <= k)%Z) l).

Class RoaringLaws (R : Type) `{Roaring R} := {
  roaring_sorted r : StronglySorted Z.lt (Roaring_elems r);
  roaring_range r : Forall (is_uint 32) (Roaring_elems r);
  roaring_empty : Roaring_elems Roaring_empty = [];
  roaring_add k k' r : is_uint 32 k ->
    (k' ∈ Roaring_elems (Roaring_add k r) <-> k' = k \/ k' ∈ Roaring_elems r);
  roaring_remove k k' r : is_uint 32 k ->
    (k' ∈ Roaring_elems (Roaring_remove k r) <-> k' <> k /\ k' ∈ Roaring_elems r);
  roaring_contains k r : is_uint 32 k ->
    Roaring_contains k r = bool_decide (k ∈ Roaring_elems r);
  roaring_rank k r : is_uint 32 k -> Roaring_rank k r = count_le k (Roaring_elems r);
  roaring_maximum r : Roaring_maximum r = default 0 (last (Roaring_elems r));
  roaring_isEmpty r : Roaring_isEmpty r = bool_decide (Roaring_elems r = []);
  roaring_runOptimize r : Roaring_elems (Roaring_runOptimize r) = Roaring_elems r;
  roaring_write_read r : exists r', Roaring_readSafe (Roaring_write r) = Ok r' /\
    Roaring_elems r' = Roaring_elems r;
  roaring_write_nonempty r : Roaring_write r <> [];
}.

(** ** Strictly sorted lists *)

Lemma sorted_lt_NoDup l : StronglySorted Z.lt l -> NoDup l.
Proof.
  induction 1 as [|x l Hl IH Hx]; constructor; [|done].
  intros Hin. rewrite Forall_forall in Hx. specialize (Hx x Hin). lia.
Qed.

(** Two strictly sorted lists with the same elements are equal. *)
Lemma sorted_lt_ext l l' :
  StronglySorted Z.lt l -> StronglySorted Z.lt l' -> (forall x, x ∈ l <-> x ∈ l') -> l = l'.
Proof.
  intros Hl. revert l'. induction Hl as [|x l Hl IH Hx]; intros l' Hl' E.
  - destruct l' as [|y l']; [done|]. exfalso. apply (not_elem_of_nil y), E. left.
  - destruct Hl' as [|y l' Hl' Hy].
    { exfalso. apply (not_elem_of_nil x), E. left. }
    rewrite Forall_forall in Hx, Hy.
    assert (x = y) as <-.
    { assert (x ∈ y :: l') as H1 by (apply E; left). assert (y ∈ x :: l) as H2 by (apply E; left).
      apply elem_of_cons in H1 as [->|H1]; [done|]. apply elem_of_cons in H2 as [->|H2]; [done|].
      specialize (Hx y H2). specialize (Hy x H1). lia. }
    f_equal. apply IH; [done|]. intros z. specialize (E z). rewrite !elem_of_cons in E.
    split; intros Hz.
    + destruct (proj1 E (or_intror Hz)) as [->|]; [|done]. specialize (Hx x Hz). lia.
    + destruct (proj2 E (or_intror Hz)) as [->|]; [|done]. specialize (Hy x Hz). lia.
Qed.

Lemma sorted_lt_snoc l x : StronglySorted Z.lt (l ++ [x]) <-> StronglySorted Z.lt l /\ Forall (fun y : Z => y < x) l.
Proof.
  induction l as [|y l IH]; simpl.
  - split; intros _; [split|]; repeat constructor.
  - split.
    + intros H. apply StronglySorted_inv in H as [H Hy]. apply IH in H as [H H'].
      apply Forall_app in Hy as [Hy Hx]. rewrite Forall_singleton in Hx.
      split; constructor; done.
    + intros [H H']. apply StronglySorted_inv in H as [H Hy]. apply Forall_cons in H' as [Hx H'].
      constructor; [by apply IH|]. apply Forall_app. split; [done|]. by apply Forall_singleton.
Qed.

Lemma count_le_app k l l' : count_le k (l ++ l') = count_le k l + count_le k l'.
Proof. unfold count_le. rewrite filter_app, length_app. lia. Qed.

Lemma count_le_all k l : Forall (fun x : Z => x <= k) l -> count_le k l = length l.
Proof.
  unfold count_le. induction 1 as [|x l Hx _ IH]; [done|].
  rewrite filter_cons, decide_True by done. simpl. lia.
Qed.

Lemma count_le_none k l : Forall (fun x : Z => k < x) l -> count_le k l = 0.
Proof.
  unfold count_le. induction 1 as [|x l Hx _ IH]; [done|].
  rewrite filter_cons, decide_False by lia. done.
Qed.

(** ** An implementation: unsorted lists, normalised when read *)

Definition in32 (k : Z) : bool := (0 <=? k) && (k <? 2 ^ 32).

Fixpoint insert_key (k : Z) (l : list Z) : list Z :=
  match l with
  | [] => [k]
  | x :: l => if k <? x then k :: x :: l else if k =? x then x :: l else x :: insert_key k l
  end.

Definition list_elems (l : list Z) : list Z := foldr insert_key [] (filter in32 l).

Lemma elem_of_insert_key k k' l : k' ∈ insert_key k l <-> k' = k \/ k' ∈ l.
Proof.
  induction l as [|x l IH]; simpl; [by rewrite list_elem_of_singleton, elem_of_nil; intuition|].
  destruct (Z.ltb_spec k x); [by rewrite elem_of_cons|].
  destruct (Z.eqb_spec k x) as [->|]; rewrite !elem_of_cons; [intuition|]. rewrite IH. intuition.
Qed.

Lemma insert_key_sorted k l : StronglySorted Z.lt l -> StronglySorted Z.lt (insert_key k l).
Proof.
  induction 1 as [|x l Hl IH Hx]; simpl; [repeat constructor|].
  destruct (Z.ltb_spec k x).
  - constructor; [by constructor|]. constructor; [done|]. eapply Forall_impl; [apply Hx|]. simpl. lia.
  - destruct (Z.eqb_spec k x); constructor; try done.
    rewrite Forall_forall in *. intros y Hy. apply elem_of_insert_key in Hy as [->|Hy]; [lia|by apply Hx].
Qed.

Lemma elem_of_list_elems k l : k ∈ list_elems l <-> is_uint 32 k /\ k ∈ l.
Proof.
  unfold list_elems. trans (k ∈ filter in32 l).
  - induction (filter in32 l) as [|x f IH]; simpl; [done|]. by rewrite elem_of_insert_key, elem_of_cons, IH.
  - rewrite list_elem_of_filter. unfold in32, is_uint.
    rewrite Is_true_true, andb_true_iff, Z.leb_le, Z.ltb_lt. done.
Qed.

#[export] Instance list_roaring : Roaring (list Z) := {
  Roaring_empty := [];
  Roaring_add k l := k :: l;
  Roaring_remove k l := filter (fun x : Z => x <> k) l;
  Roaring_contains k l := bool_decide (k ∈ list_elems l);
  Roaring_rank k l := count_le k (list_elems l);
  Roaring_maximum l := default 0 (last (list_elems l));
  Roaring_isEmpty l := bool_decide (list_elems l = []);
  Roaring_elems := list_elems;
  Roaring_runOptimize l := list_elems l;
  Roaring_write l := 0 :: list_elems l;
  Roaring_readSafe d := Ok (tail d);
}.

Lemma list_elems_sorted l : StronglySorted Z.lt (list_elems l).
Proof. unfold list_elems. induction (filter in32 l); simpl; [constructor|by apply insert_key_sorted]. Qed.

Lemma list_elems_idemp l : list_elems (list_elems l) = list_elems l.
Proof.
  apply sorted_lt_ext; [apply list_elems_sorted..|]. intros x. rewrite !elem_of_list_elems. intuition.
Qed.

#[export] Instance list_roaring_laws : RoaringLaws (list Z).
Proof.
  constructor; simpl; intros; try done.
  - apply list_elems_sorted.
  - apply Forall_forall. intros x Hx. by apply elem_of_list_elems in Hx as [? _].
  - rewrite !elem_of_list_elems, elem_of_cons. naive_solver.
  - rewrite !elem_of_list_elems, list_elem_of_filter. naive_solver.
  - apply list_elems_idemp.
  - eexists. split; [done|]. apply list_elems_idemp.
Qed.
