(* ===== verification/PruneList.v ===== *)
(** * The prune list ([src/PMMR/Common/PruneList.cpp], [PruneList.h])

    The roots of the pruned subtrees of an MMR, kept in a Roaring bitmap of
    one-based positions, with a cache of all pruned nodes and the running sums of
    the nodes (leaves) missing from the hash (data) file.  The file of the list
    is the option [pl_file]. *)
From S2P Require Import Prelude BitUtil MMRIndex MMRUtil Serial Roaring.

Record PruneList {R : Type} := mkPruneList {
  pl_file : option bytes;
  m_prunedRoots : R;
  m_prunedCache : R;
  m_shiftCache : list Z;
  m_leafShiftCache : list Z;
  pl_dirty : bool;
}.
Arguments PruneList : clear implicits.
Arguments mkPruneList {R}.

(** The argument conversion of the 32-bit interface of [Roaring]. *)
Definition u32 (k : Z) : Z := uint 32 k.

Section prune_list.
Context {R : Type} `{HR : Roaring R}.
Implicit Types (p : PruneList R) (idx : Index).

Definition set_caches (cache : R) (shift leafShift : list Z) p : PruneList R :=
  mkPruneList (pl_file p) (m_prunedRoots p) cache shift leafShift (pl_dirty p).

(** [for (pos = firstPos; pos <= rootPos; ++pos) m_prunedCache.add(pos + 1)]. *)
Definition AddRootToPrunedCache_loop (firstPos rootPos : Z) (cache : R) : R :=
  foldl (fun c pos => Roaring_add (u32 (pos + 1)) c) cache (seqZ firstPos (rootPos + 1 - firstPos)).

Definition PruneList_AddRootToPrunedCache idx p : PruneList R :=
  let rootPos := m_position idx in
  let height := m_height idx in
  let nodeCount := ((1 << (height + 1)) - 1)%u64 in
  let firstPos := ((rootPos + 1) - nodeCount)%u64 in
  set_caches (AddRootToPrunedCache_loop firstPos rootPos (m_prunedCache p))
    (m_shiftCache p) (m_leafShiftCache p) p.

Definition PruneList_AppendRootToShiftCaches idx p : PruneList R :=
  let height := m_height idx in
  let previousShift := default 0 (last (m_shiftCache p)) in
  let previousLeafShift := default 0 (last (m_leafShiftCache p)) in
  set_caches (m_prunedCache p)
    (m_shiftCache p ++ [(previousShift + (2 * ((1 << height) - 1))%u64)%u64])
    (m_leafShiftCache p ++ [(previousLeafShift + (if height =? 0 then 0 else (1 << height)%u64))%u64]) p.

Definition PruneList_BuildPrunedCache p : PruneList R :=
  let p := set_caches Roaring_empty (m_shiftCache p) (m_leafShiftCache p) p in
  if Roaring_isEmpty (m_prunedRoots p) then p
  else
    let p := foldl (fun p rootWirePos => PruneList_AddRootToPrunedCache (Index_At (rootWirePos - 1)%u64) p)
      p (Roaring_elems (m_prunedRoots p)) in
    set_caches (Roaring_runOptimize (m_prunedCache p)) (m_shiftCache p) (m_leafShiftCache p) p.

(** The loop of [BuildShiftCaches] with its two running totals. *)
Fixpoint BuildShiftCaches_loop (roots : list Z) (totalShift totalLeafShift : Z)
    (shift leafShift : list Z) : list Z * list Z :=
  match roots with
  | [] => (shift, leafShift)
  | rootWirePos :: roots =>
      let height := m_height (Index_At (rootWirePos - 1)%u64) in
      let totalShift := (totalShift + (2 * ((1 << height) - 1))%u64)%u64 in
      let totalLeafShift := (totalLeafShift + (if height =? 0 then 0 else (1 << height)%u64))%u64 in
      BuildShiftCaches_loop roots totalShift totalLeafShift
        (shift ++ [totalShift]) (leafShift ++ [totalLeafShift])
  end.

Definition PruneList_BuildShiftCaches p : PruneList R :=
  if Roaring_isEmpty (m_prunedRoots p) then set_caches (m_prunedCache p) [] [] p
  else
    let '(shift, leafShift) := BuildShiftCaches_loop (Roaring_elems (m_prunedRoots p)) 0 0 [] [] in
    set_caches (m_prunedCache p) shift leafShift p.

Definition PruneList_RebuildCaches p : PruneList R :=
  PruneList_BuildShiftCaches (PruneList_BuildPrunedCache p).

Definition PruneList_Load (file : option bytes) : result (PruneList R) :=
  match file with
  | Some data =>
      prunedRoots ← Roaring_readSafe data;
      mret (PruneList_BuildShiftCaches (PruneList_BuildPrunedCache
        (mkPruneList file prunedRoots Roaring_empty [] [] false)))
  | None => mret (mkPruneList file Roaring_empty Roaring_empty [] [] false)
  end.

Definition PruneList_Flush p : PruneList R :=
  if negb (pl_dirty p) then p
  else
    let roots := Roaring_runOptimize (m_prunedRoots p) in
    let buffer := Roaring_write roots in
    let p := mkPruneList (pl_file p) roots (m_prunedCache p) (m_shiftCache p) (m_leafShiftCache p) (pl_dirty p) in
    let p :=
      if 0 <? length buffer then
        PruneList_BuildShiftCaches (PruneList_BuildPrunedCache
          (mkPruneList (Some buffer) roots (m_prunedCache p) (m_shiftCache p) (m_leafShiftCache p) (pl_dirty p)))
      else p in
    mkPruneList (pl_file p) (m_prunedRoots p) (m_prunedCache p) (m_shiftCache p) (m_leafShiftCache p) false.

(** [catch (...)]: a file that cannot be parsed leaves the list unchanged. *)
Definition PruneList_Rollback p : PruneList R :=
  let roots := match pl_file p with
    | Some data => Roaring_readSafe data
    | None => Ok Roaring_empty
    end in
  match roots with
  | Ok roots =>
      let p := PruneList_BuildShiftCaches (PruneList_BuildPrunedCache
        (mkPruneList (pl_file p) roots (m_prunedCache p) (m_shiftCache p) (m_leafShiftCache p) (pl_dirty p))) in
      mkPruneList (pl_file p) (m_prunedRoots p) (m_prunedCache p) (m_shiftCache p) (m_leafShiftCache p) false
  | Throw _ => p
  end.

(** The [while (true)] loop of [Add]; [None] when the fuel runs out. *)
Fixpoint PruneList_Add_loop (fuel : nat) (current_idx : Index) (roots cache : R) : option (R * R) :=
  match fuel with
  | O => None
  | S fuel =>
      let sibling_pos := m_position (Index_GetSibling current_idx) in
      if Roaring_contains (u32 (sibling_pos + 1)) roots || Roaring_contains (u32 (sibling_pos + 1)) cache
      then PruneList_Add_loop fuel (Index_GetParent current_idx)
             (Roaring_remove (u32 (sibling_pos + 1)) roots)
             (Roaring_add (u32 (m_position current_idx + 1)) cache)
      else Some (Roaring_add (u32 (m_position current_idx + 1)) roots,
                 Roaring_add (u32 (m_position current_idx + 1)) cache)
  end.

Definition PruneList_Add idx p : option (PruneList R) :=
  '(roots, cache) ← PruneList_Add_loop 64 idx (m_prunedRoots p) (m_prunedCache p);
  Some (mkPruneList (pl_file p) roots cache (m_shiftCache p) (m_leafShiftCache p) true).

Definition PruneList_AddPrunedRoot idx p : PruneList R :=
  let wirePos := (m_position idx + 1)%u64 in
  if Roaring_contains (u32 wirePos) (m_prunedRoots p) then p
  else
    let appendOnly := Roaring_isEmpty (m_prunedRoots p) || (wirePos >? Roaring_maximum (m_prunedRoots p)) in
    let p := mkPruneList (pl_file p) (Roaring_add (u32 wirePos) (m_prunedRoots p))
               (m_prunedCache p) (m_shiftCache p) (m_leafShiftCache p) true in
    if appendOnly
    then PruneList_AppendRootToShiftCaches idx (PruneList_AddRootToPrunedCache idx p)
    else PruneList_BuildShiftCaches (PruneList_BuildPrunedCache p).

Definition PruneList_IsPruned idx p : bool := Roaring_contains (u32 (m_position idx + 1)) (m_prunedCache p).
Definition PruneList_IsPrunedRoot idx p : bool := Roaring_contains (u32 (m_position idx + 1)) (m_prunedRoots p).
Definition PruneList_IsCompacted idx p : bool :=
  PruneList_IsPruned idx p && negb (PruneList_IsPrunedRoot idx p).

(** The entry of a running-sum cache for [index] roots. *)
Definition shift_entry (index : Z) (cache : list Z) : Z :=
  if index >? length cache then default 0 (last cache)
  else default 0 (cache !! Z.to_nat (index - 1)).

Definition PruneList_GetShift idx p : Z :=
  if Roaring_isEmpty (m_prunedRoots p) then 0
  else if bool_decide (m_shiftCache p = []) then 0
  else
    let index := Roaring_rank (u32 (m_position idx + 1)) (m_prunedRoots p) in
    if index =? 0 then 0 else shift_entry index (m_shiftCache p).

Definition PruneList_GetTotalShift p : Z :=
  PruneList_GetShift (Index_At (Roaring_maximum (m_prunedRoots p))) p.

Definition PruneList_GetLeafShift idx p : Z :=
  if Roaring_isEmpty (m_prunedRoots p) then 0
  else
    let index := Roaring_rank (u32 (m_position idx + 1)) (m_prunedRoots p) in
    if index =? 0 then 0
    else if bool_decide (m_leafShiftCache p = []) then 0
    else shift_entry index (m_leafShiftCache p).

End prune_list.

(** ** The subtree of a node

    The nodes below position [r] (with [r] itself) are the interval from
    [root_low r] to [r]. *)
Definition root_low (r : Z) : Z := r + 2 - 2 ^ (CalculateHeight r + 1).

(** Sums of the nodes and of the leaves that a root at wire position [w] (one
    more than its position) removes. *)
Definition wire_shift (w : Z) : Z := w - 1 - root_low (w - 1).
Definition wire_leaf_shift (w : Z) : Z :=
  if CalculateHeight (w - 1) =? 0 then 0 else 2 ^ CalculateHeight (w - 1).

(** Running sums, as the caches hold them. *)
Fixpoint running (f : Z -> Z) (acc : Z) (l : list Z) : list Z :=
  match l with
  | [] => []
  | w :: l => (acc + f w)%u64 :: running f (acc + f w)%u64 l
  end.

Lemma height_node r : 0 <= r < 2 ^ 32 ->
  0 <= CalculateHeight r < 33 /\ 2 ^ (CalculateHeight r + 1) <= r + 2 /\ 2 <= 2 ^ (CalculateHeight r + 1).
Proof.
  intros Hr. destruct (node_pos_surj r) as (h & i & Hh & Hi & ->); [lia|].
  rewrite CalculateHeight_node by (done || unfold pos_ok; lia).
  pose proof (pow2_le_node h i Hh Hi) as Hle. pose proof (pow2_pos h Hh). rewrite pow2_1 in * by done.
  split; [|lia]. split; [done|]. apply Z.nle_gt. intros Hge.
  pose proof (Z.pow_le_mono_r 2 33 h ltac:(lia) Hge). lia.
Qed.

Lemma root_low_range r : 0 <= r < 2 ^ 32 -> 0 <= root_low r <= r.
Proof. intros Hr. pose proof (height_node r Hr). unfold root_low. lia. Qed.

Lemma node_count_low r : 0 <= r < 2 ^ 32 ->
  ((r + 1) - ((1 << (CalculateHeight r + 1)) - 1)%u64)%u64 = root_low r.
Proof.
  intros Hr. pose proof (height_node r Hr) as (Hh & Hle & Hge).
  rewrite shiftl_1 by lia. unfold root_low.
  uint_id. lia.
Qed.

Lemma wire_shift_eq w : 1 <= w <= 2 ^ 32 ->
  (2 * ((1 << CalculateHeight (w - 1)) - 1))%u64 = wire_shift w.
Proof.
  intros Hw. pose proof (height_node (w - 1) ltac:(lia)) as (Hh & Hle & Hge). rewrite shiftl_1 by lia.
  unfold wire_shift, root_low. rewrite pow2_1 in * by lia.
  uint_id. lia.
Qed.

Lemma wire_leaf_shift_eq w : 1 <= w <= 2 ^ 32 ->
  (if CalculateHeight (w - 1) =? 0 then 0 else (1 << CalculateHeight (w - 1))%u64) = wire_leaf_shift w.
Proof.
  intros Hw. pose proof (height_node (w - 1) ltac:(lia)) as (Hh & Hle & Hge). rewrite shiftl_1 by lia.
  unfold wire_leaf_shift. rewrite pow2_1 in * by lia. rewrite uint_small by uint_solve. done.
Qed.

Section prune_list_facts.
Context {R : Type} {HR : Roaring R} {HL : RoaringLaws R}.
Implicit Types (p : PruneList R).

Abbreviation roots p := (Roaring_elems (m_prunedRoots p)).
Abbreviation cached p := (Roaring_elems (m_prunedCache p)).

(** Roots are one-based positions. *)
Definition wires_ok p : Prop := Forall (fun w => 1 <= w < 2 ^ 32) (roots p).

Definition covered_by (l : list Z) (k : Z) : Prop :=
  Exists (fun w => root_low (w - 1) < k <= w) l.

Record caches_ok p : Prop := {
  cache_nodes : forall k, k ∈ cached p <-> covered_by (roots p) k;
  cache_shift : m_shiftCache p = running wire_shift 0 (roots p);
  cache_leaf_shift : m_leafShiftCache p = running wire_leaf_shift 0 (roots p);
}.

Lemma u32_id k : 0 <= k < 2 ^ 32 -> u32 k = k.
Proof. intros. by apply uint_small. Qed.

Lemma AddRoot_loop_spec (n : nat) first last c k :
  0 <= first -> last + 1 = first + n -> last + 1 < 2 ^ 32 ->
  k ∈ Roaring_elems (AddRootToPrunedCache_loop first last c) <->
  first < k <= last + 1 \/ k ∈ Roaring_elems c.
Proof.
  intros Hf Hn Hb. unfold AddRootToPrunedCache_loop. replace (last + 1 - first) with (Z.of_nat n) by lia.
  revert first c Hf Hn. induction n as [|n IH]; intros first c Hf Hn.
  - simpl. split; [by right|]. intros [?|?]; [lia|done].
  - rewrite seqZ_cons by lia. replace (Z.pred (S n)) with (Z.of_nat n) by lia. cbn [foldl].
    rewrite IH by lia. rewrite u32_id by lia. rewrite roaring_add by uint_solve.
    split; [intros [?|[->|?]]|intros [?|?]]; try (by right); try (left; lia).
    + destruct (decide (k = first + 1)) as [->|]; [by right; left|left; lia].
    + by right; right.
Qed.

Lemma AddRootToPrunedCache_elems w p k :
  1 <= w < 2 ^ 32 ->
  k ∈ cached (PruneList_AddRootToPrunedCache (Index_At (w - 1)) p) <->
  root_low (w - 1) < k <= w \/ k ∈ cached p.
Proof.
  intros Hw. unfold PruneList_AddRootToPrunedCache, set_caches. cbn [m_position m_height Index_At m_prunedCache].
  rewrite node_count_low by lia. pose proof (root_low_range (w - 1) ltac:(lia)).
  rewrite (AddRoot_loop_spec (Z.to_nat (w - root_low (w - 1)))) by lia.
  by replace (w - 1 + 1) with w by lia.
Qed.

(** The fields that the cache builders leave alone. *)
Lemma AddRootToPrunedCache_fields idx p :
  m_prunedRoots (PruneList_AddRootToPrunedCache idx p) = m_prunedRoots p /\
  m_shiftCache (PruneList_AddRootToPrunedCache idx p) = m_shiftCache p /\
  m_leafShiftCache (PruneList_AddRootToPrunedCache idx p) = m_leafShiftCache p /\
  pl_file (PruneList_AddRootToPrunedCache idx p) = pl_file p /\
  pl_dirty (PruneList_AddRootToPrunedCache idx p) = pl_dirty p.
Proof. done. Qed.

Lemma AddRoots_elems (l : list Z) p k :
  Forall (fun w => 1 <= w < 2 ^ 32) l ->
  k ∈ cached (foldl (fun p w => PruneList_AddRootToPrunedCache (Index_At (w - 1)%u64) p) p l) <->
  covered_by l k \/ k ∈ cached p.
Proof.
  intros Hl. revert p. induction Hl as [|w l Hw Hl IH]; intros p; cbn [foldl].
  - unfold covered_by. rewrite Exists_nil. intuition.
  - rewrite IH, (uint_small 64 (w - 1)) by uint_solve. rewrite AddRootToPrunedCache_elems by done.
    unfold covered_by. rewrite Exists_cons. intuition.
Qed.

Lemma AddRoots_fields (l : list Z) p :
  let p' := foldl (fun p w => PruneList_AddRootToPrunedCache (Index_At (w - 1)%u64) p) p l in
  m_prunedRoots p' = m_prunedRoots p /\ pl_file p' = pl_file p /\ pl_dirty p' = pl_dirty p.
Proof. revert p. induction l as [|w l IH]; intros p; [done|]. cbv zeta in *. cbn [foldl]. by destruct (IH (PruneList_AddRootToPrunedCache (Index_At (w - 1)%u64) p)) as (-> & -> & ->). Qed.

Lemma BuildPrunedCache_spec p :
  wires_ok p ->
  m_prunedRoots (PruneList_BuildPrunedCache p) = m_prunedRoots p /\
  pl_file (PruneList_BuildPrunedCache p) = pl_file p /\
  pl_dirty (PruneList_BuildPrunedCache p) = pl_dirty p /\
  (forall k, k ∈ cached (PruneList_BuildPrunedCache p) <-> covered_by (roots p) k).
Proof.
  intros Hw. unfold PruneList_BuildPrunedCache. cbn [set_caches m_prunedRoots].
  rewrite roaring_isEmpty. case_bool_decide as E.
  - split; [done|]. split; [done|]. split; [done|]. intros k. cbn [set_caches m_prunedCache].
    rewrite roaring_empty, E. unfold covered_by. rewrite Exists_nil. set_solver.
  - match goal with |- context [foldl ?f ?p0 ?l] => pose proof (AddRoots_fields l p0) as (H1 & H2 & H3);
      pose proof (fun k => AddRoots_elems l p0 k Hw) as H4 end.
    split; [apply H1|]. split; [apply H2|]. split; [apply H3|]. intros k.
    cbn [set_caches m_prunedCache] in *. rewrite roaring_runOptimize, H4, roaring_empty, elem_of_nil. tauto.
Qed.

Lemma BuildShiftCaches_loop_spec (l : list Z) t tl s ls :
  Forall (fun w => 1 <= w < 2 ^ 32) l ->
  BuildShiftCaches_loop l t tl s ls = (s ++ running wire_shift t l, ls ++ running wire_leaf_shift tl l).
Proof.
  intros Hl. revert t tl s ls. induction Hl as [|w l Hw Hl IH]; intros t tl s ls; cbn [BuildShiftCaches_loop running].
  - by rewrite !app_nil_r.
  - rewrite (uint_small 64 (w - 1)) by uint_solve. cbn [m_height Index_At].
    rewrite wire_shift_eq, wire_leaf_shift_eq, IH by lia. by rewrite <- !app_assoc.
Qed.

Lemma BuildShiftCaches_spec p :
  wires_ok p ->
  PruneList_BuildShiftCaches p =
    set_caches (m_prunedCache p) (running wire_shift 0 (roots p)) (running wire_leaf_shift 0 (roots p)) p.
Proof.
  intros Hw. unfold PruneList_BuildShiftCaches. rewrite roaring_isEmpty. case_bool_decide as E.
  - by rewrite E.
  - by rewrite BuildShiftCaches_loop_spec.
Qed.

(** Rebuilding establishes the caches, whatever they held before. *)
Lemma RebuildCaches_spec p :
  wires_ok p ->
  caches_ok (PruneList_RebuildCaches p) /\
  m_prunedRoots (PruneList_RebuildCaches p) = m_prunedRoots p /\
  pl_file (PruneList_RebuildCaches p) = pl_file p /\
  pl_dirty (PruneList_RebuildCaches p) = pl_dirty p.
Proof.
  intros Hw. unfold PruneList_RebuildCaches.
  destruct (BuildPrunedCache_spec p Hw) as (H1 & H2 & H3 & H4).
  rewrite BuildShiftCaches_spec by (unfold wires_ok; by rewrite H1).
  split; [|done]. constructor; cbn [set_caches m_prunedCache m_prunedRoots m_shiftCache m_leafShiftCache];
    rewrite H1; done.
Qed.

Lemma running_snoc f t l w :
  running f t (l ++ [w]) = running f t l ++ [(default t (last (running f t l)) + f w)%u64].
Proof.
  revert t. induction l as [|x l IH]; intros t; [done|]. cbn [app running]. rewrite IH. f_equal.
  rewrite last_cons. by destruct (last (running f (t + f x)%u64 l)).
Qed.

(** Adding a key above all others appends it to the sorted elements. *)
Lemma roaring_add_last k (r : R) :
  is_uint 32 k -> Forall (fun x => x < k) (Roaring_elems r) ->
  Roaring_elems (Roaring_add k r) = Roaring_elems r ++ [k].
Proof.
  intros Hk Hlt. apply sorted_lt_ext; [apply roaring_sorted| |].
  - apply sorted_lt_snoc. split; [apply roaring_sorted|done].
  - intros x. rewrite roaring_add, elem_of_app, list_elem_of_singleton by done. intuition.
Qed.

Lemma roaring_above_maximum k (r : R) :
  Roaring_elems r = [] \/ Roaring_maximum r < k -> Forall (fun x => x < k) (Roaring_elems r).
Proof.
  intros [->|Hlt]; [constructor|]. rewrite roaring_maximum in Hlt. pose proof (roaring_sorted r) as Hs.
  induction (Roaring_elems r) as [|x l _] using rev_ind; [constructor|].
  apply sorted_lt_snoc in Hs as [_ Hx]. rewrite last_snoc in Hlt. simpl in Hlt.
  apply Forall_app. split; [|by apply Forall_singleton]. eapply Forall_impl; [apply Hx|]. simpl. lia.
Qed.

Lemma AddPrunedRoot_ok p r :
  wires_ok p -> caches_ok p -> 0 <= r -> r + 1 < 2 ^ 32 ->
  let p' := PruneList_AddPrunedRoot (Index_At r) p in
  wires_ok p' /\ caches_ok p' /\ (forall k, k ∈ roots p' <-> k = r + 1 \/ k ∈ roots p).
Proof.
  intros Hw Hc Hr Hb. unfold PruneList_AddPrunedRoot. cbn [m_position Index_At].
  rewrite (uint_small 64 (r + 1)) by uint_solve. rewrite u32_id by lia.
  rewrite roaring_contains by uint_solve. case_bool_decide as Hin.
  { split; [done|]. split; [done|]. intros k. split; [by right|]. by intros [->|]. }
  match goal with |- context [PruneList_BuildPrunedCache ?q] => set (p1 := q) end.
  assert (forall k, k ∈ roots p1 <-> k = r + 1 \/ k ∈ roots p) as Hroots
    by (intros k; apply roaring_add; uint_solve).
  assert (wires_ok p1) as Hw1.
  { unfold wires_ok in *. rewrite Forall_forall in *. intros w Hin'. apply Hroots in Hin' as [->|]; [lia|by apply Hw]. }
  rewrite roaring_isEmpty, Z.gtb_ltb.
  destruct (bool_decide (roots p = []) || (Roaring_maximum (m_prunedRoots p) <? r + 1)) eqn:E.
  - assert (roots p1 = roots p ++ [r + 1]) as Hl.
    { apply roaring_add_last; [uint_solve|]. apply roaring_above_maximum.
      apply orb_true_iff in E as [E|E]; [left; by apply bool_decide_eq_true in E|right; by apply Z.ltb_lt]. }
    split; [done|]. split; [|done].
    pose proof (wire_shift_eq (r + 1) ltac:(lia)) as E1. pose proof (wire_leaf_shift_eq (r + 1) ltac:(lia)) as E2.
    pose proof (fun k => AddRootToPrunedCache_elems (r + 1) p1 k ltac:(lia)) as E3.
    replace (r + 1 - 1) with r in E1, E2, E3 by lia.
    constructor; unfold PruneList_AppendRootToShiftCaches; cbn [set_caches m_prunedCache m_prunedRoots m_shiftCache m_leafShiftCache].
    + intros k. rewrite E3. cbn [m_prunedCache p1]. rewrite (cache_nodes p Hc).
      change (m_prunedRoots (PruneList_AddRootToPrunedCache (Index_At r) p1)) with (m_prunedRoots p1).
      rewrite Hl. unfold covered_by. rewrite Exists_app, Exists_cons, Exists_nil.
      replace (r + 1 - 1) with r by lia. intuition.
    + change (m_prunedRoots (PruneList_AddRootToPrunedCache (Index_At r) p1)) with (m_prunedRoots p1).
      rewrite Hl, running_snoc. cbn [PruneList_AddRootToPrunedCache set_caches m_shiftCache p1 m_height Index_At].
      by rewrite E1, (cache_shift p Hc).
    + change (m_prunedRoots (PruneList_AddRootToPrunedCache (Index_At r) p1)) with (m_prunedRoots p1).
      rewrite Hl, running_snoc. cbn [PruneList_AddRootToPrunedCache set_caches m_leafShiftCache p1 m_height Index_At].
      by rewrite E2, (cache_leaf_shift p Hc).
  - destruct (RebuildCaches_spec p1 Hw1) as (Hc1 & H1 & _ & _).
    change (PruneList_BuildShiftCaches (PruneList_BuildPrunedCache p1)) with (PruneList_RebuildCaches p1).
    unfold wires_ok. rewrite H1. done.
Qed.

(** *** Counting the compacted nodes *)

Definition compacted_by (l : list Z) (x : Z) : Prop :=
  Exists (fun w => root_low (w - 1) <= x < w - 1) l.

#[export] Instance compacted_by_dec l x : Decision (compacted_by l x).
Proof. unfold compacted_by. apply _. Defined.

(** Roots of disjoint subtrees, in order. *)
Definition disjoint_roots (l : list Z) : Prop := StronglySorted (fun w w' => w <= root_low (w' - 1)) l.

Definition zsum (f : Z -> Z) (l : list Z) : Z := foldr (fun w s => f w + s) 0 l.

Lemma running_lookup f l t (k : nat) :
  (k < length l)%nat -> running f t l !! k = Some (t + zsum f (take (S k) l))%u64.
Proof.
  revert t k. induction l as [|w l IH]; intros t k Hk; simpl in Hk; [lia|].
  destruct k as [|k].
  - simpl. by rewrite Z.add_0_r.
  - cbn [running]. simpl lookup. rewrite IH by lia. f_equal. cbn [take zsum foldr].
    unfold uint. rewrite Zplus_mod_idemp_l. f_equal. fold (zsum f (take (S k) l)). lia.
Qed.

Lemma filter_le_take (l : list Z) k :
  StronglySorted Z.lt l -> filter (fun x => x <= k) l = take (Z.to_nat (count_le k l)) l.
Proof.
  unfold count_le. rewrite Nat2Z.id. induction 1 as [|x l Hl IH Hx]; [done|].
  rewrite filter_cons. destruct (decide (x <= k)); [simpl; by f_equal|].
  rewrite filter_none; [done|]. eapply Forall_impl; [apply Hx|]. simpl. lia.
Qed.

Lemma compacted_count (l : list Z) q :
  Forall (fun w => 1 <= w < 2 ^ 32) l -> disjoint_roots l -> 0 <= q -> ~ compacted_by l q ->
  length (filter (compacted_by l) (seqZ 0 (q + 1))) = zsum wire_shift (filter (fun w => w <= q + 1) l) :> Z.
Proof.
  intros Hw Hd Hq. induction Hd as [|w l Hd IH Hx]; intros Hn.
  - simpl. rewrite filter_none; [done|]. apply Forall_forall. intros x _ Hx. inversion Hx.
  - apply Forall_cons in Hw as [Hw Hl]. unfold compacted_by in Hn. rewrite Exists_cons in Hn.
    rewrite Forall_forall in Hx. pose proof (root_low_range (w - 1) ltac:(lia)) as Hlow.
    rewrite (filter_or_length (fun x => root_low (w - 1) <= x < w - 1) (compacted_by l) (compacted_by (w :: l))).
    2: { intros x _. unfold compacted_by. rewrite Exists_cons. split; [done|]. intros [H1 H2].
         apply Exists_exists in H2 as (w' & Hin & H2). specialize (Hx w' Hin). lia. }
    rewrite Nat2Z.inj_add, IH by (done || tauto). rewrite <- (Z2Nat.id (q + 1)) at 1 by lia.
    rewrite filter_range_length, Z2Nat.id by lia. rewrite filter_cons.
    destruct (decide (w <= q + 1)).
    + change (zsum wire_shift (w :: filter (fun w => w <= q + 1) l))
        with (wire_shift w + zsum wire_shift (filter (fun w => w <= q + 1) l)). unfold wire_shift at 2. lia.
    + assert (Z.max 0 (Z.min (w - 1) (q + 1) - root_low (w - 1)) = 0); [|lia].
      destruct (decide (root_low (w - 1) <= q)); [|lia]. exfalso. apply Hn. left. lia.
Qed.

Lemma running_length f t l : length (running f t l) = length l.
Proof. revert t. induction l as [|w l IH]; intros t; simpl; [done|]. by rewrite IH. Qed.

Lemma count_le_bound k l : 0 <= count_le k l <= length l.
Proof.
  unfold count_le. pose proof (length_filter (fun x : Z => (x <= k)%Z) l). lia.
Qed.

(** The entry of a running-sum cache for the roots up to [k]. *)
Lemma shift_entry_running f l k :
  StronglySorted Z.lt l -> 0 < count_le k l ->
  shift_entry (count_le k l) (running f 0 l) = uint 64 (zsum f (filter (fun w => w <= k) l)).
Proof.
  intros Hs Hc. pose proof (count_le_bound k l). unfold shift_entry.
  rewrite running_length, Z.gtb_ltb.
  destruct (Z.ltb_spec (length l) (count_le k l)); [lia|].
  rewrite running_lookup by lia. rewrite filter_le_take by done. simpl default. rewrite Z.add_0_l.
  by replace (S (Z.to_nat (count_le k l - 1))) with (Z.to_nat (count_le k l)) by lia.
Qed.

Lemma wire_shift_nonneg w : 1 <= w < 2 ^ 32 -> 0 <= wire_shift w.
Proof. intros Hw. pose proof (root_low_range (w - 1) ltac:(lia)). unfold wire_shift. lia. Qed.

Lemma GetShift_sum p q :
  wires_ok p -> caches_ok p -> 0 <= q -> q + 1 < 2 ^ 32 ->
  PruneList_GetShift (Index_At q) p = uint 64 (zsum wire_shift (filter (fun w => w <= q + 1) (roots p))).
Proof.
  intros Hw Hc Hq Hb. unfold PruneList_GetShift. rewrite roaring_isEmpty, (cache_shift p Hc).
  cbn [m_position Index_At]. rewrite u32_id, roaring_rank by uint_solve.
  case_bool_decide as E; [by rewrite E|]. case_bool_decide as E2.
  { apply (f_equal (@length Z)) in E2. rewrite running_length in E2. destruct (roots p); done. }
  destruct (Z.eqb_spec (count_le (q + 1) (roots p)) 0) as [E0|E0].
  - rewrite filter_le_take by apply roaring_sorted. by rewrite E0.
  - apply shift_entry_running; [apply roaring_sorted|]. pose proof (count_le_bound (q + 1) (roots p)). lia.
Qed.

Lemma disjoint_covered (l : list Z) x :
  Forall (fun w => 1 <= w < 2 ^ 32) l -> disjoint_roots l ->
  compacted_by l x <-> covered_by l (x + 1) /\ x + 1 ∉ l.
Proof.
  intros Hw. induction 1 as [|w l Hd IH Hx]; unfold compacted_by, covered_by.
  - rewrite !Exists_nil. tauto.
  - apply Forall_cons in Hw as [Hw Hl]. specialize (IH Hl). rewrite !Exists_cons, not_elem_of_cons.
    fold (compacted_by l x) (covered_by l (x + 1)). rewrite IH. rewrite Forall_forall in Hx, Hl.
    assert (covered_by l (x + 1) -> w < x + 1) as H1.
    { intros (w' & Hin & H1)%Exists_exists. specialize (Hx w' Hin). lia. }
    assert (x + 1 ∈ l -> w < x + 1) as H2.
    { intros Hin. specialize (Hx _ Hin). specialize (Hl _ Hin).
      pose proof (root_low_range (x + 1 - 1) ltac:(lia)). lia. }
    split.
    + intros [H|[H H']]; [|split; [by right|split; [|done]; specialize (H1 H); lia]].
      split; [left; lia|]. split; [lia|]. intros Hin. specialize (H2 Hin). lia.
    + intros [[H|H] [H3 H4]]; [left; lia|right; done].
Qed.

Lemma IsCompacted_compacted p x :
  wires_ok p -> caches_ok p -> disjoint_roots (roots p) -> 0 <= x -> x + 1 < 2 ^ 32 ->
  PruneList_IsCompacted (Index_At x) p = bool_decide (compacted_by (roots p) x).
Proof.
  intros Hw Hc Hd Hx Hb. unfold PruneList_IsCompacted, PruneList_IsPruned, PruneList_IsPrunedRoot.
  cbn [m_position Index_At]. rewrite u32_id, !roaring_contains by uint_solve.
  symmetry. destruct (decide (compacted_by (roots p) x)) as [H|H].
  - rewrite bool_decide_eq_true_2 by done. apply disjoint_covered in H as [H1 H2]; [|done..].
    rewrite bool_decide_eq_true_2 by (by apply (cache_nodes p Hc)). by rewrite bool_decide_eq_false_2.
  - rewrite bool_decide_eq_false_2 by done. do 2 case_bool_decide; try done. exfalso. apply H.
    apply disjoint_covered; [done..|]. split; [by apply (cache_nodes p Hc)|done].
Qed.

(** *** The roots as subtrees of an MMR *)

(** The root at wire position [w] is a complete subtree of an MMR of [n] leaves. *)
Definition root_in (n w : Z) : Prop :=
  exists h i, 0 <= h /\ 0 <= i /\ w - 1 = node_pos h i /\ (i + 1) * 2 ^ h <= n.

(** The list prunes disjoint subtrees of an MMR of [n] leaves. *)
Record prune_wf p (n : Z) : Prop := {
  pw_wires : wires_ok p;
  pw_caches : caches_ok p;
  pw_disjoint : disjoint_roots (roots p);
  pw_roots : Forall (root_in n) (roots p);
}.

(** The nodes whose hash is stored. *)
Definition visible p (q : Z) : bool := negb (bool_decide (compacted_by (roots p) q)).

Lemma root_low_node h i : 0 <= h -> 0 <= i -> pos_ok (node_pos h i) -> root_low (node_pos h i) = mmr_size (i * 2 ^ h).
Proof. intros Hh Hi Hok. unfold root_low. rewrite CalculateHeight_node by done. by apply subtree_first. Qed.

(** A compacted node lies strictly below the node of a root. *)
Lemma compacted_below p n x :
  prune_wf p n -> compacted_by (roots p) x ->
  exists h i, 0 <= h /\ 0 <= i /\ mmr_size (i * 2 ^ h) <= x < node_pos h i /\ (i + 1) * 2 ^ h <= n /\
    node_pos h i + 1 ∈ roots p.
Proof.
  intros [Hw _ _ Hr] (w & Hin & Hx)%Exists_exists. unfold wires_ok in Hw. rewrite Forall_forall in Hw, Hr.
  specialize (Hw w Hin). destruct (Hr w Hin) as (h & i & Hh & Hi & E & Hn).
  rewrite E, root_low_node in Hx by (done || unfold pos_ok; lia).
  exists h, i. do 4 (split; [done|]). by replace (node_pos h i + 1) with w by lia.
Qed.

Lemma visible_beyond p n q : 0 <= n -> prune_wf p n -> mmr_size n <= q -> visible p q = true.
Proof.
  intros Hn Hp Hq. unfold visible. rewrite bool_decide_eq_false_2; [done|]. intros Hc.
  destruct (compacted_below p n q Hp Hc) as (h & i & Hh & Hi & Hx & Hin & _).
  apply (node_in_mmr h i n) in Hin; lia.
Qed.

(** The parent of a compacted node is a node of the pruned MMR. *)
Lemma hidden_parent p n h i :
  0 <= h -> 0 <= i -> prune_wf p n -> visible p (node_pos h i) = false -> (i / 2 + 1) * 2 ^ (h + 1) <= n.
Proof.
  intros Hh Hi Hp Hv. unfold visible in Hv. apply negb_false_iff, bool_decide_eq_true in Hv.
  destruct (compacted_below p n _ Hp Hv) as (H & I & HH & HI & Hx & Hin & _).
  pose proof (below_parent h i H I Hh Hi HH HI Hx). lia.
Qed.

Lemma visible_IsCompacted p n idx :
  prune_wf p n -> 0 <= m_position idx -> m_position idx + 1 < 2 ^ 32 ->
  PruneList_IsCompacted idx p = negb (visible p (m_position idx)).
Proof.
  intros Hp Hq Hb. unfold visible. rewrite negb_involutive.
  rewrite <- (IsCompacted_compacted p (m_position idx)); [done|apply Hp..|done|done].
Qed.

Lemma compacted_skipped p k n :
  length (filter (compacted_by (roots p)) (seqZ k n)) = skipped (visible p) k n :> Z.
Proof.
  unfold skipped. f_equal. f_equal. apply filter_iff_in. intros x _. unfold visible.
  by rewrite negb_false_iff, bool_decide_eq_true.
Qed.

(** The shift of a stored node is the number of hidden nodes before it. *)
Lemma GetShift_skipped p n idx :
  prune_wf p n -> 0 <= m_position idx -> m_position idx + 1 < 2 ^ 32 -> visible p (m_position idx) = true ->
  PruneList_GetShift idx p = skipped (visible p) 0 (m_position idx).
Proof.
  intros [Hw Hc Hd Hr] Hq Hb Hv. set (q := m_position idx) in *.
  change (PruneList_GetShift idx p) with (PruneList_GetShift (Index_At q) p).
  rewrite GetShift_sum by done. pose proof Hv as Hv'. unfold visible in Hv'.
  apply negb_true_iff, bool_decide_eq_false in Hv'.
  rewrite <- compacted_count, compacted_skipped by done.
  rewrite skipped_add, (skipped_succ _ (0 + q) 0) by lia. rewrite Z.add_0_l at 1. rewrite Hv, skipped_0.
  pose proof (skipped_bound (visible p) 0 q Hq). rewrite uint_small by uint_solve. lia.
Qed.

(** The sums of the shift caches reach every root when they reach the last one. *)
Lemma roots_below p n : 0 <= n -> prune_wf p n -> Forall (fun w => w <= mmr_size n) (roots p).
Proof.
  intros Hn [_ _ _ Hr]. eapply Forall_impl; [apply Hr|]. intros w (h & i & Hh & Hi & E & Hin).
  apply (node_in_mmr h i n) in Hin; lia.
Qed.

Lemma shift_sum_all p n m :
  0 <= n -> prune_wf p n -> mmr_size n <= m -> zsum wire_shift (roots p) = skipped (visible p) 0 m.
Proof.
  intros Hn Hp Hm. pose proof (roots_below p n Hn Hp) as Hle. pose proof Hp as [Hw Hc Hd Hr].
  pose proof (mmr_size_ge n Hn).
  pose proof (visible_beyond p n m Hn Hp Hm) as Hv. pose proof Hv as Hv'. unfold visible in Hv'.
  apply negb_true_iff, bool_decide_eq_false in Hv'.
  pose proof (compacted_count (roots p) m Hw Hd ltac:(lia) Hv') as Hcount.
  rewrite compacted_skipped, skipped_add, (skipped_succ _ (0 + m) 0), Z.add_0_l, Hv, skipped_0 in Hcount by lia.
  rewrite (filter_all (fun w => w <= m + 1)) in Hcount; [lia|].
  eapply Forall_impl; [apply Hle|]. simpl. lia.
Qed.

(** Past the last root, the shift is the number of all hidden nodes. *)
Lemma GetShift_all p n q :
  0 <= n -> prune_wf p n -> 0 <= q -> mmr_size n <= q + 1 -> q + 1 < 2 ^ 32 ->
  PruneList_GetShift (Index_At q) p = skipped (visible p) 0 (mmr_size n).
Proof.
  intros Hn Hp Hq Hm Hb. pose proof (roots_below p n Hn Hp) as Hle. pose proof (mmr_size_ge n Hn).
  rewrite GetShift_sum by (done || apply Hp). rewrite filter_all.
  - rewrite (shift_sum_all p n (mmr_size n)) by (done || lia).
    pose proof (skipped_bound (visible p) 0 (mmr_size n) ltac:(lia)). apply uint_small. uint_solve.
  - eapply Forall_impl; [apply Hle|]. simpl. lia.
Qed.

Lemma maximum_range p n : 0 <= n -> prune_wf p n ->
  0 <= Roaring_maximum (m_prunedRoots p) <= mmr_size n /\
  Forall (fun w => w <= Roaring_maximum (m_prunedRoots p)) (roots p).
Proof.
  intros Hn Hp. pose proof (roots_below p n Hn Hp) as Hle. pose proof Hp as [Hw _ _ _].
  pose proof (mmr_size_ge n Hn). rewrite roaring_maximum. split.
  - destruct (last (roots p)) as [w|] eqn:El; [|cbn [default from_option]; unfold id; lia].
    apply last_Some_elem_of in El. unfold wires_ok in Hw. rewrite Forall_forall in Hw, Hle.
    specialize (Hw w El). specialize (Hle w El). cbn [default from_option]. unfold id. lia.
  - pose proof (roaring_sorted (m_prunedRoots p)) as Hs.
    induction (roots p) as [|x l _] using rev_ind; [constructor|].
    apply sorted_lt_snoc in Hs as [_ Hx]. rewrite last_snoc. cbn [default from_option]. unfold id.
    apply Forall_app. split; [|constructor; [lia|constructor]]. eapply Forall_impl; [apply Hx|]. simpl. lia.
Qed.

Lemma GetTotalShift_skipped p n m :
  0 <= n -> prune_wf p n -> mmr_size n <= m -> mmr_size n + 1 < 2 ^ 32 -> m < 2 ^ 63 ->
  PruneList_GetTotalShift p = skipped (visible p) 0 m.
Proof.
  intros Hn Hp Hm Hb Hm63. pose proof (mmr_size_ge n Hn).
  destruct (maximum_range p n Hn Hp) as [Hlast Hmax].
  unfold PruneList_GetTotalShift. rewrite GetShift_sum by (lia || apply Hp).
  rewrite filter_all by (eapply Forall_impl; [apply Hmax|]; simpl; lia).
  rewrite (shift_sum_all p n m) by done.
  pose proof (skipped_bound (visible p) 0 m ltac:(lia)). apply uint_small. uint_solve.
Qed.

(** *** Counting the compacted leaves *)

Lemma compacted_leaf_head w n j :
  root_in n w -> 1 <= w < 2 ^ 32 -> 0 <= j -> ~ root_low (w - 1) <= mmr_size j < w - 1 ->
  length (filter (fun j => root_low (w - 1) <= mmr_size j < w - 1) (seqZ 0 (j + 1))) =
    (if decide (w <= mmr_size j + 2) then wire_leaf_shift w else 0) :> Z.
Proof.
  intros (h & i & Hh & Hi & E & _) Hw Hj Hn.
  assert (pos_ok (node_pos h i)) as Hok by (unfold pos_ok; lia).
  unfold wire_leaf_shift. rewrite E, root_low_node, CalculateHeight_node in * by done.
  destruct (Z.eqb_spec h 0) as [->|Hh0].
  - rewrite Z.mul_1_r, node_pos_leaf. rewrite filter_none; [by case_decide|].
    apply Forall_forall. intros x _. lia.
  - rewrite (filter_iff_in _ (fun x => i * 2 ^ h <= x < (i + 1) * 2 ^ h)).
    2: { intros x Hx. apply elem_of_seqZ in Hx. apply leaf_below; lia. }
    rewrite leaf_below in Hn by lia. pose proof (pow2_pos h Hh).
    rewrite <- (Z2Nat.id (j + 1)) by lia. rewrite filter_range_length, Z2Nat.id by nia.
    pose proof (last_leaf_pos h i Hh Hi). pose proof (subtree_first h i Hh Hi) as Hfirst.
    assert (4 <= 2 ^ (h + 1)) by (change 4 with (2 ^ 2); apply Z.pow_le_mono_r; lia).
    destruct (decide (j < i * 2 ^ h)) as [Hlt|Hge].
    + pose proof (mmr_size_lt j (i * 2 ^ h) ltac:(lia)). rewrite decide_False by lia. lia.
    + pose proof (mmr_size_mono ((i + 1) * 2 ^ h) j ltac:(nia)).
      pose proof (proj2 (node_in_mmr h i ((i + 1) * 2 ^ h) Hh Hi ltac:(nia)) ltac:(lia)).
      rewrite decide_True by lia. lia.
Qed.

Lemma compacted_leaf_count (l : list Z) n j :
  Forall (fun w => 1 <= w < 2 ^ 32) l -> Forall (root_in n) l -> disjoint_roots l -> 0 <= j ->
  ~ compacted_by l (mmr_size j) ->
  length (filter (fun j => compacted_by l (mmr_size j)) (seqZ 0 (j + 1))) =
    zsum wire_leaf_shift (filter (fun w => w <= mmr_size j + 2) l) :> Z.
Proof.
  intros Hw Hr Hd Hj. induction Hd as [|w l Hd IH Hx]; intros Hn.
  - simpl. rewrite filter_none; [done|]. apply Forall_forall. intros x _ Hx. inversion Hx.
  - apply Forall_cons in Hw as [Hw Hl]. apply Forall_cons in Hr as [Hr Hrl].
    unfold compacted_by in Hn. rewrite Exists_cons in Hn. rewrite Forall_forall in Hx.
    rewrite (filter_or_length (fun j => root_low (w - 1) <= mmr_size j < w - 1)
      (fun j => compacted_by l (mmr_size j)) (fun j => compacted_by (w :: l) (mmr_size j))).
    2: { intros x _. unfold compacted_by. rewrite Exists_cons. split; [done|]. intros [H1 H2].
         apply Exists_exists in H2 as (w' & Hin & H2). specialize (Hx w' Hin). lia. }
    rewrite Nat2Z.inj_add, IH by (done || tauto).
    rewrite (compacted_leaf_head w n j) by (done || tauto). rewrite filter_cons.
    destruct (decide (w <= mmr_size j + 2)); [cbn [zsum foldr]; reflexivity|apply Z.add_0_l].
Qed.

(** The leaves whose data is stored. *)
Definition leaf_visible p (j : Z) : bool := visible p (mmr_size j).

Lemma GetLeafShift_sum p q :
  wires_ok p -> caches_ok p -> 0 <= q -> q + 1 < 2 ^ 32 ->
  PruneList_GetLeafShift (Index_At q) p = uint 64 (zsum wire_leaf_shift (filter (fun w => w <= q + 1) (roots p))).
Proof.
  intros Hw Hc Hq Hb. unfold PruneList_GetLeafShift. rewrite roaring_isEmpty, (cache_leaf_shift p Hc).
  cbn [m_position Index_At]. rewrite u32_id, roaring_rank by uint_solve.
  case_bool_decide as E; [by rewrite E|].
  destruct (Z.eqb_spec (count_le (q + 1) (roots p)) 0) as [E0|E0].
  - rewrite filter_le_take by apply roaring_sorted. by rewrite E0.
  - rewrite bool_decide_eq_false_2.
    + apply shift_entry_running; [apply roaring_sorted|]. pose proof (count_le_bound (q + 1) (roots p)). lia.
    + intros E2. apply (f_equal (@length Z)) in E2. rewrite running_length in E2. by destruct (roots p).
Qed.

Lemma compacted_leaf_skipped p k n :
  length (filter (fun j => compacted_by (roots p) (mmr_size j)) (seqZ k n)) = skipped (leaf_visible p) k n :> Z.
Proof.
  unfold skipped. f_equal. f_equal. apply filter_iff_in. intros x _. unfold leaf_visible, visible.
  by rewrite negb_false_iff, bool_decide_eq_true.
Qed.

(** The shift with which the code reads the data of a stored leaf. *)
Lemma GetLeafShift_skipped p n j :
  prune_wf p n -> 0 <= j -> mmr_size j + 2 < 2 ^ 32 -> leaf_visible p j = true ->
  PruneList_GetLeafShift (Index_At (mmr_size j + 1)) p = skipped (leaf_visible p) 0 j.
Proof.
  intros [Hw Hc Hd Hr] Hj Hb Hv. pose proof (mmr_size_ge j Hj).
  rewrite GetLeafShift_sum by (done || lia). pose proof Hv as Hv'. unfold leaf_visible, visible in Hv'.
  apply negb_true_iff, bool_decide_eq_false in Hv'.
  replace (mmr_size j + 1 + 1) with (mmr_size j + 2) by lia.
  rewrite <- (compacted_leaf_count (roots p) n j) by done.
  rewrite compacted_leaf_skipped, skipped_add, (skipped_succ _ (0 + j) 0) by lia. rewrite Z.add_0_l at 1. rewrite Hv, skipped_0.
  pose proof (skipped_bound (leaf_visible p) 0 j Hj). rewrite uint_small by uint_solve. lia.
Qed.

Lemma GetLeafShift_all p n q :
  0 <= n -> prune_wf p n -> 0 <= q -> mmr_size n <= q + 1 -> q + 1 < 2 ^ 32 ->
  PruneList_GetLeafShift (Index_At q) p = skipped (leaf_visible p) 0 n.
Proof.
  intros Hn Hp Hq Hm Hb. pose proof (roots_below p n Hn Hp) as Hle. pose proof Hp as [Hw Hc Hd Hr].
  pose proof (mmr_size_ge n Hn). rewrite GetLeafShift_sum by done.
  rewrite filter_all by (eapply Forall_impl; [apply Hle|]; simpl; lia).
  pose proof (visible_beyond p n (mmr_size n) Hn Hp ltac:(lia)) as Hv. pose proof Hv as Hv'. unfold visible in Hv'.
  apply negb_true_iff, bool_decide_eq_false in Hv'.
  pose proof (compacted_leaf_count (roots p) n n Hw Hr Hd Hn Hv') as Hcount.
  rewrite (filter_all (fun w => w <= mmr_size n + 2)) in Hcount by (eapply Forall_impl; [apply Hle|]; simpl; lia).
  rewrite <- Hcount. change (visible p (mmr_size n)) with (leaf_visible p n) in Hv.
  rewrite compacted_leaf_skipped, skipped_add, (skipped_succ _ (0 + n) 0) by lia.
  rewrite Z.add_0_l at 1. rewrite Hv, skipped_0.
  pose proof (skipped_bound (leaf_visible p) 0 n Hn). rewrite uint_small by uint_solve. lia.
Qed.

(** *** A new root after the pruned MMR *)

Lemma root_in_mono n m w : n <= m -> root_in n w -> root_in m w.
Proof. intros Hm (h & i & Hh & Hi & E & Hin). exists h, i. split; [done|]. split; [done|]. split; [done|lia]. Qed.

Lemma prune_wf_mono p n m : n <= m -> prune_wf p n -> prune_wf p m.
Proof.
  intros Hm [Hw Hc Hd Hr]. constructor; [done..|]. eapply Forall_impl; [apply Hr|].
  intros w. by apply root_in_mono.
Qed.

Lemma disjoint_roots_snoc l x :
  disjoint_roots (l ++ [x]) <-> disjoint_roots l /\ Forall (fun w => w <= root_low (x - 1)) l.
Proof.
  unfold disjoint_roots. induction l as [|y l IH]; cbn [app].
  - split; intros _; [split|]; repeat constructor.
  - split.
    + intros H. apply StronglySorted_inv in H as [H Hy]. apply IH in H as [H H'].
      apply Forall_app in Hy as [Hy Hx]. apply Forall_cons in Hx as [Hx _].
      split; constructor; done.
    + intros [H H']. apply StronglySorted_inv in H as [H Hy]. apply Forall_cons in H' as [Hx H'].
      constructor; [by apply IH|]. apply Forall_app. split; [done|]. constructor; [done|constructor].
Qed.

Lemma roots_after p n : 0 <= n -> prune_wf p n -> Forall (fun w => w < mmr_size n + 1) (roots p).
Proof. intros Hn Hp. eapply Forall_impl; [apply (roots_below p n Hn Hp)|]. simpl. lia. Qed.

(** Pruning the subtree that starts where the MMR ends. *)
Lemma AddPrunedRoot_wf p h i :
  0 <= h -> 0 <= i -> prune_wf p (i * 2 ^ h) -> node_pos h i + 1 < 2 ^ 32 ->
  let p' := PruneList_AddPrunedRoot (Index_At (node_pos h i)) p in
  prune_wf p' ((i + 1) * 2 ^ h) /\ roots p' = roots p ++ [node_pos h i + 1] /\
  (forall q, visible p' q = visible p q && negb ((mmr_size (i * 2 ^ h) <=? q) && (q <? node_pos h i))).
Proof.
  intros Hh Hi Hp Hb p'. pose proof Hp as [Hw Hc Hd Hr]. pose proof (pow2_pos h Hh) as Hpow.
  pose proof (node_pos_nonneg h i Hh Hi) as Hnn.
  destruct (AddPrunedRoot_ok p (node_pos h i) Hw Hc Hnn Hb) as (Hw' & Hc' & Hin). fold p' in Hw', Hc', Hin.
  pose proof (roots_below p (i * 2 ^ h) ltac:(nia) Hp) as Hle.
  assert (pos_ok (node_pos h i)) as Hok by (unfold pos_ok; lia).
  assert (root_low (node_pos h i) = mmr_size (i * 2 ^ h)) as Elow by (by apply root_low_node).
  pose proof (root_low_range (node_pos h i) ltac:(lia)) as Hlow. rewrite Elow in Hlow.
  assert (roots p' = roots p ++ [node_pos h i + 1]) as E.
  { apply sorted_lt_ext; [apply roaring_sorted| |].
    - apply sorted_lt_snoc. split; [apply roaring_sorted|]. eapply Forall_impl; [apply Hle|]. simpl. lia.
    - intros x. rewrite Hin, elem_of_app, list_elem_of_singleton. tauto. }
  assert (root_in ((i + 1) * 2 ^ h) (node_pos h i + 1)) as Hroot.
  { exists h, i. split; [done|]. split; [done|]. split; lia. }
  split; [|split; [done|]].
  - constructor; [done|done| |].
    + rewrite E. apply disjoint_roots_snoc. split; [done|].
      replace (node_pos h i + 1 - 1) with (node_pos h i) by lia. by rewrite Elow.
    + rewrite E. apply Forall_app. split; [|by constructor]. eapply Forall_impl; [apply Hr|].
      intros w. apply root_in_mono. lia.
  - intros q. unfold visible. rewrite E.
    assert (compacted_by (roots p ++ [node_pos h i + 1]) q <->
      compacted_by (roots p) q \/ mmr_size (i * 2 ^ h) <= q < node_pos h i) as Hiff.
    { unfold compacted_by. rewrite Exists_app, Exists_cons, Exists_nil.
      replace (node_pos h i + 1 - 1) with (node_pos h i) by lia. rewrite Elow. tauto. }
    rewrite (bool_decide_ext _ _ Hiff), bool_decide_or, negb_orb. f_equal. f_equal.
    destruct (Z.leb_spec (mmr_size (i * 2 ^ h)) q), (Z.ltb_spec q (node_pos h i)); cbn [andb];
      (apply bool_decide_eq_true_2 || apply bool_decide_eq_false_2); lia.
Qed.

(** A new, empty list. *)
Lemma new_list_ok f d :
  wires_ok (mkPruneList f Roaring_empty Roaring_empty [] [] d) /\
  caches_ok (mkPruneList f Roaring_empty Roaring_empty [] [] d).
Proof.
  split; [unfold wires_ok; cbn [m_prunedRoots]; rewrite roaring_empty; constructor|].
  constructor; cbn [m_prunedRoots m_prunedCache m_shiftCache m_leafShiftCache]; rewrite !roaring_empty; [|done..].
  intros k. unfold covered_by. by rewrite Exists_nil, elem_of_nil.
Qed.

Lemma new_list_wf f d n : prune_wf (mkPruneList f Roaring_empty Roaring_empty [] [] d) n.
Proof.
  destruct (new_list_ok f d) as [Hw Hc]. constructor; [done|done|..]; cbn [m_prunedRoots]; rewrite roaring_empty;
    constructor.
Qed.

(** *** The stored roots *)

Lemma Flush_stores p :
  wires_ok p -> pl_dirty p = true ->
  let p' := PruneList_Flush p in
  pl_dirty p' = false /\ caches_ok p' /\
  Roaring_elems (m_prunedRoots p') = Roaring_elems (m_prunedRoots p) /\
  (exists p'', PruneList_Load (pl_file p') = Ok p'' /\ caches_ok p'' /\ pl_dirty p'' = false /\
     Roaring_elems (m_prunedRoots p'') = Roaring_elems (m_prunedRoots p)) /\
  (forall q, pl_file q = pl_file p' ->
     caches_ok (PruneList_Rollback q) /\
     Roaring_elems (m_prunedRoots (PruneList_Rollback q)) = Roaring_elems (m_prunedRoots p)).
Proof.
  intros Hw Hd. cbv zeta. unfold PruneList_Flush. rewrite Hd. cbn [negb].
  set (roots := Roaring_runOptimize (m_prunedRoots p)).
  assert (Roaring_elems roots = Roaring_elems (m_prunedRoots p)) as Er by apply roaring_runOptimize.
  pose proof (roaring_write_nonempty roots) as Hne.
  destruct (Z.ltb_spec 0 (length (Roaring_write roots))) as [_|Hle].
  2: { destruct (Roaring_write roots); simpl in Hle; [done|lia]. }
  destruct (roaring_write_read roots) as (r' & Hread & Er').
  assert (forall d f c s ls, let q := mkPruneList f r' c s ls d in
    let q' := PruneList_BuildShiftCaches (PruneList_BuildPrunedCache q) in
    caches_ok q' /\ m_prunedRoots q' = r' /\ pl_file q' = f /\ pl_dirty q' = d) as Hread'.
  { intros d f c s ls. apply (RebuildCaches_spec (mkPruneList f r' c s ls d)).
    unfold wires_ok in *. cbn [m_prunedRoots]. by rewrite Er', Er. }
  match goal with |- context [PruneList_BuildPrunedCache ?q] =>
    destruct (RebuildCaches_spec q) as (Hc & E1 & E2 & _); [unfold wires_ok in *; cbn [m_prunedRoots]; by rewrite Er|];
    change (PruneList_BuildShiftCaches (PruneList_BuildPrunedCache q)) with (PruneList_RebuildCaches q)
  end.
  cbn [pl_file m_prunedRoots pl_dirty] in *. rewrite E1, E2.
  split; [done|]. split; [by destruct Hc; constructor; cbn [m_prunedCache m_prunedRoots m_shiftCache m_leafShiftCache] in *; rewrite ?E1 in *|].
  split; [done|]. split.
  - unfold PruneList_Load. rewrite Hread. cbn [mbind result_bind mret result_ret].
    destruct (Hread' false (Some (Roaring_write roots)) Roaring_empty [] []) as (H1 & H2 & _ & H4).
    eexists. split; [done|]. split; [done|]. split; [done|]. by rewrite H2, Er', Er.
  - intros q Hq. unfold PruneList_Rollback. rewrite Hq, Hread.
    destruct (Hread' (pl_dirty q) (Some (Roaring_write roots)) (m_prunedCache q) (m_shiftCache q) (m_leafShiftCache q)) as (H1 & H2 & _ & H4).
    cbn [m_prunedRoots]. split; [|by rewrite H2, Er', Er].
    by destruct H1; constructor; cbn [m_prunedCache m_prunedRoots m_shiftCache m_leafShiftCache] in *.
Qed.

Lemma RebuildCaches_roots p : m_prunedRoots (PruneList_RebuildCaches p) = m_prunedRoots p /\ pl_file (PruneList_RebuildCaches p) = pl_file p.
Proof.
  unfold PruneList_RebuildCaches.
  assert (m_prunedRoots (PruneList_BuildPrunedCache p) = m_prunedRoots p /\ pl_file (PruneList_BuildPrunedCache p) = pl_file p) as [<- <-].
  { unfold PruneList_BuildPrunedCache. destruct (Roaring_isEmpty _); [done|].
    match goal with |- context [foldl ?f ?q ?l] => pose proof (AddRoots_fields l q) as H end.
    destruct H as (E1 & E2 & _). cbn [set_caches m_prunedRoots pl_file]. split; [exact E1|exact E2]. }
  generalize (PruneList_BuildPrunedCache p). clear. intros p. unfold PruneList_BuildShiftCaches.
  destruct (Roaring_isEmpty _); [done|]. by destruct (BuildShiftCaches_loop _ _ _ _ _).
Qed.

Lemma Rollback_file p : pl_file (PruneList_Rollback p) = pl_file p.
Proof.
  unfold PruneList_Rollback. destruct (match pl_file p with Some _ => _ | None => _ end); [|done].
  cbn [pl_file]. apply (RebuildCaches_roots (mkPruneList _ _ _ _ _ _)).
Qed.

(** What a rollback reads depends on the file only, when the file can be read
    (otherwise the rollback would keep a list whose caches are wrong). *)
Lemma Rollback_same_file p q :
  (forall q, pl_file q = pl_file p -> caches_ok (PruneList_Rollback q)) -> pl_file q = pl_file p ->
  m_prunedRoots (PruneList_Rollback q) = m_prunedRoots (PruneList_Rollback p).
Proof.
  intros Hc E. specialize (Hc (mkPruneList (pl_file p) Roaring_empty Roaring_empty [7] [] false) eq_refl).
  unfold PruneList_Rollback in *. cbn [pl_file] in Hc. rewrite E.
  destruct (match pl_file p with Some _ => _ | None => _ end) as [r|e].
  - cbn [m_prunedRoots]. etransitivity; [refine (proj1 (RebuildCaches_roots (mkPruneList _ r _ _ _ _)))|].
    symmetry. refine (proj1 (RebuildCaches_roots (mkPruneList _ r _ _ _ _))).
  - destruct Hc as [_ Hs _]. cbn [m_shiftCache m_prunedRoots] in Hs. by rewrite roaring_empty in Hs.
Qed.

(** Without a file the committed list is empty. *)
Lemma Rollback_none p n : pl_file p = None -> prune_wf (PruneList_Rollback p) n /\ roots (PruneList_Rollback p) = [].
Proof.
  intros E. unfold PruneList_Rollback. rewrite E.
  match goal with |- context [PruneList_BuildPrunedCache ?q] => set (p1 := q) end.
  assert (wires_ok p1) as Hw by (unfold wires_ok; cbn [p1 m_prunedRoots]; rewrite roaring_empty; constructor).
  destruct (RebuildCaches_spec p1 Hw) as (Hc & Er & _ & _).
  change (PruneList_BuildShiftCaches (PruneList_BuildPrunedCache p1)) with (PruneList_RebuildCaches p1).
  cbn [m_prunedRoots]. rewrite Er. cbn [p1 m_prunedRoots]. rewrite roaring_empty. split; [|done].
  destruct Hc as [H1 H2 H3]. rewrite Er in *. cbn [p1 m_prunedRoots] in *. rewrite roaring_empty in *.
  constructor; [unfold wires_ok|constructor|..]; cbn [m_prunedRoots m_prunedCache m_shiftCache m_leafShiftCache];
    rewrite ?Er; cbn [p1 m_prunedRoots]; rewrite ?roaring_empty; done || constructor.
Qed.

(** A root is added in memory only. *)
Lemma AddPrunedRoot_file p r : wires_ok p -> 0 <= r -> r + 1 < 2 ^ 32 ->
  let p' := PruneList_AddPrunedRoot (Index_At r) p in
  pl_file p' = pl_file p /\ (p' = p \/ pl_dirty p' = true).
Proof.
  intros Hw Hr Hb p'. unfold p', PruneList_AddPrunedRoot. cbn [m_position Index_At].
  rewrite (uint_small 64 (r + 1)) by uint_solve. rewrite u32_id by lia.
  destruct (Roaring_contains _ _); [by split; [|left]|]. destruct (_ || _); [by split; [|right]|].
  match goal with |- context [PruneList_BuildPrunedCache ?q] =>
    destruct (RebuildCaches_spec q) as (_ & _ & E1 & E2);
    change (PruneList_BuildShiftCaches (PruneList_BuildPrunedCache q)) with (PruneList_RebuildCaches q)
  end.
  - unfold wires_ok in *. cbn [m_prunedRoots]. rewrite Forall_forall in *. intros w Hin.
    apply roaring_add in Hin; [|uint_solve]. destruct Hin as [->|]; [lia|by apply Hw].
  - rewrite E1, E2. by split; [|right].
Qed.

End prune_list_facts.

(** ** Properties *)

Section prune_list_properties.
Context {R : Type} {HR : Roaring R} {HL : RoaringLaws R}.
Implicit Types (p : PruneList R).

(** C25: importing a pruned root keeps the caches in step with the roots: the
    incremental update of an appended root (and the full rebuild of an
    out-of-order one) gives the caches that [RebuildCaches] computes from the
    roots, and the root set gains exactly that root. *)
Theorem AddPrunedRoot_equals_rebuild p r :
  wires_ok p -> caches_ok p -> 0 <= r -> r + 1 < 2 ^ 32 ->
  let p' := PruneList_AddPrunedRoot (Index_At r) p in
  let p'' := PruneList_RebuildCaches p' in
  caches_ok p' /\ wires_ok p' /\
  (forall k, k ∈ Roaring_elems (m_prunedRoots p') <-> k = r + 1 \/ k ∈ Roaring_elems (m_prunedRoots p)) /\
  Roaring_elems (m_prunedCache p') = Roaring_elems (m_prunedCache p'') /\
  m_shiftCache p' = m_shiftCache p'' /\ m_leafShiftCache p' = m_leafShiftCache p''.
Proof.
  intros Hw Hc Hr Hb. cbv zeta. destruct (AddPrunedRoot_ok p r Hw Hc Hr Hb) as (Hw' & Hc' & Hroots).
  destruct (RebuildCaches_spec _ Hw') as (Hc'' & E & _).
  split; [done|]. split; [done|]. split; [done|].
  rewrite (cache_shift _ Hc'), (cache_shift _ Hc''), (cache_leaf_shift _ Hc'), (cache_leaf_shift _ Hc''), E.
  split; [|done]. apply sorted_lt_ext; [apply roaring_sorted..|]. intros k.
  by rewrite (cache_nodes _ Hc'), (cache_nodes _ Hc''), E.
Qed.

(** [GetShift] counts the compacted nodes: for a node that is not
    compacted itself it is the number of compacted positions before it, so the
    shifted index is the rank of the node among the stored ones. *)
Theorem GetShift_counts_compacted p q :
  wires_ok p -> caches_ok p -> disjoint_roots (Roaring_elems (m_prunedRoots p)) ->
  0 <= q -> q + 1 < 2 ^ 32 -> PruneList_IsCompacted (Index_At q) p = false ->
  PruneList_GetShift (Index_At q) p =
    length (filter (fun x => PruneList_IsCompacted (Index_At x) p = true) (seqZ 0 (q + 1))).
Proof.
  intros Hw Hc Hd Hq Hb Hn. rewrite GetShift_sum by done.
  rewrite IsCompacted_compacted in Hn by done. apply bool_decide_eq_false in Hn.
  rewrite <- compacted_count by done. rewrite uint_small.
  - f_equal. f_equal. apply filter_iff_in. intros x Hx. apply elem_of_seqZ in Hx.
    rewrite IsCompacted_compacted by (done || lia). by rewrite bool_decide_eq_true.
  - pose proof (length_filter (compacted_by (Roaring_elems (m_prunedRoots p))) (seqZ 0 (q + 1))) as H1.
    rewrite length_seqZ in H1. uint_solve.
Qed.

(** a flushed list survives a restart: [Flush] of a changed list stores
    the roots, and [Load] (or a later [Rollback]) of the stored file yields the
    same roots with caches in step with them. *)
Theorem PruneList_Flush_Load p :
  wires_ok p -> pl_dirty p = true ->
  let p' := PruneList_Flush p in
  pl_dirty p' = false /\ caches_ok p' /\
  Roaring_elems (m_prunedRoots p') = Roaring_elems (m_prunedRoots p) /\
  (exists p'', PruneList_Load (pl_file p') = Ok p'' /\ caches_ok p'' /\ pl_dirty p'' = false /\
     Roaring_elems (m_prunedRoots p'') = Roaring_elems (m_prunedRoots p)) /\
  (forall q, pl_file q = pl_file p' ->
     caches_ok (PruneList_Rollback q) /\
     Roaring_elems (m_prunedRoots (PruneList_Rollback q)) = Roaring_elems (m_prunedRoots p)).
Proof. exact (Flush_stores p). Qed.

End prune_list_properties.

(** A list with the two leaves under node 2, and the leaf 3, pruned. *)
Definition example_list : PruneList (list Z) :=
  PruneList_AddPrunedRoot (Index_At 3) (PruneList_AddPrunedRoot (Index_At 2)
    (mkPruneList None [] [] [] [] false)).

Lemma AddPrunedRoot_equals_rebuild_witness :
  caches_ok example_list /\ m_shiftCache example_list = [2; 2] /\
  Roaring_elems (m_prunedCache example_list) = [1; 2; 3; 4].
Proof.
  destruct (new_list_ok (R := list Z) None false) as [Hw Hc].
  destruct (AddPrunedRoot_equals_rebuild (R := list Z) _ 2 Hw Hc) as (Hc' & Hw' & _); [lia|lia|].
  destruct (AddPrunedRoot_equals_rebuild (R := list Z) _ 3 Hw' Hc') as (Hc'' & _); [lia|lia|].
  split; [exact Hc''|split; vm_compute; reflexivity].
Defined.

Lemma GetShift_counts_compacted_witness :
  PruneList_GetShift (Index_At 5) example_list = 2.
Proof.
  assert (Roaring_elems (m_prunedRoots example_list) = [3; 4]) as E by (vm_compute; reflexivity).
  destruct (new_list_ok (R := list Z) None false) as [Hw Hc].
  destruct (AddPrunedRoot_ok (R := list Z) _ 2 Hw Hc) as (H1 & H2 & _); [lia|lia|].
  destruct (AddPrunedRoot_ok (R := list Z) _ 3 H1 H2) as (H3 & H4 & _); [lia|lia|].
  rewrite (GetShift_counts_compacted (R := list Z) example_list 5 H3 H4).
  - vm_compute. reflexivity.
  - rewrite E. repeat constructor. vm_compute. congruence.
  - lia.
  - lia.
  - vm_compute. reflexivity.
Defined.

Lemma PruneList_Flush_Load_witness :
  Roaring_elems (m_prunedRoots (PruneList_Flush example_list)) = [3; 4] /\
  caches_ok (PruneList_Rollback (PruneList_Flush example_list)).
Proof.
  assert (wires_ok example_list) as Hw.
  { unfold wires_ok. assert (Roaring_elems (m_prunedRoots example_list) = [3; 4]) as -> by (vm_compute; reflexivity).
    repeat constructor; lia. }
  split; [vm_compute; reflexivity|].
  apply (PruneList_Flush_Load (R := list Z) example_list Hw); vm_compute; reflexivity.
Defined.
