(* ===== verification/BitmapFile.v ===== *)
(** * The bitmap file ([include/Core/File/BitmapFile.h])

    One bit per leaf, bit 0 leftmost in its byte: a memory-mapped file of bytes
    with a map of uncommitted bytes over it.  The mapped bytes [m_mmap] are the
    contents of the file on disk. *)
From S2P Require Import Prelude BitUtil MMRIndex Serial Roaring PruneList.

Record BitmapFile := mkBitmapFile {
  m_modifiedBytes : gmap Z Z;
  m_mmap : bytes;
  bm_dirty : bool;
}.

(** A byte with the given bit (0-7, from the left) set. *)
Definition BitToByte (bit : Z) : Z := uint 8 (Z.shiftl 1 (7 - bit)).

Definition BitmapFile_GetByte (byteIndex : Z) (f : BitmapFile) : Z :=
  match m_modifiedBytes f !! byteIndex with
  | Some b => b
  | None =>
      if byteIndex <? length (m_mmap f) then default 0 (m_mmap f !! Z.to_nat byteIndex) else 0
  end.

Definition BitmapFile_IsSet (leafIndex : Z) (f : BitmapFile) : bool :=
  negb (Z.land (BitmapFile_GetByte (leafIndex / 8) f) (BitToByte (leafIndex mod 8)) =? 0).

Definition BitmapFile_Set (leafIndex : Z) (f : BitmapFile) : BitmapFile :=
  let byte := Z.lor (BitmapFile_GetByte (leafIndex / 8) f) (BitToByte (leafIndex mod 8)) in
  mkBitmapFile (<[leafIndex / 8 := byte]> (m_modifiedBytes f)) (m_mmap f) true.

Definition BitmapFile_Unset (leafIndex : Z) (f : BitmapFile) : BitmapFile :=
  let byte := Z.land (BitmapFile_GetByte (leafIndex / 8) f) (Z.lxor 0xff (BitToByte (leafIndex mod 8))) in
  mkBitmapFile (<[leafIndex / 8 := byte]> (m_modifiedBytes f)) (m_mmap f) true.

(** [operator[]] returns a reference to one of two static constants, both of
    which the class initialises to [false]. *)
Definition s_true : bool := false.
Definition s_false : bool := false.
Definition BitmapFile_at (leafIndex : Z) (f : BitmapFile) : bool :=
  if BitmapFile_IsSet leafIndex f then s_true else s_false.

(** The largest key of the ordered map of modified bytes. *)
Definition max_key (m : gmap Z Z) : Z := map_fold (fun k _ acc => Z.max k acc) 0 m.

Definition BitmapFile_GetNumBytes (f : BitmapFile) : Z :=
  let size := if decide (m_modifiedBytes f = ∅) then 0 else max_key (m_modifiedBytes f) + 1 in
  if decide (m_mmap f = []) then size else Z.max size (length (m_mmap f) + 1).

Definition BitmapFile_Rewind (numLeaves : Z) (leavesToAdd : list Z) (f : BitmapFile) : BitmapFile :=
  let f := foldl (fun f leafIndex => BitmapFile_Set leafIndex f) f leavesToAdd in
  let currentSize := BitmapFile_GetNumBytes f * 8 in
  foldl (fun f i => BitmapFile_Unset i f) f (seqZ numLeaves (currentSize - numLeaves)).

(** [seekp(i)] and a write of one byte: a gap after the end is filled with zeros. *)
Definition write_at (i b : Z) (d : bytes) : bytes :=
  <[Z.to_nat i := b]> (d ++ repeat 0 (S (Z.to_nat i) - length d)).

Definition BitmapFile_Commit (f : BitmapFile) : BitmapFile :=
  if decide (m_modifiedBytes f = ∅) then f
  else mkBitmapFile ∅ (map_fold write_at (m_mmap f) (m_modifiedBytes f)) false.

Definition BitmapFile_Rollback (f : BitmapFile) : BitmapFile := mkBitmapFile ∅ (m_mmap f) false.

(** [Set] and [Unset] of the leaves among the one-based positions of a bitmap. *)
Definition BitmapFile_SetRoaring `{Roaring R} (positionsToSet : R) (f : BitmapFile) : BitmapFile :=
  foldl (fun f v =>
    let mmr_idx := Index_At (u32 (v - 1)) in
    if Index_IsLeaf mmr_idx then BitmapFile_Set (Index_GetLeafIndex mmr_idx) f else f)
    f (Roaring_elems positionsToSet).

Definition BitmapFile_UnsetRoaring `{Roaring R} (positionsToUnset : R) (f : BitmapFile) : BitmapFile :=
  foldl (fun f v =>
    let mmr_idx := Index_At (u32 (v - 1)) in
    if Index_IsLeaf mmr_idx then BitmapFile_Unset (Index_GetLeafIndex mmr_idx) f else f)
    f (Roaring_elems positionsToUnset).

Definition BitmapFile_ToRoaring `{Roaring R} (f : BitmapFile) : R :=
  let numBytes := BitmapFile_GetNumBytes f in
  foldl (fun bitmap i =>
    let byte := BitmapFile_GetByte i f in
    foldl (fun bitmap j =>
      if Z.land byte (BitToByte j) >? 0
      then Roaring_add (u32 (LeafIndex_GetPosition (LeafIndex_At (u32 (i * 8 + j))) + 1)) bitmap
      else bitmap) bitmap (seqZ 0 8))
    Roaring_empty (seqZ 0 (u32 numBytes)).

(** [ConvertToLeaves]: a version-0 file has one bit per MMR position; it is
    rewritten with one bit per leaf. *)
Fixpoint ConvertToLeaves_loop (n : nat) (data : bytes) (leaf_idx : LeafIndex) (converted : bytes) : result bytes :=
  match n with
  | O => mret converted
  | S n =>
      let pos := LeafIndex_GetPosition leaf_idx in
      let leaf := m_leafIndex leaf_idx in
      d ← of_option UB (data !! Z.to_nat (pos / 8));
      if negb (Z.land d (BitToByte (pos mod 8)) =? 0) then
        c ← of_option UB (converted !! Z.to_nat (leaf / 8));
        ConvertToLeaves_loop n data (LeafIndex_Next leaf_idx)
          (<[Z.to_nat (leaf / 8) := Z.lor c (BitToByte (leaf mod 8))]> converted)
      else ConvertToLeaves_loop n data (LeafIndex_Next leaf_idx) converted
  end.

Definition ConvertToLeaves (data : bytes) : result bytes :=
  let numLeaves := Index_GetLeafIndex (Index_At (length data * 8)%u64) in
  ConvertToLeaves_loop (Z.to_nat numLeaves) data (LeafIndex_At 0) (repeat 0 (Z.to_nat (numLeaves / 8 + 1))).

(** [Load]: [version1] tells whether the marker file exists; it does afterwards. *)
Definition BitmapFile_Load (version1 : bool) (disk : bytes) : result BitmapFile :=
  if 0 <? length disk then
    disk ← (if version1 then mret disk else ConvertToLeaves disk);
    mret (mkBitmapFile ∅ disk false)
  else mret (mkBitmapFile ∅ [] false).

Definition BitmapFile_Create `{Roaring R} (version1 : bool) (disk : bytes) (bitmap : R) : result BitmapFile :=
  f ← BitmapFile_Load version1 disk;
  mret (BitmapFile_Commit (BitmapFile_SetRoaring bitmap f)).

(** ** Bits *)

Lemma BitToByte_pow j : 0 <= j < 8 -> BitToByte j = 2 ^ (7 - j).
Proof.
  intros Hj. unfold BitToByte. rewrite shiftl_1 by lia. apply uint_small. unfold is_uint.
  split; [apply Z.pow_nonneg; lia|]. apply Z.pow_lt_mono_r; lia.
Qed.

Lemma testbit_BitToByte j k : 0 <= j < 8 -> 0 <= k < 8 -> Z.testbit (BitToByte j) (7 - k) = (j =? k).
Proof.
  intros Hj Hk. rewrite BitToByte_pow by done. rewrite Z.pow2_bits_eqb by lia.
  zcases; lia || done.
Qed.

Lemma land_BitToByte b j : 0 <= j < 8 -> negb (Z.land b (BitToByte j) =? 0) = Z.testbit b (7 - j).
Proof.
  intros Hj. destruct (Z.testbit b (7 - j)) eqn:E.
  - apply negb_true_iff, Z.eqb_neq. intros H0. apply (f_equal (fun x => Z.testbit x (7 - j))) in H0.
    rewrite Z.land_spec, Z.bits_0, E, testbit_BitToByte, Z.eqb_refl in H0 by done. done.
  - apply negb_false_iff, Z.eqb_eq. apply Z.bits_inj_iff'. intros i Hi.
    rewrite Z.land_spec, Z.bits_0, BitToByte_pow, Z.pow2_bits_eqb by lia.
    destruct (Z.eqb_spec (7 - j) i) as [<-|]; [by rewrite E|apply andb_false_r].
Qed.

Lemma IsSet_testbit i f :
  0 <= i -> BitmapFile_IsSet i f = Z.testbit (BitmapFile_GetByte (i / 8) f) (7 - i mod 8).
Proof. intros Hi. unfold BitmapFile_IsSet. apply land_BitToByte, Z.mod_pos_bound. lia. Qed.

Lemma GetByte_insert k b m d c i :
  BitmapFile_GetByte i (mkBitmapFile (<[k := b]> m) d c) =
    if decide (i = k) then b else BitmapFile_GetByte i (mkBitmapFile m d c).
Proof.
  unfold BitmapFile_GetByte. cbn [m_modifiedBytes m_mmap]. case_decide as E.
  - subst. by rewrite lookup_insert_eq.
  - by rewrite lookup_insert_ne.
Qed.

Lemma div_mod_eqb i j : 0 <= i -> 0 <= j -> j / 8 = i / 8 -> (i mod 8 =? j mod 8) = (i =? j).
Proof.
  intros Hi Hj E. pose proof (Z.div_mod i 8 ltac:(lia)). pose proof (Z.div_mod j 8 ltac:(lia)).
  zcases; lia || done.
Qed.

Lemma IsSet_Set i j f : 0 <= i -> 0 <= j ->
  BitmapFile_IsSet j (BitmapFile_Set i f) = (i =? j) || BitmapFile_IsSet j f.
Proof.
  intros Hi Hj. rewrite !IsSet_testbit by done. unfold BitmapFile_Set. rewrite GetByte_insert.
  case_decide as E.
  - rewrite Z.lor_spec, testbit_BitToByte, div_mod_eqb by (done || apply Z.mod_pos_bound; lia).
    rewrite E. apply orb_comm.
  - destruct (Z.eqb_spec i j) as [->|]; [done|]. by destruct f.
Qed.

Lemma IsSet_Unset i j f : 0 <= i -> 0 <= j ->
  BitmapFile_IsSet j (BitmapFile_Unset i f) = negb (i =? j) && BitmapFile_IsSet j f.
Proof.
  intros Hi Hj. rewrite !IsSet_testbit by done. unfold BitmapFile_Unset. rewrite GetByte_insert.
  case_decide as E.
  - pose proof (Z.mod_pos_bound j 8 ltac:(lia)).
    rewrite Z.land_spec, Z.lxor_spec, testbit_BitToByte, div_mod_eqb by (done || apply Z.mod_pos_bound; lia).
    change 255 with (Z.ones 8). rewrite Z.ones_spec_low by lia. rewrite E, andb_comm.
    by destruct (i =? j).
  - destruct (Z.eqb_spec i j) as [->|]; [done|]. by destruct f.
Qed.

(** ** Commit *)

Definition byte_at (d : bytes) (i : Z) : Z := default 0 (d !! Z.to_nat i).

Lemma byte_at_write i b d j :
  0 <= i -> 0 <= j -> byte_at (write_at i b d) j = if decide (j = i) then b else byte_at d j.
Proof.
  intros Hi Hj. unfold byte_at, write_at.
  case_decide as E.
  - subst. rewrite list_lookup_insert_eq; [done|]. rewrite length_app, repeat_length. lia.
  - rewrite list_lookup_insert_ne by lia.
    destruct (decide (Z.to_nat j < length d)%nat); [by rewrite lookup_app_l|].
    rewrite lookup_app_r by lia. rewrite (lookup_ge_None_2 d) by lia.
    destruct (repeat 0 _ !! _) eqn:E2; [|done]. apply list_elem_of_lookup_2 in E2.
    apply list_elem_of_In, repeat_spec in E2. done.
Qed.

Definition keys_ok (m : gmap Z Z) : Prop := map_Forall (fun k _ => 0 <= k) m.

Lemma keys_ok_Set i f : 0 <= i -> keys_ok (m_modifiedBytes f) -> keys_ok (m_modifiedBytes (BitmapFile_Set i f)).
Proof.
  intros Hi Hk. apply map_Forall_insert_2; [|done]. apply Z.div_pos; lia.
Qed.

Lemma byte_at_fold m d j :
  keys_ok m -> 0 <= j -> byte_at (map_fold write_at d m) j = default (byte_at d j) (m !! j).
Proof.
  intros Hm Hj. revert Hm. apply (map_fold_weak_ind (fun r (m : gmap Z Z) =>
    keys_ok m -> byte_at r j = default (byte_at d j) (m !! j))).
  - intros _. by rewrite lookup_empty.
  - intros i b m' r Hi IH Hm. apply map_Forall_insert in Hm as [Hi0 Hm]; [|done].
    rewrite byte_at_write by done. case_decide as E.
    + subst. by rewrite lookup_insert_eq.
    + rewrite lookup_insert_ne by done. by apply IH.
Qed.

Lemma GetByte_byte_at j f : 0 <= j ->
  BitmapFile_GetByte j f = default (byte_at (m_mmap f) j) (m_modifiedBytes f !! j).
Proof.
  intros Hj. unfold BitmapFile_GetByte, byte_at. destruct (m_modifiedBytes f !! j); [done|].
  destruct (Z.ltb_spec j (length (m_mmap f))); [done|]. by rewrite lookup_ge_None_2 by lia.
Qed.

Lemma GetByte_Commit j f :
  keys_ok (m_modifiedBytes f) -> 0 <= j ->
  BitmapFile_GetByte j (BitmapFile_Commit f) = BitmapFile_GetByte j f /\
  m_modifiedBytes (BitmapFile_Commit f) = ∅.
Proof.
  intros Hk Hj. rewrite !GetByte_byte_at by done. unfold BitmapFile_Commit.
  case_decide as E; [done|]. cbn [m_modifiedBytes m_mmap]. rewrite lookup_empty. simpl.
  split; [|done]. by apply byte_at_fold.
Qed.

(** ** The size, and rewinding *)

Lemma max_key_ge m k b : m !! k = Some b -> k <= max_key m.
Proof.
  unfold max_key. apply (map_fold_weak_ind (fun r (m : gmap Z Z) => m !! k = Some b -> k <= r)).
  - by rewrite lookup_empty.
  - intros i c m' r Hi IH Hl. destruct (decide (i = k)) as [->|].
    + lia.
    + rewrite lookup_insert_ne in Hl by done. specialize (IH Hl). lia.
Qed.

Lemma GetByte_beyond j f : 0 <= j -> BitmapFile_GetNumBytes f <= j -> BitmapFile_GetByte j f = 0.
Proof.
  intros Hj Hn. rewrite GetByte_byte_at by done. unfold BitmapFile_GetNumBytes in Hn.
  assert (m_modifiedBytes f !! j = None) as ->.
  { destruct (m_modifiedBytes f !! j) eqn:E; [|done]. apply max_key_ge in E as Hle.
    destruct (decide (m_modifiedBytes f = ∅)) as [E0|_]; [by rewrite E0, lookup_empty in E|].
    destruct (decide (m_mmap f = [])); lia. }
  simpl. unfold byte_at. destruct (decide (m_mmap f = [])) as [->|]; [done|].
  rewrite lookup_ge_None_2; [done|].
  destruct (decide (m_modifiedBytes f = ∅)); lia.
Qed.

Lemma IsSet_Sets l j f : Forall (fun i => 0 <= i) l -> 0 <= j ->
  BitmapFile_IsSet j (foldl (fun f i => BitmapFile_Set i f) f l) = bool_decide (j ∈ l) || BitmapFile_IsSet j f.
Proof.
  intros Hl Hj. revert f. induction Hl as [|i l Hi Hl IH]; intros f; [done|]. cbn [foldl].
  rewrite IH, IsSet_Set by done. rewrite orb_assoc. f_equal.
  destruct (Z.eqb_spec i j) as [->|].
  - rewrite orb_true_r. symmetry. apply bool_decide_eq_true. left.
  - rewrite orb_false_r. apply bool_decide_ext. rewrite elem_of_cons. split; [by right|]. by intros [->|].
Qed.

Lemma IsSet_Unsets l j f : Forall (fun i => 0 <= i) l -> 0 <= j ->
  BitmapFile_IsSet j (foldl (fun f i => BitmapFile_Unset i f) f l) = negb (bool_decide (j ∈ l)) && BitmapFile_IsSet j f.
Proof.
  intros Hl Hj. revert f. induction Hl as [|i l Hi Hl IH]; intros f; [done|]. cbn [foldl].
  rewrite IH, IsSet_Unset by done. rewrite andb_assoc. f_equal. rewrite <- negb_orb. f_equal.
  destruct (Z.eqb_spec i j) as [->|].
  - rewrite orb_true_r. symmetry. apply bool_decide_eq_true. left.
  - rewrite orb_false_r. apply bool_decide_ext. rewrite elem_of_cons. split; [by right|]. by intros [->|].
Qed.

Lemma IsSet_Rewind n adds f j :
  0 <= n -> Forall (fun i => 0 <= i) adds -> 0 <= j ->
  BitmapFile_IsSet j (BitmapFile_Rewind n adds f) = (j <? n) && (bool_decide (j ∈ adds) || BitmapFile_IsSet j f).
Proof.
  intros Hn Ha Hj. unfold BitmapFile_Rewind. rewrite <- IsSet_Sets by done.
  set (f1 := foldl _ f adds). rewrite IsSet_Unsets by (try apply Forall_forall; try done; intros i Hi%elem_of_seqZ; lia).
  destruct (Z.ltb_spec j n).
  - rewrite bool_decide_eq_false_2; [done|]. rewrite elem_of_seqZ. lia.
  - destruct (decide (BitmapFile_GetNumBytes f1 <= j / 8)).
    + rewrite IsSet_testbit, GetByte_beyond, Z.bits_0, andb_false_r by (done || apply Z.div_pos; lia). done.
    + rewrite bool_decide_eq_true_2; [done|]. rewrite elem_of_seqZ.
      pose proof (Z.div_mod j 8 ltac:(lia)). pose proof (Z.mod_pos_bound j 8 ltac:(lia)). lia.
Qed.

(** The bytes on disk change by [Commit] only, and the modified bytes stay valid. *)
Lemma Sets_fields l f : Forall (fun i => 0 <= i) l -> keys_ok (m_modifiedBytes f) ->
  m_mmap (foldl (fun f i => BitmapFile_Set i f) f l) = m_mmap f /\
  keys_ok (m_modifiedBytes (foldl (fun f i => BitmapFile_Set i f) f l)).
Proof.
  intros Hl. revert f. induction Hl as [|i l Hi Hl IH]; intros f Hf; [done|]. cbn [foldl].
  by destruct (IH (BitmapFile_Set i f) (keys_ok_Set i f Hi Hf)) as [-> ?].
Qed.

Lemma keys_ok_Unset i f : 0 <= i -> keys_ok (m_modifiedBytes f) -> keys_ok (m_modifiedBytes (BitmapFile_Unset i f)).
Proof. intros Hi Hk. apply map_Forall_insert_2; [|done]. apply Z.div_pos; lia. Qed.

Lemma Unsets_fields l f : Forall (fun i => 0 <= i) l -> keys_ok (m_modifiedBytes f) ->
  m_mmap (foldl (fun f i => BitmapFile_Unset i f) f l) = m_mmap f /\
  keys_ok (m_modifiedBytes (foldl (fun f i => BitmapFile_Unset i f) f l)).
Proof.
  intros Hl. revert f. induction Hl as [|i l Hi Hl IH]; intros f Hf; [done|]. cbn [foldl].
  by destruct (IH (BitmapFile_Unset i f) (keys_ok_Unset i f Hi Hf)) as [-> ?].
Qed.

Lemma Rewind_fields n adds f :
  0 <= n -> Forall (fun i => 0 <= i) adds -> keys_ok (m_modifiedBytes f) ->
  m_mmap (BitmapFile_Rewind n adds f) = m_mmap f /\ keys_ok (m_modifiedBytes (BitmapFile_Rewind n adds f)).
Proof.
  intros Hn Ha Hk. unfold BitmapFile_Rewind. destruct (Sets_fields adds f Ha Hk) as [<- Hk'].
  apply Unsets_fields; [|done]. apply Forall_forall. intros i Hi%elem_of_seqZ. lia.
Qed.

(** Committed bits survive a rollback. *)
Lemma Commit_bits f j : keys_ok (m_modifiedBytes f) -> 0 <= j ->
  BitmapFile_IsSet j (BitmapFile_Commit f) = BitmapFile_IsSet j f /\
  BitmapFile_IsSet j (BitmapFile_Rollback (BitmapFile_Commit f)) = BitmapFile_IsSet j f.
Proof.
  intros Hk Hj. assert (0 <= j / 8) as Hj8 by (apply Z.div_pos; lia).
  destruct (GetByte_Commit (j / 8) f Hk Hj8) as [E1 E2].
  rewrite !IsSet_testbit, <- E1 by done. split; [done|].
  f_equal. rewrite !GetByte_byte_at by done. by rewrite E2.
Qed.

Lemma Commit_keys f : keys_ok (m_modifiedBytes (BitmapFile_Commit f)) \/ BitmapFile_Commit f = f.
Proof. unfold BitmapFile_Commit. case_decide; [by right|left]. cbn [m_modifiedBytes]. apply map_Forall_empty. Qed.

(** ** Conversion to Roaring *)

Section to_roaring.
Context {R : Type} {HR : Roaring R} {HL : RoaringLaws R}.

Lemma elem_of_adds (l : list Z) (c : Z -> bool) (g : Z -> Z) (r : R) k :
  Forall (fun x => is_uint 32 (g x)) l ->
  k ∈ Roaring_elems (foldl (fun r x => if c x then Roaring_add (g x) r else r) r l) <->
  (exists x, x ∈ l /\ c x = true /\ k = g x) \/ k ∈ Roaring_elems r.
Proof.
  intros Hl. revert r. induction Hl as [|x l Hx Hl IH]; intros r; cbn [foldl].
  - split; [by right|]. intros [(x & Hin & _)|]; [by apply elem_of_nil in Hin|done].
  - rewrite IH. setoid_rewrite elem_of_cons. destruct (c x) eqn:E.
    + rewrite roaring_add by done. split.
      * intros [(y & ? & ? & ?)|[->|?]]; [left; eauto|left; eauto|by right].
      * intros [(y & [->|?] & ? & ?)|?]; [right; by left|left; eauto|right; by right].
    + split.
      * intros [(y & ? & ? & ?)|?]; [left; eauto|by right].
      * intros [(y & [->|?] & ? & ?)|?]; [congruence|left; eauto|by right].
Qed.

Lemma leaf_wire_range j : 0 <= j < 2 ^ 30 ->
  u32 (LeafIndex_GetPosition (LeafIndex_At (u32 j)) + 1) = mmr_size j + 1 /\ is_uint 32 (mmr_size j + 1).
Proof.
  intros Hj. rewrite (u32_id j) by lia. pose proof (mmr_size_ge j ltac:(lia)).
  assert (mmr_size j <= 2 * j) by (unfold mmr_size; pose proof (pop_nonneg j); lia).
  rewrite LeafIndex_At_pos by (lia || unfold pos_ok; lia).
  unfold LeafIndex_GetPosition. cbn [m_nodeIndex m_position]. rewrite u32_id by lia. split; [done|uint_solve].
Qed.

Lemma land_gtb b j : 0 <= j < 8 -> (Z.land b (BitToByte j) >? 0) = Z.testbit b (7 - j).
Proof.
  intros Hj. rewrite <- land_BitToByte by done.
  assert (0 <= Z.land b (BitToByte j)).
  { apply Z.land_nonneg. right. rewrite BitToByte_pow by done. apply Z.pow_nonneg. lia. }
  rewrite Z.gtb_ltb. zcases; lia || done.
Qed.

(** The bits of the bytes [is], as one-based leaf positions. *)
Lemma elem_of_bytes_loop f (is_ : list Z) (r : R) k :
  Forall (fun i => 0 <= i < 2 ^ 27) is_ ->
  k ∈ Roaring_elems (foldl (fun bitmap i =>
    foldl (fun bitmap j =>
      if Z.land (BitmapFile_GetByte i f) (BitToByte j) >? 0
      then Roaring_add (u32 (LeafIndex_GetPosition (LeafIndex_At (u32 (i * 8 + j))) + 1)) bitmap
      else bitmap) bitmap (seqZ 0 8)) r is_) <->
  (exists l, 0 <= l /\ l / 8 ∈ is_ /\ BitmapFile_IsSet l f = true /\ k = mmr_size l + 1) \/
  k ∈ Roaring_elems r.
Proof.
  intros His. revert r. induction His as [|i l Hi Hl IH]; intros r; cbn [foldl].
  - split; [by right|]. intros [(x & _ & Hin & _)|]; [by apply elem_of_nil in Hin|done].
  - setoid_rewrite elem_of_cons. rewrite IH, elem_of_adds.
    2: { apply Forall_forall. intros j Hj%elem_of_seqZ. apply uint_range. lia. }
    split.
    + intros [(x & ? & ? & ? & ?)|[(j & Hj & Hc & ->)|?]]; [left; eauto 10| |by right].
      apply elem_of_seqZ in Hj. left. exists (i * 8 + j).
      assert ((i * 8 + j) / 8 = i) as E by (rewrite Z.add_comm, Z.div_add, Z.div_small; lia).
      assert ((i * 8 + j) mod 8 = j) as E' by (rewrite Z.add_comm, Z.mod_add, Z.mod_small; lia).
      rewrite land_gtb in Hc by lia.
      split; [lia|]. split; [by left|]. rewrite IsSet_testbit, E, E' by lia. split; [done|].
      apply leaf_wire_range. lia.
    + intros [(x & Hx & [<-|Hin] & Hs & ->)|?]; [|left; eauto 10|by right; right].
      right. left. pose proof (Z.mod_pos_bound x 8 ltac:(lia)). pose proof (Z.div_mod x 8 ltac:(lia)).
      exists (x mod 8). split; [apply elem_of_seqZ; lia|].
      rewrite land_gtb, <- IsSet_testbit by lia. split; [done|].
      replace (x / 8 * 8 + x mod 8) with x by lia. symmetry. apply leaf_wire_range. lia.
Qed.

Lemma ToRoaring_elems f k :
  BitmapFile_GetNumBytes f < 2 ^ 27 ->
  k ∈ Roaring_elems (BitmapFile_ToRoaring f : R) <->
  exists l, 0 <= l /\ BitmapFile_IsSet l f = true /\ k = mmr_size l + 1.
Proof.
  intros Hn. assert (0 <= BitmapFile_GetNumBytes f) as H0.
  { unfold BitmapFile_GetNumBytes. repeat case_decide; try lia.
    - destruct (map_choose (m_modifiedBytes f)) as (i & b & E); [done|].
      assert (0 <= max_key (m_modifiedBytes f)); [|lia]. unfold max_key.
      apply (map_fold_weak_ind (fun r (m : gmap Z Z) => 0 <= r)); lia. }
  unfold BitmapFile_ToRoaring. rewrite u32_id by lia.
  rewrite elem_of_bytes_loop by (apply Forall_forall; intros i Hi%elem_of_seqZ; lia).
  rewrite roaring_empty, elem_of_nil. split.
  - intros [(l & ? & _ & ? & ?)|[]]. eauto.
  - intros (l & Hl & Hs & ->). left. exists l. split; [done|]. split; [|done]. apply elem_of_seqZ.
    assert (0 <= l / 8) by (apply Z.div_pos; lia). split; [done|]. simpl.
    apply Z.nle_gt. intros Hle. rewrite IsSet_testbit, GetByte_beyond, Z.bits_0 in Hs by (done || lia). done.
Qed.

(** [operator[]] answers [false] whatever the bit. *)
Lemma BitmapFile_at_false i f : BitmapFile_at i f = false.
Proof. unfold BitmapFile_at. by destruct (BitmapFile_IsSet i f). Qed.

(** ** Properties *)

(** the bits of the file behave as a set of leaves: [Set] adds one leaf,
    [Unset] removes one, [Rewind] restores the given leaves and drops every leaf
    from [numLeaves] on, [Commit] keeps the set and makes it the contents of the
    disk, which [Rollback] returns to. *)
Theorem BitmapFile_bits f i j n adds :
  0 <= i -> 0 <= j -> 0 <= n -> Forall (fun l => 0 <= l) adds -> keys_ok (m_modifiedBytes f) ->
  BitmapFile_IsSet j (BitmapFile_Set i f) = (i =? j) || BitmapFile_IsSet j f /\
  BitmapFile_IsSet j (BitmapFile_Unset i f) = negb (i =? j) && BitmapFile_IsSet j f /\
  BitmapFile_IsSet j (BitmapFile_Rewind n adds f) =
    (j <? n) && (bool_decide (j ∈ adds) || BitmapFile_IsSet j f) /\
  BitmapFile_IsSet j (BitmapFile_Commit f) = BitmapFile_IsSet j f /\
  BitmapFile_IsSet j (BitmapFile_Rollback (BitmapFile_Set i (BitmapFile_Commit f))) = BitmapFile_IsSet j f.
Proof.
  intros Hi Hj Hn Ha Hk. split; [by apply IsSet_Set|]. split; [by apply IsSet_Unset|].
  split; [by apply IsSet_Rewind|].
  assert (0 <= j / 8) as Hj8 by (apply Z.div_pos; lia).
  destruct (GetByte_Commit (j / 8) f Hk Hj8) as [E1 E2].
  rewrite !IsSet_testbit, E1 by done. split; [done|]. rewrite <- E1. f_equal.
  rewrite !GetByte_byte_at by done. rewrite E2.
  cbn [BitmapFile_Rollback m_modifiedBytes m_mmap BitmapFile_Set]. done.
Qed.

(** [ToRoaring] holds the one-based MMR positions of exactly the leaves
    whose bit is set. *)
Theorem BitmapFile_ToRoaring_leaves f k :
  BitmapFile_GetNumBytes f < 2 ^ 27 -> is_uint 32 k ->
  Roaring_contains k (BitmapFile_ToRoaring f : R) = true <->
  exists l, 0 <= l /\ BitmapFile_IsSet l f = true /\ k = LeafIndex_GetPosition (LeafIndex_At l) + 1.
Proof.
  intros Hn Hk. rewrite roaring_contains, bool_decide_eq_true, ToRoaring_elems by done.
  assert (forall l, 0 <= l -> BitmapFile_IsSet l f = true ->
    mmr_size l = LeafIndex_GetPosition (LeafIndex_At l)) as Hpos.
  { intros l Hl Hs.
    assert (l / 8 < 2 ^ 27).
    { apply Z.nle_gt. intros Hle. rewrite IsSet_testbit, GetByte_beyond, Z.bits_0 in Hs by (done || lia). done. }
    pose proof (Z.div_mod l 8 ltac:(lia)). pose proof (Z.mod_pos_bound l 8 ltac:(lia)).
    pose proof (mmr_size_ge l Hl). pose proof (pop_nonneg l). unfold mmr_size in *.
    rewrite LeafIndex_At_pos by (lia || unfold pos_ok, mmr_size; lia). done. }
  split; intros (l & Hl & Hs & ->); exists l; (split; [done|]; split; [done|]); by rewrite Hpos.
Qed.

End to_roaring.

Definition example_bits : BitmapFile := BitmapFile_Set 10 (BitmapFile_Set 3 (mkBitmapFile ∅ [128] false)).

Lemma BitmapFile_bits_witness :
  BitmapFile_IsSet 3 (BitmapFile_Rewind 10 [7] example_bits) = true /\
  BitmapFile_IsSet 10 (BitmapFile_Rewind 10 [7] example_bits) = false /\
  BitmapFile_at 3 example_bits = false.
Proof.
  split; [|split; [|vm_compute; reflexivity]].
  - destruct (BitmapFile_bits example_bits 0 3 10 [7]) as (_ & _ & E & _);
      [lia|lia|lia|apply Forall_singleton; lia|do 2 (apply keys_ok_Set; [lia|]); apply map_Forall_empty|].
    rewrite E. vm_compute. reflexivity.
  - vm_compute. reflexivity.
Defined.

Lemma BitmapFile_ToRoaring_leaves_witness :
  Roaring_contains 19 (BitmapFile_ToRoaring example_bits : list Z) = true.
Proof.
  apply (BitmapFile_ToRoaring_leaves (R := list Z) example_bits 19).
  - vm_compute. reflexivity.
  - unfold is_uint. lia.
  - exists 10. split; [lia|]. split; vm_compute; reflexivity.
Defined.
