(* ===== verification/MMRHash.v ===== *)
(** * Hashes of an MMR ([src/PMMR/Common/MMRHashUtil.cpp], [HashFile.h])

    Leaf and parent hashes, appending a leaf with the parents it completes, and
    the root that bags the peaks.  The hash function [Blake2b] (a third-party
    library) is a parameter; files are used through the interface [HashFile].
    The abstract specification is the tree itself: [node_hash] defines the hash
    of every node from the leaves alone. *)
From S2P Require Import Prelude BitUtil MMRIndex MMRUtil Serial BigInteger File Roaring PruneList BitmapFile.

Abbreviation Hash := (list Z) (only parsing).

Definition ZERO_HASH : Hash := ZERO 32.

Section mmr_hash.
Context (Blake2b : bytes -> Hash).

Definition leaf_input (serializedLeaf : bytes) (mmrIndex : Z) : bytes :=
  s_bytes (AppendByteVector serializedLeaf LenNone (AppendU64 mmrIndex (Serializer_new V1))).

Definition HashLeafWithIndex (serializedLeaf : bytes) (mmrIndex : Z) : Hash :=
  Blake2b (leaf_input serializedLeaf mmrIndex).

Definition parent_input (leftChild rightChild : Hash) (parentIndex : Z) : bytes :=
  s_bytes (AppendBigInteger rightChild (AppendBigInteger leftChild
    (AppendU64 parentIndex (Serializer_new V1)))).

Definition HashParentWithIndex (leftChild rightChild : Hash) (parentIndex : Z) : Hash :=
  Blake2b (parent_input leftChild rightChild parentIndex).

Section files.
Context {R : Type} {HR : Roaring R} {F : Type} {HF : HashFile F}.

Definition GetHashAt (pHashFile : F) (mmr_idx : Index) (pPruneList : option (PruneList R)) : result Hash :=
  match pPruneList with
  | Some p =>
      if PruneList_IsCompacted mmr_idx p then Throw RuntimeError
      else hf_GetDataAt (m_position mmr_idx - PruneList_GetShift mmr_idx p)%u64 pHashFile
  | None => hf_GetDataAt (m_position mmr_idx) pHashFile
  end.

Definition GetShiftedIndex (mmr_idx : Index) (pPruneList : option (PruneList R)) : Z :=
  match pPruneList with
  | Some p => (m_position mmr_idx - PruneList_GetShift mmr_idx p)%u64
  | None => m_position mmr_idx
  end.

(** The loop over the parents that follow a leaf; the fuel bounds the height. *)
Fixpoint AddHashes_loop (fuel : nat) (mmr_idx : Index) (pPruneList : option (PruneList R)) : ST F unit :=
  match fuel with
  | O => st_throw OutOfFuel
  | S fuel =>
      if Index_IsLeaf mmr_idx then mret tt
      else
        pHashFile ← st_get;
        leftHash ← st_lift (GetHashAt pHashFile (Index_GetLeftChild mmr_idx) pPruneList);
        rightHash ← st_lift (GetHashAt pHashFile (Index_GetRightChild mmr_idx) pPruneList);
        let parentHash := HashParentWithIndex leftHash rightHash (m_position mmr_idx) in
        _ ← st_modify (hf_AddData parentHash);
        AddHashes_loop fuel (Index_GetNext mmr_idx) pPruneList
  end.

Definition AddHashes (serializedLeaf : bytes) (pPruneList : option (PruneList R)) : ST F unit :=
  pHashFile ← st_get;
  let position := match pPruneList with
    | Some p => (hf_GetSize pHashFile + PruneList_GetTotalShift p)%u64
    | None => hf_GetSize pHashFile
    end in
  let leafHash := HashLeafWithIndex serializedLeaf position in
  _ ← st_modify (hf_AddData leafHash);
  AddHashes_loop 64 (Index_At (position + 1)%u64) pPruneList.

(** The loop of [Root] over the peaks from right to left. *)
Fixpoint Root_loop (pHashFile : F) (size : Z) (pPruneList : option (PruneList R))
    (peaks : list Z) (hash : Hash) : result Hash :=
  match peaks with
  | [] => mret hash
  | pos :: peaks =>
      peakHash ← hf_GetDataAt (GetShiftedIndex (Index_At pos) pPruneList) pHashFile;
      Root_loop pHashFile size pPruneList peaks
        (if BigInteger_neq peakHash ZERO_HASH then
           if BigInteger_eq hash ZERO_HASH then peakHash
           else HashParentWithIndex peakHash hash size
         else hash)
  end.

Definition Root (pHashFile : F) (size : Z) (pPruneList : option (PruneList R)) : result Hash :=
  if size =? 0 then mret ZERO_HASH
  else Root_loop pHashFile size pPruneList (rev (GetPeakIndices size)) ZERO_HASH.

(** [n] bounds the iterations by the leaf number, which falls by one each. *)
Fixpoint GetLastLeafHashes_loop (n : nat) (pHashFile : F) (pLeafSet : option BitmapFile)
    (pPruneList : option (PruneList R)) (numHashes : Z) (leaf_idx : LeafIndex) (hashes : list Hash)
    : result (list Hash) :=
  match n with
  | O => mret hashes
  | S n =>
      if (m_leafIndex leaf_idx >? 0) && (length hashes <? numHashes) then
        let leaf_idx := LeafIndex_Prev leaf_idx in
        if match pLeafSet with None => true | Some s => BitmapFile_IsSet (m_leafIndex leaf_idx) s end then
          hash ← GetHashAt pHashFile (m_nodeIndex leaf_idx) pPruneList;
          GetLastLeafHashes_loop n pHashFile pLeafSet pPruneList numHashes leaf_idx (hashes ++ [hash])
        else GetLastLeafHashes_loop n pHashFile pLeafSet pPruneList numHashes leaf_idx hashes
      else mret hashes
  end.

Definition GetLastLeafHashes (pHashFile : F) (pLeafSet : option BitmapFile)
    (pPruneList : option (PruneList R)) (numHashes : Z) : result (list Hash) :=
  let nextPosition := match pPruneList with
    | Some p => (hf_GetSize pHashFile + PruneList_GetTotalShift p)%u64
    | None => hf_GetSize pHashFile
    end in
  let leaf_idx := LeafIndex_AtPos nextPosition in
  GetLastLeafHashes_loop (Z.to_nat (m_leafIndex leaf_idx)) pHashFile pLeafSet pPruneList numHashes leaf_idx [].

End files.

(** ** Specification: the hash tree of a list of leaves *)

Fixpoint node_hash (leaves : list bytes) (h : nat) (i : Z) : Hash :=
  match h with
  | O => HashLeafWithIndex (default [] (leaves !! Z.to_nat i)) (node_pos 0 i)
  | S h' => HashParentWithIndex (node_hash leaves h' (2 * i)) (node_hash leaves h' (2 * i + 1)) (node_pos h i)
  end.

(** The file holds, at every position of the MMR, the hash of that node. *)
Definition tree_hashes (leaves : list bytes) (l : list Hash) : Prop :=
  length l = mmr_size (length leaves) :> Z /\
  forall (h : nat) i, 0 <= i -> (i + 1) * 2 ^ h <= length leaves ->
    l !! Z.to_nat (node_pos h i) = Some (node_hash leaves h i).

(** The peaks bagged from right to left, every hash taken with the MMR size. *)
Fixpoint bag (size : Z) (peaks : list Hash) : Hash :=
  match peaks with
  | [] => ZERO_HASH
  | p :: peaks => if decide (peaks = []) then p else HashParentWithIndex p (bag size peaks) size
  end.

(** The peaks of [n] leaves, as hashes. *)
Fixpoint peak_hashes (leaves : list bytes) (k : nat) (n : Z) : list Hash :=
  match k with
  | O => []
  | S k => (if Z.testbit n k then [node_hash leaves k (2 * (n / 2 ^ (k + 1)))] else []) ++ peak_hashes leaves k n
  end.

Definition mmr_root (leaves : list bytes) : Hash :=
  bag (mmr_size (length leaves)) (peak_hashes leaves 64 (length leaves)).

(** *** The tree and its prefixes *)

(** The hash of a node depends only on the leaves below it. *)
Lemma node_hash_ext leaves leaves' (h : nat) i :
  0 <= i ->
  (forall j, i * 2 ^ h <= j < (i + 1) * 2 ^ h -> leaves !! Z.to_nat j = leaves' !! Z.to_nat j) ->
  node_hash leaves h i = node_hash leaves' h i.
Proof.
  revert i. induction h as [|h IH]; intros i Hi He; cbn [node_hash].
  - rewrite He; [done|]. change (2 ^ 0%nat) with 1. lia.
  - rewrite pow2_S in He. rewrite (IH (2 * i)), (IH (2 * i + 1)); [done|lia| |lia|];
      intros j Hj; apply He; lia.
Qed.

Lemma node_hash_prefix leaves more (h : nat) i :
  0 <= i -> (i + 1) * 2 ^ h <= length leaves ->
  node_hash (leaves ++ more) h i = node_hash leaves h i.
Proof.
  intros Hi Hin. apply node_hash_ext; [done|]. intros j Hj. pose proof (pow2_pos h ltac:(lia)).
  apply lookup_app_l. nia.
Qed.

Lemma tree_hashes_prefix leaves more l :
  length (leaves ++ more) < 2 ^ 62 ->
  tree_hashes (leaves ++ more) l ->
  tree_hashes leaves (take (Z.to_nat (mmr_size (length leaves))) l).
Proof.
  intros Hb [Hlen Hl]. rewrite length_app in *.
  pose proof (mmr_size_mono (length leaves) (length leaves + length more)%nat ltac:(lia)).
  pose proof (mmr_size_ge (length leaves) ltac:(lia)).
  split; [rewrite length_take; lia|]. intros h i Hi Hin. rewrite lookup_take_lt.
  - rewrite Hl by lia. by rewrite node_hash_prefix.
  - pose proof (proj2 (node_in_mmr h i (length leaves) ltac:(lia) Hi ltac:(lia)) Hin).
    pose proof (node_pos_nonneg h i ltac:(lia) Hi). lia.
Qed.

(** *** Appending a leaf *)

(** The first [m] positions of the file are nodes of the tree. *)
Definition tree_upto (leaves : list bytes) (m : Z) (l : list Hash) : Prop :=
  length l = m :> Z /\
  forall (h : nat) i, 0 <= i -> (i + 1) * 2 ^ h <= length leaves -> node_pos h i < m ->
    l !! Z.to_nat (node_pos h i) = Some (node_hash leaves h i).

Lemma tree_upto_all leaves l :
  length leaves < 2 ^ 62 ->
  tree_upto leaves (mmr_size (length leaves)) l <-> tree_hashes leaves l.
Proof.
  intros Hb. split; intros [Hlen Hl]; (split; [done|]); intros h i Hi Hin.
  - apply Hl; [done..|]. apply node_in_mmr; lia.
  - intros _. by apply Hl.
Qed.

Lemma tree_upto_snoc leaves m l (h : nat) i :
  0 <= i -> (i + 1) * 2 ^ h <= length leaves -> pos_ok m -> m = node_pos h i ->
  tree_upto leaves m l -> tree_upto leaves (m + 1) (l ++ [node_hash leaves h i]).
Proof.
  intros Hi Hin Hok -> [Hlen Hl]. split; [rewrite length_app; simpl; lia|].
  intros h' i' Hi' Hin' Hlt. pose proof (node_pos_nonneg h' i' ltac:(lia) Hi').
  destruct (decide (node_pos h' i' = node_pos h i)) as [E|Hne].
  - destruct (node_pos_inj h' i' h i) as [Eh ->]; [lia|lia|lia|lia|by rewrite E|done|].
    apply Nat2Z.inj in Eh as ->. rewrite lookup_app_r by lia.
    replace (Z.to_nat (node_pos h i) - length l)%nat with 0%nat by lia. done.
  - rewrite lookup_app_l by lia. apply Hl; lia.
Qed.

(** ** Files that leave out the compacted nodes *)

Section stored.
Context {R : Type} {HR : Roaring R} {HL : RoaringLaws R}.
Implicit Types (pl : option (PruneList R)).

(** The nodes whose hash is in the file: all of them when there is no prune list. *)
Definition stored_at pl : Z -> bool := match pl with None => fun _ => true | Some p => visible p end.
Definition stored pl (l : list Hash) : list Hash := select (stored_at pl) 0 l.

(** The list prunes an MMR of [n] leaves; positions fit the 32-bit bitmaps. *)
Definition pl_ok pl (n : Z) : Prop := match pl with None => True | Some p => prune_wf p n end.
Definition pl_room pl (m : Z) : Prop := match pl with None => True | Some _ => m + 1 < 2 ^ 32 end.

Lemma stored_none l : stored None l = l.
Proof. apply select_all. by intros. Qed.

Lemma stored_length pl l : (length (stored pl l) <= length l)%nat.
Proof.
  pose proof (select_length (stored_at pl) 0 l). pose proof (skipped_bound (stored_at pl) 0 (length l) ltac:(lia)).
  unfold stored. lia.
Qed.

Lemma stored_beyond pl n q : 0 <= n -> pl_ok pl n -> mmr_size n <= q -> stored_at pl q = true.
Proof. destruct pl as [p|]; [|done]. cbn [stored_at pl_ok]. by eauto using visible_beyond. Qed.

Lemma stored_snoc pl n l x :
  0 <= n -> pl_ok pl n -> mmr_size n <= length l -> stored pl (l ++ [x]) = stored pl l ++ [x].
Proof.
  intros Hn Hp Hl. unfold stored. rewrite select_app. f_equal. cbn [select].
  by rewrite (stored_beyond pl n) by (done || lia).
Qed.

(** A node whose parent is not in the pruned MMR is stored. *)
Lemma stored_of_parent pl n h i :
  0 <= h -> 0 <= i -> pl_ok pl n -> n < (i / 2 + 1) * 2 ^ (h + 1) -> stored_at pl (node_pos h i) = true.
Proof.
  intros Hh Hi Hp Hn. destruct pl as [p|]; [|done]. cbn [stored_at pl_ok] in *.
  destruct (visible p (node_pos h i)) eqn:E; [done|]. apply (hidden_parent p n) in E; [lia|done..].
Qed.

(** The shifted index of a stored node is its rank. *)
Lemma GetShiftedIndex_stored pl n m idx :
  pl_ok pl n -> pl_room pl m -> 0 <= m_position idx < m -> m < 2 ^ 58 -> stored_at pl (m_position idx) = true ->
  GetShiftedIndex idx pl = m_position idx - skipped (stored_at pl) 0 (m_position idx).
Proof.
  intros Hp Hr Hq Hm Hs. destruct pl as [p|]; cbn [stored_at pl_ok pl_room GetShiftedIndex] in *.
  - rewrite (GetShift_skipped p n) by (done || lia).
    pose proof (skipped_bound (visible p) 0 (m_position idx) ltac:(lia)). apply uint_small. uint_solve.
  - rewrite skipped_none by done. lia.
Qed.

Lemma stored_lookup pl l q :
  0 <= q < length l -> stored_at pl q = true ->
  stored pl l !! Z.to_nat (q - skipped (stored_at pl) 0 q) = l !! Z.to_nat q.
Proof.
  intros Hq Hs. pose proof (select_lookup (stored_at pl) 0 l q ltac:(lia) Hs) as H. by rewrite Z.sub_0_r in H.
Qed.

(** The size of the MMR from the size of the file. *)
Definition total_size (pl : option (PruneList R)) (size : Z) : Z :=
  match pl with Some p => (size + PruneList_GetTotalShift p)%u64 | None => size end.

Lemma total_size_ok pl n l :
  0 <= n -> pl_ok pl n -> mmr_size n <= length l -> pl_room pl (mmr_size n) -> length l < 2 ^ 62 ->
  total_size pl (length (stored pl l)) = length l.
Proof.
  intros Hn Hp Hl Hr Hb. unfold stored. rewrite select_length. destruct pl as [p|]; cbn [stored_at pl_ok pl_room total_size] in *.
  - rewrite (GetTotalShift_skipped p n (length l)) by (done || lia).
    pose proof (skipped_bound (visible p) 0 (length l) ltac:(lia)). rewrite uint_small by uint_solve. lia.
  - rewrite skipped_none by done. lia.
Qed.

End stored.

Section append.
Context {R : Type} {HR : Roaring R} {HL : RoaringLaws R} {F : Type} {HF : HashFile F} {HFL : HashFileLaws F}.
Context (pl : option (PruneList R)).
Hypothesis Blake2b_length : forall x, length (Blake2b x) = 32%nat.

Lemma node_hash_length leaves (h : nat) i : length (node_hash leaves h i) = 32%nat.
Proof. destruct h; apply Blake2b_length. Qed.

Lemma hf_get_stored n m l c (f : F) idx :
  hf_repr (stored pl l) c f -> pl_ok pl n -> pl_room pl m -> 0 <= m_position idx < m -> m <= length l -> m < 2 ^ 58 ->
  stored_at pl (m_position idx) = true ->
  hf_GetDataAt (GetShiftedIndex idx pl) f = of_option FileException (l !! Z.to_nat (m_position idx)).
Proof.
  intros Hf Hp Hr Hq Hl Hm Hs. rewrite (GetShiftedIndex_stored pl n m) by done.
  pose proof (skipped_bound (stored_at pl) 0 (m_position idx) ltac:(lia)).
  erewrite hf_get_ok by (done || lia). by rewrite stored_lookup by (done || lia).
Qed.

Lemma GetHashAt_stored n m l c (f : F) idx :
  hf_repr (stored pl l) c f -> pl_ok pl n -> pl_room pl m -> 0 <= m_position idx < m -> m <= length l -> m < 2 ^ 58 ->
  stored_at pl (m_position idx) = true ->
  GetHashAt f idx pl = of_option FileException (l !! Z.to_nat (m_position idx)).
Proof.
  intros Hf Hp Hr Hq Hl Hm Hs. rewrite <- (hf_get_stored n m l c f idx) by done.
  unfold GetHashAt, GetShiftedIndex. destruct pl as [p|]; [|done]. cbn [stored_at pl_ok pl_room] in *.
  rewrite (visible_IsCompacted p n) by (done || lia). by rewrite Hs.
Qed.

Lemma GetHashAt_tree n leaves m l c (f : F) (h : nat) i k :
  hf_repr (stored pl l) c f -> tree_upto leaves m l -> pl_ok pl n -> pl_room pl m ->
  0 <= i -> (i + 1) * 2 ^ h <= length leaves -> node_pos h i < m ->
  m < 2 ^ 58 -> stored_at pl (node_pos h i) = true ->
  GetHashAt f (mkIndex (node_pos h i) k) pl = Ok (node_hash leaves h i).
Proof.
  intros Hf [Hlen Hl] Hp Hr Hi Hin Hlt Hm Hs. pose proof (node_pos_nonneg h i ltac:(lia) Hi).
  rewrite (GetHashAt_stored n m l c) by (done || cbn [m_position]; lia). cbn [m_position]. by rewrite Hl.
Qed.

(** The loop adds the parents [h+1], [h+2], ... of the last leaf that are complete. *)
Lemma AddHashes_loop_ok n0 leaves (fuel : nat) (h : nat) j l c (f : F) :
  0 <= j -> (j + 1) * 2 ^ h = length leaves -> length leaves < 2 ^ 50 -> (60 <= fuel + h)%nat ->
  0 <= n0 < length leaves -> pl_ok pl n0 -> pl_room pl (mmr_size (length leaves)) ->
  hf_repr (stored pl l) c f -> tree_upto leaves (node_pos h j + 1) l ->
  mmr_size (length leaves) + length c < 2 ^ 57 ->
  exists l' f', AddHashes_loop fuel (Index_At (node_pos h j + 1)) pl f = (Ok tt, f') /\
    hf_repr (stored pl l') c f' /\ tree_hashes leaves l'.
Proof.
  intros Hj Hn Hb Hfuel Hn0 Hp Hr. revert h j l f Hj Hn Hfuel.
  induction fuel as [|fuel IH]; intros h j l f Hj Hn Hfuel Hf Hl Hroom.
  { assert (2 ^ 60 <= 2 ^ h) by (apply Z.pow_le_mono_r; lia). nia. }
  pose proof (pow2_pos h ltac:(lia)) as Hpow.
  assert (node_pos h j < mmr_size (length leaves)) as Hlt by (apply node_in_mmr; lia).
  pose proof (node_pos_nonneg h j ltac:(lia) Hj) as Hnn.
  assert (mmr_size n0 <= node_pos h j) as Hbase.
  { apply Z.nlt_ge. intros Hlt'. apply node_in_mmr in Hlt'; lia. }
  assert (mmr_size (length leaves) <= 2 * length leaves) by (unfold mmr_size; pose proof (pop_nonneg (length leaves)); lia).
  cbn [AddHashes_loop]. destruct (Z.odd j) eqn:Ej.
  - apply Z.odd_spec in Ej as [k ->].
    assert (node_pos (S h) k = node_pos h (2 * k + 1) + 1) as Epos.
    { rewrite <- node_pos_parent_right by lia. f_equal. lia. }
    assert ((k + 1) * 2 ^ S h = length leaves) as Hn' by (rewrite pow2_S; lia).
    pose proof (proj2 (node_in_mmr (S h) k (length leaves) ltac:(lia) ltac:(lia) ltac:(lia)) ltac:(lia)) as Hlt'.
    pose proof (node_pos_mono h (2 * k) (2 * k + 1) ltac:(lia) ltac:(lia)).
    pose proof (stored_of_parent pl n0 h (2 * k) ltac:(lia) ltac:(lia) Hp) as Hs0.
    pose proof (stored_of_parent pl n0 h (2 * k + 1) ltac:(lia) ltac:(lia) Hp) as Hs1.
    rewrite half_even in Hs0. rewrite half_odd in Hs1.
    replace (Z.of_nat h + 1) with (Z.of_nat (S h)) in Hs0, Hs1 by lia.
    specialize (Hs0 ltac:(lia)). specialize (Hs1 ltac:(lia)).
    rewrite <- Epos in *. rewrite Index_At_node by (lia || unfold pos_ok; lia).
    assert (Index_IsLeaf (mkIndex (node_pos (S h) k) (S h)) = false) as -> by (apply Z.eqb_neq; simpl; lia).
    replace (mkIndex (node_pos (S h) k) (S h)) with (mkIndex (node_pos (h + 1) k) (h + 1)) by (f_equal; f_equal; lia).
    assert (fam_ok (node_pos (h + 1) k)) as Hfam.
    { replace (h + 1) with (Z.of_nat (S h)) by lia. unfold fam_ok. lia. }
    rewrite Index_GetLeftChild_node, Index_GetRightChild_node by (lia || exact Hfam).
    unfold mbind, ST_bind, st_get, st_lift, st_modify.
    assert (pl_room pl (node_pos (S h) k)) as Hr' by (destruct pl; cbn [pl_room] in *; lia || done).
    erewrite !GetHashAt_tree by (eassumption || lia).
    cbn [m_position]. unfold Index_GetNext. cbn [m_position].
    replace (h + 1) with (Z.of_nat (S h)) by lia. rewrite uint_small by uint_solve.
    change (HashParentWithIndex (node_hash leaves h (2 * k)) (node_hash leaves h (2 * k + 1)) (node_pos (S h) k))
      with (node_hash leaves (S h) k).
    apply (IH (S h) k (l ++ [node_hash leaves (S h) k])); [lia|lia|lia| | |done].
    + destruct Hl as [Hlen _]. rewrite (stored_snoc pl n0) by (done || lia).
      pose proof (stored_length pl l).
      apply hf_add_ok; [done|apply node_hash_length|]. unfold hf_room. lia.
    + apply tree_upto_snoc; [lia|lia|unfold pos_ok; lia|done|done].
  - assert (Z.even j = true) as Ee by (by rewrite <- Z.negb_odd, Ej). apply Z.even_spec in Ee as [k ->].
    rewrite node_pos_next_left by lia. rewrite Hn.
    assert (node_pos h (2 * k) + 1 = mmr_size (length leaves)) as E.
    { rewrite node_pos_next_left, Hn by lia. apply node_pos_leaf. }
    rewrite Index_At_node by (lia || unfold pos_ok; rewrite node_pos_leaf; lia).
    exists l, f. split; [done|]. split; [done|]. rewrite E in Hl. by apply tree_upto_all; [lia|].
Qed.

(** The file of the tree with a leaf more, before its parents are added. *)
Lemma tree_upto_leaf leaves leaf l :
  length leaves + 1 < 2 ^ 50 -> tree_hashes leaves l ->
  tree_upto (leaves ++ [leaf]) (node_pos 0 (length leaves) + 1) (l ++ [node_hash (leaves ++ [leaf]) 0 (length leaves)]).
Proof.
  intros Hb Ht. pose proof Ht as [Hlen _].
  assert (length (leaves ++ [leaf]) = length leaves + 1 :> Z) as En by (rewrite length_app; simpl; lia).
  assert (mmr_size (length leaves) <= 2 * length leaves) by (unfold mmr_size; pose proof (pop_nonneg (length leaves)); lia).
  pose proof (mmr_size_ge (length leaves) ltac:(lia)).
  apply (tree_upto_snoc _ _ _ 0); [lia|change (2 ^ 0%nat) with 1; lia|change (Z.of_nat 0) with 0; rewrite node_pos_leaf; unfold pos_ok; lia|done|].
  change (Z.of_nat 0) with 0. split; [by rewrite node_pos_leaf|]. rewrite node_pos_leaf.
  intros h i Hi Hin Hlt. rewrite En in Hin. apply (node_in_mmr h i (length leaves)) in Hlt; [|lia..].
  rewrite node_hash_prefix by (done || lia). by apply Ht.
Qed.

Lemma AddHashes_stored leaves leaf l c (f : F) :
  length leaves + 1 < 2 ^ 50 -> hf_repr (stored pl l) c f -> tree_hashes leaves l ->
  pl_ok pl (length leaves) -> pl_room pl (mmr_size (length leaves + 1)) ->
  mmr_size (length leaves + 1) + length c < 2 ^ 57 ->
  exists l' f', AddHashes leaf pl f = (Ok tt, f') /\
    hf_repr (stored pl l') c f' /\ tree_hashes (leaves ++ [leaf]) l'.
Proof.
  intros Hb Hf Ht Hp Hr Hroom. set (n := length leaves) in *. pose proof Ht as [Hlen _]. fold n in Hlen.
  assert (length (leaves ++ [leaf]) = n + 1 :> Z) as En by (rewrite length_app; simpl; lia).
  assert (mmr_size n <= 2 * n) by (unfold mmr_size; pose proof (pop_nonneg n); lia).
  pose proof (mmr_size_ge n ltac:(lia)). pose proof (mmr_size_lt n (n + 1) ltac:(lia)).
  unfold AddHashes, mbind, ST_bind, st_get, st_modify. fold (total_size pl (hf_GetSize f)).
  erewrite hf_size_ok by done.
  rewrite (total_size_ok pl n l), Hlen by (try done; try lia; destruct pl; cbn [pl_room] in *; lia || done).
  rewrite (uint_small 64 (_ + 1)) by uint_solve.
  assert (HashLeafWithIndex leaf (mmr_size n) = node_hash (leaves ++ [leaf]) 0 n) as ->.
  { cbn [node_hash]. rewrite node_pos_leaf, Nat2Z.id, lookup_app_r, Nat.sub_diag by lia. done. }
  rewrite <- node_pos_leaf.
  apply (AddHashes_loop_ok n (leaves ++ [leaf]) 64 0 n (l ++ [node_hash (leaves ++ [leaf]) 0 n]));
    [lia| |lia|lia|lia|done|by rewrite En| | |by rewrite En].
  - change (2 ^ 0%nat) with 1. lia.
  - rewrite (stored_snoc pl n) by (done || lia). pose proof (stored_length pl l).
    apply hf_add_ok; [done|apply node_hash_length|]. unfold hf_room. lia.
  - by apply tree_upto_leaf.
Qed.

End append.

Lemma AddHashes_ok {R F : Type} {HR : Roaring R} {HL : RoaringLaws R} {HF : HashFile F} {HFL : HashFileLaws F} leaves leaf l c (f : F) :
  (forall x, length (Blake2b x) = 32%nat) ->
  length leaves + 1 < 2 ^ 50 -> hf_repr l c f -> tree_hashes leaves l ->
  mmr_size (length leaves + 1) + length c < 2 ^ 57 ->
  exists l' f', AddHashes leaf (None : option (PruneList R)) f = (Ok tt, f') /\
    hf_repr l' c f' /\ tree_hashes (leaves ++ [leaf]) l'.
Proof.
  intros HB Hb Hf Ht Hroom.
  destruct (AddHashes_stored (None : option (PruneList R)) HB leaves leaf l c f) as (l' & f' & E & Hf' & Ht');
    rewrite ?stored_none in *; try done.
  by exists l', f'.
Qed.

(** The file of the hash tree of any list of leaves: one list, that a file can hold. *)
Definition tree_file (leaves : list bytes) : DataFile :=
  foldl (fun f leaf => (AddHashes leaf (None : option (PruneList (list Z))) f).2) (DataFile_Load []) leaves.

Lemma tree_hashes_nil : tree_hashes [] [].
Proof.
  split; [done|]. intros h i Hi Hin. pose proof (pow2_pos h ltac:(lia)). simpl in Hin. nia.
Qed.

Lemma tree_file_ok leaves :
  (forall x, length (Blake2b x) = 32%nat) -> length leaves < 2 ^ 40 ->
  exists l, hf_repr l [] (tree_file leaves) /\ tree_hashes leaves l.
Proof.
  intros HB. induction leaves as [|leaf leaves IH] using rev_ind; intros Hb.
  - exists []. split; [|apply tree_hashes_nil].
    constructor; cbn; [by apply Load_ok|lia|by rewrite Load_working|done|by rewrite Load_working].
  - rewrite length_app in Hb. simpl in Hb. destruct IH as (l & Hf & Ht); [lia|].
    assert (mmr_size (length leaves + 1) <= 2 * (length leaves + 1)).
    { unfold mmr_size. pose proof (pop_nonneg (length leaves + 1)). lia. }
    destruct (AddHashes_ok (R := list Z) leaves leaf l [] _ HB ltac:(lia) Hf Ht)
      as (l' & f' & E & Hf' & Ht'); [simpl; lia|].
    exists l'. unfold tree_file. rewrite foldl_app. cbn [foldl]. fold (tree_file leaves). rewrite E. done.
Qed.

Lemma tree_hashes_unique leaves l l' :
  length leaves < 2 ^ 60 -> tree_hashes leaves l -> tree_hashes leaves l' -> l = l'.
Proof.
  intros Hb [Hl H] [Hl' H']. apply list_eq. intros q. destruct (decide (q < length l)%nat) as [Hq|Hq].
  - destruct (node_pos_surj q ltac:(lia)) as (h & i & Hh & Hi & E).
    assert ((i + 1) * 2 ^ h <= length leaves) as Hin by (apply node_in_mmr; lia).
    specialize (H (Z.to_nat h) i Hi). specialize (H' (Z.to_nat h) i Hi).
    rewrite Z2Nat.id in H, H' by done. rewrite <- E, Nat2Z.id in H, H'. by rewrite H, H'.
  - rewrite !lookup_ge_None_2 by lia. done.
Qed.

(** *** The root *)

(** A peak is a node of the tree. *)
Lemma peak_in_tree (k : nat) n : 0 <= n -> Z.testbit n k = true -> (2 * (n / 2 ^ (k + 1)) + 1) * 2 ^ k <= n.
Proof.
  intros Hn Hb. apply Z.testbit_true in Hb; [|lia]. pose proof (pow2_pos k ltac:(lia)).
  assert (n / 2 ^ k = 2 * (n / 2 ^ (k + 1)) + 1) as <-.
  { rewrite pow2_1, (Z.mul_comm 2 (2 ^ k)) by lia. rewrite <- Z.div_div by lia.
    pose proof (Z.div_mod (n / 2 ^ k) 2). lia. }
  rewrite Z.mul_comm. apply Z.mul_div_le. lia.
Qed.

Lemma peaks_lookup leaves l (k : nat) :
  tree_hashes leaves l ->
  Forall2 (fun pos x => l !! Z.to_nat pos = Some x) (peaks_from k (length leaves)) (peak_hashes leaves k (length leaves)).
Proof.
  intros [_ Hl]. induction k as [|k IH]; cbn [peaks_from peak_hashes]; [constructor|].
  apply Forall2_app; [|done]. destruct (Z.testbit (length leaves) k) eqn:E; [|constructor].
  constructor; [|constructor]. apply Hl.
  - pose proof (Z.div_pos (length leaves) (2 ^ (k + 1)) ltac:(lia) (pow2_pos (k + 1) ltac:(lia))). lia.
  - apply peak_in_tree; [lia|done].
Qed.

Section root.
Context {R : Type} {HR : Roaring R} {HL : RoaringLaws R} {F : Type} {HF : HashFile F} {HFL : HashFileLaws F}.
Context (pl : option (PruneList R)).
Hypothesis Blake2b_length : forall x, length (Blake2b x) = 32%nat.
Hypothesis Blake2b_nonzero : forall x, Blake2b x <> ZERO_HASH.

Lemma neq_zero x : length x = 32%nat -> BigInteger_neq x ZERO_HASH = negb (bool_decide (x = ZERO_HASH)).
Proof. intros Hx. unfold BigInteger_neq. by rewrite BigInteger_eq_spec. Qed.

Lemma node_hash_nonzero leaves (h : nat) i : node_hash leaves h i <> ZERO_HASH.
Proof. destruct h; apply Blake2b_nonzero. Qed.

Lemma bag_length size l : Forall (fun x => length x = 32%nat) l -> length (bag size l) = 32%nat.
Proof. induction 1 as [|x l Hx _ IH]; simpl; [done|]. case_decide; [done|apply Blake2b_length]. Qed.

Lemma bag_nonzero size l : Forall (fun x => x <> ZERO_HASH) l -> l <> [] -> bag size l <> ZERO_HASH.
Proof. intros Hl Hne. destruct Hl as [|x l Hx _]; [done|]. simpl. case_decide; [done|apply Blake2b_nonzero]. Qed.

Lemma Root_loop_app (f : F) size p ps ps' h :
  Root_loop f size (p : option (PruneList R)) (ps ++ ps') h =
  (h' ← Root_loop f size p ps h; Root_loop f size p ps' h').
Proof.
  revert h. induction ps as [|pos ps IH]; intros h; [done|]. cbn [app Root_loop].
  unfold mbind, result_bind in *. destruct (hf_GetDataAt _ f); [apply IH|done].
Qed.

Lemma Root_loop_bag (f : F) size ps hs :
  Forall2 (fun pos x => hf_GetDataAt (GetShiftedIndex (Index_At pos) pl) f = Ok x) ps hs ->
  Forall (fun x => length x = 32%nat /\ x <> ZERO_HASH) hs ->
  Root_loop f size pl (rev ps) ZERO_HASH = Ok (bag size hs).
Proof.
  intros Hl Hhs. induction Hl as [|pos x ps hs Hx Hl IH]; [done|].
  apply Forall_cons in Hhs as [[Hlen Hnz] Hhs].
  simpl rev. rewrite Root_loop_app, IH by done. unfold mbind, result_bind. cbn [Root_loop].
  unfold mbind, result_bind. rewrite Hx.
  rewrite neq_zero, bool_decide_eq_false_2 by done. cbn [negb bag].
  assert (length (bag size hs) = 32%nat) as Hb.
  { apply bag_length. eapply Forall_impl; [apply Hhs|]. by intros ? []. }
  rewrite BigInteger_eq_spec by done. destruct (decide (hs = [])) as [->|Hne].
  - by rewrite bool_decide_eq_true_2.
  - rewrite bool_decide_eq_false_2; [done|]. apply bag_nonzero; [|done].
    eapply Forall_impl; [apply Hhs|]. by intros ? [].
Qed.

Lemma peak_hashes_ok leaves (k : nat) n :
  Forall (fun x => length x = 32%nat /\ x <> ZERO_HASH) (peak_hashes leaves k n).
Proof.
  induction k as [|k IH]; cbn [peak_hashes]; [constructor|]. apply Forall_app. split; [|done].
  destruct (Z.testbit n k); [|constructor]. apply Forall_singleton.
  split; [by apply node_hash_length|apply node_hash_nonzero].
Qed.

Lemma peaks_in_mmr (k : nat) n : 0 <= n -> Forall (fun pos => 0 <= pos < mmr_size n) (peaks_from k n).
Proof.
  intros Hn. induction k as [|k IH]; cbn [peaks_from]; [constructor|]. apply Forall_app. split; [|done].
  destruct (Z.testbit n k) eqn:E; [|constructor]. apply Forall_singleton.
  assert (0 <= 2 * (n / 2 ^ (k + 1))).
  { pose proof (Z.div_pos n (2 ^ (k + 1)) Hn (pow2_pos (k + 1) ltac:(lia))). lia. }
  split; [by apply node_pos_nonneg; lia|]. apply node_in_mmr; [lia|lia|done|]. by apply peak_in_tree.
Qed.

(** The peaks of an MMR are stored: their parents are outside of it. *)
Lemma peaks_stored n (k : nat) : 0 <= n -> pl_ok pl n -> Forall (fun pos => stored_at pl pos = true) (peaks_from k n).
Proof.
  intros Hn Hp. induction k as [|k IH]; cbn [peaks_from]; [constructor|]. apply Forall_app. split; [|done].
  destruct (Z.testbit n k) eqn:E; [|constructor]. apply Forall_singleton.
  pose proof (pow2_pos (k + 1) ltac:(lia)) as Hpos.
  pose proof (Z.div_pos n (2 ^ (k + 1)) Hn Hpos).
  apply (stored_of_parent pl n); [lia|lia|done|]. rewrite half_even.
  pose proof (Z.mod_pos_bound n (2 ^ (k + 1)) Hpos). pose proof (Z.div_mod n (2 ^ (k + 1)) ltac:(lia)). lia.
Qed.

(** The root of the first [leaves] of a longer MMR, from the stored hashes. *)
Lemma Root_stored leaves more l c (f : F) :
  length (leaves ++ more) < 2 ^ 50 -> hf_repr (stored pl l) c f -> tree_hashes (leaves ++ more) l ->
  pl_ok pl (length leaves) -> pl_room pl (mmr_size (length leaves)) ->
  Root f (mmr_size (length leaves)) pl = Ok (mmr_root leaves).
Proof.
  intros Hb Hf Ht Hp Hr. pose proof (tree_hashes_prefix leaves more l ltac:(lia) Ht) as Ht'.
  pose proof Ht as [Hlen _]. rewrite length_app in Hb, Hlen. set (n := length leaves) in *.
  assert (mmr_size n <= 2 * n) by (unfold mmr_size; pose proof (pop_nonneg n); lia).
  pose proof (mmr_size_mono n (n + length more)%nat ltac:(lia)) as Hmono.
  unfold Root, mmr_root. fold n. destruct (Z.eqb_spec (mmr_size n) 0) as [E|E].
  - pose proof (mmr_size_ge n ltac:(lia)). assert (n = 0%nat) as -> by lia. done.
  - rewrite GetPeakIndices_mmr_size by lia. unfold mmr_peaks.
    apply Root_loop_bag; [|apply peak_hashes_ok].
    pose proof (proj2 (Forall_and _ _) (conj (peaks_stored n 64 ltac:(lia) Hp) (peaks_in_mmr 64 n ltac:(lia)))) as Hs.
    eapply Forall2_impl_l; [apply (peaks_lookup leaves _ 64 Ht')|apply Hs|]. intros pos x [Hpos Hin] Hx.
    rewrite (hf_get_stored pl n (mmr_size n) l c) by (done || cbn [Index_At m_position]; lia).
    apply lookup_take_Some in Hx as [Hx _]. cbn [Index_At m_position]. by rewrite Hx.
Qed.

End root.

Lemma Root_ok {R F : Type} {HR : Roaring R} {HL : RoaringLaws R} {HF : HashFile F} {HFL : HashFileLaws F} leaves more l c (f : F) :
  (forall x, length (Blake2b x) = 32%nat) -> (forall x, Blake2b x <> ZERO_HASH) ->
  length (leaves ++ more) < 2 ^ 50 -> hf_repr l c f -> tree_hashes (leaves ++ more) l ->
  Root f (mmr_size (length leaves)) (None : option (PruneList R)) = Ok (mmr_root leaves).
Proof.
  intros HB HB0 Hb Hf Ht. apply (Root_stored (None : option (PruneList R)) HB HB0 leaves more l c); rewrite ?stored_none; done.
Qed.

(** *** The root binds the leaves *)

(** The inputs given to [Blake2b] to compute a node, and the whole root. *)
Fixpoint node_inputs (leaves : list bytes) (h : nat) (i : Z) : list bytes :=
  match h with
  | O => [leaf_input (default [] (leaves !! Z.to_nat i)) (node_pos 0 i)]
  | S h' =>
      parent_input (node_hash leaves h' (2 * i)) (node_hash leaves h' (2 * i + 1)) (node_pos h i) ::
      node_inputs leaves h' (2 * i) ++ node_inputs leaves h' (2 * i + 1)
  end.

Fixpoint bag_inputs (size : Z) (peaks : list Hash) : list bytes :=
  match peaks with
  | [] => []
  | p :: peaks => if decide (peaks = []) then [] else parent_input p (bag size peaks) size :: bag_inputs size peaks
  end.

Fixpoint peak_inputs (leaves : list bytes) (k : nat) (n : Z) : list bytes :=
  match k with
  | O => []
  | S k => (if Z.testbit n k then node_inputs leaves k (2 * (n / 2 ^ (k + 1))) else []) ++ peak_inputs leaves k n
  end.

Definition root_inputs (leaves : list bytes) : list bytes :=
  peak_inputs leaves 64 (length leaves) ++
  bag_inputs (mmr_size (length leaves)) (peak_hashes leaves 64 (length leaves)).

(** No input of the first list collides with a different one of the second. *)
Definition no_collision (l l' : list bytes) : Prop :=
  forall x y, x ∈ l -> y ∈ l' -> Blake2b x = Blake2b y -> x = y.

Lemma no_collision_app a b c d :
  no_collision (a ++ b) (c ++ d) -> no_collision a c /\ no_collision b d.
Proof. intros Hnc. split; intros x y Hx Hy; apply Hnc; apply elem_of_app; tauto. Qed.

Lemma no_collision_cons x a y c :
  no_collision (x :: a) (y :: c) -> (Blake2b x = Blake2b y -> x = y) /\ no_collision a c.
Proof. intros Hnc. split; [apply Hnc; left|]. intros u v Hu Hv. by apply Hnc; right. Qed.

Lemma leaf_input_bytes x p : leaf_input x p = be_bytes 8 p ++ x.
Proof. done. Qed.

Lemma parent_input_bytes l r p : parent_input l r p = be_bytes 8 p ++ l ++ r.
Proof. unfold parent_input, AppendBigInteger, Serializer_put. cbn [s_bytes s_version]. by rewrite <- app_assoc. Qed.

Lemma leaf_input_inj x x' p : leaf_input x p = leaf_input x' p -> x = x'.
Proof. rewrite !leaf_input_bytes. apply app_inv_head. Qed.

Lemma parent_input_inj l r l' r' p :
  length l = length l' -> parent_input l r p = parent_input l' r' p -> l = l' /\ r = r'.
Proof. rewrite !parent_input_bytes. intros Hl E. apply app_inv_head in E. by apply app_inj_1 in E. Qed.

Section binding.
Hypothesis Blake2b_length : forall x, length (Blake2b x) = 32%nat.

Lemma node_hash_binding leaves leaves' (h : nat) i :
  0 <= i -> no_collision (node_inputs leaves h i) (node_inputs leaves' h i) ->
  node_hash leaves h i = node_hash leaves' h i ->
  forall j, i * 2 ^ h <= j < (i + 1) * 2 ^ h ->
    default [] (leaves !! Z.to_nat j) = default [] (leaves' !! Z.to_nat j).
Proof.
  revert i. induction h as [|h IH]; intros i Hi Hnc E j Hj; cbn [node_hash node_inputs] in *.
  - change (2 ^ 0%nat) with 1 in Hj. assert (j = i) as -> by lia.
    apply no_collision_cons in Hnc as [Hnc _]. apply Hnc in E. by apply leaf_input_inj in E.
  - apply no_collision_cons in Hnc as [Hx [Hnc1 Hnc2]%no_collision_app]. apply Hx in E as E'.
    apply parent_input_inj in E' as [E1 E2]; [|by rewrite !node_hash_length].
    rewrite pow2_S in Hj. destruct (decide (j < (2 * i + 1) * 2 ^ h)).
    + apply (IH (2 * i)); done || lia.
    + apply (IH (2 * i + 1)); done || lia.
Qed.

Lemma bag_binding size l l' :
  length l = length l' -> Forall (fun x => length x = 32%nat) l -> Forall (fun x => length x = 32%nat) l' ->
  no_collision (bag_inputs size l) (bag_inputs size l') -> bag size l = bag size l' -> l = l'.
Proof.
  revert l'. induction l as [|x l IH]; intros [|x' l'] Hl Hx Hx' Hnc E; try done.
  injection Hl as Hl. apply Forall_cons in Hx as [Hx Hxs]. apply Forall_cons in Hx' as [Hx' Hxs'].
  cbn [bag bag_inputs] in *. destruct (decide (l = [])) as [->|Hne].
  - destruct l'; [|done]. rewrite decide_True in E by done. by subst.
  - assert (l' <> []) as Hne' by (intros ->; destruct l; done).
    rewrite decide_False in E by done. rewrite decide_False in Hnc by done.
    apply no_collision_cons in Hnc as [Hc Hnc]. apply Hc, parent_input_inj in E as [-> E]; [|congruence].
    f_equal. by apply IH.
Qed.

(** Every leaf lies below a peak. *)
Lemma peak_covers (k : nat) n j :
  0 <= j < n -> n / 2 ^ k = j / 2 ^ k ->
  exists k' : nat, (k' < k)%nat /\ Z.testbit n k' = true /\ j / 2 ^ k' = 2 * (n / 2 ^ (k' + 1)).
Proof.
  intros Hj. induction k as [|k IH]; intros E.
  - change (2 ^ 0%nat) with 1 in E. rewrite !Z.div_1_r in E. lia.
  - pose proof (pow2_pos k ltac:(lia)) as Hp.
    assert (forall m, 0 <= m -> m / 2 ^ S k = m / 2 ^ k / 2) as Hdd.
    { intros m Hm. rewrite pow2_S, (Z.mul_comm 2), Z.div_div by lia. done. }
    rewrite !Hdd in E by lia. pose proof (Z.div_le_mono j n (2 ^ k) Hp ltac:(lia)).
    pose proof (Z.div_mod (n / 2 ^ k) 2 ltac:(lia)). pose proof (Z.div_mod (j / 2 ^ k) 2 ltac:(lia)).
    pose proof (Z.mod_pos_bound (n / 2 ^ k) 2 ltac:(lia)). pose proof (Z.mod_pos_bound (j / 2 ^ k) 2 ltac:(lia)).
    destruct (decide (n / 2 ^ k = j / 2 ^ k)) as [E'|Hne].
    + destruct (IH E') as (k' & ? & ?). exists k'. split; [lia|done].
    + exists k. split; [lia|]. split.
      * apply Z.testbit_true; lia.
      * replace (k + 1) with (Z.of_nat (S k)) by lia. rewrite Hdd by lia. lia.
Qed.

Lemma peaks_binding leaves leaves' (k : nat) n :
  0 <= n -> peak_hashes leaves k n = peak_hashes leaves' k n ->
  no_collision (peak_inputs leaves k n) (peak_inputs leaves' k n) ->
  forall (k' : nat) j, (k' < k)%nat -> Z.testbit n k' = true -> 0 <= j -> j / 2 ^ k' = 2 * (n / 2 ^ (k' + 1)) ->
    default [] (leaves !! Z.to_nat j) = default [] (leaves' !! Z.to_nat j).
Proof.
  intros Hn. induction k as [|k IH]; intros E Hnc k' j Hk Hb Hj Ej; [lia|].
  cbn [peak_hashes peak_inputs] in *. apply no_collision_app in Hnc as [Hnc1 Hnc2]. apply app_inj_1 in E as [E1 E2]; [|by destruct (Z.testbit n k)].
  destruct (decide (k' = k)) as [->|].
  - rewrite Hb in *. injection E1 as E1. pose proof (pow2_pos k ltac:(lia)).
    apply (node_hash_binding leaves leaves' k (2 * (n / 2 ^ (k + 1)))).
    + pose proof (Z.div_pos n (2 ^ (k + 1)) Hn (pow2_pos (k + 1) ltac:(lia))). lia.
    + done.
    + done.
    + rewrite <- Ej. pose proof (Z.div_mod j (2 ^ k) ltac:(lia)). pose proof (Z.mod_pos_bound j (2 ^ k) ltac:(lia)). nia.
  - apply (IH E2 Hnc2) with k'; done || lia.
Qed.

Lemma peak_hashes_length leaves leaves' (k : nat) n :
  length (peak_hashes leaves k n) = length (peak_hashes leaves' k n) /\
  Forall (fun x => length x = 32%nat) (peak_hashes leaves k n).
Proof.
  induction k as [|k [IH1 IH2]]; cbn [peak_hashes]; [done|]. rewrite !length_app, IH1.
  destruct (Z.testbit n k); (split; [done|]); [|done]. constructor; [by apply node_hash_length|done].
Qed.

Lemma mmr_root_binding leaves leaves' :
  length leaves = length leaves' -> length leaves < 2 ^ 62 ->
  no_collision (root_inputs leaves) (root_inputs leaves') ->
  mmr_root leaves = mmr_root leaves' -> leaves = leaves'.
Proof.
  intros Hl Hb Hnc E. unfold mmr_root, root_inputs in *. rewrite <- Hl in *. set (n := length leaves) in *.
  destruct (peak_hashes_length leaves leaves' 64 n) as [Hpl Hp].
  destruct (peak_hashes_length leaves' leaves 64 n) as [_ Hp'].
  apply no_collision_app in Hnc as [Hnc1 Hnc2]. apply bag_binding in E; [|done..].
  apply list_eq. intros j. destruct (decide (j < n)%nat) as [Hj|Hj].
  - destruct (peak_covers 64 n j) as (k & Hk & Hbit & Ej); [lia| |].
    { rewrite !Z.div_small by (change (2 ^ 64%nat) with (2 ^ 64); lia). done. }
    pose proof (peaks_binding leaves leaves' 64 n ltac:(lia) E) as Hpb.
    specialize (Hpb Hnc1 k j Hk Hbit ltac:(lia) Ej).
    rewrite Nat2Z.id in Hpb.
    destruct (lookup_lt_is_Some_2 leaves j Hj) as [x Ex].
    destruct (lookup_lt_is_Some_2 leaves' j ltac:(lia)) as [x' Ex'].
    rewrite Ex, Ex' in *. simpl in Hpb. by subst.
  - rewrite !lookup_ge_None_2 by lia. done.
Qed.

End binding.

#[export] Instance no_collision_dec l l' : Decision (no_collision l l').
Proof.
  refine (cast_if (decide (Forall (fun x => Forall (fun y => Blake2b x = Blake2b y -> x = y) l') l))).
  - intros x y Hx Hy. rewrite Forall_forall in f. specialize (f x Hx). rewrite Forall_forall in f. by apply f.
  - intros Hnc. apply n. apply Forall_forall. intros x Hx. apply Forall_forall. intros y Hy. by apply Hnc.
Defined.

(** ** Properties *)

Section properties.
Context {R : Type} {HR : Roaring R} {HL : RoaringLaws R} {F : Type} {HF : HashFile F} {HFL : HashFileLaws F}.
Context (pl : option (PruneList R)).
Hypothesis Blake2b_length : forall x, length (Blake2b x) = 32%nat.
Hypothesis Blake2b_nonzero : forall x, Blake2b x <> ZERO_HASH.

(** C18: appending a leaf refines the hash tree: on a file that holds the tree
    of [leaves], less the nodes a prune list compacts, [AddHashes] terminates
    and leaves the file of the tree with one more leaf, whose [Root] is the
    bagging of its peaks; and the root of every earlier size that contains the
    pruned subtrees is still the root of the leaves there were then. *)
Theorem AddHashes_refines leaves leaf l c (f : F) :
  length leaves + 1 < 2 ^ 50 -> hf_repr (stored pl l) c f -> tree_hashes leaves l ->
  pl_ok pl (length leaves) -> pl_room pl (mmr_size (length leaves + 1)) ->
  mmr_size (length leaves + 1) + length c < 2 ^ 57 ->
  exists l' f', AddHashes leaf pl f = (Ok tt, f') /\
    hf_repr (stored pl l') c f' /\ tree_hashes (leaves ++ [leaf]) l' /\
    forall m : nat, (m <= length leaves + 1)%nat -> pl_ok pl m ->
      Root f' (mmr_size m) pl = Ok (mmr_root (take m (leaves ++ [leaf]))).
Proof.
  intros Hb Hf Ht Hp Hr Hroom.
  destruct (AddHashes_stored pl Blake2b_length leaves leaf l c f Hb Hf Ht Hp Hr Hroom) as (l' & f' & E & Hf' & Ht').
  exists l', f'. split; [done|]. split; [done|]. split; [done|]. intros m Hm Hpm.
  assert (length (take m (leaves ++ [leaf])) = m) as Em by (rewrite length_take, length_app; simpl; lia).
  rewrite <- Em at 1.
  apply (Root_stored pl Blake2b_length Blake2b_nonzero _ (drop m (leaves ++ [leaf])) l' c);
    rewrite ?take_drop, ?Em; [|done..|].
  - rewrite length_app. simpl. lia.
  - pose proof (mmr_size_mono m (length leaves + 1) ltac:(lia)). destruct pl; cbn [pl_room] in *; lia || done.
Qed.

(** C27: the root binds the leaves: two MMRs of the same size with the same
    [Root] hold the same leaves, whatever each of them has pruned, unless two
    different inputs hashed for them collide. *)
Theorem Root_binding (pl' : option (PruneList R)) leaves leaves' l l' c c' (f f' : F) r :
  length leaves = length leaves' -> length leaves < 2 ^ 50 ->
  hf_repr (stored pl l) c f -> tree_hashes leaves l -> hf_repr (stored pl' l') c' f' -> tree_hashes leaves' l' ->
  pl_ok pl (length leaves) -> pl_ok pl' (length leaves') ->
  pl_room pl (mmr_size (length leaves)) -> pl_room pl' (mmr_size (length leaves')) ->
  Root f (mmr_size (length leaves)) pl = Ok r ->
  Root f' (mmr_size (length leaves')) pl' = Ok r ->
  no_collision (root_inputs leaves) (root_inputs leaves') ->
  leaves = leaves'.
Proof.
  intros Hl Hb Hf Ht Hf' Ht' Hp Hp' Hm Hm' Hr Hr' Hnc.
  rewrite (Root_stored pl Blake2b_length Blake2b_nonzero leaves [] l c f) in Hr by (rewrite ?app_nil_r; done).
  rewrite (Root_stored pl' Blake2b_length Blake2b_nonzero leaves' [] l' c' f') in Hr' by (rewrite ?app_nil_r; (done || lia)).
  apply mmr_root_binding; [done|done|lia|done|congruence].
Qed.

(** [GetLastLeafHashes] returns the hashes of the newest leaves first, of
    the leaves the leaf set contains, at most [numHashes] of them. *)
Theorem GetLastLeafHashes_spec leaves l c (f : F) (pLeafSet : option BitmapFile) numHashes :
  length leaves < 2 ^ 50 -> hf_repr (stored pl l) c f -> tree_hashes leaves l -> 0 <= numHashes ->
  pl_ok pl (length leaves) -> pl_room pl (mmr_size (length leaves)) ->
  let contains j := match pLeafSet with None => true | Some s => BitmapFile_IsSet j s end in
  (forall j, 0 <= j < length leaves -> contains j = true -> stored_at pl (mmr_size j) = true) ->
  GetLastLeafHashes f pLeafSet pl numHashes =
    Ok (take (Z.to_nat numHashes)
          (map (node_hash leaves 0) (filter (fun j => contains j = true) (rev (seqZ 0 (length leaves)))))).
Proof.
  intros Hb Hf Ht Hk Hp Hr contains Hs. unfold GetLastLeafHashes. pose proof Ht as [Hlen _].
  fold (total_size pl (hf_GetSize f)).
  set (n := length leaves) in *. pose proof (mmr_size_ge n ltac:(lia)).
  assert (forall m, m <= n -> mmr_size m <= 2 * n) as Hbound
    by (intros m Hm; unfold mmr_size; pose proof (pop_nonneg m); lia).
  pose proof (Hbound n ltac:(lia)). erewrite hf_size_ok by done.
  rewrite (total_size_ok pl n), Hlen by (done || lia).
  rewrite LeafIndex_AtPos_leaf by (unfold pos_ok; lia).
  cbn [LeafIndex_At LeafIndex_new m_leafIndex]. rewrite Nat2Z.id.
  enough (forall (m : nat) hashes, (m <= n)%nat -> length hashes <= numHashes ->
    GetLastLeafHashes_loop m f pLeafSet pl numHashes (LeafIndex_At m) hashes =
    Ok (hashes ++ take (Z.to_nat (numHashes - length hashes))
      (map (node_hash leaves 0) (filter (fun j => contains j = true) (rev (seqZ 0 m)))))) as Hloop.
  { rewrite Hloop by (simpl; lia). simpl. by rewrite Z.sub_0_r. }
  intros m. induction m as [|m IH]; intros hashes Hm Hh.
  - simpl. by rewrite take_nil, app_nil_r.
  - cbn [GetLastLeafHashes_loop]. rewrite seqZ_S, rev_app_distr. simpl rev. cbn [app].
    rewrite Z.add_0_l, filter_cons. unfold LeafIndex_Prev at 1 2 3 4. cbn [LeafIndex_At LeafIndex_new m_leafIndex].
    replace (S m - 1) with (Z.of_nat m) by lia. rewrite (uint_small 64 m) by uint_solve.
    destruct (Z.gtb_spec (S m) 0); [|lia]. cbn [andb].
    destruct (Z.ltb_spec (length hashes) numHashes) as [Hlt|Hge].
    2: { replace (Z.to_nat (numHashes - length hashes)) with 0%nat by lia. by rewrite take_0, app_nil_r. }
    fold (contains m). pose proof (Hbound m ltac:(lia)). pose proof (mmr_size_ge m ltac:(lia)).
    pose proof (mmr_size_lt m n ltac:(lia)). destruct (contains m) eqn:Ec.
    + rewrite decide_True by done. cbn [map].
      rewrite LeafIndex_At_pos by (lia || unfold pos_ok; lia).
      cbn [m_nodeIndex]. unfold mbind, result_bind.
      assert (GetHashAt f (mkIndex (mmr_size m) 0) pl = Ok (node_hash leaves 0 m)) as ->.
      { rewrite <- (node_pos_leaf m). apply (GetHashAt_tree pl n leaves (mmr_size n) l c f 0 m); try done; try lia.
        - by apply tree_upto_all; [lia|].
        - change (Z.of_nat 0) with 0. rewrite node_pos_leaf. lia.
        - change (Z.of_nat 0) with 0. rewrite node_pos_leaf. apply Hs; [lia|done]. }
      rewrite <- LeafIndex_At_pos by (lia || unfold pos_ok; lia).
      rewrite IH by (rewrite ?length_app; simpl; lia). rewrite <- app_assoc. f_equal. f_equal. cbn [app].
      rewrite length_app. simpl length.
      replace (Z.to_nat (numHashes - length hashes)) with (S (Z.to_nat (numHashes - (length hashes + 1)%nat))) by lia. done.
    + rewrite decide_False by congruence. apply IH; lia.
Qed.

End properties.
End mmr_hash.

(** ** Evaluation

    A small hash function, to evaluate the model on concrete inputs. *)
Definition toy_hash (x : bytes) : Hash :=
  (1 + foldl (fun a b => (a * 257 + b + 7) mod 1000000007) 1 x) :: repeat 0 31.

Lemma toy_hash_length x : length (toy_hash x) = 32%nat.
Proof. done. Qed.

Lemma toy_hash_nonzero x : toy_hash x <> ZERO_HASH.
Proof.
  intros E. injection E as E.
  assert (0 <= foldl (fun a b => (a * 257 + b + 7) mod 1000000007) 1 x); [|lia]. clear E.
  induction x as [|b x _] using rev_ind; [simpl; lia|]. rewrite foldl_app. simpl.
  apply Z.mod_pos_bound. lia.
Qed.

Lemma empty_file_repr : hf_repr [] [] (DataFile_Load []).
Proof. constructor; simpl; [constructor; simpl; lia|lia|split; [constructor|done]..|done]. Qed.

(** The file of an MMR with the given leaves. *)
Definition example_file (leaves : list bytes) : DataFile := tree_file toy_hash leaves.

Lemma example_file_ok leaves :
  length leaves < 2 ^ 40 ->
  exists l, hf_repr l [] (example_file leaves) /\ tree_hashes toy_hash leaves l.
Proof. apply tree_file_ok, toy_hash_length. Qed.

(** The two leaves below node 2 pruned: the file holds the hash of node 2 only. *)
Definition example_prunes : PruneList (list Z) :=
  PruneList_AddPrunedRoot (Index_At 2) (mkPruneList None Roaring_empty Roaring_empty [] [] false).
Definition example_pruned_file : DataFile :=
  DataFile_AddData (node_hash toy_hash [[5]; [6]] 1 0) (DataFile_Load []).

Lemma example_prunes_wf : prune_wf example_prunes 2.
Proof.
  destruct (AddPrunedRoot_wf (R := list Z) (mkPruneList None Roaring_empty Roaring_empty [] [] false) 1 0) as [H _];
    [lia|lia|apply new_list_wf|vm_compute; reflexivity|exact H].
Qed.

Lemma example_pruned_ok :
  exists l, hf_repr (stored (Some example_prunes) l) [] example_pruned_file /\ tree_hashes toy_hash [[5]; [6]] l.
Proof.
  destruct (example_file_ok [[5]; [6]]) as (l & _ & Ht); [simpl; lia|]. exists l. split; [|done].
  destruct Ht as [Hl Hh]. change (mmr_size (length [[5]; [6]])) with 3 in Hl.
  destruct l as [|a [|b [|x [|]]]]; cbn [length] in Hl; try lia.
  assert (x = node_hash toy_hash [[5]; [6]] 1 0) as -> by (specialize (Hh 1%nat 0 ltac:(lia) ltac:(simpl; lia)); by injection Hh).
  assert (stored (Some example_prunes) [a; b; node_hash toy_hash [[5]; [6]] 1 0] = [] ++ [node_hash toy_hash [[5]; [6]] 1 0]) as ->.
  { unfold stored. cbn [select stored_at].
    assert (visible example_prunes 0 = false) as -> by (vm_compute; reflexivity).
    assert (visible example_prunes (0 + 1) = false) as -> by (vm_compute; reflexivity).
    by assert (visible example_prunes (0 + 1 + 1) = true) as -> by (vm_compute; reflexivity). }
  exact (hf_add_ok [] [] (DataFile_Load []) (node_hash toy_hash [[5]; [6]] 1 0) empty_file_repr
    (node_hash_length toy_hash toy_hash_length _ 1 0) ltac:(vm_compute; reflexivity)).
Qed.

Lemma AddHashes_refines_witness :
  exists l' f', AddHashes toy_hash [9] (Some example_prunes) example_pruned_file = (Ok tt, f') /\
    hf_repr (stored (Some example_prunes) l') [] f' /\ tree_hashes toy_hash [[5]; [6]; [9]] l'.
Proof.
  destruct example_pruned_ok as (l & Hf & Ht).
  destruct (AddHashes_refines (R := list Z) toy_hash (Some example_prunes) toy_hash_length toy_hash_nonzero [[5]; [6]] [9] l [] _
    ltac:(simpl; lia) Hf Ht example_prunes_wf ltac:(vm_compute; reflexivity) ltac:(vm_compute; reflexivity))
    as (l' & f' & E & Hf' & Ht' & _).
  exists l', f'. split; [exact E|]. split; [exact Hf'|exact Ht'].
Defined.

Lemma Root_binding_witness :
  ~ exists r,
    Root toy_hash example_pruned_file 3 (Some example_prunes) = Ok r /\
    Root toy_hash (example_file [[5]; [7]]) 3 (None : option (PruneList (list Z))) = Ok r.
Proof.
  intros (r & E & E').
  destruct example_pruned_ok as (l & Hf & Ht).
  destruct (example_file_ok [[5]; [7]]) as (l' & Hf' & Ht'); [simpl; lia|].
  assert ([[5]; [6]] = [[5]; [7]]) as Heq.
  - apply (Root_binding (R := list Z) toy_hash (Some example_prunes) toy_hash_length toy_hash_nonzero None
      [[5]; [6]] [[5]; [7]] l l' [] [] example_pruned_file (example_file [[5]; [7]]) r);
      [reflexivity|simpl; lia|exact Hf|exact Ht|rewrite stored_none; exact Hf'|exact Ht'
      |exact example_prunes_wf|exact I|vm_compute; reflexivity|exact I|exact E|exact E'|].
    apply (bool_decide_unpack _). vm_compute. exact I.
  - discriminate Heq.
Defined.

Lemma GetLastLeafHashes_spec_witness :
  GetLastLeafHashes (example_file [[5]; [6]; [9]]) None (None : option (PruneList (list Z))) 2 =
  Ok [node_hash toy_hash [[5]; [6]; [9]] 0 2; node_hash toy_hash [[5]; [6]; [9]] 0 1].
Proof.
  destruct (example_file_ok [[5]; [6]; [9]]) as (l & Hf & Ht); [simpl; lia|].
  rewrite (GetLastLeafHashes_spec (R := list Z) toy_hash None [[5]; [6]; [9]] l [] _ None 2);
    [vm_compute; reflexivity|simpl; lia|rewrite stored_none; exact Hf|exact Ht|lia|exact I|exact I|intros; reflexivity].
Defined.
