(* ===== verification/SegmentId.v ===== *)
(** * Segment identifiers ([include/PMMR/Common/SegmentId.h])

    A segment of height [h] and number [i] of an MMR is the block of [2^h] leaves
    that starts at leaf [i * 2^h], with the nodes above them inside the block. *)
From S2P Require Import Prelude BitUtil MMRIndex MMRUtil Serial.

Record SegmentIdentifier := mkSegmentIdentifier { seg_height : Z; seg_index : Z }.

#[export] Instance SegmentIdentifier_eq_dec : EqDecision SegmentIdentifier.
Proof. solve_decision. Defined.

Definition SegmentIdentifier_lt (a b : SegmentIdentifier) : bool :=
  if seg_height a =? seg_height b then seg_index a <? seg_index b else seg_height a <? seg_height b.

Definition SegmentIdentifier_CountLeaves (mmrSize : Z) : Z :=
  if mmrSize =? 0 then 0 else m_leafIndex (LeafIndex_AtPos mmrSize).

(** [1ULL << m_height]; C++ leaves heights from 64 on undefined, and no statement
    below is about them. *)
Definition GetSegmentCapacity (id : SegmentIdentifier) : Z := (1 << seg_height id)%u64.
Definition GetLeafOffset (id : SegmentIdentifier) : Z := (seg_index id * GetSegmentCapacity id)%u64.

Definition GetSegmentUnprunedSize (mmrSize : Z) (id : SegmentIdentifier) : Z :=
  let numLeaves := SegmentIdentifier_CountLeaves mmrSize in
  let leafOffset := GetLeafOffset id in
  if leafOffset >=? numLeaves then 0
  else Z.min (GetSegmentCapacity id) (numLeaves - leafOffset)%u64.

Definition GetPositionRange (mmrSize : Z) (id : SegmentIdentifier) : Z * Z :=
  let segmentSize := GetSegmentUnprunedSize mmrSize id in
  if segmentSize =? 0 then (0, 0)
  else
    let first := LeafIndex_GetPosition (LeafIndex_At (GetLeafOffset id)) in
    if segmentSize =? GetSegmentCapacity id then
      let lastLeafPos := LeafIndex_GetPosition (LeafIndex_At (GetLeafOffset id + segmentSize - 1)%u64) in
      (first, (lastLeafPos + seg_height id)%u64)
    else (first, (mmrSize - 1)%u64).

Definition CountSegmentsRequired (targetMMRSize height : Z) : Z :=
  let numLeaves := SegmentIdentifier_CountLeaves targetMMRSize in
  let segmentCapacity := (1 << height)%u64 in
  (numLeaves + segmentCapacity - 1)%u64 / segmentCapacity.

Definition GetPMMRSize (numSegments height : Z) : Z :=
  if numSegments =? 0 then 0
  else LeafIndex_GetPosition (LeafIndex_At (numSegments * (1 << height)%u64)%u64).

(** ** Serialization *)
#[export] Instance SegmentIdentifier_Serializable : Serializable SegmentIdentifier := {
  Serialize id s := AppendU64 (seg_index id) (AppendU8 (seg_height id) s);
  Deserialize :=
    height ← ReadU8; index ← ReadU64; mret (mkSegmentIdentifier height index);
}.

Definition SegmentIdentifier_wf (_ : EProtocolVersion) (id : SegmentIdentifier) : Prop :=
  is_uint 8 (seg_height id) /\ is_uint 64 (seg_index id).

#[export] Instance SegmentIdentifier_laws : SerializableLaws SegmentIdentifier SegmentIdentifier_wf.
Proof.
  constructor.
  - intros id s. cbn [Serialize SegmentIdentifier_Serializable]. unfold AppendU64, AppendU8, Serialized.
    cbn [Serialize SegmentIdentifier_Serializable]. unfold AppendU64, AppendU8.
    rewrite !Append_be. cbn [s_version s_bytes Serializer_new app]. by rewrite <- app_assoc.
  - intros v [height index] [Hh Hi]. cbn [seg_height seg_index] in *.
    unfold Deserialize, SegmentIdentifier_Serializable, Serialized.
    cbn [Serialize seg_height seg_index]. unfold AppendU64, AppendU8. rewrite !Append_be. cbn [s_version s_bytes Serializer_new app].
    eapply reads_bind; [apply reads_be; by apply (uint_pow256 1)|]. cbv beta.
    apply (reads_map _ ReadU64 _ _ (mkSegmentIdentifier height)). apply reads_be. by apply (uint_pow256 8).
Qed.

(** ** Leaves and positions of a segment *)

(** Segment [id] of an MMR with [n] leaves, in range of 64-bit arithmetic. *)
Record segment_ok (n : Z) (id : SegmentIdentifier) : Prop := {
  sk_leaves : 0 <= n < 2 ^ 50;
  sk_height : 0 <= seg_height id < 50;
  sk_index : 0 <= seg_index id < 2 ^ 50;
  sk_offset : seg_index id * 2 ^ seg_height id < 2 ^ 60;
}.

Lemma mmr_size_bound n : 0 <= n -> n <= mmr_size n <= 2 * n.
Proof. intros Hn. split; [by apply mmr_size_ge|]. unfold mmr_size. pose proof (pop_nonneg n). lia. Qed.

Lemma CountLeaves_ok n : 0 <= n < 2 ^ 60 -> SegmentIdentifier_CountLeaves (mmr_size n) = n.
Proof.
  intros Hn. pose proof (mmr_size_bound n ltac:(lia)).
  apply (CountLeaves_mmr_size n); [lia|unfold pos_ok; lia].
Qed.

Lemma capacity_ok id : 0 <= seg_height id < 64 -> GetSegmentCapacity id = 2 ^ seg_height id.
Proof.
  intros Hh. unfold GetSegmentCapacity. rewrite shiftl_1 by lia. apply uint_small. unfold is_uint.
  pose proof (pow2_pos (seg_height id) ltac:(lia)). split; [lia|]. apply Z.pow_lt_mono_r; lia.
Qed.

Lemma offset_ok n id : segment_ok n id -> GetLeafOffset id = seg_index id * 2 ^ seg_height id.
Proof.
  intros [Hn Hh Hi Ho]. unfold GetLeafOffset. rewrite capacity_ok by lia.
  pose proof (pow2_pos (seg_height id) ltac:(lia)). apply uint_small. unfold is_uint. nia.
Qed.

Lemma unpruned_size_ok n id : segment_ok n id ->
  GetSegmentUnprunedSize (mmr_size n) id =
  Z.max 0 (Z.min (2 ^ seg_height id) (n - seg_index id * 2 ^ seg_height id)).
Proof.
  intros Hok. pose proof Hok as [Hn Hh Hi Ho]. unfold GetSegmentUnprunedSize.
  rewrite CountLeaves_ok, (offset_ok n), capacity_ok by (done || lia).
  pose proof (pow2_pos (seg_height id) ltac:(lia)). rewrite Z.geb_leb.
  destruct (Z.leb_spec n (seg_index id * 2 ^ seg_height id)); [lia|].
  rewrite uint_small; [lia|]. unfold is_uint. nia.
Qed.

(** The root of a block is [h] past its last leaf. *)
Lemma node_pos_last_leaf (h : nat) i :
  0 <= i -> mmr_size ((i + 1) * 2 ^ h - 1) + h = node_pos h i.
Proof.
  intros Hi. pose proof (pow2_pos h ltac:(lia)).
  replace ((i + 1) * 2 ^ h - 1) with (i * 2 ^ h + (2 ^ h - 1)) by lia.
  unfold mmr_size, node_pos. rewrite pop_concat, pop_ones, pow2_1 by lia. lia.
Qed.

Lemma position_range_ok n id : segment_ok n id -> seg_index id * 2 ^ seg_height id < n ->
  GetPositionRange (mmr_size n) id =
    (mmr_size (seg_index id * 2 ^ seg_height id),
     if (seg_index id + 1) * 2 ^ seg_height id <=? n
     then node_pos (seg_height id) (seg_index id) else mmr_size n - 1).
Proof.
  intros Hok Hlt. pose proof Hok as [Hn Hh Hi Ho]. unfold GetPositionRange.
  pose proof (pow2_pos (seg_height id) ltac:(lia)) as Hp.
  assert (2 ^ seg_height id <= 2 ^ 49) by (apply Z.pow_le_mono_r; lia).
  rewrite unpruned_size_ok, capacity_ok, (offset_ok n) by (done || lia).
  set (off := seg_index id * 2 ^ seg_height id) in *. assert (0 <= off) by nia.
  pose proof (mmr_size_bound off ltac:(lia)). pose proof (mmr_size_bound n ltac:(lia)).
  destruct (Z.eqb_spec (Z.max 0 (Z.min (2 ^ seg_height id) (n - off))) 0); [lia|].
  rewrite LeafIndex_At_pos by (lia || unfold pos_ok; lia).
  unfold LeafIndex_GetPosition at 1 2. cbn [m_nodeIndex m_position].
  replace ((seg_index id + 1) * 2 ^ seg_height id) with (off + 2 ^ seg_height id) by (unfold off; lia).
  destruct (Z.leb_spec (off + 2 ^ seg_height id) n), (Z.eqb_spec (Z.max 0 (Z.min (2 ^ seg_height id) (n - off))) (2 ^ seg_height id)); try lia.
  - f_equal. rewrite e. rewrite (uint_small 64 (off + _ - 1)) by uint_solve.
    pose proof (mmr_size_bound (off + 2 ^ seg_height id - 1) ltac:(lia)).
    rewrite LeafIndex_At_pos by (lia || unfold pos_ok; lia).
    unfold LeafIndex_GetPosition. cbn [m_nodeIndex m_position]. rewrite uint_small by uint_solve.
    pose proof (node_pos_last_leaf (Z.to_nat (seg_height id)) (seg_index id) ltac:(lia)) as E.
    rewrite Z2Nat.id in E by lia. rewrite <- E. unfold off. do 2 f_equal. lia.
  - f_equal. apply uint_small. unfold is_uint. lia.
Qed.

(** ** Properties *)

(** the segments of one height partition the leaves: leaf [j] belongs to
    segment [j / 2^h] and to no other, the required number of segments is the
    number of those that hold a leaf, and the leaves of the segments before the
    last make up an MMR of size [GetPMMRSize]. *)
Theorem segments_partition n h j :
  0 <= n < 2 ^ 50 -> 0 <= h < 50 -> 0 <= j < n ->
  let in_segment i :=
    let id := mkSegmentIdentifier h i in
    GetLeafOffset id <= j < GetLeafOffset id + GetSegmentUnprunedSize (mmr_size n) id in
  in_segment (j / 2 ^ h) /\
  (forall i, 0 <= i -> i * 2 ^ h < 2 ^ 60 -> in_segment i -> i = j / 2 ^ h) /\
  j / 2 ^ h < CountSegmentsRequired (mmr_size n) h /\
  (CountSegmentsRequired (mmr_size n) h - 1) * 2 ^ h < n <= CountSegmentsRequired (mmr_size n) h * 2 ^ h /\
  GetPMMRSize (j / 2 ^ h) h = mmr_size (j / 2 ^ h * 2 ^ h).
Proof.
  intros Hn Hh Hj. cbv zeta. pose proof (pow2_pos h ltac:(lia)) as Hp.
  assert (2 ^ h <= 2 ^ 49) by (apply Z.pow_le_mono_r; lia).
  pose proof (Z.div_mod j (2 ^ h) ltac:(lia)) as Hdm. pose proof (Z.mod_pos_bound j (2 ^ h) Hp).
  assert (0 <= j / 2 ^ h <= j) by (split; [apply Z.div_pos; lia|apply Z.div_le_upper_bound; nia]).
  assert (forall i, 0 <= i -> i * 2 ^ h < 2 ^ 60 -> segment_ok n (mkSegmentIdentifier h i) \/ n <= i * 2 ^ h) as Hseg.
  { intros i Hi Ho. destruct (decide (i * 2 ^ h < n)); [left; constructor; cbn [seg_height seg_index]; nia|lia]. }
  assert (CountSegmentsRequired (mmr_size n) h = (n + 2 ^ h - 1) / 2 ^ h) as Ec.
  { unfold CountSegmentsRequired. rewrite CountLeaves_ok, shiftl_1 by lia.
    rewrite (uint_small 64 (2 ^ h)), uint_small by uint_solve. done. }
  assert (GetLeafOffset (mkSegmentIdentifier h (j / 2 ^ h)) = j / 2 ^ h * 2 ^ h) as Eo
    by (apply (offset_ok n); constructor; cbn [seg_height seg_index]; nia).
  split; [|split; [|split; [|split]]].
  - rewrite Eo, unpruned_size_ok by (constructor; cbn [seg_height seg_index]; nia).
    cbn [seg_height seg_index]. nia.
  - intros i Hi Ho Hin. destruct (Hseg i Hi Ho) as [Hok|Hge].
    + rewrite (offset_ok n), unpruned_size_ok in Hin by done. cbn [seg_height seg_index] in Hin.
      apply Z.div_unique with (j - i * 2 ^ h); lia.
    + exfalso. unfold GetSegmentUnprunedSize in Hin.
      assert (GetLeafOffset (mkSegmentIdentifier h i) = i * 2 ^ h) as E.
      { unfold GetLeafOffset. rewrite capacity_ok by (cbn [seg_height]; lia). cbn [seg_height seg_index].
        apply uint_small. unfold is_uint. nia. }
      lia.
  - rewrite Ec. apply Z.lt_le_trans with (j / 2 ^ h + 1); [lia|]. apply Z.div_le_lower_bound; nia.
  - rewrite Ec. pose proof (Z.div_mod (n + 2 ^ h - 1) (2 ^ h) ltac:(lia)).
    pose proof (Z.mod_pos_bound (n + 2 ^ h - 1) (2 ^ h) Hp). nia.
  - unfold GetPMMRSize. destruct (Z.eqb_spec (j / 2 ^ h) 0) as [->|]; [done|].
    rewrite shiftl_1 by lia. rewrite (uint_small 64 (2 ^ h)) by uint_solve.
    assert (0 <= j / 2 ^ h * 2 ^ h <= j) by nia. pose proof (mmr_size_bound (j / 2 ^ h * 2 ^ h) ltac:(lia)).
    rewrite (uint_small 64 (j / 2 ^ h * 2 ^ h)) by uint_solve.
    rewrite LeafIndex_At_pos by (lia || unfold pos_ok; lia). done.
Qed.

Lemma segments_partition_witness :
  CountSegmentsRequired (mmr_size 11) 2 = 3 /\
  (CountSegmentsRequired (mmr_size 11) 2 - 1) * 2 ^ 2 < 11 <= CountSegmentsRequired (mmr_size 11) 2 * 2 ^ 2.
Proof.
  split; [vm_compute; reflexivity|].
  destruct (segments_partition 11 2 6) as (_ & _ & _ & H & _); [lia|lia|lia|exact H].
Defined.

(** the position range of a segment that holds leaves starts at its first
    leaf and ends at the root of its block when the block is full, and at the
    last node of the MMR otherwise. *)
Theorem GetPositionRange_spec n id :
  segment_ok n id -> seg_index id * 2 ^ seg_height id < n ->
  GetPositionRange (mmr_size n) id =
    (LeafIndex_GetPosition (LeafIndex_At (GetLeafOffset id)),
     if (seg_index id + 1) * 2 ^ seg_height id <=? n
     then node_pos (seg_height id) (seg_index id) else mmr_size n - 1).
Proof.
  intros Hok Hlt. rewrite position_range_ok, (offset_ok n) by done. f_equal.
  pose proof Hok as [Hn Hh Hi Ho]. pose proof (pow2_pos (seg_height id) ltac:(lia)).
  assert (0 <= seg_index id * 2 ^ seg_height id) by nia.
  pose proof (mmr_size_bound (seg_index id * 2 ^ seg_height id) ltac:(lia)).
  rewrite LeafIndex_At_pos by (lia || unfold pos_ok; lia). done.
Qed.

Lemma GetPositionRange_spec_witness :
  GetPositionRange (mmr_size 11) (mkSegmentIdentifier 2 1) = (7, 13) /\
  GetPositionRange (mmr_size 11) (mkSegmentIdentifier 2 2) = (15, 18).
Proof.
  split; rewrite GetPositionRange_spec by (constructor || idtac; cbn [seg_height seg_index]; lia); vm_compute; reflexivity.
Defined.
