(* ===== verification/SegmentProof.v ===== *)
(** * Segment proofs ([include/PMMR/Common/SegmentProof.h])

    The hashes that lead from the root of a segment to the root of the MMR: the
    siblings up to the peak, the bagged peaks to its right, and the peaks to its
    left.  [ReconstructRoot] is shown to run a script of hash steps that depends
    only on the positions ([ReconstructRoot_script]); completeness and soundness
    follow from it and from the hash tree of [MMRHash]. *)
From S2P Require Import Prelude BitUtil MMRIndex MMRUtil Serial BigInteger File MMRHash.

Record SegmentProof := mkSegmentProof { m_hashes : list Hash }.

Section segment_proof.
Context (Blake2b : bytes -> Hash).
Local Abbreviation HashParent := (HashParentWithIndex Blake2b).

(** The loop of [Generate] over the branch. *)
Fixpoint Generate_branch (branch : list (Z * Z)) (startPos : option Z) (getHashAt : Z -> option Hash)
    (hashes : list Hash) : option (list Hash) :=
  match branch with
  | [] => Some hashes
  | (parentPos, siblingPos) :: branch =>
      if match startPos with Some s => parentPos <? s | None => false end
      then Generate_branch branch startPos getHashAt hashes
      else
        siblingHash ← getHashAt siblingPos;
        Generate_branch branch startPos getHashAt (hashes ++ [siblingHash])
  end.

(** The loop over the peaks right of the segment's, from right to left. *)
Fixpoint Generate_right (mmrSize : Z) (peaks : list Z) (peakPos : Z) (getHashAt : Z -> option Hash)
    (rhs : option Hash) : option (option Hash) :=
  match peaks with
  | [] => Some rhs
  | pos :: peaks =>
      if pos <=? peakPos then Generate_right mmrSize peaks peakPos getHashAt rhs
      else
        peakHash ← getHashAt pos;
        Generate_right mmrSize peaks peakPos getHashAt
          (match rhs with Some r => Some (HashParent peakHash r mmrSize) | None => Some peakHash end)
  end.

Fixpoint Generate_left (peaks : list Z) (segmentFirstPos : Z) (getHashAt : Z -> option Hash)
    (hashes : list Hash) : option (list Hash) :=
  match peaks with
  | [] => Some hashes
  | pos :: peaks =>
      if pos >=? segmentFirstPos then Generate_left peaks segmentFirstPos getHashAt hashes
      else
        peakHash ← getHashAt pos;
        Generate_left peaks segmentFirstPos getHashAt (hashes ++ [peakHash])
  end.

(** [branch.empty() ? segmentLastPos : branch.back().first]. *)
Definition branch_peak (segmentLastPos : Z) (branch : list (Z * Z)) : Z :=
  match last branch with Some e => e.1 | None => segmentLastPos end.

Definition SegmentProof_Generate (mmrSize segmentFirstPos segmentLastPos : Z) (startPos : option Z)
    (getHashAt : Z -> option Hash) : option SegmentProof :=
  let branch := FamilyBranch segmentLastPos mmrSize in
  hashes ← Generate_branch branch startPos getHashAt [];
  let peakPos := branch_peak segmentLastPos branch in
  let peaks := GetPeakIndices mmrSize in
  rhs ← Generate_right mmrSize (rev peaks) peakPos getHashAt None;
  let hashes := match rhs with Some r => hashes ++ [r] | None => hashes end in
  hashes ← Generate_left (rev peaks) segmentFirstPos getHashAt hashes;
  Some (mkSegmentProof hashes).

(** The loops of [ReconstructRoot]: the root so far and the next proof index. *)
Fixpoint Reconstruct_branch (hashes : list Hash) (branch : list (Z * Z)) (segmentUnprunedPos : Z)
    (root : Hash) (proofIdx : nat) : option (Hash * nat) :=
  match branch with
  | [] => Some (root, proofIdx)
  | (parentPos, siblingPos) :: branch =>
      if parentPos <? segmentUnprunedPos
      then Reconstruct_branch hashes branch segmentUnprunedPos root proofIdx
      else
        siblingHash ← hashes !! proofIdx;
        Reconstruct_branch hashes branch segmentUnprunedPos
          (if IsLeftSibling siblingPos then HashParent siblingHash root parentPos
           else HashParent root siblingHash parentPos) (S proofIdx)
  end.

Fixpoint Reconstruct_left (hashes : list Hash) (mmrSize : Z) (peaks : list Z) (segmentFirstPos : Z)
    (root : Hash) (proofIdx : nat) : option (Hash * nat) :=
  match peaks with
  | [] => Some (root, proofIdx)
  | pos :: peaks =>
      if pos >=? segmentFirstPos then Reconstruct_left hashes mmrSize peaks segmentFirstPos root proofIdx
      else
        h ← hashes !! proofIdx;
        Reconstruct_left hashes mmrSize peaks segmentFirstPos (HashParent h root mmrSize) (S proofIdx)
  end.

Definition ReconstructRoot (mmrSize segmentFirstPos segmentLastPos : Z) (segmentRoot : Hash)
    (segmentUnprunedPos : Z) (p : SegmentProof) : option Hash :=
  let branch := FamilyBranch segmentLastPos mmrSize in
  '(root, proofIdx) ← Reconstruct_branch (m_hashes p) branch segmentUnprunedPos segmentRoot 0;
  let peakPos := branch_peak segmentLastPos branch in
  let peaks := GetPeakIndices mmrSize in
  '(root, proofIdx) ←
    (if existsb (fun pos => pos >? peakPos) peaks then
       h ← m_hashes p !! proofIdx; Some (HashParent root h mmrSize, S proofIdx)
     else Some (root, proofIdx));
  '(root, proofIdx) ← Reconstruct_left (m_hashes p) mmrSize (rev peaks) segmentFirstPos root proofIdx;
  if bool_decide (proofIdx = length (m_hashes p)) then Some root else None.

Definition SegmentProof_Validate (mmrSize segmentFirstPos segmentLastPos : Z) (segmentRoot : Hash)
    (segmentUnprunedPos : Z) (expectedRoot : Hash) (p : SegmentProof) : bool :=
  match ReconstructRoot mmrSize segmentFirstPos segmentLastPos segmentRoot segmentUnprunedPos p with
  | Some root => BigInteger_eq root expectedRoot
  | None => false
  end.

Definition SegmentProof_ValidateWith (mmrSize segmentFirstPos segmentLastPos : Z) (segmentRoot : Hash)
    (segmentUnprunedPos hashLastPos : Z) (otherRoot : Hash) (otherIsLeft : bool) (expectedRoot : Hash)
    (p : SegmentProof) : bool :=
  match ReconstructRoot mmrSize segmentFirstPos segmentLastPos segmentRoot segmentUnprunedPos p with
  | None => false
  | Some root =>
      let mergedRoot :=
        if otherIsLeft then HashParent otherRoot root hashLastPos
        else HashParent root otherRoot hashLastPos in
      BigInteger_eq mergedRoot expectedRoot
  end.

(** ** The script of a reconstruction

    A step combines the root so far with one proof hash, on the given side. *)
Definition script : Type := list (bool * Z).

Definition run_step (s : bool * Z) (h root : Hash) : Hash :=
  if s.1 then HashParent h root s.2 else HashParent root h s.2.

Fixpoint run_script (sc : script) (hashes : list Hash) (root : Hash) : Hash :=
  match sc, hashes with
  | s :: sc, h :: hashes => run_script sc hashes (run_step s h root)
  | _, _ => root
  end.

Fixpoint branch_script (branch : list (Z * Z)) (u : Z) : script :=
  match branch with
  | [] => []
  | (parentPos, siblingPos) :: branch =>
      if parentPos <? u then branch_script branch u
      else (IsLeftSibling siblingPos, parentPos) :: branch_script branch u
  end.

Definition left_peaks (first : Z) (peaks : list Z) : list Z := filter (fun pos => pos < first) peaks.
Definition right_peaks (peakPos : Z) (peaks : list Z) : list Z := filter (fun pos => peakPos < pos) peaks.

Definition proof_script (mmrSize first last_ u : Z) : script :=
  let branch := FamilyBranch last_ mmrSize in
  let peaks := GetPeakIndices mmrSize in
  branch_script branch u ++
  (if decide (right_peaks (branch_peak last_ branch) peaks = []) then [] else [(false, mmrSize)]) ++
  map (fun _ => (true, mmrSize)) (rev (left_peaks first peaks)).

Lemma run_script_cons s sc h hs root : run_script (s :: sc) (h :: hs) root = run_script sc hs (run_step s h root).
Proof. done. Qed.

Lemma run_script_app sc sc' hs hs' root :
  length sc = length hs -> run_script (sc ++ sc') (hs ++ hs') root = run_script sc' hs' (run_script sc hs root).
Proof.
  revert hs root. induction sc as [|s sc IH]; intros [|h hs] root Hl; try done.
  cbn [app run_script]. apply IH. by injection Hl.
Qed.

(** A loop that consumes [sc] from index [k] of [hashes]. *)
Definition consumes (hashes : list Hash) (sc : script) (root : Hash) (k : nat) (r : option (Hash * nat)) : Prop :=
  r = if decide (k + length sc <= length hashes)%nat
      then Some (run_script sc (take (length sc) (drop k hashes)) root, (k + length sc)%nat) else None.

Lemma consumes_nil hashes root k : (k <= length hashes)%nat -> consumes hashes [] root k (Some (root, k)).
Proof. intros Hk. unfold consumes. simpl. rewrite decide_True by lia. by rewrite Nat.add_0_r. Qed.

Lemma consumes_cons hashes s sc root k r :
  (k <= length hashes)%nat ->
  (forall h, hashes !! k = Some h -> consumes hashes sc (run_step s h root) (S k) (r h)) ->
  consumes hashes (s :: sc) root k (h ← hashes !! k; r h).
Proof.
  intros Hk Hr. unfold consumes. destruct (hashes !! k) as [h|] eqn:E; cbn [mbind option_bind].
  - rewrite (Hr h eq_refl). cbn [length]. apply lookup_lt_Some in E as Hlt.
    rewrite (drop_S hashes h k E). cbn [take run_script].
    replace (S k + length sc)%nat with (k + S (length sc))%nat by lia. done.
  - apply lookup_ge_None in E. rewrite decide_False by (cbn [length]; lia). done.
Qed.

Lemma consumes_bind hashes sc sc' root k r f :
  (k <= length hashes)%nat -> consumes hashes sc root k r ->
  (forall root k, (k <= length hashes)%nat -> consumes hashes sc' root k (f (root, k))) ->
  consumes hashes (sc ++ sc') root k (r ≫= f).
Proof.
  intros Hk -> Hf. unfold consumes. rewrite length_app.
  destruct (decide (k + length sc <= length hashes)%nat); cbn [mbind option_bind].
  - rewrite Hf by done. destruct (decide (k + length sc + length sc' <= length hashes)%nat), (decide (k + (length sc + length sc') <= length hashes)%nat); try lia; [|done].
    rewrite <- (run_script_app sc sc') by (rewrite length_take, length_drop; lia).
    f_equal. f_equal; [|lia]. f_equal. rewrite <- drop_drop. symmetry.
    rewrite <- (take_drop (length sc) (drop k hashes)) at 1.
    rewrite take_app_ge by (rewrite length_take; lia). rewrite length_take, length_drop.
    f_equal. f_equal. lia.
  - rewrite decide_False by lia. done.
Qed.

Lemma Reconstruct_branch_script hashes branch u root k :
  (k <= length hashes)%nat ->
  consumes hashes (branch_script branch u) root k (Reconstruct_branch hashes branch u root k).
Proof.
  revert root k. induction branch as [|[p s] branch IH]; intros root k Hk; cbn [Reconstruct_branch branch_script].
  - by apply consumes_nil.
  - destruct (p <? u); [by apply IH|]. apply consumes_cons; [done|]. intros h Hh.
    apply lookup_lt_Some in Hh. apply IH. lia.
Qed.

Lemma Reconstruct_left_script hashes mmrSize peaks first root k :
  (k <= length hashes)%nat ->
  consumes hashes (map (fun _ => (true, mmrSize)) (left_peaks first peaks)) root k
    (Reconstruct_left hashes mmrSize peaks first root k).
Proof.
  revert root k. induction peaks as [|p peaks IH]; intros root k Hk; cbn [Reconstruct_left].
  - by apply consumes_nil.
  - unfold left_peaks. rewrite filter_cons, Z.geb_leb. fold (left_peaks first peaks).
    destruct (Z.leb_spec first p).
    + rewrite decide_False by lia. by apply IH.
    + rewrite decide_True by done. cbn [map]. apply consumes_cons; [done|]. intros h Hh.
      apply lookup_lt_Some in Hh. apply IH. lia.
Qed.

Lemma existsb_right peakPos peaks :
  existsb (fun pos => pos >? peakPos) peaks = negb (bool_decide (right_peaks peakPos peaks = [])).
Proof.
  induction peaks as [|p peaks IH]; [done|]. cbn [existsb]. unfold right_peaks. rewrite filter_cons, Z.gtb_ltb.
  fold (right_peaks peakPos peaks). destruct (Z.ltb_spec peakPos p).
  - rewrite decide_True by done. done.
  - rewrite decide_False by lia. apply IH.
Qed.

Lemma left_peaks_rev first peaks : left_peaks first (rev peaks) = rev (left_peaks first peaks).
Proof.
  unfold left_peaks. induction peaks as [|p peaks IH]; [done|]. simpl rev. rewrite filter_app, IH, !filter_cons.
  destruct (decide (p < first)); [done|]. simpl. by rewrite app_nil_r.
Qed.

(** [ReconstructRoot] succeeds exactly on proofs of the length of the script. *)
Lemma ReconstructRoot_script mmrSize first last_ root u p :
  let sc := proof_script mmrSize first last_ u in
  ReconstructRoot mmrSize first last_ root u p =
    if decide (length (m_hashes p) = length sc) then Some (run_script sc (m_hashes p) root) else None.
Proof.
  cbv zeta. destruct p as [hashes]. cbn [m_hashes]. unfold ReconstructRoot. cbn [m_hashes].
  set (sc := proof_script mmrSize first last_ u).
  set (peaks := GetPeakIndices mmrSize). set (branch := FamilyBranch last_ mmrSize).
  set (middle := fun x : Hash * nat =>
    if existsb (fun pos => pos >? branch_peak last_ branch) peaks
    then h ← hashes !! x.2; Some (HashParent x.1 h mmrSize, S x.2) else Some x).
  set (tail := fun x : Hash * nat => Reconstruct_left hashes mmrSize (rev peaks) first x.1 x.2).
  assert (consumes hashes sc root 0
    (Reconstruct_branch hashes branch u root 0 ≫= fun x => middle x ≫= tail)) as Hr.
  { apply consumes_bind; [lia|apply Reconstruct_branch_script; lia|].
    intros root1 k1 Hk1. apply consumes_bind; [done| |].
    - unfold middle. cbn [fst snd]. rewrite existsb_right. case_bool_decide as E.
      + rewrite decide_True by done. by apply consumes_nil.
      + rewrite decide_False by done.
        apply (consumes_cons _ _ _ _ _ (fun h => Some (HashParent root1 h mmrSize, S k1))); [done|].
        intros h Hh. apply lookup_lt_Some in Hh. apply consumes_nil. lia.
    - intros root2 k2 Hk2. unfold tail. cbn [fst snd]. rewrite <- left_peaks_rev. by apply Reconstruct_left_script. }
  transitivity ((Reconstruct_branch hashes branch u root 0 ≫= fun x => middle x ≫= tail) ≫=
    fun '(root, proofIdx) => if bool_decide (proofIdx = length hashes) then Some root else None).
  { destruct (Reconstruct_branch hashes branch u root 0) as [[root1 k1]|]; [|done]. cbn [mbind option_bind].
    unfold middle. cbn [fst snd].
    match goal with |- context [if existsb ?a ?b then ?c else ?d] => destruct (if existsb a b then c else d) as [[root2 k2]|] end; done. }
  rewrite Hr. cbn [Nat.add]. destruct (decide (length sc <= length hashes)%nat); cbn [mbind option_bind].
  - case_bool_decide.
    + rewrite decide_True by lia. rewrite drop_0, take_ge by lia. done.
    + rewrite decide_False by lia. done.
  - rewrite decide_False by lia. done.
Qed.

(** ** The proof of an honest tree *)

Section honest.
Context (leaves : list bytes).
Local Abbreviation n := (Z.of_nat (length leaves)).

(** A reader of the hashes of the tree. *)
Definition reads_tree (getHashAt : Z -> option Hash) : Prop :=
  forall (h : nat) i, 0 <= i -> (i + 1) * 2 ^ h <= n ->
    getHashAt (node_pos h i) = Some (node_hash Blake2b leaves h i).

(** Siblings on the way up, skipping the ancestors before position [u], and the
    highest of these ancestors, whose hash a reconstruction starts from. *)
Fixpoint sibling_hashes (fuel : nat) (u : Z) (h : nat) (i : Z) : list Hash :=
  match fuel with
  | O => []
  | S fuel =>
      if (i / 2 + 1) * 2 ^ (h + 1) <=? n then
        (if node_pos (h + 1) (i / 2) <? u then [] else [node_hash Blake2b leaves h (sib i)]) ++
        sibling_hashes fuel u (S h) (i / 2)
      else []
  end.

Fixpoint segment_start (fuel : nat) (u : Z) (h : nat) (i : Z) : nat * Z :=
  match fuel with
  | O => (h, i)
  | S fuel =>
      if ((i / 2 + 1) * 2 ^ (h + 1) <=? n) && (node_pos (h + 1) (i / 2) <? u)
      then segment_start fuel u (S h) (i / 2) else (h, i)
  end.

Definition hash_of (c : nat * Z) : Hash := node_hash Blake2b leaves c.1 c.2.

Lemma segment_start_stop fuel u (h : nat) i : 0 <= i -> u <= node_pos h i -> segment_start fuel u h i = (h, i).
Proof.
  intros Hi Hu. destruct fuel as [|fuel]; [done|]. cbn [segment_start].
  pose proof (node_pos_parent_bound h i ltac:(lia) Hi).
  destruct (Z.ltb_spec (node_pos (h + 1) (i / 2)) u); [lia|]. by rewrite andb_false_r.
Qed.

Lemma sib_cases i : 0 <= i -> 0 <= sib i /\ sib i / 2 = i / 2 /\
  (Z.even (sib i) = true /\ i = 2 * (i / 2) + 1 /\ sib i = 2 * (i / 2) \/
   Z.even (sib i) = false /\ i = 2 * (i / 2) /\ sib i = 2 * (i / 2) + 1).
Proof.
  intros Hi. unfold sib. rewrite <- Z.negb_even. destruct (Z.even i) eqn:E; cbn [negb].
  - apply Z.even_spec in E as [j ->]. rewrite half_even, half_odd. split; [lia|]. split; [done|]. right.
    rewrite Z.even_add, Z.even_mul. split; [done|lia].
  - assert (Z.odd i = true) as O by (by rewrite <- Z.negb_even, E).
    apply Z.odd_spec in O as [j ->]. rewrite Z.add_simpl_r, half_even, half_odd. split; [lia|]. split; [done|]. left.
    rewrite Z.even_mul. split; [done|lia].
Qed.

(** A node whose parent is in the tree has its sibling in the tree. *)
Lemma sib_in_tree (h : nat) i : 0 <= i -> (i / 2 + 1) * 2 ^ (h + 1) <= n -> (sib i + 1) * 2 ^ h <= n.
Proof.
  intros Hi Hin. destruct (sib_cases i Hi) as (_ & _ & [(_ & _ & ->)|(_ & _ & ->)]);
    rewrite pow2_1 in Hin by lia; pose proof (pow2_pos h ltac:(lia)); nia.
Qed.

Lemma parent_hash_step (h : nat) i :
  size_ok n -> 0 <= i -> (i / 2 + 1) * 2 ^ (h + 1) <= n ->
  run_step (IsLeftSibling (node_pos h (sib i)), node_pos (h + 1) (i / 2))
    (node_hash Blake2b leaves h (sib i)) (node_hash Blake2b leaves h i) = node_hash Blake2b leaves (S h) (i / 2).
Proof.
  intros [Hn Hb] Hi Hin. destruct (sib_cases i Hi) as (Hs & _ & Hcase).
  assert (4 * node_pos h (sib i) + 4 < 2 ^ 60).
  { pose proof (proj2 (node_in_mmr h (sib i) n ltac:(lia) Hs Hn) (sib_in_tree h i Hi Hin)). lia. }
  rewrite IsLeftSibling_node by lia. unfold run_step. cbn [fst snd node_hash].
  replace (Z.of_nat (S h)) with (h + 1) by lia.
  destruct Hcase as [(-> & Ei & ->)|(-> & Ei & ->)]; rewrite <- Ei; done.
Qed.

(** The branch part of the script climbs to the peak. *)
Lemma branch_run fuel u (h : nat) i :
  size_ok n -> 0 <= i -> (i + 1) * 2 ^ h <= n ->
  let branch := branch_spec fuel n h i in
  length (branch_script branch u) = length (sibling_hashes fuel u h i) /\
  run_script (branch_script branch u) (sibling_hashes fuel u h i) (hash_of (segment_start fuel u h i))
    = node_hash Blake2b leaves (h + length branch) (i / 2 ^ length branch).
Proof.
  intros Hok. revert h i. induction fuel as [|fuel IH]; intros h i Hi Hin; cbn [branch_spec sibling_hashes segment_start].
  - simpl. split; [done|]. rewrite Z.div_1_r, Nat.add_0_r. done.
  - destruct (Z.leb_spec ((i / 2 + 1) * 2 ^ (h + 1)) n) as [Hp|Hp]; cbn [andb].
    2: { simpl. split; [done|]. rewrite Z.div_1_r, Nat.add_0_r. done. }
    cbn [branch_script length]. replace (h + 1) with (Z.of_nat (S h)) in * by lia.
    destruct (IH (S h) (i / 2) ltac:(apply Z.div_pos; lia) Hp) as [IH1 IH2].
    replace (h + S (length (branch_spec fuel n (S h) (i / 2))))%nat
      with (S h + length (branch_spec fuel n (S h) (i / 2)))%nat by lia.
    rewrite pow2_S, <- Z.div_div by (try apply Z.pow_nonzero; lia).
    destruct (Z.ltb_spec (node_pos (S h) (i / 2)) u) as [Hu|Hu]; cbn [app].
    + split; [done|apply IH2].
    + rewrite run_script_cons. cbn [length]. split; [by f_equal|].
      rewrite segment_start_stop in IH2 by (done || apply Z.div_pos; lia).
      change (hash_of (h, i)) with (node_hash Blake2b leaves h i).
      change (hash_of (S h, i / 2)) with (node_hash Blake2b leaves (S h) (i / 2)) in IH2.
      pose proof (parent_hash_step h i Hok Hi) as Hstep. replace (h + 1) with (Z.of_nat (S h)) in Hstep by lia.
      rewrite Hstep by done. apply IH2.
Qed.

Lemma Generate_branch_ok getHashAt fuel (startPos : option Z) (h : nat) i acc :
  reads_tree getHashAt -> 0 <= i -> (i + 1) * 2 ^ h <= n ->
  Generate_branch (branch_spec fuel n h i) startPos getHashAt acc =
    Some (acc ++ sibling_hashes fuel (default 0 startPos) h i).
Proof.
  intros Hr. revert h i acc. induction fuel as [|fuel IH]; intros h i acc Hi Hin; cbn [branch_spec sibling_hashes].
  - cbn [Generate_branch]. by rewrite app_nil_r.
  - destruct (Z.leb_spec ((i / 2 + 1) * 2 ^ (h + 1)) n) as [Hp|Hp].
    2: { cbn [Generate_branch]. by rewrite app_nil_r. }
    cbn [Generate_branch]. replace (h + 1) with (Z.of_nat (S h)) in * by lia.
    assert (0 <= i / 2) by (apply Z.div_pos; lia). pose proof (node_pos_nonneg (S h) (i / 2) ltac:(lia) ltac:(lia)).
    assert (match startPos with Some s => node_pos (S h) (i / 2) <? s | None => false end =
            (node_pos (S h) (i / 2) <? default 0 startPos)) as ->.
    { destruct startPos; [done|]. simpl. symmetry. apply Z.ltb_ge. lia. }
    destruct (node_pos (S h) (i / 2) <? default 0 startPos); cbn [app].
    + by apply IH.
    + assert ((i / 2 + 1) * 2 ^ (h + 1) <= n) as Hp' by (replace (h + 1) with (Z.of_nat (S h)) by lia; done).
      rewrite (Hr h (sib i)); [|apply sib_cases; done|by apply sib_in_tree]. cbn [mbind option_bind].
      rewrite IH by done. by rewrite <- app_assoc.
Qed.

(** *** Peaks around a block *)

Lemma peaks_read getHashAt (k : nat) :
  reads_tree getHashAt ->
  Forall2 (fun pos x => getHashAt pos = Some x) (peaks_from k n) (peak_hashes Blake2b leaves k n).
Proof.
  intros Hr. induction k as [|k IH]; cbn [peaks_from peak_hashes]; [constructor|].
  apply Forall2_app; [|done]. destruct (Z.testbit n k) eqn:E; [|constructor].
  constructor; [|constructor]. apply Hr.
  - pose proof (Z.div_pos n (2 ^ (k + 1)) ltac:(lia) (pow2_pos (k + 1) ltac:(lia))). lia.
  - apply peak_in_tree; [lia|done].
Qed.

(** The peaks of height at least [k], and those below. *)
Lemma peaks_from_split (k d : nat) :
  exists L Lh,
    peaks_from (k + d) n = L ++ peaks_from k n /\
    peak_hashes Blake2b leaves (k + d) n = Lh ++ peak_hashes Blake2b leaves k n /\
    Forall (fun pos => 0 <= pos < mmr_size (n / 2 ^ k * 2 ^ k)) L /\ length L = length Lh.
Proof.
  pose proof (pow2_pos k ltac:(lia)) as Hp. assert (0 <= n / 2 ^ k) by (apply Z.div_pos; lia).
  induction d as [|d (L & Lh & E1 & E2 & HL & Hlen)].
  { exists [], []. rewrite Nat.add_0_r. done. }
  replace (k + S d)%nat with (S (k + d)) by lia. cbn [peaks_from peak_hashes].
  destruct (Z.testbit n (k + d)%nat) eqn:E; [|by exists L, Lh].
  eexists (_ :: L), (_ :: Lh). rewrite E1, E2. split; [done|]. split; [done|]. split; [|simpl; by f_equal].
  constructor; [|done]. set (q := n / 2 ^ ((k + d)%nat + 1)).
  assert (0 <= q) by (apply Z.div_pos; [lia|apply pow2_pos; lia]).
  split; [apply node_pos_nonneg; lia|]. apply node_in_mmr; [lia..|].
  pose proof (peak_in_tree (k + d) n ltac:(lia) E) as Hin. fold q in Hin.
  rewrite Nat2Z.inj_add, Z.pow_add_r in Hin |- * by lia.
  assert ((2 * q + 1) * 2 ^ d <= n / 2 ^ k) by (apply Z.div_le_lower_bound; nia). nia.
Qed.

(** Low peaks are not before the block they are in. *)
Lemma peaks_from_low (k : nat) a :
  0 <= a -> (exists q, a = q * 2 ^ k) -> a <= n -> Forall (fun pos => mmr_size a <= pos < mmr_size n) (peaks_from k n).
Proof.
  intros Ha Hq Han. assert (exists q, a = q * 2 ^ k) as [q ->] by done. clear Hq.
  induction k as [|k IH] in q, Ha, Han |- *; cbn [peaks_from]; [constructor|].
  rewrite pow2_S in *. apply Forall_app. split.
  2: { replace (q * (2 * 2 ^ k)) with ((2 * q) * 2 ^ k) in * by lia. by apply IH. }
  destruct (Z.testbit n k) eqn:E; [|constructor]. apply Forall_singleton.
  pose proof (pow2_pos k ltac:(lia)). pose proof (peak_in_tree k n ltac:(lia) E) as Hin.
  set (i := n / 2 ^ (k + 1)) in *. assert (0 <= i) by (apply Z.div_pos; [lia|apply pow2_pos; lia]).
  split; [|apply node_in_mmr; lia]. apply Z.nlt_ge. rewrite node_in_mmr by lia.
  assert (q <= i); [|nia]. unfold i. rewrite pow2_1 by lia. apply Z.div_le_lower_bound; lia.
Qed.

(** A node of the tree without a parent in the tree is a peak. *)
Lemma top_is_peak (H : nat) I :
  0 <= I -> (I + 1) * 2 ^ H <= n -> n < (I / 2 + 1) * 2 ^ (H + 1) ->
  Z.testbit n H = true /\ I = 2 * (n / 2 ^ (H + 1)).
Proof.
  intros HI Hin Hout. pose proof (pow2_pos H ltac:(lia)). rewrite pow2_1 in * by lia.
  pose proof (Z.div_mod I 2 ltac:(lia)). pose proof (Z.mod_pos_bound I 2 ltac:(lia)).
  assert (n / (2 * 2 ^ H) < I / 2 + 1) by (apply Z.div_lt_upper_bound; nia).
  assert (I + 1 <= n / 2 ^ H) by (apply Z.div_le_lower_bound; lia).
  assert (n / (2 * 2 ^ H) = n / 2 ^ H / 2) as E by (rewrite (Z.mul_comm 2), Z.div_div by lia; done).
  rewrite E in *. pose proof (Z.div_mod (n / 2 ^ H) 2 ltac:(lia)). pose proof (Z.mod_pos_bound (n / 2 ^ H) 2 ltac:(lia)).
  split; [apply Z.testbit_true; lia|lia].
Qed.

Lemma peaks_around (H : nat) I f0 :
  (H < 64)%nat -> 0 <= I -> (I + 1) * 2 ^ H <= n -> n < (I / 2 + 1) * 2 ^ (H + 1) ->
  I * 2 ^ H <= f0 < (I + 1) * 2 ^ H ->
  exists L Lh,
    mmr_peaks n = L ++ node_pos H I :: peaks_from H n /\
    peak_hashes Blake2b leaves 64 n = Lh ++ node_hash Blake2b leaves H I :: peak_hashes Blake2b leaves H n /\
    left_peaks (mmr_size f0) (mmr_peaks n) = L /\ left_peaks (mmr_size f0) (rev (mmr_peaks n)) = rev L /\
    right_peaks (node_pos H I) (mmr_peaks n) = peaks_from H n /\ length L = length Lh.
Proof.
  intros HH HI Hin Hout Hf. destruct (top_is_peak H I HI Hin Hout) as [Hbit EI].
  pose proof (pow2_pos H ltac:(lia)).
  destruct (peaks_from_split (S H) (63 - H)) as (L & Lh & E1 & E2 & HL & Hlen).
  replace (S H + (63 - H))%nat with 64%nat in E1, E2 by lia.
  assert (peaks_from (S H) n = node_pos H I :: peaks_from H n) as E3.
  { cbn [peaks_from]. by rewrite Hbit, <- EI. }
  assert (peak_hashes Blake2b leaves (S H) n = node_hash Blake2b leaves H I :: peak_hashes Blake2b leaves H n) as E4.
  { cbn [peak_hashes]. by rewrite Hbit, <- EI. }
  rewrite E3 in E1. rewrite E4 in E2.
  assert (n / 2 ^ S H * 2 ^ S H = I * 2 ^ H) as Ea.
  { rewrite EI. replace (Z.of_nat (S H)) with (H + 1) by lia. rewrite (pow2_1 H) at 2 by lia. lia. }
  rewrite Ea in HL.
  pose proof (mmr_size_mono (I * 2 ^ H) f0 ltac:(nia)) as Hm1.
  assert (mmr_size f0 <= node_pos H I) as Hm2.
  { apply Z.nlt_ge. rewrite node_in_mmr by nia. lia. }
  assert (node_pos H I < mmr_size ((I + 1) * 2 ^ H)) as Hm3 by (apply node_in_mmr; nia).
  pose proof (peaks_from_low H ((I + 1) * 2 ^ H) ltac:(nia) ltac:(by eexists) Hin) as HR.
  assert (left_peaks (mmr_size f0) (mmr_peaks n) = L) as EL.
  { unfold mmr_peaks, left_peaks. rewrite E1, filter_app, filter_cons, decide_False by lia.
    rewrite filter_all, filter_none, app_nil_r; [done| |].
    - eapply Forall_impl; [apply HR|]. simpl. lia.
    - eapply Forall_impl; [apply HL|]. simpl. lia. }
  exists L, Lh. split; [done|]. split; [done|]. split; [done|]. split; [by rewrite left_peaks_rev, EL|].
  split; [|done]. unfold mmr_peaks, right_peaks. rewrite E1, filter_app, filter_cons, decide_False by lia.
  rewrite filter_none, filter_all; [done| |].
  - eapply Forall_impl; [apply HR|]. simpl. lia.
  - eapply Forall_impl; [apply HL|]. simpl. lia.
Qed.

Lemma branch_peak_spec (h : nat) i :
  0 <= i ->
  let k := length (branch_spec 64 n h i) in
  branch_peak (node_pos h i) (branch_spec 64 n h i) = node_pos (h + k)%nat (i / 2 ^ k).
Proof.
  intros Hi. cbv zeta. unfold branch_peak. rewrite last_lookup.
  destruct (length (branch_spec 64 n h i)) as [|k] eqn:E.
  - apply nil_length_inv in E. rewrite E. simpl. by rewrite Z.div_1_r, Nat.add_0_r.
  - simpl pred. rewrite branch_spec_nth, decide_True by lia. cbn [fst].
    f_equal; [lia|]. by replace (k + 1) with (Z.of_nat (S k)) by lia.
Qed.

Lemma bag_app size L X :
  X <> [] -> bag Blake2b size (L ++ X) = foldr (fun p acc => HashParent p acc size) (bag Blake2b size X) L.
Proof.
  intros HX. induction L as [|p L IH]; [done|]. cbn [app bag foldr]. rewrite <- IH.
  rewrite decide_False; [done|]. by destruct L.
Qed.

Lemma run_script_left size (L : list Z) Lh root :
  length L = length Lh ->
  run_script (map (fun _ => (true, size)) (rev L)) (rev Lh) root =
  foldr (fun p acc => HashParent p acc size) root Lh.
Proof.
  revert Lh. induction L as [|x L IH]; intros [|y Lh] Hl; try done. injection Hl as Hl.
  simpl rev. rewrite map_app, run_script_app by (rewrite length_map, !length_rev; done).
  rewrite IH by done. done.
Qed.

Lemma Generate_right_ok getHashAt size peakPos L R Rh :
  Forall2 (fun pos x => getHashAt pos = Some x) R Rh ->
  Forall (fun pos => peakPos < pos) R -> Forall (fun pos => pos <= peakPos) L ->
  Generate_right size (rev (L ++ R)) peakPos getHashAt None =
    Some (if decide (Rh = []) then None else Some (bag Blake2b size Rh)).
Proof.
  intros HR Hgt Hle.
  assert (forall ps ps' rhs, Generate_right size (ps ++ ps') peakPos getHashAt rhs =
    (rhs ← Generate_right size ps peakPos getHashAt rhs; Generate_right size ps' peakPos getHashAt rhs)) as Happ.
  { intros ps. induction ps as [|pos ps IH]; intros ps' rhs; [done|]. cbn [app Generate_right].
    destruct (pos <=? peakPos); [apply IH|]. destruct (getHashAt pos); [apply IH|done]. }
  rewrite rev_app_distr, Happ.
  assert (Generate_right size (rev R) peakPos getHashAt None =
    Some (if decide (Rh = []) then None else Some (bag Blake2b size Rh))) as ->.
  { clear Hle. induction HR as [|pos x R Rh Hx HR IH]; [done|]. apply Forall_cons in Hgt as [Hp Hgt].
    simpl rev. rewrite Happ, IH by done. cbn [mbind option_bind Generate_right].
    destruct (Z.leb_spec pos peakPos); [lia|]. rewrite Hx. cbn [mbind option_bind bag].
    by destruct (decide (Rh = [])). }
  cbn [mbind option_bind]. generalize (if decide (Rh = []) then None else Some (bag Blake2b size Rh)).
  assert (Forall (fun pos => pos <= peakPos) (rev L)) as Hle' by (by apply Forall_rev).
  intros rhs. induction Hle' as [|pos l Hp Hl IH]; [done|]. cbn [Generate_right].
  destruct (Z.leb_spec pos peakPos); [done|lia].
Qed.

Lemma Generate_left_ok getHashAt first ps Lh acc :
  Forall2 (fun pos x => getHashAt pos = Some x) (left_peaks first ps) Lh ->
  Generate_left ps first getHashAt acc = Some (acc ++ Lh).
Proof.
  revert Lh acc. induction ps as [|pos ps IH]; intros Lh acc; unfold left_peaks.
  - intros HL. inversion HL. subst. by rewrite app_nil_r.
  - rewrite filter_cons. fold (left_peaks first ps). cbn [Generate_left]. rewrite Z.geb_leb.
    destruct (Z.leb_spec first pos).
    + rewrite decide_False by lia. apply IH.
    + rewrite decide_True by done. intros HL. inversion HL as [|? x ? Lh' Hx HL']. subst.
      rewrite Hx. cbn [mbind option_bind]. rewrite (IH Lh') by done. by rewrite <- app_assoc.
Qed.

(** *** Generating and reconstructing *)

Lemma size_lt : size_ok n -> n < 2 ^ 57.
Proof. intros [Hn Hb]. pose proof (mmr_size_ge n Hn). lia. Qed.

Lemma height_in_tree (H : nat) I : size_ok n -> 0 <= I -> (I + 1) * 2 ^ H <= n -> (H < 64)%nat.
Proof.
  intros Hok HI Hin. pose proof (size_lt Hok). destruct (decide (H < 64)%nat); [done|].
  pose proof (Z.pow_le_mono_r 2 64 H ltac:(lia) ltac:(lia)). nia.
Qed.

(** The peak above a node. *)
Lemma top_of_branch (h : nat) i :
  size_ok n -> 0 <= i -> (i + 1) * 2 ^ h <= n ->
  let k := length (branch_spec 64 n h i) in
  let H := (h + k)%nat in let I := i / 2 ^ k in
  (H < 64)%nat /\ 0 <= I /\ (I + 1) * 2 ^ H <= n /\ n < (I / 2 + 1) * 2 ^ (H + 1) /\
  I * 2 ^ H <= i * 2 ^ h < (I + 1) * 2 ^ H.
Proof.
  intros Hok Hi Hin. cbv zeta. set (k := length (branch_spec 64 n h i)).
  pose proof (size_lt Hok) as Hn.
  destruct (branch_spec_stop 64 n h i) as [H1 H2]; [lia|done| |done|].
  { split; [lia|]. pose proof (Z.pow_le_mono_r 2 64 (h + 64%nat) ltac:(lia) ltac:(lia)). lia. }
  fold k in H1, H2. assert (0 <= i / 2 ^ k) by (apply Z.div_pos; [lia|apply pow2_pos; lia]).
  pose proof (pow2_pos k ltac:(lia)). pose proof (pow2_pos h ltac:(lia)).
  assert (i / 2 ^ (k + 1) = i / 2 ^ k / 2) as E.
  { rewrite pow2_1, (Z.mul_comm 2), Z.div_div by lia. done. }
  rewrite E in H2. replace (h + k) with (Z.of_nat (h + k)%nat) in H1, H2 by lia.
  split; [by apply (height_in_tree _ (i / 2 ^ k))|]. split; [done|]. split; [done|]. split; [done|].
  rewrite Nat2Z.inj_add, Z.pow_add_r by lia.
  pose proof (Z.div_mod i (2 ^ k) ltac:(lia)). pose proof (Z.mod_pos_bound i (2 ^ k) ltac:(lia)). nia.
Qed.

Lemma proof_complete getHashAt (startPos : option Z) (h : nat) i :
  size_ok n -> 0 <= i -> (i + 1) * 2 ^ h <= n -> reads_tree getHashAt ->
  exists p,
    SegmentProof_Generate (mmr_size n) (mmr_size (i * 2 ^ h)) (node_pos h i) startPos getHashAt = Some p /\
    ReconstructRoot (mmr_size n) (mmr_size (i * 2 ^ h)) (node_pos h i)
      (hash_of (segment_start 64 (default 0 startPos) h i)) (default 0 startPos) p = Some (mmr_root Blake2b leaves).
Proof.
  intros Hok Hi Hin Hr. pose proof (size_lt Hok) as Hn. pose proof Hok as [_ Hb].
  destruct (top_of_branch h i Hok Hi Hin) as (HH & HI & HIin & HIout & Hf).
  pose proof (branch_run 64 (default 0 startPos) h i Hok Hi Hin) as [Hlen Hrun].
  pose proof (branch_peak_spec h i Hi) as Hpk.
  set (k := length (branch_spec 64 n h i)) in *. set (H := (h + k)%nat) in *. set (I := i / 2 ^ k) in *.
  change (branch_peak (node_pos h i) (branch_spec 64 n h i) = node_pos H I) in Hpk.
  destruct (peaks_around H I (i * 2 ^ h) HH HI HIin HIout Hf) as (L & Lh & EP & EH & EL & ELr & ER & HLl).
  pose proof (peaks_read getHashAt 64 Hr) as Hread. fold (mmr_peaks n) in Hread. rewrite EP, EH in Hread.
  apply Forall2_app_inv in Hread as [HL HR]; [|done]. apply Forall2_cons_1 in HR as [_ HR].
  set (sibs := sibling_hashes 64 (default 0 startPos) h i) in *.
  set (Rh := peak_hashes Blake2b leaves H n) in *.
  exists (mkSegmentProof (sibs ++ (if decide (Rh = []) then [] else [bag Blake2b (mmr_size n) Rh]) ++ rev Lh)).
  split.
  - unfold SegmentProof_Generate. rewrite FamilyBranch_node, GetPeakIndices_mmr_size by (done || lia).
    rewrite Generate_branch_ok by done. cbn [mbind option_bind app]. fold sibs. rewrite Hpk.
    rewrite EP. change (L ++ node_pos H I :: peaks_from H n) with (L ++ [node_pos H I] ++ peaks_from H n).
    rewrite app_assoc, (Generate_right_ok _ _ _ _ _ Rh); [|done| |].
    + cbn [mbind option_bind].
      rewrite <- app_assoc. change ([node_pos H I] ++ peaks_from H n) with (node_pos H I :: peaks_from H n). rewrite <- EP.
      rewrite (Generate_left_ok _ _ _ (rev Lh)) by (rewrite ELr; by apply Forall2_rev).
      cbn [mbind option_bind]. destruct (decide (Rh = [])); [done|]. by rewrite <- app_assoc.
    + rewrite <- ER. apply Forall_forall. intros pos Hpos. by apply list_elem_of_filter in Hpos as [? _].
    + apply Forall_app. split.
      * rewrite <- EL. apply Forall_forall. intros pos Hpos. apply list_elem_of_filter in Hpos as [Hlt _].
        cbv beta in *. assert (mmr_size (i * 2 ^ h) <= node_pos H I); [|lia]. pose proof (pow2_pos h ltac:(lia)).
        apply Z.nlt_ge. rewrite node_in_mmr by nia. lia.
      * apply Forall_singleton, Z.le_refl.
  - rewrite ReconstructRoot_script. cbn [m_hashes]. unfold proof_script.
    rewrite FamilyBranch_node, GetPeakIndices_mmr_size by (done || lia). rewrite Hpk, ER, EL.
    pose proof (Forall2_length _ _ _ HR) as HRl.
    assert (length (if decide (peaks_from H n = []) then [] else [(false, mmr_size n)]) =
            length (if decide (Rh = []) then [] else [bag Blake2b (mmr_size n) Rh])) as Hmid.
    { destruct (peaks_from H n), Rh; done. }
    rewrite decide_True by (rewrite !length_app, length_map, !length_rev, Hlen, Hmid, HLl; done).
    rewrite !run_script_app, Hrun, run_script_left by done. fold H I.
    unfold mmr_root. rewrite EH. fold Rh. rewrite bag_app by done. do 2 f_equal.
    cbn [bag]. destruct (peaks_from H n), Rh; done.
Qed.

Lemma peak_hashes_nonempty (k k' : nat) :
  (k' < k)%nat -> Z.testbit n k' = true -> peak_hashes Blake2b leaves k n <> [].
Proof.
  induction k as [|k IH]; intros Hk Hb; [lia|]. cbn [peak_hashes].
  destruct (decide (k' = k)) as [->|]; [by rewrite Hb|].
  intros [_ E]%app_eq_nil. apply IH; [lia|done|done].
Qed.

(** The last node of an MMR has no ancestors. *)
Lemma last_node_branch : size_ok n -> 0 < n -> FamilyBranch (mmr_size n - 1) (mmr_size n) = [].
Proof.
  intros Hok Hn. pose proof (mmr_size_ge n ltac:(lia)).
  destruct (node_pos_surj (mmr_size n - 1)) as (h & i & Hh & Hi & E); [lia|]. rewrite E.
  assert ((i + 1) * 2 ^ h <= n) by (apply node_in_mmr; lia).
  rewrite FamilyBranch_node by done.
  pose proof (node_pos_parent_bound h i Hh Hi).
  assert (n < (i / 2 + 1) * 2 ^ (h + 1)).
  { apply Z.nle_gt. rewrite <- node_in_mmr by (try apply Z.div_pos; lia). lia. }
  change 64%nat with (S 63). generalize 63%nat. intros fuel. cbn [branch_spec].
  destruct (Z.leb_spec ((i / 2 + 1) * 2 ^ (h + 1)) n); [lia|done].
Qed.

(** The last, partly filled segment: its root bags the peaks inside it. *)
Lemma proof_complete_partial getHashAt (startPos : option Z) u (h : nat) idx :
  size_ok n -> (h <= 64)%nat -> 0 <= idx -> idx * 2 ^ h < n < (idx + 1) * 2 ^ h -> reads_tree getHashAt ->
  exists p,
    SegmentProof_Generate (mmr_size n) (mmr_size (idx * 2 ^ h)) (mmr_size n - 1) startPos getHashAt = Some p /\
    ReconstructRoot (mmr_size n) (mmr_size (idx * 2 ^ h)) (mmr_size n - 1)
      (bag Blake2b (mmr_size n) (peak_hashes Blake2b leaves h n)) u p = Some (mmr_root Blake2b leaves).
Proof.
  intros Hok Hh Hi Hin Hr. pose proof (size_lt Hok) as Hn. pose proof Hok as [_ Hb].
  pose proof (pow2_pos h ltac:(lia)) as Hp.
  assert (n / 2 ^ h = idx) as Eq by (symmetry; apply Z.div_unique with (n - idx * 2 ^ h); lia).
  destruct (peaks_from_split h (64 - h)) as (L & Lh & E1 & E2 & HL & Hlen).
  replace (h + (64 - h))%nat with 64%nat in E1, E2 by lia. rewrite Eq in HL. fold (mmr_peaks n) in E1.
  pose proof (peaks_from_low h (idx * 2 ^ h) ltac:(nia) ltac:(by eexists) ltac:(lia)) as HR.
  set (R := peaks_from h n) in *. set (Rh := peak_hashes Blake2b leaves h n) in *.
  assert (Rh <> []) as Hne.
  { destruct (peak_covers h n (idx * 2 ^ h)) as (k & Hk & Hbit & _); [nia| |].
    - rewrite Z.div_mul by lia. done.
    - by apply (peak_hashes_nonempty h k). }
  assert (left_peaks (mmr_size (idx * 2 ^ h)) (mmr_peaks n) = L) as EL.
  { unfold left_peaks. rewrite E1, filter_app, filter_all, filter_none, app_nil_r; [done| |].
    - eapply Forall_impl; [apply HR|]. simpl. lia.
    - eapply Forall_impl; [apply HL|]. simpl. lia. }
  assert (right_peaks (mmr_size n - 1) (mmr_peaks n) = []) as ER.
  { unfold right_peaks. apply filter_none. rewrite E1. pose proof (mmr_size_mono (idx * 2 ^ h) n ltac:(nia)).
    apply Forall_app. split; [eapply Forall_impl; [apply HL|]|eapply Forall_impl; [apply HR|]]; simpl; lia. }
  pose proof (peaks_read getHashAt 64 Hr) as Hread. fold (mmr_peaks n) in Hread. rewrite E1, E2 in Hread.
  apply Forall2_app_inv in Hread as [HLr _]; [|done].
  exists (mkSegmentProof (rev Lh)). split.
  - unfold SegmentProof_Generate. rewrite last_node_branch, GetPeakIndices_mmr_size by (done || nia).
    cbn [Generate_branch mbind option_bind branch_peak last].
    rewrite <- (app_nil_r (mmr_peaks n)) at 1. rewrite (Generate_right_ok _ _ _ _ _ []); [|constructor|constructor|].
    + cbn [mbind option_bind decide]. rewrite (Generate_left_ok _ _ _ (rev Lh)); [done|].
      rewrite left_peaks_rev, EL. by apply Forall2_rev.
    + apply Forall_forall. intros pos Hpos. apply Z.nlt_ge. intros Hlt.
      assert (pos ∈ right_peaks (mmr_size n - 1) (mmr_peaks n)) as H by (unfold right_peaks; rewrite list_elem_of_filter; done).
      rewrite ER in H. by apply elem_of_nil in H.
  - rewrite ReconstructRoot_script. cbn [m_hashes]. unfold proof_script.
    rewrite last_node_branch, GetPeakIndices_mmr_size by (done || nia). cbn [branch_script app branch_peak last].
    rewrite ER, EL. destruct (decide (@nil Z = [])) as [_|]; [|done]. cbn [app].
    rewrite decide_True by (rewrite length_map, !length_rev; done).
    rewrite run_script_left by done. unfold mmr_root. rewrite E2. fold Rh. by rewrite bag_app.
Qed.

End honest.
(** ** Uniqueness of reconstructions *)

(** The inputs hashed while a script runs. *)
Fixpoint script_inputs (sc : script) (hashes : list Hash) (root : Hash) : list bytes :=
  match sc, hashes with
  | s :: sc, h :: hashes =>
      (if s.1 then parent_input h root s.2 else parent_input root h s.2) ::
      script_inputs sc hashes (run_step s h root)
  | _, _ => []
  end.

Definition reconstruct_inputs (mmrSize first last_ : Z) (root : Hash) (u : Z) (p : SegmentProof) : list bytes :=
  script_inputs (proof_script mmrSize first last_ u) (m_hashes p) root.

Definition hashes_ok (l : list Hash) : Prop := Forall (fun x => length x = 32%nat) l.

Section unique.
Hypothesis Blake2b_length : forall x, length (Blake2b x) = 32%nat.

Lemma run_step_length s h root : length (run_step s h root) = 32%nat.
Proof. unfold run_step. destruct s.1; apply Blake2b_length. Qed.

Lemma run_script_length sc hashes root : length root = 32%nat -> length (run_script sc hashes root) = 32%nat.
Proof.
  revert hashes root. induction sc as [|s sc IH]; intros [|h hashes] root Hr; try done.
  rewrite run_script_cons. apply IH, run_step_length.
Qed.

Lemma run_script_unique sc hs hs' root root' :
  length hs = length sc -> length hs' = length sc -> hashes_ok hs -> hashes_ok hs' ->
  length root = 32%nat -> length root' = 32%nat ->
  no_collision Blake2b (script_inputs sc hs root) (script_inputs sc hs' root') ->
  run_script sc hs root = run_script sc hs' root' -> hs = hs' /\ root = root'.
Proof.
  revert hs hs' root root'. induction sc as [|s sc IH]; intros [|h hs] [|h' hs'] root root' Hl Hl' Hh Hh' Hr Hr' Hnc E; try done.
  injection Hl as Hl. injection Hl' as Hl'. apply Forall_cons in Hh as [Hh Hhs]. apply Forall_cons in Hh' as [Hh' Hhs'].
  rewrite !run_script_cons in E. cbn [script_inputs] in Hnc. apply no_collision_cons in Hnc as [Hc Hnc].
  destruct (IH hs hs' _ _ Hl Hl' Hhs Hhs' (run_step_length _ _ _) (run_step_length _ _ _) Hnc E) as [-> Es].
  unfold run_step, HashParentWithIndex in Es.
  destruct s.1; apply Hc, parent_input_inj in Es as [-> ->]; done || congruence.
Qed.

Lemma ReconstructRoot_unique mmrSize first last_ u root root' p p' r :
  hashes_ok (m_hashes p) -> hashes_ok (m_hashes p') -> length root = 32%nat -> length root' = 32%nat ->
  ReconstructRoot mmrSize first last_ root u p = Some r ->
  ReconstructRoot mmrSize first last_ root' u p' = Some r ->
  no_collision Blake2b (reconstruct_inputs mmrSize first last_ root u p)
    (reconstruct_inputs mmrSize first last_ root' u p') ->
  p = p' /\ root = root'.
Proof.
  destruct p as [hs], p' as [hs']. cbn [m_hashes]. intros Hh Hh' Hr Hr' E E' Hnc.
  rewrite ReconstructRoot_script in E, E'. cbn [m_hashes] in *.
  destruct (decide (length hs = length (proof_script mmrSize first last_ u))); [|done].
  destruct (decide (length hs' = length (proof_script mmrSize first last_ u))); [|done].
  destruct (run_script_unique (proof_script mmrSize first last_ u) hs hs' root root') as [-> ->]; [done..|congruence|done].
Qed.

Lemma Validate_reconstruct mmrSize first last_ root u expected p :
  length root = 32%nat -> length expected = 32%nat ->
  SegmentProof_Validate mmrSize first last_ root u expected p = true <->
  ReconstructRoot mmrSize first last_ root u p = Some expected.
Proof.
  intros Hr He. unfold SegmentProof_Validate. rewrite ReconstructRoot_script.
  destruct (decide _); [|done]. rewrite BigInteger_eq_spec by (by rewrite run_script_length).
  rewrite bool_decide_eq_true. split; congruence.
Qed.

(** [ValidateWith] checks the hash of the root with the root of the other tree. *)
Lemma ValidateWith_reconstruct mmrSize first last_ root u pos other left_ expected p :
  length expected = 32%nat ->
  SegmentProof_ValidateWith mmrSize first last_ root u pos other left_ expected p = true <->
  exists r, ReconstructRoot mmrSize first last_ root u p = Some r /\
    expected = if left_ then HashParent other r pos else HashParent r other pos.
Proof.
  intros He. unfold SegmentProof_ValidateWith. destruct (ReconstructRoot _ _ _ _ _ _) as [r|].
  - assert (length (if left_ then HashParent other r pos else HashParent r other pos) = 32%nat) as Hm
      by (destruct left_; apply Blake2b_length).
    rewrite BigInteger_eq_spec by congruence. rewrite bool_decide_eq_true. split; [eauto|].
    intros (r' & [= <-] & ->). done.
  - split; [done|]. by intros (r' & ? & _).
Qed.

End unique.
End segment_proof.

(** ** Serialization *)
#[export] Instance SegmentProof_Serializable : Serializable SegmentProof := {
  Serialize p s := append_all AppendBigInteger (m_hashes p) (AppendU64 (length (m_hashes p)) s);
  Deserialize :=
    size ← ReadU64;
    hashes ← read_list (Z.to_nat size) (ReadBigInteger 32);
    mret (mkSegmentProof hashes);
}.

Definition SegmentProof_wf (_ : EProtocolVersion) (p : SegmentProof) : Prop :=
  hashes_ok (m_hashes p) /\ is_uint 64 (length (m_hashes p)).

Lemma SegmentProof_Serialize_app p s :
  Serialize p s = mkSerializer (s_version s)
    (s_bytes s ++ be_bytes 8 (length (m_hashes p)) ++ concat (m_hashes p)).
Proof.
  unfold Serialize, SegmentProof_Serializable. rewrite (append_all_bytes _ (fun x => x)) by done.
  unfold AppendU64. rewrite Append_be. cbn [s_version s_bytes]. rewrite <- app_assoc, map_id. done.
Qed.

#[export] Instance SegmentProof_laws : SerializableLaws SegmentProof SegmentProof_wf.
Proof.
  constructor.
  - intros p s. unfold Serialized. rewrite !SegmentProof_Serialize_app. done.
  - intros v [hashes] [Hh Hl]. cbn [m_hashes] in *. unfold Serialized. rewrite SegmentProof_Serialize_app.
    cbn [s_version s_bytes Serializer_new app m_hashes].
    eapply reads_bind; [apply reads_be; by apply (uint_pow256 8)|]. cbv beta. rewrite Nat2Z.id.
    apply (reads_map v _ _ _ mkSegmentProof). rewrite <- (map_id hashes) at 2.
    apply (reads_list v (ReadBigInteger 32) (fun x => x)).
    eapply Forall_impl; [apply Hh|]. intros x Hx. apply reads_bytes. by rewrite Hx.
Qed.

(** ** Properties *)

Section properties.
Context (Blake2b : bytes -> Hash).

(** completeness for full segments: a proof generated from the hashes of
    the tree leads from the segment's root (or, when the ancestors before
    [startPos] are pruned with it, from the highest of them) to the root of the
    MMR. *)
Theorem SegmentProof_complete leaves getHashAt startPos (h : nat) i :
  let n := length leaves in
  let u := default 0 startPos in
  size_ok n -> 0 <= i -> (i + 1) * 2 ^ h <= n -> reads_tree Blake2b leaves getHashAt ->
  exists p,
    SegmentProof_Generate Blake2b (mmr_size n) (mmr_size (i * 2 ^ h)) (node_pos h i) startPos getHashAt = Some p /\
    ReconstructRoot Blake2b (mmr_size n) (mmr_size (i * 2 ^ h)) (node_pos h i)
      (hash_of Blake2b leaves (segment_start leaves 64 u h i)) u p = Some (mmr_root Blake2b leaves).
Proof. intros n u Hok Hi Hin Hr. by apply proof_complete. Qed.

(** completeness for the last segment when its block is not full: the
    proof of the last node of the MMR leads from the bagged peaks inside the
    segment to the root of the MMR. *)
Theorem SegmentProof_complete_partial leaves getHashAt startPos u (h : nat) i :
  let n := length leaves in
  size_ok n -> (h <= 64)%nat -> 0 <= i -> i * 2 ^ h < n < (i + 1) * 2 ^ h -> reads_tree Blake2b leaves getHashAt ->
  exists p,
    SegmentProof_Generate Blake2b (mmr_size n) (mmr_size (i * 2 ^ h)) (mmr_size n - 1) startPos getHashAt = Some p /\
    ReconstructRoot Blake2b (mmr_size n) (mmr_size (i * 2 ^ h)) (mmr_size n - 1)
      (bag Blake2b (mmr_size n) (peak_hashes Blake2b leaves h n)) u p = Some (mmr_root Blake2b leaves).
Proof. intros n Hok Hh Hi Hin Hr. by apply proof_complete_partial. Qed.

(** C20: soundness: the only segment root (and proof) that [Validate] accepts
    against the root of an MMR is the true one, unless two different inputs
    hashed on the way collide. *)
Theorem SegmentProof_sound leaves getHashAt startPos (h : nat) i p p0 root :
  (forall x, length (Blake2b x) = 32%nat) ->
  let n := length leaves in
  let u := default 0 startPos in
  let first := mmr_size (i * 2 ^ h) in
  let true_root := hash_of Blake2b leaves (segment_start leaves 64 u h i) in
  size_ok n -> 0 <= i -> (i + 1) * 2 ^ h <= n -> reads_tree Blake2b leaves getHashAt ->
  SegmentProof_Generate Blake2b (mmr_size n) first (node_pos h i) startPos getHashAt = Some p0 ->
  hashes_ok (m_hashes p) -> hashes_ok (m_hashes p0) -> length root = 32%nat ->
  length (mmr_root Blake2b leaves) = 32%nat ->
  no_collision Blake2b (reconstruct_inputs Blake2b (mmr_size n) first (node_pos h i) root u p)
    (reconstruct_inputs Blake2b (mmr_size n) first (node_pos h i) true_root u p0) ->
  SegmentProof_Validate Blake2b (mmr_size n) first (node_pos h i) root u (mmr_root Blake2b leaves) p = true ->
  root = true_root /\ p = p0.
Proof.
  intros HB n u first true_root Hok Hi Hin Hr Hg Hp Hp0 Hl Hlr Hnc Hv.
  apply Validate_reconstruct in Hv; [|done..].
  destruct (proof_complete Blake2b leaves getHashAt startPos h i Hok Hi Hin Hr) as (p1 & Hg1 & E1).
  fold n first u in Hg1, E1. rewrite Hg in Hg1. injection Hg1 as <-.
  destruct (ReconstructRoot_unique Blake2b HB (mmr_size n) first (node_pos h i) u root true_root p p0 (mmr_root Blake2b leaves))
    as [-> ->]; try done.
  apply node_hash_length. done.
Qed.

End properties.

(** ** Evaluation *)

(** The hashes of the example MMR, read from its file. *)
Definition example_reader (leaves : list bytes) (pos : Z) : option Hash :=
  match hf_GetDataAt pos (example_file leaves) with Ok x => Some x | Throw _ => None end.

Lemma example_reader_ok leaves : length leaves < 2 ^ 40 -> reads_tree toy_hash leaves (example_reader leaves).
Proof.
  intros Hb. destruct (example_file_ok leaves Hb) as (l & Hf & [Hlen Hl]).
  intros h i Hi Hin. unfold example_reader.
  pose proof (proj2 (node_in_mmr h i (length leaves) ltac:(lia) Hi ltac:(lia)) Hin).
  pose proof (node_pos_nonneg h i ltac:(lia) Hi). pose proof (pop_nonneg (length leaves)). unfold mmr_size in *.
  rewrite (hf_get_ok l [] _ _ Hf) by lia. by rewrite Hl.
Qed.

Definition example_leaves : list bytes := [[1]; [2]; [3]; [4]; [5]; [6]; [7]].

Lemma SegmentProof_complete_witness :
  exists p,
    SegmentProof_Generate toy_hash (mmr_size (length example_leaves)) (mmr_size (1 * 2 ^ 1%nat)) (node_pos 1%nat 1)
      None (example_reader example_leaves) = Some p /\
    ReconstructRoot toy_hash (mmr_size (length example_leaves)) (mmr_size (1 * 2 ^ 1%nat)) (node_pos 1%nat 1)
      (hash_of toy_hash example_leaves (segment_start example_leaves 64 (default 0 None) 1 1)) (default 0 None) p
      = Some (mmr_root toy_hash example_leaves).
Proof.
  apply (SegmentProof_complete toy_hash example_leaves (example_reader example_leaves) None 1 1).
  - split; vm_compute; congruence.
  - lia.
  - vm_compute. congruence.
  - apply example_reader_ok. vm_compute. reflexivity.
Defined.

Lemma SegmentProof_complete_partial_witness :
  exists p,
    SegmentProof_Generate toy_hash (mmr_size (length example_leaves)) (mmr_size (1 * 2 ^ 2%nat))
      (mmr_size (length example_leaves) - 1) None (example_reader example_leaves) = Some p /\
    ReconstructRoot toy_hash (mmr_size (length example_leaves)) (mmr_size (1 * 2 ^ 2%nat))
      (mmr_size (length example_leaves) - 1)
      (bag toy_hash (mmr_size (length example_leaves)) (peak_hashes toy_hash example_leaves 2 (length example_leaves))) 0 p
      = Some (mmr_root toy_hash example_leaves).
Proof.
  apply (SegmentProof_complete_partial toy_hash example_leaves (example_reader example_leaves) None 0 2 1).
  - split; vm_compute; congruence.
  - lia.
  - lia.
  - vm_compute. split; reflexivity.
  - apply example_reader_ok. vm_compute. reflexivity.
Defined.

(** The proof of leaf 1 of the MMR of the leaves [small_leaves]; it does not
    validate the hash of leaf 0. *)
Definition small_leaves : list bytes := [[1]; [2]; [3]].

Definition small_proof : SegmentProof :=
  default (mkSegmentProof []) (SegmentProof_Generate toy_hash (mmr_size (length small_leaves))
    (mmr_size (1 * 2 ^ 0%nat)) (node_pos 0%nat 1) None (example_reader small_leaves)).

Lemma SegmentProof_sound_witness :
  ~ SegmentProof_Validate toy_hash (mmr_size (length small_leaves)) (mmr_size (1 * 2 ^ 0%nat)) (node_pos 0%nat 1)
      (node_hash toy_hash small_leaves 0 0) (default 0 None) (mmr_root toy_hash small_leaves) small_proof = true.
Proof.
  intros Hv.
  destruct (SegmentProof_sound toy_hash small_leaves (example_reader small_leaves) None 0 1 small_proof
    small_proof (node_hash toy_hash small_leaves 0 0) toy_hash_length) as [E _].
  - split; vm_compute; congruence.
  - lia.
  - vm_compute. congruence.
  - apply example_reader_ok. vm_compute. reflexivity.
  - vm_compute. reflexivity.
  - vm_compute. repeat constructor.
  - vm_compute. repeat constructor.
  - vm_compute. reflexivity.
  - vm_compute. reflexivity.
  - apply (bool_decide_unpack _). vm_compute. exact I.
  - exact Hv.
  - vm_compute in E. discriminate E.
Defined.
