(* ===== verification/Bitmap.v ===== *)
(** * Bitmap chunks and their accumulator
    ([include/PMMR/Common/BitmapAccumulator.h], [src/PMMR/Common/LeafSet.h])

    The bitmap of unspent outputs is cut into chunks of 1024 bits; the
    accumulator is an in-memory MMR whose leaves are the chunks.  [LeafSet] is
    the bitmap file seen as a set of leaves, with the root of its chunks. *)
From S2P Require Import Prelude BitUtil MMRIndex MMRUtil Serial BigInteger File Roaring PruneList BitmapFile MMRHash SegmentId.

Definition LEN_BITS : Z := 1024.
Definition LEN_BYTES : Z := LEN_BITS / 8.

(** [BitmapChunk]: an array of 128 bytes.  Bit indices are below 1024 wherever
    the sources call these functions; the array access is not checked. *)
Record BitmapChunk := mkBitmapChunk { chunk_bytes : bytes }.

Definition BitmapChunk_new : BitmapChunk := mkBitmapChunk (repeat 0 (Z.to_nat LEN_BYTES)).

Definition BitmapChunk_Any (c : BitmapChunk) : bool := existsb (fun byte => negb (byte =? 0)) (chunk_bytes c).

Definition BitmapChunk_IsSet (bitIndex : Z) (c : BitmapChunk) : bool :=
  let byteIndex := bitIndex / 8 in
  let bitOffset := bitIndex mod 8 in
  negb (Z.land (byte_at (chunk_bytes c) byteIndex) (BitToByte bitOffset) =? 0).

Definition BitmapChunk_Set (bitIndex : Z) (value : bool) (c : BitmapChunk) : BitmapChunk :=
  let byteIndex := bitIndex / 8 in
  let bitOffset := bitIndex mod 8 in
  let byte := byte_at (chunk_bytes c) byteIndex in
  mkBitmapChunk (<[Z.to_nat byteIndex :=
    if value then Z.lor byte (BitToByte bitOffset)
    else Z.land byte (uint 8 (Z.lnot (BitToByte bitOffset)))]> (chunk_bytes c)).

#[export] Instance BitmapChunk_Serializable : Serializable BitmapChunk := {
  Serialize c s := append_all AppendU8 (chunk_bytes c) s;
  Deserialize := bs ← read_list (Z.to_nat LEN_BYTES) ReadU8; mret (mkBitmapChunk bs);
}.

Definition BitmapChunk_wf (_ : EProtocolVersion) (c : BitmapChunk) : Prop :=
  length (chunk_bytes c) = Z.to_nat LEN_BYTES /\ Forall is_byte (chunk_bytes c).

Lemma concat_single (bs : bytes) : Forall is_byte bs -> concat (map (be_bytes 1) bs) = bs.
Proof.
  induction 1 as [|b bs Hb _ IH]; [done|]. cbn [map concat]. rewrite IH.
  unfold be_bytes, is_byte, is_uint in *. simpl. rewrite Z.mod_small by (change 256 with (2 ^ 8); lia). done.
Qed.

Lemma append_u8_all (bs : bytes) s :
  append_all AppendU8 bs s = mkSerializer (s_version s) (s_bytes s ++ concat (map (be_bytes 1) bs)).
Proof. by apply append_all_bytes. Qed.

(** A chunk is written as its bytes. *)
Lemma Serialized_chunk v c : Forall is_byte (chunk_bytes c) -> Serialized v c = chunk_bytes c.
Proof.
  intros Hc. unfold Serialized, Serialize, BitmapChunk_Serializable. rewrite append_u8_all.
  cbn [s_bytes Serializer_new app]. by apply concat_single.
Qed.

Lemma reads_u8s v (bs : bytes) :
  Forall is_byte bs -> reads v (read_list (length bs) ReadU8) (concat (map (be_bytes 1) bs)) bs.
Proof.
  intros Hb. apply reads_list. eapply Forall_impl; [apply Hb|]. intros b Hb'. apply reads_be.
  unfold is_byte, is_uint in Hb'. change (256 ^ 1%nat) with (2 ^ 8). done.
Qed.

#[export] Instance BitmapChunk_laws : SerializableLaws BitmapChunk BitmapChunk_wf.
Proof.
  constructor.
  - intros c s. unfold Serialized, Serialize, BitmapChunk_Serializable. by rewrite !append_u8_all.
  - intros v [bs] [Hl Hb]. cbn [chunk_bytes] in *. unfold Serialized, Serialize, BitmapChunk_Serializable.
    rewrite append_u8_all. cbn [s_bytes Serializer_new app chunk_bytes].
    unfold Deserialize. rewrite <- Hl. apply (reads_map v _ _ _ mkBitmapChunk). by apply reads_u8s.
Qed.

(** ** [BitmapAccumulator] *)
Record BitmapAccumulator := mkBitmapAccumulator { m_chunks : list BitmapChunk; m_nodes : list Hash }.

Definition BitmapAccumulator_new : BitmapAccumulator := mkBitmapAccumulator [] [].

Definition ChunkStartIndex (bitIndex : Z) : Z := Z.land bitIndex (uint 64 (Z.lnot (LEN_BITS - 1))).
Definition ChunkIndex (bitIndex : Z) : Z := bitIndex / LEN_BITS.

Section accumulator.
Context (Blake2b : bytes -> Hash).
Local Abbreviation HashParent := (HashParentWithIndex Blake2b).

Definition BitmapAccumulator_HashLeafWithIndex (chunk : BitmapChunk) (mmrIndex : Z) : Hash :=
  Blake2b (s_bytes (AppendByteVector (Serialized V1 chunk) LenNone (AppendU64 mmrIndex (Serializer_new V1)))).

(** The loop over the parents; the vector access [m_nodes[...]] is unchecked. *)
Fixpoint AppendHashChunk_loop (fuel : nat) (mmrIndex : Index) (nodes : list Hash) : result (list Hash) :=
  match fuel with
  | O => Throw OutOfFuel
  | S fuel =>
      if Index_IsLeaf mmrIndex then mret nodes
      else
        leftHash ← of_option UB (nodes !! Z.to_nat (m_position (Index_GetLeftChild mmrIndex)));
        rightHash ← of_option UB (nodes !! Z.to_nat (m_position (Index_GetRightChild mmrIndex)));
        AppendHashChunk_loop fuel (Index_GetNext mmrIndex)
          (nodes ++ [HashParent leftHash rightHash (m_position mmrIndex)])
  end.

Definition AppendHashChunk (chunk : BitmapChunk) (nodes : list Hash) : result (list Hash) :=
  let leafPos := length nodes in
  AppendHashChunk_loop 64 (Index_At (leafPos + 1)%u64)
    (nodes ++ [BitmapAccumulator_HashLeafWithIndex chunk leafPos]).

Definition AppendChunk (chunk : BitmapChunk) (a : BitmapAccumulator) : result BitmapAccumulator :=
  nodes ← AppendHashChunk chunk (m_nodes a);
  mret (mkBitmapAccumulator (m_chunks a ++ [chunk]) nodes).

(** [Build]: the hashes of all chunks, from scratch. *)
Fixpoint Build_loop (chunks : list BitmapChunk) (nodes : list Hash) : result (list Hash) :=
  match chunks with
  | [] => mret nodes
  | chunk :: chunks => nodes ← AppendHashChunk chunk nodes; Build_loop chunks nodes
  end.

Definition BitmapAccumulator_Build (a : BitmapAccumulator) : result BitmapAccumulator :=
  nodes ← Build_loop (m_chunks a) [];
  mret (mkBitmapAccumulator (m_chunks a) nodes).

(** [while (bitIndex >= (chunkIndex + 1) * NBITS) { push; ++chunkIndex; new chunk }];
    [n] bounds the chunks up to that of [bitIndex]. *)
Fixpoint ApplyFrom_skip (n : nat) (bitIndex chunkIndex : Z) (chunk : BitmapChunk) (chunks : list BitmapChunk)
    : Z * BitmapChunk * list BitmapChunk :=
  match n with
  | O => (chunkIndex, chunk, chunks)
  | S n =>
      if bitIndex >=? ((chunkIndex + 1) * LEN_BITS)%u64
      then ApplyFrom_skip n bitIndex (chunkIndex + 1)%u64 BitmapChunk_new (chunks ++ [chunk])
      else (chunkIndex, chunk, chunks)
  end.

Fixpoint ApplyFrom_loop (setBitIndices : list Z) (size chunkIndex : Z) (chunk : BitmapChunk)
    (chunks : list BitmapChunk) : BitmapChunk * list BitmapChunk :=
  match setBitIndices with
  | [] => (chunk, chunks)
  | bitIndex :: rest =>
      if bitIndex >=? size then (chunk, chunks)
      else
        let '(chunkIndex, chunk, chunks) :=
          ApplyFrom_skip (Z.to_nat (bitIndex / LEN_BITS - chunkIndex)) bitIndex chunkIndex chunk chunks in
        ApplyFrom_loop rest size chunkIndex (BitmapChunk_Set (bitIndex mod LEN_BITS) true chunk) chunks
  end.

Definition ApplyFrom (setBitIndices : list Z) (fromIndex size : Z) (a : BitmapAccumulator) : result BitmapAccumulator :=
  let '(chunk, chunks) := ApplyFrom_loop setBitIndices size (ChunkIndex fromIndex) BitmapChunk_new (m_chunks a) in
  let chunks :=
    if BitmapChunk_Any chunk || negb (bool_decide (setBitIndices = [])) then chunks ++ [chunk] else chunks in
  BitmapAccumulator_Build (mkBitmapAccumulator chunks (m_nodes a)).

Definition BitmapAccumulator_Init (setBitIndices : list Z) (size : Z) (a : BitmapAccumulator) : result BitmapAccumulator :=
  ApplyFrom setBitIndices 0 size (mkBitmapAccumulator [] (m_nodes a)).

Definition BitmapAccumulator_GetHashAt (mmrPosition : Z) (a : BitmapAccumulator) : option Hash :=
  if mmrPosition >=? length (m_nodes a) then None else m_nodes a !! Z.to_nat mmrPosition.

Definition BitmapAccumulator_GetMMRSize (a : BitmapAccumulator) : Z := length (m_nodes a).

Fixpoint BitmapRoot_loop (nodes : list Hash) (peaks : list Z) (root : Hash) : result Hash :=
  match peaks with
  | [] => mret root
  | pos :: peaks =>
      peakHash ← of_option UB (nodes !! Z.to_nat pos);
      BitmapRoot_loop nodes peaks
        (if BigInteger_eq root ZERO_HASH then peakHash else HashParent peakHash root (length nodes))
  end.

Definition BitmapAccumulator_Root (a : BitmapAccumulator) : result Hash :=
  if bool_decide (m_nodes a = []) then mret ZERO_HASH
  else BitmapRoot_loop (m_nodes a) (rev (GetPeakIndices (length (m_nodes a)))) ZERO_HASH.

(** ** [LeafSet] *)
Abbreviation LeafSet := BitmapFile (only parsing).

Definition LeafSet_Add (leafIndex : LeafIndex) (s : LeafSet) : LeafSet := BitmapFile_Set (m_leafIndex leafIndex) s.
Definition LeafSet_Remove (leafIndex : LeafIndex) (s : LeafSet) : LeafSet := BitmapFile_Unset (m_leafIndex leafIndex) s.
Definition LeafSet_Contains (leafIndex : LeafIndex) (s : LeafSet) : bool := BitmapFile_IsSet (m_leafIndex leafIndex) s.
Definition LeafSet_Rewind (numLeaves : Z) (leavesToAdd : list Z) (s : LeafSet) : LeafSet :=
  BitmapFile_Rewind numLeaves leavesToAdd s.
Definition LeafSet_Commit (s : LeafSet) : LeafSet := BitmapFile_Commit s.
Definition LeafSet_Rollback (s : LeafSet) : LeafSet := BitmapFile_Rollback s.

(** The bitmap a snapshot writes. *)
Definition LeafSet_Snapshot `{Roaring R} (s : LeafSet) : bytes := Roaring_write (BitmapFile_ToRoaring s : R).

(** Chunk [i] of the file. *)
Definition LeafSet_chunk (i : Z) (s : LeafSet) : BitmapChunk :=
  mkBitmapChunk (map (fun j => BitmapFile_GetByte (i * LEN_BYTES + j) s) (seqZ 0 LEN_BYTES)).

Fixpoint LeafSet_Root_loop (n : nat) (i : Z) (s : LeafSet) (a : BitmapAccumulator) : result BitmapAccumulator :=
  match n with
  | O => mret a
  | S n => a ← AppendChunk (LeafSet_chunk i s) a; LeafSet_Root_loop n (i + 1) s a
  end.

Definition LeafSet_Root (numOutputs : Z) (s : LeafSet) : result Hash :=
  let numChunks := (numOutputs + 1023)%u64 / 1024 in
  a ← LeafSet_Root_loop (Z.to_nat numChunks) 0 s BitmapAccumulator_new;
  BitmapAccumulator_Root a.

(** ** The accumulator is an MMR *)

(** The nodes in memory, as a hash file. *)
Local Instance mem_HashFile : HashFile (list Hash * list Hash) := {
  hf_GetSize f := length f.1;
  hf_GetDataAt p f := of_option FileException (f.1 !! Z.to_nat p);
  hf_AddData r f := (f.1 ++ [r], f.2);
  hf_Rewind k f :=
    if k <=? length f.1 then (Ok tt, (take (Z.to_nat k) f.1, f.2)) else (Throw FileException, f);
  hf_Commit f := (Ok tt, (f.1, f.1));
  hf_Rollback f := (f.2, f.2);
}.

Local Program Instance mem_HashFileLaws : HashFileLaws (list Hash * list Hash) := {
  hf_repr l c f := f = (l, c) /\ length l < 2 ^ 58 /\ length c < 2 ^ 58;
}.
Next Obligation. intros l c f (_ & H & _). done. Qed.
Next Obligation. intros l c f (-> & _). done. Qed.
Next Obligation. intros l c f p (-> & _) _. done. Qed.
Next Obligation.
  intros l c f r (-> & Hl & Hc) _ Hroom. unfold hf_room in Hroom.
  split; [done|]. rewrite length_app. simpl. lia.
Qed.
Next Obligation.
  intros l c f k (-> & Hl & Hc) Hk. cbn [hf_Rewind mem_HashFile fst snd].
  destruct (k <=? length l); (split; [done|]); (split; [done|]); rewrite ?length_take; lia.
Qed.
Next Obligation. intros l c f (-> & Hl & Hc). eexists. done. Qed.
Next Obligation. intros l c f (-> & Hl & Hc). done. Qed.

Lemma AppendHashChunk_loop_AddHashes fuel idx l c l' c' :
  AddHashes_loop Blake2b fuel idx (None : option (PruneList (list Z))) (l, c) = (Ok tt, (l', c')) ->
  AppendHashChunk_loop fuel idx l = Ok l'.
Proof.
  revert idx l. induction fuel as [|fuel IH]; intros idx l; cbn [AddHashes_loop AppendHashChunk_loop]; [done|].
  destruct (Index_IsLeaf idx); [by intros [= -> _]|].
  unfold mbind, ST_bind, result_bind, st_get, st_lift, st_modify, GetHashAt. cbn [hf_GetDataAt mem_HashFile fst].
  destruct (l !! Z.to_nat (m_position (Index_GetLeftChild idx))); cbn [of_option]; [|done].
  destruct (l !! Z.to_nat (m_position (Index_GetRightChild idx))); cbn [of_option]; [|done].
  apply IH.
Qed.

Lemma AddHashes_mem leaf nodes c :
  AddHashes Blake2b leaf (None : option (PruneList (list Z))) (nodes, c) =
  AddHashes_loop Blake2b 64 (Index_At (length nodes + 1)%u64) (None : option (PruneList (list Z)))
    (nodes ++ [HashLeafWithIndex Blake2b leaf (length nodes)], c).
Proof. unfold AddHashes. generalize 64%nat. intros fuel. reflexivity. Qed.

Lemma AppendHashChunk_AddHashes chunk nodes nodes' c :
  Forall is_byte (chunk_bytes chunk) ->
  AddHashes Blake2b (chunk_bytes chunk) (None : option (PruneList (list Z))) (nodes, c) = (Ok tt, (nodes', c)) ->
  AppendHashChunk chunk nodes = Ok nodes'.
Proof.
  rewrite AddHashes_mem. unfold AppendHashChunk, BitmapAccumulator_HashLeafWithIndex, HashLeafWithIndex.
  intros Hc E. rewrite Serialized_chunk by done. revert E. generalize 64%nat. intros fuel.
  apply AppendHashChunk_loop_AddHashes.
Qed.

(** The nodes are the hash tree of the chunks. *)
Record accumulator_ok (a : BitmapAccumulator) : Prop := {
  acc_chunks : Forall (BitmapChunk_wf V1) (m_chunks a);
  acc_nodes : tree_hashes Blake2b (map chunk_bytes (m_chunks a)) (m_nodes a);
}.

(** ** Bits of chunks and of the leaf set *)

Lemma BitmapChunk_new_wf : BitmapChunk_wf V1 BitmapChunk_new.
Proof. split; [done|]. apply Forall_forall. intros b Hb.
  apply list_elem_of_In, repeat_spec in Hb as ->. unfold is_byte, is_uint. lia. Qed.

Lemma chunk_IsSet_testbit j c :
  BitmapChunk_IsSet j c = Z.testbit (byte_at (chunk_bytes c) (j / 8)) (7 - j mod 8).
Proof. apply land_BitToByte. apply Z.mod_pos_bound. lia. Qed.

Lemma chunk_IsSet_Set c i j :
  BitmapChunk_wf V1 c -> 0 <= i < LEN_BITS -> 0 <= j ->
  BitmapChunk_IsSet j (BitmapChunk_Set i true c) = (i =? j) || BitmapChunk_IsSet j c.
Proof.
  intros [Hl _] Hi Hj. rewrite !chunk_IsSet_testbit. unfold BitmapChunk_Set, byte_at. cbn [chunk_bytes].
  pose proof (Z.mod_pos_bound i 8 ltac:(lia)). pose proof (Z.mod_pos_bound j 8 ltac:(lia)).
  assert (0 <= i / 8 < LEN_BYTES) by (split; [apply Z.div_pos; lia|apply Z.div_lt_upper_bound; change LEN_BYTES with 128 in *; unfold LEN_BITS in *; lia]).
  assert (0 <= j / 8) by (apply Z.div_pos; lia).
  destruct (Z.eqb_spec (i / 8) (j / 8)) as [E|E].
  - rewrite E, list_lookup_insert_eq by lia. cbn [default from_option id].
    rewrite Z.lor_spec, testbit_BitToByte, <- (div_mod_eqb i j) by lia. apply orb_comm.
  - rewrite list_lookup_insert_ne by lia. destruct (Z.eqb_spec i j) as [->|]; [done|done].
Qed.

Lemma BitmapChunk_Set_wf c i value : BitmapChunk_wf V1 c -> BitmapChunk_wf V1 (BitmapChunk_Set i value c).
Proof.
  intros [Hl Hb]. unfold BitmapChunk_Set. split; cbn [chunk_bytes]; [by rewrite length_insert|].
  apply Forall_insert; [done|]. set (x := byte_at (chunk_bytes c) (i / 8)).
  assert (is_byte x) as Hx.
  { unfold x, byte_at. destruct (chunk_bytes c !! Z.to_nat (i / 8)) eqn:E; cbn [default from_option id].
    - rewrite Forall_lookup in Hb. by eapply Hb.
    - unfold is_byte, is_uint. lia. }
  destruct value.
  - apply uint_lor; [done..|]. apply uint_range. lia.
  - by apply uint_land.
Qed.

(** Bit [j] of a list of chunks; the bits beyond them are unset. *)
Definition bit_at (chunks : list BitmapChunk) (j : Z) : bool :=
  match chunks !! Z.to_nat (j / LEN_BITS) with
  | Some c => BitmapChunk_IsSet (j mod LEN_BITS) c
  | None => false
  end.

Lemma chunk_new_unset j : BitmapChunk_IsSet j BitmapChunk_new = false.
Proof.
  rewrite chunk_IsSet_testbit. unfold byte_at, BitmapChunk_new. cbn [chunk_bytes].
  destruct (repeat 0 (Z.to_nat LEN_BYTES) !! Z.to_nat (j / 8)) as [b|] eqn:E; cbn [default from_option id]; [|by rewrite Z.bits_0].
  apply list_elem_of_lookup_2, list_elem_of_In, repeat_spec in E as ->. by rewrite Z.bits_0.
Qed.

Lemma bit_at_new chunks j : bit_at (chunks ++ [BitmapChunk_new]) j = bit_at chunks j.
Proof.
  unfold bit_at. destruct (Nat.lt_ge_cases (Z.to_nat (j / LEN_BITS)) (length chunks)) as [Hlt|Hge].
  - by rewrite lookup_app_l.
  - rewrite lookup_app_r, (lookup_ge_None_2 chunks) by done.
    destruct (Z.to_nat (j / LEN_BITS) - length chunks)%nat; [apply chunk_new_unset|done].
Qed.

Lemma bit_at_Set chunks c i j :
  BitmapChunk_wf V1 c -> 0 <= i -> i / LEN_BITS = length chunks -> 0 <= j ->
  bit_at (chunks ++ [BitmapChunk_Set (i mod LEN_BITS) true c]) j = (i =? j) || bit_at (chunks ++ [c]) j.
Proof.
  intros Hc Hi Hlen Hj. unfold bit_at.
  pose proof (Z.mod_pos_bound i LEN_BITS ltac:(done)). pose proof (Z.mod_pos_bound j LEN_BITS ltac:(done)).
  pose proof (Z.div_mod i LEN_BITS ltac:(done)). pose proof (Z.div_mod j LEN_BITS ltac:(done)).
  assert (0 <= j / LEN_BITS) by (apply Z.div_pos; unfold LEN_BITS; lia).
  destruct (Z.eq_dec (j / LEN_BITS) (length chunks)) as [E|E].
  - rewrite E, Nat2Z.id, !lookup_app_r, Nat.sub_diag by lia. cbn [lookup list_lookup].
    rewrite chunk_IsSet_Set by (lia || done). f_equal.
    destruct (Z.eqb_spec (i mod LEN_BITS) (j mod LEN_BITS)), (Z.eqb_spec i j); congruence || (exfalso; lia) || done.
  - destruct (Z.eqb_spec i j) as [->|]; [done|]. cbn [orb].
    destruct (Nat.lt_ge_cases (Z.to_nat (j / LEN_BITS)) (length chunks)).
    + by rewrite !lookup_app_l.
    + rewrite !lookup_ge_None_2; [done|rewrite length_app; simpl; lia..].
Qed.

Lemma ApplyFrom_skip_ok (n : nat) i k chunk chunks :
  Z.of_nat (length chunks) = k -> 0 <= i < 2 ^ 58 -> i / LEN_BITS = k + n ->
  Forall (BitmapChunk_wf V1) (chunks ++ [chunk]) ->
  exists chunk' chunks', ApplyFrom_skip n i k chunk chunks = (i / LEN_BITS, chunk', chunks') /\
    Z.of_nat (length chunks') = i / LEN_BITS /\ Forall (BitmapChunk_wf V1) (chunks' ++ [chunk']) /\
    forall j, bit_at (chunks' ++ [chunk']) j = bit_at (chunks ++ [chunk]) j.
Proof.
  intros Hlen Hi. assert (i / LEN_BITS < 2 ^ 48) by (apply Z.div_lt_upper_bound; unfold LEN_BITS; lia).
  revert k chunk chunks Hlen. induction n as [|n IH]; intros k chunk chunks Hlen Hk Hw; cbn [ApplyFrom_skip].
  - exists chunk, chunks. split; [do 2 f_equal; lia|]. split; [lia|]. done.
  - assert (i / LEN_BITS * LEN_BITS <= i) by (rewrite Z.mul_comm; apply Z.mul_div_le; done).
    rewrite !uint_small by (unfold LEN_BITS in *; uint_solve).
    destruct (Z.geb_spec i ((k + 1) * LEN_BITS)); [|unfold LEN_BITS in *; lia].
    destruct (IH (k + 1) BitmapChunk_new (chunks ++ [chunk])) as (c' & cs' & E & Hl & Hw' & Hbit).
    + rewrite length_app. simpl. lia.
    + lia.
    + apply Forall_app. split; [done|]. apply Forall_singleton, BitmapChunk_new_wf.
    + exists c', cs'. split; [done|]. split; [done|]. split; [done|]. intros j. rewrite Hbit. apply bit_at_new.
Qed.

Lemma ApplyFrom_loop_ok idxs size k chunk chunks chunk' chunks' :
  StronglySorted Z.le idxs -> Forall (fun i => k * LEN_BITS <= i) idxs -> 0 <= size < 2 ^ 58 ->
  Forall (BitmapChunk_wf V1) (chunks ++ [chunk]) -> Z.of_nat (length chunks) = k ->
  ApplyFrom_loop idxs size k chunk chunks = (chunk', chunks') ->
  Forall (BitmapChunk_wf V1) (chunks' ++ [chunk']) /\
  length chunks' <= Z.max (length chunks) (size / LEN_BITS) /\
  forall j, 0 <= j ->
    bit_at (chunks' ++ [chunk']) j = bit_at (chunks ++ [chunk]) j || ((j <? size) && bool_decide (j ∈ idxs)).
Proof.
  intros Hs Hk Hsize. revert k chunk chunks Hk.
  induction Hs as [|i idxs Hs IH Hle]; intros k chunk chunks Hk Hw Hlen; cbn [ApplyFrom_loop].
  { intros [= <- <-]. split; [done|]. split; [lia|]. intros j _. by rewrite andb_false_r, orb_false_r. }
  apply Forall_cons in Hk as [Hki Hk]. destruct (Z.geb_spec i size) as [Hi|Hi].
  { intros [= <- <-]. split; [done|]. split; [lia|]. intros j _.
    destruct (Z.ltb_spec j size); [|by rewrite orb_false_r].
    rewrite bool_decide_eq_false_2; [by rewrite orb_false_r|]. rewrite elem_of_cons.
    intros [->|Hin]; [lia|]. rewrite Forall_forall in Hle. specialize (Hle j Hin). lia. }
  assert (0 <= k) by lia. unfold LEN_BITS in Hki. assert (0 <= i) by lia.
  assert (k <= i / LEN_BITS) by (apply Z.div_le_lower_bound; unfold LEN_BITS; lia).
  destruct (ApplyFrom_skip_ok (Z.to_nat (i / LEN_BITS - k)) i k chunk chunks) as (c1 & cs1 & -> & Hl1 & Hw1 & Hb1); [done|lia|lia|done|].
  pose proof Hw1 as [Hw1a Hw1b]%Forall_app. rewrite Forall_singleton in Hw1b.
  intros E. apply IH in E as (Hw' & Hlen' & Hbits); [| | |done].
  - split; [done|]. assert (i / LEN_BITS <= size / LEN_BITS) by (apply Z.div_le_mono; unfold LEN_BITS; lia).
    split; [lia|]. intros j Hj. rewrite Hbits, bit_at_Set, Hb1 by (assumption || lia).
    destruct (bit_at (chunks ++ [chunk]) j); [by rewrite orb_true_r|]. rewrite orb_false_r.
    destruct (Z.eqb_spec i j) as [->|Hne].
    + rewrite (bool_decide_eq_true_2 (j ∈ j :: idxs)) by (by left). destruct (Z.ltb_spec j size); [done|lia].
    + cbn [orb]. f_equal. apply bool_decide_ext. rewrite elem_of_cons. split; [by right|]. intros [->|]; done.
  - eapply Forall_impl; [apply Hle|]. cbn. intros j Hj.
    assert (i / LEN_BITS * LEN_BITS <= i) by (rewrite Z.mul_comm; apply Z.mul_div_le; done). lia.
  - apply Forall_app. split; [done|]. apply Forall_singleton. by apply BitmapChunk_Set_wf.
Qed.

(** The bytes of a bitmap file are bytes. *)
Definition bits_ok (f : BitmapFile) : Prop :=
  Forall is_byte (m_mmap f) /\ map_Forall (fun _ b => is_byte b) (m_modifiedBytes f).

Lemma GetByte_is_byte j f : bits_ok f -> is_byte (BitmapFile_GetByte j f).
Proof.
  intros [Hm Hmod]. unfold BitmapFile_GetByte. destruct (m_modifiedBytes f !! j) eqn:E; [by eapply Hmod|].
  assert (is_byte 0) by (unfold is_byte, is_uint; lia).
  destruct (j <? length (m_mmap f)); [|done].
  destruct (m_mmap f !! Z.to_nat j) eqn:E'; cbn [default from_option id]; [|done]. rewrite Forall_lookup in Hm. by eapply Hm.
Qed.

Lemma LeafSet_chunk_wf i s : bits_ok s -> BitmapChunk_wf V1 (LeafSet_chunk i s).
Proof.
  intros Hs. unfold LeafSet_chunk. split; cbn [chunk_bytes].
  - by rewrite length_map, length_seqZ.
  - apply Forall_map, Forall_forall. intros j _. by apply GetByte_is_byte.
Qed.

Lemma LeafSet_chunk_IsSet j s :
  0 <= j -> BitmapChunk_IsSet (j mod LEN_BITS) (LeafSet_chunk (ChunkIndex j) s) = BitmapFile_IsSet j s.
Proof.
  intros Hj. rewrite chunk_IsSet_testbit, IsSet_testbit by done. unfold LeafSet_chunk, byte_at, ChunkIndex. cbn [chunk_bytes].
  pose proof (Z.mod_pos_bound j LEN_BITS ltac:(done)). pose proof (Z.div_mod j LEN_BITS ltac:(done)).
  assert (0 <= j mod LEN_BITS / 8 < LEN_BYTES).
  { split; [apply Z.div_pos; lia|]. apply Z.div_lt_upper_bound; change LEN_BYTES with 128 in *; unfold LEN_BITS in *; lia. }
  assert (j mod LEN_BITS mod 8 = j mod 8) as ->.
  { unfold LEN_BITS. apply (Z.mod_mod_divide j 1024 8). by exists 128. }
  f_equal.
  change (map (fun j0 => BitmapFile_GetByte (j / LEN_BITS * LEN_BYTES + j0) s)) with
    (fmap (M := list) (fun j0 => BitmapFile_GetByte (j / LEN_BITS * LEN_BYTES + j0) s)).
  rewrite list_lookup_fmap, lookup_seqZ_lt by lia. cbn [fmap option_fmap option_map default from_option id].
  f_equal. replace (0 + Z.of_nat (Z.to_nat (j mod LEN_BITS / 8))) with (j mod LEN_BITS / 8) by lia.
  change LEN_BYTES with 128 in *; unfold LEN_BITS in *. change (1024 / 8) with 128.
  replace j with (j mod 1024 + j / 1024 * 128 * 8) at 3 by lia. rewrite Z.div_add by lia. lia.
Qed.

Section append.
Hypothesis Blake2b_length : forall x, length (Blake2b x) = 32%nat.

Lemma AppendHashChunk_ok chunks chunk nodes :
  length chunks + 1 < 2 ^ 50 -> BitmapChunk_wf V1 chunk ->
  tree_hashes Blake2b (map chunk_bytes chunks) nodes ->
  exists nodes', AppendHashChunk chunk nodes = Ok nodes' /\
    tree_hashes Blake2b (map chunk_bytes (chunks ++ [chunk])) nodes'.
Proof.
  intros Hb Hc Ht. pose proof Ht as [Hlen _]. rewrite length_map in Hlen.
  pose proof (mmr_size_bound (length chunks) ltac:(lia)). pose proof (mmr_size_bound (length chunks + 1) ltac:(lia)).
  destruct (AddHashes_ok (R := list Z) Blake2b (map chunk_bytes chunks) (chunk_bytes chunk) nodes [] (nodes, []) Blake2b_length)
    as (l' & f' & E & (-> & _) & Ht'); [rewrite length_map; lia|split; [done|]; simpl; lia|done|rewrite length_map; simpl; lia|].
  exists l'. rewrite map_app. split; [|done]. eapply AppendHashChunk_AddHashes; [apply Hc|apply E].
Qed.

Lemma AppendChunk_ok a chunk :
  accumulator_ok a -> length (m_chunks a) + 1 < 2 ^ 50 -> BitmapChunk_wf V1 chunk ->
  exists a', AppendChunk chunk a = Ok a' /\ accumulator_ok a' /\ m_chunks a' = m_chunks a ++ [chunk].
Proof.
  intros [Hc Ht] Hb Hw. destruct (AppendHashChunk_ok (m_chunks a) chunk (m_nodes a) Hb Hw Ht) as (nodes' & E & Ht').
  unfold AppendChunk. rewrite E. cbn [mbind result_bind mret result_ret]. eexists. split; [done|]. split; [|done].
  constructor; cbn [m_chunks m_nodes]; [|done]. apply Forall_app. split; [done|]. by apply Forall_singleton.
Qed.

Lemma Build_loop_ok done_ chunks nodes :
  length (done_ ++ chunks) < 2 ^ 50 -> Forall (BitmapChunk_wf V1) chunks ->
  tree_hashes Blake2b (map chunk_bytes done_) nodes ->
  exists nodes', Build_loop chunks nodes = Ok nodes' /\ tree_hashes Blake2b (map chunk_bytes (done_ ++ chunks)) nodes'.
Proof.
  intros Hb Hc. revert done_ nodes Hb. induction Hc as [|chunk chunks Hw Hc IH]; intros done_ nodes Hb Ht.
  - exists nodes. by rewrite app_nil_r.
  - rewrite length_app in Hb. simpl in Hb.
    destruct (AppendHashChunk_ok done_ chunk nodes ltac:(lia) Hw Ht) as (nodes1 & E1 & Ht1).
    destruct (IH (done_ ++ [chunk]) nodes1) as (nodes2 & E2 & Ht2); [rewrite <- app_assoc, length_app; simpl; lia|done|].
    exists nodes2. cbn [Build_loop]. rewrite E1. cbn [mbind result_bind]. split; [done|].
    by rewrite <- app_assoc in Ht2.
Qed.

Hypothesis Blake2b_nonzero : forall x, Blake2b x <> ZERO_HASH.

Lemma BitmapRoot_loop_Root_loop nodes ps h :
  Forall (fun x => length x = 32%nat /\ x <> ZERO_HASH) nodes ->
  Forall (fun pos => exists x, nodes !! Z.to_nat pos = Some x) ps ->
  BitmapRoot_loop nodes ps h =
  Root_loop Blake2b (nodes, []) (length nodes) (None : option (PruneList (list Z))) ps h.
Proof.
  intros Hn Hps. revert h. induction Hps as [|pos ps [x Hx] Hps IH]; intros h; [done|].
  cbn [BitmapRoot_loop Root_loop]. unfold GetShiftedIndex. cbn [hf_GetDataAt mem_HashFile fst Index_At m_position].
  rewrite Hx. cbn [of_option mbind result_bind]. unfold mbind, result_bind.
  rewrite Forall_forall in Hn. destruct (Hn x) as [Hl Hz]; [by eapply list_elem_of_lookup_2|].
  rewrite neq_zero, bool_decide_eq_false_2 by done. cbn [negb]. apply IH.
Qed.

(** Every node of a tree is a hash. *)
Lemma tree_nodes_hashes leaves nodes :
  length leaves < 2 ^ 50 -> tree_hashes Blake2b leaves nodes ->
  Forall (fun x => length x = 32%nat /\ x <> ZERO_HASH) nodes.
Proof.
  intros Hb [Hlen Hl]. apply Forall_lookup. intros p x Hp. pose proof (lookup_lt_Some _ _ _ Hp).
  destruct (node_pos_surj p) as (h & i & Hh & Hi & E); [lia|].
  assert ((i + 1) * 2 ^ h <= length leaves) as Hin by (apply node_in_mmr; lia).
  rewrite <- (Z2Nat.id h) in Hin, E by done. specialize (Hl _ i Hi Hin).
  rewrite <- E, Nat2Z.id, Hp in Hl. injection Hl as ->.
  split; [by apply node_hash_length|by apply node_hash_nonzero].
Qed.

Lemma BitmapAccumulator_Root_ok a :
  accumulator_ok a -> length (m_chunks a) < 2 ^ 50 ->
  BitmapAccumulator_Root a = Ok (mmr_root Blake2b (map chunk_bytes (m_chunks a))).
Proof.
  intros [Hc Ht] Hb. pose proof Ht as [Hlen Hl]. rewrite length_map in Hlen.
  pose proof (mmr_size_bound (length (m_chunks a)) ltac:(lia)).
  pose proof (Root_ok (R := list Z) Blake2b (map chunk_bytes (m_chunks a)) [] (m_nodes a) [] (m_nodes a, []) Blake2b_length Blake2b_nonzero) as HR.
  rewrite app_nil_r, length_map in HR. rewrite <- HR; [|done|split; [done|simpl; lia]|done].
  unfold BitmapAccumulator_Root, Root. rewrite <- Hlen. case_bool_decide as E.
  - rewrite E. done.
  - destruct (Z.eqb_spec (length (m_nodes a)) 0); [by destruct (m_nodes a)|].
    apply BitmapRoot_loop_Root_loop.
    + eapply tree_nodes_hashes; [|done]. by rewrite length_map.
    + rewrite Hlen, GetPeakIndices_mmr_size by lia. apply Forall_rev.
      pose proof (peaks_lookup Blake2b _ _ 64 Ht) as HF. rewrite length_map in HF.
      apply Forall_forall. intros pos Hpos. apply list_elem_of_lookup_1 in Hpos as [k Hk].
      destruct (Forall2_lookup_l _ _ _ _ _ HF Hk) as (x & _ & Hx). by exists x.
Qed.


Lemma Build_ok chunks nodes :
  length chunks < 2 ^ 50 -> Forall (BitmapChunk_wf V1) chunks ->
  exists a', BitmapAccumulator_Build (mkBitmapAccumulator chunks nodes) = Ok a' /\
    accumulator_ok a' /\ m_chunks a' = chunks.
Proof.
  intros Hb Hc. destruct (Build_loop_ok [] chunks [] Hb Hc) as (nodes' & E & Ht); [apply tree_hashes_nil|].
  unfold BitmapAccumulator_Build. cbn [m_chunks]. rewrite E. cbn [mbind result_bind mret result_ret].
  eexists. split; [done|]. split; [|done]. by constructor.
Qed.

(** ** The bits of a list of chunks *)

Lemma LeafSet_Root_loop_ok (n : nat) i s a :
  bits_ok s -> accumulator_ok a -> length (m_chunks a) + n < 2 ^ 50 ->
  exists a', LeafSet_Root_loop n i s a = Ok a' /\ accumulator_ok a' /\
    m_chunks a' = m_chunks a ++ map (fun k => LeafSet_chunk k s) (seqZ i n).
Proof.
  intros Hs. revert i a. induction n as [|n IH]; intros i a Ha Hb.
  - exists a. by rewrite app_nil_r.
  - destruct (AppendChunk_ok a (LeafSet_chunk i s) Ha ltac:(lia)) as (a1 & E1 & Ha1 & Hc1); [by apply LeafSet_chunk_wf|].
    destruct (IH (i + 1) a1 Ha1) as (a2 & E2 & Ha2 & Hc2); [rewrite Hc1, length_app; simpl; lia|].
    exists a2. cbn [LeafSet_Root_loop]. rewrite E1. cbn [mbind result_bind]. split; [done|]. split; [done|].
    rewrite Hc2, Hc1, <- app_assoc. rewrite (seqZ_cons i (S n)) by lia. cbn [map app].
    replace (Z.pred (S n)) with (Z.of_nat n) by lia. done.
Qed.

(** ** Properties *)

(** appending a chunk to the accumulator terminates and gives the MMR of
    all chunks: the same nodes as building it again from all chunks, the size
    and the root of that MMR. *)
Theorem BitmapAccumulator_AppendChunk_Build a chunk nodes :
  accumulator_ok a -> length (m_chunks a) + 1 < 2 ^ 50 -> BitmapChunk_wf V1 chunk ->
  exists a', AppendChunk chunk a = Ok a' /\ accumulator_ok a' /\
    BitmapAccumulator_Build (mkBitmapAccumulator (m_chunks a ++ [chunk]) nodes) = Ok a' /\
    BitmapAccumulator_GetMMRSize a' = mmr_size (length (m_chunks a) + 1) /\
    BitmapAccumulator_Root a' = Ok (mmr_root Blake2b (map chunk_bytes (m_chunks a ++ [chunk]))).
Proof.
  intros Ha Hb Hc. destruct (AppendChunk_ok a chunk Ha Hb Hc) as (a' & E & Ha' & Hcs).
  assert (length (m_chunks a') = length (m_chunks a) + 1 :> Z) as Hl by (rewrite Hcs, length_app; simpl; lia).
  destruct (Build_ok (m_chunks a') nodes ltac:(lia) (acc_chunks _ Ha')) as (b & Eb & Hb' & Hbs).
  exists a'. split; [done|]. split; [done|]. rewrite <- Hcs. split; [|split].
  - rewrite Eb. f_equal. destruct a' as [cs ns], b as [cs' ns']. cbn [m_chunks] in *. subst cs'. f_equal.
    eapply tree_hashes_unique; [|apply Hb'|apply Ha']. rewrite length_map. cbn [m_chunks]. lia.
  - unfold BitmapAccumulator_GetMMRSize. destruct Ha' as [_ [Hn _]]. rewrite length_map in Hn. by rewrite Hn, Hl.
  - apply BitmapAccumulator_Root_ok; [done|lia].
Qed.

Lemma LeafSet_Root_ok s numOutputs :
  bits_ok s -> 0 <= numOutputs < 2 ^ 58 ->
  LeafSet_Root numOutputs s =
    Ok (mmr_root Blake2b (map (fun i => chunk_bytes (LeafSet_chunk i s)) (seqZ 0 ((numOutputs + 1023) / 1024)))) /\
  forall leaf, 0 <= m_leafIndex leaf ->
    BitmapChunk_IsSet (m_leafIndex leaf mod LEN_BITS) (LeafSet_chunk (ChunkIndex (m_leafIndex leaf)) s) =
      LeafSet_Contains leaf s.
Proof.
  intros Hs Hn. split; [|intros leaf Hl; by apply LeafSet_chunk_IsSet].
  unfold LeafSet_Root. rewrite uint_small by uint_solve.
  assert (0 <= (numOutputs + 1023) / 1024 < 2 ^ 49).
  { split; [apply Z.div_pos; lia|]. apply Z.div_lt_upper_bound; lia. }
  destruct (LeafSet_Root_loop_ok (Z.to_nat ((numOutputs + 1023) / 1024)) 0 s BitmapAccumulator_new Hs) as (a & E & Ha & Hc).
  - constructor; [constructor|apply tree_hashes_nil].
  - simpl. lia.
  - rewrite E. cbn [mbind result_bind]. rewrite Z2Nat.id in Hc by lia. cbn [BitmapAccumulator_new m_chunks app] in Hc.
    rewrite BitmapAccumulator_Root_ok; [|done|rewrite Hc, length_map, length_seqZ; lia].
    by rewrite Hc, map_map.
Qed.

(** [LeafSet::Root] is the root of the MMR of the chunks that cover the
    first [numOutputs] bits, and bit [j] of the chunks is membership of leaf [j]. *)
Theorem LeafSet_Root_spec s numOutputs :
  bits_ok s -> 0 <= numOutputs < 2 ^ 58 ->
  LeafSet_Root numOutputs s =
    Ok (mmr_root Blake2b (map (fun i => chunk_bytes (LeafSet_chunk i s)) (seqZ 0 ((numOutputs + 1023) / 1024)))) /\
  forall leaf, 0 <= m_leafIndex leaf ->
    BitmapChunk_IsSet (m_leafIndex leaf mod LEN_BITS) (LeafSet_chunk (ChunkIndex (m_leafIndex leaf)) s) =
      LeafSet_Contains leaf s.
Proof. apply LeafSet_Root_ok. Qed.

(** [Init] with the set bits in ascending order terminates, and its chunks
    hold exactly the bits below [size]. *)
Theorem BitmapAccumulator_Init_bits a setBitIndices size :
  StronglySorted Z.le setBitIndices -> Forall (fun i => 0 <= i) setBitIndices -> 0 <= size < 2 ^ 58 ->
  exists a', BitmapAccumulator_Init setBitIndices size a = Ok a' /\ accumulator_ok a' /\
    forall j, 0 <= j -> bit_at (m_chunks a') j = (j <? size) && bool_decide (j ∈ setBitIndices).
Proof.
  intros Hs H0 Hb. unfold BitmapAccumulator_Init, ApplyFrom. change (ChunkIndex 0) with 0. cbn [m_chunks m_nodes].
  destruct (ApplyFrom_loop setBitIndices size 0 BitmapChunk_new []) as [chunk chunks] eqn:E. pose proof E as E'.
  apply ApplyFrom_loop_ok in E' as (Hw & Hlen & Hbits); [|done|done|done|apply Forall_singleton, BitmapChunk_new_wf|done].
  assert (forall j, 0 <= j -> bit_at [BitmapChunk_new] j = false) as Hnew.
  { intros j Hj. change [BitmapChunk_new] with ([] ++ [BitmapChunk_new]). rewrite bit_at_new. unfold bit_at. by rewrite lookup_nil. }
  assert (size / LEN_BITS < 2 ^ 49) by (apply Z.div_lt_upper_bound; unfold LEN_BITS; lia).
  cbn [length] in Hlen. case_bool_decide as Enil; cycle 1.
  - rewrite orb_true_r.
    destruct (Build_ok (chunks ++ [chunk]) (m_nodes a)) as (a' & Ea & Ha & Hc); [rewrite length_app; simpl; lia|done|].
    exists a'. split; [done|]. split; [done|]. intros j Hj. rewrite Hc, Hbits by done.
    cbn [app]. by rewrite Hnew.
  - subst setBitIndices. injection E as <- <-. change (BitmapChunk_Any BitmapChunk_new) with false. cbn [orb negb].
    destruct (Build_ok [] (m_nodes a)) as (a' & Ea & Ha & Hc); [done|constructor|].
    exists a'. split; [done|]. split; [done|]. intros j Hj. rewrite Hc.
    rewrite <- bit_at_new. cbn [app]. rewrite Hnew by done. rewrite bool_decide_eq_false_2 by (apply not_elem_of_nil). by rewrite andb_false_r.
Qed.

End append.
End accumulator.

Lemma accumulator_new_ok Blake2b : accumulator_ok Blake2b BitmapAccumulator_new.
Proof. constructor; [constructor|apply tree_hashes_nil]. Qed.

Lemma BitmapAccumulator_AppendChunk_Build_witness :
  exists a', AppendChunk toy_hash (BitmapChunk_Set 5 true BitmapChunk_new) BitmapAccumulator_new = Ok a' /\
    BitmapAccumulator_GetMMRSize a' = 1.
Proof.
  destruct (BitmapAccumulator_AppendChunk_Build toy_hash toy_hash_length toy_hash_nonzero BitmapAccumulator_new
    (BitmapChunk_Set 5 true BitmapChunk_new) []) as (a' & E & _ & _ & Es & _).
  - apply accumulator_new_ok.
  - vm_compute. reflexivity.
  - apply BitmapChunk_Set_wf, BitmapChunk_new_wf.
  - exists a'. split; [exact E|]. rewrite Es. vm_compute. reflexivity.
Defined.

Lemma LeafSet_Root_spec_witness :
  bits_ok example_bits /\
  BitmapChunk_IsSet 10 (LeafSet_chunk 0 example_bits) = LeafSet_Contains (mkLeafIndex 10 (mkIndex 18 0)) example_bits.
Proof.
  assert (bits_ok example_bits) as Hok.
  { split; [repeat constructor; vm_compute; congruence|].
    apply (bool_decide_unpack _). vm_compute. exact I. }
  split; [exact Hok|].
  destruct (LeafSet_Root_spec toy_hash toy_hash_length toy_hash_nonzero example_bits 2000) as [_ Hbit];
    [exact Hok|lia|].
  apply (Hbit (mkLeafIndex 10 (mkIndex 18 0))). vm_compute. congruence.
Defined.

Lemma BitmapAccumulator_Init_bits_witness :
  exists a', BitmapAccumulator_Init toy_hash [3; 1500; 5000] 2000 BitmapAccumulator_new = Ok a' /\
    bit_at (m_chunks a') 1500 = true /\ bit_at (m_chunks a') 5000 = false.
Proof.
  destruct (BitmapAccumulator_Init_bits toy_hash toy_hash_length BitmapAccumulator_new
    [3; 1500; 5000] 2000) as (a' & E & _ & Hbit).
  - repeat constructor; lia.
  - repeat constructor; lia.
  - lia.
  - exists a'. split; [exact E|]. rewrite !Hbit by lia. vm_compute. auto.
Defined.
