(* ===== verification/Segment.v ===== *)
(** * Segments ([include/PMMR/Common/Segment.h])

    A segment carries the leaves of one block of an MMR (and, when some of them
    are spent, the hashes that stand for pruned subtrees) with a proof.  [Root]
    rebuilds the hash of the block with a stack over its positions.  The
    reference is the hash tree of [MMRHash]: a subtree is worth its [node_hash]
    when the bitmap requires one of its leaves, and nothing otherwise. *)
From S2P Require Import Prelude BitUtil MMRIndex MMRUtil Serial BigInteger File MMRHash SegmentId SegmentProof Roaring PruneList BitmapFile Bitmap.

(** A function that returns [std::optional] and may be undefined. *)
Definition obind {A B} (m : result (option A)) (f : A -> result (option B)) : result (option B) :=
  match m with
  | Ok (Some a) => f a
  | Ok None => Ok None
  | Throw e => Throw e
  end.
Local Notation "x ←? m ; k" := (obind m (fun x => k)) (at level 20, m at level 100, k at level 200, right associativity).

Record Segment (D : Type) := mkSegment {
  sg_id : SegmentIdentifier;
  sg_hash_pos : list Z;
  sg_hashes : list Hash;
  sg_leaf_pos : list Z;
  sg_leaves : list D;
  sg_proof : SegmentProof;
}.
Arguments mkSegment {D} sg_id sg_hash_pos sg_hashes sg_leaf_pos sg_leaves sg_proof.
Arguments sg_id {D} s.
Arguments sg_hash_pos {D} s.
Arguments sg_hashes {D} s.
Arguments sg_leaf_pos {D} s.
Arguments sg_leaves {D} s.
Arguments sg_proof {D} s.

(** [std::find]: the index of the first occurrence. *)
Definition find_index (x : Z) (l : list Z) : option nat := fst <$> list_find (fun y => y = x) l.

(** ** The bitmap *)

Definition BitmapContains (bitmap : BitmapAccumulator) (bitIndex : Z) : bool :=
  let chunkIndex := ChunkIndex bitIndex in
  match m_chunks bitmap !! Z.to_nat chunkIndex with
  | None => false
  | Some chunk => BitmapChunk_IsSet (bitIndex mod LEN_BITS) chunk
  end.

(** The descent stops at height 0, after as many steps as the height. *)
Fixpoint GetFirstLeafIndex_loop (fuel : nat) (index : Index) : Z :=
  match fuel with
  | O => Index_GetLeafIndex index
  | S fuel => if Index_IsLeaf index then Index_GetLeafIndex index
              else GetFirstLeafIndex_loop fuel (Index_GetLeftChild index)
  end.
Definition GetFirstLeafIndex (index : Index) : Z := GetFirstLeafIndex_loop 64 index.

Definition IsRequiredByBitmap (bitmap : BitmapAccumulator) (index : Index) (mmrSize : Z) : bool :=
  let firstLeaf := GetFirstLeafIndex index in
  let subtreeLeafCount := (1 << m_height index)%u64 in
  let maxLeafCount := CountLeaves mmrSize in
  let lastLeaf := Z.min maxLeafCount (firstLeaf + subtreeLeafCount)%u64 in
  existsb (BitmapContains bitmap) (seqZ firstLeaf (lastLeaf - firstLeaf)).

Definition IsLeafRequiredByBitmap (bitmap : BitmapAccumulator) (index : Index) (mmrSize : Z) : bool :=
  let leafIndex := Index_GetLeafIndex index in
  if BitmapContains bitmap leafIndex || (m_position index =? (mmrSize - 1)%u64) then true
  else
    let siblingLeafIndex :=
      if IsLeftSibling (m_position index) then (leafIndex + 1)%u64
      else if leafIndex =? 0 then leafIndex else (leafIndex - 1)%u64 in
    (siblingLeafIndex <? CountLeaves mmrSize) && BitmapContains bitmap siblingLeafIndex.

Section segment.
Context {D : Type} `{Serializable D} (Blake2b : bytes -> Hash).
Local Abbreviation HashParent := (HashParentWithIndex Blake2b).

Definition Segment_HashLeafWithIndex (leaf : D) (mmrIndex : Z) : Hash :=
  Blake2b (s_bytes (AppendByteVector (Serialized V1 leaf) LenNone (AppendU64 mmrIndex (Serializer_new V1)))).

Definition GetProvidedHash (position : Z) (s : Segment D) : result (option Hash) :=
  match find_index position (sg_hash_pos s) with
  | Some k => h ← of_option UB (sg_hashes s !! k); mret (Some h)
  | None =>
      match find_index position (sg_leaf_pos s) with
      | Some k => leaf ← of_option UB (sg_leaves s !! k); mret (Some (Segment_HashLeafWithIndex leaf position))
      | None => mret None
      end
  end.

Definition GetProvidedStoredHash (position : Z) (s : Segment D) : result (option Hash) :=
  match find_index position (sg_hash_pos s) with
  | None => mret None
  | Some k => h ← of_option UB (sg_hashes s !! k); mret (Some h)
  end.

(** [if (!hash.has_value()) hash = GetProvidedStoredHash(position)], done only
    when there is a bitmap. *)
Definition stored_if_missing (pBitmap : option BitmapAccumulator) (hash : option Hash) (position : Z)
    (s : Segment D) : result (option Hash) :=
  match pBitmap, hash with
  | Some _, None => GetProvidedStoredHash position s
  | _, _ => mret hash
  end.

(** One turn of the loop of [Root] over the positions; the head of [hashes] is
    the back of the vector. *)
Definition Segment_Root_step (mmrSize : Z) (pBitmap : option BitmapAccumulator) (s : Segment D) (pos : Z)
    (hashes : list (option Hash)) : result (option (list (option Hash))) :=
  let index := Index_At pos in
  if Index_IsLeaf index then
    if match pBitmap with None => true | Some b => IsLeafRequiredByBitmap b index mmrSize end then
      match find_index pos (sg_leaf_pos s) with
      | None => mret None
      | Some k =>
          leaf ← of_option UB (sg_leaves s !! k);
          mret (Some (Some (Segment_HashLeafWithIndex leaf pos) :: hashes))
      end
    else mret (Some (None :: hashes))
  else
    match hashes with
    | rightHash :: leftHash :: hashes =>
        match pBitmap, leftHash, rightHash with
        | Some _, None, None => mret (Some (None :: hashes))
        | _, _, _ =>
            leftHash ← stored_if_missing pBitmap leftHash (m_position (Index_GetLeftChild index)) s;
            rightHash ← stored_if_missing pBitmap rightHash (m_position (Index_GetRightChild index)) s;
            match leftHash, rightHash with
            | Some l, Some r => mret (Some (Some (HashParent l r pos) :: hashes))
            | _, _ => mret None
            end
        end
    | _ => mret None
    end.

Fixpoint Segment_Root_loop (n : nat) (pos mmrSize : Z) (pBitmap : option BitmapAccumulator) (s : Segment D)
    (hashes : list (option Hash)) : result (option (list (option Hash))) :=
  match n with
  | O => mret (Some hashes)
  | S n =>
      hashes ←? Segment_Root_step mmrSize pBitmap s pos hashes;
      Segment_Root_loop n (pos + 1) mmrSize pBitmap s hashes
  end.

(** The loop over the peaks, from right to left. *)
Fixpoint Segment_Root_peaks (peaks : list Z) (posRange : Z * Z) (mmrSize : Z) (pBitmap : option BitmapAccumulator)
    (s : Segment D) (hashes : list (option Hash)) (root : option Hash) : result (option Hash) :=
  match peaks with
  | [] => mret root
  | peakPos :: peaks =>
      if (peakPos <? posRange.1) || (peakPos >? posRange.2)
      then Segment_Root_peaks peaks posRange mmrSize pBitmap s hashes root
      else
        match hashes with
        | [] => mret None
        | peakHash :: hashes =>
            peakHash ←? stored_if_missing pBitmap peakHash peakPos s;
            Segment_Root_peaks peaks posRange mmrSize pBitmap s hashes
              (Some (match root with Some r => HashParent peakHash r mmrSize | None => peakHash end))
        end
  end.

Definition Segment_Root (mmrSize : Z) (pBitmap : option BitmapAccumulator) (s : Segment D) : result (option Hash) :=
  if negb (length (sg_hash_pos s) =? length (sg_hashes s)) || negb (length (sg_leaf_pos s) =? length (sg_leaves s))
  then mret None
  else
    let posRange := GetPositionRange mmrSize (sg_id s) in
    if (posRange.1 >? posRange.2) || (mmrSize =? 0) then mret None
    else
      hashes ←? Segment_Root_loop (Z.to_nat (posRange.2 - posRange.1 + 1)) posRange.1 mmrSize pBitmap s [];
      let segmentSize := GetSegmentUnprunedSize mmrSize (sg_id s) in
      if segmentSize =? GetSegmentCapacity (sg_id s) then
        mret (match hashes with [] => None | h :: _ => h end)
      else Segment_Root_peaks (rev (GetPeakIndices mmrSize)) posRange mmrSize pBitmap s hashes None.

(** The loop of [FirstUnprunedParent] over the ancestors. *)
Fixpoint FirstUnprunedParent_loop (branch : list (Z * Z)) (mmrSize : Z) (bitmap : BitmapAccumulator)
    (s : Segment D) : result (option (Hash * Z)) :=
  match branch with
  | [] => mret None
  | (parentPos, _) :: branch =>
      if IsRequiredByBitmap bitmap (Index_At parentPos) mmrSize then mret None
      else
        hash ← GetProvidedStoredHash parentPos s;
        match hash with
        | Some h => mret (Some (h, (parentPos + 1)%u64))
        | None => FirstUnprunedParent_loop branch mmrSize bitmap s
        end
  end.

Definition FirstUnprunedParent (mmrSize : Z) (pBitmap : option BitmapAccumulator) (s : Segment D)
    : result (option (Hash * Z)) :=
  root ← Segment_Root mmrSize pBitmap s;
  let posRange := GetPositionRange mmrSize (sg_id s) in
  match root, pBitmap with
  | Some root, _ => mret (Some (root, (posRange.2 + 1)%u64))
  | None, None => mret None
  | None, Some bitmap =>
      let segmentSize := GetSegmentUnprunedSize mmrSize (sg_id s) in
      if negb (segmentSize =? GetSegmentCapacity (sg_id s)) then mret None
      else if IsRequiredByBitmap bitmap (Index_At posRange.2) mmrSize then mret None
      else
        hash ← GetProvidedStoredHash posRange.2 s;
        match hash with
        | Some h => mret (Some (h, (posRange.2 + 1)%u64))
        | None => FirstUnprunedParent_loop (FamilyBranch posRange.2 mmrSize) mmrSize bitmap s
        end
  end.

Definition Segment_Validate (mmrSize : Z) (mmrRoot : Hash) (pBitmap : option BitmapAccumulator) (s : Segment D)
    : result bool :=
  firstUnprunedParent ← FirstUnprunedParent mmrSize pBitmap s;
  match firstUnprunedParent with
  | None => mret false
  | Some (h, pos) =>
      let posRange := GetPositionRange mmrSize (sg_id s) in
      mret (SegmentProof_Validate Blake2b mmrSize posRange.1 posRange.2 h pos mmrRoot (sg_proof s))
  end.

Definition Segment_ValidateWith (mmrSize : Z) (mmrRoot : Hash) (hashLastPos : Z) (otherRoot : Hash)
    (otherIsLeft : bool) (pBitmap : option BitmapAccumulator) (s : Segment D) : result bool :=
  firstUnprunedParent ← FirstUnprunedParent mmrSize pBitmap s;
  match firstUnprunedParent with
  | None => mret false
  | Some (h, pos) =>
      let posRange := GetPositionRange mmrSize (sg_id s) in
      mret (SegmentProof_ValidateWith Blake2b mmrSize posRange.1 posRange.2 h pos hashLastPos otherRoot otherIsLeft
        mmrRoot (sg_proof s))
  end.

(** ** Serialization *)

(** The two loops that read one-based positions, strictly increasing. *)
Fixpoint read_positions (n : nat) (lastWirePos : Z) : reader (list Z) :=
  match n with
  | O => mret []
  | S n =>
      wirePos ← ReadU64;
      if wirePos <=? lastWirePos then reader_throw DeserializationException
      else
        rest ← read_positions n wirePos;
        mret ((wirePos - 1)%u64 :: rest)
  end.

#[export] Instance Segment_Serializable : Serializable (Segment D) := {
  Serialize s ser :=
    let ser := Serialize (sg_id s) ser in
    let ser := AppendU64 (length (sg_hash_pos s)) ser in
    let ser := append_all (fun pos => AppendU64 (pos + 1)%u64) (sg_hash_pos s) ser in
    let ser := append_all AppendBigInteger (sg_hashes s) ser in
    let ser := AppendU64 (length (sg_leaf_pos s)) ser in
    let ser := append_all (fun pos => AppendU64 (pos + 1)%u64) (sg_leaf_pos s) ser in
    let ser := append_all Serialize (sg_leaves s) ser in
    Serialize (sg_proof s) ser;
  Deserialize :=
    segmentId ← Deserialize;
    numHashes ← ReadU64;
    hashPos ← read_positions (Z.to_nat numHashes) 0;
    hashes ← read_list (Z.to_nat numHashes) (ReadBigInteger 32);
    numLeaves ← ReadU64;
    leafPos ← read_positions (Z.to_nat numLeaves) 0;
    leaves ← read_list (Z.to_nat numLeaves) Deserialize;
    segmentProof ← Deserialize;
    mret (mkSegment segmentId hashPos hashes leafPos leaves segmentProof);
}.

End segment.

(** ** The wire format *)

Section wire.
Context {D : Type} `{HD : Serializable D} {wf : EProtocolVersion -> D -> Prop} `{!SerializableLaws D wf}.

Definition positions_wf (l : list Z) : Prop :=
  StronglySorted Z.lt l /\ Forall (fun p => 0 <= p < 2 ^ 64 - 1) l /\ is_uint 64 (length l).

Record Segment_wf (v : EProtocolVersion) (s : Segment D) : Prop := {
  swf_id : SegmentIdentifier_wf v (sg_id s);
  swf_hash_pos : positions_wf (sg_hash_pos s);
  swf_hashes : hashes_ok (sg_hashes s);
  swf_hash_count : length (sg_hash_pos s) = length (sg_hashes s);
  swf_leaf_pos : positions_wf (sg_leaf_pos s);
  swf_leaves : Forall (wf v) (sg_leaves s);
  swf_leaf_count : length (sg_leaf_pos s) = length (sg_leaves s);
  swf_proof : SegmentProof_wf v (sg_proof s);
}.

Definition positions_bytes (l : list Z) : bytes := concat (map (fun pos => be_bytes 8 (pos + 1)%u64) l).

Definition Segment_bytes (v : EProtocolVersion) (s : Segment D) : bytes :=
  Serialized v (sg_id s) ++
  be_bytes 8 (length (sg_hash_pos s)) ++ positions_bytes (sg_hash_pos s) ++ concat (sg_hashes s) ++
  be_bytes 8 (length (sg_leaf_pos s)) ++ positions_bytes (sg_leaf_pos s) ++ concat (map (Serialized v) (sg_leaves s)) ++
  Serialized v (sg_proof s).

Lemma append_all_Serialize (l : list D) s :
  append_all Serialize l s = mkSerializer (s_version s) (s_bytes s ++ concat (map (Serialized (s_version s)) l)).
Proof.
  revert s. induction l as [|a l IH]; intros s; simpl.
  - rewrite app_nil_r. by destruct s.
  - rewrite IH, serialize_appends. simpl. by rewrite app_assoc.
Qed.

Lemma append_all_positions (l : list Z) s :
  append_all (fun pos => AppendU64 (pos + 1)%u64) l s = mkSerializer (s_version s) (s_bytes s ++ positions_bytes l).
Proof. apply (append_all_bytes (fun pos => AppendU64 (pos + 1)%u64)). intros a s'. apply Append_be. Qed.

Lemma AppendU64_be t s : AppendU64 t s = mkSerializer (s_version s) (s_bytes s ++ be_bytes 8 t).
Proof. apply Append_be. Qed.

Lemma Segment_Serialize_bytes (x : Segment D) s :
  Serialize x s = mkSerializer (s_version s) (s_bytes s ++ Segment_bytes (s_version s) x).
Proof.
  unfold Serialize at 1, Segment_Serializable. rewrite (serialize_appends (sg_id x) s).
  rewrite AppendU64_be, append_all_positions, (append_all_bytes _ (fun x => x)) by done.
  rewrite AppendU64_be, append_all_positions, append_all_Serialize, serialize_appends.
  cbn [s_version s_bytes]. unfold Segment_bytes. rewrite map_id, <- !app_assoc. done.
Qed.

Lemma reads_positions v (l : list Z) lastWirePos :
  StronglySorted Z.lt l -> Forall (fun p => lastWirePos <= p < 2 ^ 64 - 1) l -> 0 <= lastWirePos ->
  reads v (read_positions (length l) lastWirePos) (positions_bytes l) l.
Proof.
  intros Hs. revert lastWirePos. induction Hs as [|p l Hs IH Hlt]; intros w Hr Hw; [apply reads_ret|].
  apply Forall_cons in Hr as [Hp Hr]. cbn [length read_positions]. unfold positions_bytes. cbn [map concat].
  rewrite (uint_small 64 (p + 1)) by uint_solve.
  eapply reads_bind; [apply reads_be; apply (uint_pow256 8); unfold is_uint; lia|]. cbv beta.
  destruct (Z.leb_spec (p + 1) w); [lia|].
  assert ((p + 1 - 1)%u64 = p) as -> by (rewrite Z.add_simpl_r; apply uint_small; unfold is_uint; lia).
  apply (reads_map v _ _ _ (cons p)). apply IH; [|lia].
  rewrite Forall_forall in *. intros q Hq. specialize (Hlt q Hq). specialize (Hr q Hq). simpl in *. lia.
Qed.

#[export] Instance Segment_laws : SerializableLaws (Segment D) Segment_wf.
Proof.
  constructor.
  - intros x s. unfold Serialized. by rewrite !Segment_Serialize_bytes.
  - intros v x [Hid [Hh1 [Hh2 Hh3]] Hh Hhc [Hl1 [Hl2 Hl3]] Hl Hlc Hp].
    unfold Serialized at 1. rewrite Segment_Serialize_bytes. cbn [s_version s_bytes Serializer_new app].
    unfold Segment_bytes. cbn [Deserialize Segment_Serializable].
    eapply reads_bind; [by apply deserialize_reads|]. cbv beta.
    eapply reads_bind; [apply reads_be; by apply (uint_pow256 8)|]. cbv beta. rewrite Nat2Z.id.
    eapply reads_bind; [by apply reads_positions|]. cbv beta.
    eapply reads_bind.
    { rewrite <- (map_id (sg_hashes x)), Hhc. apply (reads_list v (ReadBigInteger 32) (fun x => x)).
      eapply Forall_impl; [apply Hh|]. intros y Hy. apply reads_bytes. by rewrite Hy. }
    cbv beta. eapply reads_bind; [apply reads_be; by apply (uint_pow256 8)|]. cbv beta. rewrite Nat2Z.id.
    eapply reads_bind; [by apply reads_positions|]. cbv beta.
    eapply reads_bind.
    { rewrite Hlc. apply reads_list. eapply Forall_impl; [apply Hl|]. intros d Hd. by apply deserialize_reads. }
    cbv beta. destruct x. apply (reads_map v _ _ _ (mkSegment _ _ _ _ _)). by apply deserialize_reads.
Qed.

Lemma ReadU64_range b x b' :
  Forall is_byte (m_bytes b) -> ReadU64 b = Ok (x, b') -> is_uint 64 x /\ m_bytes b' = m_bytes b.
Proof.
  intros Hb. unfold ReadU64, ReadBigEndian_on, mbind, reader_bind, read_bytes.
  destruct (_ >? _); [done|]. destruct (_ >? _); [done|]. intros [= <- <-]. split; [|done].
  unfold memcpy_to. set (data := rev (take _ _)).
  assert (Forall is_byte data) as Hd by (apply Forall_rev, Forall_take, Forall_drop, Hb).
  assert (length data <= 8) by (unfold data; rewrite length_rev, length_take; lia).
  pose proof (le_val_range data Hd). unfold is_uint. split; [lia|]. change (2 ^ 64) with (256 ^ 8).
  pose proof (Z.pow_le_mono_r 256 (length data) 8). lia.
Qed.

(** What is read has strictly increasing positions and as many hashes and
    leaves as positions. *)
Lemma read_positions_sorted (n : nat) w b l b' :
  0 <= w -> Forall is_byte (m_bytes b) -> read_positions n w b = Ok (l, b') ->
  length l = n /\ StronglySorted Z.lt l /\ Forall (fun p => w <= p < 2 ^ 64 - 1) l /\ m_bytes b' = m_bytes b.
Proof.
  revert w b l b'. induction n as [|n IH]; intros w b l b' Hw Hb; cbn [read_positions].
  { intros [= <- <-]. split; [done|]. split; [constructor|]. split; [constructor|done]. }
  unfold mbind at 1, reader_bind. destruct (ReadU64 b) as [[wirePos b1]|e] eqn:E1; [|done].
  destruct (Z.leb_spec wirePos w) as [|Hlt]; [done|].
  unfold mbind, reader_bind. destruct (read_positions n wirePos b1) as [[rest b2]|e] eqn:E2; [|done].
  destruct (ReadU64_range _ _ _ Hb E1) as [Hrange Eb]. unfold is_uint in Hrange.
  intros [= <- <-]. apply IH in E2 as (Hl & Hs & Hr & Eb2); [|lia|by rewrite Eb].
  rewrite (uint_small 64) by uint_solve.
  split; [simpl; by f_equal|]. split; [|split; [|congruence]]; constructor; try done; try lia;
    (eapply Forall_impl; [apply Hr|]); simpl; lia.
Qed.

End wire.

(** ** Segments of a hash tree *)

Section tree.
Context {D : Type} `{HD : Serializable D} (Blake2b : bytes -> Hash).
Context (leaves : list bytes) (pBitmap : option BitmapAccumulator) (s : Segment D).
Local Abbreviation n := (Z.of_nat (length leaves)).
Local Abbreviation HashParent := (HashParentWithIndex Blake2b).

(** Does the bitmap require a leaf; one of the leaves below node [(h, i)]? *)
Definition leaf_required (j : Z) : bool :=
  match pBitmap with
  | None => true
  | Some b => IsLeafRequiredByBitmap b (mkIndex (mmr_size j) 0) (mmr_size n)
  end.

Fixpoint node_required (h : nat) (i : Z) : bool :=
  match h with
  | O => leaf_required i
  | S h => node_required h (2 * i) || node_required h (2 * i + 1)
  end.

Definition node_value (h : nat) (i : Z) : option Hash :=
  if node_required h i then Some (node_hash Blake2b leaves h i) else None.

(** The segment stores the hash of node [(h, i)] of the tree. *)
Definition stores (h : nat) (i : Z) : Prop :=
  GetProvidedStoredHash (node_pos h i) s = Ok (Some (node_hash Blake2b leaves h i)).

(** The segment has leaf [j] of the tree. *)
Definition has_leaf (j : Z) : Prop :=
  exists k d, find_index (mmr_size j) (sg_leaf_pos s) = Some k /\ sg_leaves s !! k = Some d /\
    Serialized V1 d = default [] (leaves !! Z.to_nat j).

(** The segment carries what is required below node [(h, i)]: the required
    leaves, and the hash of a pruned node whose sibling is required. *)
Fixpoint carries (h : nat) (i : Z) : Prop :=
  match h with
  | O => leaf_required i = true -> has_leaf i
  | S h =>
      carries h (2 * i) /\ carries h (2 * i + 1) /\
      (node_required h (2 * i) = false -> node_required h (2 * i + 1) = true -> stores h (2 * i)) /\
      (node_required h (2 * i) = true -> node_required h (2 * i + 1) = false -> stores h (2 * i + 1))
  end.

(** The same for the peaks below height [k]. *)
Fixpoint carries_peaks (k : nat) : Prop :=
  match k with
  | O => True
  | S k =>
      (Z.testbit n k = true ->
        let i := 2 * (n / 2 ^ (k + 1)) in carries k i /\ (node_required k i = false -> stores k i)) /\
      carries_peaks k
  end.

Fixpoint peak_values (k : nat) : list (option Hash) :=
  match k with
  | O => []
  | S k => (if Z.testbit n k then [node_value k (2 * (n / 2 ^ (k + 1)))] else []) ++ peak_values k
  end.

(** The number of nodes of a perfect tree. *)
Fixpoint tree_size (h : nat) : nat := match h with O => 1 | S h => tree_size h + tree_size h + 1 end.

Lemma tree_size_pow (h : nat) : Z.of_nat (tree_size h) = 2 ^ (h + 1) - 1.
Proof.
  induction h as [|h IH]; [done|]. cbn [tree_size]. rewrite !Nat2Z.inj_add, IH, (pow2_1 (S h)), pow2_S, pow2_1 by lia. lia.
Qed.

Lemma subtree_end (h : nat) i : 0 <= i -> mmr_size (i * 2 ^ h) + tree_size h = node_pos h i + 1.
Proof.
  intros Hi. rewrite tree_size_pow. unfold mmr_size, node_pos.
  pose proof (pop_concat h i 0 Hi (conj (Z.le_refl 0) (pow2_pos h ltac:(lia)))) as E. rewrite Z.add_0_r in E.
  rewrite E, pow2_1 by lia. change (pop 0) with 0. lia.
Qed.

Lemma Segment_Root_loop_app (a b : nat) pos mmrSize st :
  Segment_Root_loop Blake2b (a + b) pos mmrSize pBitmap s st =
  obind (Segment_Root_loop Blake2b a pos mmrSize pBitmap s st)
    (fun st => Segment_Root_loop Blake2b b (pos + a) mmrSize pBitmap s st).
Proof.
  revert pos st. induction a as [|a IH]; intros pos st; cbn [Nat.add Segment_Root_loop].
  - cbn [obind]. by rewrite Z.add_0_r.
  - destruct (Segment_Root_step _ _ _ _ _ _) as [[st'|]|e]; cbn [obind]; [|done|done].
    rewrite IH. by replace (pos + 1 + a) with (pos + S a) by lia.
Qed.

Lemma Root_loop_one pos mmrSize st :
  Segment_Root_loop Blake2b 1 pos mmrSize pBitmap s st = Segment_Root_step Blake2b mmrSize pBitmap s pos st.
Proof. cbn [Segment_Root_loop]. by destruct (Segment_Root_step _ _ _ _ _ _) as [[st'|]|e]. Qed.

Lemma Root_step_leaf j st :
  0 <= j -> pos_ok (mmr_size j) -> carries 0 j ->
  Segment_Root_step Blake2b (mmr_size n) pBitmap s (mmr_size j) st = Ok (Some (node_value 0 j :: st)).
Proof.
  intros Hj Hok Hc. unfold Segment_Root_step. rewrite <- node_pos_leaf in *. rewrite Index_At_node by done.
  cbn [Index_IsLeaf m_height Z.eqb]. unfold node_value. cbn [carries node_required node_hash] in *.
  assert (match pBitmap with
    | Some b => IsLeafRequiredByBitmap b (mkIndex (node_pos 0 j) 0) (mmr_size n)
    | None => true end = leaf_required j) as -> by (unfold leaf_required; by rewrite node_pos_leaf).
  destruct (leaf_required j); [|done]. destruct Hc as (k & d & E1 & E2 & E3); [done|].
  rewrite node_pos_leaf, E1, E2. cbn [of_option mbind result_bind mret result_ret].
  rewrite <- E3. done.
Qed.

Lemma Root_step_parent (h : nat) i st :
  0 <= i -> fam_ok (node_pos (S h) i) -> (pBitmap = None -> node_required h (2 * i) = true /\ node_required h (2 * i + 1) = true) ->
  carries (S h) i ->
  Segment_Root_step Blake2b (mmr_size n) pBitmap s (node_pos (S h) i)
    (node_value h (2 * i + 1) :: node_value h (2 * i) :: st) = Ok (Some (node_value (S h) i :: st)).
Proof.
  intros Hi Hok Hnone (_ & _ & Hl & Hr). unfold Segment_Root_step.
  rewrite Index_At_node by (lia || unfold fam_ok, pos_ok in *; lia).
  assert (Index_IsLeaf (mkIndex (node_pos (S h) i) (S h)) = false) as -> by (apply Z.eqb_neq; cbn [m_height]; lia).
  replace (Z.of_nat (S h)) with (h + 1) in * by lia.
  rewrite Index_GetLeftChild_node, Index_GetRightChild_node by (done || lia). cbn [m_position].
  unfold node_value, stores, stored_if_missing in *. cbn [node_required node_hash].
  replace (Z.of_nat (S h)) with (h + 1) by lia.
  destruct pBitmap as [b|]; [|destruct Hnone as [-> ->]; done].
  destruct (node_required h (2 * i)), (node_required h (2 * i + 1)); cbn [orb]; try done;
    rewrite ?Hl, ?Hr by done; done.
Qed.

Lemma node_required_none (h : nat) i : pBitmap = None -> node_required h i = true.
Proof.
  intros E. revert i. induction h as [|h IH]; intros i; cbn [node_required].
  - unfold leaf_required. by rewrite E.
  - by rewrite IH.
Qed.

(** The loop over the positions of a perfect tree pushes its value. *)
Lemma Root_loop_subtree (h : nat) i st :
  size_ok n -> 0 <= i -> (i + 1) * 2 ^ h <= n -> carries h i ->
  Segment_Root_loop Blake2b (tree_size h) (mmr_size (i * 2 ^ h)) (mmr_size n) pBitmap s st =
    Ok (Some (node_value h i :: st)).
Proof.
  intros Hok. revert i st. induction h as [|h IH]; intros i st Hi Hin Hc; cbn [tree_size].
  - rewrite Root_loop_one. change (2 ^ 0%nat) with 1 in *. rewrite Z.mul_1_r in *.
    pose proof (mmr_size_mono i n ltac:(lia)). pose proof (mmr_size_ge i Hi). destruct Hok.
    apply Root_step_leaf; [done|unfold pos_ok; lia|done].
  - pose proof (pow2_pos h ltac:(lia)) as Hp. pose proof Hc as (Hcl & Hcr & _). rewrite pow2_S in *.
    rewrite !Segment_Root_loop_app. replace (i * (2 * 2 ^ h)) with (2 * i * 2 ^ h) by lia.
    rewrite IH by (done || lia || nia). cbn [obind]. rewrite subtree_end, node_pos_next_left, node_pos_leaf by lia.
    rewrite IH by (done || lia || nia). cbn [obind]. rewrite Nat2Z.inj_add.
    assert (mmr_size (2 * i * 2 ^ h) + (tree_size h + tree_size h) = node_pos (S h) i) as ->.
    { pose proof (subtree_end h (2 * i) ltac:(lia)) as E1. pose proof (subtree_end h (2 * i + 1) ltac:(lia)) as E2.
      rewrite node_pos_next_left, node_pos_leaf in E1 by lia.
      replace (Z.of_nat (S h)) with (h + 1) by lia. rewrite node_pos_parent_right by lia. lia. }
    rewrite Root_loop_one.
    assert (node_pos (S h) i < mmr_size n) by (apply node_in_mmr; rewrite ?pow2_S; lia).
    pose proof (node_pos_nonneg (S h) i ltac:(lia) Hi). destruct Hok.
    apply Root_step_parent; [done|unfold fam_ok; lia| |done].
    intros E. split; by apply node_required_none.
Qed.

(** The loop over the positions of the peaks below height [k]. *)
Lemma Root_loop_peaks (k : nat) st :
  size_ok n -> carries_peaks k ->
  Segment_Root_loop Blake2b (Z.to_nat (mmr_size n - mmr_size (n / 2 ^ k * 2 ^ k))) (mmr_size (n / 2 ^ k * 2 ^ k))
    (mmr_size n) pBitmap s st = Ok (Some (rev (peak_values k) ++ st)).
Proof.
  intros Hok. revert st. induction k as [|k IH]; intros st Hc.
  - change (2 ^ 0%nat) with 1. rewrite Z.div_1_r, Z.mul_1_r, Z.sub_diag. done.
  - destruct Hc as [Hpk Hc]. cbn [peak_values]. pose proof (pow2_pos k ltac:(lia)) as Hp.
    assert (n / 2 ^ k = 2 * (n / 2 ^ (k + 1)) + Z.b2z (Z.testbit n k)) as Eq.
    { rewrite Z.testbit_spec' by lia. rewrite pow2_1, (Z.mul_comm 2 (2 ^ k)), <- Z.div_div by lia.
      pose proof (Z.div_mod (n / 2 ^ k) 2). lia. }
    assert (n / 2 ^ S k * 2 ^ S k = 2 * (n / 2 ^ (k + 1)) * 2 ^ k) as ->.
    { rewrite pow2_S, pow2_1 by lia. lia. }
    specialize (IH (rev (if Z.testbit n k then [node_value k (2 * (n / 2 ^ (k + 1)))] else []) ++ st) Hc).
    rewrite Eq in IH. rewrite rev_app_distr, <- app_assoc. destruct (Z.testbit n k) eqn:E; cbn [Z.b2z] in *.
    2: { rewrite Z.add_0_r in IH. apply IH. }
    destruct Hpk as [Hck _]; [done|]. set (i := 2 * (n / 2 ^ (k + 1))) in *.
    assert (0 <= i) by (pose proof (Z.div_pos n (2 ^ (k + 1)) ltac:(lia) (pow2_pos (k + 1) ltac:(lia))); lia).
    pose proof (peak_in_tree k n ltac:(lia) E) as Hin. fold i in Hin.
    assert (mmr_size ((i + 1) * 2 ^ k) = mmr_size (i * 2 ^ k) + tree_size k) as Em.
    { rewrite subtree_end by done. unfold i. by rewrite node_pos_next_left, node_pos_leaf by lia. }
    pose proof (mmr_size_mono ((i + 1) * 2 ^ k) n ltac:(nia)).
    replace (Z.to_nat (mmr_size n - mmr_size (i * 2 ^ k)))
      with (tree_size k + Z.to_nat (mmr_size n - mmr_size ((i + 1) * 2 ^ k)))%nat by lia.
    rewrite Segment_Root_loop_app, Root_loop_subtree by done. cbn [obind]. rewrite <- Em. apply IH.
Qed.

(** The loop over the peaks, popping the values from the right, bags them. *)
Lemma Root_peaks_bag posRange (k : nat) ps st :
  carries_peaks k -> Forall (fun pos => posRange.1 <= pos <= posRange.2) (peaks_from k n) ->
  Segment_Root_peaks Blake2b (rev (peaks_from k n) ++ ps) posRange (mmr_size n) pBitmap s (rev (peak_values k) ++ st) None =
  Segment_Root_peaks Blake2b ps posRange (mmr_size n) pBitmap s st
    (if decide (peak_hashes Blake2b leaves k n = []) then None else Some (bag Blake2b (mmr_size n) (peak_hashes Blake2b leaves k n))).
Proof.
  revert ps st. induction k as [|k IH]; intros ps st Hc Hr; [done|].
  destruct Hc as [Hpk Hc]. cbn [peak_values peaks_from peak_hashes] in *.
  destruct (Z.testbit n k) eqn:E; cbn [app] in *; [|by apply IH].
  apply Forall_cons in Hr as [Hp Hr]. destruct Hpk as [_ Hst]; [done|].
  set (i := 2 * (n / 2 ^ (k + 1))) in *. simpl rev. rewrite <- !app_assoc, IH by done. cbn [app Segment_Root_peaks].
  rewrite Z.gtb_ltb. destruct (Z.ltb_spec (node_pos k i) posRange.1); [lia|].
  destruct (Z.ltb_spec posRange.2 (node_pos k i)); [lia|]. cbn [orb].
  assert (stored_if_missing pBitmap (node_value k i) (node_pos k i) s = Ok (Some (node_hash Blake2b leaves k i))) as ->.
  { unfold node_value, stored_if_missing. pose proof (node_required_none k i) as Hnone. unfold stores in Hst.
    destruct (node_required k i); [by destruct pBitmap|]. destruct pBitmap; [by apply Hst|]. by specialize (Hnone eq_refl). }
  cbn [obind bag]. f_equal. destruct (decide (peak_hashes Blake2b leaves k n = [])); done.
Qed.

Lemma Root_peaks_outside posRange ps st root :
  Forall (fun pos => pos < posRange.1) ps ->
  Segment_Root_peaks Blake2b ps posRange (mmr_size n) pBitmap s st root = Ok root.
Proof.
  induction 1 as [|pos ps Hp Hps IH]; [done|]. cbn [Segment_Root_peaks].
  destruct (Z.ltb_spec pos posRange.1); [done|lia].
Qed.

End tree.

(** ** The root of a segment *)

Section root.
Context {D : Type} `{HD : Serializable D} (Blake2b : bytes -> Hash).
Context (leaves : list bytes) (pBitmap : option BitmapAccumulator) (s : Segment D).
Local Abbreviation n := (Z.of_nat (length leaves)).
Local Abbreviation h := (Z.to_nat (seg_height (sg_id s))).
Local Abbreviation idx := (seg_index (sg_id s)).

(** As many hashes and leaves as positions, and a segment of the tree. *)
Record segment_wf : Prop := {
  sw_ok : segment_ok n (sg_id s);
  sw_hashes : length (sg_hash_pos s) = length (sg_hashes s);
  sw_leaves : length (sg_leaf_pos s) = length (sg_leaves s);
  sw_start : idx * 2 ^ h < n;
}.

Lemma segment_size_ok : segment_ok n (sg_id s) -> size_ok n.
Proof. intros [Hn _ _ _]. pose proof (mmr_size_bound n ltac:(lia)). split; lia. Qed.

Lemma segment_range : segment_wf ->
  Z.of_nat h = seg_height (sg_id s) /\ 0 <= idx /\
  GetPositionRange (mmr_size n) (sg_id s) =
    (mmr_size (idx * 2 ^ h), if (idx + 1) * 2 ^ h <=? n then node_pos h idx else mmr_size n - 1) /\
  (GetSegmentUnprunedSize (mmr_size n) (sg_id s) =? GetSegmentCapacity (sg_id s)) = ((idx + 1) * 2 ^ h <=? n) /\
  mmr_size (idx * 2 ^ h) < mmr_size n.
Proof.
  intros [Hok _ _ Hlt]. pose proof Hok as [Hn Hh Hi Ho]. assert (Z.of_nat h = seg_height (sg_id s)) as Eh by lia.
  rewrite Eh in *. pose proof (pow2_pos (seg_height (sg_id s)) ltac:(lia)).
  split; [done|]. split; [lia|]. split; [by apply position_range_ok|]. split.
  - rewrite unpruned_size_ok, capacity_ok by (done || lia). zcases; lia || done.
  - apply mmr_size_lt. nia.
Qed.

(** What [Root] computes before the stack is read. *)
Lemma Segment_Root_unfold : segment_wf ->
  Segment_Root Blake2b (mmr_size n) pBitmap s =
  obind (Segment_Root_loop Blake2b
      (Z.to_nat ((if (idx + 1) * 2 ^ h <=? n then node_pos h idx else mmr_size n - 1) - mmr_size (idx * 2 ^ h) + 1))
      (mmr_size (idx * 2 ^ h)) (mmr_size n) pBitmap s [])
    (fun hashes =>
      if (idx + 1) * 2 ^ h <=? n then Ok (match hashes with [] => None | x :: _ => x end)
      else Segment_Root_peaks Blake2b (rev (GetPeakIndices (mmr_size n)))
        (mmr_size (idx * 2 ^ h), mmr_size n - 1) (mmr_size n) pBitmap s hashes None).
Proof.
  intros Hwf. destruct (segment_range Hwf) as (Eh & Hi & Er & Ec & Hlt). destruct Hwf as [Hok Hlh Hll Hst].
  unfold Segment_Root. rewrite Hlh, Hll, !Z.eqb_refl. cbn [negb orb]. rewrite Er. cbn [fst snd]. rewrite Ec.
  pose proof (pow2_pos h ltac:(lia)).
  pose proof (mmr_size_bound (idx * 2 ^ h) ltac:(nia)).
  assert (mmr_size (idx * 2 ^ h) <= (if (idx + 1) * 2 ^ h <=? n then node_pos h idx else mmr_size n - 1)) as Hle.
  { destruct (Z.leb_spec ((idx + 1) * 2 ^ h) n); [|lia].
    pose proof (subtree_end h idx Hi). pose proof (tree_size_pow h). rewrite pow2_1 in * by lia. lia. }
  rewrite Z.gtb_ltb. destruct (Z.ltb_spec (if (idx + 1) * 2 ^ h <=? n then node_pos h idx else mmr_size n - 1) (mmr_size (idx * 2 ^ h))); [lia|].
  destruct (Z.eqb_spec (mmr_size n) 0) as [|_]; [lia|]. cbn [orb]. destruct ((idx + 1) * 2 ^ h <=? n); done.
Qed.

Lemma Segment_Root_full :
  segment_wf -> (idx + 1) * 2 ^ h <= n -> carries Blake2b leaves pBitmap s h idx ->
  Segment_Root Blake2b (mmr_size n) pBitmap s = Ok (node_value Blake2b leaves pBitmap h idx).
Proof.
  intros Hwf Hin Hc. rewrite Segment_Root_unfold by done. destruct (segment_range Hwf) as (Eh & Hi & _).
  destruct (Z.leb_spec ((idx + 1) * 2 ^ h) n); [|lia].
  pose proof (subtree_end h idx Hi).
  replace (Z.to_nat (node_pos h idx - mmr_size (idx * 2 ^ h) + 1)) with (tree_size h) by lia.
  rewrite Root_loop_subtree by (try done; apply segment_size_ok, Hwf). done.
Qed.

Lemma Segment_Root_partial :
  segment_wf -> n < (idx + 1) * 2 ^ h -> carries_peaks Blake2b leaves pBitmap s h ->
  Segment_Root Blake2b (mmr_size n) pBitmap s = Ok (Some (bag Blake2b (mmr_size n) (peak_hashes Blake2b leaves h n))).
Proof.
  intros Hwf Hin Hc. rewrite Segment_Root_unfold by done. destruct (segment_range Hwf) as (Eh & Hi & _ & _ & Hlt).
  destruct (Z.leb_spec ((idx + 1) * 2 ^ h) n); [lia|]. pose proof (sw_start Hwf). pose proof (sw_ok Hwf) as Hok.
  pose proof (segment_size_ok Hok) as Hsz. destruct Hok as [Hn Hh _ _]. pose proof (pow2_pos h ltac:(lia)).
  assert (n / 2 ^ h = idx) as Eq by (symmetry; apply Z.div_unique with (n - idx * 2 ^ h); lia).
  replace (mmr_size n - 1 - mmr_size (idx * 2 ^ h) + 1) with (mmr_size n - mmr_size (idx * 2 ^ h)) by lia.
  pose proof (Root_loop_peaks Blake2b leaves pBitmap s h [] Hsz Hc) as HL. rewrite Eq in HL. rewrite HL. cbn [obind].
  rewrite GetPeakIndices_mmr_size by (unfold size_ok in Hsz; lia).
  destruct (peaks_from_split Blake2b leaves h (64 - h)) as (L & Lh & E1 & _ & HLt & _).
  replace (h + (64 - h))%nat with 64%nat in E1 by lia. rewrite Eq in HLt.
  unfold mmr_peaks. rewrite E1, rev_app_distr.
  pose proof (peaks_from_low leaves h (idx * 2 ^ h) ltac:(nia) ltac:(by eexists) ltac:(lia)) as HR.
  rewrite Root_peaks_bag; [|done|eapply Forall_impl; [apply HR|]; cbn [fst snd]; intros; lia].
  rewrite Root_peaks_outside.
  2: { apply Forall_rev. eapply Forall_impl; [apply HLt|]. cbn [fst]. intros; lia. }
  destruct (decide (peak_hashes Blake2b leaves h n = [])) as [E|]; [|done]. exfalso.
  destruct (peak_covers h n (idx * 2 ^ h)) as (k & Hk & Hbit & _); [nia| |].
  - by rewrite Z.div_mul by lia.
  - by apply (peak_hashes_nonempty Blake2b leaves h k).
Qed.

End root.

(** ** Segments without a bitmap *)

Section unpruned.
Context {D : Type} `{HD : Serializable D} (Blake2b : bytes -> Hash).

Lemma carries_all (leaves : list bytes) (s : Segment D) (h : nat) i :
  0 <= i -> (forall j, i * 2 ^ h <= j < (i + 1) * 2 ^ h -> has_leaf leaves s j) -> carries Blake2b leaves None s h i.
Proof.
  revert i. induction h as [|h IH]; intros i Hi Hall; cbn [carries].
  - intros _. apply Hall. change (2 ^ 0%nat) with 1. lia.
  - pose proof (pow2_pos h ltac:(lia)). rewrite pow2_S in Hall.
    split; [apply IH; [lia|]; intros j Hj; apply Hall; nia|].
    split; [apply IH; [lia|]; intros j Hj; apply Hall; nia|].
    rewrite !node_required_none by done. done.
Qed.

Lemma carries_peaks_all (leaves : list bytes) (s : Segment D) (k : nat) :
  (forall j, length leaves / 2 ^ k * 2 ^ k <= j < length leaves -> has_leaf leaves s j) -> carries_peaks Blake2b leaves None s k.
Proof.
  set (n := Z.of_nat (length leaves)).
  induction k as [|k IH]; intros Hall; cbn [carries_peaks]; [done|]. fold n.
  pose proof (pow2_pos k ltac:(lia)). assert (n / 2 ^ S k * 2 ^ S k = 2 * (n / 2 ^ (k + 1)) * 2 ^ k) as E.
  { rewrite pow2_S, pow2_1 by lia. lia. }
  rewrite E in Hall.
  assert (0 <= n / 2 ^ (k + 1)) by (apply Z.div_pos; [lia|apply pow2_pos; lia]). split.
  - intros Hb. pose proof (peak_in_tree k n ltac:(lia) Hb). split.
    + apply carries_all; [lia|]. intros j Hj. apply Hall. lia.
    + by rewrite node_required_none.
  - apply IH. intros j Hj. apply Hall. assert (2 * (n / 2 ^ (k + 1)) <= n / 2 ^ k); [|nia].
    apply Z.div_le_lower_bound; [lia|]. pose proof (Z.mul_div_le n (2 ^ (k + 1)) ltac:(apply pow2_pos; lia)).
    rewrite pow2_1 in * by lia. lia.
Qed.

(** The leaves a segment claims. *)
Definition claimed_leaf (s : Segment D) (j : Z) : bytes :=
  match find_index (mmr_size j) (sg_leaf_pos s) with
  | Some k => match sg_leaves s !! k with Some d => Serialized V1 d | None => [] end
  | None => []
  end.

Definition claimed_leaves (n : nat) (s : Segment D) : list bytes := map (claimed_leaf s) (seqZ 0 n).

Lemma claimed_leaves_lookup (n : nat) s j : 0 <= j < n -> claimed_leaves n s !! Z.to_nat j = Some (claimed_leaf s j).
Proof.
  intros Hj. unfold claimed_leaves. change (map (claimed_leaf s) (seqZ 0 n)) with (claimed_leaf s <$> seqZ 0 n).
  rewrite list_lookup_fmap, lookup_seqZ_lt by lia. cbn [fmap option_fmap option_map]. do 2 f_equal. lia.
Qed.

Lemma claimed_leaves_length (n : nat) s : length (claimed_leaves n s) = n.
Proof. unfold claimed_leaves. rewrite length_map, length_seqZ. lia. Qed.

Lemma Root_step_found pos mmrSize (s : Segment D) st st' :
  Segment_Root_step Blake2b mmrSize None s pos st = Ok (Some st') -> Index_IsLeaf (Index_At pos) = true ->
  exists i d, find_index pos (sg_leaf_pos s) = Some i /\ sg_leaves s !! i = Some d.
Proof.
  unfold Segment_Root_step. generalize (Index_At pos). intros index E Hleaf. cbv zeta in E. rewrite Hleaf in E.
  destruct (find_index pos (sg_leaf_pos s)) as [i|]; [|done].
  destruct (sg_leaves s !! i) as [d|] eqn:Ed; [|done]. eauto.
Qed.

Lemma Root_loop_S (k : nat) pos mmrSize (s : Segment D) st :
  Segment_Root_loop Blake2b (S k) pos mmrSize None s st =
  obind (Segment_Root_step Blake2b mmrSize None s pos st)
    (fun st => Segment_Root_loop Blake2b k (pos + 1) mmrSize None s st).
Proof. reflexivity. Qed.

(** If [Root] gets through the positions, it found every leaf among them. *)
Lemma Root_loop_found (k : nat) pos mmrSize (s : Segment D) st st' p :
  Segment_Root_loop Blake2b k pos mmrSize None s st = Ok (Some st') ->
  pos <= p < pos + k -> Index_IsLeaf (Index_At p) = true ->
  exists i d, find_index p (sg_leaf_pos s) = Some i /\ sg_leaves s !! i = Some d.
Proof.
  intros E Hp Hleaf. revert pos st E Hp. induction k as [|k IH]; intros pos st E Hp; [lia|]. rewrite Root_loop_S in E.
  destruct (Segment_Root_step Blake2b mmrSize None s pos st) as [[st1|]|e] eqn:E1;
    [|discriminate E|discriminate E].
  destruct (Z.eq_dec p pos) as [Ep|Hne].
  - subst p. exact (Root_step_found pos mmrSize s st st1 E1 Hleaf).
  - apply (IH (pos + 1) st1 E). lia.
Qed.

Lemma Root_finds_leaves (leaves : list bytes) (s : Segment D) r j :
  let h := Z.to_nat (seg_height (sg_id s)) in
  let idx := seg_index (sg_id s) in
  segment_wf leaves s -> (idx + 1) * 2 ^ h <= length leaves ->
  Segment_Root Blake2b (mmr_size (length leaves)) None s = Ok (Some r) ->
  idx * 2 ^ h <= j < (idx + 1) * 2 ^ h ->
  exists i d, find_index (mmr_size j) (sg_leaf_pos s) = Some i /\ sg_leaves s !! i = Some d.
Proof.
  intros h idx Hwf Hin E Hj. rewrite (Segment_Root_unfold Blake2b leaves None s Hwf) in E. fold h idx in E.
  destruct (segment_range leaves s Hwf) as (Eh & Hi & _). fold h idx in Eh, Hi.
  destruct (Z.leb_spec ((idx + 1) * 2 ^ h) (length leaves)); [|lia].
  destruct (Segment_Root_loop _ _ _ _ _ _ _) as [[st|]|e] eqn:EL; cbn [obind] in E; [|done|done].
  pose proof (pow2_pos h ltac:(lia)). assert (0 <= j) by nia.
  pose proof (mmr_size_mono (idx * 2 ^ h) j ltac:(nia)). pose proof (mmr_size_mono j ((idx + 1) * 2 ^ h - 1) ltac:(nia)).
  pose proof (node_pos_last_leaf h idx Hi).
  apply (Root_loop_found _ _ _ _ _ _ (mmr_size j) EL); [lia|].
  pose proof (sw_ok _ _ Hwf) as [Hn _ _ _]. pose proof (mmr_size_bound j ltac:(lia)).
  rewrite <- node_pos_leaf in *. rewrite Index_At_node by (lia || unfold pos_ok; nia). done.
Qed.

(** The ancestors of a node come after it. *)
Lemma branch_after fuel (leaves : list bytes) (h : nat) i :
  0 <= i -> Forall (fun e => node_pos h i + 1 <= e.1) (branch_spec fuel (length leaves) h i).
Proof.
  revert h i. induction fuel as [|fuel IH]; intros h i Hi; cbn [branch_spec]; [constructor|].
  destruct (_ <=? _); [|constructor]. pose proof (node_pos_parent_bound h i ltac:(lia) Hi).
  constructor; cbn [fst]; [lia|]. assert (0 <= i / 2) by (apply Z.div_pos; lia).
  replace (h + 1) with (Z.of_nat (S h)) in * by lia.
  eapply Forall_impl; [apply IH; done|]. cbn. intros e He. lia.
Qed.

Lemma Generate_branch_start branch u getHashAt acc :
  Forall (fun e => u <= e.1) branch ->
  Generate_branch branch (Some u) getHashAt acc = Generate_branch branch None getHashAt acc.
Proof.
  intros Hb. revert acc. induction Hb as [|[p q] branch Hp Hb IH]; intros acc; [done|]. cbn [Generate_branch fst] in *.
  destruct (Z.ltb_spec p u); [lia|]. destruct (getHashAt q); [apply IH|done].
Qed.

Lemma segment_start_self fuel (leaves : list bytes) (h : nat) i :
  0 <= i -> segment_start leaves fuel (node_pos h i + 1) h i = (h, i).
Proof.
  intros Hi. destruct fuel as [|fuel]; [done|]. cbn [segment_start].
  pose proof (node_pos_parent_bound h i ltac:(lia) Hi).
  destruct (Z.ltb_spec (node_pos (h + 1) (i / 2)) (node_pos h i + 1)); [lia|]. by rewrite andb_false_r.
Qed.

Lemma hash_of_start fuel (leaves : list bytes) u (h : nat) i :
  0 <= i -> u = node_pos h i + 1 -> hash_of Blake2b leaves (segment_start leaves fuel u h i) = node_hash Blake2b leaves h i.
Proof. intros Hi ->. by rewrite segment_start_self. Qed.

Lemma Generate_start mmrSize first last_ u getHashAt :
  Forall (fun e => u <= e.1) (FamilyBranch last_ mmrSize) ->
  SegmentProof_Generate Blake2b mmrSize first last_ (Some u) getHashAt =
  SegmentProof_Generate Blake2b mmrSize first last_ None getHashAt.
Proof. intros Hb. unfold SegmentProof_Generate. by rewrite Generate_branch_start. Qed.

Lemma Generate_start_node (leaves : list bytes) first (h : nat) i getHashAt :
  size_ok (length leaves) -> 0 <= i -> (i + 1) * 2 ^ h <= length leaves ->
  SegmentProof_Generate Blake2b (mmr_size (length leaves)) first (node_pos h i) (Some (node_pos h i + 1)) getHashAt =
  SegmentProof_Generate Blake2b (mmr_size (length leaves)) first (node_pos h i) None getHashAt.
Proof.
  intros Hok Hi Hin. apply Generate_start. rewrite FamilyBranch_node by (done || lia). by apply branch_after.
Qed.

(** A proof generated without a start position serves a segment root at its
    own position. *)
Lemma proof_complete_self leaves getHashAt (h : nat) i :
  size_ok (length leaves) -> 0 <= i -> (i + 1) * 2 ^ h <= length leaves -> reads_tree Blake2b leaves getHashAt ->
  exists p,
    SegmentProof_Generate Blake2b (mmr_size (length leaves)) (mmr_size (i * 2 ^ h)) (node_pos h i) None getHashAt = Some p /\
    ReconstructRoot Blake2b (mmr_size (length leaves)) (mmr_size (i * 2 ^ h)) (node_pos h i)
      (node_hash Blake2b leaves h i) (node_pos h i + 1) p = Some (mmr_root Blake2b leaves).
Proof.
  intros Hok Hi Hin Hr.
  destruct (proof_complete Blake2b leaves getHashAt (Some (node_pos h i + 1)) h i Hok Hi Hin Hr) as (p & E1 & E2).
  exists p. rewrite (Generate_start_node leaves) in E1 by done. split; [exact E1|].
  rewrite (hash_of_start 64 leaves (default 0 (Some (node_pos h i + 1)))) in E2 by done. exact E2.
Qed.

End unpruned.

(** ** Reading a segment *)

(** A reader that stays in its buffer. *)
Definition keeps {A} (r : reader A) : Prop := forall b a b', r b = Ok (a, b') -> m_bytes b' = m_bytes b.

Lemma keeps_read_bytes k : keeps (read_bytes k).
Proof. intros b a b'. unfold read_bytes. destruct (_ >? _); [done|]. destruct (_ >? _); [done|]. by intros [= _ <-]. Qed.

Lemma keeps_bind {A B} (r : reader A) (f : A -> reader B) :
  keeps r -> (forall a, keeps (f a)) -> keeps (r ≫= f).
Proof.
  intros Hr Hf b x b'. unfold mbind, reader_bind. destruct (r b) as [[a b1]|] eqn:E; [|done].
  intros E'. rewrite (Hf a b1 x b' E'). by apply (Hr b a b1).
Qed.

Lemma keeps_ret {A} (a : A) : keeps (mret a).
Proof. by intros b x b' [= _ <-]. Qed.

Lemma keeps_list {A} (r : reader A) (k : nat) : keeps r -> keeps (read_list k r).
Proof.
  intros Hr. induction k as [|k IH]; [apply keeps_ret|]. cbn [read_list].
  apply keeps_bind; [done|]. intros a. apply keeps_bind; [done|]. intros l. apply keeps_ret.
Qed.

Lemma read_list_length {A} (r : reader A) (k : nat) b l b' : read_list k r b = Ok (l, b') -> length l = k.
Proof.
  revert b l b'. induction k as [|k IH]; intros b l b'; cbn [read_list]; [by intros [= <- _]|].
  unfold mbind, reader_bind. destruct (r b) as [[a b1]|]; [|done].
  destruct (read_list k r b1) as [[l1 b2]|] eqn:E; [|done]. intros [= <- _]. simpl. f_equal. by eapply IH.
Qed.

Lemma keeps_int (k : nat) : keeps (ReadBigEndian_on false k).
Proof. apply keeps_bind; [apply keeps_read_bytes|]. intros d. apply keeps_ret. Qed.

Lemma reader_bind_ok {A B} (r : reader A) (f : A -> reader B) b x b' :
  (r ≫= f) b = Ok (x, b') -> exists a b1, r b = Ok (a, b1) /\ f a b1 = Ok (x, b').
Proof. unfold mbind, reader_bind. destruct (r b) as [[a b1]|]; [|done]. eauto. Qed.

Lemma Deserialize_sorted {D} `{HD : Serializable D} b (s : Segment D) b' :
  Forall is_byte (m_bytes b) -> Deserialize b = Ok (s, b') ->
  StronglySorted Z.lt (sg_hash_pos s) /\ length (sg_hash_pos s) = length (sg_hashes s) /\
  StronglySorted Z.lt (sg_leaf_pos s) /\ length (sg_leaf_pos s) = length (sg_leaves s).
Proof.
  intros Hb. cbn [Deserialize Segment_Serializable]. intros E.
  apply reader_bind_ok in E as (id & b1 & E1 & E).
  assert (m_bytes b1 = m_bytes b) as K1.
  { revert E1. cbn [Deserialize SegmentIdentifier_Serializable]. apply keeps_bind; [apply keeps_int|].
    intros height. apply keeps_bind; [apply keeps_int|]. intros index. apply keeps_ret. }
  apply reader_bind_ok in E as (nh & b2 & E2 & E). pose proof (keeps_int 8 _ _ _ E2) as K2.
  apply reader_bind_ok in E as (hp & b3 & E3 & E).
  apply read_positions_sorted in E3 as (L3 & S3 & _ & K3); [|done|by rewrite K2, K1].
  apply reader_bind_ok in E as (hs & b4 & E4 & E). pose proof (read_list_length _ _ _ _ _ E4) as L4.
  pose proof (keeps_list _ _ (keeps_read_bytes _) _ _ _ E4) as K4.
  apply reader_bind_ok in E as (nl & b5 & E5 & E). pose proof (keeps_int 8 _ _ _ E5) as K5.
  apply reader_bind_ok in E as (lp & b6 & E6 & E).
  apply read_positions_sorted in E6 as (L6 & S6 & _ & _); [|done|by rewrite K5, K4, K3, K2, K1].
  apply reader_bind_ok in E as (ls & b7 & E7 & E). pose proof (read_list_length _ _ _ _ _ E7) as L7.
  apply reader_bind_ok in E as (pf & b8 & _ & E). injection E as <- <-. cbn [sg_hash_pos sg_hashes sg_leaf_pos sg_leaves].
  split; [done|]. split; [congruence|]. split; [done|congruence].
Qed.

(** ** Properties *)

Section properties.
Context {D : Type} `{HD : Serializable D}.

(** the wire format of a segment: [Deserialize] gives back every
    well-formed segment from the bytes [Serialize] wrote, and whatever bytes it
    accepts give strictly increasing positions, as many as there are hashes
    and leaves. *)
Theorem Segment_wire {wf : EProtocolVersion -> D -> Prop} `{!SerializableLaws D wf} v (s s' : Segment D) b b' :
  Segment_wf (wf := wf) v s -> length (Serialized v s) < 2 ^ 64 ->
  Forall is_byte (m_bytes b) -> Deserialize b = Ok (s', b') ->
  Deserialize (ByteBuffer_new (Serialized v s) v) = Ok (s, mkByteBuffer (length (Serialized v s)) (Serialized v s) v) /\
  StronglySorted Z.lt (sg_hash_pos s') /\ length (sg_hash_pos s') = length (sg_hashes s') /\
  StronglySorted Z.lt (sg_leaf_pos s') /\ length (sg_leaf_pos s') = length (sg_leaves s').
Proof.
  intros Hwf Hl Hb E. split; [by apply serialized_roundtrip|]. by eapply Deserialize_sorted.
Qed.

Context (Blake2b : bytes -> Hash).

(** [Root] computes the hash of the tree: for a segment with a full block
    the hash of its root, or nothing when the bitmap requires none of its
    leaves; for the last, partly filled block the bagged peaks inside it. *)
Theorem Segment_Root_spec leaves pBitmap (s : Segment D) :
  let n := length leaves in
  let h := Z.to_nat (seg_height (sg_id s)) in
  let idx := seg_index (sg_id s) in
  segment_wf leaves s ->
  ((idx + 1) * 2 ^ h <= n -> carries Blake2b leaves pBitmap s h idx ->
    Segment_Root Blake2b (mmr_size n) pBitmap s =
      Ok (if node_required leaves pBitmap h idx then Some (node_hash Blake2b leaves h idx) else None)) /\
  (n < (idx + 1) * 2 ^ h -> carries_peaks Blake2b leaves pBitmap s h ->
    Segment_Root Blake2b (mmr_size n) pBitmap s = Ok (Some (bag Blake2b (mmr_size n) (peak_hashes Blake2b leaves h n)))).
Proof.
  intros n h idx Hwf. split; [by apply Segment_Root_full|by apply Segment_Root_partial].
Qed.

(** The proof that [SegmentProof::Generate] makes for a segment of the tree. *)
Definition honest_proof (leaves : list bytes) (getHashAt : Z -> option Hash) (s : Segment D) : Prop :=
  let posRange := GetPositionRange (mmr_size (length leaves)) (sg_id s) in
  SegmentProof_Generate Blake2b (mmr_size (length leaves)) posRange.1 posRange.2 None getHashAt = Some (sg_proof s).

Lemma Validate_of_root leaves (s : Segment D) pBitmap r :
  Segment_Root Blake2b (mmr_size (length leaves)) pBitmap s = Ok (Some r) ->
  Segment_Validate Blake2b (mmr_size (length leaves)) (mmr_root Blake2b leaves) pBitmap s =
  Ok (let posRange := GetPositionRange (mmr_size (length leaves)) (sg_id s) in
    SegmentProof_Validate Blake2b (mmr_size (length leaves)) posRange.1 posRange.2 r (posRange.2 + 1)%u64
      (mmr_root Blake2b leaves) (sg_proof s)).
Proof. intros E. unfold Segment_Validate, FirstUnprunedParent. rewrite E. done. Qed.

Lemma Validate_root_inv leaves (s : Segment D) :
  Segment_Validate Blake2b (mmr_size (length leaves)) (mmr_root Blake2b leaves) None s = Ok true ->
  exists r, Segment_Root Blake2b (mmr_size (length leaves)) None s = Ok (Some r).
Proof.
  unfold Segment_Validate, FirstUnprunedParent.
  destruct (Segment_Root Blake2b (mmr_size (length leaves)) None s) as [[r|]|e]; [by exists r|done|done].
Qed.

Lemma range_end_u64 leaves (s : Segment D) :
  segment_wf leaves s -> is_uint 64 ((GetPositionRange (mmr_size (length leaves)) (sg_id s)).2 + 1).
Proof.
  intros Hwf. destruct (segment_range leaves s Hwf) as (Eh & Hi & -> & _ & Hlt). cbn [snd].
  destruct (sw_ok _ _ Hwf) as [Hn Hh _ _]. pose proof (mmr_size_bound (length leaves) ltac:(lia)).
  set (h := Z.to_nat (seg_height (sg_id s))) in *. set (idx := seg_index (sg_id s)) in *.
  destruct (Z.leb_spec ((idx + 1) * 2 ^ h) (length leaves)) as [Hle|_].
  - pose proof (proj2 (node_in_mmr h idx (length leaves) ltac:(lia) Hi ltac:(lia)) Hle).
    pose proof (node_pos_nonneg h idx ltac:(lia) Hi). unfold is_uint. lia.
  - pose proof (mmr_size_ge (idx * 2 ^ h) ltac:(pose proof (pow2_pos h ltac:(lia)); nia)).
    pose proof (pow2_pos h ltac:(lia)). unfold is_uint. nia.
Qed.

Hypothesis Blake2b_length : forall x, length (Blake2b x) = 32%nat.

Lemma peaks_bag_length leaves (k : nat) size : length (bag Blake2b size (peak_hashes Blake2b leaves k (length leaves))) = 32%nat.
Proof. apply bag_length; [done|]. by apply (peak_hashes_length Blake2b Blake2b_length leaves leaves). Qed.

Lemma mmr_root_length leaves : length (mmr_root Blake2b leaves) = 32%nat.
Proof. apply peaks_bag_length. Qed.

Lemma Validate_of_reconstruct leaves (s : Segment D) pBitmap r :
  let posRange := GetPositionRange (mmr_size (length leaves)) (sg_id s) in
  length r = 32%nat -> is_uint 64 (posRange.2 + 1) ->
  Segment_Root Blake2b (mmr_size (length leaves)) pBitmap s = Ok (Some r) ->
  Segment_Validate Blake2b (mmr_size (length leaves)) (mmr_root Blake2b leaves) pBitmap s = Ok true <->
  ReconstructRoot Blake2b (mmr_size (length leaves)) posRange.1 posRange.2 r (posRange.2 + 1) (sg_proof s)
    = Some (mmr_root Blake2b leaves).
Proof.
  intros posRange Hr Hu E. rewrite (Validate_of_root leaves s pBitmap r E). cbv zeta. fold posRange.
  rewrite uint_small by done.
  rewrite <- (Validate_reconstruct Blake2b Blake2b_length) by (done || apply mmr_root_length).
  split; [by intros [= ->]|by intros ->].
Qed.

Lemma Segment_Validate_honest leaves getHashAt pBitmap (s : Segment D) :
  let n := length leaves in
  let h := Z.to_nat (seg_height (sg_id s)) in
  let idx := seg_index (sg_id s) in
  segment_wf leaves s -> reads_tree Blake2b leaves getHashAt -> honest_proof leaves getHashAt s ->
  (if (idx + 1) * 2 ^ h <=? n
   then carries Blake2b leaves pBitmap s h idx /\ node_required leaves pBitmap h idx = true
   else carries_peaks Blake2b leaves pBitmap s h) ->
  Segment_Validate Blake2b (mmr_size n) (mmr_root Blake2b leaves) pBitmap s = Ok true.
Proof.
  intros n h idx Hwf Hread Hproof Hc. pose proof (range_end_u64 leaves s Hwf) as Hu.
  destruct (segment_range leaves s Hwf) as (Eh & Hi & Er & _ & Hlt). unfold honest_proof in Hproof.
  fold n h idx in Eh, Hi, Er, Hlt, Hu, Hproof.
  pose proof (segment_size_ok leaves s (sw_ok _ _ Hwf)) as Hsz. fold n in Hsz.
  destruct (Z.leb_spec ((idx + 1) * 2 ^ h) n) as [Hin|Hin].
  - destruct Hc as [Hc Hreq]. pose proof (Segment_Root_full Blake2b leaves pBitmap s Hwf Hin Hc) as E.
    fold n h idx in E. unfold node_value in E. rewrite Hreq in E.
    apply (Validate_of_reconstruct leaves s pBitmap _ (node_hash_length Blake2b Blake2b_length leaves h idx) Hu E).
    fold n. rewrite Er in *. cbn [fst snd] in *.
    destruct (proof_complete_self Blake2b leaves getHashAt h idx Hsz Hi Hin Hread) as (p & E1 & E2).
    fold n in E1, E2. rewrite Hproof in E1. injection E1 as <-. exact E2.
  - pose proof (Segment_Root_partial Blake2b leaves pBitmap s Hwf Hin Hc) as E. fold n h in E.
    apply (Validate_of_reconstruct leaves s pBitmap _ (peaks_bag_length leaves h _) Hu E).
    fold n. rewrite Er in *. cbn [fst snd] in *. pose proof (sw_start _ _ Hwf) as Hst. fold n h idx in Hst.
    destruct (sw_ok _ _ Hwf) as [_ Hh _ _].
    destruct (proof_complete_partial Blake2b leaves getHashAt None (mmr_size n - 1 + 1) h idx Hsz) as (p & E1 & E2);
      [lia|done|done|done|]. fold n in E1, E2. rewrite Hproof in E1. injection E1 as <-. exact E2.
Qed.

(** C26: completeness: a segment that carries what the bitmap requires of a
    block of the tree, with the proof that [Generate] makes, validates against
    the root of the tree. *)
Theorem Segment_Validate_complete leaves getHashAt pBitmap (s : Segment D) :
  let n := length leaves in
  let h := Z.to_nat (seg_height (sg_id s)) in
  let idx := seg_index (sg_id s) in
  segment_wf leaves s -> reads_tree Blake2b leaves getHashAt -> honest_proof leaves getHashAt s ->
  (if (idx + 1) * 2 ^ h <=? n
   then carries Blake2b leaves pBitmap s h idx /\ node_required leaves pBitmap h idx = true
   else carries_peaks Blake2b leaves pBitmap s h) ->
  Segment_Validate Blake2b (mmr_size n) (mmr_root Blake2b leaves) pBitmap s = Ok true.
Proof. intros n h idx Hwf Hread Hproof Hc. by apply (Segment_Validate_honest leaves getHashAt). Qed.

(** The inputs hashed when a segment with a full block is validated. *)
Definition validate_inputs (leaves : list bytes) (s : Segment D) (p : SegmentProof) : list bytes :=
  let h := Z.to_nat (seg_height (sg_id s)) in
  let idx := seg_index (sg_id s) in
  node_inputs Blake2b leaves h idx ++
  reconstruct_inputs Blake2b (mmr_size (length leaves)) (mmr_size (idx * 2 ^ h)) (node_pos h idx)
    (node_hash Blake2b leaves h idx) (node_pos h idx + 1) p.

(** C9: soundness: a segment with a full block and no bitmap that validates
    against the root of a tree has the leaves of the tree, unless two different
    inputs hashed on the way collide. *)
Theorem Segment_Validate_sound leaves getHashAt (s : Segment D) p0 j :
  let n := length leaves in
  let h := Z.to_nat (seg_height (sg_id s)) in
  let idx := seg_index (sg_id s) in
  segment_wf leaves s -> (idx + 1) * 2 ^ h <= n -> reads_tree Blake2b leaves getHashAt ->
  SegmentProof_Generate Blake2b (mmr_size n) (mmr_size (idx * 2 ^ h)) (node_pos h idx) None getHashAt = Some p0 ->
  hashes_ok (m_hashes (sg_proof s)) -> hashes_ok (m_hashes p0) ->
  no_collision Blake2b (validate_inputs (claimed_leaves n s) s (sg_proof s)) (validate_inputs leaves s p0) ->
  Segment_Validate Blake2b (mmr_size n) (mmr_root Blake2b leaves) None s = Ok true ->
  idx * 2 ^ h <= j < (idx + 1) * 2 ^ h -> has_leaf leaves s j.
Proof.
  intros n h idx Hwf Hin Hread Hgen Hp Hp0 Hnc Hv Hj. set (L := claimed_leaves n s) in *.
  assert (length L = n) as HL by apply claimed_leaves_length.
  destruct (segment_range leaves s Hwf) as (Eh & Hi & Er & _ & Hlt). fold n h idx in Eh, Hi, Er, Hlt.
  pose proof (range_end_u64 leaves s Hwf) as Hu. fold n in Hu.
  destruct (Validate_root_inv leaves s Hv) as [r Eroot]. fold n in Eroot, Hv.
  pose proof (fun j => Root_finds_leaves Blake2b leaves s r j Hwf Hin Eroot) as Hfound. fold h idx in Hfound.
  assert (forall j, idx * 2 ^ h <= j < (idx + 1) * 2 ^ h ->
    L !! Z.to_nat j = Some (claimed_leaf s j)) as HLj.
  { intros j' Hj'. pose proof (pow2_pos h ltac:(lia)). apply claimed_leaves_lookup. nia. }
  assert (forall j, idx * 2 ^ h <= j < (idx + 1) * 2 ^ h -> has_leaf L s j) as Hclaim.
  { intros j' Hj'. destruct (Hfound j' Hj') as (i & d & E1 & E2). exists i, d. split; [done|]. split; [done|].
    rewrite HLj by done. unfold claimed_leaf. by rewrite E1, E2. }
  assert (segment_wf L s) as HwfL.
  { destruct Hwf as [H1 H2 H3 H4]. constructor; rewrite ?HL; done. }
  assert (r = node_hash Blake2b L h idx) as ->.
  { pose proof (Segment_Root_full Blake2b L None s HwfL) as E. fold h idx in E. rewrite HL in E. rewrite E in Eroot.
    - unfold node_value in Eroot. rewrite node_required_none in Eroot by done. by injection Eroot as <-.
    - done.
    - by apply carries_all. }
  pose proof (node_hash_length Blake2b Blake2b_length L h idx) as Hl1.
  pose proof (node_hash_length Blake2b Blake2b_length leaves h idx) as Hl2.
  apply (Validate_of_reconstruct leaves s None _ Hl1 Hu Eroot) in Hv. fold n in Hv. rewrite Er in Hv.
  destruct (Z.leb_spec ((idx + 1) * 2 ^ h) n); [|lia]. cbn [fst snd] in Hv.
  destruct (proof_complete_self Blake2b leaves getHashAt h idx) as (p & E1 & E2);
    [by apply (segment_size_ok leaves s), Hwf|done|done|done|]. fold n in E1, E2.
  rewrite Hgen in E1. injection E1 as <-.
  unfold validate_inputs in Hnc. fold h idx in Hnc. rewrite HL in Hnc. fold n in Hnc.
  apply no_collision_app in Hnc as [Hnc1 Hnc2].
  destruct (ReconstructRoot_unique Blake2b Blake2b_length _ _ _ _ _ _ _ _ _ Hp Hp0 Hl1 Hl2 Hv E2 Hnc2) as [_ Eh'].
  pose proof (node_hash_binding Blake2b Blake2b_length L leaves h idx Hi Hnc1 Eh' j Hj) as Eb.
  rewrite HLj in Eb by done. destruct (Hclaim j Hj) as (i & d & F1 & F2 & F3). exists i, d.
  rewrite HLj in F3 by done. split; [done|]. split; [done|]. rewrite F3. exact Eb.
Qed.

End properties.

(** ** Evaluation

    Segments of the MMR of three chunks: the first block of two, the last
    block with one, and one with a forged leaf. *)
Definition example_chunk (i : Z) : BitmapChunk := BitmapChunk_Set i true BitmapChunk_new.
Definition example_chunks : list BitmapChunk := [example_chunk 1; example_chunk 2; example_chunk 3].
Definition example_tree : list bytes := map chunk_bytes example_chunks.

Definition example_segment (idx : Z) (leafPos : list Z) (chunks : list BitmapChunk) : Segment BitmapChunk :=
  let id := mkSegmentIdentifier 1 idx in
  let posRange := GetPositionRange (mmr_size (length example_tree)) id in
  mkSegment id [] [] leafPos chunks
    (default (mkSegmentProof []) (SegmentProof_Generate toy_hash (mmr_size (length example_tree)) posRange.1 posRange.2
      None (example_reader example_tree))).

Definition first_segment : Segment BitmapChunk := example_segment 0 [0; 1] [example_chunk 1; example_chunk 2].
Definition last_segment : Segment BitmapChunk := example_segment 1 [3] [example_chunk 3].
Definition forged_segment : Segment BitmapChunk := example_segment 0 [0; 1] [example_chunk 1; example_chunk 9].

Lemma first_segment_wf : segment_wf example_tree first_segment.
Proof. constructor; [constructor; vm_compute; intuition congruence|reflexivity..]. Qed.
Lemma last_segment_wf : segment_wf example_tree last_segment.
Proof. constructor; [constructor; vm_compute; intuition congruence|reflexivity..]. Qed.
Lemma forged_segment_wf : segment_wf example_tree forged_segment.
Proof. constructor; [constructor; vm_compute; intuition congruence|reflexivity..]. Qed.

Lemma first_segment_carries : carries toy_hash example_tree None first_segment 1 0.
Proof.
  apply carries_all; [lia|]. intros j Hj. change (0 * 2 ^ 1%nat <= j < 2) in Hj.
  assert (j = 0 \/ j = 1) as [-> | ->] by lia.
  - exists 0%nat, (example_chunk 1). split; [|split]; vm_compute; reflexivity.
  - exists 1%nat, (example_chunk 2). split; [|split]; vm_compute; reflexivity.
Qed.

Lemma last_segment_carries : carries_peaks toy_hash example_tree None last_segment 1.
Proof.
  apply carries_peaks_all. intros j Hj. change (2 <= j < 3) in Hj. assert (j = 2) as -> by lia.
  exists 0%nat, (example_chunk 3). split; [|split]; vm_compute; reflexivity.
Qed.

#[local] Instance is_byte_dec b : Decision (is_byte b).
Proof. unfold is_byte, is_uint. apply _. Defined.

Definition bare_segment : Segment BitmapChunk :=
  mkSegment (mkSegmentIdentifier 1 1) [] [] [3] [example_chunk 3] (mkSegmentProof []).

Lemma Segment_wire_witness :
  Deserialize (ByteBuffer_new (Serialized V1 first_segment) V1) =
    Ok (first_segment, mkByteBuffer (length (Serialized V1 first_segment)) (Serialized V1 first_segment) V1).
Proof.
  destruct (Segment_wire (D := BitmapChunk) (wf := BitmapChunk_wf) V1 first_segment bare_segment
    (ByteBuffer_new (Serialized V1 bare_segment) V1)
    (mkByteBuffer (length (Serialized V1 bare_segment)) (Serialized V1 bare_segment) V1)) as [E _].
  - constructor.
    + split; vm_compute; intuition congruence.
    + split; [constructor|]. split; [constructor|]. vm_compute. intuition congruence.
    + constructor.
    + reflexivity.
    + split; [repeat constructor|]. split; [repeat constructor; lia|]. vm_compute. intuition congruence.
    + constructor; [apply BitmapChunk_Set_wf, BitmapChunk_new_wf|].
      constructor; [apply BitmapChunk_Set_wf, BitmapChunk_new_wf|constructor].
    + reflexivity.
    + split; [vm_compute; repeat constructor|]. vm_compute. intuition congruence.
  - vm_compute. reflexivity.
  - apply (bool_decide_unpack _). vm_compute. exact I.
  - vm_compute. reflexivity.
  - exact E.
Defined.

Lemma Segment_Root_spec_witness :
  Segment_Root toy_hash (mmr_size (length example_tree)) None first_segment =
    Ok (Some (node_hash toy_hash example_tree 1 0)) /\
  Segment_Root toy_hash (mmr_size (length example_tree)) None last_segment =
    Ok (Some (bag toy_hash (mmr_size (length example_tree)) (peak_hashes toy_hash example_tree 1 (length example_tree)))).
Proof.
  split.
  - destruct (Segment_Root_spec toy_hash example_tree None first_segment first_segment_wf) as [E _].
    rewrite E; [reflexivity|vm_compute; congruence|exact first_segment_carries].
  - destruct (Segment_Root_spec toy_hash example_tree None last_segment last_segment_wf) as [_ E].
    rewrite E; [reflexivity|vm_compute; congruence|exact last_segment_carries].
Defined.

Lemma Segment_Validate_complete_witness :
  Segment_Validate toy_hash (mmr_size (length example_tree)) (mmr_root toy_hash example_tree) None last_segment = Ok true.
Proof.
  apply (Segment_Validate_complete toy_hash toy_hash_length example_tree (example_reader example_tree) None last_segment).
  - exact last_segment_wf.
  - apply example_reader_ok. vm_compute. reflexivity.
  - vm_compute. reflexivity.
  - exact last_segment_carries.
Defined.

(** The forged leaf is not accepted. *)
Lemma Segment_Validate_sound_witness :
  ~ Segment_Validate toy_hash (mmr_size (length example_tree)) (mmr_root toy_hash example_tree) None forged_segment = Ok true.
Proof.
  intros Hv.
  assert (has_leaf example_tree forged_segment 1) as (k & d & E1 & E2 & E3).
  - apply (Segment_Validate_sound toy_hash toy_hash_length example_tree (example_reader example_tree) forged_segment
      (sg_proof first_segment) 1).
    + exact forged_segment_wf.
    + vm_compute. congruence.
    + apply example_reader_ok. vm_compute. reflexivity.
    + vm_compute. reflexivity.
    + vm_compute. repeat constructor.
    + vm_compute. repeat constructor.
    + apply (bool_decide_unpack _). vm_compute. exact I.
    + exact Hv.
    + vm_compute. intuition congruence.
  - vm_compute in E1. injection E1 as <-. vm_compute in E2. injection E2 as <-. vm_compute in E3. discriminate E3.
Defined.
