(* ===== verification/BitmapSegment.v ===== *)
(** * Bitmap segments ([include/PMMR/Common/BitmapSegment.h])

    The segments of the output bitmap travel in blocks of up to 64 chunks: the
    bits of a block are sent as they are, or as the list of the set (unset)
    positions when there are fewer than 4096 of them. *)
From S2P Require Import Prelude BitUtil MMRIndex Serial BigInteger SegmentId SegmentProof BitmapFile Bitmap Segment.

Inductive ESerializationMode := Raw | SetPositions | UnsetPositions.

#[export] Instance ESerializationMode_eq_dec : EqDecision ESerializationMode.
Proof. solve_decision. Defined.

Definition mode_value (m : ESerializationMode) : Z :=
  match m with Raw => 0 | SetPositions => 1 | UnsetPositions => 2 end.

Record BitmapSegmentBlock := mkBitmapSegmentBlock {
  m_chunkCount : Z;
  m_mode : ESerializationMode;
  m_positions : list Z;
  m_bitmapBytes : bytes;
}.

(** [(1 << 16) / 16]. *)
Definition block_threshold : nat := Z.to_nat (Z.shiftl 1 16 / 16).

(** The loop of [FromChunks]: each bit goes to one of two lists, up to the
    threshold. *)
Definition FromChunks_step (chunks : list BitmapChunk) (acc : list Z * list Z) (bitIdx : Z) : list Z * list Z :=
  let '(setPositions, unsetPositions) := acc in
  let set := bit_at chunks bitIdx in
  if set && (length setPositions <? block_threshold)%nat then (setPositions ++ [uint 16 bitIdx], unsetPositions)
  else if negb set && (length unsetPositions <? block_threshold)%nat then (setPositions, unsetPositions ++ [uint 16 bitIdx])
  else (setPositions, unsetPositions).

Definition BitmapSegmentBlock_FromChunks (chunks : list BitmapChunk) : BitmapSegmentBlock :=
  let chunkCount := uint 8 (length chunks) in
  let nBits := length chunks * LEN_BITS in
  let '(setPositions, unsetPositions) := foldl (FromChunks_step chunks) ([], []) (seqZ 0 nBits) in
  if (length setPositions <? block_threshold)%nat then mkBitmapSegmentBlock chunkCount SetPositions setPositions []
  else if (length unsetPositions <? block_threshold)%nat then mkBitmapSegmentBlock chunkCount UnsetPositions unsetPositions []
  else mkBitmapSegmentBlock chunkCount Raw [] (concat (map chunk_bytes chunks)).

(** The loops of [ToChunks] over the positions. *)
Fixpoint set_positions (value : bool) (chunkCount : Z) (positions : list Z) (chunks : list BitmapChunk)
    : result (list BitmapChunk) :=
  match positions with
  | [] => mret chunks
  | position :: positions =>
      if position >=? chunkCount * LEN_BITS then Throw DeserializationException
      else
        chunk ← of_option UB (chunks !! Z.to_nat (position / LEN_BITS));
        set_positions value chunkCount positions
          (<[Z.to_nat (position / LEN_BITS) := BitmapChunk_Set (position mod LEN_BITS) value chunk]> chunks)
  end.

Definition full_chunk (chunk : BitmapChunk) : BitmapChunk :=
  foldl (fun chunk bitIdx => BitmapChunk_Set bitIdx true chunk) chunk (seqZ 0 LEN_BITS).

Definition BitmapSegmentBlock_ToChunks (b : BitmapSegmentBlock) : result (list BitmapChunk) :=
  let chunks := repeat BitmapChunk_new (Z.to_nat (m_chunkCount b)) in
  match m_mode b with
  | Raw =>
      let expectedSize := m_chunkCount b * LEN_BYTES in
      if negb (length (m_bitmapBytes b) =? expectedSize) then Throw DeserializationException
      else mret (map (fun chunkIdx => mkBitmapChunk (take (Z.to_nat LEN_BYTES) (drop (Z.to_nat (chunkIdx * LEN_BYTES)) (m_bitmapBytes b))))
        (seqZ 0 (m_chunkCount b)))
  | SetPositions => set_positions true (m_chunkCount b) (m_positions b) chunks
  | UnsetPositions => set_positions false (m_chunkCount b) (m_positions b) (map full_chunk chunks)
  end.

#[export] Instance BitmapSegmentBlock_Serializable : Serializable BitmapSegmentBlock := {
  Serialize b s :=
    let s := AppendU8 (mode_value (m_mode b)) (AppendU8 (m_chunkCount b) s) in
    match m_mode b with
    | Raw => AppendByteVector (m_bitmapBytes b) LenNone s
    | SetPositions | UnsetPositions =>
        append_all AppendU16 (m_positions b) (AppendU16 (uint 16 (length (m_positions b))) s)
    end;
  Deserialize :=
    chunkCount ← ReadU8;
    modeValue ← ReadU8;
    if modeValue >? 2 then reader_throw DeserializationException
    else if modeValue =? 0 then
      bitmapBytes ← read_list (Z.to_nat (chunkCount * 128)) ReadU8;
      mret (mkBitmapSegmentBlock chunkCount Raw [] bitmapBytes)
    else
      count ← ReadU16;
      positions ← read_list (Z.to_nat count) ReadU16;
      mret (mkBitmapSegmentBlock chunkCount (if modeValue =? 1 then SetPositions else UnsetPositions) positions []);
}.

(** ** [BitmapSegment] *)
Record BitmapSegment := mkBitmapSegment {
  m_identifier : SegmentIdentifier;
  m_blocks : list BitmapSegmentBlock;
  m_proof : SegmentProof;
}.

(** The loop over the offsets, in steps of 64. *)
Fixpoint FromSegment_loop (fuel : nat) (offset : nat) (chunks : list BitmapChunk) : list BitmapSegmentBlock :=
  match fuel with
  | O => []
  | S fuel =>
      if (offset <? length chunks)%nat then
        let count := Nat.min 64 (length chunks - offset) in
        BitmapSegmentBlock_FromChunks (take count (drop offset chunks)) :: FromSegment_loop fuel (offset + 64) chunks
      else []
  end.

Definition BitmapSegment_FromSegment (segment : Segment BitmapChunk) : BitmapSegment :=
  mkBitmapSegment (sg_id segment) (FromSegment_loop (S (length (sg_leaves segment))) 0 (sg_leaves segment)) (sg_proof segment).

Fixpoint ToSegment_chunks (blocks : list BitmapSegmentBlock) : result (list BitmapChunk) :=
  match blocks with
  | [] => mret []
  | block :: blocks =>
      blockChunks ← BitmapSegmentBlock_ToChunks block;
      chunks ← ToSegment_chunks blocks;
      mret (blockChunks ++ chunks)
  end.

(** The positions of [count] leaves from [leafOffset] on. *)
Definition leaf_positions (leafOffset : Z) (count : nat) : list Z :=
  map (fun i => LeafIndex_GetPosition (LeafIndex_At (leafOffset + i)%u64)) (seqZ 0 count).

Definition BitmapSegment_ToSegment (b : BitmapSegment) : result (Segment BitmapChunk) :=
  chunks ← ToSegment_chunks (m_blocks b);
  mret (mkSegment (m_identifier b) [] [] (leaf_positions (GetLeafOffset (m_identifier b)) (length chunks)) chunks (m_proof b)).

#[export] Instance BitmapSegment_Serializable : Serializable BitmapSegment := {
  Serialize b s :=
    Serialize (m_proof b)
      (append_all Serialize (m_blocks b)
        (AppendU16 (uint 16 (length (m_blocks b))) (Serialize (m_identifier b) s)));
  Deserialize :=
    identifier ← Deserialize;
    numBlocks ← ReadU16;
    blocks ← read_list (Z.to_nat numBlocks) Deserialize;
    proof ← Deserialize;
    mret (mkBitmapSegment identifier blocks proof);
}.

(** ** Bits of chunks *)

Lemma chunk_IsSet_Set_value c i v j :
  BitmapChunk_wf V1 c -> 0 <= i < LEN_BITS -> 0 <= j ->
  BitmapChunk_IsSet j (BitmapChunk_Set i v c) = if i =? j then v else BitmapChunk_IsSet j c.
Proof.
  intros Hc Hi Hj. destruct v.
  { rewrite chunk_IsSet_Set by done. by destruct (i =? j). }
  destruct Hc as [Hl _]. rewrite !chunk_IsSet_testbit. unfold BitmapChunk_Set, byte_at. cbn [chunk_bytes].
  pose proof (Z.mod_pos_bound i 8 ltac:(lia)). pose proof (Z.mod_pos_bound j 8 ltac:(lia)).
  assert (0 <= i / 8 < LEN_BYTES).
  { split; [apply Z.div_pos; lia|]. apply Z.div_lt_upper_bound; change LEN_BYTES with 128; unfold LEN_BITS in *; lia. }
  assert (0 <= j / 8) by (apply Z.div_pos; lia).
  destruct (Z.eqb_spec (i / 8) (j / 8)) as [E|E].
  - rewrite E, list_lookup_insert_eq by lia. cbn [default from_option id].
    rewrite Z.land_spec. unfold uint. rewrite Z.mod_pow2_bits_low, Z.lnot_spec, testbit_BitToByte by lia.
    rewrite <- (div_mod_eqb i j) by lia. destruct (i mod 8 =? j mod 8); [apply andb_false_r|apply andb_true_r].
  - rewrite list_lookup_insert_ne by lia. destruct (Z.eqb_spec i j) as [->|]; [done|done].
Qed.

(** A chunk is its bits. *)
Lemma chunk_ext c c' :
  BitmapChunk_wf V1 c -> BitmapChunk_wf V1 c' ->
  (forall j, 0 <= j < LEN_BITS -> BitmapChunk_IsSet j c = BitmapChunk_IsSet j c') -> c = c'.
Proof.
  destruct c as [b], c' as [b']. intros [Hl Hb] [Hl' Hb'] HE. cbn [chunk_bytes] in *. f_equal. apply list_eq_same_length with (Z.to_nat LEN_BYTES); [done|done|].
  intros i x x' Hi Ex Ex'. rewrite Forall_lookup in Hb, Hb'. specialize (Hb _ _ Ex). specialize (Hb' _ _ Ex').
  apply Z.bits_inj_iff'. intros k Hk. destruct (Z.lt_ge_cases k 8) as [Hlt|Hge].
  - specialize (HE (i * 8 + (7 - k))). rewrite !chunk_IsSet_testbit in HE. unfold byte_at in HE. cbn [chunk_bytes] in HE.
    rewrite Z.div_add_l, (Z.div_small (7 - k)), Z.add_0_r, Nat2Z.id, Ex, Ex' in HE by lia.
    rewrite (Z.add_comm (i * 8)), Z.mod_add, Z.mod_small in HE by lia. cbn [default from_option id] in HE.
    replace (7 - (7 - k)) with k in HE by lia. apply HE. change LEN_BYTES with 128 in *. unfold LEN_BITS. lia.
  - unfold is_byte, is_uint in *. rewrite !(testbit_above 8) by (try done; lia). done.
Qed.

Lemma chunks_ext cs cs' :
  Forall (BitmapChunk_wf V1) cs -> Forall (BitmapChunk_wf V1) cs' -> length cs = length cs' ->
  (forall j, 0 <= j < length cs * LEN_BITS -> bit_at cs j = bit_at cs' j) -> cs = cs'.
Proof.
  intros Hc Hc' Hl HE. apply list_eq_same_length with (length cs); [done|done|].
  intros i x x' Hi Ex Ex'. rewrite Forall_lookup in Hc, Hc'. apply chunk_ext; [by eapply Hc|by eapply Hc'|].
  intros j Hj. specialize (HE (i * LEN_BITS + j)). unfold bit_at in HE.
  rewrite Z.div_add_l, (Z.div_small j), Z.add_0_r, Nat2Z.id, Ex, Ex' in HE by (unfold LEN_BITS in *; lia).
  rewrite (Z.add_comm (i * LEN_BITS)), Z.mod_add, Z.mod_small in HE by (unfold LEN_BITS in *; lia).
  apply HE. unfold LEN_BITS in *. lia.
Qed.

Lemma bit_at_insert cs i v c j :
  BitmapChunk_wf V1 c -> cs !! Z.to_nat (i / LEN_BITS) = Some c -> 0 <= i -> 0 <= j ->
  bit_at (<[Z.to_nat (i / LEN_BITS) := BitmapChunk_Set (i mod LEN_BITS) v c]> cs) j = if i =? j then v else bit_at cs j.
Proof.
  intros Hc E Hi Hj. unfold bit_at. pose proof (lookup_lt_Some _ _ _ E).
  pose proof (Z.mod_pos_bound i LEN_BITS ltac:(done)). pose proof (Z.mod_pos_bound j LEN_BITS ltac:(done)).
  pose proof (Z.div_mod i LEN_BITS ltac:(done)). pose proof (Z.div_mod j LEN_BITS ltac:(done)).
  assert (0 <= i / LEN_BITS) by (apply Z.div_pos; unfold LEN_BITS; lia).
  assert (0 <= j / LEN_BITS) by (apply Z.div_pos; unfold LEN_BITS; lia).
  destruct (Z.eq_dec (i / LEN_BITS) (j / LEN_BITS)) as [Eq|Ne].
  - rewrite <- Eq, list_lookup_insert_eq, E by done. rewrite chunk_IsSet_Set_value by (done || lia).
    destruct (Z.eqb_spec (i mod LEN_BITS) (j mod LEN_BITS)), (Z.eqb_spec i j); congruence || (exfalso; lia) || done.
  - rewrite list_lookup_insert_ne by lia. destruct (Z.eqb_spec i j) as [->|]; done.
Qed.

(** ** Blocks *)

Lemma take_snoc {A} (T : nat) (l : list A) x :
  take T (l ++ [x]) = if (length (take T l) <? T)%nat then take T l ++ [x] else take T l.
Proof.
  rewrite length_take. destruct (Nat.ltb_spec (Nat.min T (length l)) T) as [Hlt|Hge].
  - rewrite !take_ge by (rewrite ?length_app; simpl; lia). done.
  - rewrite take_app_le by lia. done.
Qed.

Lemma FromChunks_scan chunks l :
  Forall (is_uint 16) l ->
  foldl (FromChunks_step chunks) ([], []) l =
    (take block_threshold (filter (fun i => bit_at chunks i = true) l),
     take block_threshold (filter (fun i => bit_at chunks i = false) l)).
Proof.
  induction l as [|i l IH] using rev_ind; intros Hl; [done|]. apply Forall_app in Hl as [Hl Hi].
  rewrite Forall_singleton in Hi. rewrite foldl_app, IH by done. cbn [foldl FromChunks_step].
  rewrite !filter_app, !filter_cons, !filter_nil, uint_small by done.
  destruct (bit_at chunks i) eqn:E; cbn [andb negb].
  - rewrite decide_True, decide_False by done. rewrite app_nil_r, take_snoc. by destruct (_ <? _)%nat.
  - rewrite decide_False, decide_True by done. rewrite app_nil_r, take_snoc. by destruct (_ <? _)%nat.
Qed.

Lemma take_all_of_short {A} (T : nat) (l : list A) : (length (take T l) <? T)%nat = true -> take T l = l.
Proof. rewrite length_take. intros H%Nat.ltb_lt. apply take_ge. lia. Qed.

Lemma set_positions_ok v ps cs :
  Forall (fun p => 0 <= p < length cs * LEN_BITS) ps -> Forall (BitmapChunk_wf V1) cs ->
  exists cs', set_positions v (length cs) ps cs = Ok cs' /\ Forall (BitmapChunk_wf V1) cs' /\ length cs' = length cs /\
    forall j, 0 <= j -> bit_at cs' j = if bool_decide (j ∈ ps) then v else bit_at cs j.
Proof.
  revert cs. induction ps as [|p ps IH]; intros cs Hp Hc; cbn [set_positions]; [by exists cs|].
  apply Forall_cons in Hp as [Hp Hps]. rewrite Z.geb_leb. destruct (Z.leb_spec (length cs * LEN_BITS) p); [lia|].
  assert (0 <= p / LEN_BITS < length cs).
  { split; [apply Z.div_pos; unfold LEN_BITS; lia|]. apply Z.div_lt_upper_bound; [done|]. unfold LEN_BITS in *. lia. }
  destruct (lookup_lt_is_Some_2 cs (Z.to_nat (p / LEN_BITS))) as [c E]; [lia|]. rewrite E. cbn [of_option mbind result_bind].
  assert (BitmapChunk_wf V1 c) as Hcw by (rewrite Forall_lookup in Hc; by eapply Hc).
  set (cs1 := <[Z.to_nat (p / LEN_BITS) := BitmapChunk_Set (p mod LEN_BITS) v c]> cs).
  assert (length cs1 = length cs) as Hl by apply length_insert.
  destruct (IH cs1) as (cs' & E' & Hw & Hl' & Hb); [by rewrite Hl| |].
  { apply Forall_insert; [done|]. by apply BitmapChunk_Set_wf. }
  exists cs'. rewrite Hl in E', Hl'. split; [done|]. split; [done|]. split; [done|]. intros j Hj.
  rewrite Hb by done. unfold cs1. rewrite bit_at_insert by (done || lia).
  destruct (Z.eqb_spec p j) as [->|Hne].
  - rewrite (bool_decide_eq_true_2 (j ∈ j :: ps)) by (by left). by case_bool_decide.
  - assert (bool_decide (j ∈ p :: ps) = bool_decide (j ∈ ps)) as ->; [|done].
    apply bool_decide_ext. rewrite elem_of_cons. split; [intros [->|]; done|by right].
Qed.

Lemma chunks_new_bits (k : nat) j : 0 <= j -> bit_at (repeat BitmapChunk_new k) j = false.
Proof.
  intros Hj. unfold bit_at. destruct (repeat BitmapChunk_new k !! Z.to_nat (j / LEN_BITS)) eqn:E; [|done].
  apply list_elem_of_lookup_2, list_elem_of_In, repeat_spec in E as ->. apply chunk_new_unset.
Qed.

Lemma chunks_new_wf (k : nat) : Forall (BitmapChunk_wf V1) (repeat BitmapChunk_new k).
Proof.
  apply Forall_forall. intros c Hc%list_elem_of_In. apply repeat_spec in Hc as ->. apply BitmapChunk_new_wf.
Qed.

Lemma set_all_ok l c :
  BitmapChunk_wf V1 c -> Forall (fun i => 0 <= i < LEN_BITS) l ->
  BitmapChunk_wf V1 (foldl (fun chunk bitIdx => BitmapChunk_Set bitIdx true chunk) c l) /\
  forall j, 0 <= j -> BitmapChunk_IsSet j (foldl (fun chunk bitIdx => BitmapChunk_Set bitIdx true chunk) c l) =
    bool_decide (j ∈ l) || BitmapChunk_IsSet j c.
Proof.
  intros Hc Hl. revert c Hc. induction Hl as [|i l Hi Hl IH]; intros c Hc; cbn [foldl]; [done|].
  destruct (IH (BitmapChunk_Set i true c)) as [Hw Hb]; [by apply BitmapChunk_Set_wf|]. split; [done|].
  intros j Hj. rewrite Hb, chunk_IsSet_Set by done.
  assert (bool_decide (j ∈ i :: l) = bool_decide (j ∈ l) || (i =? j)) as ->.
  { destruct (Z.eqb_spec i j) as [->|Hne].
    - rewrite orb_true_r. apply bool_decide_eq_true_2. by left.
    - rewrite orb_false_r. apply bool_decide_ext. rewrite elem_of_cons. split; [intros [->|]; done|by right]. }
  by rewrite orb_assoc.
Qed.

Lemma full_chunks_ok (k : nat) :
  Forall (BitmapChunk_wf V1) (map full_chunk (repeat BitmapChunk_new k)) /\
  forall j, 0 <= j < k * LEN_BITS -> bit_at (map full_chunk (repeat BitmapChunk_new k)) j = true.
Proof.
  destruct (set_all_ok (seqZ 0 LEN_BITS) BitmapChunk_new BitmapChunk_new_wf) as [Hw Hb].
  { apply Forall_forall. intros i Hi%elem_of_seqZ. lia. }
  fold (full_chunk BitmapChunk_new) in Hw, Hb. rewrite map_repeat. split.
  - apply Forall_forall. intros c Hc%list_elem_of_In. by apply repeat_spec in Hc as ->.
  - intros j Hj. unfold bit_at. assert (0 <= j / LEN_BITS < k).
    { split; [apply Z.div_pos; unfold LEN_BITS; lia|]. apply Z.div_lt_upper_bound; [done|]. unfold LEN_BITS in *. lia. }
    destruct (lookup_lt_is_Some_2 (repeat (full_chunk BitmapChunk_new) k) (Z.to_nat (j / LEN_BITS))) as [c E].
    { rewrite repeat_length. lia. }
    rewrite E. apply list_elem_of_lookup_2, list_elem_of_In, repeat_spec in E as ->.
    pose proof (Z.mod_pos_bound j LEN_BITS ltac:(done)). rewrite Hb by lia.
    rewrite bool_decide_eq_true_2; [done|]. apply elem_of_seqZ. lia.
Qed.

Lemma raw_chunks chunks :
  Forall (BitmapChunk_wf V1) chunks ->
  map (fun chunkIdx => mkBitmapChunk (take (Z.to_nat LEN_BYTES)
    (drop (Z.to_nat (chunkIdx * LEN_BYTES)) (concat (map chunk_bytes chunks))))) (seqZ 0 (length chunks)) = chunks.
Proof.
  assert (forall cs, Forall (BitmapChunk_wf V1) cs -> length (concat (map chunk_bytes cs)) = (length cs * Z.to_nat LEN_BYTES)%nat) as Hlen.
  { intros cs Hcs. induction Hcs as [|c cs [Hl _] _ IH]; [done|]. cbn [map concat length]. rewrite length_app, IH, Hl. lia. }
  intros Hc. induction chunks as [|c chunks IH] using rev_ind; [done|].
  apply Forall_app in Hc as [Hc Hc1]. rewrite Forall_singleton in Hc1. destruct Hc1 as [Hl _]. specialize (IH Hc).
  rewrite length_app. cbn [length]. rewrite Nat.add_1_r, seqZ_S, !map_app, Z.add_0_l.
  f_equal.
  - etransitivity; [|exact IH]. apply map_ext_in. intros i Hi%list_elem_of_In%elem_of_seqZ. f_equal.
    rewrite concat_app. specialize (Hlen _ Hc). assert ((i + 1) * LEN_BYTES <= length chunks * LEN_BYTES) by (change LEN_BYTES with 128; lia).
    rewrite drop_app_le by (rewrite Hlen; change LEN_BYTES with 128 in *; lia).
    rewrite take_app_le; [done|]. rewrite length_drop, Hlen. change LEN_BYTES with 128 in *. lia.
  - cbn [map]. f_equal. destruct c as [bs]. cbn [chunk_bytes] in *. f_equal. rewrite concat_app. cbn [map concat chunk_bytes].
    rewrite app_nil_r, drop_app_ge by (rewrite (Hlen _ Hc); change LEN_BYTES with 128 in *; lia).
    rewrite (Hlen _ Hc).
    replace (Z.to_nat (length chunks * LEN_BYTES) - length chunks * Z.to_nat LEN_BYTES)%nat with 0%nat by (change LEN_BYTES with 128 in *; lia).
    rewrite drop_0. apply take_ge. lia.
Qed.

Lemma block_roundtrip chunks :
  (length chunks <= 64)%nat -> Forall (BitmapChunk_wf V1) chunks ->
  BitmapSegmentBlock_ToChunks (BitmapSegmentBlock_FromChunks chunks) = Ok chunks.
Proof.
  intros Hn Hc. unfold BitmapSegmentBlock_FromChunks.
  rewrite FromChunks_scan.
  2: { apply Forall_forall. intros i Hi%elem_of_seqZ. unfold is_uint, LEN_BITS in *. lia. }
  rewrite uint_small by uint_solve. set (bits := seqZ 0 (length chunks * LEN_BITS)).
  assert (forall v, Forall (fun p => 0 <= p < length (repeat BitmapChunk_new (length chunks)) * LEN_BITS)
    (filter (fun i => bit_at chunks i = v) bits)) as Hrange.
  { intros v. apply Forall_forall. intros p [_ Hp%elem_of_seqZ]%list_elem_of_filter. rewrite repeat_length. lia. }
  assert (forall j v, 0 <= j < length chunks * LEN_BITS ->
    bool_decide (j ∈ filter (fun i => bit_at chunks i = v) bits) = eqb (bit_at chunks j) v) as Hmem.
  { intros j v Hj. destruct (eqb (bit_at chunks j) v) eqn:E.
    - apply bool_decide_eq_true_2, list_elem_of_filter. split; [by apply eqb_prop|]. apply elem_of_seqZ. lia.
    - apply bool_decide_eq_false_2. intros [E' _]%list_elem_of_filter. rewrite E', eqb_reflx in E. done. }
  pose proof (repeat_length BitmapChunk_new (length chunks)) as Hrl.
  destruct (length (take block_threshold (filter (fun i => bit_at chunks i = true) bits)) <? block_threshold)%nat eqn:E1.
  { rewrite (take_all_of_short _ _ E1). unfold BitmapSegmentBlock_ToChunks. cbn [m_mode m_chunkCount m_positions].
    rewrite Nat2Z.id.
    destruct (set_positions_ok true _ (repeat BitmapChunk_new (length chunks)) (Hrange true)) as (cs' & E & Hw & Hl & Hb);
      [apply chunks_new_wf|]. rewrite Hrl in E, Hl. rewrite E. f_equal. apply chunks_ext; [done|done|done|].
    intros j Hj. rewrite Hb, Hmem, chunks_new_bits by lia. by destruct (bit_at chunks j). }
  destruct (length (take block_threshold (filter (fun i => bit_at chunks i = false) bits)) <? block_threshold)%nat eqn:E2.
  { rewrite (take_all_of_short _ _ E2). unfold BitmapSegmentBlock_ToChunks. cbn [m_mode m_chunkCount m_positions].
    rewrite Nat2Z.id. destruct (full_chunks_ok (length chunks)) as [Hfw Hfb].
    destruct (set_positions_ok false (filter (fun i => bit_at chunks i = false) bits)
      (map full_chunk (repeat BitmapChunk_new (length chunks)))) as (cs' & E & Hw & Hl & Hb);
      [rewrite length_map; apply Hrange|done|]. rewrite length_map, Hrl in E, Hl. rewrite E. f_equal.
    apply chunks_ext; [done|done|done|].
    intros j Hj. rewrite Hl in Hj. rewrite Hb, Hmem, Hfb by lia. by destruct (bit_at chunks j). }
  unfold BitmapSegmentBlock_ToChunks. cbn [m_mode m_chunkCount m_bitmapBytes].
  assert (length (concat (map chunk_bytes chunks)) = length chunks * LEN_BYTES :> Z) as Hlen.
  { clear - Hc. induction Hc as [|c cs [Hl _] _ IH]; [done|]. cbn [map concat length].
    rewrite length_app, Hl. change LEN_BYTES with 128 in *. lia. }
  rewrite Hlen, Z.eqb_refl. cbn [negb]. unfold mret, result_ret. f_equal. by apply raw_chunks.
Qed.

(** ** The wire format *)

Definition block_wf (_ : EProtocolVersion) (b : BitmapSegmentBlock) : Prop :=
  is_uint 8 (m_chunkCount b) /\
  match m_mode b with
  | Raw => m_positions b = [] /\ length (m_bitmapBytes b) = m_chunkCount b * 128 :> Z /\ Forall is_byte (m_bitmapBytes b)
  | _ => m_bitmapBytes b = [] /\ is_uint 16 (length (m_positions b)) /\ Forall (is_uint 16) (m_positions b)
  end.

Definition block_bytes (b : BitmapSegmentBlock) : bytes :=
  be_bytes 1 (m_chunkCount b) ++ be_bytes 1 (mode_value (m_mode b)) ++
  match m_mode b with
  | Raw => m_bitmapBytes b
  | _ => be_bytes 2 (uint 16 (length (m_positions b))) ++ concat (map (be_bytes 2) (m_positions b))
  end.

Lemma block_Serialize_bytes b s : Serialize b s = mkSerializer (s_version s) (s_bytes s ++ block_bytes b).
Proof.
  unfold Serialize, BitmapSegmentBlock_Serializable, block_bytes. unfold AppendU8. rewrite !Append_be. cbn [s_version s_bytes].
  destruct (m_mode b); cbn [mode_value].
  - unfold AppendByteVector, AppendLength, Serializer_put. cbn [s_version s_bytes]. by rewrite <- !app_assoc.
  - rewrite (append_all_bytes _ (be_bytes 2)) by (intros; apply Append_be). unfold AppendU16. rewrite Append_be.
    cbn [s_version s_bytes]. by rewrite <- !app_assoc.
  - rewrite (append_all_bytes _ (be_bytes 2)) by (intros; apply Append_be). unfold AppendU16. rewrite Append_be.
    cbn [s_version s_bytes]. by rewrite <- !app_assoc.
Qed.

Lemma reads_u16s v (l : list Z) :
  Forall (is_uint 16) l -> reads v (read_list (length l) ReadU16) (concat (map (be_bytes 2) l)) l.
Proof. intros Hl. apply reads_list. eapply Forall_impl; [apply Hl|]. intros x Hx. apply reads_be. by apply (uint_pow256 2). Qed.

#[export] Instance block_laws : SerializableLaws BitmapSegmentBlock block_wf.
Proof.
  constructor.
  - intros b s. unfold Serialized. by rewrite !block_Serialize_bytes.
  - intros v [count mode ps bs] [Hc Hm]. cbn [m_chunkCount m_mode m_positions m_bitmapBytes] in *.
    unfold Serialized. rewrite block_Serialize_bytes. cbn [s_bytes Serializer_new app]. unfold block_bytes.
    cbn [Deserialize BitmapSegmentBlock_Serializable m_chunkCount m_mode m_positions m_bitmapBytes].
    eapply reads_bind; [apply reads_be; by apply (uint_pow256 1)|]. cbv beta.
    eapply reads_bind; [apply reads_be; destruct mode; cbn [mode_value]; lia|]. cbv beta.
    destruct mode; cbn [mode_value Z.gtb Z.eqb Z.compare Pos.compare Pos.compare_cont Pos.eqb].
    + destruct Hm as (-> & Hl & Hb). rewrite <- Hl, Nat2Z.id.
      apply (reads_map v _ _ _ (mkBitmapSegmentBlock count Raw [])).
      rewrite <- (concat_single bs) at 2 by done. by apply reads_u8s.
    + destruct Hm as (-> & Hl & Hb). rewrite uint_small by done.
      eapply reads_bind; [apply reads_be; by apply (uint_pow256 2)|]. cbv beta. rewrite Nat2Z.id.
      apply (reads_map v _ _ _ (fun ps => mkBitmapSegmentBlock count SetPositions ps [])). by apply reads_u16s.
    + destruct Hm as (-> & Hl & Hb). rewrite uint_small by done.
      eapply reads_bind; [apply reads_be; by apply (uint_pow256 2)|]. cbv beta. rewrite Nat2Z.id.
      apply (reads_map v _ _ _ (fun ps => mkBitmapSegmentBlock count UnsetPositions ps [])). by apply reads_u16s.
Qed.

Definition BitmapSegment_wf (v : EProtocolVersion) (b : BitmapSegment) : Prop :=
  SegmentIdentifier_wf v (m_identifier b) /\ is_uint 16 (length (m_blocks b)) /\ Forall (block_wf v) (m_blocks b) /\
  SegmentProof_wf v (m_proof b).

Lemma BitmapSegment_Serialize_bytes b s :
  Serialize b s = mkSerializer (s_version s) (s_bytes s ++
    Serialized (s_version s) (m_identifier b) ++ be_bytes 2 (uint 16 (length (m_blocks b))) ++
    concat (map (Serialized (s_version s)) (m_blocks b)) ++ Serialized (s_version s) (m_proof b)).
Proof.
  unfold Serialize at 1, BitmapSegment_Serializable. rewrite (serialize_appends (m_identifier b)). unfold AppendU16.
  rewrite Append_be, append_all_Serialize, serialize_appends. cbn [s_version s_bytes]. by rewrite <- !app_assoc.
Qed.

#[export] Instance BitmapSegment_laws : SerializableLaws BitmapSegment BitmapSegment_wf.
Proof.
  constructor.
  - intros b s. unfold Serialized at 1. rewrite !BitmapSegment_Serialize_bytes. done.
  - intros v [id blocks proof] (Hid & Hl & Hb & Hp). cbn [m_identifier m_blocks m_proof] in *.
    unfold Serialized at 1. rewrite BitmapSegment_Serialize_bytes. cbn [s_version s_bytes Serializer_new app m_identifier m_blocks m_proof].
    cbn [Deserialize BitmapSegment_Serializable].
    eapply reads_bind; [by apply deserialize_reads|]. cbv beta. rewrite uint_small by done.
    eapply reads_bind; [apply reads_be; by apply (uint_pow256 2)|]. cbv beta. rewrite Nat2Z.id.
    eapply reads_bind.
    { apply reads_list. eapply Forall_impl; [apply Hb|]. intros x Hx. by apply deserialize_reads. }
    cbv beta. apply (reads_map v _ _ _ (mkBitmapSegment id blocks)). by apply deserialize_reads.
Qed.

(** What [FromChunks] makes is well formed. *)
Lemma FromChunks_wf v chunks :
  (length chunks <= 64)%nat -> Forall (BitmapChunk_wf V1) chunks -> block_wf v (BitmapSegmentBlock_FromChunks chunks).
Proof.
  intros Hn Hc. unfold BitmapSegmentBlock_FromChunks.
  assert (Forall (is_uint 16) (seqZ 0 (length chunks * LEN_BITS))) as Hu.
  { apply Forall_forall. intros i Hi%elem_of_seqZ. unfold is_uint, LEN_BITS in *. lia. }
  rewrite FromChunks_scan by done. rewrite uint_small by uint_solve.
  assert (forall b, is_uint 16 (length (take block_threshold (filter (fun i => bit_at chunks i = b) (seqZ 0 (length chunks * LEN_BITS))))) /\
    Forall (is_uint 16) (take block_threshold (filter (fun i => bit_at chunks i = b) (seqZ 0 (length chunks * LEN_BITS))))) as Hb.
  { intros b. split; [rewrite length_take; unfold is_uint; change (Z.of_nat block_threshold) with 4096;
      pose proof (Nat.le_min_l block_threshold (length (filter (fun i => bit_at chunks i = b) (seqZ 0 (length chunks * LEN_BITS)))));
      change block_threshold with (Z.to_nat 4096) in *; lia|].
    apply Forall_take. rewrite Forall_forall in *. intros x [_ Hx]%list_elem_of_filter. by apply Hu. }
  destruct (_ <? _)%nat; [|destruct (_ <? _)%nat]; split; cbn [m_chunkCount m_mode m_positions m_bitmapBytes].
  - unfold is_uint. lia.
  - split; [done|]. apply (Hb true).
  - unfold is_uint. lia.
  - split; [done|]. apply (Hb false).
  - unfold is_uint. lia.
  - split; [done|]. clear - Hc. induction Hc as [|c cs [Hl Hcb] _ [IH1 IH2]]; [done|]. cbn [map concat length].
    split; [rewrite length_app, Hl; change (Z.to_nat LEN_BYTES) with 128%nat; lia|]. by apply Forall_app.
Qed.

(** The blocks of 64 chunks. *)
Lemma FromSegment_loop_ok v (fuel offset : nat) chunks :
  (length chunks < offset + fuel)%nat -> Forall (BitmapChunk_wf V1) chunks ->
  let blocks := FromSegment_loop fuel offset chunks in
  ToSegment_chunks blocks = Ok (drop offset chunks) /\ Forall (block_wf v) blocks /\
  (64 * length blocks < length chunks - offset + 64)%nat.
Proof.
  intros Hf Hc. revert offset Hf. induction fuel as [|fuel IH]; intros offset Hf; cbn [FromSegment_loop].
  { rewrite drop_ge by lia. split; [done|]. split; [constructor|simpl; lia]. }
  destruct (Nat.ltb_spec offset (length chunks)) as [Hlt|Hge].
  2: { rewrite drop_ge by lia. split; [done|]. split; [constructor|simpl; lia]. }
  destruct (IH (offset + 64)%nat ltac:(lia)) as (E & Hw & Hl). cbv zeta in *.
  set (count := Nat.min 64 (length chunks - offset)).
  assert (length (take count (drop offset chunks)) <= 64)%nat as Hlen by (rewrite length_take; lia).
  assert (Forall (BitmapChunk_wf V1) (take count (drop offset chunks))) as Hcw by (by apply Forall_take, Forall_drop).
  split; [|split].
  - cbn [ToSegment_chunks]. rewrite block_roundtrip by done. cbn [mbind result_bind]. rewrite E. cbn [mbind result_bind].
    unfold mret, result_ret. f_equal. rewrite <- drop_drop.
    destruct (decide (count = 64)%nat) as [->|]; [apply take_drop|].
    rewrite (take_ge (drop offset chunks)), (drop_ge (drop offset chunks)) by (rewrite length_drop; lia). apply app_nil_r.
  - constructor; [by apply FromChunks_wf|done].
  - cbn [length]. lia.
Qed.

(** [ToSegment] undoes [FromSegment] on segments without pruned hashes. *)
Lemma ToSegment_FromSegment (s : Segment BitmapChunk) :
  Forall (BitmapChunk_wf V1) (sg_leaves s) -> sg_hash_pos s = [] -> sg_hashes s = [] ->
  sg_leaf_pos s = leaf_positions (GetLeafOffset (sg_id s)) (length (sg_leaves s)) ->
  BitmapSegment_ToSegment (BitmapSegment_FromSegment s) = Ok s.
Proof.
  intros Hc E1 E2 E3.
  destruct (FromSegment_loop_ok V1 (S (length (sg_leaves s))) 0 (sg_leaves s) ltac:(lia) Hc) as (E & _).
  unfold BitmapSegment_ToSegment, BitmapSegment_FromSegment. cbn [m_blocks m_identifier m_proof].
  rewrite E, drop_0. cbn [mbind result_bind]. unfold mret, result_ret. rewrite <- E3. destruct s. cbn in *. by subst.
Qed.

(** ** Properties *)

(** a block of at most 64 chunks survives the wire: reading what
    [FromChunks] serialises and expanding it with [ToChunks] gives the chunks
    back, whichever of the three encodings was chosen. *)
Theorem BitmapSegmentBlock_roundtrip v chunks :
  (length chunks <= 64)%nat -> Forall (BitmapChunk_wf V1) chunks ->
  let block := BitmapSegmentBlock_FromChunks chunks in
  length (Serialized v block) < 2 ^ 64 ->
  exists b, Deserialize (ByteBuffer_new (Serialized v block) v) = Ok (block, b) /\
    BitmapSegmentBlock_ToChunks block = Ok chunks.
Proof.
  intros Hn Hc block Hl. eexists. split; [|by apply block_roundtrip].
  apply (serialized_roundtrip (wf := block_wf)); [by apply FromChunks_wf|done].
Qed.

(** a segment of bitmap chunks survives the wire as a bitmap segment:
    [ToSegment] of what is read back is the segment that was sent. *)
Theorem BitmapSegment_roundtrip v (s : Segment BitmapChunk) :
  SegmentIdentifier_wf v (sg_id s) -> Forall (BitmapChunk_wf V1) (sg_leaves s) -> SegmentProof_wf v (sg_proof s) ->
  length (sg_leaves s) < 2 ^ 21 -> sg_hash_pos s = [] -> sg_hashes s = [] ->
  sg_leaf_pos s = leaf_positions (GetLeafOffset (sg_id s)) (length (sg_leaves s)) ->
  length (Serialized v (BitmapSegment_FromSegment s)) < 2 ^ 64 ->
  exists bs b, Deserialize (ByteBuffer_new (Serialized v (BitmapSegment_FromSegment s)) v) = Ok (bs, b) /\
    BitmapSegment_ToSegment bs = Ok s.
Proof.
  intros Hid Hc Hp Hn E1 E2 E3 Hl.
  destruct (FromSegment_loop_ok v (S (length (sg_leaves s))) 0 (sg_leaves s) ltac:(lia) Hc) as (E & Hw & Hk).
  eexists _, _. split.
  - apply (serialized_roundtrip (wf := BitmapSegment_wf)); [|done].
    split; [done|]. split; [|by split]. unfold BitmapSegment_FromSegment. cbn [m_blocks]. unfold is_uint. lia.
  - by apply ToSegment_FromSegment.
Qed.

Lemma BitmapSegmentBlock_roundtrip_witness :
  exists b, Deserialize (ByteBuffer_new (Serialized V1 (BitmapSegmentBlock_FromChunks [example_chunk 3])) V1)
    = Ok (mkBitmapSegmentBlock 1 SetPositions [3] [], b) /\
    BitmapSegmentBlock_ToChunks (mkBitmapSegmentBlock 1 SetPositions [3] []) = Ok [example_chunk 3].
Proof.
  assert (BitmapSegmentBlock_FromChunks [example_chunk 3] = mkBitmapSegmentBlock 1 SetPositions [3] []) as E
    by (vm_compute; reflexivity).
  destruct (BitmapSegmentBlock_roundtrip V1 [example_chunk 3]) as (b & E1 & E2).
  - simpl. lia.
  - constructor; [apply BitmapChunk_Set_wf, BitmapChunk_new_wf|constructor].
  - rewrite E. vm_compute. reflexivity.
  - rewrite E in *. exists b. split; [exact E1|exact E2].
Defined.

Lemma BitmapSegment_roundtrip_witness :
  exists bs b, Deserialize (ByteBuffer_new (Serialized V1 (BitmapSegment_FromSegment first_segment)) V1) = Ok (bs, b) /\
    BitmapSegment_ToSegment bs = Ok first_segment.
Proof.
  apply (BitmapSegment_roundtrip V1 first_segment).
  - split; vm_compute; intuition congruence.
  - constructor; [apply BitmapChunk_Set_wf, BitmapChunk_new_wf|].
    constructor; [apply BitmapChunk_Set_wf, BitmapChunk_new_wf|constructor].
  - split; [vm_compute; repeat constructor|]. vm_compute. intuition congruence.
  - vm_compute. reflexivity.
  - reflexivity.
  - reflexivity.
  - vm_compute. reflexivity.
  - vm_compute. reflexivity.
Defined.
