(* ===== verification/SegmentTracker.v ===== *)
(** * Requested segments ([include/PMMR/Common/SegmentType.h],
    [include/PMMR/SegmentRequestTracker.h], [include/PMMR/PIBDParams.h])

    The list of segments asked of peers and not yet received.  It is shown to
    behave as a finite map from segments to requests, whatever sequence of
    operations is run on it. *)
From stdpp Require Import strings.
From S2P Require Import Prelude Serial SegmentId.

(** The enumeration has a fixed underlying type: a byte read from the wire that
    names no enumerator is a value of it too. *)
Inductive SegmentType :=
| STOutputBitmap
| STOutput
| STRangeProof
| STKernel
| STOther (value : Z).

#[export] Instance SegmentType_eq_dec : EqDecision SegmentType.
Proof. solve_decision. Defined.

Definition SegmentType_value (t : SegmentType) : Z :=
  match t with STOutputBitmap => 0 | STOutput => 1 | STRangeProof => 2 | STKernel => 3 | STOther v => v end.

Definition SegmentType_of (v : Z) : SegmentType :=
  if v =? 0 then STOutputBitmap else if v =? 1 then STOutput else if v =? 2 then STRangeProof
  else if v =? 3 then STKernel else STOther v.

Record SegmentTypeIdentifier := mkSegmentTypeIdentifier {
  m_segmentType : SegmentType;
  sti_identifier : SegmentIdentifier;
}.

#[export] Instance SegmentTypeIdentifier_eq_dec : EqDecision SegmentTypeIdentifier.
Proof. solve_decision. Defined.

Definition SegmentTypeIdentifier_eq (a b : SegmentTypeIdentifier) : bool :=
  bool_decide (m_segmentType a = m_segmentType b) && bool_decide (sti_identifier a = sti_identifier b).

#[export] Instance SegmentTypeIdentifier_Serializable : Serializable SegmentTypeIdentifier := {
  Serialize id s := Serialize (sti_identifier id) (AppendU8 (SegmentType_value (m_segmentType id)) s);
  Deserialize :=
    segmentType ← ReadU8;
    identifier ← Deserialize;
    mret (mkSegmentTypeIdentifier (SegmentType_of segmentType) identifier);
}.

Definition SegmentTypeIdentifier_wf (v : EProtocolVersion) (id : SegmentTypeIdentifier) : Prop :=
  is_uint 8 (SegmentType_value (m_segmentType id)) /\
  SegmentType_of (SegmentType_value (m_segmentType id)) = m_segmentType id /\
  SegmentIdentifier_wf v (sti_identifier id).

#[export] Instance SegmentTypeIdentifier_laws : SerializableLaws SegmentTypeIdentifier SegmentTypeIdentifier_wf.
Proof.
  constructor.
  - intros [t id] s. unfold Serialized. cbn [Serialize SegmentTypeIdentifier_Serializable m_segmentType sti_identifier].
    unfold AppendU8. rewrite !Append_be, !(serialize_appends id). cbn [s_version s_bytes Serializer_new app]. by rewrite <- app_assoc.
  - intros v [t id] (Ht & Hof & Hid). cbn [m_segmentType sti_identifier] in *. unfold Serialized.
    cbn [Serialize SegmentTypeIdentifier_Serializable m_segmentType sti_identifier]. unfold AppendU8.
    rewrite Append_be, (serialize_appends id). cbn [s_version s_bytes Serializer_new app].
    cbn [Deserialize SegmentTypeIdentifier_Serializable].
    eapply reads_bind; [apply reads_be; by apply (uint_pow256 1)|]. cbv beta. rewrite Hof.
    apply (reads_map v _ _ _ (mkSegmentTypeIdentifier t)). by apply deserialize_reads.
Qed.

(** The constants of [PIBDParams.h]. *)
Definition BITMAP_SEGMENT_HEIGHT : Z := 9.
Definition OUTPUT_SEGMENT_HEIGHT : Z := 11.
Definition RANGEPROOF_SEGMENT_HEIGHT : Z := 11.
Definition KERNEL_SEGMENT_HEIGHT : Z := 11.
Definition SEGMENT_REQUEST_TIMEOUT_SECS : Z := 60.

(** ** [SegmentRequestTracker]

    Points in time are nanoseconds of the steady clock; the operations that read
    it take the current time as an argument.  Peers are named by strings. *)
Record PendingRequest := mkPendingRequest {
  pr_segment : SegmentTypeIdentifier;
  pr_peerId : string;
  pr_firstRequestedAt : Z;
  pr_lastRequestedAt : Z;
  pr_attempts : Z;
}.

Definition seconds (s : Z) : Z := s * 1000000000.

Definition is_request (segment : SegmentTypeIdentifier) (request : PendingRequest) : bool :=
  SegmentTypeIdentifier_eq (pr_segment request) segment.

Abbreviation SegmentRequestTracker := (list PendingRequest) (only parsing).

Definition IsPending (segment : SegmentTypeIdentifier) (m_pending : SegmentRequestTracker) : bool :=
  existsb (is_request segment) m_pending.

Definition IsPendingFrom (segment : SegmentTypeIdentifier) (peerId : string) (m_pending : SegmentRequestTracker) : bool :=
  existsb (fun request => is_request segment request && bool_decide (pr_peerId request = peerId)) m_pending.

Definition GetPendingRequest (segment : SegmentTypeIdentifier) (m_pending : SegmentRequestTracker) : option PendingRequest :=
  find (is_request segment) m_pending.

Definition CanRetry (now : Z) (segment : SegmentTypeIdentifier) (retryAfter : Z) (m_pending : SegmentRequestTracker) : bool :=
  match GetPendingRequest segment m_pending with
  | Some request => now - pr_lastRequestedAt request >=? seconds retryAfter
  | None => false
  end.

Definition CanHedge (now : Z) (segment : SegmentTypeIdentifier) (hedgeAfter : Z) (m_pending : SegmentRequestTracker) : bool :=
  CanRetry now segment hedgeAfter m_pending.

(** The first request for the segment is updated in place; without one, a new
    request is added at the back. *)
Fixpoint refresh_first (now : Z) (segment : SegmentTypeIdentifier) (peerId : string) (m_pending : SegmentRequestTracker)
    : option SegmentRequestTracker :=
  match m_pending with
  | [] => None
  | request :: m_pending =>
      if is_request segment request
      then Some (mkPendingRequest (pr_segment request) peerId (pr_firstRequestedAt request) now
                   (uint 32 (pr_attempts request + 1)) :: m_pending)
      else cons request <$> refresh_first now segment peerId m_pending
  end.

Definition AddOrRefresh (now : Z) (segment : SegmentTypeIdentifier) (peerId : string)
    (m_pending : SegmentRequestTracker) : SegmentRequestTracker :=
  match refresh_first now segment peerId m_pending with
  | None => m_pending ++ [mkPendingRequest segment peerId now now 1]
  | Some m_pending => m_pending
  end.

Definition MarkReceived (segment : SegmentTypeIdentifier) (m_pending : SegmentRequestTracker) : SegmentRequestTracker :=
  List.filter (fun request => negb (is_request segment request)) m_pending.

Definition timed_out (now timeout : Z) (request : PendingRequest) : bool :=
  now - pr_firstRequestedAt request >=? seconds timeout.

Definition GetTimedOutRequests (now timeout : Z) (m_pending : SegmentRequestTracker) : list PendingRequest :=
  List.filter (timed_out now timeout) m_pending.

Definition RemoveTimedOutRequests (now timeout : Z) (m_pending : SegmentRequestTracker) : SegmentRequestTracker :=
  List.filter (fun request => negb (timed_out now timeout request)) m_pending.

Definition SegmentRequestTracker_Clear (m_pending : SegmentRequestTracker) : SegmentRequestTracker := [].

(** ** Runs of the tracker

    A state is the time and the pending requests; time does not go back. *)
Inductive tracker_step : Z * list PendingRequest -> Z * list PendingRequest -> Prop :=
| step_tick now now' l : now <= now' -> tracker_step (now, l) (now', l)
| step_request now segment peerId l : tracker_step (now, l) (now, AddOrRefresh now segment peerId l)
| step_received now segment l : tracker_step (now, l) (now, MarkReceived segment l)
| step_timeout now timeout l : tracker_step (now, l) (now, RemoveTimedOutRequests now timeout l)
| step_clear now l : tracker_step (now, l) (now, SegmentRequestTracker_Clear l).

Record tracker_ok (st : Z * list PendingRequest) : Prop := {
  tk_unique : NoDup (map pr_segment st.2);
  tk_times : Forall (fun r => pr_firstRequestedAt r <= pr_lastRequestedAt r <= st.1) st.2;
  tk_attempts : Forall (fun r => is_uint 32 (pr_attempts r)) st.2;
}.

Lemma is_request_spec segment r : is_request segment r = bool_decide (pr_segment r = segment).
Proof.
  unfold is_request, SegmentTypeIdentifier_eq. destruct (pr_segment r) as [t id], segment as [t' id'].
  cbn [m_segmentType sti_identifier]. repeat case_bool_decide; cbn [andb]; congruence.
Qed.

Lemma find_none segment l : GetPendingRequest segment l = None <-> segment ∉ map pr_segment l.
Proof.
  induction l as [|r l IH]; cbn [GetPendingRequest find map].
  - split; [intros _; apply not_elem_of_nil|done].
  - rewrite is_request_spec, not_elem_of_cons. case_bool_decide as E.
    + split; [done|]. intros [Hne _]. by rewrite E in Hne.
    + fold (GetPendingRequest segment l). rewrite IH. split; [intros H; split; [congruence|done]|by intros []].
Qed.

Lemma find_some segment l r : GetPendingRequest segment l = Some r -> r ∈ l /\ pr_segment r = segment.
Proof.
  intros E. apply find_some in E as [Hin E]. rewrite is_request_spec in E. apply bool_decide_eq_true in E.
  split; [by apply list_elem_of_In|done].
Qed.

(** With one request per segment, [GetPendingRequest] is membership. *)
Lemma find_unique l r : NoDup (map pr_segment l) -> r ∈ l -> GetPendingRequest (pr_segment r) l = Some r.
Proof.
  induction l as [|x l IH]; intros Hn Hr; [by apply elem_of_nil in Hr|]. cbn [map] in Hn. apply NoDup_cons in Hn as [Hx Hn].
  unfold GetPendingRequest. cbn [find]. rewrite is_request_spec. case_bool_decide as E.
  - apply elem_of_cons in Hr as [->|Hr]; [done|]. exfalso. apply Hx. rewrite E.
    apply list_elem_of_In, in_map. by apply list_elem_of_In.
  - apply elem_of_cons in Hr as [->|Hr]; [done|]. by apply IH.
Qed.

Lemma filter_sub (f : PendingRequest -> bool) l x : x ∈ map pr_segment (List.filter f l) -> x ∈ map pr_segment l.
Proof.
  rewrite !list_elem_of_In, !in_map_iff. intros (r & <- & Hr). apply filter_In in Hr as [Hr _]. by exists r.
Qed.

Lemma filter_unique (f : PendingRequest -> bool) l : NoDup (map pr_segment l) -> NoDup (map pr_segment (List.filter f l)).
Proof.
  induction l as [|r l IH]; intros Hn; [done|]. cbn [map] in Hn. apply NoDup_cons in Hn as [Hr Hn]. cbn [List.filter].
  destruct (f r); [|by apply IH]. cbn [map]. apply NoDup_cons. split; [|by apply IH]. intros Hin. by apply filter_sub in Hin.
Qed.

Lemma filter_Forall (f : PendingRequest -> bool) (P : PendingRequest -> Prop) l : Forall P l -> Forall P (List.filter f l).
Proof.
  rewrite !Forall_forall. intros HP r Hr. apply HP. apply list_elem_of_In in Hr. apply filter_In in Hr as [Hr _].
  by apply list_elem_of_In.
Qed.

Lemma filter_find (f : PendingRequest -> bool) segment l :
  NoDup (map pr_segment l) ->
  GetPendingRequest segment (List.filter f l) =
    match GetPendingRequest segment l with Some r => if f r then Some r else None | None => None end.
Proof.
  induction l as [|r l IH]; intros Hn; [done|]. cbn [map] in Hn. apply NoDup_cons in Hn as [Hr Hn].
  unfold GetPendingRequest at 2. cbn [find List.filter]. destruct (is_request segment r) eqn:E.
  - destruct (f r) eqn:Ef; [unfold GetPendingRequest; cbn [find]; by rewrite E|].
    apply find_none. intros Hin. apply filter_sub in Hin. rewrite is_request_spec in E. apply bool_decide_eq_true in E.
    by rewrite <- E in Hin.
  - fold (GetPendingRequest segment l). destruct (f r); [|by apply IH].
    unfold GetPendingRequest at 1. cbn [find]. rewrite E. by apply IH.
Qed.

(** [AddOrRefresh] keeps the segments, or adds a new one at the back. *)
Lemma refresh_first_spec now segment peerId l :
  match refresh_first now segment peerId l with
  | None => segment ∉ map pr_segment l
  | Some l' =>
      map pr_segment l' = map pr_segment l /\
      exists r, GetPendingRequest segment l = Some r /\
        forall x, x ∈ l' -> x ∈ l \/ x = mkPendingRequest segment peerId (pr_firstRequestedAt r) now (uint 32 (pr_attempts r + 1))
  end.
Proof.
  induction l as [|r l IH]; cbn [refresh_first map]; [apply not_elem_of_nil|].
  unfold GetPendingRequest. cbn [find]. destruct (is_request segment r) eqn:E.
  - rewrite is_request_spec in E. apply bool_decide_eq_true in E. split; [done|]. exists r. split; [done|].
    intros x Hx. apply elem_of_cons in Hx as [->|Hx]; [right; by rewrite E|left; by right].
  - fold (GetPendingRequest segment l). rewrite is_request_spec in E. apply bool_decide_eq_false in E.
    destruct (refresh_first now segment peerId l) as [l'|]; cbn [fmap option_fmap option_map].
    + destruct IH as (Em & r' & Er & Hx). split; [cbn [map]; by f_equal|]. exists r'. split; [done|].
      intros x Hin. apply elem_of_cons in Hin as [->|Hin]; [left; by left|].
      destruct (Hx x Hin); [left; by right|by right].
    + apply not_elem_of_cons. split; [congruence|done].
Qed.

Lemma refresh_first_find now segment peerId l l' segment' :
  refresh_first now segment peerId l = Some l' ->
  GetPendingRequest segment' l' =
    if bool_decide (segment' = segment)
    then (fun r => mkPendingRequest segment peerId (pr_firstRequestedAt r) now (uint 32 (pr_attempts r + 1))) <$> GetPendingRequest segment l
    else GetPendingRequest segment' l.
Proof.
  revert l'. induction l as [|r l IH]; intros l'; cbn [refresh_first]; [done|].
  unfold GetPendingRequest. cbn [find]. destruct (is_request segment r) eqn:E.
  - intros [= <-]. rewrite is_request_spec in E. apply bool_decide_eq_true in E. cbn [find].
    rewrite !is_request_spec. cbn [pr_segment]. rewrite E. case_bool_decide as E1; case_bool_decide as E2; try congruence; done.
  - destruct (refresh_first now segment peerId l) as [l1|]; cbn [fmap option_fmap option_map]; [|done].
    intros [= <-]. cbn [find]. destruct (is_request segment' r) eqn:E'; [|by apply IH].
    rewrite is_request_spec in E, E'. apply bool_decide_eq_false in E. apply bool_decide_eq_true in E'.
    rewrite bool_decide_eq_false_2 by congruence. done.
Qed.

Lemma tracker_step_ok st st' : tracker_step st st' -> tracker_ok st -> tracker_ok st'.
Proof.
  intros Hs [Hu Ht Ha]. destruct Hs as [now now' l Hle|now seg peer l|now seg l|now timeout l|now l]; cbn [fst snd] in *.
  - constructor; cbn [fst snd]; [done| |done]. eapply Forall_impl; [apply Ht|]. cbn. intros. lia.
  - unfold AddOrRefresh. pose proof (refresh_first_spec now seg peer l) as Hspec.
    destruct (refresh_first now seg peer l) as [l'|].
    + destruct Hspec as (Em & r & Er & Hx). apply find_some in Er as [Hin _].
      rewrite Forall_forall in Ht, Ha. pose proof (Ht r Hin) as Htr.
      constructor; cbn [fst snd]; [by rewrite Em| |]; apply Forall_forall; intros x [Hl| ->]%Hx; try (by auto);
        cbn [pr_firstRequestedAt pr_lastRequestedAt pr_attempts]; [lia|by apply uint_range].
    + constructor; cbn [fst snd].
      * rewrite map_app. apply NoDup_app. split; [done|]. split; [|apply NoDup_singleton].
        intros x Hx Hx'. apply list_elem_of_singleton in Hx'. cbn [pr_segment] in Hx'. by subst.
      * apply Forall_app. split; [done|]. apply Forall_singleton. cbn. lia.
      * apply Forall_app. split; [done|]. apply Forall_singleton. cbn. unfold is_uint. lia.
  - constructor; cbn [fst snd]; [by apply filter_unique|by apply filter_Forall..].
  - constructor; cbn [fst snd]; [by apply filter_unique|by apply filter_Forall..].
  - constructor; constructor.
Qed.

Lemma tracker_reach now0 st : rtc tracker_step (now0, []) st -> tracker_ok st.
Proof.
  intros Hr. assert (tracker_ok (now0, [])) as H0 by (constructor; constructor).
  induction Hr as [|st1 st2 st3 Hs _ IH]; [done|]. by eapply IH, tracker_step_ok.
Qed.

Lemma AddOrRefresh_find now segment peerId l segment' :
  GetPendingRequest segment' (AddOrRefresh now segment peerId l) =
    if bool_decide (segment' = segment)
    then Some (match GetPendingRequest segment l with
      | Some r => mkPendingRequest segment peerId (pr_firstRequestedAt r) now (uint 32 (pr_attempts r + 1))
      | None => mkPendingRequest segment peerId now now 1 end)
    else GetPendingRequest segment' l.
Proof.
  unfold AddOrRefresh. pose proof (refresh_first_spec now segment peerId l) as Hspec.
  destruct (refresh_first now segment peerId l) as [l'|] eqn:E.
  - rewrite (refresh_first_find _ _ _ _ _ _ E). case_bool_decide; [|done].
    destruct Hspec as (_ & r & Er & _). by rewrite Er.
  - apply find_none in Hspec as En. rewrite En. clear E. induction l as [|r l IH]; cbn [app].
    + unfold GetPendingRequest. cbn [find]. rewrite is_request_spec. cbn [pr_segment].
      case_bool_decide as E1; case_bool_decide as E2; congruence.
    + cbn [map] in Hspec. apply not_elem_of_cons in Hspec as [Hne Hs]. apply find_none in Hs as En'. specialize (IH Hs En').
      unfold GetPendingRequest in *. cbn [find]. destruct (is_request segment' r) eqn:E'; [|done].
      rewrite is_request_spec in E'. apply bool_decide_eq_true in E'. rewrite bool_decide_eq_false_2 by congruence. done.
Qed.

(** ** Properties *)

(** every state the tracker reaches from the empty one has at most one
    request per segment, whose first request is not after its last one and
    neither is in the future. *)
Theorem SegmentRequestTracker_invariant now0 now l :
  rtc tracker_step (now0, []) (now, l) ->
  NoDup (map pr_segment l) /\
  forall r, r ∈ l -> GetPendingRequest (pr_segment r) l = Some r /\
    pr_firstRequestedAt r <= pr_lastRequestedAt r <= now /\ is_uint 32 (pr_attempts r).
Proof.
  intros [Hu Ht Ha]%tracker_reach. cbn [fst snd] in *. rewrite Forall_forall in Ht, Ha. split; [done|].
  intros r Hr. split; [by apply find_unique|]. auto.
Qed.

(** the tracker is a finite map: [AddOrRefresh] sets the request of one
    segment, keeping the time of the first request and counting the attempts,
    [MarkReceived] removes one segment, [RemoveTimedOutRequests] removes those
    [GetTimedOutRequests] lists; [IsPending] and [CanRetry] read it. *)
Theorem SegmentRequestTracker_map now0 now l segment segment' peerId timeout :
  rtc tracker_step (now0, []) (now, l) ->
  GetPendingRequest segment' (AddOrRefresh now segment peerId l) =
    (if bool_decide (segment' = segment)
     then Some (match GetPendingRequest segment l with
       | Some r => mkPendingRequest segment peerId (pr_firstRequestedAt r) now (uint 32 (pr_attempts r + 1))
       | None => mkPendingRequest segment peerId now now 1 end)
     else GetPendingRequest segment' l) /\
  GetPendingRequest segment' (MarkReceived segment l) =
    (if bool_decide (segment' = segment) then None else GetPendingRequest segment' l) /\
  (forall r, r ∈ GetTimedOutRequests now timeout l <->
    GetPendingRequest (pr_segment r) l = Some r /\ seconds timeout <= now - pr_firstRequestedAt r) /\
  (forall r, GetPendingRequest segment' (RemoveTimedOutRequests now timeout l) = Some r <->
    GetPendingRequest segment' l = Some r /\ r ∉ GetTimedOutRequests now timeout l) /\
  IsPending segment l = bool_decide (is_Some (GetPendingRequest segment l)) /\
  (CanRetry now segment timeout l = true <->
    exists r, GetPendingRequest segment l = Some r /\ seconds timeout <= now - pr_lastRequestedAt r).
Proof.
  intros Hr. apply tracker_reach in Hr as [Hu _ _]. cbn [snd] in Hu.
  assert (forall r, r ∈ GetTimedOutRequests now timeout l <->
    GetPendingRequest (pr_segment r) l = Some r /\ seconds timeout <= now - pr_firstRequestedAt r) as Htimed.
  { intros r. unfold GetTimedOutRequests, timed_out. rewrite list_elem_of_In, filter_In, <- list_elem_of_In, Z.geb_le. split.
    - intros [Hin Hle]. split; [by apply find_unique|done].
    - intros [Hf Hle]. split; [by apply find_some in Hf as []|done]. }
  split; [apply AddOrRefresh_find|]. split; [|split; [done|split; [|split]]].
  - unfold MarkReceived. rewrite filter_find by done. destruct (GetPendingRequest segment' l) as [r|] eqn:E.
    + apply find_some in E as [_ <-]. rewrite is_request_spec. by case_bool_decide.
    + by case_bool_decide.
  - intros r. unfold RemoveTimedOutRequests. rewrite filter_find, Htimed by done.
    destruct (GetPendingRequest segment' l) as [r'|] eqn:E; [|split; [done|by intros [? _]]].
    apply find_some in E as [Hin Es].
    assert (timed_out now timeout r' = true <-> seconds timeout <= now - pr_firstRequestedAt r') as Hto by apply Z.geb_le.
    destruct (timed_out now timeout r'); cbn [negb]; split.
    + done.
    + intros [[= <-] Hn]. exfalso. apply Hn. split; [by apply find_unique|by apply Hto].
    + intros [= <-]. split; [done|]. intros [_ Hle]. by apply Hto in Hle.
    + by intros [[= <-] _].
  - clear Htimed Hu. unfold IsPending, GetPendingRequest. induction l as [|r l' IH]; cbn [existsb find].
    + symmetry. apply bool_decide_eq_false_2. by intros [].
    + destruct (is_request segment r); cbn [orb]; [symmetry; by apply bool_decide_eq_true_2|].
      apply IH.
  - unfold CanRetry. destruct (GetPendingRequest segment l) as [r|].
    + rewrite Z.geb_le. split; [eauto|]. by intros (r' & [= <-] & ?).
    + split; [done|]. by intros (? & ? & _).
Qed.

Definition example_request (i : Z) : SegmentTypeIdentifier := mkSegmentTypeIdentifier STKernel (mkSegmentIdentifier 11 i).

Definition example_tracker : list PendingRequest :=
  AddOrRefresh 7 (example_request 0) "b"%string (AddOrRefresh 5 (example_request 1) "a"%string (AddOrRefresh 5 (example_request 0) "a"%string [])).

Lemma example_tracker_reach : rtc tracker_step (5, []) (7, example_tracker).
Proof.
  eapply rtc_l; [apply (step_request 5 (example_request 0) "a"%string)|].
  eapply rtc_l; [apply (step_request 5 (example_request 1) "a"%string)|].
  eapply rtc_l; [apply (step_tick 5 7); lia|].
  eapply rtc_l; [apply (step_request 7 (example_request 0) "b"%string)|]. apply rtc_refl.
Qed.

Lemma SegmentRequestTracker_invariant_witness :
  NoDup (map pr_segment example_tracker) /\ length example_tracker = 2%nat.
Proof.
  split; [|reflexivity]. apply (SegmentRequestTracker_invariant 5 7 example_tracker). exact example_tracker_reach.
Defined.

Lemma SegmentRequestTracker_map_witness :
  GetPendingRequest (example_request 0) (AddOrRefresh 7 (example_request 0) "c"%string example_tracker) =
    Some (mkPendingRequest (example_request 0) "c"%string 5 7 3).
Proof.
  destruct (SegmentRequestTracker_map 5 7 example_tracker (example_request 0) (example_request 0) "c"%string 60) as [E _];
    [exact example_tracker_reach|].
  rewrite E. vm_compute. reflexivity.
Defined.
