(* ===== verification/Segmenter.v ===== *)
(** * Building segments ([src/PMMR/TxHashSetSegmenter.h])

    The node that serves a sync builds segments from its MMRs.  The MMR is
    known to the segmenter by the functions it calls: the size, the readers of
    leaves and hashes, and the test for unspent leaves. *)
From S2P Require Import Prelude BitUtil MMRIndex MMRUtil Serial BigInteger File MMRHash SegmentId SegmentProof Roaring PruneList BitmapFile Bitmap Segment BitmapSegment.

(** ** [OutputBitmapSegment] *)

(** The loop over the positions: the leaves among them and their chunks. *)
Fixpoint bitmap_segment_loop (k : nat) (pos : Z) (accumulator : BitmapAccumulator)
    (leafPositions : list Z) (chunks : list BitmapChunk) : option (list Z * list BitmapChunk) :=
  match k with
  | O => Some (leafPositions, chunks)
  | S k =>
      let index := Index_At pos in
      if negb (Index_IsLeaf index) then bitmap_segment_loop k (pos + 1) accumulator leafPositions chunks
      else
        match m_chunks accumulator !! Z.to_nat (Index_GetLeafIndex index) with
        | None => None
        | Some chunk => bitmap_segment_loop k (pos + 1) accumulator (leafPositions ++ [pos]) (chunks ++ [chunk])
        end
  end.

(** The segment before [BitmapSegment::FromSegment]. *)
Definition bitmap_chunk_segment (Blake2b : bytes -> Hash) (identifier : SegmentIdentifier) (accumulator : BitmapAccumulator)
    : option (Segment BitmapChunk) :=
  let bitmapMMRSize := BitmapAccumulator_GetMMRSize accumulator in
  if GetSegmentUnprunedSize bitmapMMRSize identifier =? 0 then None
  else
    let posRange := GetPositionRange bitmapMMRSize identifier in
    '(leafPositions, chunks) ← bitmap_segment_loop (Z.to_nat (posRange.2 - posRange.1 + 1)) posRange.1 accumulator [] [];
    proof ← SegmentProof_Generate Blake2b bitmapMMRSize posRange.1 posRange.2 None
      (fun position => BitmapAccumulator_GetHashAt position accumulator);
    Some (mkSegment identifier [] [] leafPositions chunks proof).

Definition OutputBitmapSegment (Blake2b : bytes -> Hash) (identifier : SegmentIdentifier) (accumulator : BitmapAccumulator)
    : option BitmapSegment :=
  BitmapSegment_FromSegment <$> bitmap_chunk_segment Blake2b identifier accumulator.

(** The member function: the accumulator of the unspent outputs. *)
Definition unspent_chunk (IsUnpruned : LeafIndex -> bool) (outputLeaves chunkIdx : Z) : BitmapChunk :=
  let firstLeaf := (chunkIdx * LEN_BITS)%u64 in
  let lastLeaf := Z.min outputLeaves (firstLeaf + LEN_BITS)%u64 in
  foldl (fun chunk leafIdx =>
    if IsUnpruned (LeafIndex_At leafIdx) then BitmapChunk_Set (leafIdx - firstLeaf) true chunk else chunk)
    BitmapChunk_new (seqZ firstLeaf (lastLeaf - firstLeaf)).

Fixpoint unspent_accumulator_loop (Blake2b : bytes -> Hash) (IsUnpruned : LeafIndex -> bool) (outputLeaves : Z)
    (k : nat) (chunkIdx : Z) (accumulator : BitmapAccumulator) : result BitmapAccumulator :=
  match k with
  | O => mret accumulator
  | S k =>
      accumulator ← AppendChunk Blake2b (unspent_chunk IsUnpruned outputLeaves chunkIdx) accumulator;
      unspent_accumulator_loop Blake2b IsUnpruned outputLeaves k (chunkIdx + 1) accumulator
  end.

Definition UnspentBitmapSegment (Blake2b : bytes -> Hash) (outputMMRSize : Z) (IsUnpruned : LeafIndex -> bool)
    (identifier : SegmentIdentifier) : result (option BitmapSegment) :=
  let outputLeaves := CountLeaves outputMMRSize in
  let chunkCount := (outputLeaves + LEN_BITS - 1)%u64 / LEN_BITS in
  accumulator ← unspent_accumulator_loop Blake2b IsUnpruned outputLeaves (Z.to_nat chunkCount) 0 BitmapAccumulator_new;
  mret (OutputBitmapSegment Blake2b identifier accumulator).

(** ** [BuildSegment] *)

Definition RequiresLeafData (index : Index) (mmrSize : Z) (isUnpruned : LeafIndex -> bool) : bool :=
  let leafIdx := LeafIndex_From index in
  if isUnpruned leafIdx || (m_position index =? (mmrSize - 1)%u64) then true
  else
    let siblingLeafIdx :=
      if IsLeftSibling (m_position index) then (m_leafIndex leafIdx + 1)%u64
      else if m_leafIndex leafIdx =? 0 then m_leafIndex leafIdx else (m_leafIndex leafIdx - 1)%u64 in
    let sibling := LeafIndex_At siblingLeafIdx in
    (LeafIndex_GetPosition sibling <? mmrSize) && isUnpruned sibling.

Section build.
Context {D : Type}.

Record build_state := mkBuildState {
  bs_hashPositions : list Z;
  bs_hashes : list Hash;
  bs_leafPositions : list Z;
  bs_leaves : list D;
}.

Section readers.
Context (Blake2b : bytes -> Hash) (mmrSize : Z) (prunable : bool).
Context (readLeaf readRawLeaf : LeafIndex -> option D) (isUnpruned : LeafIndex -> bool) (readHash : Index -> option Hash).

Definition push_leaf (pos : Z) (leaf : D) (b : build_state) : build_state :=
  mkBuildState (bs_hashPositions b) (bs_hashes b) (bs_leafPositions b ++ [pos]) (bs_leaves b ++ [leaf]).

Definition push_hash (pos : Z) (hash : option Hash) (b : build_state) : build_state :=
  match hash with
  | Some h => mkBuildState (bs_hashPositions b ++ [pos]) (bs_hashes b ++ [h]) (bs_leafPositions b) (bs_leaves b)
  | None => b
  end.

(** One position. *)
Definition BuildSegment_step (pos : Z) (b : build_state) : option build_state :=
  let index := Index_At pos in
  let store := if prunable then push_hash pos (readHash index) b else b in
  if Index_IsLeaf index then
    let leafIdx := LeafIndex_From index in
    match (if prunable then readRawLeaf leafIdx else readLeaf leafIdx) with
    | Some leaf => Some (push_leaf pos leaf b)
    | None =>
        if negb prunable then None
        else if RequiresLeafData index mmrSize isUnpruned then None
        else Some store
    end
  else Some store.

Fixpoint BuildSegment_loop (k : nat) (pos : Z) (b : build_state) : option build_state :=
  match k with
  | O => Some b
  | S k => b ← BuildSegment_step pos b; BuildSegment_loop k (pos + 1) b
  end.

(** The first ancestor whose hash is known. *)
Fixpoint BuildSegment_branch (branch : list (Z * Z)) (b : build_state) : option Z * build_state :=
  match branch with
  | [] => (None, b)
  | (parentPos, _) :: branch =>
      match readHash (Index_At parentPos) with
      | Some h => (Some (parentPos + 1)%u64, push_hash parentPos (Some h) b)
      | None => BuildSegment_branch branch b
      end
  end.

Definition BuildSegment (identifier : SegmentIdentifier) : option (Segment D) :=
  if GetSegmentUnprunedSize mmrSize identifier =? 0 then None
  else
    let posRange := GetPositionRange mmrSize identifier in
    b ← BuildSegment_loop (Z.to_nat (posRange.2 - posRange.1 + 1)) posRange.1 (mkBuildState [] [] [] []);
    let '(startPos, b) :=
      match bs_leaves b, bs_hashes b with
      | [], [] => BuildSegment_branch (FamilyBranch posRange.2 mmrSize) b
      | _, _ => (None, b)
      end in
    proof ← SegmentProof_Generate Blake2b mmrSize posRange.1 posRange.2 startPos (fun position => readHash (Index_At position));
    Some (mkSegment identifier (bs_hashPositions b) (bs_hashes b) (bs_leafPositions b) (bs_leaves b) proof).

End readers.

(** [KernelSegment] and the other segments of an MMR that is not pruned. *)
Definition BuildSegment_unpruned (Blake2b : bytes -> Hash) (mmrSize : Z) (readLeaf : LeafIndex -> option D)
    (readHash : Index -> option Hash) (identifier : SegmentIdentifier) : option (Segment D) :=
  BuildSegment Blake2b mmrSize false readLeaf readLeaf (fun _ => false) readHash identifier.

(** [OutputSegment] and [RangeProofSegment]. *)
Definition BuildSegment_prunable (Blake2b : bytes -> Hash) (mmrSize : Z) (readLeaf readRawLeaf : LeafIndex -> option D)
    (isUnpruned : LeafIndex -> bool) (readHash : Index -> option Hash) (identifier : SegmentIdentifier) : option (Segment D) :=
  BuildSegment Blake2b mmrSize true readLeaf readRawLeaf isUnpruned readHash identifier.

End build.

(** ** The leaves of a range of positions *)

Definition leaves_in (pos : Z) (k : nat) : list Z := filter (fun p => Index_IsLeaf (Index_At p) = true) (seqZ pos k).

Lemma leaves_in_S pos (k : nat) :
  leaves_in pos (S k) = (if Index_IsLeaf (Index_At pos) then [pos] else []) ++ leaves_in (pos + 1) k.
Proof.
  unfold leaves_in. rewrite seqZ_cons by lia. replace (Z.pred (S k)) with (Z.of_nat k) by lia.
  replace (Z.succ pos) with (pos + 1) by lia. rewrite filter_cons.
  destruct (Index_IsLeaf (Index_At pos)); [by rewrite decide_True|by rewrite decide_False].
Qed.

Lemma bitmap_segment_loop_ok k pos a (f : Z -> BitmapChunk) ps cs :
  (forall p, p ∈ leaves_in pos k -> m_chunks a !! Z.to_nat (Index_GetLeafIndex (Index_At p)) = Some (f p)) ->
  bitmap_segment_loop k pos a ps cs = Some (ps ++ leaves_in pos k, cs ++ map f (leaves_in pos k)).
Proof.
  revert pos ps cs. induction k as [|k IH]; intros pos ps cs Hf.
  { unfold leaves_in. cbn [bitmap_segment_loop]. rewrite seqZ_nil by lia. by rewrite !app_nil_r. }
  cbn [bitmap_segment_loop]. rewrite leaves_in_S in Hf |- *.
  destruct (Index_IsLeaf (Index_At pos)); cbn [negb app] in *; [|by apply IH].
  rewrite (Hf pos) by (by left). rewrite IH by (intros p Hp; apply Hf; by right). cbn [map]. by rewrite <- !app_assoc.
Qed.

Lemma BuildSegment_loop_ok {D} mmrSize (readLeaf : LeafIndex -> option D) isUnpruned readHash k pos (f : Z -> D) ps ls :
  (forall p, p ∈ leaves_in pos k -> readLeaf (LeafIndex_From (Index_At p)) = Some (f p)) ->
  BuildSegment_loop mmrSize false readLeaf readLeaf isUnpruned readHash k pos (mkBuildState [] [] ps ls) =
    Some (mkBuildState [] [] (ps ++ leaves_in pos k) (ls ++ map f (leaves_in pos k))).
Proof.
  revert pos ps ls. induction k as [|k IH]; intros pos ps ls Hf.
  { unfold leaves_in. cbn [BuildSegment_loop]. rewrite seqZ_nil by lia. by rewrite !app_nil_r. }
  cbn [BuildSegment_loop]. rewrite leaves_in_S in Hf |- *. unfold BuildSegment_step.
  destruct (Index_IsLeaf (Index_At pos)); cbn [app] in *.
  - rewrite (Hf pos) by (by left). cbn [mbind option_bind]. unfold push_leaf. cbn [bs_hashPositions bs_hashes bs_leafPositions bs_leaves].
    rewrite IH by (intros p Hp; apply Hf; by right). cbn [map]. by rewrite <- !app_assoc.
  - cbn [mbind option_bind]. by apply IH.
Qed.

(** The positions of leaves [a] to [b - 1], in order. *)
Definition leaf_range (a b : Z) : list Z := map mmr_size (seqZ a (b - a)).

Lemma mmr_size_sorted a (k : nat) : 0 <= a -> StronglySorted Z.lt (map mmr_size (seqZ a k)).
Proof.
  revert a. induction k as [|k IH]; intros a Ha; [rewrite seqZ_nil by lia; constructor|].
  rewrite seqZ_cons by lia. replace (Z.pred (S k)) with (Z.of_nat k) by lia. cbn [map]. constructor; [apply IH; lia|].
  apply Forall_map, Forall_forall. intros j Hj%elem_of_seqZ. apply mmr_size_lt. lia.
Qed.

Lemma seqZ_sorted a (k : nat) : StronglySorted Z.lt (seqZ a k).
Proof.
  revert a. induction k as [|k IH]; intros a; [rewrite seqZ_nil by lia; constructor|].
  rewrite seqZ_cons by lia. replace (Z.pred (S k)) with (Z.of_nat k) by lia. constructor; [apply IH|].
  apply Forall_forall. intros j Hj%elem_of_seqZ. lia.
Qed.

Lemma sorted_ext (l l' : list Z) :
  StronglySorted Z.lt l -> StronglySorted Z.lt l' -> (forall x, x ∈ l <-> x ∈ l') -> l = l'.
Proof.
  intros Hs. revert l'. induction Hs as [|x l Hs IH Hx]; intros l' Hs' HE.
  { destruct l' as [|y l']; [done|]. assert (y ∈ []) as Hy by (apply HE; left). by apply elem_of_nil in Hy. }
  destruct Hs' as [|y l' Hs' Hy].
  { assert (x ∈ []) as Hy by (apply HE; left). by apply elem_of_nil in Hy. }
  rewrite Forall_forall in Hx, Hy.
  assert (x = y) as ->.
  { assert (x ∈ y :: l') as Hxy by (apply HE; left). assert (y ∈ x :: l) as Hyx by (apply HE; left).
    apply elem_of_cons in Hxy as [|Hxl]; [done|]. apply elem_of_cons in Hyx as [|Hyl]; [done|].
    specialize (Hy x Hxl). specialize (Hx y Hyl). lia. }
  f_equal. apply IH; [done|]. intros z. specialize (HE z). rewrite !elem_of_cons in HE. split; intros Hz.
  - destruct (proj1 HE (or_intror Hz)) as [->|]; [specialize (Hx y Hz); lia|done].
  - destruct (proj2 HE (or_intror Hz)) as [->|]; [specialize (Hy y Hz); lia|done].
Qed.

Lemma filter_sorted (P : Z -> Prop) `{!forall x, Decision (P x)} l : StronglySorted Z.lt l -> StronglySorted Z.lt (filter P l).
Proof.
  induction 1 as [|x l Hs IH Hx]; [constructor|]. rewrite filter_cons. case_decide; [|done]. constructor; [done|].
  rewrite Forall_forall in *. intros y [_ Hy]%list_elem_of_filter. by apply Hx.
Qed.

Lemma elem_of_leaf_range a b p : p ∈ leaf_range a b <-> exists j, mmr_size j = p /\ a <= j < b.
Proof.
  unfold leaf_range. rewrite list_elem_of_In, in_map_iff.
  split; intros (j & E & Hj); exists j; (split; [done|]); rewrite <- list_elem_of_In, elem_of_seqZ in *; lia.
Qed.

Lemma leaves_in_range a b last_ :
  0 <= a < b -> mmr_size (b - 1) <= last_ < mmr_size b -> mmr_size b < 2 ^ 60 ->
  leaves_in (mmr_size a) (Z.to_nat (last_ - mmr_size a + 1)) = leaf_range a b.
Proof.
  intros Hab Hl Hb. pose proof (mmr_size_mono a (b - 1) ltac:(lia)). pose proof (mmr_size_ge a ltac:(lia)).
  unfold leaf_range. replace (b - a) with (Z.of_nat (Z.to_nat (b - a))) by lia.
  apply sorted_ext; [apply filter_sorted, seqZ_sorted|apply mmr_size_sorted; lia|].
  intros p. fold (leaf_range a (a + Z.of_nat (Z.to_nat (b - a)))).
  replace (map mmr_size (seqZ a (Z.to_nat (b - a)))) with (leaf_range a b) by (unfold leaf_range; do 2 f_equal; lia).
  rewrite elem_of_leaf_range. unfold leaves_in. rewrite list_elem_of_filter, elem_of_seqZ. split.
  - intros [Hleaf Hp]. destruct (node_pos_surj p) as (h & i & Hh & Hi & ->); [lia|].
    rewrite Index_At_node in Hleaf by (try done; unfold pos_ok; lia). apply Z.eqb_eq in Hleaf. cbn [m_height] in Hleaf. subst h.
    rewrite node_pos_leaf in *. exists i. split; [done|].
    assert (~ b <= i) by (intros Hge; pose proof (mmr_size_mono b i ltac:(lia)); lia).
    assert (~ i < a) by (intros Hlt; pose proof (mmr_size_lt i a ltac:(lia)); lia). lia.
  - intros (j & <- & Hj). pose proof (mmr_size_mono a j ltac:(lia)).
    pose proof (mmr_size_mono j (b - 1) ltac:(lia)). split; [|lia].
    rewrite <- node_pos_leaf. rewrite Index_At_node by (try lia; rewrite node_pos_leaf; unfold pos_ok; lia). done.
Qed.

(** ** Segments with all leaves *)

Lemma leaf_range_length a b : length (leaf_range a b) = Z.to_nat (b - a).
Proof. unfold leaf_range. by rewrite length_map, length_seqZ. Qed.

Lemma leaf_range_lookup a b (k : nat) : a + k < b -> leaf_range a b !! k = Some (mmr_size (a + k)).
Proof.
  intros Hk. unfold leaf_range. change (map mmr_size (seqZ a (b - a))) with (mmr_size <$> seqZ a (b - a)).
  by rewrite list_lookup_fmap, lookup_seqZ_lt by lia.
Qed.

Lemma find_index_leaf_range a b j :
  0 <= a <= j -> j < b -> find_index (mmr_size j) (leaf_range a b) = Some (Z.to_nat (j - a)).
Proof.
  intros Ha Hb. unfold find_index.
  assert (list_find (fun y => y = mmr_size j) (leaf_range a b) = Some (Z.to_nat (j - a), mmr_size j)) as ->; [|done].
  apply list_find_Some. split; [rewrite leaf_range_lookup by lia; do 2 f_equal; lia|]. split; [done|].
  intros k y Hy Hk E. rewrite leaf_range_lookup in Hy by lia. injection Hy as <-.
  apply mmr_size_inj in E; lia.
Qed.

(** A segment whose leaves are those of the block has them all. *)
Lemma has_leaf_range {D} `{HD : Serializable D} leaves (s : Segment D) (f : Z -> D) a b j :
  sg_leaf_pos s = leaf_range a b -> sg_leaves s = map f (leaf_range a b) -> 0 <= a <= j -> j < b ->
  Serialized V1 (f (mmr_size j)) = default [] (leaves !! Z.to_nat j) -> has_leaf leaves s j.
Proof.
  intros E1 E2 Ha Hb Hf. exists (Z.to_nat (j - a)), (f (mmr_size j)).
  rewrite E1, E2. split; [by apply find_index_leaf_range|]. split; [|done].
  change (map f (leaf_range a b)) with (f <$> leaf_range a b). rewrite list_lookup_fmap, leaf_range_lookup by lia.
  cbn [fmap option_fmap option_map]. do 3 f_equal. lia.
Qed.

Section validate.
Context {D : Type} `{HD : Serializable D} (Blake2b : bytes -> Hash).
Hypothesis Blake2b_length : forall x, length (Blake2b x) = 32%nat.

(** The block of a segment, cut at the number of leaves. *)
Definition block_end (n : Z) (id : SegmentIdentifier) : Z := Z.min n ((seg_index id + 1) * 2 ^ seg_height id).

Lemma block_leaves n id :
  segment_ok n id -> seg_index id * 2 ^ seg_height id < n ->
  let posRange := GetPositionRange (mmr_size n) id in
  leaves_in posRange.1 (Z.to_nat (posRange.2 - posRange.1 + 1)) =
    leaf_range (seg_index id * 2 ^ seg_height id) (block_end n id) /\
  seg_index id * 2 ^ seg_height id < block_end n id.
Proof.
  intros Hok Hlt posRange. pose proof Hok as [Hn Hh Hi Ho]. pose proof (pow2_pos (seg_height id) ltac:(lia)).
  unfold posRange. rewrite position_range_ok by done. cbn [fst snd]. unfold block_end.
  set (a := seg_index id * 2 ^ seg_height id) in *. assert (0 <= a) by nia.
  pose proof (mmr_size_bound n ltac:(lia)).
  assert ((seg_index id + 1) * 2 ^ seg_height id = a + 2 ^ seg_height id) as Eb by (unfold a; lia). rewrite Eb.
  split; [|lia]. destruct (Z.leb_spec (a + 2 ^ seg_height id) n) as [Hle|Hgt].
  - rewrite Z.min_r by lia. pose proof (mmr_size_bound (a + 2 ^ seg_height id) ltac:(lia)).
    apply leaves_in_range; [lia| |lia].
    pose proof (node_pos_last_leaf (Z.to_nat (seg_height id)) (seg_index id) ltac:(lia)) as E.
    rewrite Z2Nat.id, Eb in E by lia. split; [lia|]. rewrite <- Eb. apply node_in_mmr; [lia|lia|nia|lia].
  - rewrite Z.min_l by lia. apply leaves_in_range; [lia| |lia].
    pose proof (mmr_size_lt (n - 1) n ltac:(lia)). lia.
Qed.

(** A segment with all leaves of its block and the proof of [Generate]
    validates. *)
Lemma full_segment_validates leaves getHashAt (s : Segment D) (f : Z -> D) :
  let n := length leaves in
  segment_ok n (sg_id s) -> seg_index (sg_id s) * 2 ^ seg_height (sg_id s) < n ->
  reads_tree Blake2b leaves getHashAt -> honest_proof Blake2b leaves getHashAt s ->
  length (sg_hash_pos s) = length (sg_hashes s) ->
  sg_leaf_pos s = leaf_range (seg_index (sg_id s) * 2 ^ seg_height (sg_id s)) (block_end n (sg_id s)) ->
  sg_leaves s = map f (sg_leaf_pos s) ->
  (forall j, 0 <= j < n -> Serialized V1 (f (mmr_size j)) = default [] (leaves !! Z.to_nat j)) ->
  Segment_Validate Blake2b (mmr_size n) (mmr_root Blake2b leaves) None s = Ok true.
Proof.
  intros n Hok Hlt Hread Hproof Hh Hpos Hls Hf.
  pose proof Hok as [Hn Hht Hi Ho]. pose proof (pow2_pos (seg_height (sg_id s)) ltac:(lia)).
  assert (Z.of_nat (Z.to_nat (seg_height (sg_id s))) = seg_height (sg_id s)) as Eh by lia.
  set (a := seg_index (sg_id s) * 2 ^ seg_height (sg_id s)) in *.
  assert (forall j, a <= j < block_end n (sg_id s) -> has_leaf leaves s j) as Hall.
  { intros j Hj. unfold block_end in Hj. rewrite Hpos in Hls.
    apply (has_leaf_range leaves s f a (block_end n (sg_id s))); [done|done|unfold a in *; nia|unfold block_end; lia|].
    apply Hf. unfold a in *. nia. }
  apply (Segment_Validate_honest Blake2b Blake2b_length leaves getHashAt None s); [|done|done|].
  - constructor; [done|done|by rewrite Hls, length_map|by rewrite Eh].
  - rewrite Eh. fold n. unfold block_end in Hall.
    destruct (Z.leb_spec ((seg_index (sg_id s) + 1) * 2 ^ seg_height (sg_id s)) n) as [Hle|Hgt].
    + split; [|by apply node_required_none]. apply carries_all; [lia|]. rewrite Eh. intros j Hj. apply Hall. unfold a. lia.
    + apply carries_peaks_all. rewrite Eh. fold n. intros j Hj. apply Hall.
      assert (n / 2 ^ seg_height (sg_id s) = seg_index (sg_id s)) as Eq
        by (symmetry; apply Z.div_unique with (n - a); unfold a in *; lia).
      rewrite Eq in Hj. unfold a. lia.
Qed.

End validate.

(** The nodes of an accumulator, as [Generate] reads them. *)
Lemma accumulator_reads_tree Blake2b a :
  accumulator_ok Blake2b a -> length (m_chunks a) < 2 ^ 50 ->
  reads_tree Blake2b (map chunk_bytes (m_chunks a)) (fun position => BitmapAccumulator_GetHashAt position a).
Proof.
  intros [_ [Hlen Hl]] Hb h i Hi Hin. unfold BitmapAccumulator_GetHashAt. rewrite length_map in *.
  pose proof (proj2 (node_in_mmr h i (length (m_chunks a)) ltac:(lia) Hi ltac:(lia)) Hin).
  rewrite Z.geb_leb. destruct (Z.leb_spec (length (m_nodes a)) (node_pos h i)); [lia|]. by apply Hl.
Qed.

Lemma accumulator_size Blake2b a :
  accumulator_ok Blake2b a -> BitmapAccumulator_GetMMRSize a = mmr_size (length (map chunk_bytes (m_chunks a))).
Proof. by intros [_ [Hlen _]]. Qed.

Lemma leaf_positions_range a m : 0 <= a -> a + Z.of_nat m < 2 ^ 58 -> leaf_positions a m = leaf_range a (a + m).
Proof.
  intros Ha Hb. unfold leaf_positions, leaf_range. replace (a + m - a) with (Z.of_nat m) by lia.
  apply list_eq_same_length with m; [by rewrite length_map, length_seqZ, Nat2Z.id..|].
  intros k x y Hk.
  change (map (fun i => LeafIndex_GetPosition (LeafIndex_At (a + i)%u64)) (seqZ 0 m)) with
    ((fun i => LeafIndex_GetPosition (LeafIndex_At (a + i)%u64)) <$> seqZ 0 m).
  change (map mmr_size (seqZ a m)) with (mmr_size <$> seqZ a m).
  rewrite !list_lookup_fmap, !lookup_seqZ_lt by lia. cbn [fmap option_fmap option_map]. intros [= <-] [= <-].
  rewrite Z.add_0_l, uint_small by (unfold is_uint; lia). pose proof (mmr_size_bound (a + k) ltac:(lia)).
  by rewrite LeafIndex_At_pos by (lia || unfold pos_ok; lia).
Qed.

Lemma generate_segment_proof Blake2b leaves getHashAt id :
  let n := length leaves in
  segment_ok n id -> seg_index id * 2 ^ seg_height id < n -> reads_tree Blake2b leaves getHashAt ->
  exists p, SegmentProof_Generate Blake2b (mmr_size n) (GetPositionRange (mmr_size n) id).1
    (GetPositionRange (mmr_size n) id).2 None getHashAt = Some p.
Proof.
  intros n Hok Hlt Hread. pose proof Hok as [Hn Hh Hi Ho]. rewrite position_range_ok by done. cbn [fst snd].
  assert (size_ok n) as Hsz by (pose proof (mmr_size_bound n ltac:(lia)); split; lia).
  replace (seg_height id) with (Z.of_nat (Z.to_nat (seg_height id))) in * by lia.
  destruct (Z.leb_spec ((seg_index id + 1) * 2 ^ Z.to_nat (seg_height id)) n) as [Hle|Hgt].
  - destruct (proof_complete_self Blake2b leaves getHashAt (Z.to_nat (seg_height id)) (seg_index id)) as (p & E & _);
      [done|lia|done|done|]. exists p. exact E.
  - destruct (proof_complete_partial Blake2b leaves getHashAt None 0 (Z.to_nat (seg_height id)) (seg_index id)) as (p & E & _);
      [done|lia|lia|fold n; lia|done|]. exists p. exact E.
Qed.

Lemma unpruned_size_pos n id :
  segment_ok n id -> seg_index id * 2 ^ seg_height id < n -> (GetSegmentUnprunedSize (mmr_size n) id =? 0) = false.
Proof.
  intros Hok Hlt. rewrite unpruned_size_ok by done. pose proof Hok as [Hn Hh Hi Ho].
  pose proof (pow2_pos (seg_height id) ltac:(lia)). apply Z.eqb_neq. lia.
Qed.

(** ** Properties *)

Section properties.
Context (Blake2b : bytes -> Hash).
Hypothesis Blake2b_length : forall x, length (Blake2b x) = 32%nat.
Hypothesis Blake2b_nonzero : forall x, Blake2b x <> ZERO_HASH.

(** serving a bitmap segment: for every segment that starts inside the
    accumulator a bitmap segment is built; its receiver, who expands it with
    [ToSegment], finds that it validates against the root of the accumulator. *)
Theorem OutputBitmapSegment_validates a id :
  let n := length (m_chunks a) in
  accumulator_ok Blake2b a -> segment_ok n id -> seg_index id * 2 ^ seg_height id < n ->
  exists bs s root,
    OutputBitmapSegment Blake2b id a = Some bs /\ BitmapSegment_ToSegment bs = Ok s /\
    BitmapAccumulator_Root Blake2b a = Ok root /\
    Segment_Validate Blake2b (BitmapAccumulator_GetMMRSize a) root None s = Ok true.
Proof.
  intros n Ha Hok Hlt. set (leaves := map chunk_bytes (m_chunks a)).
  assert (length leaves = n) as Hn by apply length_map. pose proof Hok as [Hnb Hh Hi Ho].
  pose proof (accumulator_reads_tree Blake2b a Ha ltac:(fold n; lia)) as Hread. fold leaves in Hread.
  pose proof (accumulator_size Blake2b a Ha) as Hsize. fold leaves in Hsize. rewrite Hn in Hsize.
  destruct (generate_segment_proof Blake2b leaves (fun position => BitmapAccumulator_GetHashAt position a) id) as (p & Ep);
    [by rewrite Hn|by rewrite Hn|done|]. rewrite Hn in Ep.
  destruct (block_leaves n id Hok Hlt) as [Eleaves Hblk]. cbv zeta in Eleaves.
  set (posRange := GetPositionRange (mmr_size n) id) in *.
  set (lo := seg_index id * 2 ^ seg_height id) in *. pose proof (pow2_pos (seg_height id) ltac:(lia)).
  assert (block_end n id <= n) by (unfold block_end; lia). assert (0 <= lo) by (unfold lo; nia).
  set (f := fun p => default BitmapChunk_new (m_chunks a !! Z.to_nat (Index_GetLeafIndex (Index_At p)))).
  assert (forall j, 0 <= j < n -> Index_GetLeafIndex (Index_At (mmr_size j)) = j) as Hidx.
  { intros j Hj. pose proof (mmr_size_bound j ltac:(lia)). unfold Index_GetLeafIndex, Index_At. cbn [m_position].
    apply CalculateLeafIndex_leaf; [lia|unfold pos_ok; lia]. }
  assert (forall j, 0 <= j < n -> m_chunks a !! Z.to_nat j = Some (f (mmr_size j))) as Hf.
  { intros j Hj. unfold f. rewrite Hidx by done.
    destruct (lookup_lt_is_Some_2 (m_chunks a) (Z.to_nat j)) as [c Ec]; [unfold n in *; lia|]. by rewrite Ec. }
  set (s := mkSegment id [] [] (leaf_range lo (block_end n id)) (map f (leaf_range lo (block_end n id))) p).
  assert (bitmap_chunk_segment Blake2b id a = Some s) as Es.
  { unfold bitmap_chunk_segment. rewrite Hsize, unpruned_size_pos by done. fold posRange.
    rewrite (bitmap_segment_loop_ok _ _ a f); rewrite Eleaves.
    - cbn [mbind option_bind app]. rewrite Ep. done.
    - intros q (j & <- & Hj)%elem_of_leaf_range. rewrite Hidx by lia. apply Hf. lia. }
  assert (Forall (BitmapChunk_wf V1) (sg_leaves s)) as Hwf.
  { cbn [s sg_leaves]. apply Forall_map, Forall_forall. intros q (j & <- & Hj)%elem_of_leaf_range.
    pose proof (acc_chunks _ _ Ha) as Hc. rewrite Forall_lookup in Hc. eapply Hc, (Hf j). lia. }
  exists (BitmapSegment_FromSegment s), s, (mmr_root Blake2b leaves).
  split; [unfold OutputBitmapSegment; by rewrite Es|]. split; [|split].
  - apply ToSegment_FromSegment; [done|done|done|]. cbn [s sg_leaf_pos sg_id sg_leaves].
    rewrite length_map, leaf_range_length, (offset_ok n) by done. fold lo.
    rewrite leaf_positions_range by lia. f_equal. lia.
  - apply BitmapAccumulator_Root_ok; try done. fold n. lia.
  - rewrite Hsize, <- Hn.
    apply (full_segment_validates Blake2b Blake2b_length leaves (fun position => BitmapAccumulator_GetHashAt position a) s f);
      rewrite ?Hn; try done.
    + unfold honest_proof. rewrite Hn. exact Ep.
    + intros j Hj. unfold leaves.
      change (map chunk_bytes (m_chunks a)) with (chunk_bytes <$> m_chunks a).
      rewrite list_lookup_fmap, (Hf j Hj). cbn [fmap option_fmap option_map default from_option].
      etransitivity; [apply Serialized_chunk|reflexivity]. pose proof (acc_chunks _ _ Ha) as Hc. rewrite Forall_lookup in Hc. eapply Hc, (Hf j Hj).
Qed.

(** serving a segment of an MMR that is not pruned (the kernels): if the
    readers give the leaves and hashes of the tree, a segment is built for every
    segment that starts inside it, and it validates against the root. *)
Theorem BuildSegment_unpruned_validates {D} `{HD : Serializable D} leaves (readLeaf : LeafIndex -> option D) readHash id :
  let n := length leaves in
  segment_ok n id -> seg_index id * 2 ^ seg_height id < n ->
  reads_tree Blake2b leaves (fun position => readHash (Index_At position)) ->
  (forall j, 0 <= j < n -> exists d, readLeaf (LeafIndex_At j) = Some d /\ Serialized V1 d = default [] (leaves !! Z.to_nat j)) ->
  exists s, BuildSegment_unpruned Blake2b (mmr_size n) readLeaf readHash id = Some s /\
    Segment_Validate Blake2b (mmr_size n) (mmr_root Blake2b leaves) None s = Ok true.
Proof.
  intros n Hok Hlt Hread Hleaf. pose proof Hok as [Hnb Hh Hi Ho].
  destruct (generate_segment_proof Blake2b leaves (fun position => readHash (Index_At position)) id Hok Hlt Hread) as (p & Ep).
  fold n in Ep. destruct (block_leaves n id Hok Hlt) as [Eleaves Hblk]. cbv zeta in Eleaves.
  set (posRange := GetPositionRange (mmr_size n) id) in *.
  set (lo := seg_index id * 2 ^ seg_height id) in *. pose proof (pow2_pos (seg_height id) ltac:(lia)).
  assert (block_end n id <= n) by (unfold block_end; lia). assert (0 <= lo) by (unfold lo; nia).
  destruct (Hleaf 0 ltac:(lia)) as (d0 & _).
  set (f := fun p => default d0 (readLeaf (LeafIndex_From (Index_At p)))).
  assert (forall j, 0 <= j < n -> readLeaf (LeafIndex_From (Index_At (mmr_size j))) = Some (f (mmr_size j)) /\
    Serialized V1 (f (mmr_size j)) = default [] (leaves !! Z.to_nat j)) as Hf.
  { intros j Hj. pose proof (mmr_size_bound j ltac:(lia)). unfold f.
    change (LeafIndex_From (Index_At (mmr_size j))) with (LeafIndex_AtPos (mmr_size j)).
    rewrite LeafIndex_AtPos_leaf by (lia || unfold pos_ok; lia).
    destruct (Hleaf j Hj) as (d & -> & Ed). by split. }
  set (s := mkSegment id [] [] (leaf_range lo (block_end n id)) (map f (leaf_range lo (block_end n id))) p).
  assert (exists x l, map f (leaf_range lo (block_end n id)) = x :: l) as (x & l & El).
  { destruct (map f (leaf_range lo (block_end n id))) as [|x l] eqn:E; [|by exists x, l].
    apply (f_equal length) in E. rewrite length_map, leaf_range_length in E. simpl in E. lia. }
  exists s. split.
  - unfold BuildSegment_unpruned, BuildSegment. rewrite unpruned_size_pos by done. fold posRange.
    rewrite (BuildSegment_loop_ok _ _ _ _ _ _ f); rewrite Eleaves.
    + cbn [mbind option_bind app bs_leaves bs_hashes bs_hashPositions bs_leafPositions]. rewrite El, Ep, <- El. done.
    + intros q (j & <- & Hj)%elem_of_leaf_range. apply Hf. lia.
  - apply (full_segment_validates Blake2b Blake2b_length leaves (fun position => readHash (Index_At position)) s f); try done.
    intros j Hj. by apply Hf.
Qed.

End properties.

(** *** Evaluation: the accumulator of the example chunks *)
Definition example_accumulator : BitmapAccumulator :=
  match BitmapAccumulator_Build toy_hash (mkBitmapAccumulator example_chunks []) with
  | Ok a => a
  | Throw _ => BitmapAccumulator_new
  end.

Lemma example_chunks_wf : Forall (BitmapChunk_wf V1) example_chunks.
Proof. unfold example_chunks. repeat (apply Forall_cons; split; [apply BitmapChunk_Set_wf, BitmapChunk_new_wf|]). constructor. Qed.

Lemma example_accumulator_ok : accumulator_ok toy_hash example_accumulator /\ m_chunks example_accumulator = example_chunks.
Proof.
  destruct (Build_ok toy_hash toy_hash_length example_chunks [] ltac:(simpl; lia) example_chunks_wf) as (a & E & Ha & Hc).
  unfold example_accumulator. rewrite E. split; [exact Ha|exact Hc].
Qed.

Lemma OutputBitmapSegment_validates_witness :
  exists bs s root,
    OutputBitmapSegment toy_hash (mkSegmentIdentifier 1 1) example_accumulator = Some bs /\ BitmapSegment_ToSegment bs = Ok s /\
    BitmapAccumulator_Root toy_hash example_accumulator = Ok root /\
    Segment_Validate toy_hash (BitmapAccumulator_GetMMRSize example_accumulator) root None s = Ok true.
Proof.
  destruct example_accumulator_ok as [Ha Hc].
  apply (OutputBitmapSegment_validates toy_hash toy_hash_length toy_hash_nonzero example_accumulator (mkSegmentIdentifier 1 1)).
  - exact Ha.
  - rewrite Hc. constructor; vm_compute; intuition congruence.
  - rewrite Hc. vm_compute. reflexivity.
Defined.

Lemma BuildSegment_unpruned_validates_witness :
  exists s, BuildSegment_unpruned toy_hash (mmr_size (length example_tree))
      (fun l => example_chunks !! Z.to_nat (m_leafIndex l)) (fun index => example_reader example_tree (m_position index))
      (mkSegmentIdentifier 1 0) = Some s /\
    Segment_Validate toy_hash (mmr_size (length example_tree)) (mmr_root toy_hash example_tree) None s = Ok true.
Proof.
  apply (BuildSegment_unpruned_validates (D := BitmapChunk) toy_hash toy_hash_length example_tree
    (fun l => example_chunks !! Z.to_nat (m_leafIndex l)) (fun index => example_reader example_tree (m_position index))
    (mkSegmentIdentifier 1 0)).
  - constructor; vm_compute; intuition congruence.
  - vm_compute. reflexivity.
  - apply example_reader_ok. vm_compute. reflexivity.
  - intros j Hj. change (0 <= j < 3) in Hj. assert (j = 0 \/ j = 1 \/ j = 2) as [-> | [-> | ->]] by lia;
      eexists; (split; [vm_compute; reflexivity|vm_compute; reflexivity]).
Defined.
