(* ===== verification/PruneableMMR.v ===== *)
(** * Prunable MMRs ([src/PMMR/Common/PruneableMMR.h])

    The MMR of outputs and of range proofs: a hash file and a data file that
    leave out what the prune list compacts, with the leaf set of the unspent
    leaves.  The reference is the full list of leaves: the hash file holds the
    hashes of its tree, less the compacted nodes ([stored]), and the data file
    the records of the leaves, less the compacted ones. *)
From S2P Require Import Prelude BitUtil MMRIndex MMRUtil Serial BigInteger File Roaring PruneList BitmapFile MMRHash SegmentId SegmentProof Bitmap Segment.

Local Abbreviation LeafSet := BitmapFile.

(** [SegmentNode] and its order: by position, a hash before a leaf. *)
Record SegmentNode := mkSegmentNode { sn_index : nat; sn_position : Z; sn_isHash : bool }.

Definition SegmentNode_lt (a b : SegmentNode) : bool :=
  if negb (sn_position a =? sn_position b) then sn_position a <? sn_position b
  else sn_isHash a && negb (sn_isHash b).

(** The order [std::sort] uses: [b < a] is false.  Nodes that compare equal (a
    position listed twice, which no deserialized segment has) keep their order. *)
Definition SegmentNode_le (a b : SegmentNode) : Prop := SegmentNode_lt b a = false.
#[export] Instance SegmentNode_le_dec : RelDecision SegmentNode_le.
Proof. intros a b. unfold SegmentNode_le. apply _. Defined.

Definition GetSubtreeFirstPosition (index : Index) : Z :=
  let nodeCount := ((1 << (m_height index + 1)%u64) - 1)%u64 in
  ((m_position index + 1) - nodeCount)%u64.

Record PruneableMMR {F R : Type} := mkPruneableMMR {
  pm_hashFile : F;
  pm_leafSet : LeafSet;
  pm_pruneList : PruneList R;
  pm_dataFile : DataFile;
  pm_dirty : bool;
}.
Arguments PruneableMMR : clear implicits.
Arguments mkPruneableMMR {F R}.

Section pruneable.
Context {F : Type} `{HF : HashFile F} {R : Type} `{HR : Roaring R}.
Context {D : Type} `{HD : Serializable D} (Blake2b : bytes -> Hash) (DATA_SIZE : Z).
Local Abbreviation PM := (PruneableMMR F R).
Implicit Types (m : PM).

Definition set_hashFile (f : F) m : PM := mkPruneableMMR f (pm_leafSet m) (pm_pruneList m) (pm_dataFile m) (pm_dirty m).
Definition set_leafSet (s : LeafSet) m : PM := mkPruneableMMR (pm_hashFile m) s (pm_pruneList m) (pm_dataFile m) (pm_dirty m).
Definition set_pruneList (p : PruneList R) m : PM := mkPruneableMMR (pm_hashFile m) (pm_leafSet m) p (pm_dataFile m) (pm_dirty m).
Definition set_dataFile (f : DataFile) m : PM := mkPruneableMMR (pm_hashFile m) (pm_leafSet m) (pm_pruneList m) f (pm_dirty m).
Definition pm_SetDirty (dirty : bool) m : PM :=
  mkPruneableMMR (pm_hashFile m) (pm_leafSet m) (pm_pruneList m) (pm_dataFile m) dirty.

Definition PruneableMMR_GetSize m : Z := (PruneList_GetTotalShift (pm_pruneList m) + hf_GetSize (pm_hashFile m))%u64.

(** [Append] and [AppendLeaf] up to the dirty flag. *)
Definition PruneableMMR_AppendLeaf (leaf : D) : ST PM unit :=
  m ← st_get;
  let index := Index_At (PruneableMMR_GetSize m) in
  _ ← st_modify (fun m => set_leafSet (LeafSet_Add (LeafIndex_From index) (pm_leafSet m)) m);
  let serialized := Serialized V1 leaf in
  _ ← st_modify (fun m => set_dataFile (DataFile_AddData serialized (pm_dataFile m)) m);
  st_zoom pm_hashFile set_hashFile (AddHashes Blake2b serialized (Some (pm_pruneList m))).

Definition PruneableMMR_Append (object : D) : ST PM unit :=
  _ ← st_modify (pm_SetDirty true);
  m ← st_get;
  let mmr_idx := Index_At (hf_GetSize (pm_hashFile m) + PruneList_GetTotalShift (pm_pruneList m))%u64 in
  _ ← st_modify (fun m => set_leafSet (LeafSet_Add (LeafIndex_From mmr_idx) (pm_leafSet m)) m);
  let serialized := Serialized V1 object in
  _ ← st_modify (fun m => set_dataFile (DataFile_AddData serialized (pm_dataFile m)) m);
  st_zoom pm_hashFile set_hashFile (AddHashes Blake2b serialized (Some (pm_pruneList m))).

(** The loop of [AppendPrunedSubtree] over the parents that are complete. *)
Fixpoint AppendPrunedSubtree_loop (fuel : nat) (parent : Index) (currentPosition : Z) (currentHash : Hash)
    (p : PruneList R) : ST F unit :=
  match fuel with
  | O => st_throw OutOfFuel
  | S fuel =>
      if Index_IsLeaf parent then mret tt
      else if negb (m_position (Index_GetRightChild parent) =? currentPosition) then mret tt
      else
        f ← st_get;
        leftHash ← st_lift (GetHashAt f (Index_GetLeftChild parent) (Some p));
        let currentHash := HashParentWithIndex Blake2b leftHash currentHash (m_position parent) in
        _ ← st_modify (hf_AddData currentHash);
        AppendPrunedSubtree_loop fuel (Index_add parent 1) (m_position parent) currentHash p
  end.

Definition AppendPrunedSubtree (hash : Hash) (position : Z) : ST PM unit :=
  _ ← st_modify (fun m => set_hashFile (hf_AddData hash (pm_hashFile m)) m);
  _ ← st_modify (fun m => set_pruneList (PruneList_AddPrunedRoot (Index_At position) (pm_pruneList m)) m);
  m ← st_get;
  st_zoom pm_hashFile set_hashFile
    (AppendPrunedSubtree_loop 64 (Index_At (position + 1)%u64) position hash (pm_pruneList m)).

(** [RewindToEmpty], and [ResetToEmpty] up to the dirty flag: the prune list stays. *)
Definition RewindToEmpty : ST PM unit :=
  _ ← st_zoom pm_hashFile set_hashFile (hf_Rewind 0);
  _ ← st_zoom pm_dataFile set_dataFile (DataFile_Rewind DATA_SIZE 0);
  st_modify (fun m => set_leafSet (LeafSet_Rewind 0 [] (pm_leafSet m)) m).

Definition ResetToEmpty : ST PM unit :=
  _ ← st_modify (pm_SetDirty true);
  _ ← st_zoom pm_hashFile set_hashFile (hf_Rewind 0);
  _ ← st_zoom pm_dataFile set_dataFile (DataFile_Rewind DATA_SIZE 0);
  st_modify (fun m => set_leafSet (LeafSet_Rewind 0 [] (pm_leafSet m)) m).

(** The nodes of a segment in the order they are applied. *)
Definition orderedNodes (s : Segment D) : list SegmentNode :=
  merge_sort SegmentNode_le
    (imap (fun i pos => mkSegmentNode i pos true) (sg_hash_pos s) ++
     imap (fun i pos => mkSegmentNode i pos false) (sg_leaf_pos s)).

(** The two branches that add a node. *)
Definition apply_hash (s : Segment D) (node : SegmentNode) : ST PM bool :=
  hash ← st_lift (of_option UB (sg_hashes s !! sn_index node));
  _ ← AppendPrunedSubtree hash (sn_position node);
  mret true.

(** The turn for a hash with a bitmap: [subtreeStart] must be the local size,
    except for an MMR that holds only its first leaf. *)
Definition apply_pruned_hash (s : Segment D) (node : SegmentNode) (bitmap : BitmapAccumulator) (targetMMRSize localSize : Z) : ST PM bool :=
  let index := Index_At (sn_position node) in
  if IsRequiredByBitmap bitmap index targetMMRSize then mret true
  else
    let subtreeStart := GetSubtreeFirstPosition index in
    if subtreeStart <? localSize then
      if (subtreeStart =? 0) && (localSize =? 1) then
        _ ← RewindToEmpty;
        apply_hash s node
      else mret false
    else if negb (subtreeStart =? localSize) then mret false
    else apply_hash s node.

Definition apply_leaf (s : Segment D) (node : SegmentNode) (localSize : Z) : ST PM bool :=
  if sn_position node =? localSize then
    leaf ← st_lift (of_option UB (sg_leaves s !! sn_index node));
    _ ← PruneableMMR_AppendLeaf leaf;
    mret true
  else mret false.

(** One turn of the loop of [ApplySegment]; [false] ends it. *)
Definition ApplySegment_step (s : Segment D) (targetMMRSize : Z) (pBitmap : option BitmapAccumulator) (node : SegmentNode) : ST PM bool :=
  m ← st_get;
  let localSize := PruneableMMR_GetSize m in
  if sn_position node <? localSize then mret true
  else
    match pBitmap with
    | Some bitmap =>
        if sn_isHash node then apply_pruned_hash s node bitmap targetMMRSize localSize
        else if negb (IsLeafRequiredByBitmap bitmap (Index_At (sn_position node)) targetMMRSize) then mret true
        else apply_leaf s node localSize
    | None => if sn_isHash node then apply_hash s node else apply_leaf s node localSize
    end.

Fixpoint ApplySegment_loop (nodes : list SegmentNode) (s : Segment D) (targetMMRSize : Z) (pBitmap : option BitmapAccumulator) : ST PM bool :=
  match nodes with
  | [] => mret true
  | node :: nodes =>
      ok ← ApplySegment_step s targetMMRSize pBitmap node;
      if (ok : bool) then ApplySegment_loop nodes s targetMMRSize pBitmap else mret false
  end.

Definition PruneableMMR_ApplySegment (s : Segment D) (targetMMRSize : Z) (pBitmap : option BitmapAccumulator) : ST PM bool :=
  if negb (length (sg_leaf_pos s) =? length (sg_leaves s)) then mret false
  else if negb (length (sg_hash_pos s) =? length (sg_hashes s)) then mret false
  else
    _ ← st_modify (pm_SetDirty true);
    ApplySegment_loop (orderedNodes s) s targetMMRSize pBitmap.

(** The turn of [UpdateLeafSet] for one leaf. *)
Definition UpdateLeafSet_step (chunks : list BitmapChunk) (s : LeafSet) (leafIdx : Z) : LeafSet :=
  let chunkIdx := leafIdx / LEN_BITS in
  let shouldBeUnspent := (chunkIdx <? length chunks) &&
    match chunks !! Z.to_nat chunkIdx with Some c => BitmapChunk_IsSet (leafIdx mod LEN_BITS) c | None => false end in
  let leafIndex := LeafIndex_At leafIdx in
  if shouldBeUnspent then LeafSet_Add leafIndex s
  else if LeafSet_Contains leafIndex s then LeafSet_Remove leafIndex s
  else s.

Definition UpdateLeafSet (bitmapAccumulator : BitmapAccumulator) (numLeaves : Z) m : PM :=
  let m := pm_SetDirty true m in
  let s := foldl (UpdateLeafSet_step (m_chunks bitmapAccumulator)) (pm_leafSet m) (seqZ 0 numLeaves) in
  set_leafSet (LeafSet_Rewind numLeaves [] s) m.

Definition PruneableMMR_Remove (leaf_idx : LeafIndex) : ST PM unit :=
  m ← st_get;
  if negb (LeafSet_Contains leaf_idx (pm_leafSet m)) then st_throw TxHashSetException
  else
    _ ← st_modify (pm_SetDirty true);
    st_modify (fun m => set_leafSet (LeafSet_Remove leaf_idx (pm_leafSet m)) m).

Definition PruneableMMR_Rewind (num_leaves : Z) (leavesToAdd : list Z) : ST PM unit :=
  _ ← st_modify (pm_SetDirty true);
  m ← st_get;
  let p := pm_pruneList m in
  let next_leaf := LeafIndex_At num_leaves in
  let before := Index_sub (m_nodeIndex next_leaf) 1 in
  _ ← st_zoom pm_hashFile set_hashFile (hf_Rewind (LeafIndex_GetPosition next_leaf - PruneList_GetShift before p)%u64);
  _ ← st_zoom pm_dataFile set_dataFile (DataFile_Rewind DATA_SIZE (num_leaves - PruneList_GetLeafShift before p)%u64);
  st_modify (fun m => set_leafSet (LeafSet_Rewind num_leaves leavesToAdd (pm_leafSet m)) m).

Definition PruneableMMR_Root (size : Z) m : result Hash := Root Blake2b (pm_hashFile m) size (Some (pm_pruneList m)).

Definition UBMTRoot (size : Z) m : result Hash := LeafSet_Root Blake2b size (pm_leafSet m).

Definition PruneableMMR_GetHashAt (mmrIndex : Index) m : result (option Hash) :=
  if PruneList_IsCompacted mmrIndex (pm_pruneList m) then mret None
  else hash ← GetHashAt (pm_hashFile m) mmrIndex (Some (pm_pruneList m)); mret (Some hash).

Definition GetSegmentHashAt (mmrIndex : Index) m : result (option Hash) := PruneableMMR_GetHashAt mmrIndex m.

Definition PruneableMMR_GetLastLeafHashes (numHashes : Z) m : result (list Hash) :=
  GetLastLeafHashes (pm_hashFile m) (Some (pm_leafSet m)) (Some (pm_pruneList m)) numHashes.

Definition IsUnpruned (leaf_idx : LeafIndex) m : bool :=
  (LeafIndex_GetPosition leaf_idx <? PruneableMMR_GetSize m) && LeafSet_Contains leaf_idx (pm_leafSet m).

Definition PruneableMMR_IsCompacted (index : Index) m : bool := PruneList_IsCompacted index (pm_pruneList m).

(** [catch (FileException&)]: a record that cannot be read is no leaf. *)
Definition GetDataAt (leaf_idx : LeafIndex) m : result (option D) :=
  if (LeafIndex_GetPosition leaf_idx >=? PruneableMMR_GetSize m)
     || PruneList_IsCompacted (m_nodeIndex leaf_idx) (pm_pruneList m) then mret None
  else
    let shift := PruneList_GetLeafShift (Index_At (LeafIndex_GetPosition leaf_idx + 1)%u64) (pm_pruneList m) in
    let shifted_idx := (m_leafIndex leaf_idx - shift)%u64 in
    match DataFile_GetDataAt DATA_SIZE shifted_idx (pm_dataFile m) with
    | Throw FileException => mret None
    | Throw e => Throw e
    | Ok data =>
        if length data =? DATA_SIZE then
          '(object, _) ← Deserialize (ByteBuffer_new data V1);
          mret (Some object)
        else mret None
    end.

Definition PruneableMMR_GetAt (leaf_idx : LeafIndex) m : result (option D) :=
  if IsUnpruned leaf_idx m then GetDataAt leaf_idx m else mret None.

Definition PruneableMMR_Commit : ST PM unit :=
  m ← st_get;
  if pm_dirty m then
    _ ← st_zoom pm_hashFile set_hashFile hf_Commit;
    _ ← st_zoom pm_dataFile set_dataFile DataFile_Commit;
    _ ← st_modify (fun m => set_leafSet (LeafSet_Commit (pm_leafSet m)) m);
    _ ← st_modify (fun m => set_pruneList (PruneList_Flush (pm_pruneList m)) m);
    st_modify (pm_SetDirty false)
  else mret tt.

Definition PruneableMMR_Rollback m : PM :=
  if pm_dirty m then
    mkPruneableMMR (hf_Rollback (pm_hashFile m)) (LeafSet_Rollback (pm_leafSet m))
      (PruneList_Rollback (pm_pruneList m)) (DataFile_Rollback (pm_dataFile m)) false
  else m.

Definition FlushPruneList m : PM := set_pruneList (PruneList_Flush (pm_pruneList m)) m.

End pruneable.

(** ** The represented leaves *)

Section view.
Context {R : Type} {HR : Roaring R} {HL : RoaringLaws R}.
Context {D : Type} `{HD : Serializable D} (wf : EProtocolVersion -> D -> Prop) (Blake2b : bytes -> Hash) (N : nat).

(** Sizes for which the one-based positions fit the 32-bit bitmaps. *)
Definition n_ok (n : Z) : Prop := 0 <= n /\ mmr_size n + 2 < 2 ^ 32.

Definition leaf_bytes (data : list D) : list bytes := map (Serialized V1) data.

(** The hashes [hw] and the records [rw] are those of the MMR of [data], less
    what [p] compacts. *)
Record view (data : list D) (p : PruneList R) (hw : list Hash) (rw : list bytes) : Prop := {
  view_prunes : prune_wf p (length data);
  view_size : n_ok (length data);
  view_data : Forall (fun d => wf V1 d /\ length (Serialized V1 d) = N) data;
  view_hashes : exists l, tree_hashes Blake2b (leaf_bytes data) l /\ hw = stored (Some p) l;
  view_records : rw = select (leaf_visible p) 0 (leaf_bytes data);
}.

Lemma leaf_bytes_length data : length (leaf_bytes data) = length data.
Proof. apply length_map. Qed.

Lemma n_ok_mono n m : 0 <= m <= n -> n_ok n -> n_ok m.
Proof. intros Hm [Hn Hb]. pose proof (mmr_size_mono m n Hm). split; lia. Qed.

Lemma n_ok_bound n : n_ok n -> 0 <= n <= mmr_size n /\ mmr_size n < 2 ^ 32.
Proof. intros [Hn Hb]. pose proof (mmr_size_ge n Hn). lia. Qed.

Lemma view_hashes_length data p hw rw : view data p hw rw -> (length hw <= mmr_size (length data))%Z.
Proof.
  intros [_ _ _ (l & [Hl _] & ->) _]. pose proof (stored_length (Some p) l). rewrite leaf_bytes_length in Hl. lia.
Qed.

Lemma view_records_length data p hw rw : view data p hw rw -> (length rw <= length data)%Z.
Proof.
  intros [_ _ _ _ ->]. rewrite select_length, leaf_bytes_length.
  pose proof (skipped_bound (leaf_visible p) 0 (length data) ltac:(lia)). lia.
Qed.

End view.

Section pmmr.
Context {F : Type} {HF : HashFile F} {HFL : HashFileLaws F} {R : Type} {HR : Roaring R} {HL : RoaringLaws R}.
Context {D : Type} {HD : Serializable D} {wf : EProtocolVersion -> D -> Prop} {HSL : SerializableLaws D wf}.
Context (Blake2b : bytes -> Hash) (N : nat).
Local Abbreviation PM := (PruneableMMR F R).
Local Abbreviation view := (view wf Blake2b N).
Implicit Types (m : PM) (data : list D).

(** The MMR holds [data]; on disk are the files of the MMR of [cdata], which a
    rollback of the prune list goes with. *)
Record pmmr_files data cdata m (hw hc : list Hash) (rw rc : list bytes) : Prop := {
  pf_hash : hf_repr hw hc (pm_hashFile m);
  pf_data : datafile_ok N rw rc (pm_dataFile m);
  pf_view : view data (pm_pruneList m) hw rw;
  pf_committed : forall q, pl_file q = pl_file (pm_pruneList m) -> view cdata (PruneList_Rollback q) hc rc;
  pf_pruned : pl_dirty (pm_pruneList m) = false -> forall q, pl_file q = pl_file (pm_pruneList m) ->
    Roaring_elems (m_prunedRoots (PruneList_Rollback q)) = Roaring_elems (m_prunedRoots (pm_pruneList m));
  pf_clean : pm_dirty m = false -> data = cdata /\ hw = hc /\ rw = rc;
}.

Definition pmmr_ok data cdata m : Prop := exists hw hc rw rc, pmmr_files data cdata m hw hc rw rc.

Hypothesis Blake2b_length : forall x, length (Blake2b x) = 32%nat.
Hypothesis Blake2b_nonzero : forall x, Blake2b x <> ZERO_HASH.
Hypothesis N_small : 0 < N < 2 ^ 20.

Ltac pm_cbn := cbn [set_hashFile set_dataFile set_leafSet set_pruneList pm_SetDirty
  pm_hashFile pm_leafSet pm_pruneList pm_dataFile pm_dirty].

(** *** Reading *)

Lemma view_stored data p hw rw (h : nat) i l :
  view data p hw rw -> tree_hashes Blake2b (leaf_bytes data) l -> hw = stored (Some p) l ->
  0 <= i -> (i + 1) * 2 ^ h <= length data ->
  0 <= node_pos h i < mmr_size (length data) /\ l !! Z.to_nat (node_pos h i) = Some (node_hash Blake2b (leaf_bytes data) h i).
Proof.
  intros Hv [_ Hl] _ Hi Hin. split.
  - split; [apply node_pos_nonneg; lia|]. apply node_in_mmr; lia.
  - apply Hl; [done|]. by rewrite leaf_bytes_length.
Qed.

Lemma pmmr_GetSize data cdata m : pmmr_ok data cdata m -> PruneableMMR_GetSize m = mmr_size (length data).
Proof.
  intros (hw & hc & rw & rc & [Hh _ Hv _ _ _]). pose proof Hv as [Hp Hn _ (l & Ht & ->) _].
  pose proof (n_ok_bound _ Hn). destruct Hn as [_ Hn]. destruct Ht as [Hl _]. rewrite leaf_bytes_length in Hl.
  unfold PruneableMMR_GetSize. erewrite hf_size_ok by done. rewrite Z.add_comm.
  change (total_size (Some (pm_pruneList m)) (length (stored (Some (pm_pruneList m)) l)) = mmr_size (length data)).
  rewrite (total_size_ok (Some (pm_pruneList m)) (length data)); cbn [pl_ok pl_room]; (done || lia).
Qed.

Lemma pmmr_Root data cdata m : pmmr_ok data cdata m ->
  PruneableMMR_Root Blake2b (mmr_size (length data)) m = Ok (mmr_root Blake2b (leaf_bytes data)).
Proof.
  intros (hw & hc & rw & rc & [Hh _ Hv _ _ _]). pose proof Hv as [Hp Hn _ (l & Ht & ->) _].
  pose proof (n_ok_bound _ Hn). destruct Hn as [_ Hn]. unfold PruneableMMR_Root. rewrite <- leaf_bytes_length.
  apply (Root_stored Blake2b (Some (pm_pruneList m)) Blake2b_length Blake2b_nonzero (leaf_bytes data) [] l hc);
    rewrite ?app_nil_r, ?leaf_bytes_length; cbn [pl_ok pl_room]; (done || lia).
Qed.

(** The root of an earlier size, as long as only older leaves are compacted. *)
Lemma pmmr_Root_prefix data cdata m (n : nat) : pmmr_ok data cdata m -> (n <= length data)%nat -> prune_wf (pm_pruneList m) n ->
  PruneableMMR_Root Blake2b (mmr_size n) m = Ok (mmr_root Blake2b (leaf_bytes (take n data))).
Proof.
  intros (hw & hc & rw & rc & [Hh _ Hv _ _ _]) Hn Hp. pose proof Hv as [_ Hsz _ (l & Ht & ->) _].
  pose proof (n_ok_bound _ Hsz). assert (n_ok n) as [_ Hroom] by (eapply n_ok_mono; [|exact Hsz]; lia). unfold PruneableMMR_Root.
  assert (leaf_bytes data = leaf_bytes (take n data) ++ leaf_bytes (drop n data)) as E by (unfold leaf_bytes; by rewrite <- map_app, take_drop).
  assert (length (leaf_bytes (take n data)) = n) as El by (rewrite leaf_bytes_length, length_take; lia).
  pose proof (Root_stored Blake2b (Some (pm_pruneList m)) Blake2b_length Blake2b_nonzero (leaf_bytes (take n data)) (leaf_bytes (drop n data)) l hc (pm_hashFile m)) as Hr.
  rewrite El in Hr. apply Hr; [rewrite <- E, leaf_bytes_length; lia|done|by rewrite <- E|done|cbn [pl_room]; lia].
Qed.

Lemma pmmr_GetHashAt data cdata m (h : nat) i : pmmr_ok data cdata m ->
  0 <= i -> (i + 1) * 2 ^ h <= length data ->
  PruneableMMR_GetHashAt (Index_At (node_pos h i)) m =
    Ok (if visible (pm_pruneList m) (node_pos h i) then Some (node_hash Blake2b (leaf_bytes data) h i) else None).
Proof.
  intros (hw & hc & rw & rc & [Hh _ Hv _ _ _]) Hi Hin. pose proof Hv as [Hp Hn _ (l & Ht & El) _].
  destruct (view_stored _ _ _ _ h i l Hv Ht El Hi Hin) as [Hpos Hx].
  pose proof (n_ok_bound _ Hn). destruct Hn as [_ Hn]. pose proof Ht as [Hl _]. rewrite leaf_bytes_length in Hl.
  unfold PruneableMMR_GetHashAt. rewrite (visible_IsCompacted _ (length data)) by (cbn [Index_At m_position]; (done || lia)).
  cbn [Index_At m_position]. destruct (visible _ _) eqn:E; cbn [negb]; [|done]. subst hw.
  rewrite (GetHashAt_stored (Some (pm_pruneList m)) (length data) (mmr_size (length data)) l hc) by (cbn [Index_At m_position pl_ok pl_room stored_at]; (done || lia)).
  cbn [Index_At m_position]. by rewrite Hx.
Qed.

(** The record of a stored leaf. *)
Lemma records_lookup data p j d : data !! Z.to_nat j = Some d -> 0 <= j -> leaf_visible p j = true ->
  select (leaf_visible p) 0 (leaf_bytes data) !! Z.to_nat (j - skipped (leaf_visible p) 0 j) = Some (Serialized V1 d).
Proof.
  intros Hd Hj Hv. pose proof (lookup_lt_Some _ _ _ Hd).
  pose proof (select_lookup (leaf_visible p) 0 (leaf_bytes data) j) as Hs. rewrite Z.sub_0_r in Hs.
  rewrite Hs by (rewrite ?leaf_bytes_length; (done || lia)). unfold leaf_bytes. rewrite list_lookup_fmap, Hd. done.
Qed.

Lemma pmmr_GetDataAt data cdata m j : pmmr_ok data cdata m -> 0 <= j < length data ->
  GetDataAt N (LeafIndex_At j) m = Ok (if leaf_visible (pm_pruneList m) j then data !! Z.to_nat j else None).
Proof.
  intros Hok Hj. pose proof (pmmr_GetSize _ _ _ Hok) as Hsize.
  destruct Hok as (hw & hc & rw & rc & [_ Hd Hv _ _ _]). pose proof Hv as [Hp Hn Hdata _ Hr].
  pose proof (n_ok_bound _ Hn). destruct Hn as [_ Hn]. pose proof (mmr_size_lt j (length data) ltac:(lia)).
  pose proof (mmr_size_ge j ltac:(lia)).
  unfold GetDataAt. rewrite Hsize. unfold LeafIndex_GetPosition.
  rewrite LeafIndex_At_pos by (unfold pos_ok; lia). cbn [m_nodeIndex m_position m_leafIndex].
  destruct (Z.geb_spec (mmr_size j) (mmr_size (length data))) as [Hge|_]; [lia|]. cbn [orb].
  rewrite (visible_IsCompacted _ (length data)) by (cbn [m_position]; (done || lia)). cbn [m_position].
  change (visible (pm_pruneList m) (mmr_size j)) with (leaf_visible (pm_pruneList m) j).
  destruct (leaf_visible (pm_pruneList m) j) eqn:E; cbn [negb]; [|done].
  destruct (lookup_lt_is_Some_2 data (Z.to_nat j) ltac:(lia)) as [d Hx]. rewrite Hx.
  rewrite (uint_small 64 (mmr_size j + 1)) by uint_solve.
  rewrite (GetLeafShift_skipped _ (length data) j) by (done || lia).
  pose proof (skipped_bound (leaf_visible (pm_pruneList m)) 0 j ltac:(lia)).
  rewrite (uint_small 64 (j - _)) by uint_solve.
  pose proof (records_lookup data (pm_pruneList m) j d Hx ltac:(lia) E) as Hrec. rewrite <- Hr in Hrec.
  rewrite (DataFile_GetDataAt_ok N rw rc) by (done || nia). rewrite Hrec. cbn [of_option].
  apply (Forall_lookup_1 _ _ _ _ Hdata) in Hx as [Hwf Hlen].
  rewrite Hlen, Z.eqb_refl. erewrite reads_whole; [done|by apply deserialize_reads|lia].
Qed.

(** *** Appending a leaf *)

Lemma pmmr_committed_size data cdata m hw hc rw rc : pmmr_files data cdata m hw hc rw rc ->
  length hc < 2 ^ 32 /\ length rc < 2 ^ 32 /\ length hw < 2 ^ 32 /\ length rw < 2 ^ 32.
Proof.
  intros [_ _ Hv Hc _ _]. specialize (Hc (pm_pruneList m) eq_refl).
  pose proof (view_hashes_length _ _ _ _ _ _ _ Hv). pose proof (view_records_length _ _ _ _ _ _ _ Hv).
  pose proof (view_hashes_length _ _ _ _ _ _ _ Hc). pose proof (view_records_length _ _ _ _ _ _ _ Hc).
  pose proof (n_ok_bound _ (view_size _ _ _ _ _ _ _ Hv)). pose proof (n_ok_bound _ (view_size _ _ _ _ _ _ _ Hc)). lia.
Qed.

Lemma pmmr_SetDirty data cdata m : pmmr_ok data cdata m -> pmmr_ok data cdata (pm_SetDirty true m).
Proof.
  intros (hw & hc & rw & rc & [H1 H2 H3 H4 H5 H6]). exists hw, hc, rw, rc. by constructor.
Qed.

Lemma leaf_visible_beyond p n j : prune_wf p n -> 0 <= n <= j -> leaf_visible p j = true.
Proof. intros Hp Hj. apply (visible_beyond p n); [lia|done|]. apply mmr_size_mono. lia. Qed.

Lemma view_records_snoc data p d :
  prune_wf p (length data) -> select (leaf_visible p) 0 (leaf_bytes (data ++ [d])) =
    select (leaf_visible p) 0 (leaf_bytes data) ++ [Serialized V1 d].
Proof.
  intros Hp. unfold leaf_bytes. rewrite map_app, select_app. f_equal. cbn [map select].
  by rewrite (leaf_visible_beyond p (length data)) by (rewrite ?length_map; (done || lia)).
Qed.

Lemma data_file_append data cdata m hw hc rw rc r : pmmr_files data cdata m hw hc rw rc -> length r = N ->
  datafile_ok N (rw ++ [r]) rc (DataFile_AddData r (pm_dataFile m)).
Proof.
  intros Hm Hr. pose proof (pmmr_committed_size _ _ _ _ _ _ _ Hm). destruct Hm as [_ Hd _ _ _ _].
  apply DataFile_AddData_ok; [done|done|]. destruct (datafile_room _ _ _ _ Hd) as [-> Hb]. nia.
Qed.

Lemma pmmr_AppendLeaf data cdata m d :
  pmmr_ok data cdata m -> pm_dirty m = true -> wf V1 d -> length (Serialized V1 d) = N -> n_ok (length data + 1) ->
  exists m', PruneableMMR_AppendLeaf Blake2b d m = (Ok tt, m') /\ pmmr_ok (data ++ [d]) cdata m' /\
    pm_dirty m' = true /\ pm_pruneList m' = pm_pruneList m /\
    pm_leafSet m' = LeafSet_Add (LeafIndex_At (length data)) (pm_leafSet m).
Proof.
  intros Hok Hdirty Hwf Hlen Hn1. pose proof (pmmr_GetSize _ _ _ Hok) as Hsize.
  destruct Hok as (hw & hc & rw & rc & Hm). pose proof (pmmr_committed_size _ _ _ _ _ _ _ Hm).
  pose proof (data_file_append _ _ _ _ _ _ _ _ Hm Hlen) as Hd'.
  destruct Hm as [Hh Hd Hv Hc Hpr _]. pose proof Hv as [Hp Hn Hdata (l & Ht & ->) Hr].
  pose proof (n_ok_bound _ Hn). pose proof (n_ok_bound _ Hn1).
  destruct (AddHashes_stored Blake2b (Some (pm_pruneList m)) Blake2b_length (leaf_bytes data) (Serialized V1 d) l hc (pm_hashFile m))
    as (l' & f' & E & Hf' & Ht'); rewrite ?leaf_bytes_length; cbn [pl_ok pl_room]; try done; try lia.
  { destruct Hn1. lia. }
  unfold PruneableMMR_AppendLeaf, mbind, ST_bind, st_get, st_modify, st_zoom. rewrite Hsize.
  pm_cbn. rewrite E. eexists. split; [done|]. pm_cbn.
  split; [|split; [done|split; [done|]]].
  - exists (stored (Some (pm_pruneList m)) l'), hc, (rw ++ [Serialized V1 d]), rc.
    constructor; pm_cbn; [done|done| |done|done|intros; congruence].
    constructor.
    + rewrite length_app. simpl length. eapply prune_wf_mono; [|apply Hp]. lia.
    + rewrite length_app. simpl length. by replace (Z.of_nat (length data + 1)) with (length data + 1) by lia.
    + apply Forall_app. split; [done|]. by constructor.
    + exists l'. split; [|done]. unfold leaf_bytes. rewrite map_app. done.
    + rewrite view_records_snoc by done. by rewrite Hr.
  - f_equal. change (LeafIndex_From (Index_At (mmr_size (length data)))) with (LeafIndex_AtPos (mmr_size (length data))).
    apply LeafIndex_AtPos_leaf; [lia|]. unfold pos_ok. lia.
Qed.

(** [Append] is [AppendLeaf] on a dirty MMR. *)
Lemma Append_AppendLeaf d m : PruneableMMR_Append Blake2b d m = PruneableMMR_AppendLeaf Blake2b d (pm_SetDirty true m).
Proof.
  unfold PruneableMMR_Append, PruneableMMR_AppendLeaf, mbind, ST_bind, st_get, st_modify, PruneableMMR_GetSize.
  cbn [pm_SetDirty pm_hashFile pm_pruneList]. by rewrite Z.add_comm.
Qed.

(** *** Appending a pruned subtree *)

(** The loop adds the parents above the subtree that it completes. *)
Lemma AppendPrunedSubtree_loop_ok p leaves (fuel : nat) (h : nat) j l c (f : F) :
  0 <= j -> (j + 1) * 2 ^ h = length leaves -> length leaves < 2 ^ 50 -> (60 <= fuel + h)%nat ->
  prune_wf p (length leaves) -> mmr_size (length leaves) + 1 < 2 ^ 32 ->
  (forall (h' : nat) k, 0 <= k -> (h <= h')%nat -> (2 * k + 2) * 2 ^ h' = length leaves -> visible p (node_pos h' (2 * k)) = true) ->
  (forall q, node_pos h j < q -> visible p q = true) ->
  hf_repr (stored (Some p) l) c f -> tree_upto Blake2b leaves (node_pos h j + 1) l ->
  length c < 2 ^ 32 ->
  exists l' f', AppendPrunedSubtree_loop Blake2b fuel (Index_At (node_pos h j + 1)) (node_pos h j)
      (node_hash Blake2b leaves h j) p f = (Ok tt, f') /\
    hf_repr (stored (Some p) l') c f' /\ tree_hashes Blake2b leaves l'.
Proof.
  intros Hj Hn Hb Hfuel Hp Hr. revert h j l f Hj Hn Hfuel.
  induction fuel as [|fuel IH]; intros h j l f Hj Hn Hfuel Hleft Hnew Hf Hl Hc.
  { assert (2 ^ 60 <= 2 ^ h) by (apply Z.pow_le_mono_r; lia). nia. }
  pose proof (pow2_pos h ltac:(lia)) as Hpow.
  assert (node_pos h j < mmr_size (length leaves)) as Hlt by (apply node_in_mmr; lia).
  pose proof (node_pos_nonneg h j ltac:(lia) Hj) as Hnn.
  cbn [AppendPrunedSubtree_loop]. destruct (Z.odd j) eqn:Ej.
  - apply Z.odd_spec in Ej as [k ->].
    assert (node_pos (S h) k = node_pos h (2 * k + 1) + 1) as Epos.
    { rewrite <- node_pos_parent_right by lia. f_equal. lia. }
    assert ((k + 1) * 2 ^ S h = length leaves) as Hn' by (rewrite pow2_S; lia).
    pose proof (proj2 (node_in_mmr (S h) k (length leaves) ltac:(lia) ltac:(lia) ltac:(lia)) ltac:(lia)) as Hlt'.
    pose proof (node_pos_mono h (2 * k) (2 * k + 1) ltac:(lia) ltac:(lia)).
    pose proof (Hleft h k ltac:(lia) ltac:(lia) ltac:(lia)) as Hs.
    rewrite <- Epos in *. rewrite Index_At_node by (lia || unfold pos_ok; lia).
    assert (Index_IsLeaf (mkIndex (node_pos (S h) k) (S h)) = false) as -> by (apply Z.eqb_neq; simpl; lia).
    replace (mkIndex (node_pos (S h) k) (S h)) with (mkIndex (node_pos (h + 1) k) (h + 1)) by (f_equal; f_equal; lia).
    assert (fam_ok (node_pos (h + 1) k)) as Hfam.
    { replace (h + 1) with (Z.of_nat (S h)) by lia. unfold fam_ok. lia. }
    rewrite Index_GetLeftChild_node, Index_GetRightChild_node by (lia || exact Hfam).
    cbn [m_position]. rewrite Z.eqb_refl. cbn [negb].
    unfold mbind, ST_bind, st_get, st_lift, st_modify.
    rewrite (GetHashAt_tree Blake2b (Some p) (length leaves) leaves (node_pos (S h) k) l c f h (2 * k) h)
      by (cbn [pl_ok pl_room stored_at]; (done || lia)).
    unfold Index_add. cbn [m_position].
    replace (h + 1) with (Z.of_nat (S h)) by lia. rewrite uint_small by uint_solve.
    change (HashParentWithIndex Blake2b (node_hash Blake2b leaves h (2 * k)) (node_hash Blake2b leaves h (2 * k + 1)) (node_pos (S h) k))
      with (node_hash Blake2b leaves (S h) k).
    apply (IH (S h) k (l ++ [node_hash Blake2b leaves (S h) k])); [lia|lia|lia| | | | |done].
    + intros h' k' Hk' Hh' E. apply Hleft; [done|lia|done].
    + intros q Hq. apply Hnew. lia.
    + destruct Hl as [Hlen _].
      assert (stored (Some p) (l ++ [node_hash Blake2b leaves (S h) k]) = stored (Some p) l ++ [node_hash Blake2b leaves (S h) k]) as ->.
      { unfold stored. rewrite select_app. f_equal. cbn [select stored_at]. by rewrite Hnew by lia. }
      pose proof (stored_length (Some p) l).
      apply hf_add_ok; [done|by apply node_hash_length|]. unfold hf_room. lia.
    + apply tree_upto_snoc; [lia|lia|unfold pos_ok; lia|done|done].
  - assert (Z.even j = true) as Ee by (by rewrite <- Z.negb_odd, Ej). apply Z.even_spec in Ee as [k ->].
    rewrite node_pos_next_left by lia. rewrite Hn.
    assert (node_pos h (2 * k) + 1 = mmr_size (length leaves)) as E.
    { rewrite node_pos_next_left, Hn by lia. apply node_pos_leaf. }
    rewrite Index_At_node by (lia || unfold pos_ok; rewrite node_pos_leaf; lia).
    exists l, f. split; [done|]. split; [done|]. rewrite E in Hl. by apply tree_upto_all; [lia|].
Qed.

(** The nodes hidden by a new root, and the leaves. *)
Lemma stored_new_root p p' l (a : Z) q x :
  0 <= a <= q -> l !! Z.to_nat q = Some x ->
  (forall k, visible p' k = visible p k && negb ((a <=? k) && (k <? q))) ->
  (forall k, a <= k -> visible p k = true) ->
  stored (Some p') (take (Z.to_nat (q + 1)) l) = stored (Some p) (take (Z.to_nat a) l) ++ [x].
Proof.
  intros Haq Hx Hv Hbeyond. pose proof (lookup_lt_Some _ _ _ Hx) as Hlen.
  replace (Z.to_nat (q + 1)) with (S (Z.to_nat q)) by lia. rewrite (take_S_r _ _ x) by done.
  replace (Z.to_nat q) with (Z.to_nat a + Z.to_nat (q - a))%nat by lia. rewrite <- take_take_drop.
  unfold stored. cbn [stored_at]. rewrite !select_app, <- app_assoc.
  assert (length (take (Z.to_nat a) l) = a :> Z) as Ha by (rewrite length_take; lia).
  assert (length (take (Z.to_nat (q - a)) (drop (Z.to_nat a) l)) = q - a :> Z) as Hb
    by (rewrite length_take, length_drop; lia).
  f_equal; [|rewrite select_none].
  - apply select_ext. intros k Hk. rewrite Hv. destruct (Z.leb_spec a k); [lia|]. cbn [andb negb]. by rewrite andb_true_r.
  - cbn [select app]. rewrite length_app, Nat2Z.inj_add, Ha, Hb, Hv, Hbeyond by lia.
    destruct (Z.ltb_spec (0 + (a + (q - a))) q); [lia|]. by rewrite andb_false_r.
  - intros k Hk. rewrite Ha, Hb in Hk. rewrite Hv.
    destruct (Z.leb_spec a k); [|lia]. destruct (Z.ltb_spec k q); [|lia]. by rewrite andb_false_r.
Qed.

Lemma records_new_root p p' data sub (h : nat) i :
  (1 <= h)%nat -> 0 <= i -> length data = i * 2 ^ h :> Z -> length sub = 2 ^ h :> Z ->
  (forall k, visible p' k = visible p k && negb ((mmr_size (i * 2 ^ h) <=? k) && (k <? node_pos h i))) ->
  select (leaf_visible p') 0 (leaf_bytes (data ++ sub)) = select (leaf_visible p) 0 (leaf_bytes data).
Proof.
  intros Hh Hi Hd Hs Hv. unfold leaf_bytes. rewrite map_app, select_app, length_map.
  rewrite (select_none (leaf_visible p') (0 + length data)), app_nil_r.
  - apply select_ext. intros j Hj. rewrite length_map in Hj. unfold leaf_visible. rewrite Hv.
    pose proof (mmr_size_lt j (i * 2 ^ h) ltac:(lia)).
    destruct (Z.leb_spec (mmr_size (i * 2 ^ h)) (mmr_size j)); [lia|]. cbn [andb negb]. by rewrite andb_true_r.
  - intros j Hj. rewrite length_map in Hj. unfold leaf_visible. rewrite Hv.
    assert (mmr_size (i * 2 ^ h) <= mmr_size j < node_pos h i) by (apply leaf_below; lia).
    destruct (Z.leb_spec (mmr_size (i * 2 ^ h)) (mmr_size j)); [|lia].
    destruct (Z.ltb_spec (mmr_size j) (node_pos h i)); [|lia]. by rewrite andb_false_r.
Qed.

(** What the new root leaves visible: the left siblings above it, and all that follows. *)
Lemma new_root_visible p p' (h : nat) i :
  0 <= i -> prune_wf p (i * 2 ^ h) ->
  (forall k, visible p' k = visible p k && negb ((mmr_size (i * 2 ^ h) <=? k) && (k <? node_pos h i))) ->
  (forall (h' : nat) k, 0 <= k -> (h <= h')%nat -> (2 * k + 2) * 2 ^ h' = (i + 1) * 2 ^ h -> visible p' (node_pos h' (2 * k)) = true) /\
  (forall q, node_pos h i < q -> visible p' q = true) /\
  0 <= mmr_size (i * 2 ^ h) <= node_pos h i /\
  (forall k, mmr_size (i * 2 ^ h) <= k -> visible p k = true).
Proof.
  intros Hi Hp Hvis. pose proof (subtree_first h i ltac:(lia) Hi) as Hfirst. pose proof (pow2_pos h ltac:(lia)) as Hpow.
  rewrite pow2_1 in Hfirst by lia. pose proof (mmr_size_ge (i * 2 ^ h) ltac:(nia)).
  pose proof (fun k => visible_beyond p (i * 2 ^ h) k ltac:(nia) Hp) as Hbeyond.
  split; [|split; [|split; [nia|exact Hbeyond]]].
  - intros h' k Hk Hh' E. rewrite Hvis.
    assert (2 ^ h <= 2 ^ h') by (apply Z.pow_le_mono_r; lia).
    destruct (visible p (node_pos h' (2 * k))) eqn:Ev.
    + assert (node_pos h' (2 * k) < mmr_size (i * 2 ^ h)) by (apply node_in_mmr; nia).
      destruct (Z.leb_spec (mmr_size (i * 2 ^ h)) (node_pos h' (2 * k))); [lia|done].
    + apply (hidden_parent _ (i * 2 ^ h)) in Ev; [|lia|lia|done]. rewrite half_even, pow2_1 in Ev by lia. nia.
  - intros q Hq. rewrite Hvis, Hbeyond by lia. destruct (Z.ltb_spec q (node_pos h i)); [lia|]. by rewrite andb_false_r.
Qed.

(** The hashes up to the new root: the tree of more leaves, of which one more is stored. *)
Lemma new_root_hashes p p' data sub (h : nat) i l :
  0 <= i -> length data = i * 2 ^ h :> Z -> length sub = 2 ^ h :> Z -> length (data ++ sub) < 2 ^ 40 ->
  prune_wf p (i * 2 ^ h) -> tree_hashes Blake2b (leaf_bytes data) l ->
  (forall k, visible p' k = visible p k && negb ((mmr_size (i * 2 ^ h) <=? k) && (k <? node_pos h i))) ->
  exists l', tree_upto Blake2b (leaf_bytes (data ++ sub)) (node_pos h i + 1) l' /\
    stored (Some p') l' = stored (Some p) l ++ [node_hash Blake2b (leaf_bytes (data ++ sub)) h i].
Proof.
  intros Hi Hd Hs Hb Hp Ht Hvis. destruct (new_root_visible p p' h i Hi Hp Hvis) as (_ & _ & Hlow & Hbeyond).
  assert (length (data ++ sub) = (i + 1) * 2 ^ h :> Z) as Hfull by (rewrite length_app; lia).
  pose proof (node_pos_nonneg h i ltac:(lia) Hi) as Hnn. pose proof (pow2_pos h ltac:(lia)).
  pose proof (proj2 (node_in_mmr h i ((i + 1) * 2 ^ h) ltac:(lia) Hi ltac:(nia)) ltac:(lia)) as Hlt.
  assert (leaf_bytes (data ++ sub) = leaf_bytes data ++ leaf_bytes sub) as Eleaves by apply map_app.
  set (leaves := leaf_bytes (data ++ sub)) in *.
  assert (length leaves = (i + 1) * 2 ^ h :> Z) as Hleaves by (unfold leaves; by rewrite leaf_bytes_length).
  destruct (tree_file_ok Blake2b leaves Blake2b_length ltac:(lia)) as (l' & _ & Ht').
  assert (take (Z.to_nat (mmr_size (i * 2 ^ h))) l' = l) as El.
  { rewrite <- Hd. rewrite <- (leaf_bytes_length data). apply (tree_hashes_unique Blake2b (leaf_bytes data)); [rewrite leaf_bytes_length; lia| |done].
    apply (tree_hashes_prefix Blake2b (leaf_bytes data) (leaf_bytes sub)); [rewrite <- Eleaves; lia|by rewrite <- Eleaves]. }
  exists (take (Z.to_nat (node_pos h i + 1)) l'). split.
  - destruct Ht' as [Hl' Hnodes]. rewrite Hleaves in Hl'. split; [rewrite length_take; lia|]. intros h' i' Hi' Hin Hlt'.
    pose proof (node_pos_nonneg h' i' ltac:(lia) Hi'). rewrite lookup_take_lt by lia. by apply Hnodes.
  - rewrite <- El. apply stored_new_root; [done| |done|done]. apply Ht'; lia.
Qed.

Lemma pmmr_AppendPrunedSubtree data sub cdata m (h : nat) i :
  pmmr_ok data cdata m -> pm_dirty m = true -> (1 <= h)%nat -> 0 <= i ->
  length data = i * 2 ^ h :> Z -> length sub = 2 ^ h :> Z ->
  Forall (fun d => wf V1 d /\ length (Serialized V1 d) = N) sub -> n_ok (length (data ++ sub)) ->
  exists m', AppendPrunedSubtree Blake2b (node_hash Blake2b (leaf_bytes (data ++ sub)) h i) (node_pos h i) m = (Ok tt, m') /\
    pmmr_ok (data ++ sub) cdata m' /\ pm_dirty m' = true /\ pm_leafSet m' = pm_leafSet m /\
    Roaring_elems (m_prunedRoots (pm_pruneList m')) = Roaring_elems (m_prunedRoots (pm_pruneList m)) ++ [node_pos h i + 1].
Proof.
  intros (hw & hc & rw & rc & Hm) Hdirty Hh Hi Hd Hs Hsub Hn'.
  pose proof (pmmr_committed_size _ _ _ _ _ _ _ Hm). destruct Hm as [Hhf Hdf Hv Hc Hpr _].
  pose proof Hv as [Hp Hn Hdata (l & Ht & ->) Hr]. pose proof (n_ok_bound _ Hn'). destruct Hn' as [Hn0' Hn'].
  assert (length (data ++ sub) = (i + 1) * 2 ^ h :> Z) as Hfull by (rewrite length_app; lia). rewrite Hd in Hp.
  pose proof (node_pos_nonneg h i ltac:(lia) Hi) as Hnn. pose proof (pow2_pos h ltac:(lia)).
  pose proof (proj2 (node_in_mmr h i ((i + 1) * 2 ^ h) ltac:(lia) Hi ltac:(nia)) ltac:(lia)) as Hlt. rewrite <- Hfull in Hlt.
  destruct (AddPrunedRoot_wf (pm_pruneList m) h i ltac:(lia) Hi Hp ltac:(lia)) as (Hp' & Hroots & Hvis).
  destruct (AddPrunedRoot_file (pm_pruneList m) (node_pos h i)) as [Hfile Hdirty']; [apply Hp|lia|lia|].
  unfold AppendPrunedSubtree, mbind, ST_bind, st_get, st_modify, st_zoom. pm_cbn.
  set (p' := PruneList_AddPrunedRoot (Index_At (node_pos h i)) (pm_pruneList m)) in *.
  rewrite (uint_small 64 (node_pos h i + 1)) by uint_solve.
  destruct (new_root_visible _ p' h i Hi Hp Hvis) as (Hleft & Hnew & _).
  destruct (new_root_hashes _ p' data sub h i l Hi Hd Hs ltac:(lia) Hp Ht Hvis) as (l1 & Hl1 & Est).
  set (leaves := leaf_bytes (data ++ sub)) in *.
  assert (length leaves = length (data ++ sub)) as Hleaves by apply leaf_bytes_length.
  destruct (AppendPrunedSubtree_loop_ok p' leaves 64 h i l1 hc (hf_AddData (node_hash Blake2b leaves h i) (pm_hashFile m)))
    as (l2 & f2 & E2 & Hf2 & Ht2); rewrite ?Hleaves, ?Hfull; try done; try lia.
  - rewrite <- Hfull. lia.
  - rewrite Est. pose proof (stored_length (Some (pm_pruneList m)) l).
    apply hf_add_ok; [done|by apply node_hash_length|]. unfold hf_room. lia.
  - rewrite E2. eexists. split; [done|]. pm_cbn. split; [|done].
    exists (stored (Some p') l2), hc, rw, rc. constructor; pm_cbn; [done|done| |by rewrite Hfile| |intros; congruence].
    + constructor; [by rewrite Hfull|done|by apply Forall_app|by exists l2|].
      by rewrite (records_new_root (pm_pruneList m) p' data sub h i).
    + intros Hclean. destruct Hdirty' as [Heq|Heq]; [|congruence].
      rewrite Heq in Hroots. apply (f_equal length) in Hroots. rewrite length_app in Hroots. simpl in Hroots. lia.
Qed.

(** *** Rewinding *)

Lemma no_roots p : prune_wf p 0 -> Roaring_elems (m_prunedRoots p) = [].
Proof.
  intros [_ _ _ Hr]. destruct Hr as [|w l (h & i & Hh & Hi & _ & Hin) _]; [done|].
  pose proof (pow2_pos h Hh). nia.
Qed.

(** The shifts that [Rewind] uses: everything hidden lies before. *)
Lemma shifts_before p k : n_ok k -> prune_wf p k ->
  PruneList_GetShift (Index_At (mmr_size k - 1)%u64) p = skipped (visible p) 0 (mmr_size k) /\
  PruneList_GetLeafShift (Index_At (mmr_size k - 1)%u64) p = skipped (leaf_visible p) 0 k.
Proof.
  intros Hn Hp. pose proof (n_ok_bound _ Hn). destruct Hn as [Hk Hb].
  destruct (decide (k = 0)) as [->|Hk0].
  - pose proof (no_roots p Hp) as E. unfold PruneList_GetShift, PruneList_GetLeafShift.
    by rewrite roaring_isEmpty, bool_decide_eq_true_2.
  - pose proof (mmr_size_pos k ltac:(lia)). rewrite uint_small by uint_solve.
    split; [apply (GetShift_all p k)|apply (GetLeafShift_all p k)]; (done || lia).
Qed.

Lemma view_take data p hw rw k :
  view data p hw rw -> 0 <= k <= length data -> prune_wf p k ->
  view (take (Z.to_nat k) data) p (take (Z.to_nat (mmr_size k - skipped (visible p) 0 (mmr_size k))) hw)
    (take (Z.to_nat (k - skipped (leaf_visible p) 0 k)) rw).
Proof.
  intros [_ Hn Hdata (l & Ht & ->) ->] Hk Hp. pose proof (n_ok_bound _ Hn). pose proof (mmr_size_mono k (length data) Hk).
  pose proof Ht as [Hl _]. rewrite leaf_bytes_length in Hl. pose proof (mmr_size_ge k ltac:(lia)).
  assert (length (take (Z.to_nat k) data) = k :> Z) as Ek by (rewrite length_take; lia).
  assert (leaf_bytes data = leaf_bytes (take (Z.to_nat k) data) ++ leaf_bytes (drop (Z.to_nat k) data)) as E.
  { unfold leaf_bytes. by rewrite <- map_app, take_drop. }
  constructor.
  - by rewrite Ek.
  - rewrite Ek. eapply n_ok_mono; [|apply Hn]. lia.
  - by apply Forall_take.
  - exists (take (Z.to_nat (mmr_size k)) l). split.
    + rewrite <- Ek at 2. rewrite <- (leaf_bytes_length (take (Z.to_nat k) data)).
      apply (tree_hashes_prefix Blake2b _ (leaf_bytes (drop (Z.to_nat k) data))); [|by rewrite <- E].
      rewrite <- E, leaf_bytes_length. lia.
    + apply (select_take (visible p)). lia.
  - rewrite select_take by (rewrite leaf_bytes_length; lia). f_equal. unfold leaf_bytes. by rewrite <- firstn_map.
Qed.

Lemma pmmr_Rewind data cdata m k adds :
  pmmr_ok data cdata m -> 0 <= k <= length data -> prune_wf (pm_pruneList m) k ->
  exists m', PruneableMMR_Rewind N k adds m = (Ok tt, m') /\ pmmr_ok (take (Z.to_nat k) data) cdata m' /\
    pm_dirty m' = true /\ pm_pruneList m' = pm_pruneList m /\ pm_leafSet m' = LeafSet_Rewind k adds (pm_leafSet m).
Proof.
  intros (hw & hc & rw & rc & [Hh Hd Hv Hc Hpr _]) Hk Hp. pose proof Hv as [Hp' Hn _ _ _].
  pose proof (n_ok_bound _ Hn). pose proof (n_ok_mono _ k Hk Hn) as Hnk. pose proof (n_ok_bound _ Hnk).
  destruct (shifts_before (pm_pruneList m) k Hnk Hp) as [Es Els].
  pose proof (view_take _ _ _ _ k Hv Hk Hp) as Hv'.
  set (a := mmr_size k - skipped (visible (pm_pruneList m)) 0 (mmr_size k)) in *.
  set (b := k - skipped (leaf_visible (pm_pruneList m)) 0 k) in *.
  pose proof (skipped_bound (visible (pm_pruneList m)) 0 (mmr_size k) ltac:(lia)).
  pose proof (skipped_bound (leaf_visible (pm_pruneList m)) 0 k ltac:(lia)).
  assert (a <= length hw /\ b <= length rw) as [Ha Hb].
  { pose proof Hv as [_ _ _ (l & [Hl _] & ->) ->]. pose proof (mmr_size_mono k (length data) Hk).
    rewrite leaf_bytes_length in Hl. unfold a, b, stored.
    rewrite !select_length, leaf_bytes_length, Hl. cbn [stored_at].
    pose proof (skipped_mono (visible (pm_pruneList m)) 0 (mmr_size k) (mmr_size (length data)) ltac:(lia)).
    pose proof (skipped_mono (leaf_visible (pm_pruneList m)) 0 k (length data) ltac:(lia)). lia. }
  unfold PruneableMMR_Rewind, mbind, ST_bind, st_get, st_modify, st_zoom, LeafIndex_GetPosition, Index_sub. pm_cbn.
  rewrite LeafIndex_At_pos by (unfold pos_ok; lia). cbn [m_nodeIndex m_position].
  rewrite Es, Els. rewrite (uint_small 64 (mmr_size k - skipped _ _ _)) by uint_solve.
  rewrite (uint_small 64 (k - skipped _ _ _)) by uint_solve. fold a b.
  pose proof (hf_rewind_ok hw hc _ a Hh ltac:(lia)) as Hrh. destruct (hf_Rewind a (pm_hashFile m)) as [r1 f1].
  destruct (Z.leb_spec a (length hw)); [|lia]. destruct Hrh as [-> Hrh].
  pose proof (DataFile_Rewind_ok N rw rc _ b Hd ltac:(lia) ltac:(nia)) as Hrd. pm_cbn.
  destruct (DataFile_Rewind N b (pm_dataFile m)) as [r2 f2].
  destruct (Z.leb_spec b (length rw)); [|lia]. destruct Hrd as [-> Hrd].
  eexists. split; [done|]. pm_cbn. split; [|done].
  exists (take (Z.to_nat a) hw), hc, (take (Z.to_nat b) rw), rc. constructor; pm_cbn; (done || congruence).
Qed.

Lemma pmmr_RewindToEmpty data cdata m :
  pmmr_ok data cdata m -> pm_dirty m = true -> prune_wf (pm_pruneList m) 0 ->
  exists m', RewindToEmpty N m = (Ok tt, m') /\ pmmr_ok [] cdata m' /\
    pm_dirty m' = true /\ pm_pruneList m' = pm_pruneList m.
Proof.
  intros (hw & hc & rw & rc & [Hh Hd Hv Hc Hpr _]) Hdirty Hp.
  pose proof (view_take _ _ _ _ 0 Hv ltac:(lia) Hp) as Hv'.
  unfold RewindToEmpty, mbind, ST_bind, st_modify, st_zoom.
  pose proof (hf_rewind_ok hw hc _ 0 Hh ltac:(lia)) as Hrh. destruct (hf_Rewind 0 (pm_hashFile m)) as [r1 f1].
  destruct (Z.leb_spec 0 (length hw)); [|lia]. destruct Hrh as [-> Hrh].
  pose proof (DataFile_Rewind_ok N rw rc _ 0 Hd ltac:(lia) ltac:(lia)) as Hrd. pm_cbn.
  destruct (DataFile_Rewind N 0 (pm_dataFile m)) as [r2 f2].
  destruct (Z.leb_spec 0 (length rw)); [|lia]. destruct Hrd as [-> Hrd].
  eexists. split; [done|]. pm_cbn. split; [|done].
  exists [], hc, [], rc. constructor; pm_cbn; (done || congruence).
Qed.

(** *** Commit and rollback *)

Lemma view_same_roots data p p' hw rw :
  view data p hw rw -> caches_ok p' -> Roaring_elems (m_prunedRoots p') = Roaring_elems (m_prunedRoots p) ->
  view data p' hw rw.
Proof.
  intros [[Hw _ Hd Hr] Hn Hdata (l & Ht & ->) ->] Hc E.
  assert (forall q, visible p q = visible p' q) as Hv by (intros q; unfold visible; by rewrite E).
  constructor; [|done|done| |].
  - constructor; [by unfold wires_ok; rewrite E|done|by rewrite E|by rewrite E].
  - exists l. split; [done|]. apply select_ext. intros q _. apply Hv.
  - apply select_ext. intros q _. apply Hv.
Qed.

Lemma pmmr_Commit data cdata m : pmmr_ok data cdata m ->
  exists m', PruneableMMR_Commit m = (Ok tt, m') /\ pmmr_ok data data m' /\ pm_dirty m' = false /\
    pm_leafSet m' = (if pm_dirty m then LeafSet_Commit (pm_leafSet m) else pm_leafSet m) /\
    (if pm_dirty m then
       Roaring_elems (m_prunedRoots (pm_pruneList m')) = Roaring_elems (m_prunedRoots (pm_pruneList m)) /\
       forall q, pl_file q = pl_file (pm_pruneList m') ->
         Roaring_elems (m_prunedRoots (PruneList_Rollback q)) = Roaring_elems (m_prunedRoots (pm_pruneList m))
     else m' = m).
Proof.
  intros (hw & hc & rw & rc & [Hh Hd Hv Hc Hpr Hclean]).
  unfold PruneableMMR_Commit, mbind, ST_bind, st_get, st_modify, st_zoom. destruct (pm_dirty m) eqn:Edirty.
  - destruct (hf_commit_ok hw hc _ Hh) as (f1 & -> & H1). pm_cbn.
    destruct (DataFile_Commit_ok N rw rc _ Hd) as (f2 & -> & H2 & _). pm_cbn.
    eexists. split; [done|]. pm_cbn.
    destruct (pl_dirty (pm_pruneList m)) eqn:Ep.
    + destruct (Flush_stores (pm_pruneList m)) as (E1 & Hc1 & Er & _ & Hrb); [apply Hv|done|].
      split; [|split; [done|split; [done|split; [done|by apply Hrb]]]].
      exists hw, hw, rw, rw. constructor; pm_cbn; [done|done| | | |done].
      * by apply (view_same_roots _ (pm_pruneList m)).
      * intros q Hq. destruct (Hrb q Hq). by apply (view_same_roots _ (pm_pruneList m)).
      * intros _ q Hq. rewrite Er. by apply Hrb.
    + assert (PruneList_Flush (pm_pruneList m) = pm_pruneList m) as -> by (unfold PruneList_Flush; by rewrite Ep).
      specialize (Hpr eq_refl). split; [|by repeat split; [..|apply Hpr]].
      exists hw, hw, rw, rw. constructor; pm_cbn; [done|done|done| |intros _; by apply Hpr|done].
      intros q Hq. apply (view_same_roots _ (pm_pruneList m)); [done| |by apply Hpr].
      apply (view_prunes _ _ _ _ _ _ _ (Hc q Hq)).
  - destruct (Hclean eq_refl) as (-> & -> & ->). exists m. split; [done|]. split; [|done].
    exists hc, hc, rc, rc. by constructor.
Qed.

Lemma pmmr_Rollback data cdata m : pmmr_ok data cdata m ->
  let m' := PruneableMMR_Rollback m in
  pmmr_ok cdata cdata m' /\ pm_dirty m' = false /\
  pm_leafSet m' = (if pm_dirty m then LeafSet_Rollback (pm_leafSet m) else pm_leafSet m).
Proof.
  intros (hw & hc & rw & rc & [Hh Hd Hv Hc Hpr Hclean]). unfold PruneableMMR_Rollback.
  destruct (pm_dirty m) eqn:Edirty.
  - split; [|done]. exists hc, hc, rc, rc.
    constructor; pm_cbn; [by eapply hf_rollback_ok|by eapply DataFile_Rollback_ok|by apply Hc| | |done].
    + intros q Hq. rewrite Rollback_file in Hq. by apply Hc.
    + intros _ q Hq. rewrite Rollback_file in Hq. f_equal. apply Rollback_same_file; [|done].
      intros q' Hq'. apply (view_prunes _ _ _ _ _ _ _ (Hc q' Hq')).
  - destruct (Hclean eq_refl) as (-> & -> & ->). split; [|done]. exists hc, hc, rc, rc. by constructor.
Qed.

(** *** Applying a segment *)

Lemma GetSubtreeFirstPosition_node (h : nat) i :
  0 <= i -> node_pos h i < 2 ^ 32 -> GetSubtreeFirstPosition (Index_At (node_pos h i)) = mmr_size (i * 2 ^ h).
Proof.
  intros Hi Hb. pose proof (node_pos_nonneg h i ltac:(lia) Hi). unfold GetSubtreeFirstPosition. cbn [Index_At m_position m_height].
  pose proof (height_node (node_pos h i) ltac:(lia)). rewrite (uint_small 64 (CalculateHeight _ + 1)) by uint_solve.
  rewrite node_count_low by lia. apply root_low_node; [lia|done|unfold pos_ok; lia].
Qed.

Section apply.
Context (data : list D) (s : Segment D) (targetMMRSize : Z) (pBitmap : option BitmapAccumulator).

Definition hash_needed (pos : Z) : bool :=
  match pBitmap with Some b => IsRequiredByBitmap b (Index_At pos) targetMMRSize | None => false end.
Definition leaf_needed (pos : Z) : bool :=
  match pBitmap with Some b => IsLeafRequiredByBitmap b (Index_At pos) targetMMRSize | None => true end.

(** [cover a nodes b]: the nodes, in order, carry the MMR of [data] on from its
    first [a] leaves to its first [b]: leaves one by one, and the hashes of
    subtrees none of whose leaves the bitmap requires.  Nodes the local MMR has
    already, and those the bitmap makes superfluous, may come in between; and a
    subtree may replace the first leaf, when that is all there is. *)
Inductive cover : Z -> list SegmentNode -> Z -> Prop :=
| cover_nil a : cover a [] a
| cover_leaf a k d nodes b :
    sg_leaves s !! k = Some d -> data !! Z.to_nat a = Some d -> leaf_needed (mmr_size a) = true ->
    cover (a + 1) nodes b -> cover a (mkSegmentNode k (mmr_size a) false :: nodes) b
| cover_pruned (h : nat) i k nodes b :
    (1 <= h)%nat -> 0 <= i -> (i + 1) * 2 ^ h <= length data -> hash_needed (node_pos h i) = false ->
    sg_hashes s !! k = Some (node_hash Blake2b (leaf_bytes data) h i) ->
    cover ((i + 1) * 2 ^ h) nodes b -> cover (i * 2 ^ h) (mkSegmentNode k (node_pos h i) true :: nodes) b
| cover_first (h : nat) k nodes b :
    (1 <= h)%nat -> 2 ^ h <= length data -> pBitmap <> None -> hash_needed (node_pos h 0) = false ->
    sg_hashes s !! k = Some (node_hash Blake2b (leaf_bytes data) h 0) ->
    cover (2 ^ h) nodes b -> cover 1 (mkSegmentNode k (node_pos h 0) true :: nodes) b
| cover_present a node nodes b :
    sn_position node < mmr_size a -> cover a nodes b -> cover a (node :: nodes) b
| cover_spent a k pos nodes b :
    leaf_needed pos = false -> cover a nodes b -> cover a (mkSegmentNode k pos false :: nodes) b
| cover_superfluous a k pos nodes b :
    hash_needed pos = true -> cover a nodes b -> cover a (mkSegmentNode k pos true :: nodes) b.

Hypothesis data_ok : Forall (fun d => wf V1 d /\ length (Serialized V1 d) = N) data.
Hypothesis data_size : n_ok (length data).

(** The states between the nodes. *)
Record apply_inv (cdata : list D) (a : Z) m : Prop := {
  ai_range : 0 <= a <= length data;
  ai_ok : pmmr_ok (take (Z.to_nat a) data) cdata m;
  ai_dirty : pm_dirty m = true;
  ai_first : a = 1 -> Roaring_elems (m_prunedRoots (pm_pruneList m)) = [];
}.

Lemma apply_inv_size cdata a m : apply_inv cdata a m -> PruneableMMR_GetSize m = mmr_size a.
Proof.
  intros [Ha Hok _ _]. rewrite (pmmr_GetSize _ _ _ Hok), length_take. f_equal. lia.
Qed.

(** Adding the subtree [(h, i)] to the MMR of the leaves before it. *)
Lemma apply_hash_ok cdata m (h : nat) i k :
  (1 <= h)%nat -> 0 <= i -> (i + 1) * 2 ^ h <= length data ->
  sg_hashes s !! k = Some (node_hash Blake2b (leaf_bytes data) h i) ->
  pmmr_ok (take (Z.to_nat (i * 2 ^ h)) data) cdata m -> pm_dirty m = true ->
  exists m', apply_hash Blake2b s (mkSegmentNode k (node_pos h i) true) m = (Ok true, m') /\
    apply_inv cdata ((i + 1) * 2 ^ h) m'.
Proof.
  intros Hh Hi Hin Hk Hok Hdirty. pose proof (pow2_pos h ltac:(lia)).
  set (a := i * 2 ^ h) in *. assert ((i + 1) * 2 ^ h = a + 2 ^ h) as Eb by lia. rewrite Eb in *.
  assert (0 <= a) by (unfold a; nia).
  set (sub := take (Z.to_nat (2 ^ h)) (drop (Z.to_nat a) data)).
  assert (take (Z.to_nat a) data ++ sub = take (Z.to_nat (a + 2 ^ h)) data) as Etake.
  { unfold sub. rewrite take_take_drop. f_equal. lia. }
  assert (length (take (Z.to_nat a) data) = a :> Z) as La by (rewrite length_take; lia).
  assert (length sub = 2 ^ h :> Z) as Ls by (unfold sub; rewrite length_take, length_drop; lia).
  destruct (pmmr_AppendPrunedSubtree (take (Z.to_nat a) data) sub cdata m h i) as (m' & E & Hok' & Hd' & _ & _); try done.
  { apply Forall_take, Forall_drop, data_ok. }
  { rewrite Etake, length_take. eapply n_ok_mono; [|apply data_size]. lia. }
  assert (node_hash Blake2b (leaf_bytes (take (Z.to_nat a) data ++ sub)) h i = node_hash Blake2b (leaf_bytes data) h i) as Ehash.
  { rewrite <- (take_drop (Z.to_nat (a + 2 ^ h)) data) at 2. rewrite Etake. unfold leaf_bytes. rewrite map_app.
    symmetry. apply node_hash_prefix; [done|]. rewrite length_map, length_take. lia. }
  rewrite Ehash, Etake in *. exists m'. unfold apply_hash, mbind, ST_bind, st_lift. cbn [sn_index sn_position].
  rewrite Hk. cbn [of_option]. rewrite E. split; [done|]. constructor; [lia|done|done|].
  intros Ha1. assert (2 <= 2 ^ h) by (change 2 with (2 ^ 1) at 1; apply Z.pow_le_mono_r; lia). lia.
Qed.

Lemma apply_leaf_ok cdata a m k d :
  sg_leaves s !! k = Some d -> data !! Z.to_nat a = Some d -> apply_inv cdata a m ->
  exists m', apply_leaf Blake2b s (mkSegmentNode k (mmr_size a) false) (mmr_size a) m = (Ok true, m') /\
    apply_inv cdata (a + 1) m'.
Proof.
  intros Hk Hd [Ha Hok Hdirty Hfirst]. pose proof (lookup_lt_Some _ _ _ Hd).
  assert (length (take (Z.to_nat a) data) = a :> Z) as La by (rewrite length_take; lia).
  destruct (Forall_lookup_1 _ _ _ _ data_ok Hd) as [Hwf Hlen].
  destruct (pmmr_AppendLeaf (take (Z.to_nat a) data) cdata m d Hok Hdirty Hwf Hlen) as (m' & E & Hok' & Hd' & Hp' & _).
  { rewrite La. eapply n_ok_mono; [|apply data_size]. lia. }
  exists m'. unfold apply_leaf, mbind, ST_bind, st_lift. cbn [sn_index sn_position]. rewrite Z.eqb_refl, Hk.
  cbn [of_option]. rewrite E. split; [done|]. constructor; [lia| |done|].
  - replace (Z.to_nat (a + 1)) with (S (Z.to_nat a)) by lia. by rewrite (take_S_r _ _ d).
  - intros Ha1. rewrite Hp'. apply no_roots. destruct Hok as (hw & hc & rw & rc & [_ _ Hv _ _ _]).
    pose proof (view_prunes _ _ _ _ _ _ _ Hv) as Hp. rewrite La in Hp. by replace a with 0 in Hp by lia.
Qed.

Lemma ApplySegment_step_ok cdata a node nodes b m :
  cover a (node :: nodes) b -> apply_inv cdata a m ->
  exists a' m', ApplySegment_step Blake2b N s targetMMRSize pBitmap node m = (Ok true, m') /\
    apply_inv cdata a' m' /\ cover a' nodes b.
Proof.
  intros Hcover Hinv. pose proof (apply_inv_size _ _ _ Hinv) as Hsize. pose proof (n_ok_bound _ data_size) as Hn.
  unfold ApplySegment_step, mbind, ST_bind, st_get. rewrite Hsize.
  destruct (Z.ltb_spec (sn_position node) (mmr_size a)) as [Hlt|Hge].
  - exists a, m. split; [done|]. split; [done|].
    inversion Hcover; subst; cbn [sn_position] in *; try done; try lia.
    + pose proof (subtree_first h i ltac:(lia) ltac:(done)). pose proof (pow2_le_node h i ltac:(lia) ltac:(done)).
      pose proof (proj1 (node_in_mmr h i (i * 2 ^ h) ltac:(lia) ltac:(done) ltac:(pose proof (pow2_pos h ltac:(lia)); nia)) Hlt).
      pose proof (pow2_pos h ltac:(lia)). nia.
    + exfalso. revert Hlt. change (mmr_size 1) with 1. pose proof (pow2_le_node h 0 ltac:(lia) ltac:(lia)).
      assert (4 <= 2 ^ (h + 1)) by (change 4 with (2 ^ 2); apply Z.pow_le_mono_r; lia). lia.
  - inversion Hcover as [|? k d ? ? Hk Hd Hneed|h i k ? ? Hh Hi Hin Hneed Hk|h k ? ? Hh Hin Hbm Hneed Hk| |? k pos ? ? Hneed|? k pos ? ? Hneed];
      subst; cbn [sn_position sn_isHash] in *; try lia.
    + destruct (apply_leaf_ok cdata a m k d Hk Hd Hinv) as (m' & E & Hinv').
      exists (a + 1), m'. split; [|done]. rewrite <- E. unfold leaf_needed in Hneed. destruct pBitmap; [|done].
      by rewrite Hneed.
    + destruct (apply_hash_ok cdata m h i k Hh Hi Hin Hk) as (m' & E & Hinv'); [apply Hinv..|].
      exists ((i + 1) * 2 ^ h), m'. split; [|done]. rewrite <- E. unfold hash_needed in Hneed. destruct pBitmap; [|done].
      pose proof (proj2 (node_in_mmr h i (length data) ltac:(lia) Hi ltac:(lia)) Hin).
      unfold apply_pruned_hash. cbn [sn_position]. rewrite Hneed, GetSubtreeFirstPosition_node by (done || lia).
      by rewrite Z.ltb_irrefl, Z.eqb_refl.
    + destruct (pmmr_RewindToEmpty _ cdata m (ai_ok _ _ _ Hinv) (ai_dirty _ _ _ Hinv)) as (m1 & E1 & Hok1 & Hd1 & _).
      { destruct Hinv as [_ (hw & hc & rw & rc & [_ _ Hv _ _ _]) _ Hfirst]. specialize (Hfirst eq_refl).
        destruct (view_prunes _ _ _ _ _ _ _ Hv) as [H1 H2 H3 H4]. constructor; rewrite ?Hfirst; try done.
        by rewrite Hfirst in H3. }
      destruct (apply_hash_ok cdata m1 h 0 k Hh ltac:(lia) ltac:(lia) Hk Hok1 Hd1) as (m' & E & Hinv').
      exists (2 ^ h), m'. rewrite Z.add_0_l, Z.mul_1_l in Hinv'. split; [|done]. rewrite <- E.
      unfold hash_needed in Hneed. destruct pBitmap; [|done].
      pose proof (proj2 (node_in_mmr h 0 (length data) ltac:(lia) ltac:(lia) ltac:(lia)) ltac:(lia)).
      unfold apply_pruned_hash. cbn [sn_position]. rewrite Hneed, GetSubtreeFirstPosition_node by lia.
      change (mmr_size (0 * 2 ^ h) <? mmr_size 1) with true. change ((mmr_size (0 * 2 ^ h) =? 0) && (mmr_size 1 =? 1)) with true.
      unfold mbind, ST_bind. by rewrite E1.
    + exists a, m. split; [|done]. unfold leaf_needed in Hneed. destruct pBitmap; [|done]. by rewrite Hneed.
    + exists a, m. split; [|done]. unfold hash_needed in Hneed. destruct pBitmap; [|done].
      unfold apply_pruned_hash. cbn [sn_position]. by rewrite Hneed.
Qed.

Lemma ApplySegment_loop_ok cdata nodes a b m :
  cover a nodes b -> apply_inv cdata a m ->
  exists m', ApplySegment_loop Blake2b N nodes s targetMMRSize pBitmap m = (Ok true, m') /\ apply_inv cdata b m'.
Proof.
  revert a m. induction nodes as [|node nodes IH]; intros a m Hc Hinv.
  - inversion Hc; subst. by exists m.
  - destruct (ApplySegment_step_ok cdata a node nodes b m Hc Hinv) as (a' & m1 & E & Hinv' & Hc').
    destruct (IH a' m1 Hc' Hinv') as (m' & E' & Hinv''). exists m'.
    cbn [ApplySegment_loop]. unfold mbind, ST_bind. by rewrite E.
Qed.

End apply.

(** *** Positions and bits, as the properties state them *)

Lemma pmmr_visible data cdata m : pmmr_ok data cdata m -> forall idx, 0 <= m_position idx < mmr_size (length data) ->
  PruneList_IsCompacted idx (pm_pruneList m) = negb (visible (pm_pruneList m) (m_position idx)).
Proof.
  intros (hw & hc & rw & rc & [_ _ Hv _ _ _]) idx Hi. destruct Hv as [Hp [_ Hn] _ _ _].
  apply (visible_IsCompacted _ (length data)); (done || lia).
Qed.

Lemma pmmr_leaf_index data cdata m j : pmmr_ok data cdata m -> 0 <= j < length data ->
  LeafIndex_At j = mkLeafIndex j (mkIndex (mmr_size j) 0) /\ 0 <= mmr_size j < mmr_size (length data).
Proof.
  intros (hw & hc & rw & rc & [_ _ Hv _ _ _]) Hj. pose proof (n_ok_bound _ (view_size _ _ _ _ _ _ _ Hv)).
  pose proof (mmr_size_lt j (length data) ltac:(lia)). pose proof (mmr_size_ge j ltac:(lia)).
  split; [|lia]. apply LeafIndex_At_pos; [lia|]. unfold pos_ok. lia.
Qed.

Lemma UpdateLeafSet_bits (bitmap : BitmapAccumulator) (n : nat) f j :
  n < 2 ^ 58 -> 0 <= j < n ->
  BitmapFile_IsSet j (foldl (UpdateLeafSet_step (m_chunks bitmap)) f (seqZ 0 n)) = BitmapContains bitmap j.
Proof.
  clear N_small. intros Hb Hj.
  assert (forall f k, 0 <= k -> BitmapFile_IsSet j (UpdateLeafSet_step (m_chunks bitmap) f k) =
    if k =? j then BitmapContains bitmap j else BitmapFile_IsSet j f) as Hstep.
  { clear f. intros f k Hk. unfold UpdateLeafSet_step, LeafSet_Add, LeafSet_Remove, LeafSet_Contains.
    cbn [LeafIndex_At LeafIndex_new m_leafIndex].
    assert ((k / LEN_BITS <? length (m_chunks bitmap)) &&
      match m_chunks bitmap !! Z.to_nat (k / LEN_BITS) with Some c => BitmapChunk_IsSet (k mod LEN_BITS) c | None => false end
      = BitmapContains bitmap k) as ->.
    { unfold BitmapContains, ChunkIndex. destruct (m_chunks bitmap !! Z.to_nat (k / LEN_BITS)) eqn:E; [|apply andb_false_r].
      apply lookup_lt_Some in E. destruct (Z.ltb_spec (k / LEN_BITS) (length (m_chunks bitmap))); [done|].
      pose proof (Z.div_pos k LEN_BITS Hk ltac:(done)). lia. }
    destruct (BitmapContains bitmap k) eqn:Ec.
    - rewrite IsSet_Set by lia. destruct (Z.eqb_spec k j) as [->|]; [by rewrite Ec|done].
    - destruct (BitmapFile_IsSet k f) eqn:Eb.
      + rewrite IsSet_Unset by lia. destruct (Z.eqb_spec k j) as [->|]; [by rewrite Ec|done].
      + destruct (Z.eqb_spec k j) as [->|]; [by rewrite Ec, Eb|done]. }
  induction n as [|n IH]; [lia|]. rewrite seqZ_S, foldl_app, Z.add_0_l. cbn [foldl]. rewrite Hstep by lia.
  destruct (Z.eqb_spec n j) as [|]; [done|]. apply IH; lia.
Qed.

End pmmr.
