(* ===== verification/PruneableSpec.v ===== *)
(** * Specification of the prunable MMRs

    What [PruneableMMR] promises to the code that applies blocks: a list of
    leaves with a set of unspent ones, both with a committed copy.  The theorems
    say that the operations refine this machine, what its reads return, and
    which segments it applies. *)
From S2P Require Import Prelude BitUtil MMRIndex MMRUtil Serial BigInteger File Roaring PruneList BitmapFile MMRHash SegmentId SegmentProof Bitmap Segment PruneableMMR.

(** The state a block is applied to: the leaves, the unspent ones among them,
    and the same on disk. *)
Record PMSpec {D : Type} := mkPMSpec {
  sp_data : list D;
  sp_unspent : Z -> bool;
  sp_cdata : list D;
  sp_cunspent : Z -> bool;
}.
Arguments PMSpec : clear implicits.
Arguments mkPMSpec {D}.

Inductive pm_op (D : Type) :=
| PAppend (d : D)
| PRemove (j : Z)
| PRewind (k : Z) (adds : list Z)
| PCommit
| PRollback.
Arguments PAppend {D} d.
Arguments PRemove {D} j.
Arguments PRewind {D} k adds.
Arguments PCommit {D}.
Arguments PRollback {D}.

Definition pm_spec_step {D} (o : pm_op D) (s : PMSpec D) : result unit * PMSpec D :=
  match o with
  | PAppend d =>
      (Ok tt, mkPMSpec (sp_data s ++ [d]) (fun j => (length (sp_data s) =? j) || sp_unspent s j) (sp_cdata s) (sp_cunspent s))
  | PRemove j =>
      if sp_unspent s j
      then (Ok tt, mkPMSpec (sp_data s) (fun j' => negb (j =? j') && sp_unspent s j') (sp_cdata s) (sp_cunspent s))
      else (Throw TxHashSetException, s)
  | PRewind k adds =>
      (Ok tt, mkPMSpec (take (Z.to_nat k) (sp_data s)) (fun j => (j <? k) && (bool_decide (j ∈ adds) || sp_unspent s j))
        (sp_cdata s) (sp_cunspent s))
  | PCommit => (Ok tt, mkPMSpec (sp_data s) (sp_unspent s) (sp_data s) (sp_unspent s))
  | PRollback => (Ok tt, mkPMSpec (sp_cdata s) (sp_cunspent s) (sp_cdata s) (sp_cunspent s))
  end.

Section machine.
Context {F : Type} {HF : HashFile F} {HFL : HashFileLaws F} {R : Type} {HR : Roaring R} {HL : RoaringLaws R}.
Context {D : Type} {HD : Serializable D} {wf : EProtocolVersion -> D -> Prop} {HSL : SerializableLaws D wf}.
Context (Blake2b : bytes -> Hash) (N : nat).
Local Abbreviation PM := (PruneableMMR F R).
Local Abbreviation pmmr_ok := (pmmr_ok (wf := wf) Blake2b N).
Implicit Types (m : PM).

Definition pm_step (o : pm_op D) : ST PM unit :=
  match o with
  | PAppend d => PruneableMMR_Append Blake2b d
  | PRemove j => PruneableMMR_Remove (LeafIndex_At j)
  | PRewind k adds => PruneableMMR_Rewind N k adds
  | PCommit => PruneableMMR_Commit
  | PRollback => st_modify PruneableMMR_Rollback
  end.

(** The leaves up to [floor] are final: the list prunes among them only, and a
    rewind goes back no further. *)
Record pm_rel (floor : Z) (s : PMSpec D) m : Prop := {
  rel_ok : pmmr_ok (sp_data s) (sp_cdata s) m;
  rel_unspent : forall j, 0 <= j -> BitmapFile_IsSet j (pm_leafSet m) = sp_unspent s j;
  rel_cunspent : forall j, 0 <= j -> BitmapFile_IsSet j (BitmapFile_Rollback (pm_leafSet m)) = sp_cunspent s j;
  rel_keys : keys_ok (m_modifiedBytes (pm_leafSet m));
  rel_clean : pm_dirty m = false -> forall j, 0 <= j -> sp_unspent s j = sp_cunspent s j;
  rel_floor : 0 <= floor /\ floor <= length (sp_data s) /\ floor <= length (sp_cdata s);
  rel_prunes : prune_wf (pm_pruneList m) floor;
  rel_cprunes : forall q, pl_file q = pl_file (pm_pruneList m) -> prune_wf (PruneList_Rollback q) floor;
}.

Definition pm_op_ok (floor : Z) (o : pm_op D) (s : PMSpec D) : Prop :=
  match o with
  | PAppend d => wf V1 d /\ length (Serialized V1 d) = N /\ n_ok (length (sp_data s) + 1)
  | PRemove j => 0 <= j
  | PRewind k adds => floor <= k <= length (sp_data s) /\ Forall (fun j => 0 <= j) adds
  | PCommit | PRollback => True
  end.

Hypothesis Blake2b_length : forall x, length (Blake2b x) = 32%nat.
Hypothesis N_small : 0 < N < 2 ^ 20.

Lemma rel_append floor s m d :
  pm_rel floor s m -> pm_op_ok floor (PAppend d) s ->
  exists m', pm_step (PAppend d) m = (Ok tt, m') /\ pm_rel floor (pm_spec_step (PAppend d) s).2 m'.
Proof.
  intros [Hok Hu Hcu Hk Hclean Hfl Hp Hcp] (Hwf & Hlen & Hn). cbn [pm_step pm_spec_step]. rewrite Append_AppendLeaf.
  destruct (pmmr_AppendLeaf Blake2b N Blake2b_length N_small _ _ (pm_SetDirty true m) d (pmmr_SetDirty Blake2b N _ _ _ Hok) eq_refl Hwf Hlen Hn)
    as (m' & -> & Hok' & Hd' & Ep & El). exists m'. split; [done|].
  constructor; cbn [snd sp_data sp_unspent sp_cdata sp_cunspent]; rewrite ?El, ?Ep; cbn [pm_SetDirty pm_pruneList pm_leafSet];
    [done| | | |congruence| |done|done].
  - intros j Hj. unfold LeafSet_Add. cbn [LeafIndex_At LeafIndex_new m_leafIndex]. rewrite IsSet_Set by lia. by rewrite Hu.
  - intros j Hj. by rewrite <- Hcu.
  - apply keys_ok_Set; [|done]. cbn [LeafIndex_At LeafIndex_new m_leafIndex]. lia.
  - rewrite length_app. lia.
Qed.

Lemma rel_remove floor s m j :
  pm_rel floor s m -> 0 <= j ->
  exists m', pm_step (PRemove j) m = ((pm_spec_step (PRemove j) s).1, m') /\ pm_rel floor (pm_spec_step (PRemove j) s).2 m'.
Proof.
  intros Hrel Hj. pose proof Hrel as [Hok Hu Hcu Hk Hclean Hfl Hp Hcp]. cbn [pm_step pm_spec_step].
  unfold PruneableMMR_Remove, LeafSet_Contains, mbind, ST_bind, st_get, st_throw, st_modify.
  cbn [LeafIndex_At LeafIndex_new m_leafIndex]. rewrite Hu by done. destruct (sp_unspent s j) eqn:Ej; cbn [negb]; [|by exists m].
  eexists. split; [done|]. constructor; cbn [snd sp_data sp_unspent sp_cdata sp_cunspent];
    cbn [pm_SetDirty set_leafSet pm_pruneList pm_leafSet pm_dirty]; [| | | |congruence|done|done|done].
  - destruct Hok as (hw & hc & rw & rc & [Hh Hdf Hv Hc Hpr _]). exists hw, hc, rw, rc. by constructor.
  - intros j' Hj'. unfold LeafSet_Remove. cbn [LeafIndex_At LeafIndex_new m_leafIndex]. rewrite IsSet_Unset by lia. by rewrite Hu.
  - intros j' Hj'. by rewrite <- Hcu.
  - by apply keys_ok_Unset.
Qed.

Lemma rel_rewind floor s m k adds :
  pm_rel floor s m -> pm_op_ok floor (PRewind k adds) s ->
  exists m', pm_step (PRewind k adds) m = (Ok tt, m') /\ pm_rel floor (pm_spec_step (PRewind k adds) s).2 m'.
Proof.
  intros [Hok Hu Hcu Hk Hclean Hfl Hp Hcp] [Hko Ha]. cbn [pm_step pm_spec_step].
  destruct (pmmr_Rewind Blake2b N N_small _ _ m k adds Hok) as (m' & -> & Hok' & Hd' & Ep & El);
    [lia|eapply prune_wf_mono; [|apply Hp]; lia|]. exists m'. split; [done|].
  destruct (Rewind_fields k adds (pm_leafSet m)) as [Em Ek]; [lia|done|done|].
  constructor; cbn [snd sp_data sp_unspent sp_cdata sp_cunspent]; rewrite ?El, ?Ep; [done| | |done|congruence| |done|done].
  - intros j Hj. unfold LeafSet_Rewind. rewrite IsSet_Rewind by (done || lia). by rewrite Hu.
  - intros j Hj. rewrite <- Hcu by done. unfold LeafSet_Rewind, BitmapFile_Rollback. by rewrite Em.
  - rewrite length_take. lia.
Qed.

Lemma rel_commit floor s m :
  pm_rel floor s m ->
  exists m', pm_step PCommit m = (Ok tt, m') /\ pm_rel floor (pm_spec_step PCommit s).2 m'.
Proof.
  intros [Hok Hu Hcu Hk Hclean Hfl Hp Hcp]. cbn [pm_step pm_spec_step].
  destruct (pmmr_Commit Blake2b N _ _ m Hok) as (m' & -> & Hok' & Hd' & El & Er). exists m'. split; [done|].
  destruct (pm_dirty m).
  - assert (forall p', caches_ok p' -> Roaring_elems (m_prunedRoots p') = Roaring_elems (m_prunedRoots (pm_pruneList m)) ->
      prune_wf p' floor) as Hsame.
    { intros p' Hc' E. destruct Hp as [H1 H2 H3 H4]. constructor; [by unfold wires_ok; rewrite E|done|by rewrite E|by rewrite E]. }
    pose proof Hok' as (hw & hc & rw & rc & [_ _ Hv Hc _ _]). destruct Er as [Er Erb].
    constructor; cbn [snd sp_data sp_unspent sp_cdata sp_cunspent]; rewrite ?El; [done| | | |done|lia| |].
    + intros j Hj. destruct (Commit_bits (pm_leafSet m) j Hk Hj) as [E _]. unfold LeafSet_Commit. by rewrite E, Hu.
    + intros j Hj. destruct (Commit_bits (pm_leafSet m) j Hk Hj) as [_ E]. unfold LeafSet_Commit. by rewrite E, Hu.
    + unfold LeafSet_Commit. by destruct (Commit_keys (pm_leafSet m)) as [H | ->].
    + apply Hsame; [apply (view_prunes _ _ _ _ _ _ _ Hv)|done].
    + intros q Hq. apply Hsame; [apply (view_prunes _ _ _ _ _ _ _ (Hc q Hq))|by apply Erb].
  - subst m'. constructor; cbn [snd sp_data sp_unspent sp_cdata sp_cunspent]; [done|done| |done|done|lia|done|done].
    intros j Hj. by rewrite Hcu, Hclean.
Qed.

Lemma rel_rollback floor s m :
  pm_rel floor s m -> pm_rel floor (pm_spec_step PRollback s).2 (PruneableMMR_Rollback m).
Proof.
  intros [Hok Hu Hcu Hk Hclean Hfl Hp Hcp]. destruct (pmmr_Rollback Blake2b N _ _ m Hok) as (Hok' & Hd' & El).
  cbn [pm_spec_step snd]. constructor; cbn [sp_data sp_unspent sp_cdata sp_cunspent]; rewrite ?El; [done| | | |done|lia| |];
    unfold PruneableMMR_Rollback; destruct (pm_dirty m); cbn [pm_pruneList]; try done.
  - intros j Hj. by rewrite Hu, Hclean.
  - by apply Hcp.
  - intros q Hq. rewrite Rollback_file in Hq. by apply Hcp.
Qed.

Lemma pm_step_refines floor o s m :
  pm_rel floor s m -> pm_op_ok floor o s ->
  exists m', pm_step o m = ((pm_spec_step o s).1, m') /\ pm_rel floor (pm_spec_step o s).2 m'.
Proof.
  intros Hrel Ho. destruct o as [d|j|k adds| |].
  - by apply rel_append.
  - by apply rel_remove.
  - by apply rel_rewind.
  - by apply rel_commit.
  - eexists. split; [done|]. by apply rel_rollback.
Qed.

End machine.

(** ** Properties *)

Section properties.
Context {F : Type} {HF : HashFile F} {HFL : HashFileLaws F} {R : Type} {HR : Roaring R} {HL : RoaringLaws R}.
Context {D : Type} {HD : Serializable D} {wf : EProtocolVersion -> D -> Prop} {HSL : SerializableLaws D wf}.
Context (Blake2b : bytes -> Hash) (N : nat).
Local Abbreviation PM := (PruneableMMR F R).
Local Abbreviation pmmr_ok := (pmmr_ok (wf := wf) Blake2b N).
Implicit Types (m : PM).
Hypothesis Blake2b_length : forall x, length (Blake2b x) = 32%nat.
Hypothesis Blake2b_nonzero : forall x, Blake2b x <> ZERO_HASH.
Hypothesis N_small : 0 < N < 2 ^ 20.

(** C10: any sequence of appends, removals, rewinds, commits and rollbacks of a
    prunable MMR returns the results, exceptions included, of the abstract
    machine of leaves and unspent leaves, and ends in a state that represents
    the machine's: hash file, data file, leaf set and prune list stay in step. *)
Theorem PruneableMMR_refines floor ops s m :
  pm_rel (wf := wf) Blake2b N floor s m -> ops_ok (pm_op_ok (wf := wf) N floor) pm_spec_step ops s ->
  let '(rs, m') := run (pm_step Blake2b N) ops m in
  let '(rs', s') := run pm_spec_step ops s in
  rs = rs' /\ pm_rel (wf := wf) Blake2b N floor s' m'.
Proof.
  apply (run_simulation (pm_rel Blake2b N floor)). clear s m. intros o s m Hrel Ho. by apply pm_step_refines.
Qed.

(** what a prunable MMR returns of the leaves it represents: its size and
    root, the hash of every node unless the node is compacted, and the data of
    every leaf that is neither compacted nor (for [GetAt]) spent. *)
Theorem PruneableMMR_reads (data cdata : list D) m :
  pmmr_ok data cdata m ->
  PruneableMMR_GetSize m = mmr_size (length data) /\
  PruneableMMR_Root Blake2b (mmr_size (length data)) m = Ok (mmr_root Blake2b (leaf_bytes data)) /\
  (forall (h : nat) i, 0 <= i -> (i + 1) * 2 ^ h <= length data ->
     PruneableMMR_GetHashAt (Index_At (node_pos h i)) m =
       Ok (if PruneableMMR_IsCompacted (Index_At (node_pos h i)) m then None
           else Some (node_hash Blake2b (leaf_bytes data) h i))) /\
  (forall j, 0 <= j < length data ->
     GetDataAt N (LeafIndex_At j) m =
       Ok (if PruneableMMR_IsCompacted (m_nodeIndex (LeafIndex_At j)) m then None else data !! Z.to_nat j) /\
     PruneableMMR_GetAt N (LeafIndex_At j) m =
       Ok (if LeafSet_Contains (LeafIndex_At j) (pm_leafSet m) && negb (PruneableMMR_IsCompacted (m_nodeIndex (LeafIndex_At j)) m)
           then data !! Z.to_nat j else None)).
Proof.
  intros Hok. split; [by eapply pmmr_GetSize|]. split; [by eapply pmmr_Root|].
  pose proof (pmmr_visible Blake2b N data cdata m Hok) as Hvis. split.
  - intros h i Hi Hin. rewrite (pmmr_GetHashAt Blake2b N data cdata m h i) by done.
    assert (0 <= node_pos h i < mmr_size (length data)) as Hpos.
    { split; [apply node_pos_nonneg; lia|]. apply node_in_mmr; lia. }
    unfold PruneableMMR_IsCompacted. rewrite Hvis by done. cbn [Index_At m_position]. by destruct (visible _ _).
  - intros j Hj. pose proof (pmmr_GetDataAt Blake2b N N_small data cdata m j Hok Hj) as E.
    pose proof (pmmr_leaf_index Blake2b N data cdata m j Hok Hj) as (Ei & Hlt).
    assert (PruneableMMR_IsCompacted (m_nodeIndex (LeafIndex_At j)) m = negb (leaf_visible (pm_pruneList m) j)) as Ec.
    { unfold PruneableMMR_IsCompacted. rewrite Ei. cbn [m_nodeIndex]. rewrite Hvis; [done|]. cbn [m_position]. lia. }
    rewrite Ec, negb_involutive. split; [rewrite E; by destruct (leaf_visible _ _)|].
    unfold PruneableMMR_GetAt, IsUnpruned. rewrite E, (pmmr_GetSize Blake2b N data cdata m Hok).
    assert ((LeafIndex_GetPosition (LeafIndex_At j) <? mmr_size (length data)) = true) as ->.
    { apply Z.ltb_lt. rewrite Ei. unfold LeafIndex_GetPosition. cbn [m_nodeIndex m_position]. lia. }
    cbn [andb]. destruct (LeafSet_Contains _ _); [|done]. by destruct (leaf_visible _ _).
Qed.

(** C24: a segment that carries the MMR on from the first [a] leaves to the first
    [b], with the data of the leaves the bitmap requires and the hashes of the
    subtrees it does not, is applied, and the MMR represents the first [b]
    leaves (pruned subtrees included) afterwards. *)
Theorem PruneableMMR_ApplySegment_honest (data cdata : list D) (s : Segment D) targetMMRSize pBitmap a b m :
  Forall (fun d => wf V1 d /\ length (Serialized V1 d) = N) data -> n_ok (length data) ->
  length (sg_leaf_pos s) = length (sg_leaves s) -> length (sg_hash_pos s) = length (sg_hashes s) ->
  cover Blake2b data s targetMMRSize pBitmap a (orderedNodes s) b ->
  0 <= a <= length data -> pmmr_ok (take (Z.to_nat a) data) cdata m ->
  (a = 1 -> Roaring_elems (m_prunedRoots (pm_pruneList m)) = []) ->
  exists m', PruneableMMR_ApplySegment Blake2b N s targetMMRSize pBitmap m = (Ok true, m') /\
    pmmr_ok (take (Z.to_nat b) data) cdata m' /\ pm_dirty m' = true.
Proof.
  intros Hdata Hn El Eh Hcover Ha Hok Hfirst.
  destruct (ApplySegment_loop_ok Blake2b N Blake2b_length N_small data s targetMMRSize pBitmap Hdata Hn cdata (orderedNodes s) a b (pm_SetDirty true m))
    as (m' & E & [_ Hok' Hd' _]); [done|constructor; [done|by apply pmmr_SetDirty|done|done]|].
  exists m'. split; [|done]. unfold PruneableMMR_ApplySegment. rewrite El, Eh, !Z.eqb_refl. cbn [negb].
  unfold mbind, ST_bind, st_modify. done.
Qed.

(** [UpdateLeafSet] makes exactly the leaves of the bitmap unspent. *)
Theorem UpdateLeafSet_spec (bitmap : BitmapAccumulator) numLeaves m j :
  0 <= numLeaves < 2 ^ 58 -> 0 <= j ->
  LeafSet_Contains (LeafIndex_At j) (pm_leafSet (UpdateLeafSet bitmap numLeaves m)) =
    (j <? numLeaves) && BitmapContains bitmap j.
Proof.
  clear N_small. intros Hn Hj. unfold UpdateLeafSet. cbn [set_leafSet pm_leafSet pm_SetDirty].
  unfold LeafSet_Contains, LeafSet_Rewind. cbn [LeafIndex_At LeafIndex_new m_leafIndex].
  rewrite IsSet_Rewind by (constructor || lia). rewrite bool_decide_eq_false_2 by apply not_elem_of_nil. cbn [orb].
  destruct (Z.ltb_spec j numLeaves); [|done]. cbn [andb].
  rewrite <- (Z2Nat.id numLeaves) by lia. apply UpdateLeafSet_bits; lia.
Qed.

End properties.

(** ** Evaluation: a prunable MMR of bitmap chunks *)

Definition empty_pmmr : PruneableMMR DataFile (list Z) :=
  mkPruneableMMR (DataFile_Load []) (mkBitmapFile ∅ [] false) (mkPruneList None Roaring_empty Roaring_empty [] [] false)
    (DataFile_Load []) false.

Lemma example_chunk_ok x :
  BitmapChunk_wf V1 (example_chunk x) /\ length (Serialized V1 (example_chunk x)) = 128%nat.
Proof.
  assert (BitmapChunk_wf V1 (example_chunk x)) as Hw by apply BitmapChunk_Set_wf, BitmapChunk_new_wf.
  split; [done|]. rewrite Serialized_chunk by apply Hw. apply Hw.
Qed.

Lemma empty_pm_ok {D} `{HSL : SerializableLaws D wf} (N : nat) : (0 < N)%nat -> pmmr_ok (wf := wf) toy_hash N [] [] empty_pmmr.
Proof.
  intros HN. assert (forall p : PruneList (list Z), prune_wf p 0 -> view wf toy_hash N [] p [] []) as Hview.
  { intros p Hp. constructor; [done|split; [done|vm_compute; reflexivity]|constructor| |done].
    exists []. split; [apply tree_hashes_nil|done]. }
  exists [], [], [], []. constructor; cbn [empty_pmmr pm_hashFile pm_dataFile pm_pruneList pm_dirty]; [exact empty_file_repr| | | | |done].
  - constructor; simpl; [constructor; simpl; lia|lia|split; [constructor|done]..|done].
  - apply Hview, new_list_wf.
  - intros q Hq. apply Hview. by apply Rollback_none.
  - intros _ q Hq. by destruct (Rollback_none q 0 Hq).
Qed.

Lemma empty_pm_rel {D} `{HSL : SerializableLaws D wf} (N : nat) (f : Z -> bool) : (0 < N)%nat -> (forall j, f j = false) ->
  pm_rel (wf := wf) toy_hash N 0 (mkPMSpec [] f [] f) empty_pmmr.
Proof.
  intros HN Hf. assert (forall j, BitmapFile_IsSet j (mkBitmapFile ∅ [] false) = false) as Hbit.
  { intros j. unfold BitmapFile_IsSet, BitmapFile_GetByte. cbn [m_modifiedBytes m_mmap length]. rewrite lookup_empty.
    by destruct (j / 8 <? 0%nat). }
  constructor; cbn [sp_data sp_unspent sp_cdata sp_cunspent empty_pmmr pm_leafSet pm_pruneList];
    [exact (empty_pm_ok N HN)|intros; by rewrite Hbit, Hf|intros; by rewrite Hf; apply Hbit|apply map_Forall_empty|done|simpl; lia|apply new_list_wf|].
  intros q Hq. by apply Rollback_none.
Qed.

Lemma empty_pmmr_ok : pmmr_ok (wf := BitmapChunk_wf) toy_hash 128 [] [] empty_pmmr.
Proof. apply empty_pm_ok. lia. Qed.

Lemma empty_pmmr_rel : pm_rel (wf := BitmapChunk_wf) toy_hash 128 0 (mkPMSpec [] (fun _ => false) [] (fun _ => false)) empty_pmmr.
Proof. apply empty_pm_rel; [lia|done]. Qed.

Lemma PruneableMMR_refines_witness :
  (run (pm_step toy_hash 128)
     [PAppend (example_chunk 1); PCommit; PAppend (example_chunk 2); PRemove 0; PRemove 5; PRollback; PRewind 0 []] empty_pmmr).1 =
  [Ok tt; Ok tt; Ok tt; Ok tt; Throw TxHashSetException; Ok tt; Ok tt].
Proof.
  set (ops := [PAppend (example_chunk 1); PCommit; PAppend (example_chunk 2); PRemove 0; PRemove 5; PRollback; PRewind 0 []]).
  pose proof (PruneableMMR_refines (wf := BitmapChunk_wf) toy_hash 128 toy_hash_length ltac:(lia) 0 ops _ _ empty_pmmr_rel) as H.
  destruct (run (pm_step toy_hash 128) ops empty_pmmr) as [rs m'].
  destruct H as [E _]; [|cbn [fst]; rewrite E; vm_compute; reflexivity].
  pose proof (example_chunk_ok 1) as [H1 H2]. pose proof (example_chunk_ok 2) as [H3 H4].
  cbn [ops ops_ok pm_op_ok pm_spec_step snd sp_data sp_unspent sp_cdata sp_cunspent length app].
  split; [split; [exact H1|split; [exact H2|split; [lia|vm_compute; reflexivity]]]|].
  split; [exact I|]. split; [split; [exact H3|split; [exact H4|split; [lia|vm_compute; reflexivity]]]|].
  split; [lia|]. split; [vm_compute; congruence|]. split; [exact I|].
  split; [split; [simpl; lia|constructor]|exact I].
Defined.

Definition one_leaf_pmmr : PruneableMMR DataFile (list Z) := (PruneableMMR_Append toy_hash (example_chunk 1) empty_pmmr).2.

Lemma one_leaf_pmmr_ok : pmmr_ok (wf := BitmapChunk_wf) toy_hash 128 [example_chunk 1] [] one_leaf_pmmr.
Proof.
  pose proof (example_chunk_ok 1) as [H1 H2].
  destruct (pmmr_AppendLeaf (wf := BitmapChunk_wf) toy_hash 128 toy_hash_length ltac:(lia) [] [] (pm_SetDirty true empty_pmmr) (example_chunk 1)
    (pmmr_SetDirty _ _ _ _ _ empty_pmmr_ok) eq_refl H1 H2) as (m' & E & Hok & _); [split; [simpl; lia|vm_compute; reflexivity]|].
  unfold one_leaf_pmmr. rewrite Append_AppendLeaf, E. exact Hok.
Qed.

Lemma PruneableMMR_reads_witness :
  PruneableMMR_GetSize one_leaf_pmmr = 1 /\
  PruneableMMR_GetAt 128%nat (LeafIndex_At 0) one_leaf_pmmr = Ok (Some (example_chunk 1)).
Proof.
  destruct (PruneableMMR_reads (wf := BitmapChunk_wf) toy_hash 128 toy_hash_length toy_hash_nonzero ltac:(lia) _ _ _ one_leaf_pmmr_ok)
    as (Hs & _ & _ & Hd).
  split; [rewrite Hs; reflexivity|]. destruct (Hd 0 ltac:(simpl; lia)) as [_ E]. rewrite E. vm_compute. reflexivity.
Defined.

(** Four leaves, the first one unspent; the second is carried for its sibling. *)
Definition spent_chunks : list BitmapChunk := [example_chunk 1; example_chunk 2; example_chunk 3; example_chunk 4].
Definition spent_bitmap : BitmapAccumulator := mkBitmapAccumulator [BitmapChunk_Set 0 true BitmapChunk_new] [].
Definition pruned_segment : Segment BitmapChunk :=
  mkSegment (mkSegmentIdentifier 2 0) [5] [node_hash toy_hash (map chunk_bytes spent_chunks) 1 1]
    [0; 1] [example_chunk 1; example_chunk 2] (mkSegmentProof []).

Lemma spent_chunks_ok : Forall (fun d => BitmapChunk_wf V1 d /\ length (Serialized V1 d) = 128%nat) spent_chunks.
Proof. repeat (apply Forall_cons; split; [apply example_chunk_ok|]); constructor. Qed.

Lemma pruned_segment_cover :
  cover toy_hash spent_chunks pruned_segment 7 (Some spent_bitmap) 0 (orderedNodes pruned_segment) 4.
Proof.
  assert (orderedNodes pruned_segment = [mkSegmentNode 0 (mmr_size 0) false; mkSegmentNode 1 (mmr_size (0 + 1)) false; mkSegmentNode 0 (node_pos 1%nat 1) true]) as ->
    by (vm_compute; reflexivity).
  apply (cover_leaf _ _ _ _ _ 0 0 (example_chunk 1)); [reflexivity|reflexivity|vm_compute; reflexivity|].
  apply (cover_leaf _ _ _ _ _ (0 + 1) 1 (example_chunk 2)); [reflexivity|reflexivity|vm_compute; reflexivity|].
  apply (cover_pruned _ _ _ _ _ 1 1 0); [lia|lia|simpl; lia|vm_compute; reflexivity|vm_compute; reflexivity|constructor].
Qed.

Lemma PruneableMMR_ApplySegment_honest_witness :
  exists m', PruneableMMR_ApplySegment toy_hash 128%nat pruned_segment 7 (Some spent_bitmap) empty_pmmr = (Ok true, m') /\
    pmmr_ok (wf := BitmapChunk_wf) toy_hash 128 spent_chunks [] m'.
Proof.
  destruct (PruneableMMR_ApplySegment_honest (wf := BitmapChunk_wf) toy_hash 128 toy_hash_length ltac:(lia) spent_chunks [] pruned_segment 7
    (Some spent_bitmap) 0 4 empty_pmmr spent_chunks_ok) as (m' & E & Hok & _).
  - split; [simpl; lia|vm_compute; reflexivity].
  - reflexivity.
  - reflexivity.
  - exact pruned_segment_cover.
  - simpl; lia.
  - exact empty_pmmr_ok.
  - lia.
  - exists m'. split; [exact E|exact Hok].
Defined.

Lemma UpdateLeafSet_spec_witness :
  LeafSet_Contains (LeafIndex_At 0) (pm_leafSet (UpdateLeafSet spent_bitmap 4 one_leaf_pmmr)) = true /\
  LeafSet_Contains (LeafIndex_At 1) (pm_leafSet (UpdateLeafSet spent_bitmap 4 one_leaf_pmmr)) = false.
Proof.
  split; rewrite UpdateLeafSet_spec by lia; vm_compute; reflexivity.
Defined.
