(* ===== verification/UncheckedHash.v ===== *)
(** * A hash that [Segment::Validate] does not check

    [Segment::Root] reads a stored hash only for a pruned node whose sibling the
    bitmap requires; [PruneableMMR::ApplySegment] appends the first stored hash
    whose subtree starts where the local MMR ends.  A segment that carries the
    two children of a pruned node before the node itself is validated by the
    node's hash and applied with the children's. *)
From S2P Require Import Prelude BitUtil MMRIndex MMRUtil Serial BigInteger File Roaring PruneList BitmapFile MMRHash SegmentId SegmentProof Bitmap Segment PruneableMMR PruneableSpec.

(** ** What a bitmap requires *)

Section required.
Context {D : Type} `{HD : Serializable D} (Blake2b : bytes -> Hash).
Context (leaves : list bytes) (b : BitmapAccumulator) (s : Segment D).
Local Abbreviation n := (Z.of_nat (length leaves)).
Local Abbreviation leaf_required := (leaf_required leaves (Some b)).
Local Abbreviation node_required := (node_required leaves (Some b)).
Local Abbreviation carries := (carries Blake2b leaves (Some b) s).

Lemma node_required_uniform (v : bool) (h : nat) i :
  0 <= i -> (forall j, i * 2 ^ h <= j < (i + 1) * 2 ^ h -> leaf_required j = v) -> node_required h i = v.
Proof.
  revert i. induction h as [|h IH]; intros i Hi Hv; cbn [Segment.node_required].
  - apply Hv. change (2 ^ 0%nat) with 1. lia.
  - rewrite pow2_S in Hv. pose proof (pow2_pos h ltac:(lia)).
    rewrite !IH by (lia || (intros j Hj; apply Hv; nia)). by destruct v.
Qed.

Lemma carries_uniform (v : bool) (h : nat) i :
  0 <= i -> (forall j, i * 2 ^ h <= j < (i + 1) * 2 ^ h -> leaf_required j = v /\ (v = true -> has_leaf leaves s j)) ->
  carries h i.
Proof.
  revert i. induction h as [|h IH]; intros i Hi Hv; cbn [Segment.carries].
  - intros E. destruct (Hv i) as [E' Hl]; [change (2 ^ 0%nat) with 1; lia|]. apply Hl. by rewrite <- E'.
  - rewrite pow2_S in Hv. pose proof (pow2_pos h ltac:(lia)).
    split; [apply IH; [lia|intros; apply Hv; nia]|]. split; [apply IH; [lia|intros; apply Hv; nia]|].
    rewrite !(node_required_uniform v) by (lia || (intros; apply Hv; nia)). destruct v; split; congruence.
Qed.

Lemma GetFirstLeafIndex_loop_node (h fuel : nat) i :
  (h <= fuel)%nat -> 0 <= i -> 4 * node_pos h i + 4 < 2 ^ 60 ->
  GetFirstLeafIndex_loop fuel (mkIndex (node_pos h i) h) = i * 2 ^ h.
Proof.
  revert fuel i. induction h as [|h IH]; intros fuel i Hf Hi Hb.
  - change (2 ^ 0%nat) with 1. rewrite Z.mul_1_r. pose proof (node_pos_nonneg 0 i ltac:(lia) Hi).
    assert (Index_GetLeafIndex (mkIndex (node_pos 0 i) 0) = i) as E.
    { unfold Index_GetLeafIndex. cbn [m_position]. rewrite node_pos_leaf in *. apply CalculateLeafIndex_leaf; [done|].
      unfold pos_ok. change (Z.of_nat 0) with 0 in *. rewrite ?node_pos_leaf in *. lia. }
    change (Z.of_nat 0) with 0. by destruct fuel.
  - destruct fuel as [|fuel]; [lia|]. cbn [GetFirstLeafIndex_loop].
    assert (Index_IsLeaf (mkIndex (node_pos (S h) i) (S h)) = false) as -> by (apply Z.eqb_neq; cbn [m_height]; lia).
    replace (Z.of_nat (S h)) with (h + 1) in * by lia. pose proof (node_pos_nonneg (h + 1) i ltac:(lia) Hi).
    pose proof (node_pos_parent_left h i ltac:(lia) Hi). pose proof (pow2_pos (h + 1) ltac:(lia)).
    rewrite Index_GetLeftChild_node by (done || lia || unfold fam_ok; lia).
    rewrite IH by lia. rewrite pow2_1 by lia. lia.
Qed.

Lemma IsRequired_none (h : nat) i :
  0 <= n < 2 ^ 50 -> 0 <= i -> (i + 1) * 2 ^ h <= n ->
  (forall j, i * 2 ^ h <= j < (i + 1) * 2 ^ h -> BitmapContains b j = false) ->
  IsRequiredByBitmap b (Index_At (node_pos h i)) (mmr_size n) = false.
Proof.
  intros Hn Hi Hin Hbits. pose proof (mmr_size_bound n ltac:(lia)). pose proof (node_pos_nonneg h i ltac:(lia) Hi).
  pose proof (proj2 (node_in_mmr h i n ltac:(lia) Hi ltac:(lia)) Hin). pose proof (pow2_pos h ltac:(lia)).
  assert (h < 50) as Hh.
  { destruct (decide (h < 50)) as [|Hge]; [done|]. assert (2 ^ 50 <= 2 ^ h) by (apply Z.pow_le_mono_r; lia). nia. }
  rewrite Index_At_node by (lia || unfold pos_ok; lia). unfold IsRequiredByBitmap, GetFirstLeafIndex.
  rewrite GetFirstLeafIndex_loop_node by lia. rewrite (CountLeaves_mmr_size n) by (unfold pos_ok; lia). cbn [m_height].
  rewrite shiftl_1 by lia. rewrite (uint_small 64 (2 ^ h)) by (unfold is_uint; nia).
  rewrite (uint_small 64 (i * 2 ^ h + 2 ^ h)) by (unfold is_uint; nia).
  apply not_true_is_false. intros Hex. apply existsb_exists in Hex as (j & Hj & Hb). apply list_elem_of_In, elem_of_seqZ in Hj.
  rewrite Hbits in Hb by lia. done.
Qed.

(** The first half of the leaves of node [(h + 1, 0)] are unspent, the second half spent. *)
Lemma half_required (h : nat) j :
  0 <= n < 2 ^ 50 -> 1 <= h -> 2 * 2 ^ h <= n ->
  (forall j, 0 <= j < 2 * 2 ^ h -> BitmapContains b j = (j <? 2 ^ h)) ->
  0 <= j < 2 * 2 ^ h -> leaf_required j = (j <? 2 ^ h).
Proof.
  intros Hn Hh Hin Hbits Hj. pose proof (mmr_size_bound n ltac:(lia)). pose proof (mmr_size_mono j n ltac:(lia)).
  pose proof (mmr_size_ge j ltac:(lia)).
  unfold Segment.leaf_required, IsLeafRequiredByBitmap. cbn [m_position].
  assert (Index_GetLeafIndex (mkIndex (mmr_size j) 0) = j) as ->.
  { unfold Index_GetLeafIndex. cbn [m_position]. apply CalculateLeafIndex_leaf; [lia|]. unfold pos_ok. lia. }
  rewrite Hbits by done. destruct (Z.ltb_spec j (2 ^ h)) as [|Hright]; [done|]. cbn [orb].
  assert (mmr_size j < mmr_size n - 1) as Hlast.
  { pose proof (proj2 (node_in_mmr (h + 1) 0 n ltac:(lia) ltac:(lia) ltac:(lia)) ltac:(rewrite pow2_1 by lia; lia)).
    enough (mmr_size j < node_pos (h + 1) 0) by lia. rewrite <- node_pos_leaf.
    pose proof (node_pos_bound (S h) 0 j ltac:(lia) ltac:(rewrite Z.sub_0_r, pow2_S; lia)) as Hle.
    rewrite <- (node_pos_leaf j) in *. pose proof (node_pos_root (S h)) as Er. rewrite pow2_S1 in Hle.
    replace (Z.of_nat (S h)) with (h + 1) in * by lia. rewrite pow2_1 in * by lia.
    assert (node_pos 0 j <> node_pos (h + 1) 0); [|lia]. intros E. apply node_pos_inj in E; [lia..|unfold pos_ok; lia]. }
  rewrite (uint_small 64 (mmr_size n - 1)) by (unfold is_uint; lia).
  destruct (Z.eqb_spec (mmr_size j) (mmr_size n - 1)); [lia|].
  rewrite <- (node_pos_leaf j), IsLeftSibling_node by (rewrite ?node_pos_leaf; lia).
  assert (2 ^ h = 2 * 2 ^ (h - 1)) as Heven by (rewrite <- pow2_1 by lia; f_equal; lia).
  apply andb_false_iff. right. destruct (Z.even j) eqn:Ej.
  - apply Z.even_spec in Ej as [q ->]. rewrite uint_small by (unfold is_uint; lia).
    rewrite Hbits by lia. apply Z.ltb_ge. lia.
  - rewrite <- Z.negb_odd in Ej. apply negb_false_iff, Z.odd_spec in Ej as [q ->].
    destruct (Z.eqb_spec (2 * q + 1) 0); [lia|]. rewrite uint_small by (unfold is_uint; lia).
    rewrite Hbits by lia. apply Z.ltb_ge. lia.
Qed.

Lemma half_carries (h : nat) :
  (forall j, 0 <= j < 2 * 2 ^ h -> leaf_required j = (j <? 2 ^ h)) ->
  (forall j, 0 <= j < 2 ^ h -> has_leaf leaves s j) -> stores Blake2b leaves s h 1 ->
  carries (S h) 0 /\ node_required (S h) 0 = true.
Proof.
  intros Hreq Hleaf Hst. cbn [Segment.carries Segment.node_required]. change (2 * 0) with 0. change (0 + 1) with 1.
  pose proof (pow2_pos h ltac:(lia)).
  assert (forall j, 0 * 2 ^ h <= j < (0 + 1) * 2 ^ h -> leaf_required j = true) as Hleft.
  { intros j Hj. rewrite Hreq by lia. apply Z.ltb_lt. lia. }
  assert (forall j, 1 * 2 ^ h <= j < (1 + 1) * 2 ^ h -> leaf_required j = false) as Hright.
  { intros j Hj. rewrite Hreq by lia. apply Z.ltb_ge. lia. }
  rewrite (node_required_uniform true h 0), (node_required_uniform false h 1) by (done || lia).
  split; [|done]. split; [|split; [|split; [done|done]]].
  - apply (carries_uniform true); [lia|]. intros j Hj. split; [by apply Hleft|]. intros _. apply Hleaf. lia.
  - apply (carries_uniform false); [lia|]. intros j Hj. split; [by apply Hright|done].
Qed.

End required.

(** ** The order of the nodes *)

Lemma SegmentNode_le_spec a b :
  SegmentNode_le a b <->
  sn_position a < sn_position b \/ sn_position a = sn_position b /\ (sn_isHash b = true -> sn_isHash a = true).
Proof.
  unfold SegmentNode_le, SegmentNode_lt. destruct (Z.eqb_spec (sn_position b) (sn_position a)) as [E|Hne]; cbn [negb].
  - destruct (sn_isHash a), (sn_isHash b); cbn [andb negb]; intuition (congruence || lia).
  - rewrite Z.ltb_ge. intuition lia.
Qed.

#[local] Instance SegmentNode_le_total : Total SegmentNode_le.
Proof.
  intros a b. rewrite !SegmentNode_le_spec. destruct (Z.lt_trichotomy (sn_position a) (sn_position b)) as [?|[?|?]]; [auto| |auto].
  destruct (sn_isHash a), (sn_isHash b); auto.
Qed.

#[local] Instance SegmentNode_le_trans : Transitive SegmentNode_le.
Proof. intros a b c. rewrite !SegmentNode_le_spec. intuition lia. Qed.

Definition node_before (x y : SegmentNode) : Prop := sn_position x < sn_position y.

(** Nodes at different positions have one order. *)
Lemma orderedNodes_unique {D} (s : Segment D) nodes :
  StronglySorted node_before nodes ->
  imap (fun i pos => mkSegmentNode i pos true) (sg_hash_pos s) ++
    imap (fun i pos => mkSegmentNode i pos false) (sg_leaf_pos s) ≡ₚ nodes ->
  orderedNodes s = nodes.
Proof.
  intros Hs Hp. unfold orderedNodes. rewrite <- (merge_sort_Permutation SegmentNode_le) in Hp.
  assert (forall x y, x ∈ nodes -> y ∈ nodes -> sn_position x = sn_position y -> x = y) as Hinj.
  { clear Hp. induction Hs as [|z l Hs IH Hz]; [by intros ? ? ?%not_elem_of_nil|]. rewrite Forall_forall in Hz. unfold node_before in Hz.
    intros x y [->|Hx]%elem_of_cons [->|Hy]%elem_of_cons E; [done| | |by apply IH];
      [specialize (Hz y Hy)|specialize (Hz x Hx)]; lia. }
  apply (StronglySorted_unique_strong SegmentNode_le); [| | |done].
  - intros x y Hx Hy Hxy Hyx. rewrite Hp in Hx. apply Hinj; [done..|]. revert Hxy Hyx.
    rewrite !SegmentNode_le_spec. lia.
  - apply StronglySorted_merge_sort; apply _.
  - clear -Hs. induction Hs as [|z l Hs IH Hz]; constructor; [done|]. eapply Forall_impl; [exact Hz|].
    intros y Hy. apply SegmentNode_le_spec. by left.
Qed.

(** Leaves [a], ..., [a + k - 1], carried from index [i] on. *)
Fixpoint leaf_nodes (i : nat) (a : Z) (k : nat) : list SegmentNode :=
  match k with
  | O => []
  | S k => mkSegmentNode i (mmr_size a) false :: leaf_nodes (S i) (a + 1) k
  end.

Lemma leaf_nodes_imap i a (k : nat) :
  imap (fun j pos => mkSegmentNode (i + j) pos false) (mmr_size <$> seqZ a k) = leaf_nodes i a k.
Proof.
  revert i a. induction k as [|k IH]; intros i a; [done|]. rewrite seqZ_cons by lia.
  rewrite fmap_cons, imap_cons, Nat.add_0_r. cbn [leaf_nodes]. f_equal.
  replace (Z.pred (S k)) with (Z.of_nat k) by lia. rewrite <- (IH (S i)). unfold Z.succ.
  apply imap_ext. intros j x _. cbn [compose]. f_equal. lia.
Qed.

Lemma leaf_nodes_sorted i a (k : nat) rest :
  0 <= a -> Forall (fun x => mmr_size (a + k) <= sn_position x) rest -> StronglySorted node_before rest ->
  StronglySorted node_before (leaf_nodes i a k ++ rest) /\
  Forall (fun x => mmr_size a <= sn_position x) (leaf_nodes i a k ++ rest).
Proof.
  intros Ha Hr Hs. revert i a Ha Hr. induction k as [|k IH]; intros i a Ha Hr; cbn [leaf_nodes app].
  - rewrite Z.add_0_r in Hr. done.
  - destruct (IH (S i) (a + 1)) as [IH1 IH2]; [lia|by replace (a + 1 + k) with (a + S k) by lia|].
    pose proof (mmr_size_lt a (a + 1) ltac:(lia)). split; constructor; cbn [sn_position]; [done| |lia|];
      (eapply Forall_impl; [exact IH2|]); unfold node_before; cbn [sn_position]; intros x Hx; lia.
Qed.

Section cover.
Context {D : Type} `{HD : Serializable D} (Blake2b : bytes -> Hash).

Lemma cover_leaf_nodes (data : list D) (s : Segment D) target pBitmap i a (k : nat) nodes b :
  0 <= a -> (forall j : nat, (j < k)%nat -> sg_leaves s !! (i + j)%nat = data !! Z.to_nat (a + j)) -> a + k <= length data ->
  (forall j, a <= j < a + k -> leaf_needed target pBitmap (mmr_size j) = true) ->
  cover Blake2b data s target pBitmap (a + k) nodes b ->
  cover Blake2b data s target pBitmap a (leaf_nodes i a k ++ nodes) b.
Proof.
  revert i a. induction k as [|k IH]; intros i a Ha Hl Hb Hneed Hc; cbn [leaf_nodes app].
  - by rewrite Z.add_0_r in Hc.
  - destruct (lookup_lt_is_Some_2 data (Z.to_nat a)) as [d Ed]; [lia|].
    apply (cover_leaf _ _ _ _ _ a i d); [|done|apply Hneed; lia|].
    + specialize (Hl 0%nat ltac:(lia)). by rewrite Nat.add_0_r, Z.add_0_r, Ed in Hl.
    + apply IH; [lia| |lia|intros; apply Hneed; lia|by replace (a + 1 + k) with (a + S k) by lia].
      intros j Hj. rewrite Nat.add_succ_comm, Hl by lia. f_equal. lia.
Qed.

End cover.

(** ** The segment *)

Section forged.
Context {F : Type} {HF : HashFile F} {HFL : HashFileLaws F} {R : Type} {HR : Roaring R} {HL : RoaringLaws R}.
Context {D : Type} {HD : Serializable D} {wf : EProtocolVersion -> D -> Prop} {HSL : SerializableLaws D wf}.
Context (Blake2b : bytes -> Hash) (N : nat).
Local Abbreviation PM := (PruneableMMR F R).
Local Abbreviation pmmr_ok := (pmmr_ok (wf := wf) Blake2b N).
Hypothesis Blake2b_length : forall x, length (Blake2b x) = 32%nat.
Hypothesis Blake2b_nonzero : forall x, Blake2b x <> ZERO_HASH.
Hypothesis N_small : 0 < N < 2 ^ 20.

(** The first segment of the MMR of [L ++ Q ++ T]: the unspent leaves [L], and
    for the spent leaves [Q] the hash of the node above them, which is preceded
    by the hashes of this node's children in the tree of [Q']. *)
Definition forged_segment (g : nat) (L Q Q' T : list D) (proof : SegmentProof) : Segment D :=
  let h := S g in
  mkSegment (mkSegmentIdentifier (h + 1) 0)
    [node_pos g 2; node_pos g 3; node_pos h 1]
    [node_hash Blake2b (leaf_bytes (L ++ Q')) g 2; node_hash Blake2b (leaf_bytes (L ++ Q')) g 3;
     node_hash Blake2b (leaf_bytes (L ++ Q ++ T)) h 1]
    (mmr_size <$> seqZ 0 (2 ^ h)) L proof.

Context (g : nat) (L Q Q' T : list D) (proof : SegmentProof) (b : BitmapAccumulator).
Local Abbreviation h := (S g).
Local Abbreviation data := (L ++ Q ++ T).
Local Abbreviation n := (Z.of_nat (length data)).
Local Abbreviation s := (forged_segment g L Q Q' T proof).

(** [L], [Q] and [Q'] fill one perfect tree each, at least four leaves, and the
    bitmap has the bits of [L] only. *)
Record forged_setting : Prop := {
  fs_height : (1 <= g)%nat;
  fs_left : length L = 2 ^ h :> Z;
  fs_right : length Q = 2 ^ h :> Z;
  fs_forged : length Q' = 2 ^ h :> Z;
  fs_data : Forall (fun d => wf V1 d /\ length (Serialized V1 d) = N) (L ++ Q ++ Q');
  fs_size : n_ok n;
  fs_bitmap : forall j, 0 <= j < 2 * 2 ^ h -> BitmapContains b j = (j <? 2 ^ h);
}.

Hypothesis setting : forged_setting.

Lemma forged_bounds : 2 * 2 ^ h <= n /\ n < 2 ^ 32 /\ h + 1 < 50.
Proof.
  destruct setting as [_ Hl Hr _ _ Hn _]. pose proof (n_ok_bound _ Hn). rewrite !length_app in *.
  assert (2 * 2 ^ h <= n) as Hle by (rewrite !length_app; lia). rewrite !length_app in Hle. split; [lia|]. split; [lia|].
  destruct (decide (h + 1 < 50)) as [|Hge]; [done|]. assert (2 ^ 50 <= 2 ^ (h + 1)) by (apply Z.pow_le_mono_r; lia).
  rewrite pow2_1 in * by lia. lia.
Qed.

Lemma forged_required j :
  0 <= j < 2 * 2 ^ h -> leaf_required (leaf_bytes data) (Some b) j = (j <? 2 ^ h).
Proof.
  destruct forged_bounds as (H1 & H2 & _). intros Hj.
  apply half_required; rewrite ?leaf_bytes_length; [lia|destruct setting; lia|lia|apply setting|done].
Qed.

Lemma forged_has_leaf j : 0 <= j < 2 ^ h -> has_leaf (leaf_bytes data) s j.
Proof.
  intros Hj. destruct setting as [_ Hl _ _ _ _ _]. destruct (lookup_lt_is_Some_2 L (Z.to_nat j)) as [d Ed]; [lia|].
  exists (Z.to_nat j), d. split; [|split; [done|]].
  - cbn [forged_segment sg_leaf_pos]. unfold find_index.
    enough (list_find (fun y => y = mmr_size j) (mmr_size <$> seqZ 0 (2 ^ h)) = Some (Z.to_nat j, mmr_size j)) as -> by done.
    apply list_find_Some. rewrite list_lookup_fmap. split; [|split; [done|]].
    + rewrite lookup_seqZ_lt by lia. cbn [fmap option_fmap option_map]. do 2 f_equal. lia.
    + intros k y Hy Hk E. rewrite list_lookup_fmap in Hy. rewrite lookup_seqZ_lt in Hy by lia. injection Hy as <-.
      pose proof (mmr_size_lt (0 + k) j ltac:(lia)). lia.
  - unfold leaf_bytes. rewrite list_lookup_fmap, lookup_app_l by (apply lookup_lt_Some in Ed; done). by rewrite Ed.
Qed.

Lemma forged_positions :
  mmr_size (2 ^ h) <= node_pos g 2 /\ node_pos g 2 < node_pos g 3 /\ node_pos g 3 < node_pos h 1 /\
  node_pos h 1 < mmr_size (2 * 2 ^ h).
Proof.
  assert (mmr_size (2 ^ h) <= node_pos g 2) as H1.
  { pose proof (subtree_first g 2 ltac:(lia) ltac:(lia)) as E. pose proof (pow2_pos g ltac:(lia)).
    rewrite pow2_1 in E by lia. rewrite pow2_S. lia. }
  pose proof (node_pos_step g 2 ltac:(lia) ltac:(lia)). pose proof (node_pos_parent_right g 1 ltac:(lia) ltac:(lia)) as E.
  pose proof (proj2 (node_in_mmr h 1 (2 * 2 ^ h) ltac:(lia) ltac:(lia) ltac:(pose proof (pow2_pos h ltac:(lia)); lia)) ltac:(lia)).
  replace (Z.of_nat h) with (g + 1) in * by lia. change (2 * 1 + 1) with 3 in E. change (2 + 1) with 3 in *. lia.
Qed.

Lemma forged_carries :
  carries Blake2b (leaf_bytes data) (Some b) s (S h) 0 /\
  node_required (leaf_bytes data) (Some b) (S h) 0 = true.
Proof.
  apply half_carries; [apply forged_required|apply forged_has_leaf|].
  unfold stores, GetProvidedStoredHash. destruct forged_positions as (_ & H2 & H3 & _).
  cbn [forged_segment sg_hash_pos sg_hashes]. unfold find_index. cbn [list_find].
  rewrite !decide_False by lia. by rewrite decide_True.
Qed.

Lemma forged_validates getHashAt :
  reads_tree Blake2b (leaf_bytes data) getHashAt -> honest_proof Blake2b (leaf_bytes data) getHashAt s ->
  Segment_Validate Blake2b (mmr_size n) (mmr_root Blake2b (leaf_bytes data)) (Some b) s = Ok true.
Proof.
  intros Hread Hproof. destruct forged_bounds as (H1 & H2 & H3). pose proof (pow2_pos h ltac:(lia)).
  assert (Z.to_nat (seg_height (sg_id s)) = S h) as Eh by (cbn [forged_segment sg_id seg_height]; lia).
  pose proof (Segment_Validate_honest Blake2b Blake2b_length (leaf_bytes data) getHashAt (Some b) s) as Hv.
  rewrite Eh, leaf_bytes_length in Hv. apply Hv; [|done|done|].
  - constructor; rewrite ?leaf_bytes_length; cbn [forged_segment sg_id sg_hash_pos sg_hashes sg_leaf_pos sg_leaves seg_height seg_index].
    + constructor; cbn [seg_height seg_index]; lia.
    + done.
    + rewrite length_fmap, length_seqZ. destruct setting. lia.
    + lia.
  - cbn [forged_segment sg_id seg_index]. rewrite pow2_S. destruct (Z.leb_spec ((0 + 1) * (2 * 2 ^ h)) n); [|lia].
    exact forged_carries.
Qed.

Lemma forged_order :
  orderedNodes s = leaf_nodes 0 0 (Z.to_nat (2 ^ h)) ++
    [mkSegmentNode 0 (node_pos g 2) true; mkSegmentNode 1 (node_pos g 3) true; mkSegmentNode 2 (node_pos h 1) true].
Proof.
  destruct forged_positions as (H1 & H2 & H3 & _). pose proof (pow2_pos h ltac:(lia)). apply orderedNodes_unique.
  - apply leaf_nodes_sorted; [lia| |].
    + rewrite Z2Nat.id, Z.add_0_l by lia. repeat (constructor; cbn [sn_position]; [lia|]). constructor.
    + repeat (constructor; [|repeat (constructor; [unfold node_before; cbn [sn_position]; lia|]); constructor]). constructor.
  - cbn [forged_segment sg_hash_pos sg_leaf_pos imap]. rewrite Permutation_app_comm. f_equiv; [|done].
    rewrite <- leaf_nodes_imap, Z2Nat.id by lia. reflexivity.
Qed.

Lemma forged_cover :
  cover Blake2b (L ++ Q') s (mmr_size n) (Some b) 0 (orderedNodes s) (2 * 2 ^ h).
Proof.
  destruct setting as [Hg Hl Hr Hf Hd Hn Hb]. destruct forged_bounds as (H1 & H2 & _). pose proof (pow2_pos h ltac:(lia)) as Hp.
  destruct forged_positions as (_ & _ & _ & Hpos). rewrite forged_order. pose proof (pow2_S g) as Eh.
  assert (forall i, 2 <= i < 4 -> hash_needed (mmr_size n) (Some b) (node_pos g i) = false) as Hneed.
  { intros i Hi. rewrite <- (leaf_bytes_length data). apply IsRequired_none; rewrite ?leaf_bytes_length; [lia|lia|nia|].
    intros j Hj. rewrite Hb by nia. apply Z.ltb_ge. nia. }
  apply cover_leaf_nodes; [lia| |rewrite length_app; lia| |].
  - intros j Hj. cbn [forged_segment sg_leaves]. rewrite lookup_app_l by lia. f_equal. lia.
  - intros j Hj. rewrite Z2Nat.id in Hj by lia. pose proof (forged_required j ltac:(lia)) as E.
    unfold leaf_required in E. rewrite leaf_bytes_length in E. unfold leaf_needed.
    pose proof (mmr_size_bound j ltac:(lia)). rewrite <- (node_pos_leaf j) in *.
    rewrite Index_At_node by (lia || unfold pos_ok; lia). rewrite E. apply Z.ltb_lt. lia.
  - rewrite Z2Nat.id by lia. replace (0 + 2 ^ h) with (2 * 2 ^ g) by lia.
    apply (cover_pruned _ _ _ _ _ g 2 0); [done|lia|rewrite length_app; lia|apply Hneed; lia|done|].
    apply (cover_pruned _ _ _ _ _ g 3 1); [done|lia|rewrite length_app; lia|apply Hneed; lia|done|].
    replace ((3 + 1) * 2 ^ g) with (2 * 2 ^ h) by lia. apply cover_present; [exact Hpos|constructor].
Qed.

Lemma leaf_bytes_inj (l l' : list D) :
  Forall (fun d => wf V1 d /\ length (Serialized V1 d) = N) l -> Forall (fun d => wf V1 d /\ length (Serialized V1 d) = N) l' ->
  leaf_bytes l = leaf_bytes l' -> l = l'.
Proof.
  intros Hl. revert l'. induction Hl as [|d l [Hd Hlen] Hl IH]; intros [|d' l'] Hl' E; try done.
  apply Forall_cons in Hl' as [[Hd' Hlen'] Hl']. unfold leaf_bytes in *. cbn [map] in E. injection E as E1 E2.
  f_equal; [|by apply IH]. assert (length ([] ++ Serialized V1 d' ++ []) < 2 ^ 64) as Hb.
  { rewrite app_nil_l, app_nil_r. lia. }
  pose proof (deserialize_reads V1 d' Hd' [] [] Hb) as R2. rewrite <- E1 in Hb, R2.
  rewrite (deserialize_reads V1 d Hd [] [] Hb) in R2. by injection R2.
Qed.

End forged.

(** ** The property *)

Section property.
Context {F : Type} {HF : HashFile F} {HFL : HashFileLaws F} {R : Type} {HR : Roaring R} {HL : RoaringLaws R}.
Context {D : Type} {HD : Serializable D} {wf : EProtocolVersion -> D -> Prop} {HSL : SerializableLaws D wf}.
Context (Blake2b : bytes -> Hash) (N : nat).
Local Abbreviation pmmr_ok := (pmmr_ok (F := F) (R := R) (wf := wf) Blake2b N).
Hypothesis Blake2b_length : forall x, length (Blake2b x) = 32%nat.
Hypothesis Blake2b_nonzero : forall x, Blake2b x <> ZERO_HASH.
Hypothesis N_small : 0 < N < 2 ^ 20.

(** C38: hashes that were never checked get into an MMR.  Let the first [2^h]
    leaves [L] of a tree be unspent and the next [2^h], [Q], be spent ([h] at
    least 2).  For any other leaves [Q'] there is a segment that
    [Segment::Validate] accepts against the root of the tree, and that
    [ApplySegment] applies to an empty MMR so that it represents [L ++ Q'] and
    has another root than the first leaves of the tree, [L ++ Q], unless two
    different inputs collide. *)
Theorem ApplySegment_unchecked_hash (g : nat) (L Q Q' T : list D) proof (b : BitmapAccumulator) getHashAt (cdata : list D) m :
  let data := L ++ Q ++ T in
  let s := forged_segment Blake2b g L Q Q' T proof in
  forged_setting (wf := wf) N g L Q Q' T b ->
  reads_tree Blake2b (leaf_bytes data) getHashAt -> honest_proof Blake2b (leaf_bytes data) getHashAt s ->
  pmmr_ok [] cdata m ->
  Segment_Validate Blake2b (mmr_size (length data)) (mmr_root Blake2b (leaf_bytes data)) (Some b) s = Ok true /\
  exists m', PruneableMMR_ApplySegment Blake2b N s (mmr_size (length data)) (Some b) m = (Ok true, m') /\
    pmmr_ok (L ++ Q') cdata m' /\
    PruneableMMR_Root Blake2b (mmr_size (length (L ++ Q))) m' = Ok (mmr_root Blake2b (leaf_bytes (L ++ Q'))) /\
    (no_collision Blake2b (root_inputs Blake2b (leaf_bytes (L ++ Q'))) (root_inputs Blake2b (leaf_bytes (L ++ Q))) ->
     Q' <> Q -> mmr_root Blake2b (leaf_bytes (L ++ Q')) <> mmr_root Blake2b (leaf_bytes (L ++ Q))).
Proof.
  intros data s Hset Hread Hproof Hok. split; [by eapply forged_validates|].
  destruct (forged_bounds N g L Q Q' T b Hset) as (H1 & H2 & _). pose proof Hset as [Hg Hl Hq Hq' Hd Hn _].
  assert (length (L ++ Q') = length (L ++ Q)) as El by (rewrite !length_app; lia).
  assert (length (L ++ Q') = 2 * 2 ^ S g :> Z) as Elz by (rewrite length_app; lia).
  apply Forall_app in Hd as [HdL [HdQ HdQ']%Forall_app].
  assert (Forall (fun d => wf V1 d /\ length (Serialized V1 d) = N) (L ++ Q')) as Hd' by by apply Forall_app.
  assert (n_ok (length (L ++ Q'))) as Hn' by (eapply n_ok_mono; [|exact Hn]; lia).
  destruct (ApplySegment_loop_ok Blake2b N Blake2b_length N_small (L ++ Q') s (mmr_size (length data)) (Some b) Hd' Hn'
    cdata (orderedNodes s) 0 (2 * 2 ^ S g) (pm_SetDirty true m)) as (m' & E & [_ Hok' _ _]).
  { by apply (forged_cover (wf := wf) Blake2b N). }
  { constructor; [lia|by apply pmmr_SetDirty|done|lia]. }
  rewrite take_ge in Hok' by lia. exists m'. split.
  { unfold PruneableMMR_ApplySegment. cbn [s forged_segment sg_leaf_pos sg_leaves sg_hash_pos sg_hashes].
    rewrite length_fmap, length_seqZ, Hl, Z2Nat.id by (pose proof (pow2_pos (S g)); lia). rewrite Z.eqb_refl. exact E. }
  split; [done|]. rewrite <- El. split; [by eapply pmmr_Root|]. intros Hnc Hne Eroot. apply Hne.
  apply mmr_root_binding in Eroot; [|done|by rewrite !leaf_bytes_length|rewrite leaf_bytes_length; lia|done].
  apply (leaf_bytes_inj (wf := wf) N N_small) in Eroot; [by apply app_inv_head in Eroot|done|by apply Forall_app].
Qed.

End property.

(** ** Evaluation: a tree of nine chunks, of which the first four are unspent *)

Definition left_chunks : list BitmapChunk := map example_chunk [1; 2; 3; 4].
Definition right_chunks : list BitmapChunk := map example_chunk [5; 6; 7; 8].
Definition other_chunks : list BitmapChunk := map example_chunk [11; 12; 13; 14].
Definition nine_chunks : list BitmapChunk := left_chunks ++ right_chunks ++ [example_chunk 9].
Definition left_bitmap : BitmapAccumulator :=
  mkBitmapAccumulator [foldr (fun i => BitmapChunk_Set i true) BitmapChunk_new [0; 1; 2; 3]] [].
Definition nine_reader : Z -> option Hash := example_reader (leaf_bytes nine_chunks).
Definition forged_proof : SegmentProof :=
  let posRange := GetPositionRange (mmr_size 9) (mkSegmentIdentifier 3 0) in
  default (mkSegmentProof []) (SegmentProof_Generate toy_hash (mmr_size 9) posRange.1 posRange.2 None nine_reader).

Lemma example_chunks_ok l :
  Forall (fun d => BitmapChunk_wf V1 d /\ length (Serialized V1 d) = 128%nat) (map example_chunk l).
Proof. induction l; constructor; [apply example_chunk_ok|done]. Qed.

Lemma forged_setting_example :
  forged_setting (wf := BitmapChunk_wf) 128 1 left_chunks right_chunks other_chunks [example_chunk 9] left_bitmap.
Proof.
  constructor; [lia|reflexivity..| |split; [simpl; lia|vm_compute; reflexivity]|].
  - apply Forall_app; split; [apply example_chunks_ok|]. apply Forall_app; split; apply example_chunks_ok.
  - intros j Hj. change (0 <= j < 8) in Hj.
    assert (j = 0 \/ j = 1 \/ j = 2 \/ j = 3 \/ j = 4 \/ j = 5 \/ j = 6 \/ j = 7) as Hcases by lia.
    intuition (subst; vm_compute; reflexivity).
Qed.

Lemma ApplySegment_unchecked_hash_witness :
  let s := forged_segment toy_hash 1 left_chunks right_chunks other_chunks [example_chunk 9] forged_proof in
  Segment_Validate toy_hash (mmr_size 9) (mmr_root toy_hash (leaf_bytes nine_chunks)) (Some left_bitmap) s = Ok true /\
  exists m', PruneableMMR_ApplySegment toy_hash 128%nat s (mmr_size 9) (Some left_bitmap) empty_pmmr = (Ok true, m') /\
    PruneableMMR_Root toy_hash (mmr_size 8) m' = Ok (mmr_root toy_hash (leaf_bytes (left_chunks ++ other_chunks))) /\
    mmr_root toy_hash (leaf_bytes (left_chunks ++ other_chunks)) <> mmr_root toy_hash (leaf_bytes (left_chunks ++ right_chunks)).
Proof.
  destruct (ApplySegment_unchecked_hash (wf := BitmapChunk_wf) toy_hash 128 toy_hash_length toy_hash_nonzero ltac:(lia) 1 left_chunks
    right_chunks other_chunks [example_chunk 9] forged_proof left_bitmap nine_reader [] empty_pmmr) as (Hv & m' & E & _ & Hr & Hne).
  - exact forged_setting_example.
  - apply example_reader_ok. vm_compute. reflexivity.
  - vm_compute. reflexivity.
  - exact empty_pmmr_ok.
  - split; [exact Hv|]. exists m'. split; [exact E|]. split; [exact Hr|]. apply Hne.
    + apply (bool_decide_unpack _). vm_compute. exact I.
    + vm_compute. congruence.
Defined.
