(* ===== verification/Transaction.v ===== *)
(** * Transaction data ([include/Core/Models/Fee.h], [Features.h],
    [src/Core/Models/TransactionKernel.cpp], [TransactionOutput.cpp],
    [TransactionInput.cpp], [OutputIdentifier.cpp], [TransactionBody.cpp],
    [include/Crypto/Models/Commitment.h], [RangeProof.h])

    Kernels, outputs, inputs and bodies with their wire formats.  A kernel is
    written with all its fields by protocol version 1 and with those of its kind
    only from version 2 on; its hash is that of the version 1 bytes. *)
From S2P Require Import Prelude BitUtil Consensus Serial BigInteger MMRHash.

(** A chain of appends as the bytes it appends. *)
Ltac serialize_bytes :=
  unfold AppendBigInteger, AppendByteVector, AppendLength, Serializer_put, AppendU64, AppendU32, AppendU16, AppendU8;
  rewrite ?Append_be; cbn [s_version s_bytes Serializer_new app]; rewrite <- ?app_assoc.

(** A read that depends on the protocol version. *)
Lemma reads_version {A} v (k : EProtocolVersion -> reader A) enc (a : A) :
  reads v (k v) enc a -> reads v (p ← GetProtocolVersion; k p) enc a.
Proof. intros H pre post Hl. unfold mbind, reader_bind. by apply H. Qed.

(** One read of a sequence of reads. *)
Ltac uint_bytes n :=
  apply (uint_pow256 n);
  let w := eval vm_compute in (8 * Z.of_nat n) in change (8 * Z.of_nat n) with w;
  unfold is_uint in *; lia.
Ltac read_be n := eapply reads_bind; [apply reads_be; uint_bytes n|cbv beta].
Ltac read_raw := eapply reads_bind; [apply reads_bytes; lia|cbv beta].

(** ** [Fee] *)
Record Fee := mkFee { m_shift : Z; m_fee : Z }.

#[export] Instance Fee_eq_dec : EqDecision Fee.
Proof. solve_decision. Defined.

Definition Fee_new : Fee := mkFee 0 0.
Definition Fee_From (raw_fee : Z) : Fee := mkFee 0 raw_fee.

#[export] Instance Fee_Serializable : Serializable Fee := {
  Serialize fee s :=
    AppendU32 (uint 32 (Z.land (m_fee fee) 0xffffffff))
      (AppendU8 (uint 8 (Z.shiftr (m_fee fee) 32)) (AppendU8 (m_shift fee) (AppendU16 0 s)));
  Deserialize :=
    _ ← ReadU16;
    shift ← ReadU8;
    fee ← ReadU8;
    low ← ReadU32;
    mret (mkFee (Z.land shift 0x0f) ((fee << 32)%u64 + low)%u64);
}.

(** [ToJSON] is the 64-bit integer of the serialized bytes, [FromJSON] takes the
    integer for the fee. *)
Definition Fee_ToJSON (fee : Fee) : result Z :=
  '(n, _) ← ReadU64 (ByteBuffer_new (Serialized V1 fee) V1); mret n.
Definition Fee_FromJSON (json : Z) : Fee := Fee_From json.

(** ** Features, commitments, range proofs

    The enumerations are cast from and to a byte. *)
Definition DEFAULT : Z := 0.
Definition COINBASE_OUTPUT : Z := 1.
Definition DEFAULT_KERNEL : Z := 0.
Definition COINBASE_KERNEL : Z := 1.
Definition HEIGHT_LOCKED : Z := 2.
Definition NO_RECENT_DUPLICATE : Z := 3.

Abbreviation Commitment := (list Z) (only parsing).
Definition Commitment_Serialize (c : Commitment) : Serializer -> Serializer := AppendBigInteger c.
Definition Commitment_Deserialize : reader Commitment := ReadBigInteger 33.

Definition MAX_PROOF_SIZE : Z := 675.

Definition RangeProof_Normalize (proofBytes : bytes) : result bytes :=
  if length proofBytes >? MAX_PROOF_SIZE then Throw DeserializationException
  else Ok (proofBytes ++ repeat 0 (Z.to_nat MAX_PROOF_SIZE - length proofBytes)).

Definition RangeProof_Serialize (proof : bytes) (s : Serializer) : Serializer :=
  AppendByteVector proof LenNone (AppendU64 (length proof) s).

Definition RangeProof_Deserialize : reader bytes :=
  proofSize ← ReadU64;
  if proofSize >? MAX_PROOF_SIZE then reader_throw DeserializationException
  else
    bs ← ReadVector proofSize;
    match RangeProof_Normalize bs with Ok proof => mret proof | Throw e => reader_throw e end.

(** ** [TransactionKernel] *)
Record TransactionKernel := mkTransactionKernel {
  tk_features : Z;
  tk_fee : Fee;
  tk_lockHeight : Z;
  tk_excessCommitment : Commitment;
  tk_excessSignature : bytes;
}.

#[export] Instance TransactionKernel_eq_dec : EqDecision TransactionKernel.
Proof. solve_decision. Defined.

Definition TransactionKernel_IsCoinbase (k : TransactionKernel) : bool :=
  Z.land (tk_features k) COINBASE_KERNEL =? COINBASE_KERNEL.

(** [serializer.GetProtocolVersion() >= EProtocolVersion::V2] (and [V3]). *)
Definition at_least_V2 (v : EProtocolVersion) : bool := match v with V1 => false | _ => true end.
Definition at_least_V3 (v : EProtocolVersion) : bool := match v with V1 | V2 => false | _ => true end.

Definition TransactionKernel_Serialize (k : TransactionKernel) (s : Serializer) : Serializer :=
  if at_least_V2 (s_version s) then
    let s := AppendU8 (tk_features k) s in
    let s :=
      if tk_features k =? DEFAULT_KERNEL then Serialize (tk_fee k) s
      else if tk_features k =? COINBASE_KERNEL then s
      else if tk_features k =? HEIGHT_LOCKED then AppendU64 (tk_lockHeight k) (Serialize (tk_fee k) s)
      else if tk_features k =? NO_RECENT_DUPLICATE then AppendU16 (uint 16 (tk_lockHeight k)) (Serialize (tk_fee k) s)
      else s in
    AppendBigInteger (tk_excessSignature k) (Commitment_Serialize (tk_excessCommitment k) s)
  else
    AppendBigInteger (tk_excessSignature k) (Commitment_Serialize (tk_excessCommitment k)
      (AppendU64 (tk_lockHeight k) (Serialize (tk_fee k) (AppendU8 (tk_features k) s)))).

Definition TransactionKernel_Deserialize : reader TransactionKernel :=
  protocolVersion ← GetProtocolVersion;
  features ← ReadU8;
  '(fee, lockHeight) ←
    (if at_least_V2 protocolVersion then
       fee ← (if negb (features =? COINBASE_KERNEL) then Deserialize else mret Fee_new);
       lockHeight ←
         (if features =? HEIGHT_LOCKED then ReadU64
          else if features =? NO_RECENT_DUPLICATE then ReadU16
          else mret 0);
       mret (fee, lockHeight)
     else
       fee ← Deserialize;
       lockHeight ← ReadU64;
       mret (fee, lockHeight));
  commitment ← ReadBigInteger 33;
  signature ← ReadBigInteger 64;
  if (features =? NO_RECENT_DUPLICATE) && ((lockHeight =? 0) || (lockHeight >? WEEK_HEIGHT))
  then reader_throw DeserializationException
  else mret (mkTransactionKernel features fee lockHeight commitment signature).

#[export] Instance TransactionKernel_Serializable : Serializable TransactionKernel := {
  Serialize := TransactionKernel_Serialize;
  Deserialize := TransactionKernel_Deserialize;
}.

(** ** [OutputIdentifier] and [TransactionOutput] *)
Record OutputIdentifier := mkOutputIdentifier { oi_features : Z; oi_commitment : Commitment }.

#[export] Instance OutputIdentifier_Serializable : Serializable OutputIdentifier := {
  Serialize o s := Commitment_Serialize (oi_commitment o) (AppendU8 (oi_features o) s);
  Deserialize :=
    features ← ReadU8; commitment ← Commitment_Deserialize; mret (mkOutputIdentifier features commitment);
}.

Record TransactionOutput := mkTransactionOutput { to_features : Z; to_commitment : Commitment; to_rangeProof : bytes }.

#[export] Instance TransactionOutput_eq_dec : EqDecision TransactionOutput.
Proof. solve_decision. Defined.

Definition TransactionOutput_IsCoinbase (o : TransactionOutput) : bool :=
  Z.land (to_features o) COINBASE_OUTPUT =? COINBASE_OUTPUT.

Definition OutputIdentifier_FromOutput (output : TransactionOutput) : OutputIdentifier :=
  mkOutputIdentifier (to_features output) (to_commitment output).

#[export] Instance TransactionOutput_Serializable : Serializable TransactionOutput := {
  Serialize o s := RangeProof_Serialize (to_rangeProof o) (Commitment_Serialize (to_commitment o) (AppendU8 (to_features o) s));
  Deserialize :=
    features ← ReadU8;
    commitment ← Commitment_Deserialize;
    rangeProof ← RangeProof_Deserialize;
    mret (mkTransactionOutput features commitment rangeProof);
}.

(** ** [TransactionInput]

    From protocol version 3 on an input is written without its features, and
    the reader takes them from the coin view. *)
Record TransactionInput := mkTransactionInput { ti_features : Z; ti_commitment : Commitment }.

#[export] Instance TransactionInput_eq_dec : EqDecision TransactionInput.
Proof. solve_decision. Defined.

Definition TransactionInput_Serialize (i : TransactionInput) (s : Serializer) : Serializer :=
  let s := if negb (at_least_V3 (s_version s)) then AppendU8 (ti_features i) s else s in
  Commitment_Serialize (ti_commitment i) s.

Section transactions.
(** [GetOutputType] is that of the coin view: the features of the output with the
    given commitment in the current chain state. *)
Context (Blake2b : bytes -> Hash) (GetOutputType : Commitment -> Z).

Definition TransactionInput_Deserialize : reader TransactionInput :=
  protocolVersion ← GetProtocolVersion;
  if at_least_V3 protocolVersion then
    commitment ← Commitment_Deserialize;
    mret (mkTransactionInput (GetOutputType commitment) commitment)
  else
    features ← ReadU8;
    commitment ← Commitment_Deserialize;
    mret (mkTransactionInput features commitment).

(** ** Hashes *)
Definition TransactionKernel_GetHash (k : TransactionKernel) : Hash := Blake2b (Serialized V1 k).
Definition TransactionOutput_GetHash (o : TransactionOutput) : Hash :=
  Blake2b (s_bytes (Commitment_Serialize (to_commitment o) (AppendU8 (to_features o) (Serializer_new V1)))).
Definition TransactionInput_GetHash (i : TransactionInput) : Hash :=
  Blake2b (s_bytes (TransactionInput_Serialize i (Serializer_new ProtocolVersion_Local))).

(** The message a kernel signs. *)
Definition GetSignatureMessage (features : Z) (fee : Fee) (lockHeight : Z) : Hash :=
  let s := AppendU8 features (Serializer_new V1) in
  let s := if negb (features =? COINBASE_KERNEL) then Serialize fee s else s in
  let s := if features =? HEIGHT_LOCKED then AppendU64 lockHeight s else s in
  let s := if features =? NO_RECENT_DUPLICATE then AppendU16 (uint 16 lockHeight) s else s in
  Blake2b (s_bytes s).

(** ** [TransactionBody] *)
Record TransactionBody := mkTransactionBody {
  tb_inputs : list TransactionInput;
  tb_outputs : list TransactionOutput;
  tb_kernels : list TransactionKernel;
}.

(** [std::sort] by hash.  Elements of equal hash may end up in either order. *)
Definition hash_le {A} (GetHash : A -> Hash) (a b : A) : Prop := BigInteger_lt (GetHash b) (GetHash a) = false.
#[export] Instance hash_le_dec {A} (GetHash : A -> Hash) : RelDecision (hash_le GetHash).
Proof. intros a b. unfold hash_le. apply _. Defined.
Definition sort_by_hash {A} (GetHash : A -> Hash) (l : list A) : list A := merge_sort (hash_le GetHash) l.

(** The constructor. *)
Definition TransactionBody_new inputs outputs kernels : TransactionBody :=
  mkTransactionBody (sort_by_hash TransactionInput_GetHash inputs) (sort_by_hash TransactionOutput_GetHash outputs)
    (sort_by_hash TransactionKernel_GetHash kernels).

Definition TransactionBody_Serialize (body : TransactionBody) (s : Serializer) : Serializer :=
  let s := AppendU64 (length (tb_kernels body)) (AppendU64 (length (tb_outputs body)) (AppendU64 (length (tb_inputs body)) s)) in
  append_all Serialize (tb_kernels body) (append_all Serialize (tb_outputs body) (append_all TransactionInput_Serialize (tb_inputs body) s)).

Definition TransactionBody_Deserialize : reader TransactionBody :=
  numInputs ← ReadU64;
  numOutputs ← ReadU64;
  numKernels ← ReadU64;
  inputs ← read_list (Z.to_nat numInputs) TransactionInput_Deserialize;
  outputs ← read_list (Z.to_nat numOutputs) Deserialize;
  kernels ← read_list (Z.to_nat numKernels) Deserialize;
  let inputs := sort_by_hash TransactionInput_GetHash inputs in
  let outputs := sort_by_hash TransactionOutput_GetHash outputs in
  let kernels := sort_by_hash TransactionKernel_GetHash kernels in
  mret (TransactionBody_new inputs outputs kernels).

Definition CalcFee (body : TransactionBody) : Z :=
  foldl (fun sum kernel => (sum + m_fee (tk_fee kernel))%u64) 0 (tb_kernels body).

Definition GetFeeShift (body : TransactionBody) : Z :=
  foldl (fun fee_shift kernel => if m_shift (tk_fee kernel) >? fee_shift then m_shift (tk_fee kernel) else fee_shift) 0 (tb_kernels body).

(** ** [TxBodyValidator], [Consensus::IsSorted] *)
Fixpoint IsSorted {A} (GetHash : A -> Hash) (values : list A) : bool :=
  match values with
  | [] => true
  | a :: values' =>
      match values' with
      | [] => true
      | b :: _ => if BigInteger_gt (GetHash a) (GetHash b) then false else IsSorted GetHash values'
      end
  end.

(** The loops [for (i = 1; i < size; i++) if (l[i] == l[i - 1]) throw]. *)
Fixpoint has_repeat {A} (eqb : A -> A -> bool) (l : list A) : bool :=
  match l with
  | [] => false
  | a :: l' =>
      match l' with
      | [] => false
      | b :: _ => if eqb b a then true else has_repeat eqb l'
      end
  end.

Definition TransactionInput_eq (a b : TransactionInput) : bool :=
  (ti_features a =? ti_features b) && BigInteger_eq (ti_commitment a) (ti_commitment b).
Definition TransactionOutput_eq (a b : TransactionOutput) : bool :=
  BigInteger_eq (TransactionOutput_GetHash a) (TransactionOutput_GetHash b).

Definition VerifySorted (body : TransactionBody) : result unit :=
  if negb (IsSorted TransactionInput_GetHash (tb_inputs body) && IsSorted TransactionOutput_GetHash (tb_outputs body)
           && IsSorted TransactionKernel_GetHash (tb_kernels body)) then Throw BadDataException
  else if has_repeat TransactionInput_eq (tb_inputs body) then Throw BadDataException
  else if has_repeat TransactionOutput_eq (tb_outputs body) then Throw BadDataException
  else Ok tt.

Definition VerifyCutThrough (body : TransactionBody) : result unit :=
  let output_commits := map to_commitment (tb_outputs body) in
  let invalid := existsb (fun input => bool_decide (ti_commitment input ∈ output_commits)) (tb_inputs body) in
  if invalid then Throw BadDataException else Ok tt.

(** ** [TransactionUtil] *)
Definition PerformCutThrough (inputs : list TransactionInput) (outputs : list TransactionOutput)
    : list TransactionInput * list TransactionOutput :=
  let inputCommitments := map ti_commitment inputs in
  let outputCommitments := map to_commitment outputs in
  (filter (fun input => ti_commitment input ∉ outputCommitments) inputs,
   filter (fun output => to_commitment output ∉ inputCommitments) outputs).

Record Transaction := mkTransaction { tx_offset : bytes; tx_body : TransactionBody }.

(** [Crypto::AddBlindingFactors] is modelled in [Crypto].  That there is a
    transaction is asserted. *)
Definition Aggregate (AddBlindingFactors : list bytes -> list bytes -> result bytes) (transactions : list Transaction) : result Transaction :=
  match transactions with
  | [] => Throw UB
  | [t] => Ok t
  | _ =>
      let inputs := concat (map (fun t => tb_inputs (tx_body t)) transactions) in
      let outputs := concat (map (fun t => tb_outputs (tx_body t)) transactions) in
      let kernels := concat (map (fun t => tb_kernels (tx_body t)) transactions) in
      let kernelOffsets := map tx_offset transactions in
      let '(inputs, outputs) := PerformCutThrough inputs outputs in
      let kernels := sort_by_hash TransactionKernel_GetHash kernels in
      let inputs := sort_by_hash TransactionInput_GetHash inputs in
      let outputs := sort_by_hash TransactionOutput_GetHash outputs in
      totalKernelOffset ← AddBlindingFactors kernelOffsets [];
      Ok (mkTransaction totalKernelOffset (TransactionBody_new inputs outputs kernels))
  end.

Definition Transaction_Serialize (t : Transaction) (s : Serializer) : Serializer :=
  TransactionBody_Serialize (tx_body t) (AppendBigInteger (tx_offset t) s).
Definition Transaction_Deserialize : reader Transaction :=
  offset ← ReadBigInteger 32;
  body ← TransactionBody_Deserialize;
  mret (mkTransaction offset body).

End transactions.

(** ** Wire formats *)

Definition Fee_bytes (fee : Fee) : bytes :=
  be_bytes 2 0 ++ be_bytes 1 (m_shift fee) ++ be_bytes 1 (uint 8 (Z.shiftr (m_fee fee) 32)) ++ be_bytes 4 (uint 32 (Z.land (m_fee fee) 0xffffffff)).

Definition Fee_wf (_ : EProtocolVersion) (fee : Fee) : Prop := is_uint 4 (m_shift fee) /\ is_uint 40 (m_fee fee).

Lemma Fee_Serialize_bytes fee s : Serialize fee s = mkSerializer (s_version s) (s_bytes s ++ Fee_bytes fee).
Proof. cbn [Serialize Fee_Serializable]. serialize_bytes. done. Qed.

Lemma Fee_length fee : length (Fee_bytes fee) = 8%nat.
Proof. unfold Fee_bytes. by rewrite !length_app, !length_be_bytes. Qed.

Lemma Fee_split z : is_uint 40 z ->
  is_uint 8 (Z.shiftr z 32) /\ (Z.shiftr z 32 * 2 ^ 32 + z mod 2 ^ 32 = z) /\ Z.land z 0xffffffff = z mod 2 ^ 32.
Proof.
  intros Hz. rewrite Z.shiftr_div_pow2 by lia. change 0xffffffff with (Z.ones 32). rewrite Z.land_ones by lia.
  pose proof (Z.div_mod z (2 ^ 32)). unfold is_uint in *. split; [|lia].
  split; [apply Z.div_pos; lia|]. apply Z.div_lt_upper_bound; lia.
Qed.

#[export] Instance Fee_laws : SerializableLaws Fee Fee_wf.
Proof.
  constructor.
  - intros fee s. rewrite Fee_Serialize_bytes. unfold Serialized. by rewrite Fee_Serialize_bytes.
  - intros v [shift fee] [Hs Hf]. cbn [m_shift m_fee] in *. destruct (Fee_split fee Hf) as (H8 & E & El).
    unfold Serialized. rewrite Fee_Serialize_bytes. cbn [Serializer_new s_bytes app Deserialize Fee_Serializable].
    unfold Fee_bytes. cbn [m_shift m_fee]. rewrite El, (uint_small 8) by done. rewrite (uint_small 32) by (apply Z.mod_pos_bound; lia).
    read_be 2%nat. read_be 1%nat. read_be 1%nat.
    rewrite <- (app_nil_r (be_bytes 4 _)). eapply reads_bind; [apply reads_be, Z.mod_pos_bound; done|]. cbv beta.
    assert (mkFee (Z.land shift 15) (uint 64 (uint 64 (Z.shiftl (Z.shiftr fee 32) 32) + fee mod 2 ^ 32)) = mkFee shift fee) as ->; [|apply reads_ret].
    change 15 with (Z.ones 4). unfold is_uint in *. rewrite Z.land_ones, Z.mod_small by lia.
    rewrite Z.shiftl_mul_pow2 by lia. rewrite (uint_small 64 (_ * _)) by uint_solve. rewrite E. by rewrite uint_small by uint_solve.
Qed.

(** *** Kernels *)

(** The fields of a kernel between its features and its commitment. *)
Definition kernel_fields (v : EProtocolVersion) (k : TransactionKernel) : bytes :=
  if at_least_V2 v then
    if tk_features k =? DEFAULT_KERNEL then Fee_bytes (tk_fee k)
    else if tk_features k =? COINBASE_KERNEL then []
    else if tk_features k =? HEIGHT_LOCKED then Fee_bytes (tk_fee k) ++ be_bytes 8 (tk_lockHeight k)
    else if tk_features k =? NO_RECENT_DUPLICATE then Fee_bytes (tk_fee k) ++ be_bytes 2 (uint 16 (tk_lockHeight k))
    else []
  else Fee_bytes (tk_fee k) ++ be_bytes 8 (tk_lockHeight k).

Definition kernel_bytes (v : EProtocolVersion) (k : TransactionKernel) : bytes :=
  be_bytes 1 (tk_features k) ++ kernel_fields v k ++ tk_excessCommitment k ++ tk_excessSignature k.

(** The kernels the wire formats can carry: from version 2 on, the fields that
    are not written have their default. *)
Record TransactionKernel_wf (v : EProtocolVersion) (k : TransactionKernel) : Prop := {
  tkw_features : 0 <= tk_features k <= 3;
  tkw_fee : Fee_wf v (tk_fee k);
  tkw_lock : is_uint 64 (tk_lockHeight k);
  tkw_commitment : length (tk_excessCommitment k) = 33%nat;
  tkw_signature : length (tk_excessSignature k) = 64%nat;
  tkw_nrd : tk_features k = NO_RECENT_DUPLICATE -> 0 < tk_lockHeight k <= WEEK_HEIGHT;
  tkw_default : at_least_V2 v = true ->
    (tk_features k = COINBASE_KERNEL -> tk_fee k = Fee_new) /\
    (tk_features k = COINBASE_KERNEL \/ tk_features k = DEFAULT_KERNEL -> tk_lockHeight k = 0);
}.

Lemma TransactionKernel_Serialize_bytes k s :
  Serialize k s = mkSerializer (s_version s) (s_bytes s ++ kernel_bytes (s_version s) k).
Proof.
  cbn [Serialize TransactionKernel_Serializable]. unfold TransactionKernel_Serialize, kernel_bytes, kernel_fields, Commitment_Serialize.
  destruct (at_least_V2 (s_version s)).
  - repeat case_match; rewrite ?Fee_Serialize_bytes; serialize_bytes; done.
  - rewrite Fee_Serialize_bytes. serialize_bytes. done.
Qed.

Lemma kernel_bytes_wf v k : TransactionKernel_wf v k -> 98 <= length (kernel_bytes v k) <= 114.
Proof.
  intros [Hf _ _ Hc Hs _ _]. unfold kernel_bytes, kernel_fields. rewrite !length_app, Hc, Hs, length_be_bytes.
  repeat case_match; rewrite ?length_app, ?Fee_length, ?length_be_bytes; simpl; lia.
Qed.

Lemma kernel_V1_length k : TransactionKernel_wf V1 k -> length (kernel_bytes V1 k) = 114%nat.
Proof.
  intros [Hf _ _ Hc Hs _ _]. unfold kernel_bytes, kernel_fields. cbn [at_least_V2].
  by rewrite !length_app, Hc, Hs, Fee_length, !length_be_bytes.
Qed.

Lemma reads_kernel_fields v k : TransactionKernel_wf v k ->
  reads v (if at_least_V2 v then
     fee ← (if negb (tk_features k =? COINBASE_KERNEL) then Deserialize else mret Fee_new);
     lockHeight ←
       (if tk_features k =? HEIGHT_LOCKED then ReadU64
        else if tk_features k =? NO_RECENT_DUPLICATE then ReadU16
        else mret 0);
     mret (fee, lockHeight)
   else
     fee ← Deserialize;
     lockHeight ← ReadU64;
     mret (fee, lockHeight)) (kernel_fields v k) (tk_fee k, tk_lockHeight k).
Proof.
  intros [Hf Hfee Hl _ _ Hnrd Hdef].
  assert (reads v Deserialize (Fee_bytes (tk_fee k)) (tk_fee k)) as Hr.
  { pose proof (deserialize_reads v (tk_fee k) Hfee) as H. unfold Serialized in H. by rewrite Fee_Serialize_bytes in H. }
  unfold kernel_fields. destruct (at_least_V2 v).
  - destruct (Hdef eq_refl) as [Hd1 Hd2].
    assert (tk_features k = 0 \/ tk_features k = 1 \/ tk_features k = 2 \/ tk_features k = 3) as [Ek|[Ek|[Ek|Ek]]] by lia;
      rewrite Ek in *; cbn [Z.eqb Pos.eqb negb DEFAULT_KERNEL COINBASE_KERNEL HEIGHT_LOCKED NO_RECENT_DUPLICATE].
    + rewrite <- (app_nil_r (Fee_bytes _)). eapply reads_bind; [apply Hr|]. cbv beta. rewrite Hd2 by auto. apply (reads_ret v (tk_fee k, 0)).
    + rewrite Hd1, Hd2 by auto. apply (reads_ret v (Fee_new, 0)).
    + eapply reads_bind; [apply Hr|]. apply (reads_map _ ReadU64 _ _ (fun l => (tk_fee k, l))). apply reads_be. uint_bytes 8%nat.
    + eapply reads_bind; [apply Hr|]. change WEEK_HEIGHT with 10080 in Hnrd. specialize (Hnrd eq_refl).
      rewrite uint_small by uint_solve. apply (reads_map _ ReadU16 _ _ (fun l => (tk_fee k, l))). apply reads_be. uint_bytes 2%nat.
  - eapply reads_bind; [apply Hr|]. apply (reads_map _ ReadU64 _ _ (fun l => (tk_fee k, l))). apply reads_be. uint_bytes 8%nat.
Qed.

#[export] Instance TransactionKernel_laws : SerializableLaws TransactionKernel TransactionKernel_wf.
Proof.
  constructor.
  - intros k s. rewrite TransactionKernel_Serialize_bytes. unfold Serialized. by rewrite TransactionKernel_Serialize_bytes.
  - intros v k Hwf. unfold Serialized. rewrite TransactionKernel_Serialize_bytes. cbn [Serializer_new s_bytes s_version app].
    pose proof Hwf as [Hf _ _ Hc Hs Hnrd _]. cbn [Deserialize TransactionKernel_Serializable].
    unfold kernel_bytes, TransactionKernel_Deserialize. apply reads_version.
    read_be 1%nat. eapply reads_bind; [by apply reads_kernel_fields|]. cbv beta iota.
    read_raw. rewrite <- (app_nil_r (tk_excessSignature k)). read_raw.
    assert ((tk_features k =? NO_RECENT_DUPLICATE) && ((tk_lockHeight k =? 0) || (tk_lockHeight k >? WEEK_HEIGHT)) = false) as ->.
    { destruct (Z.eqb_spec (tk_features k) NO_RECENT_DUPLICATE) as [E|]; [|done]. specialize (Hnrd E). cbn [andb].
      destruct (Z.eqb_spec (tk_lockHeight k) 0); [lia|]. destruct (Z.gtb_spec (tk_lockHeight k) WEEK_HEIGHT); [lia|done]. }
    destruct k. apply reads_ret.
Qed.

(** *** Outputs and inputs *)

Definition OutputIdentifier_wf (_ : EProtocolVersion) (o : OutputIdentifier) : Prop :=
  is_uint 8 (oi_features o) /\ length (oi_commitment o) = 33%nat.

#[export] Instance OutputIdentifier_laws : SerializableLaws OutputIdentifier OutputIdentifier_wf.
Proof.
  constructor.
  - intros o s. unfold Serialized. cbn [Serialize OutputIdentifier_Serializable]. unfold Commitment_Serialize. serialize_bytes. done.
  - intros v [features commitment] [Hf Hc]. unfold Serialized. cbn [Serialize Deserialize OutputIdentifier_Serializable oi_features oi_commitment] in *.
    unfold Commitment_Serialize. serialize_bytes. read_be 1%nat.
    apply (reads_map _ Commitment_Deserialize _ _ (mkOutputIdentifier features)). apply reads_bytes. by rewrite Hc.
Qed.

(** A proof has its full length, as [Normalize] leaves it. *)
Definition TransactionOutput_wf (_ : EProtocolVersion) (o : TransactionOutput) : Prop :=
  is_uint 8 (to_features o) /\ length (to_commitment o) = 33%nat /\ length (to_rangeProof o) = 675%nat.

Lemma reads_RangeProof v proof : length proof = 675%nat ->
  reads v RangeProof_Deserialize (be_bytes 8 (length proof) ++ proof) proof.
Proof.
  intros Hl. read_be 8%nat. rewrite Hl. cbn [Z.gtb Z.compare]. destruct (Z.gtb_spec 675%nat MAX_PROOF_SIZE) as [H|_]; [done|].
  rewrite <- (app_nil_r proof) at 1. eapply reads_bind; [apply reads_bytes; by rewrite Hl|]. cbv beta.
  unfold RangeProof_Normalize. rewrite Hl. destruct (Z.gtb_spec 675%nat MAX_PROOF_SIZE) as [H|_]; [done|].
  change (Z.to_nat MAX_PROOF_SIZE - 675)%nat with 0%nat. cbn [repeat]. rewrite app_nil_r. apply reads_ret.
Qed.

#[export] Instance TransactionOutput_laws : SerializableLaws TransactionOutput TransactionOutput_wf.
Proof.
  constructor.
  - intros o s. unfold Serialized. cbn [Serialize TransactionOutput_Serializable]. unfold Commitment_Serialize, RangeProof_Serialize.
    serialize_bytes. done.
  - intros v [features commitment proof] (Hf & Hc & Hp). unfold Serialized.
    cbn [Serialize Deserialize TransactionOutput_Serializable to_features to_commitment to_rangeProof] in *.
    unfold Commitment_Serialize, RangeProof_Serialize. serialize_bytes. read_be 1%nat.
    eapply reads_bind; [apply reads_bytes; by rewrite Hc|cbv beta].
    apply (reads_map _ RangeProof_Deserialize _ _ (mkTransactionOutput features commitment)). by apply reads_RangeProof.
Qed.

Definition input_bytes (v : EProtocolVersion) (i : TransactionInput) : bytes :=
  (if at_least_V3 v then [] else be_bytes 1 (ti_features i)) ++ ti_commitment i.

Lemma TransactionInput_Serialize_bytes i s :
  TransactionInput_Serialize i s = mkSerializer (s_version s) (s_bytes s ++ input_bytes (s_version s) i).
Proof.
  unfold TransactionInput_Serialize, input_bytes, Commitment_Serialize. destruct (at_least_V3 (s_version s)); cbn [negb]; serialize_bytes; done.
Qed.

Section laws.
Context (Blake2b : bytes -> Hash) (GetOutputType : Commitment -> Z).
Implicit Types (i : TransactionInput) (o : TransactionOutput) (k : TransactionKernel).

(** From version 3 on the coin view must know the features of the input. *)
Definition TransactionInput_wf (v : EProtocolVersion) i : Prop :=
  is_uint 8 (ti_features i) /\ length (ti_commitment i) = 33%nat /\
  (at_least_V3 v = true -> GetOutputType (ti_commitment i) = ti_features i).

Lemma reads_TransactionInput v i : TransactionInput_wf v i -> reads v (TransactionInput_Deserialize GetOutputType) (input_bytes v i) i.
Proof.
  intros (Hf & Hc & Ht). destruct i as [features commitment]. cbn [ti_features ti_commitment] in *. unfold TransactionInput_Deserialize, input_bytes.
  apply reads_version. cbn [ti_features ti_commitment]. destruct (at_least_V3 v).
  - rewrite <- (Ht eq_refl). cbn [app]. apply (reads_map _ Commitment_Deserialize _ _ (fun c => mkTransactionInput (GetOutputType c) c)).
    apply reads_bytes. by rewrite Hc.
  - read_be 1%nat. apply (reads_map _ Commitment_Deserialize _ _ (mkTransactionInput features)). apply reads_bytes. by rewrite Hc.
Qed.

(** *** Sorting by hash *)
Section sorting.
Context {A : Type} (GetHash : A -> Hash) (GetHash_length : forall a, length (GetHash a) = 32%nat) (GetHash_byte : forall a, Forall is_byte (GetHash a)).

Lemma hash_le_val a b : hash_le GetHash a b <-> be_val (GetHash a) <= be_val (GetHash b).
Proof.
  unfold hash_le. rewrite BigInteger_lt_spec by (try done; by rewrite !GetHash_length). rewrite Z.ltb_ge. done.
Qed.

#[local] Instance hash_le_total : Total (hash_le GetHash).
Proof. intros a b. rewrite !hash_le_val. lia. Qed.
#[local] Instance hash_le_trans : Transitive (hash_le GetHash).
Proof. intros a b c. rewrite !hash_le_val. lia. Qed.

Lemma sort_sorted l : StronglySorted (hash_le GetHash) (sort_by_hash GetHash l).
Proof. apply StronglySorted_merge_sort; apply _. Qed.
Lemma sort_perm l : sort_by_hash GetHash l ≡ₚ l.
Proof. apply merge_sort_Permutation. Qed.

(** The elements of a list in which hashes identify elements, sorted, are sorted
    in one way. *)
Lemma sorted_hash_unique l l' :
  StronglySorted (hash_le GetHash) l -> StronglySorted (hash_le GetHash) l' -> l ≡ₚ l' ->
  (forall a b, a ∈ l -> b ∈ l -> GetHash a = GetHash b -> a = b) -> l = l'.
Proof.
  intros Hl. revert l'. induction Hl as [|a l Hl IH Ha]; intros l' Hl' Hp Hinj.
  - symmetry. apply Permutation_nil. by rewrite Hp.
  - destruct Hl' as [|b l' Hl' Hb]; [by apply Permutation_sym, Permutation_nil_cons in Hp|].
    assert (a = b) as <-.
    { assert (b ∈ a :: l) as Hb' by (rewrite Hp; left). assert (a ∈ b :: l') as Ha' by (rewrite <- Hp; left).
      apply elem_of_cons in Hb' as [->|Hbl]; [done|]. apply elem_of_cons in Ha' as [->|Hal']; [done|].
      apply Hinj; [left|by right|]. rewrite Forall_forall in Ha, Hb. specialize (Ha b Hbl). specialize (Hb a Hal').
      rewrite hash_le_val in Ha, Hb. apply be_val_inj; [by rewrite !GetHash_length|done|done|lia]. }
    f_equal. apply IH; [done|by apply Permutation_cons_inv in Hp|]. intros x y Hx Hy. apply Hinj; by right.
Qed.

Lemma sort_sorted_id l :
  StronglySorted (hash_le GetHash) l -> (forall a b, a ∈ l -> b ∈ l -> GetHash a = GetHash b -> a = b) ->
  sort_by_hash GetHash l = l.
Proof. intros Hl Hinj. symmetry. apply sorted_hash_unique; [done|apply sort_sorted|by rewrite sort_perm|done]. Qed.

Lemma IsSorted_spec l : IsSorted GetHash l = true <-> StronglySorted (hash_le GetHash) l.
Proof.
  split.
  - intros H. apply Sorted_StronglySorted; [apply _|]. induction l as [|a l IH]; [constructor|]. destruct l as [|b l]; [by repeat constructor|].
    cbn [IsSorted] in H. destruct (BigInteger_gt (GetHash a) (GetHash b)) eqn:E; [done|]. constructor; [by apply IH|by constructor].
  - induction 1 as [|a l Hl IH Ha]; [done|]. destruct l as [|b l]; [done|]. cbn [IsSorted] in *.
    apply Forall_cons in Ha as [Ha _]. unfold hash_le in Ha. unfold BigInteger_gt. by rewrite Ha.
Qed.

End sorting.

(** *** Bodies *)

Hypothesis Blake2b_length : forall x, length (Blake2b x) = 32%nat.
Hypothesis Blake2b_byte : forall x, Forall is_byte (Blake2b x).

(** A list in wire order: sorted by hash, and no two elements share a hash. *)
Definition canonical {A} (GetHash : A -> Hash) (l : list A) : Prop :=
  StronglySorted (hash_le GetHash) l /\ (forall a b, a ∈ l -> b ∈ l -> GetHash a = GetHash b -> a = b).

Record TransactionBody_wf (v : EProtocolVersion) (body : TransactionBody) : Prop := {
  tbw_inputs : Forall (TransactionInput_wf v) (tb_inputs body);
  tbw_outputs : Forall (TransactionOutput_wf v) (tb_outputs body);
  tbw_kernels : Forall (TransactionKernel_wf v) (tb_kernels body);
  tbw_lengths : length (tb_inputs body) < 2 ^ 64 /\ length (tb_outputs body) < 2 ^ 64 /\ length (tb_kernels body) < 2 ^ 64;
  tbw_sorted_inputs : canonical (TransactionInput_GetHash Blake2b) (tb_inputs body);
  tbw_sorted_outputs : canonical (TransactionOutput_GetHash Blake2b) (tb_outputs body);
  tbw_sorted_kernels : canonical (TransactionKernel_GetHash Blake2b) (tb_kernels body);
}.

Definition body_bytes (v : EProtocolVersion) (body : TransactionBody) : bytes :=
  be_bytes 8 (length (tb_inputs body)) ++ be_bytes 8 (length (tb_outputs body)) ++ be_bytes 8 (length (tb_kernels body)) ++
  concat (map (input_bytes v) (tb_inputs body)) ++ concat (map (Serialized v) (tb_outputs body)) ++
  concat (map (Serialized v) (tb_kernels body)).

(** [append_all_bytes] for serializers that depend on the version. *)
Lemma append_all_version {A} (f : A -> Serializer -> Serializer) (enc : EProtocolVersion -> A -> bytes) l s :
  (forall a s, f a s = mkSerializer (s_version s) (s_bytes s ++ enc (s_version s) a)) ->
  append_all f l s = mkSerializer (s_version s) (s_bytes s ++ concat (map (enc (s_version s)) l)).
Proof.
  intros Hf. revert s. induction l as [|a l IH]; intros s; cbn [append_all map concat].
  - rewrite app_nil_r. by destruct s.
  - rewrite IH, Hf. cbn [s_version s_bytes]. by rewrite app_assoc.
Qed.

Lemma TransactionBody_Serialize_bytes body s :
  TransactionBody_Serialize body s = mkSerializer (s_version s) (s_bytes s ++ body_bytes (s_version s) body).
Proof.
  unfold TransactionBody_Serialize.
  rewrite (append_all_version TransactionInput_Serialize input_bytes) by apply TransactionInput_Serialize_bytes.
  rewrite (append_all_version (@Serialize TransactionOutput _) Serialized) by (intros; apply serialize_appends).
  rewrite (append_all_version (@Serialize TransactionKernel _) Serialized) by (intros; apply serialize_appends).
  cbn [s_version s_bytes]. unfold body_bytes. unfold AppendU64. rewrite !Append_be. cbn [s_version s_bytes]. by rewrite <- !app_assoc.
Qed.

Lemma canonical_twice {A} (GetHash : A -> Hash) l :
  (forall a, length (GetHash a) = 32%nat) -> (forall a, Forall is_byte (GetHash a)) -> canonical GetHash l ->
  sort_by_hash GetHash (sort_by_hash GetHash l) = l.
Proof. intros Hl Hb [Hs Hi]. by rewrite !(sort_sorted_id GetHash Hl Hb l Hs Hi). Qed.

Lemma reads_TransactionBody v body : TransactionBody_wf v body ->
  reads v (TransactionBody_Deserialize Blake2b GetOutputType) (body_bytes v body) body.
Proof.
  intros [Hi Ho Hk (Li & Lo & Lk) Si So Sk]. unfold TransactionBody_Deserialize, body_bytes.
  read_be 8%nat. read_be 8%nat. read_be 8%nat. rewrite !Nat2Z.id.
  eapply reads_bind; [apply reads_list; eapply Forall_impl; [apply Hi|]; intros; by apply reads_TransactionInput|cbv beta].
  eapply reads_bind; [apply reads_list; eapply Forall_impl; [apply Ho|]; intros; by apply deserialize_reads|cbv beta].
  rewrite <- (app_nil_r (concat _)).
  eapply reads_bind; [apply reads_list; eapply Forall_impl; [apply Hk|]; intros; by apply deserialize_reads|cbv beta zeta].
  unfold TransactionBody_new. rewrite !canonical_twice by (done || intros; apply Blake2b_length || apply Blake2b_byte).
  destruct body. apply reads_ret.
Qed.

(** *** Cut-through *)

Definition sum_of {A} (f : A -> Z) (l : list A) : Z := foldr (fun a z => f a + z) 0 l.

Lemma sum_of_app {A} (f : A -> Z) l l' : sum_of f (l ++ l') = sum_of f l + sum_of f l'.
Proof. unfold sum_of. induction l as [|a l IH]; [done|]. cbn [app foldr]. rewrite IH. lia. Qed.

Lemma sum_of_perm {A} (f : A -> Z) l l' : l ≡ₚ l' -> sum_of f l = sum_of f l'.
Proof. unfold sum_of. induction 1; cbn [foldr]; lia. Qed.

Lemma sum_of_sort {A} (h : A -> Hash) (g : A -> Commitment) (f : Commitment -> Z) l :
  sum_of f (map g (sort_by_hash h l)) = sum_of f (map g l).
Proof. apply sum_of_perm, Permutation_map, sort_perm. Qed.

Lemma sum_of_filter {A} (f : A -> Z) (P : A -> Prop) `{!forall x, Decision (P x)} l :
  sum_of f l = sum_of f (filter P l) + sum_of f (filter (fun x => ~ P x) l).
Proof.
  unfold sum_of. induction l as [|a l IH]; [done|]. rewrite !filter_cons. cbn [foldr]. destruct (decide (P a)).
  - rewrite decide_False by tauto. cbn [foldr]. lia.
  - rewrite decide_True by done. cbn [foldr]. lia.
Qed.

(** Two duplicate-free lists lose the same elements. *)
Lemma sum_of_difference (f : Commitment -> Z) l l' : NoDup l -> NoDup l' ->
  sum_of f (filter (fun c => c ∉ l) l') - sum_of f (filter (fun c => c ∉ l') l) = sum_of f l' - sum_of f l.
Proof.
  intros Hl Hl'. rewrite (sum_of_filter f (fun c => c ∉ l) l'), (sum_of_filter f (fun c => c ∉ l') l).
  match goal with |- _ = (_ + ?x) - (_ + ?y) => enough (x = y) by lia end.
  apply sum_of_perm, NoDup_Permutation; [by apply NoDup_filter..|]. intros c. rewrite !list_elem_of_filter.
  destruct (decide (c ∈ l)), (decide (c ∈ l')); tauto.
Qed.

Lemma map_filter_commitment {A} (g : A -> Commitment) (l : list Commitment) (xs : list A) :
  map g (filter (fun x => g x ∉ l) xs) = filter (fun c => c ∉ l) (map g xs).
Proof.
  induction xs as [|x xs IH]; [done|]. cbn [map]. rewrite !filter_cons. destruct (decide (g x ∉ l)); cbn [map]; by rewrite IH.
Qed.

Lemma StronglySorted_weaken {A} (R R' : A -> A -> Prop) l :
  (forall a b, R a b -> R' a b) -> StronglySorted R l -> StronglySorted R' l.
Proof. intros H. induction 1 as [|a l _ IH Ha]; constructor; [done|]. eapply Forall_impl; [apply Ha|]. intros b. apply H. Qed.

(** In a list sorted by [R] where [eqb] is equality of the keys, no element equals
    the one before it exactly when the order is strict. *)
Lemma has_repeat_none {A} (eqb : A -> A -> bool) (R : A -> A -> Prop) l :
  Transitive R -> StronglySorted R l ->
  (forall a b, R a b -> eqb b a = true <-> R b a) -> has_repeat eqb l = false <-> StronglySorted (fun a b => R a b /\ ~ R b a) l.
Proof.
  intros Ht Hl He. split.
  - intros H. apply Sorted_StronglySorted.
    + intros a b c [Hab Hba] [Hbc Hcb]. split; [by etrans|]. intros Hca. apply Hba. by etrans.
    + induction Hl as [|a l Hl IH Ha]; [constructor|]. destruct l as [|b l]; [by repeat constructor|].
      cbn [has_repeat] in H. destruct (eqb b a) eqn:E; [done|]. constructor; [by apply IH|]. constructor.
      apply Forall_cons in Ha as [Ha _]. split; [done|]. intros Hba. apply (He a b Ha) in Hba. congruence.
  - clear Hl. induction 1 as [|a l Hl IH Ha]; [done|]. destruct l as [|b l]; [done|]. cbn [has_repeat].
    apply Forall_cons in Ha as [[Hab Ha] _]. destruct (eqb b a) eqn:E; [by apply (He a b Hab) in E|done].
Qed.

End laws.

(** ** Properties *)

Section properties.
Context (Blake2b : bytes -> Hash) (GetOutputType : Commitment -> Z).
Hypothesis Blake2b_length : forall x, length (Blake2b x) = 32%nat.
Hypothesis Blake2b_byte : forall x, Forall is_byte (Blake2b x).

(** C22: a transaction written in any protocol version is read back: inputs with
    or without their features, which the receiver's coin view has to know from
    version 3 on, kernels with the fields of their kind, the lists in the order of
    their hashes. *)
Theorem Transaction_roundtrip v (t : Transaction) :
  length (tx_offset t) = 32%nat -> TransactionBody_wf Blake2b GetOutputType v (tx_body t) ->
  let data := s_bytes (Transaction_Serialize t (Serializer_new v)) in
  length data < 2 ^ 64 ->
  Transaction_Deserialize Blake2b GetOutputType (ByteBuffer_new data v) = Ok (t, mkByteBuffer (length data) data v).
Proof.
  intros Hoff Hwf data Hlen. apply reads_whole; [|done]. unfold data, Transaction_Serialize.
  rewrite TransactionBody_Serialize_bytes. cbn [AppendBigInteger Serializer_put Serializer_new s_bytes s_version app].
  unfold Transaction_Deserialize. destruct t as [offset body]. cbn [tx_offset tx_body] in *. read_raw.
  apply (reads_map _ (TransactionBody_Deserialize Blake2b GetOutputType) _ _ (mkTransaction offset)). by apply reads_TransactionBody.
Qed.

(** the size of a kernel on the wire, by protocol version and kind. *)
Theorem TransactionKernel_size v k :
  TransactionKernel_wf v k ->
  length (Serialized v k) =
    (if at_least_V2 v then
       if tk_features k =? COINBASE_KERNEL then 98
       else if tk_features k =? HEIGHT_LOCKED then 114
       else if tk_features k =? NO_RECENT_DUPLICATE then 108
       else 106
     else 114) :> Z.
Proof.
  intros [Hf _ _ Hc Hs _ _]. unfold Serialized. rewrite TransactionKernel_Serialize_bytes. cbn [Serializer_new s_bytes s_version app].
  unfold kernel_bytes, kernel_fields. rewrite !length_app, Hc, Hs, length_be_bytes. destruct (at_least_V2 v).
  - assert (tk_features k = 0 \/ tk_features k = 1 \/ tk_features k = 2 \/ tk_features k = 3) as [->|[->|[->| ->]]] by lia;
      cbn; rewrite ?length_app, ?Fee_length, ?length_be_bytes; reflexivity.
  - by rewrite length_app, Fee_length, length_be_bytes.
Qed.

(** C37: whatever bytes a body is read from, its lists are sorted by hash, so that
    the sortedness check of the validator passes on it. *)
Theorem TransactionBody_Deserialize_sorted b body b' :
  TransactionBody_Deserialize Blake2b GetOutputType b = Ok (body, b') ->
  IsSorted (TransactionInput_GetHash Blake2b) (tb_inputs body) = true /\
  IsSorted (TransactionOutput_GetHash Blake2b) (tb_outputs body) = true /\
  IsSorted (TransactionKernel_GetHash Blake2b) (tb_kernels body) = true.
Proof.
  unfold TransactionBody_Deserialize, mbind, reader_bind. intros E.
  repeat match type of E with context [match ?r with Ok _ => _ | Throw _ => _ end] => destruct r as [[]|]; [|done] end.
  injection E as <- _. cbn [TransactionBody_new tb_inputs tb_outputs tb_kernels].
  rewrite !IsSorted_spec by (intros; apply Blake2b_length || apply Blake2b_byte).
  split; [|split]; apply sort_sorted; intros; apply Blake2b_length || apply Blake2b_byte.
Qed.

(** C31: aggregating transactions keeps an input exactly when no output has its
    commitment, and conversely, each at most as often as it was; the result passes
    the cut-through check, all three lists are sorted by hash, no kernel is lost or
    added, and if no two inputs and no two outputs
    share a commitment, what outputs exceed inputs by is what it was. *)
Theorem Aggregate_spec AddBlindingFactors ts t inputs outputs :
  (2 <= length ts)%nat -> Aggregate Blake2b AddBlindingFactors ts = Ok t ->
  inputs = concat (map (fun t => tb_inputs (tx_body t)) ts) ->
  outputs = concat (map (fun t => tb_outputs (tx_body t)) ts) ->
  VerifyCutThrough (tx_body t) = Ok tt /\
  (forall i, i ∈ tb_inputs (tx_body t) <-> i ∈ inputs /\ ti_commitment i ∉ map to_commitment outputs) /\
  (forall o, o ∈ tb_outputs (tx_body t) <-> o ∈ outputs /\ to_commitment o ∉ map ti_commitment inputs) /\
  tb_inputs (tx_body t) ⊆+ inputs /\ tb_outputs (tx_body t) ⊆+ outputs /\
  tb_kernels (tx_body t) ≡ₚ concat (map (fun t => tb_kernels (tx_body t)) ts) /\
  StronglySorted (hash_le (TransactionInput_GetHash Blake2b)) (tb_inputs (tx_body t)) /\
  StronglySorted (hash_le (TransactionOutput_GetHash Blake2b)) (tb_outputs (tx_body t)) /\
  StronglySorted (hash_le (TransactionKernel_GetHash Blake2b)) (tb_kernels (tx_body t)) /\
  (NoDup (map ti_commitment inputs) -> NoDup (map to_commitment outputs) -> forall f : Commitment -> Z,
     sum_of f (map to_commitment (tb_outputs (tx_body t))) - sum_of f (map ti_commitment (tb_inputs (tx_body t))) =
     sum_of f (map to_commitment outputs) - sum_of f (map ti_commitment inputs)).
Proof.
  clear GetOutputType. intros Hts E -> ->. destruct ts as [|t1 [|t2 ts]]; [simpl in Hts; lia..|]. revert E. unfold Aggregate.
  set (ts' := t1 :: t2 :: ts). cbn [PerformCutThrough].
  set (inputs := concat (map (fun t => tb_inputs (tx_body t)) ts')). set (outputs := concat (map (fun t => tb_outputs (tx_body t)) ts')).
  destruct (AddBlindingFactors (map tx_offset ts') []) as [offset|]; [|done].
  intros [= <-]. cbn [tx_body TransactionBody_new tb_inputs tb_outputs tb_kernels].
  assert (forall i, i ∈ sort_by_hash (TransactionInput_GetHash Blake2b) (sort_by_hash (TransactionInput_GetHash Blake2b)
    (filter (fun input => ti_commitment input ∉ map to_commitment outputs) inputs)) <-> i ∈ inputs /\ ti_commitment i ∉ map to_commitment outputs) as Hi.
  { intros i. rewrite !sort_perm, list_elem_of_filter. tauto. }
  assert (forall o, o ∈ sort_by_hash (TransactionOutput_GetHash Blake2b) (sort_by_hash (TransactionOutput_GetHash Blake2b)
    (filter (fun output => to_commitment output ∉ map ti_commitment inputs) outputs)) <-> o ∈ outputs /\ to_commitment o ∉ map ti_commitment inputs) as Ho.
  { intros o. rewrite !sort_perm, list_elem_of_filter. tauto. }
  split; [|split; [done|split; [done|split; [by rewrite !sort_perm; apply sublist_submseteq, sublist_filter|]]]].
  2: { split; [by rewrite !sort_perm; apply sublist_submseteq, sublist_filter|]. split; [by rewrite !sort_perm|]. do 3 (split; [apply sort_sorted; intros; apply Blake2b_length || apply Blake2b_byte|]).
    intros Hni Hno f. rewrite !sum_of_sort, !map_filter_commitment. by apply sum_of_difference. }
  unfold VerifyCutThrough. cbn [tb_inputs tb_outputs]. destruct (existsb _ _) eqn:Ex; [|done].
  apply existsb_exists in Ex as (i & Hin & Hb). apply bool_decide_eq_true in Hb. apply list_elem_of_In, Hi in Hin as [_ Hnot].
  apply list_elem_of_In, in_map_iff in Hb as (o & Eo & Hin'). apply list_elem_of_In, Ho in Hin' as [Hin' _].
  destruct Hnot. rewrite <- Eo. apply list_elem_of_In, in_map_iff. exists o. by rewrite <- list_elem_of_In.
Qed.

(** the body check accepts exactly the bodies whose lists are sorted by hash,
    the outputs strictly, and in which no input equals the one before. *)
Theorem VerifySorted_spec body :
  VerifySorted Blake2b body = Ok tt <->
  StronglySorted (hash_le (TransactionInput_GetHash Blake2b)) (tb_inputs body) /\
  StronglySorted (fun a b => be_val (TransactionOutput_GetHash Blake2b a) < be_val (TransactionOutput_GetHash Blake2b b)) (tb_outputs body) /\
  StronglySorted (hash_le (TransactionKernel_GetHash Blake2b)) (tb_kernels body) /\
  has_repeat TransactionInput_eq (tb_inputs body) = false.
Proof.
  set (hO := TransactionOutput_GetHash Blake2b).
  assert (forall o, length (hO o) = 32%nat) as HlO by (intros; apply Blake2b_length).
  assert (forall o, Forall is_byte (hO o)) as HbO by (intros; apply Blake2b_byte).
  assert (forall a b, hash_le hO a b /\ ~ hash_le hO b a <-> be_val (hO a) < be_val (hO b)) as Hlt.
  { intros a b. rewrite !hash_le_val by done. lia. }
  assert (VerifySorted Blake2b body = Ok tt <->
    IsSorted (TransactionInput_GetHash Blake2b) (tb_inputs body) = true /\
    (IsSorted hO (tb_outputs body) = true /\ has_repeat (TransactionOutput_eq Blake2b) (tb_outputs body) = false) /\
    IsSorted (TransactionKernel_GetHash Blake2b) (tb_kernels body) = true /\
    has_repeat TransactionInput_eq (tb_inputs body) = false) as ->.
  { unfold VerifySorted. fold hO. destruct (IsSorted _ (tb_inputs body)), (IsSorted _ (tb_outputs body)), (IsSorted _ (tb_kernels body)),
      (has_repeat TransactionInput_eq _), (has_repeat _ (tb_outputs body)); cbn; split; try done; by intros (? & [? ?] & ? & ?). }
  rewrite !IsSorted_spec by (intros; apply Blake2b_length || apply Blake2b_byte). apply and_iff_compat_l, and_iff_compat_r.
  assert (forall a b, hash_le hO a b -> TransactionOutput_eq Blake2b b a = true <-> hash_le hO b a) as Heq.
  { intros a b. unfold TransactionOutput_eq. fold hO. rewrite BigInteger_eq_spec by (by rewrite !HlO).
    rewrite !hash_le_val, bool_decide_eq_true by done. intros Hab. split; [intros ->; lia|].
    intros Hba. apply be_val_inj; [by rewrite !HlO|done|done|lia]. }
  assert (Transitive (hash_le hO)) as Htr by (intros a b c; rewrite !hash_le_val by done; lia).
  split.
  - intros [Hs Hr]. eapply StronglySorted_weaken; [|by eapply (has_repeat_none _ _ _ Htr Hs Heq)]. intros a b. apply Hlt.
  - intros Hs. assert (StronglySorted (hash_le hO) (tb_outputs body)) as Hs'.
    { eapply StronglySorted_weaken; [|apply Hs]. intros a b. rewrite hash_le_val by done. lia. }
    split; [done|]. apply (has_repeat_none _ _ _ Htr Hs' Heq). eapply StronglySorted_weaken; [|apply Hs]. intros a b. apply Hlt.
Qed.

(** an input is not equal to one of the same commitment and other features,
    while their hashes agree: a body can repeat an input and pass the check. *)
Theorem VerifySorted_repeated_input (c : Commitment) :
  VerifySorted Blake2b (mkTransactionBody [mkTransactionInput 0 c; mkTransactionInput 1 c; mkTransactionInput 0 c] [] []) = Ok tt.
Proof.
  unfold VerifySorted. cbn [tb_inputs tb_outputs tb_kernels IsSorted has_repeat TransactionInput_eq ti_features Z.eqb andb].
  unfold TransactionInput_GetHash, TransactionInput_Serialize. cbn [at_least_V3 ProtocolVersion_Local Serializer_new s_version negb ti_commitment].
  set (h := Blake2b _). assert (BigInteger_gt h h = false) as ->; [|done].
  unfold BigInteger_gt. rewrite BigInteger_lt_spec by (apply Blake2b_byte || done). apply Z.ltb_ge. lia.
Qed.

End properties.

(** ** Evaluation *)

(** A small hash function into bytes. *)
Definition byte_hash (x : bytes) : Hash := be_bytes 32 (foldl (fun a b => (a * 257 + b + 7) mod 1000000007) 1 x).

Lemma byte_hash_length x : length (byte_hash x) = 32%nat.
Proof. apply length_be_bytes. Qed.

Lemma byte_hash_byte x : Forall is_byte (byte_hash x).
Proof. apply Forall_rev, le_bytes_byte. Qed.

Definition example_commitment (c : Z) : Commitment := repeat c 33.
Definition example_kernel (features shift fee lock : Z) : TransactionKernel :=
  mkTransactionKernel features (mkFee shift fee) lock (example_commitment 8) (repeat 9 64).
Definition example_output (c : Z) : TransactionOutput := mkTransactionOutput 1 (example_commitment c) (repeat 5 675).

(** The inputs are in the order of their hashes. *)
Definition example_tx : Transaction :=
  mkTransaction (repeat 7 32)
    (mkTransactionBody [mkTransactionInput 0 (example_commitment 4); mkTransactionInput 0 (example_commitment 3)]
       [example_output 6] [example_kernel 3 2 (2 ^ 39 + 1) 1440]).

Lemma example_kernel_wf v features shift fee lock :
  0 <= features <= 3 -> is_uint 4 shift -> is_uint 40 fee -> 0 < lock <= WEEK_HEIGHT ->
  (features = HEIGHT_LOCKED \/ features = NO_RECENT_DUPLICATE) ->
  TransactionKernel_wf v (example_kernel features shift fee lock).
Proof.
  intros Hf Hs Hfee Hl Hk. change WEEK_HEIGHT with 10080 in *. constructor; cbn [example_kernel tk_features tk_fee tk_lockHeight tk_excessCommitment tk_excessSignature];
    [done|done|uint_solve|done|done|done|].
  intros _. unfold HEIGHT_LOCKED, NO_RECENT_DUPLICATE, COINBASE_KERNEL, DEFAULT_KERNEL in *. split; lia.
Qed.

Lemma example_tx_wf : TransactionBody_wf byte_hash (fun _ => 0) V3 (tx_body example_tx).
Proof.
  constructor; cbn [example_tx tx_body tb_inputs tb_outputs tb_kernels].
  - repeat constructor; simpl; lia.
  - repeat constructor; simpl; lia.
  - constructor; [|constructor]. apply example_kernel_wf; [done|done|done|done|by right].
  - done.
  - split.
    + apply IsSorted_spec; [intros; apply byte_hash_length|intros; apply byte_hash_byte|reflexivity].
    + intros a b. rewrite !elem_of_cons. intros [->|[->|[]%elem_of_nil]] [->|[->|[]%elem_of_nil]] E;
        [reflexivity|vm_compute in E; discriminate|vm_compute in E; discriminate|reflexivity].
  - split; [repeat constructor|]. intros a b Ha%list_elem_of_singleton Hb%list_elem_of_singleton. congruence.
  - split; [repeat constructor|]. intros a b Ha%list_elem_of_singleton Hb%list_elem_of_singleton. congruence.
Qed.

Lemma Transaction_roundtrip_witness :
  let data := s_bytes (Transaction_Serialize example_tx (Serializer_new V3)) in
  Transaction_Deserialize byte_hash (fun _ => 0) (ByteBuffer_new data V3) = Ok (example_tx, mkByteBuffer (length data) data V3).
Proof.
  apply (Transaction_roundtrip byte_hash (fun _ => 0) byte_hash_length byte_hash_byte V3 example_tx eq_refl example_tx_wf).
  vm_compute. reflexivity.
Defined.

Lemma TransactionKernel_size_witness : length (Serialized V2 (example_kernel 3 0 5 100)) = 108 :> Z.
Proof. apply (TransactionKernel_size V2). apply example_kernel_wf; [done|done|done|done|by right]. Defined.

Lemma TransactionBody_Deserialize_sorted_witness :
  let data := s_bytes (TransactionBody_Serialize (mkTransactionBody
    [mkTransactionInput 0 (example_commitment 3); mkTransactionInput 0 (example_commitment 4)] [] []) (Serializer_new V1)) in
  exists body b', TransactionBody_Deserialize byte_hash (fun _ => 0) (ByteBuffer_new data V1) = Ok (body, b') /\
    IsSorted (TransactionInput_GetHash byte_hash) (tb_inputs body) = true.
Proof.
  intros data. destruct (TransactionBody_Deserialize byte_hash (fun _ => 0) (ByteBuffer_new data V1)) as [[body b']|e] eqn:E.
  - exists body, b'. split; [reflexivity|]. by apply (TransactionBody_Deserialize_sorted byte_hash (fun _ => 0) byte_hash_length byte_hash_byte _ _ _ E).
  - exfalso. vm_compute in E. discriminate.
Defined.

(** The second transaction spends the output of the first. *)
Definition spending_tx : Transaction :=
  mkTransaction (repeat 1 32)
    (mkTransactionBody [mkTransactionInput 0 (example_commitment 6)] [example_output 2] [example_kernel 0 0 1 0]).

Lemma Aggregate_spec_witness :
  exists t, Aggregate byte_hash (fun _ _ => Ok (repeat 2 32)) [example_tx; spending_tx] = Ok t /\
    VerifyCutThrough (tx_body t) = Ok tt /\ map to_commitment (tb_outputs (tx_body t)) = [example_commitment 2].
Proof.
  eexists. split; [vm_compute; reflexivity|]. split; [|reflexivity].
  refine (proj1 (Aggregate_spec byte_hash byte_hash_length byte_hash_byte (fun _ _ => Ok (repeat 2 32)) [example_tx; spending_tx] _ _ _ _ _ eq_refl eq_refl)); [simpl; lia|vm_compute; reflexivity].
Defined.

Lemma VerifySorted_spec_witness : VerifySorted byte_hash (tx_body example_tx) = Ok tt.
Proof.
  apply (VerifySorted_spec byte_hash byte_hash_length byte_hash_byte).
  split; [apply IsSorted_spec; [intros; apply byte_hash_length|intros; apply byte_hash_byte|reflexivity]|].
  split; [repeat constructor|]. split; [repeat constructor|reflexivity].
Defined.

Lemma VerifySorted_repeated_input_witness :
  VerifySorted byte_hash (mkTransactionBody [mkTransactionInput 0 (example_commitment 1); mkTransactionInput 1 (example_commitment 1);
    mkTransactionInput 0 (example_commitment 1)] [] []) = Ok tt.
Proof. apply (VerifySorted_repeated_input byte_hash byte_hash_byte). Defined.
