(* ===== verification/Crypto.v ===== *)
(** * Commitments and proofs ([src/Crypto])

    What the validators use of the crypto module: Pedersen commitments and their
    sums, range proofs with the cache of commitments verified before, kernel
    signatures.  libsecp256k1-zkp is third-party code: [Secp256k1] has the calls
    made to it, [Secp256k1Laws] what its documentation says of them.  Blinding
    factors, commitments and proofs are byte strings. *)
From S2P Require Import Prelude Serial BigInteger MMRHash Transaction.

(** ** Abelian groups, for the points of the curve *)
Class AbelianGroup (G : Type) := {
  gzero : G;
  gadd : G -> G -> G;
  gopp : G -> G;
  gadd_assoc a b c : gadd a (gadd b c) = gadd (gadd a b) c;
  gadd_comm a b : gadd a b = gadd b a;
  gadd_0_l a : gadd gzero a = a;
  gadd_opp_r a : gadd a (gopp a) = gzero;
}.

Section groups.
Context {G : Type} {AG : AbelianGroup G}.
Implicit Types (a b c d : G) (l : list G).

Definition gsub a b : G := gadd a (gopp b).
Definition gsum l : G := foldr gadd gzero l.

Lemma gadd_0_r a : gadd a gzero = a.
Proof. by rewrite gadd_comm, gadd_0_l. Qed.
Lemma gsum_app l l' : gsum (l ++ l') = gadd (gsum l) (gsum l').
Proof. induction l as [|a l IH]; cbn [gsum foldr app]; [by rewrite gadd_0_l|]. unfold gsum in IH. by rewrite IH, gadd_assoc. Qed.

#[export] Instance gsum_perm : Proper (Permutation ==> eq) gsum.
Proof.
  intros l l' Hp. induction Hp as [|a l l' _ IH|a b l|l l' l'' _ IH _ IH']; cbn [gsum foldr] in *; [done| |..].
  - unfold gsum in IH. by rewrite IH.
  - by rewrite !gadd_assoc, (gadd_comm a b).
  - by rewrite IH.
Qed.

Lemma gadd_cancel a b c : gadd a c = gadd b c -> a = b.
Proof.
  intros E. assert (forall x, gadd (gadd x c) (gopp c) = x) as H by (intros x; by rewrite <- gadd_assoc, gadd_opp_r, gadd_0_r).
  by rewrite <- (H a), E, H.
Qed.

(** A difference by the equation it solves. *)
Lemma gsub_eq a b c : gsub a b = c <-> a = gadd c b.
Proof.
  unfold gsub. split; [intros <-|intros ->].
  - by rewrite <- gadd_assoc, (gadd_comm (gopp b)), gadd_opp_r, gadd_0_r.
  - by rewrite <- gadd_assoc, gadd_opp_r, gadd_0_r.
Qed.
Lemma gsub_add a b : gadd (gsub a b) b = a.
Proof. symmetry. by apply gsub_eq. Qed.
Lemma gsub_0_r a : gsub a gzero = a.
Proof. apply gsub_eq. by rewrite gadd_0_r. Qed.
End groups.

(** Equations of sums that differ in the order of the terms. *)
Ltac group_terms e :=
  lazymatch e with
  | gadd ?a ?b => let x := group_terms a in let y := group_terms b in constr:(x ++ y)
  | ?a => constr:([a])
  end.
Ltac group :=
  lazymatch goal with
  | |- ?a = ?b =>
      let x := group_terms a in let y := group_terms b in
      let Hx := fresh in let Hy := fresh in
      assert (gsum x = a) as Hx by (cbn [gsum foldr app]; rewrite ?gadd_0_r, <- ?gadd_assoc; reflexivity);
      assert (gsum y = b) as Hy by (cbn [gsum foldr app]; rewrite ?gadd_0_r, <- ?gadd_assoc; reflexivity);
      rewrite <- Hx, <- Hy; clear Hx Hy; apply gsum_perm; cbn [app]; solve_Permutation
  end.

(** ** The library *)

(** [P] has the parsed commitments; signatures and public keys are parsed inside
    of the batch verification, which is one call. *)
Class Secp256k1 (P : Type) := {
  commitment_parse : Commitment -> option P;
  commitment_serialize : P -> Commitment;
  pedersen_commit : bytes -> Z -> option P;
  pedersen_commit_sum : list P -> list P -> option P;
  pedersen_blind_sum : list bytes -> Z -> option bytes;
  bulletproof_rangeproof_verify_multi : list bytes -> Z -> list P -> bool;
  schnorrsig_verify_batch : list bytes -> list bytes -> list P -> bool;
}.

(** Commitments are the points other than zero; [value] is a multiple of the
    generator of values, [blind] one of that of blinding factors. *)
Class Secp256k1Laws (P : Type) `{Secp256k1 P} (G : Type) `{AbelianGroup G} := {
  point : P -> G;
  value : Z -> G;
  blind : bytes -> G;
  point_inj p q : point p = point q -> p = q;
  point_nonzero p : point p <> gzero;
  value_add a b : value (a + b) = gadd (value a) (value b);
  parse_serialize p : commitment_parse (commitment_serialize p) = Some p;
  serialize_nonzero p : commitment_serialize p <> ZERO 33;
  serialize_length p : length (commitment_serialize p) = 33%nat;
  commit_point b v p : pedersen_commit b v = Some p -> point p = gadd (value v) (blind b);
  blind_zero : blind (ZERO 32) = gzero;
  commit_sum_point ps ns : match pedersen_commit_sum ps ns with
    | Some p => point p = gsub (gsum (map point ps)) (gsum (map point ns))
    | None => gsub (gsum (map point ps)) (gsum (map point ns)) = gzero
    end;
}.

(** A cache of limited size ([caches/Cache.h]): what was put last is there, and
    whatever is there was put. *)
Class LRUCache (K V C : Type) := {
  cache_get : K -> C -> option V;
  cache_put : K -> V -> C -> C;
}.
Class LRUCacheLaws (K V C : Type) `{LRUCache K V C} := {
  cache_get_put k v c : cache_get k (cache_put k v c) = Some v;
  cache_get_other k k' v w c : k <> k' -> cache_get k' (cache_put k v c) = Some w -> cache_get k' c = Some w;
}.

Section crypto.
Context {P : Type} {SP : Secp256k1 P}.

(** ** [Pedersen] *)
Fixpoint ConvertCommitments (commitments : list Commitment) : result (list P) :=
  match commitments with
  | [] => Ok []
  | c :: commitments =>
      p ← of_option CryptoException (commitment_parse c);
      ps ← ConvertCommitments commitments;
      Ok (p :: ps)
  end.

Definition PedersenCommit (value : Z) (blindingFactor : bytes) : result Commitment :=
  commitment ← of_option CryptoException (pedersen_commit blindingFactor value);
  Ok (commitment_serialize commitment).

Definition PedersenCommitSum (positive negative : list Commitment) : result Commitment :=
  positiveCommitments ← ConvertCommitments positive;
  negativeCommitments ← ConvertCommitments negative;
  commitment ← of_option CryptoException (pedersen_commit_sum positiveCommitments negativeCommitments);
  Ok (commitment_serialize commitment).

Definition PedersenBlindSum (positive negative : list bytes) : result bytes :=
  of_option CryptoException (pedersen_blind_sum (positive ++ negative) (length positive)).

(** ** [Crypto] *)
Definition ZERO_COMMITMENT : Commitment := ZERO 33.
#[global] Arguments ZERO_COMMITMENT : simpl never.
Definition CommitTransparent (value : Z) : result Commitment := PedersenCommit value (ZERO 32).
Definition CommitBlinded (value : Z) (blindingFactor : bytes) : result Commitment := PedersenCommit value blindingFactor.

Definition AddCommitments (positive negative : list Commitment) : result Commitment :=
  let sanitizedPositive := filter (fun c => BigInteger_neq c ZERO_COMMITMENT = true) positive in
  let sanitizedNegative := filter (fun c => BigInteger_neq c ZERO_COMMITMENT = true) negative in
  PedersenCommitSum sanitizedPositive sanitizedNegative.

Definition Crypto_AddBlindingFactors (positive negative : list bytes) : result bytes :=
  let sanitizedPositive := filter (fun b => BigInteger_neq b ZERO_HASH = true) positive in
  let sanitizedNegative := filter (fun b => BigInteger_neq b ZERO_HASH = true) negative in
  match sanitizedPositive, sanitizedNegative with
  | [], [] => Ok ZERO_HASH
  | _, _ => PedersenBlindSum sanitizedPositive sanitizedNegative
  end.

Definition VerifyAggregateSignatures (signatures : list bytes) (commitments : list Commitment) (messages : list Hash) : bool :=
  match ConvertCommitments commitments with
  | Ok parsedPubKeys => schnorrsig_verify_batch signatures messages parsedPubKeys
  | Throw _ => false
  end.

(** ** Range proofs *)
Section bulletproofs.
Context {L : Type} {HL : LRUCache Commitment Commitment L}.

Definition WasAlreadyVerified (commitment : Commitment) (cache : L) : bool :=
  match cache_get commitment cache with Some c => BigInteger_eq c commitment | None => false end.
Definition AddToCache (commitment : Commitment) (cache : L) : L := cache_put commitment commitment cache.

(** The length of the first proof is read before anything else. *)
Definition VerifyBulletproofs (rangeProofs : list (Commitment * bytes)) : ST L bool :=
  match rangeProofs with
  | [] => st_throw UB
  | front :: _ =>
      cache ← st_get;
      let proofLength := length front.2 in
      let unverified := filter (fun p => WasAlreadyVerified p.1 cache = false) rangeProofs in
      let commitments := map fst unverified in
      match commitments with
      | [] => mret true
      | _ =>
          commitmentPointers ← st_lift (ConvertCommitments commitments);
          if negb (bulletproof_rangeproof_verify_multi (map snd unverified) proofLength commitmentPointers) then mret false
          else
            _ ← st_modify (fun cache => foldl (fun cache c => AddToCache c cache) cache commitments);
            mret true
      end
  end.
End bulletproofs.
End crypto.

(** ** What commitments stand for

    The point of a commitment; the zero commitment, which sums leave out, stands
    for the neutral element. *)
Section points.
Context {P : Type} {SP : Secp256k1 P} {G : Type} {AG : AbelianGroup G} {SL : Secp256k1Laws P G}.
Implicit Types (cs : list Commitment) (c : Commitment) (g : G).

Definition cval c : option G :=
  if decide (c = ZERO_COMMITMENT) then Some gzero else point <$> commitment_parse c.

Fixpoint csum cs : option G :=
  match cs with
  | [] => Some gzero
  | c :: cs => g ← cval c; h ← csum cs; Some (gadd g h)
  end.

(** The serialized commitment of a point. *)
Definition commit_of g c : Prop := exists p, c = commitment_serialize p /\ point p = g.

Definition is_commitment c : Prop := length c = 33%nat.

Lemma commit_of_val g c : commit_of g c -> cval c = Some g /\ is_commitment c /\ g <> gzero.
Proof.
  intros (p & -> & <-). unfold cval. rewrite decide_False by apply serialize_nonzero. rewrite parse_serialize.
  split; [done|]. split; [apply serialize_length|apply point_nonzero].
Qed.

Lemma commit_of_fun g c c' : commit_of g c -> commit_of g c' -> c = c'.
Proof. intros (p & -> & Hp) (q & -> & Hq). f_equal. apply point_inj. congruence. Qed.

Lemma csum_app cs cs' : csum (cs ++ cs') = g ← csum cs; h ← csum cs'; Some (gadd g h).
Proof.
  induction cs as [|c cs IH]; cbn [csum app]; [destruct (csum cs') as [h|]; cbn; [by rewrite gadd_0_l|done]|].
  rewrite IH. destruct (cval c) as [g|]; [|done]. cbn. destruct (csum cs) as [h|]; [|done]. cbn.
  destruct (csum cs') as [k|]; [|done]. cbn. by rewrite gadd_assoc.
Qed.

Lemma csum_single c : csum [c] = cval c.
Proof. cbn [csum]. destruct (cval c); cbn; [by rewrite gadd_0_r|done]. Qed.

Lemma csum_snoc cs c g h : csum cs = Some g -> cval c = Some h -> csum (cs ++ [c]) = Some (gadd g h).
Proof. intros E E'. by rewrite csum_app, csum_single, E, E'. Qed.

Lemma csum_perm cs cs' : cs ≡ₚ cs' -> csum cs = csum cs'.
Proof.
  intros Hp. induction Hp as [|c cs cs' _ IH|a b cs|? ? ? _ IH _ IH']; cbn [csum]; [done|by rewrite IH| |by rewrite IH].
  destruct (cval a), (cval b), (csum cs); cbn; try done. f_equal. group.
Qed.

Lemma csum_elem cs g c : csum cs = Some g -> c ∈ cs -> is_Some (cval c).
Proof.
  revert g. induction cs as [|a cs IH]; intros g E Hc; [by apply elem_of_nil in Hc|]. cbn [csum] in E.
  destruct (cval a) as [x|] eqn:Ea; [|done]. cbn in E. destruct (csum cs) as [h|]; [|done].
  apply elem_of_cons in Hc as [->|Hc]; [by rewrite Ea|by apply (IH h)].
Qed.

(** ** Sums of commitments *)
Lemma ConvertCommitments_ok cs ps : ConvertCommitments cs = Ok ps <-> Forall2 (fun c p => commitment_parse c = Some p) cs ps.
Proof.
  revert ps. induction cs as [|c cs IH]; intros ps; cbn [ConvertCommitments].
  - split; [intros [=<-]; constructor|intros H; by inversion H].
  - split.
    + destruct (commitment_parse c) as [p|] eqn:Ep; [|done]. cbn. destruct (ConvertCommitments cs) as [qs|]; [|done].
      intros [= <-]. constructor; [done|by apply IH].
    + intros H. inversion H as [|? p ? qs Hp Hq]; subst. apply IH in Hq. by rewrite Hp; cbn; rewrite Hq.
Qed.

Definition sanitized cs : list Commitment := filter (fun c => BigInteger_neq c ZERO_COMMITMENT = true) cs.

Lemma neq_zero_commitment c : is_commitment c -> BigInteger_neq c ZERO_COMMITMENT = negb (bool_decide (c = ZERO_COMMITMENT)).
Proof. intros Hc. unfold BigInteger_neq. by rewrite BigInteger_eq_spec. Qed.

Lemma sanitized_csum cs g :
  Forall is_commitment cs ->
  csum cs = Some g <-> exists ps, ConvertCommitments (sanitized cs) = Ok ps /\ gsum (map point ps) = g.
Proof.
  intros Hl. revert g. induction Hl as [|c cs Hc _ IH]; intros g.
  - split; [intros [= <-]; by exists []|intros (ps & [= <-] & <-); done].
  - unfold sanitized in *. cbn [csum]. rewrite filter_cons. rewrite neq_zero_commitment by done.
    unfold cval. destruct (decide (c = ZERO_COMMITMENT)) as [->|Hne].
    + rewrite bool_decide_true by done. cbn. rewrite <- IH. destruct (csum cs) as [h|]; cbn; [by rewrite gadd_0_l|done].
    + rewrite bool_decide_false by done. rewrite decide_True by done. cbn [ConvertCommitments].
      destruct (commitment_parse c) as [p|]; cbn; [|split; [done|by intros (? & ? & _)]]. split.
      * destruct (csum cs) as [h|]; [|done]. intros [= <-]. destruct (proj1 (IH h) eq_refl) as (ps & -> & <-). by exists (p :: ps).
      * intros (ps & E & <-). destruct (ConvertCommitments _) as [qs|] eqn:Eq; [|done]. injection E as <-.
        by rewrite (proj2 (IH _) (ex_intro _ qs (conj eq_refl eq_refl))).
Qed.

Lemma AddCommitments_ok pos neg c :
  Forall is_commitment pos -> Forall is_commitment neg ->
  AddCommitments pos neg = Ok c <-> exists a b, csum pos = Some a /\ csum neg = Some b /\ commit_of (gsub a b) c.
Proof.
  intros Hp Hn. unfold AddCommitments, PedersenCommitSum. fold (sanitized pos). fold (sanitized neg). split.
  - destruct (ConvertCommitments (sanitized pos)) as [ps|] eqn:Ep; [|done]. destruct (ConvertCommitments (sanitized neg)) as [ns|] eqn:En; [|done].
    cbn. intros E. exists (gsum (map point ps)), (gsum (map point ns)).
    split; [apply sanitized_csum; [done|by exists ps]|]. split; [apply sanitized_csum; [done|by exists ns]|].
    pose proof (commit_sum_point ps ns) as Hs. destruct (pedersen_commit_sum ps ns) as [p|]; [|done]. injection E as <-. by exists p.
  - intros (a & b & Ea & Eb & p & -> & Hpt). apply (sanitized_csum pos a Hp) in Ea as (ps & -> & <-). apply (sanitized_csum neg b Hn) in Eb as (ns & -> & <-).
    cbn. pose proof (commit_sum_point ps ns) as Hs. destruct (pedersen_commit_sum ps ns) as [q|].
    + cbn. do 2 f_equal. apply point_inj. congruence.
    + destruct (point_nonzero p). congruence.
Qed.

Lemma CommitTransparent_ok v c : CommitTransparent v = Ok c -> commit_of (value v) c.
Proof.
  unfold CommitTransparent, PedersenCommit. destruct (pedersen_commit (ZERO 32) v) as [p|] eqn:E; [|done]. intros [= <-].
  exists p. split; [done|]. by rewrite (commit_point _ _ _ E), blind_zero, gadd_0_r.
Qed.

Lemma CommitBlinded_ok v b c : CommitBlinded v b = Ok c -> commit_of (gadd (value v) (blind b)) c.
Proof.
  unfold CommitBlinded, PedersenCommit. destruct (pedersen_commit b v) as [p|] eqn:E; [|done]. intros [= <-].
  exists p. split; [done|]. apply (commit_point _ _ _ E).
Qed.

Lemma value_0 : value 0 = gzero.
Proof. apply gadd_cancel with (value 0). by rewrite <- value_add, gadd_0_l. Qed.
Lemma value_opp v : gadd (value v) (value (- v)) = gzero.
Proof. rewrite <- value_add. replace (v + - v) with 0 by lia. apply value_0. Qed.
End points.

(** ** Instances to evaluate with

    The integers modulo [2 ^ 64] for the curve, both generators among them, and
    an association list for the cache.  Every proof and signature verifies. *)
Definition TOY_ORDER : Z := 2 ^ 64.
Definition toy_group : Type := dsig (fun z => 0 <= z < TOY_ORDER).
Definition toy_point : Type := dsig (fun z => 0 < z < TOY_ORDER).

Definition toy_z (g : toy_group) : Z := proj1_sig g.
Definition toy_pz (p : toy_point) : Z := proj1_sig p.

Lemma toy_mod_ok z : 0 <= z mod TOY_ORDER < TOY_ORDER.
Proof. by apply Z.mod_pos_bound. Qed.
Definition toy_elt (z : Z) : toy_group := dexist (z mod TOY_ORDER) (toy_mod_ok z).

Lemma toy_elt_eq z (a : toy_group) : z mod TOY_ORDER = toy_z a -> toy_elt z = a.
Proof. intros E. by apply dsig_eq. Qed.

Definition toy_add (a b : toy_group) : toy_group := toy_elt (toy_z a + toy_z b).
Definition toy_opp (a : toy_group) : toy_group := toy_elt (- toy_z a).
Lemma toy_add_assoc a b c : toy_add a (toy_add b c) = toy_add (toy_add a b) c.
Proof.
  apply dsig_eq. change ((toy_z a + (toy_z b + toy_z c) mod TOY_ORDER) mod TOY_ORDER = ((toy_z a + toy_z b) mod TOY_ORDER + toy_z c) mod TOY_ORDER).
  rewrite Zplus_mod_idemp_l, Zplus_mod_idemp_r. f_equal. lia.
Qed.
Lemma toy_add_comm a b : toy_add a b = toy_add b a.
Proof. unfold toy_add. by rewrite Z.add_comm. Qed.
Lemma toy_add_0 a : toy_add (toy_elt 0) a = a.
Proof. apply toy_elt_eq. apply Z.mod_small. apply (proj2_dsig a). Qed.
Lemma toy_add_opp a : toy_add a (toy_opp a) = toy_elt 0.
Proof.
  apply dsig_eq. change ((toy_z a + (- toy_z a) mod TOY_ORDER) mod TOY_ORDER = 0 mod TOY_ORDER). rewrite Zplus_mod_idemp_r. by rewrite Z.add_opp_diag_r.
Qed.
#[export] Instance toy_AbelianGroup : AbelianGroup toy_group := {
  gzero := toy_elt 0; gadd := toy_add; gopp := toy_opp;
  gadd_assoc := toy_add_assoc; gadd_comm := toy_add_comm; gadd_0_l := toy_add_0; gadd_opp_r := toy_add_opp;
}.

(** The commitment of a group element, if it is not zero. *)
Definition toy_of (g : toy_group) : option toy_point :=
  match decide (0 < toy_z g < TOY_ORDER) with left H => Some (dexist (toy_z g) H) | right _ => None end.
Definition toy_value (v : Z) : toy_group := toy_elt v.
Definition toy_blind (b : bytes) : toy_group := toy_elt (4294967297 * be_val b).
Definition toy_pt (p : toy_point) : toy_group := toy_elt (toy_pz p).
Definition toy_serialize (p : toy_point) : Commitment := 8 :: be_bytes 32 (toy_pz p).
Definition toy_commit (v : Z) (b : bytes) : Commitment := 8 :: be_bytes 32 (toy_z (gadd (toy_value v) (toy_blind b))).
Definition toy_parse (c : Commitment) : option toy_point :=
  match c with
  | 8 :: x => if decide (length x = 32%nat /\ Forall is_byte x) then toy_of (toy_elt (be_val x)) else None
  | _ => None
  end.

#[export] Instance toy_Secp256k1 : Secp256k1 toy_point := {
  commitment_parse := toy_parse;
  commitment_serialize := toy_serialize;
  pedersen_commit b v := toy_of (gadd (toy_value v) (toy_blind b));
  pedersen_commit_sum ps ns := toy_of (gsub (gsum (map toy_pt ps)) (gsum (map toy_pt ns)));
  pedersen_blind_sum bs n :=
    Some (be_bytes 32 (foldr (fun b z => be_val b + z) 0 (take (Z.to_nat n) bs) - foldr (fun b z => be_val b + z) 0 (drop (Z.to_nat n) bs)));
  bulletproof_rangeproof_verify_multi _ _ _ := true;
  schnorrsig_verify_batch _ _ _ := true;
}.

Lemma toy_bound (p : toy_point) : 0 < toy_pz p < TOY_ORDER.
Proof. apply (proj2_dsig p). Qed.
Lemma toy_group_bound (g : toy_group) : 0 <= toy_z g < TOY_ORDER.
Proof. apply (proj2_dsig g). Qed.

Lemma toy_of_spec g : match toy_of g with Some p => toy_pt p = g | None => g = gzero end.
Proof.
  unfold toy_of. pose proof (toy_group_bound g) as Hg. destruct (decide _) as [H|H].
  - apply toy_elt_eq. cbn. apply Z.mod_small. lia.
  - apply dsig_eq. change (toy_z g = 0). lia.
Qed.

Lemma toy_pt_val (p : toy_point) : toy_z (toy_pt p) = toy_pz p.
Proof. apply Z.mod_small. pose proof (toy_bound p). lia. Qed.

Lemma toy_parse_serialize p : toy_parse (toy_serialize p) = Some p.
Proof.
  unfold toy_parse, toy_serialize. pose proof (toy_bound p) as Hp.
  rewrite decide_True by (split; [apply length_be_bytes|apply Forall_rev, le_bytes_byte]).
  unfold be_val, be_bytes. rewrite rev_involutive, le_val_bytes by (split; [lia|]; eapply Z.lt_trans; [apply Hp|reflexivity]).
  change (toy_elt (toy_pz p)) with (toy_pt p). unfold toy_of. pose proof (toy_pt_val p) as E. destruct (decide _) as [H|H].
  - f_equal. by apply dsig_eq.
  - destruct H. rewrite E. apply Hp.
Qed.

#[export] Instance toy_Secp256k1Laws : Secp256k1Laws toy_point toy_group.
Proof.
  refine {| point := toy_pt; value := toy_value; blind := toy_blind |}.
  - intros p q E. apply dsig_eq. by rewrite <- !toy_pt_val, E.
  - intros p E. pose proof (toy_bound p) as Hp. rewrite <- (toy_pt_val p), E in Hp. by destruct Hp.
  - intros a b. apply dsig_eq. change ((a + b) mod TOY_ORDER = (a mod TOY_ORDER + b mod TOY_ORDER) mod TOY_ORDER). by rewrite <- Zplus_mod.
  - apply toy_parse_serialize.
  - intros p E. by injection E.
  - intros p. change (S (length (be_bytes 32 (toy_pz p))) = 33%nat). by rewrite length_be_bytes.
  - intros b v p E. pose proof (toy_of_spec (gadd (toy_value v) (toy_blind b))) as H. change (toy_of (gadd (toy_value v) (toy_blind b)) = Some p) in E. by rewrite E in H.
  - by apply dsig_eq.
  - intros ps ns. apply (toy_of_spec (gsub _ _)).
Qed.

(** A cache without a limit. *)
Section list_cache.
Context {K V : Type} `{EqDecision K}.
Fixpoint list_cache_get (k : K) (c : list (K * V)) : option V :=
  match c with [] => None | (k', v) :: c => if decide (k = k') then Some v else list_cache_get k c end.
#[export] Instance ListCache : LRUCache K V (list (K * V)) := {
  cache_get := list_cache_get;
  cache_put k v c := (k, v) :: c;
}.
#[export] Instance ListCacheLaws : LRUCacheLaws K V (list (K * V)).
Proof.
  constructor.
  - intros k v c. cbn. by rewrite decide_True.
  - intros k k' v w c Hne. cbn. by rewrite decide_False.
Qed.
End list_cache.
