(* ===== verification/KernelMMR.v ===== *)
(** * The kernel MMR ([src/PMMR/KernelMMR.cpp], [KernelMMR.h])

    An MMR that is never pruned.  Its data is stored as fixed-width records
    (protocol V1), or, as other nodes write it, as records of variable length
    (protocol V2) with a file of their offsets; the hashes are those of the V1
    bytes either way.  The reference is the list of kernels. *)
From S2P Require Import Prelude BitUtil MMRIndex MMRUtil Serial BigInteger File Roaring PruneList BitmapFile MMRHash SegmentId SegmentProof Bitmap Segment.

Definition KERNEL_SIZE : Z := 114.
Definition KERNEL_OFFSET_SIZE : Z := 8.

(** [KernelStorageFormat] with the files of each format. *)
Inductive KernelStorage :=
| Fixed (m_pFixedDataFile : DataFile)
| Variable_ (m_pVariableDataFile : AppendOnlyFile) (m_pOffsetFile : DataFile).

Record KernelMMR {F : Type} := mkKernelMMR { km_hashFile : F; km_storage : KernelStorage }.
Arguments KernelMMR : clear implicits.
Arguments mkKernelMMR {F}.

Definition SerializeOffset (offset : Z) : bytes := s_bytes (AppendU64 offset (Serializer_new V1)).

Section kernel_mmr.
Context {F : Type} `{HF : HashFile F} {D : Type} `{HD : Serializable D} (Blake2b : bytes -> Hash).
Local Abbreviation KM := (KernelMMR F).
Local Abbreviation no_prunes := (None : option (PruneList (list Z))).
Implicit Types (k : KM).

Definition set_km_hashFile (f : F) k : KM := mkKernelMMR f (km_storage k).
Definition set_storage (s : KernelStorage) k : KM := mkKernelMMR (km_hashFile k) s.

Definition KernelMMR_Root (size : Z) k : result Hash := Root Blake2b (km_hashFile k) size no_prunes.
Definition KernelMMR_GetSize k : Z := hf_GetSize (km_hashFile k).
Definition KernelMMR_GetHashAt (mmrIndex : Index) k : result Hash := hf_GetDataAt (m_position mmrIndex) (km_hashFile k).

Definition GetNumKernels k : Z :=
  match km_storage k with
  | Fixed data => DataFile_GetSize KERNEL_SIZE data
  | Variable_ _ offsets => DataFile_GetSize KERNEL_OFFSET_SIZE offsets
  end.

Definition GetKernelOffset (leafIndex : Z) k : result Z :=
  match km_storage k with
  | Fixed _ => mret (leafIndex * KERNEL_SIZE)%u64
  | Variable_ raw offsets =>
      if leafIndex >=? DataFile_GetSize KERNEL_OFFSET_SIZE offsets then mret (AppendOnlyFile_GetSize raw)
      else
        data ← DataFile_GetDataAt KERNEL_OFFSET_SIZE leafIndex offsets;
        '(offset, _) ← ReadU64 (ByteBuffer_new data V1);
        mret offset
  end.

Definition GetKernelRecordSize (leafIndex : Z) k : result Z :=
  startOffset ← GetKernelOffset leafIndex k;
  endOffset ← (if (leafIndex + 1)%u64 <? GetNumKernels k then GetKernelOffset (leafIndex + 1)%u64 k
               else mret match km_storage k with
                 | Fixed _ => (GetNumKernels k * KERNEL_SIZE)%u64
                 | Variable_ raw _ => AppendOnlyFile_GetSize raw
                 end);
  mret (endOffset - startOffset)%u64.

Definition DeserializeKernel (data : bytes) (protocolVersion : EProtocolVersion) : result (option D) :=
  '(kernel, _) ← Deserialize (ByteBuffer_new data protocolVersion);
  mret (Some kernel).

Definition GetKernelAt (leaf_idx : LeafIndex) k : result (option D) :=
  if m_leafIndex leaf_idx >=? GetNumKernels k then mret None
  else
    recordSize ← GetKernelRecordSize (m_leafIndex leaf_idx) k;
    if (recordSize : Z) =? 0 then mret None
    else
      match km_storage k with
      | Fixed file =>
          data ← DataFile_GetDataAt KERNEL_SIZE (m_leafIndex leaf_idx) file;
          DeserializeKernel data V1
      | Variable_ raw _ =>
          offset ← GetKernelOffset (m_leafIndex leaf_idx) k;
          match AppendOnlyFile_Read offset recordSize raw with
          | None => mret None
          | Some data => DeserializeKernel data V2
          end
      end.

Definition KernelMMR_GetLastLeafHashes (numHashes : Z) k : result (list Hash) :=
  GetLastLeafHashes (km_hashFile k) None no_prunes numHashes.

(** The result of [AppendOnlyFile::Rewind] is not looked at. *)
Definition KernelMMR_Rewind (num_kernels : Z) : ST KM bool :=
  k ← st_get;
  match km_storage k with
  | Fixed data =>
      _ ← st_zoom km_hashFile set_km_hashFile (hf_Rewind (LeafIndex_GetPosition (LeafIndex_At num_kernels)));
      _ ← st_zoom (fun _ => data) (fun data => set_storage (Fixed data)) (DataFile_Rewind KERNEL_SIZE num_kernels);
      mret true
  | Variable_ raw offsets =>
      rawSize ← st_lift (if num_kernels <? GetNumKernels k then GetKernelOffset num_kernels k
                         else mret (AppendOnlyFile_GetSize raw));
      _ ← st_zoom km_hashFile set_km_hashFile (hf_Rewind (LeafIndex_GetPosition (LeafIndex_At num_kernels)));
      let raw := (AppendOnlyFile_Rewind rawSize raw).2 in
      _ ← st_modify (set_storage (Variable_ raw offsets));
      _ ← st_zoom (fun _ => offsets) (fun offsets => set_storage (Variable_ raw offsets)) (DataFile_Rewind KERNEL_OFFSET_SIZE num_kernels);
      mret true
  end.

Definition KernelMMR_Commit : ST KM unit :=
  k ← st_get;
  _ ← st_zoom km_hashFile set_km_hashFile hf_Commit;
  match km_storage k with
  | Fixed data => st_zoom (fun _ => data) (fun data => set_storage (Fixed data)) DataFile_Commit
  | Variable_ raw offsets =>
      raw ← st_lift (AppendOnlyFile_Commit raw);
      _ ← st_modify (set_storage (Variable_ raw offsets));
      st_zoom (fun _ => offsets) (fun offsets => set_storage (Variable_ raw offsets)) DataFile_Commit
  end.

Definition KernelMMR_Rollback k : KM :=
  mkKernelMMR (hf_Rollback (km_hashFile k))
    match km_storage k with
    | Fixed data => Fixed (DataFile_Rollback data)
    | Variable_ raw offsets => Variable_ (AppendOnlyFile_Rollback raw) (DataFile_Rollback offsets)
    end.

Definition ApplyKernel (kernel : D) : ST KM unit :=
  k ← st_get;
  match km_storage k with
  | Fixed data =>
      let serialized := Serialized V1 kernel in
      _ ← st_modify (set_storage (Fixed (DataFile_AddData serialized data)));
      st_zoom km_hashFile set_km_hashFile (AddHashes Blake2b serialized no_prunes)
  | Variable_ raw offsets =>
      let offset := AppendOnlyFile_GetSize raw in
      let offsets := DataFile_AddData (SerializeOffset offset) offsets in
      let storedData := Serialized V2 kernel in
      let raw := AppendOnlyFile_Append storedData raw in
      _ ← st_modify (set_storage (Variable_ raw offsets));
      let hashData := Serialized V1 kernel in
      st_zoom km_hashFile set_km_hashFile (AddHashes Blake2b hashData no_prunes)
  end.

(** The loop over the leaves with their positions. *)
Fixpoint Kernel_ApplySegment_loop (leaves : list (Z * D)) (nextKernel : Z) : ST KM bool :=
  match leaves with
  | [] => mret true
  | (leafPosition, leaf) :: leaves =>
      let expectedPosition := LeafIndex_GetPosition (LeafIndex_At nextKernel) in
      if leafPosition <? expectedPosition then Kernel_ApplySegment_loop leaves nextKernel
      else if negb (leafPosition =? expectedPosition) then mret false
      else
        _ ← ApplyKernel leaf;
        Kernel_ApplySegment_loop leaves (nextKernel + 1)%u64
  end.

Definition Kernel_ApplySegment (segment : Segment D) : ST KM bool :=
  if negb (bool_decide (sg_hash_pos segment = [])) then mret false
  else if negb (length (sg_leaf_pos segment) =? length (sg_leaves segment)) then mret false
  else
    k ← st_get;
    Kernel_ApplySegment_loop (zip (sg_leaf_pos segment) (sg_leaves segment)) (GetNumKernels k).

(** The loop over the records of the raw file; every turn consumes a byte, so
    that the number of bytes is enough fuel. *)
Fixpoint BuildKernelOffsets_loop (fuel : nat) (byteBuffer : ByteBuffer) (offset : Z) (offsets : DataFile) : result DataFile :=
  if 0 <? (length (m_bytes byteBuffer) - m_index byteBuffer)%u64 then
    match fuel with
    | O => Throw OutOfFuel
    | S fuel =>
        let before := (length (m_bytes byteBuffer) - m_index byteBuffer)%u64 in
        '(kernel, byteBuffer) ← (Deserialize : reader D) byteBuffer;
        let consumed := (before - (length (m_bytes byteBuffer) - m_index byteBuffer)%u64)%u64 in
        if (consumed =? 0) || (consumed >? before) then Throw FileException
        else BuildKernelOffsets_loop fuel byteBuffer (offset + consumed)%u64 (DataFile_AddData (SerializeOffset offset) offsets)
    end
  else mret offsets.

(** [ReadFile] reads the bytes on disk, not the working contents. *)
Definition BuildKernelOffsetsFromRawFile : ST KM unit :=
  k ← st_get;
  match km_storage k with
  | Fixed _ => mret tt
  | Variable_ raw offsets =>
      if AppendOnlyFile_GetSize raw =? 0 then mret tt
      else
        let rawBytes := disk raw in
        _ ← st_zoom (fun _ => offsets) (fun offsets => set_storage (Variable_ raw offsets)) (DataFile_Rewind KERNEL_OFFSET_SIZE 0);
        k ← st_get;
        match km_storage k with
        | Fixed _ => mret tt
        | Variable_ raw offsets =>
            offsets ← st_lift (BuildKernelOffsets_loop (length rawBytes) (ByteBuffer_new rawBytes V2) 0 offsets);
            st_zoom (fun _ => offsets) (fun offsets => set_storage (Variable_ raw offsets)) DataFile_Commit
        end
  end.

End kernel_mmr.

(** ** [Load]

    The hash file, and the raw and the offset file where they exist; the genesis
    kernel and the kernel root of the genesis header come from [Global]. *)
Section load.
Context {D : Type} `{HD : Serializable D} (Blake2b : bytes -> Hash) (genesisKernel : D) (genesisRoot : Hash).
Local Abbreviation KM := (KernelMMR DataFile).

(** The check of the genesis entry: rebuilt when it is the only one and wrong. *)
Definition check_genesis : ST KM unit :=
  k ← st_get;
  if KernelMMR_GetSize k >=? 1 then
    pGenesisKernel ← st_lift (GetKernelAt (LeafIndex_At 0) k : result (option D));
    inconsistent ← st_lift (match pGenesisKernel with
      | None => mret true
      | Some _ => root ← KernelMMR_Root Blake2b 1 k; mret (BigInteger_neq root genesisRoot)
      end);
    if (inconsistent : bool) && (KernelMMR_GetSize k =? 1) then
      _ ← KernelMMR_Rewind 0;
      ApplyKernel Blake2b genesisKernel
    else mret tt
  else mret tt.

Definition KernelMMR_Load (hash : bytes) (raw offsets : option bytes) (includeGenesis : bool) : result KM :=
  let pHashFile := DataFile_Load hash in
  if hf_GetSize pHashFile =? 0 then
    let k := mkKernelMMR pHashFile (Fixed (DataFile_Load (default [] raw))) in
    if includeGenesis then
      match ApplyKernel Blake2b genesisKernel k with (Ok _, k) => Ok k | (Throw e, _) => Throw e end
    else mret k
  else
    let hasOffsetFile := match offsets with Some _ => true | None => false end in
    let rawFileSize := match raw with Some data => length data | None => 0%nat end : Z in
    let useVariableFormat := hasOffsetFile || negb (rawFileSize mod KERNEL_SIZE =? 0) in
    let finish (m : ST KM unit) (k : KM) := match m k with (Ok _, k) => Ok k | (Throw e, _) => Throw e end in
    let genesis := if includeGenesis then check_genesis else mret tt in
    if negb useVariableFormat then
      finish genesis (mkKernelMMR pHashFile (Fixed (DataFile_Load (default [] raw))))
    else
      let k := mkKernelMMR pHashFile
        (Variable_ (AppendOnlyFile_Load (default [] raw)) (DataFile_Load (default [] offsets))) in
      finish (_ ← (if hasOffsetFile then mret tt else BuildKernelOffsetsFromRawFile (D := D)); genesis) k.

End load.

(** ** The represented kernels *)

Section offsets.
Context {D : Type} {HD : Serializable D}.
Implicit Types (ks : list D).

Definition v1_bytes ks : list bytes := map (Serialized V1) ks.
Definition v2_bytes ks : bytes := concat (map (Serialized V2) ks).

(** The offset file of kernels whose first one starts at [base]. *)
Fixpoint offsets_from (base : Z) ks : list bytes :=
  match ks with
  | [] => []
  | d :: ks => be_bytes 8 base :: offsets_from (base + length (Serialized V2 d)) ks
  end.

Lemma SerializeOffset_be offset : SerializeOffset offset = be_bytes 8 offset.
Proof. unfold SerializeOffset. by rewrite AppendU64_be. Qed.

Lemma v2_bytes_app ks ks' : v2_bytes (ks ++ ks') = v2_bytes ks ++ v2_bytes ks'.
Proof. unfold v2_bytes. by rewrite map_app, concat_app. Qed.

Lemma v2_bytes_one d : v2_bytes [d] = Serialized V2 d.
Proof. apply app_nil_r. Qed.

Lemma offsets_length base ks : length (offsets_from base ks) = length ks.
Proof. revert base. induction ks as [|d ks IH]; intros base; [done|]. cbn [offsets_from length]. by rewrite IH. Qed.

Lemma offsets_width base ks : Forall (fun r => length r = 8%nat) (offsets_from base ks).
Proof. revert base. induction ks as [|d ks IH]; intros base; constructor; [apply length_be_bytes|apply IH]. Qed.

Lemma offsets_snoc base ks d : offsets_from base (ks ++ [d]) = offsets_from base ks ++ [be_bytes 8 (base + length (v2_bytes ks))].
Proof.
  revert base. induction ks as [|e ks IH]; intros base; cbn [app offsets_from].
  - simpl. by rewrite Z.add_0_r.
  - rewrite IH. f_equal. f_equal. change (e :: ks) with ([e] ++ ks). rewrite v2_bytes_app, length_app, v2_bytes_one.
    do 2 f_equal. lia.
Qed.

Lemma offsets_take base ks (j : nat) : take j (offsets_from base ks) = offsets_from base (take j ks).
Proof.
  revert base j. induction ks as [|d ks IH]; intros base j; [rewrite take_nil; apply take_nil|].
  destruct j as [|j]; [done|]. cbn [take offsets_from]. by rewrite IH.
Qed.

Lemma offsets_lookup base ks (j : nat) : (j < length ks)%nat ->
  offsets_from base ks !! j = Some (be_bytes 8 (base + length (v2_bytes (take j ks)))).
Proof.
  revert base j. induction ks as [|d ks IH]; intros base j Hj; cbn [length] in Hj; [lia|].
  destruct j as [|j]; cbn [take offsets_from].
  - simpl. by rewrite Z.add_0_r.
  - change ((?x :: ?l) !! S j) with (l !! j). rewrite IH by lia. do 2 f_equal.
    change (d :: take j ks) with ([d] ++ take j ks). rewrite v2_bytes_app, length_app, v2_bytes_one. lia.
Qed.

(** The record of kernel [j] in the concatenation. *)
Lemma v2_bytes_slice ks (j : nat) d : ks !! j = Some d ->
  v2_bytes (take (S j) ks) = v2_bytes (take j ks) ++ Serialized V2 d /\
  take (length (Serialized V2 d)) (drop (length (v2_bytes (take j ks))) (v2_bytes ks)) = Serialized V2 d.
Proof.
  intros Hd. assert (v2_bytes (take (S j) ks) = v2_bytes (take j ks) ++ Serialized V2 d) as E.
  { rewrite (take_S_r _ _ d) by done. by rewrite v2_bytes_app, v2_bytes_one. }
  split; [done|]. rewrite <- (take_drop (S j) ks) at 2. rewrite v2_bytes_app, E, <- app_assoc, drop_app_length.
  apply take_app_length.
Qed.

End offsets.

Section represents.
Context {F : Type} {HF : HashFile F} {HFL : HashFileLaws F}.
Context {D : Type} {HD : Serializable D} {wf : EProtocolVersion -> D -> Prop} {HSL : SerializableLaws D wf}.
Context (Blake2b : bytes -> Hash).
Local Abbreviation KM := (KernelMMR F).
Local Abbreviation no_prunes := (None : option (PruneList (list Z))).
Implicit Types (k : KM) (ks cks : list D).

(** A kernel fits its record in both formats. *)
Record kernel_wf (d : D) : Prop := {
  kw_v1 : wf V1 d;
  kw_v2 : wf V2 d;
  kw_size : length (Serialized V1 d) = 114%nat;
  kw_size2 : 0 < length (Serialized V2 d) <= 2 ^ 10;
}.

Definition kernels_ok ks : Prop := Forall kernel_wf ks /\ length ks < 2 ^ 32.

Definition storage_ok ks cks (s : KernelStorage) : Prop :=
  match s with
  | Fixed data => datafile_ok 114 (v1_bytes ks) (v1_bytes cks) data
  | Variable_ raw offsets =>
      file_ok raw /\ working raw = v2_bytes ks /\ disk raw = v2_bytes cks /\
      datafile_ok 8 (offsets_from 0 ks) (offsets_from 0 cks) offsets
  end.

(** The MMR holds the kernels [ks], of which [cks] are on disk. *)
Record kernel_ok ks cks k : Prop := {
  ko_kernels : kernels_ok ks;
  ko_committed : kernels_ok cks;
  ko_hashes : exists l lc, hf_repr l lc (km_hashFile k) /\ tree_hashes Blake2b (v1_bytes ks) l /\ tree_hashes Blake2b (v1_bytes cks) lc;
  ko_storage : storage_ok ks cks (km_storage k);
}.

Hypothesis Blake2b_length : forall x, length (Blake2b x) = 32%nat.
Hypothesis Blake2b_nonzero : forall x, Blake2b x <> ZERO_HASH.

Lemma v1_bytes_length ks : length (v1_bytes ks) = length ks.
Proof. apply length_map. Qed.

Lemma v2_bytes_bound ks : Forall kernel_wf ks -> length ks <= length (v2_bytes ks) <= 2 ^ 10 * length ks.
Proof.
  induction 1 as [|d ks [_ _ _ Hd] _ IH]; [simpl; lia|]. change (d :: ks) with ([d] ++ ks). rewrite v2_bytes_app, !length_app, v2_bytes_one.
  cbn [length]. lia.
Qed.

Lemma kernels_ok_take ks (j : nat) : kernels_ok ks -> kernels_ok (take j ks).
Proof. intros [Hk Hl]. split; [by apply Forall_take|]. rewrite length_take. lia. Qed.

Lemma kernels_tree_length ks l : kernels_ok ks -> tree_hashes Blake2b (v1_bytes ks) l -> length l < 2 ^ 33.
Proof.
  intros [_ Hl] [E _]. rewrite v1_bytes_length in E. unfold mmr_size in E. pose proof (pop_nonneg (length ks)). lia.
Qed.

Lemma kernel_GetNumKernels ks cks k : kernel_ok ks cks k -> GetNumKernels k = length ks.
Proof.
  intros [Hk Hc _ Hs]. unfold GetNumKernels. destruct (km_storage k) as [data|raw offsets].
  - change KERNEL_SIZE with (Z.of_nat 114). rewrite (DataFile_GetSize_ok 114 _ _ _ Hs). by rewrite v1_bytes_length.
  - destruct Hs as (_ & _ & _ & Hd). change KERNEL_OFFSET_SIZE with (Z.of_nat 8). rewrite (DataFile_GetSize_ok 8 _ _ _ Hd). by rewrite offsets_length.
Qed.

(** *** The records *)

Lemma kernel_GetKernelOffset ks cks k raw offsets j :
  kernel_ok ks cks k -> km_storage k = Variable_ raw offsets -> 0 <= j <= length ks ->
  GetKernelOffset j k = Ok (Z.of_nat (length (v2_bytes (take (Z.to_nat j) ks)))).
Proof.
  intros [[Hk Hl] Hc _ Hs] E Hj. unfold GetKernelOffset. rewrite E in *. destruct Hs as (Hf & Hw & _ & Hd).
  change KERNEL_OFFSET_SIZE with (Z.of_nat 8). rewrite (DataFile_GetSize_ok 8 _ _ _ Hd), offsets_length.
  destruct (Z.geb_spec j (length ks)).
  - rewrite GetSize_working, Hw by done. by rewrite take_ge by lia.
  - rewrite (DataFile_GetDataAt_ok 8 _ _ _ _ Hd) by lia. rewrite offsets_lookup by lia. rewrite Z.add_0_l. cbn [of_option].
    pose proof (v2_bytes_bound (take (Z.to_nat j) ks) ltac:(by apply Forall_take)) as Hb. rewrite length_take in Hb.
    cbn [mbind result_bind].
    rewrite (reads_whole V1 ReadU64 (be_bytes 8 (length (v2_bytes (take (Z.to_nat j) ks)))) (Z.of_nat (length (v2_bytes (take (Z.to_nat j) ks)))));
      [done| |rewrite length_be_bytes; lia].
    apply reads_be. change (256 ^ 8%nat) with (2 ^ 64). lia.
Qed.

Lemma kernel_GetKernelAt ks cks k j :
  kernel_ok ks cks k -> 0 <= j < 2 ^ 58 -> GetKernelAt (LeafIndex_At j) k = Ok (ks !! Z.to_nat j).
Proof.
  intros Hok Hj. pose proof (kernel_GetNumKernels _ _ _ Hok) as En. unfold GetKernelAt.
  cbn [LeafIndex_At LeafIndex_new m_leafIndex]. rewrite En.
  destruct (Z.geb_spec j (length ks)); [by rewrite lookup_ge_None_2 by lia|].
  destruct (lookup_lt_is_Some_2 ks (Z.to_nat j) ltac:(lia)) as [d Hd]. rewrite Hd.
  pose proof Hok as [[Hk Hl] Hc _ Hs]. destruct (Forall_lookup_1 _ _ _ _ Hk Hd) as [Hw1 Hw2 Hlen Hlen2].
  unfold GetKernelRecordSize. rewrite En, (uint_small 64 (j + 1)) by uint_solve.
  destruct (km_storage k) as [data|raw offsets] eqn:E.
  - unfold GetKernelOffset. rewrite E. cbn [mbind result_bind mret result_ret]. change KERNEL_SIZE with (Z.of_nat 114).
    assert ((if j + 1 <? length ks then (mret ((j + 1) * 114%nat)%u64 : result Z) else mret (length ks * 114%nat)%u64) = Ok ((j + 1) * 114%nat)%u64) as ->.
    { destruct (Z.ltb_spec (j + 1) (length ks)); [done|]. by replace (Z.of_nat (length ks)) with (j + 1) by lia. }
    cbn [mbind result_bind mret result_ret]. rewrite (uint_small 64 (j * 114%nat)), (uint_small 64 ((j + 1) * 114%nat)), (uint_small 64 ((j + 1) * 114%nat - j * 114%nat)) by uint_solve.
    destruct (Z.eqb_spec ((j + 1) * 114%nat - j * 114%nat) 0); [lia|].
    cbn [storage_ok] in Hs. rewrite (DataFile_GetDataAt_ok 114 _ _ _ _ Hs) by lia. unfold v1_bytes. rewrite list_lookup_fmap, Hd.
    cbn [fmap option_fmap option_map of_option mbind result_bind]. unfold DeserializeKernel.
    rewrite (reads_whole V1 Deserialize (Serialized V1 d) d); [done|by apply deserialize_reads|lia].
  - pose proof (kernel_GetKernelOffset ks cks k raw offsets) as Hoff.
    pose proof (Hoff j Hok E ltac:(lia)) as Ej. pose proof (Hoff (j + 1) Hok E ltac:(lia)) as Ej1.
    rewrite Ej. cbn [mbind result_bind mret result_ret].
    destruct Hs as (Hf & Hw & _ & _).
    assert ((if j + 1 <? length ks then GetKernelOffset (j + 1) k else mret (AppendOnlyFile_GetSize raw)) =
      Ok (Z.of_nat (length (v2_bytes (take (Z.to_nat (j + 1)) ks))))) as ->.
    { destruct (Z.ltb_spec (j + 1) (length ks)); [done|]. rewrite GetSize_working, Hw by done. by rewrite take_ge by lia. }
    cbn [mbind result_bind mret result_ret]. destruct (v2_bytes_slice ks (Z.to_nat j) d Hd) as [Esl Hsl].
    replace (Z.to_nat (j + 1)) with (S (Z.to_nat j)) by lia. rewrite Esl, length_app.
    pose proof (v2_bytes_bound (take (Z.to_nat j) ks) ltac:(by apply Forall_take)) as Hb. rewrite length_take in Hb.
    rewrite (uint_small 64 (_ - _)) by uint_solve.
    replace ((length (v2_bytes (take (Z.to_nat j) ks)) + length (Serialized V2 d))%nat - length (v2_bytes (take (Z.to_nat j) ks)))
      with (Z.of_nat (length (Serialized V2 d))) by lia.
    destruct (Z.eqb_spec (length (Serialized V2 d)) 0); [lia|]. rewrite Read_ok by (done || lia). rewrite Hw, !Nat2Z.id, Hsl.
    pose proof (f_equal length Hsl) as Hsl'. rewrite length_take, length_drop in Hsl'.
    destruct (Z.leb_spec (length (v2_bytes (take (Z.to_nat j) ks)) + length (Serialized V2 d)) (length (v2_bytes ks))); [|lia].
    rewrite orb_true_r. unfold DeserializeKernel.
    rewrite (reads_whole V2 Deserialize (Serialized V2 d) d); [done|by apply deserialize_reads|lia].
Qed.

(** *** The operations *)

Lemma kernel_storage_append ks cks d s : kernels_ok ks -> kernels_ok cks -> kernel_wf d ->
  storage_ok ks cks s ->
  storage_ok (ks ++ [d]) cks
    match s with
    | Fixed data => Fixed (DataFile_AddData (Serialized V1 d) data)
    | Variable_ raw offsets =>
        Variable_ (AppendOnlyFile_Append (Serialized V2 d) raw) (DataFile_AddData (SerializeOffset (AppendOnlyFile_GetSize raw)) offsets)
    end.
Proof.
  intros [Hk Hl] [Hck Hcl] [_ _ Hlen Hlen2] Hs. destruct s as [data|raw offsets]; cbn [storage_ok] in *.
  - unfold v1_bytes. rewrite map_app. apply DataFile_AddData_ok; [done|done|].
    destruct (datafile_room _ _ _ _ Hs) as [-> Hb]. rewrite !v1_bytes_length in *. lia.
  - destruct Hs as (Hf & Hw & Hd & Ho). pose proof (v2_bytes_bound ks Hk). pose proof (v2_bytes_bound cks Hck).
    pose proof (length_working raw Hf) as Hlw. destruct (Append_ok (Serialized V2 d) raw Hf) as [Hf' Hw'].
    { rewrite Hd. rewrite Hw in Hlw. destruct Hf. lia. }
    split; [done|]. split; [by rewrite Hw', Hw, v2_bytes_app, v2_bytes_one|]. split; [done|].
    rewrite (SerializeOffset_be (AppendOnlyFile_GetSize raw)), offsets_snoc, Z.add_0_l. rewrite GetSize_working by done. rewrite Hw.
    apply DataFile_AddData_ok; [done|apply length_be_bytes|].
    destruct (datafile_room _ _ _ _ Ho) as [-> Hb]. rewrite !offsets_length in *. lia.
Qed.

Lemma kernel_ApplyKernel ks cks k d :
  kernel_ok ks cks k -> kernel_wf d -> length ks + 1 < 2 ^ 32 ->
  exists k', ApplyKernel Blake2b d k = (Ok tt, k') /\ kernel_ok (ks ++ [d]) cks k'.
Proof.
  intros [Hk Hc (l & lc & Hh & Ht & Htc) Hs] Hd Hn. pose proof Hk as [Hk' Hl]. pose proof Hc as [Hck Hcl].
  pose proof (kernels_tree_length _ _ Hc Htc).
  assert (mmr_size (length ks + 1) <= 2 * (length ks + 1)) by (unfold mmr_size; pose proof (pop_nonneg (length ks + 1)); lia).
  destruct (AddHashes_ok Blake2b (R := list Z) (v1_bytes ks) (Serialized V1 d) l lc (km_hashFile k) Blake2b_length)
    as (l' & f' & E & Hh' & Ht'); rewrite ?v1_bytes_length; try done; try lia.
  pose proof (kernel_storage_append ks cks d _ Hk Hc Hd Hs) as Hs'.
  unfold ApplyKernel, mbind, ST_bind, st_get, st_modify, st_zoom.
  destruct (km_storage k) as [data|raw offsets] eqn:Es; cbn [km_hashFile set_storage]; rewrite E;
    (eexists; split; [done|]); (constructor; cbn [set_km_hashFile km_storage km_hashFile set_storage];
      [split; [by apply Forall_app; split; [|constructor]|rewrite length_app; simpl; lia]|done| |exact Hs']);
    exists l', lc; (split; [done|]); (split; [|done]); unfold v1_bytes; by rewrite map_app.
Qed.

Lemma kernel_storage_rewind ks cks (j : nat) s : storage_ok ks cks s -> kernels_ok ks -> (j <= length ks)%nat ->
  match s with
  | Fixed data => exists data', DataFile_Rewind KERNEL_SIZE j data = (Ok tt, data') /\ storage_ok (take j ks) cks (Fixed data')
  | Variable_ raw offsets => exists raw' offsets',
      AppendOnlyFile_Rewind (length (v2_bytes (take j ks))) raw = (true, raw') /\
      DataFile_Rewind KERNEL_OFFSET_SIZE j offsets = (Ok tt, offsets') /\ storage_ok (take j ks) cks (Variable_ raw' offsets')
  end.
Proof.
  intros Hs [Hk Hl] Hj. destruct s as [data|raw offsets]; cbn [storage_ok] in *.
  - change KERNEL_SIZE with (Z.of_nat 114). pose proof (DataFile_Rewind_ok 114 _ _ _ j Hs ltac:(lia) ltac:(lia)) as H.
    destruct (DataFile_Rewind 114%nat j data) as [r data']. rewrite v1_bytes_length in H.
    destruct (Z.leb_spec j (length ks)); [|lia]. destruct H as [-> H]. exists data'. split; [done|].
    unfold v1_bytes in *. by rewrite Nat2Z.id, firstn_map in H.
  - destruct Hs as (Hf & Hw & Hd & Ho). change KERNEL_OFFSET_SIZE with (Z.of_nat 8).
    pose proof (DataFile_Rewind_ok 8 _ _ _ j Ho ltac:(lia) ltac:(lia)) as H.
    destruct (DataFile_Rewind 8%nat j offsets) as [r offsets']. rewrite offsets_length in H.
    destruct (Z.leb_spec j (length ks)); [|lia]. destruct H as [-> H]. rewrite Nat2Z.id, offsets_take in H.
    pose proof (Rewind_ok (Z.of_nat (length (v2_bytes (take j ks)))) raw Hf (Nat2Z.is_nonneg _)) as Hr.
    assert (v2_bytes ks = v2_bytes (take j ks) ++ v2_bytes (drop j ks)) as Esplit by (by rewrite <- v2_bytes_app, take_drop).
    destruct (AppendOnlyFile_Rewind (length (v2_bytes (take j ks))) raw) as [b raw']. destruct Hr as (Hf' & Hd' & -> & Hw').
    rewrite Hw, Esplit, length_app in Hw'.
    destruct (Z.leb_spec (length (v2_bytes (take j ks))) (length (v2_bytes (take j ks)) + length (v2_bytes (drop j ks)))%nat); [|lia].
    rewrite Nat2Z.id, take_app_length in Hw'. exists raw', offsets'. split.
    { f_equal. rewrite Hw, Esplit, length_app. by apply Z.leb_le. }
    split; [done|]. split; [done|]. split; [done|]. by rewrite Hd'.
Qed.

Lemma kernel_Rewind ks cks k (j : nat) :
  kernel_ok ks cks k -> (j <= length ks)%nat ->
  exists k', KernelMMR_Rewind j k = (Ok true, k') /\ kernel_ok (take j ks) cks k'.
Proof.
  intros Hok Hj. pose proof (kernel_GetNumKernels _ _ _ Hok) as En. pose proof Hok as [Hk Hc (l & lc & Hh & Ht & Htc) Hs].
  pose proof (kernel_storage_rewind ks cks j _ Hs Hk Hj) as Hr. pose proof Hk as [Hk' Hl].
  pose proof (mmr_size_mono j (length ks) ltac:(lia)). pose proof (mmr_size_ge j ltac:(lia)).
  assert (mmr_size (length ks) <= 2 * length ks) by (unfold mmr_size; pose proof (pop_nonneg (length ks)); lia).
  pose proof (hf_rewind_ok l lc _ (mmr_size j) Hh ltac:(lia)) as Hrh. pose proof Ht as [Hll _]. rewrite v1_bytes_length in Hll.
  assert (LeafIndex_GetPosition (LeafIndex_At j) = mmr_size j) as Epos.
  { rewrite LeafIndex_At_pos by (unfold pos_ok; lia). done. }
  destruct (hf_Rewind (mmr_size j) (km_hashFile k)) as [r f'] eqn:Ef. destruct (Z.leb_spec (mmr_size j) (length l)); [|lia].
  destruct Hrh as [-> Hh'].
  assert (forall k', km_hashFile k' = f' -> storage_ok (take j ks) cks (km_storage k') -> kernel_ok (take j ks) cks k') as Hfin.
  { intros k' Ek Es. constructor; [by apply kernels_ok_take|done| |done]. exists (take (Z.to_nat (mmr_size j)) l), lc.
    rewrite Ek. split; [done|]. split; [|done].
    assert (j = length (v1_bytes (take j ks))) as Ej by (rewrite v1_bytes_length, length_take; lia). rewrite Ej at 2.
    apply (tree_hashes_prefix Blake2b _ (v1_bytes (drop j ks)));
      unfold v1_bytes; rewrite <- map_app, take_drop; [rewrite length_map; lia|done]. }
  unfold KernelMMR_Rewind, mbind, ST_bind, st_get, st_modify, st_zoom, st_lift. rewrite En.
  destruct (km_storage k) as [data|raw offsets] eqn:Es.
  - rewrite Epos, Ef. destruct Hr as (data' & -> & Hs'). eexists. split; [done|]. by apply Hfin.
  - destruct Hr as (raw' & offsets' & E1 & E2 & Hs').
    assert ((if j <? length ks then GetKernelOffset j k else mret (AppendOnlyFile_GetSize raw)) = Ok (Z.of_nat (length (v2_bytes (take j ks))))) as ->.
    { destruct (Z.ltb_spec j (length ks)).
      - rewrite (kernel_GetKernelOffset ks cks k raw offsets) by (done || lia). by rewrite Nat2Z.id.
      - destruct Hs as (Hf & Hw & _). rewrite GetSize_working, Hw by done. by rewrite take_ge by lia. }
    rewrite Epos, Ef, E1. cbn [snd]. rewrite E2. eexists. split; [done|]. by apply Hfin.
Qed.

Lemma kernel_Commit ks cks k : kernel_ok ks cks k ->
  exists k', KernelMMR_Commit k = (Ok tt, k') /\ kernel_ok ks ks k'.
Proof.
  intros [Hk Hc (l & lc & Hh & Ht & Htc) Hs]. unfold KernelMMR_Commit, mbind, ST_bind, st_get, st_zoom, st_lift, st_modify.
  destruct (hf_commit_ok l lc _ Hh) as (f' & -> & Hh').
  destruct (km_storage k) as [data|raw offsets]; cbn [storage_ok] in Hs.
  - destruct (DataFile_Commit_ok 114 _ _ _ Hs) as (data' & -> & Hs' & _).
    eexists. split; [done|]. constructor; [done|done|by exists l, l|done].
  - destruct Hs as (Hf & Hw & Hd & Ho). destruct (Flush_ok raw Hf) as (raw' & E & Hf' & Hw' & Hd').
    unfold AppendOnlyFile_Commit. rewrite E.
    destruct (DataFile_Commit_ok 8 _ _ _ Ho) as (offsets' & -> & Ho' & _).
    eexists. split; [done|]. constructor; [done|done|by exists l, l|].
    cbn [set_storage km_storage storage_ok]. rewrite Hw', Hd', Hw. done.
Qed.

Lemma kernel_Rollback ks cks k : kernel_ok ks cks k -> kernel_ok cks cks (KernelMMR_Rollback k).
Proof.
  intros [Hk Hc (l & lc & Hh & Ht & Htc) Hs]. unfold KernelMMR_Rollback. constructor; cbn [km_hashFile km_storage]; [done|done| |].
  - exists lc, lc. split; [by eapply hf_rollback_ok|done].
  - destruct (km_storage k) as [data|raw offsets]; cbn [storage_ok] in *; [by eapply DataFile_Rollback_ok|].
    destruct Hs as (Hf & Hw & Hd & Ho). destruct (Discard_ok raw Hf) as (Hf' & Hw' & Hd').
    split; [done|]. split; [by rewrite <- Hd|]. split; [by rewrite <- Hd|]. by eapply DataFile_Rollback_ok.
Qed.

(** *** Segments *)

(** What is left to apply of a contiguous list of leaves, given the number of
    kernels there are: [None] when there is a gap. *)
Fixpoint next_kernels (leaves : list (Z * D)) (n : Z) : list D * bool :=
  match leaves with
  | [] => ([], true)
  | (pos, d) :: leaves =>
      if pos <? mmr_size n then next_kernels leaves n
      else if pos =? mmr_size n then let '(ds, ok) := next_kernels leaves (n + 1) in (d :: ds, ok)
      else ([], false)
  end.

Lemma kernel_ApplySegment_loop leaves ks cks k :
  kernel_ok ks cks k -> Forall (fun x => kernel_wf x.2) leaves -> length ks + length leaves < 2 ^ 32 ->
  exists k', Kernel_ApplySegment_loop Blake2b leaves (length ks) k = (Ok (next_kernels leaves (length ks)).2, k') /\
    kernel_ok (ks ++ (next_kernels leaves (length ks)).1) cks k'.
Proof.
  revert ks k. induction leaves as [|[pos d] leaves IH]; intros ks k Hok Hwf Hn.
  - exists k. cbn [next_kernels fst snd Kernel_ApplySegment_loop]. by rewrite app_nil_r.
  - apply Forall_cons in Hwf as [Hd Hwf]. cbn [length] in Hn. cbn [next_kernels Kernel_ApplySegment_loop].
    assert (mmr_size (length ks) <= 2 * length ks) by (unfold mmr_size; pose proof (pop_nonneg (length ks)); lia).
    pose proof (mmr_size_ge (length ks) ltac:(lia)).
    assert (LeafIndex_GetPosition (LeafIndex_At (length ks)) = mmr_size (length ks)) as ->.
    { rewrite LeafIndex_At_pos by (unfold pos_ok; lia). done. }
    destruct (Z.ltb_spec pos (mmr_size (length ks))); [apply IH; (done || lia)|].
    destruct (Z.eqb_spec pos (mmr_size (length ks))); cbn [negb].
    + destruct (kernel_ApplyKernel ks cks k d Hok Hd ltac:(lia)) as (k1 & E & Hok1).
      unfold mbind, ST_bind. rewrite E. rewrite uint_small by uint_solve.
      destruct (IH (ks ++ [d]) k1 Hok1 Hwf) as (k' & E' & Hok'); [rewrite length_app; simpl; lia|].
      rewrite length_app in E', Hok'. cbn [length] in E', Hok'.
      replace (Z.of_nat (length ks + 1)) with (length ks + 1) in E', Hok' by lia.
      exists k'. destruct (next_kernels leaves (length ks + 1)) as [ds ok]. cbn [fst snd] in *. split; [done|].
      by rewrite <- app_assoc in Hok'.
    + exists k. cbn [fst snd]. by rewrite app_nil_r.
Qed.

(** *** Rebuilding the offset file *)

Lemma BuildKernelOffsets_loop_ok (fuel : nat) done_ rest w offsets :
  kernels_ok (done_ ++ rest) -> (length rest <= fuel)%nat ->
  datafile_ok 8 (offsets_from 0 done_) w offsets -> length w < 2 ^ 32 ->
  exists offsets', BuildKernelOffsets_loop (D := D) fuel (mkByteBuffer (length (v2_bytes done_)) (v2_bytes (done_ ++ rest)) V2)
      (length (v2_bytes done_)) offsets = Ok offsets' /\ datafile_ok 8 (offsets_from 0 (done_ ++ rest)) w offsets'.
Proof.
  revert done_ offsets fuel. induction rest as [|d rest IH]; intros done_ offsets fuel Hk Hfuel Ho Hw.
  - rewrite app_nil_r in *. exists offsets. split; [|done]. unfold BuildKernelOffsets_loop.
    destruct fuel; cbn [m_bytes m_index]; rewrite Z.sub_diag; reflexivity.
  - destruct fuel as [|fuel]; [simpl in Hfuel; lia|]. pose proof Hk as [Hwf Hl].
    pose proof (v2_bytes_bound _ Hwf) as Hb. rewrite v2_bytes_app, !length_app in Hb.
    pose proof Hwf as Hwf'. apply Forall_app in Hwf' as [Hdone Hrest]. apply Forall_cons in Hrest as [[_ Hd2 _ Hlen] Hrest].
    assert (v2_bytes (d :: rest) = Serialized V2 d ++ v2_bytes rest) as Ed by (change (d :: rest) with ([d] ++ rest); by rewrite v2_bytes_app, v2_bytes_one).
    assert (done_ ++ d :: rest = (done_ ++ [d]) ++ rest) as Eapp by (by rewrite <- app_assoc).
    pose proof (f_equal length Ed) as Elen. rewrite length_app in Elen. rewrite length_app in Hl.
    cbn [BuildKernelOffsets_loop m_bytes m_index].
    rewrite v2_bytes_app, length_app. rewrite (uint_small 64 (_ - _)) by uint_solve.
    destruct (Z.ltb_spec 0 ((length (v2_bytes done_) + length (v2_bytes (d :: rest)))%nat - length (v2_bytes done_))); [|lia].
    rewrite Ed. rewrite (deserialize_reads V2 d Hd2 (v2_bytes done_) (v2_bytes rest)) by (rewrite !length_app; lia).
    cbn [mbind result_bind m_bytes m_index]. rewrite !length_app.
    rewrite (uint_small 64 ((length (v2_bytes done_) + (length (Serialized V2 d) + length (v2_bytes rest)))%nat - (_ + _))) by uint_solve.
    rewrite <- length_app, <- Ed.
    replace ((length (v2_bytes done_) + length (v2_bytes (d :: rest)))%nat - length (v2_bytes done_) -
      ((length (v2_bytes done_) + length (v2_bytes (d :: rest)))%nat - (length (v2_bytes done_) + length (Serialized V2 d))))
      with (Z.of_nat (length (Serialized V2 d))) by lia.
    rewrite (uint_small 64 (length (Serialized V2 d))) by uint_solve.
    destruct (Z.eqb_spec (length (Serialized V2 d)) 0); [lia|]. cbn [orb].
    destruct (Z.gtb_spec (length (Serialized V2 d)) ((length (v2_bytes done_) + length (v2_bytes (d :: rest)))%nat - length (v2_bytes done_))); [lia|].
    rewrite (uint_small 64 (_ + _)) by uint_solve.
    assert (length (v2_bytes done_) + length (Serialized V2 d) = length (v2_bytes (done_ ++ [d])) :> Z) as ->
      by (rewrite v2_bytes_app, v2_bytes_one, length_app; lia).
    rewrite <- v2_bytes_app, Eapp.
    apply IH; [by rewrite <- Eapp|simpl in Hfuel; lia| |done].
    rewrite (SerializeOffset_be (length (v2_bytes done_))), offsets_snoc, Z.add_0_l. apply DataFile_AddData_ok; [done|apply length_be_bytes|].
    destruct (datafile_room _ _ _ _ Ho) as [-> Hroom]. rewrite offsets_length in Hroom. lia.
Qed.

End represents.
