(* ===== verification/KernelSpec.v ===== *)
(** * Specification of the kernel MMR

    What [KernelMMR] promises in either storage format: the list of kernels with
    its committed copy.  The operations refine this machine, the reads return
    what it holds, and opening the files finds it again. *)
From S2P Require Import Prelude BitUtil MMRIndex MMRUtil Serial BigInteger File Roaring PruneList BitmapFile MMRHash SegmentId SegmentProof Bitmap Segment Consensus Transaction KernelMMR.

Inductive kernel_op (D : Type) :=
| KApply (d : D)
| KSegment (s : Segment D)
| KRewind (n : nat)
| KCommit
| KRollback.
Arguments KApply {D} d.
Arguments KSegment {D} s.
Arguments KRewind {D} n.
Arguments KCommit {D}.
Arguments KRollback {D}.

(** The kernels, and the kernels on disk. *)
Definition KSpec (D : Type) : Type := list D * list D.

(** The kernels a segment adds, and whether it is accepted to its end: leaves
    that are there already are skipped, a gap stops it. *)
Definition segment_kernels {D} (s : Segment D) (n : Z) : list D * bool :=
  if negb (bool_decide (sg_hash_pos s = [])) then ([], false)
  else if negb (length (sg_leaf_pos s) =? length (sg_leaves s)) then ([], false)
  else next_kernels (zip (sg_leaf_pos s) (sg_leaves s)) n.

Definition kernel_spec_step {D} (o : kernel_op D) (s : KSpec D) : result bool * KSpec D :=
  let '(ks, cks) := s in
  match o with
  | KApply d => (Ok true, (ks ++ [d], cks))
  | KSegment seg => let '(ds, ok) := segment_kernels seg (length ks) in (Ok ok, (ks ++ ds, cks))
  | KRewind n => (Ok true, (take n ks, cks))
  | KCommit => (Ok true, (ks, ks))
  | KRollback => (Ok true, (cks, cks))
  end.

Section machine.
Context {F : Type} {HF : HashFile F} {HFL : HashFileLaws F}.
Context {D : Type} {HD : Serializable D} {wf : EProtocolVersion -> D -> Prop} {HSL : SerializableLaws D wf}.
Context (Blake2b : bytes -> Hash).
Local Abbreviation KM := (KernelMMR F).
Implicit Types (k : KM) (ks cks : list D).

Definition kernel_step (o : kernel_op D) : ST KM bool :=
  match o with
  | KApply d => _ ← ApplyKernel Blake2b d; mret true
  | KSegment s => Kernel_ApplySegment Blake2b s
  | KRewind n => KernelMMR_Rewind n
  | KCommit => _ ← KernelMMR_Commit; mret true
  | KRollback => _ ← st_modify KernelMMR_Rollback; mret true
  end.

Definition kernel_op_ok (o : kernel_op D) (s : KSpec D) : Prop :=
  match o with
  | KApply d => kernel_wf (wf := wf) d /\ length s.1 + 1 < 2 ^ 32
  | KSegment seg => Forall (kernel_wf (wf := wf)) (sg_leaves seg) /\ length s.1 + length (sg_leaves seg) < 2 ^ 32
  | KRewind n => (n <= length s.1)%nat
  | KCommit | KRollback => True
  end.

Hypothesis Blake2b_length : forall x, length (Blake2b x) = 32%nat.

Lemma kernel_ApplySegment ks cks k (s : Segment D) :
  kernel_ok (wf := wf) Blake2b ks cks k -> kernel_op_ok (KSegment s) (ks, cks) ->
  exists k', Kernel_ApplySegment Blake2b s k = (Ok (segment_kernels s (length ks)).2, k') /\
    kernel_ok (wf := wf) Blake2b (ks ++ (segment_kernels s (length ks)).1) cks k'.
Proof.
  intros Hok [Hwf Hn]. unfold Kernel_ApplySegment, segment_kernels.
  destruct (bool_decide (sg_hash_pos s = [])); cbn [negb]; [|exists k; cbn [fst snd]; by rewrite app_nil_r].
  destruct (Z.eqb_spec (length (sg_leaf_pos s)) (length (sg_leaves s))) as [El|]; cbn [negb]; [|exists k; cbn [fst snd]; by rewrite app_nil_r].
  unfold mbind, ST_bind, st_get. rewrite (kernel_GetNumKernels Blake2b ks cks k Hok).
  apply kernel_ApplySegment_loop; [done|done| |].
  - rewrite <- Forall_map. by rewrite snd_zip by lia.
  - rewrite length_zip. cbn [fst] in Hn. lia.
Qed.

Lemma kernel_step_refines o s k :
  kernel_ok (wf := wf) Blake2b s.1 s.2 k -> kernel_op_ok o s ->
  exists k', kernel_step o k = ((kernel_spec_step o s).1, k') /\
    kernel_ok (wf := wf) Blake2b (kernel_spec_step o s).2.1 (kernel_spec_step o s).2.2 k'.
Proof.
  destruct s as [ks cks]. cbn [fst snd]. intros Hok Ho. destruct o as [d|seg|n| |]; cbn [kernel_step kernel_spec_step fst snd].
  - destruct Ho as [Hd Hn]. destruct (kernel_ApplyKernel Blake2b Blake2b_length ks cks k d Hok Hd Hn) as (k' & E & Hok').
    exists k'. split; [|done]. unfold mbind, ST_bind. by rewrite E.
  - destruct (kernel_ApplySegment ks cks k seg Hok Ho) as (k' & E & Hok'). destruct (segment_kernels seg (length ks)) as [ds ok].
    by exists k'.
  - destruct (kernel_Rewind Blake2b ks cks k n Hok Ho) as (k' & E & Hok'). by exists k'.
  - destruct (kernel_Commit Blake2b ks cks k Hok) as (k' & E & Hok'). exists k'. split; [|done]. unfold mbind, ST_bind. by rewrite E.
  - eexists. split; [done|]. eapply kernel_Rollback, Hok.
Qed.

End machine.

(** ** Opening the files *)
Section load.
Context {D : Type} {HD : Serializable D} {wf : EProtocolVersion -> D -> Prop} {HSL : SerializableLaws D wf}.
Context (Blake2b : bytes -> Hash).
Implicit Types (ks : list D).

Lemma BuildKernelOffsets_ok {F} ks (f : F) raw offsets w c :
  kernels_ok (wf := wf) ks -> ks <> [] -> file_ok raw -> working raw = v2_bytes ks -> disk raw = v2_bytes ks ->
  datafile_ok 8 w c offsets -> length c < 2 ^ 32 ->
  exists s, BuildKernelOffsetsFromRawFile (D := D) (mkKernelMMR f (Variable_ raw offsets)) = (Ok tt, mkKernelMMR f s) /\
    storage_ok ks ks s.
Proof.
  intros Hk Hne Hf Hw Hd Ho Hc. pose proof Hk as [Hwf Hl]. pose proof (v2_bytes_bound ks Hwf) as Hb.
  assert (0 < length ks) by (destruct ks; [done|simpl; lia]).
  unfold BuildKernelOffsetsFromRawFile, mbind, ST_bind, st_get, st_zoom, st_lift. cbn [km_storage].
  rewrite GetSize_working, Hw by done. destruct (Z.eqb_spec (length (v2_bytes ks)) 0); [lia|].
  change KERNEL_OFFSET_SIZE with (Z.of_nat 8). pose proof (DataFile_Rewind_ok 8 _ _ _ 0 Ho ltac:(lia) ltac:(lia)) as Hr.
  destruct (DataFile_Rewind 8%nat 0 offsets) as [r offsets1]. destruct (Z.leb_spec 0 (length w)); [|lia]. destruct Hr as [-> Hr].
  cbn [set_storage km_storage km_hashFile]. rewrite Hd.
  destruct (BuildKernelOffsets_loop_ok (length (v2_bytes ks)) [] ks c offsets1) as (offsets2 & E & Ho2); [done|lia|exact Hr|done|].
  change (BuildKernelOffsets_loop (D := D) (length (v2_bytes ks)) (ByteBuffer_new (v2_bytes ks) V2) 0 offsets1 = Ok offsets2) in E. rewrite E.
  destruct (DataFile_Commit_ok 8 _ _ _ Ho2) as (offsets3 & E3 & Ho3 & _). rewrite E3.
  exists (Variable_ raw offsets3). done.
Qed.

(** The files of committed kernels: fixed-width records, or records of variable
    length with or without the file of offsets. *)
Definition kernel_files ks (raw : bytes) (offsets : option bytes) : Prop :=
  (raw = concat (v1_bytes ks) /\ offsets = None) \/
  (raw = v2_bytes ks /\ offsets = Some (concat (offsets_from 0 ks))) \/
  (raw = v2_bytes ks /\ offsets = None /\ length raw mod 114 <> 0).

Lemma DataFile_Load_ok (n : nat) (l : list bytes) :
  (0 < n)%nat -> Forall (fun r => length r = n) l -> (n * length l)%nat < 2 ^ 63 -> datafile_ok n l l (DataFile_Load (concat l)).
Proof.
  intros Hn Hl Hs. pose proof (concat_length_records n l Hl) as E. constructor; cbn [DataFile_Load m_pFile].
  - apply Load_ok. lia.
  - done.
  - split; [done|apply Load_working].
  - by split.
  - by rewrite Load_working.
Qed.

Lemma v1_bytes_width ks : kernels_ok (wf := wf) ks -> Forall (fun r => length r = 114%nat) (v1_bytes ks).
Proof. intros [Hwf _]. unfold v1_bytes. apply Forall_map. eapply Forall_impl; [apply Hwf|]. by intros d []. Qed.

Lemma kernel_files_load ks raw offsets hash l :
  kernels_ok (wf := wf) ks -> ks <> [] -> records 32 l hash -> tree_hashes Blake2b (v1_bytes ks) l -> kernel_files ks raw offsets ->
  forall (genesisKernel : D) genesisRoot, exists k : KernelMMR DataFile,
    kernel_ok (wf := wf) Blake2b ks ks k /\
    KernelMMR_Load Blake2b genesisKernel genesisRoot hash (Some raw) offsets false = Ok k /\
    KernelMMR_Load Blake2b genesisKernel genesisRoot hash (Some raw) offsets true =
      match check_genesis Blake2b genesisKernel genesisRoot k with (Ok _, k) => Ok k | (Throw e, _) => Throw e end.
Proof.
  intros Hk Hne [Hlw ->] Ht Hfiles gk gr. pose proof Hk as [Hwf Hl]. pose proof (v2_bytes_bound ks Hwf) as Hb.
  pose proof (kernels_tree_length Blake2b ks l Hk Ht). assert (0 < length ks) by (destruct ks; [done|simpl; lia]).
  assert (hf_repr l l (DataFile_Load (concat l))) as Hh by (apply DataFile_Load_ok; [lia|done|lia]).
  assert (0 < length l). { destruct Ht as [-> _]. rewrite v1_bytes_length. pose proof (mmr_size_ge (length ks)). lia. }
  assert (forall s, storage_ok ks ks s -> kernel_ok (wf := wf) Blake2b ks ks (mkKernelMMR (DataFile_Load (concat l)) s)) as Hok.
  { intros s Hs. constructor; [done|done| |done]. by exists l, l. }
  unfold KernelMMR_Load. rewrite (hf_size_ok l l (DataFile_Load (concat l)) Hh). destruct (Z.eqb_spec (length l) 0); [lia|].
  destruct Hfiles as [[-> ->]|[[-> ->]|(-> & -> & Hmod)]]; cbn [from_option id].
  - rewrite (concat_length_records 114) by (by apply v1_bytes_width).
    assert ((114 * length (v1_bytes ks))%nat mod KERNEL_SIZE = 0) as ->.
    { change KERNEL_SIZE with 114. rewrite Nat2Z.inj_mul, Z.mul_comm. apply Z.mod_mul. lia. }
    cbn [Z.eqb negb orb]. eexists. split; [apply Hok|split; reflexivity].
    apply DataFile_Load_ok; [lia|by apply v1_bytes_width|rewrite v1_bytes_length; lia].
  - cbn [orb negb]. eexists. split; [apply Hok|split; reflexivity].
    split; [apply Load_ok; lia|]. split; [apply Load_working|]. split; [done|].
    apply DataFile_Load_ok; [lia|apply offsets_width|rewrite offsets_length; lia].
  - change KERNEL_SIZE with 114. destruct (Z.eqb_spec (length (v2_bytes ks) mod 114) 0); [lia|]. cbn [negb orb].
    destruct (BuildKernelOffsets_ok ks (DataFile_Load (concat l)) (AppendOnlyFile_Load (v2_bytes ks)) (DataFile_Load []) [] []) as (s & E & Hs);
      [done|done|apply Load_ok; lia|apply Load_working|done|apply (DataFile_Load_ok 8 []); [lia|constructor|simpl; lia]|simpl; lia|].
    eexists. split; [by apply Hok|]. unfold mbind, ST_bind. rewrite E. done.
Qed.

End load.

(** ** Properties *)

Section properties.
Context {F : Type} {HF : HashFile F} {HFL : HashFileLaws F}.
Context {D : Type} {HD : Serializable D} {wf : EProtocolVersion -> D -> Prop} {HSL : SerializableLaws D wf}.
Context (Blake2b : bytes -> Hash).
Implicit Types (k : KernelMMR F) (ks cks : list D).
Hypothesis Blake2b_length : forall x, length (Blake2b x) = 32%nat.
Hypothesis Blake2b_nonzero : forall x, Blake2b x <> ZERO_HASH.

(** C21: any sequence of kernels, segments, rewinds, commits and rollbacks leaves
    the kernel MMR, in either storage format, with the kernels, the committed
    kernels and the answers of the abstract list machine. *)
Theorem KernelMMR_refines ops (s : KSpec D) k :
  kernel_ok (wf := wf) Blake2b s.1 s.2 k -> ops_ok (kernel_op_ok (wf := wf)) kernel_spec_step ops s ->
  let '(rs, k') := run (kernel_step Blake2b) ops k in
  let '(rs', s') := run kernel_spec_step ops s in
  rs = rs' /\ kernel_ok (wf := wf) Blake2b s'.1 s'.2 k'.
Proof.
  apply (run_simulation (fun s k => kernel_ok (wf := wf) Blake2b s.1 s.2 k)). clear s k. intros o s k.
  by apply kernel_step_refines.
Qed.

Lemma kernel_Root_prefix ks cks k (n : nat) : kernel_ok (wf := wf) Blake2b ks cks k -> (n <= length ks)%nat ->
  KernelMMR_Root Blake2b (mmr_size n) k = Ok (mmr_root Blake2b (v1_bytes (take n ks))).
Proof.
  intros Hok Hn. pose proof Hok as [Hk _ (l & lc & Hh & Ht & _) _]. pose proof (kernels_tree_length Blake2b ks l Hk Ht).
  pose proof Hk as [_ Hl]. unfold KernelMMR_Root.
  assert (v1_bytes ks = v1_bytes (take n ks) ++ v1_bytes (drop n ks)) as E by (unfold v1_bytes; by rewrite <- map_app, take_drop).
  rewrite E in Ht. pose proof (Root_ok Blake2b (R := list Z) (v1_bytes (take n ks)) (v1_bytes (drop n ks)) l lc (km_hashFile k)) as Hr.
  rewrite v1_bytes_length, length_take, Nat.min_l in Hr by lia. apply Hr; [done|done| |done|done]. rewrite <- E, v1_bytes_length. lia.
Qed.

(** what the kernel MMR returns of its kernels: their number, the MMR size,
    the root of every prefix, the hash of every node, and every kernel, read from
    whichever format it was stored in. *)
Theorem KernelMMR_reads ks cks k :
  kernel_ok (wf := wf) Blake2b ks cks k ->
  GetNumKernels k = length ks /\
  KernelMMR_GetSize k = mmr_size (length ks) /\
  (forall n : nat, (n <= length ks)%nat -> KernelMMR_Root Blake2b (mmr_size n) k = Ok (mmr_root Blake2b (v1_bytes (take n ks)))) /\
  (forall (h : nat) i, 0 <= i -> (i + 1) * 2 ^ h <= length ks ->
     KernelMMR_GetHashAt (Index_At (node_pos h i)) k = Ok (node_hash Blake2b (v1_bytes ks) h i)) /\
  (forall j, 0 <= j < 2 ^ 58 -> GetKernelAt (LeafIndex_At j) k = Ok (ks !! Z.to_nat j)).
Proof.
  intros Hok. pose proof Hok as [Hk _ (l & lc & Hh & Ht & _) _]. pose proof (kernels_tree_length Blake2b ks l Hk Ht).
  pose proof Hk as [_ Hl]. split; [exact (kernel_GetNumKernels Blake2b ks cks k Hok)|]. split.
  { unfold KernelMMR_GetSize. rewrite (hf_size_ok l lc _ Hh). destruct Ht as [-> _]. by rewrite v1_bytes_length. }
  split; [|split; [|intros j; exact (kernel_GetKernelAt Blake2b ks cks k j Hok)]].
  - intros n. exact (kernel_Root_prefix ks cks k n Hok).
  - intros h i Hi Hin. unfold KernelMMR_GetHashAt. cbn [Index_At m_position].
    assert (0 <= node_pos h i < mmr_size (length ks)) as Hpos by (split; [apply node_pos_nonneg; lia|apply node_in_mmr; lia]).
    destruct Ht as [Hll Ht]. rewrite v1_bytes_length in Hll. rewrite (hf_get_ok l lc _ _ Hh) by lia.
    by rewrite Ht by (rewrite ?v1_bytes_length; done).
Qed.

(** opening the files of committed kernels, of fixed or of variable records,
    and whether or not the file of offsets is there, finds those kernels; the
    check of the genesis kernel leaves them alone when it agrees. *)
Theorem KernelMMR_Load_kernels ks raw offsets hash l (genesisKernel : D) genesisRoot includeGenesis :
  kernels_ok (wf := wf) ks -> ks <> [] -> records 32 l hash -> tree_hashes Blake2b (v1_bytes ks) l -> kernel_files ks raw offsets ->
  (includeGenesis = true -> genesisRoot = mmr_root Blake2b (v1_bytes (take 1 ks)) /\ length genesisRoot = 32%nat) ->
  exists k : KernelMMR DataFile, KernelMMR_Load Blake2b genesisKernel genesisRoot hash (Some raw) offsets includeGenesis = Ok k /\
    kernel_ok (wf := wf) Blake2b ks ks k.
Proof.
  intros Hk Hne Hl Ht Hfiles Hgen. destruct (kernel_files_load Blake2b ks raw offsets hash l Hk Hne Hl Ht Hfiles genesisKernel genesisRoot)
    as (k & Hok & E0 & E1). exists k. split; [|done]. destruct includeGenesis; [|done]. rewrite E1.
  destruct (Hgen eq_refl) as [-> Hlen]. destruct ks as [|d ks]; [done|]. unfold check_genesis, mbind, ST_bind, st_get, st_lift.
  rewrite (kernel_GetKernelAt Blake2b (d :: ks) (d :: ks) k 0 Hok) by lia. cbn [Z.to_nat lookup list_lookup].
  pose proof Hok as [_ _ (l' & lc' & Hh' & Ht' & _) _].
  assert (KernelMMR_Root Blake2b 1 k = Ok (mmr_root Blake2b (v1_bytes (take 1 (d :: ks))))) as ->.
  { unfold KernelMMR_Root. change 1 with (mmr_size (length (v1_bytes (take 1 (d :: ks))))) at 1.
    pose proof Hk as [_ Hlk]. apply (Root_ok Blake2b (R := list Z) _ (v1_bytes ks) l' lc'); try done. rewrite <- (v1_bytes_length (d :: ks)) in Hlk. simpl in *. lia. }
  cbn [mbind result_bind mret result_ret]. unfold BigInteger_neq. rewrite BigInteger_eq_spec by done.
  rewrite bool_decide_eq_true_2 by done. cbn [negb andb]. by destruct (KernelMMR_GetSize k >=? 1).
Qed.

(** without the file of offsets, records of variable length whose total is a
    multiple of the fixed width are taken for records of that width: the number
    of kernels is then that of the bytes, not of the kernels. *)
Theorem KernelMMR_Load_ambiguous ks hash (genesisKernel : D) genesisRoot :
  32 <= length hash < 2 ^ 63 -> length (v2_bytes ks) < 2 ^ 63 -> length (v2_bytes ks) mod 114 = 0 ->
  exists k : KernelMMR DataFile,
    KernelMMR_Load Blake2b genesisKernel genesisRoot hash (Some (v2_bytes ks)) None false = Ok k /\
    km_storage k = Fixed (DataFile_Load (v2_bytes ks)) /\ GetNumKernels k = length (v2_bytes ks) / 114.
Proof.
  intros Hh Hl Hmod. eexists. unfold KernelMMR_Load.
  assert (hf_GetSize (DataFile_Load hash) = length hash / 32) as ->.
  { cbn [hf_GetSize DataFile_HashFile]. unfold DataFile_GetSize. cbn [DataFile_Load m_pFile].
    by rewrite GetSize_working, Load_working by (apply Load_ok; lia). }
  cbn [from_option id]. destruct (Z.eqb_spec (length hash / 32) 0) as [E|_].
  { apply Z.div_small_iff in E; lia. }
  change KERNEL_SIZE with 114. rewrite Hmod. cbn [Z.eqb negb orb]. split; [reflexivity|]. split; [done|].
  unfold GetNumKernels. cbn [km_storage]. unfold DataFile_GetSize. cbn [DataFile_Load m_pFile].
  by rewrite GetSize_working, Load_working by (apply Load_ok; lia).
Qed.

End properties.

(** ** Evaluation: the kernels of transactions *)

Lemma TransactionKernel_kernel_wf k :
  TransactionKernel_wf V1 k -> TransactionKernel_wf V2 k -> kernel_wf (wf := TransactionKernel_wf) k.
Proof.
  intros H1 H2. pose proof (kernel_V1_length k H1) as E1. pose proof (kernel_bytes_wf V2 k H2) as E2.
  constructor; [done|done|..]; unfold Serialized; rewrite TransactionKernel_Serialize_bytes; cbn [Serializer_new s_bytes s_version app]; [done|].
  lia.
Qed.

Lemma example_kernel_ok lock : 0 < lock <= WEEK_HEIGHT -> kernel_wf (wf := TransactionKernel_wf) (example_kernel 3 1 5 lock).
Proof. intros Hl. apply TransactionKernel_kernel_wf; (apply example_kernel_wf; [done|done|done|done|by right]). Qed.

Definition empty_kernel_mmr (variable : bool) : KernelMMR DataFile :=
  mkKernelMMR (DataFile_Load [])
    (if variable then Variable_ (AppendOnlyFile_Load []) (DataFile_Load []) else Fixed (DataFile_Load [])).

Lemma empty_kernel_mmr_ok variable : kernel_ok (wf := TransactionKernel_wf) toy_hash [] [] (empty_kernel_mmr variable).
Proof.
  assert (forall n : nat, (0 < n)%nat -> datafile_ok n [] [] (DataFile_Load [])) as H.
  { intros n Hn. apply (DataFile_Load_ok n []); [done|constructor|simpl; lia]. }
  constructor; [split; [constructor|simpl; lia]|split; [constructor|simpl; lia]| |].
  - exists [], []. split; [by apply empty_file_repr|]. split; apply tree_hashes_nil.
  - destruct variable; cbn [empty_kernel_mmr km_storage storage_ok]; [|apply H; lia].
    split; [apply Load_ok; simpl; lia|]. split; [done|]. split; [done|]. apply H. lia.
Qed.

(** The third leaf is not the next one: there is a gap at position 3. *)
Definition example_kernel_segment : Segment TransactionKernel :=
  mkSegment (mkSegmentIdentifier 1 0) [] [] [0; 1; 4] [example_kernel 3 1 5 1; example_kernel 3 1 5 2; example_kernel 3 1 5 3] (mkSegmentProof []).
Definition example_kernel_ops : list (kernel_op TransactionKernel) :=
  [KApply (example_kernel 3 1 5 1); KCommit; KSegment example_kernel_segment; KRewind 1; KRollback].

Lemma example_kernel_ops_ok : ops_ok (kernel_op_ok (wf := TransactionKernel_wf)) kernel_spec_step example_kernel_ops ([], []).
Proof.
  assert (forall n, 0 < n < 10 -> kernel_wf (wf := TransactionKernel_wf) (example_kernel 3 1 5 n)) as Hk.
  { intros n Hn. apply example_kernel_ok. change WEEK_HEIGHT with 10080. lia. }
  cbn [example_kernel_ops ops_ok kernel_op_ok].
  split; [split; [apply Hk; lia|simpl; lia]|]. split; [done|].
  split; [split; [repeat (constructor; [apply Hk; lia|]); constructor|vm_compute; reflexivity]|].
  split; [vm_compute; lia|]. done.
Qed.

Lemma KernelMMR_refines_witness :
  (run (kernel_step toy_hash) example_kernel_ops (empty_kernel_mmr true)).1 = [Ok true; Ok true; Ok false; Ok true; Ok true].
Proof.
  pose proof (KernelMMR_refines (wf := TransactionKernel_wf) toy_hash toy_hash_length example_kernel_ops ([], []) _
    (empty_kernel_mmr_ok true) example_kernel_ops_ok) as H.
  destruct (run (kernel_step toy_hash) example_kernel_ops (empty_kernel_mmr true)) as [rs k'].
  destruct H as [E _]. cbn [fst]. rewrite E. vm_compute. reflexivity.
Defined.

Definition one_kernel : TransactionKernel := example_kernel 3 1 5 1.
Definition one_kernel_mmr (variable : bool) : KernelMMR DataFile := (ApplyKernel toy_hash one_kernel (empty_kernel_mmr variable)).2.

Lemma one_kernel_mmr_ok variable : kernel_ok (wf := TransactionKernel_wf) toy_hash [one_kernel] [] (one_kernel_mmr variable).
Proof.
  destruct (kernel_ApplyKernel (wf := TransactionKernel_wf) toy_hash toy_hash_length [] [] (empty_kernel_mmr variable) one_kernel (empty_kernel_mmr_ok variable)) as (k & E & Hok);
    [by apply example_kernel_ok|simpl; lia|]. unfold one_kernel_mmr. by rewrite E.
Qed.

Lemma KernelMMR_reads_witness :
  GetNumKernels (one_kernel_mmr true) = 1 /\ GetKernelAt (LeafIndex_At 0) (one_kernel_mmr true) = Ok (Some one_kernel).
Proof.
  pose proof (KernelMMR_reads toy_hash toy_hash_length toy_hash_nonzero [one_kernel] [] (one_kernel_mmr true) (one_kernel_mmr_ok true)) as (H1 & _ & _ & _ & H5).
  split; [exact H1|exact (H5 0 ltac:(lia))].
Defined.

Lemma KernelMMR_Load_kernels_witness :
  exists k : KernelMMR DataFile,
    KernelMMR_Load toy_hash one_kernel (node_hash toy_hash (v1_bytes [one_kernel]) 0 0)
      (node_hash toy_hash (v1_bytes [one_kernel]) 0 0) (Some (Serialized V2 one_kernel)) None true = Ok k /\
    GetNumKernels k = 1.
Proof.
  set (h := node_hash toy_hash (v1_bytes [one_kernel]) 0 0).
  assert (kernels_ok (wf := TransactionKernel_wf) [one_kernel]) as Hk.
  { split; [constructor; [by apply example_kernel_ok|constructor]|simpl; lia]. }
  destruct (one_kernel_mmr_ok true) as [_ _ (l & lc & _ & Ht & _) _].
  destruct (KernelMMR_Load_kernels (wf := TransactionKernel_wf) toy_hash toy_hash_length toy_hash_nonzero [one_kernel] (Serialized V2 one_kernel) None
    h [h] one_kernel h true) as (k & E & Hok).
  - done.
  - done.
  - split; [repeat constructor|]. cbn [concat]. by rewrite app_nil_r.
  - assert (l = [h]) as <-; [|done]. destruct Ht as [Hl Ht]. specialize (Ht 0%nat 0 ltac:(lia) ltac:(done)).
    change (mmr_size _) with 1 in Hl.
    destruct l as [|x [|]]; [done| |cbn [length] in Hl; lia]. change (Some x = Some h) in Ht. by injection Ht as ->.
  - right. right. split; [symmetry; apply v2_bytes_one|]. split; [done|]. vm_compute. discriminate.
  - intros _. split; reflexivity.
  - exists k. split; [exact E|]. apply (kernel_GetNumKernels toy_hash [one_kernel] [one_kernel] k Hok).
Defined.

(** 57 plain kernels are 53 records of the fixed width. *)
Definition plain_kernels : list TransactionKernel := repeat (example_kernel 0 0 5 0) 57.

Lemma KernelMMR_Load_ambiguous_witness :
  exists k : KernelMMR DataFile,
    KernelMMR_Load toy_hash one_kernel ZERO_HASH (repeat 1 (32 * Z.to_nat (mmr_size 57))) (Some (v2_bytes plain_kernels)) None false = Ok k /\
    length plain_kernels = 57%nat /\ GetNumKernels k = 53.
Proof.
  assert (length (v2_bytes plain_kernels) = 6042 :> Z) as El by (vm_compute; reflexivity).
  destruct (KernelMMR_Load_ambiguous toy_hash plain_kernels (repeat 1 (32 * Z.to_nat (mmr_size 57))) one_kernel ZERO_HASH) as (k & E & _ & En);
    [rewrite repeat_length; vm_compute; split; [discriminate|reflexivity]|rewrite El; lia|rewrite El; reflexivity|].
  exists k. split; [exact E|]. split; [reflexivity|]. rewrite En, El. reflexivity.
Defined.
