(* ===== verification/Header.v ===== *)
(** * Block headers ([src/Core/Models/ProofOfWork.cpp], [BlockHeader.cpp],
    [include/Core/Models/ProofOfWork.h], [BlockHeader.h],
    [include/Crypto/Models/BlindingFactor.h])

    A proof of work packs its 42 nonces as consecutive [m_edgeBits]-bit numbers,
    least significant bit first.  The packed bytes are those of the integer in
    which the nonces are the digits. *)
From S2P Require Import Prelude BitUtil Consensus MMRIndex Serial BigInteger MMRHash Transaction.

(** ** [ProofOfWork]

    The hash is that of the bytes read, or of the bytes [SerializeCycle] writes. *)
Record ProofOfWork := mkProofOfWork { pow_edgeBits : Z; pow_proofNonces : list Z; pow_hash : Hash }.

Definition ProofOfWork_IsPrimary (p : ProofOfWork) : bool :=
  negb (pow_edgeBits p =? SECOND_POW_EDGE_BITS) && (pow_edgeBits p >=? DEFAULT_MIN_EDGE_BITS).
Definition ProofOfWork_IsSecondary (p : ProofOfWork) : bool := pow_edgeBits p =? SECOND_POW_EDGE_BITS.

Definition cycle_bytes_len (edgeBits : Z) : Z := (edgeBits * PROOFSIZE + 7) / 8.

(** The body of the two loops of [SerializeCycle].  A write past the end of the
    vector, and a shift of a 64-bit integer by 64 or more, are undefined. *)
Definition pack_bit (edgeBits n nonce bit : Z) (bits : bytes) : result bytes :=
  if bit >=? 64 then Throw UB
  else if negb (Z.land nonce (1 << bit)%u64 =? 0) then
    let positionTemp := n * edgeBits + bit in
    match bits !! Z.to_nat (positionTemp / 8) with
    | None => Throw UB
    | Some b => Ok (<[Z.to_nat (positionTemp / 8) := Z.lor b (uint 8 (Z.shiftl 1 (positionTemp mod 8)))]> bits)
    end
  else Ok bits.

Definition pack_nonce (edgeBits : Z) (nonce : Z * Z) (bits : bytes) : result bytes :=
  fold_result (pack_bit edgeBits nonce.1 nonce.2) (seqZ 0 edgeBits) bits.

Definition pack_cycle (edgeBits : Z) (proofNonces : list Z) : result bytes :=
  fold_result (pack_nonce edgeBits) (zip (seqZ 0 (length proofNonces)) proofNonces) (repeat 0 (Z.to_nat (cycle_bytes_len edgeBits))).

Definition SerializeCycle (p : ProofOfWork) (s : Serializer) : result Serializer :=
  bits ← pack_cycle (pow_edgeBits p) (pow_proofNonces p);
  mret (AppendByteVector bits LenNone s).

Definition ProofOfWork_Serialize (p : ProofOfWork) (s : Serializer) : result Serializer :=
  SerializeCycle p (AppendU8 (pow_edgeBits p) s).

Definition unpack_bit (bits : bytes) (edgeBits n bit proofNonce : Z) : result Z :=
  let positionTemp := n * edgeBits + bit in
  match bits !! Z.to_nat (positionTemp / 8) with
  | None => Throw UB
  | Some b =>
      if negb (Z.land b (Z.shiftl 1 (uint 8 positionTemp mod 8)) =? 0) then Ok (Z.lor proofNonce (1 << bit)%u64)
      else Ok proofNonce
  end.

Definition unpack_nonce (bits : bytes) (edgeBits n : Z) (proofNonces : list Z) : result (list Z) :=
  proofNonce ← fold_result (unpack_bit bits edgeBits n) (seqZ 0 edgeBits) 0;
  mret (proofNonces ++ [proofNonce]).

Definition DeserializeProofNonces (bits : bytes) (edgeBits : Z) : result (list Z) :=
  if (edgeBits =? 0) || (edgeBits >? 63) then Throw DeserializationException
  else fold_result (unpack_nonce bits edgeBits) (seqZ 0 PROOFSIZE) [].

Definition reader_lift {A} (r : result A) : reader A := fun b =>
  match r with Ok a => Ok (a, b) | Throw e => Throw e end.

Section headers.
Context (Blake2b : bytes -> Hash).

(** The constructor from nonces. *)
Definition ProofOfWork_new (edgeBits : Z) (proofNonces : list Z) : result ProofOfWork :=
  s ← SerializeCycle (mkProofOfWork edgeBits proofNonces []) (Serializer_new V1);
  mret (mkProofOfWork edgeBits proofNonces (Blake2b (s_bytes s))).

Definition ProofOfWork_Deserialize : reader ProofOfWork :=
  edgeBits ← ReadU8;
  bits ← ReadVector (cycle_bytes_len edgeBits);
  let hash := Blake2b bits in
  proofNonces ← reader_lift (DeserializeProofNonces bits edgeBits);
  mret (mkProofOfWork edgeBits proofNonces hash).

(** ** [BlockHeader] *)
Record BlockHeader := mkBlockHeader {
  bh_version : Z;
  bh_height : Z;
  bh_timestamp : Z;
  bh_previousBlockHash : Hash;
  bh_previousRoot : Hash;
  bh_outputRoot : Hash;
  bh_rangeProofRoot : Hash;
  bh_kernelRoot : Hash;
  bh_totalKernelOffset : bytes;
  bh_outputMMRSize : Z;
  bh_kernelMMRSize : Z;
  bh_totalDifficulty : Z;
  bh_scalingDifficulty : Z;
  bh_nonce : Z;
  bh_proofOfWork : ProofOfWork;
}.

(** A signed timestamp is appended as the bits of its two's complement. *)
Definition append_pre_pow (h : BlockHeader) (s : Serializer) : Serializer :=
  let s := AppendU16 (bh_version h) s in
  let s := AppendU64 (bh_height h) s in
  let s := AppendU64 (uint 64 (bh_timestamp h)) s in
  let s := AppendBigInteger (bh_previousBlockHash h) s in
  let s := AppendBigInteger (bh_previousRoot h) s in
  let s := AppendBigInteger (bh_outputRoot h) s in
  let s := AppendBigInteger (bh_rangeProofRoot h) s in
  let s := AppendBigInteger (bh_kernelRoot h) s in
  let s := AppendBigInteger (bh_totalKernelOffset h) s in
  let s := AppendU64 (bh_outputMMRSize h) s in
  let s := AppendU64 (bh_kernelMMRSize h) s in
  let s := AppendU64 (bh_totalDifficulty h) s in
  let s := AppendU32 (bh_scalingDifficulty h) s in
  AppendU64 (bh_nonce h) s.

Definition BlockHeader_Serialize (h : BlockHeader) (s : Serializer) : result Serializer :=
  ProofOfWork_Serialize (bh_proofOfWork h) (append_pre_pow h s).

Definition GetPreProofOfWork (h : BlockHeader) : bytes := s_bytes (append_pre_pow h (Serializer_new V1)).

Definition BlockHeader_GetHash (h : BlockHeader) : Hash := pow_hash (bh_proofOfWork h).

Definition BlockHeader_SerializeWithIndex (index : Z) (h : BlockHeader) : result bytes :=
  s ← SerializeCycle (bh_proofOfWork h) (AppendU64 index (Serializer_new V1));
  mret (s_bytes s).

Definition GetNumOutputs (h : BlockHeader) : Z := Index_GetLeafIndex (Index_At (bh_outputMMRSize h)).
Definition BlockHeader_GetNumKernels (h : BlockHeader) : Z := Index_GetLeafIndex (Index_At (bh_kernelMMRSize h)).

Definition BlockHeader_Deserialize : reader BlockHeader :=
  version ← ReadU16;
  height ← ReadU64;
  timestamp ← Read64;
  previousBlockHash ← ReadBigInteger 32;
  previousRoot ← ReadBigInteger 32;
  outputRoot ← ReadBigInteger 32;
  rangeProofRoot ← ReadBigInteger 32;
  kernelRoot ← ReadBigInteger 32;
  totalKernelOffset ← ReadBigInteger 32;
  outputMMRSize ← ReadU64;
  kernelMMRSize ← ReadU64;
  totalDifficulty ← ReadU64;
  scalingDifficulty ← ReadU32;
  nonce ← ReadU64;
  proofOfWork ← ProofOfWork_Deserialize;
  mret (mkBlockHeader version height timestamp previousBlockHash previousRoot outputRoot rangeProofRoot kernelRoot
    totalKernelOffset outputMMRSize kernelMMRSize totalDifficulty scalingDifficulty nonce proofOfWork).

End headers.

(** ** Packed nonces as digits *)

(** The integer whose digits to the base [2 ^ eb] are the nonces. *)
Fixpoint digits_val (eb : Z) (l : list Z) : Z :=
  match l with
  | [] => 0
  | x :: l => x + 2 ^ eb * digits_val eb l
  end.

Lemma digits_val_range eb l : 0 <= eb -> Forall (fun x => is_uint eb x) l -> 0 <= digits_val eb l < 2 ^ (eb * length l).
Proof.
  intros He. induction 1 as [|x l Hx _ IH]; cbn [digits_val length].
  - rewrite Z.mul_0_r. simpl. lia.
  - unfold is_uint in Hx. rewrite Nat2Z.inj_succ, Z.mul_succ_r, Z.add_comm, Z.pow_add_r by lia.
    assert (0 < 2 ^ eb) by (apply Z.pow_pos_nonneg; lia). nia.
Qed.

Lemma digits_val_app eb l l' : 0 <= eb -> digits_val eb (l ++ l') = digits_val eb l + 2 ^ (eb * length l) * digits_val eb l'.
Proof.
  intros He. induction l as [|x l IH]; cbn [digits_val length app].
  - rewrite Z.mul_0_r. lia.
  - rewrite IH, Nat2Z.inj_succ, Z.mul_succ_r, (Z.pow_add_r 2 (eb * length l)) by lia. ring.
Qed.

(** The digit at index [n]. *)
Lemma digits_val_digit eb l (n : nat) x : 0 <= eb -> Forall (fun x => is_uint eb x) l -> l !! n = Some x ->
  (digits_val eb l / 2 ^ (eb * n)) mod 2 ^ eb = x.
Proof.
  intros He Hl. assert (0 < 2 ^ eb) by (apply Z.pow_pos_nonneg; lia). revert n.
  induction Hl as [|y l Hy Hl IH]; intros n Hn; [done|]. unfold is_uint in Hy. destruct n as [|n]; cbn [digits_val].
  - injection Hn as ->. rewrite Z.mul_0_r, Z.pow_0_r, Z.div_1_r, Z.mul_comm, Z.mod_add, Z.mod_small by lia. done.
  - rewrite Nat2Z.inj_succ, Z.mul_succ_r, (Z.add_comm _ eb), Z.pow_add_r, <- Z.div_div by (try apply Z.pow_pos_nonneg; nia).
    rewrite Z.add_comm, (Z.mul_comm (2 ^ eb)), Z.div_add_l, (Z.div_small y), Z.add_0_r by lia. by apply IH.
Qed.

(** The digits of [N]. *)
Definition digits_of (eb : Z) (N : Z) (k : nat) : list Z := map (fun n => (N / 2 ^ (eb * n)) mod 2 ^ eb) (seqZ 0 k).

Lemma digits_of_val eb l : 0 <= eb -> Forall (fun x => is_uint eb x) l -> digits_of eb (digits_val eb l) (length l) = l.
Proof.
  intros He Hl. unfold digits_of. apply list_eq. intros n. rewrite list_lookup_fmap. destruct (l !! n) as [x|] eqn:E.
  - rewrite lookup_seqZ_lt by (apply lookup_lt_Some in E; lia). cbn [fmap option_fmap option_map]. rewrite Z.add_0_l.
    f_equal. by apply digits_val_digit.
  - rewrite lookup_seqZ_ge; [done|]. apply lookup_ge_None in E. lia.
Qed.

(** *** One bit *)

Lemma div_mod_8 p : 0 <= p -> 0 <= p / 8 /\ 0 <= p mod 8 < 8 /\ p = 8 * (p / 8) + p mod 8.
Proof. intros Hp. pose proof (Z.div_mod p 8). pose proof (Z.mod_pos_bound p 8). pose proof (Z.div_pos p 8). lia. Qed.

(** Bit [p] of a byte string is a bit of its byte [p / 8]. *)
Lemma lookup_bit bits p b : Forall is_byte bits -> 0 <= p -> bits !! Z.to_nat (p / 8) = Some b ->
  Z.testbit (le_val bits) p = Z.testbit b (p mod 8).
Proof. intros Hb Hp E. rewrite testbit_le_val by done. by rewrite (nth_lookup_Some _ _ _ _ E). Qed.

Lemma land_bit b i : 0 <= i -> (Z.land b (Z.shiftl 1 i) =? 0) = negb (Z.testbit b i).
Proof.
  intros Hi. rewrite Z.shiftl_1_l. destruct (Z.testbit b i) eqn:E; cbn [negb].
  - apply Z.eqb_neq. intros H. pose proof (f_equal (fun z => Z.testbit z i) H) as H'. cbv beta in H'.
    rewrite Z.land_spec, E, Z.pow2_bits_true, Z.bits_0 in H' by lia. done.
  - apply Z.eqb_eq, Z.bits_inj'. intros j Hj. rewrite Z.land_spec, Z.bits_0, Z.pow2_bits_eqb by lia.
    destruct (Z.eqb_spec i j) as [<-|]; [by rewrite E|by rewrite andb_false_r].
Qed.

Lemma le_val_insert bits (i : nat) b c : bits !! i = Some b ->
  le_val (<[i := c]> bits) = le_val bits + 256 ^ i * (c - b).
Proof.
  revert i. induction bits as [|x bits IH]; intros i Hi; [done|]. destruct i as [|i].
  - injection Hi as ->. cbn [insert list_insert le_val]. change (256 ^ 0%nat) with 1. lia.
  - change (<[S i := c]> (x :: bits)) with (x :: <[i := c]> bits). cbn [le_val]. rewrite (IH i Hi), Nat2Z.inj_succ, Z.pow_succ_r by lia. ring.
Qed.

(** Setting a clear bit adds its power of two. *)
Lemma set_bit_val bits p b : Forall is_byte bits -> 0 <= p -> bits !! Z.to_nat (p / 8) = Some b ->
  Z.testbit (le_val bits) p = false ->
  let bits' := <[Z.to_nat (p / 8) := Z.lor b (uint 8 (Z.shiftl 1 (p mod 8)))]> bits in
  le_val bits' = le_val bits + 2 ^ p /\ Forall is_byte bits' /\ length bits' = length bits.
Proof.
  intros Hb Hp E Hbit bits'. rewrite (lookup_bit bits p b) in Hbit by done. destruct (div_mod_8 p Hp) as (H1 & H2 & H3).
  pose proof (Forall_lookup_1 _ _ _ _ Hb E) as Hbb. unfold is_byte, is_uint in Hbb.
  assert (0 < 2 ^ (p mod 8) < 256) as Hpow.
  { split; [apply Z.pow_pos_nonneg; lia|]. change 256 with (2 ^ 8). apply Z.pow_lt_mono_r; lia. }
  assert (Z.lor b (uint 8 (Z.shiftl 1 (p mod 8))) = b + 2 ^ (p mod 8)) as El.
  { rewrite Z.shiftl_1_l, uint_small by (unfold is_uint; lia).
    assert (Z.land b (2 ^ (p mod 8)) = 0) as Hland.
    { pose proof (land_bit b (p mod 8) ltac:(lia)) as H. rewrite Z.shiftl_1_l, Hbit in H. by apply Z.eqb_eq. }
    by rewrite Z.add_nocarry_lxor, Z.lxor_lor. }
  unfold bits'. rewrite (le_val_insert _ _ b) by done. rewrite El, length_insert. split; [|split; [|done]].
  - replace (b + 2 ^ (p mod 8) - b) with (2 ^ (p mod 8)) by ring. rewrite Z2Nat.id by lia. f_equal.
    change 256 with (2 ^ 8). rewrite <- Z.pow_mul_r, <- Z.pow_add_r by lia. f_equal. lia.
  - apply Forall_insert; [done|]. unfold is_byte. rewrite <- El. apply uint_lor; [lia|done|apply uint_range; lia].
Qed.


(** *** The loops *)

Lemma mod_pow2_step x i : 0 <= i -> x mod 2 ^ (i + 1) = x mod 2 ^ i + Z.b2z (Z.testbit x i) * 2 ^ i.
Proof.
  intros Hi. rewrite Z.pow_add_r, Z.rem_mul_r by (try apply Z.pow_pos_nonneg; try apply Z.pow_nonzero; lia).
  change (2 ^ 1) with 2. rewrite <- Z.testbit_spec' by lia. ring.
Qed.

Lemma testbit_small a i : 0 <= i -> 0 <= a < 2 ^ i -> Z.testbit a i = false.
Proof. intros Hi Ha. rewrite Z.testbit_eqb, Z.div_small by lia. done. Qed.

Section packing.
Context (eb : Z) (Heb : 0 <= eb <= 63).

(** Bytes of a number below [2 ^ k], in a vector of length [len]. *)
Record packed (len : nat) (k N : Z) (bits : bytes) : Prop := {
  pk_bytes : Forall is_byte bits;
  pk_length : length bits = len;
  pk_val : le_val bits = N;
  pk_range : 0 <= N < 2 ^ k;
}.

Lemma pack_bit_ok (len : nat) n nonce i N bits : 0 <= n -> 0 <= i < eb -> n * eb + eb <= 8 * len ->
  packed len (n * eb + i) (N + (nonce mod 2 ^ i) * 2 ^ (n * eb)) bits ->
  exists bits', pack_bit eb n nonce i bits = Ok bits' /\ packed len (n * eb + i + 1) (N + (nonce mod 2 ^ (i + 1)) * 2 ^ (n * eb)) bits'.
Proof.
  intros Hn Hi Hlen [Hb Hl Hv Hr]. unfold pack_bit. destruct (Z.geb_spec i 64); [lia|].
  assert (0 < 2 ^ i < 2 ^ 64) by (split; [apply Z.pow_pos_nonneg|apply Z.pow_lt_mono_r]; lia).
  assert (uint 64 (Z.shiftl 1 i) = Z.shiftl 1 i) as -> by (apply uint_small; unfold is_uint; rewrite Z.shiftl_1_l; lia).
  rewrite land_bit, negb_involutive by lia. rewrite mod_pow2_step by lia.
  assert (2 ^ (n * eb + i + 1) = 2 * 2 ^ (n * eb + i)) as Ep by (rewrite Z.pow_add_r by nia; ring).
  destruct (Z.testbit nonce i); cbn [Z.b2z].
  - assert (0 <= n * eb + i) as Hp by nia. destruct (div_mod_8 _ Hp) as (H8 & H8' & H8'').
    destruct (lookup_lt_is_Some_2 bits (Z.to_nat ((n * eb + i) / 8)) ltac:(lia)) as [b E]. rewrite E.
    destruct (set_bit_val bits (n * eb + i) b Hb Hp E) as (Ev & Eb & El).
    { rewrite Hv. by apply testbit_small. }
    eexists. split; [reflexivity|]. constructor; [done|by rewrite El| |].
    + rewrite Ev, Hv, (Z.pow_add_r 2 (n * eb)) by nia. ring.
    + rewrite Ep. rewrite (Z.pow_add_r 2 (n * eb)) in * by nia. lia.
  - exists bits. split; [done|]. constructor; [done|done|rewrite Hv; ring|lia].
Qed.

Lemma pack_nonce_ok (len : nat) n nonce N bits : 0 <= n -> n * eb + eb <= 8 * len -> is_uint eb nonce ->
  packed len (n * eb) N bits ->
  exists bits', pack_nonce eb (n, nonce) bits = Ok bits' /\ packed len (n * eb + eb) (N + nonce * 2 ^ (n * eb)) bits'.
Proof.
  intros Hn Hlen Hx Hp. unfold pack_nonce. cbn [fst snd].
  destruct (fold_result_inv (fun (i : nat) bits => packed len (n * eb + i) (N + (nonce mod 2 ^ i) * 2 ^ (n * eb)) bits)
    (pack_bit eb n nonce) (seqZ 0 eb) bits) as (bits' & E & H).
  - change (2 ^ 0%nat) with 1. rewrite Z.mod_1_r. replace (N + 0 * 2 ^ (n * eb)) with N by ring. by rewrite Z.add_0_r.
  - intros i a b Ha Hb. apply lookup_seqZ in Ha as [-> Hi]. rewrite Z.add_0_l.
    destruct (pack_bit_ok len n nonce i N b) as (b' & E & H); [done|lia|done|done|]. exists b'. split; [done|].
    by rewrite Nat2Z.inj_add, Z.add_assoc.
  - exists bits'. split; [done|]. rewrite length_seqZ, Z2Nat.id in H by lia. unfold is_uint in Hx. by rewrite Z.mod_small in H by lia.
Qed.

Lemma cycle_bytes_len_bound : 42 * eb <= 8 * Z.to_nat (cycle_bytes_len eb).
Proof.
  unfold cycle_bytes_len, PROOFSIZE. pose proof (Z.div_mod (eb * 42 + 7) 8). pose proof (Z.mod_pos_bound (eb * 42 + 7) 8).
  pose proof (Z.div_pos (eb * 42 + 7) 8). lia.
Qed.

Lemma repeat_0_packed (len : nat) : packed len 0 0 (repeat 0 len).
Proof.
  constructor; [induction len; constructor; done|by rewrite repeat_length| |done].
  induction len as [|len IH]; [done|]. cbn [repeat le_val]. lia.
Qed.

Lemma pack_cycle_ok nonces : Forall (fun x => is_uint eb x) nonces -> length nonces = 42%nat ->
  pack_cycle eb nonces = Ok (le_bytes (Z.to_nat (cycle_bytes_len eb)) (digits_val eb nonces)).
Proof.
  intros Hx Hl. pose proof cycle_bytes_len_bound as Hc. set (len := Z.to_nat (cycle_bytes_len eb)) in *. unfold pack_cycle. fold len.
  destruct (fold_result_inv (fun (i : nat) bits => packed len (i * eb) (digits_val eb (take i nonces)) bits)
    (pack_nonce eb) (zip (seqZ 0 (length nonces)) nonces) (repeat 0 len)) as (bits & E & [Hb Hlen Hv _]).
  - apply repeat_0_packed.
  - intros i [n x] bits Hi Hp. apply lookup_zip_with_Some in Hi as (n' & x' & [= -> ->] & Hn & Hx'). apply lookup_seqZ in Hn as [-> Hn].
    rewrite Z.add_0_l. pose proof (Forall_lookup_1 _ _ _ _ Hx Hx') as Hxu.
    destruct (pack_nonce_ok len i x' (digits_val eb (take i nonces)) bits) as (bits' & E & H); [lia|nia|done|done|].
    exists bits'. split; [done|]. replace ((i + 1)%nat * eb) with (i * eb + eb) by lia.
    rewrite Nat.add_1_r, (take_S_r _ _ x') by done. rewrite digits_val_app by lia. cbn [digits_val].
    rewrite length_take, Nat.min_l by lia. rewrite Z.mul_0_r, Z.add_0_r, (Z.mul_comm _ x'), (Z.mul_comm eb). done.
  - rewrite E. f_equal. rewrite <- (le_bytes_val bits) by done. rewrite Hlen, Hv.
    rewrite length_zip_with, length_seqZ, take_ge by lia. done.
Qed.

Lemma unpack_nonce_ok (len : nat) N bits n l : 0 <= n -> n * eb + eb <= 8 * len -> Forall is_byte bits -> length bits = len -> le_val bits = N ->
  unpack_nonce bits eb n l = Ok (l ++ [(N / 2 ^ (eb * n)) mod 2 ^ eb]).
Proof.
  intros Hn Hlen Hb Hl Hv. unfold unpack_nonce.
  destruct (fold_result_inv (fun (i : nat) acc => acc = (N / 2 ^ (eb * n)) mod 2 ^ i) (unpack_bit bits eb n) (seqZ 0 eb) 0)
    as (acc & -> & ->).
  - change (2 ^ 0%nat) with 1. by rewrite Z.mod_1_r.
  - intros i a acc Ha ->. apply lookup_seqZ in Ha as [-> Hi]. rewrite Z.add_0_l. unfold unpack_bit.
    assert (0 <= n * eb + i) as Hp by nia. destruct (div_mod_8 _ Hp) as (H8 & H8' & H8'').
    destruct (lookup_lt_is_Some_2 bits (Z.to_nat ((n * eb + i) / 8)) ltac:(lia)) as [b E]. rewrite E.
    assert (uint 8 (n * eb + i) mod 8 = (n * eb + i) mod 8) as ->.
    { unfold uint. change (2 ^ 8) with (8 * 32). rewrite Z.rem_mul_r by lia. rewrite (Z.mul_comm 8), Z.mod_add, Z.mod_mod by lia. done. }
    rewrite land_bit, negb_involutive by lia. rewrite <- (lookup_bit bits (n * eb + i) b) by done. rewrite Hv.
    assert (Z.testbit N (n * eb + i) = Z.testbit (N / 2 ^ (eb * n)) i) as -> by (rewrite Z.div_pow2_bits by nia; f_equal; lia).
    rewrite Nat2Z.inj_add, mod_pow2_step by lia. set (M := N / 2 ^ (eb * n)).
    assert (0 < 2 ^ i < 2 ^ 64) by (split; [apply Z.pow_pos_nonneg|apply Z.pow_lt_mono_r]; lia).
    destruct (Z.testbit M i); cbn [Z.b2z]; eexists; (split; [reflexivity|]); [|ring].
    rewrite Z.shiftl_1_l, uint_small by (unfold is_uint; lia). rewrite Z.mul_1_l.
    pose proof (Z.mod_pos_bound M (2 ^ i) ltac:(lia)). assert (Z.land (M mod 2 ^ i) (2 ^ i) = 0) as Hland.
    { pose proof (land_bit (M mod 2 ^ i) i ltac:(lia)) as H'. rewrite Z.shiftl_1_l, testbit_small in H' by lia. by apply Z.eqb_eq. }
    by rewrite <- Z.lxor_lor, <- Z.add_nocarry_lxor by done.
  - cbn [mbind result_bind mret result_ret]. rewrite length_seqZ, Z2Nat.id by lia. done.
Qed.

Lemma DeserializeProofNonces_ok bits : 0 < eb -> Forall is_byte bits -> length bits = Z.to_nat (cycle_bytes_len eb) ->
  DeserializeProofNonces bits eb = Ok (digits_of eb (le_val bits) 42).
Proof.
  intros Hpos Hb Hl. pose proof cycle_bytes_len_bound as Hc. unfold DeserializeProofNonces.
  destruct (Z.eqb_spec eb 0); [lia|]. destruct (Z.gtb_spec eb 63); [lia|]. cbn [orb].
  destruct (fold_result_inv (fun (i : nat) acc => acc = take i (digits_of eb (le_val bits) 42)) (unpack_nonce bits eb) (seqZ 0 PROOFSIZE) [])
    as (acc & -> & ->).
  - by rewrite take_0.
  - intros i m acc Hm ->. apply lookup_seqZ in Hm as [-> Hi]. change PROOFSIZE with 42 in Hi. rewrite Z.add_0_l.
    rewrite (unpack_nonce_ok (Z.to_nat (cycle_bytes_len eb)) (le_val bits)) by (done || nia). eexists. split; [reflexivity|].
    rewrite Nat.add_1_r. symmetry. apply take_S_r. unfold digits_of. rewrite list_lookup_fmap, lookup_seqZ_lt by lia.
    cbn [fmap option_fmap option_map]. by rewrite Z.add_0_l.
  - rewrite take_ge; [done|]. unfold digits_of. rewrite length_map, !length_seqZ. done.
Qed.

End packing.

Lemma digits_of_mod eb N (k : nat) : 0 <= eb -> digits_val eb (digits_of eb N k) = N mod 2 ^ (eb * k).
Proof.
  intros He. induction k as [|k IH].
  - rewrite Z.mul_0_r. change (2 ^ 0) with 1. by rewrite Z.mod_1_r.
  - unfold digits_of in *. rewrite seqZ_S, map_app. cbn [map]. rewrite Z.add_0_l.
    rewrite digits_val_app, IH, length_map, length_seqZ, Nat2Z.id by lia. cbn [digits_val]. rewrite Z.mul_0_r, Z.add_0_r.
    assert (0 < 2 ^ (eb * k)) by (apply Z.pow_pos_nonneg; nia). assert (0 < 2 ^ eb) by (apply Z.pow_pos_nonneg; lia).
    rewrite Nat2Z.inj_succ, Z.mul_succ_r, Z.pow_add_r by nia. by rewrite Z.rem_mul_r by lia.
Qed.

Lemma digits_of_range eb N (k : nat) : 0 <= eb -> Forall (fun x => is_uint eb x) (digits_of eb N k).
Proof. intros He. apply Forall_map, Forall_forall. intros n _. apply Z.mod_pos_bound, Z.pow_pos_nonneg; lia. Qed.

Lemma digits_of_length eb N (k : nat) : length (digits_of eb N k) = k.
Proof. unfold digits_of. rewrite length_map, length_seqZ. lia. Qed.

(** *** Headers *)

Lemma reads_Read64 v t : - 2 ^ 63 <= t < 2 ^ 63 -> reads v Read64 (be_bytes 8 (uint 64 t)) t.
Proof.
  intros Ht. assert (to_signed (8 * 8%nat) (uint 64 t) = t) as E.
  { unfold to_signed, uint. change (2 ^ (8 * 8%nat - 1)) with (2 ^ 63). change (2 ^ (8 * 8%nat)) with (2 ^ 64).
    destruct (Z.lt_ge_cases t 0).
    - assert (t mod 2 ^ 64 = t + 2 ^ 64) as -> by (symmetry; apply Z.mod_unique_pos with (-1); lia).
      destruct (Z.ltb_spec (t + 2 ^ 64) (2 ^ 63)); lia.
    - rewrite Z.mod_small by lia. destruct (Z.ltb_spec t (2 ^ 63)); lia. }
  rewrite <- E at 2. apply (reads_map _ (ReadBigEndian_on false 8) _ (uint 64 t) (to_signed (8 * 8%nat))).
  apply reads_be. apply (uint_pow256 8). apply uint_range. lia.
Qed.

Definition pre_pow_bytes (h : BlockHeader) : bytes :=
  be_bytes 2 (bh_version h) ++ be_bytes 8 (bh_height h) ++ be_bytes 8 (uint 64 (bh_timestamp h)) ++ bh_previousBlockHash h ++
  bh_previousRoot h ++ bh_outputRoot h ++ bh_rangeProofRoot h ++ bh_kernelRoot h ++ bh_totalKernelOffset h ++
  be_bytes 8 (bh_outputMMRSize h) ++ be_bytes 8 (bh_kernelMMRSize h) ++ be_bytes 8 (bh_totalDifficulty h) ++
  be_bytes 4 (bh_scalingDifficulty h) ++ be_bytes 8 (bh_nonce h).

Lemma append_pre_pow_bytes h s : append_pre_pow h s = mkSerializer (s_version s) (s_bytes s ++ pre_pow_bytes h).
Proof. unfold append_pre_pow. serialize_bytes. done. Qed.

Section header_laws.
Context (Blake2b : bytes -> Hash).

(** A proof of 42 nonces of the width of an edge, with the hash of its bytes. *)
Record ProofOfWork_wf (p : ProofOfWork) : Prop := {
  pww_edgeBits : 1 <= pow_edgeBits p <= 63;
  pww_length : length (pow_proofNonces p) = 42%nat;
  pww_nonces : Forall (fun x => is_uint (pow_edgeBits p) x) (pow_proofNonces p);
  pww_hash : ProofOfWork_new Blake2b (pow_edgeBits p) (pow_proofNonces p) = Ok p;
}.

Record BlockHeader_wf (h : BlockHeader) : Prop := {
  bhw_version : is_uint 16 (bh_version h);
  bhw_u64 : Forall (is_uint 64) [bh_height h; bh_outputMMRSize h; bh_kernelMMRSize h; bh_totalDifficulty h; bh_nonce h];
  bhw_timestamp : - 2 ^ 63 <= bh_timestamp h < 2 ^ 63;
  bhw_hashes : Forall (fun x => length x = 32%nat)
    [bh_previousBlockHash h; bh_previousRoot h; bh_outputRoot h; bh_rangeProofRoot h; bh_kernelRoot h; bh_totalKernelOffset h];
  bhw_scaling : is_uint 32 (bh_scalingDifficulty h);
  bhw_pow : ProofOfWork_wf (bh_proofOfWork h);
}.

Definition cycle_bytes (p : ProofOfWork) : bytes :=
  le_bytes (Z.to_nat (cycle_bytes_len (pow_edgeBits p))) (digits_val (pow_edgeBits p) (pow_proofNonces p)).

Lemma SerializeCycle_bytes p s : ProofOfWork_wf p ->
  SerializeCycle p s = Ok (mkSerializer (s_version s) (s_bytes s ++ cycle_bytes p)).
Proof.
  intros [He Hl Hn _]. unfold SerializeCycle. rewrite pack_cycle_ok by (done || lia). reflexivity.
Qed.

Lemma ProofOfWork_wf_hash p : ProofOfWork_wf p -> pow_hash p = Blake2b (cycle_bytes p).
Proof.
  intros Hp. pose proof Hp as [He Hl Hn Hh]. unfold ProofOfWork_new in Hh.
  unfold SerializeCycle in Hh. cbn [pow_edgeBits pow_proofNonces] in Hh. rewrite pack_cycle_ok in Hh by (done || lia).
  cbn in Hh. injection Hh as <-. done.
Qed.

(** The bits below the top of the last digit survive the length of the vector. *)
Lemma cycle_bytes_val p : ProofOfWork_wf p -> le_val (cycle_bytes p) = digits_val (pow_edgeBits p) (pow_proofNonces p).
Proof.
  intros [He Hl Hn _]. apply le_val_bytes. pose proof (digits_val_range (pow_edgeBits p) (pow_proofNonces p) ltac:(lia) Hn) as Hr.
  rewrite Hl in Hr. change (Z.of_nat 42) with 42 in Hr. split; [lia|]. eapply Z.lt_le_trans; [apply Hr|]. change 256 with (2 ^ 8). rewrite <- Z.pow_mul_r by lia.
  apply Z.pow_le_mono_r; [lia|]. pose proof (cycle_bytes_len_bound (pow_edgeBits p)). lia.
Qed.

Lemma cycle_bytes_length p : ProofOfWork_wf p -> length (cycle_bytes p) = Z.to_nat (cycle_bytes_len (pow_edgeBits p)) /\
  length (cycle_bytes p) = cycle_bytes_len (pow_edgeBits p) :> Z /\ length (cycle_bytes p) <= 332.
Proof.
  intros [He _ _ _]. unfold cycle_bytes. rewrite length_le_bytes. unfold cycle_bytes_len, PROOFSIZE.
  assert (0 <= (pow_edgeBits p * 42 + 7) / 8 <= 332) by (split; [apply Z.div_pos|apply Z.div_le_upper_bound]; lia). lia.
Qed.

Lemma reads_ProofOfWork v p : ProofOfWork_wf p ->
  reads v (ProofOfWork_Deserialize Blake2b) (be_bytes 1 (pow_edgeBits p) ++ cycle_bytes p) p.
Proof.
  intros Hp. pose proof Hp as [He Hl Hn _]. destruct (cycle_bytes_length p Hp) as (Hc1 & Hc2 & _).
  unfold ProofOfWork_Deserialize. read_be 1%nat. rewrite <- (app_nil_r (cycle_bytes p)).
  eapply reads_bind; [apply reads_bytes; by rewrite Hc2|cbv beta zeta].
  intros pre post Hlen. unfold mbind at 1, reader_bind at 1, reader_lift.
  rewrite DeserializeProofNonces_ok; [|lia|lia|apply le_bytes_byte|done].
  rewrite cycle_bytes_val by done. rewrite <- Hl, digits_of_val by (done || lia). rewrite <- ProofOfWork_wf_hash by done.
  destruct p. by apply (reads_ret v).
Qed.

Lemma reads_BlockHeader v h : BlockHeader_wf h ->
  reads v (BlockHeader_Deserialize Blake2b) (pre_pow_bytes h ++ be_bytes 1 (pow_edgeBits (bh_proofOfWork h)) ++ cycle_bytes (bh_proofOfWork h)) h.
Proof.
  intros [Hv H64 Ht Hh Hs Hp]. destruct h as [version height timestamp h1 h2 h3 h4 h5 h6 o k td sd nonce p].
  cbn [bh_version bh_height bh_timestamp bh_previousBlockHash bh_previousRoot bh_outputRoot bh_rangeProofRoot bh_kernelRoot
    bh_totalKernelOffset bh_outputMMRSize bh_kernelMMRSize bh_totalDifficulty bh_scalingDifficulty bh_nonce bh_proofOfWork] in *.
  apply Forall_cons in H64 as [Hheight H64]. do 4 (apply Forall_cons in H64 as [? H64]).
  do 6 (apply Forall_cons in Hh as [? Hh]). unfold pre_pow_bytes, BlockHeader_Deserialize. rewrite <- !app_assoc.
  cbn [bh_version bh_height bh_timestamp bh_previousBlockHash bh_previousRoot bh_outputRoot bh_rangeProofRoot bh_kernelRoot
    bh_totalKernelOffset bh_outputMMRSize bh_kernelMMRSize bh_totalDifficulty bh_scalingDifficulty bh_nonce bh_proofOfWork].
  read_be 2%nat. read_be 8%nat. eapply reads_bind; [by apply reads_Read64|cbv beta].
  do 6 read_raw. do 3 read_be 8%nat. read_be 4%nat. read_be 8%nat.
  apply (reads_map _ (ProofOfWork_Deserialize Blake2b) _ _
    (mkBlockHeader version height timestamp h1 h2 h3 h4 h5 h6 o k td sd nonce)). by apply reads_ProofOfWork.
Qed.

End header_laws.

(** ** Properties *)

Section properties.
Context (Blake2b : bytes -> Hash).

(** C32: a header is written as its part before the proof of work, the edge bits
    and the packed nonces, and is read back from these bytes. *)
Theorem BlockHeader_roundtrip v (h : BlockHeader) :
  BlockHeader_wf Blake2b h ->
  exists s, BlockHeader_Serialize h (Serializer_new v) = Ok s /\
    s_bytes s = GetPreProofOfWork h ++ [pow_edgeBits (bh_proofOfWork h)] ++ cycle_bytes (bh_proofOfWork h) /\
    BlockHeader_Deserialize Blake2b (ByteBuffer_new (s_bytes s) v) = Ok (h, mkByteBuffer (length (s_bytes s)) (s_bytes s) v).
Proof.
  intros Hwf. pose proof Hwf as [_ _ _ Hh _ Hp]. unfold BlockHeader_Serialize, ProofOfWork_Serialize.
  rewrite (SerializeCycle_bytes Blake2b) by done. eexists. split; [reflexivity|]. rewrite append_pre_pow_bytes.
  unfold AppendU8. rewrite Append_be. cbn [s_version s_bytes Serializer_new app]. rewrite <- app_assoc.
  split.
  - unfold GetPreProofOfWork. rewrite append_pre_pow_bytes. cbn [s_bytes Serializer_new app]. f_equal.
    assert (be_bytes 1 (pow_edgeBits (bh_proofOfWork h)) = [pow_edgeBits (bh_proofOfWork h)]) as ->; [|done].
    destruct Hp as [He _ _ _]. unfold be_bytes. cbn [le_bytes rev app]. by rewrite Z.mod_small by lia.
  - apply reads_whole; [by apply reads_BlockHeader|].
    destruct (cycle_bytes_length Blake2b _ Hp) as (_ & _ & Hc). do 6 (apply Forall_cons in Hh as [? Hh]).
    unfold pre_pow_bytes. rewrite !length_app, !length_be_bytes. lia.
Qed.

(** reading a proof of work takes the hash of the bytes as they are, while
    writing it clears the bits above the last nonce: the hash is that of what
    is written exactly when these bits were clear. *)
Theorem ProofOfWork_padding v eb bits :
  1 <= eb <= 63 -> Forall is_byte bits -> length bits = Z.to_nat (cycle_bytes_len eb) ->
  exists p bits', ProofOfWork_Deserialize Blake2b (ByteBuffer_new (eb :: bits) v) = Ok (p, mkByteBuffer (length (eb :: bits)) (eb :: bits) v) /\
    pow_hash p = Blake2b bits /\
    SerializeCycle p (Serializer_new v) = Ok (mkSerializer v bits') /\
    (bits' = bits <-> le_val bits < 2 ^ (eb * 42)).
Proof.
  intros He Hb Hl. set (nonces := digits_of eb (le_val bits) 42).
  exists (mkProofOfWork eb nonces (Blake2b bits)), (le_bytes (length bits) (le_val bits mod 2 ^ (eb * 42))).
  assert (0 <= cycle_bytes_len eb <= 332) as Hc.
  { unfold cycle_bytes_len, PROOFSIZE. split; [apply Z.div_pos|apply Z.div_le_upper_bound]; lia. }
  split; [|split; [done|split]].
  - change (eb :: bits) with ([eb] ++ bits). apply reads_whole; [|rewrite length_app; simpl; lia].
    unfold ProofOfWork_Deserialize. assert ([eb] = be_bytes 1 eb) as -> by (unfold be_bytes; cbn [le_bytes rev app]; by rewrite Z.mod_small by lia).
    read_be 1%nat. rewrite <- (app_nil_r bits) at 1. eapply reads_bind; [apply reads_bytes; lia|cbv beta zeta].
    intros pre post Hlen. unfold mbind at 1, reader_bind at 1, reader_lift.
    rewrite DeserializeProofNonces_ok by (done || lia). by apply (reads_ret v).
  - unfold SerializeCycle. cbn [pow_edgeBits pow_proofNonces]. rewrite pack_cycle_ok; [|lia|apply digits_of_range; lia|apply digits_of_length].
    unfold nonces. rewrite digits_of_mod by lia. rewrite <- Hl. reflexivity.
  - pose proof (le_val_range bits Hb) as Hr. pose proof (Z.pow_pos_nonneg 2 (eb * 42) ltac:(lia) ltac:(lia)).
    pose proof (Z.mod_pos_bound (le_val bits) (2 ^ (eb * 42)) ltac:(lia)) as Hm. split.
    + intros E. apply (f_equal le_val) in E. rewrite le_val_bytes in E; [lia|].
      pose proof (Z.mod_le (le_val bits) (2 ^ (eb * 42)) ltac:(lia) ltac:(lia)). lia.
    + intros Hlt. rewrite Z.mod_small by lia. by apply le_bytes_val.
Qed.

End properties.

(** ** Evaluation *)

Definition example_nonces : list Z := map (fun i => 7 * i + 3) (seqZ 0 42).
Definition example_pow : ProofOfWork :=
  match ProofOfWork_new byte_hash 29 example_nonces with Ok p => p | Throw _ => mkProofOfWork 0 [] [] end.
Definition example_header : BlockHeader :=
  mkBlockHeader 5 1000 (-3) (repeat 1 32) (repeat 2 32) (repeat 3 32) (repeat 4 32) (repeat 5 32) (repeat 6 32) 7 8 1000 13 9 example_pow.

Lemma example_pow_fields : pow_edgeBits example_pow = 29 /\ pow_proofNonces example_pow = example_nonces.
Proof. split; vm_compute; reflexivity. Qed.

Lemma example_pow_wf : ProofOfWork_wf byte_hash example_pow.
Proof.
  destruct example_pow_fields as [Ee En]. constructor; rewrite ?Ee, ?En; [lia|reflexivity| |vm_compute; reflexivity].
  apply Forall_map, Forall_forall. intros i Hi%elem_of_seqZ. unfold is_uint. lia.
Qed.

Lemma example_header_wf : BlockHeader_wf byte_hash example_header.
Proof.
  constructor; unfold example_header; cbn [bh_version bh_height bh_timestamp bh_previousBlockHash bh_previousRoot bh_outputRoot bh_rangeProofRoot
    bh_kernelRoot bh_totalKernelOffset bh_outputMMRSize bh_kernelMMRSize bh_totalDifficulty bh_scalingDifficulty bh_nonce bh_proofOfWork].
  - unfold is_uint. lia.
  - repeat constructor; lia.
  - lia.
  - repeat (constructor; [reflexivity|]). constructor.
  - unfold is_uint. lia.
  - apply example_pow_wf.
Qed.

Lemma BlockHeader_roundtrip_witness :
  exists s, BlockHeader_Serialize example_header (Serializer_new V2) = Ok s /\
    BlockHeader_Deserialize byte_hash (ByteBuffer_new (s_bytes s) V2) = Ok (example_header, mkByteBuffer (length (s_bytes s)) (s_bytes s) V2).
Proof.
  destruct (BlockHeader_roundtrip byte_hash V2 example_header example_header_wf) as (s & E & _ & Ed). exists s. split; [exact E|exact Ed].
Defined.

(** 42 nonces of 29 bits leave 6 bits of the last byte. *)
Lemma ProofOfWork_padding_witness :
  exists p bits', ProofOfWork_Deserialize byte_hash (ByteBuffer_new (29 :: repeat 0 152 ++ [128]) V1) =
      Ok (p, mkByteBuffer 154 (29 :: repeat 0 152 ++ [128]) V1) /\
    SerializeCycle p (Serializer_new V1) = Ok (mkSerializer V1 bits') /\ bits' <> repeat 0 152 ++ [128].
Proof.
  destruct (ProofOfWork_padding byte_hash V1 29 (repeat 0 152 ++ [128])) as (p & bits' & E & _ & Es & Hb).
  - lia.
  - apply Forall_app. split; [|repeat constructor; vm_compute; congruence]. apply Forall_forall. intros x Hx%list_elem_of_In%repeat_spec.
    subst x. by vm_compute.
  - reflexivity.
  - exists p, bits'. split; [exact E|]. split; [exact Es|]. intros Hn. apply Hb in Hn. vm_compute in Hn. discriminate.
Defined.
