(* ===== verification/Block.v ===== *)
(** * Blocks and what is stored about them ([include/Core/Models], [src/BlockChain])

    Full and compact blocks, the location of an output, the outputs a block
    spends, the sums of a block; building a compact block and hydrating one.
    The laws at the end say that what is written can be read back. *)
From S2P Require Import Prelude BitUtil MMRIndex Serial BigInteger MMRHash Consensus Transaction Header.

(** ** [OutputLocation] *)
Record OutputLocation := mkOutputLocation { ol_leafIndex : LeafIndex; ol_blockHeight : Z }.

Definition OutputLocation_GetPosition (l : OutputLocation) : Z := LeafIndex_GetPosition (ol_leafIndex l).

#[export] Instance OutputLocation_Serializable : Serializable OutputLocation := {
  Serialize l s := AppendU64 (ol_blockHeight l) (AppendU64 (LeafIndex_GetPosition (ol_leafIndex l)) s);
  Deserialize :=
    mmr_idx ← ReadU64;
    blockHeight ← ReadU64;
    mret (mkOutputLocation (LeafIndex_From (Index_At mmr_idx)) blockHeight);
}.

(** ** [SpentOutput], [SpentOutputs] *)
Record SpentOutput := mkSpentOutput { so_commitment : Commitment; so_location : OutputLocation }.

#[export] Instance SpentOutput_Serializable : Serializable SpentOutput := {
  Serialize o s := Serialize (so_location o) (Commitment_Serialize (so_commitment o) s);
  Deserialize :=
    commitment ← Commitment_Deserialize;
    outputLocation ← Deserialize;
    mret (mkSpentOutput commitment outputLocation);
}.

(** [insert] keeps the first location of a commitment. *)
Definition SpentOutputs_BuildMap (spentOutputs : list SpentOutput) : gmap (list Z) OutputLocation :=
  foldl (fun m o => match m !! so_commitment o with Some _ => m | None => <[so_commitment o := so_location o]> m end)
    ∅ spentOutputs.

Record SpentOutputs := mkSpentOutputs { m_spentOutputs : list SpentOutput }.

(** The count is written in 16 bits; that the version is 0 is asserted. *)
#[export] Instance SpentOutputs_Serializable : Serializable SpentOutputs := {
  Serialize o s :=
    append_all Serialize (m_spentOutputs o) (AppendU16 (uint 16 (length (m_spentOutputs o))) (AppendU8 0 s));
  Deserialize :=
    version ← ReadU8;
    if negb (version =? 0) then reader_throw UB
    else
      numOutputs ← ReadU16;
      spentOutputs ← read_list (Z.to_nat numOutputs) Deserialize;
      mret (mkSpentOutputs spentOutputs);
}.

(** ** [BlockSums] *)
Record BlockSums := mkBlockSums { bs_outputSum : Commitment; bs_kernelSum : Commitment }.

#[export] Instance BlockSums_Serializable : Serializable BlockSums := {
  Serialize b s := Commitment_Serialize (bs_kernelSum b) (Commitment_Serialize (bs_outputSum b) s);
  Deserialize :=
    outputSum ← Commitment_Deserialize;
    kernelSum ← Commitment_Deserialize;
    mret (mkBlockSums outputSum kernelSum);
}.

(** ** [FullBlock] *)
Record FullBlock := mkFullBlock { fb_header : BlockHeader; fb_body : TransactionBody }.

Definition FullBlock_GetInputCommitments (b : FullBlock) : list Commitment := map ti_commitment (tb_inputs (fb_body b)).
Definition FullBlock_GetOutputCommitments (b : FullBlock) : list Commitment := map to_commitment (tb_outputs (fb_body b)).
Definition FullBlock_GetTotalFees (b : FullBlock) : Z := CalcFee (fb_body b).
Definition FullBlock_GetHash (b : FullBlock) : Hash := BlockHeader_GetHash (fb_header b).
Definition FullBlock_GetHeight (b : FullBlock) : Z := bh_height (fb_header b).
Definition FullBlock_GetPreviousHash (b : FullBlock) : Hash := bh_previousBlockHash (fb_header b).

Definition FullBlock_Serialize (b : FullBlock) (s : Serializer) : result Serializer :=
  s ← BlockHeader_Serialize (fb_header b) s;
  mret (TransactionBody_Serialize (fb_body b) s).

(** ** [ShortId] *)
Record ShortId := mkShortId { m_id : bytes }.
#[export] Instance ShortId_eq_dec : EqDecision ShortId.
Proof. solve_decision. Defined.

#[export] Instance ShortId_Serializable : Serializable ShortId := {
  Serialize i s := AppendBigInteger (m_id i) s;
  Deserialize := id ← ReadVector 6; mret (mkShortId id);
}.

(** ** [CompactBlock] *)
Record CompactBlock := mkCompactBlock {
  cb_header : BlockHeader;
  cb_nonce : Z;
  cb_outputs : list TransactionOutput;
  cb_kernels : list TransactionKernel;
  cb_shortIds : list ShortId;
}.

Definition CompactBlock_GetHash (b : CompactBlock) : Hash := BlockHeader_GetHash (cb_header b).

Definition CompactBlock_Serialize (b : CompactBlock) (s : Serializer) : result Serializer :=
  s ← BlockHeader_Serialize (cb_header b) s;
  let s := AppendU64 (cb_nonce b) s in
  let s := AppendU64 (length (cb_shortIds b)) (AppendU64 (length (cb_kernels b)) (AppendU64 (length (cb_outputs b)) s)) in
  mret (append_all Serialize (cb_shortIds b) (append_all Serialize (cb_kernels b) (append_all Serialize (cb_outputs b) s))).

(** ** [CalcWeight] *)
Definition CalcWeight (env : Environment) (block_height : Z) (body : TransactionBody) : Z :=
  let num_inputs := length (tb_inputs body) in
  let num_outputs := length (tb_outputs body) in
  let num_kernels := length (tb_kernels body) in
  if GetHeaderVersion env block_height <? 5 then CalculateWeightV4 num_inputs num_outputs num_kernels
  else CalculateWeightV5 num_inputs num_outputs num_kernels.

Section blocks.
(** [SipHash24] is the library's; [GetOutputType] that of the coin view. *)
Context (Blake2b : bytes -> Hash) (SipHash24 : Z -> Z -> bytes -> Z) (GetOutputType : Commitment -> Z).

Definition FullBlock_Deserialize : reader FullBlock :=
  header ← BlockHeader_Deserialize Blake2b;
  body ← TransactionBody_Deserialize Blake2b GetOutputType;
  mret (mkFullBlock header body).

Definition CompactBlock_Deserialize : reader CompactBlock :=
  header ← BlockHeader_Deserialize Blake2b;
  nonce ← ReadU64;
  numOutputs ← ReadU64;
  numKernels ← ReadU64;
  numShortIds ← ReadU64;
  outputs ← read_list (Z.to_nat numOutputs) Deserialize;
  kernels ← read_list (Z.to_nat numKernels) Deserialize;
  shortIds ← read_list (Z.to_nat numShortIds) Deserialize;
  mret (mkCompactBlock header nonce outputs kernels shortIds).

(** [ShortId::Create]: the first six bytes of the little-endian siphash. *)
Definition ShortId_Create (hash blockHash : Hash) (nonce : Z) : result ShortId :=
  let hashWithNonce := Blake2b (s_bytes (AppendU64 nonce (AppendBigInteger blockHash (Serializer_new V1)))) in
  '(k0, byteBuffer) ← ReadU64_LE (ByteBuffer_new hashWithNonce V1);
  '(k1, _) ← ReadU64_LE byteBuffer;
  let sipHash := SipHash24 k0 k1 hash in
  mret (mkShortId (take 6 (s_bytes (AppendLittleEndian_on false 8 sipHash (Serializer_new V1))))).

Definition ShortId_GetHash (i : ShortId) : Hash := Blake2b (m_id i).

(** ** [CompactBlockFactory::CreateCompactBlock], with the random nonce *)
Fixpoint map_result {A B} (f : A -> result B) (l : list A) : result (list B) :=
  match l with
  | [] => mret []
  | a :: l => b ← f a; l ← map_result f l; mret (b :: l)
  end.

Definition CreateCompactBlock (nonce : Z) (block : FullBlock) : result CompactBlock :=
  let coinbaseOutputs := filter (fun o => TransactionOutput_IsCoinbase o = true) (tb_outputs (fb_body block)) in
  let coinbaseKernels := filter (fun k => TransactionKernel_IsCoinbase k = true) (tb_kernels (fb_body block)) in
  kernelIds ← map_result (fun k => ShortId_Create (TransactionKernel_GetHash Blake2b k) (FullBlock_GetHash block) nonce)
    (filter (fun k => TransactionKernel_IsCoinbase k = false) (tb_kernels (fb_body block)));
  mret (mkCompactBlock (fb_header block) nonce
    (sort_by_hash (TransactionOutput_GetHash Blake2b) coinbaseOutputs)
    (sort_by_hash (TransactionKernel_GetHash Blake2b) coinbaseKernels)
    (sort_by_hash ShortId_GetHash kernelIds)).

(** ** [BlockHydrator] *)

(** [if (set.count(x.GetHash()) == 0) { set.insert; all.push_back(x); }] *)
Definition push_new {A} (GetHash : A -> Hash) (acc : list Hash * list A) (x : A) : list Hash * list A :=
  if bool_decide (GetHash x ∈ acc.1) then acc else (acc.1 ++ [GetHash x], acc.2 ++ [x]).

(** The sets of hashes and the elements collected from the transactions and the
    compact block. *)
Definition hydrate_inputs (transactions : list Transaction) : list TransactionInput :=
  (foldl (fun acc tx => foldl (push_new (TransactionInput_GetHash Blake2b)) acc (tb_inputs (tx_body tx))) ([], []) transactions).2.
Definition hydrate_outputs (transactions : list Transaction) (outputs : list TransactionOutput) : list TransactionOutput :=
  (foldl (push_new (TransactionOutput_GetHash Blake2b))
    (foldl (fun acc tx => foldl (push_new (TransactionOutput_GetHash Blake2b)) acc (tb_outputs (tx_body tx))) ([], []) transactions)
    outputs).2.
Definition hydrate_kernels (transactions : list Transaction) (kernels : list TransactionKernel) : list TransactionKernel :=
  (foldl (push_new (TransactionKernel_GetHash Blake2b))
    (foldl (fun acc tx => foldl (push_new (TransactionKernel_GetHash Blake2b)) acc (tb_kernels (tx_body tx))) ([], []) transactions)
    kernels).2.

Definition Hydrate_with (compactBlock : CompactBlock) (transactions : list Transaction) : FullBlock :=
  let allInputs := hydrate_inputs transactions in
  let allOutputs := hydrate_outputs transactions (cb_outputs compactBlock) in
  let allKernels := hydrate_kernels transactions (cb_kernels compactBlock) in
  let '(allInputs, allOutputs) := PerformCutThrough allInputs allOutputs in
  mkFullBlock (cb_header compactBlock)
    (TransactionBody_new Blake2b
      (sort_by_hash (TransactionInput_GetHash Blake2b) allInputs)
      (sort_by_hash (TransactionOutput_GetHash Blake2b) allOutputs)
      (sort_by_hash (TransactionKernel_GetHash Blake2b) allKernels)).

(** [GetTransactionsByShortId] of the pool: the set of short ids is passed as a
    list without repetitions. *)
Definition Hydrate (GetTransactionsByShortId : Hash -> Z -> list ShortId -> result (list Transaction)) (compactBlock : CompactBlock)
    : result (option FullBlock) :=
  match cb_shortIds compactBlock with
  | [] => mret (Some (Hydrate_with compactBlock []))
  | shortIds =>
      transactions ← GetTransactionsByShortId (CompactBlock_GetHash compactBlock) (cb_nonce compactBlock) (remove_dups shortIds);
      mret (if (length transactions =? length shortIds)%nat then Some (Hydrate_with compactBlock transactions) else None)
  end.

End blocks.
