(* ===== verification/BlockSpec.v ===== *)
(** * What is written of blocks can be read back; hydrating compact blocks *)
From S2P Require Import Prelude BitUtil MMRIndex MMRUtil Serial BigInteger File Roaring PruneList MMRHash SegmentId SegmentProof Consensus Transaction Header Block.

(** ** Laws of the serializers *)
Definition OutputLocation_wf (_ : EProtocolVersion) (l : OutputLocation) : Prop :=
  exists j, 0 <= j < 2 ^ 60 /\ ol_leafIndex l = LeafIndex_At j /\ is_uint 64 (ol_blockHeight l).

Lemma LeafIndex_At_wf j : 0 <= j < 2 ^ 60 ->
  is_uint 64 (LeafIndex_GetPosition (LeafIndex_At j)) /\
  LeafIndex_From (Index_At (LeafIndex_GetPosition (LeafIndex_At j))) = LeafIndex_At j.
Proof.
  intros Hj. pose proof (mmr_size_bound j ltac:(lia)). assert (pos_ok (mmr_size j)) as Hp by (unfold pos_ok; lia).
  pose proof (LeafIndex_AtPos_leaf j ltac:(lia) Hp) as E. rewrite LeafIndex_At_pos in * by (done || lia).
  unfold LeafIndex_GetPosition. cbn [m_nodeIndex m_position]. split; [uint_solve|exact E].
Qed.

#[export] Instance OutputLocation_laws : SerializableLaws OutputLocation OutputLocation_wf.
Proof.
  constructor.
  - intros l s. unfold Serialized. cbn [Serialize OutputLocation_Serializable]. serialize_bytes. done.
  - intros v [l h] (j & Hj & E & Hh). cbn [ol_leafIndex ol_blockHeight] in *. subst l.
    unfold Serialized. cbn [Serialize Deserialize OutputLocation_Serializable ol_leafIndex ol_blockHeight]. serialize_bytes.
    destruct (LeafIndex_At_wf j Hj) as [Hr E]. rewrite <- E at 2. set (pos := LeafIndex_GetPosition _) in *.
    rewrite <- (app_nil_r (be_bytes 8 h)). read_be 8%nat. read_be 8%nat. apply reads_ret.
Qed.

Definition SpentOutput_wf (v : EProtocolVersion) (o : SpentOutput) : Prop :=
  length (so_commitment o) = 33%nat /\ OutputLocation_wf v (so_location o).

#[export] Instance SpentOutput_laws : SerializableLaws SpentOutput SpentOutput_wf.
Proof.
  constructor.
  - intros o s. unfold Serialized. cbn [Serialize SpentOutput_Serializable]. rewrite !(serialize_appends (A := OutputLocation)).
    unfold Commitment_Serialize. cbn. by rewrite app_assoc.
  - intros v [c l] [Hc Hl]. cbn [so_commitment so_location] in *. unfold Serialized.
    cbn [Serialize Deserialize SpentOutput_Serializable so_commitment so_location]. rewrite serialize_appends.
    unfold Commitment_Serialize, AppendBigInteger. cbn [Serializer_put s_bytes s_version Serializer_new app].
    eapply reads_bind; [apply reads_bytes; by rewrite Hc|cbv beta].
    apply (reads_map _ (Deserialize : reader OutputLocation) _ _ (mkSpentOutput c)). by apply deserialize_reads.
Qed.

Definition SpentOutputs_wf (v : EProtocolVersion) (o : SpentOutputs) : Prop :=
  Forall (SpentOutput_wf v) (m_spentOutputs o) /\ length (m_spentOutputs o) < 2 ^ 16.

#[export] Instance SpentOutputs_laws : SerializableLaws SpentOutputs SpentOutputs_wf.
Proof.
  assert (forall (o : SpentOutputs) s, Serialize o s = mkSerializer (s_version s) (s_bytes s ++ be_bytes 1 0 ++
    be_bytes 2 (uint 16 (length (m_spentOutputs o))) ++ concat (map (Serialized (s_version s)) (m_spentOutputs o)))) as Hb.
  { intros o s. cbn [Serialize SpentOutputs_Serializable].
    rewrite (append_all_version (@Serialize SpentOutput _) Serialized) by (intros; apply serialize_appends).
    unfold AppendU16, AppendU8. rewrite !Append_be. cbn [s_version s_bytes]. by rewrite <- !app_assoc. }
  constructor.
  - intros o s. unfold Serialized at 1. by rewrite !Hb.
  - intros v [l] [Hl Hn]. unfold Serialized. rewrite Hb. cbn [s_bytes s_version Serializer_new app m_spentOutputs] in *.
    rewrite uint_small by uint_solve. cbn [Deserialize SpentOutputs_Serializable].
    read_be 1%nat. cbn [Z.eqb negb]. read_be 2%nat. rewrite Nat2Z.id.
    apply (reads_map _ (read_list (length l) Deserialize) _ _ mkSpentOutputs). apply reads_list.
    eapply Forall_impl; [exact Hl|]. intros. by apply deserialize_reads.
Qed.

Definition BlockSums_wf (_ : EProtocolVersion) (b : BlockSums) : Prop :=
  length (bs_outputSum b) = 33%nat /\ length (bs_kernelSum b) = 33%nat.

#[export] Instance BlockSums_laws : SerializableLaws BlockSums BlockSums_wf.
Proof.
  constructor.
  - intros b s. unfold Serialized. cbn. by rewrite app_assoc.
  - intros v [a b] [Ha Hb]. cbn [bs_outputSum bs_kernelSum] in *. unfold Serialized.
    cbn [Serialize Deserialize BlockSums_Serializable bs_outputSum bs_kernelSum].
    unfold Commitment_Serialize, AppendBigInteger. cbn [Serializer_put s_bytes s_version Serializer_new app].
    eapply reads_bind; [apply reads_bytes; by rewrite Ha|cbv beta].
    apply (reads_map _ Commitment_Deserialize _ _ (mkBlockSums a)). apply reads_bytes. by rewrite Hb.
Qed.

Definition ShortId_wf (_ : EProtocolVersion) (i : ShortId) : Prop := length (m_id i) = 6%nat.

#[export] Instance ShortId_laws : SerializableLaws ShortId ShortId_wf.
Proof.
  constructor.
  - intros i s. unfold Serialized. by cbn.
  - intros v [i] Hi. unfold ShortId_wf in Hi. cbn [m_id] in Hi. unfold Serialized.
    cbn [Serialize Deserialize ShortId_Serializable m_id]. unfold AppendBigInteger. cbn [Serializer_put s_bytes s_version Serializer_new app].
    apply (reads_map _ (ReadVector 6) _ _ mkShortId). apply reads_bytes. by rewrite Hi.
Qed.

Section wire.
Context (Blake2b : bytes -> Hash) (GetOutputType : Commitment -> Z).
Hypothesis Blake2b_length : forall x, length (Blake2b x) = 32%nat.
Hypothesis Blake2b_byte : forall x, Forall is_byte (Blake2b x).

Definition header_bytes (h : BlockHeader) : bytes :=
  pre_pow_bytes h ++ be_bytes 1 (pow_edgeBits (bh_proofOfWork h)) ++ cycle_bytes (bh_proofOfWork h).

Lemma BlockHeader_Serialize_bytes h s :
  BlockHeader_wf Blake2b h -> BlockHeader_Serialize h s = Ok (mkSerializer (s_version s) (s_bytes s ++ header_bytes h)).
Proof.
  intros [_ _ _ _ _ Hp]. unfold BlockHeader_Serialize, ProofOfWork_Serialize. rewrite (SerializeCycle_bytes Blake2b) by done.
  rewrite append_pre_pow_bytes. unfold AppendU8. rewrite Append_be. cbn [s_version s_bytes]. unfold header_bytes. by rewrite <- !app_assoc.
Qed.

Definition FullBlock_wf (v : EProtocolVersion) (b : FullBlock) : Prop :=
  BlockHeader_wf Blake2b (fb_header b) /\ TransactionBody_wf Blake2b GetOutputType v (fb_body b).

Lemma reads_FullBlock v b : FullBlock_wf v b ->
  exists enc, FullBlock_Serialize b (Serializer_new v) = Ok (mkSerializer v enc) /\
    reads v (FullBlock_Deserialize Blake2b GetOutputType) enc b.
Proof.
  intros [Hh Hb]. unfold FullBlock_Serialize. rewrite BlockHeader_Serialize_bytes by done.
  cbn [mbind result_bind mret result_ret]. rewrite TransactionBody_Serialize_bytes. cbn [s_version s_bytes Serializer_new app].
  eexists. split; [done|]. unfold FullBlock_Deserialize. eapply reads_bind; [by apply reads_BlockHeader|cbv beta].
  destruct b as [h body]. apply (reads_map _ (TransactionBody_Deserialize Blake2b GetOutputType) _ _ (mkFullBlock h)).
  by apply reads_TransactionBody.
Qed.

Record CompactBlock_wf (v : EProtocolVersion) (b : CompactBlock) : Prop := {
  cbw_header : BlockHeader_wf Blake2b (cb_header b);
  cbw_nonce : is_uint 64 (cb_nonce b);
  cbw_outputs : Forall (TransactionOutput_wf v) (cb_outputs b);
  cbw_kernels : Forall (TransactionKernel_wf v) (cb_kernels b);
  cbw_shortIds : Forall (ShortId_wf v) (cb_shortIds b);
  cbw_lengths : length (cb_outputs b) < 2 ^ 64 /\ length (cb_kernels b) < 2 ^ 64 /\ length (cb_shortIds b) < 2 ^ 64;
}.

Lemma reads_CompactBlock v b : CompactBlock_wf v b ->
  exists enc, CompactBlock_Serialize b (Serializer_new v) = Ok (mkSerializer v enc) /\
    reads v (CompactBlock_Deserialize Blake2b) enc b.
Proof.
  intros [Hh Hn Ho Hk Hs (Lo & Lk & Ls)]. unfold CompactBlock_Serialize. rewrite BlockHeader_Serialize_bytes by done.
  cbn [mbind result_bind mret result_ret].
  rewrite (append_all_version (@Serialize TransactionOutput _) Serialized) by (intros; apply serialize_appends).
  rewrite (append_all_version (@Serialize TransactionKernel _) Serialized) by (intros; apply serialize_appends).
  rewrite (append_all_version (@Serialize ShortId _) Serialized) by (intros; apply serialize_appends).
  unfold AppendU64. rewrite !Append_be. cbn [s_version s_bytes Serializer_new app]. eexists. split; [done|].
  rewrite <- !app_assoc. unfold CompactBlock_Deserialize. eapply reads_bind; [by apply reads_BlockHeader|cbv beta].
  destruct b as [h nonce outputs kernels shortIds]. cbn [cb_header cb_nonce cb_outputs cb_kernels cb_shortIds] in *.
  do 4 read_be 8%nat. rewrite !Nat2Z.id.
  eapply reads_bind; [apply reads_list; eapply Forall_impl; [apply Ho|]; intros; by apply deserialize_reads|cbv beta].
  eapply reads_bind; [apply reads_list; eapply Forall_impl; [apply Hk|]; intros; by apply deserialize_reads|cbv beta].
  apply (reads_map _ (read_list (length shortIds) Deserialize) _ _ (mkCompactBlock h nonce outputs kernels)).
  apply reads_list. eapply Forall_impl; [apply Hs|]; intros; by apply deserialize_reads.
Qed.
End wire.

(** ** Hydrating a compact block *)

(** [push_new] collects the elements of a list without repetitions. *)
Section push.
Context {A : Type} (GetHash : A -> Hash).

Lemma push_new_ok l acc :
  acc.1 = map GetHash acc.2 -> NoDup acc.1 ->
  let acc' := foldl (push_new GetHash) acc l in
  acc'.1 = map GetHash acc'.2 /\ NoDup acc'.1 /\ (forall x, x ∈ acc'.2 -> x ∈ acc.2 \/ x ∈ l) /\
  (forall x, x ∈ acc.2 -> x ∈ acc'.2) /\ (forall x, x ∈ l -> GetHash x ∈ acc'.1).
Proof.
  revert acc. induction l as [|a l IH]; intros acc Ha Hn; cbn [foldl].
  { split; [done|]. split; [done|]. split; [by left|]. split; [done|]. by intros x ?%elem_of_nil. }
  assert ((push_new GetHash acc a).1 = map GetHash (push_new GetHash acc a).2 /\ NoDup (push_new GetHash acc a).1 /\
    (forall x, x ∈ (push_new GetHash acc a).2 -> x ∈ acc.2 \/ x = a) /\ (forall x, x ∈ acc.2 -> x ∈ (push_new GetHash acc a).2) /\
    GetHash a ∈ (push_new GetHash acc a).1) as (E1 & E2 & E3 & E4 & E5).
  { unfold push_new. case_bool_decide as Eb; [repeat split; try done; by left|]. cbn [fst snd]. split; [by rewrite map_app, Ha|].
    split; [apply NoDup_app; split; [done|]; split; [intros x Hx ->%list_elem_of_singleton; done|apply NoDup_singleton]|].
    split; [intros x [Hx| ->%list_elem_of_singleton]%elem_of_app; auto|]. split; [intros x Hx; apply elem_of_app; by left|].
    apply elem_of_app. right. by apply list_elem_of_singleton. }
  destruct (IH _ E1 E2) as (F1 & F2 & F3 & F4 & F5). split; [done|]. split; [done|]. split; [|split].
  - intros x [Hx|Hx]%F3; [|right; by right]. apply E3 in Hx as [Hx|Hx]; [by left|]. subst x. right. left.
  - intros x Hx. by apply F4, E4.
  - intros x [->|Hx]%elem_of_cons; [|by apply F5]. rewrite F1. rewrite E1 in E5.
    apply list_elem_of_fmap in E5 as (y & -> & Hy). change (GetHash y ∈ GetHash <$> (foldl (push_new GetHash) (push_new GetHash acc a) l).2).
    apply list_elem_of_fmap. exists y. split; [done|]. by apply F4.
Qed.

Lemma foldl_concat {B} (f : list Hash * list A -> A -> list Hash * list A) (g : B -> list A) (l : list B) acc :
  foldl (fun acc b => foldl f acc (g b)) acc l = foldl f acc (concat (map g l)).
Proof. revert acc. induction l as [|b l IH]; intros acc; cbn [foldl map concat]; [done|]. by rewrite foldl_app, IH. Qed.

(** Two lists with the same elements, one of them without repeated hashes. *)
Lemma push_new_perm l l' :
  NoDup (map GetHash l') -> (forall x, x ∈ l <-> x ∈ l') -> (foldl (push_new GetHash) ([], []) l).2 ≡ₚ l'.
Proof.
  intros Hn He. destruct (push_new_ok l ([], []) eq_refl (NoDup_nil_2)) as (E1 & E2 & E3 & _ & E5).
  set (acc := foldl (push_new GetHash) ([], []) l) in *. rewrite E1 in E2. apply NoDup_Permutation.
  - eapply NoDup_fmap_1. exact E2.
  - eapply NoDup_fmap_1. exact Hn.
  - intros x. split; [intros [Hx%elem_of_nil|Hx]%E3; [done|by apply He]|]. intros Hx. pose proof Hx as Hx'. apply He, E5 in Hx.
    rewrite E1 in Hx. apply list_elem_of_fmap in Hx as (y & Ey & Hy). assert (y ∈ l') as Hy' by (apply E3 in Hy as [Hy%elem_of_nil|Hy]; [done|by apply He]).
    assert (x = y) as ->; [|done]. apply list_elem_of_lookup in Hx' as [i Hi], Hy' as [j Hj].
    assert (i = j) as ->; [|congruence]. eapply (NoDup_lookup _ i j (GetHash x) Hn).
    + change (map GetHash l') with (GetHash <$> l'). by rewrite list_lookup_fmap, Hi.
    + change (map GetHash l') with (GetHash <$> l'). by rewrite list_lookup_fmap, Hj, Ey.
Qed.
End push.

Section hydrate.
Context (Blake2b : bytes -> Hash) (SipHash24 : Z -> Z -> bytes -> Z).
Hypothesis Blake2b_length : forall x, length (Blake2b x) = 32%nat.
Hypothesis Blake2b_byte : forall x, Forall is_byte (Blake2b x).

Definition txs_inputs (txs : list Transaction) : list TransactionInput := concat (map (fun t => tb_inputs (tx_body t)) txs).
Definition txs_outputs (txs : list Transaction) : list TransactionOutput := concat (map (fun t => tb_outputs (tx_body t)) txs).
Definition txs_kernels (txs : list Transaction) : list TransactionKernel := concat (map (fun t => tb_kernels (tx_body t)) txs).

(** The block is the transactions and a coinbase after cut-through, in the order
    of the hashes, which tell its parts apart. *)
Record made_of (txs : list Transaction) (coinbase : list TransactionOutput) (rewards : list TransactionKernel) (b : FullBlock) : Prop := {
  mo_inputs : tb_inputs (fb_body b) ≡ₚ (PerformCutThrough (txs_inputs txs) (txs_outputs txs ++ coinbase)).1;
  mo_outputs : tb_outputs (fb_body b) ≡ₚ (PerformCutThrough (txs_inputs txs) (txs_outputs txs ++ coinbase)).2;
  mo_kernels : tb_kernels (fb_body b) ≡ₚ txs_kernels txs ++ rewards;
  mo_input_hashes : NoDup (map (TransactionInput_GetHash Blake2b) (txs_inputs txs));
  mo_output_hashes : NoDup (map (TransactionOutput_GetHash Blake2b) (txs_outputs txs ++ coinbase));
  mo_kernel_hashes : NoDup (map (TransactionKernel_GetHash Blake2b) (txs_kernels txs ++ rewards));
  mo_plain_outputs : Forall (fun o => TransactionOutput_IsCoinbase o = false) (txs_outputs txs);
  mo_plain_kernels : Forall (fun k => TransactionKernel_IsCoinbase k = false) (txs_kernels txs);
  mo_coinbase : Forall (fun o => TransactionOutput_IsCoinbase o = true /\ to_commitment o ∉ map ti_commitment (txs_inputs txs)) coinbase;
  mo_rewards : Forall (fun k => TransactionKernel_IsCoinbase k = true) rewards;
  mo_sorted_inputs : canonical (TransactionInput_GetHash Blake2b) (tb_inputs (fb_body b));
  mo_sorted_outputs : canonical (TransactionOutput_GetHash Blake2b) (tb_outputs (fb_body b));
  mo_sorted_kernels : canonical (TransactionKernel_GetHash Blake2b) (tb_kernels (fb_body b));
}.

Lemma sort_perm_canonical {A} (GetHash : A -> Hash) l l' :
  (forall a, length (GetHash a) = 32%nat) -> (forall a, Forall is_byte (GetHash a)) -> canonical GetHash l -> l' ≡ₚ l ->
  sort_by_hash GetHash (sort_by_hash GetHash l') = l.
Proof.
  intros Hl Hb [Hs Hi] Hp. symmetry. apply (sorted_hash_unique GetHash Hl Hb); [done|by apply sort_sorted| |done].
  by rewrite !sort_perm.
Qed.

Lemma filter_perm_pred {A} (P Q : A -> Prop) `{!forall x, Decision (P x), !forall x, Decision (Q x)} (l l' : list A) :
  (forall x, P x <-> Q x) -> l ≡ₚ l' -> filter P l ≡ₚ filter Q l'.
Proof. intros HPQ ->. by rewrite (list_filter_iff P Q) by done. Qed.

Lemma cut_through_perm i i' o o' : i ≡ₚ i' -> o ≡ₚ o' ->
  (PerformCutThrough i o).1 ≡ₚ (PerformCutThrough i' o').1 /\ (PerformCutThrough i o).2 ≡ₚ (PerformCutThrough i' o').2.
Proof.
  intros Hi Ho. unfold PerformCutThrough. cbn [fst snd]. split; apply filter_perm_pred; try done.
  - intros x. by rewrite Ho.
  - intros x. by rewrite Hi.
Qed.

Lemma Hydrate_with_ok txs txs' coinbase rewards b cb :
  made_of txs coinbase rewards b -> (forall t, t ∈ txs' <-> t ∈ txs) -> cb_header cb = fb_header b ->
  cb_outputs cb ≡ₚ coinbase -> cb_kernels cb ≡ₚ rewards -> Hydrate_with Blake2b cb txs' = b.
Proof.
  intros [Mi Mo Mk Hi Ho Hk _ _ _ _ Si So Sk] Ht Eh Eo Ek.
  assert (forall B (g : Transaction -> list B) x, x ∈ concat (map g txs') <-> x ∈ concat (map g txs)) as Hin.
  { intros B g x. rewrite !list_elem_of_In, !in_concat. setoid_rewrite in_map_iff. setoid_rewrite <- list_elem_of_In.
    split; intros (l & (t & <- & Ht') & Hx); exists (g t); (split; [exists t; split; [done|by apply Ht]|done]). }
  unfold Hydrate_with, hydrate_inputs, hydrate_outputs, hydrate_kernels. rewrite !foldl_concat, <- !foldl_app.
  assert ((foldl (push_new (TransactionInput_GetHash Blake2b)) ([], []) (concat (map (fun t => tb_inputs (tx_body t)) txs'))).2 ≡ₚ txs_inputs txs) as Pi.
  { apply push_new_perm; [done|apply Hin]. }
  assert ((foldl (push_new (TransactionOutput_GetHash Blake2b)) ([], []) (concat (map (fun t => tb_outputs (tx_body t)) txs') ++ cb_outputs cb)).2
    ≡ₚ txs_outputs txs ++ coinbase) as Po.
  { apply push_new_perm; [done|]. intros x. rewrite !elem_of_app, (Hin _ _ x), Eo. done. }
  assert ((foldl (push_new (TransactionKernel_GetHash Blake2b)) ([], []) (concat (map (fun t => tb_kernels (tx_body t)) txs') ++ cb_kernels cb)).2
    ≡ₚ txs_kernels txs ++ rewards) as Pk.
  { apply push_new_perm; [done|]. intros x. rewrite !elem_of_app, (Hin _ _ x), Ek. done. }
  destruct (cut_through_perm _ _ _ _ Pi Po) as [Ci Co]. destruct (PerformCutThrough (foldl _ _ _).2 (foldl _ _ _).2) as [ins outs]. cbn [fst snd] in *.
  destruct b as [h body]. cbn [fb_header fb_body] in *. rewrite Eh. f_equal. unfold TransactionBody_new.
  rewrite (sort_perm_canonical _ (tb_inputs body)), (sort_perm_canonical _ (tb_outputs body)), (sort_perm_canonical _ (tb_kernels body));
    first [by destruct body|by intros; apply Blake2b_length|by intros; apply Blake2b_byte|done|idtac].
  - by rewrite Pk, Mk.
  - by rewrite Co, Mo.
  - by rewrite Ci, Mi.
Qed.

(** The coinbase part of the block is what the compact block carries. *)
Lemma made_of_coinbase txs coinbase rewards b : made_of txs coinbase rewards b ->
  filter (fun o => TransactionOutput_IsCoinbase o = true) (tb_outputs (fb_body b)) ≡ₚ coinbase /\
  filter (fun k => TransactionKernel_IsCoinbase k = true) (tb_kernels (fb_body b)) ≡ₚ rewards /\
  filter (fun k => TransactionKernel_IsCoinbase k = false) (tb_kernels (fb_body b)) ≡ₚ txs_kernels txs.
Proof.
  intros [_ Mo Mk _ _ _ Po Pk Hc Hr _ _ _]. rewrite Mo, Mk. unfold PerformCutThrough. cbn [snd]. rewrite !filter_app. split; [|split].
  - rewrite filter_none; [|]. 2: { apply Forall_forall. intros o [_ Ho]%list_elem_of_filter. rewrite Forall_forall in Po. rewrite (Po o Ho). done. }
    rewrite (filter_all (fun o => to_commitment o ∉ map ti_commitment (txs_inputs txs)) coinbase) by (eapply Forall_impl; [exact Hc|]; by intros o [_ ?]).
    rewrite filter_all; [done|]. eapply Forall_impl; [exact Hc|]. by intros o [? _].
  - rewrite filter_none; [|eapply Forall_impl; [exact Pk|]; intros k ->; done]. by rewrite filter_all.
  - rewrite filter_all by done. rewrite filter_none; [by rewrite app_nil_r|]. eapply Forall_impl; [exact Hr|]. intros k ->; done.
Qed.
End hydrate.
