(* ===== verification/ValidationSpec.v ===== *)
(** * What the validators accept

    Sums in chunks equal plain sums; kernel sums balance inputs, outputs, fees
    and rewards; the cache of range proofs holds only commitments with a
    verified proof. *)
From S2P Require Import Prelude Consensus Serial BigInteger MMRHash Transaction Crypto Header Block Validation.

Section sums.
Context {P : Type} {SP : Secp256k1 P} {G : Type} {AG : AbelianGroup G} {SL : Secp256k1Laws P G}.
Implicit Types (cs : list Commitment) (c : Commitment) (g : G).

(** A sum that [AddCommitments] returns is the only commitment of its point. *)
Lemma AddCommitments_single cs c :
  Forall is_commitment cs -> AddCommitments cs [] = Ok c <-> exists g, csum cs = Some g /\ commit_of g c.
Proof.
  intros Hc. rewrite (AddCommitments_ok (G := G)) by done. split.
  - intros (a & b & Ha & [= <-] & Hcc). rewrite gsub_0_r in Hcc. by exists a.
  - intros (g & Hg & Hcc). exists g, gzero. by rewrite gsub_0_r.
Qed.

(** ** Chunks *)
Lemma AppendChunkSums_loop_ok cs : forall chunk partials chunk' partials' g,
  Forall is_commitment (cs ++ chunk ++ partials) -> csum partials = Some g ->
  AppendChunkSums_loop cs chunk partials = Ok (chunk', partials') ->
  Forall is_commitment (chunk' ++ partials') /\ csum (partials' ++ chunk') = csum (partials ++ chunk ++ cs) /\ is_Some (csum partials').
Proof.
  induction cs as [|c cs IH]; intros chunk partials chunk' partials' g Hl Hg E; cbn [AppendChunkSums_loop] in E.
  - injection E as <- <-. rewrite app_nil_r. by rewrite Hg.
  - assert (is_commitment c /\ Forall is_commitment cs /\ Forall is_commitment chunk /\ Forall is_commitment partials) as (Hc & Hcs & Hch & Hp)
      by (cbn [app] in Hl; apply Forall_cons in Hl as [? Hl]; by rewrite !Forall_app in Hl).
    destruct (length (chunk ++ [c]) >=? COMMITMENT_SUM_CHUNK_SIZE).
    + destruct (AddCommitments (chunk ++ [c]) []) as [sum|] eqn:Es; [|done]. cbn [mbind result_bind] in E.
      apply AddCommitments_single in Es as (h & Hh & Hs); [|by rewrite Forall_app, Forall_singleton].
      destruct (commit_of_val _ _ Hs) as (Hv & Hsl & _).
      pose proof (csum_snoc _ _ _ _ Hg Hv) as Hg'.
      destruct (IH [] (partials ++ [sum]) chunk' partials' _ ltac:(rewrite !Forall_app; by repeat constructor) Hg' E) as (Hl' & Hs' & HS).
      split; [done|]. split; [|done]. rewrite Hs', app_nil_l. replace (partials ++ chunk ++ c :: cs) with ((partials ++ (chunk ++ [c])) ++ cs) by (by rewrite <- !app_assoc).
      rewrite !(csum_app _ cs). f_equal. rewrite Hg', csum_app, Hg, Hh. done.
    + destruct (IH (chunk ++ [c]) partials chunk' partials' g ltac:(rewrite !Forall_app; by repeat constructor) Hg E) as (Hl' & Hs' & HS).
      split; [done|]. split; [|done]. by rewrite Hs', <- !app_assoc.
Qed.

Lemma AppendChunkSums_ok cs ad partials :
  Forall is_commitment (cs ++ ad) -> AppendChunkSums cs ad [] = Ok partials ->
  Forall is_commitment partials /\ csum partials = csum (cs ++ ad) /\ is_Some (csum partials).
Proof.
  unfold AppendChunkSums. intros [Hc Ha]%Forall_app E.
  destruct (AppendChunkSums_loop cs [] []) as [[chunk1 partials1]|] eqn:E1; [|done]. cbn [mbind result_bind fst snd] in E.
  destruct (AppendChunkSums_loop_ok cs [] [] _ _ gzero ltac:(by rewrite !app_nil_r) eq_refl E1) as (Hl1 & Hs1 & [g1 Hg1]).
  destruct (AppendChunkSums_loop ad chunk1 partials1) as [[chunk2 partials2]|] eqn:E2; [|done]. cbn [mbind result_bind fst snd] in E.
  destruct (AppendChunkSums_loop_ok ad chunk1 partials1 _ _ g1 ltac:(by rewrite Forall_app) Hg1 E2) as (Hl2 & Hs2 & [g2 Hg2]).
  apply Forall_app in Hl2 as [Hc2 Hp2]. cbn [app] in Hs1.
  assert (csum (partials2 ++ chunk2) = csum (cs ++ ad)) as Hs by (by rewrite Hs2, app_assoc, csum_app, Hs1, <- csum_app).
  destruct chunk2 as [|c chunk2]; cbn [fst snd] in E.
  - injection E as <-. rewrite app_nil_r in Hs. by rewrite <- Hs, Hg2.
  - destruct (AddCommitments (c :: chunk2) []) as [sum|] eqn:Es; [|done]. injection E as <-.
    apply AddCommitments_single in Es as (h & Hh & Hsum); [|done]. destruct (commit_of_val _ _ Hsum) as (Hv & Hsl & _).
    split; [by rewrite Forall_app, Forall_singleton|]. rewrite <- Hs, (csum_snoc _ _ _ _ Hg2 Hv), csum_app, Hg2, Hh. by split.
Qed.

Lemma AddCommitmentsChunked_ok pos neg ap an c :
  Forall is_commitment (pos ++ ap) -> Forall is_commitment (neg ++ an) -> AddCommitmentsChunked pos neg ap an = Ok c ->
  exists a b, csum (pos ++ ap) = Some a /\ csum (neg ++ an) = Some b /\ commit_of (gsub a b) c.
Proof.
  intros Hp Hn. unfold AddCommitmentsChunked. destruct (_ <=? _); [by apply AddCommitments_ok|].
  destruct (AppendChunkSums pos ap []) as [ps|] eqn:Ep; [|done]. cbn [mbind result_bind].
  destruct (AppendChunkSums neg an []) as [ns|] eqn:En; [|done]. cbn [mbind result_bind]. intros E.
  destruct (AppendChunkSums_ok _ _ _ Hp Ep) as (Hpl & <- & _). destruct (AppendChunkSums_ok _ _ _ Hn En) as (Hnl & <- & _).
  by apply AddCommitments_ok.
Qed.

Lemma AddCommitmentsChunked_equals_ok pos neg ap an c :
  Forall is_commitment (pos ++ ap) -> Forall is_commitment (neg ++ an) ->
  AddCommitmentsChunked pos neg ap an = Ok c -> AddCommitments (pos ++ ap) (neg ++ an) = Ok c.
Proof. intros Hp Hn E. apply (AddCommitments_ok (G := G)); [done..|]. by apply AddCommitmentsChunked_ok. Qed.

(** ** Kernel sums *)
Lemma AddKernelOffset_ok c g offset c' :
  cval c = Some g -> is_commitment c -> length offset = 32%nat -> AddKernelOffset c offset = Ok c' ->
  cval c' = Some (gadd g (blind offset)) /\ is_commitment c'.
Proof.
  intros Hg Hc Ho. unfold AddKernelOffset. rewrite BigInteger_eq_spec by done. case_bool_decide as E.
  - intros [= <-]. subst offset. by rewrite blind_zero, gadd_0_r.
  - destruct (CommitBlinded 0 offset) as [oc|] eqn:Eb; [|done]. cbn [mbind result_bind]. intros Es.
    apply CommitBlinded_ok in Eb. rewrite value_0, gadd_0_l in Eb. destruct (commit_of_val _ _ Eb) as (Hv & Hl & _).
    apply AddCommitments_single in Es as (h & Hh & Hcc); [|by repeat constructor].
    cbn [csum] in Hh. rewrite Hg, Hv in Hh. cbn in Hh. rewrite gadd_0_r in Hh. injection Hh as <-.
    by destruct (commit_of_val _ _ Hcc) as (? & ? & _).
Qed.

(** The additional commitment of the overage. *)
Lemma overage_ok overage x :
  (if overage >? 0 then c ← CommitTransparent overage; Ok ([], [c])
   else if overage <? 0 then c ← CommitTransparent (0 - overage); Ok ([c], []) else Ok ([], [])) = Ok x ->
  Forall is_commitment (x.1 ++ x.2) /\ exists i o, csum x.1 = Some i /\ csum x.2 = Some o /\ o = gadd i (value overage).
Proof.
  rewrite Z.gtb_ltb. destruct (Z.ltb_spec 0 overage); [|destruct (Z.ltb_spec overage 0)].
  - destruct (CommitTransparent overage) as [c|] eqn:E; [|done]. intros [= <-]. apply CommitTransparent_ok in E.
    destruct (commit_of_val _ _ E) as (Hv & Hl & _). split; [by repeat constructor|]. exists gzero, (value overage). cbn [fst snd].
    by rewrite csum_single, gadd_0_l.
  - destruct (CommitTransparent (0 - overage)) as [c|] eqn:E; [|done]. intros [= <-]. apply CommitTransparent_ok in E.
    destruct (commit_of_val _ _ E) as (Hv & Hl & _). split; [by repeat constructor|]. exists (value (0 - overage)), gzero. cbn [fst snd].
    rewrite csum_single. split; [done|]. split; [done|]. rewrite <- value_add. replace (0 - overage + overage) with 0 by lia. by rewrite value_0.
  - intros [= <-]. split; [constructor|]. exists gzero, gzero. replace overage with 0 by lia. by rewrite value_0, gadd_0_r.
Qed.

(** Sums that stand for two points, and those of the previous block if there is one. *)
Definition sums_of (sums : BlockSums) (o k : G) : Prop :=
  cval (bs_outputSum sums) = Some o /\ cval (bs_kernelSum sums) = Some k /\
  is_commitment (bs_outputSum sums) /\ is_commitment (bs_kernelSum sums).
Definition previous_sums (sums : option BlockSums) (o k : G) : Prop :=
  match sums with Some sums => sums_of sums o k | None => o = gzero /\ k = gzero end.

Lemma previous_sums_ok sums o k :
  previous_sums sums o k ->
  let os := match sums with Some sums => [bs_outputSum sums] | None => [] end in
  let ks := match sums with Some sums => [bs_kernelSum sums] | None => [] end in
  Forall is_commitment os /\ Forall is_commitment ks /\ csum os = Some o /\ csum ks = Some k.
Proof.
  destruct sums as [sums|]; cbn [previous_sums]; [|by intros [-> ->]].
  intros (Ho & Hk & ? & ?). rewrite !csum_single. by repeat split; repeat constructor.
Qed.

Lemma ValidateKernelSums_of_ok inputs outputs kernels overage offset previous o0 k0 sums :
  Forall is_commitment inputs -> Forall is_commitment outputs -> Forall is_commitment kernels -> length offset = 32%nat ->
  previous_sums previous o0 k0 -> ValidateKernelSums_of inputs outputs kernels overage offset previous = Ok sums ->
  exists i o k o1 k1, csum inputs = Some i /\ csum outputs = Some o /\ csum kernels = Some k /\ sums_of sums o1 k1 /\
    gadd o1 i = gadd (gadd o o0) (value overage) /\ k1 = gadd k k0 /\ o1 = gadd k1 (blind offset).
Proof.
  intros Hi Ho Hk Hoff Hp E. unfold ValidateKernelSums_of in E.
  destruct (if overage >? 0 then _ else _) as [[ins outs]|] eqn:Eov; [|done]. cbn [mbind result_bind fst snd] in E.
  apply overage_ok in Eov as (Hl & ai & ao & Hai & Hao & ->). cbn [fst snd] in *. apply Forall_app in Hl as [Hli Hlo].
  destruct (previous_sums_ok _ _ _ Hp) as (Hpo & Hpk & Ho0 & Hk0).
  destruct (AddCommitmentsChunked outputs inputs _ ins) as [utxo|] eqn:Eu; [|done]. cbn [mbind result_bind] in E.
  apply AddCommitmentsChunked_ok in Eu as (a & b & Ha & Hb & Hu); [|by rewrite !Forall_app|by rewrite Forall_app].
  destruct (AddCommitmentsChunked kernels [] _ []) as [ksum|] eqn:Ek; [|done]. cbn [mbind result_bind] in E.
  apply AddCommitmentsChunked_ok in Ek as (k' & z & Hk' & [= <-] & Hks); [|by rewrite Forall_app|done]. rewrite gsub_0_r in Hks.
  destruct (AddKernelOffset ksum offset) as [kplus|] eqn:Ekp; [|done]. cbn [mbind result_bind] in E.
  destruct (commit_of_val _ _ Hu) as (Hvu & Hlu & _). destruct (commit_of_val _ _ Hks) as (Hvk & Hlk & _).
  destruct (AddKernelOffset_ok _ _ _ _ Hvk Hlk Hoff Ekp) as (Hvp & Hlp).
  unfold BigInteger_neq in E. rewrite BigInteger_eq_spec in E by congruence. case_bool_decide as Heq; [|done]. injection E as <-. subst kplus.
  rewrite !csum_app, Hao, Ho0 in Ha. rewrite csum_app, Hai in Hb. rewrite csum_app, Hk0 in Hk'.
  destruct (csum outputs) as [o|]; [|done]. destruct (csum inputs) as [i|]; [|done]. destruct (csum kernels) as [k|]; [|done].
  injection Ha as <-. injection Hb as <-. injection Hk' as <-. rewrite Hvu in Hvp. injection Hvp as Hvp.
  exists i, o, k, (gsub (gadd o (gadd (gadd ai (value overage)) o0)) (gadd i ai)), (gadd k k0).
  do 3 (split; [done|]). split; [done|]. split; [|by rewrite <- Hvp].
  apply gadd_cancel with ai. rewrite <- gadd_assoc, gsub_add. group.
Qed.

(** ** The coinbase *)
Lemma VerifyCoinbase_ok (b : FullBlock) :
  Forall is_commitment (coinbase_outputs b) -> Forall is_commitment (coinbase_kernels b) -> VerifyCoinbase b = Ok tt ->
  exists o k, csum (coinbase_outputs b) = Some o /\ csum (coinbase_kernels b) = Some k /\
    o = gadd k (value (REWARD + FullBlock_GetTotalFees b)%u64).
Proof.
  intros Ho Hk. unfold VerifyCoinbase. destruct (CommitTransparent _) as [c|] eqn:Ec; [|done]. cbn [mbind result_bind].
  apply CommitTransparent_ok in Ec. destruct (commit_of_val _ _ Ec) as (Hv & Hl & _).
  destruct (AddCommitments (coinbase_outputs b) [c]) as [x|] eqn:Ex; [|done]. cbn [mbind result_bind].
  apply (AddCommitments_ok (G := G)) in Ex as (o & r & Hoo & Hr & Hx); [|done|by repeat constructor]. rewrite csum_single, Hv in Hr. injection Hr as <-.
  destruct (AddCommitments (coinbase_kernels b) []) as [y|] eqn:Ey; [|done]. cbn [mbind result_bind].
  apply AddCommitments_single in Ey as (k & Hkk & Hy); [|done]. unfold require, BigInteger_neq. rewrite negb_involutive.
  destruct (commit_of_val _ _ Hx) as (Hvx & Hlx & _), (commit_of_val _ _ Hy) as (Hvy & Hly & _).
  rewrite BigInteger_eq_spec by congruence. case_bool_decide as Heq; [|done]. intros _. subst y.
  rewrite Hvx in Hvy. injection Hvy as Hvy. exists o, k. split; [done|]. split; [done|]. by apply gsub_eq.
Qed.
End sums.

(** ** Fees *)
Definition fees (kernels : list TransactionKernel) : Z := sum_of (fun k => m_fee (tk_fee k)) kernels.
Definition fee_ok (k : TransactionKernel) : Prop := is_uint 40 (m_fee (tk_fee k)).

Lemma fees_range kernels : Forall fee_ok kernels -> 0 <= fees kernels <= length kernels * 2 ^ 40.
Proof.
  unfold fees. induction 1 as [|k kernels Hk _ IH]; cbn [sum_of foldr length] in *; [lia|]. unfold fee_ok, is_uint in Hk. unfold sum_of in IH. lia.
Qed.

Lemma fee_overage_from kernels z :
  Forall fee_ok kernels -> 0 <= z -> z + length kernels * 2 ^ 40 < 2 ^ 63 ->
  fold_result (fun k overage => int64_add overage (to_int64 (m_fee (tk_fee k)))) kernels z = Ok (z + fees kernels).
Proof.
  intros Hk. revert z. induction Hk as [|k kernels Hk _ IH]; intros z Hz Hb; cbn [fold_result]; [f_equal; cbn; lia|].
  unfold fee_ok, is_uint in Hk. cbn [length] in Hb. unfold to_int64, int64_add at 1. rewrite (proj2 (Z.ltb_lt _ _)) by lia.
  rewrite bool_decide_true by lia. rewrite IH by lia. unfold fees. cbn [sum_of foldr]. f_equal. unfold sum_of. lia.
Qed.

Lemma CalcFee_fees body : Forall fee_ok (tb_kernels body) -> length (tb_kernels body) * 2 ^ 40 < 2 ^ 63 -> CalcFee body = fees (tb_kernels body).
Proof.
  intros Hk Hn. unfold CalcFee. pose proof (fees_range _ Hk) as Hr. revert Hr Hn. generalize (tb_kernels body), Hk. clear.
  intros l Hk. assert (forall z, 0 <= z -> z + fees l < 2 ^ 64 -> foldl (fun sum k => (sum + m_fee (tk_fee k))%u64) z l = z + fees l) as H.
  { induction Hk as [|k l Hk Hl IH]; intros z Hz Hb; cbn [foldl]; [unfold fees; cbn; lia|].
    unfold fees in *. cbn [sum_of foldr] in *. fold (sum_of (fun k => m_fee (tk_fee k)) l) in *. unfold fee_ok, is_uint in Hk.
    pose proof (fees_range l Hl) as Hf. unfold fees in Hf. rewrite uint_small by (unfold is_uint; lia). rewrite IH by lia. lia. }
  intros Hr Hn. rewrite H by lia. lia.
Qed.

(** ** Range proofs *)
Section proofs.
Context {P : Type} {SP : Secp256k1 P} {L : Type} {HL : LRUCache Commitment Commitment L} {HLL : LRUCacheLaws Commitment Commitment L}.
Implicit Types (cache : L).

(** The library verified a proof of this commitment. *)
Definition proved (c : Commitment) : Prop :=
  exists proofs n cs ps, c ∈ cs /\ ConvertCommitments cs = Ok ps /\ bulletproof_rangeproof_verify_multi proofs n ps = true.

(** The keys of the cache are its values. *)
Definition cache_wf cache : Prop := forall c c', cache_get c cache = Some c' -> c' = c /\ proved c.

Lemma cache_wf_put c cache : cache_wf cache -> proved c -> cache_wf (AddToCache c cache).
Proof.
  intros Hw Hc k v E. unfold AddToCache in E. destruct (decide (c = k)) as [->|Hne].
  - rewrite cache_get_put in E. by injection E as <-.
  - by apply Hw, (cache_get_other c k c v cache Hne).
Qed.

Lemma VerifyBulletproofs_ok rangeProofs cache valid cache' :
  cache_wf cache -> VerifyBulletproofs rangeProofs cache = (Ok valid, cache') ->
  cache_wf cache' /\ (valid = true -> Forall (fun p => proved p.1) rangeProofs).
Proof.
  intros Hw. unfold VerifyBulletproofs. destruct rangeProofs as [|front rest]; [done|].
  set (l := front :: rest). set (unverified := filter (fun p => WasAlreadyVerified p.1 cache = false) l). intros E.
  assert (Forall (fun p => proved p.1) unverified -> Forall (fun p => proved p.1) l) as Hall.
  { rewrite !Forall_forall. intros Hu p Hp. destruct (WasAlreadyVerified p.1 cache) eqn:Ev.
    - unfold WasAlreadyVerified in Ev. destruct (cache_get p.1 cache) as [c|] eqn:Eg; [|done]. by destruct (Hw _ _ Eg).
    - apply Hu. apply list_elem_of_filter. by split. }
  erewrite st_bind_ok in E by reflexivity. fold l in E. fold unverified in E.
  destruct (map fst unverified) as [|c cs] eqn:Ec.
  - injection E as <- <-. split; [done|]. intros _. apply Hall. by destruct unverified.
  - destruct (ConvertCommitments (c :: cs)) as [ps|e] eqn:Ep; [|done]. rewrite (st_lift_ok _ _ _ _ eq_refl) in E.
    destruct (bulletproof_rangeproof_verify_multi _ _ ps) eqn:Ev; cbn [negb] in E; [|by injection E as <- <-].
    injection E as <- <-. assert (Forall proved (c :: cs)) as Hpr by (apply Forall_forall; intros x Hx; by exists (map snd unverified), (length front.2), (c :: cs), ps).
    split.
    + change (cache_wf (foldl (fun cache c => AddToCache c cache) cache (c :: cs))). revert Hw Hpr. clear -HLL SP. generalize (c :: cs). intros l. revert cache. induction l as [|x l IH]; intros cache Hw Hp; [done|].
      apply Forall_cons in Hp as [Hx Hp]. apply IH; [by apply cache_wf_put|done].
    + intros _. apply Hall. rewrite <- Ec in Hpr. by apply (proj1 (Forall_map fst proved unverified)) in Hpr.
Qed.
End proofs.

(** ** Transactions and blocks *)
(** What deserialization gives: 33-byte commitments, 40-bit fees. *)
Record body_wf (body : TransactionBody) : Prop := {
  bw_inputs : Forall is_commitment (map ti_commitment (tb_inputs body));
  bw_outputs : Forall is_commitment (map to_commitment (tb_outputs body));
  bw_kernels : Forall is_commitment (map tk_excessCommitment (tb_kernels body));
  bw_fees : Forall fee_ok (tb_kernels body);
  bw_count : length (tb_kernels body) < 2 ^ 23;
}.

Lemma Forall_map_filter {A B} (f : A -> B) (Q : B -> Prop) (S : A -> Prop) `{!forall x, Decision (S x)} l :
  Forall Q (map f l) -> Forall Q (map f (filter S l)).
Proof. rewrite !Forall_map, !Forall_forall. intros HQ x Hx. apply HQ. by apply list_elem_of_filter in Hx as [_ ?]. Qed.

Lemma require_ok e b : require e b = Ok tt <-> b = true.
Proof. unfold require. by destruct b. Qed.

Section checks.
Context {P : Type} {SP : Secp256k1 P} {G : Type} {AG : AbelianGroup G} {SL : Secp256k1Laws P G}.
Context {L : Type} {HL : LRUCache Commitment Commitment L} {HLL : LRUCacheLaws Commitment Commitment L}.
Context (Blake2b : bytes -> Hash) (env : Environment).
Implicit Types (cache : L).

Lemma TxBodyValidator_ok body cache cache' :
  cache_wf cache -> TxBodyValidator_Validate Blake2b body cache = (Ok tt, cache') ->
  cache_wf cache' /\ VerifySorted Blake2b body = Ok tt /\ VerifyCutThrough body = Ok tt /\
  Forall (fun o => proved (to_commitment o)) (tb_outputs body) /\ BatchVerify Blake2b (tb_kernels body) = true.
Proof.
  intros Hw. unfold TxBodyValidator_Validate. destruct (VerifySorted Blake2b body) as [[]|]; [|done]. destruct (VerifyCutThrough body) as [[]|]; [|done].
  rewrite !(st_lift_ok _ _ _ _ eq_refl). unfold VerifyRangeProofs, mbind, ST_bind.
  destruct (VerifyBulletproofs _ cache) as [[valid|] cache1] eqn:E; [|done].
  destruct (VerifyBulletproofs_ok _ _ _ _ Hw E) as [Hw1 Hp]. destruct valid; [|done]. cbn. intros E2.
  injection E2 as E2 <-. apply require_ok in E2. do 3 (split; [done|]). split; [|done].
  by apply (proj1 (Forall_map (fun o => (to_commitment o, to_rangeProof o)) (fun p => proved p.1) (tb_outputs body))), Hp.
Qed.

(** Whatever happens, the cache stays sound. *)
Lemma TxBodyValidator_keeps body : st_keeps cache_wf (TxBodyValidator_Validate (L := L) Blake2b body).
Proof.
  unfold TxBodyValidator_Validate, VerifyRangeProofs. apply st_keeps_bind; [auto with keeps|intros _].
  apply st_keeps_bind; [auto with keeps|intros _]. apply st_keeps_bind; [|auto with keeps].
  apply st_keeps_bind; [|auto with keeps]. intros cache Hw. destruct (VerifyBulletproofs _ cache) as [[valid|e] cache'] eqn:E.
  - by destruct (VerifyBulletproofs_ok _ _ _ _ Hw E).
  - revert E. unfold VerifyBulletproofs. destruct (map _ (tb_outputs body)) as [|front rest]; [by intros [= _ <-]|].
    erewrite st_bind_ok by reflexivity. destruct (map fst _); [done|]. unfold mbind at 1, ST_bind, st_lift.
    destruct (ConvertCommitments _); [|by intros [= _ <-]]. by destruct (negb _).
Qed.

(** A block that passed. *)
Record self_consistent (b : FullBlock) : Prop := {
  sc_weight : CalcWeight env (FullBlock_GetHeight b) (fb_body b) <= MAX_BLOCK_WEIGHT;
  sc_locks : Forall (fun k => tk_lockHeight k <= FullBlock_GetHeight b) (tb_kernels (fb_body b));
  sc_sorted : VerifySorted Blake2b (fb_body b) = Ok tt;
  sc_cut : VerifyCutThrough (fb_body b) = Ok tt;
  sc_proofs : Forall (fun o => proved (to_commitment o)) (tb_outputs (fb_body b));
  sc_signatures : BatchVerify Blake2b (tb_kernels (fb_body b)) = true;
  sc_coinbase : exists o k, csum (coinbase_outputs b) = Some o /\ csum (coinbase_kernels b) = Some k /\
    o = gadd k (value (REWARD + fees (tb_kernels (fb_body b))));
}.

Lemma VerifySelfConsistent_ok b cache b' cache' :
  cache_wf cache -> body_wf (fb_body (cbk_block b)) -> VerifySelfConsistent Blake2b env b cache = (Ok b', cache') ->
  cache_wf cache' /\ b' = mkCheckedBlock (cbk_block b) true /\ (cbk_validated b = false -> self_consistent (cbk_block b)).
Proof.
  intros Hw Hb. destruct b as [b validated]. unfold VerifySelfConsistent. cbn [cbk_block cbk_validated] in *.
  destruct validated; [by intros [= <- <-]|].
  destruct (BlockValidator_VerifyWeight env b) as [[]|] eqn:Ew; [|done]. rewrite (st_lift_ok _ _ _ _ eq_refl).
  destruct (VerifyKernelLockHeights b) as [[]|] eqn:Ek; [|done]. rewrite (st_lift_ok _ _ _ _ eq_refl).
  unfold BlockValidator_VerifyBody, st_catch_as, mbind, ST_bind.
  destruct (TxBodyValidator_Validate Blake2b (fb_body b) cache) as [[[]|] cache1] eqn:Et; [|done]. cbn [catch_as].
  destruct (TxBodyValidator_ok _ _ _ Hw Et) as (Hw1 & Hs & Hc & Hp & Hsig).
  destruct (VerifyCoinbase b) as [[]|] eqn:Ec; [|done]. intros [= <- <-]. split; [done|]. split; [done|]. intros _.
  unfold BlockValidator_VerifyWeight in Ew. apply require_ok in Ew. unfold VerifyKernelLockHeights in Ek. apply require_ok in Ek.
  apply negb_true_iff in Ew, Ek. destruct Hb as [Hi Ho Hk Hf Hn].
  constructor; try done.
  - rewrite Z.gtb_ltb in Ew. by apply Z.ltb_ge in Ew.
  - apply Forall_forall. intros k Hkk. destruct (Z.le_gt_cases (tk_lockHeight k) (FullBlock_GetHeight b)) as [|Hgt]; [done|].
    exfalso. apply not_true_iff_false in Ek. apply Ek, existsb_exists. exists k. split; [by apply list_elem_of_In|]. rewrite Z.gtb_ltb. by apply Z.ltb_lt.
  - apply VerifyCoinbase_ok in Ec as (o & k & Hoo & Hkk & ->); [|by apply Forall_map_filter..]. exists (gadd k (value (REWARD + FullBlock_GetTotalFees b)%u64)), k.
    do 2 (split; [done|]). do 2 f_equal. pose proof (fees_range _ Hf). unfold FullBlock_GetTotalFees. rewrite CalcFee_fees by (done || lia).
    rewrite uint_small; [done|]. unfold is_uint. change REWARD with 60000000000. lia.
Qed.

Lemma VerifySelfConsistent_keeps b : st_keeps cache_wf (VerifySelfConsistent (L := L) Blake2b env b).
Proof.
  unfold VerifySelfConsistent. destruct (cbk_validated b); [auto with keeps|].
  apply st_keeps_bind; [auto with keeps|intros _]. apply st_keeps_bind; [auto with keeps|intros _].
  apply st_keeps_bind; [|intros _; apply st_keeps_bind; auto with keeps].
  intros cache Hw. unfold BlockValidator_VerifyBody, st_catch_as. pose proof (TxBodyValidator_keeps (fb_body (cbk_block b)) cache Hw) as H.
  by destruct (TxBodyValidator_Validate _ _ cache).
Qed.
End checks.

Section properties.
Context {P : Type} {SP : Secp256k1 P} {G : Type} {AG : AbelianGroup G} {SL : Secp256k1Laws P G}.
Context {L : Type} {HL : LRUCache Commitment Commitment L} {HLL : LRUCacheLaws Commitment Commitment L}.
Context (Blake2b : bytes -> Hash) (env : Environment).
Implicit Types (cache : L).

(** C13: A transaction that validates creates no value: its outputs and fees are its
    inputs and kernel excesses, the offset included; for the commitment of every
    output a range proof was verified, now or when it was cached, and no output or kernel claims a reward. *)
Theorem TransactionValidator_conserves transaction height cache cache' :
  cache_wf cache -> body_wf (tx_body transaction) -> length (tx_offset transaction) = 32%nat ->
  TransactionValidator_Validate Blake2b env transaction height cache = (Ok tt, cache') ->
  let body := tx_body transaction in
  exists i o k, csum (map ti_commitment (tb_inputs body)) = Some i /\ csum (map to_commitment (tb_outputs body)) = Some o /\
    csum (map tk_excessCommitment (tb_kernels body)) = Some k /\
    gadd o (value (fees (tb_kernels body))) = gadd i (gadd k (blind (tx_offset transaction))) /\
    Forall (fun o => proved (to_commitment o) /\ TransactionOutput_IsCoinbase o = false) (tb_outputs body) /\
    Forall (fun k => TransactionKernel_IsCoinbase k = false) (tb_kernels body) /\
    VerifySorted Blake2b body = Ok tt /\ BatchVerify Blake2b (tb_kernels body) = true /\ cache_wf cache'.
Proof.
  intros Hw Hb Hoff E body. subst body. set (body := tx_body transaction) in *. unfold TransactionValidator_Validate in E. fold body in E.
  destruct (ValidateWeight env body height) as [[]|]; [|done]. rewrite (st_lift_ok _ _ _ _ eq_refl) in E. unfold mbind, ST_bind in E.
  destruct (TxBodyValidator_Validate Blake2b body cache) as [[[]|] cache1] eqn:Et; [|done].
  destruct (TxBodyValidator_ok _ _ _ _ Hw Et) as (Hw1 & Hs & Hc & Hp & Hsig).
  destruct (ValidateFeatures body) as [[]|] eqn:Ef; [|done]. cbn in E. injection E as E <-.
  unfold ValidateFeatures in Ef. destruct (existsb TransactionOutput_IsCoinbase (tb_outputs body)) eqn:Eo; [done|]. apply require_ok, negb_true_iff in Ef.
  pose proof (bw_fees _ Hb) as Hfee. pose proof (bw_count _ Hb) as Hn. pose proof (fees_range _ Hfee) as Hr.
  unfold TransactionValidator_ValidateKernelSums, fee_overage in E. fold body in E. rewrite fee_overage_from in E by (done || lia).
  cbn [mbind result_bind] in E. destruct (ValidateKernelSums body _ _ None) as [sums|] eqn:Ek; [|done].
  apply (ValidateKernelSums_of_ok (G := G)) with (o0 := gzero) (k0 := gzero) in Ek as (i & o & k & o1 & k1 & Hi & Ho & Hk & _ & Hbal & -> & ->); try done; try apply Hb.
  rewrite !gadd_0_r in Hbal. exists i, o, k. do 3 (split; [done|]). split; [by rewrite Z.add_0_l in Hbal; rewrite <- Hbal; group|].
  split; [|split; [|done]].
  - rewrite Forall_forall in Hp |- *. intros x Hx. split; [by apply Hp|]. destruct (TransactionOutput_IsCoinbase x) eqn:Ex; [|done].
    rewrite <- Eo. symmetry. apply existsb_exists. exists x. split; [by apply list_elem_of_In|done].
  - rewrite Forall_forall. intros x Hx. destruct (TransactionKernel_IsCoinbase x) eqn:Ex; [|done].
    rewrite <- Ef. symmetry. apply existsb_exists. exists x. split; [by apply list_elem_of_In|done].
Qed.

(** Summing commitments in chunks gives what summing them at once gives. *)
Theorem AddCommitmentsChunked_equals pos neg ap an c :
  Forall is_commitment (pos ++ ap) -> Forall is_commitment (neg ++ an) ->
  AddCommitmentsChunked pos neg ap an = Ok c -> AddCommitments (pos ++ ap) (neg ++ an) = Ok c.
Proof. apply AddCommitmentsChunked_equals_ok. Qed.

(** A body without outputs that reaches the check of range proofs reads the first
    element of an empty vector; the body of a block gets there before its
    coinbase is looked at. *)
Theorem VerifySelfConsistent_no_outputs block cache :
  cbk_validated block = false -> tb_outputs (fb_body (cbk_block block)) = [] ->
  BlockValidator_VerifyWeight env (cbk_block block) = Ok tt -> VerifyKernelLockHeights (cbk_block block) = Ok tt ->
  VerifySorted Blake2b (fb_body (cbk_block block)) = Ok tt ->
  (VerifySelfConsistent Blake2b env block cache).1 = Throw UB.
Proof.
  intros Hv Ho Hw Hk Hs. unfold VerifySelfConsistent. rewrite Hv, Hw, Hk. rewrite !(st_lift_ok _ _ _ _ eq_refl).
  assert (VerifyCutThrough (fb_body (cbk_block block)) = Ok tt) as Hc.
  { unfold VerifyCutThrough. rewrite Ho. induction (tb_inputs (fb_body (cbk_block block))) as [|x l IH]; [done|]. cbn [existsb map] in *.
    rewrite bool_decide_false by apply not_elem_of_nil. exact IH. }
  unfold BlockValidator_VerifyBody, st_catch_as, TxBodyValidator_Validate, mbind, ST_bind, st_lift. by rewrite Hs, Hc, Ho.
Qed.

(** A range proof is not looked at when its commitment was verified before with
    any other: the outputs of a body pass with whatever proofs they carry. *)
Theorem VerifyRangeProofs_cached outputs cache :
  outputs <> [] -> Forall (fun o => is_commitment (to_commitment o) /\ cache_get (to_commitment o) cache = Some (to_commitment o)) outputs ->
  VerifyRangeProofs outputs cache = (Ok tt, cache).
Proof.
  intros Hne Hc. unfold VerifyRangeProofs, VerifyBulletproofs. destruct (map _ outputs) as [|front rest] eqn:Em; [by destruct outputs|].
  rewrite <- Em. unfold mbind, ST_bind, st_get. rewrite filter_none; [done|].
  apply (proj2 (Forall_map (fun o => (to_commitment o, to_rangeProof o)) (fun p => ~ WasAlreadyVerified p.1 cache = false) outputs)).
  eapply Forall_impl; [exact Hc|]. intros o [Hl Hg]. cbn [fst]. unfold WasAlreadyVerified.
  rewrite Hg, BigInteger_eq_spec, bool_decide_true by done. done.
Qed.
End properties.

(** ** Evaluation
    One input of 10, one output of 7 and a fee of 3. *)
Definition example_blind (b : Z) : bytes := be_bytes 32 b.
Definition valid_tx : Transaction :=
  mkTransaction (example_blind 1)
    (mkTransactionBody [mkTransactionInput 0 (toy_commit 10 (example_blind 1))]
       [mkTransactionOutput 0 (toy_commit 7 (example_blind 5)) (repeat 0 675)]
       [mkTransactionKernel 0 (mkFee 0 3) 0 (toy_commit 0 (example_blind 3)) (repeat 1 64)]).
Abbreviation EmptyCache := ([] : list (Commitment * Commitment)).

Lemma empty_cache_wf {P} {SP : Secp256k1 P} : cache_wf EmptyCache.
Proof. by intros c c' E. Qed.

Lemma TransactionValidator_conserves_witness :
  TransactionValidator_Validate byte_hash MAINNET valid_tx 1000000 EmptyCache =
    (Ok tt, [(toy_commit 7 (example_blind 5), toy_commit 7 (example_blind 5))]) /\
  let body := tx_body valid_tx in
  exists i o k : toy_group, csum (map ti_commitment (tb_inputs body)) = Some i /\ csum (map to_commitment (tb_outputs body)) = Some o /\
    csum (map tk_excessCommitment (tb_kernels body)) = Some k /\
    gadd o (value (fees (tb_kernels body))) = gadd i (gadd k (blind (tx_offset valid_tx))).
Proof.
  assert (TransactionValidator_Validate byte_hash MAINNET valid_tx 1000000 EmptyCache =
    (Ok tt, [(toy_commit 7 (example_blind 5), toy_commit 7 (example_blind 5))])) as E by (vm_compute; reflexivity).
  split; [exact E|].
  assert (body_wf (tx_body valid_tx)) as Hb by (constructor; repeat constructor; done).
  destruct (TransactionValidator_conserves (G := toy_group) byte_hash MAINNET valid_tx 1000000 EmptyCache _ empty_cache_wf Hb eq_refl E)
    as (i & o & k & Hi & Ho & Hk & Hbal & _).
  exists i, o, k. exact (conj Hi (conj Ho (conj Hk Hbal))).
Defined.

Lemma AddCommitmentsChunked_equals_witness :
  AddCommitments [toy_commit 7 (example_blind 5); toy_commit 1 (example_blind 2)] [toy_commit 3 (example_blind 1)] =
    Ok (toy_commit 5 (example_blind 6)).
Proof.
  apply (AddCommitmentsChunked_equals (G := toy_group) [toy_commit 7 (example_blind 5)] [toy_commit 3 (example_blind 1)] [toy_commit 1 (example_blind 2)] []);
    [repeat constructor..|vm_compute; reflexivity].
Defined.

(** A block without outputs, and one whose output was verified before. *)
Definition no_outputs_header : BlockHeader :=
  mkBlockHeader 5 1000000 0 (repeat 0 32) [] ZERO_HASH ZERO_HASH ZERO_HASH (repeat 0 32) 0 0 0 0 0 (mkProofOfWork 32 [] (repeat 9 32)).
Definition no_outputs_block : CheckedBlock := mkCheckedBlock (mkFullBlock no_outputs_header (mkTransactionBody [] [] (tb_kernels (tx_body valid_tx)))) false.

Lemma VerifySelfConsistent_no_outputs_witness : (VerifySelfConsistent byte_hash MAINNET no_outputs_block EmptyCache).1 = Throw UB.
Proof. apply VerifySelfConsistent_no_outputs; reflexivity. Defined.

Lemma VerifyRangeProofs_cached_witness :
  let c := toy_commit 7 (example_blind 5) in
  VerifyRangeProofs [mkTransactionOutput 0 c (repeat 255 675)] [(c, c)] = (Ok tt, [(c, c)]).
Proof. intros c. apply VerifyRangeProofs_cached; [done|]. constructor; [split; reflexivity|constructor]. Defined.
