(* ===== verification/Chain.v ===== *)
(** * Chains of block indices ([src/BlockChain/Chain.cpp], [ChainStore.cpp])

    A chain is the list of the block hashes by height, in memory and in a file of
    32-byte records with a committed copy.  The store has the confirmed chain,
    whose blocks were processed, and the candidate chain of validated headers.
    Indices are shared between chains by the allocator; being immutable, they are
    values here. *)
From S2P Require Import Prelude Serial BigInteger File MMRHash.

Record BlockIndex := mkBlockIndex { bi_hash : Hash; bi_height : Z }.
#[export] Instance BlockIndex_eq_dec : EqDecision BlockIndex.
Proof. solve_decision. Defined.

Record Chain {F : Type} := mkChain { ch_dataFile : F; ch_indices : list BlockIndex; ch_height : Z; ch_dirty : bool }.
Arguments Chain : clear implicits.
Arguments mkChain {F}.

Inductive EChainType := CONFIRMED | CANDIDATE.
Record ChainStore {F : Type} := mkChainStore { m_pConfirmedChain : Chain F; m_pCandidateChain : Chain F }.
Arguments ChainStore : clear implicits.
Arguments mkChainStore {F}.

Section chain.
Context {F : Type} {HF : HashFile F}.
Implicit Types (c : Chain F) (s : ChainStore F).

Definition ch_set_file (f : F) c : Chain F := mkChain f (ch_indices c) (ch_height c) (ch_dirty c).
Definition ch_set_indices (l : list BlockIndex) c : Chain F := mkChain (ch_dataFile c) l (ch_height c) (ch_dirty c).
Definition ch_set_height (h : Z) c : Chain F := mkChain (ch_dataFile c) (ch_indices c) h (ch_dirty c).
Definition ch_set_dirty (d : bool) c : Chain F := mkChain (ch_dataFile c) (ch_indices c) (ch_height c) d.
Definition on_file {A} (m : ST F A) : ST (Chain F) A := st_zoom ch_dataFile ch_set_file m.

(** ** [Chain] *)

(** The loops that read the indices after the first [length indices] from the
    file; [k] of them are missing. *)
Fixpoint read_indices (k : nat) (indices : list BlockIndex) (f : F) : result (list BlockIndex) :=
  match k with
  | O => Ok indices
  | S k =>
      hash ← hf_GetDataAt (length indices) f;
      read_indices k (indices ++ [mkBlockIndex hash (length indices)]) f
  end.

Definition Chain_Load (dataFile : F) (genesis : BlockIndex) : result (Chain F) :=
  let '(r, f) := (if hf_GetSize dataFile =? 0 then hf_Commit (hf_AddData (bi_hash genesis) dataFile) else (Ok tt, dataFile)) in
  _ ← r;
  indices ← read_indices (Z.to_nat (hf_GetSize f - 1)) [genesis] f;
  Ok (mkChain f indices (length indices - 1)%u64 false).

Definition GetByHeight (height : Z) c : option BlockIndex :=
  if (ch_height c >=? height) && (length (ch_indices c) >? height) then ch_indices c !! Z.to_nat height else None.

(** Subscripts, undefined out of range. *)
Definition Chain_GetHash (height : Z) c : result Hash := index ← of_option UB (ch_indices c !! Z.to_nat height); Ok (bi_hash index).
Definition GetTip c : result BlockIndex := of_option UB (ch_indices c !! Z.to_nat (ch_height c)).
Definition GetTipHash c : result Hash := Chain_GetHash (ch_height c) c.

Definition IsOnChain (height : Z) (hash : Hash) c : result bool :=
  if height <=? ch_height c then h ← Chain_GetHash height c; Ok (BigInteger_eq h hash) else Ok false.

Definition Chain_AddBlock (hash : Hash) (height : Z) : ST (Chain F) BlockIndex :=
  c ← st_get;
  if negb (height =? (ch_height c + 1)%u64) then st_throw BlockChainException
  else
    _ ← st_modify (ch_set_dirty true);
    let pBlockIndex := mkBlockIndex hash height in
    _ ← st_modify (fun c => ch_set_indices (ch_indices c ++ [pBlockIndex]) c);
    _ ← st_modify (fun c => ch_set_file (hf_AddData (bi_hash pBlockIndex) (ch_dataFile c)) c);
    _ ← st_modify (fun c => ch_set_height (ch_height c + 1)%u64 c);
    mret pBlockIndex.

Definition Chain_Rewind (lastHeight : Z) : ST (Chain F) unit :=
  c ← st_get;
  if ch_height c <? lastHeight then st_throw BlockChainException
  else if ch_height c >? lastHeight then
    _ ← st_modify (ch_set_dirty true);
    _ ← st_modify (fun c => ch_set_indices (take (Z.to_nat (lastHeight + 1)) (ch_indices c)) c);
    _ ← on_file (hf_Rewind (lastHeight + 1)%u64);
    st_modify (ch_set_height lastHeight)
  else mret tt.

Definition Chain_Commit : ST (Chain F) unit :=
  c ← st_get;
  _ ← (if ch_dirty c then on_file hf_Commit else mret tt);
  st_modify (ch_set_dirty false).

(** [noexcept]: an exception here ends the process. *)
Definition Chain_Rollback c : result (Chain F) :=
  if ch_dirty c then
    let f := hf_Rollback (ch_dataFile c) in
    indices ← read_indices (Z.to_nat (hf_GetSize f)) [] f;
    Ok (mkChain f indices (length indices - 1)%u64 false)
  else Ok (ch_set_dirty false c).

Definition Chain_OnInitWrite c : Chain F := ch_set_dirty false c.

(** ** [ChainStore] *)
Definition GetChain (t : EChainType) s : Chain F := match t with CONFIRMED => m_pConfirmedChain s | CANDIDATE => m_pCandidateChain s end.
Definition SetChain (t : EChainType) (c : Chain F) s : ChainStore F :=
  match t with CONFIRMED => mkChainStore c (m_pCandidateChain s) | CANDIDATE => mkChainStore (m_pConfirmedChain s) c end.
Definition on_chain {A} (t : EChainType) (m : ST (Chain F) A) : ST (ChainStore F) A := st_zoom (GetChain t) (SetChain t) m.

Definition ChainStore_Load (confirmed candidate : F) (genesis : BlockIndex) : result (ChainStore F) :=
  c ← Chain_Load confirmed genesis;
  d ← Chain_Load candidate genesis;
  Ok (mkChainStore c d).

Definition ChainStore_Commit : ST (ChainStore F) unit :=
  _ ← on_chain CANDIDATE Chain_Commit;
  on_chain CONFIRMED Chain_Commit.
Definition ChainStore_Rollback s : result (ChainStore F) :=
  d ← Chain_Rollback (m_pCandidateChain s);
  c ← Chain_Rollback (m_pConfirmedChain s);
  Ok (mkChainStore c d).
Definition ChainStore_OnInitWrite s : ChainStore F :=
  mkChainStore (Chain_OnInitWrite (m_pConfirmedChain s)) (Chain_OnInitWrite (m_pCandidateChain s)).

(** Down from the lower of the heights until the hashes agree; both pointers are
    dereferenced.  The height bounds the steps. *)
Fixpoint common_index (fuel : nat) (height : Z) (c1 c2 : Chain F) : result BlockIndex :=
  match fuel with
  | O => Throw OutOfFuel
  | S fuel =>
      match GetByHeight height c1, GetByHeight height c2 with
      | Some i1, Some i2 =>
          if BigInteger_neq (bi_hash i1) (bi_hash i2) then common_index fuel (height - 1)%u64 c1 c2 else Ok i1
      | _, _ => Throw UB
      end
  end.

Definition FindCommonIndex (t1 t2 : EChainType) s : result BlockIndex :=
  let height := Z.min (ch_height (GetChain t1 s)) (ch_height (GetChain t2 s)) in
  common_index (S (S (Z.to_nat height))) height (GetChain t1 s) (GetChain t2 s).

(** The blocks of heights [i], [i + 1], ... of the source; [k] of them. *)
Fixpoint copy_blocks (k : nat) (i : Z) (source destination : EChainType) : ST (ChainStore F) unit :=
  match k with
  | O => mret tt
  | S k =>
      s ← st_get;
      hash ← st_lift (Chain_GetHash i (GetChain source s));
      _ ← on_chain destination (Chain_AddBlock hash i);
      copy_blocks k (i + 1)%u64 source destination
  end.

Definition ReorgChain_to (source destination : EChainType) (height : Z) : ST (ChainStore F) unit :=
  s ← st_get;
  if ch_height (GetChain source s) <? height then st_throw BlockChainException
  else
    pBlockIndex ← st_lift (FindCommonIndex source destination s);
    let commonHeight := Z.min (bi_height pBlockIndex) height in
    _ ← on_chain destination (Chain_Rewind commonHeight);
    copy_blocks (Z.to_nat (height - commonHeight)) (commonHeight + 1)%u64 source destination.

Definition ReorgChain (source destination : EChainType) : ST (ChainStore F) unit :=
  s ← st_get;
  ReorgChain_to source destination (ch_height (GetChain source s)).

Definition ChainStore_AddBlock (source destination : EChainType) (height : Z) : ST (ChainStore F) unit :=
  s ← st_get;
  tip ← st_lift (GetTip (GetChain destination s));
  if (bi_height tip + 1)%u64 =? height then
    tip ← st_lift (GetTip (GetChain source s));
    if bi_height tip >=? height then
      hash ← st_lift (Chain_GetHash height (GetChain source s));
      _ ← on_chain destination (Chain_AddBlock hash height);
      mret tt
    else st_throw BlockChainException
  else st_throw BlockChainException.
End chain.

(** ** A chain as a list of hashes, with a committed copy *)
Definition indices_of (hs : list Hash) : list BlockIndex := imap (fun i h => mkBlockIndex h i) hs.

Lemma indices_of_snoc hs h : indices_of (hs ++ [h]) = indices_of hs ++ [mkBlockIndex h (length hs)].
Proof. unfold indices_of. rewrite imap_app. cbn. by rewrite Nat.add_0_r. Qed.
Lemma indices_of_lookup hs (i : nat) : indices_of hs !! i = (fun h => mkBlockIndex h i) <$> hs !! i.
Proof. unfold indices_of. by rewrite list_lookup_imap. Qed.
Lemma indices_of_take hs n : indices_of (take n hs) = take n (indices_of hs).
Proof.
  apply list_eq. intros i. rewrite indices_of_lookup. destruct (decide (i < n)%nat).
  - by rewrite !lookup_take_lt, indices_of_lookup.
  - by rewrite !lookup_take_ge by lia.
Qed.
Lemma length_indices_of hs : length (indices_of hs) = length hs.
Proof. unfold indices_of. by rewrite length_imap. Qed.

Section rel.
Context {F : Type} {HF : HashFile F} {HFL : HashFileLaws F}.
Implicit Types (c : Chain F) (s : ChainStore F) (hs cs : list Hash).

Record chain_rel hs cs c : Prop := {
  cr_file : hf_repr hs cs (ch_dataFile c);
  cr_indices : ch_indices c = indices_of hs;
  cr_height : ch_height c = length hs - 1;
  cr_nonempty : hs <> [] /\ cs <> [];
  cr_dirty : ch_dirty c = false -> hs = cs;
  cr_hashes : Forall (fun h => length h = 32%nat) hs /\ Forall (fun h => length h = 32%nat) cs;
  cr_committed : length cs < 2 ^ 58;
}.

Lemma chain_rel_length hs cs c : chain_rel hs cs c -> 0 < length hs < 2 ^ 58.
Proof. intros Hc. pose proof (hf_repr_small _ _ _ (cr_file _ _ _ Hc)). destruct (cr_nonempty _ _ _ Hc) as [Hn _]. destruct hs; [done|]. cbn [length] in *. lia. Qed.

Lemma GetByHeight_ok hs cs c h : chain_rel hs cs c -> 0 <= h -> GetByHeight h c = (fun x => mkBlockIndex x h) <$> hs !! Z.to_nat h.
Proof.
  intros Hc Hh. unfold GetByHeight. rewrite (cr_indices _ _ _ Hc), (cr_height _ _ _ Hc), length_indices_of, Z.geb_leb, Z.gtb_ltb, indices_of_lookup.
  destruct (Z.leb_spec h (length hs - 1)), (Z.ltb_spec h (length hs)); cbn [andb]; try lia.
  - rewrite Z2Nat.id by done. done.
  - by rewrite lookup_ge_None_2 by lia.
Qed.

Lemma Chain_GetHash_ok hs cs c h : chain_rel hs cs c -> 0 <= h -> Chain_GetHash h c = of_option UB (hs !! Z.to_nat h).
Proof.
  intros Hc Hh. unfold Chain_GetHash. rewrite (cr_indices _ _ _ Hc), indices_of_lookup. by destruct (hs !! Z.to_nat h).
Qed.

Lemma GetTipHash_ok hs cs c : chain_rel hs cs c -> exists h, last hs = Some h /\ GetTipHash c = Ok h.
Proof.
  intros Hc. pose proof (chain_rel_length _ _ _ Hc). unfold GetTipHash. rewrite (Chain_GetHash_ok hs cs), (cr_height _ _ _ Hc) by (done || rewrite (cr_height _ _ _ Hc); lia).
  destruct (last_is_Some hs) as [_ [h Hl]]; [by apply Hc|]. exists h. split; [done|].
  rewrite last_lookup in Hl. replace (Z.to_nat (length hs - 1)) with (pred (length hs)) by lia. by rewrite Hl.
Qed.

Lemma GetTip_ok hs cs c : chain_rel hs cs c -> exists h, last hs = Some h /\ GetTip c = Ok (mkBlockIndex h (length hs - 1)).
Proof.
  intros Hc. pose proof (chain_rel_length _ _ _ Hc). unfold GetTip. rewrite (cr_indices _ _ _ Hc), (cr_height _ _ _ Hc), indices_of_lookup.
  destruct (last_is_Some hs) as [_ [h Hl]]; [by apply Hc|]. exists h. split; [done|].
  rewrite last_lookup in Hl. replace (Z.to_nat (length hs - 1)) with (pred (length hs)) by lia. rewrite Hl. cbn. do 2 f_equal. lia.
Qed.

Lemma IsOnChain_ok hs cs c h x :
  chain_rel hs cs c -> 0 <= h -> length x = 32%nat -> IsOnChain h x c = Ok (bool_decide (hs !! Z.to_nat h = Some x)).
Proof.
  intros Hc Hh Hx. unfold IsOnChain. rewrite (Chain_GetHash_ok hs cs) by done. rewrite (cr_height _ _ _ Hc). destruct (Z.leb_spec h (length hs - 1)).
  - destruct (hs !! Z.to_nat h) as [y|] eqn:E; [|apply lookup_ge_None in E; lia]. cbn.
    destruct (cr_hashes _ _ _ Hc) as [Hl _]. rewrite Forall_lookup in Hl. rewrite BigInteger_eq_spec by (by rewrite Hx, (Hl _ _ E)).
    do 2 f_equal. apply bool_decide_ext. split; [by intros ->|by intros [= ->]].
  - rewrite lookup_ge_None_2 by lia. by rewrite bool_decide_false.
Qed.

Lemma Chain_AddBlock_ok hs cs c x h :
  chain_rel hs cs c -> length x = 32%nat -> hf_room hs cs -> 0 <= h ->
  if h =? length hs then exists c', Chain_AddBlock x h c = (Ok (mkBlockIndex x h), c') /\ chain_rel (hs ++ [x]) cs c'
  else Chain_AddBlock x h c = (Throw BlockChainException, c).
Proof.
  intros Hc Hx Hroom Hh. pose proof (chain_rel_length _ _ _ Hc). unfold Chain_AddBlock. erewrite st_bind_ok by reflexivity.
  rewrite (cr_height _ _ _ Hc). replace (uint 64 (length hs - 1 + 1)) with (length hs : Z) by (rewrite uint_small by (unfold is_uint; lia); lia).
  destruct (Z.eqb_spec h (length hs)) as [->|]; cbn [negb]; [|done].
  eexists. split; [reflexivity|]. destruct Hc as [Hf Hi Hht Hn Hd [Hl Hlc] Hsm]. destruct c as [f i ht d]. cbn in Hf, Hi, Hht, Hd. subst i ht.
  constructor; cbn [ch_dataFile ch_indices ch_height ch_dirty ch_set_file ch_set_indices ch_set_dirty ch_set_height bi_hash]; [by apply hf_add_ok|by rewrite indices_of_snoc| | |done| |done].
  - rewrite length_app. cbn [length]. rewrite uint_small by (unfold is_uint; lia). lia.
  - split; [by destruct hs|by apply Hn].
  - by rewrite Forall_app, Forall_singleton.
Qed.

Lemma Chain_Rewind_ok hs cs c h :
  chain_rel hs cs c -> 0 <= h ->
  if h <? length hs then exists c', Chain_Rewind h c = (Ok tt, c') /\ chain_rel (take (Z.to_nat (h + 1)) hs) cs c'
  else Chain_Rewind h c = (Throw BlockChainException, c).
Proof.
  intros Hc Hh. pose proof (chain_rel_length _ _ _ Hc). unfold Chain_Rewind. erewrite st_bind_ok by reflexivity.
  rewrite (cr_height _ _ _ Hc), Z.gtb_ltb. destruct (Z.ltb_spec h (length hs)), (Z.ltb_spec (length hs - 1) h); try lia; [|done].
  destruct (Z.ltb_spec h (length hs - 1)).
  - pose proof (hf_rewind_ok _ _ _ (h + 1) (cr_file _ _ _ Hc) ltac:(lia)) as Hr.
    erewrite !st_bind_ok by reflexivity. unfold on_file. cbn [ch_set_dirty ch_set_indices ch_dataFile ch_indices ch_height].
    rewrite (uint_small 64 (h + 1)) by (unfold is_uint; lia). destruct (hf_Rewind (h + 1) (ch_dataFile c)) as [r f] eqn:Er.
    destruct (Z.leb_spec (h + 1) (length hs)); [|lia]. destruct Hr as [-> Hf].
    erewrite st_bind_ok by (apply st_zoom_run; exact Er). eexists. split; [reflexivity|].
    destruct Hc as [Hf0 Hi Hht Hn Hd [Hl Hlc] Hsm]. constructor; cbn.
    + done.
    + by rewrite Hi, indices_of_take.
    + rewrite length_take. lia.
    + split; [|by apply Hn]. intros E. apply (f_equal length) in E. rewrite length_take in E. cbn in E. lia.
    + done.
    + split; [by apply Forall_take|done].
    + done.
  - exists c. split; [done|]. rewrite take_ge by lia. done.
Qed.

Lemma Chain_Commit_ok hs cs c : chain_rel hs cs c -> exists c', Chain_Commit c = (Ok tt, c') /\ chain_rel hs hs c' /\ ch_dirty c' = false.
Proof.
  intros Hc. pose proof (chain_rel_length _ _ _ Hc). unfold Chain_Commit. erewrite st_bind_ok by reflexivity. destruct (ch_dirty c) eqn:Ed.
  - destruct (hf_commit_ok _ _ _ (cr_file _ _ _ Hc)) as (f & Ef & Hf). erewrite st_bind_ok by (apply st_zoom_run; exact Ef).
    eexists. split; [reflexivity|]. split; [|done]. destruct Hc as [Hf0 Hi Hht [Hn _] Hd [Hl Hlc] Hsm]. by constructor; cbn; try lia.
  - erewrite st_bind_ok by reflexivity. eexists. split; [reflexivity|]. split; [|done].
    pose proof (cr_dirty _ _ _ Hc Ed) as <-. destruct Hc as [Hf0 Hi Hht Hn Hd [Hl Hlc] Hsm]. by constructor.
Qed.

Lemma read_indices_ok hs cs (f : F) : hf_repr hs cs f -> forall k (n : nat), (n + k)%nat = length hs ->
  read_indices k (indices_of (take n hs)) f = Ok (indices_of hs).
Proof.
  intros Hf k. induction k as [|k IH]; intros n Hn; cbn [read_indices]; [by rewrite take_ge by lia|].
  assert (length (indices_of (take n hs)) = n) as El by (rewrite length_indices_of, length_take; lia). rewrite El.
  pose proof (hf_repr_small _ _ _ Hf). rewrite (hf_get_ok _ _ _ _ Hf) by lia. rewrite Nat2Z.id.
  destruct (hs !! n) as [x|] eqn:Ex; [|apply lookup_ge_None in Ex; lia]. cbn [mbind result_bind of_option].
  rewrite <- (IH (S n)) by lia. f_equal. rewrite (take_S_r _ _ _ Ex), indices_of_snoc, length_take. f_equal. repeat f_equal. lia.
Qed.

Lemma Chain_Rollback_ok hs cs c : chain_rel hs cs c -> exists c', Chain_Rollback c = Ok c' /\ chain_rel cs cs c' /\ ch_dirty c' = false.
Proof.
  intros Hc. unfold Chain_Rollback. destruct (ch_dirty c) eqn:Ed.
  - pose proof (hf_rollback_ok _ _ _ (cr_file _ _ _ Hc)) as Hf. rewrite (hf_size_ok _ _ _ Hf), Nat2Z.id.
    pose proof (read_indices_ok _ _ _ Hf (length cs) 0%nat eq_refl) as E. change (indices_of (take 0 cs)) with (@nil BlockIndex) in E. rewrite E. cbn [mbind result_bind]. eexists. split; [reflexivity|]. split; [|done].
    destruct Hc as [Hf0 Hi Hht [Hn Hnc] Hd [Hl Hlc] Hsm]. constructor; cbn; try done. rewrite length_indices_of.
    rewrite uint_small; [done|]. unfold is_uint. destruct cs; [done|]. cbn [length] in *. lia.
  - eexists. split; [reflexivity|]. split; [|done]. pose proof (cr_dirty _ _ _ Hc Ed) as <-.
    destruct Hc as [Hf0 Hi Hht Hn Hd [Hl Hlc] Hsm]. by constructor.
Qed.

(** Opening the file of a committed chain gives the chain back; an empty file
    gets the genesis block. *)
Lemma Chain_Load_ok hs f g :
  hf_repr hs hs f -> Forall (fun h => length h = 32%nat) hs -> length (bi_hash g) = 32%nat -> bi_height g = 0 -> (hs = [] \/ head hs = Some (bi_hash g)) ->
  let hs' := match hs with [] => [bi_hash g] | _ => hs end in
  exists c, Chain_Load f g = Ok c /\ chain_rel hs' hs' c.
Proof.
  intros Hf Hl Hg Hh Hhd hs'. unfold Chain_Load. rewrite (hf_size_ok _ _ _ Hf).
  assert (exists f', (if length hs =? 0 then hf_Commit (hf_AddData (bi_hash g) f) else (Ok tt, f)) = (Ok tt, f') /\ hf_repr hs' hs' f') as (f' & -> & Hf').
  { destruct hs as [|h hs]; [|by exists f]. cbn [length Z.of_nat Z.eqb]. apply (hf_commit_ok _ []). by apply (hf_add_ok [] []). }
  assert (indices_of (take 1 hs') = [g]) as Eg.
  { destruct g as [gh gn]. cbn in Hh, Hg. subst gn. destruct hs as [|h hs]; [done|]. destruct Hhd as [|[= ->]]; done. }
  assert (0 < length hs') as Hpos by (destruct hs; cbn; lia). pose proof (hf_repr_small _ _ _ Hf').
  rewrite (hf_size_ok _ _ _ Hf'). cbn [mbind result_bind]. rewrite <- Eg, (read_indices_ok _ _ _ Hf') by lia. eexists. split; [reflexivity|].
  assert (Forall (fun h => length h = 32%nat) hs') by (destruct hs; [by constructor|done]).
  constructor; cbn; [done|done| |by destruct hs|done|done|done]. rewrite length_indices_of, uint_small by (unfold is_uint; lia). lia.
Qed.

Lemma Chain_OnInitWrite_ok cs c : chain_rel cs cs c -> chain_rel cs cs (Chain_OnInitWrite c).
Proof. intros [Hf Hi Hht Hn Hd Hl Hsm]. by constructor. Qed.

(** ** The store *)
Definition store_rel (confirmed cconfirmed candidate ccandidate : list Hash) s : Prop :=
  chain_rel confirmed cconfirmed (m_pConfirmedChain s) /\ chain_rel candidate ccandidate (m_pCandidateChain s).

Lemma ChainStore_Commit_ok a ca b cb s : store_rel a ca b cb s ->
  exists s', ChainStore_Commit s = (Ok tt, s') /\ store_rel a a b b s'.
Proof.
  intros [Ha Hb]. unfold ChainStore_Commit. destruct (Chain_Commit_ok _ _ _ Hb) as (d & Ed & Hd & _).
  erewrite st_bind_ok by (apply st_zoom_run; exact Ed). destruct (Chain_Commit_ok _ _ _ Ha) as (c & Ec & Hc & _).
  exists (mkChainStore c d). split; [exact (st_zoom_run (GetChain CONFIRMED) (SetChain CONFIRMED) _ (SetChain CANDIDATE d s) _ c Ec)|done].
Qed.

Lemma ChainStore_Rollback_ok a ca b cb s : store_rel a ca b cb s ->
  exists s', ChainStore_Rollback s = Ok s' /\ store_rel ca ca cb cb s'.
Proof.
  intros [Ha Hb]. unfold ChainStore_Rollback. destruct (Chain_Rollback_ok _ _ _ Hb) as (d & -> & Hd & _).
  destruct (Chain_Rollback_ok _ _ _ Ha) as (c & -> & Hc & _). by exists (mkChainStore c d).
Qed.

Lemma ChainStore_OnInitWrite_ok a b s : store_rel a a b b s -> store_rel a a b b (ChainStore_OnInitWrite s).
Proof. intros [Ha Hb]. split; by apply Chain_OnInitWrite_ok. Qed.

(** ** Reorganising one chain after the other *)
Lemma GetChain_SetChain t c s : GetChain t (SetChain t c s) = c.
Proof. by destruct t. Qed.
Lemma GetChain_SetChain_other t t' c s : t <> t' -> GetChain t (SetChain t' c s) = GetChain t s.
Proof. by destruct t, t'. Qed.

Lemma common_index_ok a ca b cb c1 c2 : chain_rel a ca c1 -> chain_rel b cb c2 -> a !! 0%nat = b !! 0%nat ->
  forall fuel h, (Z.to_nat h < fuel)%nat -> 0 <= h < length a -> h < length b ->
  exists x (j : nat), common_index fuel h c1 c2 = Ok (mkBlockIndex x j) /\ j <= h /\ a !! j = Some x /\ b !! j = Some x /\
    forall k : nat, j < k <= h -> a !! k <> b !! k.
Proof.
  intros H1 H2 H0 fuel. induction fuel as [|fuel IH]; intros h Hfuel Hh Hb; [lia|]. cbn [common_index].
  rewrite (GetByHeight_ok _ _ _ _ H1), (GetByHeight_ok _ _ _ _ H2) by lia.
  destruct (a !! Z.to_nat h) as [x|] eqn:Ex; [|apply lookup_ge_None in Ex; lia].
  destruct (b !! Z.to_nat h) as [y|] eqn:Ey; [|apply lookup_ge_None in Ey; lia]. cbn [fmap option_fmap option_map bi_hash].
  destruct (cr_hashes _ _ _ H1) as [L1 _], (cr_hashes _ _ _ H2) as [L2 _]. rewrite Forall_lookup in L1, L2.
  unfold BigInteger_neq. rewrite BigInteger_eq_spec by (by rewrite (L1 _ _ Ex), (L2 _ _ Ey)). case_bool_decide as E; cbn [negb].
  - subst y. exists x, (Z.to_nat h). rewrite Z2Nat.id by lia. split; [done|]. split; [lia|]. split; [done|]. split; [done|]. lia.
  - assert (h <> 0) by (intros ->; change (Z.to_nat 0) with 0%nat in *; congruence).
    pose proof (chain_rel_length _ _ _ H1). rewrite uint_small by (unfold is_uint; lia).
    destruct (IH (h - 1)) as (z & j & E1 & Hj & Hza & Hzb & Hk); [lia..|]. exists z, j. split; [done|]. split; [lia|]. do 2 (split; [done|]).
    intros k Hk'. destruct (decide (k = Z.to_nat h)) as [->|]; [congruence|]. apply Hk. lia.
Qed.

Lemma copy_blocks_ok src dst a ca cb : src <> dst -> forall k (n : nat) s,
  chain_rel a ca (GetChain src s) -> chain_rel (take n a) cb (GetChain dst s) -> (n + k <= length a)%nat -> hf_room a cb ->
  exists s', copy_blocks k n src dst s = (Ok tt, s') /\ GetChain src s' = GetChain src s /\ chain_rel (take (n + k) a) cb (GetChain dst s').
Proof.
  intros Hne k. induction k as [|k IH]; intros n s Ha Hd Hn Hroom.
  - exists s. rewrite Nat.add_0_r. done.
  - cbn [copy_blocks]. erewrite st_bind_ok by reflexivity. rewrite (Chain_GetHash_ok _ _ _ _ Ha) by lia. rewrite Nat2Z.id.
    destruct (a !! n) as [x|] eqn:Ex; [|apply lookup_ge_None in Ex; lia]. cbn [of_option]. rewrite (st_lift_ok _ _ _ _ eq_refl).
    assert (length x = 32%nat) as Hx by (destruct (cr_hashes _ _ _ Ha) as [L _]; rewrite Forall_lookup in L; by apply (L n)).
    pose proof (Chain_AddBlock_ok _ _ _ x n Hd Hx) as Hadd. pose proof (chain_rel_length _ _ _ Ha) as Hlen.
    unfold hf_room in *. rewrite length_take in Hadd. specialize (Hadd ltac:(lia) ltac:(lia)). rewrite (proj2 (Z.eqb_eq _ _)) in Hadd by lia.
    destruct Hadd as (d & Ed & Hd1). unfold on_chain. erewrite st_bind_ok by (apply st_zoom_run; exact Ed).
    replace (uint 64 (n + 1)) with (S n : Z) by (rewrite uint_small by (unfold is_uint; lia); lia).
    destruct (IH (S n) (SetChain dst d s)) as (s' & E' & Hs & Hd').
    + by rewrite GetChain_SetChain_other.
    + rewrite GetChain_SetChain. by rewrite (take_S_r _ _ _ Ex).
    + lia.
    + done.
    + exists s'. split; [done|]. rewrite Hs, GetChain_SetChain_other by done. split; [done|]. by replace (n + S k)%nat with (S n + k)%nat by lia.
Qed.

Lemma ReorgChain_to_ok src dst a ca b cb h s :
  src <> dst -> chain_rel a ca (GetChain src s) -> chain_rel b cb (GetChain dst s) -> a !! 0%nat = b !! 0%nat ->
  (forall i, a !! i = b !! i -> take i a = take i b) -> 0 <= h -> hf_room a cb ->
  if h <? length a then exists s', ReorgChain_to src dst h s = (Ok tt, s') /\ GetChain src s' = GetChain src s /\
    chain_rel (take (Z.to_nat (h + 1)) a) cb (GetChain dst s')
  else ReorgChain_to src dst h s = (Throw BlockChainException, s).
Proof.
  intros Hne Ha Hb H0 Hlink Hh Hroom. pose proof (chain_rel_length _ _ _ Ha) as Hla. pose proof (chain_rel_length _ _ _ Hb) as Hlb.
  unfold ReorgChain_to. erewrite st_bind_ok by reflexivity. rewrite (cr_height _ _ _ Ha).
  destruct (Z.ltb_spec h (length a)), (Z.ltb_spec (length a - 1) h); try lia; [|done].
  unfold FindCommonIndex. rewrite (cr_height _ _ _ Ha), (cr_height _ _ _ Hb). set (m := Z.min (length a - 1) (length b - 1)).
  destruct (common_index_ok _ _ _ _ _ _ Ha Hb H0 (S (S (Z.to_nat m))) m) as (x & j & -> & Hj & Hxa & Hxb & _); [lia..|].
  rewrite (st_lift_ok _ _ _ _ eq_refl). cbn [bi_height]. set (common := Z.min j h).
  pose proof (Chain_Rewind_ok _ _ _ common Hb ltac:(lia)) as Hrw. rewrite (proj2 (Z.ltb_lt _ _)) in Hrw by lia. destruct Hrw as (d & Ed & Hd).
  unfold on_chain. erewrite st_bind_ok by (apply st_zoom_run; exact Ed).
  assert (take (S j) a = take (S j) b) as Eab by (rewrite (take_S_r _ _ _ Hxa), (take_S_r _ _ _ Hxb); f_equal; apply Hlink; congruence).
  assert (take (Z.to_nat (common + 1)) b = take (Z.to_nat (common + 1)) a) as Ec.
  { replace (Z.to_nat (common + 1)) with (min (Z.to_nat (common + 1)) (S j)) by lia. by rewrite <- !take_take, Eab. }
  rewrite Ec in Hd. rewrite uint_small by (unfold is_uint; lia).
  destruct (copy_blocks_ok src dst a ca cb Hne (Z.to_nat (h - common)) (Z.to_nat (common + 1)) (SetChain dst d s)) as (s' & E' & Hs & Hd').
  - by rewrite GetChain_SetChain_other.
  - by rewrite GetChain_SetChain.
  - lia.
  - done.
  - rewrite Z2Nat.id in E' by lia. exists s'. split; [done|]. rewrite Hs, GetChain_SetChain_other by done. split; [done|].
    by replace (Z.to_nat (h + 1)) with (Z.to_nat (common + 1) + Z.to_nat (h - common))%nat by lia.
Qed.
End rel.
