(* ===== verification/OrphanPool.v ===== *)
(** * Orphans ([src/BlockChain/OrphanPool])

    Blocks whose header or parent is missing, by height, and the headers of
    orphans in a cache of limited size. *)
From S2P Require Import Prelude Serial BigInteger MMRHash Crypto Header Block Validation.

Record OrphanPool {C : Type} := mkOrphanPool {
  m_orphansByHeight : gmap Z (list CheckedBlock);
  m_orphanHeadersByHash : C;
}.
Arguments OrphanPool : clear implicits.
Arguments mkOrphanPool {C}.

Section orphans.
Context {C : Type} {HC : LRUCache Hash BlockHeader C}.
Implicit Types (p : OrphanPool C).

Definition orphan_hash (b : CheckedBlock) : Hash := FullBlock_GetHash (cbk_block b).
Definition orphan_height (b : CheckedBlock) : Z := FullBlock_GetHeight (cbk_block b).
Definition has_hash (hash : Hash) (b : CheckedBlock) : bool := BigInteger_eq (orphan_hash b) hash.

(** The orphans of a height; an absent list is empty. *)
Definition orphans_at (height : Z) p : list CheckedBlock := default [] (m_orphansByHeight p !! height).

Definition IsOrphan (height : Z) (hash : Hash) p : bool := existsb (has_hash hash) (orphans_at height p).

Definition GetOrphanHeader (hash : Hash) p : option BlockHeader := cache_get hash (m_orphanHeadersByHash p).
Definition AddOrphanHeader (header : BlockHeader) p : OrphanPool C :=
  mkOrphanPool (m_orphansByHeight p) (cache_put (BlockHeader_GetHash header) header (m_orphanHeadersByHash p)).

Definition AddOrphanBlock (block : CheckedBlock) p : OrphanPool C :=
  let p := match GetOrphanHeader (orphan_hash block) p with
    | Some _ => p
    | None => mkOrphanPool (m_orphansByHeight p) (cache_put (orphan_hash block) (fb_header (cbk_block block)) (m_orphanHeadersByHash p))
    end in
  match m_orphansByHeight p !! orphan_height block with
  | Some orphans =>
      if existsb (has_hash (orphan_hash block)) orphans then p
      else mkOrphanPool (<[orphan_height block := orphans ++ [block]]> (m_orphansByHeight p)) (m_orphanHeadersByHash p)
  | None => mkOrphanPool (<[orphan_height block := [block]]> (m_orphansByHeight p)) (m_orphanHeadersByHash p)
  end.

Definition GetOrphanBlock (height : Z) (hash : Hash) p : option CheckedBlock := List.find (has_hash hash) (orphans_at height p).
Definition GetNextOrphanBlock (height : Z) (previousHash : Hash) p : option CheckedBlock :=
  List.find (fun b => BigInteger_eq (FullBlock_GetPreviousHash (cbk_block b)) previousHash) (orphans_at height p).

(** The first orphan with the hash is erased. *)
Fixpoint erase_first {A} (f : A -> bool) (l : list A) : list A :=
  match l with [] => [] | x :: l => if f x then l else x :: erase_first f l end.

Definition RemoveOrphan (height : Z) (hash : Hash) p : OrphanPool C :=
  match m_orphansByHeight p !! height with
  | None => p
  | Some orphans =>
      let orphans := erase_first (has_hash hash) orphans in
      mkOrphanPool (match orphans with [] => delete height (m_orphansByHeight p) | _ => <[height := orphans]> (m_orphansByHeight p) end)
        (m_orphanHeadersByHash p)
  end.

(** ** What every orphan has *)
Definition orphans_all (Q : CheckedBlock -> Prop) p : Prop := forall height, Forall Q (orphans_at height p).

Lemma GetOrphanBlock_Some height hash p b :
  GetOrphanBlock height hash p = Some b -> b ∈ orphans_at height p /\ has_hash hash b = true.
Proof. intros E. apply find_some in E as [Hb Hh]. split; [by apply list_elem_of_In|done]. Qed.

Lemma orphans_at_insert h h' l p c :
  orphans_at h' (mkOrphanPool (<[h := l]> (m_orphansByHeight p)) c) = if decide (h' = h) then l else orphans_at h' p.
Proof.
  unfold orphans_at. cbn. case_decide as E; [subst; by rewrite lookup_insert_eq|by rewrite lookup_insert_ne].
Qed.

Lemma AddOrphanBlock_all Q b p : orphans_all Q p -> Q b -> orphans_all Q (AddOrphanBlock b p).
Proof.
  intros Hp Hb. unfold AddOrphanBlock. set (p' := match GetOrphanHeader _ p with Some _ => _ | None => _ end).
  assert (orphans_all Q p') as Hp' by (by unfold p'; destruct (GetOrphanHeader _ p)). clearbody p'.
  destruct (m_orphansByHeight p' !! orphan_height b) as [l|] eqn:E.
  - destruct (existsb _ l); [done|]. intros h. rewrite orphans_at_insert. case_decide; [|apply Hp'].
    apply Forall_app. split; [|by constructor]. specialize (Hp' (orphan_height b)). unfold orphans_at in Hp'. by rewrite E in Hp'.
  - intros h. rewrite orphans_at_insert. case_decide; [by constructor|apply Hp'].
Qed.

Lemma erase_first_incl {A} (f : A -> bool) l x : x ∈ erase_first f l -> x ∈ l.
Proof.
  induction l as [|a l IH]; cbn; [done|]. destruct (f a); [by right|]. intros [->|H]%elem_of_cons; [by left|right; by apply IH].
Qed.

Lemma RemoveOrphan_all Q height hash p : orphans_all Q p -> orphans_all Q (RemoveOrphan height hash p).
Proof.
  intros Hp. unfold RemoveOrphan. destruct (m_orphansByHeight p !! height) as [l|] eqn:E; [|done].
  assert (Forall Q (erase_first (has_hash hash) l)) as Hl.
  { specialize (Hp height). unfold orphans_at in Hp. rewrite E in Hp. rewrite Forall_forall in Hp |- *. intros x Hx. by eapply Hp, erase_first_incl. }
  intros h. destruct (erase_first _ l) as [|x l'].
  - unfold orphans_at. cbn. destruct (decide (h = height)) as [->|]; [by rewrite lookup_delete_eq|]. rewrite lookup_delete_ne by done. apply Hp.
  - rewrite orphans_at_insert. case_decide; [done|apply Hp].
Qed.
End orphans.
