(* ===== verification/HeaderMMR.v ===== *)
(** * The MMR of headers ([src/PMMR/HeaderMMRImpl.cpp])

    A leaf is the packed cycle of a header; the header of height [h] is leaf [h].
    The MMR follows the candidate chain. *)
From S2P Require Import Prelude BitUtil MMRIndex MMRUtil Serial BigInteger File Roaring PruneList MMRHash Header.

Record HeaderMMR {F : Type} := mkHeaderMMR { hm_hashFile : F; hm_dirty : bool }.
Arguments HeaderMMR : clear implicits.
Arguments mkHeaderMMR {F}.

(** No hash is ever pruned. *)
Definition no_prunes : option (PruneList (list Z)) := None.

(** The leaf of a header. *)
Definition header_leaf (h : BlockHeader) : result bytes :=
  s ← SerializeCycle (bh_proofOfWork h) (Serializer_new V1); mret (s_bytes s).

Section mmr.
Context {F : Type} {HF : HashFile F}.
Context (Blake2b : bytes -> Hash).
Implicit Types (m : HeaderMMR F).

Definition hm_set_file (f : F) m : HeaderMMR F := mkHeaderMMR f (hm_dirty m).
Definition hm_set_dirty (d : bool) m : HeaderMMR F := mkHeaderMMR (hm_hashFile m) d.
Definition on_hashes {A} (x : ST F A) : ST (HeaderMMR F) A := st_zoom hm_hashFile hm_set_file x.

Definition HeaderMMR_Load (hashFile : F) : HeaderMMR F := mkHeaderMMR hashFile false.

Definition HeaderMMR_Commit : ST (HeaderMMR F) unit :=
  m ← st_get;
  if hm_dirty m then _ ← on_hashes hf_Commit; st_modify (hm_set_dirty false) else mret tt.

Definition HeaderMMR_Rollback m : HeaderMMR F :=
  if hm_dirty m then mkHeaderMMR (hf_Rollback (hm_hashFile m)) false else m.

Definition HeaderMMR_Rewind (size : Z) : ST (HeaderMMR F) unit :=
  m ← st_get;
  let mmrSize := LeafIndex_GetPosition (LeafIndex_At size) in
  if negb (mmrSize =? hf_GetSize (hm_hashFile m)) then
    _ ← on_hashes (hf_Rewind mmrSize);
    st_modify (hm_set_dirty true)
  else mret tt.

Definition AddHeader (header : BlockHeader) : ST (HeaderMMR F) unit :=
  leaf ← st_lift (header_leaf header);
  _ ← on_hashes (AddHashes Blake2b leaf no_prunes);
  st_modify (hm_set_dirty true).

Definition HeaderMMR_Root (lastHeight : Z) m : result Hash :=
  let position := LeafIndex_GetPosition (LeafIndex_At (lastHeight + 1)%u64) in
  Root Blake2b (hm_hashFile m) position no_prunes.

Definition HeaderMMR_OnInitWrite m : HeaderMMR F := hm_set_dirty false m.
End mmr.

(** ** The MMR of a list of leaves, with a committed copy *)
Section rel.
Context {F : Type} {HF : HashFile F} {HFL : HashFileLaws F}.
Context (Blake2b : bytes -> Hash).
Hypothesis Blake2b_length : forall x, length (Blake2b x) = 32%nat.
Hypothesis Blake2b_nonzero : forall x, Blake2b x <> ZERO_HASH.
Implicit Types (m : HeaderMMR F) (ls cs : list bytes).

#[local] Set Default Proof Using "All".

Record hmmr_rel ls cs m : Prop := {
  hr_hashes : exists l c, hf_repr l c (hm_hashFile m) /\ tree_hashes Blake2b ls l /\ tree_hashes Blake2b cs c;
  hr_dirty : hm_dirty m = false -> ls = cs;
  hr_small : length ls < 2 ^ 40 /\ length cs < 2 ^ 40;
}.

Lemma AddHeader_ok ls cs m h leaf :
  hmmr_rel ls cs m -> header_leaf h = Ok leaf -> length ls + 1 < 2 ^ 40 ->
  exists m', AddHeader Blake2b h m = (Ok tt, m') /\ hmmr_rel (ls ++ [leaf]) cs m'.
Proof.
  intros [(l & c & Hf & Hl & Hc) Hd [Hs Hsc]] El Hn. unfold AddHeader. rewrite (st_lift_ok _ _ _ _ El).
  assert (mmr_size (length ls + 1) + length c < 2 ^ 57) as Hroom.
  { destruct Hc as [-> _]. unfold mmr_size. pose proof (pop_nonneg (length ls + 1)). pose proof (pop_nonneg (length cs)). lia. }
  destruct (AddHashes_ok (R := list Z) Blake2b ls leaf l c (hm_hashFile m)) as (l' & f' & E & Hf' & Hl'); [done|lia|done..|].
  unfold on_hashes. erewrite st_bind_ok by (apply st_zoom_run; exact E). eexists. split; [reflexivity|].
  constructor; cbn; [by exists l', c|done|rewrite length_app; cbn; lia].
Qed.

(** The position behind [n] headers. *)
Lemma header_pos (n : Z) : 0 <= n < 2 ^ 50 -> LeafIndex_GetPosition (LeafIndex_At n) = mmr_size n /\ 0 <= mmr_size n < 2 ^ 58.
Proof.
  intros Hn. pose proof (mmr_size_ge n ltac:(lia)). assert (mmr_size n < 2 ^ 58) by (unfold mmr_size; pose proof (pop_nonneg n); lia).
  rewrite LeafIndex_At_pos; [split; [done|lia]|lia|unfold pos_ok; lia].
Qed.

Lemma HeaderMMR_Root_ok ls cs m (n : nat) :
  hmmr_rel ls cs m -> (S n <= length ls)%nat -> HeaderMMR_Root Blake2b n m = Ok (mmr_root Blake2b (take (S n) ls)).
Proof.
  intros [(l & c & Hf & Hl & Hc) Hd [Hs Hsc]] Hn. unfold HeaderMMR_Root. rewrite uint_small by (unfold is_uint; lia).
  replace (n + 1) with (length (take (S n) ls) : Z) by (rewrite length_take; lia).
  destruct (header_pos (length (take (S n) ls))) as [-> _]; [rewrite length_take; lia|].
  unfold no_prunes. apply (Root_ok (R := list Z) Blake2b (take (S n) ls) (drop (S n) ls) l c); rewrite ?take_drop; done || lia.
Qed.

Lemma HeaderMMR_Rewind_ok ls cs m (n : nat) :
  hmmr_rel ls cs m -> (n <= length ls)%nat ->
  exists m', HeaderMMR_Rewind n m = (Ok tt, m') /\ hmmr_rel (take n ls) cs m'.
Proof.
  intros Hm Hn. pose proof Hm as [(l & c & Hf & Hl & Hc) Hd [Hs Hsc]]. unfold HeaderMMR_Rewind. erewrite st_bind_ok by reflexivity.
  destruct (header_pos n ltac:(lia)) as [-> Hp]. rewrite (hf_size_ok _ _ _ Hf). destruct Hl as [Ell Hl]. rewrite Ell.
  destruct (Z.eqb_spec (mmr_size n) (mmr_size (length ls))) as [E|E]; cbn [negb].
  - exists m. split; [done|]. apply mmr_size_inj in E; [|lia..]. by rewrite take_ge by lia.
  - pose proof (hf_rewind_ok _ _ _ (mmr_size n) Hf Hp) as Hr. destruct (hf_Rewind (mmr_size n) (hm_hashFile m)) as [r f] eqn:Er.
    pose proof (mmr_size_mono n (length ls) ltac:(lia)). destruct (Z.leb_spec (mmr_size n) (length l)); [|lia]. destruct Hr as [-> Hf'].
    unfold on_hashes. erewrite st_bind_ok by (apply st_zoom_run; exact Er). eexists. split; [reflexivity|].
    constructor; cbn; [|done|rewrite length_take; lia]. exists (take (Z.to_nat (mmr_size n)) l), c. split; [done|]. split; [|done].
    replace (mmr_size n) with (mmr_size (length (take n ls))) by (rewrite length_take; f_equal; lia).
    apply tree_hashes_prefix with (more := drop n ls); rewrite take_drop; [lia|done].
Qed.

Lemma HeaderMMR_Commit_ok ls cs m : hmmr_rel ls cs m ->
  exists m', HeaderMMR_Commit m = (Ok tt, m') /\ hmmr_rel ls ls m' /\ hm_dirty m' = false.
Proof.
  intros [(l & c & Hf & Hl & Hc) Hd [Hs Hsc]]. unfold HeaderMMR_Commit. erewrite st_bind_ok by reflexivity. destruct (hm_dirty m) eqn:Ed.
  - destruct (hf_commit_ok _ _ _ Hf) as (f & Ef & Hf'). unfold on_hashes. erewrite st_bind_ok by (apply st_zoom_run; exact Ef).
    eexists. split; [reflexivity|]. split; [|done]. constructor; cbn; [by exists l, l|done..].
  - exists m. split; [done|]. split; [|done]. rewrite (Hd eq_refl) in *. constructor; [|done..].
    assert (l = c) as <- by (apply (tree_hashes_unique Blake2b cs); [lia|done..]). by exists l, l.
Qed.

Lemma HeaderMMR_Rollback_ok ls cs m : hmmr_rel ls cs m -> hmmr_rel cs cs (HeaderMMR_Rollback m) /\ hm_dirty (HeaderMMR_Rollback m) = false.
Proof.
  intros [(l & c & Hf & Hl & Hc) Hd [Hs Hsc]]. unfold HeaderMMR_Rollback. destruct (hm_dirty m) eqn:Ed; (split; [|done]).
  - constructor; cbn; [|done..]. exists c, c. split; [by eapply hf_rollback_ok|done].
  - rewrite <- (Hd eq_refl) in *. constructor; [|done..].
    assert (l = c) as <- by (apply (tree_hashes_unique Blake2b ls); [lia|done..]). by exists l, l.
Qed.

Lemma HeaderMMR_OnInitWrite_ok cs m : hmmr_rel cs cs m -> hmmr_rel cs cs (HeaderMMR_OnInitWrite m).
Proof. intros [Hh Hd Hs]. by constructor. Qed.
End rel.
