(* ===== verification/BlockDB.v ===== *)
(** * The block database ([include/Database/BlockDb.h])

    [IBlockDB] is what chain state and transaction hash sets use of the
    database: tables of headers, blocks, block sums, output positions and spent
    positions, in a transaction that is committed or rolled back.  The store
    behind it (RocksDB) is third-party code; the laws say that the tables behave
    as finite maps, as long as the entries can be stored ([wf]).  [MapDB] is an
    implementation to evaluate with. *)
From S2P Require Import Prelude BitUtil MMRIndex Serial BigInteger MMRHash Consensus Transaction Header Block.

Class IBlockDB (B : Type) := {
  db_GetBlockHeader : Hash -> B -> option BlockHeader;
  db_AddBlockHeader : BlockHeader -> B -> B;
  db_GetBlock : Hash -> B -> option FullBlock;
  db_AddBlock : FullBlock -> B -> B;
  db_GetBlockSums : Hash -> B -> option BlockSums;
  db_AddBlockSums : Hash -> BlockSums -> B -> B;
  db_GetOutputPosition : Commitment -> B -> option OutputLocation;
  db_AddOutputPosition : Commitment -> OutputLocation -> B -> B;
  db_RemoveOutputPositions : list Commitment -> B -> B;
  db_GetSpentOutputs : Hash -> B -> option SpentOutputs;
  db_AddSpentPositions : Hash -> list SpentOutput -> B -> B;
  db_Commit : B -> B;
  db_Rollback : B -> B;
}.

(** [BlockDB::GetSpentPositions]. *)
Definition db_GetSpentPositions `{IBlockDB B} (blockHash : Hash) (b : B) : result (gmap (list Z) OutputLocation) :=
  match db_GetSpentOutputs blockHash b with
  | None => Throw DatabaseException
  | Some spent => Ok (SpentOutputs_BuildMap (m_spentOutputs spent))
  end.

(** The tables. *)
Record DBTables := mkDBTables {
  t_headers : gmap (list Z) BlockHeader;
  t_blocks : gmap (list Z) FullBlock;
  t_sums : gmap (list Z) BlockSums;
  t_positions : gmap (list Z) OutputLocation;
  t_spent : gmap (list Z) (list SpentOutput);
}.

Definition set_headers m t := mkDBTables m (t_blocks t) (t_sums t) (t_positions t) (t_spent t).
Definition set_blocks m t := mkDBTables (t_headers t) m (t_sums t) (t_positions t) (t_spent t).
Definition set_sums m t := mkDBTables (t_headers t) (t_blocks t) m (t_positions t) (t_spent t).
Definition set_positions_table m t := mkDBTables (t_headers t) (t_blocks t) (t_sums t) m (t_spent t).
Definition set_spent m t := mkDBTables (t_headers t) (t_blocks t) (t_sums t) (t_positions t) m.

Definition delete_all {V} (keys : list (list Z)) (m : gmap (list Z) V) : gmap (list Z) V := foldr delete m keys.

Lemma lookup_delete_all {V} (keys : list (list Z)) (m : gmap (list Z) V) (k : list Z) :
  delete_all keys m !! k = if bool_decide (k ∈ keys) then None else m !! k.
Proof.
  unfold delete_all. induction keys as [|x keys IH]; cbn [foldr]; [done|]. destruct (decide (k = x)) as [->|Hne].
  - rewrite lookup_delete_eq, bool_decide_true by left. done.
  - rewrite lookup_delete_ne, IH by done. case_bool_decide as E1; case_bool_decide as E2; try done.
    + exfalso. apply E2. by right.
    + apply elem_of_cons in E2 as [|]; done.
Qed.

(** The entries that can be stored. *)
Inductive DBEntry :=
| EHeader (h : BlockHeader)
| EBlock (b : FullBlock)
| ESums (s : BlockSums)
| ELocation (l : OutputLocation)
| ESpent (l : list SpentOutput).

(** [db_repr t c b]: [b] has the tables [t], and [c] when rolled back. *)
Class IBlockDBLaws (B : Type) `{IBlockDB B} (wf : DBEntry -> Prop) (db_repr : DBTables -> DBTables -> B -> Prop) := {
  db_read t c b : db_repr t c b -> forall h,
    db_GetBlockHeader h b = t_headers t !! h /\ db_GetBlock h b = t_blocks t !! h /\ db_GetBlockSums h b = t_sums t !! h /\
    db_GetOutputPosition h b = t_positions t !! h /\ db_GetSpentOutputs h b = mkSpentOutputs <$> (t_spent t !! h);
  db_add_header t c b h : db_repr t c b -> wf (EHeader h) ->
    db_repr (set_headers (<[BlockHeader_GetHash h := h]> (t_headers t)) t) c (db_AddBlockHeader h b);
  db_add_block t c b x : db_repr t c b -> wf (EBlock x) ->
    db_repr (set_blocks (<[FullBlock_GetHash x := x]> (t_blocks t)) t) c (db_AddBlock x b);
  db_add_sums t c b h x : db_repr t c b -> wf (ESums x) -> db_repr (set_sums (<[h := x]> (t_sums t)) t) c (db_AddBlockSums h x b);
  db_add_position t c b k l : db_repr t c b -> wf (ELocation l) ->
    db_repr (set_positions_table (<[k := l]> (t_positions t)) t) c (db_AddOutputPosition k l b);
  db_remove_positions t c b ks : db_repr t c b ->
    db_repr (set_positions_table (delete_all ks (t_positions t)) t) c (db_RemoveOutputPositions ks b);
  db_add_spent t c b h l : db_repr t c b -> wf (ESpent l) -> db_repr (set_spent (<[h := l]> (t_spent t)) t) c (db_AddSpentPositions h l b);
  db_commit t c b : db_repr t c b -> db_repr t t (db_Commit b);
  db_rollback t c b : db_repr t c b -> db_repr c c (db_Rollback b);
}.

(** ** Tables in memory *)
Definition MapDB : Type := DBTables * DBTables.

#[export] Instance MapDB_IBlockDB : IBlockDB MapDB := {
  db_GetBlockHeader h b := t_headers b.1 !! h;
  db_AddBlockHeader h b := (set_headers (<[BlockHeader_GetHash h := h]> (t_headers b.1)) b.1, b.2);
  db_GetBlock h b := t_blocks b.1 !! h;
  db_AddBlock x b := (set_blocks (<[FullBlock_GetHash x := x]> (t_blocks b.1)) b.1, b.2);
  db_GetBlockSums h b := t_sums b.1 !! h;
  db_AddBlockSums h x b := (set_sums (<[h := x]> (t_sums b.1)) b.1, b.2);
  db_GetOutputPosition k b := t_positions b.1 !! k;
  db_AddOutputPosition k l b := (set_positions_table (<[k := l]> (t_positions b.1)) b.1, b.2);
  db_RemoveOutputPositions ks b := (set_positions_table (delete_all ks (t_positions b.1)) b.1, b.2);
  db_GetSpentOutputs h b := mkSpentOutputs <$> (t_spent b.1 !! h);
  db_AddSpentPositions h l b := (set_spent (<[h := l]> (t_spent b.1)) b.1, b.2);
  db_Commit b := (b.1, b.1);
  db_Rollback b := (b.2, b.2);
}.

Definition MapDB_repr (t c : DBTables) (b : MapDB) : Prop := b = (t, c).
#[export] Instance MapDB_laws : IBlockDBLaws MapDB (fun _ => True) MapDB_repr.
Proof. unfold MapDB_repr. by constructor; intros ? ? ? **; subst. Qed.
