(* ===== verification/TxHashSet.v ===== *)
(** * The transaction hash set ([src/PMMR/TxHashSetImpl.cpp])

    The three MMRs of the chain state with the header they stand for.  Blocks
    are applied to them and to the block database together, and undone by
    [Rewind]; the computations that change both have the pair as state. *)
From S2P Require Import Prelude BitUtil MMRIndex MMRUtil Serial BigInteger File Roaring PruneList BitmapFile MMRHash SegmentId SegmentProof Bitmap Segment BitmapSegment Segmenter PruneableMMR Consensus Transaction KernelMMR Header Block BlockDB.

(** [RangeProof] as the MMR stores it. *)
Record RangeProof := mkRangeProof { rp_proof : bytes }.
#[export] Instance RangeProof_Serializable : Serializable RangeProof := {
  Serialize p s := RangeProof_Serialize (rp_proof p) s;
  Deserialize := proof ← RangeProof_Deserialize; mret (mkRangeProof proof);
}.

Definition OUTPUT_SIZE : nat := 34.
Definition RANGE_PROOF_SIZE : nat := 683.

Definition OutputIdentifier_IsCoinbase (o : OutputIdentifier) : bool :=
  Z.land (oi_features o) COINBASE_OUTPUT =? COINBASE_OUTPUT.

Record OutputDTO := mkOutputDTO {
  dto_spent : bool; dto_identifier : OutputIdentifier; dto_location : OutputLocation; dto_rangeProof : RangeProof
}.
Record OutputRange := mkOutputRange { or_highestIndex : Z; or_lastRetrievedIndex : Z; or_outputs : list OutputDTO }.
Record MMRInfo := mkMMRInfo { mi_root : Hash; mi_size : Z }.
Record TxHashSetRoots := mkTxHashSetRoots { m_kernelInfo : MMRInfo; m_outputInfo : MMRInfo; m_rangeProofInfo : MMRInfo }.

(** The headers are pointers, which can be null; the cache of the bitmap of
    unspent outputs comes with the size of the output MMR it was built for. *)
Record TxHashSet {F R : Type} := mkTxHashSet {
  m_pKernelMMR : KernelMMR F;
  m_pOutputPMMR : PruneableMMR F R;
  m_pRangeProofPMMR : PruneableMMR F R;
  m_pBlockHeader : option BlockHeader;
  m_pBlockHeaderBackup : option BlockHeader;
  m_outputBitmapCache : option BitmapAccumulator;
  m_outputBitmapCacheOutputMMRSize : Z;
}.
Arguments TxHashSet : clear implicits.
Arguments mkTxHashSet {F R}.

Section txhashset.
Context {F : Type} `{HF : HashFile F} {R : Type} `{HR : Roaring R} {B : Type} `{HB : IBlockDB B}.
Context (Blake2b : bytes -> Hash) (env : Environment).
Local Abbreviation TS := (TxHashSet F R).
Implicit Types (t : TS).

Definition TxHashSet_new (kernels : KernelMMR F) (outputs rangeProofs : PruneableMMR F R) (header : option BlockHeader) : TS :=
  mkTxHashSet kernels outputs rangeProofs header header None 0.

Definition ths_set_kernels (k : KernelMMR F) t : TS :=
  mkTxHashSet k (m_pOutputPMMR t) (m_pRangeProofPMMR t) (m_pBlockHeader t) (m_pBlockHeaderBackup t) (m_outputBitmapCache t) (m_outputBitmapCacheOutputMMRSize t).
Definition ths_set_outputs (m : PruneableMMR F R) t : TS :=
  mkTxHashSet (m_pKernelMMR t) m (m_pRangeProofPMMR t) (m_pBlockHeader t) (m_pBlockHeaderBackup t) (m_outputBitmapCache t) (m_outputBitmapCacheOutputMMRSize t).
Definition ths_set_rangeProofs (m : PruneableMMR F R) t : TS :=
  mkTxHashSet (m_pKernelMMR t) (m_pOutputPMMR t) m (m_pBlockHeader t) (m_pBlockHeaderBackup t) (m_outputBitmapCache t) (m_outputBitmapCacheOutputMMRSize t).
Definition ths_set_header (h : option BlockHeader) t : TS :=
  mkTxHashSet (m_pKernelMMR t) (m_pOutputPMMR t) (m_pRangeProofPMMR t) h (m_pBlockHeaderBackup t) (m_outputBitmapCache t) (m_outputBitmapCacheOutputMMRSize t).
Definition ths_set_headers (h backup : option BlockHeader) t : TS :=
  mkTxHashSet (m_pKernelMMR t) (m_pOutputPMMR t) (m_pRangeProofPMMR t) h backup (m_outputBitmapCache t) (m_outputBitmapCacheOutputMMRSize t).
Definition ths_set_cache (a : option BitmapAccumulator) (size : Z) t : TS :=
  mkTxHashSet (m_pKernelMMR t) (m_pOutputPMMR t) (m_pRangeProofPMMR t) (m_pBlockHeader t) (m_pBlockHeaderBackup t) a size.

Definition InvalidateOutputBitmapCache t : TS := ths_set_cache None 0 t.

(** Computations on a part of the hash set, or on one of the pair. *)
Definition on_kernels {A} (m : ST (KernelMMR F) A) : ST TS A := st_zoom m_pKernelMMR ths_set_kernels m.
Definition on_outputs {A} (m : ST (PruneableMMR F R) A) : ST TS A := st_zoom m_pOutputPMMR ths_set_outputs m.
Definition on_rangeProofs {A} (m : ST (PruneableMMR F R) A) : ST TS A := st_zoom m_pRangeProofPMMR ths_set_rangeProofs m.
Definition on_txs {A} (m : ST TS A) : ST (TS * B) A := st_zoom fst (fun t s => (t, s.2)) m.
Definition on_db (f : B -> B) : ST (TS * B) unit := st_modify (fun s => (s.1, f s.2)).

(** ** Sizes, roots, the bitmap of unspent outputs *)
Definition GetOutputMMRSize t : Z := PruneableMMR_GetSize (m_pOutputPMMR t).
Definition GetRangeProofMMRSize t : Z := PruneableMMR_GetSize (m_pRangeProofPMMR t).
Definition GetKernelMMRSize t : Z := KernelMMR_GetSize (m_pKernelMMR t).
Definition GetOutputRoot (outputMMRSize : Z) t : result Hash := PruneableMMR_Root Blake2b outputMMRSize (m_pOutputPMMR t).
Definition GetOutputBitmapRoot (numOutputs : Z) t : result Hash := UBMTRoot Blake2b numOutputs (m_pOutputPMMR t).

Definition GetOutputAt (leaf_idx : LeafIndex) t : result (option OutputIdentifier) := PruneableMMR_GetAt OUTPUT_SIZE leaf_idx (m_pOutputPMMR t).
Definition GetRangeProofAt (leaf_idx : LeafIndex) t : result (option RangeProof) := PruneableMMR_GetAt RANGE_PROOF_SIZE leaf_idx (m_pRangeProofPMMR t).

Definition BuildOutputBitmapCache : ST TS unit :=
  t ← st_get;
  let outputMMRSize := GetOutputMMRSize t in
  match m_outputBitmapCache t with
  | Some _ => if m_outputBitmapCacheOutputMMRSize t =? outputMMRSize then mret tt else
      accumulator ← st_lift (
        let outputLeaves := CountLeaves outputMMRSize in
        let chunkCount := (outputLeaves + LEN_BITS - 1)%u64 / LEN_BITS in
        unspent_accumulator_loop Blake2b (fun leaf => IsUnpruned leaf (m_pOutputPMMR t)) outputLeaves (Z.to_nat chunkCount) 0 BitmapAccumulator_new);
      st_modify (ths_set_cache (Some accumulator) outputMMRSize)
  | None =>
      accumulator ← st_lift (
        let outputLeaves := CountLeaves outputMMRSize in
        let chunkCount := (outputLeaves + LEN_BITS - 1)%u64 / LEN_BITS in
        unspent_accumulator_loop Blake2b (fun leaf => IsUnpruned leaf (m_pOutputPMMR t)) outputLeaves (Z.to_nat chunkCount) 0 BitmapAccumulator_new);
      st_modify (ths_set_cache (Some accumulator) outputMMRSize)
  end.

Definition GetOutputBitmapAccumulator : ST TS BitmapAccumulator :=
  _ ← BuildOutputBitmapCache;
  t ← st_get;
  st_lift (of_option UB (m_outputBitmapCache t)).

Definition GetOutputBitmapSegment (identifier : SegmentIdentifier) : ST TS (option BitmapSegment) :=
  accumulator ← GetOutputBitmapAccumulator;
  mret (OutputBitmapSegment Blake2b identifier accumulator).

(** ** Checking a transaction *)

(** The output of a location, if the MMR has it unspent with this commitment. *)
Definition output_matches (commitment : Commitment) (pOutput : option OutputIdentifier) : bool :=
  match pOutput with Some o => BigInteger_eq (oi_commitment o) commitment | None => false end.

Fixpoint IsValid_inputs (maximumBlockHeight : Z) (inputs : list TransactionInput) (db : B) t : result bool :=
  match inputs with
  | [] => mret true
  | input :: inputs =>
      match db_GetOutputPosition (ti_commitment input) db with
      | None => mret false
      | Some location =>
          pOutput ← GetOutputAt (ol_leafIndex location) t;
          match pOutput with
          | None => mret false
          | Some o =>
              if negb (BigInteger_eq (oi_commitment o) (ti_commitment input)) then mret false
              else if OutputIdentifier_IsCoinbase o && (ol_blockHeight location >? maximumBlockHeight) then mret false
              else IsValid_inputs maximumBlockHeight inputs db t
          end
      end
  end.

Fixpoint IsValid_outputs (outputs : list TransactionOutput) (db : B) t : result bool :=
  match outputs with
  | [] => mret true
  | output :: outputs =>
      match db_GetOutputPosition (to_commitment output) db with
      | None => IsValid_outputs outputs db t
      | Some location =>
          pOutput ← GetOutputAt (ol_leafIndex location) t;
          if output_matches (to_commitment output) pOutput then mret false else IsValid_outputs outputs db t
      end
  end.

Definition TxHashSet_IsValid (db : B) (transaction : Transaction) t : result bool :=
  match m_pBlockHeader t with
  | None => Throw UB
  | Some header =>
      let next_height := (bh_height header + 1)%u64 in
      let maximumBlockHeight := GetMaxCoinbaseHeight env next_height in
      ok ← IsValid_inputs maximumBlockHeight (tb_inputs (tx_body transaction)) db t;
      if (ok : bool) then IsValid_outputs (tb_outputs (tx_body transaction)) db t else mret false
  end.

(** ** Applying a block *)

(** The loop over the inputs: [None] when the block is rejected.  That the
    output is there is only asserted before it is dereferenced. *)
Fixpoint spend_inputs (maximumBlockHeight : Z) (inputs : list TransactionInput) (spentPositions : list SpentOutput)
    : ST (TS * B) (option (list SpentOutput)) :=
  match inputs with
  | [] => mret (Some spentPositions)
  | input :: inputs =>
      s ← st_get;
      match db_GetOutputPosition (ti_commitment input) s.2 with
      | None => mret None
      | Some location =>
          pOutput ← st_lift (GetOutputAt (ol_leafIndex location) s.1);
          match pOutput with
          | None => st_throw UB
          | Some o =>
              if OutputIdentifier_IsCoinbase o && (ol_blockHeight location >? maximumBlockHeight) then mret None
              else
                _ ← on_txs (on_outputs (PruneableMMR_Remove (ol_leafIndex location)));
                _ ← on_txs (on_rangeProofs (PruneableMMR_Remove (ol_leafIndex location)));
                spend_inputs maximumBlockHeight inputs (spentPositions ++ [mkSpentOutput (ti_commitment input) location])
          end
      end
  end.

Fixpoint append_outputs (blockHeight : Z) (outputs : list TransactionOutput) : ST (TS * B) bool :=
  match outputs with
  | [] => mret true
  | output :: outputs =>
      s ← st_get;
      if match db_GetOutputPosition (to_commitment output) s.2 with
         | Some location => IsUnpruned (ol_leafIndex location) (m_pOutputPMMR s.1)
         | None => false
         end then mret false
      else
        let location := mkOutputLocation (LeafIndex_AtPos (GetOutputMMRSize s.1)) blockHeight in
        _ ← on_txs (on_outputs (PruneableMMR_Append Blake2b (OutputIdentifier_FromOutput output)));
        _ ← on_txs (on_rangeProofs (PruneableMMR_Append Blake2b (mkRangeProof (to_rangeProof output))));
        _ ← on_db (db_AddOutputPosition (to_commitment output) location);
        append_outputs blockHeight outputs
  end.

Fixpoint apply_block_kernels (kernels : list TransactionKernel) : ST TS unit :=
  match kernels with
  | [] => mret tt
  | kernel :: kernels => _ ← on_kernels (ApplyKernel Blake2b kernel); apply_block_kernels kernels
  end.

Definition ApplyBlock (block : FullBlock) : ST (TS * B) bool :=
  _ ← on_txs (st_modify InvalidateOutputBitmapCache);
  let maximumBlockHeight := GetMaxCoinbaseHeight env (FullBlock_GetHeight block) in
  spent ← spend_inputs maximumBlockHeight (tb_inputs (fb_body block)) [];
  match spent with
  | None => mret false
  | Some spentPositions =>
      _ ← on_db (db_AddSpentPositions (FullBlock_GetHash block) spentPositions);
      appended ← append_outputs (FullBlock_GetHeight block) (tb_outputs (fb_body block));
      if negb appended then mret false
      else
        _ ← on_db (db_RemoveOutputPositions (FullBlock_GetInputCommitments block));
        _ ← on_txs (apply_block_kernels (tb_kernels (fb_body block)));
        _ ← on_txs (st_modify (ths_set_header (Some (fb_header block))));
        mret true
  end.

(** ** [ValidateNRDKernelRules] *)

(** The kernels without recent duplicate of the block, and the largest of their
    relative heights. *)
Fixpoint collect_nrd (kernels : list TransactionKernel) (blockNRDKernels : gmap (list Z) Z) (maxRelativeHeight : Z) : option (gmap (list Z) Z * Z) :=
  match kernels with
  | [] => Some (blockNRDKernels, maxRelativeHeight)
  | kernel :: kernels =>
      if negb (tk_features kernel =? NO_RECENT_DUPLICATE) then collect_nrd kernels blockNRDKernels maxRelativeHeight
      else
        let relativeHeight := tk_lockHeight kernel in
        if (relativeHeight =? 0) || (relativeHeight >? WEEK_HEIGHT) then None
        else
          match blockNRDKernels !! tk_excessCommitment kernel with
          | Some _ => None
          | None => collect_nrd kernels (<[tk_excessCommitment kernel := relativeHeight]> blockNRDKernels) (Z.max maxRelativeHeight relativeHeight)
          end
  end.

(** The headers from [expectedHeight] down to [firstHeaderHeight], newest first;
    the fuel is their number. *)
Fixpoint nrd_headers (fuel : nat) (firstHeaderHeight expectedHeight : Z) (headerHash : Hash) (db : B) : result (option (list BlockHeader)) :=
  match fuel with
  | O => Throw OutOfFuel
  | S fuel =>
      match db_GetBlockHeader headerHash db with
      | None => mret None
      | Some header =>
          if negb (bh_height header =? expectedHeight) then mret None
          else if expectedHeight =? firstHeaderHeight then mret (Some [header])
          else
            rest ← nrd_headers fuel firstHeaderHeight (expectedHeight - 1)%u64 (bh_previousBlockHash header) db;
            mret (option_map (cons header) rest)
      end
  end.

(** The kernels that a header added. *)
Fixpoint check_nrd_kernels (k : nat) (kernelIndex currentHeight height : Z) (blockNRDKernels : gmap (list Z) Z) t : result bool :=
  match k with
  | O => mret true
  | S k =>
      pKernel ← (GetKernelAt (LeafIndex_At kernelIndex) (m_pKernelMMR t) : result (option TransactionKernel));
      match pKernel with
      | None => mret false
      | Some kernel =>
          if (tk_features kernel =? NO_RECENT_DUPLICATE)
             && match blockNRDKernels !! tk_excessCommitment kernel with
                | Some relativeHeight => (currentHeight - height)%u64 <? relativeHeight
                | None => false
                end then mret false
          else check_nrd_kernels k (kernelIndex + 1)%u64 currentHeight height blockNRDKernels t
      end
  end.

Fixpoint check_nrd_headers (headers : list BlockHeader) (previousNumKernels currentHeight : Z) (blockNRDKernels : gmap (list Z) Z) t : result bool :=
  match headers with
  | [] => mret true
  | header :: headers =>
      let currentNumKernels := BlockHeader_GetNumKernels header in
      if currentNumKernels <? previousNumKernels then mret false
      else
        ok ← check_nrd_kernels (Z.to_nat (currentNumKernels - previousNumKernels)) previousNumKernels currentHeight (bh_height header) blockNRDKernels t;
        if (ok : bool) then check_nrd_headers headers currentNumKernels currentHeight blockNRDKernels t else mret false
  end.

Definition ValidateNRDKernelRules (db : B) (block : FullBlock) t : result bool :=
  match collect_nrd (tb_kernels (fb_body block)) ∅ 0 with
  | None => mret false
  | Some (blockNRDKernels, maxRelativeHeight) =>
      if bool_decide (blockNRDKernels = ∅) then mret true
      else
        let currentHeight := FullBlock_GetHeight block in
        let startHeight := if currentHeight >? maxRelativeHeight then (currentHeight - maxRelativeHeight + 1)%u64 else 0 in
        headers ← (if currentHeight >? 0 then
            let firstHeaderHeight := if startHeight >? 0 then (startHeight - 1)%u64 else startHeight in
            let expectedHeight := (currentHeight - 1)%u64 in
            headers ← nrd_headers (S (Z.to_nat (expectedHeight - firstHeaderHeight))) firstHeaderHeight expectedHeight (FullBlock_GetPreviousHash block) db;
            mret (option_map (@rev BlockHeader) headers)
          else mret (Some []));
        match headers with
        | None => mret false
        | Some headers =>
            if startHeight >? 0 then
              match headers with
              | [] => Throw UB
              | front :: headers => check_nrd_headers headers (BlockHeader_GetNumKernels front) currentHeight blockNRDKernels t
              end
            else check_nrd_headers headers 0 currentHeight blockNRDKernels t
        end
  end.

(** ** Roots *)
Definition ValidateRoots (blockHeader : BlockHeader) t : result bool :=
  kernelRoot ← KernelMMR_Root Blake2b (bh_kernelMMRSize blockHeader) (m_pKernelMMR t);
  if BigInteger_neq kernelRoot (bh_kernelRoot blockHeader) then mret false
  else
    outputRoot ← GetOutputRoot (bh_outputMMRSize blockHeader) t;
    expected ← (if bh_version blockHeader <? 3 then mret outputRoot
                else
                  UBMT ← GetOutputBitmapRoot (GetNumOutputs blockHeader) t;
                  mret (HashParentWithIndex Blake2b outputRoot UBMT (bh_outputMMRSize blockHeader)));
    if BigInteger_neq expected (bh_outputRoot blockHeader) then mret false
    else
      rangeProofRoot ← PruneableMMR_Root Blake2b (bh_outputMMRSize blockHeader) (m_pRangeProofPMMR t);
      mret (negb (BigInteger_neq rangeProofRoot (bh_rangeProofRoot blockHeader))).

Fixpoint remove_inputs (db : B) (inputs : list TransactionInput) : ST TS unit :=
  match inputs with
  | [] => mret tt
  | input :: inputs =>
      match db_GetOutputPosition (ti_commitment input) db with
      | None => st_throw RuntimeError
      | Some location =>
          _ ← on_outputs (PruneableMMR_Remove (ol_leafIndex location));
          _ ← on_rangeProofs (PruneableMMR_Remove (ol_leafIndex location));
          remove_inputs db inputs
      end
  end.

Fixpoint append_body_outputs (outputs : list TransactionOutput) : ST TS unit :=
  match outputs with
  | [] => mret tt
  | output :: outputs =>
      _ ← on_outputs (PruneableMMR_Append Blake2b (OutputIdentifier_FromOutput output));
      _ ← on_rangeProofs (PruneableMMR_Append Blake2b (mkRangeProof (to_rangeProof output)));
      append_body_outputs outputs
  end.

Definition GetRoots (db : B) (body : TransactionBody) : ST TS TxHashSetRoots :=
  _ ← st_modify InvalidateOutputBitmapCache;
  _ ← apply_block_kernels (tb_kernels body);
  _ ← remove_inputs db (tb_inputs body);
  _ ← append_body_outputs (tb_outputs body);
  t ← st_get;
  match m_pBlockHeader t with
  | None => st_throw UB
  | Some header =>
      let num_kernels := (BlockHeader_GetNumKernels header + length (tb_kernels body))%u64 in
      let kernel_size := LeafIndex_GetPosition (LeafIndex_At num_kernels) in
      kernel_root ← st_lift (KernelMMR_Root Blake2b kernel_size (m_pKernelMMR t));
      let num_outputs := (GetNumOutputs header + length (tb_outputs body))%u64 in
      let output_size := LeafIndex_GetPosition (LeafIndex_At num_outputs) in
      output_root ← st_lift (GetOutputRoot output_size t);
      proof_root ← st_lift (PruneableMMR_Root Blake2b output_size (m_pRangeProofPMMR t));
      mret (mkTxHashSetRoots (mkMMRInfo kernel_root kernel_size) (mkMMRInfo output_root output_size) (mkMMRInfo proof_root output_size))
  end.

(** ** Positions and outputs by position

    [GetByHeight] is the chain's: the hash at a height. *)
Fixpoint save_outputs (k : nat) (leaf_idx : LeafIndex) (height : Z) t : ST B LeafIndex :=
  match k with
  | O => mret leaf_idx
  | S k =>
      pOutput ← st_lift (GetOutputAt leaf_idx t);
      _ ← match pOutput with
          | Some o => st_modify (db_AddOutputPosition (oi_commitment o) (mkOutputLocation leaf_idx height))
          | None => mret tt
          end;
      save_outputs k (LeafIndex_Next leaf_idx) height t
  end.

Fixpoint save_heights (k : nat) (height : Z) (leaf_idx : LeafIndex) (GetByHeight : Z -> option Hash) t : ST B unit :=
  match k with
  | O => mret tt
  | S k =>
      db ← st_get;
      match hash ← GetByHeight height; db_GetBlockHeader hash db with
      | None => save_heights k (height + 1)%u64 leaf_idx GetByHeight t
      | Some header =>
          leaf_idx ← save_outputs (Z.to_nat (GetNumOutputs header - m_leafIndex leaf_idx)) leaf_idx (bh_height header) t;
          save_heights k (height + 1)%u64 leaf_idx GetByHeight t
      end
  end.

Definition SaveOutputPositions (GetByHeight : Z -> option Hash) t : ST B unit :=
  match m_pBlockHeader t with
  | None => st_throw UB
  | Some header => save_heights (S (Z.to_nat (bh_height header))) 0 (LeafIndex_At 0) GetByHeight t
  end.

(** Every turn goes to the next leaf, so that the size of the MMR is enough fuel. *)
Fixpoint outputs_by_leaf (fuel : nat) (leaf_idx : LeafIndex) (outputSize maxNumOutputs : Z) (outputs : list OutputDTO) (db : B) t
    : result (list OutputDTO) :=
  match fuel with
  | O => Throw OutOfFuel
  | S fuel =>
      if negb (length outputs <? maxNumOutputs) then mret outputs
      else if LeafIndex_GetPosition leaf_idx >=? outputSize then mret outputs
      else
        pOutput ← GetOutputAt leaf_idx t;
        match pOutput with
        | None => outputs_by_leaf fuel (LeafIndex_Next leaf_idx) outputSize maxNumOutputs outputs db t
        | Some o =>
            pRangeProof ← GetRangeProofAt leaf_idx t;
            match pRangeProof, db_GetOutputPosition (oi_commitment o) db with
            | Some proof, Some location =>
                if negb (m_leafIndex leaf_idx =? m_leafIndex (ol_leafIndex location)) then Throw TxHashSetException
                else outputs_by_leaf fuel (LeafIndex_Next leaf_idx) outputSize maxNumOutputs (outputs ++ [mkOutputDTO false o location proof]) db t
            | _, _ => Throw TxHashSetException
            end
        end
  end.

Definition GetOutputsByLeafIndex (db : B) (startIndex maxNumOutputs : Z) t : result OutputRange :=
  let outputSize := GetOutputMMRSize t in
  outputs ← outputs_by_leaf (S (Z.to_nat outputSize)) (LeafIndex_At startIndex) outputSize maxNumOutputs [] db t;
  let maxLeafIndex := m_leafIndex (LeafIndex_AtPos outputSize) in
  let lastRetrievedIndex := match last outputs with Some o => m_leafIndex (ol_leafIndex (dto_location o)) | None => 0 end in
  mret (mkOutputRange (if maxLeafIndex >? 0 then (maxLeafIndex - 1)%u64 else 0) lastRetrievedIndex outputs).

(** The position and the proof are dereferenced unchecked. *)
Fixpoint outputs_by_mmr_index (k : nat) (mmr_idx : Index) (outputs : list OutputDTO) (db : B) t : result (list OutputDTO) :=
  match k with
  | O => mret outputs
  | S k =>
      if negb (Index_IsLeaf mmr_idx) then outputs_by_mmr_index k (Index_GetNext mmr_idx) outputs db t
      else
        let leaf_idx := LeafIndex_From mmr_idx in
        pOutput ← GetOutputAt leaf_idx t;
        match pOutput with
        | None => outputs_by_mmr_index k (Index_GetNext mmr_idx) outputs db t
        | Some o =>
            pRangeProof ← GetRangeProofAt leaf_idx t;
            match pRangeProof, db_GetOutputPosition (oi_commitment o) db with
            | Some proof, Some location => outputs_by_mmr_index k (Index_GetNext mmr_idx) (outputs ++ [mkOutputDTO false o location proof]) db t
            | _, _ => Throw UB
            end
        end
  end.

Definition GetOutputsByMMRIndex (db : B) (startIndex lastIndex : Z) t : result (list OutputDTO) :=
  outputs_by_mmr_index (Z.to_nat (lastIndex - startIndex + 1)) (Index_At startIndex) [] db t.

Definition GetOutput (location : OutputLocation) t : result OutputDTO :=
  pOutput ← GetOutputAt (ol_leafIndex location) t;
  pRangeProof ← GetRangeProofAt (ol_leafIndex location) t;
  match pOutput, pRangeProof with
  | Some o, Some proof => mret (mkOutputDTO false o location proof)
  | _, _ => Throw TxHashSetException
  end.

Definition GetLastKernelHashes (numberOfKernels : Z) t : result (list Hash) := KernelMMR_GetLastLeafHashes numberOfKernels (m_pKernelMMR t).
Definition GetLastOutputHashes (numberOfOutputs : Z) t : result (list Hash) := PruneableMMR_GetLastLeafHashes numberOfOutputs (m_pOutputPMMR t).
Definition GetLastRangeProofHashes (numberOfRangeProofs : Z) t : result (list Hash) := PruneableMMR_GetLastLeafHashes numberOfRangeProofs (m_pRangeProofPMMR t).

(** ** [Rewind] *)

(** The inputs of a block that is undone: their positions come back, and their
    leaves are to be added again. *)
Fixpoint restore_inputs (spentOutputs : gmap (list Z) OutputLocation) (inputs : list TransactionInput) (leavesToAdd : list Z)
    : ST (TS * B) (list Z) :=
  match inputs with
  | [] => mret leavesToAdd
  | input :: inputs =>
      match spentOutputs !! ti_commitment input with
      | None => st_throw TxHashSetException
      | Some location =>
          _ ← on_db (db_AddOutputPosition (ti_commitment input) location);
          restore_inputs spentOutputs inputs (leavesToAdd ++ [m_leafIndex (ol_leafIndex location)])
      end
  end.

(** The loop [while ( *m_pBlockHeader != header)], back from block to block. *)
Fixpoint rewind_blocks (fuel : nat) (header : BlockHeader) (leavesToAdd : list Z) : ST (TS * B) (list Z) :=
  match fuel with
  | O => st_throw OutOfFuel
  | S fuel =>
      s ← st_get;
      match m_pBlockHeader s.1 with
      | None => st_throw UB
      | Some current =>
          if negb (BigInteger_neq (BlockHeader_GetHash current) (BlockHeader_GetHash header)) then mret leavesToAdd
          else
            match db_GetBlock (BlockHeader_GetHash current) s.2 with
            | None => st_throw TxHashSetException
            | Some block =>
                spentOutputs ← st_lift (db_GetSpentPositions (BlockHeader_GetHash current) s.2);
                _ ← on_db (db_RemoveOutputPositions (FullBlock_GetOutputCommitments block));
                leavesToAdd ← restore_inputs spentOutputs (tb_inputs (fb_body block)) leavesToAdd;
                s ← st_get;
                _ ← on_txs (st_modify (ths_set_header (db_GetBlockHeader (bh_previousBlockHash current) s.2)));
                rewind_blocks fuel header leavesToAdd
            end
      end
  end.

(** The fuel is the height of the current header: each block goes one back. *)
Definition Rewind_fuel t : nat := match m_pBlockHeader t with Some header => S (Z.to_nat (bh_height header)) | None => 1 end.

Definition TxHashSet_Rewind (header : BlockHeader) : ST (TS * B) unit :=
  _ ← on_txs (st_modify InvalidateOutputBitmapCache);
  s ← st_get;
  leavesToAdd ← rewind_blocks (Rewind_fuel s.1) header [];
  _ ← on_txs (on_kernels (KernelMMR_Rewind (BlockHeader_GetNumKernels header)));
  _ ← on_txs (on_outputs (PruneableMMR_Rewind OUTPUT_SIZE (GetNumOutputs header) leavesToAdd));
  on_txs (on_rangeProofs (PruneableMMR_Rewind RANGE_PROOF_SIZE (GetNumOutputs header) leavesToAdd)).

(** ** Commit, rollback, compaction

    The three commits run in threads of their own on disjoint parts. *)
Definition TxHashSet_Commit : ST TS unit :=
  _ ← on_kernels KernelMMR_Commit;
  _ ← on_outputs PruneableMMR_Commit;
  _ ← on_rangeProofs PruneableMMR_Commit;
  st_modify (fun t => ths_set_headers (m_pBlockHeader t) (m_pBlockHeader t) t).

Definition TxHashSet_Rollback t : TS :=
  let t := InvalidateOutputBitmapCache t in
  mkTxHashSet (KernelMMR_Rollback (m_pKernelMMR t)) (PruneableMMR_Rollback (m_pOutputPMMR t)) (PruneableMMR_Rollback (m_pRangeProofPMMR t))
    (m_pBlockHeaderBackup t) (m_pBlockHeaderBackup t) (m_outputBitmapCache t) (m_outputBitmapCacheOutputMMRSize t).

Definition TxHashSet_Compact : ST TS unit :=
  _ ← st_modify InvalidateOutputBitmapCache;
  _ ← on_kernels KernelMMR_Commit;
  _ ← on_outputs PruneableMMR_Commit;
  _ ← on_rangeProofs PruneableMMR_Commit;
  _ ← on_outputs (st_modify FlushPruneList);
  on_rangeProofs (st_modify FlushPruneList).

(** ** Segments *)
Definition TxHashSet_ApplyOutputSegment (segment : Segment OutputIdentifier) (targetMMRSize : Z) (pBitmap : BitmapAccumulator) : ST TS bool :=
  _ ← st_modify InvalidateOutputBitmapCache;
  on_outputs (PruneableMMR_ApplySegment Blake2b OUTPUT_SIZE segment targetMMRSize (Some pBitmap)).
Definition TxHashSet_ApplyRangeProofSegment (segment : Segment RangeProof) (targetMMRSize : Z) (pBitmap : BitmapAccumulator) : ST TS bool :=
  on_rangeProofs (PruneableMMR_ApplySegment Blake2b RANGE_PROOF_SIZE segment targetMMRSize (Some pBitmap)).
Definition TxHashSet_ApplyKernelSegment (segment : Segment TransactionKernel) (targetMMRSize : Z) : ST TS bool :=
  on_kernels (Kernel_ApplySegment Blake2b segment).

Definition TxHashSet_UpdateLeafSets (outputBitmap : BitmapAccumulator) (numOutputs : Z) t : TS :=
  let t := InvalidateOutputBitmapCache t in
  let t := ths_set_outputs (UpdateLeafSet outputBitmap numOutputs (m_pOutputPMMR t)) t in
  let t := ths_set_rangeProofs (UpdateLeafSet outputBitmap numOutputs (m_pRangeProofPMMR t)) t in
  ths_set_cache (Some outputBitmap) (GetOutputMMRSize t) t.
End txhashset.
