(* ===== verification/UtxoSpec.v ===== *)
(** * Blocks on an abstract chain state

    The machine that the transaction hash set refines.  Its state is the list of
    kernels, the list of outputs with their proofs, the set of unspent ones and
    the header, next to the table of output positions.  A block spends the
    outputs its inputs name, appends its outputs and kernels; a table that
    indexes the unspent outputs stays one, and a sequence of blocks can be
    undone. *)
From S2P Require Import Prelude BitUtil MMRIndex MMRUtil Serial BigInteger MMRHash PruneableMMR Consensus Transaction Header Block BlockDB TxHashSet.

(** ** The abstract state *)
Record TState := mkTState {
  ts_kernels : list TransactionKernel;
  ts_outputs : list OutputIdentifier;
  ts_proofs : list RangeProof;
  ts_unspent : gset Z;
  ts_header : option BlockHeader;
}.

(** The table of output positions. *)
Abbreviation Positions := (gmap (list Z) OutputLocation).

Definition ts_wf (s : TState) : Prop :=
  length (ts_proofs s) = length (ts_outputs s) /\ forall j, j ∈ ts_unspent s -> 0 <= j < length (ts_outputs s).

(** The output that can be spent at a leaf. *)
Definition unspent_at (s : TState) (j : Z) : option OutputIdentifier :=
  if bool_decide (j ∈ ts_unspent s) then ts_outputs s !! Z.to_nat j else None.

Definition location_at (j height : Z) : OutputLocation := mkOutputLocation (LeafIndex_At j) height.
Definition ol_leaf (l : OutputLocation) : Z := m_leafIndex (ol_leafIndex l).

(** Every recorded position is that of a leaf. *)
Definition location_ok (l : OutputLocation) : Prop := exists j h, n_ok j /\ 0 <= h < 2 ^ 64 /\ l = location_at j h.
Definition pos_locs (positions : Positions) : Prop := forall k l, positions !! k = Some l -> location_ok l.

Definition ts_spend (j : Z) (s : TState) : TState :=
  mkTState (ts_kernels s) (ts_outputs s) (ts_proofs s) (ts_unspent s ∖ {[j]}) (ts_header s).
Definition ts_append (output : TransactionOutput) (s : TState) : TState :=
  mkTState (ts_kernels s) (ts_outputs s ++ [OutputIdentifier_FromOutput output]) (ts_proofs s ++ [mkRangeProof (to_rangeProof output)])
    ({[length (ts_outputs s) : Z]} ∪ ts_unspent s) (ts_header s).
Definition ts_add_kernels (kernels : list TransactionKernel) (s : TState) : TState :=
  mkTState (ts_kernels s ++ kernels) (ts_outputs s) (ts_proofs s) (ts_unspent s) (ts_header s).
Definition ts_set_header (h : option BlockHeader) (s : TState) : TState :=
  mkTState (ts_kernels s) (ts_outputs s) (ts_proofs s) (ts_unspent s) h.
(** Back to the first kernels and outputs, with the leaves [adds] unspent again. *)
Definition ts_rewind (kernels outputs : nat) (adds : list Z) (s : TState) : TState :=
  mkTState (take kernels (ts_kernels s)) (take outputs (ts_outputs s)) (take outputs (ts_proofs s))
    (filter (fun j => j < outputs) (list_to_set adds ∪ ts_unspent s)) (ts_header s).

(** Spending the inputs one by one: the state and the spent outputs, [None]
    when the block is rejected. *)
Fixpoint spend_spec (maximumBlockHeight : Z) (positions : Positions) (inputs : list TransactionInput) (s : TState)
    : result (option (TState * list SpentOutput)) :=
  match inputs with
  | [] => mret (Some (s, []))
  | input :: inputs =>
      match positions !! ti_commitment input with
      | None => mret None
      | Some l =>
          match unspent_at s (ol_leaf l) with
          | None => Throw UB
          | Some o =>
              if OutputIdentifier_IsCoinbase o && (ol_blockHeight l >? maximumBlockHeight) then mret None
              else
                r ← spend_spec maximumBlockHeight positions inputs (ts_spend (ol_leaf l) s);
                mret (option_map (fun x => (x.1, mkSpentOutput (ti_commitment input) l :: x.2)) r)
          end
      end
  end.

Definition is_unspent (s : TState) (l : OutputLocation) : bool := bool_decide (ol_leaf l ∈ ts_unspent s).

Fixpoint append_spec (height : Z) (outputs : list TransactionOutput) (x : TState * Positions) : option (TState * Positions) :=
  match outputs with
  | [] => Some x
  | output :: outputs =>
      if match x.2 !! to_commitment output with Some l => is_unspent x.1 l | None => false end then None
      else append_spec height outputs
        (ts_append output x.1, <[to_commitment output := location_at (length (ts_outputs x.1)) height]> x.2)
  end.

(** The effect of a block: the state, the positions, and what it spent. *)
Definition block_spec (env : Environment) (block : FullBlock) (x : TState * Positions) : result (option (TState * Positions * list SpentOutput)) :=
  spent ← spend_spec (GetMaxCoinbaseHeight env (FullBlock_GetHeight block)) x.2 (tb_inputs (fb_body block)) x.1;
  match spent with
  | None => mret None
  | Some (s, spent) =>
      mret (option_map (fun y =>
        (ts_set_header (Some (fb_header block)) (ts_add_kernels (tb_kernels (fb_body block)) y.1),
         delete_all (FullBlock_GetInputCommitments block) y.2, spent))
        (append_spec (FullBlock_GetHeight block) (tb_outputs (fb_body block)) (s, x.2)))
  end.

(** *** What the specification changes *)
(** What is spent was recorded. *)
Lemma spend_spec_spent (maxH : Z) (positions : Positions) (inputs : list TransactionInput) : forall (s s' : TState) (spent : list SpentOutput),
  spend_spec maxH positions inputs s = Ok (Some (s', spent)) ->
  map so_commitment spent = map ti_commitment inputs /\
  Forall (fun o => positions !! so_commitment o = Some (so_location o)) spent.
Proof.
  induction inputs as [|input inputs IH]; intros s s' spent E; cbn [spend_spec] in E.
  - injection E as <- <-. done.
  - destruct (positions !! ti_commitment input) as [l|] eqn:El; [|done]. destruct (unspent_at s (ol_leaf l)) as [o|]; [|done].
    destruct (OutputIdentifier_IsCoinbase o && (ol_blockHeight l >? maxH)); [done|].
    destruct (spend_spec maxH positions inputs (ts_spend (ol_leaf l) s)) as [[[s1 spent1]|]|e] eqn:E1; [|done..].
    injection E as <- <-. destruct (IH _ _ _ E1) as [Hm Hf]. cbn [map so_commitment]. by rewrite Hm; split; [|constructor].
Qed.

Lemma spend_spec_data (maxH : Z) (positions : Positions) (inputs : list TransactionInput) : forall (s s' : TState) (spent : list SpentOutput),
  spend_spec maxH positions inputs s = Ok (Some (s', spent)) ->
  ts_kernels s' = ts_kernels s /\ ts_outputs s' = ts_outputs s /\ ts_proofs s' = ts_proofs s /\ ts_header s' = ts_header s.
Proof.
  induction inputs as [|input inputs IH]; intros s s' spent E; cbn [spend_spec] in E.
  - by injection E as <- <-.
  - destruct (positions !! ti_commitment input) as [l|] eqn:El; [|done]. destruct (unspent_at s (ol_leaf l)) as [o|]; [|done].
    destruct (OutputIdentifier_IsCoinbase o && (ol_blockHeight l >? maxH)); [done|].
    destruct (spend_spec maxH positions inputs (ts_spend (ol_leaf l) s)) as [[[s1 spent1]|]|e] eqn:E1; [|done..].
    injection E as <- <-. by destruct (IH _ _ _ E1) as (-> & -> & -> & ->).
Qed.

Lemma append_spec_data (height : Z) (outputs : list TransactionOutput) : forall (s : TState) (positions : Positions) s' positions',
  append_spec height outputs (s, positions) = Some (s', positions') ->
  ts_kernels s' = ts_kernels s /\ ts_header s' = ts_header s /\
  ts_outputs s' = ts_outputs s ++ map OutputIdentifier_FromOutput outputs /\
  ts_proofs s' = ts_proofs s ++ map (fun o => mkRangeProof (to_rangeProof o)) outputs.
Proof.
  induction outputs as [|o outputs IH]; intros s positions s' positions' E; cbn [append_spec fst snd] in E.
  - injection E as <- <-. by rewrite !app_nil_r.
  - destruct (match positions !! to_commitment o with Some l => is_unspent s l | None => false end); [done|].
    destruct (IH _ _ _ _ E) as (-> & -> & -> & ->). cbn [ts_append ts_kernels ts_outputs ts_proofs ts_header map]. by rewrite <- !app_assoc.
Qed.

(** ** Tables that index the unspent outputs *)
Lemma unspent_at_Some s j o : unspent_at s j = Some o <-> j ∈ ts_unspent s /\ ts_outputs s !! Z.to_nat j = Some o.
Proof. unfold unspent_at. destruct (bool_decide_reflect (j ∈ ts_unspent s)); naive_solver. Qed.

Record chain_ok (x : TState * Positions) : Prop := {
  co_wf : ts_wf x.1;
  co_locs : pos_locs x.2;
  co_unspent : forall k l, x.2 !! k = Some l -> exists o, unspent_at x.1 (ol_leaf l) = Some o /\ oi_commitment o = k;
  co_indexed : forall j o, unspent_at x.1 j = Some o -> exists l, x.2 !! oi_commitment o = Some l /\ ol_leaf l = j;
}.

(** Positions of different commitments are different leaves. *)
Lemma chain_ok_inj x k k' l l' :
  chain_ok x -> x.2 !! k = Some l -> x.2 !! k' = Some l' -> ol_leaf l = ol_leaf l' -> k = k'.
Proof.
  intros Hx Hk Hk' E. destruct (co_unspent _ Hx _ _ Hk) as (o & Ho & <-). destruct (co_unspent _ Hx _ _ Hk') as (o' & Ho' & <-).
  rewrite E in Ho. congruence.
Qed.

(** *** Inputs *)
Definition spendable (maxH : Z) (x : TState * Positions) (i : TransactionInput) : bool :=
  match x.2 !! ti_commitment i with
  | Some l =>
      match unspent_at x.1 (ol_leaf l) with
      | Some o => negb (OutputIdentifier_IsCoinbase o && (ol_blockHeight l >? maxH))
      | None => false
      end
  | None => false
  end.

Definition spent_leaves (spent : list SpentOutput) : list Z := map (fun o => ol_leaf (so_location o)) spent.

Definition ts_spend_all (leaves : list Z) (s : TState) : TState :=
  mkTState (ts_kernels s) (ts_outputs s) (ts_proofs s) (ts_unspent s ∖ list_to_set leaves) (ts_header s).

Lemma spend_spec_state (maxH : Z) (positions : Positions) (inputs : list TransactionInput) : forall (s s' : TState) (spent : list SpentOutput),
  spend_spec maxH positions inputs s = Ok (Some (s', spent)) -> s' = ts_spend_all (spent_leaves spent) s.
Proof.
  induction inputs as [|input inputs IH]; intros s s' spent E; cbn [spend_spec] in E.
  - injection E as <- <-. destruct s. unfold ts_spend_all. cbn. f_equal. set_solver.
  - destruct (positions !! ti_commitment input) as [l|] eqn:El; [|done]. destruct (unspent_at s (ol_leaf l)) as [o|]; [|done].
    destruct (OutputIdentifier_IsCoinbase o && (ol_blockHeight l >? maxH)); [done|].
    destruct (spend_spec maxH positions inputs (ts_spend (ol_leaf l) s)) as [[[s1 spent1]|]|e] eqn:E1; [|done..].
    injection E as <- <-. rewrite (IH _ _ _ E1). unfold ts_spend_all, ts_spend. cbn. f_equal. set_solver.
Qed.

(** Every input is looked at in the state the block found. *)
Lemma spend_spec_valid (maxH : Z) x (inputs : list TransactionInput) : forall s,
  chain_ok x -> NoDup (map ti_commitment inputs) ->
  (forall i l, i ∈ inputs -> x.2 !! ti_commitment i = Some l -> unspent_at s (ol_leaf l) = unspent_at x.1 (ol_leaf l)) ->
  if forallb (spendable maxH x) inputs then exists s' spent, spend_spec maxH x.2 inputs s = Ok (Some (s', spent))
  else spend_spec maxH x.2 inputs s = Ok None.
Proof.
  induction inputs as [|i inputs IH]; intros s Hx Hnd Hs; cbn [forallb spend_spec]; [by eexists _, _|].
  cbn [map] in Hnd. apply NoDup_cons in Hnd as [Hni Hnd]. unfold spendable at 1.
  destruct (x.2 !! ti_commitment i) as [l|] eqn:El; [|done]. rewrite (Hs i l) by (done || apply list_elem_of_here).
  destruct (co_unspent _ Hx _ _ El) as (o & Ho & Hc). rewrite Ho.
  destruct (OutputIdentifier_IsCoinbase o && (ol_blockHeight l >? maxH)); cbn [negb andb]; [done|].
  specialize (IH (ts_spend (ol_leaf l) s) Hx Hnd). destruct (forallb (spendable maxH x) inputs).
  - destruct IH as (s' & spent & ->); [|by eexists _, _]. intros i' l' Hi' El'.
    rewrite <- (Hs i' l') by (done || by apply list_elem_of_further).
    assert (ol_leaf l <> ol_leaf l') as Hne.
    { intros E. apply Hni. rewrite (chain_ok_inj x _ _ l l' Hx El El' E). by apply list_elem_of_fmap_2. }
    unfold unspent_at, ts_spend. cbn [ts_unspent ts_outputs]. erewrite bool_decide_ext; [reflexivity|]. set_solver.
  - rewrite IH; [done|]. intros i' l' Hi' El'. rewrite <- (Hs i' l') by (done || by apply list_elem_of_further).
    assert (ol_leaf l <> ol_leaf l') as Hne.
    { intros E. apply Hni. rewrite (chain_ok_inj x _ _ l l' Hx El El' E). by apply list_elem_of_fmap_2. }
    unfold unspent_at, ts_spend. cbn [ts_unspent ts_outputs]. erewrite bool_decide_ext; [reflexivity|]. set_solver.
Qed.

(** *** Outputs *)
Lemma append_spec_valid (height : Z) (outputs : list TransactionOutput) : forall s (positions : Positions),
  (forall o l, o ∈ outputs -> positions !! to_commitment o = Some l -> ol_leaf l ∈ ts_unspent s) ->
  if bool_decide (Forall (fun o => positions !! to_commitment o = None) outputs /\ NoDup (map to_commitment outputs))
  then exists y, append_spec height outputs (s, positions) = Some y
  else append_spec height outputs (s, positions) = None.
Proof.
  induction outputs as [|o outputs IH]; intros s positions Hp; cbn [append_spec fst snd].
  - rewrite bool_decide_eq_true_2; [by eexists|]. by split; constructor.
  - destruct (positions !! to_commitment o) as [l|] eqn:El.
    + unfold is_unspent. rewrite (bool_decide_eq_true_2 (ol_leaf l ∈ _)) by (eapply Hp; [apply list_elem_of_here|done]).
      rewrite bool_decide_eq_false_2; [done|]. intros [Hf _]. apply Forall_cons in Hf as [Hf _]. congruence.
    + specialize (IH (ts_append o s) (<[to_commitment o := location_at (length (ts_outputs s)) height]> positions)).
      erewrite bool_decide_ext; [apply IH|].
      * intros o' l' Ho' [[E <-]|[Hne Hl']]%lookup_insert_Some; cbn [ts_append ts_unspent]; [change (ol_leaf _) with (length (ts_outputs s) : Z); set_solver|].
        apply elem_of_union_r. eapply Hp; [by apply list_elem_of_further|done].
      * cbn [map]. rewrite Forall_cons, NoDup_cons, !Forall_forall. setoid_rewrite lookup_insert_None. rewrite list_elem_of_fmap.
        split; [intros [[_ H1] [H2 H3]]; split; [|done]; intros o' Ho'; split; [by apply H1|]; intros E; apply H2; eauto|].
        intros [H1 H2]. split; [split; [done|]; intros o' Ho'; by apply H1|]. split; [|done].
        intros (o' & E & Ho'). by destruct (H1 o' Ho').
Qed.

Lemma append_spec_lookup (height : Z) (outputs : list TransactionOutput) : forall s (positions : Positions) s' positions',
  append_spec height outputs (s, positions) = Some (s', positions') -> NoDup (map to_commitment outputs) ->
  (forall k, k ∉ map to_commitment outputs -> positions' !! k = positions !! k) /\
  (forall i o, outputs !! i = Some o -> positions' !! to_commitment o = Some (location_at (length (ts_outputs s) + i)%nat height)) /\
  forall j, j ∈ ts_unspent s' <-> j ∈ ts_unspent s \/ length (ts_outputs s) <= j < length (ts_outputs s) + length outputs.
Proof.
  induction outputs as [|o outputs IH]; intros s positions s' positions' E Hnd; cbn [append_spec fst snd] in E.
  - injection E as <- <-. split; [done|]. split; [done|]. intros j. cbn [length]. split; [by left|]. intros [?|?]; [done|lia].
  - destruct (match positions !! to_commitment o with Some l => is_unspent s l | None => false end); [done|].
    cbn [map] in Hnd. apply NoDup_cons in Hnd as [Hni Hnd]. destruct (IH _ _ _ _ E Hnd) as (H1 & H2 & H3).
    cbn [ts_append ts_outputs ts_unspent] in H2, H3. split; [|split].
    + intros k [Hk Hks]%not_elem_of_cons. rewrite H1 by done. by apply lookup_insert_ne.
    + intros [|i] o'; cbn [lookup]; intros Ho'.
      * injection Ho' as <-. rewrite H1, lookup_insert_eq by done. by rewrite Nat.add_0_r.
      * rewrite (H2 i o' Ho'), length_app. cbn [length]. do 3 f_equal. lia.
    + intros j. rewrite H3, length_app. cbn [length]. rewrite elem_of_union, elem_of_singleton.
      split; [intros [[->|H]|H]; [right; lia|by left|right; lia]|]. intros [H|H]; [left; by right|].
      destruct (decide (j = length (ts_outputs s))); [left; by left|right; lia].
Qed.

(** ** Blocks *)

(** What the validation of a block has established: no commitment is spent
    twice, and none is both spent and created. *)
Definition distinct_inputs (b : FullBlock) : Prop := NoDup (FullBlock_GetInputCommitments b).
Definition cut_through (b : FullBlock) : Prop := forall k, k ∈ FullBlock_GetInputCommitments b -> k ∉ FullBlock_GetOutputCommitments b.

(** The blocks that are accepted: every input is an unspent output, mature if
    it is a coinbase; every output is new. *)
Definition block_valid (env : Environment) (b : FullBlock) (x : TState * Positions) : bool :=
  forallb (spendable (GetMaxCoinbaseHeight env (FullBlock_GetHeight b)) x) (tb_inputs (fb_body b)) &&
  bool_decide (Forall (fun o => x.2 !! to_commitment o = None) (tb_outputs (fb_body b)) /\ NoDup (FullBlock_GetOutputCommitments b)).

Lemma spent_leaves_lookup (positions : Positions) spent j :
  Forall (fun o => positions !! so_commitment o = Some (so_location o)) spent -> j ∈ spent_leaves spent ->
  exists k l, k ∈ map so_commitment spent /\ positions !! k = Some l /\ ol_leaf l = j.
Proof.
  intros Hf (o & -> & Ho)%list_elem_of_fmap. rewrite Forall_forall in Hf.
  exists (so_commitment o), (so_location o). split; [by apply list_elem_of_fmap_2|]. split; [by apply Hf|done].
Qed.

Lemma block_spec_accepts env b x :
  chain_ok x -> distinct_inputs b -> cut_through b ->
  if block_valid env b x then exists z spent, block_spec env b x = Ok (Some (z, spent)) else block_spec env b x = Ok None.
Proof.
  intros Hx Hd Hc. unfold block_spec, block_valid.
  pose proof (spend_spec_valid (GetMaxCoinbaseHeight env (FullBlock_GetHeight b)) x (tb_inputs (fb_body b)) x.1 Hx Hd ltac:(done)) as Hs.
  destruct (forallb _ _); cbn [andb]; [|by rewrite Hs]. destruct Hs as (s' & spent & E). rewrite E. cbn [mbind result_bind].
  destruct (spend_spec_spent _ _ _ _ _ _ E) as [Hm Hf]. apply spend_spec_state in E. subst s'.
  assert (forall o l, o ∈ tb_outputs (fb_body b) -> x.2 !! to_commitment o = Some l -> ol_leaf l ∈ ts_unspent (ts_spend_all (spent_leaves spent) x.1)) as Hp.
  { intros o l Ho El. cbn [ts_spend_all ts_unspent]. destruct (co_unspent _ Hx _ _ El) as (o' & Ho' & Eo'). apply unspent_at_Some in Ho' as [Hu _].
    apply elem_of_difference. split; [done|]. rewrite elem_of_list_to_set. intros Hl.
    destruct (spent_leaves_lookup x.2 spent _ Hf Hl) as (k & l' & Hk & El' & E'). rewrite Hm in Hk.
    apply (Hc k Hk). rewrite (chain_ok_inj x _ _ l' l Hx El' El E'). by apply list_elem_of_fmap_2. }
  pose proof (append_spec_valid (FullBlock_GetHeight b) _ _ _ Hp) as Ha. unfold FullBlock_GetOutputCommitments.
  destruct (bool_decide _); [|by rewrite Ha]. destruct Ha as (y & ->). cbn. by eexists _, _.
Qed.

(** The parts of an accepted block's effect. *)
Lemma block_spec_effect env b x z spent :
  block_spec env b x = Ok (Some (z, spent)) ->
  exists s positions,
    append_spec (FullBlock_GetHeight b) (tb_outputs (fb_body b)) (ts_spend_all (spent_leaves spent) x.1, x.2) = Some (s, positions) /\
    z = (ts_set_header (Some (fb_header b)) (ts_add_kernels (tb_kernels (fb_body b)) s), delete_all (FullBlock_GetInputCommitments b) positions) /\
    map so_commitment spent = FullBlock_GetInputCommitments b /\
    Forall (fun o => x.2 !! so_commitment o = Some (so_location o)) spent.
Proof.
  unfold block_spec. destruct (spend_spec _ x.2 (tb_inputs (fb_body b)) x.1) as [[[s1 spent1]|]|e] eqn:Es; cbn [mbind result_bind]; [|done..].
  destruct (append_spec _ _ (s1, x.2)) as [[s positions]|] eqn:Ea; cbn [option_map mret result_ret]; [|done].
  intros [= <- <-]. pose proof (spend_spec_state _ _ _ _ _ _ Es) as ->. destruct (spend_spec_spent _ _ _ _ _ _ Es) as [Hm Hf].
  by exists s, positions.
Qed.

Lemma block_spec_data env b x z spent :
  block_spec env b x = Ok (Some (z, spent)) ->
  ts_kernels z.1 = ts_kernels x.1 ++ tb_kernels (fb_body b) /\
  ts_outputs z.1 = ts_outputs x.1 ++ map OutputIdentifier_FromOutput (tb_outputs (fb_body b)) /\
  ts_proofs z.1 = ts_proofs x.1 ++ map (fun o => mkRangeProof (to_rangeProof o)) (tb_outputs (fb_body b)) /\
  ts_header z.1 = Some (fb_header b).
Proof.
  intros (s & positions & Ea & -> & _)%block_spec_effect. destruct (append_spec_data _ _ _ _ _ _ Ea) as (Ek & _ & Eo & Ep).
  cbn in *. by rewrite Ek, Eo, Ep.
Qed.

(** What an accepted block leaves: the unspent leaves and the positions. *)
Lemma block_spec_result env b x z spent :
  chain_ok x -> distinct_inputs b -> cut_through b -> block_spec env b x = Ok (Some (z, spent)) ->
  (forall j, j ∈ ts_unspent z.1 <-> j ∈ ts_unspent x.1 /\ j ∉ spent_leaves spent \/
     length (ts_outputs x.1) <= j < length (ts_outputs x.1) + length (tb_outputs (fb_body b))) /\
  (forall k, k ∈ FullBlock_GetInputCommitments b -> z.2 !! k = None) /\
  (forall i o, tb_outputs (fb_body b) !! i = Some o ->
     z.2 !! to_commitment o = Some (location_at (length (ts_outputs x.1) + i)%nat (FullBlock_GetHeight b))) /\
  (forall k, k ∉ FullBlock_GetInputCommitments b -> k ∉ FullBlock_GetOutputCommitments b -> z.2 !! k = x.2 !! k) /\
  (forall o, o ∈ tb_outputs (fb_body b) -> x.2 !! to_commitment o = None).
Proof.
  intros Hx Hd Hc E. pose proof (block_spec_accepts env b x Hx Hd Hc) as Hv. destruct (block_valid env b x) eqn:Ev; [|congruence]. clear Hv.
  apply andb_prop in Ev as [_ [Hnew Hnd]%bool_decide_eq_true_1].
  destruct (block_spec_effect _ _ _ _ _ E) as (s & positions & Ea & -> & Hm & Hf). cbn [fst snd ts_set_header ts_add_kernels ts_unspent].
  destruct (append_spec_lookup _ _ _ _ _ _ Ea Hnd) as (H1 & H2 & H3). cbn [ts_spend_all ts_unspent ts_outputs] in *.
  split; [intros j; rewrite H3, elem_of_difference, elem_of_list_to_set; tauto|]. split; [|split; [|split]].
  - intros k Hk. rewrite lookup_delete_all. by rewrite bool_decide_eq_true_2.
  - intros i o Ho. rewrite lookup_delete_all, bool_decide_eq_false_2; [by apply H2|].
    intros Hk. apply (Hc _ Hk). apply list_elem_of_fmap_2. by eapply list_elem_of_lookup_2.
  - intros k Hk Hk'. rewrite lookup_delete_all, bool_decide_eq_false_2 by done. by apply H1.
  - by apply Forall_forall.
Qed.

Lemma spent_leaves_iff env b x z spent k l :
  chain_ok x -> block_spec env b x = Ok (Some (z, spent)) -> x.2 !! k = Some l ->
  ol_leaf l ∈ spent_leaves spent <-> k ∈ FullBlock_GetInputCommitments b.
Proof.
  intros Hx (s & positions & _ & _ & Hm & Hf)%block_spec_effect Hk. split.
  - intros Hl. destruct (spent_leaves_lookup x.2 spent _ Hf Hl) as (k' & l' & Hk' & El' & E'). rewrite Hm in Hk'.
    by rewrite <- (chain_ok_inj x _ _ l' l Hx El' Hk E').
  - rewrite <- Hm. intros (o & -> & Ho)%list_elem_of_fmap. rewrite Forall_forall in Hf. rewrite (Hf _ Ho) in Hk. injection Hk as <-.
    apply list_elem_of_fmap. by exists o.
Qed.

Lemma block_spec_chain env b x z spent :
  chain_ok x -> distinct_inputs b -> cut_through b -> block_spec env b x = Ok (Some (z, spent)) ->
  n_ok (length (ts_outputs x.1) + length (tb_outputs (fb_body b))) -> 0 <= FullBlock_GetHeight b < 2 ^ 64 ->
  chain_ok z.
Proof.
  intros Hx Hd Hc E Hn Hh. pose proof (co_wf _ Hx) as [Hlen Hub].
  destruct (block_spec_result env b x z spent Hx Hd Hc E) as (Hu & Hin & Hout & Hrest & Hnew).
  destruct (block_spec_data _ _ _ _ _ E) as (_ & Eo & Ep & _).
  assert (forall j o, unspent_at z.1 j = Some o <->
    (j ∉ spent_leaves spent /\ unspent_at x.1 j = Some o) \/
    exists i o', tb_outputs (fb_body b) !! i = Some o' /\ j = (length (ts_outputs x.1) + i)%nat /\ o = OutputIdentifier_FromOutput o') as Hat.
  { intros j o. rewrite !unspent_at_Some, Hu, Eo. split.
    - intros [[[Hj Hs]|Hj] Ho].
      + left. split; [done|]. split; [done|]. specialize (Hub j Hj). by rewrite lookup_app_l in Ho by lia.
      + right. rewrite lookup_app_r in Ho by lia. rewrite list_lookup_fmap in Ho.
        apply fmap_Some in Ho as (o' & Ho' & ->). eexists _, o'. split; [exact Ho'|]. split; [lia|done].
    - intros [(Hs & Hj & Ho)|(i & o' & Ho' & -> & ->)].
      + split; [by left; split|]. by apply lookup_app_l_Some.
      + pose proof (lookup_lt_Some _ _ _ Ho'). split; [right; lia|]. rewrite Nat2Z.id, lookup_app_r by lia.
        replace (length (ts_outputs x.1) + i - length (ts_outputs x.1))%nat with i by lia. by rewrite list_lookup_fmap, Ho'. }
  constructor.
  - split; [by rewrite Eo, Ep, !length_app, !length_map, Hlen|]. intros j Hj. rewrite Eo, length_app, length_map.
    apply Hu in Hj as [[Hj _]|Hj]; [specialize (Hub j Hj)|]; lia.
  - intros k l Hk. destruct (decide (k ∈ FullBlock_GetInputCommitments b)) as [Hi|Hi]; [by rewrite Hin in Hk by done|].
    destruct (decide (k ∈ FullBlock_GetOutputCommitments b)) as [Ho|Ho].
    + apply list_elem_of_fmap in Ho as (o & -> & Ho). apply list_elem_of_lookup_1 in Ho as (i & Ho). rewrite (Hout i o Ho) in Hk.
      injection Hk as <-. eexists _, _. split; [|done]. pose proof (lookup_lt_Some _ _ _ Ho). eapply n_ok_mono; [|exact Hn]. lia.
    + rewrite Hrest in Hk by done. by apply (co_locs _ Hx _ _ Hk).
  - intros k l Hk. destruct (decide (k ∈ FullBlock_GetInputCommitments b)) as [Hi|Hi]; [by rewrite Hin in Hk by done|].
    destruct (decide (k ∈ FullBlock_GetOutputCommitments b)) as [Ho|Ho].
    + apply list_elem_of_fmap in Ho as (o & -> & Ho). apply list_elem_of_lookup_1 in Ho as (i & Ho). rewrite (Hout i o Ho) in Hk.
      injection Hk as <-. exists (OutputIdentifier_FromOutput o). split; [|done]. apply Hat. right. by exists i, o.
    + rewrite Hrest in Hk by done. destruct (co_unspent _ Hx _ _ Hk) as (o & Ho' & <-). exists o. split; [|done].
      apply Hat. left. split; [|done]. by rewrite (spent_leaves_iff env b x z spent _ l Hx E Hk).
  - intros j o [[Hs Ho]|(i & o' & Ho' & -> & ->)]%Hat.
    + destruct (co_indexed _ Hx _ _ Ho) as (l & Hl & <-). exists l. split; [|done].
      rewrite Hrest; [done|by rewrite <- (spent_leaves_iff env b x z spent _ l Hx E Hl)|].
      intros (o' & Eo' & Ho')%list_elem_of_fmap. rewrite Eo', (Hnew _ Ho') in Hl. done.
    + eexists. split; [by apply (Hout i)|done].
Qed.

(** ** Undoing blocks *)
Definition restore_spec (spent : list SpentOutput) (positions : Positions) : Positions :=
  foldl (fun m o => <[so_commitment o := so_location o]> m) positions spent.

Lemma restore_spec_lookup (spent : list SpentOutput) : forall (positions : Positions) k,
  NoDup (map so_commitment spent) ->
  restore_spec spent positions !! k =
    match list_find (fun o => so_commitment o = k) spent with Some (_, o) => Some (so_location o) | None => positions !! k end.
Proof.
  induction spent as [|o spent IH]; intros positions k Hnd; [done|]. cbn [map] in Hnd. apply NoDup_cons in Hnd as [Hni Hnd].
  cbn [restore_spec foldl list_find]. fold (restore_spec spent (<[so_commitment o:=so_location o]> positions)). rewrite IH by done.
  destruct (decide (so_commitment o = k)) as [<-|Hne].
  - destruct (list_find _ spent) as [[i o']|] eqn:Ef; [|by rewrite lookup_insert_eq].
    apply list_find_Some in Ef as (Ho & E & _). destruct Hni. rewrite <- E. apply list_elem_of_fmap_2. by eapply list_elem_of_lookup_2.
  - destruct (list_find _ spent) as [[i o']|]; [done|]. by rewrite lookup_insert_ne.
Qed.

(** The positions before a block, from those after. *)
Lemma block_undo_positions env b x z spent :
  chain_ok x -> distinct_inputs b -> cut_through b -> block_spec env b x = Ok (Some (z, spent)) ->
  restore_spec spent (delete_all (FullBlock_GetOutputCommitments b) z.2) = x.2.
Proof.
  intros Hx Hd Hc E. destruct (block_spec_result env b x z spent Hx Hd Hc E) as (Hu & Hin & Hout & Hrest & Hnew).
  destruct (block_spec_effect _ _ _ _ _ E) as (_ & _ & _ & _ & Hm & Hf). apply map_eq. intros k. rewrite restore_spec_lookup by (by rewrite Hm).
  destruct (list_find _ spent) as [[i o]|] eqn:Ef.
  - apply list_find_Some in Ef as (Ho & <- & _). rewrite Forall_forall in Hf. symmetry. apply Hf. by eapply list_elem_of_lookup_2.
  - apply list_find_None in Ef. assert (k ∉ FullBlock_GetInputCommitments b) as Hk.
    { rewrite <- Hm. intros (o & -> & Ho)%list_elem_of_fmap. rewrite Forall_forall in Ef. by apply (Ef o Ho). }
    rewrite lookup_delete_all. destruct (bool_decide_reflect (k ∈ FullBlock_GetOutputCommitments b)) as [Ho|Ho]; [|by apply Hrest].
    apply list_elem_of_fmap in Ho as (o & -> & Ho). symmetry. by apply Hnew.
Qed.

(** The leaves before a block: those after, with the spent ones, below the
    number of outputs there were. *)
Lemma block_undo_unspent env b x z spent j :
  chain_ok x -> distinct_inputs b -> cut_through b -> block_spec env b x = Ok (Some (z, spent)) ->
  j < length (ts_outputs x.1) -> (j ∈ spent_leaves spent \/ j ∈ ts_unspent z.1) <-> j ∈ ts_unspent x.1.
Proof.
  intros Hx Hd Hc E Hj. destruct (block_spec_result env b x z spent Hx Hd Hc E) as (Hu & _). rewrite Hu.
  destruct (block_spec_effect _ _ _ _ _ E) as (_ & _ & _ & _ & Hm & Hf). split.
  - intros [Hl|[[Hl _]|Hl]]; [|done|lia]. destruct (spent_leaves_lookup x.2 spent _ Hf Hl) as (k & l & _ & El & <-).
    destruct (co_unspent _ Hx _ _ El) as (o & Ho & _). by apply unspent_at_Some in Ho as [Ho _].
  - intros Hl. destruct (decide (j ∈ spent_leaves spent)); [by left|]. right. by left.
Qed.

(** [history env tb x bs y]: the blocks [bs], the last one first, lead from [x]
    to [y], and the tables hold what it takes to go back. *)
Inductive history (env : Environment) (tb : DBTables) (x : TState * Positions) : list FullBlock -> TState * Positions -> Prop :=
| history_nil : history env tb x [] x
| history_cons bs y b z spent previous :
    history env tb x bs y -> block_spec env b y = Ok (Some (z, spent)) -> distinct_inputs b -> cut_through b ->
    n_ok (length (ts_outputs y.1) + length (tb_outputs (fb_body b))) -> 0 <= FullBlock_GetHeight b < 2 ^ 64 ->
    ts_header y.1 = Some previous -> FullBlock_GetPreviousHash b = BlockHeader_GetHash previous ->
    FullBlock_GetHeight b = bh_height previous + 1 ->
    t_headers tb !! BlockHeader_GetHash previous = Some previous ->
    t_blocks tb !! FullBlock_GetHash b = Some b -> t_spent tb !! FullBlock_GetHash b = Some spent ->
    history env tb x (b :: bs) z.

Lemma history_chain env tb x bs y : chain_ok x -> history env tb x bs y -> chain_ok y.
Proof. intros Hx Hh. induction Hh; [done|]. by eapply block_spec_chain. Qed.

Lemma history_data env tb x bs y : history env tb x bs y ->
  ts_kernels x.1 `prefix_of` ts_kernels y.1 /\ ts_outputs x.1 `prefix_of` ts_outputs y.1 /\ ts_proofs x.1 `prefix_of` ts_proofs y.1.
Proof.
  intros Hh. induction Hh as [|bs y b z spent previous Hh (IHk & IHo & IHp) E]; [done|].
  destruct (block_spec_data _ _ _ _ _ E) as (-> & -> & -> & _). split; [|split]; by apply prefix_app_r.
Qed.

(** The current header: that of the last block, or that of the start; its
    height counts the blocks. *)
Lemma history_header env tb x bs y h0 : history env tb x bs y -> ts_header x.1 = Some h0 ->
  exists h, ts_header y.1 = Some h /\ bh_height h = bh_height h0 + length bs /\
    h = match bs with [] => h0 | b :: _ => fb_header b end.
Proof.
  intros Hh H0. induction Hh as [|bs y b z spent previous Hh IH E _ _ _ _ Hp _ Hheight]; [exists h0; split; [done|]; cbn; split; [lia|done]|].
  destruct (block_spec_data _ _ _ _ _ E) as (_ & _ & _ & ->). destruct IH as (h & Eh & Hn & _). exists (fb_header b). split; [done|].
  split; [|done]. unfold FullBlock_GetHeight in Hheight. cbn [length]. assert (previous = h) as -> by congruence. lia.
Qed.
