(* ===== verification/TxHashSetSpec.v ===== *)
(** * Specification of the transaction hash set

    The three MMRs represent a state of [UtxoSpec] with its committed copy:
    appending and spending outputs, adding kernels, rewinding, committing and
    rolling back keep that relation, and the roots are those of the state. *)
From S2P Require Import Prelude BitUtil MMRIndex MMRUtil Serial BigInteger File Roaring PruneList BitmapFile MMRHash SegmentId SegmentProof Bitmap Segment BitmapSegment Segmenter PruneableMMR PruneableSpec Consensus Transaction KernelMMR KernelSpec Header Block BlockSpec BlockDB TxHashSet UtxoSpec.

(** ** Range proofs as leaves *)
Definition RangeProof_wf (_ : EProtocolVersion) (p : RangeProof) : Prop := length (rp_proof p) = 675%nat.

#[export] Instance RangeProof_laws : SerializableLaws RangeProof RangeProof_wf.
Proof.
  constructor.
  - intros p s. unfold Serialized. cbn [Serialize RangeProof_Serializable]. unfold RangeProof_Serialize. serialize_bytes. done.
  - intros v [p] Hp. unfold RangeProof_wf in Hp. unfold Serialized. cbn [Serialize Deserialize RangeProof_Serializable rp_proof] in *.
    unfold RangeProof_Serialize. serialize_bytes.
    apply (reads_map _ RangeProof_Deserialize _ _ mkRangeProof). by apply reads_RangeProof.
Qed.

Lemma RangeProof_size p : RangeProof_wf V1 p -> length (Serialized V1 p) = RANGE_PROOF_SIZE.
Proof.
  unfold RangeProof_wf. intros Hp. unfold Serialized. cbn [Serialize RangeProof_Serializable]. unfold RangeProof_Serialize. serialize_bytes.
  rewrite length_app, length_be_bytes, Hp. done.
Qed.

Lemma OutputIdentifier_size o : OutputIdentifier_wf V1 o -> length (Serialized V1 o) = OUTPUT_SIZE.
Proof.
  intros [_ Hc]. unfold Serialized. cbn [Serialize OutputIdentifier_Serializable]. unfold Commitment_Serialize. serialize_bytes.
  rewrite length_app, length_be_bytes, Hc. done.
Qed.

Lemma OUTPUT_SIZE_small : 0 < OUTPUT_SIZE < 2 ^ 20.
Proof. unfold OUTPUT_SIZE. lia. Qed.
Lemma RANGE_PROOF_SIZE_small : 0 < RANGE_PROOF_SIZE < 2 ^ 20.
Proof. unfold RANGE_PROOF_SIZE. lia. Qed.

Lemma append_bit (n j : Z) (u : gset Z) : bool_decide (j ∈ {[n]} ∪ u) = (n =? j) || bool_decide (j ∈ u).
Proof.
  destruct (Z.eqb_spec n j) as [<-|]; cbn [orb]; [apply bool_decide_eq_true; set_solver|]. apply bool_decide_ext. set_solver.
Qed.

Lemma n_ok_pos n : n_ok n -> pos_ok (mmr_size n).
Proof. intros Hn. pose proof (n_ok_bound n Hn). unfold pos_ok. lia. Qed.

Lemma take_prefix {A} (l l' : list A) : l `prefix_of` l' -> take (length l) l' = l.
Proof. intros [k ->]. apply take_app_length. Qed.

Lemma BuildMap_lookup (spent : list SpentOutput) o :
  NoDup (map so_commitment spent) -> o ∈ spent -> SpentOutputs_BuildMap spent !! so_commitment o = Some (so_location o).
Proof.
  intros Hnd Ho. unfold SpentOutputs_BuildMap.
  assert (forall (l : list SpentOutput) (m : gmap (list Z) OutputLocation),
    NoDup (map so_commitment l) -> m !! so_commitment o = Some (so_location o) \/ (m !! so_commitment o = None /\ o ∈ l) ->
    foldl (fun m o => match m !! so_commitment o with Some _ => m | None => <[so_commitment o := so_location o]> m end) m l
      !! so_commitment o = Some (so_location o)) as H; [|by apply H; [|right]].
  intros l. induction l as [|o' l IH]; intros m Hl Hm; cbn [foldl]; [destruct Hm as [?|[_ Hx]]; [done|by apply not_elem_of_nil in Hx]|].
  cbn [map] in Hl. apply NoDup_cons in Hl as [Hni Hl]. apply IH; [done|].
  destruct Hm as [Hm|[Hm [->|Hin]%elem_of_cons]].
  - left. destruct (m !! so_commitment o') eqn:E'; [done|]. rewrite lookup_insert_ne; [done|]. congruence.
  - left. rewrite Hm. apply lookup_insert_eq.
  - right. split; [|done]. destruct (m !! so_commitment o') eqn:E'; [done|]. rewrite lookup_insert_ne; [done|].
    intros E. apply Hni. rewrite E. by apply list_elem_of_fmap_2.
Qed.

(** ** The bytes of the leaf set are bytes *)
Lemma bits_ok_Set i f : bits_ok f -> bits_ok (BitmapFile_Set i f).
Proof.
  intros Hf. pose proof (GetByte_is_byte (i / 8) f Hf) as Hb. destruct Hf as [Hm Hmod]. split; [done|]. apply map_Forall_insert_2; [|done].
  apply uint_lor; [done|done|]. apply uint_range. lia.
Qed.

Lemma bits_ok_Unset i f : bits_ok f -> bits_ok (BitmapFile_Unset i f).
Proof.
  intros Hf. pose proof (GetByte_is_byte (i / 8) f Hf) as Hb. destruct Hf as [Hm Hmod]. split; [done|]. apply map_Forall_insert_2; [|done].
  by apply uint_land.
Qed.

Lemma bits_ok_Rewind n adds f : bits_ok f -> bits_ok (BitmapFile_Rewind n adds f).
Proof.
  intros Hf. unfold BitmapFile_Rewind. generalize (seqZ n (BitmapFile_GetNumBytes (foldl (fun f i => BitmapFile_Set i f) f adds) * 8 - n)). intros l.
  assert (bits_ok (foldl (fun f i => BitmapFile_Set i f) f adds)) as Hf'.
  { revert f Hf. induction adds as [|i adds IH]; intros f Hf; [done|]. by apply IH, bits_ok_Set. }
  revert Hf'. generalize (foldl (fun f i => BitmapFile_Set i f) f adds). clear f Hf.
  induction l as [|i l IH]; intros f Hf; [done|]. by apply IH, bits_ok_Unset.
Qed.

Lemma bits_ok_Commit f : bits_ok f -> bits_ok (BitmapFile_Commit f).
Proof.
  intros Hf. unfold BitmapFile_Commit. case_decide; [done|]. destruct Hf as [Hm Hmod]. split; cbn [m_mmap m_modifiedBytes]; [|apply map_Forall_empty].
  revert Hmod. apply (map_fold_weak_ind (fun r (m : gmap Z Z) => map_Forall (fun _ b => is_byte b) m -> Forall is_byte r)); [done|].
  intros i b m r Hi IH Hmod. apply map_Forall_insert in Hmod as [Hb Hmod]; [|done].
  unfold write_at. apply Forall_insert; [|done]. apply Forall_app. split; [by apply IH|]. apply Forall_forall.
  intros x Hx. apply list_elem_of_In, repeat_spec in Hx as ->. unfold is_byte, is_uint. lia.
Qed.

Lemma bits_ok_Rollback f : bits_ok f -> bits_ok (BitmapFile_Rollback f).
Proof. intros [Hm _]. split; [done|apply map_Forall_empty]. Qed.

(** ** Leaves that stay readable

    Appending, spending, rewinding, committing and rolling back never compact a
    leaf: the leaves [live] that the prune lists (the one on disk too) keep
    visible stay so. *)
Section live.
Context {F : Type} {HF : HashFile F} {HFL : HashFileLaws F} {R : Type} {HR : Roaring R} {HL : RoaringLaws R}.
Context {D : Type} {HD : Serializable D} {wf : EProtocolVersion -> D -> Prop} {HSL : SerializableLaws D wf}.
Context (Blake2b : bytes -> Hash) (N : nat).
Local Abbreviation PM := (PruneableMMR F R).
Implicit Types (m : PM).
Hypothesis Blake2b_length : forall x, length (Blake2b x) = 32%nat.
Hypothesis Blake2b_nonzero : forall x, Blake2b x <> ZERO_HASH.
Hypothesis N_small : 0 < N < 2 ^ 20.

Record pm_live (floor : Z) (live : Z -> Prop) (s : PMSpec D) m : Prop := {
  lv_rel : pm_rel (wf := wf) Blake2b N floor s m;
  lv_visible : forall j, 0 <= j -> live j -> leaf_visible (pm_pruneList m) j = true;
  lv_cvisible : forall q, pl_file q = pl_file (pm_pruneList m) ->
    forall j, 0 <= j -> live j -> leaf_visible (PruneList_Rollback q) j = true;
  lv_bits : bits_ok (pm_leafSet m);
}.

Lemma leaf_visible_roots (p p' : PruneList R) j :
  Roaring_elems (m_prunedRoots p') = Roaring_elems (m_prunedRoots p) -> leaf_visible p' j = leaf_visible p j.
Proof. intros E. unfold leaf_visible, visible. by rewrite E. Qed.

(** The prune list after a step. *)
Lemma step_prunes floor (o : pm_op D) s m :
  pm_rel (wf := wf) Blake2b N floor s m -> pm_op_ok (wf := wf) N floor o s ->
  let m' := (pm_step Blake2b N o m).2 in
  pm_pruneList m' = pm_pruneList m \/
  pm_pruneList m' = PruneList_Rollback (pm_pruneList m) \/
  (Roaring_elems (m_prunedRoots (pm_pruneList m')) = Roaring_elems (m_prunedRoots (pm_pruneList m)) /\
   forall q, pl_file q = pl_file (pm_pruneList m') ->
     Roaring_elems (m_prunedRoots (PruneList_Rollback q)) = Roaring_elems (m_prunedRoots (pm_pruneList m))).
Proof using Blake2b_length N_small HFL HL HSL.
  intros Hrel Ho m'. pose proof (rel_ok _ _ _ _ _ Hrel) as Hok. subst m'. destruct o as [d|j|k adds| |]; cbn [pm_step].
  - left. rewrite Append_AppendLeaf. destruct Ho as (Hwf & Hlen & Hn).
    destruct (pmmr_AppendLeaf Blake2b N Blake2b_length N_small _ _ (pm_SetDirty true m) d (pmmr_SetDirty Blake2b N _ _ _ Hok) eq_refl Hwf Hlen Hn)
      as (m' & -> & _ & _ & Ep & _). exact Ep.
  - left. unfold PruneableMMR_Remove, mbind, ST_bind, st_get, st_throw, st_modify. by destruct (negb _).
  - left. destruct Ho as [Hk Ha]. pose proof (rel_floor _ _ _ _ _ Hrel).
    destruct (pmmr_Rewind Blake2b N N_small _ _ m k adds Hok) as (m' & -> & _ & _ & Ep & _); [lia| |exact Ep].
    eapply prune_wf_mono; [|apply (rel_prunes _ _ _ _ _ Hrel)]. lia.
  - destruct (pmmr_Commit Blake2b N _ _ m Hok) as (m' & -> & _ & _ & _ & E). cbn [snd].
    destruct (pm_dirty m); [right; right; exact E|left; by subst m'].
  - unfold st_modify, PruneableMMR_Rollback. cbn [snd]. destruct (pm_dirty m); cbn [pm_pruneList]; auto.
Qed.

Lemma step_bits floor (o : pm_op D) s m :
  pm_rel (wf := wf) Blake2b N floor s m -> pm_op_ok (wf := wf) N floor o s -> bits_ok (pm_leafSet m) ->
  bits_ok (pm_leafSet (pm_step Blake2b N o m).2).
Proof using Blake2b_length N_small HFL HL HSL.
  intros Hrel Ho Hb. pose proof (rel_ok _ _ _ _ _ Hrel) as Hok. destruct o as [d|j|k adds| |]; cbn [pm_step].
  - rewrite Append_AppendLeaf. destruct Ho as (Hwf & Hlen & Hn).
    destruct (pmmr_AppendLeaf Blake2b N Blake2b_length N_small _ _ (pm_SetDirty true m) d (pmmr_SetDirty Blake2b N _ _ _ Hok) eq_refl Hwf Hlen Hn)
      as (m' & -> & _ & _ & _ & El). cbn [snd]. rewrite El. by apply bits_ok_Set.
  - unfold PruneableMMR_Remove, mbind, ST_bind, st_get, st_throw, st_modify. destruct (negb _); [done|]. by apply bits_ok_Unset.
  - destruct Ho as [Hk Ha]. pose proof (rel_floor _ _ _ _ _ Hrel).
    destruct (pmmr_Rewind Blake2b N N_small _ _ m k adds Hok) as (m' & -> & _ & _ & _ & El); [lia| |].
    + eapply prune_wf_mono; [|apply (rel_prunes _ _ _ _ _ Hrel)]. lia.
    + cbn [snd]. rewrite El. by apply bits_ok_Rewind.
  - destruct (pmmr_Commit Blake2b N _ _ m Hok) as (m' & -> & _ & _ & El & _). cbn [snd]. rewrite El.
    destruct (pm_dirty m); [by apply bits_ok_Commit|done].
  - unfold st_modify, PruneableMMR_Rollback. cbn [snd]. destruct (pm_dirty m); [by apply bits_ok_Rollback|done].
Qed.

Lemma lv_step floor live o s m :
  pm_live floor live s m -> pm_op_ok (wf := wf) N floor o s ->
  exists m', pm_step Blake2b N o m = ((pm_spec_step o s).1, m') /\ pm_live floor live (pm_spec_step o s).2 m'.
Proof using Blake2b_length N_small HFL HL HSL.
  intros [Hrel Hv Hc Hb] Ho. pose proof (step_prunes floor o s m Hrel Ho) as Hp. pose proof (step_bits floor o s m Hrel Ho Hb) as Hb'.
  destruct (pm_step_refines Blake2b N Blake2b_length N_small floor o s m Hrel Ho) as (m' & E & Hrel'). rewrite E in Hp, Hb'. cbn [snd] in Hp, Hb'.
  exists m'. split; [done|]. constructor; [done| | |done].
  - intros j Hj Hl. destruct Hp as [-> | [-> | [Er _]]]; [by apply Hv|by apply Hc|]. rewrite (leaf_visible_roots (pm_pruneList m)) by done. by apply Hv.
  - intros q Hq j Hj Hl. destruct Hp as [Ep | [Ep | [_ Er]]].
    + rewrite Ep in Hq. by apply Hc.
    + rewrite Ep, Rollback_file in Hq. by apply Hc.
    + rewrite (leaf_visible_roots (pm_pruneList m)) by auto. by apply Hv.
Qed.
End live.

(** What is read of a leaf. *)
Section live_reads.
Context {F : Type} {HF : HashFile F} {HFL : HashFileLaws F} {R : Type} {HR : Roaring R} {HL : RoaringLaws R}.
Context {D : Type} {HD : Serializable D} {wf : EProtocolVersion -> D -> Prop} {HSL : SerializableLaws D wf}.
Context (Blake2b : bytes -> Hash) (N : nat).
Hypothesis N_small : 0 < N < 2 ^ 20.
Implicit Types (m : PruneableMMR F R).

Lemma lv_IsUnpruned floor live (s : PMSpec D) m j :
  pm_live (wf := wf) Blake2b N floor live s m -> 0 <= j -> (sp_unspent s j = true -> j < length (sp_data s)) ->
  IsUnpruned (LeafIndex_At j) m = sp_unspent s j.
Proof.
  intros [Hrel _ _ _] Hj Hlt. pose proof (rel_ok _ _ _ _ _ Hrel) as Hok. unfold IsUnpruned, LeafSet_Contains.
  change (m_leafIndex (LeafIndex_At j)) with j. rewrite (rel_unspent _ _ _ _ _ Hrel) by done.
  destruct (sp_unspent s j) eqn:E; [|by rewrite andb_false_r]. rewrite andb_true_r.
  destruct (pmmr_leaf_index Blake2b N _ _ m j Hok ltac:(auto with lia)) as [Ei Hpos]. rewrite (pmmr_GetSize Blake2b N _ _ m Hok), Ei.
  apply Z.ltb_lt. cbn. lia.
Qed.

Lemma lv_GetAt floor live (s : PMSpec D) m j :
  pm_live (wf := wf) Blake2b N floor live s m -> 0 <= j ->
  (sp_unspent s j = true -> j < length (sp_data s) /\ (floor <= j \/ live j)) ->
  PruneableMMR_GetAt N (LeafIndex_At j) m = Ok (if sp_unspent s j then sp_data s !! Z.to_nat j else None).
Proof.
  intros Hlv Hj Hun. pose proof Hlv as [Hrel Hv _ _]. pose proof (rel_ok _ _ _ _ _ Hrel) as Hok. unfold PruneableMMR_GetAt.
  rewrite (lv_IsUnpruned floor live s) by (done || naive_solver). destruct (sp_unspent s j); [|done].
  destruct (Hun eq_refl) as [Hlt Hl]. rewrite (pmmr_GetDataAt Blake2b N N_small _ _ m j Hok) by lia.
  assert (leaf_visible (pm_pruneList m) j = true) as ->; [|done]. destruct Hl as [Hl|Hl]; [|by apply Hv].
  pose proof (rel_floor _ _ _ _ _ Hrel). apply (leaf_visible_beyond N _ floor); [apply (rel_prunes _ _ _ _ _ Hrel)|lia].
Qed.

Lemma pm_rel_ext floor (s s' : PMSpec D) m :
  pm_rel (wf := wf) Blake2b N floor s m -> sp_data s' = sp_data s -> sp_cdata s' = sp_cdata s ->
  (forall j, 0 <= j -> sp_unspent s' j = sp_unspent s j) -> (forall j, 0 <= j -> sp_cunspent s' j = sp_cunspent s j) ->
  pm_rel (wf := wf) Blake2b N floor s' m.
Proof.
  intros [Hok Hu Hcu Hk Hclean Hfl Hp Hcp] E1 E2 E3 E4. constructor; rewrite ?E1, ?E2; try done.
  - intros j Hj. rewrite E3 by done. by apply Hu.
  - intros j Hj. rewrite E4 by done. by apply Hcu.
  - intros Hd j Hj. rewrite E3, E4 by done. by apply Hclean.
Qed.

Lemma pm_live_ext floor live (s s' : PMSpec D) m :
  pm_live (wf := wf) Blake2b N floor live s m -> sp_data s' = sp_data s -> sp_cdata s' = sp_cdata s ->
  (forall j, 0 <= j -> sp_unspent s' j = sp_unspent s j) -> (forall j, 0 <= j -> sp_cunspent s' j = sp_cunspent s j) ->
  pm_live (wf := wf) Blake2b N floor live s' m.
Proof. intros [Hrel Hv Hc Hb] E1 E2 E3 E4. constructor; [|done|done|done]. by eapply pm_rel_ext. Qed.
End live_reads.

(** The chunk of the bitmap of unspent outputs. *)
Definition bitmap_chunk (unspent : gset Z) (i : Z) : BitmapChunk :=
  foldl (fun chunk k => if bool_decide (i * LEN_BITS + k ∈ unspent) then BitmapChunk_Set k true chunk else chunk)
    BitmapChunk_new (seqZ 0 LEN_BITS).

Lemma bitmap_chunk_bits unspent i :
  BitmapChunk_wf V1 (bitmap_chunk unspent i) /\
  forall j, 0 <= j < LEN_BITS -> BitmapChunk_IsSet j (bitmap_chunk unspent i) = bool_decide (i * LEN_BITS + j ∈ unspent).
Proof.
  unfold bitmap_chunk.
  assert (forall l c, Forall (fun k => 0 <= k < LEN_BITS) l -> BitmapChunk_wf V1 c ->
    let c' := foldl (fun chunk k => if bool_decide (i * LEN_BITS + k ∈ unspent) then BitmapChunk_Set k true chunk else chunk) c l in
    BitmapChunk_wf V1 c' /\ forall j, 0 <= j < LEN_BITS ->
      BitmapChunk_IsSet j c' = BitmapChunk_IsSet j c || bool_decide (j ∈ l) && bool_decide (i * LEN_BITS + j ∈ unspent)) as H.
  { intros l. induction l as [|k l IH]; intros c Hl Hc; cbn [foldl].
    - split; [done|]. intros j Hj. rewrite (bool_decide_eq_false_2 (j ∈ [])) by apply not_elem_of_nil. by rewrite orb_false_r.
    - apply Forall_cons in Hl as [Hk Hl].
      destruct (IH (if bool_decide (i * LEN_BITS + k ∈ unspent) then BitmapChunk_Set k true c else c) Hl) as [Hw Hbit];
        [destruct (bool_decide _); [by apply BitmapChunk_Set_wf|done]|].
      split; [done|]. intros j Hj. rewrite Hbit by done. rewrite (bool_decide_ext (j ∈ k :: l) (j = k \/ j ∈ l)) by apply elem_of_cons.
      rewrite bool_decide_or. destruct (bool_decide_reflect (i * LEN_BITS + k ∈ unspent)) as [Hu|Hu].
      + rewrite chunk_IsSet_Set by (done || lia). destruct (Z.eqb_spec k j) as [->|Hne].
        * rewrite (bool_decide_eq_true_2 (j = j)), (bool_decide_eq_true_2 (_ ∈ unspent)) by done. cbn. by rewrite orb_true_r.
        * rewrite (bool_decide_eq_false_2 (j = k)) by congruence. done.
      + destruct (bool_decide_reflect (j = k)) as [->|]; [|done]. rewrite (bool_decide_eq_false_2 (_ ∈ unspent)) by done. by rewrite !andb_false_r. }
  destruct (H (seqZ 0 LEN_BITS) BitmapChunk_new) as [Hw Hbit]; [apply Forall_forall; intros k Hk%elem_of_seqZ; lia|apply BitmapChunk_new_wf|].
  split; [exact Hw|]. intros j Hj. rewrite Hbit by done. rewrite chunk_new_unset. rewrite bool_decide_eq_true_2; [done|]. apply elem_of_seqZ. lia.
Qed.

(** ** The relation *)
Section refinement.
Context {F : Type} {HF : HashFile F} {HFL : HashFileLaws F} {R : Type} {HR : Roaring R} {HL : RoaringLaws R}.
Context (Blake2b : bytes -> Hash).
Local Abbreviation TS := (TxHashSet F R).
Implicit Types (t : TS) (s c : TState).

Definition outputs_view s c : PMSpec OutputIdentifier :=
  mkPMSpec (ts_outputs s) (fun j => bool_decide (j ∈ ts_unspent s)) (ts_outputs c) (fun j => bool_decide (j ∈ ts_unspent c)).
Definition proofs_view s c : PMSpec RangeProof :=
  mkPMSpec (ts_proofs s) (fun j => bool_decide (j ∈ ts_unspent s)) (ts_proofs c) (fun j => bool_decide (j ∈ ts_unspent c)).

(** A leaf that is never compacted: it is younger than [floor], or was unspent
    there. *)
Definition leaf_live (floor : Z) (base : gset Z) (j : Z) : Prop := floor <= j \/ j ∈ base.

Record ths_rel (floor : Z) (base : gset Z) s c t : Prop := {
  tr_kernels : kernel_ok (wf := TransactionKernel_wf) Blake2b (ts_kernels s) (ts_kernels c) (m_pKernelMMR t);
  tr_outputs : pm_live (wf := OutputIdentifier_wf) Blake2b OUTPUT_SIZE floor (.∈ base) (outputs_view s c) (m_pOutputPMMR t);
  tr_proofs : pm_live (wf := RangeProof_wf) Blake2b RANGE_PROOF_SIZE floor (.∈ base) (proofs_view s c) (m_pRangeProofPMMR t);
  tr_header : m_pBlockHeader t = ts_header s;
  tr_backup : m_pBlockHeaderBackup t = ts_header c;
  tr_wf : ts_wf s;
  tr_cwf : ts_wf c;
  tr_live : forall j, j ∈ ts_unspent s ∪ ts_unspent c -> leaf_live floor base j;
}.

Hypothesis Blake2b_length : forall x, length (Blake2b x) = 32%nat.
Hypothesis Blake2b_nonzero : forall x, Blake2b x <> ZERO_HASH.

#[local] Set Default Proof Using "All".

(** *** Reads *)
Lemma ths_GetOutputAt floor base s c t j :
  ths_rel floor base s c t -> 0 <= j -> GetOutputAt (LeafIndex_At j) t = Ok (unspent_at s j).
Proof.
  intros Hr Hj. unfold GetOutputAt. rewrite (lv_GetAt (wf := OutputIdentifier_wf) Blake2b OUTPUT_SIZE OUTPUT_SIZE_small floor (.∈ base) (outputs_view s c)); [|apply Hr|done|].
  - unfold unspent_at. cbn [outputs_view sp_unspent sp_data]. by destruct (bool_decide _).
  - cbn [outputs_view sp_unspent sp_data]. intros Hu%bool_decide_eq_true_1. split; [by apply (tr_wf _ _ _ _ _ Hr)|].
    apply (tr_live _ _ _ _ _ Hr). set_solver.
Qed.

Lemma ths_IsUnpruned floor base s c t j :
  ths_rel floor base s c t -> 0 <= j -> IsUnpruned (LeafIndex_At j) (m_pOutputPMMR t) = bool_decide (j ∈ ts_unspent s).
Proof.
  intros Hr Hj. apply (lv_IsUnpruned (wf := OutputIdentifier_wf) Blake2b OUTPUT_SIZE floor (.∈ base) (outputs_view s c)); [apply Hr|done|].
  cbn [outputs_view sp_unspent sp_data]. intros Hu%bool_decide_eq_true_1. by apply (tr_wf _ _ _ _ _ Hr).
Qed.

Lemma ths_GetOutputMMRSize floor base s c t : ths_rel floor base s c t -> GetOutputMMRSize t = mmr_size (length (ts_outputs s)).
Proof. intros Hr. eapply pmmr_GetSize. apply (rel_ok _ _ _ _ _ (lv_rel _ _ _ _ _ _ (tr_outputs _ _ _ _ _ Hr))). Qed.

#[local] Opaque OUTPUT_SIZE RANGE_PROOF_SIZE.

(** *** Updates *)
Lemma rel_update floor base s c t s' k mo mp :
  ths_rel floor base s c t ->
  kernel_ok (wf := TransactionKernel_wf) Blake2b (ts_kernels s') (ts_kernels c) k ->
  pm_live (wf := OutputIdentifier_wf) Blake2b OUTPUT_SIZE floor (.∈ base) (outputs_view s' c) mo ->
  pm_live (wf := RangeProof_wf) Blake2b RANGE_PROOF_SIZE floor (.∈ base) (proofs_view s' c) mp ->
  ts_header s' = ts_header s -> ts_wf s' -> (forall j, j ∈ ts_unspent s' -> leaf_live floor base j) ->
  ths_rel floor base s' c (ths_set_rangeProofs mp (ths_set_outputs mo (ths_set_kernels k t))).
Proof.
  intros Hr Hk Ho Hp Hh Hw Hl. pose proof Hr as [_ _ _ Hh0 Hb0 _ Hcw Hl0]. constructor; try done.
  - cbn. by rewrite Hh.
  - intros j [Hj|Hj]%elem_of_union; [by apply Hl|]. apply Hl0. set_solver.
Qed.

(** Removing a leaf from both MMRs. *)
Lemma ths_spend floor base s c t j :
  ths_rel floor base s c t -> 0 <= j -> j ∈ ts_unspent s ->
  exists mo mp, PruneableMMR_Remove (LeafIndex_At j) (m_pOutputPMMR t) = (Ok tt, mo) /\
    PruneableMMR_Remove (LeafIndex_At j) (m_pRangeProofPMMR t) = (Ok tt, mp) /\
    ths_rel floor base (ts_spend j s) c (ths_set_rangeProofs mp (ths_set_outputs mo t)).
Proof.
  intros Hr Hj Hu. pose proof (tr_wf _ _ _ _ _ Hr) as [Hlen Hub].
  destruct (lv_step Blake2b OUTPUT_SIZE Blake2b_length OUTPUT_SIZE_small floor (.∈ base) (PRemove j) _ _ (tr_outputs _ _ _ _ _ Hr) Hj) as (mo & Eo & Ho).
  destruct (lv_step Blake2b RANGE_PROOF_SIZE Blake2b_length RANGE_PROOF_SIZE_small floor (.∈ base) (PRemove j) _ _ (tr_proofs _ _ _ _ _ Hr) Hj) as (mp & Ep & Hp).
  cbn [pm_step pm_spec_step outputs_view proofs_view sp_unspent fst snd] in *. rewrite bool_decide_eq_true_2 in Eo, Ep, Ho, Hp by done.
  exists mo, mp. split; [done|]. split; [done|].
  assert (forall j', 0 <= j' -> bool_decide (j' ∈ ts_unspent s ∖ {[j]}) = negb (j =? j') && bool_decide (j' ∈ ts_unspent s)) as Hbit.
  { intros j' Hj'. destruct (Z.eqb_spec j j') as [<-|]; cbn [negb andb]; [apply bool_decide_eq_false; set_solver|].
    apply bool_decide_ext. set_solver. }
  change (ths_set_rangeProofs mp (ths_set_outputs mo t)) with
    (ths_set_rangeProofs mp (ths_set_outputs mo (ths_set_kernels (m_pKernelMMR t) t))).
  eapply rel_update; [exact Hr|apply (tr_kernels _ _ _ _ _ Hr)| | |done| |].
  - eapply pm_live_ext; [exact Ho|done|done|exact Hbit|done].
  - eapply pm_live_ext; [exact Hp|done|done|exact Hbit|done].
  - split; [done|]. intros j' Hj'. apply Hub. set_solver.
  - intros j' Hj'. apply (tr_live _ _ _ _ _ Hr). set_solver.
Qed.

(** An output that can be appended. *)
Definition output_ok (n : Z) (o : TransactionOutput) : Prop := TransactionOutput_wf V1 o /\ n_ok (n + 1).

Lemma ths_append_outputs floor base s c t o :
  ths_rel floor base s c t -> output_ok (length (ts_outputs s)) o ->
  exists mo, pm_step Blake2b OUTPUT_SIZE (PAppend (OutputIdentifier_FromOutput o)) (m_pOutputPMMR t) = (Ok tt, mo) /\
    pm_live (wf := OutputIdentifier_wf) Blake2b OUTPUT_SIZE floor (.∈ base) (outputs_view (ts_append o s) c) mo.
Proof.
  intros Hr [(Hf & Hc & Hrp) Hn].
  assert (OutputIdentifier_wf V1 (OutputIdentifier_FromOutput o)) as Hwo by (split; [exact Hf|exact Hc]).
  pose proof (OutputIdentifier_size _ Hwo) as Hs.
  destruct (lv_step (wf := OutputIdentifier_wf) Blake2b OUTPUT_SIZE Blake2b_length OUTPUT_SIZE_small floor (.∈ base) (PAppend (OutputIdentifier_FromOutput o)) _ _ (tr_outputs _ _ _ _ _ Hr) (conj Hwo (conj Hs Hn)))
    as (mo & Eo & Ho).
  exists mo. split; [exact Eo|].
  eapply pm_live_ext; [exact Ho|reflexivity|reflexivity| |reflexivity].
  intros j Hj. cbn [outputs_view ts_append ts_unspent pm_spec_step snd sp_unspent sp_data]. rewrite append_bit. reflexivity.
Qed.

Lemma ths_append_proofs floor base s c t o :
  ths_rel floor base s c t -> output_ok (length (ts_outputs s)) o ->
  exists mp, pm_step Blake2b RANGE_PROOF_SIZE (PAppend (mkRangeProof (to_rangeProof o))) (m_pRangeProofPMMR t) = (Ok tt, mp) /\
    pm_live (wf := RangeProof_wf) Blake2b RANGE_PROOF_SIZE floor (.∈ base) (proofs_view (ts_append o s) c) mp.
Proof.
  intros Hr [(Hf & Hc & Hrp) Hn]. destruct (tr_wf _ _ _ _ _ Hr) as [Hlen _].
  pose proof (RangeProof_size (mkRangeProof (to_rangeProof o)) Hrp) as Hs. rewrite <- Hlen in Hn.
  destruct (lv_step (wf := RangeProof_wf) Blake2b RANGE_PROOF_SIZE Blake2b_length RANGE_PROOF_SIZE_small floor (.∈ base) (PAppend (mkRangeProof (to_rangeProof o))) _ _ (tr_proofs _ _ _ _ _ Hr) (conj Hrp (conj Hs Hn)))
    as (mp & Ep & Hp).
  exists mp. split; [exact Ep|].
  eapply pm_live_ext; [exact Hp|reflexivity|reflexivity| |reflexivity].
  intros j Hj. cbn [proofs_view ts_append ts_unspent pm_spec_step snd sp_unspent sp_data]. rewrite append_bit, Hlen. reflexivity.
Qed.

Lemma pm_step_append {D} `{Serializable D} N (d : D) (m : PruneableMMR F R) : pm_step Blake2b N (PAppend d) m = PruneableMMR_Append Blake2b d m.
Proof. reflexivity. Qed.

Lemma ths_append floor base s c t o :
  ths_rel floor base s c t -> output_ok (length (ts_outputs s)) o ->
  exists mo mp, PruneableMMR_Append Blake2b (OutputIdentifier_FromOutput o) (m_pOutputPMMR t) = (Ok tt, mo) /\
    PruneableMMR_Append Blake2b (mkRangeProof (to_rangeProof o)) (m_pRangeProofPMMR t) = (Ok tt, mp) /\
    ths_rel floor base (ts_append o s) c (ths_set_rangeProofs mp (ths_set_outputs mo t)).
Proof.
  intros Hr Ho. pose proof (tr_wf _ _ _ _ _ Hr) as [Hlen Hub].
  destruct (ths_append_outputs floor base s c t o Hr Ho) as (mo & Eo & Hlo).
  destruct (ths_append_proofs floor base s c t o Hr Ho) as (mp & Ep & Hlp). rewrite pm_step_append in Eo. rewrite pm_step_append in Ep.
  exists mo, mp. split; [exact Eo|]. split; [exact Ep|].
  pose proof (rel_floor _ _ _ _ _ (lv_rel _ _ _ _ _ _ (tr_outputs _ _ _ _ _ Hr))) as (Hfl & Hfl' & _). cbn [outputs_view sp_data] in Hfl'.
  change (ths_set_rangeProofs mp (ths_set_outputs mo t)) with
    (ths_set_rangeProofs mp (ths_set_outputs mo (ths_set_kernels (m_pKernelMMR t) t))).
  eapply rel_update; [exact Hr|apply (tr_kernels _ _ _ _ _ Hr)|exact Hlo|exact Hlp|done| |].
  - split; cbn [ts_append ts_proofs ts_outputs ts_unspent]; [rewrite !length_app; cbn [length]; by rewrite Hlen|].
    intros j' Hj'. rewrite length_app. cbn [length].
    apply elem_of_union in Hj' as [->%elem_of_singleton|Hj']; [lia|]. specialize (Hub j' Hj'). lia.
  - intros j' [->%elem_of_singleton|Hj']%elem_of_union; [by left|]. apply (tr_live _ _ _ _ _ Hr). set_solver.
Qed.

Lemma ths_set_kernels_rel floor base s c t k ks :
  ths_rel floor base s c t -> kernel_ok (wf := TransactionKernel_wf) Blake2b (ts_kernels s ++ ks) (ts_kernels c) k ->
  ths_rel floor base (ts_add_kernels ks s) c (ths_set_kernels k t).
Proof.
  intros Hr Hk. change (ths_set_kernels k t) with
    (ths_set_rangeProofs (m_pRangeProofPMMR t) (ths_set_outputs (m_pOutputPMMR t) (ths_set_kernels k t))).
  eapply rel_update; [exact Hr|exact Hk|apply Hr|apply Hr|done|apply (tr_wf _ _ _ _ _ Hr)|].
  intros j Hj. apply (tr_live _ _ _ _ _ Hr). apply elem_of_union_l. exact Hj.
Qed.

Lemma ths_kernels floor base c kernels : forall s t,
  ths_rel floor base s c t -> Forall (kernel_wf (wf := TransactionKernel_wf)) kernels -> length (ts_kernels s) + length kernels < 2 ^ 32 ->
  exists t', apply_block_kernels Blake2b kernels t = (Ok tt, t') /\ ths_rel floor base (ts_add_kernels kernels s) c t'.
Proof.
  induction kernels as [|k kernels IH]; intros s t Hr Hk Hn.
  - exists t. split; [done|]. destruct s as [ks os ps u h]. unfold ts_add_kernels. cbn. by rewrite app_nil_r.
  - apply Forall_cons in Hk as [Hk Hks]. cbn [length] in Hn.
    destruct (kernel_ApplyKernel Blake2b Blake2b_length _ _ _ k (tr_kernels _ _ _ _ _ Hr) Hk ltac:(lia)) as (km & E & Hkm).
    destruct (IH (ts_add_kernels [k] s) (ths_set_kernels km t)) as (t' & E' & Hr').
    + apply (ths_set_kernels_rel _ _ _ _ _ _ _ Hr Hkm).
    + done.
    + cbn [ts_add_kernels ts_kernels]. rewrite length_app. cbn [length]. lia.
    + exists t'. split.
      * cbn [apply_block_kernels]. erewrite st_bind_ok; [exact E'|]. unfold on_kernels. by rewrite (st_zoom_run _ _ _ _ _ _ E).
      * unfold ts_add_kernels in Hr' |- *. cbn [ts_kernels ts_outputs ts_proofs ts_unspent ts_header] in Hr'. by rewrite <- app_assoc in Hr'.
Qed.

Lemma ths_cache_rel floor base s c t a n : ths_rel floor base s c t -> ths_rel floor base s c (ths_set_cache a n t).
Proof. by intros [Hk Ho Hp Hh Hb Hw Hcw Hl]. Qed.

Lemma ths_header_rel floor base s c t h : ths_rel floor base s c t -> ths_rel floor base (ts_set_header h s) c (ths_set_header h t).
Proof. by intros [Hk Ho Hp Hh Hb Hw Hcw Hl]. Qed.

Lemma pm_step_rewind {D} `{Serializable D} N k adds (m : PruneableMMR F R) : pm_step Blake2b N (PRewind (D := D) k adds) m = PruneableMMR_Rewind N k adds m.
Proof. reflexivity. Qed.

(** Cutting the three MMRs back to an earlier state. *)
Lemma ths_rewind floor base s c t x adds :
  ths_rel floor base s c t -> ts_wf x -> ts_header x = ts_header s ->
  ts_kernels x `prefix_of` ts_kernels s -> ts_outputs x `prefix_of` ts_outputs s -> ts_proofs x `prefix_of` ts_proofs s ->
  Forall (fun j => 0 <= j) adds -> floor <= length (ts_outputs x) ->
  (forall j, j < length (ts_outputs x) -> (j ∈ adds \/ j ∈ ts_unspent s) <-> j ∈ ts_unspent x) ->
  (forall j, j ∈ ts_unspent x -> leaf_live floor base j) ->
  exists k mo mp, KernelMMR_Rewind (length (ts_kernels x)) (m_pKernelMMR t) = (Ok true, k) /\
    PruneableMMR_Rewind OUTPUT_SIZE (length (ts_outputs x)) adds (m_pOutputPMMR t) = (Ok tt, mo) /\
    PruneableMMR_Rewind RANGE_PROOF_SIZE (length (ts_outputs x)) adds (m_pRangeProofPMMR t) = (Ok tt, mp) /\
    ths_rel floor base x c (ths_set_rangeProofs mp (ths_set_outputs mo (ths_set_kernels k t))).
Proof.
  intros Hr Hw Hh Hpk Hpo Hpp Ha Hfl Hu Hl. pose proof Hw as [Hlen Hub].
  pose proof (prefix_length _ _ Hpk) as Hnk. pose proof (prefix_length _ _ Hpo) as Hno. pose proof (prefix_length _ _ Hpp) as Hnp.
  destruct (kernel_Rewind Blake2b _ _ _ (length (ts_kernels x)) (tr_kernels _ _ _ _ _ Hr) Hnk) as (k & Ek & Hk). rewrite take_prefix in Hk by done.
  assert (forall j, 0 <= j -> bool_decide (j ∈ ts_unspent x) =
    (j <? length (ts_outputs x)) && (bool_decide (j ∈ adds) || bool_decide (j ∈ ts_unspent s))) as Hbit.
  { intros j Hj. destruct (Z.ltb_spec j (length (ts_outputs x))) as [Hlt|Hge]; cbn [andb].
    - rewrite <- bool_decide_or. apply bool_decide_ext. symmetry. by apply Hu.
    - apply bool_decide_eq_false_2. intros Hj'. specialize (Hub j Hj'). lia. }
  assert (floor <= length (ts_outputs x) <= length (ts_outputs s)) as Hrange by lia.
  destruct (lv_step (wf := OutputIdentifier_wf) Blake2b OUTPUT_SIZE Blake2b_length OUTPUT_SIZE_small floor (.∈ base) (PRewind (length (ts_outputs x)) adds) _ _ (tr_outputs _ _ _ _ _ Hr) (conj Hrange Ha))
    as (mo & Eo & Ho).
  assert (floor <= length (ts_outputs x) <= length (ts_proofs s)) as Hrange' by lia.
  destruct (lv_step (wf := RangeProof_wf) Blake2b RANGE_PROOF_SIZE Blake2b_length RANGE_PROOF_SIZE_small floor (.∈ base) (PRewind (length (ts_outputs x)) adds) _ _ (tr_proofs _ _ _ _ _ Hr) (conj Hrange' Ha))
    as (mp & Ep & Hp).
  rewrite pm_step_rewind in Eo. rewrite pm_step_rewind in Ep. exists k, mo, mp. split; [exact Ek|]. split; [exact Eo|]. split; [exact Ep|].
  eapply rel_update; [exact Hr|exact Hk| | |done|done|done].
  - eapply pm_live_ext; [exact Ho| |reflexivity|exact Hbit|reflexivity].
    cbn [pm_spec_step snd sp_data outputs_view]. by rewrite Nat2Z.id, take_prefix.
  - eapply pm_live_ext; [exact Hp| |reflexivity|exact Hbit|reflexivity].
    cbn [pm_spec_step snd sp_data proofs_view]. by rewrite Nat2Z.id, <- Hlen, take_prefix.
Qed.

(** A header that states the sizes of the MMRs. *)
Definition header_sizes (h : BlockHeader) s : Prop :=
  bh_kernelMMRSize h = mmr_size (length (ts_kernels s)) /\ bh_outputMMRSize h = mmr_size (length (ts_outputs s)).

Lemma header_counts floor base s c t h s' :
  ths_rel floor base s c t -> header_sizes h s' ->
  (length (ts_kernels s') <= length (ts_kernels s))%nat -> (length (ts_outputs s') <= length (ts_outputs s))%nat ->
  BlockHeader_GetNumKernels h = length (ts_kernels s') /\ GetNumOutputs h = length (ts_outputs s').
Proof.
  intros Hr [Ek Eo] Hk Ho. unfold BlockHeader_GetNumKernels, GetNumOutputs. rewrite Ek, Eo. unfold Index_GetLeafIndex, Index_At. cbn [m_position].
  pose proof (rel_ok _ _ _ _ _ (lv_rel _ _ _ _ _ _ (tr_outputs _ _ _ _ _ Hr))) as (? & ? & ? & ? & [_ _ Hv _ _ _]).
  pose proof (view_size _ _ _ _ _ _ _ Hv) as Hn. cbn [outputs_view sp_data] in Hn.
  destruct (ko_kernels _ _ _ _ (tr_kernels _ _ _ _ _ Hr)) as [_ Hkn].
  split; apply CalculateLeafIndex_leaf; try lia.
  - unfold pos_ok, mmr_size. pose proof (pop_nonneg (length (ts_kernels s'))). pose proof (pop_le (length (ts_kernels s'))). lia.
  - apply n_ok_pos. eapply n_ok_mono; [|exact Hn]. lia.
Qed.

(** *** Commit and rollback *)
Lemma pm_step_commit {D} `{Serializable D} N (m : PruneableMMR F R) : pm_step Blake2b N (PCommit (D := D)) m = PruneableMMR_Commit m.
Proof. reflexivity. Qed.
Lemma pm_step_rollback {D} `{Serializable D} N (m : PruneableMMR F R) : pm_step Blake2b N (PRollback (D := D)) m = (Ok tt, PruneableMMR_Rollback m).
Proof. reflexivity. Qed.

Lemma Commit_ok floor base s c t :
  ths_rel floor base s c t -> exists t', TxHashSet_Commit t = (Ok tt, t') /\ ths_rel floor base s s t'.
Proof.
  intros Hr. destruct (kernel_Commit Blake2b _ _ _ (tr_kernels _ _ _ _ _ Hr)) as (k & Ek & Hk).
  destruct (lv_step (wf := OutputIdentifier_wf) Blake2b OUTPUT_SIZE Blake2b_length OUTPUT_SIZE_small floor (.∈ base) PCommit _ _ (tr_outputs _ _ _ _ _ Hr) I) as (mo & Eo & Ho).
  destruct (lv_step (wf := RangeProof_wf) Blake2b RANGE_PROOF_SIZE Blake2b_length RANGE_PROOF_SIZE_small floor (.∈ base) PCommit _ _ (tr_proofs _ _ _ _ _ Hr) I) as (mp & Ep & Hp).
  rewrite pm_step_commit in Eo. rewrite pm_step_commit in Ep.
  unfold TxHashSet_Commit, on_kernels, on_outputs, on_rangeProofs.
  erewrite st_bind_ok; [|erewrite st_zoom_run; [reflexivity|exact Ek]].
  erewrite st_bind_ok; [|erewrite st_zoom_run; [reflexivity|exact Eo]].
  erewrite st_bind_ok; [|erewrite st_zoom_run; [reflexivity|exact Ep]].
  eexists. split; [reflexivity|]. constructor; cbn; try done; try apply Hr.
  intros j Hj. apply (tr_live _ _ _ _ _ Hr). set_solver.
Qed.

Lemma Rollback_ok floor base s c t : ths_rel floor base s c t -> ths_rel floor base c c (TxHashSet_Rollback t).
Proof.
  intros Hr. pose proof (kernel_Rollback Blake2b _ _ _ (tr_kernels _ _ _ _ _ Hr)) as Hk.
  destruct (lv_step (wf := OutputIdentifier_wf) Blake2b OUTPUT_SIZE Blake2b_length OUTPUT_SIZE_small floor (.∈ base) PRollback _ _ (tr_outputs _ _ _ _ _ Hr) I) as (mo & Eo & Ho).
  destruct (lv_step (wf := RangeProof_wf) Blake2b RANGE_PROOF_SIZE Blake2b_length RANGE_PROOF_SIZE_small floor (.∈ base) PRollback _ _ (tr_proofs _ _ _ _ _ Hr) I) as (mp & Ep & Hp).
  rewrite pm_step_rollback in Eo. rewrite pm_step_rollback in Ep. injection Eo as <-. injection Ep as <-.
  constructor; cbn; try done; try apply Hr.
  intros j Hj. apply (tr_live _ _ _ _ _ Hr). set_solver.
Qed.

(** *** Roots *)

(** The root of the bitmap that covers the first [n] outputs. *)
Definition bitmap_root (unspent : gset Z) (n : Z) : Hash :=
  mmr_root Blake2b (map (fun i => chunk_bytes (bitmap_chunk unspent i)) (seqZ 0 ((n + 1023) / 1024))).

Lemma ths_UBMTRoot floor base s c t n :
  ths_rel floor base s c t -> 0 <= n < 2 ^ 58 -> GetOutputBitmapRoot Blake2b n t = Ok (bitmap_root (ts_unspent s) n).
Proof.
  intros Hr Hn. unfold GetOutputBitmapRoot, UBMTRoot. pose proof (tr_outputs _ _ _ _ _ Hr) as Hlv.
  destruct (LeafSet_Root_ok Blake2b Blake2b_length Blake2b_nonzero (pm_leafSet (m_pOutputPMMR t)) n (lv_bits _ _ _ _ _ _ Hlv) Hn) as [E Hbit].
  rewrite E. unfold bitmap_root. f_equal. f_equal. apply map_ext_in. intros i Hi%list_elem_of_In%elem_of_seqZ. f_equal.
  destruct (bitmap_chunk_bits (ts_unspent s) i) as [Hw Hb]. apply chunk_ext; [apply LeafSet_chunk_wf, Hlv|done|].
  intros j Hj. rewrite Hb by done. assert (0 <= i * LEN_BITS + j) as H0 by (unfold LEN_BITS in *; lia).
  pose proof (LeafSet_chunk_IsSet (i * LEN_BITS + j) (pm_leafSet (m_pOutputPMMR t)) H0) as E'.
  unfold ChunkIndex in E'. rewrite Z.div_add_l, (Z.div_small j), Z.add_0_r, (Z.add_comm (i * LEN_BITS)), Z.mod_add, Z.mod_small in E' by (unfold LEN_BITS in *; lia).
  rewrite (Z.add_comm j) in E'. rewrite E', (rel_unspent _ _ _ _ _ (lv_rel _ _ _ _ _ _ Hlv)) by done. done.
Qed.


(** The roots of the first [nk] kernels and [no] outputs; the bitmap covers
    whole chunks of outputs. *)
Definition kernel_root_of s (nk : nat) : Hash := mmr_root Blake2b (leaf_bytes (take nk (ts_kernels s))).
Definition output_root_of s (no : nat) : Hash := mmr_root Blake2b (leaf_bytes (take no (ts_outputs s))).
Definition proof_root_of s (no : nat) : Hash := mmr_root Blake2b (leaf_bytes (take no (ts_proofs s))).
Definition merged_root_of (version : Z) s (no : nat) : Hash :=
  if version <? 3 then output_root_of s no
  else HashParentWithIndex Blake2b (output_root_of s no) (bitmap_root (ts_unspent s) no) (mmr_size no).

Definition roots_match (h : BlockHeader) s (nk no : nat) : Prop :=
  kernel_root_of s nk = bh_kernelRoot h /\ merged_root_of (bh_version h) s no = bh_outputRoot h /\ proof_root_of s no = bh_rangeProofRoot h.

#[export] Instance roots_match_dec h s nk no : Decision (roots_match h s nk no).
Proof. unfold roots_match. apply _. Defined.

Record header_prefix (h : BlockHeader) (floor : Z) s (nk no : nat) : Prop := {
  hp_kernels : bh_kernelMMRSize h = mmr_size nk /\ (nk <= length (ts_kernels s))%nat;
  hp_outputs : bh_outputMMRSize h = mmr_size no /\ (no <= length (ts_outputs s))%nat /\ floor <= no;
  hp_roots : length (bh_kernelRoot h) = 32%nat /\ length (bh_outputRoot h) = 32%nat /\ length (bh_rangeProofRoot h) = 32%nat;
}.

Lemma ths_prefix_roots floor base s c t (nk no : nat) :
  ths_rel floor base s c t -> (nk <= length (ts_kernels s))%nat -> (no <= length (ts_outputs s))%nat -> floor <= no ->
  KernelMMR_Root Blake2b (mmr_size nk) (m_pKernelMMR t) = Ok (kernel_root_of s nk) /\
  GetOutputRoot Blake2b (mmr_size no) t = Ok (output_root_of s no) /\
  PruneableMMR_Root Blake2b (mmr_size no) (m_pRangeProofPMMR t) = Ok (proof_root_of s no).
Proof.
  intros Hr Hk Ho Hf. destruct (tr_wf _ _ _ _ _ Hr) as [Hlen _]. split; [|split].
  - exact (kernel_Root_prefix Blake2b Blake2b_length Blake2b_nonzero _ _ _ nk (tr_kernels _ _ _ _ _ Hr) Hk).
  - pose proof (lv_rel _ _ _ _ _ _ (tr_outputs _ _ _ _ _ Hr)) as Hrel.
    apply (pmmr_Root_prefix Blake2b OUTPUT_SIZE Blake2b_length Blake2b_nonzero _ _ _ no (rel_ok _ _ _ _ _ Hrel) Ho).
    eapply prune_wf_mono; [|apply (rel_prunes _ _ _ _ _ Hrel)]. pose proof (rel_floor _ _ _ _ _ Hrel). lia.
  - pose proof (lv_rel _ _ _ _ _ _ (tr_proofs _ _ _ _ _ Hr)) as Hrel.
    apply (pmmr_Root_prefix Blake2b RANGE_PROOF_SIZE Blake2b_length Blake2b_nonzero _ _ _ no (rel_ok _ _ _ _ _ Hrel)).
    + cbn [proofs_view sp_data]. by rewrite Hlen.
    + eapply prune_wf_mono; [|apply (rel_prunes _ _ _ _ _ Hrel)]. pose proof (rel_floor _ _ _ _ _ Hrel). lia.
Qed.

Lemma root_check (a b : Hash) : length a = 32%nat -> length b = 32%nat -> BigInteger_neq a b = negb (bool_decide (a = b)).
Proof. intros Ha Hb. unfold BigInteger_neq. by rewrite BigInteger_eq_spec by congruence. Qed.

Lemma ValidateRoots_ok floor base s c t h nk no :
  ths_rel floor base s c t -> header_prefix h floor s nk no ->
  ValidateRoots Blake2b h t = Ok (bool_decide (roots_match h s nk no)).
Proof.
  intros Hr [[Ek Hk] [Eo [Ho Hf]] (Hl1 & Hl2 & Hl3)]. destruct (ths_prefix_roots floor base s c t nk no Hr Hk Ho Hf) as (R1 & R2 & R3).
  pose proof (rel_ok _ _ _ _ _ (lv_rel _ _ _ _ _ _ (tr_outputs _ _ _ _ _ Hr))) as (? & ? & ? & ? & [_ _ Hv _ _ _]).
  pose proof (view_size _ _ _ _ _ _ _ Hv) as Hn. cbn [outputs_view sp_data] in Hn. pose proof (n_ok_bound _ Hn).
  assert (GetNumOutputs h = no) as Hno.
  { unfold GetNumOutputs. rewrite Eo. unfold Index_GetLeafIndex, Index_At. cbn [m_position]. apply CalculateLeafIndex_leaf; [lia|].
    apply n_ok_pos. eapply n_ok_mono; [|exact Hn]. lia. }
  assert (forall l, length (mmr_root Blake2b l) = 32%nat) as Hroot by (intros l; by apply mmr_root_length).
  assert (length (merged_root_of (bh_version h) s no) = 32%nat) as Hm.
  { unfold merged_root_of. destruct (_ <? 3); [apply Hroot|apply Blake2b_length]. }
  unfold ValidateRoots, roots_match. rewrite Ek, Eo, R1. cbn [mbind result_bind]. rewrite root_check by (done || apply Hroot).
  destruct (bool_decide_reflect (kernel_root_of s nk = bh_kernelRoot h)) as [E1|E1]; cbn [negb]; [|rewrite bool_decide_eq_false_2; [done|tauto]].
  rewrite R2. cbn [mbind result_bind].
  assert ((if bh_version h <? 3 then mret (output_root_of s no)
           else UBMT ← GetOutputBitmapRoot Blake2b (GetNumOutputs h) t;
                mret (HashParentWithIndex Blake2b (output_root_of s no) UBMT (mmr_size no))) = Ok (merged_root_of (bh_version h) s no)) as E.
  { unfold merged_root_of. destruct (bh_version h <? 3); [done|]. rewrite Hno, (ths_UBMTRoot floor base s c t no Hr) by lia. done. }
  rewrite E. cbn [mbind result_bind]. rewrite root_check by done.
  destruct (bool_decide_reflect (merged_root_of (bh_version h) s no = bh_outputRoot h)) as [E2|E2]; cbn [negb]; [|rewrite bool_decide_eq_false_2; [done|tauto]].
  rewrite R3. cbn [mbind result_bind]. rewrite root_check, negb_involutive by (done || apply Hroot).
  cbn [mret result_ret]. f_equal. apply bool_decide_ext. tauto.
Qed.

End refinement.
