(* ===== verification/TxHashSetBlocks.v ===== *)
(** * Blocks on the transaction hash set and the database

    [ApplyBlock] and [Rewind] change the MMRs and the table of positions
    together: both follow the machine of [UtxoSpec]. *)
From S2P Require Import Prelude BitUtil MMRIndex MMRUtil Serial BigInteger File Roaring PruneList BitmapFile MMRHash SegmentId SegmentProof Bitmap Segment BitmapSegment Segmenter PruneableMMR PruneableSpec Consensus Transaction KernelMMR KernelSpec Header Block BlockSpec BlockDB TxHashSet UtxoSpec TxHashSetSpec.

Section blocks.
Context {F : Type} {HF : HashFile F} {HFL : HashFileLaws F} {R : Type} {HR : Roaring R} {HL : RoaringLaws R}.
Context {B : Type} {HB : IBlockDB B} {db_wf : DBEntry -> Prop} {db_repr : DBTables -> DBTables -> B -> Prop} {HBL : IBlockDBLaws B db_wf db_repr}.
Context (Blake2b : bytes -> Hash) (env : Environment).
Local Abbreviation TS := (TxHashSet F R).
Local Abbreviation ths_rel := (ths_rel Blake2b).
Implicit Types (t : TS) (s c : TState).
Hypothesis Blake2b_length : forall x, length (Blake2b x) = 32%nat.
Hypothesis Blake2b_nonzero : forall x, Blake2b x <> ZERO_HASH.
Local Abbreviation tr_header := (tr_header Blake2b).
Local Abbreviation ths_GetOutputAt := (ths_GetOutputAt Blake2b Blake2b_length Blake2b_nonzero).
Local Abbreviation ths_IsUnpruned := (ths_IsUnpruned Blake2b Blake2b_length Blake2b_nonzero).
Local Abbreviation ths_GetOutputMMRSize := (ths_GetOutputMMRSize Blake2b Blake2b_length Blake2b_nonzero).
Local Abbreviation ths_spend := (ths_spend Blake2b Blake2b_length Blake2b_nonzero).
Local Abbreviation ths_append := (ths_append Blake2b Blake2b_length Blake2b_nonzero).
Local Abbreviation ths_kernels := (ths_kernels Blake2b Blake2b_length Blake2b_nonzero).
Local Abbreviation ths_cache_rel := (ths_cache_rel Blake2b Blake2b_length Blake2b_nonzero).
Local Abbreviation ths_header_rel := (ths_header_rel Blake2b Blake2b_length Blake2b_nonzero).
Local Abbreviation ths_rewind := (ths_rewind Blake2b Blake2b_length Blake2b_nonzero).
Local Abbreviation header_counts := (header_counts Blake2b Blake2b_length Blake2b_nonzero).

(** What the database can store. *)
Hypothesis db_location : forall l, location_ok l -> db_wf (ELocation l).
Hypothesis db_spent : forall l, length l < 2 ^ 16 ->
  Forall (fun o => length (so_commitment o) = 33%nat /\ location_ok (so_location o)) l -> db_wf (ESpent l).

#[local] Set Default Proof Using "All".

Lemma db_position tb cb (db : B) k : db_repr tb cb db -> db_GetOutputPosition k db = t_positions tb !! k.
Proof. intros Hd. by destruct (db_read _ _ _ Hd k) as (_ & _ & _ & ? & _). Qed.

Lemma ths_spend_run floor base s c t j {A} (K : ST (TS * B) A) db :
  ths_rel floor base s c t -> 0 <= j -> j ∈ ts_unspent s ->
  exists t', ths_rel floor base (ts_spend j s) c t' /\
    (_ ← on_txs (on_outputs (PruneableMMR_Remove (LeafIndex_At j)));
     _ ← on_txs (on_rangeProofs (PruneableMMR_Remove (LeafIndex_At j)));
     K) (t, db) = K (t', db).
Proof.
  intros Hr Hj Hu. destruct (ths_spend floor base s c t j Hr Hj Hu) as (mo & mp & Eo & Ep & Hr').
  exists (ths_set_rangeProofs mp (ths_set_outputs mo t)). split; [done|].
  unfold on_txs, on_outputs, on_rangeProofs.
  erewrite st_bind_ok; [|erewrite (st_zoom_run fst); [reflexivity|]; erewrite st_zoom_run; [reflexivity|exact Eo]].
  erewrite st_bind_ok; [|erewrite (st_zoom_run fst); [reflexivity|]; erewrite st_zoom_run; [reflexivity|exact Ep]].
  reflexivity.
Qed.

Lemma spend_inputs_ok floor base c maxH tb cb db inputs : forall s t acc,
  ths_rel floor base s c t -> db_repr tb cb db -> pos_locs (t_positions tb) ->
  match spend_spec maxH (t_positions tb) inputs s with
  | Ok (Some (s', spent)) => exists t', spend_inputs maxH inputs acc (t, db) = (Ok (Some (acc ++ spent)), (t', db)) /\ ths_rel floor base s' c t'
  | Ok None => exists s' t', spend_inputs maxH inputs acc (t, db) = (Ok None, (t', db)) /\ ths_rel floor base s' c t'
  | Throw e => exists s' t', spend_inputs maxH inputs acc (t, db) = (Throw e, (t', db)) /\ ths_rel floor base s' c t'
  end.
Proof.
  induction inputs as [|input inputs IH]; intros s t acc Hr Hd Hp.
  - exists t. split; [|done]. by rewrite app_nil_r.
  - cbn [spend_spec spend_inputs]. erewrite st_bind_ok by reflexivity. cbn [fst snd]. rewrite (db_position tb cb db) by done.
    destruct (t_positions tb !! ti_commitment input) as [l|] eqn:El; [|by exists s, t].
    destruct (Hp _ _ El) as (j & h & [Hj _] & _ & ->). change (ol_leafIndex (location_at j h)) with (LeafIndex_At j). change (ol_leaf (location_at j h)) with j. change (ol_blockHeight (location_at j h)) with h.
    rewrite (st_lift_ok _ _ _ _ (ths_GetOutputAt floor base s c t j Hr Hj)).
    destruct (unspent_at s j) as [o|] eqn:Eo; [|by exists s, t].
    destruct (OutputIdentifier_IsCoinbase o && (h >? maxH)); [by exists s, t|].
    assert (j ∈ ts_unspent s) as Hu by (unfold unspent_at in Eo; by destruct (bool_decide_reflect (j ∈ ts_unspent s))).
    destruct (ths_spend_run floor base s c t j (spend_inputs maxH inputs (acc ++ [mkSpentOutput (ti_commitment input) (location_at j h)])) db Hr Hj Hu)
      as (t1 & Hr1 & ->).
    specialize (IH (ts_spend j s) t1 (acc ++ [mkSpentOutput (ti_commitment input) (location_at j h)]) Hr1 Hd Hp).
    destruct (spend_spec maxH (t_positions tb) inputs (ts_spend j s)) as [[[s' spent]|]|e]; cbn [mbind result_bind option_map fst snd].
    + cbn. by rewrite <- app_assoc in IH.
    + exact IH.
    + exact IH.
Qed.

Lemma ths_append_run floor base s c t o {A} (K : ST (TS * B) A) db :
  ths_rel floor base s c t -> output_ok (length (ts_outputs s)) o ->
  exists t', ths_rel floor base (ts_append o s) c t' /\
    (_ ← on_txs (on_outputs (PruneableMMR_Append Blake2b (OutputIdentifier_FromOutput o)));
     _ ← on_txs (on_rangeProofs (PruneableMMR_Append Blake2b (mkRangeProof (to_rangeProof o))));
     K) (t, db) = K (t', db).
Proof.
  intros Hr Ho. destruct (ths_append floor base s c t o Hr Ho) as (mo & mp & Eo & Ep & Hr').
  exists (ths_set_rangeProofs mp (ths_set_outputs mo t)). split; [done|].
  unfold on_txs, on_outputs, on_rangeProofs.
  erewrite st_bind_ok; [|erewrite (st_zoom_run fst); [reflexivity|]; erewrite st_zoom_run; [reflexivity|exact Eo]].
  erewrite st_bind_ok; [|erewrite (st_zoom_run fst); [reflexivity|]; erewrite st_zoom_run; [reflexivity|exact Ep]].
  reflexivity.
Qed.

Lemma append_outputs_ok floor base c height outputs : forall s t tb cb db,
  ths_rel floor base s c t -> db_repr tb cb db -> pos_locs (t_positions tb) ->
  Forall (TransactionOutput_wf V1) outputs -> n_ok (length (ts_outputs s) + length outputs) -> 0 <= height < 2 ^ 64 ->
  match append_spec height outputs (s, t_positions tb) with
  | Some (s', positions) => exists t' db', append_outputs Blake2b height outputs (t, db) = (Ok true, (t', db')) /\
      ths_rel floor base s' c t' /\ db_repr (set_positions_table positions tb) cb db' /\ pos_locs positions
  | None => exists s' t' tb' db', append_outputs Blake2b height outputs (t, db) = (Ok false, (t', db')) /\
      ths_rel floor base s' c t' /\ db_repr tb' cb db'
  end.
Proof.
  induction outputs as [|o outputs IH]; intros s t tb cb db Hr Hd Hp Ho Hn Hh.
  - exists t, db. split; [done|]. split; [done|]. split; [by destruct tb|done].
  - apply Forall_cons in Ho as [Ho Hos]. cbn [length] in Hn. assert (n_ok (length (ts_outputs s))) as Hn0 by (eapply n_ok_mono; [|exact Hn]; lia).
    cbn [append_spec append_outputs fst snd]. erewrite st_bind_ok by reflexivity. cbn [fst snd]. rewrite (db_position tb cb db) by done.
    assert (match t_positions tb !! to_commitment o with Some l => IsUnpruned (ol_leafIndex l) (m_pOutputPMMR t) | None => false end =
            match t_positions tb !! to_commitment o with Some l => is_unspent s l | None => false end) as ->.
    { destruct (t_positions tb !! to_commitment o) as [l|] eqn:El; [|done]. destruct (Hp _ _ El) as (j & h & [Hj _] & _ & ->).
      unfold location_at. cbn [ol_leafIndex]. by rewrite (ths_IsUnpruned floor base s c). }
    destruct (match t_positions tb !! to_commitment o with Some l => is_unspent s l | None => false end); [by exists s, t, tb, db|].
    rewrite (ths_GetOutputMMRSize floor base s c t Hr), LeafIndex_AtPos_leaf by (lia || by apply n_ok_pos).
    change (mkOutputLocation (LeafIndex_At (length (ts_outputs s))) height) with (location_at (length (ts_outputs s)) height).
    assert (location_ok (location_at (length (ts_outputs s)) height)) as Hl by (by exists (length (ts_outputs s)), height).
    destruct (ths_append_run floor base s c t o
      (_ ← on_db (db_AddOutputPosition (to_commitment o) (location_at (length (ts_outputs s)) height)); append_outputs Blake2b height outputs) db Hr)
      as (t1 & Hr1 & ->); [split; [done|]; eapply n_ok_mono; [|exact Hn]; lia|].
    erewrite st_bind_ok by reflexivity. cbn [fst snd].
    pose proof (db_add_position _ _ _ (to_commitment o) _ Hd (db_location _ Hl)) as Hd1.
    specialize (IH (ts_append o s) t1 _ cb _ Hr1 Hd1). cbn [t_positions set_positions_table] in IH.
    apply IH; [|done| |done].
    + intros k l [[<- <-]|[Hne Hk]]%lookup_insert_Some; [done|by eapply Hp].
    + cbn [ts_append ts_outputs]. rewrite length_app. cbn [length]. eapply n_ok_mono; [|exact Hn]; lia.
Qed.

(** The sizes and formats a block must have to be stored. *)
Record block_ok s (block : FullBlock) : Prop := {
  bk_inputs : Forall (fun i => length (ti_commitment i) = 33%nat) (tb_inputs (fb_body block));
  bk_inputs_count : length (tb_inputs (fb_body block)) < 2 ^ 16;
  bk_outputs : Forall (TransactionOutput_wf V1) (tb_outputs (fb_body block));
  bk_outputs_count : n_ok (length (ts_outputs s) + length (tb_outputs (fb_body block)));
  bk_kernels : Forall (kernel_wf (wf := TransactionKernel_wf)) (tb_kernels (fb_body block));
  bk_kernels_count : length (ts_kernels s) + length (tb_kernels (fb_body block)) < 2 ^ 32;
  bk_height : 0 <= FullBlock_GetHeight block < 2 ^ 64;
}.

Lemma spent_storable tb maxH inputs s s' spent :
  spend_spec maxH (t_positions tb) inputs s = Ok (Some (s', spent)) -> pos_locs (t_positions tb) ->
  Forall (fun i => length (ti_commitment i) = 33%nat) inputs -> length inputs < 2 ^ 16 -> db_wf (ESpent spent).
Proof.
  intros E Hp Hi Hn. destruct (spend_spec_spent _ _ _ _ _ _ E) as [Hm Hf]. apply db_spent.
  - pose proof (f_equal length Hm) as El. rewrite !length_map in El. by rewrite El.
  - apply Forall_and. split; [|eapply Forall_impl; [exact Hf|]; intros o Ho; exact (Hp _ _ Ho)].
    rewrite <- (Forall_map so_commitment (fun k => length k = 33%nat)), Hm. by apply Forall_map.
Qed.

Lemma ApplyBlock_ok floor base s c t tb cb db block :
  ths_rel floor base s c t -> db_repr tb cb db -> pos_locs (t_positions tb) -> block_ok s block ->
  match block_spec env block (s, t_positions tb) with
  | Ok (Some (s', positions, spent)) => exists t' db', ApplyBlock Blake2b env block (t, db) = (Ok true, (t', db')) /\
      ths_rel floor base s' c t' /\
      db_repr (set_positions_table positions (set_spent (<[FullBlock_GetHash block := spent]> (t_spent tb)) tb)) cb db'
  | Ok None => exists s' t' tb' db', ApplyBlock Blake2b env block (t, db) = (Ok false, (t', db')) /\
      ths_rel floor base s' c t' /\ db_repr tb' cb db'
  | Throw e => exists s' t', ApplyBlock Blake2b env block (t, db) = (Throw e, (t', db)) /\ ths_rel floor base s' c t'
  end.
Proof.
  intros Hr Hd Hp Hb. unfold ApplyBlock, block_spec. erewrite st_bind_ok by reflexivity. cbn [fst snd].
  pose proof (ths_cache_rel floor base s c t None 0 Hr) as Hr0. fold (InvalidateOutputBitmapCache t) in Hr0.
  pose proof (spend_inputs_ok floor base c (GetMaxCoinbaseHeight env (FullBlock_GetHeight block)) tb cb db (tb_inputs (fb_body block)) s _ [] Hr0 Hd Hp) as Hs.
  destruct (spend_spec _ (t_positions tb) (tb_inputs (fb_body block)) s) as [[[s1 spent]|]|e] eqn:Es.
  2: { destruct Hs as (s' & t' & E & Hr'). exists s', t', tb, db. by erewrite st_bind_ok by exact E. }
  2: { destruct Hs as (s' & t' & E & Hr'). exists s', t'. by erewrite st_bind_throw by exact E. }
  destruct Hs as (t1 & E1 & Hr1). erewrite st_bind_ok by exact E1. cbn [app]. erewrite st_bind_ok by reflexivity. cbn [fst snd].
  pose proof (spent_storable _ _ _ _ _ _ Es Hp (bk_inputs _ _ Hb) (bk_inputs_count _ _ Hb)) as Hw.
  pose proof (db_add_spent _ _ _ (FullBlock_GetHash block) _ Hd Hw) as Hd1. set (tb1 := set_spent _ tb) in *.
  destruct (spend_spec_data _ _ _ _ _ _ Es) as (Ek & Eo & _ & _).
  assert (n_ok (length (ts_outputs s1) + length (tb_outputs (fb_body block)))) as Hn by (rewrite Eo; apply Hb).
  pose proof (append_outputs_ok floor base c (FullBlock_GetHeight block) (tb_outputs (fb_body block)) s1 t1 tb1 cb _ Hr1 Hd1 Hp (bk_outputs _ _ Hb) Hn (bk_height _ _ Hb)) as Ha.
  change (t_positions tb1) with (t_positions tb) in Ha. cbn [mbind result_bind].
  destruct (append_spec (FullBlock_GetHeight block) (tb_outputs (fb_body block)) (s1, t_positions tb)) as [[s2 positions]|] eqn:Ea;
    cbn [option_map mret result_ret fst snd].
  2: { destruct Ha as (s' & t' & tb' & db' & E & Hr' & Hd'). exists s', t', tb', db'. by erewrite st_bind_ok by exact E. }
  destruct Ha as (t2 & db2 & E2 & Hr2 & Hd2 & Hp2). erewrite st_bind_ok by exact E2. cbn [negb]. erewrite st_bind_ok by reflexivity. cbn [fst snd].
  destruct (append_spec_data _ _ _ _ _ _ Ea) as (Ek2 & _ & _ & _).
  destruct (ths_kernels floor base c (tb_kernels (fb_body block)) s2 t2 Hr2 (bk_kernels _ _ Hb)) as (t3 & E3 & Hr3);
    [rewrite Ek2, Ek; apply (bk_kernels_count _ _ Hb)|].
  erewrite st_bind_ok; [|unfold on_txs; erewrite (st_zoom_run fst); [reflexivity|exact E3]].
  eexists _, _. split; [reflexivity|]. split; [exact (ths_header_rel _ _ _ _ _ _ Hr3)|].
  exact (db_remove_positions _ _ _ (FullBlock_GetInputCommitments block) Hd2).
Qed.

(** *** Rewinding *)
Lemma restore_inputs_ok tb cb m (t : TS) : forall inputs spent leaves (positions : Positions) db,
  map so_commitment spent = map ti_commitment inputs ->
  (forall o, o ∈ spent -> m !! so_commitment o = Some (so_location o) /\ location_ok (so_location o)) ->
  db_repr (set_positions_table positions tb) cb db ->
  exists db', restore_inputs m inputs leaves (t, db) = (Ok (leaves ++ spent_leaves spent), (t, db')) /\
    db_repr (set_positions_table (restore_spec spent positions) tb) cb db'.
Proof.
  induction inputs as [|i inputs IH]; intros [|o spent] leaves positions db Em Hm Hd; try done.
  - exists db. cbn. by rewrite app_nil_r.
  - cbn [map] in Em. injection Em as Ei Em. cbn [restore_inputs]. destruct (Hm o (list_elem_of_here _ _)) as [El Hl].
    rewrite Ei in El. rewrite El. erewrite st_bind_ok by reflexivity. cbn [fst snd].
    destruct (IH spent (leaves ++ [m_leafIndex (ol_leafIndex (so_location o))]) (<[so_commitment o := so_location o]> positions)
      (db_AddOutputPosition (ti_commitment i) (so_location o) db) Em) as (db' & E & Hd').
    + intros o' Ho'. apply Hm. by apply list_elem_of_further.
    + rewrite Ei. exact (db_add_position _ _ _ (ti_commitment i) _ Hd (db_location _ Hl)).
    + exists db'. split; [|exact Hd']. rewrite E. cbn [spent_leaves map]. by rewrite <- app_assoc.
Qed.

(** The blocks to undo are not the one to go back to. *)
Definition other_hashes (h0 : BlockHeader) (bs : list FullBlock) : Prop :=
  length (BlockHeader_GetHash h0) = 32%nat /\
  Forall (fun b => length (FullBlock_GetHash b) = 32%nat /\ FullBlock_GetHash b <> BlockHeader_GetHash h0) bs.

Lemma rewind_blocks_ok tb cb x bs y h0 :
  history env tb x bs y -> chain_ok x -> ts_header x.1 = Some h0 ->
  other_hashes h0 bs ->
  forall fuel adds (t : TS) db, (length bs < fuel)%nat -> m_pBlockHeader t = ts_header y.1 ->
  db_repr (set_positions_table y.2 tb) cb db ->
  exists adds' db', rewind_blocks fuel h0 adds (t, db) = (Ok (adds ++ adds'), (ths_set_header (Some h0) t, db')) /\
    db_repr (set_positions_table x.2 tb) cb db' /\ Forall (fun j => 0 <= j) adds' /\
    forall j, j < length (ts_outputs x.1) -> (j ∈ adds' \/ j ∈ ts_unspent y.1) <-> j ∈ ts_unspent x.1.
Proof.
  intros Hh Hx H0 [Hl0 Hne]. induction Hh as [|bs y b z spent previous Hh IH E Hdi Hct Hn Hbh Hp Hprev Hheight Ht1 Ht2 Ht3];
    intros fuel adds t db Hf Ht Hd; (destruct fuel as [|fuel]; [cbn [length] in Hf; lia|]); cbn [rewind_blocks].
  - erewrite st_bind_ok by reflexivity. cbn [fst snd]. rewrite Ht, H0. unfold BigInteger_neq. rewrite BigInteger_eq_spec, bool_decide_eq_true_2 by done. cbn [negb].
    exists [], db. split; [|split; [done|split; [done|]]].
    + rewrite app_nil_r. destruct t. cbn in Ht. unfold ths_set_header. cbn. by rewrite Ht, H0.
    + intros j _. set_solver.
  - apply Forall_cons in Hne as [[Hlb Hne] Hnes]. pose proof (history_chain _ _ _ _ _ Hx Hh) as Hy.
    destruct (block_spec_data _ _ _ _ _ E) as (_ & Eo & _ & Eh).
    destruct (block_spec_effect _ _ _ _ _ E) as (_ & _ & _ & _ & Hm & Hfs). rewrite Forall_forall in Hfs.
    erewrite st_bind_ok by reflexivity. cbn [fst snd]. rewrite Ht, Eh. change (BlockHeader_GetHash (fb_header b)) with (FullBlock_GetHash b).
    unfold BigInteger_neq. rewrite BigInteger_eq_spec, bool_decide_eq_false_2 by (done || congruence). cbn [negb].
    destruct (db_read _ _ _ Hd (FullBlock_GetHash b)) as (_ & Eb & _ & _ & Es). rewrite Eb. cbn [set_positions_table t_blocks t_spent] in *.
    rewrite Ht2. assert (db_GetSpentPositions (FullBlock_GetHash b) db = Ok (SpentOutputs_BuildMap spent)) as Esp.
    { unfold db_GetSpentPositions. by rewrite Es, Ht3. }
    rewrite (st_lift_ok _ _ _ _ Esp). erewrite st_bind_ok by reflexivity. cbn [fst snd].
    pose proof (db_remove_positions _ _ _ (FullBlock_GetOutputCommitments b) Hd) as Hd1.
    assert (forall o, o ∈ spent -> SpentOutputs_BuildMap spent !! so_commitment o = Some (so_location o) /\ location_ok (so_location o)) as Hsp.
    { intros o Ho. split; [apply BuildMap_lookup; [by rewrite Hm|done]|]. apply (co_locs _ Hy _ _ (Hfs _ Ho)). }
    destruct (restore_inputs_ok tb cb (SpentOutputs_BuildMap spent) t (tb_inputs (fb_body b)) spent adds
      (delete_all (FullBlock_GetOutputCommitments b) z.2) _ Hm Hsp Hd1) as (db2 & E2 & Hd2).
    rewrite (block_undo_positions env b y z spent) in Hd2 by done.
    erewrite st_bind_ok by exact E2. erewrite st_bind_ok by reflexivity. cbn [fst snd].
    destruct (db_read _ _ _ Hd2 (BlockHeader_GetHash previous)) as (Ehd & _). cbn [set_positions_table t_headers] in Ehd.
    erewrite st_bind_ok by reflexivity. cbn [fst snd].
    change (bh_previousBlockHash (fb_header b)) with (FullBlock_GetPreviousHash b). rewrite Hprev, Ehd, Ht1.
    destruct (IH Hnes fuel (adds ++ spent_leaves spent) (ths_set_header (Some previous) t) db2) as (adds' & db' & E' & Hd' & Ha' & Hu');
      [cbn [length] in Hf; lia|by rewrite Hp|done|].
    exists (spent_leaves spent ++ adds'), db'. split; [|split; [done|split]].
    + rewrite E'. by rewrite <- app_assoc.
    + apply Forall_app. split; [|done]. apply Forall_forall. intros j (o & -> & Ho)%list_elem_of_fmap.
      destruct (co_locs _ Hy _ _ (Hfs _ Ho)) as (j & h & [Hj _] & _ & ->). exact Hj.
    + intros j Hj. destruct (history_data _ _ _ _ _ Hh) as (_ & [l El] & _).
      rewrite <- (Hu' j Hj), <- (block_undo_unspent env b y z spent j) by (try done; rewrite El, length_app; lia). set_solver.
Qed.

Lemma ths_Rewind_ok floor base x bs y c t tb cb db h0 :
  history env tb x bs y -> chain_ok x -> ts_header x.1 = Some h0 -> 0 <= bh_height h0 -> other_hashes h0 bs ->
  header_sizes h0 x.1 -> floor <= length (ts_outputs x.1) -> (forall j, j ∈ ts_unspent x.1 -> leaf_live floor base j) ->
  ths_rel floor base y.1 c t -> db_repr (set_positions_table y.2 tb) cb db ->
  exists t' db', TxHashSet_Rewind h0 (t, db) = (Ok tt, (t', db')) /\
    ths_rel floor base x.1 c t' /\ db_repr (set_positions_table x.2 tb) cb db'.
Proof.
  intros Hh Hx H0 Hpos Hother Hsz Hfl Hl Hr Hd. pose proof (history_data _ _ _ _ _ Hh) as (Hpk & Hpo & Hpp).
  destruct (history_header _ _ _ _ _ _ Hh H0) as (h & Eh & Hheight & _).
  unfold TxHashSet_Rewind. erewrite st_bind_ok by reflexivity. cbn [fst snd]. erewrite st_bind_ok by reflexivity. cbn [fst snd].
  pose proof (ths_cache_rel floor base _ _ _ None 0 Hr) as Hr0. fold (InvalidateOutputBitmapCache t) in Hr0. set (t0 := InvalidateOutputBitmapCache t) in *.
  assert (length bs < Rewind_fuel t0)%nat as Hfuel.
  { unfold Rewind_fuel. rewrite (tr_header _ _ _ _ _ Hr0), Eh. lia. }
  destruct (rewind_blocks_ok tb cb x bs y h0 Hh Hx H0 Hother (Rewind_fuel t0) [] t0 db Hfuel (tr_header _ _ _ _ _ Hr0) Hd)
    as (adds & db1 & E1 & Hd1 & Ha & Hu).
  erewrite st_bind_ok by exact E1. cbn [app].
  pose proof (ths_header_rel floor base _ _ _ (Some h0) Hr0) as Hr1. set (t1 := ths_set_header (Some h0) t0) in *.
  destruct (header_counts floor base _ c t1 h0 x.1 Hr1 Hsz (prefix_length _ _ Hpk) (prefix_length _ _ Hpo)) as [-> ->].
  destruct (ths_rewind floor base (ts_set_header (Some h0) y.1) c t1 x.1 adds Hr1 (co_wf _ Hx) H0 Hpk Hpo Hpp Ha Hfl Hu Hl) as (k & mo & mp & Ek & Eo & Ep & Hr2).
  unfold on_txs, on_kernels, on_outputs, on_rangeProofs.
  erewrite st_bind_ok; [|erewrite (st_zoom_run fst); [reflexivity|]; erewrite st_zoom_run; [reflexivity|exact Ek]].
  erewrite st_bind_ok; [|erewrite (st_zoom_run fst); [reflexivity|]; erewrite st_zoom_run; [reflexivity|exact Eo]].
  eexists _, db1. split; [|split; [exact Hr2|exact Hd1]].
  erewrite (st_zoom_run fst); [reflexivity|]. erewrite st_zoom_run; [reflexivity|exact Ep].
Qed.
End blocks.
