(* ===== verification/TxHashSetTheorems.v ===== *)
(** * Theorems on the transaction hash set

    Applying a block, validating its roots, undoing blocks and rolling back, as
    block processing sees them; each with an evaluation on a small chain. *)
From S2P Require Import Prelude BitUtil MMRIndex MMRUtil Serial BigInteger File Roaring PruneList BitmapFile MMRHash SegmentId SegmentProof Bitmap Segment BitmapSegment Segmenter PruneableMMR PruneableSpec Consensus Transaction KernelMMR KernelSpec Header Block BlockSpec BlockDB TxHashSet UtxoSpec TxHashSetSpec TxHashSetBlocks.

Section properties.
Context {F : Type} {HF : HashFile F} {HFL : HashFileLaws F} {R : Type} {HR : Roaring R} {HL : RoaringLaws R}.
Context {B : Type} {HB : IBlockDB B} {db_wf : DBEntry -> Prop} {db_repr : DBTables -> DBTables -> B -> Prop} {HBL : IBlockDBLaws B db_wf db_repr}.
Context (Blake2b : bytes -> Hash) (env : Environment).
Local Abbreviation TS := (TxHashSet F R).
Implicit Types (t : TS) (s c : TState).
Hypothesis Blake2b_length : forall x, length (Blake2b x) = 32%nat.
Hypothesis Blake2b_nonzero : forall x, Blake2b x <> ZERO_HASH.
Hypothesis db_location : forall l, location_ok l -> db_wf (ELocation l).
Hypothesis db_spent : forall l, length l < 2 ^ 16 ->
  Forall (fun o => length (so_commitment o) = 33%nat /\ location_ok (so_location o)) l -> db_wf (ESpent l).

(** C6: a block with distinct inputs and cut through is applied exactly when each of its
    inputs is an unspent output,
    mature if a coinbase, and each of its outputs is new; the three MMRs, their
    leaf sets and the table of positions then hold the block's effect, and the
    positions still index the unspent outputs.  A refused block leaves what is
    committed alone. *)
Theorem ApplyBlock_spec floor base s c t tb cb db block :
  ths_rel Blake2b floor base s c t -> db_repr tb cb db -> chain_ok (s, t_positions tb) ->
  block_ok s block -> distinct_inputs block -> cut_through block ->
  if block_valid env block (s, t_positions tb) then
    exists s' positions spent t' db', block_spec env block (s, t_positions tb) = Ok (Some (s', positions, spent)) /\
      ApplyBlock Blake2b env block (t, db) = (Ok true, (t', db')) /\ ths_rel Blake2b floor base s' c t' /\
      db_repr (set_positions_table positions (set_spent (<[FullBlock_GetHash block := spent]> (t_spent tb)) tb)) cb db' /\
      chain_ok (s', positions)
  else exists s' t' tb' db', ApplyBlock Blake2b env block (t, db) = (Ok false, (t', db')) /\
    ths_rel Blake2b floor base s' c t' /\ db_repr tb' cb db'.
Proof.
  intros Hr Hd Hx Hb Hdi Hct. pose proof (block_spec_accepts env block _ Hx Hdi Hct) as Hv.
  pose proof (ApplyBlock_ok Blake2b env Blake2b_length Blake2b_nonzero db_location db_spent floor base s c t tb cb db block Hr Hd (co_locs _ Hx) Hb) as Ha.
  destruct (block_valid env block (s, t_positions tb)).
  - destruct Hv as ([s' positions] & spent & E). rewrite E in Ha. destruct Ha as (t' & db' & Ea & Hr' & Hd').
    exists s', positions, spent, t', db'. split; [done|]. split; [done|]. split; [done|]. split; [done|].
    eapply block_spec_chain; [exact Hx|done|done|exact E|apply Hb|apply Hb].
  - by rewrite Hv in Ha.
Qed.

(** C7: rewinding undoes any number of applied blocks: the kernels, the outputs
    with their proofs, the unspent outputs, the header and the table of positions
    are again those before the blocks. *)
Theorem Rewind_undoes_blocks floor base x bs y c t tb cb db h0 :
  history env tb x bs y -> chain_ok x -> ts_header x.1 = Some h0 -> 0 <= bh_height h0 -> other_hashes h0 bs ->
  header_sizes h0 x.1 -> floor <= length (ts_outputs x.1) -> (forall j, j ∈ ts_unspent x.1 -> leaf_live floor base j) ->
  ths_rel Blake2b floor base y.1 c t -> db_repr (set_positions_table y.2 tb) cb db ->
  exists t' db', TxHashSet_Rewind h0 (t, db) = (Ok tt, (t', db')) /\
    ths_rel Blake2b floor base x.1 c t' /\ db_repr (set_positions_table x.2 tb) cb db'.
Proof. exact (ths_Rewind_ok Blake2b env Blake2b_length Blake2b_nonzero db_location db_spent floor base x bs y c t tb cb db h0). Qed.

(** C12: commit makes the working state the committed one, and rollback brings
    the committed one back, whatever was applied since. *)
Theorem Commit_Rollback_atomic floor base s c t :
  ths_rel Blake2b floor base s c t ->
  (exists t', TxHashSet_Commit t = (Ok tt, t') /\ ths_rel Blake2b floor base s s t' /\
     ths_rel Blake2b floor base s s (TxHashSet_Rollback t')) /\
  ths_rel Blake2b floor base c c (TxHashSet_Rollback t).
Proof.
  intros Hr. destruct (Commit_ok Blake2b Blake2b_length Blake2b_nonzero floor base s c t Hr) as (t' & E & Hr').
  split; [|by apply (Rollback_ok Blake2b Blake2b_length Blake2b_nonzero floor base s)]. exists t'. split; [done|]. split; [done|]. by apply (Rollback_ok Blake2b Blake2b_length Blake2b_nonzero floor base s).
Qed.

(** C11: roots are validated against the first kernels and outputs that the header
    counts: their roots, merged with that of the bitmap of unspent outputs from
    version 3 on, and the root of the range proofs. *)
Theorem ValidateRoots_spec floor base s c t h nk no :
  ths_rel Blake2b floor base s c t -> header_prefix h floor s nk no ->
  ValidateRoots Blake2b h t = Ok (bool_decide (roots_match Blake2b h s nk no)).
Proof. exact (ValidateRoots_ok Blake2b Blake2b_length Blake2b_nonzero floor base s c t h nk no). Qed.

(** C39: kernels beyond those the header counts change nothing about the roots: a
    block that carries more kernels than its header commits to validates when the
    block without them does. *)
Theorem ValidateRoots_extra_kernels floor base s c t h nk no kernels :
  ths_rel Blake2b floor base s c t -> header_prefix h floor s nk no ->
  Forall (kernel_wf (wf := TransactionKernel_wf)) kernels -> length (ts_kernels s) + length kernels < 2 ^ 32 ->
  exists t', apply_block_kernels Blake2b kernels t = (Ok tt, t') /\
    ValidateRoots Blake2b h t' = ValidateRoots Blake2b h t /\
    GetNumKernels (m_pKernelMMR t') = length (ts_kernels s) + length kernels.
Proof.
  intros Hr Hh Hk Hn. destruct (ths_kernels Blake2b Blake2b_length Blake2b_nonzero floor base c kernels s t Hr Hk Hn) as (t' & E & Hr').
  exists t'. split; [done|]. split.
  - rewrite (ValidateRoots_ok Blake2b Blake2b_length Blake2b_nonzero floor base s c t h nk no Hr Hh).
    rewrite (ValidateRoots_ok Blake2b Blake2b_length Blake2b_nonzero floor base _ c t' h nk no Hr').
    + f_equal. apply bool_decide_ext. destruct Hh as [[_ Hnk] _ _]. unfold roots_match, kernel_root_of. cbn [ts_add_kernels ts_kernels].
      by rewrite take_app_le.
    + destruct Hh as [[H1 H2] H3 H4]. constructor; [|done|done]. split; [done|]. cbn [ts_add_kernels ts_kernels]. rewrite length_app. lia.
  - rewrite (kernel_GetNumKernels Blake2b _ _ _ (tr_kernels _ _ _ _ _ _ Hr')). cbn [ts_add_kernels ts_kernels]. rewrite length_app. lia.
Qed.

(** C40: a block that spends one output by two inputs (of different features, say,
    which the order of the inputs allows) is not refused: the output is removed
    for the first input, and that of the second is dereferenced without a check. *)
Theorem ApplyBlock_repeated_input floor base s c t tb cb db block commitment f1 f2 :
  ths_rel Blake2b floor base s c t -> db_repr tb cb db -> chain_ok (s, t_positions tb) -> block_ok s block ->
  tb_inputs (fb_body block) = [mkTransactionInput f1 commitment; mkTransactionInput f2 commitment] ->
  spendable (GetMaxCoinbaseHeight env (FullBlock_GetHeight block)) (s, t_positions tb) (mkTransactionInput f1 commitment) = true ->
  (ApplyBlock Blake2b env block (t, db)).1 = Throw UB.
Proof.
  intros Hr Hd Hx Hb Ei Hs.
  pose proof (ApplyBlock_ok Blake2b env Blake2b_length Blake2b_nonzero db_location db_spent floor base s c t tb cb db block Hr Hd (co_locs _ Hx) Hb) as Ha.
  assert (block_spec env block (s, t_positions tb) = Throw UB) as E.
  { unfold block_spec. rewrite Ei. cbn [fst snd spend_spec ti_commitment]. unfold spendable in Hs. cbn [fst snd ti_commitment] in Hs.
    destruct (t_positions tb !! commitment) as [l|]; [|done]. destruct (unspent_at s (ol_leaf l)) as [o|]; [|done].
    destruct (OutputIdentifier_IsCoinbase o && _); [done|].
    assert (unspent_at (ts_spend (ol_leaf l) s) (ol_leaf l) = None) as ->; [|done].
    unfold unspent_at. cbn [ts_spend ts_unspent]. rewrite bool_decide_eq_false_2; [done|]. set_solver. }
  rewrite E in Ha. by destruct Ha as (s' & t' & -> & _).
Qed.
End properties.

(** ** Evaluation: a chain of two blocks

    The first block creates two outputs; the second one spends the first of
    them and creates a third. *)
Definition plain_output (c : Z) : TransactionOutput := mkTransactionOutput 0 (example_commitment c) (repeat 5 675).
Definition example_block_header (height : Z) (outputs kernels : nat) (output_root proof_root kernel_root : Hash) : BlockHeader :=
  mkBlockHeader 3 height 0 (repeat (height - 1) 32) [] output_root proof_root kernel_root [] (mmr_size outputs) (mmr_size kernels)
    0 0 0 (mkProofOfWork 32 [] (repeat height 32)).
Definition genesis : BlockHeader := example_block_header 0 0 0 ZERO_HASH ZERO_HASH ZERO_HASH.

Definition body1 : TransactionBody := mkTransactionBody [] [plain_output 2; plain_output 3] [example_kernel 3 1 5 1].
Definition body2 : TransactionBody :=
  mkTransactionBody [mkTransactionInput 0 (example_commitment 2)] [plain_output 4] [example_kernel 3 1 5 2].

Definition empty_state : TState := mkTState [] [] [] ∅ (Some genesis).
Definition empty_txhashset : TxHashSet DataFile (list Z) := TxHashSet_new (empty_kernel_mmr true) empty_pmmr empty_pmmr (Some genesis).

(** The header of the first block carries the roots of its outputs and kernels. *)
Definition outputs1 : TState :=
  mkTState (tb_kernels body1) (map OutputIdentifier_FromOutput (tb_outputs body1))
    (map (fun o => mkRangeProof (to_rangeProof o)) (tb_outputs body1)) {[0; 1]} None.
Definition header1 : BlockHeader :=
  example_block_header 1 2 1 (merged_root_of toy_hash 3 outputs1 2) (proof_root_of toy_hash outputs1 2) (kernel_root_of toy_hash outputs1 1).
Definition block1 : FullBlock := mkFullBlock header1 body1.
Definition block2 : FullBlock := mkFullBlock (example_block_header 2 3 2 ZERO_HASH ZERO_HASH ZERO_HASH) body2.
Definition example_tables : DBTables :=
  mkDBTables (<[BlockHeader_GetHash genesis := genesis]> (<[BlockHeader_GetHash header1 := header1]> ∅))
    (<[FullBlock_GetHash block1 := block1]> (<[FullBlock_GetHash block2 := block2]> ∅)) ∅ ∅ ∅.

Lemma empty_live {D} `{HSL : SerializableLaws D wf} (N : nat) (f : Z -> bool) : (0 < N)%nat -> (forall j, f j = false) ->
  pm_live (wf := wf) toy_hash N 0 (.∈ (∅ : gset Z)) (mkPMSpec [] f [] f) empty_pmmr.
Proof.
  intros HN Hf. constructor; [by apply empty_pm_rel|intros j _ []%not_elem_of_empty|intros q _ j _ []%not_elem_of_empty|].
  split; [constructor|apply map_Forall_empty].
Qed.

Lemma empty_txhashset_rel : ths_rel toy_hash 0 ∅ empty_state empty_state empty_txhashset.
Proof.
  assert (ts_wf empty_state) as Hw by (split; [done|]; intros j []%not_elem_of_empty).
  assert (forall j, bool_decide (j ∈ ts_unspent empty_state) = false) as Hf by (intros j; apply bool_decide_eq_false_2, not_elem_of_empty).
  constructor; [apply empty_kernel_mmr_ok|apply empty_live; [pose proof OUTPUT_SIZE_small; lia|done]|apply empty_live; [pose proof RANGE_PROOF_SIZE_small; lia|done]|done|done|done|done|].
  intros j [[]%not_elem_of_empty|[]%not_elem_of_empty]%elem_of_union.
Qed.

Lemma empty_chain_ok : chain_ok (empty_state, ∅).
Proof.
  constructor; cbn [fst snd]; [apply empty_txhashset_rel| | |]; intros ? ?; rewrite ?lookup_empty; try done.
Qed.

Lemma plain_output_wf c : TransactionOutput_wf V1 (plain_output c).
Proof. by repeat split. Qed.

Lemma example_block_ok s header inputs c1 outputs lock :
  Forall (fun i => length (ti_commitment i) = 33%nat) inputs -> (length inputs <= 2)%nat -> (length outputs <= 2)%nat -> 0 < lock <= 2 ->
  Forall (fun o => exists c, o = plain_output c) outputs -> length (ts_outputs s) <= c1 -> c1 <= 10 ->
  length (ts_kernels s) <= 10 -> 0 <= bh_height header < 10 ->
  block_ok s (mkFullBlock header (mkTransactionBody inputs outputs [example_kernel 3 1 5 lock])).
Proof.
  intros Hi Hni Hno Hl Ho Hc H10 Hk Hh. constructor; cbn [fb_body tb_inputs tb_outputs tb_kernels length]; [done|lia| | | |lia|change (FullBlock_GetHeight _) with (bh_height header); lia].
  - eapply Forall_impl; [exact Ho|]. intros o (c & ->). apply plain_output_wf.
  - apply (n_ok_mono 20); [lia|]. split; [lia|vm_compute; reflexivity].
  - constructor; [|constructor]. apply example_kernel_ok. change WEEK_HEIGHT with 10080. lia.
Qed.

Lemma block1_ok : block_ok empty_state block1.
Proof.
  apply (example_block_ok _ _ _ 0); cbn; try lia; [by constructor|]. repeat constructor; by eexists.
Qed.

Lemma block1_distinct : distinct_inputs block1.
Proof. apply NoDup_nil_2. Qed.
Lemma block1_cut_through : cut_through block1.
Proof. by intros k Hk%not_elem_of_nil. Qed.

(** The chain after the first block. *)
Definition chain1 : TState * Positions :=
  match block_spec MAINNET block1 (empty_state, ∅) with Ok (Some (y, _)) => y | _ => (empty_state, ∅) end.
Definition tables1 : DBTables := set_positions_table chain1.2 (set_spent (<[FullBlock_GetHash block1 := []]> ∅) example_tables).

Lemma block1_applied :
  exists t, ApplyBlock toy_hash MAINNET block1 (empty_txhashset, (example_tables, example_tables)) = (Ok true, (t, (tables1, example_tables))) /\
    ths_rel toy_hash 0 ∅ chain1.1 empty_state t /\ chain_ok (chain1.1, chain1.2).
Proof.
  pose proof (ApplyBlock_ok (B := MapDB) toy_hash MAINNET toy_hash_length toy_hash_nonzero (fun _ _ => I) (fun _ _ _ => I) 0 ∅
    empty_state empty_state empty_txhashset example_tables example_tables (example_tables, example_tables) block1
    empty_txhashset_rel eq_refl (co_locs _ empty_chain_ok) block1_ok) as H.
  assert (block_spec MAINNET block1 (empty_state, t_positions example_tables) = Ok (Some (chain1.1, chain1.2, []))) as E by (vm_compute; reflexivity).
  rewrite E in H. destruct H as (t' & db' & Ea & Hr & Hd). exists t'. split; [|split; [exact Hr|]].
  - unfold MapDB_repr in Hd. subst db'. exact Ea.
  - revert E. generalize chain1. intros [s1 p1] E. cbn [fst snd] in E.
    apply (block_spec_chain MAINNET block1 (empty_state, ∅) (s1, p1) [] empty_chain_ok block1_distinct block1_cut_through E); [apply block1_ok|].
    split; reflexivity || (vm_compute; congruence).
Qed.

Lemma block2_ok : block_ok chain1.1 block2.
Proof.
  apply (example_block_ok _ _ _ 2); cbn [block2 fb_header fb_body body2 tb_inputs tb_outputs example_block_header bh_height length];
    try lia; [by repeat constructor|repeat constructor; by eexists|vm_compute; congruence..].
Qed.

Lemma ApplyBlock_spec_witness :
  exists t t' db', ths_rel toy_hash 0 ∅ chain1.1 empty_state t /\
    ApplyBlock toy_hash MAINNET block2 (t, (tables1, example_tables)) = (Ok true, (t', db')).
Proof.
  destruct block1_applied as (t & _ & Hr & Hc).
  pose proof (ApplyBlock_spec (B := MapDB) toy_hash MAINNET toy_hash_length toy_hash_nonzero (fun _ _ => I) (fun _ _ _ => I) 0 ∅
    chain1.1 empty_state t tables1 example_tables (tables1, example_tables) block2 Hr eq_refl Hc block2_ok) as H.
  assert (block_valid MAINNET block2 (chain1.1, t_positions tables1) = true) as Hv by (vm_compute; reflexivity).
  rewrite Hv in H. destruct H as (s' & positions & spent & t' & db' & _ & E & _).
  - apply NoDup_singleton.
  - intros k Hk Hk'. apply list_elem_of_singleton in Hk, Hk'. subst k. vm_compute in Hk'. discriminate.
  - exists t, t', db'. split; [exact Hr|exact E].
Defined.

Lemma Rewind_undoes_blocks_witness :
  exists t db t' db', ApplyBlock toy_hash MAINNET block1 (empty_txhashset, (example_tables, example_tables)) = (Ok true, (t, db)) /\
    TxHashSet_Rewind genesis (t, db) = (Ok tt, (t', db')) /\ ths_rel toy_hash 0 ∅ empty_state empty_state t'.
Proof.
  destruct block1_applied as (t & Ea & Hr & _).
  destruct (Rewind_undoes_blocks (B := MapDB) toy_hash MAINNET toy_hash_length toy_hash_nonzero (fun _ _ => I) (fun _ _ _ => I) 0 ∅
    (empty_state, ∅) [block1] chain1 empty_state t tables1 example_tables (tables1, example_tables) genesis) as (t' & db' & E & Hr' & _).
  - apply (history_cons MAINNET tables1 (empty_state, ∅) [] (empty_state, ∅) block1 chain1 [] genesis); try (vm_compute; reflexivity).
    + constructor.
    + exact block1_distinct.
    + exact block1_cut_through.
    + apply block1_ok.
    + vm_compute. split; congruence.
  - exact empty_chain_ok.
  - reflexivity.
  - vm_compute. congruence.
  - split; [reflexivity|]. constructor; [|constructor]. split; [reflexivity|]. vm_compute. congruence.
  - split; reflexivity.
  - vm_compute. congruence.
  - intros j []%not_elem_of_empty.
  - exact Hr.
  - reflexivity.
  - exists t, (tables1, example_tables), t', db'. split; [exact Ea|]. split; [exact E|exact Hr'].
Defined.

Lemma Commit_Rollback_atomic_witness :
  exists t t', TxHashSet_Commit t = (Ok tt, t') /\ ths_rel toy_hash 0 ∅ chain1.1 chain1.1 t' /\
    ths_rel toy_hash 0 ∅ empty_state empty_state (TxHashSet_Rollback t).
Proof.
  destruct block1_applied as (t & _ & Hr & _).
  destruct (Commit_Rollback_atomic toy_hash toy_hash_length toy_hash_nonzero 0 ∅ _ _ _ Hr) as ((t' & E & Hr' & _) & Hb).
  exists t, t'. split; [exact E|]. split; [exact Hr'|exact Hb].
Defined.

Lemma header1_prefix : header_prefix header1 0 chain1.1 1 2.
Proof.
  constructor; [|split; [|split]|split; [|split]]; vm_compute; try split; try reflexivity; try congruence; try lia.
Qed.

Lemma ValidateRoots_spec_witness :
  exists t, ths_rel toy_hash 0 ∅ chain1.1 empty_state t /\ ValidateRoots toy_hash header1 t = Ok true.
Proof.
  destruct block1_applied as (t & _ & Hr & _). exists t. split; [exact Hr|].
  rewrite (ValidateRoots_spec toy_hash toy_hash_length toy_hash_nonzero 0 ∅ _ _ _ header1 1 2 Hr header1_prefix).
  vm_compute. reflexivity.
Defined.

Lemma ValidateRoots_extra_kernels_witness :
  exists t t', apply_block_kernels toy_hash [example_kernel 3 1 5 2] t = (Ok tt, t') /\
    ValidateRoots toy_hash header1 t' = ValidateRoots toy_hash header1 t.
Proof.
  destruct block1_applied as (t & _ & Hr & _).
  destruct (ValidateRoots_extra_kernels toy_hash toy_hash_length toy_hash_nonzero 0 ∅ _ _ _ header1 1 2 [example_kernel 3 1 5 2] Hr header1_prefix)
    as (t' & E & Ev & _).
  - constructor; [|constructor]. apply example_kernel_ok. vm_compute. split; congruence.
  - vm_compute. reflexivity.
  - exists t, t'. split; [exact E|exact Ev].
Defined.

Definition repeated_input_block : FullBlock :=
  mkFullBlock (fb_header block2)
    (mkTransactionBody [mkTransactionInput 0 (example_commitment 2); mkTransactionInput 1 (example_commitment 2)] [plain_output 4] [example_kernel 3 1 5 2]).

Lemma ApplyBlock_repeated_input_witness :
  exists t, (ApplyBlock toy_hash MAINNET repeated_input_block (t, (tables1, example_tables))).1 = Throw UB.
Proof.
  destruct block1_applied as (t & _ & Hr & Hc). exists t.
  apply (ApplyBlock_repeated_input (B := MapDB) toy_hash MAINNET toy_hash_length toy_hash_nonzero (fun _ _ => I) (fun _ _ _ => I) 0 ∅
    chain1.1 empty_state t tables1 example_tables (tables1, example_tables) repeated_input_block (example_commitment 2) 0 1).
  - exact Hr.
  - reflexivity.
  - exact Hc.
  - apply (example_block_ok _ _ _ 2); cbn [repeated_input_block block2 fb_header fb_body body2 tb_inputs tb_outputs example_block_header bh_height length];
      try lia; [by repeat constructor|repeat constructor; by eexists|vm_compute; congruence..].
  - reflexivity.
  - vm_compute. reflexivity.
Defined.
