(* ===== verification/TxHashSetValidator.v ===== *)
(** * Validating a transaction hash set ([src/PMMR/TxHashSetValidator.cpp])

    What a node checks of a hash set that it received as a whole, before it makes
    it its state.  Progress reports and the test for a shutdown are left out; the
    three threads that check hashes read only, and run in sequence here. *)
From S2P Require Import Prelude BitUtil MMRIndex MMRUtil Serial BigInteger File Roaring MMRHash PruneableMMR Consensus Transaction Crypto KernelMMR Header Block TxHashSet Validation.

(** Where an NRD kernel was seen last. *)
Record NRDKernelPos := mkNRDKernelPos { nrd_height : Z; nrd_kernelIndex : Z }.

Section validator.
Context {F : Type} {HF : HashFile F} {R : Type} {HR : Roaring R}.
Context {P : Type} {SP : Secp256k1 P} {L : Type} {HL : LRUCache Commitment Commitment L}.
Context (Blake2b : bytes -> Hash).
(** The headers of the candidate chain. *)
Context (GetBlockHeaderByHeight : Z -> option BlockHeader).
Local Abbreviation TS := (TxHashSet F R).
Implicit Types (t : TS).

(** ** Sizes and hashes *)
Definition ValidateSizes t (blockHeader : BlockHeader) : bool :=
  (GetKernelMMRSize t =? bh_kernelMMRSize blockHeader) && (GetOutputMMRSize t =? bh_outputMMRSize blockHeader) &&
  (GetRangeProofMMRSize t =? bh_outputMMRSize blockHeader).

(** Whether the hash of a parent, where it and both children are there, is that
    of the children; a leaf passes. *)
Definition parent_hash_ok (MMR_GetHashAt : Index -> result (option Hash)) (mmr_idx : Index) : result bool :=
  if Index_IsLeaf mmr_idx then Ok true
  else
    pParentHash ← MMR_GetHashAt mmr_idx;
    match pParentHash with
    | None => Ok true
    | Some parentHash =>
        pLeftHash ← MMR_GetHashAt (Index_GetLeftChild mmr_idx);
        pRightHash ← MMR_GetHashAt (Index_GetRightChild mmr_idx);
        match pLeftHash, pRightHash with
        | Some leftHash, Some rightHash =>
            Ok (negb (BigInteger_neq parentHash (HashParentWithIndex Blake2b leftHash rightHash (m_position mmr_idx))))
        | _, _ => Ok true
        end
    end.

Fixpoint mmr_hashes_ok (k : nat) (MMR_GetHashAt : Index -> result (option Hash)) (mmr_idx : Index) : result bool :=
  match k with
  | O => Ok true
  | S k =>
      ok ← parent_hash_ok MMR_GetHashAt mmr_idx;
      if (ok : bool) then mmr_hashes_ok k MMR_GetHashAt (Index_GetNext mmr_idx) else Ok false
  end.

(** Exceptions are caught, and fail the check. *)
Definition ValidateMMRHashes (size : Z) (MMR_GetHashAt : Index -> result (option Hash)) : result bool :=
  match mmr_hashes_ok (Z.to_nat size) MMR_GetHashAt (Index_At 0) with
  | Throw e => if is_std e then Ok false else Throw e
  | r => r
  end.

Definition kernel_hash_at t (mmr_idx : Index) : result (option Hash) := h ← KernelMMR_GetHashAt mmr_idx (m_pKernelMMR t); Ok (Some h).

(** The three threads. *)
Definition all_hashes_ok t : result bool :=
  kernels ← ValidateMMRHashes (GetKernelMMRSize t) (kernel_hash_at t);
  outputs ← ValidateMMRHashes (GetOutputMMRSize t) (fun idx => PruneableMMR_GetHashAt idx (m_pOutputPMMR t));
  rangeProofs ← ValidateMMRHashes (GetRangeProofMMRSize t) (fun idx => PruneableMMR_GetHashAt idx (m_pRangeProofPMMR t));
  Ok (kernels && outputs && rangeProofs).

(** ** History *)
Fixpoint kernel_history_ok (k : nat) (height : Z) t : result bool :=
  match k with
  | O => Ok true
  | S k =>
      match GetBlockHeaderByHeight height with
      | None => Ok false
      | Some header =>
          root ← KernelMMR_Root Blake2b (bh_kernelMMRSize header) (m_pKernelMMR t);
          if BigInteger_neq root (bh_kernelRoot header) then Ok false
          else kernel_history_ok k (height + 1)%u64 t
      end
  end.

(** [k] heights from the first one on: there is a turn for every height up to
    that of the header. *)
Definition ValidateKernelHistory t (blockHeader : BlockHeader) : result bool :=
  kernel_history_ok (Z.to_nat (bh_height blockHeader + 1)) 0 t.

(** The kernels of one height; [None] rejects. *)
Fixpoint nrd_kernels_ok (k : nat) (kernelIndex height : Z) (nrdKernelPositions : gmap (list Z) NRDKernelPos) t
    : result (option (gmap (list Z) NRDKernelPos)) :=
  match k with
  | O => Ok (Some nrdKernelPositions)
  | S k =>
      pKernel ← GetKernelAt (LeafIndex_At kernelIndex) (m_pKernelMMR t);
      match pKernel with
      | None => Ok None
      | Some kernel =>
          if tk_features kernel =? NO_RECENT_DUPLICATE then
            let relativeHeight := tk_lockHeight kernel in
            if (relativeHeight =? 0) || (relativeHeight >? WEEK_HEIGHT) then Ok None
            else
              let excess := tk_excessCommitment kernel in
              let recent := match nrdKernelPositions !! excess with
                            | Some p => (height - nrd_height p)%u64 <? relativeHeight
                            | None => false
                            end in
              if recent then Ok None
              else nrd_kernels_ok k (kernelIndex + 1)%u64 height (<[excess := mkNRDKernelPos height kernelIndex]> nrdKernelPositions) t
          else nrd_kernels_ok k (kernelIndex + 1)%u64 height nrdKernelPositions t
      end
  end.

Fixpoint nrd_history_ok (k : nat) (height previousNumKernels totalKernels : Z) (nrdKernelPositions : gmap (list Z) NRDKernelPos) t : result bool :=
  match k with
  | O => Ok true
  | S k =>
      match GetBlockHeaderByHeight height with
      | None => Ok false
      | Some header =>
          let currentNumKernels := BlockHeader_GetNumKernels header in
          if (currentNumKernels <? previousNumKernels) || (currentNumKernels >? totalKernels) then Ok false
          else
            positions ← nrd_kernels_ok (Z.to_nat (currentNumKernels - previousNumKernels)) previousNumKernels height nrdKernelPositions t;
            match positions with
            | None => Ok false
            | Some positions => nrd_history_ok k (height + 1)%u64 currentNumKernels totalKernels positions t
            end
      end
  end.

Definition ValidateNRDKernelHistory t (blockHeader : BlockHeader) : result bool :=
  nrd_history_ok (Z.to_nat (bh_height blockHeader + 1)) 0 0 (BlockHeader_GetNumKernels blockHeader) ∅ t.

(** ** Sums *)
Definition FlushCommitmentChunk (chunk partialSums : list Commitment) : result (list Commitment) :=
  match chunk with
  | [] => Ok partialSums
  | _ => sum ← AddCommitments chunk []; Ok (partialSums ++ [sum])
  end.

(** The two loops that collect commitments, of outputs and of kernels. *)
Fixpoint commitment_sums (k : nat) (idx : LeafIndex) (commitment_at : LeafIndex -> result (option Commitment)) (chunk sums : list Commitment)
    : result (list Commitment) :=
  match k with
  | O => FlushCommitmentChunk chunk sums
  | S k =>
      pCommitment ← commitment_at idx;
      match pCommitment with
      | None => commitment_sums k (LeafIndex_Next idx) commitment_at chunk sums
      | Some commitment =>
          let chunk := chunk ++ [commitment] in
          if length chunk >=? COMMITMENT_SUM_CHUNK_SIZE then
            sums ← FlushCommitmentChunk chunk sums;
            commitment_sums k (LeafIndex_Next idx) commitment_at [] sums
          else commitment_sums k (LeafIndex_Next idx) commitment_at chunk sums
      end
  end.

Definition output_commitment_at t (idx : LeafIndex) : result (option Commitment) :=
  pOutput ← GetOutputAt idx t; Ok (option_map oi_commitment pOutput).
Definition kernel_commitment_at t (idx : LeafIndex) : result (option Commitment) :=
  pKernel ← GetKernelAt idx (m_pKernelMMR t); Ok (option_map tk_excessCommitment pKernel).

Definition TxHashSetValidator_ValidateKernelSums t (blockHeader : BlockHeader) : result BlockSums :=
  let overage := to_int64 (0 - (REWARD * (1 + bh_height blockHeader)%u64)%u64)%u64 in
  outputCommitmentSums ← commitment_sums (Z.to_nat (GetNumOutputs blockHeader)) (LeafIndex_At 0) (output_commitment_at t) [] [];
  excessCommitmentSums ← commitment_sums (Z.to_nat (BlockHeader_GetNumKernels blockHeader)) (LeafIndex_At 0) (kernel_commitment_at t) [] [];
  ValidateKernelSums_of [] outputCommitmentSums excessCommitmentSums overage (bh_totalKernelOffset blockHeader) None.

(** ** Proofs and signatures *)
(** Every turn goes to the next leaf, so that the size of the MMR is enough fuel. *)
Fixpoint range_proofs_ok (fuel : nat) (leaf_idx : LeafIndex) (outputMMRSize : Z) (rangeProofs : list (Commitment * bytes)) t : ST L bool :=
  match fuel with
  | O => st_throw OutOfFuel
  | S fuel =>
      if LeafIndex_GetPosition leaf_idx >=? outputMMRSize then
        match rangeProofs with
        | [] => mret true
        | _ => VerifyBulletproofs rangeProofs
        end
      else
        pOutput ← st_lift (GetOutputAt leaf_idx t);
        match pOutput with
        | None => range_proofs_ok fuel (LeafIndex_Next leaf_idx) outputMMRSize rangeProofs t
        | Some o =>
            pRangeProof ← st_lift (GetRangeProofAt leaf_idx t);
            match pRangeProof with
            | None => mret false
            | Some proof =>
                let rangeProofs := rangeProofs ++ [(oi_commitment o, rp_proof proof)] in
                if length rangeProofs >=? 1000 then
                  valid ← VerifyBulletproofs rangeProofs;
                  if (valid : bool) then range_proofs_ok fuel (LeafIndex_Next leaf_idx) outputMMRSize [] t else mret false
                else range_proofs_ok fuel (LeafIndex_Next leaf_idx) outputMMRSize rangeProofs t
            end
        end
  end.

Definition TxHashSetValidator_ValidateRangeProofs t : ST L bool :=
  range_proofs_ok (S (Z.to_nat (GetOutputMMRSize t))) (LeafIndex_At 0) (GetOutputMMRSize t) [] t.

Fixpoint kernel_signatures_ok (k : nat) (leaf_idx : LeafIndex) (kernels : list TransactionKernel) t : result bool :=
  match k with
  | O => Ok (BatchVerify Blake2b kernels)
  | S k =>
      pKernel ← GetKernelAt leaf_idx (m_pKernelMMR t);
      match pKernel with
      | None => Ok false
      | Some kernel =>
          let kernels := kernels ++ [kernel] in
          if length kernels >=? 5000 then
            if BatchVerify Blake2b kernels then kernel_signatures_ok k (LeafIndex_Next leaf_idx) [] t else Ok false
          else kernel_signatures_ok k (LeafIndex_Next leaf_idx) kernels t
      end
  end.

Definition ValidateKernelSignatures t : result bool :=
  kernel_signatures_ok (Z.to_nat (GetNumKernels (m_pKernelMMR t))) (LeafIndex_At 0) [] t.

(** ** [Validate]

    [None] rejects; the sums are those to store for the header. *)
Definition TxHashSetValidator_Validate t (blockHeader : BlockHeader) : ST L (option BlockSums) :=
  if negb (ValidateSizes t blockHeader) then mret None
  else
    hashes ← st_lift (all_hashes_ok t);
    if negb hashes then mret None
    else
      roots ← st_lift (ValidateRoots Blake2b blockHeader t);
      if negb roots then mret None
      else
        history ← st_lift (ValidateKernelHistory t blockHeader);
        if negb history then mret None
        else
          nrd ← st_lift (ValidateNRDKernelHistory t blockHeader);
          if negb nrd then mret None
          else
            match TxHashSetValidator_ValidateKernelSums t blockHeader with
            | Throw e => if is_std e then mret None else st_throw e
            | Ok sums =>
                proofs ← TxHashSetValidator_ValidateRangeProofs t;
                if negb proofs then mret None
                else
                  signatures ← st_lift (ValidateKernelSignatures t);
                  if negb signatures then mret None
                  else mret (Some sums)
            end.
End validator.
