(* ===== verification/TxHashSetValidatorSpec.v ===== *)
(** * What a validated transaction hash set is

    A hash set that [TxHashSetValidator] accepts has the sizes and roots of the
    header, the kernel roots of all headers before it, no NRD kernel repeated too
    soon, and a supply of one reward for every height; the proofs of its unspent
    outputs and the signatures of its kernels were verified. *)
From S2P Require Import Prelude BitUtil MMRIndex MMRUtil Serial BigInteger File Roaring PruneList BitmapFile MMRHash SegmentId SegmentProof Bitmap Segment PruneableMMR PruneableSpec Consensus Transaction Crypto KernelMMR KernelSpec Header Block BlockDB TxHashSet UtxoSpec TxHashSetSpec Validation ValidationSpec TxHashSetTheorems TxHashSetValidator.

Lemma LeafIndex_Next_At i : 0 <= i < 2 ^ 63 -> LeafIndex_Next (LeafIndex_At i) = LeafIndex_At (i + 1).
Proof. intros Hi. unfold LeafIndex_Next. cbn [LeafIndex_At LeafIndex_new m_leafIndex]. by rewrite uint_small by uint_solve. Qed.

(** ** Sums in chunks *)
Section sums.
Context {P : Type} {SP : Secp256k1 P} {G : Type} {AG : AbelianGroup G} {SL : Secp256k1Laws P G}.

Lemma FlushCommitmentChunk_ok chunk sums sums' :
  Forall is_commitment (chunk ++ sums) -> FlushCommitmentChunk chunk sums = Ok sums' ->
  Forall is_commitment sums' /\ csum (G := G) sums' = csum (sums ++ chunk).
Proof.
  intros [Hc Hs]%Forall_app. unfold FlushCommitmentChunk. destruct chunk as [|c chunk]; [intros [= <-]; by rewrite app_nil_r|].
  destruct (AddCommitments (c :: chunk) []) as [sum|] eqn:E; [|done]. intros [= <-].
  apply (AddCommitments_single (G := G)) in E as (g & Hg & Hsum); [|done]. destruct (commit_of_val _ _ Hsum) as (Hv & Hl & _).
  split; [by rewrite Forall_app, Forall_singleton|]. by rewrite !csum_app, csum_single, Hv, Hg.
Qed.

(** The commitments that a loop meets: [f i] is what is read at the leaf [i]. *)
Lemma commitment_sums_ok (commitment_at : LeafIndex -> result (option Commitment)) (f : Z -> option Commitment) (k : nat) :
  forall i chunk sums sums',
  (forall j, i <= j < i + k -> commitment_at (LeafIndex_At j) = Ok (f j) /\ forall c, f j = Some c -> is_commitment c) ->
  0 <= i -> i + k < 2 ^ 63 -> Forall is_commitment (chunk ++ sums) ->
  commitment_sums k (LeafIndex_At i) commitment_at chunk sums = Ok sums' ->
  Forall is_commitment sums' /\ csum (G := G) sums' = csum (sums ++ chunk ++ omap f (seqZ i k)).
Proof.
  induction k as [|k IH]; intros i chunk sums sums' Hat Hi Hk Hl E; cbn [commitment_sums] in E.
  - cbn [seqZ]. rewrite seqZ_nil by lia. cbn [omap list_omap]. rewrite app_nil_r. by apply FlushCommitmentChunk_ok.
  - destruct (Hat i ltac:(lia)) as [Ei Hc]. rewrite Ei in E. cbn [mbind result_bind] in E. rewrite LeafIndex_Next_At in E by lia.
    rewrite seqZ_cons by lia. replace (Z.pred (S k)) with (Z.of_nat k) by lia. replace (Z.succ i) with (i + 1) by lia. cbn [omap list_omap].
    assert (forall j, i + 1 <= j < i + 1 + k -> commitment_at (LeafIndex_At j) = Ok (f j) /\ forall c, f j = Some c -> is_commitment c) as Hat'
      by (intros j Hj; apply Hat; lia).
    destruct (f i) as [c|].
    + assert (Forall is_commitment ((chunk ++ [c]) ++ sums)) as Hl'
        by (rewrite !Forall_app in *; rewrite Forall_singleton; destruct Hl; auto).
      destruct (_ >=? _).
      * destruct (FlushCommitmentChunk (chunk ++ [c]) sums) as [sums1|] eqn:Ef; [|done]. cbn [mbind result_bind] in E.
        destruct (FlushCommitmentChunk_ok _ _ _ Hl' Ef) as [Hs1 Ec].
        destruct (IH (i + 1) [] sums1 sums' Hat' ltac:(lia) ltac:(lia) Hs1 E) as [Hs' Ec'].
        split; [done|]. rewrite Ec'. cbn [app]. rewrite csum_app, Ec, <- csum_app. by rewrite <- !app_assoc.
      * destruct (IH (i + 1) (chunk ++ [c]) sums sums' Hat' ltac:(lia) ltac:(lia) Hl' E) as [Hs' Ec']. split; [done|]. by rewrite Ec', <- !app_assoc.
    + by apply (IH (i + 1)); try lia.
Qed.
End sums.

(** ** Hashes *)
(** What is read of an MMR of these leaves passes, where nodes may be missing. *)
Lemma parent_hash_complete (Blake2b : bytes -> Hash) (at_ : Index -> result (option Hash)) (leaves : list bytes) p :
  (forall x, length (Blake2b x) = 32%nat) -> 0 <= p < mmr_size (length leaves) -> mmr_size (length leaves) < 2 ^ 60 ->
  (forall (h : nat) i, 0 <= i -> (i + 1) * 2 ^ h <= length leaves ->
     exists b : bool, at_ (Index_At (node_pos h i)) = Ok (if b then Some (node_hash Blake2b leaves h i) else None)) ->
  parent_hash_ok Blake2b at_ (Index_At p) = Ok true.
Proof.
  intros Hlen Hp Hsize Hat. destruct (node_pos_surj p ltac:(lia)) as (h & i & Hh & Hi & ->).
  assert ((i + 1) * 2 ^ h <= length leaves) as Hin by (apply node_in_mmr; lia). unfold parent_hash_ok.
  rewrite Index_At_node by (unfold pos_ok; lia). unfold Index_IsLeaf. cbn [m_height]. destruct (Z.eqb_spec h 0) as [|Hne]; [done|].
  assert (exists h' : nat, h = h' + 1) as [h' ->] by (exists (Z.to_nat (h - 1)); lia). rewrite pow2_1 in Hin by lia.
  destruct (Hat (S h') i Hi ltac:(replace (Z.of_nat (S h')) with (h' + 1) by lia; rewrite pow2_1 by lia; lia)) as [b Hb].
  destruct (Hat h' (2 * i) ltac:(lia) ltac:(nia)) as [bl Hbl]. destruct (Hat h' (2 * i + 1) ltac:(lia) ltac:(nia)) as [br Hbr].
  pose proof (node_pos_parent_left h' i) as Hpl. pose proof (node_pos_parent_right h' i) as Hpr.
  pose proof (node_pos_nonneg h' (2 * i) ltac:(lia) ltac:(lia)). pose proof (pow2_pos (h' + 1) ltac:(lia)).
  replace (Z.of_nat (S h')) with (h' + 1) in Hb by lia. rewrite Index_At_node in Hb by (unfold pos_ok; lia).
  rewrite Index_At_node in Hbl by (unfold pos_ok; lia). rewrite Index_At_node in Hbr by (unfold pos_ok; lia).
  rewrite Hb. destruct b; [|done]. cbn [mbind result_bind]. rewrite Index_GetLeftChild_node, Index_GetRightChild_node by (unfold fam_ok; lia).
  rewrite Hbl. cbn [mbind result_bind]. rewrite Hbr. destruct bl, br; cbn [mbind result_bind]; try done. f_equal.
  unfold BigInteger_neq. rewrite negb_involutive, BigInteger_eq_spec by (unfold HashParentWithIndex; by rewrite node_hash_length, Hlen).
  apply bool_decide_eq_true. cbn [m_position node_hash]. by replace (Z.of_nat (S h')) with (h' + 1) by lia.
Qed.

Lemma mmr_hashes_complete (Blake2b : bytes -> Hash) (at_ : Index -> result (option Hash)) (leaves : list bytes) :
  (forall x, length (Blake2b x) = 32%nat) -> mmr_size (length leaves) < 2 ^ 60 ->
  (forall (h : nat) i, 0 <= i -> (i + 1) * 2 ^ h <= length leaves ->
     exists b : bool, at_ (Index_At (node_pos h i)) = Ok (if b then Some (node_hash Blake2b leaves h i) else None)) ->
  ValidateMMRHashes Blake2b (mmr_size (length leaves)) at_ = Ok true.
Proof.
  intros Hlen Hsize Hat. unfold ValidateMMRHashes.
  assert (forall (k : nat) p, 0 <= p -> p + k = mmr_size (length leaves) -> mmr_hashes_ok Blake2b k at_ (Index_At p) = Ok true) as H.
  { intros k. induction k as [|k IH]; intros p Hp Hk; [done|]. cbn [mmr_hashes_ok].
    rewrite (parent_hash_complete Blake2b at_ leaves p) by (done || lia). cbn [mbind result_bind]. unfold Index_GetNext. cbn [Index_At m_position].
    rewrite uint_small by uint_solve. apply IH; lia. }
  pose proof (mmr_size_ge (length leaves) ltac:(lia)). by rewrite H by lia.
Qed.

Section spec.
Context {F : Type} {HF : HashFile F} {HFL : HashFileLaws F} {R : Type} {HR : Roaring R} {HRL : RoaringLaws R}.
Context {P : Type} {SP : Secp256k1 P} {G : Type} {AG : AbelianGroup G} {SL : Secp256k1Laws P G}.
Context {L : Type} {HL : LRUCache Commitment Commitment L} {HLL : LRUCacheLaws Commitment Commitment L}.
Context (Blake2b : bytes -> Hash) (GetBlockHeaderByHeight : Z -> option BlockHeader) (floor : Z) (base : gset Z).
Local Abbreviation TS := (TxHashSet F R).
Local Abbreviation ths_rel := (ths_rel Blake2b floor base).
Implicit Types (t : TS) (s c : TState) (cache : L) (h : BlockHeader).
Hypothesis Blake2b_length : forall x, length (Blake2b x) = 32%nat.
Hypothesis Blake2b_nonzero : forall x, Blake2b x <> ZERO_HASH.

#[local] Set Default Proof Using "All".

Lemma ths_GetKernelAt s c t j : ths_rel s c t -> 0 <= j < 2 ^ 58 -> GetKernelAt (LeafIndex_At j) (m_pKernelMMR t) = Ok (ts_kernels s !! Z.to_nat j).
Proof. intros Hr. exact (kernel_GetKernelAt Blake2b _ _ _ j (tr_kernels _ _ _ _ _ _ Hr)). Qed.

(** What the MMRs can hold. *)
Lemma ths_bounds s c t : ths_rel s c t -> length (ts_kernels s) < 2 ^ 32 /\ length (ts_outputs s) < 2 ^ 58 /\ n_ok (length (ts_outputs s)).
Proof.
  intros Hr. pose proof (rel_ok _ _ _ _ _ (lv_rel _ _ _ _ _ _ (tr_outputs _ _ _ _ _ _ Hr))) as (? & ? & ? & ? & [_ _ Hv _ _ _]).
  pose proof (view_size _ _ _ _ _ _ _ Hv) as Hn. cbn [outputs_view sp_data] in Hn. pose proof (n_ok_bound _ Hn).
  destruct (ko_kernels _ _ _ _ (tr_kernels _ _ _ _ _ _ Hr)) as [_ Hk]. split; [done|]. split; [lia|done].
Qed.

Lemma ths_leaves s c t : ths_rel s c t ->
  Forall (fun o => is_commitment (oi_commitment o)) (ts_outputs s) /\ Forall (fun k => is_commitment (tk_excessCommitment k)) (ts_kernels s).
Proof.
  intros Hr. pose proof (rel_ok _ _ _ _ _ (lv_rel _ _ _ _ _ _ (tr_outputs _ _ _ _ _ _ Hr))) as (? & ? & ? & ? & [_ _ Hv _ _ _]).
  destruct (ko_kernels _ _ _ _ (tr_kernels _ _ _ _ _ _ Hr)) as [Hk _]. split.
  - eapply Forall_impl; [exact (view_data _ _ _ _ _ _ _ Hv)|]. intros o [[_ Hl] _]. exact Hl.
  - eapply Forall_impl; [exact Hk|]. intros k Hw. exact (tkw_commitment _ _ (kw_v1 _ Hw)).
Qed.

Lemma ths_GetKernelMMRSize s c t : ths_rel s c t -> GetKernelMMRSize t = mmr_size (length (ts_kernels s)).
Proof.
  intros Hr. destruct (tr_kernels _ _ _ _ _ _ Hr) as [_ _ (l & lc & Hh & [Hl _] & _) _].
  unfold GetKernelMMRSize, KernelMMR_GetSize. by rewrite (hf_size_ok l lc _ Hh), Hl, v1_bytes_length.
Qed.

Lemma kernel_GetHashAt s c t (h : nat) i : ths_rel s c t -> 0 <= i -> (i + 1) * 2 ^ h <= length (ts_kernels s) ->
  KernelMMR_GetHashAt (Index_At (node_pos h i)) (m_pKernelMMR t) = Ok (node_hash Blake2b (v1_bytes (ts_kernels s)) h i).
Proof.
  intros Hr Hi Hin. pose proof (tr_kernels _ _ _ _ _ _ Hr) as [Hk _ (l & lc & Hh & Ht & _) _]. pose proof (kernels_tree_length Blake2b _ l Hk Ht).
  assert (0 <= node_pos h i < mmr_size (length (ts_kernels s))) as Hpos by (split; [apply node_pos_nonneg; lia|apply node_in_mmr; lia]).
  unfold KernelMMR_GetHashAt. cbn [Index_At m_position]. destruct Ht as [Hll Ht]. rewrite v1_bytes_length in Hll.
  rewrite (hf_get_ok l lc _ _ Hh) by lia. by rewrite Ht by (rewrite ?v1_bytes_length; done).
Qed.

(** The check of hashes never refuses an MMR that is what it represents. *)
Lemma all_hashes_complete s c t : ths_rel s c t -> all_hashes_ok Blake2b t = Ok true.
Proof.
  intros Hr. destruct (ths_bounds _ _ _ Hr) as (Hk & Ho & _). destruct (tr_wf _ _ _ _ _ _ Hr) as [Hlen _].
  pose proof (rel_ok _ _ _ _ _ (lv_rel _ _ _ _ _ _ (tr_outputs _ _ _ _ _ _ Hr))) as Hro.
  pose proof (rel_ok _ _ _ _ _ (lv_rel _ _ _ _ _ _ (tr_proofs _ _ _ _ _ _ Hr))) as Hrp.
  pose proof (tr_kernels _ _ _ _ _ _ Hr) as Hrk. cbn [outputs_view proofs_view sp_data sp_cdata] in *.
  assert (forall n : nat, n < 2 ^ 58 -> mmr_size n < 2 ^ 60) as Hsz by (intros n Hn; unfold mmr_size; pose proof (pop_nonneg n); lia).
  unfold all_hashes_ok, GetOutputMMRSize, GetRangeProofMMRSize. rewrite (ths_GetKernelMMRSize s c t Hr).
  rewrite (pmmr_GetSize Blake2b OUTPUT_SIZE _ _ _ Hro), (pmmr_GetSize Blake2b RANGE_PROOF_SIZE _ _ _ Hrp).
  rewrite <- (v1_bytes_length (ts_kernels s)), <- (leaf_bytes_length (ts_outputs s)), <- (leaf_bytes_length (ts_proofs s)).
  rewrite !(mmr_hashes_complete Blake2b); [done|..]; rewrite ?v1_bytes_length, ?leaf_bytes_length; try (done || (apply Hsz; lia)).
  - intros h i Hi Hin. exists true. unfold kernel_hash_at.
    by rewrite (kernel_GetHashAt s c t h i Hr Hi Hin).
  - intros h i Hi Hin. eexists. exact (pmmr_GetHashAt Blake2b OUTPUT_SIZE _ _ _ h i Hro Hi Hin).
  - intros h i Hi Hin. eexists. exact (pmmr_GetHashAt Blake2b RANGE_PROOF_SIZE _ _ _ h i Hrp Hi Hin).
Qed.

(** ** Signatures *)
Lemma kernel_signatures_sound s c t (k : nat) : ths_rel s c t -> forall (i : nat) kernels,
  (i + k)%nat = length (ts_kernels s) -> kernel_signatures_ok Blake2b k (LeafIndex_At i) kernels t = Ok true ->
  exists chunks, concat chunks = kernels ++ drop i (ts_kernels s) /\ Forall (fun ks => BatchVerify Blake2b ks = true) chunks.
Proof.
  intros Hr. pose proof (ths_bounds _ _ _ Hr) as (Hn & _ & _). induction k as [|k IH]; intros i kernels Hi E; cbn [kernel_signatures_ok] in E.
  - exists [kernels]. cbn [concat]. rewrite drop_ge by lia. injection E as E. by repeat constructor.
  - rewrite (ths_GetKernelAt s c) in E by (done || lia). rewrite Nat2Z.id in E.
    destruct (lookup_lt_is_Some_2 (ts_kernels s) i ltac:(lia)) as [x Hx]. rewrite Hx in E. cbn [mbind result_bind] in E.
    rewrite LeafIndex_Next_At in E by lia. replace (i + 1) with (Z.of_nat (S i)) in E by lia. rewrite (drop_S _ _ _ Hx).
    destruct (_ >=? _).
    + destruct (BatchVerify Blake2b (kernels ++ [x])) eqn:Eb; [|done].
      destruct (IH (S i) [] ltac:(lia) E) as (chunks & Ec & Hc). exists ((kernels ++ [x]) :: chunks). cbn [concat]. rewrite Ec. cbn [app].
      split; [by rewrite <- app_assoc|by constructor].
    + destruct (IH (S i) (kernels ++ [x]) ltac:(lia) E) as (chunks & Ec & Hc). exists chunks. split; [by rewrite Ec, <- app_assoc|done].
Qed.

(** ** Range proofs *)
Lemma leaf_position s c t (j : nat) : ths_rel s c t -> (j <= length (ts_outputs s))%nat ->
  (LeafIndex_GetPosition (LeafIndex_At j) >=? GetOutputMMRSize t) = bool_decide (j = length (ts_outputs s)).
Proof.
  intros Hr Hj. pose proof (ths_bounds _ _ _ Hr) as (_ & Hn & Hok). rewrite (ths_GetOutputMMRSize Blake2b Blake2b_length Blake2b_nonzero floor base s c t Hr).
  rewrite LeafIndex_At_pos by (lia || (apply n_ok_pos; eapply n_ok_mono; [|exact Hok]; lia)). cbn [LeafIndex_GetPosition m_nodeIndex m_position].
  rewrite Z.geb_leb. destruct (Z.leb_spec (mmr_size (length (ts_outputs s))) (mmr_size j)) as [Hle|Hlt]; symmetry; [apply bool_decide_eq_true|apply bool_decide_eq_false; intros ->; lia].
  destruct (decide (j = length (ts_outputs s))) as [|Hne]; [done|]. pose proof (mmr_size_lt j (length (ts_outputs s)) ltac:(lia)). lia.
Qed.

Lemma range_proofs_sound s c t : ths_rel s c t -> forall (fuel i : nat) rangeProofs cache cache',
  (i <= length (ts_outputs s))%nat -> (length (ts_outputs s) < i + fuel)%nat -> cache_wf cache ->
  range_proofs_ok fuel (LeafIndex_At i) (GetOutputMMRSize t) rangeProofs t cache = (Ok true, cache') ->
  cache_wf cache' /\ Forall (fun p => proved p.1) rangeProofs /\ forall j o, i <= j -> unspent_at s j = Some o -> proved (oi_commitment o).
Proof.
  intros Hr. pose proof (ths_bounds _ _ _ Hr) as (_ & Hn & _). intros fuel. induction fuel as [|fuel IH]; intros i rps cache cache' Hi Hf Hw E; [lia|].
  cbn [range_proofs_ok] in E. rewrite (leaf_position s c t i Hr Hi) in E. case_bool_decide as Hend.
  - assert (forall j o, i <= j -> unspent_at s j = Some o -> proved (oi_commitment o)) as Hlast.
    { intros j o Hj [Hu _]%unspent_at_Some. pose proof (proj2 (tr_wf _ _ _ _ _ _ Hr) j Hu). lia. }
    destruct rps as [|rp rps]; [injection E as <-; by split; [|split; [constructor|]]|].
    destruct (VerifyBulletproofs_ok _ _ _ _ Hw E) as [Hw' Hp]. split; [done|]. split; [by apply Hp|done].
  - rewrite (ths_GetOutputAt Blake2b Blake2b_length Blake2b_nonzero floor base s c t) in E by (done || lia). rewrite (st_lift_ok _ _ _ _ eq_refl) in E.
    rewrite LeafIndex_Next_At in E by lia. replace (i + 1) with (Z.of_nat (S i)) in E by lia.
    destruct (unspent_at s i) as [o|] eqn:Eo.
    + destruct (GetRangeProofAt (LeafIndex_At i) t) as [[proof|]|e]; [|done..]. rewrite (st_lift_ok _ _ _ _ eq_refl) in E.
      assert (forall rps1 cache1 cache2, range_proofs_ok fuel (LeafIndex_At (S i)) (GetOutputMMRSize t) rps1 t cache1 = (Ok true, cache2) -> cache_wf cache1 ->
        proved (oi_commitment o) \/ (oi_commitment o, rp_proof proof) ∈ rps1 -> cache_wf cache2 /\ Forall (fun p => proved p.1) rps1 /\
        forall j o, i <= j -> unspent_at s j = Some o -> proved (oi_commitment o)) as Hrest.
      { intros rps1 cache1 cache2 E1 Hw1 Ho. destruct (IH (S i) rps1 cache1 cache2 ltac:(lia) ltac:(lia) Hw1 E1) as (Hw2 & Hp & Hall).
        split; [done|]. split; [done|]. intros j o' Hj Ho'. destruct (decide (j = i)) as [->|]; [|apply (Hall j); [lia|done]].
        rewrite Eo in Ho'. injection Ho' as <-. destruct Ho as [|Hin]; [done|]. rewrite Forall_forall in Hp. exact (Hp _ Hin). }
      destruct (_ >=? _).
      * unfold mbind, ST_bind in E. destruct (VerifyBulletproofs (rps ++ _) cache) as [[[|]|] cache1] eqn:Ev; [|done..].
        destruct (VerifyBulletproofs_ok _ _ _ _ Hw Ev) as [Hw1 Hp]. specialize (Hp eq_refl). apply Forall_app in Hp as [Hp Ho].
        apply Forall_cons_1 in Ho as [Ho _]. destruct (Hrest _ _ _ E Hw1 (or_introl Ho)) as (Hw2 & _ & Hall). by split; [|split].
      * destruct (Hrest _ _ _ E Hw) as (Hw2 & Hp & Hall); [right; set_solver|]. apply Forall_app in Hp as [Hp _]. by split; [|split].
    + destruct (IH (S i) rps cache cache' ltac:(lia) ltac:(lia) Hw E) as (Hw2 & Hp & Hall). split; [done|]. split; [done|].
      intros j o Hj Ho. destruct (decide (j = i)) as [->|]; [congruence|]. apply (Hall j); [lia|done].
Qed.

(** ** History *)
Hypothesis header_roots : forall height h, GetBlockHeaderByHeight height = Some h -> length (bh_kernelRoot h) = 32%nat.

Lemma kernel_history_sound s c t (k : nat) : ths_rel s c t -> forall height,
  0 <= height -> height + k < 2 ^ 63 -> kernel_history_ok Blake2b GetBlockHeaderByHeight k height t = Ok true ->
  forall j, height <= j < height + k -> exists h, GetBlockHeaderByHeight j = Some h /\
    forall n : nat, (n <= length (ts_kernels s))%nat -> bh_kernelMMRSize h = mmr_size n -> kernel_root_of Blake2b s n = bh_kernelRoot h.
Proof.
  intros Hr. induction k as [|k IH]; intros height H0 Hk E j Hj; [lia|]. cbn [kernel_history_ok] in E.
  destruct (GetBlockHeaderByHeight height) as [h|] eqn:Eh; [|done].
  destruct (KernelMMR_Root Blake2b (bh_kernelMMRSize h) (m_pKernelMMR t)) as [root|] eqn:Er; [|done]. cbn [mbind result_bind] in E.
  destruct (BigInteger_neq root (bh_kernelRoot h)) eqn:Eq; [done|]. rewrite uint_small in E by uint_solve.
  destruct (decide (j = height)) as [->|]; [|by apply (IH (height + 1)); try lia].
  exists h. split; [done|]. intros n Hn En. rewrite En in Er.
  rewrite (kernel_Root_prefix Blake2b Blake2b_length Blake2b_nonzero _ _ _ n (tr_kernels _ _ _ _ _ _ Hr) Hn) in Er. injection Er as <-.
  unfold BigInteger_neq in Eq. apply negb_false_iff in Eq.
  rewrite BigInteger_eq_spec in Eq by (by rewrite (header_roots _ _ Eh); apply mmr_root_length). by apply bool_decide_eq_true in Eq.
Qed.

(** ** NRD kernels *)
(** The kernels that the header at a height counts, and those its block has. *)
Definition numKernels_at (height : Z) : Z :=
  if height <? 0 then 0 else match GetBlockHeaderByHeight height with Some h => BlockHeader_GetNumKernels h | None => 0 end.
Definition confirmed_at (height i : Z) : Prop := 0 <= height /\ numKernels_at (height - 1) <= i < numKernels_at height.
Definition nrd_kernel s (i : Z) (k : TransactionKernel) : Prop := 0 <= i /\ ts_kernels s !! Z.to_nat i = Some k /\ tk_features k = NO_RECENT_DUPLICATE.

(** The rule for the first [m] kernels, as far as heights up to [height] confirm
    them. *)
Record nrd_rule (height m : Z) s : Prop := {
  nr_lock : forall i k, nrd_kernel s i k -> i < m -> 0 < tk_lockHeight k <= WEEK_HEIGHT;
  nr_apart : forall i j hi hj ki kj, nrd_kernel s i ki -> nrd_kernel s j kj -> tk_excessCommitment ki = tk_excessCommitment kj ->
    i < j < m -> confirmed_at hi i -> confirmed_at hj j -> hi <= height -> hj <= height -> tk_lockHeight kj <= hj - hi;
}.

Record nrd_inv (height m : Z) (positions : gmap (list Z) NRDKernelPos) s : Prop := {
  ni_rule : nrd_rule height m s;
  ni_last : forall i k hi, nrd_kernel s i k -> i < m -> confirmed_at hi i -> hi <= height ->
    exists p, positions !! tk_excessCommitment k = Some p /\ hi <= nrd_height p;
  ni_past : forall e p, positions !! e = Some p -> 0 <= nrd_height p <= height;
  ni_mono : forall a b, - 1 <= a <= b -> b <= height -> numKernels_at a <= numKernels_at b;
}.

(** A height that has not been looked at has none of the kernels that were. *)
Lemma nrd_inv_next height positions s : nrd_inv (height - 1) (numKernels_at (height - 1)) positions s -> 0 <= height ->
  numKernels_at (height - 1) <= numKernels_at height -> nrd_inv height (numKernels_at (height - 1)) positions s.
Proof.
  intros [[Hlock Hapart] Hlast Hpast Hmono] H0 Hle.
  assert (forall hi i, confirmed_at hi i -> i < numKernels_at (height - 1) -> hi <= height -> hi <= height - 1) as Hh.
  { intros hi i [? Hi] Hlt Hhi. destruct (decide (hi = height)) as [->|]; lia. }
  constructor; [constructor| | |].
  - exact Hlock.
  - intros i j hi hj ki kj Hi Hj Ee Hij Hci Hcj Hhi Hhj. apply (Hapart i j hi hj ki kj); try done; [apply (Hh hi i)|apply (Hh hj j)]; (done || lia).
  - intros i k hi Hi Hlt Hci Hhi. apply (Hlast i k hi); try done. by apply (Hh hi i).
  - intros e p Hp. specialize (Hpast e p Hp). lia.
  - intros a b Hab Hb. destruct (decide (b = height)) as [->|]; [|by apply Hmono; lia].
    destruct (decide (a = height)) as [->|]; [lia|]. pose proof (Hmono a (height - 1) ltac:(lia) ltac:(lia)). lia.
Qed.

(** One more kernel. *)
Lemma nrd_inv_kernel height m positions s k : nrd_inv height m positions s -> ts_kernels s !! Z.to_nat m = Some k -> 0 <= m ->
  0 <= height -> numKernels_at (height - 1) <= m -> tk_features k <> NO_RECENT_DUPLICATE -> nrd_inv height (m + 1) positions s.
Proof.
  intros [[Hlock Hapart] Hlast Hpast Hmono] Hk Hm H0 Hle Hf.
  assert (forall i k, nrd_kernel s i k -> i < m + 1 -> i < m) as Hlt.
  { intros i k' (? & Hk' & Hf') Hi. destruct (decide (i = m)) as [->|]; [|lia]. congruence. }
  constructor; [constructor| |done|done].
  - intros i k' Hi Hi'. eauto.
  - intros i j hi hj ki kj Hi Hj Ee Hij Hci Hcj Hhi Hhj. specialize (Hlt j kj Hj ltac:(lia)). apply (Hapart i j hi hj ki kj); (done || lia).
  - intros i k' hi Hi Hi'. eauto.
Qed.

Lemma nrd_inv_nrd height m positions s k : nrd_inv height m positions s -> ts_kernels s !! Z.to_nat m = Some k -> 0 <= m ->
  0 <= height < 2 ^ 63 -> numKernels_at (height - 1) <= m -> tk_features k = NO_RECENT_DUPLICATE -> 0 < tk_lockHeight k <= WEEK_HEIGHT ->
  (forall p, positions !! tk_excessCommitment k = Some p -> tk_lockHeight k <= height - nrd_height p) ->
  nrd_inv height (m + 1) (<[tk_excessCommitment k := mkNRDKernelPos height m]> positions) s.
Proof.
  intros [[Hlock Hapart] Hlast Hpast Hmono] Hk Hm H0 Hle Hf Hl Hrecent.
  assert (forall i k', nrd_kernel s i k' -> i < m + 1 -> i < m \/ (i = m /\ k' = k)) as Hsplit.
  { intros i k' (? & Hk' & Hf') Hi. destruct (decide (i = m)) as [->|]; [right; split; congruence|left; lia]. }
  assert (forall hi, confirmed_at hi m -> hi <= height -> hi = height) as Hat.
  { intros hi [? Hi] Hhi. destruct (decide (hi = height)) as [|]; [done|]. pose proof (Hmono hi (height - 1) ltac:(lia) ltac:(lia)). lia. }
  constructor; [constructor| | |done].
  - intros i k' Hi Hi'. destruct (Hsplit i k' Hi Hi') as [|[-> ->]]; [by eapply Hlock|done].
  - intros i j hi hj ki kj Hi Hj Ee Hij Hci Hcj Hhi Hhj. destruct (Hsplit j kj Hj ltac:(lia)) as [|[-> ->]]; [apply (Hapart i j hi hj ki kj); (done || lia)|].
    rewrite (Hat hj Hcj Hhj). destruct (Hlast i ki hi Hi ltac:(lia) Hci Hhi) as (p & Hp & Hle'). rewrite Ee in Hp. specialize (Hrecent p Hp). lia.
  - intros i k' hi Hi Hi' Hci Hhi. destruct (decide (tk_excessCommitment k' = tk_excessCommitment k)) as [->|Hne].
    + rewrite lookup_insert_eq. by eexists.
    + rewrite lookup_insert_ne by done. destruct (Hsplit i k' Hi Hi') as [|[-> ->]]; [by apply (Hlast i k' hi)|done].
  - intros e p [[<- <-]|[_ Hp]]%lookup_insert_Some; [cbn; lia|by apply (Hpast e)].
Qed.

Lemma nrd_kernels_sound s c t (k : nat) : ths_rel s c t -> forall m height positions positions',
  nrd_inv height m positions s -> 0 <= m -> m + k <= length (ts_kernels s) -> 0 <= height < 2 ^ 63 -> numKernels_at (height - 1) <= m ->
  nrd_kernels_ok k m height positions t = Ok (Some positions') -> nrd_inv height (m + k) positions' s.
Proof.
  intros Hr. pose proof (ths_bounds _ _ _ Hr) as (Hn & _ & _). destruct (ko_kernels _ _ _ _ (tr_kernels _ _ _ _ _ _ Hr)) as [Hwf _].
  induction k as [|k IH]; intros m height positions positions' Hi Hm Hk Hh Hle E; cbn [nrd_kernels_ok] in E.
  - injection E as <-. by rewrite Z.add_0_r.
  - rewrite (ths_GetKernelAt s c) in E by (done || lia). destruct (lookup_lt_is_Some_2 (ts_kernels s) (Z.to_nat m) ltac:(lia)) as [x Hx].
    rewrite Hx in E. cbn [mbind result_bind] in E. rewrite uint_small in E by uint_solve. replace (m + S k) with (m + 1 + k) by lia.
    destruct (Z.eqb_spec (tk_features x) NO_RECENT_DUPLICATE) as [Hf|Hf]; [|apply (IH (m + 1) height positions); try (done || lia); apply (nrd_inv_kernel height m positions s x); (done || lia)].
    destruct (Z.eqb_spec (tk_lockHeight x) 0) as [|Hz]; [done|]. cbn [orb] in E. rewrite Z.gtb_ltb in E. destruct (Z.ltb_spec WEEK_HEIGHT (tk_lockHeight x)) as [|Hw]; [done|].
    rewrite Forall_lookup in Hwf. pose proof (tkw_lock _ _ (kw_v1 _ (Hwf _ _ Hx))) as [Hl _].
    destruct (match positions !! tk_excessCommitment x with Some _ => _ | None => _ end) eqn:Erec; [done|].
    eapply IH; [..|exact E]; try (done || lia). apply nrd_inv_nrd; try (done || lia). intros p Hp. rewrite Hp in Erec.
    pose proof (ni_past _ _ _ _ Hi _ _ Hp). rewrite uint_small in Erec by uint_solve. apply Z.ltb_ge in Erec. lia.
Qed.

Lemma nrd_history_sound s c t (k : nat) : ths_rel s c t -> forall height positions,
  nrd_inv (height - 1) (numKernels_at (height - 1)) positions s -> 0 <= numKernels_at (height - 1) -> 0 <= height -> height + k < 2 ^ 63 ->
  nrd_history_ok GetBlockHeaderByHeight k height (numKernels_at (height - 1)) (length (ts_kernels s)) positions t = Ok true ->
  nrd_rule (height - 1 + k) (numKernels_at (height - 1 + k)) s.
Proof.
  intros Hr. induction k as [|k IH]; intros height positions Hi Hp H0 Hk E; cbn [nrd_history_ok] in E; [rewrite Z.add_0_r; apply Hi|].
  destruct (GetBlockHeaderByHeight height) as [h|] eqn:Eh; [|done].
  assert (BlockHeader_GetNumKernels h = numKernels_at height) as En by (unfold numKernels_at; rewrite Eh; by destruct (Z.ltb_spec height 0); [lia|]).
  rewrite En in E. destruct (Z.ltb_spec (numKernels_at height) (numKernels_at (height - 1))) as [|Hle]; [done|]. cbn [orb] in E.
  rewrite Z.gtb_ltb in E. destruct (Z.ltb_spec (length (ts_kernels s)) (numKernels_at height)) as [|Hn]; [done|].
  destruct (nrd_kernels_ok _ _ _ _ t) as [[positions'|]|e] eqn:Ek; [|done..]. cbn [mbind result_bind] in E. rewrite uint_small in E by uint_solve.
  pose proof (nrd_kernels_sound s c t (Z.to_nat (numKernels_at height - numKernels_at (height - 1))) Hr (numKernels_at (height - 1)) height positions positions' (nrd_inv_next _ _ _ Hi H0 Hle) Hp ltac:(lia) ltac:(lia) ltac:(lia) Ek) as Hi'.
  rewrite Z2Nat.id in Hi' by lia. replace (numKernels_at (height - 1) + _) with (numKernels_at height) in Hi' by lia.
  replace (height - 1 + S k) with (height + 1 - 1 + k) by lia. apply (IH (height + 1) positions'); replace (height + 1 - 1) with height by lia; (done || lia).
Qed.

(** ** Sizes and sums *)
Lemma ValidateSizes_sound s c t h : ths_rel s c t -> ValidateSizes t h = true -> header_sizes h s.
Proof.
  intros Hr. unfold ValidateSizes. rewrite (ths_GetKernelMMRSize s c t Hr), (ths_GetOutputMMRSize Blake2b Blake2b_length Blake2b_nonzero floor base s c t Hr).
  intros [[Ek%Z.eqb_eq Eo%Z.eqb_eq]%andb_true_iff _]%andb_true_iff. by split.
Qed.

(** The commitments of the outputs that can be spent. *)
Definition unspent_commitments s : list Commitment := omap (fun j => option_map oi_commitment (unspent_at s j)) (seqZ 0 (length (ts_outputs s))).

Lemma omap_lookup {A B} (f : A -> B) (l : list A) (k : nat) : forall i : nat, (i + k)%nat = length l ->
  omap (fun j => option_map f (l !! Z.to_nat j)) (seqZ i k) = map f (drop i l).
Proof.
  induction k as [|k IH]; intros i Hi; [by rewrite seqZ_nil, drop_ge by lia|].
  destruct (lookup_lt_is_Some_2 l i ltac:(lia)) as [x Hx]. rewrite (drop_S _ _ _ Hx), seqZ_cons by lia.
  replace (Z.pred (S k)) with (Z.of_nat k) by lia. replace (Z.succ i) with (Z.of_nat (S i)) by lia. cbn [omap list_omap map].
  rewrite Nat2Z.id, Hx. cbn [option_map]. by rewrite <- (IH (S i)) by lia.
Qed.

Lemma reward_overage x : 0 < x < 2 ^ 63 -> to_int64 (0 - x)%u64 = - x.
Proof.
  intros Hx. unfold to_int64.
  assert ((0 - x)%u64 = 2 ^ 64 - x) as -> by (symmetry; apply (Z.mod_unique_pos _ _ (-1)); lia).
  destruct (Z.ltb_spec (2 ^ 64 - x) (2 ^ 63)); lia.
Qed.

(** The supply up to a height. *)
Definition supply (height : Z) : Z := REWARD * (1 + height).

Lemma ValidateKernelSums_sound s c t h sums : ths_rel s c t -> header_sizes h s -> 0 <= bh_height h < 2 ^ 27 -> length (bh_totalKernelOffset h) = 32%nat ->
  TxHashSetValidator_ValidateKernelSums t h = Ok sums ->
  exists o k, csum (G := G) (unspent_commitments s) = Some o /\ csum (map tk_excessCommitment (ts_kernels s)) = Some k /\
    o = gadd (gadd k (blind (bh_totalKernelOffset h))) (value (supply (bh_height h))) /\ sums_of sums (gadd k (blind (bh_totalKernelOffset h))) k.
Proof.
  intros Hr Hs Hh Ho. pose proof (ths_bounds _ _ _ Hr) as (Hnk & Hno & _). destruct (ths_leaves _ _ _ Hr) as [Hlo Hlk].
  destruct (header_counts Blake2b Blake2b_length Blake2b_nonzero floor base s c t h s Hr Hs ltac:(lia) ltac:(lia)) as [Ek Eo].
  unfold TxHashSetValidator_ValidateKernelSums. rewrite Ek, Eo, !Nat2Z.id. rewrite (uint_small 64 (1 + bh_height h)) by uint_solve.
  assert (0 < REWARD * (1 + bh_height h) < 2 ^ 63) as Hx by (change REWARD with 60000000000; lia).
  rewrite (uint_small 64 (REWARD * _)), reward_overage by (unfold is_uint; lia).
  destruct (commitment_sums (length (ts_outputs s)) _ _ _ _) as [os|] eqn:E1; [|done]. cbn [mbind result_bind].
  destruct (commitment_sums (length (ts_kernels s)) _ _ _ _) as [ks|] eqn:E2; [|done]. cbn [mbind result_bind].
  apply (commitment_sums_ok (G := G) _ (fun j => option_map oi_commitment (unspent_at s j))) in E1 as [Hos Eos]; [| |lia|lia|constructor].
  2:{ intros j Hj. unfold output_commitment_at. rewrite (ths_GetOutputAt Blake2b Blake2b_length Blake2b_nonzero floor base s c) by (done || lia). split; [done|].
      intros x. destruct (unspent_at s j) as [o|] eqn:Eu; [|done]. intros [= <-]. apply unspent_at_Some in Eu as [_ Eu]. rewrite Forall_lookup in Hlo. by eapply Hlo. }
  apply (commitment_sums_ok (G := G) _ (fun j => option_map tk_excessCommitment (ts_kernels s !! Z.to_nat j))) in E2 as [Hks Eks]; [| |lia|lia|constructor].
  2:{ intros j Hj. unfold kernel_commitment_at. rewrite (ths_GetKernelAt s c) by (done || lia). split; [done|].
      intros x. destruct (ts_kernels s !! Z.to_nat j) as [k|] eqn:Eu; [|done]. intros [= <-]. rewrite Forall_lookup in Hlk. by eapply Hlk. }
  cbn [app] in Eos, Eks. pose proof (omap_lookup tk_excessCommitment (ts_kernels s) (length (ts_kernels s)) 0 eq_refl) as Hom.
  change (Z.of_nat 0) with 0 in Hom. rewrite Hom, drop_0 in Eks.
  intros E. apply (ValidateKernelSums_of_ok (G := G)) with (o0 := gzero) (k0 := gzero) in E as (i & o & k & o1 & k1 & [= <-] & Ho1 & Hk1 & Hsum & Hbal & -> & ->); try done.
  rewrite Eos in Ho1. rewrite Eks in Hk1. rewrite !gadd_0_r in Hbal. rewrite gadd_0_r in Hsum. exists o, k. split; [exact Ho1|]. split; [exact Hk1|].
  split; [|exact Hsum]. fold (supply (bh_height h)) in Hbal. rewrite Hbal, <- gadd_assoc, <- value_add. replace (- supply _ + supply _) with 0 by lia.
  by rewrite value_0, gadd_0_r.
Qed.

(** ** The whole validation *)
Record txhashset_valid h s (sums : BlockSums) : Prop := {
  tv_sizes : header_sizes h s;
  tv_roots : roots_match Blake2b h s (length (ts_kernels s)) (length (ts_outputs s));
  tv_history : forall height, 0 <= height <= bh_height h -> exists h', GetBlockHeaderByHeight height = Some h' /\
    forall n : nat, (n <= length (ts_kernels s))%nat -> bh_kernelMMRSize h' = mmr_size n -> kernel_root_of Blake2b s n = bh_kernelRoot h';
  tv_nrd : nrd_rule (bh_height h) (numKernels_at (bh_height h)) s;
  tv_supply : exists o k, csum (G := G) (unspent_commitments s) = Some o /\ csum (map tk_excessCommitment (ts_kernels s)) = Some k /\
    o = gadd (gadd k (blind (bh_totalKernelOffset h))) (value (supply (bh_height h))) /\ sums_of sums (gadd k (blind (bh_totalKernelOffset h))) k;
  tv_proofs : forall j o, 0 <= j -> unspent_at s j = Some o -> proved (oi_commitment o);
  tv_signatures : exists chunks, concat chunks = ts_kernels s /\ Forall (fun ks => BatchVerify Blake2b ks = true) chunks;
}.

Lemma nrd_inv_start s : nrd_inv (- 1) 0 ∅ s.
Proof.
  constructor; [constructor| | |].
  - intros i k [? _] ?. lia.
  - intros i j hi hj ki kj [? _] _ _ ?. lia.
  - intros i k hi [? _] ?. lia.
  - intros e p Hp. by rewrite lookup_empty in Hp.
  - intros a b Ha Hb. by replace a with b by lia.
Qed.

Lemma ValidateKernelHistory_sound s c t h : ths_rel s c t -> 0 <= bh_height h < 2 ^ 27 ->
  ValidateKernelHistory Blake2b GetBlockHeaderByHeight t h = Ok true ->
  forall height, 0 <= height <= bh_height h -> exists h', GetBlockHeaderByHeight height = Some h' /\
    forall n : nat, (n <= length (ts_kernels s))%nat -> bh_kernelMMRSize h' = mmr_size n -> kernel_root_of Blake2b s n = bh_kernelRoot h'.
Proof.
  intros Hr Hh E height Hheight. apply (kernel_history_sound s c t (Z.to_nat (bh_height h + 1)) Hr 0) with (j := height) in E; (done || lia).
Qed.

Lemma ValidateNRDKernelHistory_sound s c t h : ths_rel s c t -> 0 <= bh_height h < 2 ^ 27 -> BlockHeader_GetNumKernels h = length (ts_kernels s) ->
  ValidateNRDKernelHistory GetBlockHeaderByHeight t h = Ok true -> nrd_rule (bh_height h) (numKernels_at (bh_height h)) s.
Proof.
  intros Hr Hh Ek E. unfold ValidateNRDKernelHistory in E. rewrite Ek in E.
  assert (numKernels_at (0 - 1) = 0) as E0 by done. assert (0 - 1 = - 1) as E1 by done.
  pose proof (nrd_history_sound s c t (Z.to_nat (bh_height h + 1)) Hr 0 ∅) as Hn. rewrite E0, E1 in Hn.
  specialize (Hn (nrd_inv_start s) ltac:(lia) ltac:(lia) ltac:(lia) E).
  by replace (- 1 + Z.to_nat (bh_height h + 1)) with (bh_height h) in Hn by lia.
Qed.

Lemma ValidateRangeProofs_sound s c t cache cache' : ths_rel s c t -> cache_wf cache -> TxHashSetValidator_ValidateRangeProofs t cache = (Ok true, cache') ->
  cache_wf cache' /\ forall j o, 0 <= j -> unspent_at s j = Some o -> proved (oi_commitment o).
Proof.
  intros Hr Hw E. unfold TxHashSetValidator_ValidateRangeProofs in E. change 0 with (Z.of_nat 0) in E.
  apply (range_proofs_sound s c t Hr) in E as (Hw' & _ & Hp); [by split|lia| |done].
  rewrite (ths_GetOutputMMRSize Blake2b Blake2b_length Blake2b_nonzero floor base s c t Hr). pose proof (mmr_size_ge (length (ts_outputs s)) ltac:(lia)). lia.
Qed.

Lemma ValidateKernelSignatures_sound s c t : ths_rel s c t -> ValidateKernelSignatures Blake2b t = Ok true ->
  exists chunks, concat chunks = ts_kernels s /\ Forall (fun ks => BatchVerify Blake2b ks = true) chunks.
Proof.
  intros Hr E. unfold ValidateKernelSignatures in E. rewrite (kernel_GetNumKernels Blake2b _ _ _ (tr_kernels _ _ _ _ _ _ Hr)), Nat2Z.id in E.
  change 0 with (Z.of_nat 0) in E. by apply (kernel_signatures_sound s c t _ Hr) in E.
Qed.

(** What has to succeed for a hash set to be accepted. *)
Lemma Validate_accepts t h cache cache' sums :
  TxHashSetValidator_Validate Blake2b GetBlockHeaderByHeight t h cache = (Ok (Some sums), cache') ->
  ValidateSizes t h = true /\ ValidateRoots Blake2b h t = Ok true /\ ValidateKernelHistory Blake2b GetBlockHeaderByHeight t h = Ok true /\
  ValidateNRDKernelHistory GetBlockHeaderByHeight t h = Ok true /\ TxHashSetValidator_ValidateKernelSums t h = Ok sums /\
  TxHashSetValidator_ValidateRangeProofs t cache = (Ok true, cache') /\ ValidateKernelSignatures Blake2b t = Ok true.
Proof.
  unfold TxHashSetValidator_Validate. destruct (ValidateSizes t h); [cbn [negb]|done].
  destruct (all_hashes_ok Blake2b t) as [[|]|]; [|done..]. rewrite (st_lift_ok _ _ _ _ eq_refl). cbn [negb].
  destruct (ValidateRoots Blake2b h t) as [[|]|]; [|done..]. rewrite (st_lift_ok _ _ _ _ eq_refl). cbn [negb].
  destruct (ValidateKernelHistory _ _ t h) as [[|]|]; [|done..]. rewrite (st_lift_ok _ _ _ _ eq_refl). cbn [negb].
  destruct (ValidateNRDKernelHistory _ t h) as [[|]|]; [|done..]. rewrite (st_lift_ok _ _ _ _ eq_refl). cbn [negb].
  destruct (TxHashSetValidator_ValidateKernelSums t h) as [sums'|e]; [|by destruct (is_std e)].
  destruct (TxHashSetValidator_ValidateRangeProofs t cache) as [[[|]|] cache1] eqn:Ep; [|by rewrite (st_bind_ok _ _ _ _ _ Ep)|by rewrite (st_bind_throw _ _ _ _ _ Ep)].
  rewrite (st_bind_ok _ _ _ _ _ Ep). cbn [negb].
  destruct (ValidateKernelSignatures Blake2b t) as [[|]|]; [|done..]. by intros [= <- <-].
Qed.

(** C14: a hash set that is accepted has the sizes and roots of its header and the
    kernel roots of the headers before it; no NRD kernel repeats one sooner than
    it allows; the outputs that can be spent are the excesses of the kernels, the
    offset and one reward for every height; all their proofs and all signatures
    were verified; and the sums returned are those of the header. *)
Theorem TxHashSetValidator_sound s c t h cache cache' sums :
  ths_rel s c t -> 0 <= bh_height h < 2 ^ 27 -> length (bh_totalKernelOffset h) = 32%nat ->
  length (bh_kernelRoot h) = 32%nat /\ length (bh_outputRoot h) = 32%nat /\ length (bh_rangeProofRoot h) = 32%nat -> cache_wf cache ->
  TxHashSetValidator_Validate Blake2b GetBlockHeaderByHeight t h cache = (Ok (Some sums), cache') -> txhashset_valid h s sums /\ cache_wf cache'.
Proof.
  intros Hr Hh Ho Hroots Hw E. pose proof (ths_bounds _ _ _ Hr) as (Hnk & Hno & _). apply Validate_accepts in E as (Es & Eroots & Ehist & Enrd & Esum & Ep & Esig).
  apply (ValidateSizes_sound s c t h Hr) in Es.
  destruct (header_counts Blake2b Blake2b_length Blake2b_nonzero floor base s c t h s Hr Es ltac:(lia) ltac:(lia)) as [Ek Eo].
  pose proof (rel_floor _ _ _ _ _ (lv_rel _ _ _ _ _ _ (tr_outputs _ _ _ _ _ _ Hr))) as (_ & Hfl & _). cbn [outputs_view sp_data] in Hfl.
  assert (header_prefix h floor s (length (ts_kernels s)) (length (ts_outputs s))) as Hpre by (destruct Es; by constructor).
  rewrite (ValidateRoots_ok Blake2b Blake2b_length Blake2b_nonzero floor base s c t h _ _ Hr Hpre) in Eroots. injection Eroots as Hroot%bool_decide_eq_true_1.
  apply (ValidateRangeProofs_sound s c t _ _ Hr Hw) in Ep as [Hw' Hproofs]. split; [|done].
  constructor; [done|done| | |by apply (ValidateKernelSums_sound s c t)|exact Hproofs|by apply (ValidateKernelSignatures_sound s c t)].
  - by apply (ValidateKernelHistory_sound s c t).
  - by apply (ValidateNRDKernelHistory_sound s c t).
Qed.
End spec.

(** ** Evaluation: the output and the kernel of one reward *)
Definition reward_output : TransactionOutput := mkTransactionOutput 1 (toy_commit REWARD (example_blind 5)) (repeat 0 675).
Definition reward_kernel : TransactionKernel := mkTransactionKernel 1 Fee_new 0 (toy_commit 0 (example_blind 5)) (repeat 1 64).
Definition reward_state : TState := ts_add_kernels [reward_kernel] (ts_append reward_output empty_state).
Definition reward_txs : TxHashSet DataFile (list Z) :=
  let mo := (PruneableMMR_Append toy_hash (OutputIdentifier_FromOutput reward_output) (m_pOutputPMMR empty_txhashset)).2 in
  let mp := (PruneableMMR_Append toy_hash (mkRangeProof (to_rangeProof reward_output)) (m_pRangeProofPMMR empty_txhashset)).2 in
  (apply_block_kernels toy_hash [reward_kernel] (ths_set_rangeProofs mp (ths_set_outputs mo empty_txhashset))).2.

Lemma reward_txs_rel : ths_rel toy_hash 0 ∅ reward_state empty_state reward_txs.
Proof.
  destruct (ths_append toy_hash toy_hash_length toy_hash_nonzero 0 ∅ empty_state empty_state empty_txhashset reward_output empty_txhashset_rel) as (mo & mp & Eo & Ep & Hr).
  { split; [split; [done|split; [done|done]]|]. split; [lia|vm_compute; reflexivity]. }
  assert (kernel_wf (wf := TransactionKernel_wf) reward_kernel) as Hk.
  { apply TransactionKernel_kernel_wf; (constructor; cbn; [lia|by split|done|done|done|done|]; intros _; split; [done|by intros [|]]). }
  destruct (ths_kernels toy_hash toy_hash_length toy_hash_nonzero 0 ∅ empty_state [reward_kernel] _ _ Hr) as (t & E & Ht); [by constructor|by vm_compute|].
  unfold reward_txs. rewrite Eo, Ep. cbn [snd]. by rewrite E.
Qed.

Definition reward_header : BlockHeader :=
  mkBlockHeader 1 0 0 ZERO_HASH ZERO_HASH (output_root_of toy_hash reward_state 1) (proof_root_of toy_hash reward_state 1) (kernel_root_of toy_hash reward_state 1)
    (ZERO 32) 1 1 1 1 0 (mkProofOfWork 8 [] ZERO_HASH).
Definition reward_chain (height : Z) : option BlockHeader := if height =? 0 then Some reward_header else None.

Lemma TxHashSetValidator_sound_witness :
  exists sums cache, TxHashSetValidator_Validate toy_hash reward_chain reward_txs reward_header EmptyCache = (Ok (Some sums), cache) /\
    txhashset_valid (G := toy_group) toy_hash reward_chain reward_header reward_state sums.
Proof.
  assert (exists x, TxHashSetValidator_Validate toy_hash reward_chain reward_txs reward_header EmptyCache = x /\ is_Some (match x.1 with Ok o => o | _ => None end)) as (x & E & Hx)
    by (eexists; split; [vm_compute; reflexivity|by eexists]).
  destruct x as [[[sums|]|] cache]; [|by destruct Hx..]. exists sums, cache. split; [exact E|].
  refine (proj1 (TxHashSetValidator_sound (G := toy_group) toy_hash reward_chain 0 ∅ toy_hash_length toy_hash_nonzero _ _ _ _ _ _ _ _ reward_txs_rel _ _ _ empty_cache_wf E)).
  - intros height h. unfold reward_chain. destruct (height =? 0); [|done]. intros E'. assert (h = reward_header) as -> by congruence. vm_compute. reflexivity.
  - vm_compute. split; congruence.
  - vm_compute. reflexivity.
  - split; [|split]; vm_compute; reflexivity.
Defined.
