(* ===== verification/TxPool.v ===== *)
(** * The transaction pool ([src/TxPool])

    Two pools of transactions waiting for a block: the one for transactions that
    are broadcast, and the stem pool of the dandelion relay.  A pool refers to
    transactions by pointers, which are compared as pointers where statuses
    change: [TransactionPtr] is an address with the immutable object behind it. *)
From S2P Require Import Prelude BitUtil MMRIndex Serial BigInteger File Roaring MMRHash Consensus Transaction Crypto Header Block BlockDB TxHashSet Validation.

Inductive EDandelionStatus := TO_STEM | STEMMED | TO_FLUFF | FLUFFED.
#[export] Instance EDandelionStatus_eq_dec : EqDecision EDandelionStatus.
Proof. solve_decision. Defined.
Inductive EPoolType := STEMPOOL | MEMPOOL.
Inductive EAddTransactionStatus := ADDED | DUPL_TX | LOW_FEE | TX_INVALID | NOT_ADDED.

Record TransactionPtr := mkPtr { tp_address : Z; tp_tx : Transaction }.
Record TxPoolEntry := mkTxPoolEntry { pe_transaction : TransactionPtr; pe_status : EDandelionStatus; pe_timestamp : Z }.
Definition Pool : Type := list TxPoolEntry.
Record TransactionPool := mkTransactionPool { m_memPool : Pool; m_stemPool : Pool }.

(** [NodeConfig::GetFeeBase]. *)
Definition FEE_BASE : Z := 500000.

(** [try { ... } catch (std::exception&) { ... }]. *)
Definition st_try {S A} (m handler : ST S A) : ST S A := fun s =>
  match m s with
  | (Throw e, s') => if is_std e then handler s' else (Throw e, s')
  | x => x
  end.

Section pool.
Context {F : Type} `{HF : HashFile F} {R : Type} `{HR : Roaring R} {B : Type} `{HB : IBlockDB B}.
Context {P : Type} {SP : Secp256k1 P} {L : Type} {HL : LRUCache Commitment Commitment L}.
Context (Blake2b : bytes -> Hash) (SipHash24 : Z -> Z -> bytes -> Z) (env : Environment).
Local Abbreviation TS := (TxHashSet F R).
Implicit Types (p : Pool) (db : B) (t : TS).

(** ** [Transaction] *)
Definition Transaction_GetHash (transaction : Transaction) : Hash := Blake2b (s_bytes (Transaction_Serialize transaction (Serializer_new V1))).
Definition Transaction_eq (a b : Transaction) : bool := BigInteger_eq (Transaction_GetHash a) (Transaction_GetHash b).
Definition TransactionKernel_eq (a b : TransactionKernel) : bool := BigInteger_eq (TransactionKernel_GetHash Blake2b a) (TransactionKernel_GetHash Blake2b b).

Definition FeeMeetsMinimum (block_height : Z) (transaction : Transaction) : bool :=
  let min_fee := (FEE_BASE * CalcWeight env block_height (tx_body transaction))%u64 in
  CalcFee (tx_body transaction) >=? (min_fee << GetFeeShift (tx_body transaction))%u64.

(** Aggregation returns the pointer of a single transaction; a new object is at
    [address]. *)
Definition AggregateTx (transactions : list Transaction) : result Transaction := Aggregate Blake2b Crypto_AddBlindingFactors transactions.
Definition AggregatePtr (address : Z) (transactions : list TransactionPtr) : result TransactionPtr :=
  match transactions with
  | [pTransaction] => Ok pTransaction
  | _ => t ← AggregateTx (map tp_tx transactions); Ok (mkPtr address t)
  end.

(** ** [ValidTransactionFinder] *)
Definition IsValidTransaction db t (transaction : Transaction) : ST L bool :=
  st_try
    (flushed ← st_lift (of_option UB (m_pBlockHeaderBackup t));
     let next_block_height := (bh_height flushed + 1)%u64 in
     _ ← TransactionValidator_Validate Blake2b env transaction next_block_height;
     st_lift (TxHashSet_IsValid env db transaction t))
    (mret false).

Fixpoint find_valid db t (pExtraTransaction : option Transaction) (transactions validTransactions : list TransactionPtr) : ST L (list TransactionPtr) :=
  match transactions with
  | [] => mret validTransactions
  | pTransaction :: transactions =>
      let candidateTransactions := map tp_tx validTransactions ++ option_list pExtraTransaction ++ [tp_tx pTransaction] in
      aggregated ← st_lift (AggregateTx candidateTransactions);
      valid ← IsValidTransaction db t aggregated;
      find_valid db t pExtraTransaction transactions (if valid : bool then validTransactions ++ [pTransaction] else validTransactions)
  end.

Definition FindValidTransactions db t (transactions : list TransactionPtr) (pExtraTransaction : option Transaction) : ST L (list TransactionPtr) :=
  find_valid db t pExtraTransaction transactions [].

(** ** [Pool] *)

(** The loops over the kernels of the transactions: the pairs that are left. *)
Fixpoint collect_by_short_id (hash : Hash) (nonce : Z) (missingShortIds : list ShortId) (kernels : list (TransactionPtr * TransactionKernel))
    (transactionsFound : list TransactionPtr) : result (list TransactionPtr) :=
  match kernels with
  | [] => Ok transactionsFound
  | (pTransaction, kernel) :: kernels =>
      shortId ← ShortId_Create Blake2b SipHash24 (TransactionKernel_GetHash Blake2b kernel) hash nonce;
      if bool_decide (shortId ∈ missingShortIds) then
        let transactionsFound := transactionsFound ++ [pTransaction] in
        if (length transactionsFound =? length missingShortIds)%nat then Ok transactionsFound
        else collect_by_short_id hash nonce missingShortIds kernels transactionsFound
      else collect_by_short_id hash nonce missingShortIds kernels transactionsFound
  end.

Definition pool_kernels p : list (TransactionPtr * TransactionKernel) :=
  concat (map (fun e => map (pair (pe_transaction e)) (tb_kernels (tx_body (tp_tx (pe_transaction e))))) p).

Definition Pool_GetTransactionsByShortId (hash : Hash) (nonce : Z) (missingShortIds : list ShortId) p : result (list TransactionPtr) :=
  collect_by_short_id hash nonce missingShortIds (pool_kernels p) [].

Definition Pool_AddTransaction (now : Z) (pTransaction : TransactionPtr) (status : EDandelionStatus) p : Pool :=
  p ++ [mkTxPoolEntry pTransaction status now].

Definition ContainsTransaction (transaction : Transaction) p : bool :=
  existsb (fun e => Transaction_eq (tp_tx (pe_transaction e)) transaction) p.

(** A [std::set] of pointers: by address, without repetitions. *)
Fixpoint ptr_insert (x : TransactionPtr) (l : list TransactionPtr) : list TransactionPtr :=
  match l with
  | [] => [x]
  | y :: l' => if tp_address x <? tp_address y then x :: l else if tp_address x =? tp_address y then l else y :: ptr_insert x l'
  end.

Definition Pool_FindTransactionsByKernel (kernels : list TransactionKernel) p : list TransactionPtr :=
  foldl (fun transactionSet x => if existsb (TransactionKernel_eq x.2) kernels then ptr_insert x.1 transactionSet else transactionSet) [] (pool_kernels p).

Definition Pool_FindTransactionByKernelHash (kernelHash : Hash) p : option TransactionPtr :=
  fst <$> List.find (fun x => BigInteger_eq (TransactionKernel_GetHash Blake2b x.2) kernelHash) (pool_kernels p).

Definition FindTransactionsByStatus (status : EDandelionStatus) p : list TransactionPtr :=
  map pe_transaction (filter (fun e => pe_status e = status) p).

(** Times are in the ticks of the system clock, nanoseconds. *)
Definition Pool_GetExpiredTransactions (now embargoSeconds : Z) p : list TransactionPtr :=
  let cutoff := now - embargoSeconds * 1000000000 in
  map pe_transaction (filter (fun e => pe_timestamp e < cutoff) p).

Fixpoint RemoveTransaction (transaction : Transaction) p : Pool :=
  match p with
  | [] => []
  | e :: p => if Transaction_eq transaction (tp_tx (pe_transaction e)) then p else e :: RemoveTransaction transaction p
  end.

Definition ShouldEvict (transaction : Transaction) (block : FullBlock) : bool :=
  existsb (fun input => existsb (fun i => TransactionInput_eq i input) (tb_inputs (fb_body block))) (tb_inputs (tx_body transaction))
  || existsb (fun kernel => existsb (fun k => TransactionKernel_eq k kernel) (tb_kernels (fb_body block))) (tb_kernels (tx_body transaction)).

(** [filteredEntriesByHash.at]: the first entry inserted with the hash. *)
Definition entry_by_hash (filtered : Pool) (hash : Hash) : result TxPoolEntry :=
  of_option StdException (List.find (fun e => BigInteger_eq (Transaction_GetHash (tp_tx (pe_transaction e))) hash) filtered).

(** The transactions are cleared before the valid ones are found. *)
Definition Pool_ReconcileBlock db t (block : FullBlock) (pMemPoolAggTx : option Transaction) : ST (Pool * L) unit :=
  x ← st_get;
  let filtered := filter (fun e => ShouldEvict (tp_tx (pe_transaction e)) block = false) x.1 in
  _ ← st_modify (fun x => ([], x.2));
  validTransactions ← st_zoom snd (fun l x => (x.1, l)) (FindValidTransactions db t (map pe_transaction filtered) pMemPoolAggTx);
  entries ← st_lift (map_result (fun pTransaction => entry_by_hash filtered (Transaction_GetHash (tp_tx pTransaction))) validTransactions);
  st_modify (fun x => (entries, x.2)).

(** Pointers are compared, not transactions. *)
Definition ChangeStatus (transactions : list TransactionPtr) (status : EDandelionStatus) p : Pool :=
  map (fun e => if existsb (fun pTransaction => tp_address (pe_transaction e) =? tp_address pTransaction) transactions
                then mkTxPoolEntry (pe_transaction e) status (pe_timestamp e) else e) p.

Definition Pool_Aggregate (address : Z) p : result (option TransactionPtr) :=
  match p with
  | [] => Ok None
  | _ => t ← AggregatePtr address (map pe_transaction p); Ok (Some t)
  end.

(** ** [TransactionPool] *)
Definition set_mem p (x : TransactionPool) : TransactionPool := mkTransactionPool p (m_stemPool x).
Definition set_stem p (x : TransactionPool) : TransactionPool := mkTransactionPool (m_memPool x) p.

Definition GetTransactionsByShortId (hash : Hash) (nonce : Z) (missingShortIds : list ShortId) (x : TransactionPool) : result (list TransactionPtr) :=
  Pool_GetTransactionsByShortId hash nonce missingShortIds (m_memPool x).

Definition lock_height_reached (next_block_height : Z) (transaction : Transaction) : bool :=
  negb (existsb (fun kernel => tk_lockHeight kernel >? next_block_height) (tb_kernels (tx_body transaction))).

(** The clock and the random number are arguments, as is the configured
    probability. *)
Definition AddTransaction (now random stemProbability : Z) db (pTxHashSet : option TS) (pTransaction : TransactionPtr) (poolType : EPoolType)
    (lastConfirmedBlock : BlockHeader) : ST (TransactionPool * L) EAddTransactionStatus :=
  let transaction := tp_tx pTransaction in
  let next_block_height := (bh_height lastConfirmedBlock + 1)%u64 in
  x ← st_get;
  if match poolType with MEMPOOL => ContainsTransaction transaction (m_memPool x.1) | STEMPOOL => false end then mret DUPL_TX
  else if negb (FeeMeetsMinimum next_block_height transaction) then mret LOW_FEE
  else if negb (lock_height_reached next_block_height transaction) then mret NOT_ADDED
  else
    validated ← st_zoom snd (fun l x => (x.1, l))
      (st_try (_ ← TransactionValidator_Validate Blake2b env transaction next_block_height; mret true) (mret false));
    if negb validated then mret TX_INVALID
    else
      valid ← st_lift (match pTxHashSet with None => mret false | Some t => TxHashSet_IsValid env db transaction t end);
      if negb valid then mret NOT_ADDED
      else
        _ ← st_modify (fun x =>
          (match poolType with
           | MEMPOOL => set_stem (RemoveTransaction transaction (m_stemPool x.1)) (set_mem (Pool_AddTransaction now pTransaction FLUFFED (m_memPool x.1)) x.1)
           | STEMPOOL => set_stem (Pool_AddTransaction now pTransaction (if random <=? stemProbability then TO_STEM else TO_FLUFF) (m_stemPool x.1)) x.1
           end, x.2));
        mret ADDED.

Definition FindTransactionsByKernel (kernels : list TransactionKernel) (x : TransactionPool) : list TransactionPtr :=
  Pool_FindTransactionsByKernel kernels (m_memPool x).
Definition GetPoolSize (x : TransactionPool) : Z := length (m_memPool x).
Definition GetStemPoolSize (x : TransactionPool) : Z := length (m_stemPool x).
Definition GetTransactions (poolType : EPoolType) (x : TransactionPool) : list TxPoolEntry :=
  match poolType with STEMPOOL => m_stemPool x | MEMPOOL => m_memPool x end.
Definition FindTransactionByKernelHash (kernelHash : Hash) (x : TransactionPool) : option TransactionPtr :=
  match Pool_FindTransactionByKernelHash kernelHash (m_memPool x) with
  | None => Pool_FindTransactionByKernelHash kernelHash (m_stemPool x)
  | found => found
  end.

Definition on_mem {A} (m : ST (Pool * L) A) : ST (TransactionPool * L) A :=
  st_zoom (fun x => (m_memPool x.1, x.2)) (fun y x => (set_mem y.1 x.1, y.2)) m.
Definition on_stem {A} (m : ST (Pool * L) A) : ST (TransactionPool * L) A :=
  st_zoom (fun x => (m_stemPool x.1, x.2)) (fun y x => (set_stem y.1 x.1, y.2)) m.

Definition ReconcileBlock db t (block : FullBlock) : ST (TransactionPool * L) unit :=
  _ ← on_mem (Pool_ReconcileBlock db t block None);
  x ← st_get;
  pMemPoolAggTx ← st_lift (Pool_Aggregate 0 (m_memPool x.1));
  on_stem (Pool_ReconcileBlock db t block (option_map tp_tx pMemPoolAggTx)).

(** The transactions of the stem pool with a status that are valid on top of the
    memory pool. *)
Definition valid_by_status (status : EDandelionStatus) db t : ST (TransactionPool * L) (list TransactionPtr) :=
  x ← st_get;
  match FindTransactionsByStatus status (m_stemPool x.1) with
  | [] => mret []
  | transactions =>
      pMemPoolAggTx ← st_lift (Pool_Aggregate 0 (m_memPool x.1));
      st_zoom snd (fun l x => (x.1, l)) (FindValidTransactions db t transactions (option_map tp_tx pMemPoolAggTx))
  end.

(** A new aggregate is at [address]. *)
Definition GetTransactionToStem (address : Z) db t : ST (TransactionPool * L) (option TransactionPtr) :=
  validTransactionsToStem ← valid_by_status TO_STEM db t;
  match validTransactionsToStem with
  | [] => mret None
  | _ =>
      pTransactionToStem ← st_lift (AggregatePtr address validTransactionsToStem);
      _ ← st_modify (fun x => (set_stem (ChangeStatus validTransactionsToStem STEMMED (m_stemPool x.1)) x.1, x.2));
      mret (Some pTransactionToStem)
  end.

Definition GetTransactionToFluff (address now : Z) db t : ST (TransactionPool * L) (option TransactionPtr) :=
  validTransactionsToFluff ← valid_by_status TO_FLUFF db t;
  match validTransactionsToFluff with
  | [] => mret None
  | _ =>
      pTransactionToFluff ← st_lift (AggregatePtr address validTransactionsToFluff);
      _ ← st_modify (fun x =>
        (set_stem (foldl (fun p pTransaction => RemoveTransaction (tp_tx pTransaction) p) (m_stemPool x.1) validTransactionsToFluff)
          (set_mem (Pool_AddTransaction now pTransactionToFluff FLUFFED (m_memPool x.1)) x.1), x.2));
      mret (Some pTransactionToFluff)
  end.

Definition GetExpiredTransactions (now embargo random : Z) (x : TransactionPool) : list TransactionPtr :=
  Pool_GetExpiredTransactions now (uint 16 (embargo + random)) (m_stemPool x).
End pool.
