(* ===== verification/TxPoolSpec.v ===== *)
(** * What the transaction pool keeps

    Validation of pool transactions keeps the cache of range proofs sound, and
    after a block the transactions of each pool are valid together. *)
From S2P Require Import Prelude BitUtil MMRIndex Serial BigInteger File Roaring MMRHash Consensus Transaction Crypto Header Block BlockDB TxHashSet Validation ValidationSpec TxPool TxHashSetTheorems KernelSpec.

Section spec.
Context {F : Type} {HF : HashFile F} {R : Type} {HR : Roaring R} {B : Type} {HB : IBlockDB B}.
Context {P : Type} {SP : Secp256k1 P} {L : Type} {HL : LRUCache Commitment Commitment L} {HLL : LRUCacheLaws Commitment Commitment L}.
Context (Blake2b : bytes -> Hash) (env : Environment).
Local Abbreviation TS := (TxHashSet F R).
Implicit Types (p : Pool) (db : B) (t : TS) (cache : L) (l : list TransactionPtr).

(** ** The cache *)
Lemma TransactionValidator_keeps transaction height : st_keeps cache_wf (TransactionValidator_Validate (L := L) Blake2b env transaction height).
Proof.
  unfold TransactionValidator_Validate. apply st_keeps_bind; [auto with keeps|intros _].
  apply st_keeps_bind; [apply TxBodyValidator_keeps|intros _]. auto with keeps.
Qed.

Lemma st_keeps_try {S A} (I : S -> Prop) (m h : ST S A) : st_keeps I m -> st_keeps I h -> st_keeps I (st_try m h).
Proof.
  intros Hm Hh s Hs. unfold st_try. specialize (Hm s Hs). destruct (m s) as [[a|e] s']; [done|]. destruct (is_std e); [by apply Hh|done].
Qed.

Lemma IsValidTransaction_keeps db t transaction : st_keeps cache_wf (IsValidTransaction (L := L) Blake2b env db t transaction).
Proof.
  apply st_keeps_try; [|auto with keeps]. apply st_keeps_bind; [auto with keeps|intros flushed].
  apply st_keeps_bind; [apply TransactionValidator_keeps|]. auto with keeps.
Qed.

Lemma find_valid_keeps db t extra l : forall valid, st_keeps cache_wf (find_valid (L := L) Blake2b env db t extra l valid).
Proof.
  induction l as [|x l IH]; intros valid; cbn [find_valid]; [auto with keeps|].
  apply st_keeps_bind; [auto with keeps|intros agg]. apply st_keeps_bind; [apply IsValidTransaction_keeps|intros ok]. apply IH.
Qed.

Lemma Pool_ReconcileBlock_keeps db t block extra : st_keeps (fun x => cache_wf x.2) (Pool_ReconcileBlock (L := L) Blake2b env db t block extra).
Proof.
  unfold Pool_ReconcileBlock. apply st_keeps_bind; [auto with keeps|intros x]. apply st_keeps_bind; [by apply st_keeps_modify|intros _].
  apply st_keeps_bind; [|intros valid].
  - apply (st_keeps_fields _ cache_wf); [done|done|]. apply find_valid_keeps.
  - apply st_keeps_bind; [auto with keeps|intros entries]. by apply st_keeps_modify.
Qed.

Lemma ReconcileBlock_keeps db t block : st_keeps (fun x => cache_wf x.2) (ReconcileBlock (L := L) Blake2b env db t block).
Proof.
  unfold ReconcileBlock, on_mem, on_stem. apply st_keeps_bind; [|intros _].
  - apply (st_keeps_fields _ (fun x => cache_wf x.2)); [done|done|]. apply Pool_ReconcileBlock_keeps.
  - apply st_keeps_bind; [auto with keeps|intros x]. apply st_keeps_bind; [auto with keeps|intros agg].
    apply (st_keeps_fields _ (fun x => cache_wf x.2)); [done|done|]. apply Pool_ReconcileBlock_keeps.
Qed.

Lemma AddTransaction_keeps now random probability db (t : option TS) transaction pool header :
  st_keeps (fun x => cache_wf x.2) (AddTransaction (L := L) Blake2b env now random probability db t transaction pool header).
Proof.
  unfold AddTransaction. apply st_keeps_bind; [auto with keeps|intros x].
  destruct (match pool with MEMPOOL => _ | STEMPOOL => _ end); [auto with keeps|]. destruct (negb _); [auto with keeps|]. destruct (negb _); [auto with keeps|].
  apply st_keeps_bind; [|intros validated].
  - apply (st_keeps_fields _ cache_wf); [done|done|]. apply st_keeps_try; [|auto with keeps].
    apply st_keeps_bind; [apply TransactionValidator_keeps|auto with keeps].
  - destruct (negb validated); [auto with keeps|]. apply st_keeps_bind; [auto with keeps|intros valid]. destruct (negb valid); [auto with keeps|].
    apply st_keeps_bind; [by apply st_keeps_modify|auto with keeps].
Qed.

(** ** Valid together *)

(** The aggregate of the transactions validated, on top of the hash set. *)
Definition joint_valid db t (transactions : list Transaction) : Prop :=
  exists aggregated flushed cache cache', AggregateTx Blake2b transactions = Ok aggregated /\ m_pBlockHeaderBackup t = Some flushed /\ cache_wf cache /\
    TransactionValidator_Validate Blake2b env aggregated (bh_height flushed + 1)%u64 cache = (Ok tt, cache') /\
    TxHashSet_IsValid env db aggregated t = Ok true.

(** Pool transactions that are valid together with [extra]; the last one was
    tried last. *)
Definition valid_together db t (extra : option Transaction) (transactions : list Transaction) : Prop :=
  match last transactions with
  | None => True
  | Some x => joint_valid db t (removelast transactions ++ option_list extra ++ [x])
  end.

Lemma IsValidTransaction_true db t transaction cache cache' :
  IsValidTransaction Blake2b env db t transaction cache = (Ok true, cache') ->
  exists flushed, m_pBlockHeaderBackup t = Some flushed /\
    TransactionValidator_Validate Blake2b env transaction (bh_height flushed + 1)%u64 cache = (Ok tt, cache') /\ TxHashSet_IsValid env db transaction t = Ok true.
Proof.
  unfold IsValidTransaction, st_try. destruct (m_pBlockHeaderBackup t) as [flushed|]; [|done]. cbn [of_option]. rewrite (st_lift_ok _ _ _ _ eq_refl).
  destruct (TransactionValidator_Validate Blake2b env transaction (bh_height flushed + 1)%u64 cache) as [[[]|e] c1] eqn:E.
  - erewrite st_bind_ok by exact E. unfold st_lift. destruct (TxHashSet_IsValid env db transaction t) as [b|e]; [|by destruct (is_std e)].
    intros [= -> <-]. by exists flushed.
  - erewrite st_bind_throw by exact E. by destruct (is_std e).
Qed.

Lemma find_valid_spec db t extra l : forall valid res cache cache', cache_wf cache -> valid_together db t extra (map tp_tx valid) ->
  find_valid Blake2b env db t extra l valid cache = (Ok res, cache') ->
  valid_together db t extra (map tp_tx res) /\ cache_wf cache' /\ exists more, res = valid ++ more /\ more `sublist_of` l.
Proof.
  induction l as [|x l IH]; intros valid res cache cache' Hw Hv; cbn [find_valid].
  - intros [= <- <-]. split; [done|]. split; [done|]. exists []. by rewrite app_nil_r.
  - destruct (AggregateTx Blake2b _) as [agg|] eqn:Ea; [|done]. rewrite (st_lift_ok _ _ _ _ eq_refl).
    pose proof (IsValidTransaction_keeps db t agg cache Hw) as Hk.
    destruct (IsValidTransaction Blake2b env db t agg cache) as [[ok|] c1] eqn:Ev; [erewrite st_bind_ok by exact Ev|by erewrite st_bind_throw by exact Ev].
    cbn in Hk. destruct ok.
    + assert (valid_together db t extra (map tp_tx (valid ++ [x]))) as Hv'.
      { unfold valid_together. rewrite map_app. cbn [map]. rewrite last_snoc, removelast_last.
        destruct (IsValidTransaction_true _ _ _ _ _ Ev) as (flushed & Hf & Hval & Hi). by exists agg, flushed, cache, c1. }
      intros E. destruct (IH _ _ _ _ Hk Hv' E) as (H1 & H2 & more & -> & Hm). split; [done|]. split; [done|].
      exists (x :: more). rewrite <- app_assoc. split; [done|by apply sublist_skip].
    + intros E. destruct (IH _ _ _ _ Hk Hv E) as (H1 & H2 & more & -> & Hm). split; [done|]. split; [done|].
      exists more. split; [done|by apply sublist_cons].
Qed.

(** A pool in which a hash is that of one transaction. *)
Definition distinct_hashes p : Prop := forall e e', e ∈ p -> e' ∈ p ->
  Transaction_GetHash Blake2b (tp_tx (pe_transaction e)) = Transaction_GetHash Blake2b (tp_tx (pe_transaction e')) ->
  tp_tx (pe_transaction e) = tp_tx (pe_transaction e').

Definition pool_txs p : list Transaction := map (fun e => tp_tx (pe_transaction e)) p.

Hypothesis Blake2b_length : forall x, length (Blake2b x) = 32%nat.

Lemma of_option_Ok {A} e (o : option A) a : of_option e o = Ok a -> o = Some a.
Proof. by destruct o; [intros [= ->]|]. Qed.

Lemma entries_ok filtered l entries : distinct_hashes filtered -> (forall x, x ∈ l -> x ∈ map pe_transaction filtered) ->
  map_result (fun x => entry_by_hash Blake2b filtered (Transaction_GetHash Blake2b (tp_tx x))) l = Ok entries ->
  pool_txs entries = map tp_tx l /\ forall e, e ∈ entries -> e ∈ filtered.
Proof.
  intros Hd. revert entries. induction l as [|x l IH]; intros entries Hl E; cbn [map_result] in E.
  - injection E as <-. split; [done|]. by intros e He%not_elem_of_nil.
  - destruct (entry_by_hash Blake2b filtered _) as [e|] eqn:Ef; [|done]. cbn [mbind result_bind] in E.
    destruct (map_result _ l) as [es|] eqn:Em; [|done]. injection E as <-. destruct (IH es) as [H1 H2]; [|done|].
    { intros y Hy. apply Hl. by right. }
    unfold entry_by_hash in Ef. apply of_option_Ok, find_some in Ef as [He Hh]. apply list_elem_of_In in He. split; [|intros e' [->|He']%elem_of_cons; [done|by apply H2]].
    unfold pool_txs in *. cbn [map]. rewrite H1. f_equal.
    destruct (proj1 (list_elem_of_fmap _ _ _) (Hl x (list_elem_of_here _ _))) as (e' & -> & He').
    apply Hd; [done|done|]. rewrite BigInteger_eq_spec in Hh by (unfold Transaction_GetHash; by rewrite !Blake2b_length). by apply bool_decide_eq_true in Hh.
Qed.

Lemma Pool_ReconcileBlock_ok db t block extra p cache p' cache' : cache_wf cache -> distinct_hashes p ->
  Pool_ReconcileBlock Blake2b env db t block extra (p, cache) = (Ok tt, (p', cache')) ->
  valid_together db t extra (pool_txs p') /\ cache_wf cache' /\
  forall e, e ∈ p' -> e ∈ p /\ ShouldEvict Blake2b (tp_tx (pe_transaction e)) block = false.
Proof.
  intros Hw Hd. unfold Pool_ReconcileBlock. erewrite st_bind_ok by reflexivity. erewrite st_bind_ok by reflexivity. cbn [fst snd].
  set (filtered := filter _ p).
  destruct (FindValidTransactions Blake2b env db t (map pe_transaction filtered) extra cache) as [[valid|e] c1] eqn:Ev.
  2:{ erewrite st_bind_throw; [done|]. apply st_zoom_run. exact Ev. }
  erewrite st_bind_ok by (apply st_zoom_run; exact Ev). cbn [fst snd].
  destruct (find_valid_spec db t extra _ [] valid cache c1 Hw I Ev) as (Hv & Hw1 & more & -> & Hm).
  destruct (map_result _ _) as [entries|] eqn:Em; [|done]. rewrite (st_lift_ok _ _ _ _ eq_refl). intros [= <- <-].
  assert (distinct_hashes filtered) as Hdf.
  { intros e e' He He'. apply list_elem_of_filter in He as [_ He], He' as [_ He']. by apply Hd. }
  assert (forall x, x ∈ more -> x ∈ map pe_transaction filtered) as Hsub by (intros x Hx; by eapply elem_of_sublist).
  destruct (entries_ok filtered more entries Hdf Hsub Em) as [He Hin].
  rewrite He. split; [done|]. split; [done|]. intros e Hee. apply Hin, list_elem_of_filter in Hee as [? ?]. done.
Qed.

(** No input and no kernel in common. *)
Definition disjoint_bodies (body body' : TransactionBody) : Prop :=
  (forall i, i ∈ tb_inputs body -> i ∉ tb_inputs body') /\
  (forall k k', k ∈ tb_kernels body -> k' ∈ tb_kernels body' -> TransactionKernel_GetHash Blake2b k <> TransactionKernel_GetHash Blake2b k').

Lemma ShouldEvict_disjoint transaction block : ShouldEvict Blake2b transaction block = false -> disjoint_bodies (tx_body transaction) (fb_body block).
Proof.
  unfold ShouldEvict. intros [Hi Hk]%orb_false_iff. split.
  - intros i Hin Hin'. apply not_true_iff_false in Hi. apply Hi. apply existsb_exists. exists i. split; [by apply list_elem_of_In|].
    apply existsb_exists. exists i. split; [by apply list_elem_of_In|]. unfold TransactionInput_eq.
    by rewrite Z.eqb_refl, BigInteger_eq_spec, bool_decide_eq_true_2.
  - intros k k' Hin Hin' E. apply not_true_iff_false in Hk. apply Hk. apply existsb_exists. exists k. split; [by apply list_elem_of_In|].
    apply existsb_exists. exists k'. split; [by apply list_elem_of_In|]. unfold TransactionKernel_eq.
    by rewrite E, BigInteger_eq_spec, bool_decide_eq_true_2.
Qed.

(** C17: once the pools are reconciled with a block, the transactions of the memory
    pool are valid together on top of the hash set: their aggregate validates, as
    does the aggregate of the stem pool's with the memory pool's; what is left was
    in the pools, spends no input that the block spends, and has no kernel with
    the hash of one of the block's. *)
Theorem ReconcileBlock_valid db t block x cache x' cache' :
  cache_wf cache -> distinct_hashes (m_memPool x) -> distinct_hashes (m_stemPool x) ->
  ReconcileBlock Blake2b env db t block (x, cache) = (Ok tt, (x', cache')) ->
  valid_together db t None (pool_txs (m_memPool x')) /\
  (exists aggregated, Pool_Aggregate Blake2b 0 (m_memPool x') = Ok aggregated /\
     valid_together db t (option_map tp_tx aggregated) (pool_txs (m_stemPool x'))) /\
  (forall e, e ∈ m_memPool x' -> e ∈ m_memPool x /\ disjoint_bodies (tx_body (tp_tx (pe_transaction e))) (fb_body block)) /\
  (forall e, e ∈ m_stemPool x' -> e ∈ m_stemPool x /\ disjoint_bodies (tx_body (tp_tx (pe_transaction e))) (fb_body block)).
Proof.
  intros Hw Hm Hs. unfold ReconcileBlock, on_mem, on_stem.
  destruct (Pool_ReconcileBlock Blake2b env db t block None (m_memPool x, cache)) as [[[]|e] [mem c1]] eqn:E1.
  2:{ erewrite st_bind_throw; [done|]. apply st_zoom_run. exact E1. }
  destruct (Pool_ReconcileBlock_ok _ _ _ _ _ _ _ _ Hw Hm E1) as (Hv1 & Hw1 & Hin1).
  erewrite st_bind_ok by (apply st_zoom_run; exact E1). erewrite st_bind_ok by reflexivity. cbn [fst snd set_mem m_memPool m_stemPool].
  destruct (Pool_Aggregate Blake2b 0 mem) as [agg|] eqn:Ea; [|done]. rewrite (st_lift_ok _ _ _ _ eq_refl).
  destruct (Pool_ReconcileBlock Blake2b env db t block (option_map tp_tx agg) (m_stemPool x, c1)) as [r2 [stem c2]] eqn:E2.
  erewrite st_zoom_run by exact E2. intros [= -> <- <-]. cbn [fst snd set_mem set_stem m_memPool m_stemPool].
  destruct (Pool_ReconcileBlock_ok _ _ _ _ _ _ _ _ Hw1 Hs E2) as (Hv2 & _ & Hin2). split; [done|]. split; [by exists agg|].
  split; intros e He; [destruct (Hin1 e He)|destruct (Hin2 e He)]; (split; [done|by apply ShouldEvict_disjoint]).
Qed.
End spec.

(** ** Evaluation

    A block that creates an output of 10, and a pool with the transaction that
    spends it. *)
Definition pool_output : TransactionOutput := mkTransactionOutput 0 (toy_commit 10 (example_blind 1)) (repeat 5 675).
Definition pool_start_block : FullBlock := mkFullBlock header1 (mkTransactionBody [] [pool_output] [example_kernel 3 1 5 1]).
Definition pool_state : TxHashSet DataFile (list Z) * MapDB :=
  let '(t, db) := (ApplyBlock toy_hash MAINNET pool_start_block (empty_txhashset, (example_tables, example_tables))).2 in
  ((TxHashSet_Commit t).2, db).
Definition pool_entry : TxPoolEntry := mkTxPoolEntry (mkPtr 1 valid_tx) FLUFFED 0.
Definition example_pool : TransactionPool := mkTransactionPool [pool_entry] [].

Lemma ReconcileBlock_valid_witness :
  exists cache', ReconcileBlock toy_hash MAINNET pool_state.2 pool_state.1 pool_start_block (example_pool, EmptyCache) = (Ok tt, (example_pool, cache')) /\
    joint_valid (L := list (Commitment * Commitment)) toy_hash MAINNET pool_state.2 pool_state.1 [valid_tx].
Proof.
  eexists. assert (ReconcileBlock toy_hash MAINNET pool_state.2 pool_state.1 pool_start_block (example_pool, EmptyCache) =
    (Ok tt, (example_pool, [(toy_commit 7 (example_blind 5), toy_commit 7 (example_blind 5))]))) as E by (vm_compute; reflexivity).
  split; [exact E|]. refine (proj1 (ReconcileBlock_valid (L := list (Commitment * Commitment)) toy_hash MAINNET toy_hash_length _ _ _ _ _ _ _ empty_cache_wf _ _ E)).
  - by intros e e' ->%list_elem_of_singleton ->%list_elem_of_singleton.
  - by intros e e' []%not_elem_of_nil.
Defined.
