(* ===== verification/Desegmenter.v ===== *)
(** * The desegmenter ([include/PMMR/TxHashSetDesegmenter.h])

    The receiving side of a sync: segments that validate against the archive
    header are cached, applied in the order of their indices, and those still
    missing are asked for.  The bitmap comes first, then outputs, range proofs
    and kernels side by side.  This file has the operations and the arithmetic
    of what is applied and what is required next; [DesegmenterSpec] shows that a
    sync with honest answers ends with everything applied. *)
From S2P Require Import Prelude BitUtil MMRIndex MMRUtil Serial BigInteger MMRHash SegmentId SegmentProof BitmapFile Bitmap Segment BitmapSegment SegmentTracker Transaction Header.

(** The constants of [PIBDParams.h]. *)
Definition MAX_CACHED_SEGMENTS : Z := 30.
Definition SEGMENT_APPLY_BATCH_SIZE : nat := 12.
Definition KERNEL_SEGMENT_MIN_HEIGHT : Z := 9.
Definition KERNEL_SEGMENT_MAX_HEIGHT : Z := 14.
Definition BITMAP_SEGMENT_MIN_HEIGHT : Z := 9.
Definition BITMAP_SEGMENT_MAX_HEIGHT : Z := 14.
Definition OUTPUT_SEGMENT_MIN_HEIGHT : Z := 11.
Definition OUTPUT_SEGMENT_MAX_HEIGHT : Z := 16.
Definition RANGEPROOF_SEGMENT_MIN_HEIGHT : Z := 7.
Definition RANGEPROOF_SEGMENT_MAX_HEIGHT : Z := 12.

(** ** What is applied, and what comes next *)
Definition NextRequiredSegmentIndex (localMMRSize height : Z) : Z :=
  if (localMMRSize =? 0) || (localMMRSize =? 1) then 0
  else
    let segmentCount := CountSegmentsRequired localMMRSize height in
    let theoreticalSize := GetPMMRSize segmentCount height in
    if (0 <? segmentCount) && (localMMRSize <? theoreticalSize) then segmentCount - 1 else segmentCount.

Definition IsSegmentApplied (identifier : SegmentIdentifier) (targetMMRSize appliedMMRSize : Z) : bool :=
  if (appliedMMRSize =? 0) || (GetSegmentUnprunedSize targetMMRSize identifier =? 0) then false
  else (GetPositionRange targetMMRSize identifier).2 <? appliedMMRSize.

Definition AppliedMMRSizeAfterSegment (identifier : SegmentIdentifier) (targetMMRSize : Z) : Z :=
  Z.min (GetPMMRSize (seg_index identifier + 1)%u64 (seg_height identifier)) targetMMRSize.

Definition ValidateHeight (type : SegmentType) (height : Z) : bool :=
  match type with
  | STOutputBitmap => (height >=? BITMAP_SEGMENT_MIN_HEIGHT) && (height <=? BITMAP_SEGMENT_MAX_HEIGHT)
  | STOutput => (height >=? OUTPUT_SEGMENT_MIN_HEIGHT) && (height <=? OUTPUT_SEGMENT_MAX_HEIGHT)
  | STRangeProof => (height >=? RANGEPROOF_SEGMENT_MIN_HEIGHT) && (height <=? RANGEPROOF_SEGMENT_MAX_HEIGHT)
  | STKernel => (height >=? KERNEL_SEGMENT_MIN_HEIGHT) && (height <=? KERNEL_SEGMENT_MAX_HEIGHT)
  | STOther _ => false
  end.

(** ** A cache of segments *)
Section cache.
Context {D : Type}.
Implicit Types (cache : list (Segment D)).

Definition HasSegment cache (identifier : SegmentIdentifier) : bool :=
  existsb (fun segment => bool_decide (sg_id segment = identifier)) cache.

Definition CacheSegment cache (segment : Segment D) : list (Segment D) :=
  if HasSegment cache (sg_id segment) then cache else cache ++ [segment].

(** [std::find_if] for the index alone, as [ApplyReadySegmentBatch] does it. *)
Definition find_by_index cache (nextIndex : Z) : option (nat * Segment D) :=
  list_find (fun segment => seg_index (sg_id segment) = nextIndex) cache.

(** The loop of [AppendDesiredSegments]; a turn advances [nextIndex]. *)
Fixpoint AppendDesired_loop (k : nat) (maxElements : Z) (type : SegmentType) (targetMMRSize height localMMRSize : Z)
    cache (nextIndex : Z) (desired : list SegmentTypeIdentifier) : list SegmentTypeIdentifier :=
  match k with
  | O => desired
  | S k =>
      if negb (length desired <? maxElements) then desired
      else
        let identifier := mkSegmentIdentifier height nextIndex in
        if negb (IsSegmentApplied identifier targetMMRSize localMMRSize) && negb (HasSegment cache identifier) then
          let desired := desired ++ [mkSegmentTypeIdentifier type identifier] in
          if length cache >=? MAX_CACHED_SEGMENTS then desired
          else AppendDesired_loop k maxElements type targetMMRSize height localMMRSize cache (nextIndex + 1) desired
        else AppendDesired_loop k maxElements type targetMMRSize height localMMRSize cache (nextIndex + 1) desired
  end.

Definition AppendDesiredSegments (desired : list SegmentTypeIdentifier) (maxElements : Z) (type : SegmentType)
    (targetMMRSize height localMMRSize : Z) cache : list SegmentTypeIdentifier :=
  let totalSegments := CountSegmentsRequired targetMMRSize height in
  let nextIndex := NextRequiredSegmentIndex localMMRSize height in
  AppendDesired_loop (Z.to_nat (totalSegments - nextIndex)) maxElements type targetMMRSize height localMMRSize cache
    nextIndex desired.

Definition AppendBlockingSegment (blockers : list SegmentTypeIdentifier) (type : SegmentType)
    (targetMMRSize height localMMRSize : Z) cache : list SegmentTypeIdentifier :=
  let totalSegments := CountSegmentsRequired targetMMRSize height in
  let nextIndex := NextRequiredSegmentIndex localMMRSize height in
  if nextIndex >=? totalSegments then blockers
  else
    let identifier := mkSegmentIdentifier height nextIndex in
    if negb (IsSegmentApplied identifier targetMMRSize localMMRSize) && negb (HasSegment cache identifier)
    then blockers ++ [mkSegmentTypeIdentifier type identifier] else blockers.

(** [TakeReadySegmentBatch]: the segments leave the cache for the result. *)
Fixpoint TakeReady_loop (k : nat) (targetMMRSize nextIndex : Z) cache (appliedMMRSize : Z) (result : list (Segment D))
    : list (Segment D) * list (Segment D) * Z :=
  match k with
  | O => (result, cache, appliedMMRSize)
  | S k =>
      match find_by_index cache nextIndex with
      | None => (result, cache, appliedMMRSize)
      | Some (iter, segment) =>
          TakeReady_loop k targetMMRSize (nextIndex + 1)%u64 (delete iter cache)
            (AppliedMMRSizeAfterSegment (sg_id segment) targetMMRSize) (result ++ [segment])
      end
  end.

Definition TakeReadySegmentBatch cache (appliedMMRSize height targetMMRSize : Z)
    : list (Segment D) * list (Segment D) * Z :=
  TakeReady_loop SEGMENT_APPLY_BATCH_SIZE targetMMRSize (NextRequiredSegmentIndex appliedMMRSize height) cache appliedMMRSize [].

(** [ApplyReadySegmentBatch] changes the cache, the applied size, and what the
    callback changes: [W].  [Some n]: [n] segments were applied; [None]: the
    callback refused one, which stays in the cache. *)
Context {W : Type}.
Definition batch_state : Type := list (Segment D) * Z * W.

Section batch.
Context (applySegment : Segment D -> Z -> ST W bool) (targetMMRSize : Z).

Fixpoint ApplyReady_loop (k : nat) (nextIndex appliedCount : Z) : ST batch_state (option Z) :=
  match k with
  | O => mret (Some appliedCount)
  | S k =>
      st ← st_get;
      match find_by_index st.1.1 nextIndex with
      | None => mret (Some appliedCount)
      | Some (iter, segment) =>
          applied ← st_zoom snd (fun w st => (st.1, w)) (applySegment segment targetMMRSize);
          if negb applied then mret None
          else
            _ ← st_modify (fun st : batch_state =>
                  (delete iter st.1.1, AppliedMMRSizeAfterSegment (sg_id segment) targetMMRSize, st.2));
            ApplyReady_loop k (nextIndex + 1)%u64 (appliedCount + 1)
      end
  end.

Definition ApplyReadySegmentBatch (height : Z) : ST batch_state (option Z) :=
  st ← st_get;
  ApplyReady_loop SEGMENT_APPLY_BATCH_SIZE (NextRequiredSegmentIndex st.1.2 height) 0.
End batch.
End cache.

(** ** [TxHashSetDesegmenter]

    The leaf types of the segments are [OutputIdentifier], [RangeProof] and
    [TransactionKernel] in the sources; the class uses them only through
    [Segment], and they are parameters here. *)
Record Desegmenter {OT PT KT : Type} := mkDesegmenter {
  m_archiveHeader : BlockHeader;
  m_bitmapAccumulator : BitmapAccumulator;
  m_bitmapCacheComplete : bool;
  m_allSegmentsComplete : bool;
  m_bitmapMMRSize : Z;
  m_appliedBitmapMMRSize : Z;
  m_appliedOutputMMRSize : Z;
  m_appliedRangeProofMMRSize : Z;
  m_appliedKernelMMRSize : Z;
  m_nextDesiredTypeOffset : Z;
  m_bitmapSegments : list (Segment BitmapChunk);
  m_outputSegments : list (Segment OT);
  m_rangeProofSegments : list (Segment PT);
  m_kernelSegments : list (Segment KT);
}.
Arguments Desegmenter : clear implicits.

(** [CalculateBitmapMMRSizes]. *)
Definition CalculateBitmapMMRSizes (archiveHeader : BlockHeader) : Z :=
  let outputLeaves := CountLeaves (bh_outputMMRSize archiveHeader) in
  let bitmapLeaves := (outputLeaves + LEN_BITS - 1)%u64 / LEN_BITS in
  if bitmapLeaves =? 0 then 0 else LeafIndex_GetPosition (LeafIndex_At bitmapLeaves).

(** The constructor: [Reset] of the archive header's desegmenter. *)
Definition Desegmenter_new {OT PT KT} (archiveHeader : BlockHeader) : Desegmenter OT PT KT :=
  mkDesegmenter _ _ _ archiveHeader BitmapAccumulator_new false false (CalculateBitmapMMRSizes archiveHeader)
    0 0 0 0 0 [] [] [] [].

Section desegmenter.
Context {OT PT KT : Type} `{Serializable OT} `{Serializable PT} `{Serializable KT} (Blake2b : bytes -> Hash).
Local Abbreviation DG := (Desegmenter OT PT KT).
Implicit Types (d : DG).

Definition Reset d : DG := Desegmenter_new (m_archiveHeader d).

(** *** Setters *)
Definition set_bitmap (a : BitmapAccumulator) (complete : bool) (applied : Z) (cache : list (Segment BitmapChunk)) d : DG :=
  mkDesegmenter _ _ _ (m_archiveHeader d) a complete (m_allSegmentsComplete d) (m_bitmapMMRSize d) applied
    (m_appliedOutputMMRSize d) (m_appliedRangeProofMMRSize d) (m_appliedKernelMMRSize d) (m_nextDesiredTypeOffset d)
    cache (m_outputSegments d) (m_rangeProofSegments d) (m_kernelSegments d).
Definition set_output (applied : Z) (cache : list (Segment OT)) d : DG :=
  mkDesegmenter _ _ _ (m_archiveHeader d) (m_bitmapAccumulator d) (m_bitmapCacheComplete d) (m_allSegmentsComplete d)
    (m_bitmapMMRSize d) (m_appliedBitmapMMRSize d) applied (m_appliedRangeProofMMRSize d) (m_appliedKernelMMRSize d)
    (m_nextDesiredTypeOffset d) (m_bitmapSegments d) cache (m_rangeProofSegments d) (m_kernelSegments d).
Definition set_rangeProof (applied : Z) (cache : list (Segment PT)) d : DG :=
  mkDesegmenter _ _ _ (m_archiveHeader d) (m_bitmapAccumulator d) (m_bitmapCacheComplete d) (m_allSegmentsComplete d)
    (m_bitmapMMRSize d) (m_appliedBitmapMMRSize d) (m_appliedOutputMMRSize d) applied (m_appliedKernelMMRSize d)
    (m_nextDesiredTypeOffset d) (m_bitmapSegments d) (m_outputSegments d) cache (m_kernelSegments d).
Definition set_kernel (applied : Z) (cache : list (Segment KT)) d : DG :=
  mkDesegmenter _ _ _ (m_archiveHeader d) (m_bitmapAccumulator d) (m_bitmapCacheComplete d) (m_allSegmentsComplete d)
    (m_bitmapMMRSize d) (m_appliedBitmapMMRSize d) (m_appliedOutputMMRSize d) (m_appliedRangeProofMMRSize d) applied
    (m_nextDesiredTypeOffset d) (m_bitmapSegments d) (m_outputSegments d) (m_rangeProofSegments d) cache.
Definition set_complete (complete : bool) d : DG :=
  mkDesegmenter _ _ _ (m_archiveHeader d) (m_bitmapAccumulator d) (m_bitmapCacheComplete d) complete (m_bitmapMMRSize d)
    (m_appliedBitmapMMRSize d) (m_appliedOutputMMRSize d) (m_appliedRangeProofMMRSize d) (m_appliedKernelMMRSize d)
    (m_nextDesiredTypeOffset d) (m_bitmapSegments d) (m_outputSegments d) (m_rangeProofSegments d) (m_kernelSegments d).
Definition set_typeOffset (offset : Z) d : DG :=
  mkDesegmenter _ _ _ (m_archiveHeader d) (m_bitmapAccumulator d) (m_bitmapCacheComplete d) (m_allSegmentsComplete d)
    (m_bitmapMMRSize d) (m_appliedBitmapMMRSize d) (m_appliedOutputMMRSize d) (m_appliedRangeProofMMRSize d)
    (m_appliedKernelMMRSize d) offset (m_bitmapSegments d) (m_outputSegments d) (m_rangeProofSegments d) (m_kernelSegments d).

(** *** Progress *)
Definition outputMMRSize d : Z := bh_outputMMRSize (m_archiveHeader d).
Definition kernelMMRSize d : Z := bh_kernelMMRSize (m_archiveHeader d).

Definition IsApplied (typeId : SegmentTypeIdentifier) d : bool :=
  let identifier := sti_identifier typeId in
  match m_segmentType typeId with
  | STOutputBitmap => IsSegmentApplied identifier (m_bitmapMMRSize d) (m_appliedBitmapMMRSize d)
  | STOutput => IsSegmentApplied identifier (outputMMRSize d) (m_appliedOutputMMRSize d)
  | STRangeProof => IsSegmentApplied identifier (outputMMRSize d) (m_appliedRangeProofMMRSize d)
  | STKernel => IsSegmentApplied identifier (kernelMMRSize d) (m_appliedKernelMMRSize d)
  | STOther _ => false
  end.

Definition GetCompletedLeaves d : Z :=
  (CountLeaves (m_appliedBitmapMMRSize d) + CountLeaves (m_appliedOutputMMRSize d)
   + CountLeaves (m_appliedRangeProofMMRSize d) + CountLeaves (m_appliedKernelMMRSize d))%u64.

Definition GetLeavesRequired d : Z :=
  (CountLeaves (m_bitmapMMRSize d) + CountLeaves (outputMMRSize d) * 2 + CountLeaves (kernelMMRSize d))%u64.

Definition SetAppliedMMRSizes (output rangeProof kernel : Z) d : DG :=
  set_output (Z.min output (outputMMRSize d)) (m_outputSegments d)
    (set_rangeProof (Z.min rangeProof (outputMMRSize d)) (m_rangeProofSegments d)
      (set_kernel (Z.min kernel (kernelMMRSize d)) (m_kernelSegments d) d)).

Definition GetCompletedToHeight d : Z :=
  let leavesRequired := GetLeavesRequired d in
  if leavesRequired =? 0 then 0
  else
    let completedLeaves := Z.min (GetCompletedLeaves d) leavesRequired in
    let requiredHeight := bh_height (m_archiveHeader d) in
    Z.min requiredHeight ((completedLeaves * requiredHeight)%u64 / leavesRequired).

(** *** Receiving segments *)
Definition AddBitmapSegment (bitmapSegment : BitmapSegment) (outputRoot : Hash) : ST DG bool :=
  segment ← st_lift (BitmapSegment_ToSegment bitmapSegment);
  if negb (ValidateHeight STOutputBitmap (seg_height (sg_id segment))) then mret false
  else
    d ← st_get;
    valid ← st_lift (Segment_ValidateWith Blake2b (m_bitmapMMRSize d) (bh_outputRoot (m_archiveHeader d)) (outputMMRSize d)
      outputRoot true None segment);
    if negb valid then mret false
    else
      _ ← st_modify (fun d => set_bitmap (m_bitmapAccumulator d) (m_bitmapCacheComplete d) (m_appliedBitmapMMRSize d)
            (CacheSegment (m_bitmapSegments d) segment) d);
      mret true.

(** After a failure the source validates once more, with the root in the
    message, to log the outcome. *)
Definition AddOutputSegment (segment : Segment OT) (bitmapRoot : Hash) : ST DG bool :=
  if negb (ValidateHeight STOutput (seg_height (sg_id segment))) then mret false
  else
    d ← st_get;
    if negb (m_bitmapCacheComplete d) then mret false
    else
      firstUnprunedParent ← st_lift (FirstUnprunedParent Blake2b (outputMMRSize d) (Some (m_bitmapAccumulator d)) segment);
      match firstUnprunedParent with
      | None => mret false
      | Some (root, unprunedPos) =>
          let posRange := GetPositionRange (outputMMRSize d) (sg_id segment) in
          localBitmapRoot ← st_lift (BitmapAccumulator_Root Blake2b (m_bitmapAccumulator d));
          if negb (SegmentProof_ValidateWith Blake2b (outputMMRSize d) posRange.1 posRange.2 root unprunedPos (outputMMRSize d)
                localBitmapRoot false (bh_outputRoot (m_archiveHeader d)) (sg_proof segment)) then mret false
          else
            _ ← st_modify (fun d => set_output (m_appliedOutputMMRSize d) (CacheSegment (m_outputSegments d) segment) d);
            mret true
      end.

(** The check that range proof and kernel segments share: the root rebuilt from
    the segment and its proof. *)
Definition reconstructed_root {D} `{Serializable D} (mmrSize : Z) (pBitmap : option BitmapAccumulator) (segment : Segment D)
    : result (option Hash) :=
  firstUnprunedParent ← FirstUnprunedParent Blake2b mmrSize pBitmap segment;
  let posRange := GetPositionRange mmrSize (sg_id segment) in
  mret (match firstUnprunedParent with
        | None => None
        | Some (root, unprunedPos) => ReconstructRoot Blake2b mmrSize posRange.1 posRange.2 root unprunedPos (sg_proof segment)
        end).

Definition root_matches (reconstructedRoot : option Hash) (expected : Hash) : bool :=
  match reconstructedRoot with None => false | Some root => negb (BigInteger_neq root expected) end.

Definition AddRangeProofSegment (segment : Segment PT) : ST DG bool :=
  if negb (ValidateHeight STRangeProof (seg_height (sg_id segment))) then mret false
  else
    d ← st_get;
    if negb (m_bitmapCacheComplete d) then mret false
    else
      reconstructedRoot ← st_lift (reconstructed_root (outputMMRSize d) (Some (m_bitmapAccumulator d)) segment);
      if negb (root_matches reconstructedRoot (bh_rangeProofRoot (m_archiveHeader d))) then mret false
      else
        _ ← st_modify (fun d => set_rangeProof (m_appliedRangeProofMMRSize d) (CacheSegment (m_rangeProofSegments d) segment) d);
        mret true.

Definition AddKernelSegment (segment : Segment KT) : ST DG bool :=
  if negb (ValidateHeight STKernel (seg_height (sg_id segment))) then mret false
  else
    d ← st_get;
    reconstructedRoot ← st_lift (reconstructed_root (kernelMMRSize d) None segment);
    if negb (root_matches reconstructedRoot (bh_kernelRoot (m_archiveHeader d))) then mret false
    else
      _ ← st_modify (fun d => set_kernel (m_appliedKernelMMRSize d) (CacheSegment (m_kernelSegments d) segment) d);
      mret true.

(** *** Requesting segments *)

(** The loops that interleave the three lists; a turn of the outer one appends
    at least one element or ends. *)
Definition nth_desired (output rangeProof kernel : list SegmentTypeIdentifier) (rotatedType : Z) (index : nat)
    : option SegmentTypeIdentifier :=
  if rotatedType =? 0 then output !! index
  else if rotatedType =? 1 then rangeProof !! index
  else kernel !! index.

Definition interleave_turn (maxElements : Z) (output rangeProof kernel : list SegmentTypeIdentifier) (typeOffset : Z) (index : nat)
    (desired : list SegmentTypeIdentifier) : list SegmentTypeIdentifier :=
  foldl (fun desired typeIndex =>
    if length desired <? maxElements then
      match nth_desired output rangeProof kernel ((typeOffset + typeIndex) mod 3) index with
      | Some typeId => desired ++ [typeId]
      | None => desired
      end
    else desired) desired [0; 1; 2].

Fixpoint interleave_loop (fuel : nat) (maxElements : Z) (output rangeProof kernel : list SegmentTypeIdentifier)
    (typeOffset : Z) (index : nat) (desired : list SegmentTypeIdentifier) : list SegmentTypeIdentifier :=
  match fuel with
  | O => desired
  | S fuel =>
      if negb (length desired <? maxElements) then desired
      else
        let desired' := interleave_turn maxElements output rangeProof kernel typeOffset index desired in
        if (length desired' =? length desired)%nat then desired'
        else interleave_loop fuel maxElements output rangeProof kernel typeOffset (S index) desired'
  end.

Definition sizes_complete d : bool :=
  (m_appliedOutputMMRSize d =? outputMMRSize d) && (m_appliedRangeProofMMRSize d =? outputMMRSize d)
  && (m_appliedKernelMMRSize d =? kernelMMRSize d).

Definition NextDesiredSegments (maxElements : Z) d : list SegmentTypeIdentifier * DG :=
  if negb (m_bitmapCacheComplete d) then
    (AppendDesiredSegments [] maxElements STOutputBitmap (m_bitmapMMRSize d) BITMAP_SEGMENT_HEIGHT
       (m_appliedBitmapMMRSize d) (m_bitmapSegments d), d)
  else
    let output := AppendDesiredSegments [] maxElements STOutput (outputMMRSize d) OUTPUT_SEGMENT_HEIGHT
      (m_appliedOutputMMRSize d) (m_outputSegments d) in
    let rangeProof := AppendDesiredSegments [] maxElements STRangeProof (outputMMRSize d) RANGEPROOF_SEGMENT_HEIGHT
      (m_appliedRangeProofMMRSize d) (m_rangeProofSegments d) in
    let kernel := AppendDesiredSegments [] maxElements STKernel (kernelMMRSize d) KERNEL_SEGMENT_HEIGHT
      (m_appliedKernelMMRSize d) (m_kernelSegments d) in
    let typeOffset := m_nextDesiredTypeOffset d mod 3 in
    let d := set_typeOffset (m_nextDesiredTypeOffset d + 1)%u64 d in
    let desired := interleave_loop (S (length output + length rangeProof + length kernel)) maxElements output rangeProof kernel
      typeOffset 0 [] in
    (desired, set_complete (bool_decide (desired = []) && sizes_complete d) d).

Definition GetBlockingSegments d : list SegmentTypeIdentifier :=
  if negb (m_bitmapCacheComplete d) then
    AppendBlockingSegment [] STOutputBitmap (m_bitmapMMRSize d) BITMAP_SEGMENT_HEIGHT
      (m_appliedBitmapMMRSize d) (m_bitmapSegments d)
  else
    let blockers := AppendBlockingSegment [] STOutput (outputMMRSize d) OUTPUT_SEGMENT_HEIGHT
      (m_appliedOutputMMRSize d) (m_outputSegments d) in
    let blockers := AppendBlockingSegment blockers STRangeProof (outputMMRSize d) RANGEPROOF_SEGMENT_HEIGHT
      (m_appliedRangeProofMMRSize d) (m_rangeProofSegments d) in
    AppendBlockingSegment blockers STKernel (kernelMMRSize d) KERNEL_SEGMENT_HEIGHT
      (m_appliedKernelMMRSize d) (m_kernelSegments d).

(** *** Applying segments *)
Definition ApplyNextBitmapSegment : ST DG bool :=
  d ← st_get;
  let nextIndex := NextRequiredSegmentIndex (m_appliedBitmapMMRSize d) BITMAP_SEGMENT_HEIGHT in
  match find_by_index (m_bitmapSegments d) nextIndex with
  | None => mret false
  | Some (iter, segment) =>
      a ← st_lift (fold_result (AppendChunk Blake2b) (sg_leaves segment) (m_bitmapAccumulator d));
      let applied := BitmapAccumulator_GetMMRSize a in
      _ ← st_modify (fun d => set_bitmap a (applied =? m_bitmapMMRSize d) applied (delete iter (m_bitmapSegments d)) d);
      mret true
  end.

Definition TakeReadyOutputSegments d : list (Segment OT) * DG :=
  let '(result, cache, applied) :=
    TakeReadySegmentBatch (m_outputSegments d) (m_appliedOutputMMRSize d) OUTPUT_SEGMENT_HEIGHT (outputMMRSize d) in
  (result, set_output applied cache d).
Definition TakeReadyRangeProofSegments d : list (Segment PT) * DG :=
  let '(result, cache, applied) :=
    TakeReadySegmentBatch (m_rangeProofSegments d) (m_appliedRangeProofMMRSize d) RANGEPROOF_SEGMENT_HEIGHT (outputMMRSize d) in
  (result, set_rangeProof applied cache d).
Definition TakeReadyKernelSegments d : list (Segment KT) * DG :=
  let '(result, cache, applied) :=
    TakeReadySegmentBatch (m_kernelSegments d) (m_appliedKernelMMRSize d) KERNEL_SEGMENT_HEIGHT (kernelMMRSize d) in
  (result, set_kernel applied cache d).

Section apply.
Context {W : Type}.
Context (applyOutputSegment : Segment OT -> Z -> ST W bool) (applyRangeProofSegment : Segment PT -> Z -> ST W bool)
  (applyKernelSegment : Segment KT -> Z -> ST W bool).

Definition apply_outputs : ST (DG * W) (option Z) := fun st =>
  st_zoom (fun st => (m_outputSegments st.1, m_appliedOutputMMRSize st.1, st.2))
    (fun '(cache, applied, w) st => (set_output applied cache st.1, w))
    (ApplyReadySegmentBatch applyOutputSegment (outputMMRSize st.1) OUTPUT_SEGMENT_HEIGHT) st.
Definition apply_rangeProofs : ST (DG * W) (option Z) := fun st =>
  st_zoom (fun st => (m_rangeProofSegments st.1, m_appliedRangeProofMMRSize st.1, st.2))
    (fun '(cache, applied, w) st => (set_rangeProof applied cache st.1, w))
    (ApplyReadySegmentBatch applyRangeProofSegment (outputMMRSize st.1) RANGEPROOF_SEGMENT_HEIGHT) st.
Definition apply_kernels : ST (DG * W) (option Z) := fun st =>
  st_zoom (fun st => (m_kernelSegments st.1, m_appliedKernelMMRSize st.1, st.2))
    (fun '(cache, applied, w) st => (set_kernel applied cache st.1, w))
    (ApplyReadySegmentBatch applyKernelSegment (kernelMMRSize st.1) KERNEL_SEGMENT_HEIGHT) st.

Definition ApplyReadySegments : ST (DG * W) (option Z) :=
  st ← st_get;
  if negb (m_bitmapCacheComplete st.1) then mret (Some 0)
  else
    outputCount ← apply_outputs;
    match outputCount with
    | None => mret None
    | Some outputCount =>
        rangeProofCount ← apply_rangeProofs;
        match rangeProofCount with
        | None => mret None
        | Some rangeProofCount =>
            kernelCount ← apply_kernels;
            match kernelCount with
            | None => mret None
            | Some kernelCount =>
                _ ← st_modify (fun st : DG * W => (set_complete (m_bitmapCacheComplete st.1 && sizes_complete st.1) st.1, st.2));
                mret (Some (outputCount + rangeProofCount + kernelCount))
            end
        end
    end.
End apply.
End desegmenter.
