(* ===== verification/DesegmenterSpec.v ===== *)
(** * What the desegmenter keeps, applies and asks for

    The arithmetic of applied and required segments in numbers of leaves; the
    run of cached segments a batch applies; the segments that are asked for and
    their interleaving; and the invariant of a desegmenter whose segments come
    from honest peers. *)
From S2P Require Import Prelude BitUtil MMRIndex MMRUtil Serial BigInteger MMRHash SegmentId SegmentProof BitmapFile Bitmap Segment BitmapSegment SegmentTracker Segmenter Transaction Header Desegmenter.

(** ** Arithmetic of sizes

    In leaves: with [a] leaves applied, the next segment of height [h] is the
    one leaf [a] belongs to; a segment is applied once its block, cut at the
    number of leaves, is. *)
Lemma CountSegmentsRequired_ok n h :
  0 <= n < 2 ^ 50 -> 0 <= h < 50 -> CountSegmentsRequired (mmr_size n) h = (n + 2 ^ h - 1) / 2 ^ h.
Proof.
  intros Hn Hh. pose proof (pow2_pos h ltac:(lia)). assert (2 ^ h <= 2 ^ 49) by (apply Z.pow_le_mono_r; lia).
  unfold CountSegmentsRequired. rewrite CountLeaves_ok, shiftl_1 by lia.
  rewrite (uint_small 64 (2 ^ h)), uint_small by uint_solve. done.
Qed.

Lemma GetPMMRSize_ok k h :
  0 <= k -> 0 <= h < 50 -> k * 2 ^ h < 2 ^ 58 -> GetPMMRSize k h = mmr_size (k * 2 ^ h).
Proof.
  intros Hk Hh Hs. pose proof (pow2_pos h ltac:(lia)). assert (2 ^ h <= 2 ^ 49) by (apply Z.pow_le_mono_r; lia).
  unfold GetPMMRSize. destruct (Z.eqb_spec k 0) as [->|]; [done|].
  rewrite shiftl_1 by lia. rewrite (uint_small 64 (2 ^ h)) by uint_solve.
  assert (0 <= k * 2 ^ h) by nia. pose proof (mmr_size_bound (k * 2 ^ h) ltac:(lia)).
  rewrite (uint_small 64 (k * 2 ^ h)) by uint_solve.
  rewrite LeafIndex_At_pos by (lia || unfold pos_ok; lia). done.
Qed.

(** Quotients rounded up. *)
Lemma ceil_spec n b : 0 < b -> 0 <= n -> (n + b - 1) / b = n / b + (if n mod b =? 0 then 0 else 1).
Proof.
  intros Hb Hn. pose proof (Z.div_mod n b ltac:(lia)) as Hd. pose proof (Z.mod_pos_bound n b Hb).
  destruct (Z.eqb_spec (n mod b) 0); symmetry; [apply Z.div_unique with (b - 1)|apply Z.div_unique with (n mod b - 1)]; lia.
Qed.

Lemma NextRequired_ok a h :
  0 <= a < 2 ^ 50 -> 1 <= h < 50 -> NextRequiredSegmentIndex (mmr_size a) h = a / 2 ^ h.
Proof.
  intros Ha Hh. pose proof (pow2_pos h ltac:(lia)). assert (2 ^ h <= 2 ^ 49) by (apply Z.pow_le_mono_r; lia).
  assert (2 <= 2 ^ h) by (apply (Z.pow_le_mono_r 2 1 h); lia).
  unfold NextRequiredSegmentIndex. pose proof (mmr_size_bound a ltac:(lia)).
  destruct (Z.eqb_spec (mmr_size a) 0); [rewrite Z.div_small by lia; done|].
  destruct (Z.eqb_spec (mmr_size a) 1); [rewrite Z.div_small by lia; done|]. cbn [orb].
  rewrite CountSegmentsRequired_ok, ceil_spec by lia.
  pose proof (Z.div_mod a (2 ^ h) ltac:(lia)) as Hd. pose proof (Z.mod_pos_bound a (2 ^ h) ltac:(lia)).
  assert (0 <= a / 2 ^ h <= a) by (split; [apply Z.div_pos; lia|apply Z.div_le_upper_bound; nia]).
  destruct (Z.eqb_spec (a mod 2 ^ h) 0).
  - rewrite GetPMMRSize_ok by (lia || nia). replace ((a / 2 ^ h + 0) * 2 ^ h) with a by lia.
    rewrite Z.ltb_irrefl, andb_false_r. lia.
  - rewrite GetPMMRSize_ok by (lia || nia). pose proof (mmr_size_lt a ((a / 2 ^ h + 1) * 2 ^ h) ltac:(nia)).
    destruct (Z.ltb_spec 0 (a / 2 ^ h + 1)), (Z.ltb_spec (mmr_size a) (mmr_size ((a / 2 ^ h + 1) * 2 ^ h))); cbn [andb]; lia.
Qed.

(** The leaves before the end of segment [k]. *)
Definition seg_end (n h k : Z) : Z := Z.min ((k + 1) * 2 ^ h) n.

Lemma AppliedAfter_ok n h k :
  0 <= n < 2 ^ 50 -> 0 <= h < 50 -> 0 <= k -> (k + 1) * 2 ^ h < 2 ^ 58 ->
  AppliedMMRSizeAfterSegment (mkSegmentIdentifier h k) (mmr_size n) = mmr_size (seg_end n h k).
Proof.
  intros Hn Hh Hk Hs. pose proof (pow2_pos h ltac:(lia)). unfold AppliedMMRSizeAfterSegment, seg_end. cbn [seg_index seg_height].
  rewrite (uint_small 64 (k + 1)) by (uint_solve || unfold is_uint; nia).
  rewrite GetPMMRSize_ok by lia.
  destruct (Z.le_ge_cases ((k + 1) * 2 ^ h) n) as [Hle|Hge].
  - rewrite (Z.min_l ((k + 1) * 2 ^ h)) by lia. apply Z.min_l, mmr_size_mono. nia.
  - rewrite (Z.min_r ((k + 1) * 2 ^ h)) by lia. apply Z.min_r, mmr_size_mono. lia.
Qed.

Lemma IsSegmentApplied_ok n h k a :
  0 <= n < 2 ^ 50 -> 0 <= h < 50 -> 0 <= k -> k * 2 ^ h < n -> 0 <= a <= n ->
  IsSegmentApplied (mkSegmentIdentifier h k) (mmr_size n) (mmr_size a) = (seg_end n h k <=? a).
Proof.
  intros Hn Hh Hk Hs Ha. pose proof (pow2_pos h ltac:(lia)) as Hp. unfold IsSegmentApplied, seg_end.
  assert (k < 2 ^ 50) by nia.
  assert (segment_ok n (mkSegmentIdentifier h k)) as Hok by (constructor; cbn [seg_height seg_index]; lia).
  rewrite unpruned_size_ok, position_range_ok by (done || cbn [seg_height seg_index]; lia). cbn [seg_height seg_index snd].
  destruct (Z.eqb_spec (Z.max 0 (Z.min (2 ^ h) (n - k * 2 ^ h))) 0); [lia|]. rewrite orb_false_r.
  pose proof (mmr_size_bound a ltac:(lia)).
  destruct (Z.eqb_spec (mmr_size a) 0) as [E0|E0]; [symmetry; apply Z.leb_gt; nia|].
  apply eq_true_iff_eq. rewrite Z.ltb_lt, Z.leb_le.
  destruct (Z.leb_spec ((k + 1) * 2 ^ h) n) as [Hle|Hgt].
  - rewrite Z.min_l by lia. apply node_in_mmr; lia.
  - rewrite Z.min_r by lia. split; intros Hx.
    + destruct (Z.le_gt_cases n a); [done|]. pose proof (mmr_size_lt a n ltac:(lia)). lia.
    + replace a with n by lia. lia.
Qed.

(** ** Looking up a cache *)
Section lookup.
Context {D : Type}.
Implicit Types (cache : list (Segment D)).

(** The segment of the cache with index [k]. *)
Definition cached cache k : option (Segment D) := snd <$> find_by_index cache k.

Lemma find_by_index_Some cache k i s :
  find_by_index cache k = Some (i, s) -> cache !! i = Some s /\ seg_index (sg_id s) = k.
Proof. unfold find_by_index. intros (H1 & H2 & _)%list_find_Some. done. Qed.

Lemma cached_In cache k s : cached cache k = Some s -> s ∈ cache /\ seg_index (sg_id s) = k.
Proof.
  unfold cached. destruct (find_by_index cache k) as [[i s']|] eqn:E; cbn; [|done]. intros [= ->].
  apply find_by_index_Some in E as [E1 E2]. split; [by eapply list_elem_of_lookup_2|done].
Qed.

Lemma cached_None cache k : cached cache k = None <-> Forall (fun s => seg_index (sg_id s) <> k) cache.
Proof.
  unfold cached, find_by_index. rewrite fmap_None, list_find_None. done.
Qed.

Lemma cached_unique cache s :
  NoDup (map (fun s => seg_index (sg_id s)) cache) -> s ∈ cache -> cached cache (seg_index (sg_id s)) = Some s.
Proof.
  intros Hnd [i Hi]%list_elem_of_lookup_1. unfold cached.
  destruct (find_by_index cache (seg_index (sg_id s))) as [[j s']|] eqn:E.
  - apply find_by_index_Some in E as [E1 E2]. cbn. f_equal.
    assert (i = j) as ->; [|congruence].
    eapply NoDup_lookup; [exact Hnd|rewrite list_lookup_fmap, Hi; done|rewrite list_lookup_fmap, E1; cbn; congruence].
  - unfold find_by_index in E. rewrite list_find_None in E. rewrite Forall_forall in E.
    exfalso. apply (E s); [by eapply list_elem_of_lookup_2|done].
Qed.

(** Taking a segment out of the cache. *)
Lemma elem_of_delete_unique {A B} (f : A -> B) (l : list A) i s :
  NoDup (map f l) -> l !! i = Some s -> forall x, x ∈ delete i l <-> x ∈ l /\ f x <> f s.
Proof.
  intros Hnd Hi x. apply list_elem_of_split_length in Hi as (l1 & l2 & -> & ->). rewrite delete_middle.
  rewrite map_app in Hnd. cbn [map] in Hnd. apply NoDup_app in Hnd as (_ & Hd1 & [Hd2 _]%NoDup_cons).
  assert (forall l y, y ∈ l -> f y ∈ map f l) as Hf by (intros l y; rewrite !list_elem_of_In; apply in_map).
  rewrite !elem_of_app, elem_of_cons. split.
  - intros [Hx|Hx]; (split; [tauto|intros E]).
    + apply (Hd1 (f x)); [by apply Hf|]. rewrite E. left.
    + apply Hd2. rewrite <- E. by apply Hf.
  - intros [[Hx|[->|Hx]] Hne]; [by left|done|by right].
Qed.

Lemma cached_delete cache k i s j :
  NoDup (map (fun s => seg_index (sg_id s)) cache) -> find_by_index cache k = Some (i, s) ->
  cached (delete i cache) j = if j =? k then None else cached cache j.
Proof.
  intros Hnd E. apply find_by_index_Some in E as [Ei Ek].
  pose proof (elem_of_delete_unique (fun s => seg_index (sg_id s)) cache i s Hnd Ei) as Hin. cbv beta in Hin. rewrite Ek in Hin.
  destruct (Z.eqb_spec j k) as [->|Hne].
  - apply cached_None, Forall_forall. intros x Hx. by apply Hin in Hx as [_ Hx].
  - destruct (cached cache j) as [x|] eqn:Ec.
    + apply cached_In in Ec as [Hx Ej]. rewrite <- Ej. apply cached_unique.
      * eapply sublist_NoDup; [exact Hnd|]. apply (fmap_sublist (fun s => seg_index (sg_id s))), sublist_delete.
      * apply Hin. split; [done|lia].
    + apply cached_None. rewrite cached_None, Forall_forall in Ec. apply Forall_forall. intros x Hx. apply Ec. by apply Hin in Hx as [Hx _].
Qed.
End lookup.

(** ** Segments ready to be applied *)
Section batch_spec.
Context {D W : Type} (applySegment : Segment D -> Z -> ST W bool) (n h : Z).
Implicit Types (cache : list (Segment D)).

Hypothesis n_range : 0 <= n < 2 ^ 50.
Hypothesis h_range : 1 <= h < 50.

(** What a cache holds at all times: segments of the requested height, each
    once, that start inside the MMR and are not applied. *)
Record cache_ok (a : Z) cache : Prop := {
  co_height : Forall (fun s => seg_height (sg_id s) = h) cache;
  co_range : Forall (fun s => 0 <= seg_index (sg_id s) /\ seg_index (sg_id s) * 2 ^ h < n /\ a < seg_end n h (seg_index (sg_id s))) cache;
  co_unique : NoDup (map (fun s => seg_index (sg_id s)) cache);
}.

(** A segment that is not applied starts at the first missing leaf or after it. *)
Lemma unapplied_index a k : 0 <= a -> a < seg_end n h k -> a / 2 ^ h <= k.
Proof.
  intros Ha Hk. pose proof (pow2_pos h ltac:(lia)). unfold seg_end in Hk.
  apply Z.lt_succ_r, Z.div_lt_upper_bound; lia.
Qed.

Lemma seg_end_next a : 0 <= a < n -> a < seg_end n h (a / 2 ^ h) <= n.
Proof.
  intros Ha. pose proof (pow2_pos h ltac:(lia)). unfold seg_end.
  pose proof (Z.mul_succ_div_gt a (2 ^ h) ltac:(lia)). lia.
Qed.

(** Leaves and segments of what is left. *)
Lemma seg_end_div a : 0 <= a < n -> seg_end n h (a / 2 ^ h) < n -> seg_end n h (a / 2 ^ h) / 2 ^ h = a / 2 ^ h + 1.
Proof.
  intros Ha Hlt. pose proof (pow2_pos h ltac:(lia)). unfold seg_end in *.
  rewrite Z.min_l by lia. by rewrite Z.div_mul by lia.
Qed.

Lemma next_starts a : 0 <= a < n -> a / 2 ^ h * 2 ^ h < n.
Proof. intros Ha. pose proof (pow2_pos h ltac:(lia)). pose proof (Z.mul_div_le a (2 ^ h) ltac:(lia)). lia. Qed.

Lemma cache_ok_empty cache : cache_ok n cache -> cache = [].
Proof.
  intros [_ Hr _]. destruct cache as [|s cache]; [done|]. apply Forall_cons in Hr as [(_ & _ & Hr) _].
  unfold seg_end in Hr. lia.
Qed.

Lemma cache_ok_delete a cache i s :
  0 <= a < n -> cache_ok a cache -> find_by_index cache (a / 2 ^ h) = Some (i, s) ->
  cache_ok (seg_end n h (a / 2 ^ h)) (delete i cache).
Proof.
  intros Ha [Hh Hr Hu] E. pose proof (pow2_pos h ltac:(lia)).
  apply find_by_index_Some in E as [Ei Ek].
  pose proof (elem_of_delete_unique (fun s => seg_index (sg_id s)) cache i s Hu Ei) as Hin. cbv beta in Hin. rewrite Ek in Hin.
  rewrite Forall_forall in Hh, Hr. constructor.
  - apply Forall_forall. intros x [Hx _]%Hin. by apply Hh.
  - apply Forall_forall. intros x [Hx Hne]%Hin. destruct (Hr x Hx) as (H1 & H2 & H3).
    split; [done|]. split; [done|]. pose proof (unapplied_index a _ ltac:(lia) H3).
    unfold seg_end. assert ((a / 2 ^ h + 1) * 2 ^ h <= seg_index (sg_id x) * 2 ^ h) by (apply Z.mul_le_mono_nonneg_r; lia). lia.
  - eapply sublist_NoDup; [exact Hu|]. apply (fmap_sublist (fun s => seg_index (sg_id s))), sublist_delete.
Qed.

(** What the callback promises: [inv a w] says that [w] has the first [a]
    leaves, and a segment that is good carries it on from any point of its block
    to the end of the block. *)
Context (good : Segment D -> Prop) (inv : Z -> W -> Prop).
Hypothesis apply_good : forall s a w,
  0 <= a < n -> good s -> sg_id s = mkSegmentIdentifier h (a / 2 ^ h) -> inv a w ->
  exists w', applySegment s (mmr_size n) w = (Ok true, w') /\ inv (seg_end n h (a / 2 ^ h)) w'.

(** [a] leaves are applied, and the cache holds good segments. *)
Record track_ok (a applied : Z) cache : Prop := {
  to_leaves : 0 <= a <= n;
  to_cache : cache_ok a cache;
  to_good : Forall good cache;
  to_size : applied = mmr_size a;
}.

Definition batch_ok (a : Z) (st : batch_state (D := D) (W := W)) : Prop :=
  track_ok a st.1.2 st.1.1 /\ inv a st.2.

(** One turn. *)
Lemma ApplyReady_step a st i s :
  batch_ok a st -> a < n -> find_by_index st.1.1 (a / 2 ^ h) = Some (i, s) ->
  exists w', applySegment s (mmr_size n) st.2 = (Ok true, w') /\
    batch_ok (seg_end n h (a / 2 ^ h)) (delete i st.1.1, AppliedMMRSizeAfterSegment (sg_id s) (mmr_size n), w').
Proof.
  intros [[Ha Hc Hg Hs] Hw] Hlt E. pose proof (find_by_index_Some _ _ _ _ E) as [Ei Ek].
  pose proof (pow2_pos h ltac:(lia)). pose proof (seg_end_next a ltac:(lia)).
  assert (2 ^ h <= 2 ^ 49) by (apply Z.pow_le_mono_r; lia).
  assert (0 <= a / 2 ^ h) by (apply Z.div_pos; lia). pose proof (next_starts a ltac:(lia)).
  assert (s ∈ st.1.1) as Hin by (by eapply list_elem_of_lookup_2).
  assert (sg_id s = mkSegmentIdentifier h (a / 2 ^ h)) as Eid.
  { pose proof (co_height _ _ Hc) as Hh. rewrite Forall_forall in Hh. specialize (Hh s Hin).
    destruct (sg_id s). cbn in *. congruence. }
  rewrite Forall_forall in Hg. destruct (apply_good s a st.2 ltac:(lia) (Hg s Hin) Eid Hw) as (w' & Ew & Hw').
  exists w'. split; [done|]. split; [|done]. constructor; cbn [fst snd].
  - lia.
  - apply (cache_ok_delete a st.1.1 i s); [lia|exact Hc|exact E].
  - apply Forall_forall. intros x Hx. apply Hg. eapply elem_of_submseteq; [exact Hx|apply sublist_submseteq, sublist_delete].
  - rewrite Eid, AppliedAfter_ok by lia. done.
Qed.

(** The loop applies the run of consecutive segments that are there. *)
Lemma ApplyReady_loop_ok (k : nat) next count a st :
  batch_ok a st -> (a < n -> next = a / 2 ^ h) -> 0 <= next ->
  exists (c : nat) a' st',
    ApplyReady_loop applySegment (mmr_size n) k next count st = (Ok (Some (count + c)), st') /\
    batch_ok a' st' /\ (c <= k)%nat /\ (c = k \/ cached st.1.1 (next + c) = None) /\
    (forall j, next <= j < next + c -> cached st.1.1 j <> None) /\
    (forall j, cached st'.1.1 j = if (next <=? j) && (j <? next + c) then None else cached st.1.1 j) /\
    a' = if (c =? 0)%nat then a else seg_end n h (next + c - 1).
Proof.
  revert next count a st. induction k as [|k IH]; intros next count a st Hok Hnext Hn0.
  - exists 0%nat, a, st. cbn [ApplyReady_loop]. rewrite Z.add_0_r. split; [done|]. split; [done|].
    split; [lia|]. split; [by left|]. split; [lia|]. split; [|done]. intros j.
    destruct (Z.leb_spec next j), (Z.ltb_spec j (next + 0%nat)); done || lia.
  - cbn [ApplyReady_loop]. unfold mbind, ST_bind, st_get.
    destruct (find_by_index st.1.1 next) as [[i s]|] eqn:E.
    + pose proof Hok as [[Ha Hc _ _] _].
      assert (a < n) as Hlt.
      { destruct (decide (a = n)) as [->|]; [|lia]. rewrite (cache_ok_empty _ Hc) in E. done. }
      specialize (Hnext Hlt). subst next.
      destruct (ApplyReady_step a st i s Hok Hlt E) as (w' & Ew & Hok').
      unfold st_zoom. rewrite Ew. cbn [negb]. unfold st_modify. cbn [fst snd].
      pose proof (next_starts a ltac:(lia)). pose proof (pow2_pos h ltac:(lia)).
      rewrite (uint_small 64 (a / 2 ^ h + 1)) by (unfold is_uint; nia).
      destruct (IH (a / 2 ^ h + 1) (count + 1) _ _ Hok') as (c & a' & st' & E' & Hok2 & Hc1 & Hc2 & Hc3 & Hc4 & Ha').
      * intros Hlt'. symmetry. apply seg_end_div; [lia|exact Hlt'].
      * lia.
      * pose proof (fun j => cached_delete st.1.1 _ i s j (co_unique _ _ Hc) E) as Hdel. cbn [fst snd] in *.
        exists (S c), a', st'. rewrite E'. split; [do 3 f_equal; lia|]. split; [done|]. split; [lia|]. split; [|split; [|split]].
        -- destruct Hc2 as [->|Hc2]; [by left|right]. rewrite Hdel in Hc2. rewrite <- Hc2.
           destruct (Z.eqb_spec (a / 2 ^ h + 1 + c) (a / 2 ^ h)); [lia|]. f_equal. lia.
        -- intros j Hj. destruct (decide (j = a / 2 ^ h)) as [->|Hne]; [unfold cached; by rewrite E|].
           specialize (Hc3 j ltac:(lia)). rewrite Hdel in Hc3. destruct (Z.eqb_spec j (a / 2 ^ h)); [lia|done].
        -- intros j. rewrite Hc4, Hdel.
           destruct (Z.leb_spec (a / 2 ^ h + 1) j), (Z.ltb_spec j (a / 2 ^ h + 1 + c)), (Z.eqb_spec j (a / 2 ^ h)),
             (Z.leb_spec (a / 2 ^ h) j), (Z.ltb_spec j (a / 2 ^ h + S c)); cbn [andb]; done || lia.
        -- rewrite Ha'. destruct c as [|c]; cbn [Nat.eqb]; f_equal; lia.
    + exists 0%nat, a, st. rewrite Z.add_0_r. split; [done|]. split; [done|]. split; [lia|].
      split; [right; unfold cached; by rewrite Z.add_0_r, E|]. split; [lia|]. split; [|done]. intros j.
      destruct (Z.leb_spec next j), (Z.ltb_spec j (next + 0%nat)); done || lia.
Qed.

(** A batch makes progress whenever the segment required next is cached. *)
Definition progress (a a' : Z) cache : Prop :=
  a <= a' /\ (a < n -> cached cache (a / 2 ^ h) <> None -> seg_end n h (a / 2 ^ h) <= a').

Lemma ApplyReadySegmentBatch_progress a st :
  batch_ok a st ->
  exists (c : nat) a' st', ApplyReadySegmentBatch applySegment (mmr_size n) h st = (Ok (Some (Z.of_nat c)), st') /\
    batch_ok a' st' /\ progress a a' st.1.1.
Proof.
  intros Hok. pose proof Hok as [[Ha _ _ Hs] _]. pose proof (pow2_pos h ltac:(lia)).
  assert (0 <= a / 2 ^ h) as Hk by (apply Z.div_pos; lia).
  destruct (ApplyReady_loop_ok SEGMENT_APPLY_BATCH_SIZE (a / 2 ^ h) 0 a st Hok ltac:(done) Hk)
    as (c & a' & st' & E & Hok' & Hc & Hstop & Hrun & _ & Ha').
  exists c, a', st'. unfold ApplyReadySegmentBatch, mbind, ST_bind, st_get. rewrite Hs, NextRequired_ok by lia.
  rewrite E, Z.add_0_l. split; [done|]. split; [done|].
  destruct (Nat.eqb_spec c 0) as [->|Hc0].
  - subst a'. split; [lia|]. intros _ Hne. rewrite Z.add_0_r in Hstop. unfold SEGMENT_APPLY_BATCH_SIZE in Hstop.
    destruct Hstop; [lia|done].
  - assert (a < n -> seg_end n h (a / 2 ^ h) <= a').
    { intros _. rewrite Ha'. unfold seg_end. assert ((a / 2 ^ h + 1) * 2 ^ h <= (a / 2 ^ h + c - 1 + 1) * 2 ^ h) by nia. lia. }
    split; [|tauto]. destruct (decide (a = n)) as [->|]; [|pose proof (seg_end_next a ltac:(lia)); lia].
    destruct Hok' as [[? _ _ _] _]. rewrite Ha'. unfold seg_end. pose proof (Z.mul_succ_div_gt n (2 ^ h) ltac:(lia)).
    assert ((n / 2 ^ h + 1) * 2 ^ h <= (n / 2 ^ h + c - 1 + 1) * 2 ^ h) by nia. lia.
Qed.

End batch_spec.

(** ** Segments to ask for *)
Section desired_spec.
Context {D : Type} (type : SegmentType) (n h : Z).
Implicit Types (cache : list (Segment D)).

Hypothesis n_range : 0 <= n < 2 ^ 50.
Hypothesis h_range : 1 <= h < 50.

Definition to_request (j : Z) : SegmentTypeIdentifier := mkSegmentTypeIdentifier type (mkSegmentIdentifier h j).

(** Segment [j] is neither applied nor cached. *)
Definition wanted (a : Z) cache (j : Z) : Prop := a < seg_end n h j /\ cached cache j = None.

#[export] Instance wanted_dec a cache j : Decision (wanted a cache j).
Proof. unfold wanted. apply _. Defined.

Definition missing (a : Z) cache : list Z :=
  filter (wanted a cache) (seqZ (a / 2 ^ h) ((n + 2 ^ h - 1) / 2 ^ h - a / 2 ^ h)).

Lemma HasSegment_cached a cache j :
  cache_ok n h a cache -> HasSegment cache (mkSegmentIdentifier h j) = negb (bool_decide (cached cache j = None)).
Proof.
  intros [Hh _ _]. unfold HasSegment. apply eq_true_iff_eq. rewrite existsb_exists, negb_true_iff, bool_decide_eq_false.
  rewrite cached_None, Forall_forall in *. split.
  - intros (s & Hs & Es%bool_decide_eq_true) Hall. apply list_elem_of_In in Hs. apply (Hall s Hs). by rewrite Es.
  - intros Hne. destruct (cached cache j) as [s|] eqn:E.
    + apply cached_In in E as [Hs Ej]. exists s. split; [by apply list_elem_of_In|]. apply bool_decide_eq_true.
      specialize (Hh s Hs). destruct (sg_id s). cbn in *. congruence.
    + rewrite cached_None, Forall_forall in E. tauto.
Qed.

(** The number of requests still to be appended. *)
Definition room (maxElements : Z) cache (count : nat) : nat :=
  Z.to_nat (if length cache >=? MAX_CACHED_SEGMENTS then Z.min 1 (maxElements - count) else maxElements - count).

Lemma AppendDesired_loop_ok (k : nat) maxElements a cache next desired :
  cache_ok n h a cache -> 0 <= a <= n -> 0 <= next -> (next + k - 1) * 2 ^ h < n ->
  AppendDesired_loop k maxElements type (mmr_size n) h (mmr_size a) cache next desired =
  desired ++ map to_request (take (room maxElements cache (length desired)) (filter (wanted a cache) (seqZ next k))).
Proof.
  intros Hc Ha. pose proof (pow2_pos h ltac:(lia)). revert next desired.
  induction k as [|k IH]; intros next desired Hn0 Hn; cbn [AppendDesired_loop].
  - change (seqZ next 0%nat) with (@nil Z). rewrite filter_nil, take_nil. cbn [map]. by rewrite app_nil_r.
  - unfold room. destruct (Z.ltb_spec (length desired) maxElements) as [Hlt|Hge]; cbn [negb].
    2: { replace (Z.to_nat (if length cache >=? MAX_CACHED_SEGMENTS then _ else _)) with 0%nat
           by (destruct (length cache >=? MAX_CACHED_SEGMENTS); lia). cbn [take map]. by rewrite app_nil_r. }
    assert (next * 2 ^ h < n) by nia.
    rewrite IsSegmentApplied_ok, (HasSegment_cached a) by (done || lia). rewrite negb_involutive.
    rewrite seqZ_cons by lia. replace (Z.pred (S k)) with (Z.of_nat k) by lia. replace (Z.succ next) with (next + 1) by lia.
    rewrite filter_cons. case_decide as Hw.
    + destruct Hw as [Hw1 Hw2]. rewrite bool_decide_true by done.
      destruct (Z.leb_spec (seg_end n h next) a); [lia|]. cbn [negb andb]. rewrite Z.geb_leb.
      destruct (Z.leb_spec MAX_CACHED_SEGMENTS (length cache)) as [Hfull|Hroom].
      * replace (Z.to_nat (Z.min 1 (maxElements - length desired))) with 1%nat by lia. reflexivity.
      * rewrite IH by lia. unfold room. rewrite length_app, Z.geb_leb. cbn [length].
        destruct (Z.leb_spec MAX_CACHED_SEGMENTS (length cache)); [lia|].
        replace (Z.to_nat (maxElements - length desired)) with (S (Z.to_nat (maxElements - (length desired + 1)%nat))) by lia.
        cbn [take map]. by rewrite <- app_assoc.
    + replace (negb (seg_end n h next <=? a) && bool_decide (cached cache next = None)) with false; [rewrite IH by lia; reflexivity|].
      symmetry. apply andb_false_iff. rewrite negb_false_iff, bool_decide_eq_false, Z.leb_le.
      destruct (decide (cached cache next = None)); [|by right]. left.
      destruct (decide (a < seg_end n h next)); [|lia]. by destruct Hw.
Qed.

Lemma AppendDesiredSegments_ok maxElements a cache desired :
  cache_ok n h a cache -> 0 <= a <= n ->
  AppendDesiredSegments desired maxElements type (mmr_size n) h (mmr_size a) cache =
  desired ++ map to_request (take (room maxElements cache (length desired)) (missing a cache)).
Proof.
  intros Hc Ha. pose proof (pow2_pos h ltac:(lia)). unfold AppendDesiredSegments, missing.
  rewrite NextRequired_ok, CountSegmentsRequired_ok by lia.
  assert (0 <= a / 2 ^ h) by (apply Z.div_pos; lia).
  set (T := (n + 2 ^ h - 1) / 2 ^ h). assert ((T - 1) * 2 ^ h < n).
  { pose proof (Z.mul_div_le (n + 2 ^ h - 1) (2 ^ h) ltac:(lia)) as Hm. fold T in Hm. lia. }
  destruct (Z.le_gt_cases T (a / 2 ^ h)).
  - rewrite Z2Nat.nonpos by lia. rewrite (seqZ_nil _ (T - _)) by lia. cbn [AppendDesired_loop]. rewrite filter_nil, take_nil. by rewrite app_nil_r.
  - rewrite AppendDesired_loop_ok by (done || nia). by rewrite Z2Nat.id by lia.
Qed.

Lemma elem_of_missing a cache j :
  0 <= a -> j ∈ missing a cache <-> 0 <= j /\ j * 2 ^ h < n /\ wanted a cache j.
Proof.
  intros Ha. pose proof (pow2_pos h ltac:(lia)). unfold missing. rewrite list_elem_of_filter, elem_of_seqZ.
  assert (0 <= a / 2 ^ h) by (apply Z.div_pos; lia).
  assert (j < (n + 2 ^ h - 1) / 2 ^ h <-> j * 2 ^ h < n) as Hj.
  { split; intros Hj.
    - pose proof (Z.mul_div_le (n + 2 ^ h - 1) (2 ^ h) ltac:(lia)). nia.
    - apply Z.lt_le_trans with (j + 1); [lia|]. apply Z.div_le_lower_bound; lia. }
  split.
  - intros [Hw Hr]. split; [lia|]. split; [apply Hj; lia|done].
  - intros (H1 & H2 & Hw). split; [done|]. destruct Hw as [Hw _]. pose proof (unapplied_index n h h_range a j Ha Hw). lia.
Qed.

Lemma missing_NoDup a cache : NoDup (missing a cache).
Proof. apply NoDup_filter, NoDup_seqZ. Qed.

(** The segment required next comes first. *)
Lemma missing_head a cache :
  0 <= a < n -> cached cache (a / 2 ^ h) = None -> exists l, missing a cache = a / 2 ^ h :: l.
Proof.
  intros Ha Hnone. pose proof (pow2_pos h ltac:(lia)). unfold missing.
  pose proof (next_starts n h h_range a ltac:(lia)).
  assert (a / 2 ^ h + 1 <= (n + 2 ^ h - 1) / 2 ^ h) by (apply Z.div_le_lower_bound; lia).
  rewrite seqZ_cons by lia. rewrite filter_cons, decide_True; [eauto|].
  split; [apply seg_end_next; lia|done].
Qed.

Lemma missing_all a cache : a = n -> 0 <= a -> missing a cache = [].
Proof.
  intros -> Ha. apply elem_of_nil_inv. intros j Hj%elem_of_missing; [|done].
  destruct Hj as (_ & _ & Hw & _). unfold seg_end in Hw. lia.
Qed.

Lemma AppendBlockingSegment_ok a cache blockers :
  cache_ok n h a cache -> 0 <= a <= n ->
  AppendBlockingSegment blockers type (mmr_size n) h (mmr_size a) cache =
  blockers ++ if bool_decide (a < n /\ cached cache (a / 2 ^ h) = None) then [to_request (a / 2 ^ h)] else [].
Proof.
  intros Hc Ha. pose proof (pow2_pos h ltac:(lia)). unfold AppendBlockingSegment.
  rewrite NextRequired_ok, CountSegmentsRequired_ok by lia. rewrite Z.geb_leb.
  assert (0 <= a / 2 ^ h) by (apply Z.div_pos; lia).
  destruct (Z.leb_spec ((n + 2 ^ h - 1) / 2 ^ h) (a / 2 ^ h)) as [Hle|Hgt].
  - rewrite bool_decide_false; [by rewrite app_nil_r|]. intros [Hlt _]. pose proof (next_starts n h h_range a ltac:(lia)).
    assert (a / 2 ^ h + 1 <= (n + 2 ^ h - 1) / 2 ^ h) by (apply Z.div_le_lower_bound; lia). lia.
  - assert (a / 2 ^ h * 2 ^ h < n).
    { pose proof (Z.mul_div_le (n + 2 ^ h - 1) (2 ^ h) ltac:(lia)). nia. }
    rewrite IsSegmentApplied_ok, (HasSegment_cached a) by (done || lia). rewrite negb_involutive.
    destruct (decide (a < n)) as [Hlt|Hge].
    + pose proof (seg_end_next n h h_range a ltac:(lia)). destruct (Z.leb_spec (seg_end n h (a / 2 ^ h)) a); [lia|]. cbn [negb andb].
      case_bool_decide as E1; case_bool_decide as E2; rewrite ?app_nil_r; tauto || done.
    + rewrite (bool_decide_false (a < n /\ _)) by tauto. rewrite app_nil_r.
      destruct (Z.leb_spec (seg_end n h (a / 2 ^ h)) a); [done|]. unfold seg_end in *. lia.
Qed.
End desired_spec.

(** ** The interleaved requests *)
Section interleave.
Context (maxElements : Z) (output rangeProof kernel : list SegmentTypeIdentifier) (typeOffset : Z).

(** What turn [index] has to append, and the interleave_turns from [index] on. *)
Definition turn_items (index : nat) : list SegmentTypeIdentifier :=
  omap (fun typeIndex => nth_desired output rangeProof kernel ((typeOffset + typeIndex) mod 3) index) [0; 1; 2].

Definition interleave_turns (index count : nat) : list SegmentTypeIdentifier := concat (map turn_items (seq index count)).

Definition longest : nat := Nat.max (length output) (Nat.max (length rangeProof) (length kernel)).

Lemma interleave_turn_ok index desired :
  interleave_turn maxElements output rangeProof kernel typeOffset index desired =
  desired ++ take (Z.to_nat (maxElements - length desired)) (turn_items index).
Proof.
  unfold interleave_turn, turn_items. generalize [0; 1; 2] as ts. intros ts. revert desired.
  induction ts as [|t ts IH]; intros desired; [cbn; by rewrite take_nil, app_nil_r|]. cbn [foldl]. rewrite IH. clear IH.
  destruct (Z.ltb_spec (length desired) maxElements).
  - cbn [omap list_omap]. destruct (nth_desired _ _ _ _ _) as [x|]; [|done]. rewrite length_app. cbn [length].
    replace (Z.to_nat (maxElements - length desired)) with (S (Z.to_nat (maxElements - (length desired + 1)%nat))) by lia.
    cbn [take]. by rewrite <- app_assoc.
  - replace (Z.to_nat (maxElements - length desired)) with 0%nat by lia. done.
Qed.

Lemma option_list_drop {A} (l : list A) i : drop i l = option_list (l !! i) ++ drop (S i) l.
Proof.
  destruct (l !! i) as [x|] eqn:E; cbn [option_list app]; [by apply drop_S|].
  apply lookup_ge_None in E. rewrite !drop_ge by lia. done.
Qed.

(** A turn takes one element of each list that is long enough. *)
Lemma turn_items_perm index :
  turn_items index ≡ₚ option_list (output !! index) ++ option_list (rangeProof !! index) ++ option_list (kernel !! index).
Proof.
  unfold turn_items. pose proof (Z.mod_pos_bound typeOffset 3 ltac:(lia)). cbn [omap list_omap].
  rewrite !(Z.add_mod typeOffset) by lia.
  assert (typeOffset mod 3 = 0 \/ typeOffset mod 3 = 1 \/ typeOffset mod 3 = 2) as Ht by lia.
  destruct Ht as [E | [E | E]]; rewrite E;
    repeat match goal with
    | |- context [nth_desired output rangeProof kernel (?t mod 3) index] =>
        let v := eval vm_compute in (t mod 3) in change (t mod 3) with v
    end; unfold nth_desired; cbn [Z.eqb Pos.eqb].
  all: destruct (output !! index), (rangeProof !! index), (kernel !! index); cbn [app option_list]; solve_Permutation.
Qed.

Lemma turns_perm index count :
  (longest <= index + count)%nat ->
  interleave_turns index count ≡ₚ drop index output ++ drop index rangeProof ++ drop index kernel.
Proof.
  unfold longest. revert index. induction count as [|count IH]; intros index Hl.
  - rewrite !drop_ge by lia. done.
  - unfold interleave_turns. cbn [seq map concat]. fold (interleave_turns (S index) count). rewrite IH by lia. rewrite turn_items_perm.
    rewrite (option_list_drop output index), (option_list_drop rangeProof index), (option_list_drop kernel index). solve_Permutation.
Qed.

Lemma turns_past index count : (longest <= index)%nat -> interleave_turns index count = [].
Proof.
  intros Hl. unfold longest in Hl. apply Permutation_nil_r. rewrite turns_perm by (unfold longest; lia). rewrite !drop_ge by lia. done.
Qed.

Lemma turns_S index count : interleave_turns index (S count) = turn_items index ++ interleave_turns (S index) count.
Proof. done. Qed.

Lemma interleave_loop_ok fuel index desired :
  (longest < index + fuel)%nat ->
  interleave_loop fuel maxElements output rangeProof kernel typeOffset index desired =
  desired ++ take (Z.to_nat (maxElements - length desired)) (interleave_turns index fuel).
Proof.
  revert index desired. induction fuel as [|fuel IH]; intros index desired Hf; cbn [interleave_loop].
  - rewrite turns_past by lia. by rewrite take_nil, app_nil_r.
  - destruct (Z.ltb_spec (length desired) maxElements) as [Hlt|Hge]; cbn [negb].
    2: { replace (Z.to_nat (maxElements - length desired)) with 0%nat by lia. cbn [take]. by rewrite app_nil_r. }
    rewrite interleave_turn_ok, length_app, length_take, turns_S.
    set (r := Z.to_nat (maxElements - length desired)). set (items := turn_items index).
    destruct (Nat.eqb_spec (length desired + Nat.min r (length items)) (length desired)) as [E|E].
    + assert (items = []) as Ei by (apply length_zero_iff_nil; lia). rewrite Ei.
      destruct (decide (longest <= index)%nat) as [Hle|Hgt]; [rewrite turns_past by lia; reflexivity|].
      exfalso. pose proof (turn_items_perm index) as Hp. fold items in Hp. rewrite Ei in Hp. apply Permutation_nil_l in Hp.
      unfold longest in Hgt. symmetry in Hp. apply app_eq_nil in Hp as [H1 [H2 H3]%app_eq_nil].
      assert (forall l : list SegmentTypeIdentifier, option_list (l !! index) = [] -> (length l <= index)%nat) as Hn.
      { intros l Hl. apply lookup_ge_None. revert Hl. by destruct (l !! index). }
      pose proof (Hn _ H1). pose proof (Hn _ H2). pose proof (Hn _ H3). lia.
    + rewrite IH by lia. rewrite length_app, length_take, take_app, <- app_assoc. do 2 f_equal.
      destruct (decide (r <= length items)%nat).
      * rewrite Nat.min_l by lia. replace (Z.to_nat (maxElements - (length desired + r)%nat)) with 0%nat by lia.
        replace (r - length items)%nat with 0%nat by lia. done.
      * rewrite Nat.min_r by lia. f_equal. lia.
Qed.

Lemma interleave_ok fuel :
  (longest < fuel)%nat ->
  exists l, l ≡ₚ output ++ rangeProof ++ kernel /\
    interleave_loop fuel maxElements output rangeProof kernel typeOffset 0 [] = take (Z.to_nat maxElements) l /\
    (forall x, head output = Some x \/ head rangeProof = Some x \/ head kernel = Some x -> x ∈ take 3 l).
Proof.
  intros Hf. exists (interleave_turns 0 fuel). split; [rewrite turns_perm by lia; rewrite !drop_0; done|]. split.
  - rewrite interleave_loop_ok by lia. cbn [length app]. by rewrite Z.sub_0_r.
  - intros x Hx. destruct fuel as [|fuel]; [lia|]. rewrite turns_S.
    assert (x ∈ turn_items 0 /\ (length (turn_items 0) <= 3)%nat) as [Hin Hl].
    { rewrite !head_lookup in Hx. rewrite turn_items_perm, !length_app. split.
      - assert (x ∈ option_list (Some x)) as Hs by (by apply list_elem_of_singleton).
        destruct Hx as [E | [E | E]]; rewrite E, !elem_of_app; tauto.
      - destruct (output !! 0%nat), (rangeProof !! 0%nat), (kernel !! 0%nat); cbn; lia. }
    rewrite take_app, elem_of_app. left. by rewrite take_ge by lia.
Qed.
End interleave.

(** ** Caching *)
Section caching.
Context {D : Type} (n h : Z) (good : Segment D -> Prop).
Implicit Types (cache : list (Segment D)).

Hypothesis n_range : 0 <= n < 2 ^ 50.
Hypothesis h_range : 1 <= h < 50.

Lemma cached_snoc cache s j :
  cached (cache ++ [s]) j = match cached cache j with
                            | Some x => Some x
                            | None => if seg_index (sg_id s) =? j then Some s else None
                            end.
Proof.
  unfold cached, find_by_index. induction cache as [|x cache IH].
  - cbn [app list_find]. destruct (Z.eqb_spec (seg_index (sg_id s)) j); by case_decide.
  - cbn [app list_find]. case_decide; [done|]. destruct (list_find _ (cache ++ [s])) as [[i y]|], (list_find _ cache) as [[i' y']|];
      cbn in *; done.
Qed.

Lemma CacheSegment_ok a applied cache s k :
  track_ok n h good a applied cache -> good s -> sg_id s = mkSegmentIdentifier h k ->
  0 <= k -> k * 2 ^ h < n -> a < seg_end n h k ->
  track_ok n h good a applied (CacheSegment cache s) /\
  forall j, cached (CacheSegment cache s) j =
    match cached cache j with Some x => Some x | None => if k =? j then Some s else None end.
Proof.
  intros [Ha Hc Hg Hs] Hgs Eid Hk Hr Hw. unfold CacheSegment. rewrite Eid, (HasSegment_cached n h n_range h_range a cache k Hc).
  pose proof Hc as [Hh Hrg Hu]. case_bool_decide as En; cbn [negb].
  - split.
    + constructor; [done| |by apply Forall_app_2; [|apply Forall_singleton]|done].
      constructor.
      * apply Forall_app_2; [done|]. apply Forall_singleton. by rewrite Eid.
      * apply Forall_app_2; [done|]. apply Forall_singleton. rewrite Eid. cbn [seg_index]. lia.
      * rewrite map_app. cbn [map]. apply NoDup_app. split; [done|]. split; [|apply NoDup_singleton].
        intros x Hx ->%list_elem_of_singleton. rewrite Eid in Hx. cbn [seg_index] in Hx.
        apply list_elem_of_In, in_map_iff in Hx as (y & Ey & Hy). rewrite cached_None, Forall_forall in En.
        apply (En y); [by apply list_elem_of_In|done].
    + intros j. rewrite cached_snoc, Eid. done.
  - split; [done|]. intros j. destruct (cached cache j) eqn:Ej; [done|]. destruct (Z.eqb_spec k j) as [->|]; done.
Qed.
End caching.

(** ** A desegmenter fed by honest peers

    The header commits to [nO] outputs and range proofs, [nK] kernels and the
    bitmap [chunks]; [goodO], [goodP], [goodK] are the segments honest peers send. *)
Section honest.
Context {OT PT KT W : Type} `{Serializable OT} `{Serializable PT} `{Serializable KT} (Blake2b : bytes -> Hash).
Context (hd : BlockHeader) (chunks : list BitmapChunk) (acc : BitmapAccumulator) (nO nK : Z).
Context (goodO : Segment OT -> Prop) (goodP : Segment PT -> Prop) (goodK : Segment KT -> Prop).
Local Abbreviation DG := (Desegmenter OT PT KT).
Local Abbreviation nB := (Z.of_nat (length chunks)).

Record header_commits : Prop := {
  hc_nO : 0 < nO < 2 ^ 50;
  hc_nK : 0 < nK < 2 ^ 50;
  hc_outputs : bh_outputMMRSize hd = mmr_size nO;
  hc_kernels : bh_kernelMMRSize hd = mmr_size nK;
  hc_chunks : nB = (nO + 1023) / 1024;
  hc_acc : accumulator_ok Blake2b acc;
  hc_acc_chunks : m_chunks acc = chunks;
}.

(** A cached bitmap segment carries its block of the chunks. *)
Definition goodB (s : Segment BitmapChunk) : Prop :=
  sg_leaves s = take (2 ^ 9) (drop (Z.to_nat (seg_index (sg_id s) * 2 ^ 9)) chunks).

(** What the three validations of [AddOutputSegment] and its siblings see. *)
Definition output_valid (s : Segment OT) : Prop :=
  exists root unprunedPos local, FirstUnprunedParent Blake2b (mmr_size nO) (Some acc) s = Ok (Some (root, unprunedPos)) /\
    BitmapAccumulator_Root Blake2b acc = Ok local /\
    SegmentProof_ValidateWith Blake2b (mmr_size nO) (GetPositionRange (mmr_size nO) (sg_id s)).1
      (GetPositionRange (mmr_size nO) (sg_id s)).2 root unprunedPos (mmr_size nO) local false (bh_outputRoot hd) (sg_proof s) = true.
Definition rangeProof_valid (s : Segment PT) : Prop :=
  exists root, reconstructed_root Blake2b (mmr_size nO) (Some acc) s = Ok (Some root) /\ root_matches (Some root) (bh_rangeProofRoot hd) = true.
Definition kernel_valid (s : Segment KT) : Prop :=
  exists root, reconstructed_root Blake2b (mmr_size nK) None s = Ok (Some root) /\ root_matches (Some root) (bh_kernelRoot hd) = true.
Definition bitmap_valid (bs : BitmapSegment) (outputRoot : Hash) (s : Segment BitmapChunk) : Prop :=
  BitmapSegment_ToSegment bs = Ok s /\ goodB s /\
  Segment_ValidateWith Blake2b (mmr_size nB) (bh_outputRoot hd) (mmr_size nO) outputRoot true None s = Ok true.

Hypothesis Hc : header_commits.
Hypothesis Blake2b_length : forall x, length (Blake2b x) = 32%nat.

(** The state of a desegmenter: [aB] chunks and [aO], [aP], [aK] leaves are
    applied. *)
Record dg_ok (aB aO aP aK : Z) (d : DG) : Prop := {
  do_header : m_archiveHeader d = hd;
  do_bitmapSize : m_bitmapMMRSize d = mmr_size nB;
  do_acc : accumulator_ok Blake2b (m_bitmapAccumulator d);
  do_chunks : m_chunks (m_bitmapAccumulator d) = take (Z.to_nat aB) chunks;
  do_aligned : aB = nB \/ aB mod 2 ^ 9 = 0;
  do_complete : m_bitmapCacheComplete d = bool_decide (aB = nB);
  do_bitmap : track_ok nB 9 goodB aB (m_appliedBitmapMMRSize d) (m_bitmapSegments d);
  do_output : track_ok nO 11 goodO aO (m_appliedOutputMMRSize d) (m_outputSegments d);
  do_rangeProof : track_ok nO 11 goodP aP (m_appliedRangeProofMMRSize d) (m_rangeProofSegments d);
  do_kernel : track_ok nK 11 goodK aK (m_appliedKernelMMRSize d) (m_kernelSegments d);
}.

Lemma nB_range : 0 < nB < 2 ^ 50.
Proof.
  destruct Hc as [Hn _ _ _ E _ _]. rewrite E.
  assert (1 <= (nO + 1023) / 1024) by (apply Z.div_le_lower_bound; lia).
  assert ((nO + 1023) / 1024 < 2 ^ 50) by (apply Z.div_lt_upper_bound; lia). lia.
Qed.

(** With all chunks, an accumulator is the one the header commits to. *)
Lemma full_accumulator (d : DG) :
  accumulator_ok Blake2b (m_bitmapAccumulator d) -> m_chunks (m_bitmapAccumulator d) = chunks -> m_bitmapAccumulator d = acc.
Proof.
  intros [_ Hn] E. pose proof (hc_acc_chunks Hc) as E'. destruct (hc_acc Hc) as [_ Hn']. rewrite E in Hn. rewrite E' in Hn'.
  destruct (m_bitmapAccumulator d) as [c1 n1], acc as [c2 n2]. cbn in *. subst. f_equal.
  eapply (tree_hashes_unique Blake2b (map chunk_bytes chunks)); [rewrite length_map; pose proof nB_range; lia|done|done].
Qed.

(** The constructor, with the sizes of a hash set that has some leaves. *)
Lemma track_start {D} n h (good : Segment D -> Prop) a : 0 <= a <= n -> track_ok n h good a (mmr_size a) [].
Proof. intros Ha. constructor; [done| |constructor|done]. by constructor; constructor. Qed.

Lemma new_ok aO aP aK :
  0 <= aO <= nO -> 0 <= aP <= nO -> 0 <= aK <= nK ->
  dg_ok 0 aO aP aK (SetAppliedMMRSizes (mmr_size aO) (mmr_size aP) (mmr_size aK) (Desegmenter_new hd)).
Proof.
  intros HO HP HK. pose proof nB_range. destruct Hc as [Hn Hk EO EK EB _ _].
  assert (forall a n, 0 <= a <= n -> Z.min (mmr_size a) (mmr_size n) = mmr_size a) as Hmin
    by (intros a n Ha; apply Z.min_l, mmr_size_mono; lia).
  unfold SetAppliedMMRSizes, set_output, set_rangeProof, set_kernel, outputMMRSize, kernelMMRSize, Desegmenter_new. cbn.
  rewrite EO, EK, !Hmin by lia. constructor; cbn; try done.
  - unfold CalculateBitmapMMRSizes. rewrite EO. pose proof (mmr_size_bound nO ltac:(lia)).
    change CountLeaves with SegmentIdentifier_CountLeaves. rewrite CountLeaves_ok by lia. unfold LEN_BITS.
    rewrite (uint_small 64 (nO + 1024 - 1)) by uint_solve. replace (nO + 1024 - 1) with (nO + 1023) by lia. rewrite <- EB.
    destruct (Z.eqb_spec nB 0); [lia|]. pose proof (mmr_size_bound nB ltac:(lia)).
    rewrite LeafIndex_At_pos by (lia || unfold pos_ok; lia). done.
  - apply accumulator_new_ok.
  - by right.
  - symmetry. apply bool_decide_eq_false. lia.
  - apply (track_start nB 9 goodB 0). lia.
  - by apply track_start.
  - by apply track_start.
  - by apply track_start.
Qed.
(** *** Segments that arrive *)
Lemma AddBitmapSegment_ok aB aO aP aK d bs outputRoot s k :
  dg_ok aB aO aP aK d -> bitmap_valid bs outputRoot s -> sg_id s = mkSegmentIdentifier 9 k ->
  0 <= k -> k * 2 ^ 9 < nB -> aB < seg_end nB 9 k ->
  let d' := set_bitmap (m_bitmapAccumulator d) (m_bitmapCacheComplete d) (m_appliedBitmapMMRSize d)
    (CacheSegment (m_bitmapSegments d) s) d in
  AddBitmapSegment Blake2b bs outputRoot d = (Ok true, d') /\ dg_ok aB aO aP aK d'.
Proof.
  intros Hd (Et & Hg & Hv) Eid Hk Hr Hw. pose proof Hd as [E1 E2 E3 E4 E5 E6 TB TO TP TK]. split.
  - unfold AddBitmapSegment, mbind, ST_bind, st_lift, st_get. rewrite Et, Eid. cbn [seg_height].
    change (ValidateHeight STOutputBitmap 9) with true. cbn [negb]. unfold outputMMRSize. rewrite E1, E2, (hc_outputs Hc), Hv. done.
  - constructor; try done. pose proof nB_range. eapply (CacheSegment_ok nB 9 goodB); (exact TB || eassumption || lia).
Qed.

Lemma AddOutputSegment_ok aO aP aK d s bitmapRoot k :
  dg_ok nB aO aP aK d -> goodO s -> output_valid s -> sg_id s = mkSegmentIdentifier 11 k ->
  0 <= k -> k * 2 ^ 11 < nO -> aO < seg_end nO 11 k ->
  let d' := set_output (m_appliedOutputMMRSize d) (CacheSegment (m_outputSegments d) s) d in
  AddOutputSegment Blake2b s bitmapRoot d = (Ok true, d') /\ dg_ok nB aO aP aK d'.
Proof.
  intros Hd Hg (root & pos & local & V1 & V2 & V3) Eid Hk Hr Hw. pose proof Hd as [E1 E2 E3 E4 E5 E6 TB TO TP TK].
  pose proof (hc_nO Hc). split.
  - unfold AddOutputSegment, mbind, ST_bind, st_lift, st_get. assert (seg_height (sg_id s) = 11) as Eh by (by rewrite Eid). rewrite Eh.
    change (ValidateHeight STOutput 11) with true. cbn [negb]. rewrite E6, bool_decide_true by done. cbn [negb].
    rewrite (full_accumulator d) by (exact E3 || (rewrite E4, Nat2Z.id; apply firstn_all)).
    unfold outputMMRSize. rewrite E1, (hc_outputs Hc), V1, V2, V3. done.
  - constructor; try done. eapply (CacheSegment_ok nO 11 goodO); (exact TO || eassumption || lia).
Qed.

Lemma AddRangeProofSegment_ok aO aP aK d s k :
  dg_ok nB aO aP aK d -> goodP s -> rangeProof_valid s -> sg_id s = mkSegmentIdentifier 11 k ->
  0 <= k -> k * 2 ^ 11 < nO -> aP < seg_end nO 11 k ->
  let d' := set_rangeProof (m_appliedRangeProofMMRSize d) (CacheSegment (m_rangeProofSegments d) s) d in
  AddRangeProofSegment Blake2b s d = (Ok true, d') /\ dg_ok nB aO aP aK d'.
Proof.
  intros Hd Hg (root & V1 & V2) Eid Hk Hr Hw. pose proof Hd as [E1 E2 E3 E4 E5 E6 TB TO TP TK].
  pose proof (hc_nO Hc). split.
  - unfold AddRangeProofSegment, mbind, ST_bind, st_lift, st_get. assert (seg_height (sg_id s) = 11) as Eh by (by rewrite Eid). rewrite Eh.
    change (ValidateHeight STRangeProof 11) with true. cbn [negb]. rewrite E6, bool_decide_true by done. cbn [negb].
    rewrite (full_accumulator d) by (exact E3 || (rewrite E4, Nat2Z.id; apply firstn_all)).
    unfold outputMMRSize. rewrite E1, (hc_outputs Hc), V1, V2. done.
  - constructor; try done. eapply (CacheSegment_ok nO 11 goodP); (exact TP || eassumption || lia).
Qed.

Lemma AddKernelSegment_ok aB aO aP aK d s k :
  dg_ok aB aO aP aK d -> goodK s -> kernel_valid s -> sg_id s = mkSegmentIdentifier 11 k ->
  0 <= k -> k * 2 ^ 11 < nK -> aK < seg_end nK 11 k ->
  let d' := set_kernel (m_appliedKernelMMRSize d) (CacheSegment (m_kernelSegments d) s) d in
  AddKernelSegment Blake2b s d = (Ok true, d') /\ dg_ok aB aO aP aK d'.
Proof.
  intros Hd Hg (root & V1 & V2) Eid Hk Hr Hw. pose proof Hd as [E1 E2 E3 E4 E5 E6 TB TO TP TK].
  pose proof (hc_nK Hc). split.
  - unfold AddKernelSegment, mbind, ST_bind, st_lift, st_get. assert (seg_height (sg_id s) = 11) as Eh by (by rewrite Eid). rewrite Eh.
    change (ValidateHeight STKernel 11) with true. cbn [negb].
    unfold kernelMMRSize. rewrite E1, (hc_kernels Hc), V1, V2. done.
  - constructor; try done. eapply (CacheSegment_ok nK 11 goodK); (exact TK || eassumption || lia).
Qed.
(** *** Bitmap segments that are applied *)
Lemma append_chunks_ok l a :
  accumulator_ok Blake2b a -> length (m_chunks a ++ l) < 2 ^ 50 -> Forall (BitmapChunk_wf V1) l ->
  exists a', fold_result (AppendChunk Blake2b) l a = Ok a' /\ accumulator_ok Blake2b a' /\ m_chunks a' = m_chunks a ++ l.
Proof.
  revert a. induction l as [|c l IH]; intros a Ha Hl Hwf; [exists a; by rewrite app_nil_r|].
  apply Forall_cons in Hwf as [Hcw Hwf]. rewrite length_app in Hl. cbn [length] in Hl.
  destruct (AppendChunk_ok Blake2b Blake2b_length a c Ha ltac:(lia) Hcw) as (a1 & E & Ha1 & E1).
  destruct (IH a1 Ha1) as (a' & E' & Ha' & E2); [rewrite E1, !length_app; cbn [length]; lia|done|].
  exists a'. cbn [fold_result]. rewrite E, E'. split; [done|]. split; [done|]. by rewrite E2, E1, <- app_assoc.
Qed.

Lemma chunk_block aB :
  0 <= aB < nB -> aB mod 2 ^ 9 = 0 ->
  take (Z.to_nat aB) chunks ++ take (2 ^ 9) (drop (Z.to_nat (aB / 2 ^ 9 * 2 ^ 9)) chunks) =
  take (Z.to_nat (seg_end nB 9 (aB / 2 ^ 9))) chunks.
Proof.
  intros Ha Hal. pose proof (Z.div_mod aB (2 ^ 9) ltac:(lia)) as Hd. replace (aB / 2 ^ 9 * 2 ^ 9) with aB by lia.
  rewrite take_take_drop. unfold seg_end. change (2 ^ 9)%nat with 512%nat. change (2 ^ 9) with 512 in *.
  destruct (Z.le_ge_cases ((aB / 512 + 1) * 512) nB).
  - f_equal. lia.
  - rewrite Z.min_r by lia. rewrite !take_ge by lia. done.
Qed.

Lemma ApplyNextBitmapSegment_ok aB aO aP aK d i s :
  dg_ok aB aO aP aK d -> aB < nB -> find_by_index (m_bitmapSegments d) (aB / 2 ^ 9) = Some (i, s) ->
  exists a', let aB' := seg_end nB 9 (aB / 2 ^ 9) in
    let d' := set_bitmap a' (mmr_size aB' =? mmr_size nB) (mmr_size aB') (delete i (m_bitmapSegments d)) d in
    ApplyNextBitmapSegment Blake2b d = (Ok true, d') /\ dg_ok aB' aO aP aK d'.
Proof.
  intros Hd Hlt E. pose proof Hd as [E1 E2 E3 E4 E5 E6 TB TO TP TK]. pose proof nB_range.
  pose proof TB as [Ha Hcb Hgb Hsz]. pose proof (seg_end_next nB 9 ltac:(lia) aB ltac:(lia)) as Hn.
  destruct E5 as [|Hal]; [lia|].
  pose proof (find_by_index_Some _ _ _ _ E) as [Ei Ek].
  assert (goodB s) as Hs by (rewrite Forall_forall in Hgb; apply Hgb; by eapply list_elem_of_lookup_2).
  unfold goodB in Hs. rewrite Ek in Hs.
  pose proof (acc_chunks _ _ (hc_acc Hc)) as Hwf. rewrite (hc_acc_chunks Hc) in Hwf.
  destruct (append_chunks_ok (sg_leaves s) (m_bitmapAccumulator d) E3) as (a' & Ea & Ha' & Ec').
  { rewrite E4, Hs, chunk_block, length_take by lia. lia. }
  { rewrite Hs. by apply Forall_take, Forall_drop. }
  rewrite E4, Hs, chunk_block in Ec' by lia.
  assert (BitmapAccumulator_GetMMRSize a' = mmr_size (seg_end nB 9 (aB / 2 ^ 9))) as Es.
  { rewrite (accumulator_size Blake2b) by done. rewrite length_map, Ec', length_take. f_equal. lia. }
  exists a'. cbv zeta. split.
  - unfold ApplyNextBitmapSegment, mbind, ST_bind, st_get, st_lift, st_modify. rewrite Hsz.
    change BITMAP_SEGMENT_HEIGHT with 9. rewrite NextRequired_ok, E, Ea by lia. rewrite Es, E2. done.
  - constructor; cbn; try done.
    + unfold seg_end in *. pose proof (Z.mod_mul (aB / 2 ^ 9 + 1) (2 ^ 9) ltac:(lia)).
      destruct (Z.le_ge_cases nB ((aB / 2 ^ 9 + 1) * 2 ^ 9)); [left; lia|right]. by rewrite Z.min_l by lia.
    + apply eq_true_iff_eq. rewrite Z.eqb_eq, bool_decide_eq_true. split; [|by intros ->].
      intros Em. apply mmr_size_inj in Em; lia.
    + constructor; [lia| | |done].
      * apply (cache_ok_delete nB 9 ltac:(lia) aB _ i s); [lia|done|done].
      * apply Forall_forall. intros x Hx. rewrite Forall_forall in Hgb. apply Hgb.
        eapply elem_of_submseteq; [exact Hx|apply sublist_submseteq, sublist_delete].
Qed.

Lemma ApplyNextBitmapSegment_none aB aO aP aK d :
  dg_ok aB aO aP aK d -> aB = nB \/ cached (m_bitmapSegments d) (aB / 2 ^ 9) = None ->
  ApplyNextBitmapSegment Blake2b d = (Ok false, d).
Proof.
  intros Hd Hnone. pose proof Hd as [_ _ _ _ _ _ [Ha Hcb _ Hsz] _ _ _]. pose proof nB_range.
  unfold ApplyNextBitmapSegment, mbind, ST_bind, st_get. rewrite Hsz. change BITMAP_SEGMENT_HEIGHT with 9.
  rewrite NextRequired_ok by lia.
  destruct (find_by_index (m_bitmapSegments d) (aB / 2 ^ 9)) as [[i s]|] eqn:E; [exfalso|done].
  destruct Hnone as [Heq|Hnone]; [|unfold cached in Hnone; by rewrite E in Hnone].
  rewrite Heq in Hcb. apply cache_ok_empty in Hcb; [|lia..]. by rewrite Hcb in E.
Qed.
(** *** Ready segments

    [J aO aP aK w]: the hash set [w] has the leaves that are applied. *)
Section ready.
Context (applyOutputSegment : Segment OT -> Z -> ST W bool) (applyRangeProofSegment : Segment PT -> Z -> ST W bool)
  (applyKernelSegment : Segment KT -> Z -> ST W bool) (J : Z -> Z -> Z -> W -> Prop).
Hypothesis output_good : forall s aO aP aK w,
  0 <= aO < nO -> goodO s -> sg_id s = mkSegmentIdentifier 11 (aO / 2 ^ 11) -> J aO aP aK w ->
  exists w', applyOutputSegment s (mmr_size nO) w = (Ok true, w') /\ J (seg_end nO 11 (aO / 2 ^ 11)) aP aK w'.
Hypothesis rangeProof_good : forall s aO aP aK w,
  0 <= aP < nO -> goodP s -> sg_id s = mkSegmentIdentifier 11 (aP / 2 ^ 11) -> J aO aP aK w ->
  exists w', applyRangeProofSegment s (mmr_size nO) w = (Ok true, w') /\ J aO (seg_end nO 11 (aP / 2 ^ 11)) aK w'.
Hypothesis kernel_good : forall s aO aP aK w,
  0 <= aK < nK -> goodK s -> sg_id s = mkSegmentIdentifier 11 (aK / 2 ^ 11) -> J aO aP aK w ->
  exists w', applyKernelSegment s (mmr_size nK) w = (Ok true, w') /\ J aO aP (seg_end nK 11 (aK / 2 ^ 11)) w'.

Lemma apply_outputs_ok aO aP aK d w :
  dg_ok nB aO aP aK d -> J aO aP aK w ->
  exists (c : nat) aO' cache w', let d' := set_output (mmr_size aO') cache d in
    apply_outputs applyOutputSegment (d, w) = (Ok (Some (Z.of_nat c)), (d', w')) /\ dg_ok nB aO' aP aK d' /\ J aO' aP aK w' /\
    progress nO 11 aO aO' (m_outputSegments d).
Proof.
  intros Hd HJ. pose proof Hd as [E1 E2 E3 E4 E5 E6 TB TO TP TK]. pose proof (hc_nO Hc).
  destruct (ApplyReadySegmentBatch_progress applyOutputSegment nO 11 ltac:(lia) ltac:(lia) goodO (fun a w => J a aP aK w)
    (fun s a w Ha Hg Hid Hj => output_good s a aP aK w Ha Hg Hid Hj) aO (m_outputSegments d, m_appliedOutputMMRSize d, w))
    as (c & a' & [[cache applied] w'] & E & [HT HJ'] & Hp); [by split|].
  cbn [fst snd] in *. pose proof HT as [_ _ _ ->]. exists c, a', cache, w'. cbv zeta.
  unfold apply_outputs, st_zoom. cbn [fst snd]. unfold outputMMRSize. rewrite E1, (hc_outputs Hc).
  change OUTPUT_SEGMENT_HEIGHT with 11. rewrite E. split; [done|]. split; [|done]. by constructor.
Qed.

Lemma apply_rangeProofs_ok aO aP aK d w :
  dg_ok nB aO aP aK d -> J aO aP aK w ->
  exists (c : nat) aP' cache w', let d' := set_rangeProof (mmr_size aP') cache d in
    apply_rangeProofs applyRangeProofSegment (d, w) = (Ok (Some (Z.of_nat c)), (d', w')) /\ dg_ok nB aO aP' aK d' /\
    J aO aP' aK w' /\ progress nO 11 aP aP' (m_rangeProofSegments d).
Proof.
  intros Hd HJ. pose proof Hd as [E1 E2 E3 E4 E5 E6 TB TO TP TK]. pose proof (hc_nO Hc).
  destruct (ApplyReadySegmentBatch_progress applyRangeProofSegment nO 11 ltac:(lia) ltac:(lia) goodP (fun a w => J aO a aK w)
    (fun s a w Ha Hg Hid Hj => rangeProof_good s aO a aK w Ha Hg Hid Hj) aP (m_rangeProofSegments d, m_appliedRangeProofMMRSize d, w))
    as (c & a' & [[cache applied] w'] & E & [HT HJ'] & Hp); [by split|].
  cbn [fst snd] in *. pose proof HT as [_ _ _ ->]. exists c, a', cache, w'. cbv zeta.
  unfold apply_rangeProofs, st_zoom. cbn [fst snd]. unfold outputMMRSize. rewrite E1, (hc_outputs Hc).
  change RANGEPROOF_SEGMENT_HEIGHT with 11. rewrite E. split; [done|]. split; [|done]. by constructor.
Qed.

Lemma apply_kernels_ok aB aO aP aK d w :
  dg_ok aB aO aP aK d -> J aO aP aK w ->
  exists (c : nat) aK' cache w', let d' := set_kernel (mmr_size aK') cache d in
    apply_kernels applyKernelSegment (d, w) = (Ok (Some (Z.of_nat c)), (d', w')) /\ dg_ok aB aO aP aK' d' /\
    J aO aP aK' w' /\ progress nK 11 aK aK' (m_kernelSegments d).
Proof.
  intros Hd HJ. pose proof Hd as [E1 E2 E3 E4 E5 E6 TB TO TP TK]. pose proof (hc_nK Hc).
  destruct (ApplyReadySegmentBatch_progress applyKernelSegment nK 11 ltac:(lia) ltac:(lia) goodK (fun a w => J aO aP a w)
    (fun s a w Ha Hg Hid Hj => kernel_good s aO aP a w Ha Hg Hid Hj) aK (m_kernelSegments d, m_appliedKernelMMRSize d, w))
    as (c & a' & [[cache applied] w'] & E & [HT HJ'] & Hp); [by split|].
  cbn [fst snd] in *. pose proof HT as [_ _ _ ->]. exists c, a', cache, w'. cbv zeta.
  unfold apply_kernels, st_zoom. cbn [fst snd]. unfold kernelMMRSize. rewrite E1, (hc_kernels Hc).
  change KERNEL_SEGMENT_HEIGHT with 11. rewrite E. split; [done|]. split; [|done]. by constructor.
Qed.

Lemma size_eqb a n : 0 <= a -> 0 <= n -> (mmr_size a =? mmr_size n) = bool_decide (a = n).
Proof.
  intros Ha Hn. apply eq_true_iff_eq. rewrite Z.eqb_eq, bool_decide_eq_true. split; [|by intros ->].
  by apply mmr_size_inj.
Qed.

Lemma sizes_complete_ok aB aO aP aK d :
  dg_ok aB aO aP aK d -> sizes_complete d = bool_decide (aO = nO /\ aP = nO /\ aK = nK).
Proof.
  intros [E1 _ _ _ _ _ _ TO TP TK]. pose proof (hc_nO Hc). pose proof (hc_nK Hc).
  unfold sizes_complete, outputMMRSize, kernelMMRSize.
  rewrite E1, (hc_outputs Hc), (hc_kernels Hc), (to_size _ _ _ _ _ _ TO), (to_size _ _ _ _ _ _ TP), (to_size _ _ _ _ _ _ TK).
  destruct TO as [? _ _ _], TP as [? _ _ _], TK as [? _ _ _]. rewrite !size_eqb by lia. by rewrite !bool_decide_and, andb_assoc.
Qed.

(** One call with the bitmap complete: nothing is refused, every track advances
    whose next segment is cached, and the sync is complete when all are. *)
Lemma ApplyReadySegments_ok aO aP aK d w :
  dg_ok nB aO aP aK d -> J aO aP aK w ->
  exists (c : nat) aO' aP' aK' d' w',
    ApplyReadySegments applyOutputSegment applyRangeProofSegment applyKernelSegment (d, w) = (Ok (Some (Z.of_nat c)), (d', w')) /\
    dg_ok nB aO' aP' aK' d' /\ J aO' aP' aK' w' /\
    progress nO 11 aO aO' (m_outputSegments d) /\ progress nO 11 aP aP' (m_rangeProofSegments d) /\
    progress nK 11 aK aK' (m_kernelSegments d) /\
    m_allSegmentsComplete d' = bool_decide (aO' = nO /\ aP' = nO /\ aK' = nK).
Proof.
  intros Hd HJ.
  destruct (apply_outputs_ok _ _ _ _ _ Hd HJ) as (c1 & aO' & q1 & w1 & A1 & D1 & J1 & P1).
  destruct (apply_rangeProofs_ok _ _ _ _ _ D1 J1) as (c2 & aP' & q2 & w2 & A2 & D2 & J2 & P2).
  destruct (apply_kernels_ok _ _ _ _ _ _ D2 J2) as (c3 & aK' & q3 & w3 & A3 & D3 & J3 & P3).
  set (d3 := set_kernel (mmr_size aK') q3 _) in *.
  exists (c1 + c2 + c3)%nat, aO', aP', aK', (set_complete (sizes_complete d3) d3), w3.
  unfold ApplyReadySegments, mbind, ST_bind, st_get. cbn [fst].
  rewrite (do_complete _ _ _ _ _ Hd), bool_decide_true by done. cbn [negb]. rewrite A1, A2, A3. unfold st_modify. cbn [fst snd].
  rewrite (do_complete _ _ _ _ _ D3), bool_decide_true by done. cbn [andb].
  split; [by rewrite !Nat2Z.inj_add|]. split; [by destruct D3; constructor|]. split; [done|]. split; [done|].
  split; [exact P2|]. split; [exact P3|]. cbn [m_allSegmentsComplete set_complete]. by apply (sizes_complete_ok nB).
Qed.

Lemma ApplyReadySegments_bitmap aB aO aP aK d w :
  dg_ok aB aO aP aK d -> aB <> nB ->
  ApplyReadySegments applyOutputSegment applyRangeProofSegment applyKernelSegment (d, w) = (Ok (Some 0), (d, w)).
Proof.
  intros Hd Hne. unfold ApplyReadySegments, mbind, ST_bind, st_get. cbn [fst].
  by rewrite (do_complete _ _ _ _ _ Hd), bool_decide_false by done.
Qed.
End ready.
(** *** Requests *)

(** [r] asks for a segment of a track that is neither applied nor cached. *)
Definition asks_for {D} (type : SegmentType) (n h a : Z) (cache : list (Segment D)) (r : SegmentTypeIdentifier) : Prop :=
  exists j, r = to_request type h j /\ 0 <= j /\ j * 2 ^ h < n /\ wanted n h a cache j.

Definition requestable (aB aO aP aK : Z) (d : DG) (r : SegmentTypeIdentifier) : Prop :=
  if bool_decide (aB = nB) then
    asks_for STOutput nO 11 aO (m_outputSegments d) r \/ asks_for STRangeProof nO 11 aP (m_rangeProofSegments d) r \/
    asks_for STKernel nK 11 aK (m_kernelSegments d) r
  else asks_for STOutputBitmap nB 9 aB (m_bitmapSegments d) r.

Lemma AppendDesired_track {D} type n h (good : Segment D -> Prop) a applied cache maxElements :
  0 <= n < 2 ^ 50 -> 1 <= h < 50 -> track_ok n h good a applied cache -> 1 <= maxElements ->
  let l := AppendDesiredSegments [] maxElements type (mmr_size n) h applied cache in
  NoDup l /\ length l <= maxElements /\ Forall (asks_for type n h a cache) l /\
  (a < n -> cached cache (a / 2 ^ h) = None -> head l = Some (to_request type h (a / 2 ^ h))).
Proof.
  intros Hn Hh [Ha Hc' _ ->] Hm. cbv zeta. rewrite (AppendDesiredSegments_ok type n h Hn Hh maxElements a cache []) by done.
  cbn [app length]. set (r := room maxElements cache 0).
  assert (1 <= r <= maxElements) as Hr by (unfold r, room; destruct (_ >=? _); lia). split; [|split; [|split]].
  - apply NoDup_fmap_2_strong; [by intros x y _ _ [=]|]. eapply sublist_NoDup; [apply (missing_NoDup n h a cache)|apply sublist_take].
  - rewrite length_map, length_take. lia.
  - apply Forall_map, Forall_take, Forall_forall. intros j Hj. apply (elem_of_missing n h Hh a cache) in Hj; [|lia].
    exists j. tauto.
  - intros Hlt Hnone. destruct (missing_head n h Hh a cache ltac:(lia) Hnone) as [l E]. rewrite E.
    destruct r as [|r']; [lia|]. done.
Qed.

Lemma asks_for_type {D} type n h a (cache : list (Segment D)) r : asks_for type n h a cache r -> m_segmentType r = type.
Proof. by intros (j & -> & _). Qed.

Lemma NoDup_three {D1 D2 D3} t1 n1 h1 a1 (q1 : list (Segment D1)) t2 n2 h2 a2 (q2 : list (Segment D2))
    t3 n3 h3 a3 (q3 : list (Segment D3)) l1 l2 l3 :
  NoDup l1 -> NoDup l2 -> NoDup l3 -> Forall (asks_for t1 n1 h1 a1 q1) l1 -> Forall (asks_for t2 n2 h2 a2 q2) l2 ->
  Forall (asks_for t3 n3 h3 a3 q3) l3 -> t1 <> t2 -> t1 <> t3 -> t2 <> t3 -> NoDup (l1 ++ l2 ++ l3).
Proof.
  rewrite !Forall_forall. intros H1' H2' H3' F1 F2 F3 N12 N13 N23. rewrite !NoDup_app. repeat split; try done.
  - intros r R1%F1%asks_for_type. rewrite elem_of_app. intros [R2%F2%asks_for_type|R2%F3%asks_for_type]; congruence.
  - intros r R1%F2%asks_for_type R2%F3%asks_for_type. congruence.
Qed.

Lemma elem_of_when {A} (P : Prop) `{!Decision P} (x y : A) : x ∈ (if bool_decide P then [y] else []) <-> P /\ x = y.
Proof. case_bool_decide; rewrite ?list_elem_of_singleton, ?elem_of_nil; tauto. Qed.

Lemma take_mono {A} (m m' : nat) (l : list A) x : (m <= m')%nat -> x ∈ take m l -> x ∈ take m' l.
Proof.
  intros Hm Hx. replace (take m l) with (take m (take m' l)) in Hx by (rewrite take_take; f_equal; lia).
  eapply elem_of_submseteq; [exact Hx|apply sublist_submseteq, sublist_take].
Qed.

Lemma dg_ok_flags aB aO aP aK d o : dg_ok aB aO aP aK d -> dg_ok aB aO aP aK (set_typeOffset o d).
Proof. intros []. by constructor. Qed.

Lemma dg_ok_complete aB aO aP aK d b : dg_ok aB aO aP aK d -> dg_ok aB aO aP aK (set_complete b d).
Proof. intros []. by constructor. Qed.

(** What is asked for: distinct segments, neither applied nor cached, at most
    as many as allowed; the ones that block a track are among them. *)
Lemma NextDesiredSegments_ok aB aO aP aK d maxElements :
  dg_ok aB aO aP aK d -> 3 <= maxElements ->
  let '(l, d') := NextDesiredSegments maxElements d in
  NoDup l /\ length l <= maxElements /\ Forall (requestable aB aO aP aK d) l /\
  (forall r, r ∈ GetBlockingSegments d -> r ∈ l) /\ dg_ok aB aO aP aK d' /\
  m_bitmapSegments d' = m_bitmapSegments d /\ m_outputSegments d' = m_outputSegments d /\
  m_rangeProofSegments d' = m_rangeProofSegments d /\ m_kernelSegments d' = m_kernelSegments d /\
  (aB = nB -> m_allSegmentsComplete d' = bool_decide (l = [] /\ aO = nO /\ aP = nO /\ aK = nK)) /\ (aB <> nB -> d' = d).
Proof.
  intros Hd Hm. pose proof Hd as [E1 E2 E3 E4 E5 E6 TB TO TP TK]. pose proof nB_range. pose proof (hc_nO Hc). pose proof (hc_nK Hc).
  unfold NextDesiredSegments, GetBlockingSegments, requestable, outputMMRSize, kernelMMRSize.
  rewrite E1, E2, E6, (hc_outputs Hc), (hc_kernels Hc).
  change BITMAP_SEGMENT_HEIGHT with 9. change OUTPUT_SEGMENT_HEIGHT with 11. change RANGEPROOF_SEGMENT_HEIGHT with 11.
  change KERNEL_SEGMENT_HEIGHT with 11. case_bool_decide as Eb; cbn [negb].
  - destruct (AppendDesired_track STOutput nO 11 goodO aO _ _ maxElements ltac:(lia) ltac:(lia) TO ltac:(lia)) as (NO & LO & FO & HO).
    destruct (AppendDesired_track STRangeProof nO 11 goodP aP _ _ maxElements ltac:(lia) ltac:(lia) TP ltac:(lia)) as (NP & LP & FP & HP).
    destruct (AppendDesired_track STKernel nK 11 goodK aK _ _ maxElements ltac:(lia) ltac:(lia) TK ltac:(lia)) as (NK & LK & FK & HK).
    set (lO := AppendDesiredSegments [] maxElements STOutput _ _ _ _) in *.
    set (lP := AppendDesiredSegments [] maxElements STRangeProof _ _ _ _) in *.
    set (lK := AppendDesiredSegments [] maxElements STKernel _ _ _ _) in *.
    destruct (interleave_ok maxElements lO lP lK (m_nextDesiredTypeOffset d mod 3) (S (length lO + length lP + length lK)))
      as (l & Hl & -> & Hh); [unfold longest; lia|].
    pose proof (NoDup_three _ _ _ _ _ _ _ _ _ _ _ _ _ _ _ _ _ _ NO NP NK FO FP FK ltac:(done) ltac:(done) ltac:(done)) as Hnd.
    rewrite <- Hl in Hnd. split; [|split; [|split; [|split]]].
    + eapply sublist_NoDup; [exact Hnd|apply sublist_take].
    + rewrite length_take. lia.
    + apply Forall_take. rewrite Hl. apply Forall_app_2; [|apply Forall_app_2].
      * eapply Forall_impl; [exact FO|]. tauto.
      * eapply Forall_impl; [exact FP|]. tauto.
      * eapply Forall_impl; [exact FK|]. tauto.
    + intros r Hr. apply (take_mono 3 (Z.to_nat maxElements)); [lia|]. apply Hh.
      destruct TO as [? HcO _ SO], TP as [? HcP _ SP], TK as [? HcK _ SK]. rewrite SO, SP, SK in Hr.
      rewrite (AppendBlockingSegment_ok STKernel nK 11), (AppendBlockingSegment_ok STRangeProof nO 11),
        (AppendBlockingSegment_ok STOutput nO 11) in Hr by (done || lia).
      cbn [app] in Hr. rewrite !elem_of_app, !elem_of_when in Hr. destruct Hr as [[[[X1 X2] ->]|[[X1 X2] ->]]|[[X1 X2] ->]].
      * left. exact (HO X1 X2).
      * right; left. exact (HP X1 X2).
      * right; right. exact (HK X1 X2).
    + split; [by apply dg_ok_complete, dg_ok_flags|]. do 4 (split; [done|]). split; [|done]. intros _. cbn [m_allSegmentsComplete set_complete].
      rewrite (sizes_complete_ok aB aO aP aK) by (by apply dg_ok_flags). symmetry. apply bool_decide_and.
  - destruct (AppendDesired_track STOutputBitmap nB 9 goodB aB _ _ maxElements ltac:(lia) ltac:(lia) TB ltac:(lia)) as (NB & LB & FB & HB).
    set (lB := AppendDesiredSegments [] maxElements STOutputBitmap _ _ _ _) in *.
    split; [done|]. split; [done|]. split; [done|]. split; [|done].
    destruct TB as [Ha Hcb _ ->]. rewrite (AppendBlockingSegment_ok STOutputBitmap nB 9 ltac:(lia) ltac:(lia)) by done. cbn [app].
    case_bool_decide as Ex; [|by intros r ?%elem_of_nil]. intros r ->%list_elem_of_singleton.
    specialize (HB (proj1 Ex) (proj2 Ex)). destruct lB; [done|]. injection HB as ->. left.
Qed.
End honest.
