(* ===== verification/Pibd.v ===== *)
(** * Receiving a sync ([src/P2P/Pipeline/TxHashSetPipe.cpp])

    The part of the pipeline that drives a desegmenter: the handlers of received
    segments, and the turn that applies what is ready, finishes the sync when
    everything is applied, and asks peers for what is missing.  Connections are
    known by their answers (active, message sent), peers by their address, the
    transaction hash set by what it does with segments. *)
From stdpp Require Import strings.
From S2P Require Import Prelude BitUtil MMRIndex MMRUtil Serial BigInteger MMRHash SegmentId SegmentProof BitmapFile Bitmap Segment BitmapSegment SegmentTracker Transaction Header Desegmenter.

Definition SEGMENT_REQUEST_COUNT : Z := 15.
Definition BLOCKING_SEGMENT_RETRY_SECS : Z := 10.
Definition BLOCKING_SEGMENT_RETRY_COUNT : Z := 1.
Definition BITMAP_BLOCKING_SEGMENT_HEDGE_SECS : Z := 4.
Definition BLOCKING_SEGMENT_HEDGE_SECS : Z := 20.
Definition BLOCKING_SEGMENT_HEDGE_COUNT : Z := 2.
Definition PIBD_COMMIT_SEGMENT_THRESHOLD : Z := 96.

(** What the pipeline needs of a transaction hash set [W] with leaves of types
    [OT], [PT] and [KT]. *)
Class SyncTarget (OT PT KT W : Type) := {
  ApplyOutputSegment : Segment OT -> Z -> BitmapAccumulator -> ST W bool;
  ApplyRangeProofSegment : Segment PT -> Z -> BitmapAccumulator -> ST W bool;
  ApplyKernelSegment : Segment KT -> Z -> ST W bool;
  UpdateLeafSets : BitmapAccumulator -> Z -> W -> W;
  SyncTarget_Commit : ST W unit;
  SyncTarget_GetOutputMMRSize : W -> Z;
  SyncTarget_GetRangeProofMMRSize : W -> Z;
  SyncTarget_GetKernelMMRSize : W -> Z;
}.

Section pipe.
Context {OT PT KT W : Type} `{Serializable OT} `{Serializable PT} `{Serializable KT} `{SyncTarget OT PT KT W}.
Context (Blake2b : bytes -> Hash).
Local Abbreviation DG := (Desegmenter OT PT KT).

Record PIBD := mkPIBD {
  m_pDesegmenter : option DG;
  m_pibdBlockHash : option Hash;
  m_segmentRequests : list PendingRequest;
  m_uncommittedPIBDSegments : Z;
  m_pibdNextPeerIndex : Z;
  m_processing : bool;
  pp_txHashSet : option W;
}.

Definition set_desegmenter (d : DG) (p : PIBD) : PIBD :=
  mkPIBD (Some d) (m_pibdBlockHash p) (m_segmentRequests p) (m_uncommittedPIBDSegments p) (m_pibdNextPeerIndex p)
    (m_processing p) (pp_txHashSet p).
Definition set_requests (requests : list PendingRequest) (p : PIBD) : PIBD :=
  mkPIBD (m_pDesegmenter p) (m_pibdBlockHash p) requests (m_uncommittedPIBDSegments p) (m_pibdNextPeerIndex p)
    (m_processing p) (pp_txHashSet p).
Definition set_uncommitted (n : Z) (p : PIBD) : PIBD :=
  mkPIBD (m_pDesegmenter p) (m_pibdBlockHash p) (m_segmentRequests p) n (m_pibdNextPeerIndex p) (m_processing p) (pp_txHashSet p).
Definition set_nextPeer (n : Z) (p : PIBD) : PIBD :=
  mkPIBD (m_pDesegmenter p) (m_pibdBlockHash p) (m_segmentRequests p) (m_uncommittedPIBDSegments p) n (m_processing p) (pp_txHashSet p).
Definition set_processing (b : bool) (p : PIBD) : PIBD :=
  mkPIBD (m_pDesegmenter p) (m_pibdBlockHash p) (m_segmentRequests p) (m_uncommittedPIBDSegments p) (m_pibdNextPeerIndex p) b (pp_txHashSet p).
Definition set_txHashSet (w : W) (p : PIBD) : PIBD :=
  mkPIBD (m_pDesegmenter p) (m_pibdBlockHash p) (m_segmentRequests p) (m_uncommittedPIBDSegments p) (m_pibdNextPeerIndex p)
    (m_processing p) (Some w).

(** A method of the desegmenter, which is there. *)
Definition on_desegmenter {A} (m : ST DG A) : ST PIBD A := fun p =>
  match m_pDesegmenter p with
  | Some d => let '(r, d) := m d in (r, set_desegmenter d p)
  | None => (Throw UB, p)
  end.

Definition MarkReceived_segment (typeId : SegmentTypeIdentifier) : ST PIBD unit :=
  st_modify (fun p => set_requests (MarkReceived typeId (m_segmentRequests p)) p).

(** ** Received segments

    [active]: the connection is there and active. *)

(** [while (m_pDesegmenter->ApplyNextBitmapSegment()) {}]; each turn that
    goes on takes a segment out of the cache. *)
Fixpoint apply_bitmaps (fuel : nat) : ST DG unit :=
  match fuel with
  | O => st_throw OutOfFuel
  | S fuel => applied ← ApplyNextBitmapSegment Blake2b; if (applied : bool) then apply_bitmaps fuel else mret tt
  end.

(** What the four handlers share: the guards, then [add] and [after]. *)
Definition Receive (active : bool) (blockHash : Hash) (typeId : SegmentTypeIdentifier) (add : ST DG bool) (after : ST DG unit)
    : ST PIBD unit :=
  p ← st_get;
  match m_pDesegmenter p, m_pibdBlockHash p with
  | Some d, Some pibdBlockHash =>
      if BigInteger_neq pibdBlockHash blockHash then mret tt
      else if negb active then mret tt
      else if IsApplied typeId d then MarkReceived_segment typeId
      else if negb (IsPending typeId (m_segmentRequests p)) then mret tt
      else
        added ← on_desegmenter add;
        if negb added then MarkReceived_segment typeId
        else
          _ ← MarkReceived_segment typeId;
          on_desegmenter after
  | _, _ => mret tt
  end.

Definition ReceiveOutputBitmapSegment (active : bool) (blockHash : Hash) (segment : BitmapSegment) (outputRoot : Hash) : ST PIBD unit :=
  Receive active blockHash (mkSegmentTypeIdentifier STOutputBitmap (m_identifier segment))
    (AddBitmapSegment Blake2b segment outputRoot)
    (d ← st_get; apply_bitmaps (S (length (m_bitmapSegments d)))).

Definition ReceiveOutputSegment (active : bool) (blockHash : Hash) (segment : Segment OT) (outputBitmapRoot : Hash) : ST PIBD unit :=
  Receive active blockHash (mkSegmentTypeIdentifier STOutput (sg_id segment)) (AddOutputSegment Blake2b segment outputBitmapRoot) (mret tt).

Definition ReceiveRangeProofSegment (active : bool) (blockHash : Hash) (segment : Segment PT) : ST PIBD unit :=
  Receive active blockHash (mkSegmentTypeIdentifier STRangeProof (sg_id segment)) (AddRangeProofSegment Blake2b segment) (mret tt).

Definition ReceiveKernelSegment (active : bool) (blockHash : Hash) (segment : Segment KT) : ST PIBD unit :=
  Receive active blockHash (mkSegmentTypeIdentifier STKernel (sg_id segment)) (AddKernelSegment Blake2b segment) (mret tt).

(** ** Requests

    The plan of a turn: the requests to send and those among them that are
    repeated. *)
Definition plan : Type := list SegmentTypeIdentifier * list SegmentTypeIdentifier.

Fixpoint plan_requests (now requestBudget : Z) (requests : list PendingRequest) (desired : list SegmentTypeIdentifier)
    (newRequestCount : Z) (pl : plan) : plan :=
  match desired with
  | [] => pl
  | typeId :: desired =>
      let '(requestsToSend, retryRequests) := pl in
      let '(newRequestCount, pl) :=
        if negb (IsPending typeId requests) then
          if newRequestCount <? requestBudget then (newRequestCount + 1, (requestsToSend ++ [typeId], retryRequests))
          else (newRequestCount, pl)
        else if (length retryRequests <? BLOCKING_SEGMENT_RETRY_COUNT) && CanRetry now typeId BLOCKING_SEGMENT_RETRY_SECS requests then
          (newRequestCount, (requestsToSend ++ [typeId], retryRequests ++ [typeId]))
        else (newRequestCount, pl) in
      if (newRequestCount >=? requestBudget) && (length pl.2 >=? BLOCKING_SEGMENT_RETRY_COUNT) then pl
      else plan_requests now requestBudget requests desired newRequestCount pl
  end.

Definition hedge_delay (typeId : SegmentTypeIdentifier) : Z :=
  match m_segmentType typeId with
  | STOutputBitmap => BITMAP_BLOCKING_SEGMENT_HEDGE_SECS
  | _ => BLOCKING_SEGMENT_HEDGE_SECS
  end.

Fixpoint plan_hedges (now : Z) (requests : list PendingRequest) (blockers : list SegmentTypeIdentifier) (pl : plan) : plan :=
  match blockers with
  | [] => pl
  | typeId :: blockers =>
      let '(requestsToSend, retryRequests) := pl in
      if length retryRequests >=? BLOCKING_SEGMENT_HEDGE_COUNT then pl
      else if negb (IsPending typeId requests) || negb (CanHedge now typeId (hedge_delay typeId) requests) then
        plan_hedges now requests blockers pl
      else if existsb (fun requestTypeId => SegmentTypeIdentifier_eq requestTypeId typeId) requestsToSend then
        plan_hedges now requests blockers pl
      else plan_hedges now requests blockers (requestsToSend ++ [typeId], retryRequests ++ [typeId])
  end.

(** [send typeId peer]: does the connection manager send the request to the
    peer.  A message exists for the four types. *)
Section send.
Context (now : Z) (send : SegmentTypeIdentifier -> string -> bool) (requestPeers : list string).

Definition has_message (typeId : SegmentTypeIdentifier) : bool :=
  match m_segmentType typeId with STOther _ => false | _ => true end.

(** The loop over the peers from [peerIdx] on: the number of the attempt that
    succeeds, and the peer. *)
Fixpoint send_attempts (k : nat) (attempt : nat) (peerIdx : nat) (previousPeer : option string) (typeId : SegmentTypeIdentifier)
    : option (nat * string) :=
  match k with
  | O => None
  | S k =>
      match requestPeers !! ((peerIdx + attempt) mod length requestPeers)%nat with
      | None => None
      | Some peer =>
          if bool_decide (previousPeer = Some peer) && (1 <? length requestPeers)%nat
          then send_attempts k (S attempt) peerIdx previousPeer typeId
          else if send typeId peer then Some (attempt, peer)
          else send_attempts k (S attempt) peerIdx previousPeer typeId
      end
  end.

Fixpoint send_requests (retryRequests requestsToSend : list SegmentTypeIdentifier) (peerIdx : nat) (p : PIBD) : PIBD :=
  match requestsToSend with
  | [] => p
  | typeId :: requestsToSend =>
      let retryRequest := existsb (fun retryTypeId => SegmentTypeIdentifier_eq retryTypeId typeId) retryRequests in
      let previousPeer := if retryRequest then pr_peerId <$> GetPendingRequest typeId (m_segmentRequests p) else None in
      if negb (has_message typeId) then send_requests retryRequests requestsToSend peerIdx p
      else
        match send_attempts (length requestPeers) 0 peerIdx previousPeer typeId with
        | Some (attempt, peer) =>
            let peerIdx := ((peerIdx + attempt + 1) mod length requestPeers)%nat in
            send_requests retryRequests requestsToSend peerIdx
              (set_nextPeer peerIdx (set_requests (AddOrRefresh now typeId peer (m_segmentRequests p)) p))
        | None => send_requests retryRequests requestsToSend peerIdx p
        end
  end.
End send.

(** ** The turn: [RequestNextPIBDSegments] *)
Definition Commit_txHashSet : ST PIBD unit := fun p =>
  match pp_txHashSet p with
  | Some w => let '(r, w) := SyncTarget_Commit w in (r, set_txHashSet w p)
  | None => (Ok tt, p)
  end.

(** Apply the ready segments: [None] when there is no hash set or a segment was
    refused. *)
Definition apply_ready : ST PIBD (option Z) := fun p =>
  match m_pDesegmenter p, pp_txHashSet p with
  | Some d, Some w =>
      let outputBitmap := m_bitmapAccumulator d in
      let '(r, (d, w)) := ApplyReadySegments
        (fun segment targetSize => ApplyOutputSegment segment targetSize outputBitmap)
        (fun segment targetSize => ApplyRangeProofSegment segment targetSize outputBitmap)
        ApplyKernelSegment (d, w) in
      (r, set_txHashSet w (set_desegmenter d p))
  | _, _ => (Ok None, p)
  end.

(** Commit once enough segments were applied. *)
Definition commit_threshold : ST PIBD unit :=
  p ← st_get;
  if m_uncommittedPIBDSegments p >=? PIBD_COMMIT_SEGMENT_THRESHOLD then
    _ ← Commit_txHashSet;
    st_modify (set_uncommitted 0)
  else mret tt.

(** Everything is applied: the leaf sets follow the bitmap, and validation is
    started, which is a job of its own. *)
Definition finish (d : DG) : ST PIBD bool :=
  p ← st_get;
  match pp_txHashSet p with
  | None => _ ← st_modify (set_processing false); mret false
  | Some w =>
      _ ← st_modify (set_txHashSet (UpdateLeafSets (m_bitmapAccumulator d) (GetNumOutputs (m_archiveHeader d)) w));
      _ ← Commit_txHashSet;
      _ ← st_modify (set_uncommitted 0);
      mret true
  end.

Definition remove_timed_out (now : Z) : ST PIBD unit :=
  p ← st_get;
  match GetTimedOutRequests now SEGMENT_REQUEST_TIMEOUT_SECS (m_segmentRequests p) with
  | [] => mret tt
  | _ =>
      _ ← commit_threshold;
      st_modify (fun p => set_requests (RemoveTimedOutRequests now SEGMENT_REQUEST_TIMEOUT_SECS (m_segmentRequests p)) p)
  end.

Definition request_missing (now : Z) (send : SegmentTypeIdentifier -> string -> bool) (requestPeers : list string) : ST PIBD unit := fun p =>
  match m_pDesegmenter p with
  | None => (Throw UB, p)
  | Some d =>
      let requests := m_segmentRequests p in
      let pendingCount := length requests in
      let requestBudget := if pendingCount <? SEGMENT_REQUEST_COUNT then SEGMENT_REQUEST_COUNT - pendingCount else 0 in
      let '(desired, d) := NextDesiredSegments (SEGMENT_REQUEST_COUNT + pendingCount) d in
      let p := set_desegmenter d p in
      let pl := plan_requests now requestBudget requests desired 0 ([], []) in
      let pl := if (1 <? length requestPeers)%nat && (length pl.2 <? BLOCKING_SEGMENT_HEDGE_COUNT)
                then plan_hedges now requests (GetBlockingSegments d) pl else pl in
      let peerIdx := (Z.to_nat (m_pibdNextPeerIndex p) mod length requestPeers)%nat in
      (Ok tt, send_requests now send requestPeers pl.2 pl.1 peerIdx p)
  end.

Definition RequestNextPIBDSegments (now : Z) (send : SegmentTypeIdentifier -> string -> bool) (peers : list (option string)) : ST PIBD bool :=
  p ← st_get;
  match m_pDesegmenter p, m_pibdBlockHash p with
  | Some _, Some _ =>
      if bool_decide (peers = []) then mret false
      else
        applied ← apply_ready;
        match applied with
        | None => mret false
        | Some appliedSegments =>
            _ ← st_modify (fun p => set_uncommitted (m_uncommittedPIBDSegments p + appliedSegments)%u64 p);
            _ ← commit_threshold;
            p ← st_get;
            match m_pDesegmenter p with
            | None => st_throw UB
            | Some d =>
                if m_allSegmentsComplete d then finish d
                else
                  _ ← remove_timed_out now;
                  let requestPeers := omap id peers in
                  if bool_decide (requestPeers = []) then mret true
                  else
                    _ ← request_missing now send requestPeers;
                    mret true
            end
        end
  | _, _ => mret false
  end.

(** ** Starting and ending *)

(** [StartPIBD] once the header is chosen and the hash set opened for it. *)
Definition StartPIBD (archiveHeader : BlockHeader) (headerHash : Hash) (w : W) (p : PIBD) : PIBD :=
  match m_pDesegmenter p, m_pibdBlockHash p with
  | Some _, Some pibdBlockHash =>
      if BigInteger_eq pibdBlockHash headerHash then p
      else mkPIBD (Some (SetAppliedMMRSizes (SyncTarget_GetOutputMMRSize w) (SyncTarget_GetRangeProofMMRSize w)
                    (SyncTarget_GetKernelMMRSize w) (Desegmenter_new archiveHeader))) (Some headerHash) [] 0 0 true (Some w)
  | _, _ => mkPIBD (Some (SetAppliedMMRSizes (SyncTarget_GetOutputMMRSize w) (SyncTarget_GetRangeProofMMRSize w)
                    (SyncTarget_GetKernelMMRSize w) (Desegmenter_new archiveHeader))) (Some headerHash) [] 0 0 true (Some w)
  end.

Definition ClearPIBDRequests : ST PIBD unit :=
  p ← st_get;
  _ ← (if 0 <? m_uncommittedPIBDSegments p then Commit_txHashSet else mret tt);
  st_modify (fun p => set_nextPeer 0 (set_uncommitted 0 (set_requests [] p))).

Definition AbortPIBD : ST PIBD unit :=
  p ← st_get;
  _ ← (if 0 <? m_uncommittedPIBDSegments p then Commit_txHashSet else mret tt);
  st_modify (fun p => mkPIBD None None [] 0 0 false (pp_txHashSet p)).

Definition IsPIBDComplete (p : PIBD) : bool :=
  match m_pDesegmenter p with Some d => m_allSegmentsComplete d | None => false end.
End pipe.
