(* ===== verification/PibdSpec.v ===== *)
(** * A sync with honest peers ends

    The pipeline, driven round by round by peers that answer every request with
    the segment asked for, gets the whole bitmap first and then outputs, range
    proofs and kernels, and reaches the state where everything is applied.  The
    number of rounds is bounded by the numbers of segments. *)
From stdpp Require Import strings.
From S2P Require Import Prelude BitUtil MMRIndex MMRUtil Serial BigInteger MMRHash SegmentId SegmentProof BitmapFile Bitmap Segment BitmapSegment SegmentTracker Segmenter Transaction Header Desegmenter DesegmenterSpec Pibd.

(** ** Requests on an empty list *)
Lemma if_same {A} (b : bool) (x : A) : (if b then x else x) = x.
Proof. by destruct b. Qed.

Lemma plan_requests_fresh now budget desired (count : Z) acc :
  count + length desired <= budget ->
  plan_requests now budget [] desired count (acc, []) = (acc ++ desired, []).
Proof.
  revert count acc. induction desired as [|r desired IH]; intros count acc Hl; cbn [plan_requests]; [by rewrite app_nil_r|].
  cbn [length] in Hl. cbn [IsPending existsb negb]. destruct (Z.ltb_spec count budget); [|lia].
  cbn [snd length]. change (Z.of_nat 0 >=? BLOCKING_SEGMENT_RETRY_COUNT) with false. rewrite andb_false_r.
  rewrite IH by lia. by rewrite <- app_assoc.
Qed.

Lemma plan_hedges_fresh now blockers pl : plan_hedges now [] blockers pl = pl.
Proof.
  induction blockers as [|r blockers IH]; cbn [plan_hedges]; [done|]. destruct pl as [l1 l2].
  destruct (_ >=? _); [done|]. cbn [IsPending existsb negb orb]. done.
Qed.

Lemma AddOrRefresh_new now r peer requests :
  r ∉ map pr_segment requests -> map pr_segment (AddOrRefresh now r peer requests) = map pr_segment requests ++ [r].
Proof.
  intros Hr. unfold AddOrRefresh. assert (refresh_first now r peer requests = None) as ->.
  { induction requests as [|x requests IH]; [done|]. cbn [refresh_first map] in *. apply not_elem_of_cons in Hr as [Hx Hr].
    rewrite is_request_spec, bool_decide_false by congruence. by rewrite IH. }
  by rewrite map_app.
Qed.

Lemma MarkReceived_segments r requests : map pr_segment (MarkReceived r requests) = List.filter (fun x => negb (bool_decide (x = r))) (map pr_segment requests).
Proof.
  induction requests as [|x requests IH]; [done|]. cbn [MarkReceived List.filter map]. unfold MarkReceived in IH.
  rewrite is_request_spec. case_bool_decide; cbn [negb map List.filter]; by rewrite IH.
Qed.

Lemma IsPending_spec r requests : IsPending r requests = bool_decide (r ∈ map pr_segment requests).
Proof.
  apply eq_true_iff_eq. unfold IsPending. rewrite existsb_exists, bool_decide_eq_true, list_elem_of_In, in_map_iff.
  split; intros (x & Hx1 & Hx2); exists x; rewrite is_request_spec, bool_decide_eq_true in *; naive_solver.
Qed.

Section send.
Context {OT PT KT W : Type}.
Local Abbreviation P := (PIBD (OT := OT) (PT := PT) (KT := KT) (W := W)).

(** Peers that take every request: each is registered, in order. *)
Lemma send_requests_all now peers l (idx : nat) (p : P) :
  peers <> [] -> NoDup (map pr_segment (m_segmentRequests p) ++ l) -> Forall (fun r => has_message r = true) l ->
  exists requests k, send_requests now (fun _ _ => true) peers [] l idx p =
      set_nextPeer k (set_requests requests p) /\
    map pr_segment requests = map pr_segment (m_segmentRequests p) ++ l.
Proof.
  intros Hp. revert idx p. induction l as [|r l IH]; intros idx p Hnd Hm.
  - exists (m_segmentRequests p), (m_pibdNextPeerIndex p). rewrite app_nil_r. by destruct p.
  - apply Forall_cons in Hm as [Hr Hm]. cbn [send_requests existsb]. rewrite Hr. cbn [negb].
    assert (exists peer, send_attempts (fun _ _ => true) peers (length peers) 0 idx None r = Some (0%nat, peer)) as [peer ->].
    { destruct peers as [|x peers]; [done|]. cbn [length send_attempts]. rewrite Nat.add_0_r.
      destruct (lookup_lt_is_Some_2 (x :: peers) (idx mod S (length peers))) as [peer E]; [apply Nat.mod_upper_bound; cbn; lia|].
      exists peer. cbn [length] in *. rewrite E. done. }
    rewrite NoDup_app in Hnd. destruct Hnd as (H1 & H2 & [H3 H4]%NoDup_cons).
    assert (r ∉ map pr_segment (m_segmentRequests p)) as Hnr by (intros Hx; apply (H2 r Hx); left).
    set (p1 := set_nextPeer _ (set_requests _ p)).
    destruct (IH ((idx + 0 + 1) mod length peers)%nat p1) as (requests & k & E & Es); [|done|].
    + cbn. rewrite AddOrRefresh_new by done. rewrite <- app_assoc. apply NoDup_app. split; [done|]. split; [done|]. by apply NoDup_cons.
    + exists requests, k. split; [rewrite E; done|]. rewrite Es. cbn. rewrite AddOrRefresh_new by done. by rewrite <- app_assoc.
Qed.
End send.

(** ** Segments left of a track *)
Definition segs_left (n h a : Z) : Z := if bool_decide (a = n) then 0 else (n + 2 ^ h - 1) / 2 ^ h - a / 2 ^ h.

Section segs_left.
Context (n h : Z).
Hypothesis n_range : 0 < n < 2 ^ 50.
Hypothesis h_range : 1 <= h < 50.

Lemma segs_left_pos a : 0 <= a < n -> 1 <= segs_left n h a.
Proof.
  intros Ha. pose proof (pow2_pos h ltac:(lia)). unfold segs_left. rewrite bool_decide_false by lia.
  pose proof (next_starts n h h_range a Ha).
  assert (a / 2 ^ h + 1 <= (n + 2 ^ h - 1) / 2 ^ h) by (apply Z.div_le_lower_bound; lia). lia.
Qed.

Lemma segs_left_zero a : 0 <= a <= n -> segs_left n h a <= 0 -> a = n.
Proof. intros Ha Hs. destruct (decide (a = n)); [done|]. pose proof (segs_left_pos a ltac:(lia)). lia. Qed.

Lemma segs_left_nonneg a : 0 <= a <= n -> 0 <= segs_left n h a.
Proof.
  intros Ha. destruct (decide (a = n)) as [->|]; [unfold segs_left; by rewrite bool_decide_true|].
  pose proof (segs_left_pos a ltac:(lia)). lia.
Qed.

Lemma segs_left_mono a a' : 0 <= a -> a <= a' <= n -> segs_left n h a' <= segs_left n h a.
Proof.
  intros Ha Ha'. pose proof (pow2_pos h ltac:(lia)). pose proof (segs_left_nonneg a ltac:(lia)) as Hnn. unfold segs_left in *.
  case_bool_decide; case_bool_decide; try lia.
  pose proof (Z.div_le_mono a a' (2 ^ h) ltac:(lia) ltac:(lia)). lia.
Qed.

Lemma segs_left_next a a' : 0 <= a < n -> seg_end n h (a / 2 ^ h) <= a' <= n -> segs_left n h a' <= segs_left n h a - 1.
Proof.
  intros Ha Ha'. pose proof (segs_left_pos a Ha) as Hp. pose proof (pow2_pos h ltac:(lia)).
  unfold segs_left in *. rewrite (bool_decide_false (a = n)) in * by lia. case_bool_decide; [lia|].
  unfold seg_end in Ha'. assert (a / 2 ^ h + 1 <= a' / 2 ^ h) by (apply Z.div_le_lower_bound; lia). lia.
Qed.
End segs_left.

(** ** A sync with honest peers *)
Section sync.
Context {OT PT KT W : Type} `{Serializable OT} `{Serializable PT} `{Serializable KT} `{SyncTarget OT PT KT W}.
Context (Blake2b : bytes -> Hash).
Context (hd : BlockHeader) (chunks : list BitmapChunk) (acc : BitmapAccumulator) (nO nK : Z) (blockHash : Hash).
Local Abbreviation DG := (Desegmenter OT PT KT).
Local Abbreviation P := (PIBD (OT := OT) (PT := PT) (KT := KT) (W := W)).
Local Abbreviation nB := (Z.of_nat (length chunks)).

Implicit Types (p : P) (d : DG) (w : W).

(** The segments peers answer with, by index, and what the hash set makes of
    them: [J aO aP aK w] says that [w] has the first [aO] outputs, [aP] range
    proofs and [aK] kernels, and [synced w] that its leaf sets follow the bitmap
    besides. *)
Context (serveB : Z -> BitmapSegment * Hash) (serveO : Z -> Segment OT) (serveP : Z -> Segment PT) (serveK : Z -> Segment KT).
Context (J : Z -> Z -> Z -> W -> Prop) (synced : W -> Prop).

Record honest_peers : Prop := {
  hp_bitmap : forall k, 0 <= k -> k * 2 ^ 9 < nB ->
    exists s, bitmap_valid Blake2b hd chunks nO (serveB k).1 (serveB k).2 s /\ sg_id s = mkSegmentIdentifier 9 k /\
      m_identifier (serveB k).1 = mkSegmentIdentifier 9 k;
  hp_output : forall k, 0 <= k -> k * 2 ^ 11 < nO -> sg_id (serveO k) = mkSegmentIdentifier 11 k /\ output_valid Blake2b hd acc nO (serveO k);
  hp_rangeProof : forall k, 0 <= k -> k * 2 ^ 11 < nO ->
    sg_id (serveP k) = mkSegmentIdentifier 11 k /\ rangeProof_valid Blake2b hd acc nO (serveP k);
  hp_kernel : forall k, 0 <= k -> k * 2 ^ 11 < nK -> sg_id (serveK k) = mkSegmentIdentifier 11 k /\ kernel_valid Blake2b hd nK (serveK k);
}.

(** The hash set applies these segments. *)
Record applies_segments : Prop := {
  as_output : forall aO aP aK w, 0 <= aO < nO -> J aO aP aK w ->
    exists w', ApplyOutputSegment (serveO (aO / 2 ^ 11)) (mmr_size nO) acc w = (Ok true, w') /\ J (seg_end nO 11 (aO / 2 ^ 11)) aP aK w';
  as_rangeProof : forall aO aP aK w, 0 <= aP < nO -> J aO aP aK w ->
    exists w', ApplyRangeProofSegment (serveP (aP / 2 ^ 11)) (mmr_size nO) acc w = (Ok true, w') /\ J aO (seg_end nO 11 (aP / 2 ^ 11)) aK w';
  as_kernel : forall aO aP aK w, 0 <= aK < nK -> J aO aP aK w ->
    exists w', ApplyKernelSegment (serveK (aK / 2 ^ 11)) (mmr_size nK) w = (Ok true, w') /\ J aO aP (seg_end nK 11 (aK / 2 ^ 11)) w';
  as_commit : forall aO aP aK w, J aO aP aK w -> exists w', SyncTarget_Commit w = (Ok tt, w') /\ J aO aP aK w' /\ (synced w -> synced w');
  as_leafSets : forall w, J nO nO nK w ->
    J nO nO nK (UpdateLeafSets acc (GetNumOutputs hd) w) /\ synced (UpdateLeafSets acc (GetNumOutputs hd) w);
}.

(** The answer to a request. *)
Definition answer (r : SegmentTypeIdentifier) : ST P unit :=
  let k := seg_index (sti_identifier r) in
  match m_segmentType r with
  | STOutputBitmap => ReceiveOutputBitmapSegment Blake2b true blockHash (serveB k).1 (serveB k).2
  | STOutput => ReceiveOutputSegment Blake2b true blockHash (serveO k) []
  | STRangeProof => ReceiveRangeProofSegment Blake2b true blockHash (serveP k)
  | STKernel => ReceiveKernelSegment Blake2b true blockHash (serveK k)
  | STOther _ => mret tt
  end.

Fixpoint answer_all (l : list SegmentTypeIdentifier) : ST P unit :=
  match l with
  | [] => mret tt
  | r :: l => _ ← answer r; answer_all l
  end.

(** A round: a turn of the pipeline at time [now] with the given peers, who
    take every request; then the answers, in the order of [order]. *)
Definition sync_round (order : list SegmentTypeIdentifier -> list SegmentTypeIdentifier) (now : Z) (peers : list (option string)) : ST P unit :=
  _ ← RequestNextPIBDSegments now (fun _ _ => true) peers;
  p ← st_get;
  answer_all (order (map pr_segment (m_segmentRequests p))).

Fixpoint sync_rounds (order : list SegmentTypeIdentifier -> list SegmentTypeIdentifier) (rounds : list (Z * list (option string))) : ST P unit :=
  match rounds with
  | [] => mret tt
  | (now, peers) :: rounds => _ ← sync_round order now peers; sync_rounds order rounds
  end.

Hypothesis Blake2b_length : forall x, length (Blake2b x) = 32%nat.
Hypothesis Hc : header_commits Blake2b hd chunks acc nO nK.
Hypothesis Hpeers : honest_peers.
Hypothesis Happly : applies_segments.

Definition goodO (s : Segment OT) : Prop := exists k, s = serveO k /\ 0 <= k /\ k * 2 ^ 11 < nO.
Definition goodP (s : Segment PT) : Prop := exists k, s = serveP k /\ 0 <= k /\ k * 2 ^ 11 < nO.
Definition goodK (s : Segment KT) : Prop := exists k, s = serveK k /\ 0 <= k /\ k * 2 ^ 11 < nK.

Local Abbreviation dg_ok := (dg_ok Blake2b hd chunks nO nK goodO goodP goodK).

Record pipe_ok (aB aO aP aK : Z) (d : DG) (w : W) (p : P) : Prop := {
  po_desegmenter : m_pDesegmenter p = Some d;
  po_hash : m_pibdBlockHash p = Some blockHash;
  po_txHashSet : pp_txHashSet p = Some w;
  po_dg : dg_ok aB aO aP aK d;
  po_incomplete : aB <> nB -> m_allSegmentsComplete d = false;
  po_world : J aO aP aK w;
}.

Lemma output_good s aO aP aK w :
  0 <= aO < nO -> goodO s -> sg_id s = mkSegmentIdentifier 11 (aO / 2 ^ 11) -> J aO aP aK w ->
  exists w', ApplyOutputSegment s (mmr_size nO) acc w = (Ok true, w') /\ J (seg_end nO 11 (aO / 2 ^ 11)) aP aK w'.
Proof.
  intros Ha (k & -> & Hk & Hr) Eid HJ. destruct (hp_output Hpeers k Hk Hr) as [Ek _]. rewrite Ek in Eid. injection Eid as ->.
  by apply (as_output Happly).
Qed.

Lemma rangeProof_good s aO aP aK w :
  0 <= aP < nO -> goodP s -> sg_id s = mkSegmentIdentifier 11 (aP / 2 ^ 11) -> J aO aP aK w ->
  exists w', ApplyRangeProofSegment s (mmr_size nO) acc w = (Ok true, w') /\ J aO (seg_end nO 11 (aP / 2 ^ 11)) aK w'.
Proof.
  intros Ha (k & -> & Hk & Hr) Eid HJ. destruct (hp_rangeProof Hpeers k Hk Hr) as [Ek _]. rewrite Ek in Eid. injection Eid as ->.
  by apply (as_rangeProof Happly).
Qed.

Lemma kernel_good s aO aP aK w :
  0 <= aK < nK -> goodK s -> sg_id s = mkSegmentIdentifier 11 (aK / 2 ^ 11) -> J aO aP aK w ->
  exists w', ApplyKernelSegment s (mmr_size nK) w = (Ok true, w') /\ J aO aP (seg_end nK 11 (aK / 2 ^ 11)) w'.
Proof.
  intros Ha (k & -> & Hk & Hr) Eid HJ. destruct (hp_kernel Hpeers k Hk Hr) as [Ek _]. rewrite Ek in Eid. injection Eid as ->.
  by apply (as_kernel Happly).
Qed.

(** *** Answers *)

(** Is the segment that [r] asks for applied or cached? *)
Definition have {D} (n h a : Z) (cache : list (Segment D)) (k : Z) : Prop := seg_end n h k <= a \/ cached cache k <> None.

Definition satisfied (aB aO aP aK : Z) (d : DG) (r : SegmentTypeIdentifier) : Prop :=
  let k := seg_index (sti_identifier r) in
  match m_segmentType r with
  | STOutputBitmap => have nB 9 aB (m_bitmapSegments d) k
  | STOutput => have nO 11 aO (m_outputSegments d) k
  | STRangeProof => have nO 11 aP (m_rangeProofSegments d) k
  | STKernel => have nK 11 aK (m_kernelSegments d) k
  | STOther _ => True
  end.

(** Requests the pipeline makes: of a known type and height, inside the MMR;
    outputs and range proofs once the bitmap is there. *)
Definition proper (aB : Z) (r : SegmentTypeIdentifier) : Prop :=
  let k := seg_index (sti_identifier r) in
  0 <= k /\
  match m_segmentType r with
  | STOutputBitmap => seg_height (sti_identifier r) = 9 /\ k * 2 ^ 9 < nB
  | STOutput | STRangeProof => seg_height (sti_identifier r) = 11 /\ k * 2 ^ 11 < nO /\ aB = nB
  | STKernel => seg_height (sti_identifier r) = 11 /\ k * 2 ^ 11 < nK
  | STOther _ => False
  end.
Lemma hash_matches : BigInteger_neq blockHash blockHash = false.
Proof. unfold BigInteger_neq. rewrite BigInteger_eq_spec by done. by rewrite bool_decide_true. Qed.

(** What the handlers do with a request under way. *)
Lemma Receive_applied (p : P) (d : DG) r add after :
  m_pDesegmenter p = Some d -> m_pibdBlockHash p = Some blockHash -> IsApplied r d = true ->
  Receive true blockHash r add after p = (Ok tt, set_requests (MarkReceived r (m_segmentRequests p)) p).
Proof.
  intros Ed Eh Ea. unfold Receive, mbind, ST_bind, st_get. rewrite Ed, Eh. rewrite hash_matches. cbn [negb]. by rewrite Ea.
Qed.

Lemma Receive_added (p : P) (d d1 d2 : DG) r add after :
  m_pDesegmenter p = Some d -> m_pibdBlockHash p = Some blockHash -> IsPending r (m_segmentRequests p) = true ->
  IsApplied r d = false -> add d = (Ok true, d1) -> after d1 = (Ok tt, d2) ->
  Receive true blockHash r add after p =
    (Ok tt, set_desegmenter d2 (set_requests (MarkReceived r (m_segmentRequests p)) p)).
Proof.
  intros Ed Eh Ep Ea E1 E2. unfold Receive, mbind, ST_bind, st_get. rewrite Ed, Eh. rewrite hash_matches. cbn [negb]. rewrite Ea, Ep. cbn [negb]. unfold on_desegmenter, MarkReceived_segment, st_modify. rewrite Ed, E1. cbn. by rewrite E2.
Qed.

Lemma apply_bitmaps_ok fuel aB aO aP aK d :
  (length (m_bitmapSegments d) < fuel)%nat -> dg_ok aB aO aP aK d ->
  exists aB' d', apply_bitmaps Blake2b fuel d = (Ok tt, d') /\ dg_ok aB' aO aP aK d' /\ aB <= aB' /\
    (forall k, 0 <= k -> have nB 9 aB (m_bitmapSegments d) k -> have nB 9 aB' (m_bitmapSegments d') k) /\
    (aB' = nB \/ cached (m_bitmapSegments d') (aB' / 2 ^ 9) = None) /\
    m_outputSegments d' = m_outputSegments d /\ m_rangeProofSegments d' = m_rangeProofSegments d /\
    m_kernelSegments d' = m_kernelSegments d /\ m_allSegmentsComplete d' = m_allSegmentsComplete d.
Proof.
  revert aB d. induction fuel as [|fuel IH]; intros aB d Hf Hd; [lia|].
  pose proof (nB_range Blake2b hd chunks acc nO nK Hc) as HnB.
  pose proof (do_bitmap _ _ _ _ _ _ _ _ _ _ _ _ _ Hd) as [Ha Hcb _ _].
  cbn [apply_bitmaps]. unfold mbind, ST_bind. destruct (decide (aB = nB \/ cached (m_bitmapSegments d) (aB / 2 ^ 9) = None)) as [Hn|Hn].
  - erewrite ApplyNextBitmapSegment_none by eassumption. exists aB, d. split; [done|]. split; [done|]. split; [lia|]. done.
  - assert (aB < nB) as Hlt by (destruct (decide (aB = nB)); [tauto|lia]).
    destruct (find_by_index (m_bitmapSegments d) (aB / 2 ^ 9)) as [[i s]|] eqn:E; [|exfalso; apply Hn; right; unfold cached; by rewrite E].
    destruct (ApplyNextBitmapSegment_ok Blake2b hd chunks acc nO nK goodO goodP goodK Hc Blake2b_length aB aO aP aK d i s Hd Hlt E)
      as (a' & E' & Hd').
    rewrite E'. cbv zeta in Hd'. set (d1 := set_bitmap _ _ _ _ _) in *.
    pose proof (find_by_index_Some _ _ _ _ E) as [Ei _]. pose proof (seg_end_next nB 9 ltac:(lia) aB ltac:(lia)).
    destruct (IH (seg_end nB 9 (aB / 2 ^ 9)) d1) as (aB' & d' & E1 & Hd1 & Hle & Hh & Hi & R); [|exact Hd'|].
    + cbn. rewrite length_delete by (by eexists). apply lookup_lt_Some in Ei. lia.
    + exists aB', d'. rewrite E1. split; [done|]. split; [done|]. split; [lia|]. split; [|split; [done|exact R]].
      intros k Hk Hv. apply Hh; [done|]. unfold have in *. change (m_bitmapSegments d1) with (delete i (m_bitmapSegments d)).
      pose proof (cached_delete (m_bitmapSegments d) _ i s k (co_unique _ _ _ _ Hcb) E) as Ec. rewrite Ec.
      destruct (Z.eqb_spec k (aB / 2 ^ 9)) as [->|]; [left; lia|]. destruct Hv; [left; lia|by right].
Qed.
(** An answer is taken: the segment is cached or applied, nothing is lost, and
    the request is no longer pending. *)
Definition round_keeps aB aO aP aK (d : DG) aB' (d' : DG) : Prop :=
  aB <= aB' /\ (forall r, 0 <= seg_index (sti_identifier r) -> satisfied aB aO aP aK d r -> satisfied aB' aO aP aK d' r) /\
  (aB = nB \/ cached (m_bitmapSegments d) (aB / 2 ^ 9) = None -> aB' = nB \/ cached (m_bitmapSegments d') (aB' / 2 ^ 9) = None).

Lemma round_keeps_refl aB aO aP aK d : round_keeps aB aO aP aK d aB d.
Proof. split; [lia|]. done. Qed.

Lemma round_keeps_trans aB aO aP aK d1 aB2 d2 aB3 d3 :
  round_keeps aB aO aP aK d1 aB2 d2 -> round_keeps aB2 aO aP aK d2 aB3 d3 -> round_keeps aB aO aP aK d1 aB3 d3.
Proof. intros (A1 & A2 & A3) (B1 & B2 & B3). split; [lia|]. split; [|tauto]. intros r Hr Hs. by apply B2, A2. Qed.

(** The four kinds of answers have this in common. *)
Record answered aB aO aP aK d w p r aB' (d' : DG) (p' : P) : Prop := {
  an_ok : pipe_ok aB' aO aP aK d' w p';
  an_requests : m_segmentRequests p' = MarkReceived r (m_segmentRequests p);
  an_satisfied : satisfied aB' aO aP aK d' r;
  an_keeps : round_keeps aB aO aP aK d aB' d';
}.

Lemma answered_applied aB aO aP aK d w p r add after :
  pipe_ok aB aO aP aK d w p -> IsApplied r d = true -> satisfied aB aO aP aK d r ->
  exists aB' d' p', Receive true blockHash r add after p = (Ok tt, p') /\ answered aB aO aP aK d w p r aB' d' p'.
Proof.
  intros [E1 E2 E3 E4 E5 E6] Ha Hs. exists aB, d, (set_requests (MarkReceived r (m_segmentRequests p)) p).
  split; [by apply (Receive_applied p d)|]. constructor; [by constructor|done|done|apply round_keeps_refl].
Qed.

Lemma answered_added aB aO aP aK d w p r add after d1 aB' d' :
  pipe_ok aB aO aP aK d w p -> IsPending r (m_segmentRequests p) = true -> IsApplied r d = false ->
  add d = (Ok true, d1) -> after d1 = (Ok tt, d') -> dg_ok aB' aO aP aK d' ->
  m_allSegmentsComplete d' = m_allSegmentsComplete d -> satisfied aB' aO aP aK d' r -> round_keeps aB aO aP aK d aB' d' ->
  exists aB' d' p', Receive true blockHash r add after p = (Ok tt, p') /\ answered aB aO aP aK d w p r aB' d' p'.
Proof.
  intros [E1 E2 E3 E4 E5 E6] Hp Ha Ea Eb Hd Hf Hs Hk.
  exists aB', d', (set_desegmenter d' (set_requests (MarkReceived r (m_segmentRequests p)) p)).
  split; [by apply (Receive_added p d d1)|]. constructor; [|done..]. constructor; try done. cbn. intros Hne.
  rewrite Hf. apply E5. destruct Hk as [Hle _]. pose proof (do_bitmap _ _ _ _ _ _ _ _ _ _ _ _ _ Hd) as [? _ _ _]. lia.
Qed.
(** A track whose cache takes a segment still has what it had. *)
Lemma have_cache {D} n h (good : Segment D -> Prop) a applied cache s k :
  0 <= n < 2 ^ 50 -> 1 <= h < 50 -> track_ok n h good a applied cache -> good s -> sg_id s = mkSegmentIdentifier h k ->
  0 <= k -> k * 2 ^ h < n -> a < seg_end n h k ->
  have n h a (CacheSegment cache s) k /\ forall j, have n h a cache j -> have n h a (CacheSegment cache s) j.
Proof.
  intros Hn Hh HT Hg Eid Hk Hr Hw. destruct (CacheSegment_ok n h good Hn Hh a applied cache s k HT Hg Eid Hk Hr Hw) as [_ E].
  split.
  - right. rewrite E. destruct (cached cache k); [done|]. by rewrite Z.eqb_refl.
  - intros j [Hj|Hj]; [by left|right]. rewrite E. by destruct (cached cache j).
Qed.

Lemma applied_or_not {D} n h (good : Segment D -> Prop) a applied cache k :
  0 <= n < 2 ^ 50 -> 1 <= h < 50 -> track_ok n h good a applied cache -> 0 <= k -> k * 2 ^ h < n ->
  IsSegmentApplied (mkSegmentIdentifier h k) (mmr_size n) applied = (seg_end n h k <=? a).
Proof. intros Hn Hh [Ha _ _ ->] Hk Hr. apply IsSegmentApplied_ok; lia. Qed.

Lemma answer_bitmap aB aO aP aK d w p k :
  pipe_ok aB aO aP aK d w p -> 0 <= k -> k * 2 ^ 9 < nB ->
  let r := mkSegmentTypeIdentifier STOutputBitmap (mkSegmentIdentifier 9 k) in
  IsPending r (m_segmentRequests p) = true ->
  exists aB' d' p', answer r p = (Ok tt, p') /\ answered aB aO aP aK d w p r aB' d' p'.
Proof.
  intros Hok Hk Hr r Hp. pose proof Hok as [E1 E2 E3 Hd E5 E6]. pose proof (nB_range Blake2b hd chunks acc nO nK Hc) as HnB.
  pose proof Hd as [D1 D2 _ _ _ _ TB _ _ _]. destruct (hp_bitmap Hpeers k Hk Hr) as (s & Hv & Eid & Eid').
  pose proof (applied_or_not nB 9 _ aB _ _ k ltac:(lia) ltac:(lia) TB Hk Hr) as Ea.
  unfold answer, ReceiveOutputBitmapSegment. cbn [m_segmentType sti_identifier seg_index r]. rewrite Eid'. fold r.
  destruct (Z.leb_spec (seg_end nB 9 k) aB) as [Hle|Hlt].
  - apply answered_applied; [done| |left; done]. unfold IsApplied, r. cbn [m_segmentType sti_identifier]. by rewrite D2.
  - destruct (AddBitmapSegment_ok Blake2b hd chunks acc nO nK goodO goodP goodK Hc aB aO aP aK d _ (serveB k).2 s k Hd Hv Eid Hk Hr Hlt)
      as [Eadd Hd1]. cbv zeta in Hd1. set (d1 := set_bitmap _ _ _ _ _) in *.
    destruct (have_cache nB 9 _ aB _ _ s k ltac:(lia) ltac:(lia) TB (proj1 (proj2 Hv)) Eid Hk Hr Hlt) as [Hs Hh].
    destruct (apply_bitmaps_ok (S (length (m_bitmapSegments d1))) aB aO aP aK d1 ltac:(lia) Hd1)
      as (aB' & d' & Eap & Hd' & Hle & Hh' & Hi & Q1 & Q2 & Q3 & Q4).
    eapply answered_added; [done|exact Hp| |exact Eadd|exact Eap|exact Hd'|by rewrite Q4| |].
    + unfold IsApplied, r. cbn [m_segmentType sti_identifier]. rewrite D2. apply Ea.
    + cbn. by apply Hh'.
    + split; [done|]. split; [|done]. intros r' Hr'. unfold satisfied. rewrite Q1, Q2, Q3.
      destruct (m_segmentType r'); try done. intros Hx. apply Hh'; [done|]. by apply Hh.
Qed.

Lemma answer_output aO aP aK d w p k :
  pipe_ok nB aO aP aK d w p -> 0 <= k -> k * 2 ^ 11 < nO ->
  let r := mkSegmentTypeIdentifier STOutput (mkSegmentIdentifier 11 k) in
  IsPending r (m_segmentRequests p) = true ->
  exists aB' d' p', answer r p = (Ok tt, p') /\ answered nB aO aP aK d w p r aB' d' p'.
Proof.
  intros Hok Hk Hr r Hp. pose proof Hok as [E1 E2 E3 Hd E5 E6]. pose proof (hc_nO _ _ _ _ _ _ Hc) as HnO.
  pose proof Hd as [D1 D2 _ _ _ _ _ TO _ _]. destruct (hp_output Hpeers k Hk Hr) as [Eid Hv].
  pose proof (applied_or_not nO 11 _ aO _ _ k ltac:(lia) ltac:(lia) TO Hk Hr) as Ea.
  assert (IsApplied r d = (seg_end nO 11 k <=? aO)) as Er.
  { unfold IsApplied, r, outputMMRSize. cbn [m_segmentType sti_identifier]. by rewrite D1, (hc_outputs _ _ _ _ _ _ Hc). }
  unfold answer, ReceiveOutputSegment. cbn [m_segmentType sti_identifier seg_index r]. rewrite Eid. fold r.
  assert (goodO (serveO k)) as Hg by (by exists k).
  destruct (Z.leb_spec (seg_end nO 11 k) aO) as [Hle|Hlt].
  - apply answered_applied; [done|done|left; done].
  - destruct (AddOutputSegment_ok Blake2b hd chunks acc nO nK goodO goodP goodK Hc aO aP aK d _ [] k Hd Hg Hv Eid Hk Hr Hlt) as [Eadd Hd1].
    destruct (have_cache nO 11 _ aO _ _ _ k ltac:(lia) ltac:(lia) TO Hg Eid Hk Hr Hlt) as [Hs Hh].
    eapply answered_added; [done|exact Hp|exact Er|exact Eadd|done|exact Hd1|done|exact Hs|].
    split; [lia|]. split; [|done]. intros r' Hr'. unfold satisfied. destruct (m_segmentType r'); try done. apply Hh.
Qed.

Lemma answer_rangeProof aO aP aK d w p k :
  pipe_ok nB aO aP aK d w p -> 0 <= k -> k * 2 ^ 11 < nO ->
  let r := mkSegmentTypeIdentifier STRangeProof (mkSegmentIdentifier 11 k) in
  IsPending r (m_segmentRequests p) = true ->
  exists aB' d' p', answer r p = (Ok tt, p') /\ answered nB aO aP aK d w p r aB' d' p'.
Proof.
  intros Hok Hk Hr r Hp. pose proof Hok as [E1 E2 E3 Hd E5 E6]. pose proof (hc_nO _ _ _ _ _ _ Hc) as HnO.
  pose proof Hd as [D1 D2 _ _ _ _ _ _ TP _]. destruct (hp_rangeProof Hpeers k Hk Hr) as [Eid Hv].
  pose proof (applied_or_not nO 11 _ aP _ _ k ltac:(lia) ltac:(lia) TP Hk Hr) as Ea.
  assert (IsApplied r d = (seg_end nO 11 k <=? aP)) as Er.
  { unfold IsApplied, r, outputMMRSize. cbn [m_segmentType sti_identifier]. by rewrite D1, (hc_outputs _ _ _ _ _ _ Hc). }
  unfold answer, ReceiveRangeProofSegment. cbn [m_segmentType sti_identifier seg_index r]. rewrite Eid. fold r.
  assert (goodP (serveP k)) as Hg by (by exists k).
  destruct (Z.leb_spec (seg_end nO 11 k) aP) as [Hle|Hlt].
  - apply answered_applied; [done|done|left; done].
  - destruct (AddRangeProofSegment_ok Blake2b hd chunks acc nO nK goodO goodP goodK Hc aO aP aK d _ k Hd Hg Hv Eid Hk Hr Hlt) as [Eadd Hd1].
    destruct (have_cache nO 11 _ aP _ _ _ k ltac:(lia) ltac:(lia) TP Hg Eid Hk Hr Hlt) as [Hs Hh].
    eapply answered_added; [done|exact Hp|exact Er|exact Eadd|done|exact Hd1|done|exact Hs|].
    split; [lia|]. split; [|done]. intros r' Hr'. unfold satisfied. destruct (m_segmentType r'); try done. apply Hh.
Qed.

Lemma answer_kernel aB aO aP aK d w p k :
  pipe_ok aB aO aP aK d w p -> 0 <= k -> k * 2 ^ 11 < nK ->
  let r := mkSegmentTypeIdentifier STKernel (mkSegmentIdentifier 11 k) in
  IsPending r (m_segmentRequests p) = true ->
  exists aB' d' p', answer r p = (Ok tt, p') /\ answered aB aO aP aK d w p r aB' d' p'.
Proof.
  intros Hok Hk Hr r Hp. pose proof Hok as [E1 E2 E3 Hd E5 E6]. pose proof (hc_nK _ _ _ _ _ _ Hc) as HnK.
  pose proof Hd as [D1 D2 _ _ _ _ _ _ _ TK]. destruct (hp_kernel Hpeers k Hk Hr) as [Eid Hv].
  pose proof (applied_or_not nK 11 _ aK _ _ k ltac:(lia) ltac:(lia) TK Hk Hr) as Ea.
  assert (IsApplied r d = (seg_end nK 11 k <=? aK)) as Er.
  { unfold IsApplied, r, kernelMMRSize. cbn [m_segmentType sti_identifier]. by rewrite D1, (hc_kernels _ _ _ _ _ _ Hc). }
  unfold answer, ReceiveKernelSegment. cbn [m_segmentType sti_identifier seg_index r]. rewrite Eid. fold r.
  assert (goodK (serveK k)) as Hg by (by exists k).
  destruct (Z.leb_spec (seg_end nK 11 k) aK) as [Hle|Hlt].
  - apply answered_applied; [done|done|left; done].
  - destruct (AddKernelSegment_ok Blake2b hd chunks acc nO nK goodO goodP goodK Hc aB aO aP aK d _ k Hd Hg Hv Eid Hk Hr Hlt) as [Eadd Hd1].
    destruct (have_cache nK 11 _ aK _ _ _ k ltac:(lia) ltac:(lia) TK Hg Eid Hk Hr Hlt) as [Hs Hh].
    eapply answered_added; [done|exact Hp|exact Er|exact Eadd|done|exact Hd1|done|exact Hs|].
    split; [lia|]. split; [|done]. intros r' Hr'. unfold satisfied. destruct (m_segmentType r'); try done. apply Hh.
Qed.

Lemma answer_ok aB aO aP aK d w p r :
  pipe_ok aB aO aP aK d w p -> proper aB r -> IsPending r (m_segmentRequests p) = true ->
  exists aB' d' p', answer r p = (Ok tt, p') /\ answered aB aO aP aK d w p r aB' d' p'.
Proof.
  intros Hok. destruct r as [t [h k]]. unfold proper. cbn [sti_identifier m_segmentType seg_index seg_height].
  destruct t; [intros (Hk & -> & Hr)|intros (Hk & -> & Hr & Hb)|intros (Hk & -> & Hr & Hb)|intros (Hk & -> & Hr)|intros [_ []]]; intros Hp.
  - by apply answer_bitmap.
  - subst aB. by apply answer_output.
  - subst aB. by apply answer_rangeProof.
  - by apply answer_kernel.
Qed.

(** All of them. *)
Lemma answer_all_ok l aB aO aP aK d w p :
  pipe_ok aB aO aP aK d w p -> Forall (proper aB) l -> NoDup l -> (forall r, r ∈ l -> r ∈ map pr_segment (m_segmentRequests p)) ->
  exists aB' d' p', answer_all l p = (Ok tt, p') /\ pipe_ok aB' aO aP aK d' w p' /\ round_keeps aB aO aP aK d aB' d' /\
    (forall r, r ∈ l -> satisfied aB' aO aP aK d' r) /\
    (forall r, r ∈ map pr_segment (m_segmentRequests p') <-> r ∈ map pr_segment (m_segmentRequests p) /\ r ∉ l).
Proof.
  revert aB d p. induction l as [|r l IH]; intros aB d p Hok Hl Hnd Hp.
  - exists aB, d, p. split; [done|]. split; [done|]. split; [apply round_keeps_refl|]. split; [by intros r ?%elem_of_nil|].
    intros r. rewrite elem_of_nil. tauto.
  - apply Forall_cons in Hl as [Hr Hl]. apply NoDup_cons in Hnd as [Hni Hnd].
    destruct (answer_ok aB aO aP aK d w p r Hok Hr) as (aB1 & d1 & p1 & E & [Hok1 Erq Hs Hk]).
    { rewrite IsPending_spec, bool_decide_eq_true. apply Hp. left. }
    assert (forall x, x ∈ map pr_segment (m_segmentRequests p1) <-> x ∈ map pr_segment (m_segmentRequests p) /\ x <> r) as Hrq.
    { intros x. rewrite Erq, MarkReceived_segments, !list_elem_of_In, filter_In, negb_true_iff, bool_decide_eq_false. done. }
    destruct (IH aB1 d1 p1 Hok1) as (aB' & d' & p' & E' & Hok' & Hk' & Hs' & Hrq').
    + eapply Forall_impl; [exact Hl|]. intros [t [h k]]. unfold proper. destruct Hk as [Hle _].
      pose proof (do_bitmap _ _ _ _ _ _ _ _ _ _ _ _ _ (po_dg _ _ _ _ _ _ _ Hok1)) as [? _ _ _]. cbn [m_segmentType sti_identifier seg_index seg_height].
      assert (aB = nB -> aB1 = nB) by lia. destruct t; tauto.
    + done.
    + intros x Hx. apply Hrq. split; [apply Hp; by right|]. by intros ->.
    + exists aB', d', p'. cbn [answer_all]. unfold mbind, ST_bind. rewrite E, E'. split; [done|]. split; [done|].
      split; [by eapply round_keeps_trans|]. split.
      * intros x [->|Hx]%elem_of_cons; [|by apply Hs']. apply Hk'; [apply Hr|done].
      * intros x. rewrite Hrq', Hrq, not_elem_of_cons. tauto.
Qed.
(** *** The turn of the pipeline *)
Lemma requestable_proper aB aO aP aK d r : requestable chunks nO nK aB aO aP aK d r -> proper aB r /\ has_message r = true.
Proof.
  unfold requestable. case_bool_decide as Eb.
  - intros [(j & -> & Hj & Hr & _)|[(j & -> & Hj & Hr & _)|(j & -> & Hj & Hr & _)]]; (split; [|done]); split; done.
  - intros (j & -> & Hj & Hr & _). split; [|done]. by split.
Qed.

Definition same_caches d d' : Prop :=
  m_bitmapSegments d' = m_bitmapSegments d /\ m_outputSegments d' = m_outputSegments d /\
  m_rangeProofSegments d' = m_rangeProofSegments d /\ m_kernelSegments d' = m_kernelSegments d.

Lemma same_caches_satisfied aB aO aP aK d d' r : same_caches d d' -> satisfied aB aO aP aK d r -> satisfied aB aO aP aK d' r.
Proof. intros (E1 & E2 & E3 & E4). unfold satisfied. by rewrite E1, E2, E3, E4. Qed.

Lemma request_missing_ok aB aO aP aK d w p now requestPeers :
  pipe_ok aB aO aP aK d w p -> m_segmentRequests p = [] -> requestPeers <> [] ->
  exists d' p', request_missing now (fun _ _ => true) requestPeers p = (Ok tt, p') /\ pipe_ok aB aO aP aK d' w p' /\
    same_caches d d' /\ NoDup (map pr_segment (m_segmentRequests p')) /\ Forall (proper aB) (map pr_segment (m_segmentRequests p')) /\
    (forall r, r ∈ GetBlockingSegments d -> r ∈ map pr_segment (m_segmentRequests p')).
Proof.
  intros [E1 E2 E3 Hd E5 E6] Er Hp. unfold request_missing. rewrite E1, Er. cbn [length].
  change (Z.of_nat 0 <? SEGMENT_REQUEST_COUNT) with true. change (SEGMENT_REQUEST_COUNT - Z.of_nat 0) with 15.
  change (SEGMENT_REQUEST_COUNT + Z.of_nat 0) with 15.
  pose proof (NextDesiredSegments_ok Blake2b hd chunks acc nO nK goodO goodP goodK Hc aB aO aP aK d 15 Hd ltac:(lia)) as Hn.
  destruct (NextDesiredSegments 15 d) as [l d']. destruct Hn as (Hnd & Hl & Hf & Hb & Hd' & Q1 & Q2 & Q3 & Q4 & Q5 & Q6).
  rewrite plan_requests_fresh by lia. rewrite plan_hedges_fresh. cbn [app].
  rewrite if_same. cbn [fst snd].
  set (p1 := set_desegmenter d' p). set (idx := (Z.to_nat _ mod _)%nat).
  destruct (send_requests_all now requestPeers l idx p1 Hp) as (requests & k & -> & Es).
  - cbn. by rewrite Er.
  - eapply Forall_impl; [exact Hf|]. intros r R. by apply requestable_proper in R as [_ R].
  - cbn [m_segmentRequests set_desegmenter p1] in Es. rewrite Er in Es. cbn [map app] in Es.
    exists d', (set_nextPeer k (set_requests requests p1)). split; [done|]. cbn. rewrite Es.
    split; [|split; [by split|split; [done|split; [|done]]]].
    + constructor; try done. intros Hne. cbn. rewrite Q6 by done. by apply E5.
    + eapply Forall_impl; [exact Hf|]. intros r R. by apply requestable_proper in R as [R _].
Qed.

Lemma Commit_txHashSet_ok aB aO aP aK d w p :
  pipe_ok aB aO aP aK d w p ->
  exists w', Commit_txHashSet p = (Ok tt, set_txHashSet w' p) /\ pipe_ok aB aO aP aK d w' (set_txHashSet w' p) /\
    (synced w -> synced w').
Proof.
  intros [E1 E2 E3 Hd E5 E6]. destruct (as_commit Happly aO aP aK w E6) as (w' & E & HJ & HS). exists w'.
  unfold Commit_txHashSet. rewrite E3, E. split; [done|]. split; [by constructor|done].
Qed.

Lemma set_uncommitted_ok aB aO aP aK d w p n : pipe_ok aB aO aP aK d w p -> pipe_ok aB aO aP aK d w (set_uncommitted n p).
Proof. intros []. by constructor. Qed.

Lemma commit_threshold_ok aB aO aP aK d w p :
  pipe_ok aB aO aP aK d w p ->
  exists w' p', commit_threshold p = (Ok tt, p') /\ pipe_ok aB aO aP aK d w' p' /\ m_segmentRequests p' = m_segmentRequests p.
Proof.
  intros Hok. unfold commit_threshold, mbind, ST_bind, st_get. destruct (_ >=? _).
  - destruct (Commit_txHashSet_ok _ _ _ _ _ _ _ Hok) as (w' & -> & Hok' & _). exists w', (set_uncommitted 0 (set_txHashSet w' p)).
    split; [done|]. split; [by apply set_uncommitted_ok|done].
  - by exists w, p.
Qed.

(** What is ready is applied, whatever is left. *)
Lemma apply_ready_ok aB aO aP aK d w p :
  pipe_ok aB aO aP aK d w p ->
  exists c aO' aP' aK' d' w' p', apply_ready p = (Ok (Some c), p') /\ pipe_ok aB aO' aP' aK' d' w' p' /\
    m_segmentRequests p' = m_segmentRequests p /\
    if bool_decide (aB = nB)
    then progress nO 11 aO aO' (m_outputSegments d) /\ progress nO 11 aP aP' (m_rangeProofSegments d) /\
      progress nK 11 aK aK' (m_kernelSegments d) /\ m_allSegmentsComplete d' = bool_decide (aO' = nO /\ aP' = nO /\ aK' = nK)
    else aO' = aO /\ aP' = aP /\ aK' = aK /\ d' = d.
Proof.
  intros [E1 E2 E3 Hd E5 E6]. unfold apply_ready. rewrite E1, E3. case_bool_decide as Eb.
  - subst aB. pose proof Hd as [_ _ D3 D4 _ _ _ _ _ _]. rewrite Nat2Z.id, firstn_all in D4.
    rewrite (full_accumulator Blake2b hd chunks acc nO nK Hc d D3 D4).
    destruct (ApplyReadySegments_ok Blake2b hd chunks acc nO nK goodO goodP goodK Hc
      (fun segment targetSize => ApplyOutputSegment segment targetSize acc)
      (fun segment targetSize => ApplyRangeProofSegment segment targetSize acc) ApplyKernelSegment
      J output_good rangeProof_good kernel_good aO aP aK d w Hd E6) as (c & aO' & aP' & aK' & d' & w' & E & Hd' & HJ & P1 & P2 & P3 & Hf).
    rewrite E. exists (Z.of_nat c), aO', aP', aK', d', w', (set_txHashSet w' (set_desegmenter d' p)).
    split; [done|]. split; [by constructor|]. done.
  - erewrite ApplyReadySegments_bitmap by eassumption.
    exists 0, aO, aP, aK, d, w, (set_txHashSet w (set_desegmenter d p)). split; [done|]. split; [by constructor|]. done.
Qed.
(** Segments that block a track are asked for. *)
Lemma blocking_bitmap aB aO aP aK d :
  dg_ok aB aO aP aK d -> aB < nB -> cached (m_bitmapSegments d) (aB / 2 ^ 9) = None ->
  to_request STOutputBitmap 9 (aB / 2 ^ 9) ∈ GetBlockingSegments d.
Proof.
  intros [_ D2 _ _ _ D6 [? Hcb _ Hs] _ _ _] Hlt Hn. pose proof (nB_range Blake2b hd chunks acc nO nK Hc).
  unfold GetBlockingSegments. rewrite D6, D2, bool_decide_false, Hs by lia. cbn [negb].
  change BITMAP_SEGMENT_HEIGHT with 9. rewrite (AppendBlockingSegment_ok STOutputBitmap nB 9) by (done || lia).
  cbn [app]. by apply elem_of_when.
Qed.

Lemma blocking_data aO aP aK d r :
  dg_ok nB aO aP aK d ->
  (r = to_request STOutput 11 (aO / 2 ^ 11) /\ aO < nO /\ cached (m_outputSegments d) (aO / 2 ^ 11) = None) \/
  (r = to_request STRangeProof 11 (aP / 2 ^ 11) /\ aP < nO /\ cached (m_rangeProofSegments d) (aP / 2 ^ 11) = None) \/
  (r = to_request STKernel 11 (aK / 2 ^ 11) /\ aK < nK /\ cached (m_kernelSegments d) (aK / 2 ^ 11) = None) ->
  r ∈ GetBlockingSegments d.
Proof.
  intros [D1 _ _ _ _ D6 _ [? HcO _ SO] [? HcP _ SP] [? HcK _ SK]] Hr.
  pose proof (hc_nO _ _ _ _ _ _ Hc). pose proof (hc_nK _ _ _ _ _ _ Hc).
  unfold GetBlockingSegments, outputMMRSize, kernelMMRSize.
  rewrite D6, bool_decide_true, D1, (hc_outputs _ _ _ _ _ _ Hc), (hc_kernels _ _ _ _ _ _ Hc), SO, SP, SK by done. cbn [negb].
  change OUTPUT_SEGMENT_HEIGHT with 11. change RANGEPROOF_SEGMENT_HEIGHT with 11. change KERNEL_SEGMENT_HEIGHT with 11.
  rewrite (AppendBlockingSegment_ok STKernel nK 11), (AppendBlockingSegment_ok STRangeProof nO 11),
    (AppendBlockingSegment_ok STOutput nO 11) by (done || lia).
  cbn [app]. rewrite !elem_of_app, !elem_of_when. tauto.
Qed.

Lemma finish_ok d w p :
  pipe_ok nB nO nO nK d w p ->
  exists w' p', finish d p = (Ok true, p') /\ pipe_ok nB nO nO nK d w' p' /\ m_segmentRequests p' = m_segmentRequests p /\ synced w'.
Proof.
  intros Hok. pose proof Hok as [E1 E2 E3 Hd E5 E6]. pose proof Hd as [D1 _ D3 D4 _ _ _ _ _ _].
  rewrite Nat2Z.id, firstn_all in D4.
  unfold finish, mbind, ST_bind, st_get, st_modify. rewrite E3, (full_accumulator Blake2b hd chunks acc nO nK Hc d D3 D4), D1.
  destruct (as_leafSets Happly w E6) as [HJ HS]. set (w1 := UpdateLeafSets acc _ w) in *.
  assert (pipe_ok nB nO nO nK d w1 (set_txHashSet w1 p)) as Hok1 by by constructor.
  destruct (Commit_txHashSet_ok _ _ _ _ _ _ _ Hok1) as (w' & -> & Hok' & HS').
  exists w', (set_uncommitted 0 (set_txHashSet w' (set_txHashSet w1 p))).
  split; [done|]. split; [by apply set_uncommitted_ok|]. split; [done|]. by apply HS'.
Qed.

(** The turn: with everything applied the sync is finished; otherwise what is
    missing is asked for. *)
Lemma RequestNext_ok aB aO aP aK d w p now peers :
  pipe_ok aB aO aP aK d w p -> m_segmentRequests p = [] -> omap id peers <> [] ->
  exists aO' aP' aK' d1 d' w' p', RequestNextPIBDSegments now (fun _ _ => true) peers p = (Ok true, p') /\
    pipe_ok aB aO' aP' aK' d' w' p' /\
    (if bool_decide (aB = nB)
     then progress nO 11 aO aO' (m_outputSegments d) /\ progress nO 11 aP aP' (m_rangeProofSegments d) /\
       progress nK 11 aK aK' (m_kernelSegments d)
     else aO' = aO /\ aP' = aP /\ aK' = aK /\ d1 = d) /\
    ((aB = nB /\ aO' = nO /\ aP' = nO /\ aK' = nK /\ m_allSegmentsComplete d' = true /\ m_segmentRequests p' = [] /\ synced w') \/
     (dg_ok aB aO' aP' aK' d1 /\ same_caches d1 d' /\ NoDup (map pr_segment (m_segmentRequests p')) /\
      Forall (proper aB) (map pr_segment (m_segmentRequests p')) /\
      (forall r, r ∈ GetBlockingSegments d1 -> r ∈ map pr_segment (m_segmentRequests p')) /\
      ~ (aB = nB /\ aO' = nO /\ aP' = nO /\ aK' = nK))).
Proof.
  intros Hok Er Hp. pose proof Hok as [E1 E2 _ _ _ _]. unfold RequestNextPIBDSegments, mbind, ST_bind, st_get. rewrite E1, E2.
  rewrite bool_decide_false by (by intros ->).
  destruct (apply_ready_ok _ _ _ _ _ _ _ Hok) as (c & aO' & aP' & aK' & d1 & w1 & p1 & -> & Hok1 & Er1 & Hpr).
  unfold st_modify. pose proof (set_uncommitted_ok _ _ _ _ _ _ _ (m_uncommittedPIBDSegments p1 + c)%u64 Hok1) as Hok2.
  destruct (commit_threshold_ok _ _ _ _ _ _ _ Hok2) as (w2 & p2 & -> & Hok3 & Er3). cbn in Er3. rewrite Er1, Er in Er3.
  rewrite (po_desegmenter _ _ _ _ _ _ _ Hok3). destruct (m_allSegmentsComplete d1) eqn:Ef.
  - assert (aB = nB) as Hb. { destruct (decide (aB = nB)) as [|Hne]; [done|]. pose proof (po_incomplete _ _ _ _ _ _ _ Hok3 Hne). congruence. }
    subst aB. rewrite bool_decide_true in Hpr by done. destruct Hpr as (P1 & P2 & P3 & Hf). symmetry in Hf.
    apply bool_decide_eq_true in Hf as (-> & -> & ->).
    destruct (finish_ok _ _ _ Hok3) as (w' & p' & -> & Hok' & Er' & HS).
    exists nO, nO, nK, d1, d1, w', p'. split; [done|]. split; [done|]. rewrite bool_decide_true by done.
    split; [done|]. left. rewrite Er', Er3. tauto.
  - unfold remove_timed_out, mbind, ST_bind, st_get. rewrite Er3. cbn [GetTimedOutRequests List.filter mret].
    unfold mret, ST_ret. rewrite bool_decide_false by done.
    destruct (request_missing_ok _ _ _ _ _ _ _ now (omap id peers) Hok3 Er3 Hp) as (d' & p' & -> & Hok' & Hs & Hnd & Hf & Hb).
    exists aO', aP', aK', d1, d', w2, p'. split; [done|]. split; [done|]. split.
    + case_bool_decide; [|done]. destruct Hpr as (P1 & P2 & P3 & _). done.
    + right. split; [apply Hok3|]. split; [done|]. split; [done|]. split; [done|]. split; [done|]. intros (-> & Hall).
      rewrite bool_decide_true in Hpr by done. destruct Hpr as (_ & _ & _ & Hf'). symmetry in Hf'.
      by apply bool_decide_eq_false in Hf'.
Qed.

(** *** Rounds *)
Definition data_left (aO aP aK : Z) : Z := Z.max (segs_left nO 11 aO) (Z.max (segs_left nO 11 aP) (segs_left nK 11 aK)).

Definition next_cached aO aP aK d : Prop :=
  (aO = nO \/ cached (m_outputSegments d) (aO / 2 ^ 11) <> None) /\
  (aP = nO \/ cached (m_rangeProofSegments d) (aP / 2 ^ 11) <> None) /\
  (aK = nK \/ cached (m_kernelSegments d) (aK / 2 ^ 11) <> None).

(** After [k] rounds everything is applied. *)
Definition needs aB aO aP aK d (k : Z) : Prop :=
  if bool_decide (aB = nB)
  then data_left aO aP aK <= k /\ (data_left aO aP aK + 1 <= k \/ next_cached aO aP aK d)
  else segs_left nB 9 aB + 1 + data_left aO aP aK <= k /\ cached (m_bitmapSegments d) (aB / 2 ^ 9) = None.

Definition complete p : Prop :=
  exists d w, pipe_ok nB nO nO nK d w p /\ m_segmentRequests p = [] /\ m_allSegmentsComplete d = true /\ synced w.

Lemma progress_left {D} n h a a' (cache : list (Segment D)) :
  0 < n < 2 ^ 50 -> 1 <= h < 50 -> 0 <= a -> a' <= n -> progress n h a a' cache ->
  segs_left n h a' <= segs_left n h a /\
  (a = n \/ cached cache (a / 2 ^ h) <> None -> segs_left n h a' <= Z.max 0 (segs_left n h a - 1)).
Proof.
  intros Hn Hh Ha Ha' [Hle Hp]. split; [apply segs_left_mono; lia|]. intros Hc'. destruct (decide (a = n)) as [->|Hne].
  - assert (a' = n) as -> by lia. unfold segs_left. rewrite bool_decide_true by done. lia.
  - destruct Hc' as [|Hc']; [done|]. pose proof (segs_left_next n h Hh a a' ltac:(lia) ltac:(split; [apply Hp; [lia|done]|done])). lia.
Qed.

Lemma have_next {D} n h a (cache : list (Segment D)) :
  1 <= h < 50 -> 0 <= a <= n -> (a < n -> have n h a cache (a / 2 ^ h)) -> a = n \/ cached cache (a / 2 ^ h) <> None.
Proof.
  intros Hh Ha Hv. destruct (decide (a = n)); [by left|right]. destruct Hv as [Hv|Hv]; [lia| |done].
  pose proof (seg_end_next n h Hh a ltac:(lia)). lia.
Qed.

(** After a turn in the second phase and its answers, the next segment of every
    track is cached. *)
Lemma answers_next_cached aO aP aK d1 d2 (l : list SegmentTypeIdentifier) :
  dg_ok nB aO aP aK d1 -> (forall r, r ∈ GetBlockingSegments d1 -> r ∈ l) ->
  (forall r, 0 <= seg_index (sti_identifier r) -> satisfied nB aO aP aK d1 r -> satisfied nB aO aP aK d2 r) ->
  (forall r, r ∈ l -> satisfied nB aO aP aK d2 r) -> next_cached aO aP aK d2.
Proof.
  intros Hd Hb Hk Hs. pose proof (hc_nO _ _ _ _ _ _ Hc) as HnO. pose proof (hc_nK _ _ _ _ _ _ Hc) as HnK.
  pose proof Hd as [_ _ _ _ _ _ _ [RO _ _ _] [RP _ _ _] [RK _ _ _]].
  assert (0 <= aO / 2 ^ 11 /\ 0 <= aP / 2 ^ 11 /\ 0 <= aK / 2 ^ 11) as (IO & IP & IK) by (repeat split; apply Z.div_pos; lia).
  split; [|split]; apply have_next; try lia; intros Hlt.
  - destruct (cached (m_outputSegments d1) (aO / 2 ^ 11)) eqn:E.
    + apply (Hk (to_request STOutput 11 (aO / 2 ^ 11)) IO). right. cbn. by rewrite E.
    + apply (Hs (to_request STOutput 11 (aO / 2 ^ 11))), Hb, (blocking_data aO aP aK); [done|]. by left.
  - destruct (cached (m_rangeProofSegments d1) (aP / 2 ^ 11)) eqn:E.
    + apply (Hk (to_request STRangeProof 11 (aP / 2 ^ 11)) IP). right. cbn. by rewrite E.
    + apply (Hs (to_request STRangeProof 11 (aP / 2 ^ 11))), Hb, (blocking_data aO aP aK); [done|]. right. by left.
  - destruct (cached (m_kernelSegments d1) (aK / 2 ^ 11)) eqn:E.
    + apply (Hk (to_request STKernel 11 (aK / 2 ^ 11)) IK). right. cbn. by rewrite E.
    + apply (Hs (to_request STKernel 11 (aK / 2 ^ 11))), Hb, (blocking_data aO aP aK); [done|]. right. by right.
Qed.

(** In the first phase the bitmap gets its next segment in every round. *)
Lemma answers_bitmap aB aB' aO aP aK d1 d2 (l : list SegmentTypeIdentifier) :
  dg_ok aB aO aP aK d1 -> dg_ok aB' aO aP aK d2 -> aB <> nB -> cached (m_bitmapSegments d1) (aB / 2 ^ 9) = None ->
  (forall r, r ∈ GetBlockingSegments d1 -> r ∈ l) -> (forall r, r ∈ l -> satisfied aB' aO aP aK d2 r) -> aB <= aB' ->
  (aB' = nB \/ cached (m_bitmapSegments d2) (aB' / 2 ^ 9) = None) ->
  segs_left nB 9 aB' <= segs_left nB 9 aB - 1.
Proof.
  intros Hd Hd2 Hne Hn Hb Hs Hle Hnext. pose proof (nB_range Blake2b hd chunks acc nO nK Hc) as HnB.
  pose proof Hd as [_ _ _ _ _ _ [RB _ _ _] _ _ _]. pose proof Hd2 as [_ _ _ _ A2 _ [RB2 _ _ _] _ _ _].
  pose proof Hd as [_ _ _ _ A1 _ _ _ _ _]. apply segs_left_next; [lia|lia|]. split; [|lia].
  assert (aB <> aB' -> seg_end nB 9 (aB / 2 ^ 9) <= aB') as Hmoved.
  { intros Hm. unfold seg_end. destruct A1 as [|A1]; [done|]. destruct A2 as [->|A2]; [lia|].
    pose proof (Z.div_mod aB (2 ^ 9) ltac:(lia)). pose proof (Z.div_mod aB' (2 ^ 9) ltac:(lia)). nia. }
  destruct (decide (aB = aB')) as [<-|]; [|by apply Hmoved].
  assert (to_request STOutputBitmap 9 (aB / 2 ^ 9) ∈ l) as Hin by (apply Hb, (blocking_bitmap aB aO aP aK); [done|lia|done]).
  destruct (Hs _ Hin) as [Hv|Hv]; [done|]. cbn in Hv. by destruct Hnext.
Qed.

Lemma data_left_done : data_left nO nO nK = 0.
Proof. unfold data_left, segs_left. by rewrite !bool_decide_true. Qed.

Lemma data_left_complete aB aO aP aK d : dg_ok aB aO aP aK d -> data_left aO aP aK <= 0 -> aO = nO /\ aP = nO /\ aK = nK.
Proof.
  intros [_ _ _ _ _ _ _ [RO _ _ _] [RP _ _ _] [RK _ _ _]] Hl. pose proof (hc_nO _ _ _ _ _ _ Hc). pose proof (hc_nK _ _ _ _ _ _ Hc).
  unfold data_left in Hl. split; [|split]; (eapply (segs_left_zero _ 11); [|lia|lia]); lia.
Qed.

Lemma data_left_nonneg aB aO aP aK d : dg_ok aB aO aP aK d -> 0 <= data_left aO aP aK.
Proof.
  intros [_ _ _ _ _ _ _ [RO _ _ _] _ _]. pose proof (segs_left_nonneg nO 11 ltac:(lia) aO RO). unfold data_left. lia.
Qed.

Lemma data_left_progress aO aP aK aO' aP' aK' d d1 :
  dg_ok nB aO aP aK d -> dg_ok nB aO' aP' aK' d1 ->
  progress nO 11 aO aO' (m_outputSegments d) -> progress nO 11 aP aP' (m_rangeProofSegments d) ->
  progress nK 11 aK aK' (m_kernelSegments d) ->
  data_left aO' aP' aK' <= data_left aO aP aK /\
  (next_cached aO aP aK d -> data_left aO' aP' aK' <= Z.max 0 (data_left aO aP aK - 1)).
Proof.
  intros [_ _ _ _ _ _ _ [RO _ _ _] [RP _ _ _] [RK _ _ _]] [_ _ _ _ _ _ _ [RO' _ _ _] [RP' _ _ _] [RK' _ _ _]] PO PP PK.
  pose proof (hc_nO _ _ _ _ _ _ Hc). pose proof (hc_nK _ _ _ _ _ _ Hc).
  apply progress_left in PO as [MO NO], PP as [MP NP], PK as [MK NK]; try lia. unfold data_left, next_cached.
  split; [lia|]. intros (CO & CP & CK). specialize (NO CO). specialize (NP CP). specialize (NK CK). lia.
Qed.

(** A round takes the sync one step on. *)
Lemma round_ok order aB aO aP aK d w p now (peers : list (option string)) (k : Z) :
  (forall l, order l ≡ₚ l) -> pipe_ok aB aO aP aK d w p -> m_segmentRequests p = [] -> omap id peers <> [] ->
  needs aB aO aP aK d k -> 0 <= k ->
  exists aB' aO' aP' aK' d' w' p', sync_round order now peers p = (Ok tt, p') /\
    pipe_ok aB' aO' aP' aK' d' w' p' /\ m_segmentRequests p' = [] /\ needs aB' aO' aP' aK' d' (Z.max 0 (k - 1)) /\
    (k = 0 -> complete p').
Proof.
  intros Hord Hok Er Hp Hn Hk. pose proof (po_dg _ _ _ _ _ _ _ Hok) as Hd. pose proof (nB_range Blake2b hd chunks acc nO nK Hc) as HnB.
  destruct (RequestNext_ok aB aO aP aK d w p now peers Hok Er Hp)
    as (aO' & aP' & aK' & d1 & d' & w' & p' & E & Hok' & Hpr & [Hdone|Hmore]); unfold sync_round, mbind, ST_bind, st_get; rewrite E.
  - destruct Hdone as (-> & -> & -> & -> & Hf & Er' & HS). rewrite Er'. cbn [map]. rewrite (Permutation_nil (symmetry (Hord []))). cbn [answer_all].
    exists nB, nO, nO, nK, d', w', p'. split; [done|]. split; [done|]. split; [done|]. split.
    + unfold needs. rewrite bool_decide_true, data_left_done by done. split; [lia|]. right. split; [by left|]. split; by left.
    + intros _. by exists d', w'.
  - destruct Hmore as (Hd1 & Hs & Hnd & Hf & Hb & Hne). set (l := map pr_segment (m_segmentRequests p')) in *.
    pose proof (Hord l) as Hl.
    destruct (answer_all_ok (order l) aB aO' aP' aK' d' w' p' Hok') as (aB' & d'' & p'' & E' & Hok'' & Hkeep & Hsat & Hreq).
    { by rewrite Hl. } { by rewrite Hl. } { intros r. by rewrite Hl. }
    assert (forall r, r ∈ l -> satisfied aB' aO' aP' aK' d'' r) as Hsat' by (intros r Hr; apply Hsat; by rewrite Hl).
    exists aB', aO', aP', aK', d'', w', p''. split; [done|]. split; [done|]. split.
    { destruct (m_segmentRequests p'') as [|x xs]; [done|]. exfalso. destruct (proj1 (Hreq (pr_segment x)) ltac:(left)) as [Hx Hx'].
      apply Hx'. by rewrite Hl. }
    destruct Hkeep as (Hle & Hkeep & Hnext). pose proof (po_dg _ _ _ _ _ _ _ Hok'') as Hd''.
    pose proof (to_leaves _ _ _ _ _ _ (do_bitmap _ _ _ _ _ _ _ _ _ _ _ _ _ Hd'')) as RB.
    pose proof (data_left_nonneg _ _ _ _ _ Hd) as Hnn.
    unfold needs in Hn. case_bool_decide as Eb.
    + subst aB. assert (aB' = nB) as -> by lia. destruct Hn as [Hn1 Hn2]. destruct Hpr as (PO & PP & PK).
      destruct (data_left_progress _ _ _ _ _ _ _ _ Hd Hd1 PO PP PK) as [M1 M2].
      assert (data_left aO' aP' aK' <= Z.max 0 (k - 1)) as Hleft by (destruct Hn2 as [|Hn2]; [lia|specialize (M2 Hn2); lia]).
      split.
      * unfold needs. rewrite bool_decide_true by done. split; [done|]. right.
        apply (answers_next_cached _ _ _ d1 d'' l); [done|done| |done]. intros r Hr Hx. apply Hkeep; [done|].
        by apply (same_caches_satisfied nB aO' aP' aK' d1).
      * intros ->. exfalso. apply Hne. split; [done|]. eapply data_left_complete; [exact Hd1|]. lia.
    + destruct Hn as [Hn1 Hn2]. destruct Hpr as (-> & -> & -> & ->). pose proof Hs as (S1 & _).
      pose proof (to_leaves _ _ _ _ _ _ (do_bitmap _ _ _ _ _ _ _ _ _ _ _ _ _ Hd)) as RB0.
      pose proof (segs_left_pos nB 9 ltac:(lia) aB ltac:(lia)) as Hpos.
      rewrite S1 in Hnext. pose proof (Hnext (or_intror Hn2)) as Hnext'.
      pose proof (answers_bitmap aB aB' aO aP aK d d'' l Hd Hd'' Eb Hn2 Hb Hsat' Hle Hnext') as Hdec.
      pose proof (segs_left_nonneg nB 9 ltac:(lia) aB' RB) as Hnn'.
      split; [|lia]. unfold needs. case_bool_decide as Eb'; [lia|]. split; [lia|]. by destruct Hnext'.
Qed.

Lemma rounds_ok order (rounds : list (Z * list (option string))) aB aO aP aK d w p (k : Z) :
  (forall l, order l ≡ₚ l) -> Forall (fun r => omap id r.2 <> []) rounds ->
  pipe_ok aB aO aP aK d w p -> m_segmentRequests p = [] -> needs aB aO aP aK d k -> 0 <= k < length rounds ->
  exists p', sync_rounds order rounds p = (Ok tt, p') /\ complete p'.
Proof.
  intros Hord. revert aB aO aP aK d w p k. induction rounds as [|[now peers] rounds IH]; intros aB aO aP aK d w p k Hr Hok Er Hn Hk; [cbn in Hk; lia|].
  apply Forall_cons in Hr as [Hp Hr]. cbn [snd] in Hp. cbn [length] in Hk.
  destruct (round_ok order aB aO aP aK d w p now peers k Hord Hok Er Hp Hn ltac:(lia))
    as (aB' & aO' & aP' & aK' & d' & w' & p' & E & Hok' & Er' & Hn' & Hdone).
  cbn [sync_rounds]. unfold mbind, ST_bind. rewrite E. destruct (decide (rounds = [])) as [->|Hne].
  - cbn [length] in Hk. exists p'. split; [done|]. apply Hdone. lia.
  - eapply IH; [done|exact Hok'|done|exact Hn'|]. destruct rounds; [done|]. cbn [length] in *. lia.
Qed.

(** The start: nothing of the bitmap, and what the hash set has of the rest. *)
Lemma StartPIBD_ok aO aP aK w p :
  m_pDesegmenter p = None -> 0 <= aO <= nO -> 0 <= aP <= nO -> 0 <= aK <= nK -> J aO aP aK w ->
  SyncTarget_GetOutputMMRSize w = mmr_size aO -> SyncTarget_GetRangeProofMMRSize w = mmr_size aP ->
  SyncTarget_GetKernelMMRSize w = mmr_size aK ->
  exists d, pipe_ok 0 aO aP aK d w (StartPIBD hd blockHash w p) /\ m_segmentRequests (StartPIBD hd blockHash w p) = [] /\
    needs 0 aO aP aK d (segs_left nB 9 0 + 1 + data_left aO aP aK).
Proof.
  intros Hp HO HP HK HJ E1 E2 E3. pose proof (nB_range Blake2b hd chunks acc nO nK Hc) as HnB.
  unfold StartPIBD. rewrite Hp, E1, E2, E3. set (d := SetAppliedMMRSizes _ _ _ _).
  exists d. split; [constructor|split]; try done.
  - by apply (new_ok Blake2b hd chunks acc).
  - unfold needs. rewrite bool_decide_false by lia. done.
Qed.

Lemma sync_completes_ok order (rounds : list (Z * list (option string))) aO aP aK w p :
  (forall l, order l ≡ₚ l) -> Forall (fun r => omap id r.2 <> []) rounds ->
  m_pDesegmenter p = None -> 0 <= aO <= nO -> 0 <= aP <= nO -> 0 <= aK <= nK -> J aO aP aK w ->
  SyncTarget_GetOutputMMRSize w = mmr_size aO -> SyncTarget_GetRangeProofMMRSize w = mmr_size aP ->
  SyncTarget_GetKernelMMRSize w = mmr_size aK ->
  segs_left nB 9 0 + 1 + data_left aO aP aK < length rounds ->
  exists p' w', sync_rounds order rounds (StartPIBD hd blockHash w p) = (Ok tt, p') /\ IsPIBDComplete p' = true /\
    m_segmentRequests p' = [] /\ pp_txHashSet p' = Some w' /\ J nO nO nK w' /\ synced w'.
Proof.
  intros Hord Hr Hp HO HP HK HJ E1 E2 E3 Hlen. pose proof (nB_range Blake2b hd chunks acc nO nK Hc) as HnB.
  destruct (StartPIBD_ok aO aP aK w p Hp HO HP HK HJ E1 E2 E3) as (d & Hok & Er & Hn).
  pose proof (segs_left_pos nB 9 ltac:(lia) 0 ltac:(lia)).
  pose proof (data_left_nonneg _ _ _ _ _ (po_dg _ _ _ _ _ _ _ Hok)).
  destruct (rounds_ok order rounds _ _ _ _ _ _ _ _ Hord Hr Hok Er Hn ltac:(lia)) as (p' & E & d' & w' & Hok' & Er' & Hf & HS).
  exists p', w'. split; [done|]. unfold IsPIBDComplete. destruct Hok' as [-> _ E' _ _ HJ']. done.
Qed.
End sync.
