(* ===== verification/TxHashSetSync.v ===== *)
(** * Synchronising the transaction hash set

    The hash set as the target of a sync: the segments of honest peers, in
    rounds of requests and answers, make it hold the outputs, range proofs and
    kernels that the archive header commits to, with the leaf sets that the
    bitmap of unspent outputs describes. *)
From stdpp Require Import strings.
From S2P Require Import Prelude BitUtil MMRIndex MMRUtil Serial BigInteger File Roaring PruneList BitmapFile MMRHash SegmentId SegmentProof Bitmap Segment BitmapSegment SegmentTracker Segmenter PruneableMMR PruneableSpec Consensus Transaction KernelMMR KernelSpec Header Block BlockDB TxHashSet UtxoSpec TxHashSetSpec TxHashSetBlocks TxHashSetTheorems Desegmenter DesegmenterSpec Pibd PibdSpec.

(** ** Keys of a leaf set

    Applying any segment, honest or not, leaves a leaf set whose modified bytes
    are at offsets of the file. *)
Section keys.
Context {F : Type} {HF : HashFile F} {R : Type} {HR : Roaring R} {D : Type} {HD : Serializable D}.
Context (Blake2b : bytes -> Hash) (N : nat).
Local Abbreviation PM := (PruneableMMR F R).
Implicit Types (m : PM).

Definition leaf_keys m : Prop := keys_ok (m_modifiedBytes (pm_leafSet m)).

Lemma CalculateLeafIndex_loop_nonneg fuel : forall p l i, 0 <= i -> 0 <= CalculateLeafIndex_loop fuel p l i.
Proof.
  induction fuel as [|fuel IH]; intros p l i Hi; cbn [CalculateLeafIndex_loop]; [done|]. repeat case_match; try done; apply IH; [|done].
  by apply uint_range.
Qed.

Lemma keys_AppendLeaf (d : D) : st_keeps leaf_keys (PruneableMMR_AppendLeaf (F := F) Blake2b d).
Proof.
  unfold PruneableMMR_AppendLeaf. apply st_keeps_bind; [apply st_keeps_get|]. intros m0.
  apply st_keeps_bind; [|intros _; apply st_keeps_bind; [by apply st_keeps_modify|intros _; by apply st_keeps_zoom]].
  apply st_keeps_modify. intros m Hm. apply keys_ok_Set; [|exact Hm]. by apply CalculateLeafIndex_loop_nonneg.
Qed.

Lemma keys_RewindToEmpty : st_keeps leaf_keys (RewindToEmpty (F := F) (R := R) N).
Proof.
  unfold RewindToEmpty. apply st_keeps_bind; [by apply st_keeps_zoom|intros _].
  apply st_keeps_bind; [by apply st_keeps_zoom|intros _]. apply st_keeps_modify. intros m Hm.
  by apply (Rewind_fields 0 [] (pm_leafSet m)).
Qed.

Lemma keys_apply_hash (s : Segment D) node : st_keeps leaf_keys (apply_hash (F := F) (R := R) Blake2b s node).
Proof.
  unfold apply_hash, AppendPrunedSubtree. apply st_keeps_bind; [apply st_keeps_lift|intros hash].
  apply st_keeps_bind; [|intros _; apply st_keeps_ret].
  apply st_keeps_bind; [by apply st_keeps_modify|intros _]. apply st_keeps_bind; [by apply st_keeps_modify|intros _].
  apply st_keeps_bind; [apply st_keeps_get|intros m]. by apply st_keeps_zoom.
Qed.

Lemma keys_apply_leaf (s : Segment D) node size : st_keeps leaf_keys (apply_leaf (F := F) (R := R) Blake2b s node size).
Proof.
  unfold apply_leaf. case_match; [|apply st_keeps_ret]. apply st_keeps_bind; [apply st_keeps_lift|intros leaf].
  apply st_keeps_bind; [apply keys_AppendLeaf|intros _; apply st_keeps_ret].
Qed.

Lemma keys_ApplySegment_step (s : Segment D) target bitmap node :
  st_keeps leaf_keys (ApplySegment_step (F := F) (R := R) Blake2b N s target bitmap node).
Proof.
  unfold ApplySegment_step, apply_pruned_hash. apply st_keeps_bind; [apply st_keeps_get|intros m].
  repeat case_match; try apply st_keeps_ret; try apply keys_apply_hash; try apply keys_apply_leaf.
  apply st_keeps_bind; [apply keys_RewindToEmpty|intros _; apply keys_apply_hash].
Qed.

Lemma keys_ApplySegment (s : Segment D) target bitmap :
  st_keeps leaf_keys (PruneableMMR_ApplySegment (F := F) (R := R) Blake2b N s target bitmap).
Proof.
  unfold PruneableMMR_ApplySegment. repeat case_match; try apply st_keeps_ret.
  apply st_keeps_bind; [by apply st_keeps_modify|intros _]. generalize (orderedNodes s). intros nodes.
  induction nodes as [|node nodes IH]; cbn [ApplySegment_loop]; [apply st_keeps_ret|].
  apply st_keeps_bind; [apply keys_ApplySegment_step|]. intros [|]; [exact IH|apply st_keeps_ret].
Qed.

Lemma keys_Commit m m' : PruneableMMR_Commit m = (Ok tt, m') -> pm_leafSet m' = (if pm_dirty m then LeafSet_Commit (pm_leafSet m) else pm_leafSet m) ->
  leaf_keys m -> leaf_keys m'.
Proof.
  intros _ E Hm. unfold leaf_keys. rewrite E. destruct (pm_dirty m); [|done].
  unfold LeafSet_Commit. by destruct (Commit_keys (pm_leafSet m)) as [H | ->].
Qed.

Lemma keys_UpdateLeafSet bitmap n m : 0 <= n -> leaf_keys m -> leaf_keys (UpdateLeafSet bitmap n m).
Proof.
  intros Hn Hm. unfold leaf_keys, UpdateLeafSet. cbn [set_leafSet pm_leafSet pm_SetDirty].
  apply Rewind_fields; [done|constructor|].
  assert (Forall (fun i => 0 <= i) (seqZ 0 n)) as Hl by (apply Forall_forall; intros i Hi%elem_of_seqZ; lia).
  revert Hm. unfold leaf_keys. generalize (pm_leafSet m). induction Hl as [|i l Hi _ IH]; intros f Hf; cbn [foldl]; [done|].
  apply IH. unfold UpdateLeafSet_step. cbv zeta.
  match goal with |- context [if ?b then _ else _] => destruct b end; [by apply keys_ok_Set|].
  destruct (LeafSet_Contains _ _); [by apply keys_ok_Unset|done].
Qed.
End keys.

(** ** Kernels of a segment *)

(** A segment that carries the kernels from leaf [s] on brings an MMR of [n]
    kernels up to its own end. *)
Lemma next_kernels_slice {D} (ds : list D) : forall (s n : Z), 0 <= s <= n -> n <= s + length ds ->
  next_kernels (zip (map mmr_size (seqZ s (length ds))) ds) n = (drop (Z.to_nat (n - s)) ds, true).
Proof.
  induction ds as [|d ds IH]; intros s n Hs Hn; [by rewrite drop_nil|]. cbn [length] in *.
  rewrite seqZ_cons by lia. cbn [map zip_with next_kernels]. replace (Z.pred (S (length ds))) with (length ds : Z) by lia.
  change (Z.succ s) with (s + 1). destruct (decide (s = n)) as [->|Hne].
  - rewrite Z.ltb_irrefl, Z.eqb_refl, IH, !Z.sub_diag by lia. by replace (Z.to_nat (n + 1 - (n + 1))) with 0%nat by lia.
  - pose proof (mmr_size_lt s n ltac:(lia)). destruct (Z.ltb_spec (mmr_size s) (mmr_size n)); [|lia].
    rewrite IH by lia. by replace (Z.to_nat (n - s)) with (S (Z.to_nat (n - (s + 1)))) by lia.
Qed.

(** ** The target *)
Section target.
Context {F : Type} {HF : HashFile F} {HFL : HashFileLaws F} {R : Type} {HR : Roaring R} {HL : RoaringLaws R}.
Context (Blake2b : bytes -> Hash).
Local Abbreviation TS := (TxHashSet F R).
Implicit Types (t : TS).

Definition TxHashSet_SyncTarget : SyncTarget OutputIdentifier RangeProof TransactionKernel TS := {|
  ApplyOutputSegment := TxHashSet_ApplyOutputSegment Blake2b;
  ApplyRangeProofSegment := TxHashSet_ApplyRangeProofSegment Blake2b;
  ApplyKernelSegment := TxHashSet_ApplyKernelSegment Blake2b;
  UpdateLeafSets := TxHashSet_UpdateLeafSets;
  SyncTarget_Commit := TxHashSet_Commit;
  SyncTarget_GetOutputMMRSize := GetOutputMMRSize;
  SyncTarget_GetRangeProofMMRSize := GetRangeProofMMRSize;
  SyncTarget_GetKernelMMRSize := GetKernelMMRSize;
|}.
#[local] Existing Instance TxHashSet_SyncTarget.

(** *** One MMR of the target *)
Section half.
Context {D : Type} {HD : Serializable D} {wf : EProtocolVersion -> D -> Prop} {HSL : SerializableLaws D wf}.
Context (N : nat) (data : list D) (acc : BitmapAccumulator) (serve : Z -> Segment D).
Local Abbreviation PM := (PruneableMMR F R).
Local Abbreviation n := (Z.of_nat (length data)).
Implicit Types (m : PM).

(** The MMR holds the first [a] leaves; the next segment starts there, or the
    MMR holds the first leaf of the chain only. *)
Record synced_to (a : Z) m : Prop := {
  sy_ok : exists cdata, pmmr_ok (wf := wf) Blake2b N (take (Z.to_nat a) data) cdata m;
  sy_keys : leaf_keys m;
  sy_start : a = n \/ a mod 2 ^ 11 = 0 \/ a = 1;
  sy_first : a < n -> a = 1 -> Roaring_elems (m_prunedRoots (pm_pruneList m)) = [];
}.

(** The unspent leaves are those of the bitmap. *)
Definition follows_bitmap m : Prop :=
  forall j, 0 <= j -> LeafSet_Contains (LeafIndex_At j) (pm_leafSet m) = (j <? n) && BitmapContains acc j.

(** The segments carry the leaves that the bitmap requires, and hashes of the
    subtrees it does not. *)
Definition honest_segments : Prop := forall k, 0 <= k -> k * 2 ^ 11 < n ->
  length (sg_leaf_pos (serve k)) = length (sg_leaves (serve k)) /\ length (sg_hash_pos (serve k)) = length (sg_hashes (serve k)) /\
  forall a, a < n -> a = k * 2 ^ 11 \/ k = 0 /\ a = 1 ->
    cover Blake2b data (serve k) (mmr_size n) (Some acc) a (orderedNodes (serve k)) (seg_end n 11 k).

Hypothesis Blake2b_length : forall x, length (Blake2b x) = 32%nat.
Hypothesis N_small : 0 < N < 2 ^ 20.
Hypothesis data_ok : Forall (fun d => wf V1 d /\ length (Serialized V1 d) = N) data.
Hypothesis data_size : n_ok n.

Lemma half_apply a m :
  honest_segments -> 0 <= a < n -> synced_to a m ->
  exists m', PruneableMMR_ApplySegment Blake2b N (serve (a / 2 ^ 11)) (mmr_size n) (Some acc) m = (Ok true, m') /\
    synced_to (seg_end n 11 (a / 2 ^ 11)) m'.
Proof.
  intros Hs Ha [[cdata Hok] Hk Hst Hf]. set (k := a / 2 ^ 11).
  assert (0 <= k) by (apply Z.div_pos; lia). pose proof (Z.mul_div_le a (2 ^ 11) ltac:(lia)). pose proof (Z.mul_succ_div_gt a (2 ^ 11) ltac:(lia)).
  destruct (Hs k ltac:(lia) ltac:(lia)) as (El & Eh & Hc).
  assert (a = k * 2 ^ 11 \/ k = 0 /\ a = 1) as Hstart.
  { destruct Hst as [?|[Hm| ->]]; [lia|left|right]; [|split; [reflexivity|done]].
    pose proof (Z.div_mod a (2 ^ 11) ltac:(lia)). unfold k. lia. }
  specialize (Hc a ltac:(lia) Hstart).
  destruct (ApplySegment_loop_ok Blake2b N Blake2b_length N_small data (serve k) (mmr_size n) (Some acc) data_ok data_size cdata
    (orderedNodes (serve k)) a (seg_end n 11 k) (pm_SetDirty true m)) as (m' & E & [Hr Hok' _ _]); [done|constructor; try done|].
  { lia. } { by apply pmmr_SetDirty. } { intros ->. apply Hf; lia. }
  assert (PruneableMMR_ApplySegment Blake2b N (serve k) (mmr_size n) (Some acc) m = (Ok true, m')) as Ea.
  { unfold PruneableMMR_ApplySegment. rewrite El, Eh, !Z.eqb_refl. cbn [negb]. by erewrite st_bind_ok by reflexivity. }
  exists m'. split; [done|]. constructor.
  - by exists cdata.
  - pose proof (keys_ApplySegment Blake2b N (serve k) (mmr_size n) (Some acc) m Hk) as Hk'. by rewrite Ea in Hk'.
  - unfold seg_end. destruct (Z.min_spec ((k + 1) * 2 ^ 11) n) as [[_ ->]|[_ ->]]; [right; left; apply Z.mod_mul; lia|by left].
  - unfold seg_end. lia.
Qed.

Lemma half_Commit a m : synced_to a m ->
  exists m', PruneableMMR_Commit m = (Ok tt, m') /\ synced_to a m' /\ (follows_bitmap m -> follows_bitmap m').
Proof.
  intros [[cdata Hok] Hk Hst Hf].
  destruct (pmmr_Commit Blake2b N _ _ m Hok) as (m' & E & Hok' & _ & El & Hr). exists m'. split; [done|]. split.
  - constructor; [by eexists|by apply (keys_Commit m)|done|]. intros Ha Ha1. rewrite <- (Hf Ha Ha1).
    destruct (pm_dirty m); [by destruct Hr|by rewrite Hr].
  - intros Hb j Hj. rewrite <- (Hb j Hj). unfold LeafSet_Contains. rewrite El. destruct (pm_dirty m); [|done].
    by destruct (Commit_bits (pm_leafSet m) j Hk Hj) as [Ec _].
Qed.

Lemma half_UpdateLeafSet m : n < 2 ^ 58 -> synced_to n m ->
  synced_to n (UpdateLeafSet acc n m) /\ follows_bitmap (UpdateLeafSet acc n m).
Proof.
  intros Hn [[cdata Hok] Hk Hst Hf]. split.
  - constructor; [|apply keys_UpdateLeafSet; [lia|done]|by left|lia].
    exists cdata. destruct (pmmr_SetDirty _ _ _ _ _ Hok) as (hw & hc & rw & rc & [P1 P2 P3 P4 P5 P6]). exists hw, hc, rw, rc. by constructor.
  - intros j Hj. unfold UpdateLeafSet. cbn [set_leafSet pm_leafSet pm_SetDirty].
    unfold LeafSet_Contains, LeafSet_Rewind. cbn [LeafIndex_At LeafIndex_new m_leafIndex].
    rewrite IsSet_Rewind by (constructor || lia). rewrite bool_decide_eq_false_2 by apply not_elem_of_nil. cbn [orb].
    destruct (Z.ltb_spec j n); [|done]. cbn [andb]. apply UpdateLeafSet_bits; lia.
Qed.
End half.

(** *** The three of them *)
Context (hd : BlockHeader) (chunks : list BitmapChunk) (acc : BitmapAccumulator) (blockHash : Hash).
Context (outputs : list OutputIdentifier) (proofs : list RangeProof) (kernels : list TransactionKernel).
Context (serveB : Z -> BitmapSegment * Hash) (serveO : Z -> Segment OutputIdentifier) (serveP : Z -> Segment RangeProof)
  (serveK : Z -> Segment TransactionKernel).
Local Abbreviation nO := (Z.of_nat (length outputs)).
Local Abbreviation nK := (Z.of_nat (length kernels)).

(** The kernels of a segment, in their places. *)
Definition honest_kernels : Prop := forall k, 0 <= k -> k * 2 ^ 11 < nK ->
  sg_hash_pos (serveK k) = [] /\
  sg_leaves (serveK k) = take (2 ^ 11) (drop (Z.to_nat (k * 2 ^ 11)) kernels) /\
  sg_leaf_pos (serveK k) = map mmr_size (seqZ (k * 2 ^ 11) (length (sg_leaves (serveK k)))).

(** What the archive header commits to, and what peers answer with. *)
Record archive_ok : Prop := {
  ar_outputs : Forall (fun d => OutputIdentifier_wf V1 d /\ length (Serialized V1 d) = OUTPUT_SIZE) outputs;
  ar_proofs : Forall (fun d => RangeProof_wf V1 d /\ length (Serialized V1 d) = RANGE_PROOF_SIZE) proofs;
  ar_kernels : Forall (kernel_wf (wf := TransactionKernel_wf)) kernels;
  ar_length : length proofs = length outputs;
  ar_size : n_ok nO;
  ar_kernels_size : nK + 2 ^ 11 < 2 ^ 32;
  ar_header : GetNumOutputs hd = nO;
  ar_serveO : honest_segments outputs acc serveO;
  ar_serveP : honest_segments proofs acc serveP;
  ar_serveK : honest_kernels;
}.

Definition sync_state (aO aP aK : Z) t : Prop :=
  synced_to (wf := OutputIdentifier_wf) OUTPUT_SIZE outputs aO (m_pOutputPMMR t) /\
  synced_to (wf := RangeProof_wf) RANGE_PROOF_SIZE proofs aP (m_pRangeProofPMMR t) /\
  0 <= aK <= nK /\ exists cks, kernel_ok (wf := TransactionKernel_wf) Blake2b (take (Z.to_nat aK) kernels) cks (m_pKernelMMR t).

Definition leaf_sets_follow t : Prop :=
  follows_bitmap outputs acc (m_pOutputPMMR t) /\ follows_bitmap proofs acc (m_pRangeProofPMMR t).

Hypothesis Blake2b_length : forall x, length (Blake2b x) = 32%nat.
Hypothesis Blake2b_nonzero : forall x, Blake2b x <> ZERO_HASH.
Hypothesis Har : archive_ok.

Lemma sync_kernels aK cks k :
  0 <= aK < nK -> kernel_ok (wf := TransactionKernel_wf) Blake2b (take (Z.to_nat aK) kernels) cks k ->
  exists k', Kernel_ApplySegment Blake2b (serveK (aK / 2 ^ 11)) k = (Ok true, k') /\
    kernel_ok (wf := TransactionKernel_wf) Blake2b (take (Z.to_nat (seg_end nK 11 (aK / 2 ^ 11))) kernels) cks k'.
Proof.
  intros Ha Hok. set (k0 := aK / 2 ^ 11). assert (0 <= k0) by (apply Z.div_pos; lia).
  pose proof (Z.mul_div_le aK (2 ^ 11) ltac:(lia)). pose proof (Z.mul_succ_div_gt aK (2 ^ 11) ltac:(lia)). fold k0 in H0, H1.
  destruct (ar_serveK Har k0 ltac:(lia) ltac:(lia)) as (Eh & El & Ep). set (ds := sg_leaves (serveK k0)) in *.
  assert (length ds = seg_end nK 11 k0 - k0 * 2 ^ 11 :> Z) as Ld.
  { rewrite El, length_take, length_drop. unfold seg_end. change (2 ^ 11)%nat with (Z.to_nat (2 ^ 11)). lia. }
  assert (length (take (Z.to_nat aK) kernels) = aK :> Z) as La by (rewrite length_take; lia).
  assert (seg_end nK 11 k0 <= nK /\ aK < seg_end nK 11 k0) as [Hend Hlt] by (unfold seg_end; lia).
  assert (segment_kernels (serveK k0) (length (take (Z.to_nat aK) kernels)) = (drop (Z.to_nat (aK - k0 * 2 ^ 11)) ds, true)) as Es.
  { unfold segment_kernels. fold ds. rewrite Eh, bool_decide_true by done. cbn [negb].
    rewrite Ep, length_map, length_seqZ, Nat2Z.id, Z.eqb_refl. cbn [negb]. rewrite La. apply next_kernels_slice; lia. }
  destruct (kernel_ApplySegment Blake2b Blake2b_length _ _ k (serveK k0) Hok) as (k' & E & Hok').
  - split.
    + fold ds. rewrite El. apply Forall_take, Forall_drop, Har.
    + cbn [fst]. fold ds. pose proof (ar_kernels_size Har). lia.
  - rewrite Es in E, Hok'. cbn [fst snd] in E, Hok'. exists k'. split; [done|].
    replace (take (Z.to_nat (seg_end nK 11 k0)) kernels) with (take (Z.to_nat aK) kernels ++ drop (Z.to_nat (aK - k0 * 2 ^ 11)) ds); [done|].
    rewrite El, take_drop_commute, drop_drop. set (m := (Z.to_nat (k0 * 2 ^ 11) + 2 ^ 11)%nat).
    replace (Z.to_nat (k0 * 2 ^ 11) + Z.to_nat (aK - k0 * 2 ^ 11))%nat with (Z.to_nat aK) by lia.
    assert (take (Z.to_nat (seg_end nK 11 k0)) kernels = take m kernels) as ->.
    { unfold seg_end, m. change (2 ^ 11)%nat with (Z.to_nat (2 ^ 11)). destruct (Z.min_spec ((k0 + 1) * 2 ^ 11) nK) as [[? ->]|[? ->]].
      - f_equal. lia.
      - rewrite !take_ge by lia. done. }
    etrans; [|apply (take_drop (Z.to_nat aK))]. f_equal. rewrite take_take. f_equal.
    unfold m. change (2 ^ 11)%nat with (Z.to_nat (2 ^ 11)). lia.
Qed.

Lemma sync_target : applies_segments (H2 := TxHashSet_SyncTarget) hd acc nO nK serveO serveP serveK sync_state leaf_sets_follow.
Proof.
  constructor; unfold sync_state, leaf_sets_follow.
  - intros aO aP aK t Ha (HO & HP & HK).
    destruct (half_apply OUTPUT_SIZE outputs acc serveO Blake2b_length OUTPUT_SIZE_small (ar_outputs Har) (ar_size Har) aO _ (ar_serveO Har) Ha HO)
      as (m & E & HO'). eexists. split.
    + cbn [ApplyOutputSegment TxHashSet_SyncTarget]. unfold TxHashSet_ApplyOutputSegment, on_outputs.
      erewrite st_bind_ok by reflexivity. erewrite st_zoom_run by exact E. reflexivity.
    + split; [exact HO'|]. split; [exact HP|exact HK].
  - intros aO aP aK t Ha (HO & HP & HK). assert (length proofs = length outputs) as El by apply Har. rewrite <- El in Ha |- *.
    destruct (half_apply RANGE_PROOF_SIZE proofs acc serveP Blake2b_length RANGE_PROOF_SIZE_small (ar_proofs Har)
      ltac:(rewrite El; apply Har) aP _ (ar_serveP Har) Ha HP)
      as (m & E & HP'). eexists. split.
    + cbn [ApplyRangeProofSegment TxHashSet_SyncTarget]. unfold TxHashSet_ApplyRangeProofSegment, on_rangeProofs.
      erewrite st_zoom_run by exact E. reflexivity.
    + split; [exact HO|]. split; [exact HP'|exact HK].
  - intros aO aP aK t Ha (HO & HP & HK & cks & Hok).
    destruct (sync_kernels aK cks _ Ha Hok) as (k & E & Hok'). eexists. split.
    + cbn [ApplyKernelSegment TxHashSet_SyncTarget]. unfold TxHashSet_ApplyKernelSegment, on_kernels. erewrite st_zoom_run by exact E. reflexivity.
    + split; [exact HO|]. split; [exact HP|]. split; [|by exists cks]. unfold seg_end. assert (0 <= aK / 2 ^ 11) by (apply Z.div_pos; lia). lia.
  - intros aO aP aK t (HO & HP & HK & cks & Hok).
    destruct (kernel_Commit Blake2b _ _ _ Hok) as (k & Ek & Hok').
    destruct (half_Commit OUTPUT_SIZE outputs acc aO _ HO) as (mo & Eo & HO' & Fo).
    destruct (half_Commit RANGE_PROOF_SIZE proofs acc aP _ HP) as (mp & Ep & HP' & Fp).
    eexists. split; [|split].
    + cbn [SyncTarget_Commit TxHashSet_SyncTarget]. unfold TxHashSet_Commit, on_kernels, on_outputs, on_rangeProofs.
      erewrite st_bind_ok; [|erewrite st_zoom_run; [reflexivity|exact Ek]].
      erewrite st_bind_ok; [|erewrite st_zoom_run; [reflexivity|exact Eo]].
      erewrite st_bind_ok; [|erewrite st_zoom_run; [reflexivity|exact Ep]]. reflexivity.
    + split; [exact HO'|]. split; [exact HP'|]. split; [exact HK|by eexists].
    + intros [Bo Bp]. split; [by apply Fo|by apply Fp].
  - intros t (HO & HP & HK). rewrite (ar_header Har). cbn [UpdateLeafSets TxHashSet_SyncTarget TxHashSet_UpdateLeafSets].
    assert (nO < 2 ^ 58) as Hn by (pose proof (n_ok_bound _ (ar_size Har)); lia).
    destruct (half_UpdateLeafSet OUTPUT_SIZE outputs acc _ Hn HO) as [HO' Fo].
    pose proof (ar_length Har) as El. rewrite <- El in HP.
    destruct (half_UpdateLeafSet RANGE_PROOF_SIZE proofs acc _ ltac:(lia) HP) as [HP' Fp].
    rewrite El in HP'. rewrite El in Fp.
    split; [split; [exact HO'|split; [exact HP'|exact HK]]|split; [exact Fo|exact Fp]].
Qed.

Lemma sync_sizes aO aP aK t : 0 <= aO <= nO -> 0 <= aP <= nO -> sync_state aO aP aK t ->
  GetOutputMMRSize t = mmr_size aO /\ GetRangeProofMMRSize t = mmr_size aP /\ GetKernelMMRSize t = mmr_size aK.
Proof.
  intros HO HP ([[co Oo] _ _ _] & [[cp Op] _ _ _] & HK & ck & Ok').
  unfold GetOutputMMRSize, GetRangeProofMMRSize, GetKernelMMRSize, KernelMMR_GetSize. pose proof (ar_length Har).
  rewrite (pmmr_GetSize _ _ _ _ _ Oo), (pmmr_GetSize _ _ _ _ _ Op), !length_take.
  split; [f_equal; lia|]. split; [f_equal; lia|]. pose proof Ok' as [Hk _ (l & lc & Hh & Ht & _) _].
  destruct Ht as [El _]. rewrite (hf_size_ok _ _ _ Hh), El, v1_bytes_length, length_take. f_equal. lia.
Qed.

(** C8: a sync completes.  With honest peers, after enough rounds the hash set
    holds the outputs, range proofs and kernels of the archive header, its leaf
    sets are those of the bitmap, and its MMRs have the roots of these leaves. *)
Theorem sync_restores_TxHashSet order (rounds : list (Z * list (option string))) aO aP aK t
    (p : PIBD (OT := OutputIdentifier) (PT := RangeProof) (KT := TransactionKernel) (W := TS)) :
  (forall l, order l ≡ₚ l) -> Forall (fun r => omap id r.2 <> []) rounds ->
  header_commits Blake2b hd chunks acc nO nK -> honest_peers Blake2b hd chunks acc nO nK serveB serveO serveP serveK ->
  m_pDesegmenter p = None -> 0 <= aO <= nO -> 0 <= aP <= nO -> 0 <= aK <= nK -> sync_state aO aP aK t ->
  segs_left (length chunks) 9 0 + 1 + data_left nO nK aO aP aK < length rounds ->
  exists p' t',
    sync_rounds (H2 := TxHashSet_SyncTarget) Blake2b blockHash serveB serveO serveP serveK order rounds
      (StartPIBD (H2 := TxHashSet_SyncTarget) hd blockHash t p) = (Ok tt, p') /\
    IsPIBDComplete p' = true /\ m_segmentRequests p' = [] /\ pp_txHashSet p' = Some t' /\
    sync_state nO nO nK t' /\ leaf_sets_follow t' /\
    PruneableMMR_Root Blake2b (mmr_size nO) (m_pOutputPMMR t') = Ok (mmr_root Blake2b (leaf_bytes outputs)) /\
    PruneableMMR_Root Blake2b (mmr_size nO) (m_pRangeProofPMMR t') = Ok (mmr_root Blake2b (leaf_bytes proofs)) /\
    KernelMMR_Root Blake2b (mmr_size nK) (m_pKernelMMR t') = Ok (mmr_root Blake2b (leaf_bytes kernels)).
Proof.
  intros Hord Hr Hc Hpeers Hp HO HP HK HJ Hlen.
  destruct (sync_completes_ok (H2 := TxHashSet_SyncTarget) Blake2b hd chunks acc nO nK blockHash serveB serveO serveP serveK sync_state
    leaf_sets_follow Blake2b_length Hc Hpeers sync_target order rounds aO aP aK t p Hord Hr Hp HO HP HK HJ) as (p' & t' & E & H1 & H2 & H3 & H4 & H5);
    [apply (sync_sizes aO aP aK t); done..|exact Hlen|].
  exists p', t'. do 4 (split; [done|]). split; [done|]. split; [done|].
  destruct H4 as ([[co Oo] _ _ _] & [[cp Op] _ _ _] & _ & ck & Ok'). pose proof (ar_length Har) as El.
  rewrite Nat2Z.id, firstn_all in Oo, Ok'. rewrite <- El, Nat2Z.id, firstn_all in Op.
  split; [by eapply pmmr_Root|]. split; [rewrite <- El; by eapply pmmr_Root|].
  rewrite (kernel_Root_prefix Blake2b Blake2b_length Blake2b_nonzero kernels ck _ (length kernels) Ok') by done. by rewrite firstn_all.
Qed.
End target.

(** ** Evaluation: two outputs and a kernel

    The chain of the block [block1] of [TxHashSetTheorems], from an empty hash
    set, in four rounds. *)
Definition sync_outputs : list OutputIdentifier := ts_outputs outputs1.
Definition sync_proofs : list RangeProof := ts_proofs outputs1.
Definition sync_kernels_list : list TransactionKernel := ts_kernels outputs1.
Definition sync_chunks : list BitmapChunk := [bitmap_chunk (ts_unspent outputs1) 0].
Definition sync_acc : BitmapAccumulator := mkBitmapAccumulator sync_chunks [node_hash toy_hash (map chunk_bytes sync_chunks) 0 0].
Definition sync_header : BlockHeader := header1.

Definition data_segment {D} (data : list D) : Segment D :=
  mkSegment (mkSegmentIdentifier 11 0) [] [] (map mmr_size (seqZ 0 (length data))) data (mkSegmentProof []).
Definition sync_serveB (_ : Z) : BitmapSegment * Hash :=
  (mkBitmapSegment (mkSegmentIdentifier 9 0) [BitmapSegmentBlock_FromChunks sync_chunks] (mkSegmentProof []),
   mmr_root toy_hash (leaf_bytes sync_outputs)).

Definition sync_rounds4 : list (Z * list (option string)) := repeat (0, [Some "peer"%string]) 4.
Definition sync_start : PIBD (OT := OutputIdentifier) (PT := RangeProof) (KT := TransactionKernel) (W := TxHashSet DataFile (list Z)) :=
  mkPIBD None None [] 0 0 false None.

Lemma sync_header_commits : header_commits toy_hash sync_header sync_chunks sync_acc 2 1.
Proof.
  constructor; [lia|lia|reflexivity|reflexivity|reflexivity| |reflexivity].
  constructor.
  - constructor; [|constructor]. apply (bitmap_chunk_bits (ts_unspent outputs1) 0).
  - split; [reflexivity|]. intros h i Hi Hh. cbn [length map m_chunks sync_acc sync_chunks] in Hh.
    pose proof (pow2_pos h ltac:(lia)). assert (i = 0) as -> by nia. destruct h; [reflexivity|].
    exfalso. assert (2 ^ 1 <= 2 ^ S h) by (apply Z.pow_le_mono_r; lia). lia.
Qed.

Lemma sync_honest_peers : honest_peers toy_hash sync_header sync_chunks sync_acc 2 1 sync_serveB
  (fun _ => data_segment sync_outputs) (fun _ => data_segment sync_proofs) (fun _ => data_segment sync_kernels_list).
Proof.
  constructor; intros k H0 Hk; assert (k = 0) as -> by (cbn [length sync_chunks] in Hk; lia).
  - exists (mkSegment (mkSegmentIdentifier 9 0) [] [] [0] sync_chunks (mkSegmentProof [])).
    split; [|by split]. split; [vm_compute; reflexivity|]. split; [reflexivity|vm_compute; reflexivity].
  - split; [reflexivity|]. exists (mmr_root toy_hash (leaf_bytes sync_outputs)), 3, (mmr_root toy_hash (map chunk_bytes sync_chunks)).
    split; [vm_compute; reflexivity|]. split; vm_compute; reflexivity.
  - split; [reflexivity|]. exists (bh_rangeProofRoot sync_header). split; vm_compute; reflexivity.
  - split; [reflexivity|]. exists (bh_kernelRoot sync_header). split; vm_compute; reflexivity.
Qed.

Lemma sync_cover {D} `{Serializable D} (a b : D) n :
  n < 2 -> n = 0 * 2 ^ 11 \/ 0 = 0 /\ n = 1 ->
  cover toy_hash [a; b] (data_segment [a; b]) 3 (Some sync_acc) n (orderedNodes (data_segment [a; b])) (seg_end 2 11 0).
Proof.
  intros Hn Hs. change (seg_end 2 11 0) with 2.
  assert (orderedNodes (data_segment [a; b]) = [mkSegmentNode 0 (mmr_size 0) false; mkSegmentNode 1 (mmr_size (0 + 1)) false]) as -> by (vm_compute; reflexivity).
  assert (n = 0 \/ n = 1) as [->| ->] by lia.
  - apply (cover_leaf _ _ _ _ _ 0 0 a); [reflexivity|reflexivity|vm_compute; reflexivity|].
    apply (cover_leaf _ _ _ _ _ (0 + 1) 1 b); [reflexivity|reflexivity|vm_compute; reflexivity|constructor].
  - apply cover_present; [reflexivity|].
    apply (cover_leaf _ _ _ _ _ (0 + 1) 1 b); [reflexivity|reflexivity|vm_compute; reflexivity|constructor].
Qed.

Lemma sync_archive_ok : archive_ok toy_hash sync_header sync_acc sync_outputs sync_proofs sync_kernels_list
  (fun _ => data_segment sync_outputs) (fun _ => data_segment sync_proofs) (fun _ => data_segment sync_kernels_list).
Proof.
  constructor.
  - repeat (constructor; [split; [split; [done|reflexivity]|reflexivity]|]). constructor.
  - repeat (constructor; [split; [reflexivity|reflexivity]|]). constructor.
  - constructor; [|constructor]. apply example_kernel_ok. vm_compute. split; congruence.
  - reflexivity.
  - split; [vm_compute; congruence|vm_compute; reflexivity].
  - vm_compute. reflexivity.
  - vm_compute. reflexivity.
  - intros k H0 Hk. assert (k = 0) as -> by (cbn in Hk; lia). split; [reflexivity|]. split; [reflexivity|]. apply sync_cover.
  - intros k H0 Hk. assert (k = 0) as -> by (cbn in Hk; lia). split; [reflexivity|]. split; [reflexivity|]. apply sync_cover.
  - intros k H0 Hk. assert (k = 0) as -> by (cbn in Hk; lia). split; [reflexivity|]. split; reflexivity.
Qed.

Lemma sync_state_empty : sync_state toy_hash sync_outputs sync_proofs sync_kernels_list 0 0 0 empty_txhashset.
Proof.
  split; [|split; [|split; [cbn; lia|exists []; apply empty_kernel_mmr_ok]]].
  - constructor; [exists []; apply empty_pm_ok; pose proof OUTPUT_SIZE_small; lia|apply map_Forall_empty|right; by left|done].
  - constructor; [exists []; apply empty_pm_ok; pose proof RANGE_PROOF_SIZE_small; lia|apply map_Forall_empty|right; by left|done].
Qed.

Lemma sync_restores_TxHashSet_witness :
  exists p' t', pp_txHashSet p' = Some t' /\ IsPIBDComplete p' = true /\
    sync_rounds (H2 := TxHashSet_SyncTarget toy_hash) toy_hash (repeat 1 32) sync_serveB (fun _ => data_segment sync_outputs)
      (fun _ => data_segment sync_proofs) (fun _ => data_segment sync_kernels_list) id sync_rounds4
      (StartPIBD (H2 := TxHashSet_SyncTarget toy_hash) sync_header (repeat 1 32) empty_txhashset sync_start) = (Ok tt, p') /\
    KernelMMR_Root toy_hash 1 (m_pKernelMMR t') = Ok (bh_kernelRoot sync_header).
Proof.
  destruct (sync_restores_TxHashSet toy_hash sync_header sync_chunks sync_acc (repeat 1 32) sync_outputs sync_proofs sync_kernels_list
    sync_serveB (fun _ => data_segment sync_outputs) (fun _ => data_segment sync_proofs) (fun _ => data_segment sync_kernels_list)
    toy_hash_length toy_hash_nonzero sync_archive_ok id sync_rounds4 0 0 0 empty_txhashset sync_start)
    as (p' & t' & E & Hc & _ & Et & _ & _ & _ & _ & Hk).
  - done.
  - repeat constructor; discriminate.
  - exact sync_header_commits.
  - exact sync_honest_peers.
  - reflexivity.
  - cbn; lia.
  - cbn; lia.
  - cbn; lia.
  - exact sync_state_empty.
  - vm_compute. reflexivity.
  - exists p', t'. split; [exact Et|]. split; [exact Hc|]. split; [exact E|]. exact Hk.
Defined.
