(* ===== verification/Difficulty.v ===== *)
(** * Difficulty adjustment ([src/PoW/HeaderInfo.h], [DifficultyLoader.cpp],
    [DifficultyCalculator.cpp], [PoWValidator.cpp])

    The difficulty the next block must have, from the last headers: an average
    over a window of an hour (DMA), from header version 5 on a weighted moving
    average of the last block alone (WTEMA).  The block database is a lookup of
    headers by hash. *)
From S2P Require Import Prelude BitUtil Consensus UInt128 MMRIndex Serial BigInteger MMRHash Transaction Header.

(** ** [HeaderInfo] *)
Record HeaderInfo := mkHeaderInfo { hi_timestamp : Z; hi_difficulty : Z; hi_secondaryScaling : Z; hi_secondary : bool }.

Definition FromTimeAndDiff (timestamp difficulty : Z) : HeaderInfo := mkHeaderInfo timestamp difficulty INITIAL_GRAPH_WEIGHT true.
Definition FromDiffAndScaling (difficulty secondaryScaling : Z) : HeaderInfo := mkHeaderInfo 1 difficulty (uint 32 secondaryScaling) true.

(** ** [DifficultyLoader] *)

(** The loop that fills in simulated blocks. *)
Fixpoint pad_loop (n : nat) (last_ts last_ts_delta last_diff : Z) (difficultyData : list HeaderInfo) : list HeaderInfo :=
  match n with
  | O => difficultyData
  | S n =>
      let last_ts := (last_ts - Z.min last_ts last_ts_delta)%u64 in
      pad_loop n last_ts last_ts_delta last_diff (difficultyData ++ [FromTimeAndDiff last_ts last_diff])
  end.

Definition numBlocksNeeded : nat := Z.to_nat (DIFFICULTY_ADJUST_WINDOW + 1).

(** Reading the first element of an empty vector is undefined. *)
Definition PadDifficultyData (difficultyData : list HeaderInfo) : result (list HeaderInfo) :=
  let size := length difficultyData in
  if bool_decide (size < numBlocksNeeded)%nat then
    match difficultyData with
    | [] => Throw UB
    | first :: _ =>
        let last_ts_delta :=
          match difficultyData with
          | a :: b :: _ => (hi_timestamp a - hi_timestamp b)%u64
          | _ => BLOCK_TIME_SEC
          end in
        let last_diff := hi_difficulty first in
        let last_ts := hi_timestamp (List.last difficultyData first) in
        Ok (rev (pad_loop (numBlocksNeeded - size) last_ts last_ts_delta last_diff difficultyData))
    end
  else Ok (rev difficultyData).

Section calculator.
Context (GetBlockHeader : Hash -> option BlockHeader) (env : Environment).

Fixpoint LoadDifficultyData_loop (fuel : nat) (difficultyData : list HeaderInfo) (pHeader : option BlockHeader) : result (list HeaderInfo) :=
  match pHeader with
  | Some h =>
      if bool_decide (length difficultyData < numBlocksNeeded)%nat then
        match fuel with
        | O => Throw OutOfFuel
        | S fuel =>
            let timestamp := uint 64 (bh_timestamp h) in
            let totalDifficulty := bh_totalDifficulty h in
            let scalingFactor := bh_scalingDifficulty h in
            let secondary := ProofOfWork_IsSecondary (bh_proofOfWork h) in
            let pHeader := GetBlockHeader (bh_previousBlockHash h) in
            let difficulty :=
              match pHeader with
              | Some p => (totalDifficulty - bh_totalDifficulty p)%u64
              | None => totalDifficulty
              end in
            LoadDifficultyData_loop fuel (difficultyData ++ [mkHeaderInfo timestamp difficulty scalingFactor secondary]) pHeader
        end
      else Ok difficultyData
  | None => Ok difficultyData
  end.

Definition LoadDifficultyData (header : BlockHeader) : result (list HeaderInfo) :=
  difficultyData ← LoadDifficultyData_loop numBlocksNeeded [] (GetBlockHeader (bh_previousBlockHash header));
  PadDifficultyData difficultyData.

(** ** [DifficultyCalculator] *)
Definition ARCount (difficultyData : list HeaderInfo) : Z :=
  let numSecondary := foldl (fun n headerInfo => if hi_secondary headerInfo then (n + 1)%u64 else n) 0 difficultyData in
  (numSecondary * 100)%u64.

Definition ScalingFactorSum (difficultyData : list HeaderInfo) : Z :=
  foldl (fun n headerInfo => (n + hi_secondaryScaling headerInfo)%u64) 0 difficultyData.

Definition SecondaryPOWScaling (height : Z) (difficultyData : list HeaderInfo) : Z :=
  let scale_sum := ScalingFactorSum difficultyData in
  let target_pct := SecondaryPOWRatio height in
  let target_count := (DIFFICULTY_ADJUST_WINDOW * target_pct)%u64 in
  let actual := Damp (ARCount difficultyData) target_count AR_SCALE_DAMP_FACTOR in
  let adj_count := Clamp actual target_count CLAMP_FACTOR in
  let scale := (scale_sum * target_pct)%u64 / Z.max 1 adj_count in
  uint 32 (Z.max MIN_AR_SCALE scale).

Definition NextDMA (header : BlockHeader) : result HeaderInfo :=
  difficultyData ← LoadDifficultyData header;
  let difficultyDataSkipFirst := drop 1 difficultyData in
  let sec_pow_scaling := SecondaryPOWScaling (bh_height header) difficultyDataSkipFirst in
  match difficultyData !! Z.to_nat DIFFICULTY_ADJUST_WINDOW, difficultyData !! 0%nat with
  | Some last, Some first =>
      let ts_delta := (hi_timestamp last - hi_timestamp first)%u64 in
      let difficultySum := foldl (fun sum headerInfo => (sum + hi_difficulty headerInfo)%u64) 0 difficultyDataSkipFirst in
      let actual := Damp ts_delta BLOCK_TIME_WINDOW DMA_DAMP_FACTOR in
      let adj_ts := Clamp actual BLOCK_TIME_WINDOW CLAMP_FACTOR in
      let difficulty := Z.max MIN_DMA_DIFFICULTY ((difficultySum * BLOCK_TIME_SEC)%u64 / adj_ts) in
      mret (FromDiffAndScaling difficulty sec_pow_scaling)
  | _, _ => Throw UB
  end.

(** A division by zero is undefined. *)
Definition NextWTEMA (header : BlockHeader) : result HeaderInfo :=
  match GetBlockHeader (bh_previousBlockHash header) with
  | None => Throw RuntimeError
  | Some pLastHeader =>
      match GetBlockHeader (bh_previousBlockHash pLastHeader) with
      | None => Throw RuntimeError
      | Some pPrevHeader =>
          let last_block_time := uint 64 (bh_timestamp pLastHeader - bh_timestamp pPrevHeader) in
          let last_diff := (bh_totalDifficulty pLastHeader - bh_totalDifficulty pPrevHeader)%u64 in
          let divisor := (WTEMA_HALF_LIFE - BLOCK_TIME_SEC + last_block_time)%u64 in
          if divisor =? 0 then Throw UB
          else
            let next_diff := (last_diff * WTEMA_HALF_LIFE)%u64 / divisor in
            min_weight ← min_wtema_graph_weight env;
            let difficulty := Z.max min_weight next_diff in
            mret (FromDiffAndScaling difficulty 0)
      end
  end.

Definition CalculateNextDifficulty (header : BlockHeader) : result HeaderInfo :=
  if bh_version header <? 5 then NextDMA header else NextWTEMA header.

End calculator.

(** ** [PoWValidator::GetMaximumDifficulty]

    The bytes are reversed and copied into an integer of the host, taken to be
    little-endian. *)
Definition GetMaximumDifficulty (header : BlockHeader) : result Z :=
  let proofOfWork := bh_proofOfWork header in
  scalingDifficulty ←
    (if pow_edgeBits proofOfWork =? SECOND_POW_EDGE_BITS then mret (u128_of (bh_scalingDifficulty header))
     else scaling ← ScalingDifficulty (pow_edgeBits proofOfWork); mret (u128_of scaling));
  let temp := rev (take 8 (pow_hash proofOfWork)) in
  let hash64 := memcpy_to false temp in
  let scaled := u128_shl scalingDifficulty (u128_of 64) in
  let hash128 := u128_of (Z.max 1 hash64) in
  difference ← u128_div scaled hash128;
  if u128_lt difference (u128_of (2 ^ 64 - 1)) then mret (u128_to_u64 difference) else mret (2 ^ 64 - 1).

(** ** The window of headers *)

Definition pad_info (last_diff ts : Z) : HeaderInfo := FromTimeAndDiff ts last_diff.

Lemma pad_loop_spec n ts delta diff data : exists padding,
  pad_loop n ts delta diff data = data ++ padding /\ length padding = n /\
  Forall (fun i => hi_difficulty i = diff /\ hi_secondary i = true /\ hi_secondaryScaling i = INITIAL_GRAPH_WEIGHT) padding.
Proof.
  revert ts data. induction n as [|n IH]; intros ts data; cbn [pad_loop]; [exists []; by rewrite app_nil_r|].
  edestruct IH as (padding & -> & Hl & Hp). eexists (_ :: padding). rewrite <- app_assoc. split; [reflexivity|].
  split; [simpl; by rewrite Hl|]. by constructor.
Qed.

Lemma PadDifficultyData_spec first data : (length (first :: data) <= numBlocksNeeded)%nat ->
  exists padding, PadDifficultyData (first :: data) = Ok (rev ((first :: data) ++ padding)) /\
    length ((first :: data) ++ padding) = numBlocksNeeded /\
    Forall (fun i => hi_difficulty i = hi_difficulty first /\ hi_secondary i = true /\ hi_secondaryScaling i = INITIAL_GRAPH_WEIGHT) padding.
Proof.
  intros Hl. unfold PadDifficultyData. destruct (bool_decide_reflect (length (first :: data) < numBlocksNeeded)%nat).
  - edestruct (pad_loop_spec (numBlocksNeeded - length (first :: data))) as (padding & -> & Hp & Hf). exists padding.
    split; [reflexivity|]. split; [|done]. rewrite length_app, Hp. lia.
  - exists []. rewrite app_nil_r. split; [reflexivity|]. split; [lia|constructor].
Qed.

Lemma foldl_sum (f : HeaderInfo -> Z) l z : 0 <= z -> Forall (fun i => 0 <= f i) l -> z + sum_of f l < 2 ^ 64 ->
  foldl (fun sum i => (sum + f i)%u64) z l = z + sum_of f l.
Proof.
  intros Hz Hl. revert z Hz. induction Hl as [|i l Hi Hl IH]; intros z Hz Hs; cbn [foldl]; unfold sum_of in *; cbn [foldr] in *; [lia|].
  assert (0 <= foldr (fun a z => f a + z) 0 l) by (clear -Hl; induction Hl; cbn [foldr]; lia).
  rewrite uint_small by uint_solve. rewrite IH by lia. lia.
Qed.

Section window.
Context (GetBlockHeader : Hash -> option BlockHeader).

(** The headers from [pHeader] back, at most [n]. *)
Fixpoint ancestors (n : nat) (pHeader : option BlockHeader) : list BlockHeader :=
  match n, pHeader with
  | S n, Some h => h :: ancestors n (GetBlockHeader (bh_previousBlockHash h))
  | _, _ => []
  end.

(** What a header contributes: its own difficulty is the increase of the total. *)
Definition block_info (h : BlockHeader) : HeaderInfo :=
  mkHeaderInfo (uint 64 (bh_timestamp h))
    (match GetBlockHeader (bh_previousBlockHash h) with Some p => (bh_totalDifficulty h - bh_totalDifficulty p)%u64 | None => bh_totalDifficulty h end)
    (bh_scalingDifficulty h) (ProofOfWork_IsSecondary (bh_proofOfWork h)).

Lemma ancestors_length n p : (length (ancestors n p) <= n)%nat.
Proof. revert p. induction n as [|n IH]; intros [h|]; cbn [ancestors length]; try lia. specialize (IH (GetBlockHeader (bh_previousBlockHash h))). lia. Qed.

Lemma LoadDifficultyData_loop_ok fuel data p : (length data + fuel = numBlocksNeeded)%nat ->
  LoadDifficultyData_loop GetBlockHeader fuel data p = Ok (data ++ map block_info (ancestors fuel p)).
Proof.
  revert data p. induction fuel as [|fuel IH]; intros data [h|] Hl; cbn [LoadDifficultyData_loop ancestors map].
  - rewrite bool_decide_eq_false_2 by lia. by rewrite app_nil_r.
  - by rewrite app_nil_r.
  - rewrite bool_decide_eq_true_2 by lia. rewrite IH by (rewrite length_app; simpl; lia). by rewrite <- app_assoc.
  - by rewrite app_nil_r.
Qed.

(** The window of the block after [last]. *)
Lemma LoadDifficultyData_ok header last : GetBlockHeader (bh_previousBlockHash header) = Some last ->
  exists padding, LoadDifficultyData GetBlockHeader header = Ok (rev (map block_info (ancestors numBlocksNeeded (Some last)) ++ padding)) /\
    length (map block_info (ancestors numBlocksNeeded (Some last)) ++ padding) = numBlocksNeeded /\
    Forall (fun i => hi_difficulty i = hi_difficulty (block_info last) /\ hi_secondary i = true /\ hi_secondaryScaling i = INITIAL_GRAPH_WEIGHT) padding.
Proof.
  intros E. unfold LoadDifficultyData. rewrite E, LoadDifficultyData_loop_ok by (simpl; lia).
  pose proof (ancestors_length numBlocksNeeded (Some last)) as Hl.
  assert (ancestors numBlocksNeeded (Some last) = last :: ancestors 60 (GetBlockHeader (bh_previousBlockHash last))) as Ea by reflexivity.
  rewrite Ea in *. cbn [mbind result_bind app map]. apply PadDifficultyData_spec. cbn [length] in *. by rewrite length_map.
Qed.

End window.

(** ** Properties *)

Section properties.
Context (GetBlockHeader : Hash -> option BlockHeader).

(** the loader returns 61 entries, oldest first: those of the headers back
    from the previous block and, before them, simulated blocks of the difficulty
    of the last one; without a previous block it reads outside its vector. *)
Theorem LoadDifficultyData_spec header :
  match GetBlockHeader (bh_previousBlockHash header) with
  | None => LoadDifficultyData GetBlockHeader header = Throw UB
  | Some last => exists padding data,
      LoadDifficultyData GetBlockHeader header = Ok data /\
      data = padding ++ rev (map (block_info GetBlockHeader) (ancestors GetBlockHeader 61 (Some last))) /\
      length data = 61%nat /\
      Forall (fun i => hi_difficulty i = hi_difficulty (block_info GetBlockHeader last) /\ hi_secondary i = true /\
        hi_secondaryScaling i = INITIAL_GRAPH_WEIGHT) padding
  end.
Proof.
  destruct (GetBlockHeader (bh_previousBlockHash header)) as [last|] eqn:E.
  - destruct (LoadDifficultyData_ok GetBlockHeader header last E) as (padding & Ed & Hl & Hp).
    exists (rev padding), (rev (map (block_info GetBlockHeader) (ancestors GetBlockHeader numBlocksNeeded (Some last)) ++ padding)).
    split; [done|]. split; [apply rev_app_distr|]. split; [by rewrite length_rev|by apply Forall_rev].
  - unfold LoadDifficultyData. rewrite E. reflexivity.
Qed.

(** C33: whatever the timestamps, as long as the difficulties of the window do not
    add up to 2^58, the window average moves the difficulty by at
    most a factor of two from the mean of the window, never below the minimum;
    a window that took an hour gives the mean itself. *)
Theorem NextDMA_bounds header last data :
  GetBlockHeader (bh_previousBlockHash header) = Some last ->
  LoadDifficultyData GetBlockHeader header = Ok data ->
  Forall (fun i => 0 <= hi_difficulty i) data -> sum_of hi_difficulty (drop 1 data) < 2 ^ 58 ->
  let sum := sum_of hi_difficulty (drop 1 data) in
  exists d scaling, NextDMA GetBlockHeader header = Ok (FromDiffAndScaling d scaling) /\
    Z.max 3 (sum * 60 / 7200) <= d <= Z.max 3 (sum * 60 / 1800) /\
    (forall a b, data !! 0%nat = Some a -> data !! 60%nat = Some b -> uint 64 (hi_timestamp b - hi_timestamp a) = 3600 -> d = Z.max 3 (sum / 60)).
Proof.
  intros E Ed Hd Hsum sum. destruct (LoadDifficultyData_ok GetBlockHeader header last E) as (padding & Ed' & Hl & _).
  assert (length data = 61%nat) as Hlen.
  { assert (Ok data = Ok (rev (map (block_info GetBlockHeader) (ancestors GetBlockHeader numBlocksNeeded (Some last)) ++ padding))) as Edata by congruence.
    apply (f_equal (fun r => match r with Ok l => length l | Throw _ => 0%nat end)) in Edata. by rewrite length_rev, Hl in Edata. }
  destruct (lookup_lt_is_Some_2 data 0 ltac:(lia)) as [a Ha]. destruct (lookup_lt_is_Some_2 data 60 ltac:(lia)) as [b Hb].
  unfold NextDMA. rewrite Ed. cbn [mbind result_bind]. change (Z.to_nat DIFFICULTY_ADJUST_WINDOW) with 60%nat. rewrite Ha, Hb.
  set (delta := uint 64 (hi_timestamp b - hi_timestamp a)).
  set (adj := Clamp (Damp delta BLOCK_TIME_WINDOW DMA_DAMP_FACTOR) BLOCK_TIME_WINDOW CLAMP_FACTOR).
  assert (Forall (fun i => 0 <= hi_difficulty i) (drop 1 data)) as Hd' by (by apply Forall_drop).
  assert (0 <= sum) as Hs0 by (unfold sum; clear -Hd'; induction Hd'; unfold sum_of in *; cbn [foldr]; lia).
  rewrite foldl_sum by (done || lia). fold sum. rewrite Z.add_0_l. change BLOCK_TIME_SEC with 60. rewrite uint_small by uint_solve.
  change MIN_DMA_DIFFICULTY with 3. eexists _, _. split; [reflexivity|].
  pose proof (Clamp_bounds (Damp delta BLOCK_TIME_WINDOW DMA_DAMP_FACTOR) BLOCK_TIME_WINDOW CLAMP_FACTOR ltac:(done) ltac:(done)) as Hadj.
  fold adj in Hadj. change (BLOCK_TIME_WINDOW / CLAMP_FACTOR) with 1800 in Hadj. change (BLOCK_TIME_WINDOW * CLAMP_FACTOR) with 7200 in Hadj.
  split.
  - assert (sum * 60 / 7200 <= sum * 60 / adj) by (apply Z.div_le_compat_l; lia).
    assert (sum * 60 / adj <= sum * 60 / 1800) by (apply Z.div_le_compat_l; lia). lia.
  - intros a' b' [= <-] [= <-] Hdelta. fold delta in Hdelta. assert (adj = 3600) as -> by (unfold adj; by rewrite Hdelta).
    f_equal. change 3600 with (60 * 60). by rewrite Z.div_mul_cancel_r by lia.
Qed.

(** the moving average never falls below the minimum of the network; a block
    after exactly 60 seconds keeps the difficulty, a slower one does not raise
    it, and on the main network a faster one raises it strictly. *)
Theorem NextWTEMA_spec env header last prev :
  GetBlockHeader (bh_previousBlockHash header) = Some last -> GetBlockHeader (bh_previousBlockHash last) = Some prev ->
  let time := bh_timestamp last - bh_timestamp prev in
  let diff := bh_totalDifficulty last - bh_totalDifficulty prev in
  0 <= time < 2 ^ 40 -> 0 <= diff < 2 ^ 50 ->
  exists d min, NextWTEMA GetBlockHeader env header = Ok (FromDiffAndScaling d 0) /\
    min_wtema_graph_weight env = Ok min /\ min <= d /\
    (time = 60 -> d = Z.max min diff) /\ (60 <= time -> d <= Z.max min diff) /\
    (time < 60 -> env = MAINNET -> 16384 <= diff -> diff < d).
Proof.
  intros E1 E2 time diff Ht Hd. unfold NextWTEMA. rewrite E1, E2. fold time diff. change WTEMA_HALF_LIFE with 14400. change BLOCK_TIME_SEC with 60.
  clearbody time diff. rewrite (uint_small 64 diff), (uint_small 64 time) by uint_solve.
  rewrite (uint_small 64 (diff * 14400)), (uint_small 64 (14400 - 60 + time)) by uint_solve.
  destruct (Z.eqb_spec (14400 - 60 + time) 0); [lia|].
  assert (exists min, min_wtema_graph_weight env = Ok min /\ (env = MAINNET -> min = 16384)) as (min & -> & Hmin).
  { destruct env; eexists; (split; [reflexivity|]); done. }
  cbn [mbind result_bind mret result_ret]. eexists _, min. split; [reflexivity|]. split; [done|]. split; [lia|].
  split; [|split].
  - intros ->. change (14400 - 60 + 60) with 14400. by rewrite Z.div_mul by lia.
  - intros H60. assert (diff * 14400 / (14400 - 60 + time) <= diff) by (apply Z.div_le_upper_bound; nia). lia.
  - intros H60 ->. intros Hdiff. assert (diff + 1 <= diff * 14400 / (14400 - 60 + time)) by (apply Z.div_le_lower_bound; nia). lia.
Qed.

(** the maximum difficulty of a proof is the scaled range divided by the
    first 64 bits of its hash, read big-endian, and saturates at 64 bits. *)
Theorem GetMaximumDifficulty_spec header scaling :
  (if pow_edgeBits (bh_proofOfWork header) =? SECOND_POW_EDGE_BITS then Ok (bh_scalingDifficulty header)
   else ScalingDifficulty (pow_edgeBits (bh_proofOfWork header))) = Ok scaling ->
  is_uint 32 (bh_scalingDifficulty header) -> length (pow_hash (bh_proofOfWork header)) = 32%nat -> Forall is_byte (pow_hash (bh_proofOfWork header)) ->
  GetMaximumDifficulty header =
    Ok (Z.min (2 ^ 64 - 1) (scaling * 2 ^ 64 / Z.max 1 (be_val (take 8 (pow_hash (bh_proofOfWork header)))))).
Proof.
  intros E Hs Hl Hb. unfold GetMaximumDifficulty. set (p := bh_proofOfWork header) in *.
  assert (is_uint 64 scaling /\ (if pow_edgeBits p =? SECOND_POW_EDGE_BITS then mret (u128_of (bh_scalingDifficulty header))
    else scaling ← ScalingDifficulty (pow_edgeBits p); mret (u128_of scaling)) = Ok (u128_of scaling)) as [Hsc ->].
  { destruct (pow_edgeBits p =? SECOND_POW_EDGE_BITS).
    - injection E as <-. split; [unfold is_uint in *; lia|done].
    - rewrite E. split; [|done]. unfold ScalingDifficulty, mbind, result_bind in E. destruct (shift_left_64 _ _); [|done].
      injection E as <-. apply uint_range. lia. }
  cbn [mbind result_bind]. change (memcpy_to false (rev (take 8 (pow_hash p)))) with (be_val (take 8 (pow_hash p))).
  set (h := be_val (take 8 (pow_hash p))).
  assert (0 <= h < 2 ^ 64) as Hh.
  { unfold h, be_val. pose proof (le_val_range (rev (take 8 (pow_hash p))) ltac:(by apply Forall_rev, Forall_take)) as Hr.
    rewrite length_rev, length_take, Hl in Hr. exact Hr. }
  assert (u128_wf (u128_of scaling) /\ u128_wf (u128_of (Z.max 1 h))) as [Hw1 Hw2] by (unfold u128_wf, is_uint in *; cbn [u128_of UPPER LOWER]; lia).
  destruct (u128_shl_ok (u128_of scaling) 64 Hw1 ltac:(lia)) as [Hw3 Hv3].
  unfold is_uint in Hsc. unfold u128_val at 2 in Hv3. cbn [u128_of UPPER LOWER] in Hv3. rewrite Z.mul_0_l, Z.add_0_l, Z.mod_small in Hv3 by lia.
  destruct (u128_div_ok (u128_shl (u128_of scaling) (u128_of 64)) (u128_of (Z.max 1 h)) Hw3 Hw2) as (q & Eq & Hq & Hqv).
  { unfold u128_val. cbn [u128_of UPPER LOWER]. lia. }
  rewrite Eq. cbn [mbind result_bind]. rewrite Hv3 in Hqv. unfold u128_val at 2 in Hqv. cbn [u128_of UPPER LOWER] in Hqv. rewrite Z.mul_0_l, Z.add_0_l in Hqv.
  destruct (u128_compare_ok q (u128_of (2 ^ 64 - 1)) Hq ltac:(done)) as (_ & _ & -> & _). rewrite Hqv. change (u128_val (u128_of (2 ^ 64 - 1))) with (2 ^ 64 - 1).
  destruct (Z.ltb_spec (scaling * 2 ^ 64 / Z.max 1 h) (2 ^ 64 - 1)); cbn [mret result_ret]; [|f_equal; lia].
  f_equal. rewrite Z.min_r by lia. unfold u128_val in Hqv. destruct Hq as [Hq1 Hq2]. unfold u128_to_u64, is_uint in *.
  assert (0 <= scaling * 2 ^ 64 / Z.max 1 h) by (apply Z.div_pos; lia). lia.
Qed.

End properties.

(** ** Evaluation *)

(** A chain of three blocks, 30 and 60 seconds apart. *)
Definition chain_header (prev height timestamp totalDifficulty : Z) : BlockHeader :=
  mkBlockHeader 5 height timestamp (repeat prev 32) [] [] [] [] [] 0 0 totalDifficulty 1856 0 (mkProofOfWork 32 [] (1 :: repeat 0 31)).
Definition chain_db (hash : Hash) : option BlockHeader :=
  if bool_decide (hash = repeat 1 32) then Some (chain_header 0 0 1000 20000)
  else if bool_decide (hash = repeat 2 32) then Some (chain_header 1 1 1030 40000)
  else None.

Lemma LoadDifficultyData_spec_witness :
  exists padding data, LoadDifficultyData chain_db (chain_header 2 2 1090 60000) = Ok data /\ length data = 61%nat /\
    data = padding ++ rev (map (block_info chain_db) (ancestors chain_db 61 (Some (chain_header 1 1 1030 40000)))).
Proof.
  destruct (LoadDifficultyData_spec chain_db (chain_header 2 2 1090 60000)) as (padding & data & E & Ed & El & _).
  exists padding, data. split; [exact E|]. split; [exact El|exact Ed].
Defined.

Lemma NextDMA_bounds_witness :
  exists d scaling, NextDMA chain_db (chain_header 2 2 1090 60000) = Ok (FromDiffAndScaling d scaling) /\ 10000 <= d <= 40000.
Proof.
  assert (exists data, LoadDifficultyData chain_db (chain_header 2 2 1090 60000) = Ok data /\ sum_of hi_difficulty (drop 1 data) = 1200000 /\
    Forall (fun i => 0 <= hi_difficulty i) data) as (data & E & Es & Hf).
  { eexists. split; [vm_compute; reflexivity|]. split; [vm_compute; reflexivity|]. repeat (constructor; [simpl; lia|]). constructor. }
  destruct (NextDMA_bounds chain_db (chain_header 2 2 1090 60000) (chain_header 1 1 1030 40000) data) as (d & scaling & En & Hd & _).
  - vm_compute. reflexivity.
  - exact E.
  - exact Hf.
  - rewrite Es. lia.
  - exists d, scaling. split; [exact En|]. rewrite Es in Hd. change (1200000 * 60 / 7200) with 10000 in Hd. change (1200000 * 60 / 1800) with 40000 in Hd. lia.
Defined.

Lemma NextWTEMA_spec_witness :
  exists d, NextWTEMA chain_db MAINNET (chain_header 2 2 1090 60000) = Ok (FromDiffAndScaling d 0) /\ 20000 < d.
Proof.
  destruct (NextWTEMA_spec chain_db MAINNET (chain_header 2 2 1090 60000) (chain_header 1 1 1030 40000) (chain_header 0 0 1000 20000))
    as (d & min & E & _ & _ & _ & _ & H).
  - vm_compute. reflexivity.
  - vm_compute. reflexivity.
  - simpl. lia.
  - simpl. lia.
  - exists d. split; [exact E|]. apply H; [simpl; lia|reflexivity|simpl; lia].
Defined.

Lemma GetMaximumDifficulty_spec_witness :
  GetMaximumDifficulty (chain_header 2 2 1090 60000) = Ok (16384 * 2 ^ 64 / 2 ^ 56).
Proof.
  rewrite (GetMaximumDifficulty_spec (chain_header 2 2 1090 60000) 16384); [vm_compute; reflexivity|reflexivity|unfold is_uint; simpl; lia|reflexivity|].
  simpl. repeat (constructor; [unfold is_byte, is_uint; lia|]). constructor.
Defined.
