(* ===== verification/Cuckoo.v ===== *)
(** * Proof of work ([src/PoW/Common.h], [Cuckaroo.cpp], [Cuckatoo.cpp],
    [Cuckarooz.cpp], [Cuckaroom.cpp], [Cuckarood.cpp], [PoWValidator.cpp])

    Siphash maps the edges of a proof to pairs of nodes; the verifiers accept
    when the 42 edges form one cycle.  They differ in the graph: two sides with
    equal nodes (cuckaroo), two sides with nodes paired up to the last bit
    (cuckatoo), one side (cuckarooz), directed edges (cuckaroom, cuckarood). *)
From S2P Require Import Prelude BitUtil Consensus UInt128 MMRIndex Serial BigInteger MMRHash Transaction Header Difficulty.

Inductive verify_code :=
| POW_OK | POW_HEADER_LENGTH | POW_TOO_BIG | POW_TOO_SMALL | POW_NON_MATCHING
| POW_BRANCH | POW_DEAD_END | POW_SHORT_CYCLE | POW_UNBALANCED.

#[export] Instance verify_code_eq_dec : EqDecision verify_code.
Proof. solve_decision. Defined.

(** ** Siphash *)
Record siphash_keys := mkKeys { k0 : Z; k1 : Z; k2 : Z; k3 : Z }.

(** [htole64] of the words in memory: little-endian on every host. *)
Definition siphash_keys_new (keybuf : bytes) : siphash_keys :=
  mkKeys (le_val (take 8 keybuf)) (le_val (take 8 (drop 8 keybuf))) (le_val (take 8 (drop 16 keybuf))) (le_val (take 8 (drop 24 keybuf))).

Record siphash_state := mkSip { v0 : Z; v1 : Z; v2 : Z; v3 : Z }.

Definition siphash_state_new (sk : siphash_keys) : siphash_state := mkSip (k0 sk) (k1 sk) (k2 sk) (k3 sk).
Definition xor_lanes (s : siphash_state) : Z := Z.lxor (Z.lxor (v0 s) (v1 s)) (Z.lxor (v2 s) (v3 s)).
Definition rotl (x b : Z) : Z := Z.lor (x << b)%u64 (x >> (64 - b))%u64.

Definition sip_round (rotE : Z) (s : siphash_state) : siphash_state :=
  let '(mkSip v0 v1 v2 v3) := s in
  let v0 := (v0 + v1)%u64 in let v2 := (v2 + v3)%u64 in let v1 := rotl v1 13 in
  let v3 := rotl v3 16 in let v1 := Z.lxor v1 v0 in let v3 := Z.lxor v3 v2 in
  let v0 := rotl v0 32 in let v2 := (v2 + v1)%u64 in let v0 := (v0 + v3)%u64 in
  let v1 := rotl v1 17 in let v3 := rotl v3 rotE in
  let v1 := Z.lxor v1 v2 in let v3 := Z.lxor v3 v0 in let v2 := rotl v2 32 in
  mkSip v0 v1 v2 v3.

Definition hash24 (rotE nonce : Z) (s : siphash_state) : siphash_state :=
  let s := mkSip (v0 s) (v1 s) (v2 s) (Z.lxor (v3 s) nonce) in
  let s := sip_round rotE (sip_round rotE s) in
  let s := mkSip (Z.lxor (v0 s) nonce) (v1 s) (Z.lxor (v2 s) 0xff) (v3 s) in
  sip_round rotE (sip_round rotE (sip_round rotE (sip_round rotE s))).

Definition EDGE_BLOCK_BITS : Z := 6.
Definition EDGE_BLOCK_SIZE : Z := Z.shiftl 1 EDGE_BLOCK_BITS.
Definition EDGE_BLOCK_MASK : Z := EDGE_BLOCK_SIZE - 1.

(** The outputs of a block of edges; one state is hashed on from edge to edge. *)
Fixpoint sip_outputs (rotE : Z) (n : nat) (edge : Z) (shs : siphash_state) : list Z :=
  match n with
  | O => []
  | S n =>
      let shs := hash24 rotE edge shs in
      xor_lanes shs :: sip_outputs rotE n (edge + 1)%u64 shs
  end.

(** [edge & ~EDGE_BLOCK_MASK]. *)
Definition block_start (edge : Z) : Z := Z.ldiff edge EDGE_BLOCK_MASK.

Definition sipblock (rotE : Z) (keys : siphash_keys) (edge : Z) : Z :=
  let buf := sip_outputs rotE (Z.to_nat EDGE_BLOCK_SIZE) (block_start edge) (siphash_state_new keys) in
  let last := nth (Z.to_nat EDGE_BLOCK_MASK) buf 0 in
  let buf := map (fun x => Z.lxor x last) (take (Z.to_nat EDGE_BLOCK_MASK) buf) ++ [last] in
  nth (Z.to_nat (Z.land edge EDGE_BLOCK_MASK)) buf 0.

(** [for (i = EDGE_BLOCK_MASK; i; i--) buf[i - 1] ^= buf[i]]. *)
Fixpoint xor_suffix (buf : list Z) : list Z :=
  match buf with
  | [] => []
  | x :: buf =>
      match xor_suffix buf with
      | [] => [x]
      | y :: buf' => Z.lxor x y :: y :: buf'
      end
  end.

Definition cuckaroom_sipblock (keys : siphash_keys) (edge : Z) : Z :=
  let buf := sip_outputs 21 (Z.to_nat EDGE_BLOCK_SIZE) (block_start edge) (siphash_state_new keys) in
  nth (Z.to_nat (Z.land edge EDGE_BLOCK_MASK)) (xor_suffix buf) 0.

Definition cuckarooz_sipblock : siphash_keys -> Z -> Z := cuckaroom_sipblock.

Definition sipnode (keys : siphash_keys) (edge uorv edgeMask : Z) : Z :=
  Z.land (xor_lanes (hash24 21 (2 * edge + uorv)%u64 (siphash_state_new keys))) edgeMask.

(** ** The edges

    The common loop over the edges of a proof: in range, ascending, and what is
    stored for each. *)
Fixpoint edges_loop {A} (edgeMask : Z) (put : Z -> A -> A) (edges : list Z) (prev : option Z) (acc : A) : verify_code + A :=
  match edges with
  | [] => inr acc
  | edge :: edges =>
      if edge >? edgeMask then inl POW_TOO_BIG
      else if match prev with Some p => edge <=? p | None => false end then inl POW_TOO_SMALL
      else edges_loop edgeMask put edges (Some edge) (put edge acc)
  end.

(** ** Following the cycle *)
Definition NUM_ENDPOINTS : Z := 2 * PROOFSIZE.
Definition uv (uvs : list Z) (k : Z) : Z := nth (Z.to_nat k) uvs 0.

(** [for (k = j = i; (k = (k + step) % (2 * PROOFSIZE)) != i; )]. *)
Fixpoint scan (fuel : nat) (step : Z) (same : Z -> Z -> bool) (i k j : Z) : result (verify_code + Z) :=
  let k := (k + step) mod NUM_ENDPOINTS in
  if k =? i then Ok (inr j)
  else
    match fuel with
    | O => Throw OutOfFuel
    | S fuel =>
        if same k i then
          if negb (j =? i) then Ok (inl POW_BRANCH) else scan fuel step same i k k
        else scan fuel step same i k j
    end.

(** [do { ... } while (i != 0)]. *)
Fixpoint follow (fuel : nat) (find : Z -> result (verify_code + Z)) (dead : Z -> Z -> bool) (n i : Z) : result verify_code :=
  match fuel with
  | O => Throw OutOfFuel
  | S fuel =>
      r ← find i;
      match r with
      | inl code => mret code
      | inr j =>
          if dead j i then mret POW_DEAD_END
          else
            let i := Z.lxor j 1 in
            let n := n + 1 in
            if negb (i =? 0) then follow fuel find dead n i
            else mret (if n =? PROOFSIZE then POW_OK else POW_SHORT_CYCLE)
      end
  end.

(** A walk visits an endpoint at most once. *)
Definition FOLLOW_FUEL : nat := 84.

Definition numEdgesMask (edgeBits : Z) : Z := ((1 << edgeBits)%u64 - 1)%u64.

(** *** Cuckaroo *)
Definition cuckaroo_put (keys : siphash_keys) (edgeMask edge : Z) (acc : Z * Z * list Z) : Z * Z * list Z :=
  let '(xor0, xor1, uvs) := acc in
  let e := sipblock 21 keys edge in
  let u := Z.land e edgeMask in
  let v := Z.land (Z.shiftr e 32) edgeMask in
  (Z.lxor xor0 u, Z.lxor xor1 v, uvs ++ [u; v]).

Definition cuckaroo_follow (uvs : list Z) : result verify_code :=
  follow FOLLOW_FUEL (fun i => scan 42 2 (fun k i => uv uvs k =? uv uvs i) i i i) (fun j i => j =? i) 0 0.

Definition verify_cuckaroo (edges : list Z) (keys : siphash_keys) (edgeBits : Z) : result verify_code :=
  let edgeMask := numEdgesMask edgeBits in
  match edges_loop edgeMask (cuckaroo_put keys edgeMask) edges None (0, 0, []) with
  | inl code => mret code
  | inr (xor0, xor1, uvs) =>
      if negb (Z.lor xor0 xor1 =? 0) then mret POW_NON_MATCHING else cuckaroo_follow uvs
  end.

(** *** Cuckatoo *)
Definition cuckatoo_put (keys : siphash_keys) (edgeMask edge : Z) (acc : Z * Z * list Z) : Z * Z * list Z :=
  let '(xor0, xor1, uvs) := acc in
  let u := sipnode keys edge 0 edgeMask in
  let v := sipnode keys edge 1 edgeMask in
  (Z.lxor xor0 u, Z.lxor xor1 v, uvs ++ [u; v]).

Definition cuckatoo_follow (uvs : list Z) : result verify_code :=
  follow FOLLOW_FUEL (fun i => scan 42 2 (fun k i => Z.shiftr (uv uvs k) 1 =? Z.shiftr (uv uvs i) 1) i i i)
    (fun j i => (j =? i) || (uv uvs j =? uv uvs i)) 0 0.

Definition verify_cuckatoo (edges : list Z) (keys : siphash_keys) (edgeBits : Z) : result verify_code :=
  let edgeMask := numEdgesMask edgeBits in
  let xor := Z.land (PROOFSIZE / 2) 1 in
  match edges_loop edgeMask (cuckatoo_put keys edgeMask) edges None (xor, xor, []) with
  | inl code => mret code
  | inr (xor0, xor1, uvs) =>
      if negb (Z.lor xor0 xor1 =? 0) then mret POW_NON_MATCHING else cuckatoo_follow uvs
  end.

(** *** Cuckarooz *)
Definition EDGEBITS : Z := 29.
Definition NEDGES : Z := Z.shiftl 1 EDGEBITS.
Definition EDGEMASK : Z := NEDGES - 1.
Definition CUCKAROOZ_NODEMASK : Z := 2 * NEDGES - 1.

Definition cuckarooz_put (keys : siphash_keys) (edge : Z) (acc : Z * list Z) : Z * list Z :=
  let '(xoruv, uvs) := acc in
  let e := cuckarooz_sipblock keys edge in
  let u := Z.land e CUCKAROOZ_NODEMASK in
  let v := Z.land (Z.shiftr e 32) CUCKAROOZ_NODEMASK in
  (Z.lxor (Z.lxor xoruv u) v, uvs ++ [u; v]).

Definition cuckarooz_follow (uvs : list Z) : result verify_code :=
  follow FOLLOW_FUEL (fun i => scan 84 1 (fun k i => uv uvs k =? uv uvs i) i i i) (fun j i => j =? i) 0 0.

Definition verify_cuckarooz (edges : list Z) (keys : siphash_keys) : result verify_code :=
  match edges_loop EDGEMASK (cuckarooz_put keys) edges None (0, []) with
  | inl code => mret code
  | inr (xoruv, uvs) => if negb (xoruv =? 0) then mret POW_NON_MATCHING else cuckarooz_follow uvs
  end.

(** *** Cuckaroom: directed edges *)
Definition cuckaroom_put (keys : siphash_keys) (edge : Z) (acc : Z * Z * list Z * list Z) : Z * Z * list Z * list Z :=
  let '(xorfrom, xorto, from, to) := acc in
  let e := cuckaroom_sipblock keys edge in
  let f := Z.land e EDGEMASK in
  let t := Z.land (Z.shiftr e 32) EDGEMASK in
  (Z.lxor xorfrom f, Z.lxor xorto t, from ++ [f], to ++ [t]).

(** The first edge that starts where edge [i] ends. *)
Fixpoint find_next (from : list Z) (target : Z) : option nat :=
  match from with
  | [] => None
  | f :: from => if f =? target then Some 0%nat else S <$> find_next from target
  end.

Fixpoint cuckaroom_follow (fuel : nat) (from to : list Z) (visited : list bool) (n : Z) (i : nat) : result verify_code :=
  match fuel with
  | O => Throw OutOfFuel
  | S fuel =>
      if nth i visited false then mret POW_BRANCH
      else
        let visited := <[i := true]> visited in
        match find_next from (nth i to 0) with
        | None => mret POW_DEAD_END
        | Some nexti =>
            let n := n + 1 in
            if negb (nexti =? 0) then cuckaroom_follow fuel from to visited n nexti
            else mret (if n =? PROOFSIZE then POW_OK else POW_SHORT_CYCLE)
        end
  end.

Definition verify_cuckaroom (edges : list Z) (keys : siphash_keys) : result verify_code :=
  match edges_loop EDGEMASK (cuckaroom_put keys) edges None (0, 0, [], []) with
  | inl code => mret code
  | inr (xorfrom, xorto, from, to) =>
      if negb (xorfrom =? xorto) then mret POW_NON_MATCHING
      else cuckaroom_follow 43 from to (map (fun _ => false) edges) 0 0
  end.

(** *** Cuckarood: 21 edges of each direction *)
Definition NODE1MASK : Z := NEDGES / 2 - 1.

(** The array of endpoints, written at indices that depend on the direction. *)
Record cuckarood_acc := mkRood { cd_xor0 : Z; cd_xor1 : Z; cd_uvs : list Z; cd_ndir : Z * Z }.

Fixpoint cuckarood_edges (keys : siphash_keys) (edges : list Z) (prev : option Z) (acc : cuckarood_acc) : verify_code + cuckarood_acc :=
  match edges with
  | [] => inr acc
  | edge :: edges =>
      let dir := Z.land edge 1 in
      let ndir := if dir =? 0 then (cd_ndir acc).1 else (cd_ndir acc).2 in
      if ndir >=? PROOFSIZE / 2 then inl POW_UNBALANCED
      else if edge >=? NEDGES then inl POW_TOO_BIG
      else if match prev with Some p => edge <=? p | None => false end then inl POW_TOO_SMALL
      else
        let e := sipblock 25 keys edge in
        let u := Z.land e NODE1MASK in
        let v := Z.land (Z.shiftr e 32) NODE1MASK in
        let uvs := <[Z.to_nat (4 * ndir + 2 * dir) := u]> (cd_uvs acc) in
        let uvs := <[Z.to_nat (4 * ndir + 2 * dir + 1) := v]> uvs in
        let counts := if dir =? 0 then (ndir + 1, (cd_ndir acc).2) else ((cd_ndir acc).1, ndir + 1) in
        cuckarood_edges keys edges (Some edge) (mkRood (Z.lxor (cd_xor0 acc) u) (Z.lxor (cd_xor1 acc) v) uvs counts)
  end.

(** [for (k = ((j = i) % 4) ^ 2; k < 2 * PROOFSIZE; k += 4)]. *)
Fixpoint cuckarood_scan (fuel : nat) (uvs : list Z) (i k j : Z) : result (verify_code + Z) :=
  if k <? NUM_ENDPOINTS then
    match fuel with
    | O => Throw OutOfFuel
    | S fuel =>
        if uv uvs k =? uv uvs i then
          if negb (j =? i) then Ok (inl POW_BRANCH) else cuckarood_scan fuel uvs i (k + 4) k
        else cuckarood_scan fuel uvs i (k + 4) j
    end
  else Ok (inr j).

Definition cuckarood_find (uvs : list Z) (i : Z) : result (verify_code + Z) :=
  cuckarood_scan 21 uvs i (Z.lxor (i mod 4) 2) i.

Definition cuckarood_follow (fuel : nat) (uvs : list Z) : result verify_code :=
  follow fuel (cuckarood_find uvs) (fun j i => j =? i) 0 0.

Definition verify_cuckarood (fuel : nat) (edges : list Z) (keys : siphash_keys) : result verify_code :=
  match cuckarood_edges keys edges None (mkRood 0 0 (repeat 0 (Z.to_nat NUM_ENDPOINTS)) (0, 0)) with
  | inl code => mret code
  | inr acc =>
      if negb (Z.lor (cd_xor0 acc) (cd_xor1 acc) =? 0) then mret POW_NON_MATCHING else cuckarood_follow fuel (cd_uvs acc)
  end.

(** ** [Validate] and [IsPoWValid] *)
Section validate.
Context (Blake2b : bytes -> Hash).

Definition pow_keys (blockHeader : BlockHeader) : siphash_keys := siphash_keys_new (Blake2b (GetPreProofOfWork blockHeader)).

(** The part the five classes share; [verify] is the class's verifier. *)
Definition Validate_with (verify : list Z -> siphash_keys -> Z -> result verify_code) (blockHeader : BlockHeader) : result bool :=
  let proofOfWork := bh_proofOfWork blockHeader in
  if negb (length (pow_proofNonces proofOfWork) =? PROOFSIZE) then mret false
  else
    code ← verify (pow_proofNonces proofOfWork) (pow_keys blockHeader) (pow_edgeBits proofOfWork);
    mret (bool_decide (code = POW_OK)).

Definition Cuckaroo_Validate : BlockHeader -> result bool := Validate_with verify_cuckaroo.
Definition Cuckarood_Validate (fuel : nat) : BlockHeader -> result bool := Validate_with (fun nonces keys _ => verify_cuckarood fuel nonces keys).
Definition Cuckaroom_Validate : BlockHeader -> result bool := Validate_with (fun nonces keys _ => verify_cuckaroom nonces keys).
Definition Cuckarooz_Validate : BlockHeader -> result bool := Validate_with (fun nonces keys _ => verify_cuckarooz nonces keys).
Definition Cuckatoo_Validate : BlockHeader -> result bool := Validate_with verify_cuckatoo.

(** The choice of the graph by edge bits and header version. *)
Definition ValidateCycle (fuel : nat) (header : BlockHeader) : result bool :=
  if pow_edgeBits (bh_proofOfWork header) =? 29 then
    if bh_version header =? 1 then Cuckaroo_Validate header
    else if bh_version header =? 2 then Cuckarood_Validate fuel header
    else if bh_version header =? 3 then Cuckaroom_Validate header
    else Cuckarooz_Validate header
  else Cuckatoo_Validate header.

(** [fuel] bounds the turns of the cuckarood verifier, which need not end. *)
Definition IsPoWValid (fuel : nat) (GetBlockHeader : Hash -> option BlockHeader) (env : Environment)
    (header previousHeader : BlockHeader) : result bool :=
  if bh_totalDifficulty header <=? bh_totalDifficulty previousHeader then mret false
  else
    max_difficulty ← GetMaximumDifficulty header;
    let targetDifficulty := (bh_totalDifficulty header - bh_totalDifficulty previousHeader)%u64 in
    if max_difficulty <? targetDifficulty then mret false
    else
      nextHeaderInfo ← CalculateNextDifficulty GetBlockHeader env header;
      if negb (targetDifficulty =? hi_difficulty nextHeaderInfo) then mret false
      else if negb (bh_scalingDifficulty header =? hi_secondaryScaling nextHeaderInfo) then mret false
      else ValidateCycle fuel header.

End validate.
