(* ===== verification/Cycle.v ===== *)
(** * The cycle check of the cuckoo verifiers

    What [scan] and [follow] compute, for any graph: endpoint [k] of a proof is
    one end of edge [k / 2], whose other end is [k xor 1]; [node] maps it to its
    node.  The walk from endpoint 0 accepts exactly when the edges form one
    cycle through all of them, and it ends within as many turns as there are
    endpoints. *)
From Stdlib Require Import ZifyNat.
From S2P Require Import Prelude Consensus Cuckoo.

(** Linear arithmetic with divisions and remainders. *)
Ltac mod_lia := zify; Z.to_euclidean_division_equations; lia.

(** ** Endpoints *)
Definition endpoint (k : Z) : Prop := 0 <= k < 84.

Lemma lxor_1 k : 0 <= k -> Z.lxor k 1 = k + 1 - 2 * (k mod 2).
Proof.
  intros Hk. rewrite Zmod_odd. destruct k as [|[p|p|]|]; [done| | |done|lia].
  - change (Z.lxor (Z.pos p~1) 1) with (Z.pos p~0). change (Z.odd (Z.pos p~1)) with true. lia.
  - change (Z.lxor (Z.pos p~0) 1) with (Z.pos p~1). change (Z.odd (Z.pos p~0)) with false. lia.
Qed.

Lemma lxor_1_cases k : 0 <= k -> exists q, 0 <= q /\ (k = 2 * q /\ Z.lxor k 1 = 2 * q + 1 \/ k = 2 * q + 1 /\ Z.lxor k 1 = 2 * q).
Proof.
  intros Hk. rewrite lxor_1 by done. exists (k / 2). pose proof (Z.div_mod k 2). pose proof (Z.mod_pos_bound k 2).
  pose proof (Z.div_pos k 2). lia.
Qed.

(** The other end of an edge. *)
Lemma opposite_endpoint k : endpoint k ->
  endpoint (Z.lxor k 1) /\ Z.lxor k 1 <> k /\ Z.lxor k 1 / 2 = k / 2 /\ Z.lxor (Z.lxor k 1) 1 = k /\ Z.lxor k 1 mod 2 = 1 - k mod 2.
Proof.
  unfold endpoint. intros Hk. destruct (lxor_1_cases k) as (q & Hq & [[-> E]|[-> E]]); [lia|..];
    rewrite E, lxor_1 by lia; mod_lia.
Qed.

Lemma same_edge k l : endpoint k -> endpoint l -> k / 2 = l / 2 -> k = l \/ k = Z.lxor l 1.
Proof.
  unfold endpoint. intros Hk Hl E. destruct (lxor_1_cases l) as (q & Hq & [[-> ->]|[-> ->]]); [lia|..];
    mod_lia.
Qed.

(** ** [scan]

    The endpoints it compares with [i]: those a multiple of [step] away. *)
Definition candidates (step : Z) (i : Z) : list Z := map (fun t => (i + step * t) mod 84) (seqZ 1 (84 / step - 1)).

Lemma elem_of_candidates step i k : step = 1 \/ step = 2 -> endpoint i ->
  k ∈ candidates step i <-> endpoint k /\ k <> i /\ k mod step = i mod step.
Proof.
  unfold candidates, endpoint. intros Hs Hi. rewrite list_elem_of_In, in_map_iff. setoid_rewrite <- list_elem_of_In. setoid_rewrite elem_of_seqZ. split.
  - intros (t & <- & Ht). destruct Hs as [-> | ->].
    + rewrite !Z.mod_1_r. mod_lia.
    + change (84 / 2) with 42 in Ht. mod_lia.
  - intros (Hk & Hn & E). destruct Hs as [-> | ->].
    + exists ((k - i) mod 84). change (84 / 1) with 84. mod_lia.
    + exists ((k - i) mod 84 / 2). change (84 / 2) with 42. mod_lia.
Qed.

Lemma NoDup_candidates step i : step = 1 \/ step = 2 -> endpoint i -> NoDup (candidates step i).
Proof.
  intros Hs Hi. unfold candidates. apply NoDup_fmap_2_strong; [|apply NoDup_seqZ].
  intros x y Hx Hy. rewrite elem_of_seqZ in Hx, Hy. unfold endpoint in Hi. destruct Hs as [-> | ->].
  - change (84 / 1) with 84 in *. mod_lia.
  - change (84 / 2) with 42 in *. mod_lia.
Qed.

Fixpoint scan_list (same : Z -> Z -> bool) (i : Z) (l : list Z) (j : Z) : verify_code + Z :=
  match l with
  | [] => inr j
  | k :: l => if same k i then if negb (j =? i) then inl POW_BRANCH else scan_list same i l k else scan_list same i l j
  end.

Lemma scan_candidates step same i j (n fuel : nat) m : step = 1 \/ step = 2 -> endpoint i ->
  0 <= m -> m + n = 84 / step - 1 -> (n <= fuel)%nat ->
  scan fuel step same i ((i + step * m) mod 84) j =
    Ok (scan_list same i (map (fun t => (i + step * t) mod 84) (seqZ (m + 1) n)) j).
Proof.
  intros Hs Hi. unfold endpoint in Hi. revert m j fuel. induction n as [|n IH]; intros m j fuel Hm Hn Hf.
  - assert (((i + step * m) mod 84 + step) mod NUM_ENDPOINTS = i) as E.
    { change NUM_ENDPOINTS with 84. rewrite Zplus_mod_idemp_l.
      replace (i + step * m + step) with (i + 1 * 84); [rewrite Z.mod_add by lia; apply Z.mod_small; lia|].
      destruct Hs as [-> | ->]; [change (84 / 1) with 84 in Hn|change (84 / 2) with 42 in Hn]; lia. }
    destruct fuel; cbn [scan]; rewrite E, Z.eqb_refl; reflexivity.
  - destruct fuel as [|fuel]; [lia|]. cbn [scan]. change NUM_ENDPOINTS with 84. rewrite Zplus_mod_idemp_l.
    replace (i + step * m + step) with (i + step * (m + 1)) by lia.
    rewrite (seqZ_cons (m + 1)) by lia. replace (Z.succ (m + 1)) with (m + 1 + 1) by lia. replace (Z.pred (S n)) with (Z.of_nat n) by lia.
    cbn [map scan_list].
    destruct (Z.eqb_spec ((i + step * (m + 1)) mod 84) i) as [E|_].
    + exfalso. destruct Hs as [-> | ->]; [change (84 / 1) with 84 in Hn|change (84 / 2) with 42 in Hn]; mod_lia.
    + rewrite !IH by lia. by destruct (same _ i); [destruct (negb _)|].
Qed.

(** The outcome: the endpoint itself when no other one matches, the only one
    that does, or a branch. *)
Lemma scan_list_spec same i l : i ∉ l -> NoDup l ->
  match filter (fun k => same k i = true) l with
  | [] => scan_list same i l i = inr i
  | [k] => scan_list same i l i = inr k
  | _ => scan_list same i l i = inl POW_BRANCH
  end.
Proof.
  assert (forall l j, j <> i -> scan_list same i l j =
    match filter (fun k => same k i = true) l with [] => inr j | _ => inl POW_BRANCH end) as Hj.
  { clear l. intros l j Hj. induction l as [|k l IH]; [done|]. cbn [scan_list]. rewrite filter_cons.
    destruct (Z.eqb_spec j i); [done|]. cbn [negb]. destruct (same k i) eqn:E.
    - by rewrite decide_True.
    - by rewrite decide_False. }
  induction l as [|k l IH]; intros Hi Hnd; [done|]. apply NoDup_cons in Hnd as [Hk Hnd].
  rewrite not_elem_of_cons in Hi. destruct Hi as [Hki Hi]. cbn [scan_list]. rewrite filter_cons, Z.eqb_refl. cbn [negb].
  destruct (same k i) eqn:E.
  - rewrite decide_True, Hj by done. by destruct (filter _ l).
  - rewrite decide_False by done. by apply IH.
Qed.

(** ** The walk *)
Section walk.
Context {N : Type} (node : Z -> N) (joins : Z -> Z -> Prop) (find : Z -> result (verify_code + Z)) (dead : Z -> Z -> bool).

(** [k] is another endpoint at the node of [i]. *)
Definition mate (i k : Z) : Prop := endpoint k /\ k <> i /\ node k = node i.

Definition found (i : Z) (r : verify_code + Z) : Prop :=
  (r = inr i /\ forall k, ~ mate i k) \/
  (exists k, r = inr k /\ mate i k /\ forall k', mate i k' -> k' = k) \/
  (exists k k', r = inl POW_BRANCH /\ mate i k /\ mate i k' /\ k <> k').

Context (find_ok : forall i, endpoint i -> exists r, find i = Ok r /\ found i r).
Context (dead_ok : forall i k, endpoint i -> endpoint k -> node k = node i -> dead k i = false <-> k <> i /\ joins k i).
Context (joins_sym : forall i k, joins i k -> joins k i).

(** The edges form one cycle: endpoints of all the edges, one after the other,
    such that the far end of each is the near end of the next. *)
Record one_cycle (a : list Z) : Prop := {
  oc_endpoints : Forall endpoint a;
  oc_edges : map (fun i => i / 2) a ≡ₚ seqZ 0 42;
  oc_simple : NoDup (map node a);
  oc_joined : forall (t : nat) i k, a !! t = Some i -> a !! ((t + 1) mod 42)%nat = Some k ->
    node (Z.lxor k 1) = node i /\ joins (Z.lxor k 1) i;
}.

(** One turn of the loop. *)
Definition advance (i : Z) : option Z :=
  match find i with
  | Ok (inr j) => if dead j i then None else Some (Z.lxor j 1)
  | _ => None
  end.

Definition nexti (i : Z) : Z := default 0 (advance i).
Abbreviation at_turn t i := (Nat.iter t nexti i).

Lemma advance_spec i i' : endpoint i -> advance i = Some i' ->
  endpoint i' /\ mate i (Z.lxor i' 1) /\ joins (Z.lxor i' 1) i /\ forall k, mate i k -> k = Z.lxor i' 1.
Proof.
  intros Hi. unfold advance. destruct (find_ok i Hi) as (r & -> & [[-> Hno]|[(k & -> & Hm & Hu)|(k & k' & -> & _)]]); [| |done].
  - destruct (dead i i) eqn:Hd; [done|]. apply dead_ok in Hd; naive_solver.
  - destruct (dead k i) eqn:Hd; [done|]. intros [= <-]. pose proof Hm as (Hk & Hne & En).
    apply dead_ok in Hd as [_ Hj]; [|done..]. destruct (opposite_endpoint k Hk) as (? & _ & _ & E & _). rewrite E. naive_solver.
Qed.

Lemma advance_intro i k : endpoint i -> mate i k -> joins k i -> (forall k', mate i k' -> k' = k) -> advance i = Some (Z.lxor k 1).
Proof.
  intros Hi Hm Hj Hu. unfold advance. destruct (find_ok i Hi) as (r & -> & [[_ Hno]|[(k' & -> & Hm' & _)|(k1 & k2 & _ & H1 & H2 & Hne)]]).
  - by destruct (Hno k).
  - rewrite (Hu k' Hm'). destruct (dead k i) eqn:Hd; [|done]. exfalso. destruct Hm as (Hk & Hne & En).
    assert (dead k i = false) by (by apply dead_ok). congruence.
  - destruct Hne. rewrite (Hu k1), (Hu k2); done.
Qed.

(** [m] turns from [i] that do not come by endpoint 0 in between. *)
Definition turns (m : nat) (i : Z) : Prop :=
  forall t : nat, (t < m)%nat -> advance (at_turn t i) = Some (at_turn (S t) i) /\ ((0 < t)%nat -> at_turn t i <> 0).

Lemma nexti_Some i i' : advance i = Some i' -> nexti i = i'.
Proof. unfold nexti. by intros ->. Qed.

Lemma at_turn_S t i i' : advance i = Some i' -> at_turn (S t) i = at_turn t i'.
Proof. intros E. rewrite Nat.iter_succ_r. by rewrite (nexti_Some i i'). Qed.

Lemma turns_cons m i i' : advance i = Some i' -> i' <> 0 -> turns m i' -> turns (S m) i.
Proof.
  intros E Hn H [|t] Ht.
  - split; [|lia]. rewrite (at_turn_S 0 i i') by done. exact E.
  - rewrite !(at_turn_S _ i i') by done. destruct (H t ltac:(lia)) as [Ha Hz]. split; [exact Ha|]. intros _.
    destruct t as [|t]; [exact Hn|]. apply Hz. lia.
Qed.

Lemma follow_outcome fuel n i : endpoint i ->
  (exists m : nat, (0 < m <= fuel)%nat /\ turns m i /\ at_turn m i = 0 /\
     follow fuel find dead n i = Ok (if n + m =? 42 then POW_OK else POW_SHORT_CYCLE)) \/
  (exists (m : nat) code, (m < fuel)%nat /\ turns m i /\ ((0 < m)%nat -> at_turn m i <> 0) /\ advance (at_turn m i) = None /\
     follow fuel find dead n i = Ok code /\ (code = POW_BRANCH \/ code = POW_DEAD_END)) \/
  (turns fuel i /\ ((0 < fuel)%nat -> at_turn fuel i <> 0) /\ follow fuel find dead n i = Throw OutOfFuel).
Proof.
  revert n i. induction fuel as [|fuel IH]; intros n i Hi.
  - right; right. split; [intros t Ht; lia|]. split; [lia|done].
  - cbn [follow]. destruct (find_ok i Hi) as (r & Ef & Hr). rewrite Ef. cbn [mbind result_bind].
    assert (advance i = None -> match r with inl code => code = POW_BRANCH | inr j => dead j i = true end) as Hnone.
    { unfold advance. rewrite Ef. destruct r as [code|j]; [|by destruct (dead j i)].
      intros _. destruct Hr as [[? _]|[(? & ? & _)|(? & ? & [= ->] & _)]]; done. }
    destruct (advance i) as [i'|] eqn:Ea.
    + assert (exists j, r = inr j /\ dead j i = false /\ Z.lxor j 1 = i') as (j & -> & -> & ->).
      { unfold advance in Ea. rewrite Ef in Ea. destruct r as [|j]; [done|]. exists j. destruct (dead j i); [done|]. naive_solver. }
      destruct (advance_spec i i' Hi Ea) as (Hi' & _).
      destruct (Z.eqb_spec i' 0) as [->|Hn0]; cbn [negb].
      * left. exists 1%nat. split; [lia|]. split.
        { intros t Ht. assert (t = 0)%nat as -> by lia. split; [|lia]. by rewrite (at_turn_S 0 i 0). }
        split; [by rewrite (at_turn_S 0 i 0)|]. change PROOFSIZE with 42. by rewrite Z.add_1_r.
      * destruct (IH (n + 1) i' Hi') as [(m & Hm & Ht & H0 & E)|[(m & code & Hm & Ht & H0 & Hs & E & Hc)|(Ht & H0 & E)]].
        -- left. exists (S m). split; [lia|]. split; [by apply turns_cons with i'|]. rewrite (at_turn_S m i i') by done. split; [done|].
           rewrite E. by replace (n + 1 + m) with (n + S m) by lia.
        -- right; left. exists (S m), code. split; [lia|]. split; [by apply turns_cons with i'|]. rewrite (at_turn_S m i i') by done.
           split; [|done]. intros _. destruct m; [done|]. apply H0. lia.
        -- right; right. split; [by apply turns_cons with i'|]. rewrite (at_turn_S fuel i i') by done. split; [|done].
           intros _. destruct fuel; [done|]. apply H0. lia.
    + right; left. specialize (Hnone eq_refl). destruct r as [code|j].
      * exists 0%nat, code. split; [lia|]. split; [intros t Ht; lia|]. split; [lia|]. split; [exact Ea|]. split; [done|]. by left.
      * exists 0%nat, POW_DEAD_END. rewrite Hnone. split; [lia|]. split; [intros t Ht; lia|]. split; [lia|]. split; [exact Ea|]. split; [done|]. by right.
Qed.

(** ** The turns do not meet *)
Lemma turns_endpoint m t : turns m 0 -> (t <= m)%nat -> endpoint (at_turn t 0).
Proof.
  intros H. induction t as [|t IH]; intros Ht; [by unfold endpoint|].
  destruct (H t ltac:(lia)) as [E _]. eapply advance_spec; [apply IH; lia|exact E].
Qed.

(** The endpoint before is determined by the one after. *)
Lemma advance_inj i k i' : endpoint i -> endpoint k -> advance i = Some i' -> advance k = Some i' -> i = k.
Proof.
  intros Hi Hk Ei Ek. destruct (advance_spec i i' Hi Ei) as (Hi' & (_ & Hni & Eni) & _ & _).
  destruct (advance_spec k i' Hk Ek) as (_ & (Hj & Hnk & Enk) & _ & Hu).
  destruct (Z.eq_dec i k) as [|Hne]; [done|]. exfalso. apply Hni. symmetry. apply Hu. split; [done|]. split; [done|]. congruence.
Qed.

Lemma turns_inj m s t : turns m 0 -> (s < t)%nat -> (t <= m)%nat -> (forall u : nat, (0 < u <= t - s)%nat -> at_turn u 0 <> 0) ->
  at_turn s 0 <> at_turn t 0.
Proof.
  intros H. revert t. induction s as [|s IH]; intros t Hst Ht Hu E.
  - apply (Hu t); [lia|]. by rewrite <- E.
  - destruct t as [|t]; [lia|]. apply (IH t); [lia|lia|intros u Hu'; apply Hu; lia|].
    apply (advance_inj _ _ (at_turn (S t) 0)); [apply (turns_endpoint m); [done|lia]|apply (turns_endpoint m); [done|lia]| |apply H; lia].
    rewrite <- E. apply H. lia.
Qed.

(** The walk never takes an edge backwards. *)
Lemma no_reverse m s t : turns m 0 -> (s <= t)%nat -> (t <= m)%nat -> at_turn t 0 <> Z.lxor (at_turn s 0) 1.
Proof.
  intros H Hst. remember (t - s)%nat as d eqn:Hd. revert s t Hst Hd.
  induction (lt_wf d) as [d _ IH]. intros s t Hst Hd Ht E.
  pose proof (turns_endpoint m s H ltac:(lia)) as Hs.
  destruct (opposite_endpoint _ Hs) as (_ & Hne & _ & Ex & _).
  destruct d as [|d]; [assert (t = s) as -> by lia; congruence|].
  destruct t as [|t]; [lia|].
  pose proof (turns_endpoint m t H ltac:(lia)) as Het.
  destruct (H t ltac:(lia)) as [Ea _].
  destruct (advance_spec _ _ Het Ea) as (_ & (_ & Hm & En) & Hj & Hu).
  rewrite E, Ex in Hm, En, Hj.
  (* the endpoint the walk leaves at turn [s] is joined to the one it came from *)
  assert (s <> t) as Hst' by congruence.
  assert (mate (at_turn s 0) (at_turn t 0)) as Hmate by (split; [done|]; split; [congruence|congruence]).
  destruct (H s ltac:(lia)) as [Eb _]. destruct (advance_spec _ _ Hs Eb) as (He' & _ & _ & Hu'). pose proof (Hu' _ Hmate) as Es.
  assert (at_turn (S s) 0 = Z.lxor (at_turn t 0) 1) as Er by (rewrite Es; symmetry; apply opposite_endpoint, He').
  apply (IH (t - S s)%nat ltac:(lia) (S s) t ltac:(lia) eq_refl ltac:(lia)).
  rewrite Er. symmetry. by apply opposite_endpoint.
Qed.

(** ** Acceptance *)
Definition visited_endpoints : list Z := map (fun t => at_turn t 0) (seq 0 42).

Lemma visited_lookup (t : nat) i : visited_endpoints !! t = Some i -> (t < 42)%nat /\ i = at_turn t 0.
Proof.
  unfold visited_endpoints. rewrite list_lookup_fmap. intros E. apply fmap_Some in E as (u & Eu & ->).
  apply lookup_seq in Eu as [-> ?]. done.
Qed.

Lemma turns_distinct s t : turns 42 0 -> (s < 42)%nat -> (t < 42)%nat -> at_turn s 0 / 2 = at_turn t 0 / 2 -> s = t.
Proof.
  intros H Hs Ht. assert (forall s t, (s < t)%nat -> (t < 42)%nat -> at_turn s 0 / 2 <> at_turn t 0 / 2) as Hlt.
  { clear s t Hs Ht. intros s t Hst Ht E. apply same_edge in E as [E|E]; [| |apply (turns_endpoint 42); [done|lia]..].
    - revert E. apply (turns_inj 42); [done|lia|lia|]. intros u Hu. apply H; lia.
    - apply (no_reverse 42 s t); [done|lia|lia|]. rewrite E. symmetry. apply opposite_endpoint, (turns_endpoint 42); [done|lia]. }
  intros E. destruct (Nat.lt_trichotomy s t) as [Hst|[Hst|Hst]]; [|done|]; exfalso; [by apply (Hlt s t)|by apply (Hlt t s)].
Qed.

Lemma one_cycle_of_turns : turns 42 0 -> at_turn 42 0 = 0 -> one_cycle visited_endpoints.
Proof.
  intros H H0. constructor.
  - apply Forall_forall. intros i Hi. apply list_elem_of_lookup in Hi as (t & E). apply visited_lookup in E as [Ht ->].
    apply (turns_endpoint 42); [done|lia].
  - apply submseteq_length_Permutation; [apply NoDup_submseteq|].
    + unfold visited_endpoints. rewrite map_map. apply NoDup_fmap_2_strong; [|apply NoDup_seq].
      intros s t Hs Ht E. rewrite elem_of_seq in Hs, Ht. apply turns_distinct; [done|lia|lia|exact E].
    + intros e He. apply list_elem_of_fmap in He as (i & -> & Hi). apply list_elem_of_lookup in Hi as (t & E). apply visited_lookup in E as [Ht ->].
      pose proof (turns_endpoint 42 t H ltac:(lia)) as Hi. unfold endpoint in Hi. apply elem_of_seqZ. mod_lia.
    + unfold visited_endpoints. rewrite length_seqZ, !length_map, length_seq. done.
  - unfold visited_endpoints. rewrite map_map. apply NoDup_fmap_2_strong; [|apply NoDup_seq].
    assert (forall s t, (s < t)%nat -> (t < 42)%nat -> node (at_turn s 0) <> node (at_turn t 0)) as Hlt.
    { intros s t Hst Ht E. destruct (H s ltac:(lia)) as [Ea _].
      destruct (advance_spec _ _ (turns_endpoint 42 s H ltac:(lia)) Ea) as (_ & _ & _ & Hu).
      apply (no_reverse 42 (S s) t); [done|lia|lia|]. apply Hu. split; [apply (turns_endpoint 42); [done|lia]|]. split; [|done].
      intros E'. assert (t = s) by (apply turns_distinct; [done|lia|lia|by rewrite E']). lia. }
    intros s t Hs Ht E. rewrite elem_of_seq in Hs, Ht.
    destruct (Nat.lt_trichotomy s t) as [Hst|[Hst|Hst]]; [|done|]; exfalso; [apply (Hlt s t)|apply (Hlt t s)]; done || lia.
  - intros t i k Ei Ek. apply visited_lookup in Ei as [Ht ->]. apply visited_lookup in Ek as [_ ->].
    destruct (H t Ht) as [Ea _]. destruct (advance_spec _ _ (turns_endpoint 42 t H ltac:(lia)) Ea) as (_ & (_ & _ & En) & Hj & _).
    assert (at_turn ((t + 1) mod 42) 0 = at_turn (S t) 0) as ->; [|done].
    destruct (Nat.eq_dec t 41) as [->|]; [by rewrite H0|]. rewrite Nat.mod_small by lia. by rewrite Nat.add_1_r.
Qed.

(** *** From a cycle to the walk *)
Section accept.
Context (a : list Z) (Ha : one_cycle a).
Abbreviation A t := (nth (t mod 42)%nat a 0).

Lemma cycle_length : length a = 42%nat.
Proof. pose proof (Permutation_length (oc_edges a Ha)) as E. rewrite length_map, length_seqZ in E. exact E. Qed.

Lemma cycle_lookup t : a !! (t mod 42)%nat = Some (A t).
Proof.
  destruct (lookup_lt_is_Some_2 a (t mod 42)) as [x E]; [rewrite cycle_length; mod_lia|].
  by rewrite (nth_lookup_Some a (t mod 42) 0 x).
Qed.

Lemma cycle_endpoint t : endpoint (A t).
Proof. eapply Forall_lookup_1; [apply (oc_endpoints a Ha)|apply (cycle_lookup t)]. Qed.

Lemma cycle_mod s t : (s mod 42 = t mod 42)%nat -> A s = A t.
Proof. by intros ->. Qed.

Lemma cycle_edge_inj s t : A s / 2 = A t / 2 -> (s mod 42 = t mod 42)%nat.
Proof.
  intros E. assert (NoDup (map (fun i => i / 2) a)) as Hnd by (rewrite (oc_edges a Ha); apply NoDup_seqZ).
  eapply (proj1 (NoDup_alt _) Hnd _ _ (A s / 2)); rewrite list_lookup_fmap, cycle_lookup; [done|by rewrite E].
Qed.

Lemma cycle_node_inj s t : node (A s) = node (A t) -> (s mod 42 = t mod 42)%nat.
Proof.
  intros E. eapply (proj1 (NoDup_alt _) (oc_simple a Ha) _ _ (node (A s))); rewrite list_lookup_fmap, cycle_lookup; [done|].
  cbn [fmap option_fmap option_map]. by rewrite E.
Qed.

Lemma cycle_step t : node (Z.lxor (A (S t)) 1) = node (A t) /\ joins (Z.lxor (A (S t)) 1) (A t).
Proof.
  apply (oc_joined a Ha (t mod 42)); [apply cycle_lookup|]. rewrite <- (cycle_lookup (S t)). f_equal. mod_lia.
Qed.

(** Every endpoint is an end of an edge of the cycle. *)
Lemma cycle_covers k : endpoint k -> exists s : nat, k = A s \/ k = Z.lxor (A s) 1.
Proof.
  intros Hk. assert (k / 2 ∈ map (fun i => i / 2) a) as Hin.
  { rewrite (oc_edges a Ha). apply elem_of_seqZ. unfold endpoint in Hk. mod_lia. }
  apply list_elem_of_fmap in Hin as (i & E & Hi). apply list_elem_of_lookup in Hi as (s & Es).
  assert (s < 42)%nat as Hs by (rewrite <- cycle_length; by eapply lookup_lt_Some). exists s.
  assert (A s = i) as <- by (rewrite Nat.mod_small by lia; by apply nth_lookup_Some). apply same_edge; [done|apply cycle_endpoint|done].
Qed.

(** The two endpoints at a node of the cycle. *)
Lemma cycle_mates t k : endpoint k -> node k = node (A t) -> k = A t \/ k = Z.lxor (A (S t)) 1.
Proof.
  intros Hk En. destruct (cycle_covers k Hk) as (s & [->| ->]).
  - left. by apply cycle_mod, cycle_node_inj.
  - right. assert (A s = A (S (s + 41))) as E by (apply cycle_mod; mod_lia). rewrite E in *.
    destruct (cycle_step (s + 41)) as [En' _]. rewrite En' in En. apply cycle_node_inj in En.
    f_equal. apply cycle_mod. mod_lia.
Qed.

(** The endpoints, paired by the nodes of the cycle. *)
Lemma cycle_pairs : seqZ 0 84 ≡ₚ concat (map (fun t => [A t; Z.lxor (A (S t)) 1]) (seq 0 42)).
Proof.
  apply submseteq_length_Permutation; [apply NoDup_submseteq; [apply NoDup_seqZ|]|done].
  intros k Hk. apply elem_of_seqZ in Hk. rewrite list_elem_of_In, in_concat. setoid_rewrite in_map_iff.
  destruct (cycle_covers k) as (s & [E|E]); [unfold endpoint; lia| |].
  - exists [A s; Z.lxor (A (S s)) 1]. split; [|rewrite E; by left]. exists (s mod 42)%nat. split; [|apply in_seq; mod_lia].
    f_equal; [apply cycle_mod; mod_lia|]. do 2 f_equal. apply cycle_mod. mod_lia.
  - exists [A (s + 41); Z.lxor (A (S (s + 41))) 1]. split.
    + exists ((s + 41) mod 42)%nat. split; [|apply in_seq; mod_lia]. f_equal; [apply cycle_mod; mod_lia|]. do 2 f_equal. apply cycle_mod. mod_lia.
    + right. left. rewrite E. f_equal. apply cycle_mod. mod_lia.
Qed.

Lemma cycle_ends_differ t : Z.lxor (A (S t)) 1 <> A t.
Proof.
  intros E. destruct (opposite_endpoint _ (cycle_endpoint (S t))) as (_ & _ & Ed & _). rewrite E in Ed.
  apply cycle_edge_inj in Ed. mod_lia.
Qed.

Lemma cycle_advance t : advance (A t) = Some (A (S t)).
Proof.
  destruct (opposite_endpoint _ (cycle_endpoint (S t))) as (Ho & _ & _ & E & _). destruct (cycle_step t) as [En Hj].
  rewrite <- E. apply advance_intro; [apply cycle_endpoint| |exact Hj|].
  - split; [done|]. split; [apply cycle_ends_differ|done].
  - intros k (Hk & Hne & Enk). destruct (cycle_mates t k Hk Enk); done.
Qed.

Lemma cycle_advance_back t : advance (Z.lxor (A (S t)) 1) = Some (Z.lxor (A t) 1).
Proof.
  destruct (opposite_endpoint _ (cycle_endpoint (S t))) as (Ho & _ & _ & E & _). destruct (cycle_step t) as [En Hj].
  apply advance_intro; [exact Ho| |by apply joins_sym|].
  - split; [apply cycle_endpoint|]. split; [|done]. intros E'. by apply (cycle_ends_differ t).
  - intros k (Hk & Hne & Enk). rewrite En in Enk. destruct (cycle_mates t k Hk Enk); done.
Qed.

Lemma walk_along (g : nat -> Z) : g 0%nat = 0 -> (forall t, advance (g t) = Some (g (S t))) ->
  (forall t, (0 < t < 42)%nat -> g t <> 0) -> g 42%nat = 0 -> turns 42 0 /\ at_turn 42 0 = 0.
Proof.
  intros H0 Hs Hn H42. assert (forall t, at_turn t 0 = g t) as E.
  { induction t as [|t IH]; [done|]. cbn [Nat.iter nat_rect]. change (nexti (at_turn t 0) = g (S t)). rewrite IH. by apply nexti_Some. }
  split; [|by rewrite E]. intros t Ht. rewrite !E. split; [apply Hs|]. intros Hp. apply Hn. lia.
Qed.

Lemma turns_of_cycle : turns 42 0 /\ at_turn 42 0 = 0.
Proof.
  destruct (cycle_covers 0) as (s & [E|E]); [done| |].
  - apply (walk_along (fun t => A (s + t))).
    + rewrite Nat.add_0_r. by rewrite <- E.
    + intros t. rewrite Nat.add_succ_r. apply cycle_advance.
    + intros t Ht E'. assert (A (s + t) / 2 = A s / 2) as Ee by congruence. apply cycle_edge_inj in Ee. mod_lia.
    + transitivity (A s); [apply cycle_mod; mod_lia|done].
  - apply (walk_along (fun t => Z.lxor (A (s + 41 * t)) 1)).
    + rewrite Nat.mul_0_r, Nat.add_0_r. by rewrite <- E.
    + intros t. rewrite (cycle_mod (s + 41 * t) (S (s + 41 * S t))) by mod_lia. apply cycle_advance_back.
    + intros t Ht E'. assert (Z.lxor (A (s + 41 * t)) 1 = Z.lxor (A s) 1) as E'' by congruence.
      assert (A (s + 41 * t) = A s) as Ee.
      { destruct (opposite_endpoint _ (cycle_endpoint (s + 41 * t))) as (_ & _ & _ & E1 & _).
        destruct (opposite_endpoint _ (cycle_endpoint s)) as (_ & _ & _ & E2 & _). rewrite <- E1, <- E2. by f_equal. }
      assert (A (s + 41 * t) / 2 = A s / 2) as Ed by (by rewrite Ee). apply cycle_edge_inj in Ed. mod_lia.
    + transitivity (Z.lxor (A s) 1); [f_equal; apply cycle_mod; mod_lia|done].
Qed.

End accept.

(** The walk accepts exactly when the edges form one cycle. *)
Lemma follow_accepts fuel : (42 <= fuel)%nat ->
  follow fuel find dead 0 0 = Ok POW_OK <-> exists a, one_cycle a.
Proof.
  intros Hf. assert (endpoint 0) as H0 by done. split.
  - intros E. destruct (follow_outcome fuel 0 0 H0) as [(m & Hm & Ht & Hz & E')|[(m & code & _ & _ & _ & _ & E' & Hc)|(_ & _ & E')]].
    + rewrite E in E'. assert (m = 42%nat) as ->.
      { injection E' as E'. destruct (Z.eqb_spec (0 + m) 42); [lia|done]. }
      exists visited_endpoints. by apply one_cycle_of_turns.
    + rewrite E in E'. injection E' as <-. destruct Hc; done.
    + congruence.
  - intros (a & Ha). destruct (turns_of_cycle a Ha) as [Ht Hz].
    destruct (follow_outcome fuel 0 0 H0) as [(m & Hm & Ht' & Hz' & E')|[(m & code & Hm & Ht' & Hn & Hs & E' & _)|(Ht' & Hn & E')]].
    + assert (m = 42%nat) as ->; [|by rewrite E'].
      destruct (Nat.lt_trichotomy m 42) as [Hlt|[|Hlt]]; [|done|]; exfalso.
      * destruct (Ht m Hlt) as [_ H]. apply H; [lia|done].
      * destruct (Ht' 42%nat Hlt) as [_ H]. apply H; [lia|done].
    + exfalso. destruct (Nat.lt_trichotomy m 42) as [Hlt|[->|Hlt]].
      * destruct (Ht m Hlt) as [H _]. congruence.
      * apply Hn; [lia|done].
      * destruct (Ht' 42%nat Hlt) as [_ H]. apply H; [lia|done].
    + exfalso. destruct (Nat.eq_dec fuel 42) as [->|]; [apply Hn; [lia|done]|].
      destruct (Ht' 42%nat ltac:(lia)) as [_ H]. apply H; [lia|done].
Qed.

(** As many turns as there are endpoints are enough. *)
Lemma follow_ends : exists code, follow FOLLOW_FUEL find dead 0 0 = Ok code.
Proof.
  destruct (follow_outcome FOLLOW_FUEL 0 0) as [(m & _ & _ & _ & E)|[(m & code & _ & _ & _ & _ & E & _)|(Ht & Hn & _)]];
    [done|by eexists|by eexists|]. exfalso. change FOLLOW_FUEL with 84%nat in *.
  assert (NoDup (map (fun t => at_turn t 0) (seq 0 85))) as Hnd.
  { apply NoDup_fmap_2_strong; [|apply NoDup_seq].
    assert (forall s t, (s < t)%nat -> (t < 85)%nat -> at_turn s 0 <> at_turn t 0) as Hlt.
    { intros s t Hst Hlt. apply (turns_inj 84); [done|lia|lia|]. intros u Hu.
      destruct (Nat.eq_dec u 84) as [->|]; [apply Hn; lia|apply Ht; lia]. }
    intros s t Hs Hs' E. rewrite elem_of_seq in Hs, Hs'.
    destruct (Nat.lt_trichotomy s t) as [Hst|[Hst|Hst]]; [|done|]; exfalso; [apply (Hlt s t)|apply (Hlt t s)]; done || lia. }
  assert (map (fun t => at_turn t 0) (seq 0 85) ⊆+ seqZ 0 84) as Hsub.
  { apply NoDup_submseteq; [done|]. intros x Hx. apply list_elem_of_fmap in Hx as (t & -> & Hx). rewrite elem_of_seq in Hx.
    apply elem_of_seqZ. apply (turns_endpoint 84 t); [done|lia]. }
  apply submseteq_length in Hsub. rewrite length_map, length_seq, length_seqZ in Hsub. lia.
Qed.

End walk.
