(* ===== verification/CuckooSpec.v ===== *)
(** * What the proof-of-work verifiers accept

    The verifiers of the undirected graphs (cuckaroo, cuckatoo, cuckarooz) end on
    every proof and accept exactly the ascending edges in range that form one
    cycle: the comparison of the xor of all endpoints never decides. *)
From Stdlib Require Import ZifyNat.
From S2P Require Import Prelude BitUtil Consensus Header Difficulty Cuckoo Cycle.

(** ** The edges *)

(** Ascending edges in range. *)
Definition edges_ok (edgeMask : Z) (edges : list Z) : Prop := Forall (fun e => e <= edgeMask) edges /\ Sorted Z.lt edges.

Lemma edges_loop_from {A} edgeMask (put : Z -> A -> A) edges prev acc :
  (Forall (fun e => e <= edgeMask) edges /\ Sorted Z.lt (match prev with Some p => p :: edges | None => edges end) /\
   edges_loop edgeMask put edges prev acc = inr (foldl (fun acc e => put e acc) acc edges)) \/
  (~ (Forall (fun e => e <= edgeMask) edges /\ Sorted Z.lt (match prev with Some p => p :: edges | None => edges end)) /\
   exists code, edges_loop edgeMask put edges prev acc = inl code /\ code <> POW_OK).
Proof.
  revert prev acc. induction edges as [|e edges IH]; intros prev acc.
  - left. split; [done|]. split; [|done]. destruct prev; repeat constructor.
  - cbn [edges_loop foldl]. destruct (Z.gtb_spec e edgeMask) as [Hbig|Hle].
    { right. split; [intros [H _]; apply Forall_cons in H as [? _]; lia|]. by exists POW_TOO_BIG. }
    assert ((match prev with Some p => e <=? p | None => false end) = false -> Sorted Z.lt (e :: edges) <->
      Sorted Z.lt (match prev with Some p => p :: e :: edges | None => e :: edges end)) as Hprev.
    { destruct prev as [p|]; [|done]. intros E. apply Z.leb_gt in E. split; [intros H; constructor; [done|constructor; lia]|apply Sorted_inv]. }
    destruct (match prev with Some p => e <=? p | None => false end) eqn:E.
    { right. split; [|by exists POW_TOO_SMALL]. intros [_ H]. destruct prev as [p|]; [|done]. apply Z.leb_le in E.
      apply Sorted_inv in H as [_ H]. inversion H. lia. }
    destruct (IH (Some e) (put e acc)) as [(Hf & Hs & Eq)|(Hn & Hc)].
    + left. split; [by constructor|]. split; [by apply Hprev|done].
    + right. split; [|done]. intros [Hf Hs]. apply Hn. apply Forall_cons in Hf as [_ Hf]. split; [done|]. by apply Hprev.
Qed.

Lemma edges_loop_spec {A} edgeMask (put : Z -> A -> A) edges acc :
  (edges_ok edgeMask edges /\ edges_loop edgeMask put edges None acc = inr (foldl (fun acc e => put e acc) acc edges)) \/
  (~ edges_ok edgeMask edges /\ exists code, edges_loop edgeMask put edges None acc = inl code /\ code <> POW_OK).
Proof. destruct (edges_loop_from edgeMask put edges None acc) as [(? & ? & ?)|?]; [by left|by right]. Qed.

(** ** The xor of all endpoints *)
Definition xor_all (l : list Z) : Z := foldr Z.lxor 0 l.

Lemma xor_all_app l l' : xor_all (l ++ l') = Z.lxor (xor_all l) (xor_all l').
Proof. induction l as [|x l IH]; [done|]. unfold xor_all in *. cbn [app foldr]. by rewrite IH, Z.lxor_assoc. Qed.

Lemma xor_all_Permutation l l' : l ≡ₚ l' -> xor_all l = xor_all l'.
Proof.
  induction 1 as [|x l l' _ IH|x y l|l1 l2 l3 _ IH1 _ IH2]; [done|..].
  - unfold xor_all in *. cbn [foldr]. by rewrite IH.
  - unfold xor_all. cbn [foldr]. by rewrite <- !Z.lxor_assoc, (Z.lxor_comm y x).
  - congruence.
Qed.

Lemma xor_all_zero l : Forall (eq 0) l -> xor_all l = 0.
Proof. induction 1 as [|x l <- _ IH]; [done|]. exact IH. Qed.

(** The endpoints of the edges, [u] and [v] of each. *)
Definition endpoints (u v : Z -> Z) (edges : list Z) : list Z := concat (map (fun e => [u e; v e]) edges).

Lemma endpoints_snoc u v edges e : endpoints u v (edges ++ [e]) = endpoints u v edges ++ [u e; v e].
Proof. unfold endpoints. by rewrite map_app, concat_app. Qed.

Lemma endpoints_length u v edges : length (endpoints u v edges) = (2 * length edges)%nat.
Proof. unfold endpoints. induction edges as [|e edges IH]; [done|]. cbn [map concat app length] in *. rewrite IH. lia. Qed.

Lemma endpoints_Forall (P : Z -> Prop) u v edges : (forall e, P (u e)) -> (forall e, P (v e)) -> Forall P (endpoints u v edges).
Proof. intros Hu Hv. induction edges as [|e edges IH]; [done|]. by repeat constructor. Qed.

(** The endpoints of the sides [c] selects. *)
Definition side_value (c : bool -> bool) (uvs : list Z) (k : Z) : Z := if c (k mod 2 =? 0) then uv uvs k else 0.

Lemma xor_sides c u v edges :
  xor_all (map (side_value c (endpoints u v edges)) (seqZ 0 (2 * length edges))) =
    Z.lxor (if c true then xor_all (map u edges) else 0) (if c false then xor_all (map v edges) else 0).
Proof.
  induction edges as [|e edges IH] using rev_ind.
  { by destruct (c true), (c false). }
  rewrite length_app. cbn [length]. replace (2 * (length edges + 1)%nat) with (2 * length edges + 2) by lia.
  rewrite seqZ_app, map_app, xor_all_app by lia. rewrite Z.add_0_l.
  assert (map (side_value c (endpoints u v (edges ++ [e]))) (seqZ 0 (2 * length edges)) =
    map (side_value c (endpoints u v edges)) (seqZ 0 (2 * length edges))) as ->.
  { apply map_ext_in. intros k Hk. apply list_elem_of_In, elem_of_seqZ in Hk. unfold side_value, uv.
    rewrite endpoints_snoc, app_nth1 by (rewrite endpoints_length; lia). done. }
  rewrite IH. assert (seqZ (2 * length edges) 2 = [2 * length edges + 0; 2 * length edges + 1]) as ->.
  { rewrite !seqZ_cons, seqZ_nil by lia. repeat f_equal; lia. }
  cbn [map].
  unfold side_value, uv. rewrite endpoints_snoc.
  rewrite !app_nth2 by (rewrite endpoints_length; lia). rewrite endpoints_length.
  replace (Z.to_nat (2 * length edges + 0) - 2 * length edges)%nat with 0%nat by lia.
  replace (Z.to_nat (2 * length edges + 1) - 2 * length edges)%nat with 1%nat by lia. cbn [nth].
  assert (((2 * length edges + 0) mod 2 =? 0) = true) as -> by (apply Z.eqb_eq; mod_lia).
  assert (((2 * length edges + 1) mod 2 =? 0) = false) as -> by (apply Z.eqb_neq; mod_lia).
  rewrite !map_app, !xor_all_app.
  assert (forall x, xor_all [x] = x) as Hone by (intros x; apply Z.lxor_0_r).
  assert (forall x y, xor_all [x; y] = Z.lxor x y) as Htwo by (intros x y; unfold xor_all; cbn [foldr]; by rewrite Z.lxor_0_r).
  cbn [map]. rewrite !Hone, Htwo.
  destruct (c true), (c false); rewrite ?Z.lxor_0_l, ?Z.lxor_0_r; try done.
  rewrite !Z.lxor_assoc. f_equal. rewrite <- !Z.lxor_assoc. f_equal. apply Z.lxor_comm.
Qed.

(** ** The endpoints the verifiers compare *)
Lemma scan_found {N} (node : Z -> N) step same (fuel : nat) i : step = 1 \/ step = 2 -> endpoint i -> 84 / step - 1 <= fuel ->
  (forall k, endpoint k -> k <> i -> node k = node i <-> k mod step = i mod step /\ same k i = true) ->
  exists r, scan fuel step same i i i = Ok r /\ found node i r.
Proof.
  intros Hs Hi Hf Hnode.
  assert (scan fuel step same i i i = Ok (scan_list same i (candidates step i) i)) as E.
  { pose proof (scan_candidates step same i i (Z.to_nat (84 / step - 1)) fuel 0 Hs Hi) as H.
    rewrite Z.mul_0_r, Z.add_0_r, (Z.mod_small i) in H by done. assert (0 <= 84 / step - 1) as Hpos by (destruct Hs as [-> | ->]; done). rewrite H by lia.
    rewrite Z2Nat.id by lia. reflexivity. }
  eexists. split; [exact E|]. clear E.
  assert (forall k, mate node i k <-> k ∈ filter (fun k => same k i = true) (candidates step i)) as Hmate.
  { intros k. rewrite list_elem_of_filter, elem_of_candidates by done. unfold mate. split.
    - intros (Hk & Hne & En). apply Hnode in En as [? ?]; done.
    - intros (Hsame & Hk & Hne & Hmod). split; [done|]. split; [done|]. by apply Hnode. }
  pose proof (scan_list_spec same i (candidates step i)) as H.
  assert (NoDup (filter (fun k => same k i = true) (candidates step i))) as Hnd by (by apply NoDup_filter, NoDup_candidates).
  destruct (filter _ _) as [|k [|k' l]]; rewrite H by (rewrite ?elem_of_candidates by done; try tauto; by apply NoDup_candidates); clear H.
  - left. split; [done|]. intros k Hk. apply Hmate in Hk. by apply not_elem_of_nil in Hk.
  - right; left. exists k. split; [done|]. split; [apply Hmate; by apply list_elem_of_singleton|].
    intros k' Hk. apply Hmate in Hk. by apply list_elem_of_singleton in Hk.
  - right; right. exists k, k'. split; [done|]. rewrite !Hmate. split; [by left|]. split; [right; by left|].
    apply NoDup_cons in Hnd as [Hk _]. rewrite not_elem_of_cons in Hk. tauto.
Qed.

(** The nodes: on two sides, on two sides up to the last bit, on one side. *)
Definition side_node (uvs : list Z) (k : Z) : Z * Z := (k mod 2, uv uvs k).
Definition paired_node (uvs : list Z) (k : Z) : Z * Z := (k mod 2, Z.shiftr (uv uvs k) 1).
Definition anywhere (_ _ : Z) : Prop := True.
Definition other_partner (uvs : list Z) (j i : Z) : Prop := uv uvs j <> uv uvs i.

Definition cuckaroo_cycle (uvs : list Z) : Prop := exists a, one_cycle (side_node uvs) anywhere a.
Definition cuckatoo_cycle (uvs : list Z) : Prop := exists a, one_cycle (paired_node uvs) (other_partner uvs) a.
Definition cuckarooz_cycle (uvs : list Z) : Prop := exists a, one_cycle (uv uvs) anywhere a.

Lemma follow_spec {N} (node : Z -> N) joins find dead :
  (forall i, endpoint i -> exists r, find i = Ok r /\ found node i r) ->
  (forall i k, endpoint i -> endpoint k -> node k = node i -> dead k i = false <-> k <> i /\ joins k i) ->
  (forall i k, joins i k -> joins k i) ->
  (exists code, follow FOLLOW_FUEL find dead 0 0 = Ok code) /\
  (follow FOLLOW_FUEL find dead 0 0 = Ok POW_OK <-> exists a, one_cycle node joins a).
Proof.
  intros Hfind Hdead Hsym. split; [exact (follow_ends node joins find dead Hfind Hdead)|].
  apply (follow_accepts node joins find dead Hfind Hdead Hsym). unfold FOLLOW_FUEL. lia.
Qed.

Lemma cuckaroo_follow_spec uvs :
  (exists code, cuckaroo_follow uvs = Ok code) /\ (cuckaroo_follow uvs = Ok POW_OK <-> cuckaroo_cycle uvs).
Proof.
  set (find := fun i => scan 42 2 (fun k i => uv uvs k =? uv uvs i) i i i).
  assert (forall i, endpoint i -> exists r, find i = Ok r /\ found (side_node uvs) i r) as Hfind.
  { intros i Hi. apply scan_found; [by right|done|done|]. intros k Hk Hne. unfold side_node. rewrite Z.eqb_eq. split; [intros [= -> ->]; done|by intros [-> ->]]. }
  assert (forall i k, endpoint i -> endpoint k -> side_node uvs k = side_node uvs i -> (k =? i) = false <-> k <> i /\ anywhere k i) as Hdead.
  { intros i k _ _ _. rewrite Z.eqb_neq. unfold anywhere. tauto. }
  exact (follow_spec (side_node uvs) anywhere find _ Hfind Hdead (fun _ _ H => H)).
Qed.

Lemma cuckatoo_follow_spec uvs :
  (exists code, cuckatoo_follow uvs = Ok code) /\ (cuckatoo_follow uvs = Ok POW_OK <-> cuckatoo_cycle uvs).
Proof.
  set (find := fun i => scan 42 2 (fun k i => Z.shiftr (uv uvs k) 1 =? Z.shiftr (uv uvs i) 1) i i i).
  assert (forall i, endpoint i -> exists r, find i = Ok r /\ found (paired_node uvs) i r) as Hfind.
  { intros i Hi. apply scan_found; [by right|done|done|]. intros k Hk Hne. unfold paired_node. rewrite Z.eqb_eq. split; [intros [= -> ->]; done|by intros [-> ->]]. }
  assert (forall i k, endpoint i -> endpoint k -> paired_node uvs k = paired_node uvs i ->
    ((k =? i) || (uv uvs k =? uv uvs i)) = false <-> k <> i /\ other_partner uvs k i) as Hdead.
  { intros i k _ _ _. rewrite orb_false_iff, !Z.eqb_neq. done. }
  assert (forall i k, other_partner uvs i k -> other_partner uvs k i) as Hsym by (unfold other_partner; congruence).
  exact (follow_spec (paired_node uvs) (other_partner uvs) find _ Hfind Hdead Hsym).
Qed.

Lemma cuckarooz_follow_spec uvs :
  (exists code, cuckarooz_follow uvs = Ok code) /\ (cuckarooz_follow uvs = Ok POW_OK <-> cuckarooz_cycle uvs).
Proof.
  set (find := fun i => scan 84 1 (fun k i => uv uvs k =? uv uvs i) i i i).
  assert (forall i, endpoint i -> exists r, find i = Ok r /\ found (uv uvs) i r) as Hfind.
  { intros i Hi. apply scan_found; [by left|done|done|]. intros k Hk Hne. rewrite Z.eqb_eq, !Z.mod_1_r. tauto. }
  assert (forall i k, endpoint i -> endpoint k -> uv uvs k = uv uvs i -> (k =? i) = false <-> k <> i /\ anywhere k i) as Hdead.
  { intros i k _ _ _. rewrite Z.eqb_neq. unfold anywhere. tauto. }
  exact (follow_spec (uv uvs) anywhere find _ Hfind Hdead (fun _ _ H => H)).
Qed.

(** ** A cycle cancels the endpoints *)
Section cancel.
Context {N : Type} (node : Z -> N) (joins : Z -> Z -> Prop) (a : list Z) (Ha : one_cycle node joins a) (uvs : list Z).
Abbreviation A t := (nth (t mod 42)%nat a 0).

Lemma cycle_xor c : xor_all (map (side_value c uvs) (seqZ 0 84)) =
  xor_all (map (fun t => Z.lxor (side_value c uvs (A t)) (side_value c uvs (Z.lxor (A (S t)) 1))) (seq 0 42)).
Proof.
  rewrite (xor_all_Permutation _ (map (side_value c uvs) (concat (map (fun t => [A t; Z.lxor (A (S t)) 1]) (seq 0 42)))))
    by (apply Permutation_map, (cycle_pairs node joins a Ha)).
  generalize (seq 0 42). intros l. induction l as [|t l IH]; [done|]. unfold xor_all in *. cbn [map concat app foldr].
  rewrite IH. by rewrite Z.lxor_assoc.
Qed.

Lemma cycle_cancels c :
  (forall t, side_value c uvs (Z.lxor (A (S t)) 1) = side_value c uvs (A t)) -> xor_all (map (side_value c uvs) (seqZ 0 84)) = 0.
Proof.
  intros H. rewrite cycle_xor. apply xor_all_zero. apply Forall_map, Forall_forall. intros t _. unfold compose. rewrite H. symmetry. apply Z.lxor_nilpotent.
Qed.

(** Partners differ in the last bit, and 21 pairs lie on each side. *)
Lemma cycle_partners (c : bool -> bool) : c true = negb (c false) ->
  (forall t, Z.lxor (A (S t)) 1 mod 2 = A t mod 2) ->
  (forall t, Z.lxor (uv uvs (A t)) (uv uvs (Z.lxor (A (S t)) 1)) = 1) ->
  xor_all (map (side_value c uvs) (seqZ 0 84)) = 1.
Proof.
  intros Hc Hside Hone. rewrite cycle_xor.
  assert (forall t, A t mod 2 = if Nat.even t then A 0%nat mod 2 else 1 - A 0%nat mod 2) as Halt.
  { induction t as [|t IH]; [done|]. destruct (opposite_endpoint _ (cycle_endpoint node joins a Ha (S t))) as (_ & _ & _ & _ & E).
    rewrite Hside, IH in E. rewrite Nat.even_succ, <- Nat.negb_even. destruct (Nat.even t); cbn [negb]; lia. }
  rewrite (map_ext _ (fun t => if c (xorb (A 0%nat mod 2 =? 0) (negb (Nat.even t))) then 1 else 0)).
  - destruct (A 0%nat mod 2 =? 0); cbn [xorb seq map xor_all foldr Nat.even negb]; destruct (c true), (c false); discriminate Hc || reflexivity.
  - intros t. unfold side_value. rewrite Hside, Halt.
    assert (((if Nat.even t then A 0%nat mod 2 else 1 - A 0%nat mod 2) =? 0) = xorb (A 0%nat mod 2 =? 0) (negb (Nat.even t))) as ->.
    { pose proof (Z.mod_pos_bound (A 0%nat) 2 ltac:(lia)). destruct (Nat.even t), (Z.eqb_spec (A 0%nat mod 2) 0); cbn [negb xorb]; lia. }
    destruct (c (xorb _ _)); [exact (Hone t)|reflexivity].
Qed.

End cancel.

(** What the verifiers accumulate over the edges. *)
Lemma put_fold u v edges x0 x1 uvs :
  foldl (fun acc e => let '(x0, x1, uvs) := acc in (Z.lxor x0 (u e), Z.lxor x1 (v e), uvs ++ [u e; v e])) (x0, x1, uvs) edges =
    (Z.lxor x0 (xor_all (map u edges)), Z.lxor x1 (xor_all (map v edges)), uvs ++ endpoints u v edges).
Proof.
  revert x0 x1 uvs. induction edges as [|e edges IH]; intros x0 x1 uvs; cbn [foldl map].
  - unfold xor_all, endpoints. cbn. by rewrite !Z.lxor_0_r, app_nil_r.
  - rewrite IH. unfold xor_all, endpoints. cbn [foldr map concat]. by rewrite !Z.lxor_assoc, <- app_assoc.
Qed.

Lemma put1_fold u v edges x uvs :
  foldl (fun acc e => let '(x, uvs) := acc in (Z.lxor (Z.lxor x (u e)) (v e), uvs ++ [u e; v e])) (x, uvs) edges =
    (Z.lxor x (Z.lxor (xor_all (map u edges)) (xor_all (map v edges))), uvs ++ endpoints u v edges).
Proof.
  revert x uvs. induction edges as [|e edges IH]; intros x uvs; cbn [foldl map].
  - unfold xor_all, endpoints. cbn. by rewrite !Z.lxor_0_r, app_nil_r.
  - rewrite IH. unfold xor_all, endpoints. cbn [foldr map concat]. rewrite <- app_assoc. f_equal.
    rewrite !Z.lxor_assoc. do 2 f_equal. rewrite <- !Z.lxor_assoc. f_equal. apply Z.lxor_comm.
Qed.

(** ** The endpoints of the edges in the graph of the keys *)
Definition cuckaroo_u keys edgeMask e : Z := Z.land (sipblock 21 keys e) edgeMask.
Definition cuckaroo_v keys edgeMask e : Z := Z.land (Z.shiftr (sipblock 21 keys e) 32) edgeMask.
Definition cuckarooz_u keys e : Z := Z.land (cuckarooz_sipblock keys e) CUCKAROOZ_NODEMASK.
Definition cuckarooz_v keys e : Z := Z.land (Z.shiftr (cuckarooz_sipblock keys e) 32) CUCKAROOZ_NODEMASK.
Definition cuckatoo_u keys edgeMask e : Z := sipnode keys e 0 edgeMask.
Definition cuckatoo_v keys edgeMask e : Z := sipnode keys e 1 edgeMask.

Definition even_side : bool -> bool := fun even => even.

Lemma endpoints_sides u v edges : length edges = 42%nat ->
  xor_all (map (side_value even_side (endpoints u v edges)) (seqZ 0 84)) = xor_all (map u edges) /\
  xor_all (map (side_value negb (endpoints u v edges)) (seqZ 0 84)) = xor_all (map v edges) /\
  xor_all (map (side_value (fun _ => true) (endpoints u v edges)) (seqZ 0 84)) = Z.lxor (xor_all (map u edges)) (xor_all (map v edges)).
Proof.
  intros Hl. pose proof (fun c => xor_sides c u v edges) as H. rewrite Hl in H. change (2 * 42%nat) with 84 in H.
  rewrite !H. cbn [even_side negb]. by rewrite Z.lxor_0_r.
Qed.

Lemma sipnode_nonneg keys e side edgeBits : 0 <= sipnode keys e side (numEdgesMask edgeBits).
Proof. unfold sipnode. apply Z.land_nonneg. right. apply uint_range. done. Qed.

#[local] Opaque sipnode sipblock cuckarooz_sipblock.

(** The shape the three verifiers share: the edges, the xor check, the walk. *)
Lemma verify_shape {A} edgeMask (put : Z -> A -> A) edges acc (nonzero : A -> bool) (walk : A -> result verify_code) (cycle : Prop) verify :
  verify = match edges_loop edgeMask put edges None acc with
           | inl code => mret code
           | inr acc => if nonzero acc then mret POW_NON_MATCHING else walk acc
           end ->
  let final := foldl (fun acc e => put e acc) acc edges in
  (exists code, walk final = Ok code) -> (walk final = Ok POW_OK <-> cycle) -> (cycle -> nonzero final = false) ->
  (exists code, verify = Ok code) /\ (verify = Ok POW_OK <-> edges_ok edgeMask edges /\ cycle).
Proof.
  intros -> final Hends Hwalk Hzero. destruct (edges_loop_spec edgeMask put edges acc) as [[Hok ->]|[Hbad (code & -> & Hc)]].
  - fold final. destruct (nonzero final) eqn:E.
    + split; [by eexists|]. split; [done|]. intros [_ H]. apply Hzero in H. congruence.
    + split; [done|]. rewrite Hwalk. tauto.
  - split; [by eexists|]. split; [intros [= ->]; done|tauto].
Qed.

Lemma cuckaroo_accepts edges keys edgeBits :
  length edges = 42%nat ->
  let mask := numEdgesMask edgeBits in
  (exists code, verify_cuckaroo edges keys edgeBits = Ok code) /\
  (verify_cuckaroo edges keys edgeBits = Ok POW_OK <->
   edges_ok mask edges /\ cuckaroo_cycle (endpoints (cuckaroo_u keys mask) (cuckaroo_v keys mask) edges)).
Proof.
  intros Hl mask. set (uvs := endpoints _ _ edges).
  assert (foldl (fun acc e => cuckaroo_put keys mask e acc) (0, 0, []) edges =
    (xor_all (map (cuckaroo_u keys mask) edges), xor_all (map (cuckaroo_v keys mask) edges), uvs)) as Ef
    by exact (put_fold (cuckaroo_u keys mask) (cuckaroo_v keys mask) edges 0 0 []).
  eapply (verify_shape mask (cuckaroo_put keys mask) edges (0, 0, []) (fun '(x0, x1, _) => negb (Z.lor x0 x1 =? 0))
    (fun '(_, _, uvs) => cuckaroo_follow uvs)).
  - unfold verify_cuckaroo. fold mask. destruct (edges_loop _ _ _ _ _) as [|[[x0 x1] uvs']]; reflexivity.
  - rewrite Ef. apply cuckaroo_follow_spec.
  - rewrite Ef. apply cuckaroo_follow_spec.
  - rewrite Ef. intros (a & Ha). destruct (endpoints_sides (cuckaroo_u keys mask) (cuckaroo_v keys mask) edges Hl) as (<- & <- & _). fold uvs.
    assert (forall c t, side_value c uvs (Z.lxor (nth (S t mod 42) a 0) 1) = side_value c uvs (nth (t mod 42) a 0)) as Hs.
    { intros c t. destruct (cycle_step (side_node uvs) anywhere a Ha t) as [E _]. apply pair_equal_spec in E as [E1 E2].
      unfold side_value. by rewrite E1, E2. }
    by rewrite !(cycle_cancels (side_node uvs) anywhere a Ha uvs) by (intros; apply Hs).
Qed.

(** The cuckarooz verifier, on a graph with one side, likewise. *)
Lemma cuckarooz_accepts edges keys :
  length edges = 42%nat ->
  (exists code, verify_cuckarooz edges keys = Ok code) /\
  (verify_cuckarooz edges keys = Ok POW_OK <->
   edges_ok EDGEMASK edges /\ cuckarooz_cycle (endpoints (cuckarooz_u keys) (cuckarooz_v keys) edges)).
Proof.
  intros Hl. set (uvs := endpoints _ _ edges).
  assert (foldl (fun acc e => cuckarooz_put keys e acc) (0, []) edges =
    (Z.lxor (xor_all (map (cuckarooz_u keys) edges)) (xor_all (map (cuckarooz_v keys) edges)), uvs)) as Ef
    by exact (put1_fold (cuckarooz_u keys) (cuckarooz_v keys) edges 0 []).
  eapply (verify_shape EDGEMASK (cuckarooz_put keys) edges (0, []) (fun '(x, _) => negb (x =? 0)) (fun '(_, uvs) => cuckarooz_follow uvs)).
  - unfold verify_cuckarooz. destruct (edges_loop _ _ _ _ _) as [|[x uvs']]; reflexivity.
  - rewrite Ef. apply cuckarooz_follow_spec.
  - rewrite Ef. apply cuckarooz_follow_spec.
  - rewrite Ef. intros (a & Ha). destruct (endpoints_sides (cuckarooz_u keys) (cuckarooz_v keys) edges Hl) as (_ & _ & <-). fold uvs.
    rewrite (cycle_cancels (uv uvs) anywhere a Ha uvs); [done|]. intros t. apply (cycle_step (uv uvs) anywhere a Ha t).
Qed.

Lemma partner_xor x y : 0 <= x -> 0 <= y -> Z.shiftr x 1 = Z.shiftr y 1 -> x <> y -> Z.lxor x y = 1.
Proof.
  intros Hx Hy E Hne. rewrite !Z.shiftr_div_pow2 in E by lia. change (2 ^ 1) with 2 in E.
  assert (y = Z.lxor x 1) as ->; [|by rewrite <- Z.lxor_assoc, Z.lxor_nilpotent].
  destruct (lxor_1_cases x Hx) as (q & Hq & [[-> ->]|[-> ->]]); mod_lia.
Qed.

Lemma cuckatoo_accepts edges keys edgeBits :
  length edges = 42%nat ->
  let mask := numEdgesMask edgeBits in
  (exists code, verify_cuckatoo edges keys edgeBits = Ok code) /\
  (verify_cuckatoo edges keys edgeBits = Ok POW_OK <->
   edges_ok mask edges /\ cuckatoo_cycle (endpoints (cuckatoo_u keys mask) (cuckatoo_v keys mask) edges)).
Proof.
  intros Hl mask. set (uvs := endpoints _ _ edges).
  assert (foldl (fun acc e => cuckatoo_put keys mask e acc) (1, 1, []) edges =
    (Z.lxor 1 (xor_all (map (cuckatoo_u keys mask) edges)), Z.lxor 1 (xor_all (map (cuckatoo_v keys mask) edges)), uvs)) as Ef
    by exact (put_fold (cuckatoo_u keys mask) (cuckatoo_v keys mask) edges 1 1 []).
  eapply (verify_shape mask (cuckatoo_put keys mask) edges (1, 1, []) (fun '(x0, x1, _) => negb (Z.lor x0 x1 =? 0))
    (fun '(_, _, uvs) => cuckatoo_follow uvs)).
  - unfold verify_cuckatoo. fold mask. change (Z.land (PROOFSIZE / 2) 1) with 1. destruct (edges_loop _ _ _ _ _) as [|[[x0 x1] uvs']]; reflexivity.
  - rewrite Ef. apply cuckatoo_follow_spec.
  - rewrite Ef. apply cuckatoo_follow_spec.
  - rewrite Ef. intros (a & Ha). destruct (endpoints_sides (cuckatoo_u keys mask) (cuckatoo_v keys mask) edges Hl) as (<- & <- & _). fold uvs.
    assert (forall k, 0 <= uv uvs k) as Hpos.
    { intros k. unfold uv. destruct (nth_lookup_or_length uvs (Z.to_nat k) 0) as [E|E]; [|by rewrite nth_overflow].
      eapply Forall_lookup_1 in E; [exact E|]. apply endpoints_Forall; intros e; apply sipnode_nonneg. }
    assert (forall t, let k := Z.lxor (nth (S t mod 42) a 0) 1 in let i := nth (t mod 42) a 0 in
      k mod 2 = i mod 2 /\ Z.lxor (uv uvs i) (uv uvs k) = 1) as Hs.
    { intros t. destruct (cycle_step (paired_node uvs) (other_partner uvs) a Ha t) as [E Hne]. apply pair_equal_spec in E as [E1 E2].
      split; [done|]. rewrite Z.lxor_comm. apply partner_xor; [apply Hpos|apply Hpos|exact E2|exact Hne]. }
    by rewrite !(cycle_partners (paired_node uvs) (other_partner uvs) a Ha uvs) by (done || (intros t; apply Hs)).
Qed.

(** the cuckaroo verifier ends on every 42 edges, and accepts exactly those
    in range and ascending that form one cycle of the graph of the keys; the
    comparison of the xors rejects no cycle. *)
Theorem verify_cuckaroo_spec edges keys edgeBits :
  length edges = 42%nat ->
  let mask := numEdgesMask edgeBits in
  (exists code, verify_cuckaroo edges keys edgeBits = Ok code) /\
  (verify_cuckaroo edges keys edgeBits = Ok POW_OK <->
   edges_ok mask edges /\ cuckaroo_cycle (endpoints (cuckaroo_u keys mask) (cuckaroo_v keys mask) edges)).
Proof. apply cuckaroo_accepts. Qed.

(** C23: the cuckatoo verifier, on a graph whose nodes are paired by the last bit
    of the endpoints, likewise; the two endpoints at a node must be partners. *)
Theorem verify_cuckatoo_spec edges keys edgeBits :
  length edges = 42%nat ->
  let mask := numEdgesMask edgeBits in
  (exists code, verify_cuckatoo edges keys edgeBits = Ok code) /\
  (verify_cuckatoo edges keys edgeBits = Ok POW_OK <->
   edges_ok mask edges /\ cuckatoo_cycle (endpoints (cuckatoo_u keys mask) (cuckatoo_v keys mask) edges)).
Proof. apply cuckatoo_accepts. Qed.

Lemma verify_cuckatoo_spec_witness : exists code, verify_cuckatoo (seqZ 0 42) (mkKeys 1 2 3 4) 31 = Ok code.
Proof. exact (proj1 (verify_cuckatoo_spec (seqZ 0 42) (mkKeys 1 2 3 4) 31 eq_refl)). Defined.
