(* ===== verification/CuckaroomSpec.v ===== *)
(** * What the verifier of directed cycles accepts

    Cuckaroom: an edge leads from one node to another, and the walk goes on with
    the first edge that starts where the last one ended. *)
From Stdlib Require Import ZifyNat.
From S2P Require Import Prelude BitUtil Consensus Header Difficulty Cuckoo Cycle CuckooSpec.

Section room.
Context (from to : list Z) (from_len : length from = 42%nat).

(** The edges in an order in which each starts where the previous one ends; no
    two start at the same node. *)
Record directed_cycle (w : list nat) : Prop := {
  dc_edges : w ≡ₚ seq 0 42;
  dc_simple : NoDup from;
  dc_joined : forall (t x y : nat), w !! t = Some x -> w !! ((t + 1) mod 42)%nat = Some y -> nth x to 0 = nth y from 0;
}.

Definition next_edge (i : nat) : option nat := find_next from (nth i to 0).

Lemma find_next_spec l target : match find_next l target with
  | Some j => l !! j = Some target /\ forall k : nat, (k < j)%nat -> l !! k <> Some target
  | None => target ∉ l
  end.
Proof.
  induction l as [|f l IH]; cbn [find_next]; [by apply not_elem_of_nil|].
  destruct (Z.eqb_spec f target) as [->|Hne]; [split; [done|lia]|].
  destruct (find_next l target) as [j|]; cbn [fmap option_fmap option_map].
  - destruct IH as [Hj Hk]. split; [done|]. intros [|k] Hlt; cbn; [congruence|]. apply Hk. lia.
  - apply not_elem_of_cons. split; [congruence|done].
Qed.

Lemma next_edge_Some i j : next_edge i = Some j ->
  (j < 42)%nat /\ nth j from 0 = nth i to 0 /\ forall k : nat, (k < j)%nat -> nth k from 0 <> nth i to 0.
Proof.
  unfold next_edge. intros E. pose proof (find_next_spec from (nth i to 0)) as H. rewrite E in H. destruct H as [Hj Hk].
  pose proof (lookup_lt_Some _ _ _ Hj). split; [lia|]. split; [by apply nth_lookup_Some|].
  intros k Hlt E'. apply (Hk k Hlt). destruct (lookup_lt_is_Some_2 from k ltac:(lia)) as [x Hx].
  rewrite (nth_lookup_Some _ _ 0 _ Hx) in E'. by rewrite Hx, E'.
Qed.

Definition visited_ok (visited : list bool) (seen : list nat) : Prop :=
  length visited = 42%nat /\ NoDup seen /\ forall x : nat, (x < 42)%nat -> nth x visited false = bool_decide (x ∈ seen).

Lemma visited_insert visited seen i : visited_ok visited seen -> (i < 42)%nat -> nth i visited false = false ->
  visited_ok (<[i := true]> visited) (i :: seen).
Proof.
  intros (Hl & Hnd & Hv) Hi Hn. rewrite Hv in Hn by done. apply bool_decide_eq_false in Hn.
  split; [by rewrite length_insert|]. split; [by apply NoDup_cons|]. intros x Hx. rewrite !nth_lookup.
  destruct (decide (x = i)) as [->|Hne].
  - rewrite list_lookup_insert by lia. rewrite bool_decide_eq_true_2 by (by left). rewrite decide_True by (split; [done|lia]). done.
  - rewrite list_lookup_insert_ne by done. rewrite <- nth_lookup, Hv by done. apply bool_decide_ext. rewrite elem_of_cons. tauto.
Qed.

Lemma visited_none : visited_ok (repeat false 42) [].
Proof.
  split; [done|]. split; [apply NoDup_nil_2|]. intros x Hx. rewrite bool_decide_eq_false_2 by apply not_elem_of_nil. apply nth_repeat.
Qed.

Lemma seen_bound seen : NoDup seen -> Forall (fun x => (x < 42)%nat) seen -> (length seen <= 42)%nat.
Proof.
  intros Hnd Hb. assert (seen ⊆+ seq 0 42) as H.
  { apply NoDup_submseteq; [done|]. intros x Hx. rewrite Forall_forall in Hb. apply elem_of_seq. specialize (Hb x Hx). lia. }
  apply submseteq_length in H. by rewrite length_seq in H.
Qed.

(** The visited edges bound the number of turns. *)
Lemma room_ends fuel visited seen n i :
  visited_ok visited seen -> Forall (fun x => (x < 42)%nat) seen -> (i < 42)%nat -> (42 < fuel + length seen)%nat ->
  exists code, cuckaroom_follow fuel from to visited n i = Ok code.
Proof.
  revert visited seen n i. induction fuel as [|fuel IH]; intros visited seen n i Hv Hb Hi Hf.
  - pose proof (seen_bound seen (proj1 (proj2 Hv)) Hb). lia.
  - cbn [cuckaroom_follow]. destruct (nth i visited false) eqn:E; [by eexists|]. fold (next_edge i).
    destruct (next_edge i) as [j|] eqn:Ej; [|by eexists]. apply next_edge_Some in Ej as (Hj & _).
    destruct (negb (j =? 0)); [|by eexists]. eapply IH; [by apply visited_insert|by constructor|done|cbn [length]; lia].
Qed.

(** The edges from [i] to the one before edge 0. *)
Inductive path_to_start : nat -> list nat -> Prop :=
| path_last i : next_edge i = Some 0%nat -> path_to_start i [i]
| path_next i j w : next_edge i = Some j -> j <> 0%nat -> path_to_start j w -> path_to_start i (i :: w).

Lemma room_path fuel visited seen n i :
  visited_ok visited seen -> (i < 42)%nat -> cuckaroom_follow fuel from to visited n i = Ok POW_OK ->
  exists w, path_to_start i w /\ NoDup w /\ Forall (fun x => (x < 42)%nat /\ x ∉ seen) w /\ n + length w = 42.
Proof.
  revert visited seen n i. induction fuel as [|fuel IH]; intros visited seen n i Hv Hi; cbn [cuckaroom_follow]; [done|].
  destruct (nth i visited false) eqn:E; [done|]. fold (next_edge i). destruct (next_edge i) as [j|] eqn:Ej; [|done].
  assert (i ∉ seen) as Hns by (destruct Hv as (_ & _ & Hv); rewrite Hv in E by done; by apply bool_decide_eq_false in E).
  destruct (Z.eqb_spec j 0) as [Hj|Hj]; cbn [negb]; intros H.
  - assert (n + 1 = 42 \/ n + 1 <> 42) as [Hn|Hn] by lia; [|by rewrite (proj2 (Z.eqb_neq (n + 1) PROOFSIZE) Hn) in H]. exists [i]. split; [apply path_last; by replace 0%nat with j by lia|]. split; [apply NoDup_singleton|].
    split; [by constructor|exact Hn].
  - destruct (IH _ _ _ _ (visited_insert visited seen i Hv Hi E) (proj1 (next_edge_Some i j Ej)) H) as (w & Hw & Hnd & Hb & Hn).
    exists (i :: w). split; [apply path_next with j; [done|lia|done]|]. split.
    + apply NoDup_cons. split; [|done]. intros Hin. rewrite Forall_forall in Hb. destruct (Hb i Hin) as [_ Hno]. apply Hno. by left.
    + split; [|cbn [length]; lia]. constructor; [done|]. eapply Forall_impl; [exact Hb|]. intros x [Hx Hno]. split; [done|].
      intros Hin. apply Hno. by right.
Qed.

Lemma path_lookup i w : path_to_start i w -> w !! 0%nat = Some i /\ forall (t x : nat), w !! t = Some x ->
  (exists y, w !! S t = Some y /\ next_edge x = Some y) \/ (S t = length w /\ next_edge x = Some 0%nat).
Proof.
  induction 1 as [i Hi|i j w Hi Hj Hp [H0 IH]].
  - split; [done|]. intros [|t] x E; [|done]. injection E as <-. by right.
  - split; [done|]. intros [|t] x E; [injection E as <-; left; by exists j|].
    destruct (IH t x E) as [(y & Hy & Hn)|[Hl Hn]]; [left; by exists y|right; cbn [length]; split; [lia|done]].
Qed.

(** Every edge of the path but the first is the choice of its predecessor. *)
Lemma path_chosen i w : path_to_start i w -> Forall (fun y => y = i \/ exists x, next_edge x = Some y) w.
Proof.
  induction 1 as [i Hi|i j w Hi Hj Hp IH]; constructor; [by left|done|by left|].
  eapply Forall_impl; [exact IH|]. intros y [-> |H]; [right; by exists i|by right].
Qed.

Lemma room_sound w : path_to_start 0 w -> NoDup w -> Forall (fun x => (x < 42)%nat) w -> length w = 42%nat -> directed_cycle w.
Proof.
  intros Hp Hnd Hb Hl. assert (w ≡ₚ seq 0 42) as Hperm.
  { apply submseteq_length_Permutation; [|rewrite length_seq; lia]. apply NoDup_submseteq; [done|].
    intros x Hx. rewrite Forall_forall in Hb. apply elem_of_seq. specialize (Hb x Hx). lia. }
  destruct (path_lookup 0 w Hp) as [H0 Hnext]. constructor; [done| |].
  - assert (forall x y, (x < y)%nat -> (y < 42)%nat -> from !! x <> from !! y) as Hlt.
    { intros x y Hxy Hy E. assert (y ∈ w) as Hin by (rewrite Hperm; apply elem_of_seq; lia).
      pose proof (path_chosen 0 w Hp) as Hch. rewrite Forall_forall in Hch. destruct (Hch y Hin) as [->|(p & Hpy)]; [lia|].
      apply next_edge_Some in Hpy as (_ & Ey & Hfirst). apply (Hfirst x Hxy). by rewrite <- Ey, !nth_lookup, E. }
    apply NoDup_alt. intros x y v Ex Ey. pose proof (lookup_lt_Some _ _ _ Ex). pose proof (lookup_lt_Some _ _ _ Ey).
    destruct (Nat.lt_trichotomy x y) as [Hxy|[Hxy|Hxy]]; [|done|]; exfalso; [apply (Hlt x y)|apply (Hlt y x)]; lia || congruence.
  - intros t x y Ex Ey. pose proof (lookup_lt_Some _ _ _ Ex) as Ht. rewrite Hl in Ht.
    destruct (Hnext t x Ex) as [(y' & Ey' & Hn)|[Hlast Hn]].
    + pose proof (lookup_lt_Some _ _ _ Ey') as Ht'. rewrite Hl in Ht'. rewrite Nat.mod_small in Ey by lia. rewrite Nat.add_1_r in Ey.
      assert (y = y') as -> by congruence. symmetry. apply next_edge_Some, Hn.
    + rewrite Hl in Hlast. assert (t = 41%nat) as -> by lia. change ((41 + 1) mod 42)%nat with 0%nat in Ey.
      assert (y = 0)%nat as -> by congruence. symmetry. apply next_edge_Some, Hn.
Qed.

(** *** From a cycle to the walk *)
Section room_accept.
Context (w : list nat) (Hw : directed_cycle w) (to_len : length to = 42%nat).
Abbreviation W t := (nth (t mod 42)%nat w 0%nat).

Lemma room_length : length w = 42%nat.
Proof. rewrite (Permutation_length (dc_edges w Hw)). apply length_seq. Qed.

Lemma room_lookup t : w !! (t mod 42)%nat = Some (W t).
Proof.
  destruct (lookup_lt_is_Some_2 w (t mod 42)) as [x E]; [rewrite room_length; mod_lia|].
  by rewrite (nth_lookup_Some w (t mod 42) 0%nat x).
Qed.

Lemma room_bound t : (W t < 42)%nat.
Proof.
  assert (W t ∈ w) as H by (eapply list_elem_of_lookup_2, room_lookup). eapply elem_of_Permutation_proper in H; [|symmetry; apply (dc_edges w Hw)]. apply elem_of_seq in H. lia.
Qed.

Lemma room_inj s t : W s = W t -> (s mod 42 = t mod 42)%nat.
Proof.
  intros E. assert (NoDup w) as Hnd by (rewrite (dc_edges w Hw); apply NoDup_seq).
  eapply (proj1 (NoDup_alt _) Hnd); [apply room_lookup|]. rewrite E. apply room_lookup.
Qed.

Lemma room_step t : nth (W t) to 0 = nth (W (S t)) from 0.
Proof.
  apply (dc_joined w Hw (t mod 42)); [apply room_lookup|]. rewrite <- (room_lookup (S t)). f_equal. mod_lia.
Qed.

Lemma room_next t : next_edge (W t) = Some (W (S t)).
Proof.
  unfold next_edge. rewrite room_step.
  destruct (lookup_lt_is_Some_2 from (W (S t))) as [x Ex]; [rewrite from_len; apply room_bound|].
  rewrite (nth_lookup_Some _ _ _ _ Ex). pose proof (find_next_spec from x) as H. destruct (find_next from x) as [j|].
  - destruct H as [Hj _]. f_equal. eapply (proj1 (NoDup_alt _) (dc_simple w Hw)); [exact Hj|exact Ex].
  - destruct H. by eapply list_elem_of_lookup_2.
Qed.

Lemma room_start : exists s, W s = 0%nat.
Proof.
  assert (0%nat ∈ w) as H by (rewrite (dc_edges w Hw); apply elem_of_seq; lia). apply list_elem_of_lookup in H as (s & E).
  pose proof (lookup_lt_Some _ _ _ E) as Hs. rewrite room_length in Hs. exists s. rewrite Nat.mod_small by lia. by apply nth_lookup_Some.
Qed.

Lemma room_walk s (d t fuel : nat) visited : W s = 0%nat -> (t + S d = 42)%nat -> (d < fuel)%nat ->
  visited_ok visited (map (fun u => W (s + u)) (rev (seq 0 t))) ->
  cuckaroom_follow fuel from to visited t (W (s + t)) = Ok POW_OK.
Proof.
  intros H0. revert t fuel visited. induction d as [|d IH]; intros t fuel visited Ht Hf Hv; (destruct fuel as [|fuel]; [lia|]);
    cbn [cuckaroom_follow]; fold (next_edge (W (s + t))); rewrite room_next;
    assert (nth (W (s + t)) visited false = false) as E by
      (destruct Hv as (_ & _ & Hv); rewrite Hv by apply room_bound; apply bool_decide_eq_false_2; intros Hin;
       apply list_elem_of_fmap in Hin as (u & Eu & Hu); apply list_elem_of_In, in_rev, in_seq in Hu; apply room_inj in Eu; mod_lia);
    rewrite E.
  - assert (W (S (s + t)) = 0%nat) as -> by (transitivity (W s); [f_equal; mod_lia|exact H0]).
    replace (Z.of_nat t + 1) with PROOFSIZE by (unfold PROOFSIZE; lia). reflexivity.
  - assert (W (S (s + t)) <> 0%nat) as Hn by (intros E'; assert (W (S (s + t)) = W s) as E2 by congruence; apply room_inj in E2; mod_lia).
    destruct (Z.eqb_spec (W (S (s + t))) 0) as [E'|_]; [lia|]. cbn [negb].
    replace (Z.of_nat t + 1) with (Z.of_nat (S t)) by lia. rewrite <- Nat.add_succ_r. apply IH; [lia|lia|].
    rewrite seq_S, rev_app_distr. cbn [rev app map Nat.add]. apply visited_insert; [done|apply room_bound|done].
Qed.

Lemma room_accepts : cuckaroom_follow 43 from to (repeat false 42) 0 0 = Ok POW_OK.
Proof.
  destruct room_start as (s & E). pose proof (room_walk s 41 0 43 (repeat false 42) E) as H. rewrite Nat.add_0_r, E in H.
  apply H; [done|lia|exact visited_none].
Qed.

Lemma list_of_nth (l : list Z) : length l = 42%nat -> l = map (fun x => nth x l 0) (seq 0 42).
Proof.
  intros Hl. rewrite <- Hl. clear Hl. induction l as [|x l IH]; [done|]. cbn [length seq map nth]. f_equal.
  rewrite <- seq_shift, map_map. exact IH.
Qed.

(** The nodes the edges start at are those they end at. *)
Lemma room_xor : xor_all from = xor_all to.
Proof.
  assert (map (fun t => W t) (seq 0 42) ≡ₚ seq 0 42 /\ map (fun t => W (S t)) (seq 0 42) ≡ₚ seq 0 42) as [E1 E2].
  { split; (apply submseteq_length_Permutation; [apply NoDup_submseteq|done]).
    all: try (intros x Hx; apply list_elem_of_fmap in Hx as (t & -> & _); apply elem_of_seq; pose proof (room_bound t); pose proof (room_bound (S t)); lia).
    all: apply NoDup_fmap_2_strong; [|apply NoDup_seq]; intros s t Hs Ht E; rewrite elem_of_seq in Hs, Ht; apply room_inj in E; mod_lia. }
  rewrite (list_of_nth from from_len), (list_of_nth to to_len).
  rewrite (xor_all_Permutation _ _ (Permutation_map (fun x => nth x from 0) (symmetry E2))).
  rewrite (xor_all_Permutation _ _ (Permutation_map (fun x => nth x to 0) (symmetry E1))). rewrite !map_map. f_equal.
  apply map_ext. intros t. symmetry. apply room_step.
Qed.

End room_accept.
End room.

(** The edges of a proof in the graph of the keys. *)
Definition cuckaroom_from keys e : Z := Z.land (cuckaroom_sipblock keys e) EDGEMASK.
Definition cuckaroom_to keys e : Z := Z.land (Z.shiftr (cuckaroom_sipblock keys e) 32) EDGEMASK.

Lemma room_put_fold (f t : Z -> Z) (edges : list Z) x0 x1 froms tos :
  foldl (fun acc e => let '(x0, x1, froms, tos) := acc in (Z.lxor x0 (f e), Z.lxor x1 (t e), froms ++ [f e], tos ++ [t e])) (x0, x1, froms, tos) edges =
    (Z.lxor x0 (xor_all (map f edges)), Z.lxor x1 (xor_all (map t edges)), froms ++ map f edges, tos ++ map t edges).
Proof.
  revert x0 x1 froms tos. induction edges as [|e edges IH]; intros x0 x1 froms tos; cbn [foldl map].
  - unfold xor_all. cbn. by rewrite !Z.lxor_0_r, !app_nil_r.
  - rewrite IH. unfold xor_all. cbn [foldr]. by rewrite !Z.lxor_assoc, <- !app_assoc.
Qed.

#[local] Opaque cuckaroom_sipblock.

Lemma cuckaroom_accepts edges keys :
  length edges = 42%nat ->
  (exists code, verify_cuckaroom edges keys = Ok code) /\
  (verify_cuckaroom edges keys = Ok POW_OK <->
   edges_ok EDGEMASK edges /\ exists w, directed_cycle (map (cuckaroom_from keys) edges) (map (cuckaroom_to keys) edges) w).
Proof.
  intros Hl. set (from := map (cuckaroom_from keys) edges). set (to := map (cuckaroom_to keys) edges).
  assert (length from = 42%nat) as Hfrom by (unfold from; by rewrite length_map).
  assert (length to = 42%nat) as Hto by (unfold to; by rewrite length_map).
  assert (foldl (fun acc e => cuckaroom_put keys e acc) (0, 0, [], []) edges = (xor_all from, xor_all to, from, to)) as Ef
    by exact (room_put_fold (cuckaroom_from keys) (cuckaroom_to keys) edges 0 0 [] []).
  assert (map (fun _ : Z => false) edges = repeat false 42) as Evis.
  { rewrite <- Hl. clear. induction edges as [|e edges IH]; [done|]. cbn [map length repeat]. by rewrite IH. }
  apply (verify_shape EDGEMASK (cuckaroom_put keys) edges (0, 0, [], []) (fun '(x0, x1, _, _) => negb (x0 =? x1))
    (fun '(_, _, from, to) => cuckaroom_follow 43 from to (repeat false 42) 0 0)).
  - unfold verify_cuckaroom. rewrite Evis. destruct (edges_loop _ _ _ _ _) as [|[[[x0 x1] f] t]]; reflexivity.
  - rewrite Ef. apply (room_ends from to Hfrom 43 (repeat false 42) [] 0 0); [exact visited_none|constructor|lia|cbn [length]; lia].
  - rewrite Ef. split.
    + intros H. destruct (room_path from to Hfrom 43 (repeat false 42) [] 0 0 visited_none ltac:(lia) H) as (w & Hp & Hnd & Hb & Hn).
      exists w. apply room_sound; [done|done|done| |lia]. eapply Forall_impl; [exact Hb|]. by intros x [? _].
    + intros (w & Hw). by apply (room_accepts from to Hfrom w Hw).
  - rewrite Ef. intros (w & Hw). by rewrite (room_xor from to Hfrom w Hw Hto), Z.eqb_refl.
Qed.

(** C35: the cuckaroom verifier ends on every 42 edges, and accepts exactly those
    in range and ascending that, in some order, each start where the previous
    one ended, all at distinct nodes. *)
Theorem verify_cuckaroom_spec edges keys :
  length edges = 42%nat ->
  (exists code, verify_cuckaroom edges keys = Ok code) /\
  (verify_cuckaroom edges keys = Ok POW_OK <->
   edges_ok EDGEMASK edges /\ exists w, directed_cycle (map (cuckaroom_from keys) edges) (map (cuckaroom_to keys) edges) w).
Proof. apply cuckaroom_accepts. Qed.

Lemma verify_cuckaroom_spec_witness : exists code, verify_cuckaroom (seqZ 0 42) (mkKeys 1 2 3 4) = Ok code.
Proof. exact (proj1 (verify_cuckaroom_spec (seqZ 0 42) (mkKeys 1 2 3 4) eq_refl)). Defined.
