(* ===== verification/CuckaroodSpec.v ===== *)
(** * What the verifier with edges of two directions accepts

    Cuckarood: endpoint [k] belongs to an edge of direction [k / 2 mod 2], and
    the walk looks for the other endpoint at a node among the edges of the other
    direction only.  It accepts cycles that alternate directions, and may walk
    forever on other edges. *)
From Stdlib Require Import ZifyNat.
From S2P Require Import Prelude BitUtil Consensus Header Difficulty Cuckoo Cycle CuckooSpec.

Definition direction (k : Z) : Z := k / 2 mod 2.
Definition other_direction (j i : Z) : Prop := direction j <> direction i.
Definition cuckarood_cycle (uvs : list Z) : Prop := exists a, one_cycle (side_node uvs) other_direction a.

(** The endpoints of the same side and the other direction. *)
Definition reverse_candidates (i : Z) : list Z := map (fun m => Z.lxor (i mod 4) 2 + 4 * m) (seqZ 0 21).

Lemma lxor_2 i : Z.lxor (i mod 4) 2 = (i mod 4 + 2) mod 4.
Proof.
  pose proof (Z.mod_pos_bound i 4 ltac:(lia)).
  assert (i mod 4 = 0 \/ i mod 4 = 1 \/ i mod 4 = 2 \/ i mod 4 = 3) as [->|[->|[->| ->]]] by lia; reflexivity.
Qed.

Lemma elem_of_reverse i k : endpoint i ->
  k ∈ reverse_candidates i <-> endpoint k /\ k mod 2 = i mod 2 /\ other_direction k i.
Proof.
  unfold reverse_candidates, endpoint, other_direction, direction. intros Hi. rewrite lxor_2, list_elem_of_In, in_map_iff.
  setoid_rewrite <- list_elem_of_In. setoid_rewrite elem_of_seqZ. split.
  - intros (m & <- & Hm). mod_lia.
  - intros (Hk & Hs & Hd). exists (k / 4). mod_lia.
Qed.

Lemma NoDup_reverse i : NoDup (reverse_candidates i).
Proof. apply NoDup_fmap_2_strong; [|apply NoDup_seqZ]. intros x y _ _. lia. Qed.

Lemma cuckarood_scan_list uvs i (n fuel : nat) m j : 0 <= m -> m + n = 21 -> (n <= fuel)%nat ->
  cuckarood_scan fuel uvs i (Z.lxor (i mod 4) 2 + 4 * m) j =
    Ok (scan_list (fun k i => uv uvs k =? uv uvs i) i (map (fun m => Z.lxor (i mod 4) 2 + 4 * m) (seqZ m n)) j).
Proof.
  assert (0 <= Z.lxor (i mod 4) 2 < 4) as Hc by (rewrite lxor_2; apply Z.mod_pos_bound; lia).
  revert m j fuel. induction n as [|n IH]; intros m j fuel Hm Hn Hf.
  - assert ((Z.lxor (i mod 4) 2 + 4 * m <? NUM_ENDPOINTS) = false) as E by (apply Z.ltb_ge; change NUM_ENDPOINTS with 84; lia).
    destruct fuel; cbn [cuckarood_scan]; rewrite E; reflexivity.
  - destruct fuel as [|fuel]; [lia|]. cbn [cuckarood_scan].
    assert ((Z.lxor (i mod 4) 2 + 4 * m <? NUM_ENDPOINTS) = true) as -> by (apply Z.ltb_lt; change NUM_ENDPOINTS with 84; lia).
    rewrite (seqZ_cons m) by lia. replace (Z.succ m) with (m + 1) by lia. replace (Z.pred (S n)) with (Z.of_nat n) by lia.
    cbn [map scan_list]. replace (Z.lxor (i mod 4) 2 + 4 * m + 4) with (Z.lxor (i mod 4) 2 + 4 * (m + 1)) by lia.
    rewrite !IH by lia. by destruct (uv uvs _ =? _); [destruct (negb _)|].
Qed.

Definition reverse_matches (uvs : list Z) (i : Z) : list Z := filter (fun k => (uv uvs k =? uv uvs i) = true) (reverse_candidates i).

Lemma cuckarood_find_spec uvs i : endpoint i ->
  cuckarood_find uvs i = Ok (match reverse_matches uvs i with [] => inr i | [k] => inr k | _ => inl POW_BRANCH end).
Proof.
  intros Hi. unfold cuckarood_find. pose proof (cuckarood_scan_list uvs i 21 21 0 i ltac:(lia) ltac:(lia) ltac:(lia)) as E.
  rewrite Z.mul_0_r, Z.add_0_r in E. rewrite E. f_equal. fold (reverse_candidates i).
  pose proof (scan_list_spec (fun k i => uv uvs k =? uv uvs i) i (reverse_candidates i)) as H.
  assert (i ∉ reverse_candidates i) as Hni by (rewrite elem_of_reverse by done; unfold other_direction; tauto).
  specialize (H Hni (NoDup_reverse i)). unfold reverse_matches. destruct (filter _ _) as [|k [|k' l]]; exact H.
Qed.

Lemma elem_of_matches uvs i k : endpoint i ->
  k ∈ reverse_matches uvs i <-> endpoint k /\ side_node uvs k = side_node uvs i /\ other_direction k i.
Proof.
  intros Hi. unfold reverse_matches. rewrite list_elem_of_filter, elem_of_reverse, Z.eqb_eq by done.
  unfold side_node. rewrite pair_equal_spec. tauto.
Qed.

(** The one other endpoint at the node of an endpoint. *)
Lemma cycle_partner uvs a i : one_cycle (side_node uvs) other_direction a -> endpoint i ->
  exists k, mate (side_node uvs) i k /\ other_direction k i /\ forall k', mate (side_node uvs) i k' -> k' = k.
Proof.
  intros Ha Hi. set (A := fun t => nth (t mod 42)%nat a 0).
  destruct (cycle_covers _ _ a Ha i Hi) as (s & [E|E]).
  - exists (Z.lxor (A (S s)) 1). destruct (cycle_step _ _ a Ha s) as [En Hj].
    destruct (opposite_endpoint _ (cycle_endpoint _ _ a Ha (S s))) as (Ho & _).
    rewrite E. split; [split; [exact Ho|]; split; [apply (cycle_ends_differ _ _ a Ha)|exact En]|]. split; [exact Hj|].
    intros k' (Hk & Hne & En'). destruct (cycle_mates _ _ a Ha s k' Hk En') as [->|]; done.
  - exists (A (s + 41)%nat). destruct (cycle_step _ _ a Ha (s + 41)) as [En Hj].
    assert (nth (S (s + 41) mod 42) a 0 = nth (s mod 42) a 0) as Es by (apply cycle_mod; mod_lia). rewrite Es in En, Hj.
    rewrite E. split; [split; [apply (cycle_endpoint _ _ a Ha)|]; split; [|by rewrite En]|].
    + intros E'. apply (cycle_ends_differ _ _ a Ha (s + 41)). rewrite Es. by symmetry.
    + split; [intros E'; apply Hj; symmetry; exact E'|]. intros k' (Hk & Hne & En').
      rewrite En in En'. destruct (cycle_mates _ _ a Ha (s + 41) k' Hk En') as [|E']; [done|]. rewrite Es in E'. done.
Qed.

(** Where every node has one endpoint of each direction, the search finds what
    a search over all endpoints would. *)
Lemma cycle_found uvs a i : one_cycle (side_node uvs) other_direction a -> endpoint i ->
  exists r, cuckarood_find uvs i = Ok r /\ found (side_node uvs) i r.
Proof.
  intros Ha Hi. rewrite cuckarood_find_spec by done. eexists. split; [reflexivity|].
  destruct (cycle_partner uvs a i Ha Hi) as (k & Hm & Hd & Hu).
  assert (forall k', k' ∈ reverse_matches uvs i <-> k' = k) as Hk.
  { intros k'. rewrite elem_of_matches by done. split.
    - intros (He & En & Hd'). apply Hu. split; [done|]. split; [|done]. intros ->. by apply Hd'.
    - intros ->. destruct Hm as (? & _ & ?). done. }
  assert (NoDup (reverse_matches uvs i)) as Hnd by apply NoDup_filter, NoDup_reverse.
  destruct (reverse_matches uvs i) as [|k1 [|k2 l]].
  - exfalso. apply (not_elem_of_nil k). by apply Hk.
  - assert (k1 = k) as -> by (apply Hk; by left). right; left. by exists k.
  - exfalso. assert (k1 = k) as -> by (apply Hk; by left). assert (k2 = k) as -> by (apply Hk; right; by left).
    apply NoDup_cons in Hnd as [Hn _]. apply Hn. by left.
Qed.

(** ** Soundness *)
Section rood.
Context (uvs : list Z).
Abbreviation find := (cuckarood_find uvs).
Abbreviation dead := (fun j i : Z => j =? i).
Abbreviation W t := (Nat.iter t (nexti find dead) 0).

Lemma follow_ok_turns fuel n i : endpoint i -> follow fuel find dead n i = Ok POW_OK ->
  exists m : nat, turns find dead m i /\ Nat.iter m (nexti find dead) i = 0 /\ n + m = 42.
Proof.
  revert n i. induction fuel as [|fuel IH]; intros n i Hi; cbn [follow]; [done|].
  rewrite cuckarood_find_spec by done. cbn [mbind result_bind].
  assert (forall j, reverse_matches uvs i = [j] -> (j =? i) = false -> advance find dead i = Some (Z.lxor j 1)) as Hadv.
  { intros j Ej Hd. unfold advance. by rewrite cuckarood_find_spec, Ej, Hd. }
  destruct (reverse_matches uvs i) as [|j [|j2 l]] eqn:Ej; [by rewrite Z.eqb_refl| |done].
  destruct (j =? i) eqn:Hd; [done|]. specialize (Hadv j eq_refl Hd).
  assert (endpoint j) as Hj by (assert (j ∈ reverse_matches uvs i) as H by (rewrite Ej; by left); apply elem_of_matches in H as [H _]; [exact H|exact Hi]).
  destruct (Z.eqb_spec (Z.lxor j 1) 0) as [E0|Hn0]; cbn [negb].
  - intros [= H]. destruct (Z.eqb_spec (n + 1) PROOFSIZE) as [Hn|]; [|done]. exists 1%nat. split; [|split; [|done]].
    + intros t Ht. assert (t = 0)%nat as -> by lia. split; [|lia]. by rewrite (at_turn_S find dead 0 i (Z.lxor j 1)).
    + by rewrite (at_turn_S find dead 0 i (Z.lxor j 1)).
  - intros H. destruct (IH (n + 1) (Z.lxor j 1) (proj1 (opposite_endpoint j Hj)) H) as (m & Ht & Hz & Hm).
    exists (S m). split; [by apply turns_cons with (Z.lxor j 1)|]. split; [by rewrite (at_turn_S find dead m i (Z.lxor j 1))|lia].
Qed.

Lemma rood_advance i i' : endpoint i -> advance find dead i = Some i' ->
  endpoint i' /\ reverse_matches uvs i = [Z.lxor i' 1] /\ side_node uvs (Z.lxor i' 1) = side_node uvs i /\ other_direction (Z.lxor i' 1) i.
Proof.
  intros Hi. unfold advance. rewrite cuckarood_find_spec by done. destruct (reverse_matches uvs i) as [|j [|j2 l]] eqn:Ej; [by rewrite Z.eqb_refl| |done].
  destruct (j =? i); [done|]. intros [= <-].
  assert (j ∈ reverse_matches uvs i) as H by (rewrite Ej; by left). apply elem_of_matches in H as (Hj & En & Hd); [|done].
  destruct (opposite_endpoint j Hj) as (? & _ & _ & -> & _). done.
Qed.

(** The walk leaves edges of direction 0 on one side, those of direction 1 on
    the other. *)
Lemma rood_step_sides i i' : endpoint i -> i mod 4 = 0 \/ i mod 4 = 3 -> advance find dead i = Some i' ->
  endpoint i' /\ (i' mod 4 = 0 \/ i' mod 4 = 3).
Proof.
  intros Hi Hs Ea. destruct (rood_advance i i' Hi Ea) as (Hi' & _ & En & Hd). split; [done|].
  apply pair_equal_spec in En as [Em _]. unfold other_direction, direction in Hd. clear Ea. unfold endpoint in *.
  destruct (lxor_1_cases i') as (q & Hq & [[E1 E2]|[E1 E2]]); [lia|..]; rewrite E2 in *; clear E2; subst i'; mod_lia.
Qed.

(** An edge is left by one of its ends only. *)
Lemma rood_same_edge i k : endpoint i -> endpoint k -> i mod 4 = 0 \/ i mod 4 = 3 -> k mod 4 = 0 \/ k mod 4 = 3 -> i / 2 = k / 2 -> i = k.
Proof. unfold endpoint. intros Hi Hk Hi4 Hk4 E. mod_lia. Qed.

Lemma rood_side i k : i mod 4 = 0 \/ i mod 4 = 3 -> k mod 4 = 0 \/ k mod 4 = 3 -> i mod 2 = k mod 2 -> i mod 4 = k mod 4.
Proof. intros Hi Hk E. mod_lia. Qed.

(** [m] stays a variable: the walk is not to be evaluated. *)
Context (m : nat) (Hm : m = 42%nat) (Hturns : turns find dead m 0) (Hback : W m = 0).

Lemma rood_sides t : (t <= m)%nat -> endpoint (W t) /\ (W t mod 4 = 0 \/ W t mod 4 = 3).
Proof.
  induction t as [|t IH]; intros Ht; [split; [done|by left]|]. destruct (IH (Nat.lt_le_incl _ _ Ht)) as [Hi Hs].
  destruct (Hturns t Ht) as [Ea _]. exact (rood_step_sides _ _ Hi Hs Ea).
Qed.

Lemma rood_distinct s t : (s < t)%nat -> (t < 42)%nat -> W s <> W t.
Proof.
  intros Hst Ht E. assert (W (s + (m - t))%nat = 0) as Hz.
  { rewrite Nat.add_comm, Nat.iter_add, E, <- Nat.iter_add. by replace (m - t + t)%nat with m by lia. }
  destruct (Hturns (s + (m - t))%nat ltac:(lia)) as [_ Hn]. apply Hn; [lia|done].
Qed.

Lemma rood_edges s t : (s < t)%nat -> (t < 42)%nat -> W s / 2 <> W t / 2.
Proof.
  intros Hst Ht E. destruct (rood_sides s ltac:(lia)) as [Hs Hs4]. destruct (rood_sides t ltac:(lia)) as [Ht' Ht4].
  apply (rood_distinct s t Hst Ht). by apply rood_same_edge.
Qed.

(** Two edges left at the same node would lead to the same next edge. *)
Lemma rood_nodes s t : (s < t)%nat -> (t < 42)%nat -> side_node uvs (W s) <> side_node uvs (W t).
Proof.
  intros Hst Ht E. destruct (rood_sides s ltac:(lia)) as [Hs Hs4]. destruct (rood_sides t ltac:(lia)) as [Ht' Ht4].
  apply pair_equal_spec in E as [Em Ev].
  assert (reverse_matches uvs (W s) = reverse_matches uvs (W t)) as Er.
  { unfold reverse_matches, reverse_candidates. rewrite Ev. by rewrite (rood_side _ _ Hs4 Ht4 Em). }
  destruct (Hturns s ltac:(lia)) as [Es _]. destruct (Hturns t ltac:(lia)) as [Et _].
  destruct (rood_advance _ _ Hs Es) as (Hs' & E1 & _). destruct (rood_advance _ _ Ht' Et) as (Ht'' & E2 & _).
  assert (W (S s) = W (S t)) as Eq.
  { destruct (opposite_endpoint _ Hs') as (_ & _ & _ & X1 & _). destruct (opposite_endpoint _ Ht'') as (_ & _ & _ & X2 & _). congruence. }
  destruct (Nat.eq_dec (S t) m) as [Hlast|Hne]; [|apply (rood_distinct (S s) (S t)); [lia|lia|done]].
  rewrite Hlast, Hback in Eq. destruct (Hturns (S s) ltac:(lia)) as [_ Hn]. apply Hn; [lia|done].
Qed.

Lemma rood_sound : one_cycle (side_node uvs) other_direction (visited_endpoints find dead).
Proof.
  assert (forall {B} (g : nat -> B), (forall s t, (s < t)%nat -> (t < 42)%nat -> g s <> g t) -> NoDup (map g (seq 0 42))) as Hnd.
  { intros B g Hg. apply NoDup_fmap_2_strong; [|apply NoDup_seq]. intros s t Hs Ht E. rewrite elem_of_seq in Hs, Ht.
    destruct (Nat.lt_trichotomy s t) as [H|[H|H]]; [|done|]; exfalso; [apply (Hg s t)|apply (Hg t s)]; done || lia. }
  constructor.
  - apply Forall_forall. intros i Hi. apply list_elem_of_lookup in Hi as (t & E). apply visited_lookup in E as [Ht ->].
    apply rood_sides. lia.
  - apply submseteq_length_Permutation; [apply NoDup_submseteq|].
    + unfold visited_endpoints. rewrite map_map. apply Hnd, rood_edges.
    + intros e He. apply list_elem_of_fmap in He as (i & -> & Hi). apply list_elem_of_lookup in Hi as (t & E). apply visited_lookup in E as [Ht ->].
      destruct (rood_sides t ltac:(lia)) as [Hi _]. unfold endpoint in Hi. apply elem_of_seqZ. mod_lia.
    + unfold visited_endpoints. rewrite length_seqZ, !length_map, length_seq. done.
  - unfold visited_endpoints. rewrite map_map. apply Hnd, rood_nodes.
  - intros t i k Ei Ek. apply visited_lookup in Ei as [Ht ->]. apply visited_lookup in Ek as [_ ->].
    destruct (Hturns t ltac:(lia)) as [Ea _]. destruct (rood_sides t ltac:(lia)) as [Hi _]. destruct (rood_advance _ _ Hi Ea) as (_ & _ & En & Hd).
    assert (W ((t + 1) mod 42) = W (S t)) as ->; [|done].
    destruct (Nat.eq_dec (S t) m) as [Hlast|]; [rewrite Hlast, Hback; by replace t with 41%nat by lia|]. rewrite Nat.mod_small by lia. by rewrite Nat.add_1_r.
Qed.

End rood.

Lemma cuckarood_accepts fuel uvs :
  (42 <= fuel)%nat -> cuckarood_follow fuel uvs = Ok POW_OK <-> cuckarood_cycle uvs.
Proof.
  intros Hf. split.
  - intros H. destruct (follow_ok_turns uvs fuel 0 0 ltac:(done) H) as (m & Ht & Hz & Hm).
    eexists. apply (rood_sound uvs m ltac:(lia) Ht Hz).
  - intros (a & Ha). apply (follow_accepts (side_node uvs) other_direction (cuckarood_find uvs)); [| | |done|by exists a].
    + intros i Hi. by apply (cycle_found uvs a).
    + intros i k Hi Hk En. rewrite Z.eqb_neq. split; [|tauto]. intros Hne. split; [done|].
      destruct (cycle_partner uvs a i Ha Hi) as (k' & _ & Hd & Hu). by rewrite (Hu k).
    + unfold other_direction. congruence.
Qed.

(** with 42 turns or more, the cuckarood walk accepts exactly the endpoints
    whose edges form one cycle of alternating directions. *)
Theorem cuckarood_follow_spec fuel uvs :
  (42 <= fuel)%nat -> cuckarood_follow fuel uvs = Ok POW_OK <-> cuckarood_cycle uvs.
Proof. apply cuckarood_accepts. Qed.

(** ** A walk that does not end

    Edges of direction 0 with the ends (1, 2), (3, 4) and (1, 5), and of
    direction 1 with the ends (1, 4) and (3, 5): from the first edge the walk
    enters the loop of the other four and never comes back.  The other 37 edges
    make the numbers of edges and the xors right. *)
Definition loop_edges (dir : Z) : list (Z * Z) :=
  if dir =? 0 then [(1, 2); (3, 4); (1, 5); (1024, 1024)] ++ map (fun i => (100 + i, 100 + i)) (seqZ 0 17)
  else [(1, 4); (3, 5)] ++ map (fun i => (200 + i, 300 + i)) (seqZ 0 18) ++
    [(xor_all (1 :: 1024 :: map (fun i => 100 + i) (seqZ 0 17) ++ map (fun i => 200 + i) (seqZ 0 18)),
      xor_all (2 :: 1024 :: map (fun i => 100 + i) (seqZ 0 17) ++ map (fun i => 300 + i) (seqZ 0 18)))].

Definition loop_uvs : list Z :=
  concat (zip_with (fun a b => [fst a; snd a; fst b; snd b]) (loop_edges 0) (loop_edges 1)).

Lemma loop_step fuel n i : i = 3 \/ i = 4 \/ i = 7 \/ i = 8 -> follow fuel (cuckarood_find loop_uvs) (fun j i => j =? i) n i = Throw OutOfFuel.
Proof.
  assert (cuckarood_find loop_uvs 3 = Ok (inr 5) /\ cuckarood_find loop_uvs 4 = Ok (inr 6) /\
    cuckarood_find loop_uvs 7 = Ok (inr 9) /\ cuckarood_find loop_uvs 8 = Ok (inr 2)) as (E3 & E4 & E7 & E8) by (vm_compute; repeat split).
  generalize dependent (cuckarood_find loop_uvs). intros find E3 E4 E7 E8.
  revert n i. induction fuel as [|fuel IH]; intros n i Hi; [done|]. cbn [follow].
  destruct Hi as [->|[->|[->| ->]]]; rewrite ?E3, ?E4, ?E7, ?E8; apply IH; tauto.
Qed.

(** C36: the cuckarood walk does not end on every proof: on the endpoints of 21
    edges of each direction whose xors vanish, no number of turns is enough,
    though the code expects to come back to the start or to find a branch. *)
Theorem cuckarood_follow_diverges :
  length (loop_edges 0) = 21%nat /\ length (loop_edges 1) = 21%nat /\
  Forall (fun x => 0 <= x <= NODE1MASK) loop_uvs /\
  xor_all (map fst (loop_edges 0 ++ loop_edges 1)) = 0 /\ xor_all (map snd (loop_edges 0 ++ loop_edges 1)) = 0 /\
  forall fuel, cuckarood_follow fuel loop_uvs = Throw OutOfFuel.
Proof.
  split; [done|]. split; [done|]. split; [apply (bool_decide_unpack _); vm_compute; exact I|].
  split; [vm_compute; reflexivity|]. split; [vm_compute; reflexivity|].
  assert (cuckarood_find loop_uvs 0 = Ok (inr 2)) as E by (vm_compute; reflexivity).
  intros [|fuel]; [done|]. unfold cuckarood_follow. cbn [follow]. rewrite E. apply loop_step. by left.
Qed.

(** A ring of 21 edges of each direction. *)
Definition ring_uvs : list Z := concat (map (fun k => [k; k; k; (k + 1) mod 21]) (seqZ 0 21)).

Lemma cuckarood_follow_spec_witness : cuckarood_cycle ring_uvs.
Proof. apply (cuckarood_follow_spec 42 ring_uvs); [lia|vm_compute; reflexivity]. Defined.
