(* ===== verification/PowSpec.v ===== *)
(** * Proof of work as a whole ([src/PoW/PoWValidator.cpp], [include/Core/Genesis.h])

    The headers of the genesis blocks, what [IsPoWValid] requires of a header,
    and the verifiers evaluated on the proof of work of the main network's
    genesis block. *)
From S2P Require Import Prelude BitUtil Consensus Serial BigInteger MMRHash Transaction Header Difficulty Cuckoo Cycle CuckooSpec CuckaroomSpec CuckaroodSpec.

(** ** The genesis headers

    A hexadecimal string of 32 bytes is a number written big-endian. *)
Definition FLOONET_GENESIS_nonces : list Z :=
  [16994232; 22975978; 32664019; 44016212; 50238216; 57272481; 85779161;
   124272202; 125203242; 133907662; 140522149; 145870823; 147481297; 164952795;
   177186722; 183382201; 197418356; 211393794; 239282197; 239323031; 250757611;
   281414565; 305112109; 308151499; 357235186; 374041407; 389924708; 390768911;
   401322239; 401886855; 406986280; 416797005; 418935317; 429007407; 439527429;
   484809502; 486257104; 495589543; 495892390; 525019296; 529899691; 531685572].

Definition FLOONET_GENESIS (Blake2b : bytes -> Hash) : result BlockHeader :=
  proofOfWork ← ProofOfWork_new Blake2b 29 FLOONET_GENESIS_nonces;
  mret (mkBlockHeader 1 0 1546030084 (repeat 0 32)
    (be_bytes 32 0x00000000000000000017ff4903ef366c8f62e3151ba74e41b8332a126542f538)
    (be_bytes 32 0x73b5e0a05ea9e1e4e33b8f1c723bc5c10d17f07042c2af7644f4dbb61f4bc556)
    (be_bytes 32 0x667a3ba22f237a875f67c9933037c8564097fa57a3e75be507916de28fc0da26)
    (be_bytes 32 0xcfdddfe2d938d0026f8b1304442655bbdddde175ff45ddf44cb03bcb0071a72d)
    (repeat 0 32) 1 1 100000 1856 23 proofOfWork).

Definition MAINNET_GENESIS_nonces : list Z :=
  [4391451; 36730677; 38198400; 38797304; 60700446; 72910191; 73050441;
   110099816; 140885802; 145512513; 149311222; 149994636; 157557529; 160778700;
   162870981; 179649435; 194194460; 227378628; 230933064; 252046196; 272053956;
   277878683; 288331253; 290266880; 293973036; 305315023; 321927758; 353841539;
   356489212; 373843111; 381697287; 389274717; 403108317; 409994705; 411629694;
   431823422; 441976653; 521469643; 521868369; 523044572; 524964447; 530250249].

Definition MAINNET_GENESIS (Blake2b : bytes -> Hash) : result BlockHeader :=
  proofOfWork ← ProofOfWork_new Blake2b 29 MAINNET_GENESIS_nonces;
  mret (mkBlockHeader 1 0 1547568086 (repeat 0 32)
    (be_bytes 32 0x0000000000000000002a8bc32f43277fe9c063b9c99ea252b483941dcd06e217)
    (be_bytes 32 0xfa7566d275006c6c467876758f2bc87e4cebd2020ae9cf9f294c6217828d6872)
    (be_bytes 32 0x1b7fff259aee3edfb5867c4775e4e1717826b843cda6685e5140442ece7bfc2e)
    (be_bytes 32 0xe8bb096a73cbe6e099968965f5342fc1702ee2802802902286dcf0f279e326bf)
    (repeat 0 32) 1 1 17179869184 1856 41 proofOfWork).

(** ** What [IsPoWValid] requires *)

(** The nonces are a cycle of the graph that version and edge bits choose, keyed
    by the hash of the header up to the proof of work. *)
Definition header_cycle (Blake2b : bytes -> Hash) (header : BlockHeader) : Prop :=
  let proofOfWork := bh_proofOfWork header in
  let edges := pow_proofNonces proofOfWork in
  let keys := pow_keys Blake2b header in
  let mask := numEdgesMask (pow_edgeBits proofOfWork) in
  if pow_edgeBits proofOfWork =? 29 then
    if bh_version header =? 1 then edges_ok mask edges /\ cuckaroo_cycle (endpoints (cuckaroo_u keys mask) (cuckaroo_v keys mask) edges)
    else if bh_version header =? 2 then
      exists acc, cuckarood_edges keys edges None (mkRood 0 0 (repeat 0 84) (0, 0)) = inr acc /\
        Z.lor (cd_xor0 acc) (cd_xor1 acc) = 0 /\ cuckarood_cycle (cd_uvs acc)
    else if bh_version header =? 3 then
      edges_ok EDGEMASK edges /\ exists w, directed_cycle (map (cuckaroom_from keys) edges) (map (cuckaroom_to keys) edges) w
    else edges_ok EDGEMASK edges /\ cuckarooz_cycle (endpoints (cuckarooz_u keys) (cuckarooz_v keys) edges)
  else edges_ok mask edges /\ cuckatoo_cycle (endpoints (cuckatoo_u keys mask) (cuckatoo_v keys mask) edges).

(** Under the first conjunct. *)
Lemma and_iff_under (P Q R : Prop) : (P -> Q <-> R) -> P /\ Q <-> P /\ R.
Proof. tauto. Qed.

Section pow.
Context (Blake2b : bytes -> Hash).

Lemma Validate_with_ok verify header : Validate_with Blake2b verify header = Ok true <->
  length (pow_proofNonces (bh_proofOfWork header)) = 42%nat /\
  verify (pow_proofNonces (bh_proofOfWork header)) (pow_keys Blake2b header) (pow_edgeBits (bh_proofOfWork header)) = Ok POW_OK.
Proof.
  unfold Validate_with. change PROOFSIZE with 42. destruct (Z.eqb_spec (length (pow_proofNonces (bh_proofOfWork header))) 42) as [E|E]; cbn [negb].
  - destruct (verify _ _ _) as [code|e]; cbn [mbind result_bind mret result_ret].
    + destruct (bool_decide_reflect (code = POW_OK)) as [->|Hn]; split; [intros _; split; [lia|done]|done|done|].
      intros [_ [= H]]. done.
    + split; [done|]. by intros [_ ?].
  - split; [done|]. intros [? _]. lia.
Qed.

Lemma verify_cuckarood_ok fuel edges keys : (42 <= fuel)%nat ->
  verify_cuckarood fuel edges keys = Ok POW_OK <->
  exists acc, cuckarood_edges keys edges None (mkRood 0 0 (repeat 0 84) (0, 0)) = inr acc /\
    Z.lor (cd_xor0 acc) (cd_xor1 acc) = 0 /\ cuckarood_cycle (cd_uvs acc).
Proof.
  intros Hf. unfold verify_cuckarood. change (Z.to_nat NUM_ENDPOINTS) with 84%nat.
  assert (forall edges prev acc code, cuckarood_edges keys edges prev acc = inl code -> code <> POW_OK) as Hcode.
  { clear edges. intros edges. induction edges as [|e edges IH]; intros prev acc code; cbn [cuckarood_edges]; [done|].
    destruct (_ >=? PROOFSIZE / 2); [by intros [= <-]|]. destruct (e >=? NEDGES); [by intros [= <-]|].
    destruct (match prev with Some p => e <=? p | None => false end); [by intros [= <-]|]. apply IH. }
  destruct (cuckarood_edges _ _ _ _) as [code|acc] eqn:E.
  - split; [intros [= ->]; by apply Hcode in E|]. by intros (acc & ? & _).
  - destruct (Z.eqb_spec (Z.lor (cd_xor0 acc) (cd_xor1 acc)) 0) as [Hx|Hx]; cbn [negb].
    + rewrite (cuckarood_accepts fuel (cd_uvs acc) Hf). split; [intros H; by exists acc|]. by intros (acc' & [= <-] & _ & H).
    + split; [done|]. by intros (acc' & [= <-] & H & _).
Qed.

Lemma ValidateCycle_ok fuel header : (42 <= fuel)%nat ->
  ValidateCycle Blake2b fuel header = Ok true <->
  length (pow_proofNonces (bh_proofOfWork header)) = 42%nat /\ header_cycle Blake2b header.
Proof.
  intros Hf. unfold ValidateCycle, header_cycle, Cuckaroo_Validate, Cuckarood_Validate, Cuckaroom_Validate, Cuckarooz_Validate, Cuckatoo_Validate.
  repeat case_match; rewrite Validate_with_ok; apply and_iff_under; intros Hl.
  - apply cuckaroo_accepts, Hl.
  - by apply verify_cuckarood_ok.
  - apply cuckaroom_accepts, Hl.
  - apply cuckarooz_accepts, Hl.
  - apply cuckatoo_accepts, Hl.
Qed.

(** C19: a header passes exactly when its total difficulty exceeds that of the
    previous one by the difficulty of the network, within what its proof can
    claim, its scaling is that of the network, and its 42 nonces are a cycle of
    the graph chosen by version and edge bits. *)
Theorem IsPoWValid_spec fuel GetBlockHeader env header previousHeader :
  (42 <= fuel)%nat -> is_uint 64 (bh_totalDifficulty header) -> is_uint 64 (bh_totalDifficulty previousHeader) ->
  IsPoWValid Blake2b fuel GetBlockHeader env header previousHeader = Ok true <->
  exists max next, GetMaximumDifficulty header = Ok max /\ CalculateNextDifficulty GetBlockHeader env header = Ok next /\
    bh_totalDifficulty previousHeader < bh_totalDifficulty header <= bh_totalDifficulty previousHeader + max /\
    bh_totalDifficulty header = bh_totalDifficulty previousHeader + hi_difficulty next /\
    bh_scalingDifficulty header = hi_secondaryScaling next /\
    length (pow_proofNonces (bh_proofOfWork header)) = 42%nat /\ header_cycle Blake2b header.
Proof.
  intros Hf Ht Hp. unfold IsPoWValid. setoid_rewrite <- (ValidateCycle_ok fuel header Hf).
  set (T := bh_totalDifficulty header) in *. set (P := bh_totalDifficulty previousHeader) in *.
  destruct (Z.leb_spec T P) as [Hle|Hlt]; [split; [done|intros (max & next & _ & _ & ? & _); lia]|].
  destruct (GetMaximumDifficulty header) as [max|e]; cbn [mbind result_bind]; [|split; [done|by intros (max & next & ? & _)]].
  unfold is_uint in *. rewrite (uint_small 64 (T - P)) by (unfold is_uint; lia).
  destruct (Z.ltb_spec max (T - P)) as [Hmax|Hmax]; [split; [done|intros (max' & next & [= <-] & _ & ? & _); lia]|].
  destruct (CalculateNextDifficulty GetBlockHeader env header) as [next|e]; cbn [mbind result_bind]; [|split; [done|by intros (max' & next & _ & ? & _)]].
  destruct (Z.eqb_spec (T - P) (hi_difficulty next)) as [Ed|Ed]; cbn [negb]; [|split; [done|intros (max' & next' & _ & [= <-] & _ & ? & _); lia]].
  destruct (Z.eqb_spec (bh_scalingDifficulty header) (hi_secondaryScaling next)) as [Es|Es]; cbn [negb].
  - split; [|by intros (max' & next' & _ & _ & _ & _ & _ & ?)]. intros H. exists max, next. repeat (split; [done || lia|]). done.
  - split; [done|]. by intros (max' & next' & _ & [= <-] & _ & _ & ? & _).
Qed.

End pow.

(** ** Evaluation

    [genesis_hash] stands for Blake2b with the value it has on the part of the
    main network's genesis header before the proof of work. *)
Definition genesis_hash (_ : bytes) : Hash := be_bytes 32 0xe511504c87603c56b6f7d73efb819109a9987a97e4b1d66e556eb61fa3de69ff.
Definition genesis_keys : siphash_keys := siphash_keys_new (genesis_hash []).

(** The proof of the main network's genesis block is accepted. *)
Lemma genesis_accepted : verify_cuckaroo MAINNET_GENESIS_nonces genesis_keys 29 = Ok POW_OK.
Proof. vm_compute. reflexivity. Qed.

Lemma verify_cuckaroo_spec_witness :
  cuckaroo_cycle (endpoints (cuckaroo_u genesis_keys (numEdgesMask 29)) (cuckaroo_v genesis_keys (numEdgesMask 29)) MAINNET_GENESIS_nonces).
Proof. apply (verify_cuckaroo_spec MAINNET_GENESIS_nonces genesis_keys 29 eq_refl), genesis_accepted. Defined.

(** A header of version 1 with this proof, one minute after a block of the
    difficulty the network keeps. *)
Definition pow_header (height total : Z) : BlockHeader :=
  mkBlockHeader 1 height (1000 + 60 * height) (repeat 1 32) [] [] [] [] [] 0 0 total 1840 0
    (mkProofOfWork 29 MAINNET_GENESIS_nonces (genesis_hash [])).
Definition pow_db (hash : Hash) : option BlockHeader :=
  if bool_decide (hash = repeat 1 32) then Some (mkBlockHeader 1 0 1000 (repeat 0 32) [] [] [] [] [] 0 0 100 1856 0 (mkProofOfWork 29 [] []))
  else None.

Lemma IsPoWValid_spec_witness : IsPoWValid genesis_hash 42 pow_db MAINNET (pow_header 1 231) (pow_header 0 100) = Ok true.
Proof.
  apply (IsPoWValid_spec genesis_hash 42 pow_db MAINNET (pow_header 1 231) (pow_header 0 100)); [lia|unfold is_uint; simpl; lia|unfold is_uint; simpl; lia|].
  exists 2056, (mkHeaderInfo 1 131 1840 true). split; [vm_compute; reflexivity|]. split; [vm_compute; reflexivity|].
  cbn [pow_header bh_totalDifficulty bh_scalingDifficulty hi_difficulty hi_secondaryScaling bh_proofOfWork pow_proofNonces].
  split; [lia|]. split; [reflexivity|]. split; [reflexivity|]. split; [reflexivity|].
  exact (proj1 (proj2 (cuckaroo_accepts MAINNET_GENESIS_nonces genesis_keys 29 eq_refl)) genesis_accepted).
Defined.
