(* ===== verification/ChainState.v ===== *)
(** * The state of the chain ([src/BlockChain/ChainState.cpp])

    Chains of indices, block database, header MMR and transaction hash set are
    written in one batch, which is rolled back when its writer is released
    unless it was committed ([Core/Traits/Lockable.h]).  The pools and the cache
    of range proofs are shared and not part of the batch.  Locks order the
    batches, which are run one after the other here. *)
From S2P Require Import Prelude BitUtil MMRIndex Serial BigInteger File Roaring MMRHash Consensus Transaction Crypto Header Block BlockDB PruneableMMR TxHashSet Validation Chain OrphanPool HeaderMMR TxPool.

Inductive EBlockChainStatus :=
| SUCCESS | UNKNOWN_ERROR | STORE_ERROR | TRANSACTIONS_MISSING | ALREADY_EXISTS | NOT_FOUND | INVALID | ORPHANED.
#[export] Instance EBlockChainStatus_eq_dec : EqDecision EBlockChainStatus.
Proof. solve_decision. Defined.

(** The members, with the object of the manager in its place (null when there is
    none) and the process-wide cache of range proofs. *)
Record ChainState {F R B C L : Type} := mkChainState {
  m_pChainStore : ChainStore F;
  m_pBlockDB : B;
  m_pHeaderMMR : HeaderMMR F;
  m_pTxHashSet : option (TxHashSet F R);
  m_pTransactionPool : TransactionPool;
  m_pOrphanPool : OrphanPool C;
  m_bulletproofsCache : L;
}.
Arguments ChainState : clear implicits.
Arguments mkChainState {F R B C L}.

Section state.
Context {F : Type} `{HF : HashFile F} {R : Type} `{HR : Roaring R} {B : Type} `{HB : IBlockDB B}.
Context {P : Type} {SP : Secp256k1 P} {C : Type} {HC : LRUCache Hash BlockHeader C} {L : Type} {HL : LRUCache Commitment Commitment L}.
Context (Blake2b : bytes -> Hash) (env : Environment).
Local Abbreviation TS := (TxHashSet F R).
Local Abbreviation CS := (ChainState F R B C L).
Implicit Types (s : CS) (t : EChainType).

Definition cs_set_store (x : ChainStore F) s : CS :=
  mkChainState x (m_pBlockDB s) (m_pHeaderMMR s) (m_pTxHashSet s) (m_pTransactionPool s) (m_pOrphanPool s) (m_bulletproofsCache s).
Definition cs_set_db (x : B) s : CS :=
  mkChainState (m_pChainStore s) x (m_pHeaderMMR s) (m_pTxHashSet s) (m_pTransactionPool s) (m_pOrphanPool s) (m_bulletproofsCache s).
Definition cs_set_headers (x : HeaderMMR F) s : CS :=
  mkChainState (m_pChainStore s) (m_pBlockDB s) x (m_pTxHashSet s) (m_pTransactionPool s) (m_pOrphanPool s) (m_bulletproofsCache s).
Definition cs_set_txs (x : option TS) s : CS :=
  mkChainState (m_pChainStore s) (m_pBlockDB s) (m_pHeaderMMR s) x (m_pTransactionPool s) (m_pOrphanPool s) (m_bulletproofsCache s).
Definition cs_set_pool (x : TransactionPool) s : CS :=
  mkChainState (m_pChainStore s) (m_pBlockDB s) (m_pHeaderMMR s) (m_pTxHashSet s) x (m_pOrphanPool s) (m_bulletproofsCache s).
Definition cs_set_orphans (x : OrphanPool C) s : CS :=
  mkChainState (m_pChainStore s) (m_pBlockDB s) (m_pHeaderMMR s) (m_pTxHashSet s) (m_pTransactionPool s) x (m_bulletproofsCache s).
Definition cs_set_cache (x : L) s : CS :=
  mkChainState (m_pChainStore s) (m_pBlockDB s) (m_pHeaderMMR s) (m_pTxHashSet s) (m_pTransactionPool s) (m_pOrphanPool s) x.

(** Computations on the parts. *)
Definition in_store {A} (m : ST (ChainStore F) A) : ST CS A := st_zoom m_pChainStore cs_set_store m.
Definition in_chain {A} t (m : ST (Chain F) A) : ST CS A := in_store (on_chain t m).
Definition in_headers {A} (m : ST (HeaderMMR F) A) : ST CS A := st_zoom m_pHeaderMMR cs_set_headers m.
Definition in_cache {A} (m : ST L A) : ST CS A := st_zoom m_bulletproofsCache cs_set_cache m.
Definition in_db (f : B -> B) : ST CS unit := st_modify (fun s => cs_set_db (f (m_pBlockDB s)) s).
Definition in_orphans (f : OrphanPool C -> OrphanPool C) : ST CS unit := st_modify (fun s => cs_set_orphans (f (m_pOrphanPool s)) s).
Definition in_pool {A} (m : ST (TransactionPool * L) A) : ST CS A :=
  st_zoom (fun s => (m_pTransactionPool s, m_bulletproofsCache s)) (fun x s => cs_set_pool x.1 (cs_set_cache x.2 s)) m.

(** The hash set with the database; a null pointer is dereferenced. *)
Definition in_txs {A} (m : ST (TS * B) A) : ST CS A := fun s =>
  match m_pTxHashSet s with
  | None => (Throw UB, s)
  | Some txs => let '(r, x) := m (txs, m_pBlockDB s) in (r, cs_set_txs (Some x.1) (cs_set_db x.2 s))
  end.

(** ** Reading *)
Definition cs_chain t s : Chain F := GetChain t (m_pChainStore s).
Definition GetHeight t s : Z := ch_height (cs_chain t s).

Definition GetTipBlockHeader t s : result (option BlockHeader) :=
  headHash ← GetTipHash (cs_chain t s);
  Ok (db_GetBlockHeader headHash (m_pBlockDB s)).

Definition GetTotalDifficulty t s : result Z :=
  pHead ← GetTipBlockHeader t s;
  Ok (match pHead with Some head => bh_totalDifficulty head | None => 0 end).

Definition GetBlockHeaderByHash (hash : Hash) s : option BlockHeader := db_GetBlockHeader hash (m_pBlockDB s).
Definition GetBlockHeaderByHeight (height : Z) t s : option BlockHeader :=
  index ← GetByHeight height (cs_chain t s); db_GetBlockHeader (bi_hash index) (m_pBlockDB s).
Definition GetBlockHeaderByCommitment (outputCommitment : Commitment) s : option BlockHeader :=
  location ← db_GetOutputPosition outputCommitment (m_pBlockDB s);
  GetBlockHeaderByHeight (ol_blockHeight location) CONFIRMED s.
Definition GetBlockByHash (hash : Hash) s : option FullBlock := db_GetBlock hash (m_pBlockDB s).
Definition GetBlockByHeight (height : Z) s : option FullBlock :=
  index ← GetByHeight height (cs_chain CONFIRMED s); db_GetBlock (bi_hash index) (m_pBlockDB s).
Definition ChainState_GetOrphanBlock (height : Z) (hash : Hash) s : option CheckedBlock := GetOrphanBlock height hash (m_pOrphanPool s).

(** [BlockWithOutputs]: the header of the block stands for its identifier. *)
Record BlockWithOutputs := mkBlockWithOutputs { bwo_header : BlockHeader; bwo_outputs : list OutputDTO }.

Definition GetBlockWithOutputs (height : Z) s : option BlockWithOutputs :=
  block ← GetBlockByHeight height s;
  let outputsFound := omap (fun output =>
    location ← db_GetOutputPosition (to_commitment output) (m_pBlockDB s);
    Some (mkOutputDTO false (OutputIdentifier_FromOutput output) location (mkRangeProof (to_rangeProof output)))) (tb_outputs (fb_body block)) in
  Some (mkBlockWithOutputs (fb_header block) outputsFound).

(** The loop to the candidate height; [k] heights are left. *)
Fixpoint blocks_needed (k : nat) (nextHeight maxNumBlocks : Z) (blocksNeeded : list (Z * Hash)) s : result (list (Z * Hash)) :=
  match k with
  | O => Ok blocksNeeded
  | S k =>
      index ← of_option UB (GetByHeight nextHeight (cs_chain CANDIDATE s));
      if IsOrphan nextHeight (bi_hash index) (m_pOrphanPool s) then blocks_needed k (nextHeight + 1)%u64 maxNumBlocks blocksNeeded s
      else
        let blocksNeeded := blocksNeeded ++ [(nextHeight, bi_hash index)] in
        if length blocksNeeded =? maxNumBlocks then Ok blocksNeeded else blocks_needed k (nextHeight + 1)%u64 maxNumBlocks blocksNeeded s
  end.

Definition GetBlocksNeeded (maxNumBlocks : Z) s : result (list (Z * Hash)) :=
  tip ← GetTip (cs_chain CANDIDATE s);
  common ← FindCommonIndex CANDIDATE CONFIRMED (m_pChainStore s);
  let nextHeight := (bi_height common + 1)%u64 in
  blocks_needed (Z.to_nat (bi_height tip + 1 - nextHeight)) nextHeight maxNumBlocks [] s.

(** ** [CoinView]: the features of an unspent output, for inputs without them *)
Definition GetOutputType (commitment : Commitment) s : result Z :=
  match db_GetOutputPosition commitment (m_pBlockDB s) with
  | None => Ok DEFAULT
  | Some location =>
      txs ← of_option UB (m_pTxHashSet s);
      output ← GetOutput location txs;
      Ok (oi_features (dto_identifier output))
  end.

(** ** Batches *)
Definition ChainState_OnInitWrite s : CS :=
  cs_set_headers (HeaderMMR_OnInitWrite (m_pHeaderMMR s)) (cs_set_store (ChainStore_OnInitWrite (m_pChainStore s)) s).

Definition TxHashSetManager_Commit : ST (option TS) unit := fun o =>
  match o with
  | None => (Ok tt, None)
  | Some txs => let '(r, txs) := TxHashSet_Commit txs in (r, Some txs)
  end.

Definition ChainState_Commit : ST CS unit :=
  _ ← in_store ChainStore_Commit;
  _ ← in_db db_Commit;
  _ ← in_headers HeaderMMR_Commit;
  st_zoom m_pTxHashSet cs_set_txs TxHashSetManager_Commit.

Definition ChainState_Rollback s : result CS :=
  store ← ChainStore_Rollback (m_pChainStore s);
  Ok (cs_set_store store (cs_set_db (db_Rollback (m_pBlockDB s)) (cs_set_headers (HeaderMMR_Rollback (m_pHeaderMMR s))
    (cs_set_txs (TxHashSet_Rollback <$> m_pTxHashSet s) s)))).

(** [BatchWrite]: what is not committed when the writer goes is rolled back. *)
Definition BatchWrite {A} (m : ST CS A) : ST CS A := fun s =>
  let '(r, s) := m (ChainState_OnInitWrite s) in
  match ChainState_Rollback s with
  | Ok s => (r, s)
  | Throw e => (Throw e, s)
  end.

(** [Write]: the writer commits when it goes, also after an exception, and drops
    those of the commit. *)
Definition Write {A} (m : ST CS A) : ST CS A := fun s =>
  let '(r, s) := m (ChainState_OnInitWrite s) in (r, (ChainState_Commit s).2).

(** ** [Create]: the genesis block

    [opened] is the hash set that [TxHashSetManager::Open] finds. *)
Definition genesis_sums (genesisBlock : FullBlock) : result BlockSums :=
  output ← of_option UB (head (tb_outputs (fb_body genesisBlock)));
  kernel ← of_option UB (head (tb_kernels (fb_body genesisBlock)));
  reward ← CommitTransparent REWARD;
  outputSum ← AddCommitments [to_commitment output] [reward];
  Ok (mkBlockSums outputSum (tk_excessCommitment kernel)).

Definition ChainState_Create (opened : option BlockHeader -> TS) (genesisBlock : FullBlock) : ST CS unit :=
  s ← st_get;
  tip ← st_lift (GetTip (cs_chain CANDIDATE s));
  _ ← (if bi_height tip =? 0 then
         _ ← in_db (db_AddBlockHeader (fb_header genesisBlock));
         _ ← in_headers (AddHeader Blake2b (fb_header genesisBlock));
         _ ← st_modify (cs_set_txs (Some (opened (Some (fb_header genesisBlock)))));
         sums ← st_lift (genesis_sums genesisBlock);
         _ ← in_db (db_AddBlockSums (FullBlock_GetHash genesisBlock) sums);
         _ ← in_db db_Commit;
         in_headers HeaderMMR_Commit
       else mret tt);
  s ← st_get;
  confirmed ← st_lift (GetTip (cs_chain CONFIRMED s));
  let pConfirmedHeader := db_GetBlockHeader (bi_hash confirmed) (m_pBlockDB s) in
  st_modify (cs_set_txs (Some (opened pConfirmedHeader))).
End state.
