(* ===== verification/HeaderProcessor.v ===== *)
(** * Processing headers ([src/BlockChain/Validators/BlockHeaderValidator.cpp],
      [Processors/BlockHeaderProcessor.cpp])

    A header that passes the validator is added to the block database, the header
    MMR and the candidate chain; a fork takes over when its total difficulty is
    higher. *)
From S2P Require Import Prelude BitUtil MMRIndex Serial BigInteger File Roaring MMRHash Consensus Transaction Crypto Header Block BlockDB TxHashSet Validation Chain OrphanPool HeaderMMR TxPool Difficulty Cuckoo ChainState.

(** [BAD_BLOCKS]. *)
Definition BAD_BLOCKS : list Hash :=
  [be_bytes 32 0x0002897182d8cf7631e86d56ad546b7cf0893bda811592aa9312ae633ce04813].

Definition DEFAULT_FUTURE_TIME_LIMIT_SEC : Z := 5 * BLOCK_TIME_SEC.

(** The clock counts nanoseconds; [count()] does not convert them. *)
Definition GetMaxBlockTime (currentTime : Z) : Z := currentTime + DEFAULT_FUTURE_TIME_LIMIT_SEC * 1000000000.

Definition SYNC_BATCH_SIZE : Z := 512.

Section headers.
Context {F : Type} `{HF : HashFile F} {R : Type} `{HR : Roaring R} {B : Type} `{HB : IBlockDB B}.
Context {C : Type} {HC : LRUCache Hash BlockHeader C} {L : Type}.
(** [pow_fuel] bounds the turns of the cuckarood verifier, [now] is the time. *)
Context (Blake2b : bytes -> Hash) (env : Environment) (pow_fuel : nat) (now : Z).
Local Abbreviation CS := (ChainState F R B C L).
Implicit Types (s : CS).

(** ** [BlockHeaderValidator] *)
Definition HeaderValidator_IsPoWValid (db : B) (header prev_header : BlockHeader) : result bool :=
  if bool_decide (env = AUTOMATED_TESTING) then Ok true
  else IsPoWValid Blake2b pow_fuel (fun hash => db_GetBlockHeader hash db) env header prev_header.

Definition Header_Validate (db : B) (mmr : HeaderMMR F) (header prev_header : BlockHeader) : result unit :=
  _ ← require BadDataException (bh_height header =? (bh_height prev_header + 1)%u64);
  _ ← require BadDataException (negb (bh_timestamp header >? GetMaxBlockTime now));
  _ ← require BadDataException (bh_version header =? GetHeaderVersion env (bh_height header));
  _ ← require BadDataException (negb (bh_timestamp header <=? bh_timestamp prev_header));
  validPoW ← HeaderValidator_IsPoWValid db header prev_header;
  _ ← require BadDataException validPoW;
  root ← HeaderMMR_Root Blake2b (bh_height header - 1)%u64 mmr;
  require BadDataException (negb (BigInteger_neq root (bh_previousRoot header))).

(** ** [BlockHeaderProcessor] *)
Definition is_bad_block (header : BlockHeader) : bool := existsb (fun hash => BigInteger_eq hash (BlockHeader_GetHash header)) BAD_BLOCKS.

Definition on_candidate (header : BlockHeader) s : result bool :=
  IsOnChain (bh_height header) (BlockHeader_GetHash header) (cs_chain CANDIDATE s).

Fixpoint validate_headers (headers : list BlockHeader) (previous : BlockHeader) : ST CS unit :=
  match headers with
  | [] => mret tt
  | header :: headers =>
      s ← st_get;
      _ ← st_lift (Header_Validate (m_pBlockDB s) (m_pHeaderMMR s) header previous);
      _ ← in_headers (AddHeader Blake2b header);
      _ ← in_db (db_AddBlockHeader header);
      _ ← in_chain CANDIDATE (Chain_AddBlock (BlockHeader_GetHash header) (bh_height header));
      validate_headers headers header
  end.

(** The first header is looked at without a check that there is one. *)
Definition ValidateHeaders (headers : list BlockHeader) : ST CS unit :=
  front ← st_lift (of_option UB (head headers));
  s ← st_get;
  previous ← st_lift (of_option BlockChainException (db_GetBlockHeader (bh_previousBlockHash front) (m_pBlockDB s)));
  validate_headers headers previous.

(** The loop from a header back to the candidate chain: the headers of the fork,
    oldest first, or [None] when one is missing. *)
Fixpoint fork_headers (fuel : nat) (pTempHeader : option BlockHeader) (reorgHeaders : list BlockHeader) s : result (option (list BlockHeader)) :=
  match fuel with
  | O => Throw OutOfFuel
  | S fuel =>
      match pTempHeader with
      | None => Ok None
      | Some header =>
          known ← on_candidate header s;
          if (known : bool) then Ok (Some (rev reorgHeaders))
          else
            let previousHash := bh_previousBlockHash header in
            fork_headers fuel
              (match GetOrphanHeader previousHash (m_pOrphanPool s) with
               | Some orphan => Some orphan
               | None => db_GetBlockHeader previousHash (m_pBlockDB s)
               end) (reorgHeaders ++ [header]) s
      end
  end.

(** Rewinds chain and MMR to the parent of the first header, validates the
    headers, and keeps the fork if its total difficulty is higher. *)
Definition reorg_headers (headers : list BlockHeader) (totalDifficulty : Z) : ST CS EBlockChainStatus :=
  front ← st_lift (of_option UB (head headers));
  back ← st_lift (of_option UB (last headers));
  _ ← in_chain CANDIDATE (Chain_Rewind (bh_height front - 1)%u64);
  _ ← in_headers (HeaderMMR_Rewind (bh_height front));
  _ ← ValidateHeaders headers;
  _ ← (if bh_totalDifficulty back <=? totalDifficulty then
         _ ← in_headers (st_modify HeaderMMR_Rollback);
         s ← st_get;
         store ← st_lift (c ← Chain_Rollback (cs_chain CANDIDATE s); Ok (SetChain CANDIDATE c (m_pChainStore s)));
         st_modify (cs_set_store store)
       else mret tt);
  _ ← ChainState_Commit;
  mret SUCCESS.

(** [fuel] bounds the headers of a fork. *)
Definition ProcessOrphan (fuel : nat) (header : BlockHeader) : ST CS EBlockChainStatus :=
  s ← st_get;
  totalDifficulty ← st_lift (GetTotalDifficulty CANDIDATE s);
  reorgHeaders ← st_lift (fork_headers fuel (Some header) [] s);
  match reorgHeaders with
  | None => _ ← in_orphans (AddOrphanHeader header); mret ORPHANED
  | Some headers => reorg_headers headers totalDifficulty
  end.

Definition ProcessSingleHeader_batch (fuel : nat) (header : BlockHeader) : ST CS EBlockChainStatus :=
  s ← st_get;
  match db_GetBlockHeader (BlockHeader_GetHash header) (m_pBlockDB s) with
  | Some _ => mret ALREADY_EXISTS
  | None =>
      tipHash ← st_lift (GetTipHash (cs_chain CANDIDATE s));
      if BigInteger_neq tipHash (bh_previousBlockHash header) then ProcessOrphan fuel header
      else
        previous ← st_lift (of_option UB (db_GetBlockHeader tipHash (m_pBlockDB s)));
        _ ← st_lift (Header_Validate (m_pBlockDB s) (m_pHeaderMMR s) header previous);
        _ ← in_db (db_AddBlockHeader header);
        _ ← in_headers (AddHeader Blake2b header);
        _ ← in_chain CANDIDATE (Chain_AddBlock (BlockHeader_GetHash header) (bh_height header));
        _ ← ChainState_Commit;
        mret SUCCESS
  end.

Definition ProcessSingleHeader (fuel : nat) (header : BlockHeader) : ST CS EBlockChainStatus :=
  if is_bad_block header then mret INVALID else BatchWrite (ProcessSingleHeader_batch fuel header).

(** ** Headers of a sync *)
Definition PrepareSyncChain (headers : list BlockHeader) s : result unit :=
  front ← of_option UB (head headers);
  known ← IsOnChain (bh_height front - 1)%u64 (bh_previousBlockHash front) (cs_chain CANDIDATE s);
  require BlockChainException known.

(** The headers from the first that is not on the chain. *)
Fixpoint new_headers (headers : list BlockHeader) s : result (list BlockHeader) :=
  match headers with
  | [] => Ok []
  | header :: headers' =>
      known ← on_candidate header s;
      if (known : bool) then new_headers headers' s else Ok headers
  end.

Definition ProcessChunkedSyncHeaders (headers : list BlockHeader) : ST CS EBlockChainStatus :=
  BatchWrite (
    s ← st_get;
    totalDifficulty ← st_lift (GetTotalDifficulty CANDIDATE s);
    _ ← st_lift (PrepareSyncChain headers s);
    newHeaders ← st_lift (new_headers headers s);
    match newHeaders with
    | [] => mret ALREADY_EXISTS
    | _ => reorg_headers newHeaders totalDifficulty
    end).

Fixpoint headers_sorted (headers : list BlockHeader) : bool :=
  match headers with
  | a :: ((b :: _) as headers') => (bh_height b =? (bh_height a + 1)%u64) && headers_sorted headers'
  | _ => true
  end.

(** The loop that cuts the headers into chunks; [index] have been taken of [size]. *)
Fixpoint sync_headers_loop (headers chunkedHeaders : list BlockHeader) (index size : Z) : ST CS EBlockChainStatus :=
  match headers with
  | [] => mret SUCCESS
  | header :: headers =>
      let chunkedHeaders := chunkedHeaders ++ [header] in
      let index := index + 1 in
      if (index mod SYNC_BATCH_SIZE =? 0) || (index =? size) then
        status ← ProcessChunkedSyncHeaders chunkedHeaders;
        if bool_decide (status = SUCCESS) || bool_decide (status = ALREADY_EXISTS) then sync_headers_loop headers [] index size
        else mret status
      else sync_headers_loop headers chunkedHeaders index size
  end.

Definition ProcessSyncHeaders (headers : list BlockHeader) : ST CS EBlockChainStatus :=
  match headers with
  | [] => mret SUCCESS
  | front :: _ =>
      if existsb is_bad_block headers then st_throw BadDataException
      else if bh_height front =? 0 then st_throw BadDataException
      else if negb (headers_sorted headers) then st_throw BadDataException
      else sync_headers_loop headers [] 0 (length headers)
  end.
End headers.
