(* ===== verification/BlockProcessor.v ===== *)
(** * Processing blocks ([src/BlockChain/Processors/BlockProcessor.cpp])

    A block extends the confirmed chain, starts a fork that replaces a part of it
    when its difficulty is higher, or waits as an orphan for its parent. *)
From S2P Require Import Prelude BitUtil MMRIndex Serial BigInteger File Roaring MMRHash Consensus Transaction Crypto Header Block BlockDB TxHashSet Validation Chain OrphanPool HeaderMMR TxPool Difficulty Cuckoo ChainState HeaderProcessor.

(** [EBlockStatus] with the blocks of the fork. *)
Inductive BlockProcessingInfo :=
| NEXT_BLOCK
| REORG (reorgBlocks : list CheckedBlock)
| ORPHAN.

(** The overage of a block: it takes its reward. *)
Definition BLOCK_OVERAGE : Z := 0 - REWARD.

Section blocks.
Context {F : Type} `{HF : HashFile F} {R : Type} `{HR : Roaring R} {B : Type} `{HB : IBlockDB B}.
Context {P : Type} {SP : Secp256k1 P} {C : Type} {HC : LRUCache Hash BlockHeader C} {L : Type} {HL : LRUCache Commitment Commitment L}.
Context (Blake2b : bytes -> Hash) (env : Environment) (pow_fuel : nat) (now : Z).
Local Abbreviation CS := (ChainState F R B C L).
Implicit Types (s : CS) (block : CheckedBlock).

Definition cbk_hash block : Hash := FullBlock_GetHash (cbk_block block).
Definition cbk_height block : Z := FullBlock_GetHeight (cbk_block block).
Definition cbk_previous block : Hash := FullBlock_GetPreviousHash (cbk_block block).
Definition cbk_difficulty block : Z := bh_totalDifficulty (fb_header (cbk_block block)).

(** ** [DetermineBlockStatus] *)

(** The loop from the block back to the confirmed chain, newest block first. *)
Fixpoint fork_blocks (fuel : nat) (pForkBlock : CheckedBlock) (reorgBlocks : list CheckedBlock) s : result BlockProcessingInfo :=
  match fuel with
  | O => Throw OutOfFuel
  | S fuel =>
      let height := (cbk_height pForkBlock - 1)%u64 in
      let previousHash := cbk_previous pForkBlock in
      known ← IsOnChain height previousHash (cs_chain CONFIRMED s);
      if (known : bool) then Ok (REORG (rev reorgBlocks))
      else
        match GetOrphanBlock height previousHash (m_pOrphanPool s) with
        | Some orphan => fork_blocks fuel orphan (reorgBlocks ++ [orphan]) s
        | None =>
            match db_GetBlock previousHash (m_pBlockDB s) with
            | Some stored => fork_blocks fuel (mkCheckedBlock stored false) (reorgBlocks ++ [mkCheckedBlock stored false]) s
            | None => Ok ORPHAN
            end
        end
  end.

Definition DetermineBlockStatus (fuel : nat) block s : result BlockProcessingInfo :=
  match db_GetBlockHeader (cbk_hash block) (m_pBlockDB s) with
  | None => Ok ORPHAN
  | Some _ =>
      tipHash ← GetTipHash (cs_chain CONFIRMED s);
      if BigInteger_eq tipHash (cbk_previous block) then Ok NEXT_BLOCK
      else fork_blocks fuel block [block] s
  end.

(** ** [ValidateAndAddBlock]

    A block that validates is marked; the mark is on the shared object, which the
    callers do not use afterwards. *)
Definition ApplyBlock_checked block : ST CS unit :=
  s ← st_get;
  match m_pTxHashSet s with
  | None => st_throw BadDataException
  | Some _ =>
      applied ← in_txs (ApplyBlock Blake2b env (cbk_block block));
      st_lift (require BadDataException applied)
  end.

(** A read of the hash set with the database. *)
Definition txs_read {A} (f : B -> TxHashSet F R -> result A) : ST CS A :=
  s ← st_get;
  st_lift (txs ← of_option UB (m_pTxHashSet s); f (m_pBlockDB s) txs).

Definition ValidateAndAddBlock block : ST CS unit :=
  let b := cbk_block block in
  let previousHash := FullBlock_GetPreviousHash b in
  s ← st_get;
  _ ← st_lift (of_option BlockChainException (db_GetBlockHeader previousHash (m_pBlockDB s)));
  _ ← ApplyBlock_checked block;
  nrd ← txs_read (fun db txs => ValidateNRDKernelRules db b txs);
  _ ← st_lift (require BadDataException nrd);
  _ ← in_cache (VerifySelfConsistent Blake2b env block);
  roots ← txs_read (fun _ txs => ValidateRoots Blake2b (fb_header b) txs);
  _ ← st_lift (require BadDataException roots);
  s ← st_get;
  previousBlockSums ← st_lift (of_option BlockChainException (db_GetBlockSums previousHash (m_pBlockDB s)));
  blockSums ← st_lift (ValidateKernelSums (fb_body b) BLOCK_OVERAGE (bh_totalKernelOffset (fb_header b)) (Some previousBlockSums));
  _ ← in_db (db_AddBlockSums (FullBlock_GetHash b) blockSums);
  _ ← in_db (db_AddBlock b);
  _ ← in_orphans (RemoveOrphan (FullBlock_GetHeight b) (FullBlock_GetHash b));
  s ← st_get;
  txs ← st_lift (of_option UB (m_pTxHashSet s));
  in_pool (ReconcileBlock Blake2b env (m_pBlockDB s) txs b).

Fixpoint validate_blocks (blocks : list CheckedBlock) : ST CS unit :=
  match blocks with
  | [] => mret tt
  | block :: blocks => _ ← ValidateAndAddBlock block; validate_blocks blocks
  end.

(** ** [HandleReorg] *)
Fixpoint confirm_blocks (blocks : list CheckedBlock) : ST CS unit :=
  match blocks with
  | [] => mret tt
  | block :: blocks => _ ← in_chain CONFIRMED (Chain_AddBlock (cbk_hash block) (cbk_height block)); confirm_blocks blocks
  end.

Definition store_blocks (blocks : list CheckedBlock) (db : B) : B := foldl (fun db block => db_AddBlock (cbk_block block) db) db blocks.

Definition HandleReorg (reorgBlocks : list CheckedBlock) : ST CS unit :=
  s ← st_get;
  totalDifficulty ← st_lift (GetTotalDifficulty CONFIRMED s);
  match m_pTxHashSet s with
  | None => st_throw BlockChainException
  | Some _ =>
      front ← st_lift (of_option UB (head reorgBlocks));
      back ← st_lift (of_option UB (last reorgBlocks));
      commonHeader ← st_lift (of_option BlockChainException (db_GetBlockHeader (cbk_previous front) (m_pBlockDB s)));
      _ ← in_txs (TxHashSet_Rewind commonHeader);
      _ ← validate_blocks reorgBlocks;
      if cbk_difficulty back >? totalDifficulty then
        _ ← in_chain CONFIRMED (Chain_Rewind (cbk_height front - 1)%u64);
        _ ← confirm_blocks reorgBlocks;
        ChainState_Commit
      else
        s ← st_get;
        s ← st_lift (ChainState_Rollback s);
        _ ← st_modify (fun _ => s);
        _ ← in_db (store_blocks reorgBlocks);
        in_db db_Commit
  end.

(** ** [ProcessBlock]; [fuel] bounds the blocks of a fork *)
Definition ProcessBlockInternal_batch (fuel : nat) block : ST CS EBlockChainStatus :=
  s ← st_get;
  confirmed ← st_lift (IsOnChain (cbk_height block) (cbk_hash block) (cs_chain CONFIRMED s));
  if (confirmed : bool) then mret ALREADY_EXISTS
  else
    match db_GetBlock (cbk_hash block) (m_pBlockDB s) with
    | Some _ => mret ALREADY_EXISTS
    | None =>
        info ← st_lift (DetermineBlockStatus fuel block s);
        match info with
        | ORPHAN =>
            if IsOrphan (cbk_height block) (cbk_hash block) (m_pOrphanPool s) then mret ALREADY_EXISTS
            else _ ← in_orphans (AddOrphanBlock block); mret ORPHANED
        | REORG reorgBlocks => _ ← HandleReorg reorgBlocks; mret SUCCESS
        | NEXT_BLOCK =>
            _ ← ValidateAndAddBlock block;
            _ ← in_chain CONFIRMED (Chain_AddBlock (cbk_hash block) (cbk_height block));
            _ ← ChainState_Commit;
            mret SUCCESS
        end
    end.

Definition ProcessBlockInternal (fuel : nat) block : ST CS EBlockChainStatus := BatchWrite (ProcessBlockInternal_batch fuel block).

(** What [ProcessSingleHeader] returns is not looked at. *)
Definition ProcessBlock (fuel : nat) block : ST CS EBlockChainStatus :=
  s ← st_get;
  let horizonHeight := GetHorizonHeight (GetHeight CANDIDATE s) in
  if cbk_height block <=? horizonHeight then st_throw BadDataException
  else
    _ ← ProcessSingleHeader Blake2b env pow_fuel now fuel (fb_header (cbk_block block));
    block ← in_cache (VerifySelfConsistent Blake2b env block);
    ProcessBlockInternal fuel block.
End blocks.
