(* ===== verification/BlockChain.v ===== *)
(** * The block chain ([src/BlockChain/BlockChainImpl.cpp])

    What the node and its peers ask of the chain: the processors behind an
    interface that turns exceptions into statuses, and the queries.  The cached
    tip header, a copy of what [GetTipBlockHeader] returns, is left out. *)
From S2P Require Import Prelude BitUtil MMRIndex Serial BigInteger File Roaring MMRHash Consensus Transaction Crypto Header Block BlockDB TxHashSet Validation Chain OrphanPool HeaderMMR TxPool Difficulty Cuckoo ChainState HeaderProcessor BlockProcessor.

(** [catch (std::exception&)] around a call whose exceptions of one kind are let
    through. *)
Definition st_try_except {S A} (passes : exn -> bool) (m : ST S A) (a : A) : ST S A := fun s =>
  match m s with
  | (Throw e, s') => if is_std e && negb (passes e) then (Ok a, s') else (Throw e, s')
  | x => x
  end.
Definition is_bad_data (e : exn) : bool := bool_decide (e = BadDataException).

Section chain.
Context {F : Type} `{HF : HashFile F} {R : Type} `{HR : Roaring R} {B : Type} `{HB : IBlockDB B}.
Context {P : Type} {SP : Secp256k1 P} {C : Type} {HC : LRUCache Hash BlockHeader C} {L : Type} {HL : LRUCache Commitment Commitment L}.
Context (Blake2b : bytes -> Hash) (SipHash24 : Z -> Z -> bytes -> Z) (env : Environment) (pow_fuel : nat) (now : Z).
Local Abbreviation CS := (ChainState F R B C L).
Implicit Types (s : CS).

(** ** Adding *)
Definition BlockChain_AddBlock (fuel : nat) (block : FullBlock) : ST CS EBlockChainStatus :=
  ProcessBlock Blake2b env pow_fuel now fuel (mkCheckedBlock block false).

(** The hydrator's view of the pool. *)
Definition pool_by_short_id (pool : TransactionPool) (hash : Hash) (nonce : Z) (shortIds : list ShortId) : result (list Transaction) :=
  transactions ← GetTransactionsByShortId Blake2b SipHash24 hash nonce shortIds pool; Ok (map tp_tx transactions).

Definition AddCompactBlock (fuel : nat) (compactBlock : CompactBlock) : ST CS EBlockChainStatus :=
  s ← st_get;
  let hash := CompactBlock_GetHash compactBlock in
  let height := bh_height (cb_header compactBlock) in
  if match GetByHeight height (cs_chain CONFIRMED s) with Some index => BigInteger_eq (bi_hash index) hash | None => false end
  then mret ALREADY_EXISTS
  else
    st_try_except (fun _ => false)
      (hydrated ← st_lift (Hydrate Blake2b (pool_by_short_id (m_pTransactionPool s)) compactBlock);
       match hydrated with
       | None => mret TRANSACTIONS_MISSING
       | Some block =>
           added ← BlockChain_AddBlock fuel block;
           mret (if bool_decide (added = INVALID) then TRANSACTIONS_MISSING else added)
       end) TRANSACTIONS_MISSING.

Definition BlockChain_AddTransaction (random stemProbability : Z) (pTransaction : TransactionPtr) (poolType : EPoolType) : ST CS EBlockChainStatus :=
  st_try_except (fun _ => false)
    (s ← st_get;
     lastConfirmed ← st_lift (GetTipBlockHeader CONFIRMED s);
     match lastConfirmed with
     | None => mret INVALID
     | Some header =>
         status ← in_pool (AddTransaction Blake2b env now random stemProbability (m_pBlockDB s) (m_pTxHashSet s) pTransaction poolType header);
         mret match status with
           | ADDED => SUCCESS
           | TX_INVALID => INVALID
           | _ => UNKNOWN_ERROR
           end
     end) INVALID.

Definition AddBlockHeader (fuel : nat) (header : BlockHeader) : ST CS EBlockChainStatus :=
  st_try_except is_bad_data (ProcessSingleHeader Blake2b env pow_fuel now fuel header) INVALID.

Definition AddBlockHeaders (headers : list BlockHeader) : ST CS EBlockChainStatus :=
  st_try_except is_bad_data (ProcessSyncHeaders Blake2b env pow_fuel now headers) UNKNOWN_ERROR.

(** The orphan for the next candidate header; one that fails is dropped. *)
Definition ProcessNextOrphanBlock (fuel : nat) : ST CS bool :=
  s ← st_get;
  let height := (GetHeight CONFIRMED s + 1)%u64 in
  match GetBlockHeaderByHeight height CANDIDATE s with
  | None => mret false
  | Some pNextHeader =>
      match ChainState_GetOrphanBlock height (BlockHeader_GetHash pNextHeader) s with
      | None => mret false
      | Some pOrphanBlock =>
          st_try
            (status ← ProcessBlock Blake2b env pow_fuel now fuel pOrphanBlock;
             mret (bool_decide (status = SUCCESS)))
            (_ ← Write (in_orphans (RemoveOrphan (bh_height pNextHeader) (BlockHeader_GetHash pNextHeader))); mret false)
      end
  end.

(** ** Queries *)
Definition GetBlockHeadersByHash (hashes : list Hash) s : list BlockHeader := omap (fun hash => GetBlockHeaderByHash hash s) hashes.

(** The random nonce is an argument. *)
Definition GetCompactBlockByHash (nonce : Z) (hash : Hash) s : result (option CompactBlock) :=
  match GetBlockByHash hash s with
  | None => Ok None
  | Some block => compact ← CreateCompactBlock Blake2b SipHash24 nonce block; Ok (Some compact)
  end.

Definition GetBlockByCommitment (outputCommitment : Commitment) s : option FullBlock :=
  header ← GetBlockHeaderByCommitment outputCommitment s; GetBlockByHash (BlockHeader_GetHash header) s.

(** The number reserved wraps when the first height is above the last; no vector
    has that many elements. *)
Definition GetOutputsByHeight (startHeight maxHeight : Z) s : result (list BlockWithOutputs) :=
  let highestHeight := Z.min (GetHeight CONFIRMED s) maxHeight in
  _ ← require StdException ((highestHeight - startHeight + 1)%u64 <? 2 ^ 63);
  Ok (omap (fun height => GetBlockWithOutputs height s) (seqZ startHeight (highestHeight - startHeight + 1))).

Definition HasBlock (height : Z) (hash : Hash) s : bool :=
  match GetByHeight height (cs_chain CONFIRMED s) with Some index => BigInteger_eq (bi_hash index) hash | None => false end.

Definition HasOrphan (blockHash : Hash) s : bool :=
  match GetBlockHeaderByHash blockHash s with
  | None => false
  | Some header => bool_decide (is_Some (ChainState_GetOrphanBlock (bh_height header) blockHash s))
  end.
End chain.
