(* ===== verification/ChainStateSpec.v ===== *)
(** * Batches on the chain state

    [node_rel w c s]: chains, database, header MMR and hash set of [s] have the
    working contents [w] and the committed contents [c].  A batch ends with what
    it committed, whatever else it did, also after an exception. *)
From S2P Require Import Prelude BitUtil MMRIndex MMRUtil Serial BigInteger File Roaring PruneList MMRHash PruneableMMR Consensus Transaction Crypto Header Block BlockDB TxHashSet UtxoSpec TxHashSetSpec Validation Chain OrphanPool HeaderMMR TxPool ChainState.

(** The contents: the hashes of the confirmed chain, the headers of the candidate
    chain, the tables, and the state of the hash set if there is one. *)
Record NState := mkNState {
  n_confirmed : list Hash;
  n_candidate : list BlockHeader;
  n_tables : DBTables;
  n_txs : option TState;
}.

Definition n_set_confirmed l (n : NState) : NState := mkNState l (n_candidate n) (n_tables n) (n_txs n).
Definition n_set_candidate l (n : NState) : NState := mkNState (n_confirmed n) l (n_tables n) (n_txs n).
Definition n_set_tables t (n : NState) : NState := mkNState (n_confirmed n) (n_candidate n) t (n_txs n).
Definition n_set_txs t (n : NState) : NState := mkNState (n_confirmed n) (n_candidate n) (n_tables n) t.

(** The leaf of a header that can be serialized. *)
Definition leaf_of (h : BlockHeader) : bytes := match header_leaf h with Ok l => l | Throw _ => [] end.

Section rel.
Context {F : Type} {HF : HashFile F} {HFL : HashFileLaws F} {R : Type} {HR : Roaring R} {HRL : RoaringLaws R}.
Context {B : Type} {HB : IBlockDB B} {db_wf : DBEntry -> Prop} {db_repr : DBTables -> DBTables -> B -> Prop} {HBL : IBlockDBLaws B db_wf db_repr}.
Context {C : Type} {HC : LRUCache Hash BlockHeader C} {L : Type}.
Context (Blake2b : bytes -> Hash) (floor : Z) (base : gset Z).
Local Abbreviation CS := (ChainState F R B C L).
Implicit Types (s : CS) (w c : NState).
Hypothesis Blake2b_length : forall x, length (Blake2b x) = 32%nat.
Hypothesis Blake2b_nonzero : forall x, Blake2b x <> ZERO_HASH.

#[local] Set Default Proof Using "All".

Definition txs_rel (w c : option TState) (t : option (TxHashSet F R)) : Prop :=
  match t, w, c with
  | Some t, Some w, Some c => ths_rel Blake2b floor base w c t
  | None, None, None => True
  | _, _, _ => False
  end.

Record node_rel w c s : Prop := {
  nr_store : store_rel (n_confirmed w) (n_confirmed c) (map BlockHeader_GetHash (n_candidate w)) (map BlockHeader_GetHash (n_candidate c)) (m_pChainStore s);
  nr_db : db_repr (n_tables w) (n_tables c) (m_pBlockDB s);
  nr_mmr : hmmr_rel Blake2b (map leaf_of (n_candidate w)) (map leaf_of (n_candidate c)) (m_pHeaderMMR s);
  nr_txs : txs_rel (n_txs w) (n_txs c) (m_pTxHashSet s);
}.

(** What is shared and not part of the batch. *)
Definition shared s : TransactionPool * OrphanPool C * L := (m_pTransactionPool s, m_pOrphanPool s, m_bulletproofsCache s).

Lemma node_OnInit c s : node_rel c c s -> node_rel c c (ChainState_OnInitWrite s) /\ shared (ChainState_OnInitWrite s) = shared s.
Proof.
  intros [Hs Hd Hm Ht]. split; [|done]. constructor; cbn; [by apply ChainStore_OnInitWrite_ok|done|by apply HeaderMMR_OnInitWrite_ok|done].
Qed.

Lemma node_Commit w c s : node_rel w c s ->
  exists s', ChainState_Commit s = (Ok tt, s') /\ node_rel w w s' /\ shared s' = shared s.
Proof.
  intros [Hs Hd Hm Ht]. unfold ChainState_Commit.
  destruct (ChainStore_Commit_ok _ _ _ _ _ Hs) as (store & Es & Hs'). unfold in_store. erewrite st_bind_ok by (apply st_zoom_run; exact Es).
  unfold in_db. erewrite st_bind_ok by reflexivity. cbn [m_pBlockDB cs_set_store].
  destruct (HeaderMMR_Commit_ok Blake2b Blake2b_length Blake2b_nonzero _ _ _ Hm) as (mmr & Em & Hm' & _).
  unfold in_headers. erewrite st_bind_ok by (apply st_zoom_run; exact Em).
  pose proof (db_commit _ _ _ Hd) as Hd'. unfold txs_rel in Ht.
  destruct (m_pTxHashSet s) as [t|] eqn:Et, (n_txs w) as [a|] eqn:Ea, (n_txs c) as [b|] eqn:Eb; try done.
  - destruct (Commit_ok Blake2b Blake2b_length Blake2b_nonzero floor base a b t Ht) as (t' & E & Ht').
    eexists. split; [apply st_zoom_run; cbn; rewrite Et; unfold TxHashSetManager_Commit; rewrite E; reflexivity|]. split; [|done].
    constructor; cbn; try done. by rewrite Ea.
  - eexists. split; [apply st_zoom_run; cbn; rewrite Et; reflexivity|]. split; [|done]. constructor; cbn; try done. by rewrite Ea.
Qed.

Lemma node_Rollback w c s : node_rel w c s ->
  exists s', ChainState_Rollback s = Ok s' /\ node_rel c c s' /\ shared s' = shared s.
Proof.
  intros [Hs Hd Hm Ht]. unfold ChainState_Rollback.
  destruct (ChainStore_Rollback_ok _ _ _ _ _ Hs) as (store & -> & Hs'). cbn [mbind result_bind].
  eexists. split; [reflexivity|]. split; [|done]. constructor; cbn; [done| | |].
  - by apply db_rollback in Hd.
  - by destruct (HeaderMMR_Rollback_ok Blake2b Blake2b_length Blake2b_nonzero _ _ _ Hm).
  - unfold txs_rel in *. destruct (m_pTxHashSet s) as [t|] eqn:Et, (n_txs w) as [a|], (n_txs c) as [b|]; try done.
    by apply (Rollback_ok Blake2b Blake2b_length Blake2b_nonzero floor base a).
Qed.

(** A batch leaves what it committed last, with the result of its computation. *)
Lemma BatchWrite_ok {A} (m : ST CS A) c s r s1 w1 c1 :
  node_rel c c s -> m (ChainState_OnInitWrite s) = (r, s1) -> node_rel w1 c1 s1 ->
  exists s', BatchWrite m s = (r, s') /\ node_rel c1 c1 s' /\ shared s' = shared s1.
Proof.
  intros Hs E Hs1. unfold BatchWrite. rewrite E. destruct (node_Rollback _ _ _ Hs1) as (s' & -> & Hs' & Hsh). by exists s'.
Qed.

(** ** Steps of a batch *)
Lemma node_db w c s (f : B -> B) t :
  node_rel w c s -> db_repr t (n_tables c) (f (m_pBlockDB s)) ->
  exists s', in_db f s = (Ok tt, s') /\ node_rel (n_set_tables t w) c s' /\ shared s' = shared s.
Proof.
  intros [Hs Hd Hm Ht] Hf. eexists. split; [reflexivity|]. split; [|done]. by constructor.
Qed.

(** The lookups of the database are those of the tables. *)
Lemma node_read w c s k : node_rel w c s ->
  db_GetBlockHeader k (m_pBlockDB s) = t_headers (n_tables w) !! k /\ db_GetBlock k (m_pBlockDB s) = t_blocks (n_tables w) !! k /\
  db_GetBlockSums k (m_pBlockDB s) = t_sums (n_tables w) !! k.
Proof. intros [_ Hd _ _]. by destruct (db_read _ _ _ Hd k) as (? & ? & ? & _). Qed.

Lemma node_header w c s k : node_rel w c s -> db_GetBlockHeader k (m_pBlockDB s) = t_headers (n_tables w) !! k.
Proof. intros Hn. by destruct (node_read w c s k Hn). Qed.

Lemma node_candidate w c s : node_rel w c s ->
  chain_rel (map BlockHeader_GetHash (n_candidate w)) (map BlockHeader_GetHash (n_candidate c)) (cs_chain CANDIDATE s).
Proof. by intros [[_ ?] _ _ _]. Qed.
Lemma node_confirmed w c s : node_rel w c s -> chain_rel (n_confirmed w) (n_confirmed c) (cs_chain CONFIRMED s).
Proof. by intros [[? _] _ _ _]. Qed.

Lemma GetTotalDifficulty_ok w c s tip :
  node_rel w c s -> last (n_candidate w) = Some tip -> t_headers (n_tables w) !! BlockHeader_GetHash tip = Some tip ->
  GetTotalDifficulty CANDIDATE s = Ok (bh_totalDifficulty tip).
Proof.
  intros Hn Hl Ht. unfold GetTotalDifficulty, GetTipBlockHeader. destruct (GetTipHash_ok _ _ _ (node_candidate _ _ _ Hn)) as (h & Hh & E).
  change (last (BlockHeader_GetHash <$> n_candidate w) = Some h) in Hh; rewrite fmap_last, Hl in Hh. injection Hh as <-.
  rewrite E. cbn. by rewrite (node_header _ _ _ _ Hn), Ht.
Qed.

(** Adding a header to database, MMR and chain. *)
Definition header_storable (h : BlockHeader) : Prop :=
  length (BlockHeader_GetHash h) = 32%nat /\ header_leaf h = Ok (leaf_of h) /\ db_wf (EHeader h) /\ 0 <= bh_height h < 2 ^ 32.

Definition n_add_header (h : BlockHeader) (n : NState) : NState :=
  mkNState (n_confirmed n) (n_candidate n ++ [h]) (set_headers (<[BlockHeader_GetHash h := h]> (t_headers (n_tables n))) (n_tables n)) (n_txs n).

Lemma node_add_mmr w c s h : node_rel w c s -> header_storable h -> length (n_candidate w) < 2 ^ 33 ->
  exists m, AddHeader Blake2b h (m_pHeaderMMR s) = (Ok tt, m) /\
    hmmr_rel Blake2b (map leaf_of (n_candidate w ++ [h])) (map leaf_of (n_candidate c)) m.
Proof.
  intros Hn (Hl & Hleaf & _) Hlen. rewrite map_app. apply (AddHeader_ok Blake2b Blake2b_length Blake2b_nonzero); [by apply nr_mmr|done|].
  rewrite length_map. lia.
Qed.

Lemma node_add_chain w c s h : node_rel w c s -> header_storable h -> length (n_candidate w) < 2 ^ 33 -> length (n_candidate c) < 2 ^ 33 ->
  bh_height h = length (n_candidate w) ->
  exists ch i, Chain_AddBlock (BlockHeader_GetHash h) (bh_height h) (cs_chain CANDIDATE s) = (Ok i, ch) /\
    chain_rel (map BlockHeader_GetHash (n_candidate w ++ [h])) (map BlockHeader_GetHash (n_candidate c)) ch.
Proof.
  intros Hn (Hl & _ & _ & Hh) Hlen Hclen Hht. rewrite map_app.
  pose proof (Chain_AddBlock_ok _ _ _ (BlockHeader_GetHash h) (bh_height h) (node_candidate _ _ _ Hn) Hl) as Ha.
  unfold hf_room in Ha. rewrite !length_map in Ha. specialize (Ha ltac:(lia) ltac:(lia)).
  rewrite Hht, Z.eqb_refl in Ha. rewrite Hht. destruct Ha as (ch & E & Hc). by exists ch, (mkBlockIndex (BlockHeader_GetHash h) (length (n_candidate w))).
Qed.

(** The state after the three additions. *)
Lemma node_add_header_rel w c s h m ch :
  node_rel w c s -> header_storable h ->
  hmmr_rel Blake2b (map leaf_of (n_candidate w ++ [h])) (map leaf_of (n_candidate c)) m ->
  chain_rel (map BlockHeader_GetHash (n_candidate w ++ [h])) (map BlockHeader_GetHash (n_candidate c)) ch ->
  node_rel (n_add_header h w) c
    (cs_set_store (SetChain CANDIDATE ch (m_pChainStore s)) (cs_set_headers m (cs_set_db (db_AddBlockHeader h (m_pBlockDB s)) s))).
Proof.
  intros [[Hs1 Hs2] Hd Hm Ht] (_ & _ & Hwf & _) Hm' Hch. constructor; cbn; [by split|by apply db_add_header|done|done].
Qed.

(** Rewinding chain and MMR to the first [n] headers. *)
Lemma node_rewind w c s (n : nat) :
  node_rel w c s -> (0 < n <= length (n_candidate w))%nat ->
  exists ch m, Chain_Rewind (n - 1)%Z (cs_chain CANDIDATE s) = (Ok tt, ch) /\ HeaderMMR_Rewind n (m_pHeaderMMR s) = (Ok tt, m) /\
    node_rel (n_set_candidate (take n (n_candidate w)) w) c (cs_set_headers m (cs_set_store (SetChain CANDIDATE ch (m_pChainStore s)) s)).
Proof.
  intros Hn Hlen. pose proof (Chain_Rewind_ok _ _ _ (n - 1)%Z (node_candidate _ _ _ Hn) ltac:(lia)) as Hr.
  rewrite length_map, (proj2 (Z.ltb_lt _ _)) in Hr by lia. destruct Hr as (ch & Ech & Hch).
  destruct (HeaderMMR_Rewind_ok Blake2b Blake2b_length Blake2b_nonzero _ _ _ n (nr_mmr _ _ _ Hn)) as (m & Em & Hm); [rewrite length_map; lia|].
  exists ch, m. split; [done|]. split; [done|]. replace (Z.to_nat (n - 1 + 1)) with n in Hch by lia.
  destruct Hn as [[Hs1 Hs2] Hd Hm0 Ht]. constructor; cbn; [split; [done|]; by rewrite <- firstn_map in Hch || by rewrite fmap_take|done|by rewrite fmap_take|done].
Qed.

(** Rolling back chain and MMR. *)
Lemma node_rollback_headers w c s :
  node_rel w c s ->
  exists ch, Chain_Rollback (cs_chain CANDIDATE s) = Ok ch /\
    node_rel (n_set_candidate (n_candidate c) w) c
      (cs_set_store (SetChain CANDIDATE ch (m_pChainStore s)) (cs_set_headers (HeaderMMR_Rollback (m_pHeaderMMR s)) s)).
Proof.
  intros Hn. destruct (Chain_Rollback_ok _ _ _ (node_candidate _ _ _ Hn)) as (ch & E & Hch & _). exists ch. split; [done|].
  destruct (HeaderMMR_Rollback_ok Blake2b Blake2b_length Blake2b_nonzero _ _ _ (nr_mmr _ _ _ Hn)) as [Hm _].
  destruct Hn as [[Hs1 Hs2] Hd Hm0 Ht]. by constructor; cbn.
Qed.
End rel.
