(* ===== verification/HeaderSpec.v ===== *)
(** * What processing headers keeps

    The candidate chain is a chain of validated headers, each on top of the one
    before it, all in the database; the header MMR has their leaves.  A header or
    a batch of headers keeps this, exceptions included, and the candidate's
    difficulty never falls; the search for the fork point of an orphan header can
    go on for ever. *)
From S2P Require Import Prelude BitUtil MMRIndex MMRUtil Serial BigInteger File Roaring PruneList MMRHash SegmentId SegmentProof Segment PruneableMMR Consensus Transaction Crypto Header Block BlockDB TxHashSet UtxoSpec TxHashSetSpec Validation ValidationSpec Chain OrphanPool HeaderMMR TxPool Difficulty Cuckoo ChainState HeaderProcessor ChainStateSpec.

Abbreviation HeaderTable := (gmap (list Z) BlockHeader).

(** The hashes of previous headers link a list to the header below it. *)
Fixpoint linked (p : BlockHeader) (hs : list BlockHeader) : Prop :=
  match hs with
  | [] => True
  | h :: hs => bh_previousBlockHash h = BlockHeader_GetHash p /\ linked h hs
  end.

Lemma linked_snoc p hs h : linked p (hs ++ [h]) <-> linked p hs /\ bh_previousBlockHash h = BlockHeader_GetHash (default p (last hs)).
Proof.
  revert p. induction hs as [|x hs IH]; intros p; cbn [linked app]; [naive_solver|]. rewrite IH, last_cons.
  destruct (last hs); cbn; tauto.
Qed.

(** Headers that follow each other, on top of whatever. *)
Definition chained (hs : list BlockHeader) : Prop := match hs with [] => True | h :: hs => linked h hs end.

Lemma linked_app p (hs hs' : list BlockHeader) : linked p (hs ++ hs') <-> linked p hs /\ linked (default p (last hs)) hs'.
Proof.
  revert p. induction hs as [|x hs IH]; intros p; cbn [linked app]; [naive_solver|]. rewrite IH, last_cons. destruct (last hs); cbn; tauto.
Qed.

Lemma chained_app (hs hs' : list BlockHeader) : chained (hs ++ hs') -> chained hs /\ chained hs'.
Proof.
  destruct hs as [|h hs]; [done|]. cbn. rewrite linked_app. intros [Hl Hl']. split; [done|]. destruct hs' as [|h' hs']; [done|]. by destruct Hl'.
Qed.

(** The difficulty of a chain is that of its last header. *)
Definition n_difficulty (n : NState) : Z := match last (n_candidate n) with Some h => bh_totalDifficulty h | None => 0 end.

(** What processing headers does not touch. *)
Definition same_blocks (n n' : NState) : Prop :=
  n_confirmed n' = n_confirmed n /\ n_txs n' = n_txs n /\
  exists m, n_tables n' = set_headers m (n_tables n) /\ t_headers (n_tables n) ⊆ m.

#[export] Instance same_blocks_preorder : PreOrder same_blocks.
Proof.
  split.
  - intros n. split; [done|]. split; [done|]. exists (t_headers (n_tables n)). split; [by destruct (n_tables n)|done].
  - intros a b c (E1 & E2 & m & Em & Hm) (F1 & F2 & m' & Em' & Hm'). split; [congruence|]. split; [congruence|].
    exists m'. rewrite Em', Em. split; [done|]. rewrite Em in Hm'. cbn in Hm'. by etrans.
Qed.

Lemma same_candidate l n : same_blocks n (n_set_candidate l n).
Proof. split; [done|]. split; [done|]. exists (t_headers (n_tables n)). split; [by destruct n as [? ? []]|done]. Qed.

Section spec.
Context {F : Type} {HF : HashFile F} {HFL : HashFileLaws F} {R : Type} {HR : Roaring R} {HRL : RoaringLaws R}.
Context {B : Type} {HB : IBlockDB B} {db_wf : DBEntry -> Prop} {db_repr : DBTables -> DBTables -> B -> Prop} {HBL : IBlockDBLaws B db_wf db_repr}.
Context {C : Type} {HC : LRUCache Hash BlockHeader C} {HCL : LRUCacheLaws Hash BlockHeader C} {L : Type}.
Context (Blake2b : bytes -> Hash) (env : Environment) (pow_fuel : nat) (floor : Z) (base : gset Z).
Local Abbreviation CS := (ChainState F R B C L).
Local Abbreviation node_rel := (node_rel (db_repr := db_repr) Blake2b floor base).
Implicit Types (s : CS) (w c : NState) (h p : BlockHeader) (hs : list BlockHeader).
Hypothesis Blake2b_length : forall x, length (Blake2b x) = 32%nat.
Hypothesis Blake2b_nonzero : forall x, Blake2b x <> ZERO_HASH.

(** The headers that are offered.  A hash is that of the proof of work alone, so
    that it being the key of a header is an assumption on them. *)
Record offered (known : BlockHeader -> Prop) : Prop := {
  of_storable : forall h, known h -> header_storable (db_wf := db_wf) h;
  of_lengths : forall h, known h -> length (bh_previousBlockHash h) = 32%nat /\ length (bh_previousRoot h) = 32%nat;
  of_inj : forall h h', known h -> known h' -> BlockHeader_GetHash h = BlockHeader_GetHash h' -> h = h';
}.
Context (known : BlockHeader -> Prop) (Hof : offered known).
(** The genesis header, and what else holds of the pools and the cache, which
    headers leave alone. *)
Context (g : BlockHeader) (Q : TransactionPool -> gmap Z (list CheckedBlock) -> L -> Prop).

#[local] Set Default Proof Using "All".

(** [h] was validated on top of [p], the last header of [pre]. *)
Record follows (t : HeaderTable) (pre : list BlockHeader) p h : Prop := {
  fo_linked : bh_previousBlockHash h = BlockHeader_GetHash p;
  fo_height : bh_height h = bh_height p + 1;
  fo_version : bh_version h = GetHeaderVersion env (bh_height h);
  fo_time : bh_timestamp p < bh_timestamp h;
  fo_pow : env = AUTOMATED_TESTING \/ exists G, (forall k x, G k = Some x -> t !! k = Some x) /\ IsPoWValid Blake2b pow_fuel G env h p = Ok true;
  fo_root : bh_previousRoot h = mmr_root Blake2b (map leaf_of pre);
}.

Lemma follows_mono t t' pre p h : t ⊆ t' -> follows t pre p h -> follows t' pre p h.
Proof.
  intros Ht [Hl Hh Hv Htm Hp Hr]. constructor; try done. destruct Hp as [|(G & HG & Hp)]; [by left|].
  right. exists G. split; [|done]. intros k x Hk. eapply lookup_weaken; [|done]. by apply HG.
Qed.

(** The proof of work makes the difficulty grow. *)
Lemma follows_difficulty t pre p h : follows t pre p h -> env = AUTOMATED_TESTING \/ bh_totalDifficulty p < bh_totalDifficulty h.
Proof.
  intros [_ _ _ _ [|(G & _ & Hp)] _]; [by left|]. right. unfold IsPoWValid in Hp.
  destruct (Z.leb_spec (bh_totalDifficulty h) (bh_totalDifficulty p)); [done|lia].
Qed.

(** The previous header is in the table. *)
Definition child (t : HeaderTable) h : Prop := exists p, t !! bh_previousBlockHash h = Some p /\ bh_height h = bh_height p + 1 /\
  (env = AUTOMATED_TESTING \/ bh_totalDifficulty p < bh_totalDifficulty h).

Lemma child_mono t t' h : t ⊆ t' -> child t h -> child t' h.
Proof. intros Ht (p & Hp & Hh). exists p. split; [|done]. by eapply lookup_weaken. Qed.

Record headers_ok (n : NState) : Prop := {
  ho_tables : forall k h, t_headers (n_tables n) !! k = Some h -> k = BlockHeader_GetHash h /\ known h;
  ho_parent : forall k h, t_headers (n_tables n) !! k = Some h -> h = g \/ child (t_headers (n_tables n)) h;
  ho_chain : forall (i : nat) h, n_candidate n !! i = Some h -> bh_height h = i /\ t_headers (n_tables n) !! BlockHeader_GetHash h = Some h;
  ho_follows : forall (i : nat) p h, n_candidate n !! i = Some p -> n_candidate n !! S i = Some h ->
    follows (t_headers (n_tables n)) (take (S i) (n_candidate n)) p h;
  ho_nonempty : n_candidate n <> [];
}.

Lemma ho_known n (i : nat) h : headers_ok n -> n_candidate n !! i = Some h -> known h.
Proof. intros Hn Hi. destruct (ho_chain _ Hn _ _ Hi) as [_ Ht]. by destruct (ho_tables _ Hn _ _ Ht). Qed.

Lemma ho_length n : headers_ok n -> 0 < length (n_candidate n) <= 2 ^ 32.
Proof.
  intros Hn. destruct (last_is_Some (n_candidate n)) as [_ [h Hl]]; [by apply Hn|]. rewrite last_lookup in Hl.
  pose proof (ho_known _ _ _ Hn Hl) as Hk. destruct (ho_chain _ Hn _ _ Hl) as [Hh _]. destruct (of_storable _ Hof _ Hk) as (_ & _ & _ & Hb).
  apply lookup_lt_Some in Hl. lia.
Qed.

Lemma ho_last n : headers_ok n -> exists p, last (n_candidate n) = Some p /\ n_candidate n !! (length (n_candidate n) - 1)%nat = Some p /\ known p /\
  bh_height p + 1 = length (n_candidate n) /\ t_headers (n_tables n) !! BlockHeader_GetHash p = Some p.
Proof.
  intros Hn. destruct (last_is_Some (n_candidate n)) as [_ [h Hl]]; [by apply Hn|]. exists h. split; [done|]. rewrite last_lookup in Hl.
  replace (pred (length (n_candidate n))) with (length (n_candidate n) - 1)%nat in Hl by lia. split; [done|].
  pose proof (lookup_lt_Some _ _ _ Hl). destruct (ho_chain _ Hn _ _ Hl) as [Hh Ht]. split; [by eapply ho_known|]. split; [lia|done].
Qed.

(** Adding a known header keeps what the table has. *)
Lemma table_insert (n : NState) h : headers_ok n -> known h ->
  t_headers (n_tables n) ⊆ <[BlockHeader_GetHash h := h]> (t_headers (n_tables n)) /\
  forall k x, <[BlockHeader_GetHash h := h]> (t_headers (n_tables n)) !! k = Some x -> k = BlockHeader_GetHash x /\ known x.
Proof.
  intros Hn Hk. split.
  - apply map_subseteq_spec. intros k x Hx. destruct (ho_tables _ Hn _ _ Hx) as [-> Hkx].
    destruct (decide (BlockHeader_GetHash x = BlockHeader_GetHash h)) as [E|Hne]; [|by rewrite lookup_insert_ne].
    by rewrite E, lookup_insert_eq, (of_inj _ Hof _ _ Hk Hkx).
  - intros k x [[<- <-]|[_ Hx]]%lookup_insert_Some; [done|by apply (ho_tables _ Hn)].
Qed.

Lemma headers_ok_snoc w h p :
  headers_ok w -> known h -> last (n_candidate w) = Some p -> follows (t_headers (n_tables w)) (n_candidate w) p h ->
  headers_ok (n_add_header h w).
Proof.
  intros Hw Hk Hl Hf. destruct (table_insert w h Hw Hk) as [Hsub Htab]. destruct (ho_last _ Hw) as (p' & El & Hp & _ & Hlen & _).
  rewrite Hl in El. injection El as <-.
  constructor; cbn [n_add_header n_tables n_candidate t_headers set_headers].
  - done.
  - intros k x [[_ <-]|[_ Hx]]%lookup_insert_Some.
    + right. apply (child_mono _ _ _ Hsub). exists p. rewrite (fo_linked _ _ _ _ Hf).
      split; [by apply (ho_chain _ Hw (length (n_candidate w) - 1))|]. split; [by apply (fo_height _ _ _ _ Hf)|by eapply follows_difficulty].
    + destruct (ho_parent _ Hw _ _ Hx) as [|Hch]; [by left|right; by eapply child_mono].
  - intros i x [Hi|[Hi Hx]]%lookup_app_Some.
    + destruct (ho_chain _ Hw _ _ Hi) as [? ?]. split; [done|]. by eapply lookup_weaken.
    + destruct (i - length (n_candidate w))%nat as [|?] eqn:Ei; [|done]. injection Hx as <-. rewrite (fo_height _ _ _ _ Hf). split; [lia|]. by rewrite lookup_insert_eq.
  - intros i a b Ha Hb. destruct (decide (S i < length (n_candidate w))%nat) as [Hi|Hi].
    + rewrite lookup_app_l in Ha, Hb by lia. rewrite take_app_le by lia. eapply follows_mono; [exact Hsub|]. by apply (ho_follows _ Hw i).
    + pose proof (lookup_lt_Some _ _ _ Hb) as Hlt. rewrite length_app in Hlt. cbn in Hlt.
      rewrite lookup_app_l in Ha by lia. rewrite lookup_app_r in Hb by lia. replace (S i - length (n_candidate w))%nat with 0%nat in Hb by lia. injection Hb as <-.
      rewrite take_app_length' by lia. replace i with (length (n_candidate w) - 1)%nat in Ha by lia. rewrite Hp in Ha. injection Ha as <-.
      by eapply follows_mono.
  - by destruct (n_candidate w).
Qed.

(** A part of a chain, and a chain with more headers in the tables. *)
Lemma headers_ok_take w (k : nat) : headers_ok w -> (0 < k)%nat -> headers_ok (n_set_candidate (take k (n_candidate w)) w).
Proof.
  intros Hw Hk. constructor; cbn [n_set_candidate n_tables n_candidate].
  - apply (ho_tables _ Hw).
  - apply (ho_parent _ Hw).
  - intros i h [Hi _]%lookup_take_Some. by apply (ho_chain _ Hw).
  - intros i p h [Hp _]%lookup_take_Some [Hh Hi]%lookup_take_Some. rewrite take_take, Nat.min_l by lia. by apply (ho_follows _ Hw i).
  - destruct (n_candidate w) eqn:E; [by destruct (ho_nonempty _ Hw)|]. by destruct k; [lia|].
Qed.

Lemma headers_ok_tables c w : headers_ok c -> headers_ok w -> same_blocks c w -> headers_ok (n_set_candidate (n_candidate c) w).
Proof.
  intros Hc Hw (_ & _ & m & Em & Hm). constructor; cbn [n_set_candidate n_tables n_candidate].
  - apply (ho_tables _ Hw).
  - apply (ho_parent _ Hw).
  - intros i h Hi. destruct (ho_chain _ Hc _ _ Hi) as [? ?]. split; [done|]. rewrite Em. cbn. by eapply lookup_weaken.
  - intros i p h Hp Hh. eapply follows_mono; [|by apply (ho_follows _ Hc i)]. by rewrite Em.
  - apply Hc.
Qed.

(** ** Validation *)
Lemma require_Ok e b : require e b = Ok tt <-> b = true.
Proof. by destruct b. Qed.

Lemma Header_Validate_ok now w c s h p :
  node_rel w c s -> headers_ok w -> known h -> last (n_candidate w) = Some p -> bh_previousBlockHash h = BlockHeader_GetHash p ->
  Header_Validate Blake2b env pow_fuel now (m_pBlockDB s) (m_pHeaderMMR s) h p = Ok tt ->
  follows (t_headers (n_tables w)) (n_candidate w) p h.
Proof.
  intros Hn Hw Hk Hl Hlink E. destruct (ho_last _ Hw) as (p' & El & Hp & Hkp & Hlen & _). rewrite Hl in El. injection El as <-.
  pose proof (ho_length _ Hw) as Hsm. unfold Header_Validate in E.
  destruct (bh_height h =? _) eqn:Eh; [|done]. apply Z.eqb_eq in Eh. rewrite uint_small in Eh by (unfold is_uint; lia).
  destruct (negb (bh_timestamp h >? _)); [|done].
  destruct (bh_version h =? _) eqn:Ev; [|done]. apply Z.eqb_eq in Ev.
  destruct (negb (bh_timestamp h <=? _)) eqn:Et; [|done]. apply negb_true_iff, Z.leb_gt in Et. cbn [require mbind result_bind] in E.
  destruct (HeaderValidator_IsPoWValid _ _ _ _ _ _) as [ok|] eqn:Ep; [|done]. destruct ok; [|done]. cbn [require mbind result_bind] in E.
  pose proof (HeaderMMR_Root_ok Blake2b Blake2b_length Blake2b_nonzero _ _ _ (length (n_candidate w) - 1)%nat (nr_mmr _ _ _ _ _ _ Hn)) as Hr.
  rewrite length_map in Hr. specialize (Hr ltac:(lia)). rewrite uint_small in E by (unfold is_uint; lia).
  replace (Z.of_nat (length (n_candidate w) - 1)) with (bh_height h - 1) in Hr by lia. rewrite Hr in E. cbn [mbind result_bind] in E.
  apply require_Ok, negb_true_iff in E. unfold BigInteger_neq in E. apply negb_false_iff in E.
  destruct (of_lengths _ Hof _ Hk) as [_ Hrl]. rewrite BigInteger_eq_spec in E by (by rewrite Hrl, mmr_root_length). apply bool_decide_eq_true in E.
  constructor; try done.
  - unfold HeaderValidator_IsPoWValid in Ep. destruct (bool_decide_reflect (env = AUTOMATED_TESTING)) as [|_]; [by left|]. right.
    exists (fun hash => db_GetBlockHeader hash (m_pBlockDB s)). split; [|done]. intros k x. by rewrite (node_header (db_wf := db_wf) Blake2b floor base Blake2b_length Blake2b_nonzero w c s k Hn).
  - rewrite <- E. f_equal. rewrite take_ge; [done|]. rewrite length_map. lia.
Qed.

Local Abbreviation node_header := (node_header (db_wf := db_wf) Blake2b floor base Blake2b_length Blake2b_nonzero).

(** ** Adding one header

    What a step of a batch leaves: a state with valid headers that differs from
    the one before in headers only. *)
Record header_step w c s (w' : NState) (s' : CS) : Prop := {
  hs_rel : node_rel w' c s';
  hs_ok : headers_ok w';
  hs_same : same_blocks w w';
  hs_shared : shared s' = shared s;
}.

Lemma same_add w h : headers_ok w -> known h -> same_blocks w (n_add_header h w).
Proof.
  intros Hw Hk. split; [done|]. split; [done|]. eexists. split; [reflexivity|]. by destruct (table_insert w h Hw Hk).
Qed.

Lemma validate_headers_ok now c (Hc : length (n_candidate c) <= 2 ^ 32) : forall hs p w s,
  node_rel w c s -> headers_ok w -> last (n_candidate w) = Some p -> Forall known hs -> linked p hs ->
  exists r w' s', validate_headers Blake2b env pow_fuel now hs p s = (r, s') /\ header_step w c s w' s' /\
    (r = Ok tt -> n_candidate w' = n_candidate w ++ hs).
Proof.
  intros hs. induction hs as [|h hs IH]; intros p w s Hn Hw Hl Hk Hlink; cbn [validate_headers].
  - exists (Ok tt), w, s. split; [done|]. split; [by constructor|]. by rewrite app_nil_r.
  - apply Forall_cons in Hk as [Hkh Hk]. destruct Hlink as [Hlink Hlinks]. pose proof (ho_length _ Hw) as Hlen.
    erewrite st_bind_ok by reflexivity.
    destruct (Header_Validate Blake2b env pow_fuel now (m_pBlockDB s) (m_pHeaderMMR s) h p) as [[]|e] eqn:Ev.
    2:{ exists (Throw e), w, s. split; [by apply st_bind_throw|]. split; [by constructor|done]. }
    rewrite (st_lift_ok _ _ _ _ eq_refl). pose proof (Header_Validate_ok now w c s h p Hn Hw Hkh Hl Hlink Ev) as Hf.
    pose proof (of_storable _ Hof _ Hkh) as Hst.
    destruct (node_add_mmr (db_wf := db_wf) Blake2b floor base Blake2b_length Blake2b_nonzero w c s h Hn Hst ltac:(lia)) as (m & Em & Hm).
    unfold in_headers. erewrite st_bind_ok by (apply st_zoom_run; exact Em). unfold in_db. erewrite st_bind_ok by reflexivity.
    destruct (ho_last _ Hw) as (p' & El & _ & _ & Hh & _). rewrite Hl in El. injection El as <-.
    destruct (node_add_chain (db_wf := db_wf) Blake2b floor base Blake2b_length Blake2b_nonzero w c s h Hn Hst) as (ch & i & Ech & Hch);
      [lia|lia|rewrite (fo_height _ _ _ _ Hf); lia|].
    unfold in_chain, in_store, on_chain. erewrite st_bind_ok by (apply st_zoom_run, st_zoom_run; exact Ech).
    pose proof (node_add_header_rel Blake2b floor base Blake2b_length Blake2b_nonzero w c s h m ch Hn Hst Hm Hch) as Hn'.
    pose proof (headers_ok_snoc w h p Hw Hkh Hl Hf) as Hw'.
    destruct (IH h (n_add_header h w) _ Hn' Hw' ltac:(cbn; by rewrite last_snoc) Hk Hlinks) as (r & w' & s' & E & [Hr Ho Hsm Hsh] & Hcand).
    exists r, w', s'. split; [exact E|]. split.
    + constructor; [done|done| |by rewrite Hsh]. etrans; [by apply same_add|done].
    + intros Er. rewrite (Hcand Er). cbn. by rewrite <- app_assoc.
Qed.

(** ** A fork of headers *)

(** [hs] goes on from a header of the chain. *)
Definition anchored (n : NState) hs : Prop := exists (i : nat) p, n_candidate n !! i = Some p /\ hs <> [] /\ linked p hs.

(** What is left by a batch that is not rolled back yet, from the committed [c]:
    its commits. *)
Record committed c s (w' c' : NState) (s' : CS) : Prop := {
  cm_rel : node_rel w' c' s';
  cm_ok : headers_ok c';
  cm_same : same_blocks c c';
  cm_better : n_candidate c' = n_candidate c \/ n_difficulty c < n_difficulty c' \/ env = AUTOMATED_TESTING;
}.

Lemma committed_none c s w' s' : headers_ok c -> node_rel w' c s' -> committed c s w' c s'.
Proof. intros Hc Hn. constructor; [done|done|done|by left]. Qed.

Lemma ValidateHeaders_ok now c s hs (n : nat) :
  node_rel (n_set_candidate (take n (n_candidate c)) c) c s -> headers_ok c -> Forall known hs -> anchored c hs ->
  (forall front, head hs = Some front -> bh_height front = n) -> (0 < n)%nat ->
  exists r w' s', ValidateHeaders Blake2b env pow_fuel now hs s = (r, s') /\
    header_step (n_set_candidate (take n (n_candidate c)) c) c s w' s' /\
    (r = Ok tt -> n_candidate w' = take n (n_candidate c) ++ hs).
Proof.
  intros Hn Hc Hk (i & p & Hp & Hne & Hlink) Hfr Hpos. destruct hs as [|front hs]; [done|]. specialize (Hfr _ eq_refl).
  pose proof (headers_ok_take c n Hc Hpos) as Hw. pose proof (ho_length _ Hc) as Hlen. destruct (ho_chain _ Hc _ _ Hp) as [Hph Hpt].
  unfold ValidateHeaders. cbn [head of_option]. rewrite (st_lift_ok _ _ _ _ eq_refl). erewrite st_bind_ok by reflexivity.
  rewrite (node_header _ _ _ _ Hn), (proj1 Hlink). cbn [n_set_candidate n_tables]. rewrite Hpt. cbn [of_option]. rewrite (st_lift_ok _ _ _ _ eq_refl).
  destruct (decide (S i = n)) as [<-|Hi].
  - apply validate_headers_ok; [lia|done|done| |done|done]. cbn [n_set_candidate n_candidate]. by rewrite (take_S_r _ _ _ Hp), last_snoc.
  - exists (Throw BadDataException), (n_set_candidate (take n (n_candidate c)) c), s. split; [|split; [by constructor|done]].
    cbn [validate_headers]. erewrite st_bind_ok by reflexivity. apply st_bind_throw. unfold Header_Validate.
    apply lookup_lt_Some in Hp. rewrite Hfr, Hph, (uint_small 64 (i + 1)) by (unfold is_uint; lia).
    by rewrite (proj2 (Z.eqb_neq n (i + 1))) by lia.
Qed.

Lemma rollback_headers_run s ch : Chain_Rollback (cs_chain CANDIDATE s) = Ok ch ->
  (_ ← in_headers (st_modify HeaderMMR_Rollback);
   s ← st_get;
   store ← st_lift (c ← Chain_Rollback (cs_chain CANDIDATE s); Ok (SetChain CANDIDATE c (m_pChainStore s)));
   st_modify (cs_set_store store)) s =
  (Ok tt, cs_set_store (SetChain CANDIDATE ch (m_pChainStore s)) (cs_set_headers (HeaderMMR_Rollback (m_pHeaderMMR s)) s)).
Proof.
  intros E. unfold in_headers. erewrite (st_bind_ok (st_zoom _ _ _)) by (by apply st_zoom_run). rewrite (st_bind_ok st_get) with (1 := eq_refl).
  change (cs_chain CANDIDATE (cs_set_headers (HeaderMMR_Rollback (m_pHeaderMMR s)) s)) with (cs_chain CANDIDATE s). by rewrite E.
Qed.

Lemma reorg_headers_ok now c s hs tip :
  node_rel c c s -> headers_ok c -> Forall known hs -> anchored c hs -> last (n_candidate c) = Some tip ->
  exists r w' c' s', reorg_headers Blake2b env pow_fuel now hs (bh_totalDifficulty tip) s = (r, s') /\ committed c s w' c' s' /\ shared s' = shared s.
Proof.
  intros Hn Hc Hk Ha Htip. pose proof Ha as (i & p & Hp & Hne & Hlink). unfold reorg_headers.
  destruct hs as [|front hs']; [done|]. set (hs := front :: hs') in *.
  destruct (last_is_Some hs) as [_ [back Hback]]; [done|]. change (head hs) with (Some front). cbn [of_option]. rewrite (st_lift_ok _ _ _ _ eq_refl).
  rewrite Hback. cbn [of_option]. rewrite (st_lift_ok _ _ _ _ eq_refl).
  destruct (of_storable _ Hof front) as (_ & _ & _ & Hhf); [by apply Forall_cons in Hk as [? _]|]. pose proof (ho_length _ Hc) as Hlen.
  destruct (decide (0 < bh_height front <= length (n_candidate c))) as [Hb|Hb].
  2:{ assert (0 <= uint 64 (bh_height front - 1) /\ length (n_candidate c) <= uint 64 (bh_height front - 1)) as [Hu Hul].
      { destruct (decide (bh_height front = 0)) as [->|]; [change (uint 64 (0 - 1)) with 18446744073709551615; lia|]. rewrite uint_small by (unfold is_uint; lia). lia. }
      pose proof (Chain_Rewind_ok _ _ _ _ (node_candidate (db_wf := db_wf) Blake2b floor base Blake2b_length Blake2b_nonzero _ _ _ Hn) Hu) as Hr.
      rewrite length_map, (proj2 (Z.ltb_ge _ _)) in Hr by lia.
      exists (Throw BlockChainException), c, c, s. split; [|split; [by apply committed_none|done]].
      unfold in_chain at 1, in_store, on_chain. erewrite st_bind_throw; [reflexivity|].
      rewrite (st_zoom_run m_pChainStore cs_set_store _ s _ _ (st_zoom_run (GetChain CANDIDATE) (SetChain CANDIDATE) _ (m_pChainStore s) _ _ Hr)). by destruct s as [[]]. }
  pose proof (Z2Nat.id (bh_height front) ltac:(lia)) as En. set (n := Z.to_nat (bh_height front)) in *.
  destruct (node_rewind (db_wf := db_wf) Blake2b floor base Blake2b_length Blake2b_nonzero c c s n Hn ltac:(lia)) as (ch & m & Ech & Em & Hn1).
  rewrite uint_small by (unfold is_uint; lia). rewrite <- En.
  unfold in_chain at 1, in_store, on_chain. erewrite st_bind_ok by (apply st_zoom_run, st_zoom_run; exact Ech).
  unfold in_headers at 1. erewrite st_bind_ok by (apply st_zoom_run; exact Em).
  destruct (ValidateHeaders_ok now c _ hs n Hn1 Hc Hk Ha ltac:(by intros ? [= <-]) ltac:(lia)) as (r & w' & s' & Ev & [Hr Ho Hsame Hsh] & Hcand).
  destruct r as [[]|e].
  2:{ exists (Throw e), w', c, s'. split; [by apply st_bind_throw|]. split; [by apply committed_none|done]. }
  erewrite st_bind_ok by exact Ev. specialize (Hcand eq_refl).
  assert (same_blocks c w') as Hcw by (etrans; [by apply same_candidate|exact Hsame]).
  assert (n_difficulty c = bh_totalDifficulty tip) as Ed by (unfold n_difficulty; by rewrite Htip).
  destruct (Z.leb_spec (bh_totalDifficulty back) (bh_totalDifficulty tip)) as [Hle|Hgt].
  - destruct (node_rollback_headers (db_wf := db_wf) Blake2b floor base Blake2b_length Blake2b_nonzero _ _ _ Hr) as (ch' & Ech' & Hr').
    pose proof (headers_ok_tables c w' Hc Ho Hcw) as Ho'.
    destruct (node_Commit (db_wf := db_wf) Blake2b floor base Blake2b_length Blake2b_nonzero _ _ _ Hr') as (s2 & E2 & Hr2 & Hsh2).
    exists (Ok SUCCESS), (n_set_candidate (n_candidate c) w'), (n_set_candidate (n_candidate c) w'), s2.
    split; [|split; [constructor|by rewrite Hsh2]]; [|done|done|by destruct Hcw as (? & ? & ?); split|by left].
    erewrite st_bind_ok by (apply rollback_headers_run, Ech'). by erewrite st_bind_ok by exact E2.
  - destruct (node_Commit (db_wf := db_wf) Blake2b floor base Blake2b_length Blake2b_nonzero _ _ _ Hr) as (s2 & E2 & Hr2 & Hsh2).
    exists (Ok SUCCESS), w', w', s2. split; [|split; [constructor|by rewrite Hsh2]]; [|done|done|done|].
    + erewrite st_bind_ok by reflexivity. by erewrite st_bind_ok by exact E2.
    + right; left. unfold n_difficulty at 2. rewrite Hcand, last_app. by rewrite Ed, Hback.
Qed.
(** The header of a hash that is on the chain. *)
Lemma IsOnChain_header w c s (i : Z) x b :
  node_rel w c s -> 0 <= i -> length x = 32%nat -> IsOnChain i x (cs_chain CANDIDATE s) = Ok b ->
  b = true <-> exists p, n_candidate w !! Z.to_nat i = Some p /\ BlockHeader_GetHash p = x.
Proof.
  intros Hn Hi Hx. rewrite (IsOnChain_ok _ _ _ _ _ (node_candidate (db_wf := db_wf) Blake2b floor base Blake2b_length Blake2b_nonzero _ _ _ Hn) Hi Hx). intros [= <-].
  rewrite bool_decide_eq_true. change (map BlockHeader_GetHash (n_candidate w)) with (BlockHeader_GetHash <$> n_candidate w).
  rewrite list_lookup_fmap. destruct (n_candidate w !! Z.to_nat i) as [p|]; cbn; [|naive_solver]. split; [intros [= E]; by exists p|by intros (? & [= <-] & <-)].
Qed.

Lemma on_candidate_true w c s h : node_rel w c s -> headers_ok w -> known h -> on_candidate h s = Ok true ->
  exists i : nat, n_candidate w !! i = Some h.
Proof.
  intros Hn Hw Hk E. destruct (of_storable _ Hof _ Hk) as (Hl & _ & _ & Hh). unfold on_candidate in E.
  pose proof (proj1 (IsOnChain_header w c s _ _ _ Hn (proj1 Hh) Hl E) eq_refl) as (p & Hp & Ep). exists (Z.to_nat (bh_height h)).
  pose proof (of_inj _ Hof p h (ho_known _ _ _ Hw Hp) Hk Ep). congruence.
Qed.

(** The headers of orphans are offered ones under their hashes. *)
Definition orphans_known s : Prop := (forall k h, GetOrphanHeader k (m_pOrphanPool s) = Some h -> k = BlockHeader_GetHash h /\ known h) /\
  Q (m_pTransactionPool s) (m_orphansByHeight (m_pOrphanPool s)) (m_bulletproofsCache s).

Lemma orphans_known_shared s s' : shared s' = shared s -> orphans_known s -> orphans_known s'.
Proof. intros E. injection E as Ep Eo Ec. unfold orphans_known. by rewrite Ep, Eo, Ec. Qed.

(** The headers found on the way back go on from the chain. *)
Lemma fork_headers_ok w c s : node_rel w c s -> headers_ok w -> orphans_known s ->
  forall fuel t acc hs, known t -> Forall known acc -> linked t (rev acc) ->
  fork_headers fuel (Some t) acc s = Ok (Some hs) -> Forall known hs /\ (hs = [] \/ anchored w hs).
Proof.
  intros Hn Hw Ho fuel. induction fuel as [|fuel IH]; intros t acc hs Ht Hacc Hl E; [done|]. cbn [fork_headers] in E.
  destruct (on_candidate t s) as [b|] eqn:Eb; [|done]. cbn [mbind result_bind] in E. destruct b.
  - injection E as <-. split; [by apply Forall_rev|]. destruct (on_candidate_true _ _ _ _ Hn Hw Ht Eb) as [i Hi].
    destruct (decide (rev acc = [])) as [|Hne]; [by left|]. right. by exists i, t.
  - assert (Forall known (acc ++ [t])) as Hacc' by (apply Forall_app; by split; [|constructor]).
    assert (forall p, bh_previousBlockHash t = BlockHeader_GetHash p -> linked p (rev (acc ++ [t]))) as Hl' by (intros p Ep; rewrite rev_app_distr; by split).
    destruct (GetOrphanHeader _ _) as [o|] eqn:Eo; [|rewrite (node_header _ _ _ _ Hn) in E; destruct (t_headers _ !! _) as [o|] eqn:Et; [|by destruct fuel]].
    + destruct (proj1 Ho _ _ Eo) as [Ek Hko]. by apply (IH o (acc ++ [t])); [..|apply Hl'|].
    + destruct (ho_tables _ Hw _ _ Et) as [Ek Hko]. by apply (IH o (acc ++ [t])); [..|apply Hl'|].
Qed.

(** ** What every computation on headers maintains *)
Definition better (n n' : NState) : Prop := same_blocks n n' /\ (env = AUTOMATED_TESTING \/ n_difficulty n <= n_difficulty n').

#[local] Instance better_preorder : PreOrder better.
Proof.
  split; [intros n; split; [done|right; lia]|]. intros a b c [E1 D1] [E2 D2]. split; [by etrans|]. destruct D1, D2; (by left) || (right; lia).
Qed.

Definition maintains {A} (m : ST CS A) : Prop := forall c s, node_rel c c s -> headers_ok c -> orphans_known s ->
  exists r c' s', m s = (r, s') /\ node_rel c' c' s' /\ headers_ok c' /\ orphans_known s' /\ better c c'.

Lemma maintains_ret {A} (r : result A) : maintains (fun s => (r, s)).
Proof. intros c s Hn Hc Ho. by exists r, c, s. Qed.

Lemma maintains_bind {A A'} (m : ST CS A) (f : A -> ST CS A') : maintains m -> (forall a, maintains (f a)) -> maintains (m ≫= f).
Proof.
  intros Hm Hf c s Hn Hc Ho. destruct (Hm c s Hn Hc Ho) as (r & c1 & s1 & E1 & Hn1 & Hc1 & Ho1 & Hb1). destruct r as [a|e].
  - destruct (Hf a c1 s1 Hn1 Hc1 Ho1) as (r & c2 & s2 & E2 & Hn2 & Hc2 & Ho2 & Hb2). exists r, c2, s2. erewrite st_bind_ok by exact E1. repeat (split; [done|]). by etrans.
  - exists (Throw e), c1, s1. by erewrite st_bind_throw by exact E1.
Qed.

(** A batch that ends [committed] maintains. *)
Lemma maintains_batch {A} (m : ST CS A) :
  (forall c s, node_rel c c s -> headers_ok c -> orphans_known s -> exists r w' c' s', m s = (r, s') /\ committed c s w' c' s' /\ orphans_known s') ->
  maintains (BatchWrite m).
Proof.
  intros Hm c s Hn Hc Ho. destruct (node_OnInit (db_wf := db_wf) Blake2b floor base Blake2b_length Blake2b_nonzero c s Hn) as [Hn0 Hsh0].
  destruct (Hm c _ Hn0 Hc (orphans_known_shared _ _ Hsh0 Ho)) as (r & w' & c' & s1 & E & [Hr Hc' Hs Hb] & Ho1).
  destruct (BatchWrite_ok (db_wf := db_wf) Blake2b floor base Blake2b_length Blake2b_nonzero m c s r s1 w' c' Hn E Hr) as (s' & E' & Hn' & Hsh').
  exists r, c', s'. split; [done|]. split; [done|]. split; [done|]. split; [by eapply orphans_known_shared|]. split; [done|].
  destruct Hb as [Eb|[Hlt|Hat]]; [right|right; lia|by left]. unfold n_difficulty. by rewrite Eb.
Qed.
(** ** One header *)
Lemma extend_ok c s h tip : node_rel c c s -> headers_ok c -> known h -> last (n_candidate c) = Some tip ->
  follows (t_headers (n_tables c)) (n_candidate c) tip h ->
  exists w' s', (_ ← in_db (db_AddBlockHeader h);
    _ ← in_headers (AddHeader Blake2b h);
    _ ← in_chain CANDIDATE (Chain_AddBlock (BlockHeader_GetHash h) (bh_height h));
    _ ← ChainState_Commit;
    mret SUCCESS) s = (Ok SUCCESS, s') /\ committed c s w' w' s' /\ shared s' = shared s.
Proof.
  intros Hn Hc Hk Hl Hf. pose proof (ho_length _ Hc) as Hlen. pose proof (of_storable _ Hof _ Hk) as Hst.
  destruct (node_add_mmr (db_wf := db_wf) Blake2b floor base Blake2b_length Blake2b_nonzero c c s h Hn Hst ltac:(lia)) as (m & Em & Hm).
  destruct (ho_last _ Hc) as (p' & El & _ & _ & Hh & _). rewrite Hl in El. injection El as <-.
  destruct (node_add_chain (db_wf := db_wf) Blake2b floor base Blake2b_length Blake2b_nonzero c c s h Hn Hst) as (ch & i & Ech & Hch);
    [lia|lia|rewrite (fo_height _ _ _ _ Hf); lia|].
  pose proof (node_add_header_rel Blake2b floor base Blake2b_length Blake2b_nonzero c c s h m ch Hn Hst Hm Hch) as Hn'.
  destruct (node_Commit (db_wf := db_wf) Blake2b floor base Blake2b_length Blake2b_nonzero _ _ _ Hn') as (s' & Es & Hs' & Hsh).
  exists (n_add_header h c), s'. split; [|split; [constructor|by rewrite Hsh]].
  - unfold in_db. rewrite (st_bind_ok (st_modify _)) with (1 := eq_refl). unfold in_headers. erewrite st_bind_ok by (apply st_zoom_run; exact Em).
    unfold in_chain, in_store, on_chain. erewrite st_bind_ok by (apply st_zoom_run, st_zoom_run; exact Ech). by erewrite st_bind_ok by exact Es.
  - done.
  - by apply (headers_ok_snoc c h tip).
  - by apply same_add.
  - right. destruct (follows_difficulty _ _ _ _ Hf) as [|Hd]; [by right|left]. unfold n_difficulty. rewrite Hl. cbn. by rewrite last_snoc.
Qed.

Lemma ProcessOrphan_ok now fuel c s h : node_rel c c s -> headers_ok c -> orphans_known s -> known h ->
  exists r w' c' s', ProcessOrphan Blake2b env pow_fuel now fuel h s = (r, s') /\ committed c s w' c' s' /\ orphans_known s'.
Proof.
  intros Hn Hc Ho Hk. destruct (ho_last _ Hc) as (tip & Hl & _ & _ & _ & Ht). unfold ProcessOrphan. erewrite st_bind_ok by reflexivity.
  rewrite (st_lift_ok _ _ _ _ (GetTotalDifficulty_ok Blake2b floor base Blake2b_length Blake2b_nonzero _ _ _ _ Hn Hl Ht)).
  destruct (fork_headers fuel (Some h) [] s) as [[hs|]|e] eqn:Ef.
  - rewrite (st_lift_ok _ _ _ _ eq_refl). destruct (fork_headers_ok c c s Hn Hc Ho fuel h [] hs Hk ltac:(done) ltac:(done) Ef) as [Hks [->|Ha]].
    + exists (Throw UB), c, c, s. split; [done|]. split; [by apply committed_none|done].
    + destruct (reorg_headers_ok now c s hs tip Hn Hc Hks Ha Hl) as (r & w' & c' & s' & E & Hcm & Hsh).
      exists r, w', c', s'. split; [done|]. split; [done|]. by eapply orphans_known_shared.
  - rewrite (st_lift_ok _ _ _ _ eq_refl). eexists (Ok ORPHANED), c, c, _. split; [reflexivity|]. split.
    + apply committed_none; [done|]. destruct Hn as [? ? ? ?]. by constructor.
    + split; [|exact (proj2 Ho)]. intros k x Hx. destruct (decide (BlockHeader_GetHash h = k)) as [<-|Hne].
      * unfold GetOrphanHeader in Hx. cbn in Hx. rewrite cache_get_put in Hx. injection Hx as <-. done.
      * apply (proj1 Ho). unfold GetOrphanHeader in Hx |- *. cbn in Hx. by eapply cache_get_other.
  - exists (Throw e), c, c, s. split; [by apply st_bind_throw|]. split; [by apply committed_none|done].
Qed.

Lemma ProcessSingleHeader_maintains now fuel h : known h -> maintains (ProcessSingleHeader Blake2b env pow_fuel now fuel h).
Proof.
  intros Hk. unfold ProcessSingleHeader. destruct (is_bad_block h); [apply maintains_ret|]. apply maintains_batch.
  intros c s Hn Hc Ho. unfold ProcessSingleHeader_batch. erewrite st_bind_ok by reflexivity. rewrite (node_header _ _ _ _ Hn).
  destruct (t_headers (n_tables c) !! BlockHeader_GetHash h) as [x|] eqn:Ex; [exists (Ok ALREADY_EXISTS), c, c, s; split; [done|]; split; [by apply committed_none|done]|].
  destruct (ho_last _ Hc) as (tip & Hl & _ & Hkt & _ & Ht).
  destruct (GetTipHash_ok _ _ _ (node_candidate (db_wf := db_wf) Blake2b floor base Blake2b_length Blake2b_nonzero _ _ _ Hn)) as (x & Hx & E).
  change (last (BlockHeader_GetHash <$> n_candidate c) = Some x) in Hx. rewrite fmap_last, Hl in Hx. injection Hx as <-.
  rewrite (st_lift_ok _ _ _ _ E). unfold BigInteger_neq.
  rewrite BigInteger_eq_spec by (by rewrite (proj1 (of_lengths _ Hof _ Hk)), (proj1 (of_storable _ Hof _ Hkt))).
  case_bool_decide as Elink; cbn [negb]; [|by apply ProcessOrphan_ok].
  rewrite (node_header _ _ _ _ Hn), Ht. cbn [of_option]. rewrite (st_lift_ok _ _ _ _ eq_refl).
  destruct (Header_Validate Blake2b env pow_fuel now (m_pBlockDB s) (m_pHeaderMMR s) h tip) as [[]|e] eqn:Ev.
  2:{ exists (Throw e), c, c, s. split; [by apply st_bind_throw|]. split; [by apply committed_none|done]. }
  rewrite (st_lift_ok _ _ _ _ eq_refl). pose proof (Header_Validate_ok now c c s h tip Hn Hc Hk Hl (eq_sym Elink) Ev) as Hf.
  destruct (extend_ok c s h tip Hn Hc Hk Hl Hf) as (w' & s' & Es & Hcm & Hsh). exists (Ok SUCCESS), w', w', s'.
  split; [exact Es|]. split; [done|]. by eapply orphans_known_shared.
Qed.

(** ** The headers of a sync *)
Lemma new_headers_ok c s : node_rel c c s -> headers_ok c -> forall hs below res,
  Forall known hs -> (exists i : nat, n_candidate c !! i = Some below) -> linked below hs -> new_headers hs s = Ok res ->
  Forall known res /\ (res = [] \/ anchored c res).
Proof.
  intros Hn Hc hs. induction hs as [|h hs IH]; intros below res Hk [i Hi] Hl E; cbn [new_headers] in E; [injection E as <-; by split; [|left]|].
  apply Forall_cons in Hk as [Hkh Hk]. destruct (on_candidate h s) as [b|] eqn:Eb; [|done]. cbn [mbind result_bind] in E. destruct b.
  - apply (IH h); [done|by eapply on_candidate_true|by destruct Hl|done].
  - injection E as <-. split; [by constructor|]. right. by exists i, below.
Qed.

Lemma ProcessChunkedSyncHeaders_maintains now hs : Forall known hs -> chained hs -> maintains (ProcessChunkedSyncHeaders Blake2b env pow_fuel now hs).
Proof.
  intros Hk Hch. apply maintains_batch. intros c s Hn Hc Ho.
  assert (forall r, exists r' w' c' s', ((r : result EBlockChainStatus, s) = (r', s') /\ committed c s w' c' s' /\ orphans_known s')) as Hstop
    by (intros r; exists r, c, c, s; split; [done|]; split; [by apply committed_none|done]).
  destruct (ho_last _ Hc) as (tip & Hl & _ & _ & _ & Ht). erewrite st_bind_ok by reflexivity.
  rewrite (st_lift_ok _ _ _ _ (GetTotalDifficulty_ok Blake2b floor base Blake2b_length Blake2b_nonzero _ _ _ _ Hn Hl Ht)).
  destruct (PrepareSyncChain hs s) as [[]|e] eqn:Ep; [|apply Hstop]. rewrite (st_lift_ok _ _ _ _ eq_refl).
  destruct (new_headers hs s) as [res|e] eqn:En; [|apply Hstop]. rewrite (st_lift_ok _ _ _ _ eq_refl).
  destruct hs as [|front hs]; [done|]. unfold PrepareSyncChain in Ep. cbn [head of_option mbind result_bind] in Ep.
  pose proof (Forall_cons_1 _ _ _ Hk) as [Hkf _].
  destruct (IsOnChain _ _ _) as [b|] eqn:Eb; [|done]. cbn [mbind result_bind] in Ep. apply require_Ok in Ep as ->.
  pose proof (uint_range 64 (bh_height front - 1) ltac:(lia)) as Hu.
  destruct (proj1 (IsOnChain_header c c s _ _ _ Hn (proj1 Hu) (proj1 (of_lengths _ Hof _ Hkf)) Eb) eq_refl) as (p & Hp & Epf).
  destruct (new_headers_ok c s Hn Hc (front :: hs) p res Hk) as [Hkr [->|Ha]]; [by eexists|by split|done|apply Hstop|].
  destruct res as [|r res]; [apply Hstop|].
  destruct (reorg_headers_ok now c s (r :: res) tip Hn Hc Hkr Ha Hl) as (r' & w' & c' & s' & E & Hcm & Hsh).
  exists r', w', c', s'. split; [done|]. split; [done|]. by eapply orphans_known_shared.
Qed.

Lemma sync_headers_loop_maintains now size : forall hs chunk index, Forall known (chunk ++ hs) -> chained (chunk ++ hs) ->
  maintains (sync_headers_loop Blake2b env pow_fuel now hs chunk index size).
Proof.
  intros hs. induction hs as [|h hs IH]; intros chunk index Hk Hch; cbn [sync_headers_loop]; [apply maintains_ret|].
  assert (chunk ++ h :: hs = (chunk ++ [h]) ++ hs) as E by (by rewrite <- app_assoc). rewrite E in Hk, Hch.
  destruct (_ || _); [|by apply IH]. apply Forall_app in Hk as [Hk1 Hk2]. apply chained_app in Hch as [Hc1 Hc2].
  apply maintains_bind; [by apply ProcessChunkedSyncHeaders_maintains|]. intros status. destruct (_ || _); [by apply IH|apply maintains_ret].
Qed.

Lemma ProcessSyncHeaders_maintains now hs : Forall known hs -> chained hs -> maintains (ProcessSyncHeaders Blake2b env pow_fuel now hs).
Proof.
  intros Hk Hc. unfold ProcessSyncHeaders. destruct hs as [|front hs]; [apply maintains_ret|].
  destruct (existsb _ _); [apply maintains_ret|]. destruct (_ =? 0); [apply maintains_ret|]. destruct (negb _); [apply maintains_ret|].
  by apply sync_headers_loop_maintains.
Qed.

(** ** Orphans without end *)
Lemma fork_headers_self fuel t acc s :
  on_candidate t s = Ok false -> GetOrphanHeader (bh_previousBlockHash t) (m_pOrphanPool s) = Some t ->
  fork_headers fuel (Some t) acc s = Throw OutOfFuel.
Proof.
  intros Hc Ho. revert acc. induction fuel as [|fuel IH]; intros acc; cbn [fork_headers]; [done|]. rewrite Hc. cbn [mbind result_bind]. rewrite Ho. apply IH.
Qed.

Lemma off_chain c s h : node_rel c c s -> headers_ok c -> known h -> t_headers (n_tables c) !! BlockHeader_GetHash h = None -> on_candidate h s = Ok false.
Proof.
  intros Hn Hc Hk Hnone. destruct (of_storable _ Hof _ Hk) as (Hl & _ & _ & Hh). destruct (on_candidate h s) as [[|]|e] eqn:E; [|done|].
  - destruct (on_candidate_true _ _ _ _ Hn Hc Hk E) as [i Hi]. destruct (ho_chain _ Hc _ _ Hi) as [_ Ht]. congruence.
  - unfold on_candidate in E. by rewrite (IsOnChain_ok _ _ _ _ _ (node_candidate (db_wf := db_wf) Blake2b floor base Blake2b_length Blake2b_nonzero _ _ _ Hn) (proj1 Hh) Hl) in E.
Qed.

(** A batch for a header whose previous header is unknown. *)
Lemma unknown_previous_batch c s h now fuel r :
  node_rel c c s -> headers_ok c -> known h -> t_headers (n_tables c) !! BlockHeader_GetHash h = None ->
  t_headers (n_tables c) !! bh_previousBlockHash h = None -> fork_headers fuel (Some h) [] s = r -> r = Ok None \/ (exists e, r = Throw e) ->
  ProcessSingleHeader_batch Blake2b env pow_fuel now fuel h s =
    match r with Ok _ => (Ok ORPHANED, cs_set_orphans (AddOrphanHeader h (m_pOrphanPool s)) s) | Throw e => (Throw e, s) end.
Proof.
  intros Hn Hc Hk Hnone Hprev Er Hr. destruct (ho_last _ Hc) as (tip & Hl & _ & Hkt & _ & Ht).
  unfold ProcessSingleHeader_batch. erewrite st_bind_ok by reflexivity. rewrite (node_header _ _ _ _ Hn), Hnone.
  destruct (GetTipHash_ok _ _ _ (node_candidate (db_wf := db_wf) Blake2b floor base Blake2b_length Blake2b_nonzero _ _ _ Hn)) as (x & Hx & E).
  change (last (BlockHeader_GetHash <$> n_candidate c) = Some x) in Hx. rewrite fmap_last, Hl in Hx. injection Hx as <-.
  rewrite (st_lift_ok _ _ _ _ E). unfold BigInteger_neq.
  rewrite BigInteger_eq_spec by (by rewrite (proj1 (of_lengths _ Hof _ Hk)), (proj1 (of_storable _ Hof _ Hkt))).
  rewrite bool_decide_false by congruence. cbn [negb]. unfold ProcessOrphan. erewrite st_bind_ok by reflexivity.
  rewrite (st_lift_ok _ _ _ _ (GetTotalDifficulty_ok Blake2b floor base Blake2b_length Blake2b_nonzero _ _ _ _ Hn Hl Ht)).
  rewrite Er. destruct Hr as [->|[e ->]]; [by rewrite (st_lift_ok _ _ _ _ eq_refl)|by apply st_bind_throw].
Qed.
End spec.
