(* ===== verification/BlockHistory.v ===== *)
(** * Histories of blocks

    A history can be cut and continued, survives tables that keep its blocks,
    counts what its blocks add, and carries the sums of the chain: what outputs
    exceed inputs by is the kernel excesses, the offset and the rewards. *)
From S2P Require Import Prelude BitUtil MMRIndex MMRUtil Serial BigInteger File Roaring PruneList MMRHash PruneableMMR Consensus Transaction Crypto KernelMMR KernelSpec Header Block BlockDB TxHashSet UtxoSpec TxHashSetSpec TxHashSetBlocks Validation ValidationSpec BlockProcessor.

Section history.
Context (env : Environment).
Implicit Types (tb : DBTables) (x y z : TState * Positions) (b : FullBlock) (bs : list FullBlock).

Lemma history_app tb x bs1 bs2 y :
  history env tb x (bs1 ++ bs2) y <-> exists z, history env tb x bs2 z /\ history env tb z bs1 y.
Proof.
  revert y. induction bs1 as [|b bs1 IH]; intros y; cbn [app].
  - split; [intros Hh; exists y; by split; [|constructor]|]. intros (z & Hz & Hy). by inversion Hy; subst.
  - split.
    + intros Hh. inversion Hh as [|? y1 ? ? spent previous Hh' ? ? ? ? ? ? ? ? ? ? ?]; subst. apply IH in Hh' as (z & Hz & Hy1).
      exists z. split; [done|]. by eapply (history_cons env tb z bs1 y1).
    + intros (z & Hz & Hy). inversion Hy as [|? y1 ? ? spent previous Hh' ? ? ? ? ? ? ? ? ? ? ?]; subst.
      eapply (history_cons env tb x (bs1 ++ bs2) y1); try done. apply IH. by exists z.
Qed.

(** Other tables with the same blocks. *)
Lemma history_tables tb tb' x bs y :
  history env tb x bs y -> t_headers tb ⊆ t_headers tb' ->
  (forall b, b ∈ bs -> t_blocks tb' !! FullBlock_GetHash b = Some b /\ t_spent tb' !! FullBlock_GetHash b = t_spent tb !! FullBlock_GetHash b) ->
  history env tb' x bs y.
Proof.
  intros Hh Ht. induction Hh as [|bs y b z spent previous Hh IH E Hd Hc Hn Hhb Hp Hpb Hph Htp Hb Hs]; intros Hbs; [constructor|].
  destruct (Hbs b) as [Hb' Hs']; [by left|].
  eapply (history_cons env tb' x bs y b z spent previous); try done.
  - apply IH. intros b' Hb''. apply Hbs. by right.
  - by eapply lookup_weaken.
  - by rewrite Hs'.
Qed.

Lemma history_stored tb x bs y b : history env tb x bs y -> b ∈ bs -> t_blocks tb !! FullBlock_GetHash b = Some b.
Proof.
  intros Hh Hb. induction Hh as [|bs y b' z spent previous Hh IH]; [by apply not_elem_of_nil in Hb|].
  apply elem_of_cons in Hb as [->|Hb]; [done|by apply IH].
Qed.

(** What is accepted spends no commitment twice. *)
Lemma spend_spec_unspent (maxH : Z) (positions : Positions) (inputs : list TransactionInput) : forall (s s' : TState) (spent : list SpentOutput) (j : Z),
  spend_spec maxH positions inputs s = Ok (Some (s', spent)) -> j ∉ ts_unspent s ->
  forall i l, i ∈ inputs -> positions !! ti_commitment i = Some l -> ol_leaf l <> j.
Proof.
  induction inputs as [|i inputs IH]; intros s s' spent j E Hj i' l Hi El; [by apply not_elem_of_nil in Hi|]. cbn [spend_spec] in E.
  destruct (positions !! ti_commitment i) as [l'|] eqn:El'; [|done]. destruct (unspent_at s (ol_leaf l')) as [o|] eqn:Eo; [|done].
  destruct (OutputIdentifier_IsCoinbase o && (ol_blockHeight l' >? maxH)); [done|].
  destruct (spend_spec maxH positions inputs (ts_spend (ol_leaf l') s)) as [[[s1 spent1]|]|e] eqn:E1; [|done..].
  apply elem_of_cons in Hi as [->|Hi].
  - rewrite El' in El. injection El as <-. apply unspent_at_Some in Eo as [Hu _]. by intros <-.
  - eapply (IH _ _ _ j E1); [|done|done]. cbn [ts_spend ts_unspent]. set_solver.
Qed.

Lemma spend_spec_distinct (maxH : Z) (positions : Positions) (inputs : list TransactionInput) : forall (s s' : TState) (spent : list SpentOutput),
  spend_spec maxH positions inputs s = Ok (Some (s', spent)) -> NoDup (map ti_commitment inputs).
Proof.
  induction inputs as [|i inputs IH]; intros s s' spent E; [constructor|]. cbn [spend_spec] in E.
  destruct (positions !! ti_commitment i) as [l|] eqn:El; [|done]. destruct (unspent_at s (ol_leaf l)) as [o|] eqn:Eo; [|done].
  destruct (OutputIdentifier_IsCoinbase o && (ol_blockHeight l >? maxH)); [done|].
  destruct (spend_spec maxH positions inputs (ts_spend (ol_leaf l) s)) as [[[s1 spent1]|]|e] eqn:E1; [|done..].
  cbn [map]. constructor; [|by eapply IH]. intros (i' & Ei & Hi')%list_elem_of_fmap.
  assert (ol_leaf l ∉ ts_unspent (ts_spend (ol_leaf l) s)) as Hj by (cbn; set_solver).
  by eapply (spend_spec_unspent _ _ _ _ _ _ _ E1 Hj i' l Hi'); [rewrite <- Ei|].
Qed.

Lemma block_spec_distinct b x z spent : block_spec env b x = Ok (Some (z, spent)) -> distinct_inputs b.
Proof.
  unfold block_spec. destruct (spend_spec _ x.2 (tb_inputs (fb_body b)) x.1) as [[[s1 spent1]|]|e] eqn:Es; cbn [mbind result_bind]; [|done..].
  intros _. by eapply spend_spec_distinct.
Qed.

Lemma VerifyCutThrough_cut_through b : VerifyCutThrough (fb_body b) = Ok tt -> cut_through b.
Proof.
  unfold VerifyCutThrough. destruct (existsb _ _) eqn:E; [done|]. intros _ k Hk Ho. apply not_true_iff_false in E. apply E.
  apply existsb_exists. apply list_elem_of_fmap in Hk as (i & -> & Hi). exists i. rewrite <- list_elem_of_In. split; [done|]. by apply bool_decide_eq_true.
Qed.

(** ** Counts *)
Definition kernels_in bs : nat := sum_list_with (fun b => length (tb_kernels (fb_body b))) bs.
Definition outputs_in bs : nat := sum_list_with (fun b => length (tb_outputs (fb_body b))) bs.

Lemma history_counts tb x bs y : history env tb x bs y ->
  length (ts_kernels y.1) = (length (ts_kernels x.1) + kernels_in bs)%nat /\ length (ts_outputs y.1) = (length (ts_outputs x.1) + outputs_in bs)%nat.
Proof.
  intros Hh. induction Hh as [|bs y b z spent previous Hh [IHk IHo] E]; [cbn; lia|].
  destruct (block_spec_data _ _ _ _ _ E) as (-> & -> & _). unfold kernels_in, outputs_in in *. cbn [sum_list_with]. rewrite !length_app, length_map. lia.
Qed.

(** The heights of the blocks. *)
Lemma history_heights tb x bs y h0 (i : nat) b : history env tb x bs y -> ts_header x.1 = Some h0 -> bs !! i = Some b ->
  FullBlock_GetHeight b + i = bh_height h0 + length bs.
Proof.
  intros Hh H0. revert i. induction Hh as [|bs y b' z spent previous Hh IH E Hd Hc Hn Hhb Hp Hpb Hph]; intros i Hi; [done|].
  destruct i as [|i]; [|cbn in Hi; specialize (IH i Hi); cbn [length]; lia]. injection Hi as <-.
  destruct (history_header _ _ _ _ _ _ Hh H0) as (h & Eh & Hhh & _). rewrite Hp in Eh. injection Eh as <-. cbn [length]. lia.
Qed.
End history.

(** ** Sums *)
Section balance.
Context {P : Type} {SP : Secp256k1 P} {G : Type} {AG : AbelianGroup G} {SL : Secp256k1Laws P G}.
Implicit Types (b : FullBlock) (bs : list FullBlock).

Definition block_inputs b : list Commitment := map ti_commitment (tb_inputs (fb_body b)).
Definition block_outputs b : list Commitment := map to_commitment (tb_outputs (fb_body b)).
Definition block_kernels b : list Commitment := map tk_excessCommitment (tb_kernels (fb_body b)).

(** The sums the tables have for the blocks, the last one's being [o] and [k];
    those of the genesis block are under [hash]. *)
Fixpoint sums_chain (tb : DBTables) (hash : Hash) bs (o k : G) : Prop :=
  match bs with
  | [] => exists sums, t_sums tb !! hash = Some sums /\ sums_of sums o k
  | b :: bs => exists sums o0 k0 i oo kk, t_sums tb !! FullBlock_GetHash b = Some sums /\ sums_of sums o k /\ sums_chain tb hash bs o0 k0 /\
      csum (block_inputs b) = Some i /\ csum (block_outputs b) = Some oo /\ csum (block_kernels b) = Some kk /\
      gadd o i = gadd (gadd oo o0) (value BLOCK_OVERAGE) /\ k = gadd kk k0 /\ o = gadd k (blind (bh_totalKernelOffset (fb_header b)))
  end.

Lemma sums_chain_top tb hash bs o k : sums_chain tb hash bs o k ->
  exists sums, t_sums tb !! match bs with [] => hash | b :: _ => FullBlock_GetHash b end = Some sums /\ sums_of sums o k.
Proof. destruct bs; [done|]. intros (sums & _ & _ & _ & _ & _ & ? & ? & _). by exists sums. Qed.

Lemma sums_chain_tables tb tb' hash bs o k :
  sums_chain tb hash bs o k -> t_sums tb' !! hash = t_sums tb !! hash ->
  (forall b, b ∈ bs -> t_sums tb' !! FullBlock_GetHash b = t_sums tb !! FullBlock_GetHash b) -> sums_chain tb' hash bs o k.
Proof.
  revert o k. induction bs as [|b bs IH]; intros o k Hs Hh Hb; cbn [sums_chain] in *; [by rewrite Hh|].
  destruct Hs as (sums & o0 & k0 & i & oo & kk & Hl & Hsum & Hs & Hrest). exists sums, o0, k0, i, oo, kk.
  rewrite (Hb b) by by left. split; [done|]. split; [done|]. split; [|done]. apply IH; [done|done|]. intros b' Hb'. apply Hb. by right.
Qed.

Lemma sums_chain_drop tb hash bs1 bs2 o k : sums_chain tb hash (bs1 ++ bs2) o k -> exists o' k', sums_chain tb hash bs2 o' k'.
Proof.
  revert o k. induction bs1 as [|b bs1 IH]; intros o k Hs; [by exists o, k|]. destruct Hs as (_ & o0 & k0 & _ & _ & _ & _ & _ & Hs & _). by eapply IH.
Qed.

(** What the blocks of a chain spend, create and sign. *)
Definition chain_inputs bs : list Commitment := concat (map block_inputs bs).
Definition chain_outputs bs : list Commitment := concat (map block_outputs bs).
Definition chain_kernels bs : list Commitment := concat (map block_kernels bs).

Lemma sums_chain_supply tb hash bs o k : sums_chain tb hash bs o k ->
  exists og kg i oo kk, sums_chain tb hash [] og kg /\
    csum (chain_inputs bs) = Some i /\ csum (chain_outputs bs) = Some oo /\ csum (chain_kernels bs) = Some kk /\
    gadd (gadd o i) (value (REWARD * length bs)) = gadd oo og /\ k = gadd kk kg /\
    forall b, head bs = Some b -> o = gadd k (blind (bh_totalKernelOffset (fb_header b))).
Proof.
  revert o k. induction bs as [|b bs IH]; intros o k Hs.
  - exists o, k, gzero, gzero, gzero. split; [done|]. do 3 (split; [done|]). split; [|split; [by rewrite gadd_0_l|done]].
    assert (value (REWARD * length (@nil FullBlock)) = gzero) as ->; [|by rewrite !gadd_0_r, gadd_0_l].
    change (REWARD * length (@nil FullBlock)) with 0. apply (gadd_cancel _ _ (value 0)). by rewrite <- value_add, gadd_0_l.
  - destruct Hs as (sums & o0 & k0 & i & oo & kk & _ & _ & Hs & Ei & Eo & Ek & Heq & -> & Hoff).
    destruct (IH _ _ Hs) as (og & kg & i' & oo' & kk' & Hg & Ei' & Eo' & Ek' & Heq' & -> & _). exists og, kg, (gadd i i'), (gadd oo oo'), (gadd kk kk').
    split; [done|]. unfold chain_inputs, chain_outputs, chain_kernels in *. cbn [map concat]. rewrite !csum_app, Ei, Ei', Eo, Eo', Ek, Ek'.
    do 3 (split; [done|]). split; [|split; [by rewrite gadd_assoc|by intros ? [= <-]]].
    replace (REWARD * length (b :: bs)) with (REWARD * length bs + REWARD) by (cbn [length]; lia). rewrite value_add.
    apply (gadd_cancel _ _ (value BLOCK_OVERAGE)).
    assert (gadd (value REWARD) (value BLOCK_OVERAGE) = gzero) as Ev.
    { rewrite <- value_add. change (REWARD + BLOCK_OVERAGE) with 0. apply (gadd_cancel _ _ (value 0)). by rewrite <- value_add, gadd_0_l. }
    transitivity (gadd (gadd (gadd o i) (gadd i' (value (REWARD * length bs)))) (gadd (value REWARD) (value BLOCK_OVERAGE))); [group|].
    rewrite Ev, gadd_0_r, Heq. transitivity (gadd (gadd (gadd o0 i') (value (REWARD * length bs))) (gadd oo (value BLOCK_OVERAGE))); [group|].
    rewrite Heq'. group.
Qed.
End balance.
