(* ===== verification/BlockProcessorSpec.v ===== *)
(** * What processing blocks keeps

    The confirmed chain is a history of validated blocks on top of the genesis
    block: the hash set and the table of positions have its effect, the sums of
    the chain balance, and the chain file has its hashes.  Whatever headers and
    blocks are offered, in whatever order and with whatever exceptions, this
    stays so. *)
From S2P Require Import Prelude BitUtil MMRIndex MMRUtil Serial BigInteger File Roaring PruneList BitmapFile MMRHash SegmentId SegmentProof Segment PruneableMMR PruneableSpec Consensus Transaction Crypto KernelMMR KernelSpec Header Block BlockSpec BlockDB TxHashSet UtxoSpec TxHashSetSpec TxHashSetBlocks Validation ValidationSpec Chain OrphanPool HeaderMMR TxPool TxPoolSpec Difficulty Cuckoo ChainState HeaderProcessor BlockProcessor ChainStateSpec HeaderSpec BlockHistory.

Section spec.
Context {F : Type} {HF : HashFile F} {HFL : HashFileLaws F} {R : Type} {HR : Roaring R} {HRL : RoaringLaws R}.
Context {B : Type} {HB : IBlockDB B} {db_wf : DBEntry -> Prop} {db_repr : DBTables -> DBTables -> B -> Prop} {HBL : IBlockDBLaws B db_wf db_repr}.
Context {P : Type} {SP : Secp256k1 P} {G : Type} {AG : AbelianGroup G} {SL : Secp256k1Laws P G}.
Context {C : Type} {HC : LRUCache Hash BlockHeader C} {HCL : LRUCacheLaws Hash BlockHeader C}.
Context {L : Type} {HL : LRUCache Commitment Commitment L} {HLL : LRUCacheLaws Commitment Commitment L}.
Context (Blake2b : bytes -> Hash) (env : Environment) (pow_fuel : nat).
Local Abbreviation CS := (ChainState F R B C L).
Local Abbreviation node_rel := (node_rel (db_repr := db_repr) Blake2b 0 ∅).
Local Abbreviation ths_rel := (ths_rel Blake2b 0 ∅).
Implicit Types (s : CS) (w c n : NState) (b : FullBlock) (bs : list FullBlock) (cb : CheckedBlock).
Hypothesis Blake2b_length : forall x, length (Blake2b x) = 32%nat.
Hypothesis Blake2b_nonzero : forall x, Blake2b x <> ZERO_HASH.

(** What the database can store. *)
Hypothesis db_location : forall l, location_ok l -> db_wf (ELocation l).
Hypothesis db_spent : forall l, length l < 2 ^ 16 ->
  Forall (fun o => length (so_commitment o) = 33%nat /\ location_ok (so_location o)) l -> db_wf (ESpent l).
Hypothesis db_sums : forall sums, is_commitment (bs_outputSum sums) -> is_commitment (bs_kernelSum sums) -> db_wf (ESums sums).

(** The genesis block's header, and the state it leaves. *)
Context (g : BlockHeader) (x0 : TState * Positions).

(** The headers and blocks that are offered. *)
Context (known : BlockHeader -> Prop) (K : list FullBlock).

(** The format of a block, and what has to be assumed of all that are offered:
    that a hash belongs to one block, that headers count what their blocks add,
    and that the MMRs have room. *)
Record offered_block b : Prop := {
  ob_known : known (fb_header b);
  ob_inputs : Forall (fun i => length (ti_commitment i) = 33%nat) (tb_inputs (fb_body b)) /\ length (tb_inputs (fb_body b)) < 2 ^ 16;
  ob_outputs : Forall (TransactionOutput_wf V1) (tb_outputs (fb_body b));
  ob_kernels : Forall (kernel_wf (wf := TransactionKernel_wf)) (tb_kernels (fb_body b));
  ob_body : body_wf (fb_body b);
  ob_offset : length (bh_totalKernelOffset (fb_header b)) = 32%nat;
  ob_storable : db_wf (EBlock b);
  ob_counts : forall p (nk no : nat), known p -> FullBlock_GetPreviousHash b = BlockHeader_GetHash p ->
    bh_kernelMMRSize p = mmr_size nk -> bh_outputMMRSize p = mmr_size no ->
    bh_kernelMMRSize (fb_header b) = mmr_size (nk + length (tb_kernels (fb_body b)))%nat /\
    bh_outputMMRSize (fb_header b) = mmr_size (no + length (tb_outputs (fb_body b)))%nat;
}.

Record offered_blocks : Prop := {
  obs_block : forall b, b ∈ K -> offered_block b;
  obs_inj : forall b b', b ∈ K -> b' ∈ K -> FullBlock_GetHash b = FullBlock_GetHash b' -> b = b';
  obs_room : n_ok (length (ts_outputs x0.1) + outputs_in K)%nat /\ (length (ts_kernels x0.1) + kernels_in K)%nat < 2 ^ 32;
}.

(** The state the genesis block leaves. *)
Record genesis_ok : Prop := {
  ge_height : bh_height g = 0;
  ge_known : known g;
  ge_header : ts_header x0.1 = Some g;
  ge_chain : chain_ok x0;
  ge_sizes : header_sizes g x0.1;
}.

Hypothesis Hof : offered (db_wf := db_wf) known.
Hypothesis Hob : offered_blocks.
Hypothesis Hge : genesis_ok.

#[local] Set Default Proof Using "All".

(** ** The invariant *)

(** The header below a block, in a history. *)
Definition tip_of bs : BlockHeader := match bs with [] => g | b :: _ => fb_header b end.
Definition confirmed_of bs : list Hash := BlockHeader_GetHash g :: rev (map FullBlock_GetHash bs).

(** Hash set and tables have the blocks [bs], the last one first. *)
Record chain_inv n bs (y : TState * Positions) : Prop := {
  ci_history : history env (n_tables n) x0 bs y;
  ci_txs : n_txs n = Some y.1;
  ci_positions : t_positions (n_tables n) = y.2;
  ci_sums : exists o k : G, sums_chain (n_tables n) (BlockHeader_GetHash g) bs o k;
  ci_blocks : Forall (fun b => b ∈ K /\ self_consistent Blake2b env b /\ t_headers (n_tables n) !! FullBlock_GetHash b = Some (fb_header b)) bs;
  ci_genesis : t_headers (n_tables n) !! BlockHeader_GetHash g = Some g;
  ci_stored : forall k b, t_blocks (n_tables n) !! k = Some b -> k = FullBlock_GetHash b /\ b ∈ K;
}.

Definition blocks_ok n : Prop := exists bs y, chain_inv n bs y /\ n_confirmed n = confirmed_of bs.

(** A block that is offered; the mark of one that was validated is right. *)
Definition checked_ok cb : Prop := cbk_block cb ∈ K /\ (cbk_validated cb = true -> self_consistent Blake2b env (cbk_block cb)).

(** The blocks in the orphan pool, and the cache. *)
Definition pools_ok (pool : TransactionPool) (orphans : gmap Z (list CheckedBlock)) (cache : L) : Prop :=
  (forall height, Forall checked_ok (default [] (orphans !! height))) /\ cache_wf cache.

Local Abbreviation headers_ok := (headers_ok Blake2b env pow_fuel known g).
Local Abbreviation shared_ok := (orphans_known (F := F) (R := R) (B := B) known pools_ok).

(** ** Facts on histories *)
Lemma tip_known n bs y : chain_inv n bs y -> known (tip_of bs) /\ t_headers (n_tables n) !! BlockHeader_GetHash (tip_of bs) = Some (tip_of bs).
Proof.
  intros Hc. destruct bs as [|b bs]; [split; [apply Hge|apply Hc]|]. pose proof (ci_blocks _ _ _ Hc) as Hb. apply Forall_cons in Hb as [(Hb & _ & Ht) _].
  split; [by apply (ob_known _ (obs_block Hob _ Hb))|done].
Qed.

Lemma tip_header n bs y : chain_inv n bs y -> ts_header y.1 = Some (tip_of bs) /\ bh_height (tip_of bs) = length bs.
Proof.
  intros Hc. destruct (history_header _ _ _ _ _ _ (ci_history _ _ _ Hc) (ge_header Hge)) as (h & Eh & Hh & ->).
  split; [by destruct bs|]. rewrite (ge_height Hge) in Hh. destruct bs; cbn in *; lia.
Qed.

Lemma inv_heights n bs y (i : nat) b : chain_inv n bs y -> bs !! i = Some b -> FullBlock_GetHeight b + i = length bs.
Proof.
  intros Hc Hi. pose proof (history_heights _ _ _ _ _ _ _ _ (ci_history _ _ _ Hc) (ge_header Hge) Hi) as H. by rewrite (ge_height Hge) in H.
Qed.

Lemma inv_height n bs y b : chain_inv n bs y -> b ∈ bs -> 0 < FullBlock_GetHeight b <= length bs.
Proof.
  intros Hc Hb. apply list_elem_of_lookup in Hb as [i Hi]. pose proof (inv_heights _ _ _ _ _ Hc Hi). apply lookup_lt_Some in Hi. lia.
Qed.

Lemma inv_K n bs y b : chain_inv n bs y -> b ∈ bs -> b ∈ K.
Proof. intros Hc Hb. pose proof (ci_blocks _ _ _ Hc) as Hf. rewrite Forall_forall in Hf. by destruct (Hf _ Hb). Qed.

(** Blocks of different heights have different hashes. *)
Lemma hash_height b b' : b ∈ K -> b' ∈ K -> FullBlock_GetHash b = FullBlock_GetHash b' -> FullBlock_GetHeight b = FullBlock_GetHeight b'.
Proof. intros Hb Hb' E. by rewrite (obs_inj Hob _ _ Hb Hb' E). Qed.

Lemma hash_genesis b : b ∈ K -> FullBlock_GetHash b = BlockHeader_GetHash g -> FullBlock_GetHeight b = 0.
Proof.
  intros Hb E. unfold FullBlock_GetHeight. rewrite (of_inj _ Hof _ _ (ob_known _ (obs_block Hob _ Hb)) (ge_known Hge) E). apply Hge.
Qed.

Lemma inv_NoDup n bs y : chain_inv n bs y -> NoDup bs.
Proof.
  intros Hc. apply NoDup_alt. intros i j b Hi Hj. pose proof (inv_heights _ _ _ _ _ Hc Hi). pose proof (inv_heights _ _ _ _ _ Hc Hj). lia.
Qed.

Lemma sum_list_with_le {A} (f : A -> nat) (l k : list A) : NoDup l -> (forall x, x ∈ l -> x ∈ k) -> (sum_list_with f l <= sum_list_with f k)%nat.
Proof.
  intros Hl Hs. destruct (submseteq_Permutation l k) as [m E]; [by apply NoDup_submseteq|]. rewrite E, sum_list_with_app. lia.
Qed.

(** Room for one more block. *)
Lemma inv_block_ok n bs y b : chain_inv n bs y -> b ∈ K -> b ∉ bs -> block_ok y.1 b.
Proof.
  intros Hc Hb Hnew. pose proof (obs_block Hob _ Hb) as [Hk [Hi Hin] Ho Hkk Hbw Hoff Hst Hcnt].
  destruct (history_counts _ _ _ _ _ (ci_history _ _ _ Hc)) as [Ek Eo].
  assert (NoDup (b :: bs)) as Hnd by (constructor; [done|by eapply inv_NoDup]).
  assert (forall x, x ∈ b :: bs -> x ∈ K) as Hsub by (intros x [->|Hx]%elem_of_cons; [done|by eapply inv_K]).
  pose proof (sum_list_with_le (fun b => length (tb_kernels (fb_body b))) _ _ Hnd Hsub) as Sk.
  pose proof (sum_list_with_le (fun b => length (tb_outputs (fb_body b))) _ _ Hnd Hsub) as So. cbn [sum_list_with] in Sk, So.
  destruct (obs_room Hob) as [Ro Rk]. unfold kernels_in, outputs_in in *.
  constructor; [done|done|done| |done| |].
  - eapply n_ok_mono; [|exact Ro]. lia.
  - lia.
  - destruct (of_storable _ Hof _ Hk) as (_ & _ & _ & Hh). unfold FullBlock_GetHeight. lia.
Qed.

(** The sizes that the headers state. *)
Lemma inv_sizes n bs y : chain_inv n bs y -> header_sizes (tip_of bs) y.1.
Proof.
  intros Hc. destruct Hc as [Hh _ _ _ Hb _ _]. induction Hh as [|bs y b z spent previous Hh IH E Hd Hcut Hn Hhb Hp Hpb Hph]; [apply Hge|].
  apply Forall_cons in Hb as [(Hb & _ & _) Hbs]. specialize (IH Hbs) as [Hk Ho].
  destruct (history_header _ _ _ _ _ _ Hh (ge_header Hge)) as (h & Eh & _ & Et). rewrite Hp in Eh. injection Eh as <-.
  assert (previous = tip_of bs) as -> by (by destruct bs).
  assert (known (tip_of bs)) as Hkt.
  { destruct bs as [|b' bs]; [apply Hge|]. apply Forall_cons in Hbs as [(Hb' & _ & _) _]. by apply (ob_known _ (obs_block Hob _ Hb')). }
  destruct (block_spec_data _ _ _ _ _ E) as (Ek & Eo & _).
  destruct (ob_counts _ (obs_block Hob _ Hb) _ _ _ Hkt Hpb Hk Ho) as [Hsk Hso]. split; cbn [tip_of].
  - by rewrite Hsk, Ek, length_app.
  - by rewrite Hso, Eo, length_app, length_map.
Qed.

(** ** Steps *)
Lemma node_rel_shared w c s s' : node_rel w c s -> m_pChainStore s' = m_pChainStore s -> m_pBlockDB s' = m_pBlockDB s ->
  m_pHeaderMMR s' = m_pHeaderMMR s -> m_pTxHashSet s' = m_pTxHashSet s -> node_rel w c s'.
Proof. intros [? ? ? ?] E1 E2 E3 E4. constructor; by rewrite ?E1, ?E2, ?E3, ?E4. Qed.

Lemma node_txs w c s a : node_rel w c s -> n_txs w = Some a -> exists t a', m_pTxHashSet s = Some t /\ n_txs c = Some a' /\ ths_rel a a' t.
Proof.
  intros [_ _ _ Ht] E. unfold txs_rel in Ht. rewrite E in Ht. destruct (m_pTxHashSet s) as [t|], (n_txs c) as [a'|]; try done. by exists t, a'.
Qed.

Lemma in_txs_rel {A} (m : ST (TxHashSet F R * B) A) w c s t a' r t' db' a tb :
  node_rel w c s -> m_pTxHashSet s = Some t -> n_txs c = Some a' -> m (t, m_pBlockDB s) = (r, (t', db')) -> ths_rel a a' t' -> db_repr tb (n_tables c) db' ->
  exists s', in_txs m s = (r, s') /\ node_rel (n_set_txs (Some a) (n_set_tables tb w)) c s' /\ shared s' = shared s.
Proof.
  intros [Hs Hd Hm Ht] Et Ec E Ha Htb. eexists. split; [unfold in_txs; rewrite Et, E; reflexivity|]. split; [|done].
  constructor; cbn; [done|done|done|by rewrite Ec].
Qed.

Lemma txs_read_run {A} (f : B -> TxHashSet F R -> result A) s t : m_pTxHashSet s = Some t -> txs_read f s = (f (m_pBlockDB s) t, s).
Proof. intros E. unfold txs_read. erewrite st_bind_ok by reflexivity. by rewrite E. Qed.

(** Applying a block to the hash set. *)
Lemma ApplyBlock_checked_ok w c s bs y cb :
  node_rel w c s -> chain_inv w bs y -> checked_ok cb -> cbk_block cb ∉ bs -> shared_ok s ->
  exists r w' s', ApplyBlock_checked Blake2b env cb s = (r, s') /\ node_rel w' c s' /\ shared s' = shared s /\
    (r = Ok tt -> exists z spent, block_spec env (cbk_block cb) y = Ok (Some (z, spent)) /\
       w' = n_set_txs (Some z.1) (n_set_tables (set_positions_table z.2 (set_spent (<[FullBlock_GetHash (cbk_block cb) := spent]> (t_spent (n_tables w))) (n_tables w))) w)).
Proof.
  intros Hn Hc [Hb _] Hnew Ho. set (b := cbk_block cb) in *. destruct (node_txs _ _ _ _ Hn (ci_txs _ _ _ Hc)) as (t & a' & Et & Ec & Ht).
  pose proof (history_chain _ _ _ _ _ (ge_chain Hge) (ci_history _ _ _ Hc)) as Hy.
  unfold ApplyBlock_checked. erewrite st_bind_ok by reflexivity. rewrite Et. fold b.
  assert (pos_locs (t_positions (n_tables w))) as Hpos by (rewrite (ci_positions _ _ _ Hc); by apply co_locs).
  pose proof (ApplyBlock_ok Blake2b env Blake2b_length Blake2b_nonzero db_location db_spent 0 ∅ y.1 a' t (n_tables w) (n_tables c) (m_pBlockDB s) b
    Ht (nr_db _ _ _ _ _ _ Hn) Hpos (inv_block_ok _ _ _ _ Hc Hb Hnew)) as Ha.
  rewrite (ci_positions _ _ _ Hc) in Ha. rewrite <- surjective_pairing in Ha.
  destruct (block_spec env b y) as [[[[z1 z2] spent]|]|e] eqn:Eb.
  - destruct Ha as (t' & db' & E & Ht' & Hd'). destruct (in_txs_rel _ _ _ _ _ _ _ _ _ _ _ Hn Et Ec E Ht' Hd') as (s' & Es & Hn' & Hsh).
    eexists (Ok tt), _, s'. split; [by erewrite st_bind_ok by exact Es|]. split; [exact Hn'|]. split; [done|]. intros _. by exists (z1, z2), spent.
  - destruct Ha as (z & t' & tb' & db' & E & Ht' & Hd'). destruct (in_txs_rel _ _ _ _ _ _ _ _ _ _ _ Hn Et Ec E Ht' Hd') as (s' & Es & Hn' & Hsh).
    eexists (Throw BadDataException), _, s'. split; [by erewrite st_bind_ok by exact Es|]. split; [exact Hn'|]. by split.
  - destruct Ha as (z & t' & E & Ht'). destruct (in_txs_rel _ _ _ _ _ _ _ _ _ _ _ Hn Et Ec E Ht' (nr_db _ _ _ _ _ _ Hn)) as (s' & Es & Hn' & Hsh).
    eexists (Throw e), _, s'. split; [by apply st_bind_throw|]. split; [exact Hn'|]. by split.
Qed.

Lemma in_cache_VerifySelfConsistent w c s cb : node_rel w c s -> checked_ok cb -> shared_ok s ->
  exists r s', in_cache (VerifySelfConsistent Blake2b env cb) s = (r, s') /\ node_rel w c s' /\ shared_ok s' /\ m_pTxHashSet s' = m_pTxHashSet s /\
    (forall cb', r = Ok cb' -> cb' = mkCheckedBlock (cbk_block cb) true /\ self_consistent Blake2b env (cbk_block cb)).
Proof.
  intros Hn [Hb Hv] (Ho & Hpo & Hw). destruct (VerifySelfConsistent Blake2b env cb (m_bulletproofsCache s)) as [r cache'] eqn:E.
  exists r, (cs_set_cache cache' s). split; [by apply st_zoom_run|].
  pose proof (VerifySelfConsistent_keeps Blake2b env cb _ Hw) as Hw'. rewrite E in Hw'. cbn in Hw'.
  split; [by apply (node_rel_shared _ _ s)|]. split; [done|]. split; [done|]. intros cb' ->.
  destruct (VerifySelfConsistent_ok Blake2b env cb _ _ _ Hw (ob_body _ (obs_block Hob _ Hb)) E) as (_ & -> & Hsc). split; [done|].
  destruct (cbk_validated cb); [by apply Hv|by apply Hsc].
Qed.

(** The tables with a new block. *)
Definition add_block_tables b (spent : list SpentOutput) (positions : Positions) (sums : BlockSums) (tb : DBTables) : DBTables :=
  set_blocks (<[FullBlock_GetHash b := b]> (t_blocks tb)) (set_sums (<[FullBlock_GetHash b := sums]> (t_sums tb))
    (set_positions_table positions (set_spent (<[FullBlock_GetHash b := spent]> (t_spent tb)) tb))).

Lemma chain_inv_cons w bs y b z spent sums o1 k1 o k i oo kk :
  chain_inv w bs y -> b ∈ K -> b ∉ bs -> block_spec env b y = Ok (Some (z, spent)) -> self_consistent Blake2b env b ->
  FullBlock_GetPreviousHash b = BlockHeader_GetHash (tip_of bs) -> FullBlock_GetHeight b = bh_height (tip_of bs) + 1 ->
  t_headers (n_tables w) !! FullBlock_GetHash b = Some (fb_header b) ->
  sums_of (G := G) sums o1 k1 -> sums_chain (n_tables w) (BlockHeader_GetHash g) bs o k ->
  csum (block_inputs b) = Some i -> csum (block_outputs b) = Some oo -> csum (block_kernels b) = Some kk ->
  gadd o1 i = gadd (gadd oo o) (value BLOCK_OVERAGE) -> k1 = gadd kk k -> o1 = gadd k1 (blind (bh_totalKernelOffset (fb_header b))) ->
  chain_inv (n_set_txs (Some z.1) (n_set_tables (add_block_tables b spent z.2 sums (n_tables w)) w)) (b :: bs) z.
Proof.
  intros Hc Hb Hnew Eb Hsc Hprev Hheight Hhd Hsums Hch Ei Eo Ek Heq Hk1 Ho1.
  assert (forall b', b' ∈ bs -> FullBlock_GetHash b' <> FullBlock_GetHash b) as Hne.
  { intros b' Hb' E. apply Hnew. by rewrite <- (obs_inj Hob _ _ (inv_K _ _ _ _ Hc Hb') Hb E). }
  destruct (tip_known _ _ _ Hc) as [_ Htt]. destruct (tip_header _ _ _ Hc) as [Hth Htn].
  assert (FullBlock_GetHash b <> BlockHeader_GetHash g) as Hng by (intros E; pose proof (hash_genesis _ Hb E); lia).
  pose proof (inv_block_ok _ _ _ _ Hc Hb Hnew) as Hok.
  constructor; cbn [n_set_txs n_set_tables n_tables n_txs add_block_tables set_blocks set_sums set_positions_table set_spent t_headers t_blocks t_sums t_positions t_spent].
  - apply (history_cons env _ x0 bs y b z spent (tip_of bs)); try done.
    + apply (history_tables env (n_tables w)); [apply Hc|done|]. intros b' Hb'. cbn. pose proof (Hne _ Hb').
      rewrite !lookup_insert_ne by congruence. split; [|done].
      eapply history_stored; [by apply Hc|done].
    + by eapply block_spec_distinct.
    + apply VerifyCutThrough_cut_through, Hsc.
    + apply Hok.
    + apply Hok.
    + cbn. by rewrite lookup_insert_eq.
    + cbn. by rewrite lookup_insert_eq.
  - done.
  - done.
  - exists o1, k1, sums, o, k, i, oo, kk. cbn. rewrite lookup_insert_eq. split; [done|]. split; [done|]. split; [|done].
    apply (sums_chain_tables (n_tables w)); [done|by cbn; rewrite lookup_insert_ne|]. intros b' Hb'. cbn. by rewrite lookup_insert_ne by (by apply not_eq_sym, Hne).
  - constructor; [done|]. apply Hc.
  - apply Hc.
  - intros k' b' [[<- <-]|[_ Hk']]%lookup_insert_Some; [done|by apply (ci_stored _ _ _ Hc)].
Qed.

Lemma shared_ok_shared s s' : shared s' = shared s -> shared_ok s -> shared_ok s'.
Proof. exact (orphans_known_shared (db_wf := db_wf) Blake2b env pow_fuel 0 ∅ Blake2b_length Blake2b_nonzero known Hof g pools_ok s s'). Qed.

Lemma RemoveOrphan_shared_ok height hash s : shared_ok s -> shared_ok (cs_set_orphans (RemoveOrphan height hash (m_pOrphanPool s)) s).
Proof.
  intros (Ho & Hp & Hw). split; [|split; [|done]].
  - intros k h. unfold GetOrphanHeader, RemoveOrphan. cbn. destruct (m_orphansByHeight (m_pOrphanPool s) !! height); apply Ho.
  - apply (RemoveOrphan_all checked_ok height hash (m_pOrphanPool s)). exact Hp.
Qed.

(** What a block must be to be added on top of [bs]. *)
Record fits n bs b : Prop := {
  ft_new : b ∉ bs;
  ft_previous : FullBlock_GetPreviousHash b = BlockHeader_GetHash (tip_of bs);
  ft_height : FullBlock_GetHeight b = bh_height (tip_of bs) + 1;
  ft_header : t_headers (n_tables n) !! FullBlock_GetHash b = Some (fb_header b);
}.

(** The state with a block more. *)
Record extends w bs b w' : Prop := {
  ex_inv : exists z, chain_inv w' (b :: bs) z;
  ex_confirmed : n_confirmed w' = n_confirmed w;
  ex_candidate : n_candidate w' = n_candidate w;
  ex_headers : t_headers (n_tables w') = t_headers (n_tables w);
}.

(** The last steps: the block and its sums are stored, the pools follow. *)
Lemma store_block_ok w c s b (sums : BlockSums) a tb : node_rel (n_set_txs (Some a) (n_set_tables tb w)) c s -> shared_ok s -> offered_block b ->
  is_commitment (bs_outputSum sums) -> is_commitment (bs_kernelSum sums) ->
  exists r s', (_ ← in_db (db_AddBlockSums (FullBlock_GetHash b) sums);
    _ ← in_db (db_AddBlock b);
    _ ← in_orphans (RemoveOrphan (FullBlock_GetHeight b) (FullBlock_GetHash b));
    s ← st_get;
    txs ← st_lift (of_option UB (m_pTxHashSet s));
    in_pool (ReconcileBlock Blake2b env (m_pBlockDB s) txs b)) s = (r, s') /\
    node_rel (n_set_txs (Some a) (n_set_tables (set_blocks (<[FullBlock_GetHash b := b]> (t_blocks tb)) (set_sums (<[FullBlock_GetHash b := sums]> (t_sums tb)) tb)) w)) c s' /\
    shared_ok s'.
Proof.
  intros Hn Ho Hb Hs1 Hs2. unfold in_db. rewrite (st_bind_ok (st_modify _)) with (1 := eq_refl). rewrite (st_bind_ok (st_modify _)) with (1 := eq_refl).
  unfold in_orphans. rewrite (st_bind_ok (st_modify _)) with (1 := eq_refl). rewrite (st_bind_ok st_get) with (1 := eq_refl).
  set (s1 := cs_set_orphans _ _). pose proof (RemoveOrphan_shared_ok (FullBlock_GetHeight b) (FullBlock_GetHash b) _ Ho) as Ho1.
  assert (node_rel (n_set_txs (Some a) (n_set_tables (set_blocks (<[FullBlock_GetHash b := b]> (t_blocks tb)) (set_sums (<[FullBlock_GetHash b := sums]> (t_sums tb)) tb)) w)) c s1) as Hn1.
  { destruct Hn as [Hst Hd Hm Ht]. constructor; [exact Hst| |exact Hm|exact Ht]. apply (db_add_block (set_sums (<[FullBlock_GetHash b := sums]> (t_sums tb)) tb) _ _ b); [|by apply Hb]. apply db_add_sums; [exact Hd|by apply db_sums]. }
  destruct (node_txs _ _ _ a Hn1 eq_refl) as (t & a' & Et & _). rewrite Et. cbn [of_option]. rewrite (st_lift_ok _ _ _ _ eq_refl).
  destruct Ho1 as (Ho1 & Hp1 & Hw1).
  pose proof (ReconcileBlock_keeps Blake2b env (m_pBlockDB s1) t b (m_pTransactionPool s1, m_bulletproofsCache s1) Hw1) as Hk.
  destruct (ReconcileBlock Blake2b env (m_pBlockDB s1) t b (m_pTransactionPool s1, m_bulletproofsCache s1)) as [r x] eqn:E.
  eexists r, _. split; [unfold in_pool; apply st_zoom_run; exact E|]. split; [by apply (node_rel_shared _ _ s1)|]. done.
Qed.

Lemma ValidateAndAddBlock_ok w c s bs y cb :
  node_rel w c s -> chain_inv w bs y -> checked_ok cb -> shared_ok s -> fits w bs (cbk_block cb) ->
  exists r w' s', ValidateAndAddBlock Blake2b env cb s = (r, s') /\ node_rel w' c s' /\ shared_ok s' /\ (r = Ok tt -> extends w bs (cbk_block cb) w').
Proof.
  intros Hn Hc Hcb Ho [Hnew Hprev Hheight Hhd]. unfold ValidateAndAddBlock. set (b := cbk_block cb) in *.
  destruct (tip_known _ _ _ Hc) as [_ Htt]. erewrite st_bind_ok by reflexivity.
  rewrite (node_header (db_wf := db_wf) Blake2b 0 ∅ Blake2b_length Blake2b_nonzero w c s _ Hn), Hprev, Htt. cbn [of_option]. rewrite (st_lift_ok _ _ _ _ eq_refl).
  destruct (ApplyBlock_checked_ok w c s bs y cb Hn Hc Hcb Hnew Ho) as (r1 & w1 & s1 & E1 & Hn1 & Hsh1 & Hw1).
  pose proof (shared_ok_shared _ _ Hsh1 Ho) as Ho1. destruct r1 as [[]|e]; [|exists (Throw e), w1, s1; by split; [apply st_bind_throw|]].
  erewrite st_bind_ok by exact E1. destruct (Hw1 eq_refl) as (z & spent & Eb & Ew1). clear Hw1.
  destruct (node_txs w1 c s1 z.1 Hn1) as (t1 & a1 & Et1 & _ & _); [by rewrite Ew1|].
  (* NRD rules *)
  pose proof (txs_read_run (fun db txs => ValidateNRDKernelRules db b txs) _ _ Et1) as En. cbv beta in En.
  destruct (ValidateNRDKernelRules (m_pBlockDB s1) b t1) as [nrd|e]; [|exists (Throw e), w1, s1; by split; [apply st_bind_throw|]].
  erewrite st_bind_ok by exact En. destruct nrd; cbn [require]; [|by exists (Throw BadDataException), w1, s1]. rewrite (st_lift_ok _ _ _ _ eq_refl).
  (* the block itself *)
  destruct (in_cache_VerifySelfConsistent w1 c s1 cb Hn1 Hcb Ho1) as (r2 & s2 & E2 & Hn2 & Ho2 & Et2 & Hsc).
  destruct r2 as [cb'|e]; [|exists (Throw e), w1, s2; by split; [apply st_bind_throw|]]. erewrite st_bind_ok by exact E2.
  destruct (Hsc cb' eq_refl) as [_ Hself]. clear Hsc. rewrite Et1 in Et2.
  (* roots *)
  pose proof (txs_read_run (fun _ txs => ValidateRoots Blake2b (fb_header b) txs) _ _ Et2) as Er. cbv beta in Er.
  destruct (ValidateRoots Blake2b (fb_header b) t1) as [roots|e]; [|exists (Throw e), w1, s2; by split; [apply st_bind_throw|]].
  erewrite st_bind_ok by exact Er. destruct roots; cbn [require]; [|by exists (Throw BadDataException), w1, s2]. rewrite (st_lift_ok _ _ _ _ eq_refl).
  (* sums *)
  erewrite st_bind_ok by reflexivity. destruct (ci_sums _ _ _ Hc) as (o & k & Hch). destruct (sums_chain_top _ _ _ _ _ Hch) as (sums0 & Hs0 & Hsums0).
  destruct (node_read (db_wf := db_wf) Blake2b 0 ∅ Blake2b_length Blake2b_nonzero w1 c s2 (BlockHeader_GetHash (tip_of bs)) Hn2) as (_ & _ & Hread).
  assert (db_GetBlockSums (BlockHeader_GetHash (tip_of bs)) (m_pBlockDB s2) = Some sums0) as Hread' by (rewrite Hread, Ew1; by destruct bs).
  rewrite Hread'. cbn [of_option]. rewrite (st_lift_ok _ _ _ _ eq_refl).
  destruct (ValidateKernelSums (fb_body b) BLOCK_OVERAGE (bh_totalKernelOffset (fb_header b)) (Some sums0)) as [sums|e] eqn:Ek;
    [|exists (Throw e), w1, s2; by split; [apply st_bind_throw|]]. rewrite (st_lift_ok _ _ _ _ eq_refl).
  pose proof (obs_block Hob b (proj1 Hcb)) as Hobb. pose proof (ob_body _ Hobb) as Hbw. unfold ValidateKernelSums in Ek.
  destruct (ValidateKernelSums_of_ok _ _ _ _ _ (Some sums0) o k _ (bw_inputs _ Hbw) (bw_outputs _ Hbw) (bw_kernels _ Hbw) (ob_offset _ Hobb) Hsums0 Ek)
    as (i & oo & kk & o1 & k1 & Ei & Eo & Ekk & Hsums & Heq & Hk1 & Ho1').
  assert (node_rel (n_set_txs (Some z.1) (n_set_tables (set_positions_table z.2 (set_spent (<[FullBlock_GetHash b := spent]> (t_spent (n_tables w))) (n_tables w))) w)) c s2) as Hn2'
    by (rewrite Ew1 in Hn2; exact Hn2).
  destruct (store_block_ok w c s2 b sums z.1 _ Hn2' Ho2 Hobb ltac:(apply Hsums) ltac:(apply Hsums)) as (r & s3 & E3 & Hn3 & Ho3).
  eexists r, _, s3. split; [exact E3|]. split; [exact Hn3|]. split; [done|]. intros _.
  constructor; [|done|done|done]. exists z.
  exact (chain_inv_cons w bs y b z spent sums o1 k1 o k i oo kk Hc (proj1 Hcb) Hnew Eb Hself Hprev Hheight Hhd Hsums Hch Ei Eo Ekk Heq Hk1 Ho1').
Qed.

(** ** A fork of blocks *)
Definition cb_header cb : BlockHeader := fb_header (cbk_block cb).

(** Blocks whose headers are validated ones other than the genesis header. *)
Definition fork_block n cb : Prop :=
  checked_ok cb /\ t_headers (n_tables n) !! cbk_hash cb = Some (cb_header cb) /\ cb_header cb <> g.

(** The header of such a block goes on from the previous one. *)
Lemma fork_block_child n cb p : headers_ok n -> fork_block n cb -> t_headers (n_tables n) !! cbk_previous cb = Some p ->
  cbk_height cb = bh_height p + 1 /\ (env = AUTOMATED_TESTING \/ bh_totalDifficulty p < cbk_difficulty cb).
Proof.
  intros Hn (_ & Ht & Hg) Hp. destruct (ho_parent _ _ _ _ _ _ Hn _ _ Ht) as [|(p' & Hp' & Hh & Hd)]; [done|].
  change (t_headers (n_tables n) !! cbk_previous cb = Some p') in Hp'. rewrite Hp in Hp'. injection Hp' as <-. done.
Qed.

Lemma fork_block_parent n cb : headers_ok n -> fork_block n cb -> exists p, t_headers (n_tables n) !! cbk_previous cb = Some p /\ BlockHeader_GetHash p = cbk_previous cb /\ known p.
Proof.
  intros Hn (_ & Ht & Hg). destruct (ho_parent _ _ _ _ _ _ Hn _ _ Ht) as [|(p & Hp & _)]; [done|]. exists p.
  destruct (ho_tables _ _ _ _ _ _ Hn _ _ Hp) as [E Hk]. done.
Qed.

Lemma fork_block_fits n w bs y cb : headers_ok n -> t_headers (n_tables w) = t_headers (n_tables n) -> chain_inv w bs y -> fork_block n cb ->
  cbk_previous cb = BlockHeader_GetHash (tip_of bs) -> fits w bs (cbk_block cb).
Proof.
  intros Hn Et Hc Hf Hprev. destruct (tip_known _ _ _ Hc) as [_ Htt]. destruct (tip_header _ _ _ Hc) as [_ Hlen]. rewrite Et, <- Hprev in Htt.
  destruct (fork_block_child _ _ _ Hn Hf Htt) as [Hh _]. constructor; [|done|done|rewrite Et; apply Hf].
  intros Hin. pose proof (inv_height _ _ _ _ Hc Hin) as Hb. unfold cbk_height in Hh. lia.
Qed.

Lemma validate_blocks_ok n c : headers_ok n -> forall cbs w s bs y,
  node_rel w c s -> chain_inv w bs y -> shared_ok s -> t_headers (n_tables w) = t_headers (n_tables n) ->
  Forall (fork_block n) cbs -> linked (tip_of bs) (map cb_header cbs) ->
  exists r w' s', validate_blocks Blake2b env cbs s = (r, s') /\ node_rel w' c s' /\ shared_ok s' /\
    (r = Ok tt -> (exists z, chain_inv w' (rev (map cbk_block cbs) ++ bs) z) /\ n_confirmed w' = n_confirmed w /\ n_candidate w' = n_candidate w /\
       t_headers (n_tables w') = t_headers (n_tables n)).
Proof.
  intros Hn cbs. induction cbs as [|cb cbs IH]; intros w s bs y Hr Hc Ho Et Hf Hl; cbn [validate_blocks].
  - exists (Ok tt), w, s. split; [done|]. split; [done|]. split; [done|]. intros _. split; [by exists y|done].
  - apply Forall_cons in Hf as [Hcb Hf]. destruct Hl as [Hprev Hl].
    destruct (ValidateAndAddBlock_ok w c s bs y cb Hr Hc ltac:(apply Hcb) Ho (fork_block_fits _ _ _ _ _ Hn Et Hc Hcb Hprev)) as (r & w1 & s1 & E1 & Hr1 & Ho1 & Hx).
    destruct r as [[]|e]; [|exists (Throw e), w1, s1; by split; [apply st_bind_throw|]]. erewrite st_bind_ok by exact E1.
    destruct (Hx eq_refl) as [[z Hz] Hconf Hcand Hhead]. clear Hx. rewrite Et in Hhead.
    destruct (IH w1 s1 (cbk_block cb :: bs) z Hr1 Hz Ho1 Hhead Hf Hl) as (r & w2 & s2 & E2 & Hr2 & Ho2 & Hx).
    exists r, w2, s2. split; [done|]. split; [done|]. split; [done|]. intros Er. destruct (Hx Er) as (Hz2 & Hc2 & Hcd2 & Hh2).
    cbn [map rev]. rewrite <- app_assoc. split; [done|]. split; [congruence|]. split; [congruence|done].
Qed.

(** The confirmed chain below a height. *)
Lemma confirmed_split bs (i : nat) x : confirmed_of bs !! i = Some x ->
  exists bs1 bs2, bs = bs1 ++ bs2 /\ length bs2 = i /\ BlockHeader_GetHash (tip_of bs2) = x.
Proof.
  unfold confirmed_of. destruct i as [|i].
  - intros [= <-]. exists bs, []. by rewrite app_nil_r.
  - intros Hx. change (rev (map FullBlock_GetHash bs) !! i = Some x) in Hx. rewrite <- map_rev in Hx. change ((FullBlock_GetHash <$> rev bs) !! i = Some x) in Hx.
    rewrite list_lookup_fmap in Hx. destruct (rev bs !! i) as [b|] eqn:Eb; [|done]. injection Hx as <-.
    exists (rev (drop (S i) (rev bs))), (rev (take (S i) (rev bs))). rewrite <- rev_app_distr, take_drop, rev_involutive. split; [done|].
    pose proof (lookup_lt_Some _ _ _ Eb). rewrite length_rev, length_take. split; [lia|]. by rewrite (take_S_r _ _ _ Eb), rev_app_distr.
Qed.

Lemma confirmed_of_take bs1 bs2 : take (S (length bs2)) (confirmed_of (bs1 ++ bs2)) = confirmed_of bs2.
Proof.
  unfold confirmed_of. cbn [take]. f_equal. rewrite map_app, rev_app_distr. rewrite take_app_length'; [done|]. by rewrite length_rev, length_map.
Qed.

Lemma length_confirmed_of bs : length (confirmed_of bs) = S (length bs).
Proof. unfold confirmed_of. cbn [length]. by rewrite length_rev, length_map. Qed.

Lemma confirmed_of_snoc bs b : confirmed_of bs ++ [FullBlock_GetHash b] = confirmed_of (b :: bs).
Proof. done. Qed.

Lemma inv_length n bs y : chain_inv n bs y -> length bs < 2 ^ 32.
Proof.
  intros Hc. destruct (tip_header _ _ _ Hc) as [_ <-]. destruct (tip_known _ _ _ Hc) as [Hk _]. destruct (of_storable _ Hof _ Hk) as (_ & _ & _ & ?). lia.
Qed.

(** One turn of the loop from a block back to the confirmed chain. *)
Lemma fork_step n w c s bs y fuel cur acc : node_rel w c s -> headers_ok n -> t_headers (n_tables w) = t_headers (n_tables n) ->
  chain_inv w bs y -> n_confirmed w = confirmed_of bs -> shared_ok s -> fork_block n cur ->
  (fork_blocks (S fuel) cur acc s = Ok (REORG (rev acc)) /\ exists bs1 bs2, bs = bs1 ++ bs2 /\ cbk_previous cur = BlockHeader_GetHash (tip_of bs2)) \/
  fork_blocks (S fuel) cur acc s = Ok ORPHAN \/
  exists cb, fork_block n cb /\ cbk_previous cur = cbk_hash cb /\ cbk_height cur = cbk_height cb + 1 /\
    fork_blocks (S fuel) cur acc s = fork_blocks fuel cb (acc ++ [cb]) s.
Proof.
  intros Hr Hn Et Hc Ec Ho Hcur. cbn [fork_blocks].
  destruct (fork_block_parent _ _ Hn Hcur) as (p & Hp & Ep & Hkp). destruct (fork_block_child _ _ _ Hn Hcur Hp) as [Hh _].
  destruct (of_storable _ Hof _ Hkp) as (Hpl & _ & _ & Hph). rewrite Hh. rewrite (uint_small 64) by (unfold is_uint; lia).
  replace (bh_height p + 1 - 1) with (bh_height p) by lia.
  rewrite (IsOnChain_ok _ _ _ _ _ (node_confirmed (db_wf := db_wf) Blake2b 0 ∅ Blake2b_length Blake2b_nonzero _ _ _ Hr)) by (lia || by rewrite <- Ep).
  cbn [mbind result_bind]. case_bool_decide as Hon.
  - left. split; [done|]. rewrite Ec in Hon. destruct (confirmed_split _ _ _ Hon) as (bs1 & bs2 & Ebs & _ & Etip). by exists bs1, bs2.
  - right. assert (forall cb, checked_ok cb -> cbk_hash cb = cbk_previous cur ->
      exists cb', fork_block n cb' /\ cbk_previous cur = cbk_hash cb' /\ bh_height p + 1 = cbk_height cb' + 1 /\
        fork_blocks fuel cb (acc ++ [cb]) s = fork_blocks fuel cb' (acc ++ [cb']) s) as Hstep.
    { intros cb Hok Ehash. assert (cb_header cb = p) as Ecb by (apply (of_inj _ Hof); [by apply (ob_known _ (obs_block Hob _ (proj1 Hok)))|done|by etrans; [exact Ehash|]]).
      exists cb. split; [|split; [done|split; [unfold cbk_height, FullBlock_GetHeight; unfold cb_header in Ecb; by rewrite Ecb|done]]].
      split; [done|]. rewrite Ecb, Ehash. split; [done|]. intros ->. apply Hon. rewrite (ge_height Hge), Ec, <- Ep. done. }
    destruct (GetOrphanBlock _ _ _) as [o|] eqn:Eo; [|destruct (db_GetBlock _ _) as [b|] eqn:Eb; [|by left]]; right.
    + apply GetOrphanBlock_Some in Eo as [Hin Hhash]. destruct Ho as (_ & Hpo & _). specialize (Hpo (bh_height p)). rewrite Forall_forall in Hpo.
      apply (Hstep o (Hpo _ Hin)). unfold has_hash in Hhash. destruct (of_storable _ Hof _ (ob_known _ (obs_block Hob _ (proj1 (Hpo _ Hin))))) as (Hol & _).
      rewrite BigInteger_eq_spec in Hhash by (rewrite <- Ep, Hpl; exact Hol). by apply bool_decide_eq_true in Hhash.
    + destruct (node_read (db_wf := db_wf) Blake2b 0 ∅ Blake2b_length Blake2b_nonzero w c s (cbk_previous cur) Hr) as (_ & Hread & _). rewrite Hread in Eb.
      destruct (ci_stored _ _ _ Hc _ _ Eb) as [Ek HK]. by apply (Hstep (mkCheckedBlock b false)).
Qed.

Lemma fork_blocks_ok n w c s bs y : node_rel w c s -> headers_ok n -> t_headers (n_tables w) = t_headers (n_tables n) ->
  chain_inv w bs y -> n_confirmed w = confirmed_of bs -> shared_ok s ->
  forall fuel cur rest r, fork_block n cur -> Forall (fork_block n) rest -> linked (cb_header cur) (map cb_header rest) ->
  fork_blocks fuel cur (rev (cur :: rest)) s = Ok r ->
  r = ORPHAN \/ exists cbs bs1 bs2, r = REORG cbs /\ bs = bs1 ++ bs2 /\ cbs <> [] /\ Forall (fork_block n) cbs /\ linked (tip_of bs2) (map cb_header cbs).
Proof.
  intros Hr Hn Et Hc Ec Ho fuel. induction fuel as [|fuel IH]; intros cur rest r Hcur Hrest Hl E; [done|].
  destruct (fork_step n w c s bs y fuel cur (rev (cur :: rest)) Hr Hn Et Hc Ec Ho Hcur) as [[E' (bs1 & bs2 & Ebs & Ht)]|[E'|(cb & Hcb & Hh & _ & E')]]; rewrite E' in E.
  - rewrite (rev_involutive (cur :: rest)) in E. injection E as <-. right. exists (cur :: rest), bs1, bs2.
    split; [done|]. split; [done|]. split; [done|]. split; [by constructor|]. by split.
  - injection E as <-. by left.
  - apply (IH cb (cur :: rest) r); [done|by constructor| |exact E]. by split.
Qed.

(** Heights fall on the way back, so that the loop ends. *)
Lemma fork_blocks_total n w c s bs y : node_rel w c s -> headers_ok n -> t_headers (n_tables w) = t_headers (n_tables n) ->
  chain_inv w bs y -> n_confirmed w = confirmed_of bs -> shared_ok s ->
  forall (fuel : nat) cur acc, fork_block n cur -> cbk_height cur < fuel -> exists r, fork_blocks fuel cur acc s = Ok r.
Proof.
  intros Hr Hn Et Hc Ec Ho fuel. induction fuel as [|fuel IH]; intros cur acc Hcur Hf.
  - destruct (of_storable _ Hof _ (ob_known _ (obs_block Hob _ (proj1 (proj1 Hcur))))) as (_ & _ & _ & Hh). unfold cbk_height, FullBlock_GetHeight in Hf. lia.
  - destruct (fork_step n w c s bs y fuel cur acc Hr Hn Et Hc Ec Ho Hcur) as [[E' _]|[E'|(cb & Hcb & _ & Hh & E')]]; rewrite E'; [by eexists..|].
    apply IH; [done|lia].
Qed.

(** ** Rewinding to the fork point *)
Lemma rewind_txs_ok c s bs1 bs2 y : node_rel c c s -> chain_inv c (bs1 ++ bs2) y -> exists x s',
  in_txs (TxHashSet_Rewind (tip_of bs2)) s = (Ok tt, s') /\ shared s' = shared s /\
  let w := n_set_txs (Some x.1) (n_set_tables (set_positions_table x.2 (n_tables c)) c) in node_rel w c s' /\ chain_inv w bs2 x.
Proof.
  intros Hr Hc. destruct (proj1 (history_app _ _ _ _ _ _) (ci_history _ _ _ Hc)) as (x & Hx & Hy).
  assert (chain_inv (n_set_txs (Some x.1) (n_set_tables (set_positions_table x.2 (n_tables c)) c)) bs2 x) as Hinv.
  { destruct (ci_sums _ _ _ Hc) as (o & k & Hs). destruct (sums_chain_drop _ _ _ _ _ _ Hs) as (o' & k' & Hs').
    constructor; [|done|done| | |apply Hc|apply Hc].
    - apply (history_tables env (n_tables c)); [done|done|]. intros b Hb. cbn. split; [|done].
      exact (history_stored _ _ _ _ _ _ Hx Hb).
    - exists o', k'. by apply (sums_chain_tables (n_tables c)).
    - pose proof (ci_blocks _ _ _ Hc) as Hb. by apply Forall_app in Hb as [_ Hb]. }
  destruct (node_txs _ _ _ _ Hr (ci_txs _ _ _ Hc)) as (t & a' & Et & Ea' & Ht). rewrite (ci_txs _ _ _ Hc) in Ea'. injection Ea' as <-.
  destruct (tip_known _ _ _ Hinv) as [Hk _]. destruct (tip_header _ _ _ Hinv) as [Hh Hlen]. destruct (of_storable _ Hof _ Hk) as (Hl & _ & _ & Hht).
  assert (other_hashes (tip_of bs2) bs1) as Hoth.
  { split; [done|]. apply Forall_forall. intros b Hb. assert (b ∈ K) as HbK by (eapply inv_K; [exact Hc|]; apply elem_of_app; by left).
    pose proof (ob_known _ (obs_block Hob _ HbK)) as Hkb. split; [by apply (of_storable _ Hof _ Hkb)|]. intros E.
    apply list_elem_of_lookup in Hb as [i Hi]. pose proof (lookup_lt_Some _ _ _ Hi) as Hlt.
    pose proof (inv_heights _ _ _ i b Hc ltac:(by apply lookup_app_l_Some)) as Hhb. rewrite length_app in Hhb.
    unfold FullBlock_GetHeight in Hhb. rewrite (of_inj _ Hof _ _ Hkb Hk E) in Hhb. lia. }
  assert (db_repr (set_positions_table y.2 (n_tables c)) (n_tables c) (m_pBlockDB s)) as Hd.
  { rewrite <- (ci_positions _ _ _ Hc). pose proof (nr_db _ _ _ _ _ _ Hr) as Hd. by destruct (n_tables c). }
  destruct (ths_Rewind_ok Blake2b env Blake2b_length Blake2b_nonzero db_location db_spent 0 ∅ x bs1 y y.1 t (n_tables c) (n_tables c) (m_pBlockDB s) (tip_of bs2)
    Hy (history_chain _ _ _ _ _ (ge_chain Hge) Hx) Hh ltac:(lia) Hoth (inv_sizes _ _ _ Hinv) ltac:(lia)) as (t' & db' & E & Ht' & Hd'); [|done|done|].
  { intros j Hj. left. destruct (history_chain _ _ _ _ _ (ge_chain Hge) Hx) as [[_ Hw] _ _ _]. by apply Hw. }
  destruct (in_txs_rel _ _ _ _ _ _ _ _ _ _ _ Hr Et (ci_txs _ _ _ Hc) E Ht' Hd') as (s' & Es & Hn' & Hsh). by exists x, s'.
Qed.

(** ** The confirmed chain *)
Lemma node_set_confirmed w c s hs ch : node_rel w c s -> chain_rel hs (n_confirmed c) ch ->
  node_rel (n_set_confirmed hs w) c (cs_set_store (SetChain CONFIRMED ch (m_pChainStore s)) s).
Proof. intros [[Hs1 Hs2] Hd Hm Ht] Hch. by constructor. Qed.

Lemma node_confirm w c s bs0 b : node_rel w c s -> n_confirmed w = confirmed_of bs0 -> FullBlock_GetHeight b = S (length bs0) ->
  length (FullBlock_GetHash b) = 32%nat -> length bs0 < 2 ^ 33 -> length (n_confirmed c) < 2 ^ 33 ->
  exists i s', in_chain CONFIRMED (Chain_AddBlock (FullBlock_GetHash b) (FullBlock_GetHeight b)) s = (Ok i, s') /\
    node_rel (n_set_confirmed (confirmed_of (b :: bs0)) w) c s' /\ shared s' = shared s.
Proof.
  intros Hr Ec Hh Hl Hs1 Hs2.
  pose proof (Chain_AddBlock_ok _ _ _ (FullBlock_GetHash b) (FullBlock_GetHeight b) (node_confirmed (db_wf := db_wf) Blake2b 0 ∅ Blake2b_length Blake2b_nonzero _ _ _ Hr) Hl) as Ha.
  rewrite Ec in Ha. unfold hf_room in Ha. rewrite length_confirmed_of, Hh in Ha. specialize (Ha ltac:(lia) ltac:(lia)). rewrite Z.eqb_refl in Ha.
  destruct Ha as (ch & E & Hch). rewrite confirmed_of_snoc in Hch. eexists _, _. split; [|split; [exact (node_set_confirmed _ _ _ _ _ Hr Hch)|done]].
  rewrite Hh. unfold in_chain, in_store, on_chain. apply st_zoom_run, st_zoom_run. exact E.
Qed.

Lemma rev_lookup_Some {A A'} (f : A -> A') (l : list A) (i : nat) a : l !! i = Some a -> rev (map f l) !! (length l - S i)%nat = Some (f a).
Proof.
  intros Hi. pose proof (lookup_lt_Some _ _ _ Hi). rewrite rev_alt. change (rev_append (map f l) []) with (reverse (f <$> l)).
  apply reverse_lookup_Some. rewrite length_fmap. split; [|lia]. rewrite list_lookup_fmap. replace (length l - S (length l - S i))%nat with i by lia. by rewrite Hi.
Qed.

Lemma confirm_blocks_ok c (Hc : length (n_confirmed c) < 2 ^ 33) : forall cbs w s bs0,
  node_rel w c s -> n_confirmed w = confirmed_of bs0 -> Forall (fun cb => cbk_block cb ∈ K) cbs ->
  (forall (i : nat) cb, cbs !! i = Some cb -> cbk_height cb = (S (length bs0) + i)%nat) ->
  exists s', confirm_blocks cbs s = (Ok tt, s') /\ node_rel (n_set_confirmed (confirmed_of (rev (map cbk_block cbs) ++ bs0)) w) c s' /\ shared s' = shared s.
Proof.
  intros cbs. induction cbs as [|cb cbs IH]; intros w s bs0 Hr Ec HK Hh; cbn [confirm_blocks].
  - exists s. split; [done|]. split; [|done]. cbn. rewrite <- Ec. by destruct w.
  - apply Forall_cons in HK as [Hcb HK]. pose proof (Hh 0%nat cb eq_refl) as Hh0.
    destruct (of_storable _ Hof _ (ob_known _ (obs_block Hob _ Hcb))) as (Hl & _ & _ & Hb).
    unfold cbk_height in Hh0. unfold FullBlock_GetHeight in Hh0.
    destruct (node_confirm w c s bs0 (cbk_block cb) Hr Ec ltac:(unfold FullBlock_GetHeight; lia) Hl ltac:(lia) Hc) as (i & s1 & E1 & Hr1 & Hsh1).
    erewrite st_bind_ok by exact E1. destruct (IH _ s1 (cbk_block cb :: bs0) Hr1 eq_refl HK) as (s2 & E2 & Hr2 & Hsh2).
    { intros j cb' Hj. rewrite (Hh (S j) cb' Hj). cbn [length]. lia. }
    exists s2. split; [done|]. cbn [map rev]. rewrite <- app_assoc. split; [exact Hr2|]. by rewrite Hsh2.
Qed.

Lemma GetTotalDifficulty_confirmed w c s bs y : node_rel w c s -> chain_inv w bs y -> n_confirmed w = confirmed_of bs ->
  GetTipHash (cs_chain CONFIRMED s) = Ok (BlockHeader_GetHash (tip_of bs)) /\ GetTotalDifficulty CONFIRMED s = Ok (bh_totalDifficulty (tip_of bs)).
Proof.
  intros Hr Hc Ec. destruct (GetTipHash_ok _ _ _ (node_confirmed (db_wf := db_wf) Blake2b 0 ∅ Blake2b_length Blake2b_nonzero _ _ _ Hr)) as (x & Hx & E).
  assert (x = BlockHeader_GetHash (tip_of bs)) as ->.
  { rewrite Ec in Hx. destruct bs as [|b bs]; [by injection Hx as <-|]. rewrite <- confirmed_of_snoc, last_snoc in Hx. by injection Hx as <-. }
  split; [done|]. unfold GetTotalDifficulty, GetTipBlockHeader. rewrite E. cbn [mbind result_bind].
  rewrite (node_header (db_wf := db_wf) Blake2b 0 ∅ Blake2b_length Blake2b_nonzero _ _ _ _ Hr). destruct (tip_known _ _ _ Hc) as [_ ->]. done.
Qed.

(** ** What a batch on blocks leaves *)
Definition n_confirmed_difficulty n : Z :=
  match n_txs n with Some t => match ts_header t with Some h => bh_totalDifficulty h | None => 0 end | None => 0 end.

Lemma inv_difficulty n bs y : chain_inv n bs y -> n_confirmed_difficulty n = bh_totalDifficulty (tip_of bs).
Proof. intros Hc. unfold n_confirmed_difficulty. rewrite (ci_txs _ _ _ Hc). by destruct (tip_header _ _ _ Hc) as [-> _]. Qed.

Record settled {A} (r : result A) c w' c' s' : Prop := {
  se_rel : node_rel w' c' s';
  se_headers : n_candidate c' = n_candidate c /\ t_headers (n_tables c') = t_headers (n_tables c);
  se_blocks : blocks_ok c';
  se_shared : shared_ok s';
  se_difficulty : env = AUTOMATED_TESTING \/ n_confirmed_difficulty c <= n_confirmed_difficulty c';
  se_failed : forall e, r = Throw e -> c' = c;
}.

Lemma settled_none {A} (r : result A) c w' s' : node_rel w' c s' -> blocks_ok c -> shared_ok s' -> settled r c w' c s'.
Proof. intros. constructor; [done..|right; lia|done]. Qed.

(** Storing blocks of a fork that is not taken. *)
Lemma chain_inv_store n bs y b : chain_inv n bs y -> b ∈ K ->
  chain_inv (n_set_tables (set_blocks (<[FullBlock_GetHash b := b]> (t_blocks (n_tables n))) (n_tables n)) n) bs y.
Proof.
  intros Hc Hb. pose proof Hc as [Hh Ht Hp (o & k & Hs) Hbs Hg Hst]. constructor; cbn; [|done|done| |done|done|].
  - apply (history_tables env (n_tables n)); [done|done|]. intros b' Hb'. cbn. split; [|done].
    destruct (decide (FullBlock_GetHash b = FullBlock_GetHash b')) as [E|Hne].
    + rewrite E, lookup_insert_eq. by rewrite (obs_inj Hob _ _ Hb (inv_K _ _ _ _ Hc Hb') E).
    + rewrite lookup_insert_ne by done. exact (history_stored _ _ _ _ _ _ Hh Hb').
  - exists o, k. by apply (sums_chain_tables (n_tables n)).
  - intros k' b' [[<- <-]|[_ Hk']]%lookup_insert_Some; [done|by apply Hst].
Qed.

Lemma store_blocks_ok c : forall cbs w s bs y, node_rel w c s -> chain_inv w bs y -> Forall (fun cb => cbk_block cb ∈ K) cbs ->
  exists tb, node_rel (n_set_tables tb w) c (cs_set_db (store_blocks cbs (m_pBlockDB s)) s) /\ chain_inv (n_set_tables tb w) bs y /\ t_headers tb = t_headers (n_tables w).
Proof.
  intros cbs. induction cbs as [|cb cbs IH]; intros w s bs y Hr Hc HK.
  - exists (n_tables w). split; [|split; [by destruct w|done]]. destruct Hr as [? ? ? ?]. by constructor.
  - apply Forall_cons in HK as [Hcb HK].
    assert (node_rel (n_set_tables (set_blocks (<[cbk_hash cb := cbk_block cb]> (t_blocks (n_tables w))) (n_tables w)) w) c (cs_set_db (db_AddBlock (cbk_block cb) (m_pBlockDB s)) s)) as Hr1.
    { destruct Hr as [Hs Hd Hm Ht]. constructor; cbn; [done| |done|done]. apply db_add_block; [done|]. by apply (obs_block Hob). }
    destruct (IH _ _ bs y Hr1 (chain_inv_store _ _ _ _ Hc Hcb) HK) as (tb & Hr2 & Hc2 & Eh). exists tb. done.
Qed.

(** ** A reorganisation *)
Lemma tip_of_rev cbs back bs : last cbs = Some back -> tip_of (rev (map cbk_block cbs) ++ bs) = cb_header back.
Proof.
  intros (l & ->)%last_Some. by rewrite map_app, rev_app_distr.
Qed.

Lemma HandleReorg_ok c s cbs bs1 bs2 y : node_rel c c s -> headers_ok c -> chain_inv c (bs1 ++ bs2) y -> n_confirmed c = confirmed_of (bs1 ++ bs2) -> shared_ok s ->
  cbs <> [] -> Forall (fork_block c) cbs -> linked (tip_of bs2) (map cb_header cbs) ->
  exists r w' c' s', HandleReorg Blake2b env cbs s = (r, s') /\ settled r c w' c' s'.
Proof.
  intros Hr Hh Hc Ec Ho Hne Hf Hl. assert (blocks_ok c) as Hbl by (by eexists _, _).
  destruct (GetTotalDifficulty_confirmed _ _ _ _ _ Hr Hc Ec) as [_ Htd]. unfold HandleReorg. erewrite st_bind_ok by reflexivity. rewrite (st_lift_ok _ _ _ _ Htd).
  destruct (node_txs _ _ _ _ Hr (ci_txs _ _ _ Hc)) as (t & a' & Et & _ & _). rewrite Et.
  destruct cbs as [|front rest]; [done|]. set (cbs := front :: rest) in *. change (head cbs) with (Some front). cbn [of_option]. rewrite (st_lift_ok _ _ _ _ eq_refl).
  destruct (last_is_Some cbs) as [_ [back Hback]]; [done|]. rewrite Hback. cbn [of_option]. rewrite (st_lift_ok _ _ _ _ eq_refl).
  pose proof (Forall_inv Hf) as Hfront. pose proof (proj1 Hl) as Hprev. change (bh_previousBlockHash (cb_header front)) with (cbk_previous front) in Hprev.
  rewrite (node_header (db_wf := db_wf) Blake2b 0 ∅ Blake2b_length Blake2b_nonzero _ _ _ _ Hr), Hprev.
  destruct (rewind_txs_ok c s bs1 bs2 y Hr Hc) as (x & s1 & E1 & Hsh1 & Hr1 & Hc1). destruct (tip_known _ _ _ Hc1) as [_ Htt]. cbn in Htt. rewrite Htt.
  cbn [of_option]. rewrite (st_lift_ok _ _ _ _ eq_refl). erewrite st_bind_ok by exact E1. pose proof (shared_ok_shared _ _ Hsh1 Ho) as Ho1.
  destruct (validate_blocks_ok c c Hh cbs _ s1 bs2 x Hr1 Hc1 Ho1 eq_refl Hf Hl) as (r & w2 & s2 & E2 & Hr2 & Ho2 & Hx).
  destruct r as [[]|e]; [|exists (Throw e), w2, c, s2; split; [by apply st_bind_throw|by apply settled_none]].
  erewrite st_bind_ok by exact E2. destruct (Hx eq_refl) as ([z Hz] & Ec2 & Ecd2 & Eh2). clear Hx. cbn in Ec2, Ecd2.
  assert (Forall (fun cb => cbk_block cb ∈ K) cbs) as HK by (eapply Forall_impl; [exact Hf|]; intros cb Hcb; apply Hcb).
  pose proof (inv_length _ _ _ Hc) as Hlen. rewrite Z.gtb_ltb. destruct (Z.ltb_spec (bh_totalDifficulty (tip_of (bs1 ++ bs2))) (cbk_difficulty back)) as [Hlt|Hge'].
  - destruct (fork_block_child c front (tip_of bs2) Hh Hfront) as [Hfh _]; [by rewrite Hprev|]. destruct (tip_header _ _ _ Hc1) as [_ Htl]. rewrite Htl in Hfh.
    rewrite length_app in Hlen. rewrite Hfh, uint_small by (unfold is_uint; lia). replace (length bs2 + 1 - 1) with (length bs2 : Z) by lia.
    pose proof (Chain_Rewind_ok _ _ _ (length bs2) (node_confirmed (db_wf := db_wf) Blake2b 0 ∅ Blake2b_length Blake2b_nonzero _ _ _ Hr2) ltac:(lia)) as Hrw.
    rewrite Ec2, Ec, length_confirmed_of, length_app, (proj2 (Z.ltb_lt _ _)) in Hrw by lia. destruct Hrw as (ch & Ech & Hch).
    replace (Z.to_nat (length bs2 + 1)) with (S (length bs2)) in Hch by lia. rewrite confirmed_of_take, <- Ec in Hch.
    unfold in_chain at 1, in_store, on_chain. erewrite st_bind_ok by (apply st_zoom_run, st_zoom_run; exact Ech).
    pose proof (node_set_confirmed _ _ _ _ _ Hr2 Hch) as Hr3.
    destruct (confirm_blocks_ok c ltac:(rewrite Ec, length_confirmed_of, length_app; lia) cbs _ _ bs2 Hr3 eq_refl HK) as (s4 & E4 & Hr4 & Hsh4).
    { intros i cb Hi. pose proof (lookup_lt_Some _ _ _ Hi).
      pose proof (inv_heights _ _ _ (length cbs - S i)%nat (cbk_block cb) Hz) as Hb. rewrite length_app, length_rev, length_map in Hb.
      unfold cbk_height. specialize (Hb ltac:(by apply lookup_app_l_Some, rev_lookup_Some)). lia. }
    destruct (node_Commit (db_wf := db_wf) Blake2b 0 ∅ Blake2b_length Blake2b_nonzero _ _ _ Hr4) as (s5 & E5 & Hr5 & Hsh5).
    eexists (Ok tt), _, _, s5. split; [by erewrite st_bind_ok by exact E4|]. constructor; [exact Hr5|done| | | |done].
    + exists (rev (map cbk_block cbs) ++ bs2), z. split; [|done]. destruct Hz as [Z1 Z2 Z3 Z4 Z5 Z6 Z7]. by constructor.
    + eapply shared_ok_shared; [|exact Ho2]. by rewrite Hsh5, Hsh4.
    + right. rewrite (inv_difficulty _ _ _ Hc). etrans; [apply Z.lt_le_incl, Hlt|]. unfold n_confirmed_difficulty. cbn. rewrite (ci_txs _ _ _ Hz).
      destruct (tip_header _ _ _ Hz) as [-> _]. by rewrite (tip_of_rev _ _ _ Hback).
  - destruct (node_Rollback (db_wf := db_wf) Blake2b 0 ∅ Blake2b_length Blake2b_nonzero _ _ _ Hr2) as (s3 & E3 & Hr3 & Hsh3).
    destruct (store_blocks_ok c cbs c s3 _ y Hr3 Hc HK) as (tb & Hr4 & Hc4 & Eh4).
    eexists (Ok tt), (n_set_tables tb c), (n_set_tables tb c), _. split.
    { rewrite (st_bind_ok st_get) with (1 := eq_refl). rewrite E3, (st_lift_ok _ _ _ _ eq_refl). rewrite (st_bind_ok (st_modify _)) with (1 := eq_refl).
      unfold in_db. rewrite (st_bind_ok (st_modify _)) with (1 := eq_refl). reflexivity. }
    constructor; [|done| | | |done].
    + destruct Hr4 as [A1 A2 A3 A4]. constructor; [exact A1|exact (db_commit _ _ _ A2)|exact A3|exact A4].
    + by exists (bs1 ++ bs2), y.
    + apply (shared_ok_shared s2); [|done]. exact Hsh3.
    + right. done.
Qed.

(** ** One block *)
Lemma AddOrphanBlock_shared_ok cb s : shared_ok s -> checked_ok cb -> shared_ok (cs_set_orphans (AddOrphanBlock cb (m_pOrphanPool s)) s).
Proof.
  intros (Ho & Hp & Hw) Hcb. pose proof (ob_known _ (obs_block Hob _ (proj1 Hcb))) as Hk. split; [|split; [|done]].
  - intros k h. unfold AddOrphanBlock, GetOrphanHeader. cbn [m_pOrphanPool cs_set_orphans].
    set (p' := match cache_get (orphan_hash cb) (m_orphanHeadersByHash (m_pOrphanPool s)) with Some _ => _ | None => _ end).
    assert (cache_get k (m_orphanHeadersByHash p') = Some h -> k = BlockHeader_GetHash h /\ known h) as Hp'.
    { unfold p'. destruct (cache_get (orphan_hash cb) _) eqn:Eg; [apply Ho|]. cbn. intros Hx. destruct (decide (orphan_hash cb = k)) as [<-|Hne].
      - rewrite cache_get_put in Hx. injection Hx as <-. done.
      - apply Ho. unfold GetOrphanHeader. by eapply cache_get_other. }
    clearbody p'. destruct (m_orphansByHeight p' !! orphan_height cb) as [l|]; [destruct (existsb _ l)|]; exact Hp'.
  - exact (AddOrphanBlock_all checked_ok cb (m_pOrphanPool s) Hp Hcb).
Qed.

Lemma NextBlock_ok c s bs y cb : node_rel c c s -> headers_ok c -> chain_inv c bs y -> n_confirmed c = confirmed_of bs -> shared_ok s ->
  fork_block c cb -> cbk_previous cb = BlockHeader_GetHash (tip_of bs) ->
  exists r w' c' s', (_ ← ValidateAndAddBlock Blake2b env cb;
    _ ← in_chain CONFIRMED (Chain_AddBlock (cbk_hash cb) (cbk_height cb));
    _ ← ChainState_Commit;
    mret SUCCESS) s = (r, s') /\ settled r c w' c' s'.
Proof.
  intros Hr Hh Hc Ec Ho Hf Hprev. assert (blocks_ok c) as Hbl by (by eexists _, _). destruct (tip_known _ _ _ Hc) as [_ Htt].
  destruct (ValidateAndAddBlock_ok c c s bs y cb Hr Hc (proj1 Hf) Ho (fork_block_fits _ _ _ _ _ Hh eq_refl Hc Hf Hprev)) as (r & w1 & s1 & E1 & Hr1 & Ho1 & Hx).
  destruct r as [[]|e]; [|exists (Throw e), w1, c, s1; split; [by apply st_bind_throw|by apply settled_none]]. erewrite st_bind_ok by exact E1.
  destruct (Hx eq_refl) as [[z Hz] Hconf Hcand Hhead]. clear Hx. rewrite <- Hprev in Htt. destruct (fork_block_child _ _ _ Hh Hf Htt) as [Hht Hd].
  destruct (tip_header _ _ _ Hc) as [_ Htl]. pose proof (inv_length _ _ _ Hc) as Hlen. unfold cbk_height in Hht. rewrite Htl in Hht.
  destruct (of_storable _ Hof _ (ob_known _ (obs_block Hob _ (proj1 (proj1 Hf))))) as (Hl & _).
  destruct (node_confirm w1 c s1 bs (cbk_block cb) Hr1 ltac:(congruence) ltac:(lia) Hl ltac:(lia)) as (i & s2 & E2 & Hr2 & Hsh2).
  { rewrite Ec, length_confirmed_of. lia. }
  unfold cbk_hash, cbk_height. erewrite st_bind_ok by exact E2.
  destruct (node_Commit (db_wf := db_wf) Blake2b 0 ∅ Blake2b_length Blake2b_nonzero _ _ _ Hr2) as (s3 & E3 & Hr3 & Hsh3).
  eexists (Ok SUCCESS), _, _, s3. split; [by erewrite st_bind_ok by exact E3|]. constructor; [exact Hr3|done| | | |done].
  - exists (cbk_block cb :: bs), z. split; [|done]. destruct Hz as [Z1 Z2 Z3 Z4 Z5 Z6 Z7]. by constructor.
  - eapply shared_ok_shared; [|exact Ho1]. by rewrite Hsh3, Hsh2.
  - destruct Hd as [|Hd]; [by left|right]. rewrite (inv_difficulty _ _ _ Hc). etrans; [apply Z.lt_le_incl, Hd|].
    unfold n_confirmed_difficulty. cbn. rewrite (ci_txs _ _ _ Hz). by destruct (tip_header _ _ _ Hz) as [-> _].
Qed.

Lemma checked_fork_block c cb h bs : headers_ok c -> n_confirmed c = confirmed_of bs -> checked_ok cb ->
  n_confirmed c !! Z.to_nat (cbk_height cb) <> Some (cbk_hash cb) -> t_headers (n_tables c) !! cbk_hash cb = Some h -> fork_block c cb.
Proof.
  intros Hh Ec Hcb Hon Et. pose proof (ob_known _ (obs_block Hob _ (proj1 Hcb))) as Hk.
  destruct (ho_tables _ _ _ _ _ _ Hh _ _ Et) as [Eh Hkh]. assert (h = cb_header cb) as -> by (apply (of_inj _ Hof); [done|done|by symmetry]).
  split; [done|]. split; [done|]. intros Eg. apply Hon. unfold cbk_height, FullBlock_GetHeight. change (fb_header (cbk_block cb)) with (cb_header cb).
  rewrite Eg, (ge_height Hge), Ec. unfold cbk_hash, FullBlock_GetHash. change (fb_header (cbk_block cb)) with (cb_header cb). by rewrite Eg.
Qed.

Lemma ProcessBlockInternal_batch_ok c s fuel cb : node_rel c c s -> headers_ok c -> blocks_ok c -> shared_ok s -> checked_ok cb ->
  exists r w' c' s', ProcessBlockInternal_batch Blake2b env fuel cb s = (r, s') /\ settled r c w' c' s'.
Proof.
  intros Hr Hh Hbl Ho Hcb. pose proof Hbl as (bs & y & Hc & Ec).
  assert (forall r, exists r' w' c' s', ((r : result EBlockChainStatus, s) = (r', s') /\ settled r' c w' c' s')) as Hstop
    by (intros r; exists r, c, c, s; split; [done|by apply settled_none]).
  pose proof (ob_known _ (obs_block Hob _ (proj1 Hcb))) as Hk. destruct (of_storable _ Hof _ Hk) as (Hl & _ & _ & Hht).
  unfold ProcessBlockInternal_batch. erewrite st_bind_ok by reflexivity.
  rewrite (IsOnChain_ok _ _ _ (cbk_height cb) (cbk_hash cb) (node_confirmed (db_wf := db_wf) Blake2b 0 ∅ Blake2b_length Blake2b_nonzero _ _ _ Hr)) by apply Hht || exact Hl.
  rewrite (st_lift_ok _ _ _ _ eq_refl). case_bool_decide as Hon; [apply Hstop|].
  destruct (db_GetBlock (cbk_hash cb) (m_pBlockDB s)) as [b|]; [apply Hstop|].
  destruct (DetermineBlockStatus fuel cb s) as [info|e] eqn:Ed; [|apply Hstop]. rewrite (st_lift_ok _ _ _ _ eq_refl).
  unfold DetermineBlockStatus in Ed. rewrite (node_header (db_wf := db_wf) Blake2b 0 ∅ Blake2b_length Blake2b_nonzero _ _ _ _ Hr) in Ed.
  assert (exists r' w' c' s', (if IsOrphan (cbk_height cb) (cbk_hash cb) (m_pOrphanPool s) then mret ALREADY_EXISTS
            else _ ← in_orphans (AddOrphanBlock cb); mret ORPHANED) s = (r', s') /\ settled r' c w' c' s') as Horphan.
  { destruct (IsOrphan _ _ _); [apply Hstop|]. eexists (Ok ORPHANED), c, c, _. split; [reflexivity|]. apply settled_none; [|done|by apply AddOrphanBlock_shared_ok].
    by apply (node_rel_shared _ _ s). }
  destruct (t_headers (n_tables c) !! cbk_hash cb) as [h|] eqn:Et; [|injection Ed as <-; exact Horphan].
  pose proof (checked_fork_block c cb h bs Hh Ec Hcb Hon Et) as Hf.
  destruct (GetTotalDifficulty_confirmed _ _ _ _ _ Hr Hc Ec) as [Htip _]. rewrite Htip in Ed. cbn [mbind result_bind] in Ed.
  destruct (tip_known _ _ _ Hc) as [Hkt _].
  rewrite BigInteger_eq_spec in Ed by (rewrite (proj1 (of_storable _ Hof _ Hkt)); exact (eq_sym (proj1 (of_lengths _ Hof _ Hk)))).
  case_bool_decide as Hprev.
  - injection Ed as <-. by apply (NextBlock_ok c s bs y).
  - destruct (fork_blocks_ok c c c s bs y Hr Hh eq_refl Hc Ec Ho fuel cb [] info Hf ltac:(done) I Ed) as [->|(cbs & bs1 & bs2 & -> & -> & Hne & Hfs & Hls)]; [exact Horphan|].
    destruct (HandleReorg_ok c s cbs bs1 bs2 y Hr Hh Hc Ec Ho Hne Hfs Hls) as (r & w' & c' & s' & E & [Y1 Y2 Y3 Y4 Y5 Y6]).
    destruct r as [[]|e]; [exists (Ok SUCCESS)|exists (Throw e)]; exists w', c', s'; (split; [|constructor; try done]); [by erewrite st_bind_ok by exact E|by apply st_bind_throw|].
    intros e' _. by apply (Y6 e).
Qed.
End spec.
