(* ===== verification/NodeSpec.v ===== *)
(** * What a node keeps

    The operations of the block chain, in any order and with any outcome, keep
    the chains of headers and blocks valid; the theorems say so of whole runs,
    of the supply, of refused blocks and of the search for a fork point. *)
From S2P Require Import Prelude BitUtil MMRIndex MMRUtil Serial BigInteger File Roaring PruneList BitmapFile MMRHash SegmentId SegmentProof Segment PruneableMMR PruneableSpec Consensus Transaction Crypto KernelMMR KernelSpec Header Block BlockSpec BlockDB TxHashSet UtxoSpec TxHashSetSpec TxHashSetBlocks Validation ValidationSpec Chain OrphanPool HeaderMMR TxPool TxPoolSpec Difficulty Cuckoo ChainState HeaderProcessor BlockProcessor BlockChain ChainStateSpec HeaderSpec BlockHistory BlockProcessorSpec TxHashSetTheorems.

Section spec.
Context {F : Type} {HF : HashFile F} {HFL : HashFileLaws F} {R : Type} {HR : Roaring R} {HRL : RoaringLaws R}.
Context {B : Type} {HB : IBlockDB B} {db_wf : DBEntry -> Prop} {db_repr : DBTables -> DBTables -> B -> Prop} {HBL : IBlockDBLaws B db_wf db_repr}.
Context {P : Type} {SP : Secp256k1 P} {G : Type} {AG : AbelianGroup G} {SL : Secp256k1Laws P G}.
Context {C : Type} {HC : LRUCache Hash BlockHeader C} {HCL : LRUCacheLaws Hash BlockHeader C}.
Context {L : Type} {HL : LRUCache Commitment Commitment L} {HLL : LRUCacheLaws Commitment Commitment L}.
Context (Blake2b : bytes -> Hash) (env : Environment) (pow_fuel : nat).
Local Abbreviation CS := (ChainState F R B C L).
Local Abbreviation node_rel := (node_rel (db_repr := db_repr) Blake2b 0 ∅).
Local Abbreviation ths_rel := (ths_rel Blake2b 0 ∅).
Implicit Types (s : CS) (w c n : NState) (b : FullBlock) (bs : list FullBlock) (cb : CheckedBlock).
Hypothesis Blake2b_length : forall x, length (Blake2b x) = 32%nat.
Hypothesis Blake2b_nonzero : forall x, Blake2b x <> ZERO_HASH.

(** What the database can store. *)
Hypothesis db_location : forall l, location_ok l -> db_wf (ELocation l).
Hypothesis db_spent : forall l, length l < 2 ^ 16 ->
  Forall (fun o => length (so_commitment o) = 33%nat /\ location_ok (so_location o)) l -> db_wf (ESpent l).
Hypothesis db_sums : forall sums, is_commitment (bs_outputSum sums) -> is_commitment (bs_kernelSum sums) -> db_wf (ESums sums).

(** The genesis block's header, and the state it leaves. *)
Context (g : BlockHeader) (x0 : TState * Positions).

(** The headers and blocks that are offered. *)
Context (known : BlockHeader -> Prop) (K : list FullBlock).

Local Abbreviation headers_ok := (headers_ok Blake2b env pow_fuel known g).
Local Abbreviation chain_inv := (@chain_inv P SP G AG SL Blake2b env g x0 K).
Local Abbreviation blocks_ok := (@blocks_ok P SP G AG SL Blake2b env g x0 K).
Local Abbreviation checked_ok := (@checked_ok P SP G AG SL Blake2b env K).
Local Abbreviation pools_ok := (@pools_ok P SP G AG SL L HL Blake2b env K).
Local Abbreviation shared_ok := (orphans_known (F := F) (R := R) (B := B) known pools_ok).

Hypothesis Hof : offered (db_wf := db_wf) known.
Hypothesis Hob : offered_blocks (db_wf := db_wf) x0 known K.
Hypothesis Hge : genesis_ok g x0 known.
Local Abbreviation node_rel_shared := (@node_rel_shared F HF HFL R HR HRL B HB db_wf db_repr HBL P SP G AG SL C HC HCL L HL HLL Blake2b env pow_fuel Blake2b_length Blake2b_nonzero db_location db_spent db_sums g x0 known K Hof Hob Hge).
Local Abbreviation shared_ok_shared := (@shared_ok_shared F HF HFL R HR HRL B HB db_wf db_repr HBL P SP G AG SL C HC HCL L HL HLL Blake2b env pow_fuel Blake2b_length Blake2b_nonzero db_location db_spent db_sums g x0 known K Hof Hob Hge).
Local Abbreviation RemoveOrphan_shared_ok := (@RemoveOrphan_shared_ok F HF HFL R HR HRL B HB db_wf db_repr HBL P SP G AG SL C HC HCL L HL HLL Blake2b env pow_fuel Blake2b_length Blake2b_nonzero db_location db_spent db_sums g x0 known K Hof Hob Hge).
Local Abbreviation ProcessBlockInternal_batch_ok := (@ProcessBlockInternal_batch_ok F HF HFL R HR HRL B HB db_wf db_repr HBL P SP G AG SL C HC HCL L HL HLL Blake2b env pow_fuel Blake2b_length Blake2b_nonzero db_location db_spent db_sums g x0 known K Hof Hob Hge).
Local Abbreviation in_cache_VerifySelfConsistent := (@in_cache_VerifySelfConsistent F HF HFL R HR HRL B HB db_wf db_repr HBL P SP G AG SL C HC HCL L HL HLL Blake2b env pow_fuel Blake2b_length Blake2b_nonzero db_location db_spent db_sums g x0 known K Hof Hob Hge).
Local Abbreviation fork_blocks_total := (@fork_blocks_total F HF HFL R HR HRL B HB db_wf db_repr HBL P SP G AG SL C HC HCL L HL HLL Blake2b env pow_fuel Blake2b_length Blake2b_nonzero db_location db_spent db_sums g x0 known K Hof Hob Hge).
Local Abbreviation checked_fork_block := (@checked_fork_block F HF HFL R HR HRL B HB db_wf db_repr HBL P SP G AG SL C HC HCL L HL HLL Blake2b env pow_fuel Blake2b_length Blake2b_nonzero db_location db_spent db_sums g x0 known K Hof Hob Hge).
Local Abbreviation GetTotalDifficulty_confirmed := (@GetTotalDifficulty_confirmed F HF HFL R HR HRL B HB db_wf db_repr HBL P SP G AG SL C HC HCL L HL HLL Blake2b env pow_fuel Blake2b_length Blake2b_nonzero db_location db_spent db_sums g x0 known K Hof Hob Hge).

#[local] Set Default Proof Using "All".

(** ** What every operation keeps *)
Definition grows n n' : Prop :=
  (env = AUTOMATED_TESTING \/ n_difficulty n <= n_difficulty n') /\ (env = AUTOMATED_TESTING \/ n_confirmed_difficulty n <= n_confirmed_difficulty n').

#[local] Instance grows_preorder : PreOrder grows.
Proof.
  split; [intros n; split; right; lia|]. intros a b c [E1 D1] [E2 D2]. split; [destruct E1, E2|destruct D1, D2]; (by left) || (right; lia).
Qed.

(** State and invariants between operations. *)
Definition node_ok c s : Prop := node_rel c c s /\ headers_ok c /\ blocks_ok c /\ shared_ok s.

Definition keeps_node {A} (m : ST CS A) : Prop := forall c s, node_ok c s -> exists r c' s', m s = (r, s') /\ node_ok c' s' /\ grows c c'.

Lemma node_maintains_ret {A} (r : result A) : keeps_node (fun s => (r, s)).
Proof. intros c s Hn. by exists r, c, s. Qed.

Lemma node_maintains_bind {A A'} (m : ST CS A) (f : A -> ST CS A') : keeps_node m -> (forall a, keeps_node (f a)) -> keeps_node (m ≫= f).
Proof.
  intros Hm Hf c s Hn. destruct (Hm c s Hn) as (r & c1 & s1 & E1 & Hn1 & Hg1). destruct r as [a|e].
  - destruct (Hf a c1 s1 Hn1) as (r & c2 & s2 & E2 & Hn2 & Hg2). exists r, c2, s2. erewrite st_bind_ok by exact E1. split; [done|]. split; [done|]. by etrans.
  - exists (Throw e), c1, s1. by erewrite st_bind_throw by exact E1.
Qed.

Lemma node_maintains_try_except {A} passes (m : ST CS A) a : keeps_node m -> keeps_node (st_try_except passes m a).
Proof.
  intros Hm c s Hn. destruct (Hm c s Hn) as (r & c1 & s1 & E1 & Hn1 & Hg1). unfold st_try_except. rewrite E1.
  destruct r as [x|e]; [by exists (Ok x), c1, s1|]. destruct (is_std e && negb (passes e)); by eexists _, c1, s1.
Qed.

Lemma node_maintains_try {A} (m h : ST CS A) : keeps_node m -> keeps_node h -> keeps_node (st_try m h).
Proof.
  intros Hm Hh c s Hn. destruct (Hm c s Hn) as (r & c1 & s1 & E1 & Hn1 & Hg1). unfold st_try. rewrite E1.
  destruct r as [x|e]; [by exists (Ok x), c1, s1|]. destruct (is_std e); [|by exists (Throw e), c1, s1].
  destruct (Hh c1 s1 Hn1) as (r & c2 & s2 & E2 & Hn2 & Hg2). exists r, c2, s2. split; [done|]. split; [done|]. by etrans.
Qed.

(** Headers leave the blocks alone. *)
Lemma blocks_ok_same n n' : blocks_ok n -> same_blocks n n' -> blocks_ok n' /\ n_confirmed_difficulty n' = n_confirmed_difficulty n.
Proof.
  intros (bs & y & [Hh Ht Hp (o & k & Hs) Hb Hg Hst] & Ec) (E1 & E2 & m & Em & Hm). split; [|unfold n_confirmed_difficulty; by rewrite E2].
  exists bs, y. split; [|by rewrite E1]. constructor; rewrite ?Em, ?E2; cbn; [|done|done| | | |done].
  - apply (history_tables env (n_tables n)); [done|done|]. intros b Hb'. cbn. split; [|done]. exact (history_stored _ _ _ _ _ _ Hh Hb').
  - exists o, k. by apply (sums_chain_tables (n_tables n)).
  - eapply Forall_impl; [exact Hb|]. intros b (HK & Hsc & Htb). split; [done|]. split; [done|]. by eapply lookup_weaken.
  - by eapply lookup_weaken.
Qed.

Local Abbreviation header_maintains := (HeaderSpec.maintains (db_repr := db_repr) (L := L) (C := C) (F := F) (R := R) Blake2b env pow_fuel 0 ∅ known g pools_ok).

Lemma maintains_headers {A} (m : ST CS A) : header_maintains m -> keeps_node m.
Proof.
  intros Hm c s (Hr & Hh & Hb & Ho). destruct (Hm c s Hr Hh Ho) as (r & c' & s' & E & Hr' & Hh' & Ho' & Hs & Hd).
  destruct (blocks_ok_same _ _ Hb Hs) as [Hb' Ed]. exists r, c', s'. split; [done|]. split; [by split; [|split; [|split]]|]. split; [done|]. rewrite Ed. right. done.
Qed.

Lemma headers_ok_ext c c' : headers_ok c -> n_candidate c' = n_candidate c -> t_headers (n_tables c') = t_headers (n_tables c) -> headers_ok c'.
Proof. intros [H1' H2' H3' H4' H5'] E1 E2. constructor; rewrite ?E1, ?E2; done. Qed.

Lemma ProcessBlockInternal_maintains fuel cb : checked_ok cb -> keeps_node (ProcessBlockInternal Blake2b env fuel cb).
Proof.
  intros Hcb c s (Hr & Hh & Hb & Ho). destruct (node_OnInit (db_wf := db_wf) Blake2b 0 ∅ Blake2b_length Blake2b_nonzero c s Hr) as [Hr0 Hsh0].
  destruct (ProcessBlockInternal_batch_ok c _ fuel cb Hr0 Hh Hb (shared_ok_shared _ _ Hsh0 Ho) Hcb) as (r & w' & c' & s1 & E & [Hr' [Hcand Hhead] Hb' Ho' Hd _]).
  destruct (BatchWrite_ok (db_wf := db_wf) Blake2b 0 ∅ Blake2b_length Blake2b_nonzero _ c s r s1 w' c' Hr E Hr') as (s' & E' & Hn' & Hsh').
  exists r, c', s'. split; [exact E'|]. split; [|split; [right; unfold n_difficulty; by rewrite Hcand|done]].
  split; [done|]. split; [by eapply headers_ok_ext|]. split; [done|]. by eapply shared_ok_shared.
Qed.

Lemma ProcessBlock_maintains now fuel cb : checked_ok cb -> keeps_node (ProcessBlock Blake2b env pow_fuel now fuel cb).
Proof.
  intros Hcb c s Hn. unfold ProcessBlock. erewrite st_bind_ok by reflexivity. destruct (_ <=? _); [by apply node_maintains_ret|].
  revert c s Hn. apply node_maintains_bind.
  - apply maintains_headers. apply (ProcessSingleHeader_maintains (db_wf := db_wf)); [done|done|done|]. by apply (ob_known _ _ (obs_block _ _ _ Hob _ (proj1 Hcb))).
  - intros _ c s Hn. pose proof Hn as (Hr & Hh & Hb & Ho). destruct (in_cache_VerifySelfConsistent c c s cb Hr Hcb Ho) as (r & s1 & E1 & Hr1 & Ho1 & _ & Hx).
    destruct r as [cb'|e].
    + erewrite st_bind_ok by exact E1. destruct (Hx cb' eq_refl) as [-> Hsc]. apply ProcessBlockInternal_maintains; [|by split; [|split; [|split]]].
      split; [apply Hcb|done].
    + exists (Throw e), c, s1. split; [by apply st_bind_throw|]. split; [by split; [|split; [|split]]|done].
Qed.

(** ** The interface of the chain *)
Inductive NodeOp :=
| OfferHeader (now : Z) (fuel : nat) (header : BlockHeader)
| OfferHeaders (now : Z) (headers : list BlockHeader)
| OfferBlock (now : Z) (fuel : nat) (block : FullBlock)
| OfferTransaction (now random probability : Z) (transaction : TransactionPtr) (pool : EPoolType)
| NextOrphanBlock (now : Z) (fuel : nat).

Definition node_op (o : NodeOp) : ST CS (EBlockChainStatus + bool) :=
  match o with
  | OfferHeader now fuel header => status ← AddBlockHeader Blake2b env pow_fuel now fuel header; mret (inl status)
  | OfferHeaders now headers => status ← AddBlockHeaders Blake2b env pow_fuel now headers; mret (inl status)
  | OfferBlock now fuel block => status ← BlockChain_AddBlock Blake2b env pow_fuel now fuel block; mret (inl status)
  | OfferTransaction now random probability transaction pool =>
      status ← BlockChain_AddTransaction Blake2b env now random probability transaction pool; mret (inl status)
  | NextOrphanBlock now fuel => processed ← ProcessNextOrphanBlock Blake2b env pow_fuel now fuel; mret (inr processed)
  end.

Definition node_op_offered (o : NodeOp) : Prop :=
  match o with
  | OfferHeader _ _ header => known header
  | OfferHeaders _ headers => Forall known headers /\ chained headers
  | OfferBlock _ _ block => block ∈ K
  | OfferTransaction _ _ _ _ _ | NextOrphanBlock _ _ => True
  end.

(** Only pools and cache change. *)
Lemma node_ok_shared c s s' : node_ok c s -> m_pChainStore s' = m_pChainStore s -> m_pBlockDB s' = m_pBlockDB s ->
  m_pHeaderMMR s' = m_pHeaderMMR s -> m_pTxHashSet s' = m_pTxHashSet s -> shared_ok s' -> node_ok c s'.
Proof. intros (Hr & Hh & Hb & _) E1 E2 E3 E4 Ho. split; [by apply (node_rel_shared _ _ s)|done]. Qed.

Lemma BlockChain_AddTransaction_maintains now random probability transaction pool :
  keeps_node (BlockChain_AddTransaction Blake2b env now random probability transaction pool).
Proof.
  apply node_maintains_try_except. intros c s Hn. erewrite st_bind_ok by reflexivity.
  destruct (GetTipBlockHeader CONFIRMED s) as [[header|]|e]; [|by exists (Ok INVALID), c, s|by exists (Throw e), c, s]. rewrite (st_lift_ok _ _ _ _ eq_refl).
  pose proof Hn as (_ & _ & _ & Ho & Hp & Hw).
  pose proof (AddTransaction_keeps Blake2b env now random probability (m_pBlockDB s) (m_pTxHashSet s) transaction pool header (m_pTransactionPool s, m_bulletproofsCache s) Hw) as Hk.
  destruct (AddTransaction _ _ _ _ _ _ _ _ _ _ _) as [r x] eqn:E in Hk. cbn in Hk.
  assert (node_ok c (cs_set_pool x.1 (cs_set_cache x.2 s))) as Hn' by (by eapply node_ok_shared; [exact Hn|..]).
  destruct r as [status|e].
  - eexists _, c, _. erewrite st_bind_ok by (unfold in_pool; apply st_zoom_run; exact E). split; [reflexivity|]. by split.
  - eexists (Throw e), c, _. erewrite st_bind_throw by (unfold in_pool; apply st_zoom_run; exact E). split; [reflexivity|]. by split.
Qed.

Lemma remove_orphan_maintains height hash : keeps_node (Write (in_orphans (RemoveOrphan height hash))).
Proof.
  intros c s (Hr & Hh & Hb & Ho). destruct (node_OnInit (db_wf := db_wf) Blake2b 0 ∅ Blake2b_length Blake2b_nonzero c s Hr) as [Hr0 Hsh0].
  unfold Write, in_orphans, st_modify. set (s1 := cs_set_orphans _ _).
  assert (node_rel c c s1) as Hr1 by (by apply (node_rel_shared _ _ (ChainState_OnInitWrite s))).
  destruct (node_Commit (db_wf := db_wf) Blake2b 0 ∅ Blake2b_length Blake2b_nonzero _ _ _ Hr1) as (s2 & E2 & Hr2 & Hsh2).
  exists (Ok tt), c, s2. split; [by rewrite E2|]. split; [|done]. split; [done|]. split; [done|]. split; [done|].
  eapply shared_ok_shared; [exact Hsh2|]. apply RemoveOrphan_shared_ok. by eapply shared_ok_shared.
Qed.

Lemma ProcessNextOrphanBlock_maintains now fuel : keeps_node (ProcessNextOrphanBlock Blake2b env pow_fuel now fuel).
Proof.
  intros c s Hn. unfold ProcessNextOrphanBlock. erewrite st_bind_ok by reflexivity.
  destruct (GetBlockHeaderByHeight _ CANDIDATE s) as [header|]; [|by apply node_maintains_ret].
  destruct (ChainState_GetOrphanBlock _ _ s) as [orphan|] eqn:Eo; [|by apply node_maintains_ret].
  assert (checked_ok orphan) as Hcb.
  { apply GetOrphanBlock_Some in Eo as [Hin _]. destruct Hn as (_ & _ & _ & _ & Hp & _). specialize (Hp ((GetHeight CONFIRMED s + 1)%u64)). rewrite Forall_forall in Hp. by apply Hp. }
  revert c s Hn Eo. intros c s Hn _. revert c s Hn. apply node_maintains_try.
  - apply node_maintains_bind; [by apply ProcessBlock_maintains|]. intros status. apply node_maintains_ret.
  - apply node_maintains_bind; [apply remove_orphan_maintains|]. intros _. apply node_maintains_ret.
Qed.

Lemma AddBlockHeaders_maintains now headers : Forall known headers -> chained headers -> keeps_node (AddBlockHeaders Blake2b env pow_fuel now headers).
Proof. intros Hk Hc. apply node_maintains_try_except, maintains_headers. by apply (ProcessSyncHeaders_maintains (db_wf := db_wf)). Qed.

Lemma node_op_maintains o : node_op_offered o -> keeps_node (node_op o).
Proof.
  intros Ho. destruct o; cbn [node_op]; (apply node_maintains_bind; [|intros; apply node_maintains_ret]).
  - apply node_maintains_try_except, maintains_headers. by apply (ProcessSingleHeader_maintains (db_wf := db_wf)).
  - destruct Ho. by apply AddBlockHeaders_maintains.
  - apply ProcessBlock_maintains. by split.
  - apply BlockChain_AddTransaction_maintains.
  - apply ProcessNextOrphanBlock_maintains.
Qed.

Lemma run_maintains ops : Forall node_op_offered ops -> forall c s, node_ok c s ->
  exists rs c' s', run node_op ops s = (rs, s') /\ node_ok c' s' /\ grows c c'.
Proof.
  intros Hops. induction Hops as [|o ops Hop _ IH]; intros c s Hn; [by exists [], c, s|].
  destruct (node_op_maintains o Hop c s Hn) as (r & c1 & s1 & E1 & Hn1 & Hg1). destruct (IH c1 s1 Hn1) as (rs & c2 & s2 & E2 & Hn2 & Hg2).
  exists (r :: rs), c2, s2. cbn [run]. rewrite E1, E2. split; [done|]. split; [done|]. by etrans.
Qed.

(** C1: as long as the headers and blocks that a node is offered are such that a
    hash names one header and one block, headers count what their blocks add,
    batches of headers are linked and sizes fit the bounds, whatever they are
    otherwise, valid or not, and whatever transactions come, in whatever order,
    with every exception, reorganisation and rollback on the way: the
    confirmed chain stays a history of validated blocks on top of the genesis
    block, of which hash set, positions, sums and files have exactly the effect;
    the candidate chain stays a chain of validated headers; what is written is
    what is committed; and the difficulty of neither chain falls. *)
Theorem node_invariant ops c s : Forall node_op_offered ops -> node_ok c s ->
  exists rs c' s', run node_op ops s = (rs, s') /\ node_ok c' s' /\ grows c c'.
Proof. intros Hops Hn. by apply run_maintains. Qed.

(** C2: the supply: after any operations on such headers and blocks, the outputs
    that the blocks of the confirmed chain create are the inputs they spend, the
    excesses of their kernels with the offset of the last header, and one reward
    for every block, up to what the genesis block left. *)
Theorem node_supply ops c s : Forall node_op_offered ops -> node_ok c s ->
  let s' := (run node_op ops s).2 in
  exists c' bs og kg i o k, node_ok c' s' /\ n_confirmed c' = confirmed_of g bs /\
    (exists sums, t_sums (n_tables c') !! BlockHeader_GetHash g = Some sums /\ sums_of (G := G) sums og kg) /\
    csum (chain_inputs bs) = Some i /\ csum (chain_outputs bs) = Some o /\ csum (chain_kernels bs) = Some k /\
    (bs = [] \/ gadd o og = gadd (gadd i (gadd (gadd k kg) (blind (bh_totalKernelOffset (tip_of g bs))))) (value (REWARD * length bs))).
Proof.
  intros Hops Hn. destruct (run_maintains ops Hops c s Hn) as (rs & c' & s' & E & Hn' & _). rewrite E. cbn [snd].
  pose proof Hn' as (_ & _ & (bs & y & Hc & Ec) & _). pose proof Hc as [_ _ _ (o & k & Hs) _ _ _].
  destruct (sums_chain_supply _ _ _ _ _ Hs) as (og & kg & i & oo & kk & Hg & Ei & Eo & Ek & Heq & -> & Hoff).
  exists c', bs, og, kg, i, oo, kk. split; [done|]. split; [done|]. split; [done|]. split; [done|]. split; [done|]. split; [done|].
  destruct bs as [|b bs]; [by left|right]. cbn [tip_of]. rewrite <- Heq, (Hoff b eq_refl). group.
Qed.

(** The batch of a block that is refused leaves nothing. *)
Lemma ProcessBlockInternal_throws c s fuel cb e s' : node_ok c s -> checked_ok cb ->
  ProcessBlockInternal Blake2b env fuel cb s = (Throw e, s') -> node_ok c s'.
Proof.
  intros (Hr & Hh & Hb & Ho) Hcb E. destruct (node_OnInit (db_wf := db_wf) Blake2b 0 ∅ Blake2b_length Blake2b_nonzero c s Hr) as [Hr0 Hsh0].
  destruct (ProcessBlockInternal_batch_ok c _ fuel cb Hr0 Hh Hb (shared_ok_shared _ _ Hsh0 Ho) Hcb) as (r & w' & c' & s1 & E1 & [Hr' _ _ Ho' _ Hf]).
  destruct (BatchWrite_ok (db_wf := db_wf) Blake2b 0 ∅ Blake2b_length Blake2b_nonzero _ c s r s1 w' c' Hr E1 Hr') as (s2 & E2 & Hn2 & Hsh2).
  unfold ProcessBlockInternal in E. rewrite E2 in E. injection E as -> <-. rewrite (Hf e eq_refl) in Hn2.
  split; [done|]. split; [done|]. split; [done|]. by eapply shared_ok_shared.
Qed.

(** What is left of a block that is refused after its header was looked at: the
    abstract state after [m], in which blocks and hash set are those before. *)
Lemma header_step_same {A} (m : ST CS A) c s : header_maintains m -> node_ok c s ->
  exists r c1 s1, m s = (r, s1) /\ node_ok c1 s1 /\ same_blocks c c1.
Proof.
  intros Hm (Hr & Hh & Hb & Ho). destruct (Hm c s Hr Hh Ho) as (r & c1 & s1 & E & Hr1 & Hh1 & Ho1 & Hs & _).
  exists r, c1, s1. split; [done|]. split; [|done]. split; [done|]. split; [done|]. split; [by apply (blocks_ok_same c)|done].
Qed.


(** C5: the search for the fork point of a block ends: it takes at most as many
    turns as the block is high. *)
Theorem DetermineBlockStatus_terminates c s cb (fuel : nat) : node_ok c s -> checked_ok cb -> n_confirmed c !! Z.to_nat (cbk_height cb) <> Some (cbk_hash cb) ->
  cbk_height cb < fuel -> exists info, DetermineBlockStatus fuel cb s = Ok info.
Proof.
  intros (Hr & Hh & (bs & y & Hc & Ec) & Ho) Hcb Hon Hfuel. unfold DetermineBlockStatus.
  rewrite (node_header (db_wf := db_wf) Blake2b 0 ∅ Blake2b_length Blake2b_nonzero _ _ _ _ Hr).
  destruct (t_headers (n_tables c) !! cbk_hash cb) as [h|] eqn:Et; [|by eexists].
  destruct (GetTotalDifficulty_confirmed _ _ _ _ _ Hr Hc Ec) as [-> _]. cbn [mbind result_bind]. destruct (BigInteger_eq _ _); [by eexists|].
  apply (fork_blocks_total c c c s bs y Hr Hh eq_refl Hc Ec Ho); [|done]. by apply (checked_fork_block c cb h bs).
Qed.

Local Abbreviation off_chain := (off_chain (db_wf := db_wf) (db_repr := db_repr) (R := R) (L := L) Blake2b env pow_fuel 0 ∅ Blake2b_length Blake2b_nonzero known Hof g pools_ok).
Local Abbreviation unknown_previous_batch := (unknown_previous_batch (db_wf := db_wf) (db_repr := db_repr) (R := R) (L := L) Blake2b env pow_fuel 0 ∅ Blake2b_length Blake2b_nonzero known Hof g pools_ok).
Local Abbreviation fork_headers_self := (fork_headers_self (db_wf := db_wf) (db_repr := db_repr) Blake2b env pow_fuel 0 ∅ Blake2b_length Blake2b_nonzero known Hof g pools_ok).

(** C28: a header that names itself as the previous one is kept as an orphan
    without any check of its proof of work, and when it is offered again the
    search for its fork point does not end. *)
Theorem ProcessOrphan_diverges c s h now fuel :
  node_ok c s -> known h -> bh_previousBlockHash h = BlockHeader_GetHash h ->
  t_headers (n_tables c) !! BlockHeader_GetHash h = None -> GetOrphanHeader (BlockHeader_GetHash h) (m_pOrphanPool s) = None -> is_bad_block h = false ->
  exists s', ProcessSingleHeader Blake2b env pow_fuel now (S (S fuel)) h s = (Ok ORPHANED, s') /\
    forall fuel', (ProcessSingleHeader Blake2b env pow_fuel now fuel' h s').1 = Throw OutOfFuel.
Proof.
  intros (Hn & Hc & _ & _) Hk Hself Hnone Hnew Hbad. unfold ProcessSingleHeader. rewrite Hbad. set (p := bh_previousBlockHash h) in *.
  pose proof (node_OnInit (db_wf := db_wf) (C := C) (L := L) (R := R) Blake2b 0 ∅ Blake2b_length Blake2b_nonzero) as Hinit.
  destruct (Hinit c s Hn) as [Hn0 Hsh0].
  assert (m_pOrphanPool (ChainState_OnInitWrite s) = m_pOrphanPool s) as Hpool by done.
  assert (t_headers (n_tables c) !! p = None) as Hpn by by rewrite Hself.
  assert (fork_headers (S (S fuel)) (Some h) [] (ChainState_OnInitWrite s) = Ok None) as E0.
  { cbn [fork_headers]. rewrite (off_chain c _ h Hn0 Hc Hk Hnone). cbn [mbind result_bind]. fold p. rewrite Hpool, Hself, Hnew, <- Hself.
    by rewrite (node_header (db_wf := db_wf) Blake2b 0 ∅ Blake2b_length Blake2b_nonzero _ _ _ _ Hn0), Hpn. }
  pose proof (unknown_previous_batch c _ h now _ _ Hn0 Hc Hk Hnone Hpn E0 (or_introl eq_refl)) as E1. cbn beta iota in E1.
  assert (node_rel c c (cs_set_orphans (AddOrphanHeader h (m_pOrphanPool (ChainState_OnInitWrite s))) (ChainState_OnInitWrite s))) as Hn1
    by (destruct Hn0; by constructor).
  destruct (BatchWrite_ok (db_wf := db_wf) Blake2b 0 ∅ Blake2b_length Blake2b_nonzero _ c s _ _ c c Hn E1 Hn1) as (s' & Es & Hn' & Hsh').
  exists s'. split; [exact Es|]. intros fuel'. destruct (Hinit c s' Hn') as [Hn2 Hsh2].
  assert (fork_headers fuel' (Some h) [] (ChainState_OnInitWrite s') = Throw OutOfFuel) as E2.
  { apply fork_headers_self; [by apply (off_chain c)|]. change (m_pOrphanPool (ChainState_OnInitWrite s')) with (m_pOrphanPool s'). injection Hsh' as _ -> _. fold p. rewrite Hself.
    unfold GetOrphanHeader. apply cache_get_put. }
  pose proof (unknown_previous_batch c _ h now _ _ Hn2 Hc Hk Hnone Hpn E2 (or_intror (ex_intro _ _ eq_refl))) as E3. cbn beta iota in E3.
  destruct (BatchWrite_ok (db_wf := db_wf) Blake2b 0 ∅ Blake2b_length Blake2b_nonzero _ c s' _ _ c c Hn' E3 Hn2) as (s2 & Es2 & _). by rewrite Es2.
Qed.
End spec.

(** ** Evaluation: a chain, and a fork that takes over

    One block on top of the genesis block, and a fork of two that is preferred
    when its second block comes, after one whose roots are wrong. *)
Definition node_pow (n : Z) : ProofOfWork := mkProofOfWork 8 (repeat n 42) (toy_hash (repeat n 42)).
Definition coinbase_body (r : Z) : TransactionBody :=
  mkTransactionBody [] [mkTransactionOutput 1 (toy_commit REWARD (example_blind r)) (repeat 0 675)]
    [mkTransactionKernel 1 Fee_new 0 (toy_commit 0 (example_blind r)) (repeat 1 64)].

(** The state after some blocks that spend nothing, for its roots. *)
Definition coinbase_state (bodies : list TransactionBody) : TState :=
  mkTState (concat (map tb_kernels bodies)) (map OutputIdentifier_FromOutput (concat (map tb_outputs bodies)))
    (map (fun o => mkRangeProof (to_rangeProof o)) (concat (map tb_outputs bodies))) ∅ None.

Definition coinbase_header (n height difficulty : Z) (previous root : Hash) (bodies : list TransactionBody) : BlockHeader :=
  let s := coinbase_state bodies in let k := length bodies in
  mkBlockHeader 1 height height previous root (output_root_of toy_hash s k) (proof_root_of toy_hash s k) (kernel_root_of toy_hash s k)
    (ZERO 32) (mmr_size k) (mmr_size k) difficulty 1 0 (node_pow n).

Definition node_genesis : BlockHeader := coinbase_header 1 0 1 ZERO_HASH ZERO_HASH [].
Definition node_header1 : BlockHeader := coinbase_header 2 1 10 (BlockHeader_GetHash node_genesis) (mmr_root toy_hash [leaf_of node_genesis]) [coinbase_body 5].
Definition fork_header1 : BlockHeader := coinbase_header 3 1 9 (BlockHeader_GetHash node_genesis) (mmr_root toy_hash [leaf_of node_genesis]) [coinbase_body 6].
Definition fork_header2 : BlockHeader :=
  coinbase_header 4 2 20 (BlockHeader_GetHash fork_header1) (mmr_root toy_hash [leaf_of node_genesis; leaf_of fork_header1]) [coinbase_body 6; coinbase_body 7].
Definition node_block1 : FullBlock := mkFullBlock node_header1 (coinbase_body 5).
Definition fork_block1 : FullBlock := mkFullBlock fork_header1 (coinbase_body 6).
Definition fork_block2 : FullBlock := mkFullBlock fork_header2 (coinbase_body 7).

(** A block whose roots are those of another body. *)
Definition bad_header : BlockHeader :=
  coinbase_header 5 2 19 (BlockHeader_GetHash fork_header1) (mmr_root toy_hash [leaf_of node_genesis; leaf_of fork_header1]) [coinbase_body 6; coinbase_body 7].
Definition bad_block : FullBlock := mkFullBlock bad_header (coinbase_body 8).

(** A header that names itself as the previous one. *)
Definition self_header : BlockHeader := coinbase_header 6 1 30 (toy_hash (repeat 6 42)) ZERO_HASH [].
Definition node_headers : list BlockHeader := [node_genesis; node_header1; fork_header1; fork_header2; bad_header; self_header].
Definition node_blocks : list FullBlock := [node_block1; fork_block1; fork_block2; bad_block].

Definition node_x0 : TState * Positions := (mkTState [] [] [] ∅ (Some node_genesis), ∅).
Definition node_sums : BlockSums := mkBlockSums ZERO_COMMITMENT ZERO_COMMITMENT.
Definition node_tables : DBTables := mkDBTables (<[BlockHeader_GetHash node_genesis := node_genesis]> ∅) ∅ (<[BlockHeader_GetHash node_genesis := node_sums]> ∅) ∅ ∅.
Definition node_start : NState := mkNState [BlockHeader_GetHash node_genesis] [node_genesis] node_tables (Some node_x0.1).

(** The objects: what opening empty files gives, with the genesis header. *)
Abbreviation ToyNode := (ChainState DataFile (list Z) MapDB (list (Hash * BlockHeader)) (list (Commitment * Commitment))).
Definition node_mmr : HeaderMMR DataFile := (HeaderMMR_Commit (AddHeader toy_hash node_genesis (HeaderMMR_Load (DataFile_Load []))).2).2.
Definition node_chain : Chain DataFile :=
  match Chain_Load (DataFile_Load []) (mkBlockIndex (BlockHeader_GetHash node_genesis) 0) with Ok ch => ch | Throw _ => mkChain (DataFile_Load []) [] 0 false end.
Definition toy_node : ToyNode :=
  mkChainState (mkChainStore node_chain node_chain) (node_tables, node_tables) node_mmr
    (Some (TxHashSet_new (empty_kernel_mmr true) empty_pmmr empty_pmmr (Some node_genesis))) (mkTransactionPool [] []) (mkOrphanPool ∅ []) [].

Ltac node_header_cases H := unfold node_headers in H; repeat (apply elem_of_cons in H as [->|H]); [..|by apply elem_of_nil in H].

Lemma node_offered : offered (db_wf := fun _ => True) (fun h => h ∈ node_headers).
Proof.
  constructor.
  - intros h Hh. node_header_cases Hh; (split; [vm_compute; reflexivity|]; split; [vm_compute; reflexivity|]; split; [done|]; vm_compute; split; congruence).
  - intros h Hh. node_header_cases Hh; split; vm_compute; reflexivity.
  - intros h h' Hh Hh' E. node_header_cases Hh; node_header_cases Hh'; solve [reflexivity|exfalso; revert E; vm_compute; congruence].
Qed.

Lemma toy_commit_length v r : length (toy_commit v r) = 33%nat.
Proof. unfold toy_commit. cbn [length]. by rewrite length_be_bytes. Qed.

Lemma coinbase_kernel_wf v r : TransactionKernel_wf v (mkTransactionKernel 1 Fee_new 0 (toy_commit 0 (example_blind r)) (repeat 1 64)).
Proof. constructor; cbn; [lia|by split|done|done|done|done|]. intros _. split; [done|]. by intros [|]. Qed.

Lemma coinbase_offered n height difficulty previous root bodies r : coinbase_header n height difficulty previous root bodies ∈ node_headers ->
  (forall p (nk no : nat), p ∈ node_headers -> previous = BlockHeader_GetHash p -> bh_kernelMMRSize p = mmr_size nk -> bh_outputMMRSize p = mmr_size no ->
     length bodies = (nk + 1)%nat /\ length bodies = (no + 1)%nat) ->
  offered_block (db_wf := fun _ => True) (fun h => h ∈ node_headers) (mkFullBlock (coinbase_header n height difficulty previous root bodies) (coinbase_body r)).
Proof.
  intros Hh Hs. constructor; cbn [fb_body fb_header coinbase_body tb_inputs tb_outputs tb_kernels length].
  - done.
  - by split; [constructor|].
  - constructor; [|constructor]. split; [done|]. split; [apply toy_commit_length|done].
  - constructor; [|constructor]. apply TransactionKernel_kernel_wf; apply coinbase_kernel_wf.
  - constructor; cbn; [constructor|constructor; [apply toy_commit_length|constructor]..|constructor; [done|constructor]|done].
  - done.
  - done.
  - intros p nk no Hp Hprev Hk Ho. destruct (Hs p nk no Hp Hprev Hk Ho) as [E1 E2]. cbn. by rewrite <- E1, <- E2.
Qed.


Lemma node_offered_blocks : offered_blocks (db_wf := fun _ => True) node_x0 (fun h => h ∈ node_headers) node_blocks.
Proof.
  assert (forall n m : nat, mmr_size n = mmr_size m -> n = m) as Hinj by (intros n m E; apply mmr_size_inj in E; lia).
  constructor.
  - intros b Hb. unfold node_blocks in Hb. repeat (apply elem_of_cons in Hb as [->|Hb]); [..|by apply elem_of_nil in Hb];
      (apply coinbase_offered; [by repeat constructor|]); intros p nk no Hp E Ek Eo;
      node_header_cases Hp; try (exfalso; revert E; vm_compute; congruence); apply Hinj in Ek, Eo; subst; done.
  - intros b b' Hb Hb' E. unfold node_blocks in Hb, Hb'.
    repeat (apply elem_of_cons in Hb as [->|Hb]); [..|by apply elem_of_nil in Hb]; repeat (apply elem_of_cons in Hb' as [->|Hb']); try (by apply elem_of_nil in Hb');
      solve [reflexivity|exfalso; revert E; vm_compute; congruence].
  - split; [|done]. split; [lia|vm_compute; reflexivity].
Qed.

Lemma node_genesis_ok : genesis_ok node_genesis node_x0 (fun h => h ∈ node_headers).
Proof.
  constructor; [reflexivity|apply list_elem_of_here|reflexivity| |split; reflexivity].
  constructor; cbn [fst snd]; [split; [done|]; intros j []%not_elem_of_empty| | |]; intros ? ?; rewrite ?lookup_empty; done.
Qed.

Lemma node_chain_rel : chain_rel [BlockHeader_GetHash node_genesis] [BlockHeader_GetHash node_genesis] node_chain.
Proof.
  destruct (Chain_Load_ok [] (DataFile_Load []) (mkBlockIndex (BlockHeader_GetHash node_genesis) 0) empty_file_repr) as (ch & E & Hch); [constructor|reflexivity|done|by left|].
  unfold node_chain. by rewrite E.
Qed.

Lemma node_mmr_rel : hmmr_rel toy_hash [leaf_of node_genesis] [leaf_of node_genesis] node_mmr.
Proof.
  assert (hmmr_rel toy_hash [] [] (HeaderMMR_Load (DataFile_Load []))) as H0.
  { constructor; [|done|done]. exists [], []. split; [exact empty_file_repr|]. split; apply tree_hashes_nil. }
  destruct (AddHeader_ok toy_hash toy_hash_length toy_hash_nonzero [] [] _ node_genesis (leaf_of node_genesis) H0) as (m & E & Hm); [vm_compute; reflexivity|done|].
  destruct (HeaderMMR_Commit_ok toy_hash toy_hash_length toy_hash_nonzero _ _ _ Hm) as (m' & E' & Hm' & _).
  unfold node_mmr. rewrite E. cbn [snd]. by rewrite E'.
Qed.

Lemma node_start_ok : node_ok (db_repr := MapDB_repr) toy_hash AUTOMATED_TESTING 0 node_genesis node_x0 (fun h => h ∈ node_headers) node_blocks node_start toy_node.
Proof.
  split; [|split; [|split]].
  - constructor; [split; exact node_chain_rel|done|exact node_mmr_rel|].
    pose proof empty_txhashset_rel as H. destruct H as [H1' H2' H3' H4' H5' H6' H7' H8']. by constructor.
  - assert (forall k h, t_headers node_tables !! k = Some h -> k = BlockHeader_GetHash node_genesis /\ h = node_genesis) as Ht.
    { cbn [node_tables t_headers]. intros k h [[<- <-]|[_ Hx]]%lookup_insert_Some; [done|]. by rewrite lookup_empty in Hx. }
    constructor; cbn [node_start n_tables n_candidate].
    + intros k h [-> ->]%Ht. split; [done|apply list_elem_of_here].
    + intros k h [-> ->]%Ht. by left.
    + intros [|i] h Hi; [|done]. injection Hi as <-. split; [done|apply lookup_insert_eq].
    + intros i p h _ Hi. by destruct i.
    + done.
  - exists [], node_x0. split; [|done]. constructor; [constructor|done|done| |constructor|apply lookup_insert_eq|].
    + exists (gzero : toy_group), (gzero : toy_group), node_sums. split; [apply lookup_insert_eq|]. unfold sums_of. repeat split; reflexivity.
    + intros k b. cbn. by rewrite lookup_empty.
  - split; [|split].
    + intros k h. unfold GetOrphanHeader. done.
    + intros height. cbn. rewrite lookup_empty. constructor.
    + apply empty_cache_wf.
Qed.

Definition node_ops : list NodeOp := [OfferBlock 0 5 node_block1; OfferBlock 0 5 fork_block1; OfferBlock 0 5 bad_block; OfferBlock 0 5 fork_block2; NextOrphanBlock 0 5].

Lemma node_ops_offered : Forall (node_op_offered (fun h => h ∈ node_headers) node_blocks) node_ops.
Proof. repeat (constructor; [cbn; by repeat constructor|]). constructor. Qed.

Local Abbreviation node_op' := (node_op toy_hash AUTOMATED_TESTING 0).
Local Abbreviation toy_known := (fun h => h ∈ node_headers).
Local Abbreviation toy_ok := (node_ok (db_repr := MapDB_repr) toy_hash AUTOMATED_TESTING 0 node_genesis node_x0 toy_known node_blocks).

Lemma node_after ops : Forall (node_op_offered toy_known node_blocks) ops -> exists c, toy_ok c (run node_op' ops toy_node).2.
Proof.
  intros Hops. destruct (run_maintains (db_wf := fun _ => True) toy_hash AUTOMATED_TESTING 0 toy_hash_length toy_hash_nonzero
    (fun _ _ => I) (fun _ _ _ => I) (fun _ _ _ => I) node_genesis node_x0 toy_known node_blocks node_offered node_offered_blocks node_genesis_ok
    ops Hops node_start toy_node node_start_ok) as (rs & c & s & E & Hn & _). exists c. by rewrite E.
Qed.

Lemma node_invariant_witness :
  (run node_op' node_ops toy_node).1 = [Ok (inl SUCCESS); Ok (inl SUCCESS); Throw BadDataException; Ok (inl SUCCESS); Ok (inr false)] /\
  exists rs c s, run node_op' node_ops toy_node = (rs, s) /\ toy_ok c s /\ grows AUTOMATED_TESTING node_start c.
Proof.
  split; [vm_compute; reflexivity|].
  exact (node_invariant (db_wf := fun _ => True) toy_hash AUTOMATED_TESTING 0 toy_hash_length toy_hash_nonzero
    (fun _ _ => I) (fun _ _ _ => I) (fun _ _ _ => I) node_genesis node_x0 toy_known node_blocks node_offered node_offered_blocks node_genesis_ok
    node_ops node_start toy_node node_ops_offered node_start_ok).
Defined.

Lemma node_supply_witness : exists c bs og kg i o k,
  toy_ok c (run node_op' node_ops toy_node).2 /\ n_confirmed c = confirmed_of node_genesis bs /\
  (exists sums, t_sums (n_tables c) !! BlockHeader_GetHash node_genesis = Some sums /\ sums_of (G := toy_group) sums og kg) /\
  csum (chain_inputs bs) = Some i /\ csum (chain_outputs bs) = Some o /\ csum (chain_kernels bs) = Some k /\
  (bs = [] \/ gadd o og = gadd (gadd i (gadd (gadd k kg) (blind (bh_totalKernelOffset (tip_of node_genesis bs))))) (value (REWARD * length bs))).
Proof.
  exact (node_supply (db_wf := fun _ => True) toy_hash AUTOMATED_TESTING 0 toy_hash_length toy_hash_nonzero
    (fun _ _ => I) (fun _ _ _ => I) (fun _ _ _ => I) node_genesis node_x0 toy_known node_blocks node_offered node_offered_blocks node_genesis_ok
    node_ops node_start toy_node node_ops_offered node_start_ok).
Defined.

(** The reorganisation fails at its second block. *)
Definition bad_ops : list NodeOp := [OfferBlock 0 5 node_block1; OfferBlock 0 5 fork_block1; OfferHeader 0 5 bad_header].

Lemma bad_ops_offered : Forall (node_op_offered toy_known node_blocks) bad_ops.
Proof. repeat (constructor; [cbn; by repeat constructor|]). constructor. Qed.

Lemma node_checked b : b ∈ node_blocks -> checked_ok toy_hash AUTOMATED_TESTING node_blocks (mkCheckedBlock b false).
Proof. by split. Qed.


Lemma DetermineBlockStatus_terminates_witness : exists info,
  DetermineBlockStatus 3 (mkCheckedBlock bad_block false) (run node_op' bad_ops toy_node).2 = Ok info.
Proof.
  destruct (node_after bad_ops bad_ops_offered) as [c Hc].
  refine (DetermineBlockStatus_terminates (db_wf := fun _ => True) toy_hash AUTOMATED_TESTING 0 toy_hash_length toy_hash_nonzero
    (fun _ _ => I) (fun _ _ _ => I) (fun _ _ _ => I) node_genesis node_x0 toy_known node_blocks node_offered node_offered_blocks node_genesis_ok
    c _ (mkCheckedBlock bad_block false) 3 Hc (node_checked bad_block _) _ _); [repeat constructor| |vm_compute; reflexivity].
  assert (IsOnChain 2 (cbk_hash (mkCheckedBlock bad_block false)) (cs_chain CONFIRMED (run node_op' bad_ops toy_node).2) = Ok false) as E by (vm_compute; reflexivity).
  rewrite (IsOnChain_ok _ _ _ _ _ (node_confirmed (db_wf := fun _ => True) toy_hash 0 ∅ toy_hash_length toy_hash_nonzero _ _ _ (proj1 Hc))) in E by done.
  intros H. rewrite bool_decide_eq_true_2 in E; [discriminate|exact H].
Defined.

Lemma ProcessOrphan_diverges_witness : exists s',
  ProcessSingleHeader toy_hash AUTOMATED_TESTING 0 0 2 self_header toy_node = (Ok ORPHANED, s') /\
  forall fuel', (ProcessSingleHeader toy_hash AUTOMATED_TESTING 0 0 fuel' self_header s').1 = Throw OutOfFuel.
Proof.
  refine (ProcessOrphan_diverges (db_wf := fun _ => True) toy_hash AUTOMATED_TESTING 0 toy_hash_length toy_hash_nonzero
    (fun _ _ => I) (fun _ _ _ => I) (fun _ _ _ => I) node_genesis node_x0 toy_known node_blocks node_offered node_offered_blocks node_genesis_ok
    node_start toy_node self_header 0 0 node_start_ok _ _ _ _ _); [repeat constructor|vm_compute; reflexivity..].
Defined.

(** A block whose header has the proof of work of a stored header, and is
    otherwise another, is checked against its own header only: it is accepted on
    top of the genesis block, although nothing of what it says was ever looked
    at with the rules for headers. *)
Definition forged_header : BlockHeader :=
  let s := coinbase_state [coinbase_body 9] in
  mkBlockHeader 1 1 123456789 (BlockHeader_GetHash node_genesis) ZERO_HASH (output_root_of toy_hash s 1) (proof_root_of toy_hash s 1) (kernel_root_of toy_hash s 1)
    (ZERO 32) 1 1 (2 ^ 40) 1 0 (node_pow 2).
Definition forged_block : FullBlock := mkFullBlock forged_header (coinbase_body 9).

Lemma forged_block_accepted :
  let s := (run node_op' [OfferHeader 0 5 node_header1] toy_node).2 in
  let '(r, s') := node_op' (OfferBlock 0 5 forged_block) s in
  (node_op' (OfferHeader 0 5 forged_header) toy_node).1 = Throw BadDataException /\
  r = Ok (inl SUCCESS) /\ db_GetBlock (BlockHeader_GetHash node_header1) (m_pBlockDB s') = Some forged_block /\
  db_GetBlockHeader (BlockHeader_GetHash node_header1) (m_pBlockDB s') = Some node_header1 /\ node_header1 <> forged_header.
Proof. vm_compute. repeat split; congruence. Qed.
