(* ===== verification/HeaderSync.v ===== *)
(** * Synchronising headers ([src/P2P/BlockLocator.cpp], [HeaderBatchCache.cpp])

    The locators a node asks for headers with and the headers it answers with;
    and the cache of received batches, from which those that fit on top of the
    candidate chain are handed to the block chain.  Peers are numbers; the
    messages they are sent, logging and locks are left out. *)
From S2P Require Import Prelude BitUtil Serial BigInteger File Roaring MMRHash Consensus Transaction Crypto Header Block BlockDB Validation Chain ChainState HeaderProcessor BlockChain.

(** [include/P2P/Common.h] *)
Definition MAX_BLOCK_HEADERS : Z := 512.
Definition MAX_LOCATORS : Z := 20.

(** What both need of the block chain; heights are those of the candidate chain. *)
Class HeaderChain (S : Type) := {
  hc_AddBlockHeaders : list BlockHeader -> ST S EBlockChainStatus;
  hc_GetBlockHeaderByHeight : Z -> S -> option BlockHeader;
  hc_GetBlockHeaderByHash : Hash -> S -> option BlockHeader;
  hc_GetHeight : S -> Z;
}.

(** ** [BlockLocator] *)
Section locator.
Context {S : Type} {HC : HeaderChain S}.
Implicit Types (s : S).

(** At most [MAX_LOCATORS] turns. *)
Fixpoint locator_heights (fuel : nat) (current : Z) (heights : list Z) : list Z :=
  match fuel with
  | O => heights
  | Datatypes.S fuel =>
      if negb (current >? 0) then heights
      else
        let heights := heights ++ [current] in
        if length heights >=? MAX_LOCATORS - 1 then heights
        else
          let next := 2 ^ length heights in
          if current >? next then locator_heights fuel (current - next)%u64 heights else heights
  end.

Definition GetLocatorHeights (headerHeight : Z) : list Z := locator_heights (Z.to_nat MAX_LOCATORS) headerHeight [] ++ [0].

Definition GetLocators (headerHeight : Z) s : list Hash :=
  omap (fun height => option_map BlockHeader_GetHash (hc_GetBlockHeaderByHeight height s)) (GetLocatorHeights headerHeight).

Fixpoint FindCommonHeader (locatorHashes : list Hash) s : option BlockHeader :=
  match locatorHashes with
  | [] => None
  | locatorHash :: locatorHashes =>
      match hc_GetBlockHeaderByHash locatorHash s with
      | Some header => Some header
      | None => FindCommonHeader locatorHashes s
      end
  end.

(** The first header that is missing ends the list. *)
Fixpoint headers_from (k : nat) (height : Z) s : list BlockHeader :=
  match k with
  | O => []
  | Datatypes.S k =>
      match hc_GetBlockHeaderByHeight height s with
      | None => []
      | Some header => header :: headers_from k (height + 1)%u64 s
      end
  end.

Definition LocateHeaders (locatorHashes : list Hash) s : list BlockHeader :=
  match FindCommonHeader locatorHashes s with
  | None => []
  | Some commonHeader =>
      let headerHeight := bh_height commonHeader in
      let numHeadersToSend := Z.min (hc_GetHeight s - headerHeight)%u64 MAX_BLOCK_HEADERS in
      headers_from (Z.to_nat numHeadersToSend) (headerHeight + 1)%u64 s
  end.
End locator.

(** ** [HeaderBatchCache] *)
Definition MAX_CACHED_HEADER_BATCHES : Z := 16.
Definition PIHD_MAX_PROCESS_HEADER_BATCH_SIZE : Z := 2048.

Inductive HeaderSource := LegacyHeaders | PIHDSegment.
#[export] Instance HeaderSource_eq_dec : EqDecision HeaderSource.
Proof. solve_decision. Defined.

Definition GetMaxProcessHeaderBatchSize (source : HeaderSource) : Z :=
  match source with PIHDSegment => PIHD_MAX_PROCESS_HEADER_BATCH_SIZE | LegacyHeaders => MAX_BLOCK_HEADERS end.

Record CachedBatch := mkCachedBatch {
  hb_headers : list BlockHeader;
  hb_connection : option Z;
  hb_source : HeaderSource;
}.
Definition hb_set_headers (headers : list BlockHeader) (b : CachedBatch) : CachedBatch := mkCachedBatch headers (hb_connection b) (hb_source b).

(** The cache with the chain it feeds and the peers that were banned on the way. *)
Record HeaderSyncState {S : Type} := mkHeaderSyncState {
  m_batches : list CachedBatch;
  hs_chain : S;
  hs_banned : list Z;
}.
Arguments HeaderSyncState : clear implicits.
Arguments mkHeaderSyncState {S}.

Definition StartsBefore (lhs rhs : CachedBatch) : bool :=
  match hb_headers lhs, hb_headers rhs with
  | [], _ => false
  | _, [] => true
  | l :: _, r :: _ => bh_height l <? bh_height r
  end.

(** [std::sort] by [StartsBefore]: it leaves open in which order batches that
    start at one height are. *)
Fixpoint insert_batch (b : CachedBatch) (batches : list CachedBatch) : list CachedBatch :=
  match batches with
  | [] => [b]
  | b' :: rest => if StartsBefore b' b then b' :: insert_batch b rest else b :: batches
  end.
Definition sort_batches (batches : list CachedBatch) : list CachedBatch := foldr insert_batch [] batches.

Section cache.
Context {S : Type} {HC : HeaderChain S}.
Implicit Types (s : S) (headers : list BlockHeader) (batches : list CachedBatch).

Definition on_candidate_chain s (header : BlockHeader) : bool :=
  match hc_GetBlockHeaderByHeight (bh_height header) s with
  | Some known => BigInteger_eq (BlockHeader_GetHash known) (BlockHeader_GetHash header)
  | None => false
  end.

Fixpoint TrimAlreadyKnownPrefix headers s : list BlockHeader :=
  match headers with
  | [] => []
  | header :: rest => if on_candidate_chain s header then TrimAlreadyKnownPrefix rest s else headers
  end.

Definition IsDuplicate headers batches : bool :=
  match headers, last headers with
  | front :: _, Some back =>
      existsb (fun batch =>
        match hb_headers batch, last (hb_headers batch) with
        | first :: _, Some last =>
            BigInteger_eq (BlockHeader_GetHash first) (BlockHeader_GetHash front) || BigInteger_eq (BlockHeader_GetHash last) (BlockHeader_GetHash back)
        | _, _ => false
        end) batches
  | _, _ => false
  end.

Definition IsReady headers s : bool :=
  match headers with
  | [] => false
  | front :: _ =>
      if bh_height front =? 0 then true
      else
        match hc_GetBlockHeaderByHeight (bh_height front - 1)%u64 s with
        | Some previous => BigInteger_eq (BlockHeader_GetHash previous) (bh_previousBlockHash front)
        | None => false
        end
  end.

(** One pass over the cache for a batch to go on with: none (with the batches as
    they were trimmed on the way), one that turned out empty and is removed, or
    one that is taken out. *)
Inductive Found := NotFound (batches : list CachedBatch) | Emptied (batches : list CachedBatch) | Taken (batch : CachedBatch) (batches : list CachedBatch).

Definition found_after (b : CachedBatch) (f : Found) : Found :=
  match f with
  | NotFound batches => NotFound (b :: batches)
  | Emptied batches => Emptied (b :: batches)
  | Taken batch batches => Taken batch (b :: batches)
  end.

(** [considered] are the batches looked at, [fits] those to take once trimmed. *)
Fixpoint find_batch (considered fits : CachedBatch -> bool) batches s : Found :=
  match batches with
  | [] => NotFound []
  | b :: batches =>
      if negb (considered b) then found_after b (find_batch considered fits batches s)
      else
        let trimmed := hb_set_headers (TrimAlreadyKnownPrefix (hb_headers b) s) b in
        match hb_headers trimmed with
        | [] => Emptied batches
        | _ => if fits trimmed then Taken trimmed batches else found_after trimmed (find_batch considered fits batches s)
        end
  end.

(** The loop of [TryAppendContiguousReadyBatches]: a batch that follows the
    headers so far, and for which there is room. *)
Definition follows_headers headers (source : HeaderSource) (b : CachedBatch) : bool :=
  match hb_headers b, last headers with
  | next :: _, Some last =>
      (bh_height next =? (bh_height last + 1)%u64) && BigInteger_eq (bh_previousBlockHash next) (BlockHeader_GetHash last) &&
      (length (hb_headers b) <=? GetMaxProcessHeaderBatchSize source - length headers)
  | _, _ => false
  end.

Definition same_source (source : HeaderSource) (b : CachedBatch) : bool :=
  bool_decide (hb_source b = source) && match hb_headers b with [] => false | _ => true end.

(** Every turn but the last removes a batch, so that their number is enough fuel. *)
Fixpoint TryAppendContiguousReadyBatches (fuel : nat) headers (pConnection : option Z) (source : HeaderSource) batches s
    : list BlockHeader * option Z * list CachedBatch :=
  match fuel with
  | O => (headers, pConnection, batches)
  | Datatypes.S fuel =>
      if match headers with [] => true | _ => false end || negb (length headers <? GetMaxProcessHeaderBatchSize source) then (headers, pConnection, batches)
      else
        match find_batch (same_source source) (follows_headers headers source) (sort_batches batches) s with
        | NotFound batches => (headers, pConnection, batches)
        | Emptied batches => TryAppendContiguousReadyBatches fuel headers pConnection source batches s
        | Taken b batches =>
            TryAppendContiguousReadyBatches fuel (headers ++ hb_headers b)
              match pConnection with None => hb_connection b | Some _ => pConnection end source batches s
        end
  end.

Definition ban (pConnection : option Z) : ST (HeaderSyncState S) unit :=
  st_modify (fun x => mkHeaderSyncState (m_batches x) (hs_chain x)
    (match pConnection with Some peer => peer :: hs_banned x | None => hs_banned x end)).

Definition set_batches batches : ST (HeaderSyncState S) unit := st_modify (fun x => mkHeaderSyncState batches (hs_chain x) (hs_banned x)).

(** The headers are handed over, and an invalid batch bans the peer it came from. *)
Definition process_batch headers (pConnection : option Z) : ST (HeaderSyncState S) unit := fun x =>
  let '(r, s) := hc_AddBlockHeaders headers (hs_chain x) in
  let x := mkHeaderSyncState (m_batches x) s (hs_banned x) in
  match r with
  | Ok INVALID => ban pConnection x
  | Ok _ => (Ok tt, x)
  | Throw BadDataException => ban pConnection x
  | Throw e => if is_std e then (Ok tt, x) else (Throw e, x)
  end.

(** Every turn but the last removes a batch, so that their number is enough fuel. *)
Fixpoint ProcessReadyBatches (fuel : nat) : ST (HeaderSyncState S) unit :=
  match fuel with
  | O => st_throw OutOfFuel
  | Datatypes.S fuel =>
      x ← st_get;
      match find_batch (fun _ => true) (fun b => IsReady (hb_headers b) (hs_chain x)) (sort_batches (m_batches x)) (hs_chain x) with
      | NotFound batches => set_batches batches
      | Emptied batches => _ ← set_batches batches; ProcessReadyBatches fuel
      | Taken b batches =>
          let '(headers, pConnection, batches) :=
            TryAppendContiguousReadyBatches (length batches) (hb_headers b) (hb_connection b) (hb_source b) batches (hs_chain x) in
          _ ← set_batches batches;
          _ ← process_batch headers pConnection;
          ProcessReadyBatches fuel
      end
  end.

Definition AddHeaders (pConnection : option Z) headers (source : HeaderSource) : ST (HeaderSyncState S) unit :=
  match headers with
  | [] => mret tt
  | _ =>
      x ← st_get;
      let headers := TrimAlreadyKnownPrefix headers (hs_chain x) in
      match headers with
      | [] => mret tt
      | _ =>
          if IsDuplicate headers (m_batches x) then mret tt
          else
            let batches := if length (m_batches x) >=? MAX_CACHED_HEADER_BATCHES then tail (m_batches x) else m_batches x in
            let batches := batches ++ [mkCachedBatch headers pConnection source] in
            _ ← set_batches batches;
            ProcessReadyBatches (Datatypes.S (length batches))
      end
  end.

Definition HeaderBatchCache_Clear : ST (HeaderSyncState S) unit := set_batches [].
End cache.

(** ** The chain of a node *)
Section node.
Context {F : Type} {HF : HashFile F} {R : Type} {HR : Roaring R} {B : Type} {HB : IBlockDB B}.
Context {P : Type} {SP : Secp256k1 P} {C : Type} {HC : LRUCache Hash BlockHeader C} {L : Type} {HL : LRUCache Commitment Commitment L}.
Context (Blake2b : bytes -> Hash) (env : Environment) (pow_fuel : nat) (now : Z).

Definition ChainState_HeaderChain : HeaderChain (ChainState F R B C L) := {|
  hc_AddBlockHeaders := AddBlockHeaders Blake2b env pow_fuel now;
  hc_GetBlockHeaderByHeight := fun height s => GetBlockHeaderByHeight height CANDIDATE s;
  hc_GetBlockHeaderByHash := fun hash s => db_GetBlockHeader hash (m_pBlockDB s);
  hc_GetHeight := fun s => GetHeight CANDIDATE s;
|}.
End node.
