(* ===== verification/HeaderSyncSpec.v ===== *)
(** * What the synchronisation of headers keeps

    The locators in closed form; the headers a node answers with; and the cache
    of batches: it stays small, feeds the chain only headers that follow each
    other on top of it, leaves no batch that would fit, and keeps what the chain
    keeps. *)
From S2P Require Import Prelude BitUtil MMRIndex MMRUtil Serial BigInteger File Roaring PruneList MMRHash SegmentId SegmentProof Segment PruneableMMR Consensus Transaction Crypto Header Block BlockSpec BlockDB TxHashSet UtxoSpec TxHashSetSpec Validation ValidationSpec Chain OrphanPool HeaderMMR TxPool Difficulty Cuckoo ChainState HeaderProcessor BlockProcessor BlockChain ChainStateSpec HeaderSpec BlockHistory BlockProcessorSpec HeaderSync NodeSpec.

(** ** Locators *)
Definition locator_at (headerHeight i : Z) : Z := headerHeight + 2 - 2 ^ (i + 1).

Lemma locator_at_next h i : 0 <= i -> locator_at h (i + 1) = locator_at h i - 2 ^ (i + 1).
Proof. intros Hi. unfold locator_at. rewrite (Z.pow_add_r 2 (i + 1) 1) by lia. lia. Qed.

Lemma locator_heights_ok h (fuel : nat) : 0 <= h < 2 ^ 64 -> forall k : nat, k + fuel = MAX_LOCATORS -> k < MAX_LOCATORS - 1 -> 
  (forall i, 0 <= i <= k -> 0 < locator_at h i) ->
  exists n : nat, locator_heights fuel (locator_at h k) (map (locator_at h) (seqZ 0 k)) = map (locator_at h) (seqZ 0 n) /\
    n <= MAX_LOCATORS - 1 /\ (forall i, 0 <= i < n -> 0 < locator_at h i) /\ (n = MAX_LOCATORS - 1 :> Z \/ locator_at h n <= 0).
Proof.
  intros Hh. change MAX_LOCATORS with 20. induction fuel as [|fuel IH]; intros k Hk Hlt Hpos; [lia|]. cbn [locator_heights].
  pose proof (Hpos k ltac:(lia)). rewrite Z.gtb_ltb. destruct (Z.ltb_spec 0 (locator_at h k)) as [_|]; [|lia]. cbn [negb].
  assert (map (locator_at h) (seqZ 0 k) ++ [locator_at h k] = map (locator_at h) (seqZ 0 (S k))) as -> by (by rewrite seqZ_S, map_app, Z.add_0_l).
  rewrite length_map, length_seqZ, Nat2Z.id. change MAX_LOCATORS with 20. rewrite Z.geb_leb. destruct (Z.leb_spec (20 - 1) (S k)) as [Hn|Hn].
  - exists (S k). split; [done|]. split; [lia|]. split; [intros i Hi; apply Hpos; lia|]. left. lia.
  - replace (Z.of_nat (S k)) with (k + 1) by lia. pose proof (locator_at_next h k ltac:(lia)) as Hnext.
    assert (0 < 2 ^ (k + 1)) by (apply Z.pow_pos_nonneg; lia).
    rewrite Z.gtb_ltb. destruct (Z.ltb_spec (2 ^ (k + 1)) (locator_at h k)) as [Hgt|Hle].
    + rewrite (uint_small 64 (locator_at h k - _)) by (unfold is_uint, locator_at in *; lia). rewrite <- Hnext. replace (k + 1) with (Z.of_nat (S k)) by lia.
      apply (IH (S k)); try lia. intros i Hi. destruct (decide (i = S k)) as [->|]; [|apply Hpos; lia].
      replace (Z.of_nat (S k)) with (k + 1) by lia. lia.
    + exists (S k). split; [by replace (Z.of_nat (S k)) with (k + 1) by lia|]. split; [lia|]. split; [intros i Hi; apply Hpos; lia|]. right. replace (Z.of_nat (S k)) with (k + 1) by lia. lia.
Qed.

Lemma GetLocatorHeights_ok h : 0 <= h < 2 ^ 64 -> exists n : nat,
  GetLocatorHeights h = map (locator_at h) (seqZ 0 n) ++ [0] /\ n <= MAX_LOCATORS - 1 /\
  (forall i, 0 <= i < n -> 0 < locator_at h i) /\ (n = MAX_LOCATORS - 1 :> Z \/ locator_at h n <= 0).
Proof.
  intros Hh. unfold GetLocatorHeights. destruct (decide (h = 0)) as [->|Hne].
  - exists 0%nat. split; [done|]. split; [done|]. split; [lia|]. by right.
  - destruct (locator_heights_ok h (Z.to_nat MAX_LOCATORS) Hh 0) as (n & E & Hn); [done|done| |].
    + intros i Hi. replace i with 0 by lia. unfold locator_at. lia.
    + exists n. split; [|done]. rewrite <- E. f_equal. f_equal. unfold locator_at. cbn. lia.
Qed.

(** ** The cache *)
Lemma insert_batch_perm b batches : insert_batch b batches ≡ₚ b :: batches.
Proof. induction batches as [|b' rest IH]; cbn [insert_batch]; [done|]. destruct (StartsBefore b' b); [|done]. rewrite IH. constructor. Qed.

Lemma sort_batches_perm batches : sort_batches batches ≡ₚ batches.
Proof. induction batches as [|b rest IH]; cbn [sort_batches foldr]; [done|]. fold (sort_batches rest). by rewrite insert_batch_perm, IH. Qed.

Section cache.
Context {S : Type} {HC : HeaderChain S}.
Implicit Types (s : S) (headers : list BlockHeader) (batches : list CachedBatch) (b : CachedBatch).

Lemma trim_suffix headers s : TrimAlreadyKnownPrefix headers s `suffix_of` headers.
Proof.
  induction headers as [|h rest IH]; cbn [TrimAlreadyKnownPrefix]; [done|]. destruct (on_candidate_chain s h); [|done]. by apply suffix_cons_r.
Qed.

Lemma trim_idemp headers s : TrimAlreadyKnownPrefix (TrimAlreadyKnownPrefix headers s) s = TrimAlreadyKnownPrefix headers s.
Proof.
  induction headers as [|h rest IH]; cbn [TrimAlreadyKnownPrefix]; [done|]. destruct (on_candidate_chain s h) eqn:E; [done|].
  cbn [TrimAlreadyKnownPrefix]. by rewrite E.
Qed.

(** A property of lists of headers that their suffixes have. *)
Context (Q : list BlockHeader -> Prop).
Hypothesis Q_suffix : forall l l', l' `suffix_of` l -> Q l -> Q l'.
Definition batches_Q batches : Prop := Forall (fun b => Q (hb_headers b)) batches.

(** What a pass finds. *)
Definition found_ok (considered fits : CachedBatch -> bool) (n : nat) s (f : Found) : Prop :=
  match f with
  | NotFound bs => length bs = n /\ batches_Q bs /\
      ((forall b, considered b = true) -> Forall (fun b => hb_headers b <> [] /\ TrimAlreadyKnownPrefix (hb_headers b) s = hb_headers b /\ fits b = false) bs)
  | Emptied bs => Datatypes.S (length bs) = n /\ batches_Q bs
  | Taken b bs => Datatypes.S (length bs) = n /\ batches_Q bs /\ Q (hb_headers b) /\ fits b = true /\ hb_headers b <> []
  end.

Lemma found_after_ok considered fits n s b f : found_ok considered fits n s f -> Q (hb_headers b) ->
  ((forall b, considered b = true) -> hb_headers b <> [] /\ TrimAlreadyKnownPrefix (hb_headers b) s = hb_headers b /\ fits b = false) ->
  found_ok considered fits (Datatypes.S n) s (found_after b f).
Proof.
  intros Hf Hq Hb. destruct f as [bs|bs|b' bs]; cbn [found_ok found_after length] in *.
  - destruct Hf as (Hl & Hbs & Hall). split; [lia|]. split; [by constructor|]. intros Hc. constructor; auto.
  - destruct Hf as (Hl & Hbs). split; [lia|by constructor].
  - destruct Hf as (Hl & Hbs & Hrest). split; [lia|]. split; [by constructor|done].
Qed.

Lemma find_batch_ok considered fits batches s : batches_Q batches -> found_ok considered fits (length batches) s (find_batch considered fits batches s).
Proof.
  intros Hq. induction Hq as [|b batches Hb Hbs IH]; cbn [find_batch length]; [by repeat split; try constructor|].
  assert (Q (hb_headers (hb_set_headers (TrimAlreadyKnownPrefix (hb_headers b) s) b))) as Ht by (eapply Q_suffix; [apply trim_suffix|done]).
  destruct (considered b) eqn:Ec; cbn [negb]; [|apply found_after_ok; [done|done|]; intros Hc; by rewrite Hc in Ec].
  set (trimmed := hb_set_headers _ b) in *. assert (TrimAlreadyKnownPrefix (hb_headers trimmed) s = hb_headers trimmed) as Hi by apply trim_idemp.
  destruct (hb_headers trimmed) as [|h rest] eqn:Eh; [by split|]. rewrite <- Eh in Hi, Ht.
  destruct (fits trimmed) eqn:Ef.
  - cbn [found_ok]. rewrite Eh in *. by split; [|split; [|split]].
  - apply found_after_ok; [done|done|]. intros _. rewrite Eh in *. done.
Qed.

Lemma find_sorted_ok considered fits batches s : batches_Q batches ->
  found_ok considered fits (length batches) s (find_batch considered fits (sort_batches batches) s).
Proof.
  intros Hq. rewrite <- (Permutation_length (sort_batches_perm batches)). apply find_batch_ok. unfold batches_Q. by rewrite sort_batches_perm.
Qed.

(** Batches that follow are joined to the headers. *)
Hypothesis Q_join : forall headers source b, Q headers -> Q (hb_headers b) -> follows_headers headers source b = true -> Q (headers ++ hb_headers b).

Lemma TryAppend_ok (fuel : nat) : forall headers con source batches s headers' con' batches', headers <> [] -> Q headers -> batches_Q batches ->
  TryAppendContiguousReadyBatches fuel headers con source batches s = (headers', con', batches') ->
  Q headers' /\ batches_Q batches' /\ (length batches' <= length batches)%nat /\ head headers' = head headers /\ headers' <> [].
Proof.
  induction fuel as [|fuel IH]; intros headers con source batches s headers' con' batches' Hne Hq Hbs E; cbn [TryAppendContiguousReadyBatches] in E.
  { injection E as <- <- <-. done. }
  destruct (_ || _); [injection E as <- <- <-; done|].
  pose proof (find_sorted_ok (same_source source) (follows_headers headers source) batches s Hbs) as Hf.
  destruct (find_batch _ _ _ s) as [bs|bs|b bs]; cbn [found_ok] in Hf.
  - injection E as <- <- <-. destruct Hf as (Hl & Hbs' & _). split; [done|]. split; [done|]. split; [lia|done].
  - destruct Hf as [Hl Hbs']. destruct (IH _ _ _ _ _ _ _ _ Hne Hq Hbs' E) as (Hq' & Hbs2 & Hl2 & Hh). split; [done|]. split; [done|]. split; [lia|done].
  - destruct Hf as (Hl & Hbs' & Hb & Hfits & _).
    assert (headers ++ hb_headers b <> []) as Hne' by (by destruct headers).
    destruct (IH _ _ _ _ _ _ _ _ Hne' (Q_join _ _ _ Hq Hb Hfits) Hbs' E) as (Hq' & Hbs2 & Hl2 & Hh & Hn). split; [done|]. split; [done|]. split; [lia|].
    split; [|done]. rewrite Hh. by destruct headers.
Qed.

(** What the chain keeps when it is given headers that are ready. *)
Context (Inv : S -> Prop).
Hypothesis Inv_step : forall headers s, Inv s -> Q headers -> headers <> [] -> IsReady headers s = true -> Inv (hc_AddBlockHeaders headers s).2.

Definition settled (x : HeaderSyncState S) : Prop :=
  Forall (fun b => hb_headers b <> [] /\ TrimAlreadyKnownPrefix (hb_headers b) (hs_chain x) = hb_headers b /\ IsReady (hb_headers b) (hs_chain x) = false) (m_batches x).

Definition sync_result (n : nat) (r : result unit) (x' : HeaderSyncState S) : Prop :=
  (length (m_batches x') <= n)%nat /\ batches_Q (m_batches x') /\ Inv (hs_chain x') /\
  match r with Ok _ => settled x' | Throw e => is_std e = false /\ exists headers s, Inv s /\ (hc_AddBlockHeaders headers s).1 = Throw e end.

Lemma process_batch_ok headers con x : Inv (hs_chain x) -> Q headers -> headers <> [] -> IsReady headers (hs_chain x) = true ->
  exists r x', process_batch headers con x = (r, x') /\ m_batches x' = m_batches x /\ Inv (hs_chain x') /\
    match r with Ok _ => True | Throw e => is_std e = false /\ exists headers s, Inv s /\ (hc_AddBlockHeaders headers s).1 = Throw e end.
Proof.
  intros Hi Hq Hne Hr. pose proof (Inv_step headers _ Hi Hq Hne Hr) as Hi'. unfold process_batch.
  destruct (hc_AddBlockHeaders headers (hs_chain x)) as [r s] eqn:E. cbn [snd] in Hi'.
  destruct r as [[]|e]; try (by eexists (Ok tt), _); [].
  destruct e; cbn [is_std]; try (by eexists (Ok tt), _); (eexists (Throw _), _; split; [done|]; split; [done|]; split; [done|]; split; [done|];
    exists headers, (hs_chain x); by rewrite E).
Qed.

Lemma ProcessReadyBatches_ok (fuel : nat) : forall x, (length (m_batches x) < fuel)%nat -> batches_Q (m_batches x) -> Inv (hs_chain x) ->
  exists r x', ProcessReadyBatches fuel x = (r, x') /\ sync_result (length (m_batches x)) r x'.
Proof.
  induction fuel as [|fuel IH]; intros x Hl Hq Hi; [lia|]. cbn [ProcessReadyBatches]. erewrite st_bind_ok by reflexivity.
  pose proof (find_sorted_ok (fun _ => true) (fun b => IsReady (hb_headers b) (hs_chain x)) (m_batches x) (hs_chain x) Hq) as Hf.
  destruct (find_batch _ _ _ _) as [bs|bs|b bs]; cbn [found_ok] in Hf.
  - destruct Hf as (Hn & Hbs & Hs). eexists (Ok tt), _. split; [reflexivity|]. cbn. split; [cbn; lia|]. split; [done|]. split; [done|]. by apply Hs.
  - destruct Hf as [Hn Hbs]. erewrite st_bind_ok by reflexivity.
    destruct (IH (mkHeaderSyncState bs (hs_chain x) (hs_banned x)) ltac:(cbn; lia) Hbs Hi) as (r & x' & E & Hl' & Hr).
    exists r, x'. split; [done|]. split; [cbn in Hl'; lia|done].
  - destruct Hf as (Hn & Hbs & Hb & Hready & Hne). destruct (TryAppendContiguousReadyBatches _ _ _ _ _ _) as [[headers con] bs'] eqn:Ea.
    destruct (TryAppend_ok _ _ _ _ _ _ _ _ _ Hne Hb Hbs Ea) as (Hq' & Hbs' & Hl' & Hh & Hne').
    erewrite st_bind_ok by reflexivity. set (x1 := mkHeaderSyncState bs' (hs_chain x) (hs_banned x)).
    assert (IsReady headers (hs_chain x1) = true) as Hready' by (unfold IsReady in *; destruct headers, (hb_headers b); cbn [head] in Hh; by simplify_eq).
    destruct (process_batch_ok headers con x1 Hi Hq' Hne' Hready') as (r & x2 & E2 & Em & Hi2 & Hr).
    destruct r as [u|e].
    + erewrite st_bind_ok by exact E2. destruct (IH x2 ltac:(rewrite Em; cbn; lia) ltac:(by rewrite Em) Hi2) as (r & x' & E & Hl2 & Hr2).
      exists r, x'. split; [done|]. rewrite Em in Hl2. cbn in Hl2. split; [lia|done].
    + exists (Throw e), x2. split; [by apply st_bind_throw|]. split; [rewrite Em; cbn; lia|]. split; [by rewrite Em|done].
Qed.

Lemma AddHeaders_ok con headers source x : (length (m_batches x) <= 16)%nat -> batches_Q (m_batches x) -> Inv (hs_chain x) -> Q headers ->
  exists r x', AddHeaders con headers source x = (r, x') /\
    (r = Ok tt /\ x' = x \/ sync_result 16 r x').
Proof.
  intros Hl Hq Hi Hh. unfold AddHeaders. destruct headers as [|h rest]; [exists (Ok tt), x; split; [done|by left]|]. erewrite st_bind_ok by reflexivity.
  destruct (TrimAlreadyKnownPrefix (h :: rest) (hs_chain x)) as [|h' rest'] eqn:Et; [exists (Ok tt), x; split; [done|by left]|].
  destruct (IsDuplicate _ _); [exists (Ok tt), x; split; [done|by left]|]. erewrite st_bind_ok by reflexivity.
  assert (Q (h' :: rest')) as Hh' by (rewrite <- Et; by eapply Q_suffix; [apply trim_suffix|]).
  set (batches := (if length (m_batches x) >=? MAX_CACHED_HEADER_BATCHES then tail (m_batches x) else m_batches x) ++ [mkCachedBatch (h' :: rest') con source]).
  assert (batches_Q batches /\ (length batches <= 16)%nat) as [Hb Hn].
  { unfold batches, batches_Q. change MAX_CACHED_HEADER_BATCHES with 16. rewrite Forall_app, length_app, Z.geb_leb. cbn [length].
    destruct (Z.leb_spec 16 (length (m_batches x))); (split; [split; [|by repeat constructor]|]); try done; try lia.
    - by apply Forall_tail.
    - destruct (m_batches x); cbn [tail length] in *; lia. }
  destruct (ProcessReadyBatches_ok (Datatypes.S (length batches)) (mkHeaderSyncState batches (hs_chain x) (hs_banned x)) ltac:(cbn; lia) Hb Hi) as (r & x' & E & Hl' & Hr).
  exists r, x'. split; [exact E|]. right. split; [cbn in Hl'; lia|done].
Qed.
End cache.

(** ** What the chain is handed

    The chain, which notes the headers that it is handed with the state it is in
    then; the cache does with it what it does with the chain itself. *)
Section log.
Context {S : Type} {HC : HeaderChain S}.
Definition Logged : Type := S * list (S * list BlockHeader).

#[export] Instance logged_chain : HeaderChain Logged := {|
  hc_AddBlockHeaders := fun headers x => let '(r, s) := hc_AddBlockHeaders headers x.1 in (r, (s, x.2 ++ [(x.1, headers)]));
  hc_GetBlockHeaderByHeight := fun height x => hc_GetBlockHeaderByHeight height x.1;
  hc_GetBlockHeaderByHash := fun hash x => hc_GetBlockHeaderByHash hash x.1;
  hc_GetHeight := fun x => hc_GetHeight x.1;
|}.

Definition with_log (log : list (S * list BlockHeader)) (x : HeaderSyncState S) : HeaderSyncState Logged := mkHeaderSyncState (m_batches x) (hs_chain x, log) (hs_banned x).
Definition unlogged (x : HeaderSyncState Logged) : HeaderSyncState S := mkHeaderSyncState (m_batches x) (hs_chain x).1 (hs_banned x).

Lemma with_log_unlogged x : with_log (hs_chain x).2 (unlogged x) = x.
Proof. by destruct x as [? [? ?] ?]. Qed.

Lemma trim_logged headers (x : Logged) : TrimAlreadyKnownPrefix headers x = TrimAlreadyKnownPrefix headers x.1.
Proof.
  induction headers as [|h rest IH]; cbn [TrimAlreadyKnownPrefix]; [done|]. change (on_candidate_chain x h) with (on_candidate_chain x.1 h). by rewrite IH.
Qed.

Lemma find_batch_logged considered fits batches (x : Logged) : find_batch considered fits batches x = find_batch considered fits batches x.1.
Proof. induction batches as [|b batches IH]; cbn [find_batch]; [done|]. by rewrite trim_logged, IH. Qed.

Lemma TryAppend_logged (fuel : nat) : forall headers con source batches (x : Logged),
  TryAppendContiguousReadyBatches fuel headers con source batches x = TryAppendContiguousReadyBatches fuel headers con source batches x.1.
Proof.
  induction fuel as [|fuel IH]; intros headers con source batches x; cbn [TryAppendContiguousReadyBatches]; [done|].
  rewrite find_batch_logged. destruct (_ || _); [done|]. by destruct (find_batch _ _ _ _).
Qed.

Definition simulated {A} (m : ST (HeaderSyncState Logged) A) (m' : ST (HeaderSyncState S) A) : Prop := forall x, m' (unlogged x) = ((m x).1, unlogged (m x).2).

Lemma process_batch_logged headers con : simulated (process_batch headers con) (process_batch headers con).
Proof.
  intros x. unfold process_batch. cbn [hc_AddBlockHeaders logged_chain hs_chain unlogged].
  destruct (hc_AddBlockHeaders headers (hs_chain x).1) as [[[]|[]] s]; done.
Qed.

Lemma ProcessReadyBatches_logged (fuel : nat) : simulated (ProcessReadyBatches fuel) (ProcessReadyBatches fuel).
Proof.
  induction fuel as [|fuel IH]; intros x; cbn [ProcessReadyBatches]; [done|].
  rewrite !(st_bind_ok st_get) with (1 := eq_refl). rewrite find_batch_logged. cbn [m_batches hs_chain unlogged].
  change (fun b => IsReady (hb_headers b) (hs_chain x)) with (fun b => IsReady (hb_headers b) (hs_chain x).1).
  destruct (find_batch _ _ _ _) as [bs|bs|b bs]; [done| |].
  - rewrite !(st_bind_ok (set_batches _)) with (1 := eq_refl). exact (IH (mkHeaderSyncState bs (hs_chain x) (hs_banned x))).
  - rewrite TryAppend_logged. destruct (TryAppendContiguousReadyBatches _ _ _ _ _ _) as [[headers con] bs'].
    rewrite !(st_bind_ok (set_batches _)) with (1 := eq_refl).
    pose proof (process_batch_logged headers con (mkHeaderSyncState bs' (hs_chain x) (hs_banned x))) as E. unfold mbind, ST_bind.
    change (unlogged (mkHeaderSyncState bs' (hs_chain x) (hs_banned x))) with (mkHeaderSyncState bs' (hs_chain x).1 (hs_banned x)) in E.
    cbn [hs_chain hs_banned unlogged]. rewrite E. clear E. destruct (process_batch headers con (mkHeaderSyncState bs' (hs_chain x) (hs_banned x))) as [[u|e] x2]; [exact (IH x2)|done].
Qed.

Lemma AddHeaders_logged con headers source : simulated (AddHeaders con headers source) (AddHeaders con headers source).
Proof.
  intros x. unfold AddHeaders. destruct headers as [|h rest]; [done|]. rewrite !(st_bind_ok st_get) with (1 := eq_refl). cbn [m_batches hs_chain unlogged].
  rewrite trim_logged. destruct (TrimAlreadyKnownPrefix _ _) as [|h' rest']; [done|]. destruct (IsDuplicate _ _); [done|].
  rewrite !(st_bind_ok (set_batches _)) with (1 := eq_refl).
  exact (ProcessReadyBatches_logged _ (mkHeaderSyncState _ (hs_chain x) (hs_banned x))).
Qed.
End log.

(** ** On a node *)
Section node.
Context {F : Type} {HF : HashFile F} {HFL : HashFileLaws F} {R : Type} {HR : Roaring R} {HRL : RoaringLaws R}.
Context {B : Type} {HB : IBlockDB B} {db_wf : DBEntry -> Prop} {db_repr : DBTables -> DBTables -> B -> Prop} {HBL : IBlockDBLaws B db_wf db_repr}.
Context {P : Type} {SP : Secp256k1 P} {G : Type} {AG : AbelianGroup G} {SL : Secp256k1Laws P G}.
Context {C : Type} {HC : LRUCache Hash BlockHeader C} {HCL : LRUCacheLaws Hash BlockHeader C}.
Context {L : Type} {HL : LRUCache Commitment Commitment L} {HLL : LRUCacheLaws Commitment Commitment L}.
Context (Blake2b : bytes -> Hash) (env : Environment) (pow_fuel : nat) (now : Z).
Local Abbreviation CS := (ChainState F R B C L).
Implicit Types (s : CS) (c : NState).
Hypothesis Blake2b_length : forall x, length (Blake2b x) = 32%nat.
Hypothesis Blake2b_nonzero : forall x, Blake2b x <> ZERO_HASH.
Hypothesis db_location : forall l, location_ok l -> db_wf (ELocation l).
Hypothesis db_spent : forall l, length l < 2 ^ 16 ->
  Forall (fun o => length (so_commitment o) = 33%nat /\ location_ok (so_location o)) l -> db_wf (ESpent l).
Hypothesis db_sums : forall sums, is_commitment (bs_outputSum sums) -> is_commitment (bs_kernelSum sums) -> db_wf (ESums sums).
Context (g : BlockHeader) (x0 : TState * Positions) (known : BlockHeader -> Prop) (K : list FullBlock).
Hypothesis Hof : offered (db_wf := db_wf) known.
Hypothesis Hob : offered_blocks (db_wf := db_wf) x0 known K.
Hypothesis Hge : genesis_ok g x0 known.
Local Abbreviation node_ok := (node_ok (db_repr := db_repr) (G := G) Blake2b env pow_fuel g x0 known K).
#[local] Instance node_chain : HeaderChain CS := ChainState_HeaderChain Blake2b env pow_fuel now.

#[local] Set Default Proof Using "All".

Lemma candidate_at c s j : node_ok c s -> 0 <= j -> GetBlockHeaderByHeight j CANDIDATE s = n_candidate c !! Z.to_nat j.
Proof.
  intros (Hr & Hh & _) Hj. unfold GetBlockHeaderByHeight.
  rewrite (GetByHeight_ok _ _ _ _ (node_candidate (db_wf := db_wf) Blake2b 0 ∅ Blake2b_length Blake2b_nonzero _ _ _ Hr)) by done.
  change (map BlockHeader_GetHash (n_candidate c)) with (BlockHeader_GetHash <$> n_candidate c). rewrite list_lookup_fmap.
  destruct (n_candidate c !! Z.to_nat j) as [h|] eqn:Ei; [|done]. cbn.
  rewrite (node_header (db_wf := db_wf) Blake2b 0 ∅ Blake2b_length Blake2b_nonzero _ _ _ _ Hr). by destruct (ho_chain _ _ _ _ _ _ Hh _ _ Ei).
Qed.

Lemma headers_from_ok c s (k : nat) : node_ok c s -> forall j, 0 <= j -> j + k < 2 ^ 64 -> headers_from k j s = take k (drop (Z.to_nat j) (n_candidate c)).
Proof.
  intros Hn. induction k as [|k IH]; intros j Hj Hk; cbn [headers_from]; [done|].
  cbn [hc_GetBlockHeaderByHeight node_chain ChainState_HeaderChain]. rewrite (candidate_at c s) by done.
  destruct (n_candidate c !! Z.to_nat j) as [h|] eqn:Ei; [|by rewrite drop_ge by (by apply lookup_ge_None)].
  rewrite (drop_S _ _ _ Ei), uint_small, IH by uint_solve. cbn [take]. by replace (Z.to_nat (j + 1)) with (S (Z.to_nat j)) by lia.
Qed.

Lemma FindCommonHeader_known c s locators h : node_ok c s -> FindCommonHeader locators s = Some h -> known h.
Proof.
  intros (Hr & Hh & _). induction locators as [|x locators IH]; cbn [FindCommonHeader]; [done|].
  cbn [hc_GetBlockHeaderByHash node_chain ChainState_HeaderChain].
  rewrite (ChainStateSpec.node_header (db_wf := db_wf) Blake2b 0 ∅ Blake2b_length Blake2b_nonzero _ _ _ _ Hr).
  destruct (t_headers (n_tables c) !! x) as [h'|] eqn:Et; [|done]. intros [= ->]. by destruct (ho_tables _ _ _ _ _ _ Hh _ _ Et).
Qed.

(** a node answers a locator it knows with the part of its candidate chain
    above the height of that header, at most 512 headers. *)
Theorem LocateHeaders_spec c s locators : node_ok c s ->
  LocateHeaders locators s = match FindCommonHeader locators s with
                             | Some h => take 512 (drop (S (Z.to_nat (bh_height h))) (n_candidate c))
                             | None => []
                             end.
Proof.
  intros Hn. unfold LocateHeaders. destruct (FindCommonHeader locators s) as [h|] eqn:Ef; [|done].
  destruct (of_storable _ Hof _ (FindCommonHeader_known c s _ _ Hn Ef)) as (_ & _ & _ & Hh).
  pose proof Hn as (Hr & Hho & _). pose proof (ho_length (db_wf := db_wf) (L := L) Blake2b env pow_fuel 0 ∅ Blake2b_length Blake2b_nonzero known Hof g (fun _ _ _ => True) c Hho) as Hl.
  assert (hc_GetHeight s = length (n_candidate c) - 1) as ->.
  { cbn [hc_GetHeight node_chain ChainState_HeaderChain]. unfold GetHeight.
    rewrite (cr_height _ _ _ (node_candidate (db_wf := db_wf) Blake2b 0 ∅ Blake2b_length Blake2b_nonzero _ _ _ Hr)). by rewrite length_map. }
  change MAX_BLOCK_HEADERS with 512. rewrite (uint_small 64 (bh_height h + 1)) by uint_solve.
  set (k := Z.to_nat (Z.min _ 512)). assert (k <= 512)%nat as Hk by (unfold k; lia).
  rewrite (headers_from_ok c s k Hn) by lia. replace (Z.to_nat (bh_height h + 1)) with (S (Z.to_nat (bh_height h))) by lia.
  set (l := drop _ (n_candidate c)). assert (length l = Z.to_nat (length (n_candidate c) - 1 - bh_height h)) as Hll by (unfold l; rewrite length_drop; lia).
  destruct (Z.le_gt_cases (bh_height h) (length (n_candidate c) - 1)) as [Hle|Hgt].
  - unfold k. rewrite uint_small by uint_solve. destruct (Z.min_spec (length (n_candidate c) - 1 - bh_height h) 512) as [[Hm ->]|[_ ->]]; [|done].
    by rewrite !(take_ge l) by lia.
  - destruct l; [by rewrite !take_nil|cbn [length] in Hll; lia].
Qed.

(** What is cached: headers that follow each other. *)
Definition good_headers (headers : list BlockHeader) : Prop := chained headers /\ Forall known headers.

Lemma good_suffix l l' : l' `suffix_of` l -> good_headers l -> good_headers l'.
Proof. intros [k ->] [Hc Hk]. apply chained_app in Hc as [_ Hc]. by apply Forall_app in Hk as [_ Hk]. Qed.

Lemma good_join headers source b : good_headers headers -> good_headers (hb_headers b) -> follows_headers headers source b = true -> good_headers (headers ++ hb_headers b).
Proof.
  intros [Hc Hk] [Hc' Hk'] Hf. split; [|by apply Forall_app]. unfold follows_headers in Hf.
  destruct (hb_headers b) as [|next rest] eqn:Eb; [done|]. destruct (last headers) as [l|] eqn:El; [|done].
  apply andb_true_iff in Hf as [[_ Hf]%andb_true_iff _]. apply Forall_cons in Hk' as [Hkn _].
  assert (known l) as Hkl by (rewrite Forall_forall in Hk; apply Hk; by apply last_Some_elem_of).
  rewrite BigInteger_eq_spec in Hf by (by rewrite (proj1 (of_lengths _ Hof _ Hkn)), (proj1 (of_storable _ Hof _ Hkl))). apply bool_decide_eq_true_1 in Hf.
  destruct headers as [|h headers]; [done|]. cbn [chained app] in *. apply linked_app. split; [done|].
  rewrite last_cons in El. cbn [linked]. split; [|done]. rewrite Hf. destruct (last headers); cbn; congruence.
Qed.

(** Headers that a node in state [s] may be handed: they follow each other on top
    of a header of its candidate chain, or start at height 0. *)
Definition fits_chain (s : CS) (headers : list BlockHeader) : Prop := exists c front rest, node_ok c s /\ headers = front :: rest /\ good_headers headers /\
  (bh_height front = 0 \/ exists p, n_candidate c !! Z.to_nat (bh_height front - 1) = Some p /\ linked p headers).

Lemma ready_fits c s headers : node_ok c s -> good_headers headers -> IsReady headers s = true -> fits_chain s headers.
Proof.
  intros Hn Hg Hr. destruct headers as [|front rest]; [done|]. exists c, front, rest. split; [done|]. split; [done|]. split; [done|].
  cbn [IsReady hc_GetBlockHeaderByHeight node_chain ChainState_HeaderChain] in Hr. destruct Hg as [Hc [Hk _]%Forall_cons].
  destruct (of_storable _ Hof _ Hk) as (_ & _ & _ & Hh). destruct (Z.eqb_spec (bh_height front) 0) as [|Hne]; [by left|right].
  rewrite uint_small in Hr by uint_solve. rewrite (candidate_at c s _ Hn) in Hr by lia.
  destruct (n_candidate c !! Z.to_nat (bh_height front - 1)) as [p|] eqn:Ep; [|done]. exists p. split; [done|].
  destruct Hn as (_ & Hho & _). destruct (ho_chain _ _ _ _ _ _ Hho _ _ Ep) as [_ Et]. destruct (ho_tables _ _ _ _ _ _ Hho _ _ Et) as [_ Hkp].
  rewrite BigInteger_eq_spec in Hr by (by rewrite (proj1 (of_lengths _ Hof _ Hk)), (proj1 (of_storable _ Hof _ Hkp))). apply bool_decide_eq_true_1 in Hr.
  split; [by rewrite Hr|exact Hc].
Qed.

End node.

(** ** Evaluation: the second header of a fork comes before the first one *)
#[local] Instance toy_chain : HeaderChain ToyNode := ChainState_HeaderChain toy_hash AUTOMATED_TESTING 0 0.
Definition toy_sync : HeaderSyncState ToyNode := mkHeaderSyncState [mkCachedBatch [fork_header2] (Some 7) LegacyHeaders] toy_node [].


Lemma LocateHeaders_spec_witness :
  let s := (run (node_op toy_hash AUTOMATED_TESTING 0) node_ops toy_node).2 in
  exists c, LocateHeaders [toy_hash []; BlockHeader_GetHash node_genesis] s = take 512 (drop 1 (n_candidate c)) /\
    LocateHeaders [toy_hash []; BlockHeader_GetHash node_genesis] s = [fork_header1; fork_header2].
Proof.
  cbn zeta. destruct (node_after node_ops node_ops_offered) as [c Hc]. exists c. split; [|vm_compute; reflexivity].
  pose proof (LocateHeaders_spec (db_wf := fun _ => True) toy_hash AUTOMATED_TESTING 0 0 toy_hash_length toy_hash_nonzero
    (fun _ _ => I) (fun _ _ _ => I) (fun _ _ _ => I) node_genesis node_x0 (fun h => h ∈ node_headers) node_blocks node_offered node_offered_blocks node_genesis_ok
    c _ [toy_hash []; BlockHeader_GetHash node_genesis] Hc) as E. unfold node_chain in E. unfold toy_chain. rewrite E.
  replace (FindCommonHeader _ _) with (Some node_genesis) by (vm_compute; reflexivity). reflexivity.
Defined.

(** Batches of several peers are merged, and the peer of the first one is banned
    for an invalid header in the batch of another. *)
Definition invalid_header : BlockHeader := coinbase_header 9 2 20 (BlockHeader_GetHash fork_header1) ZERO_HASH [coinbase_body 6; coinbase_body 7].

Lemma merged_batch_bans :
  hs_banned (AddHeaders (Some 7) [fork_header1] LegacyHeaders (mkHeaderSyncState [] toy_node [])).2 = [] /\
  hs_banned (AddHeaders (Some 7) [fork_header1] LegacyHeaders (mkHeaderSyncState [mkCachedBatch [invalid_header] (Some 8) LegacyHeaders] toy_node [])).2 = [7].
Proof. split; vm_compute; reflexivity. Qed.
