(* ===== verification/Message.v ===== *)
(** * The messages of the network ([src/P2P/Messages])

    The frame of a message - the magic bytes of the network, its type and its
    length - and the bodies of all of them, with the addresses and capabilities
    in them.  A class has what [IMessage] promises; reading is a function per
    type, which some take the hash or the coin view for. *)
From S2P Require Import Prelude BitUtil MMRIndex Serial BigInteger File Roaring MMRHash SegmentId SegmentProof Segment BitmapSegment Consensus Transaction Header Block TxHashSet HeaderSync.

(** [include/P2P/Common.h] *)
Definition HEADER_LENGTH : Z := 11.
Definition MAX_BLOCK_SIZE : Z := MAX_BLOCK_WEIGHT / OUTPUT_WEIGHT * 708.
Definition PIHD_HEADER_SEGMENT_HEIGHT : Z := 9.
Definition MAX_PEER_ADDRS : Z := 256.

(** [P2PConfig]: the bytes a network is told by. *)
Definition GetMagicBytes (env : Environment) : bytes :=
  match env with MAINNET => [97; 61] | _ => [83; 59] end.

Module MessageTypes.

(** [Unnamed] stands for the values the enum has no name for. *)
Inductive EMessageType :=
| Error | Hand | Shake | Ping | Pong | GetPeerAddrs | PeerAddrs | GetHeaders | Header | Headers
| GetBlock | Block | GetCompactBlock | CompactBlockMsg | StemTransaction | TransactionMsg
| TxHashSetRequest | TxHashSetArchive | BanReasonMsg | GetTransactionMsg | TransactionKernelMsg
| GetOutputBitmapSegment | OutputBitmapSegment | GetOutputSegment | OutputSegment
| GetRangeProofSegment | RangeProofSegment | GetKernelSegment | KernelSegment
| GetHeaderSegment | HeaderSegment
| Unnamed (value : Z).

#[export] Instance EMessageType_eq_dec : EqDecision EMessageType.
Proof. solve_decision. Defined.

Definition named : list EMessageType :=
  [Error; Hand; Shake; Ping; Pong; GetPeerAddrs; PeerAddrs; GetHeaders; Header; Headers;
   GetBlock; Block; GetCompactBlock; CompactBlockMsg; StemTransaction; TransactionMsg;
   TxHashSetRequest; TxHashSetArchive; BanReasonMsg; GetTransactionMsg; TransactionKernelMsg;
   GetOutputBitmapSegment; OutputBitmapSegment; GetOutputSegment; OutputSegment;
   GetRangeProofSegment; RangeProofSegment; GetKernelSegment; KernelSegment;
   GetHeaderSegment; HeaderSegment].

(** The casts between the enum and a byte. *)
Definition to_u8 (t : EMessageType) : Z :=
  match t with
  | Error => 0 | Hand => 1 | Shake => 2 | Ping => 3 | Pong => 4 | GetPeerAddrs => 5 | PeerAddrs => 6 | GetHeaders => 7
  | Header => 8 | Headers => 9 | GetBlock => 10 | Block => 11 | GetCompactBlock => 12 | CompactBlockMsg => 13
  | StemTransaction => 14 | TransactionMsg => 15 | TxHashSetRequest => 16 | TxHashSetArchive => 17 | BanReasonMsg => 18
  | GetTransactionMsg => 19 | TransactionKernelMsg => 20 | GetOutputBitmapSegment => 21 | OutputBitmapSegment => 22
  | GetOutputSegment => 23 | OutputSegment => 24 | GetRangeProofSegment => 25 | RangeProofSegment => 26
  | GetKernelSegment => 27 | KernelSegment => 28 | GetHeaderSegment => 29 | HeaderSegment => 30
  | Unnamed value => value
  end.
Definition of_u8 (value : Z) : EMessageType :=
  match named !! Z.to_nat value with Some t => t | None => Unnamed value end.

Definition GetMaximumSize (messageType : EMessageType) : Z :=
  match messageType with
  | Error => 0
  | Hand => 128
  | Shake => 88
  | Ping => 16
  | Pong => 16
  | GetPeerAddrs => 4
  | PeerAddrs => 4 + (1 + 16 + 2) * MAX_PEER_ADDRS
  | GetHeaders => 1 + 32 * MAX_LOCATORS
  | Header => 365
  | Headers => 2 + 365 * MAX_BLOCK_HEADERS
  | GetBlock => 32
  | Block => MAX_BLOCK_SIZE
  | GetCompactBlock => 32
  | CompactBlockMsg => MAX_BLOCK_SIZE / 10
  | StemTransaction => MAX_BLOCK_SIZE
  | TransactionMsg => MAX_BLOCK_SIZE
  | TxHashSetRequest => 40
  | TxHashSetArchive => 64
  | BanReasonMsg => 64
  | GetTransactionMsg => 32
  | TransactionKernelMsg => 32
  | GetOutputBitmapSegment | GetOutputSegment | GetRangeProofSegment | GetKernelSegment => 41
  | GetHeaderSegment => 9
  | OutputBitmapSegment | OutputSegment | RangeProofSegment | KernelSegment => 2 * MAX_BLOCK_SIZE
  | HeaderSegment => 11 + 365 * MAX_BLOCK_HEADERS
  | Unnamed _ => 0
  end.
End MessageTypes.
Import MessageTypes (EMessageType, GetMaximumSize).

(** ** [MessageHeader] *)
Record MessageHeader := mkMessageHeader { mh_magicBytes : bytes; mh_type : EMessageType; mh_length : Z }.

Section frame.
Context (env : Environment).

(** [GetMagicBytes()[i]]: both networks have two. *)
Definition magic_byte (i : nat) : Z := nth i (GetMagicBytes env) 0.

Definition MessageHeader_Serialize (h : MessageHeader) (s : Serializer) : Serializer :=
  AppendU64 (mh_length h) (AppendU8 (MessageTypes.to_u8 (mh_type h)) (AppendU8 (magic_byte 1) (AppendU8 (magic_byte 0) s))).

Definition MessageHeader_Deserialize : reader MessageHeader :=
  magicByte1 ← ReadU8;
  magicByte2 ← ReadU8;
  if negb (magicByte1 =? magic_byte 0) || negb (magicByte2 =? magic_byte 1) then reader_throw DeserializationException
  else
    messageType ← ReadU8;
    messageLength ← ReadU64;
    if messageLength >? (GetMaximumSize (MessageTypes.of_u8 messageType) * 4)%u64 then reader_throw DeserializationException
    else mret (mkMessageHeader [magicByte1; magicByte2] (MessageTypes.of_u8 messageType) messageLength).
End frame.

(** ** [IMessage] *)
Class IMessage (A : Type) := {
  GetMessageType : A -> EMessageType;
  SerializeBody : A -> Serializer -> result Serializer;
}.

Definition Message_Serialize `{IMessage A} (env : Environment) (protocolVersion : EProtocolVersion) (m : A) : result bytes :=
  let serializer := AppendU8 (MessageTypes.to_u8 (GetMessageType m)) (AppendByteVector (GetMagicBytes env) LenNone (Serializer_new protocolVersion)) in
  bodySerializer ← SerializeBody m (Serializer_new protocolVersion);
  mret (s_bytes (AppendByteVector (s_bytes bodySerializer) LenNone (AppendU64 (length (s_bytes bodySerializer)) serializer))).

(** ** Addresses and capabilities *)

(** [asio::ip::address], by its bytes. *)
Inductive IPAddress := V4 (address : bytes) | V6 (address : bytes).
#[export] Instance IPAddress_eq_dec : EqDecision IPAddress.
Proof. solve_decision. Defined.

#[export] Instance IPAddress_Serializable : Serializable IPAddress := {
  Serialize a s :=
    match a with
    | V4 address => Serializer_put address (AppendU8 0 s)
    | V6 address => Serializer_put address (AppendU8 1 s)
    end;
  Deserialize :=
    ipAddressFamily ← ReadU8;
    if ipAddressFamily =? 0 then address ← ReadArray 4; mret (V4 address)
    else if ipAddressFamily =? 1 then address ← ReadArray 16; mret (V6 address)
    else reader_throw DeserializationException;
}.

Record SocketAddress := mkSocketAddress { sa_ipAddress : IPAddress; sa_port : Z }.
#[export] Instance SocketAddress_eq_dec : EqDecision SocketAddress.
Proof. solve_decision. Defined.

#[export] Instance SocketAddress_Serializable : Serializable SocketAddress := {
  Serialize a s := AppendU16 (sa_port a) (Serialize (sa_ipAddress a) s);
  Deserialize := ipAddress ← Deserialize; port ← ReadU16; mret (mkSocketAddress ipAddress port);
}.

Record Capabilities := mkCapabilities { cap_value : Z }.
Definition PIHD_HIST : Z := 0x80.
Definition HasCapability (c : Capabilities) (capability : Z) : bool := Z.land (cap_value c) capability =? capability.

#[export] Instance Capabilities_Serializable : Serializable Capabilities := {
  Serialize c s := AppendU32 (cap_value c) s;
  Deserialize := value ← ReadU32; mret (mkCapabilities value);
}.

(** ** The bodies *)

(** What a reference to a string is bound to; [ErrorMessage] has one as a
    member, and reading a message leaves it bound to a variable that is gone. *)
Inductive string_ref := Bound (text : bytes) | Dangling.

Record ErrorMessage := mkErrorMessage { em_errorCode : Z; em_message : string_ref }.
#[export] Instance ErrorMessage_IMessage : IMessage ErrorMessage := {
  GetMessageType _ := MessageTypes.Error;
  SerializeBody m s :=
    match em_message m with
    | Bound text => mret (AppendVarStr text (AppendU32 (em_errorCode m) s))
    | Dangling => Throw UB
    end;
}.
Definition ErrorMessage_Deserialize : reader ErrorMessage :=
  errorCode ← ReadU32;
  _ ← ReadVarStr;
  mret (mkErrorMessage errorCode Dangling).

Record HandMessage := mkHandMessage {
  hand_version : Z;
  hand_capabilities : Capabilities;
  hand_nonce : Z;
  hand_hash : Hash;
  hand_totalDifficulty : Z;
  hand_senderAddress : SocketAddress;
  hand_receiverAddress : SocketAddress;
  hand_userAgent : bytes;
}.
#[export] Instance HandMessage_IMessage : IMessage HandMessage := {
  GetMessageType _ := MessageTypes.Hand;
  SerializeBody m s :=
    let s := AppendU32 (hand_version m) s in
    let s := Serialize (hand_capabilities m) s in
    let s := AppendU64 (hand_nonce m) s in
    let s := AppendU64 (hand_totalDifficulty m) s in
    let s := Serialize (hand_senderAddress m) s in
    let s := Serialize (hand_receiverAddress m) s in
    let s := AppendVarStr (hand_userAgent m) s in
    mret (AppendBigInteger (hand_hash m) s);
}.
Definition HandMessage_Deserialize : reader HandMessage :=
  version ← ReadU32;
  capabilities ← Deserialize;
  nonce ← ReadU64;
  totalDifficulty ← ReadU64;
  senderAddress ← Deserialize;
  receiverAddress ← Deserialize;
  userAgent ← ReadVarStr;
  hash ← ReadBigInteger 32;
  mret (mkHandMessage version capabilities nonce hash totalDifficulty senderAddress receiverAddress userAgent).

Record ShakeMessage := mkShakeMessage {
  shake_version : Z;
  shake_capabilities : Capabilities;
  shake_hash : Hash;
  shake_totalDifficulty : Z;
  shake_userAgent : bytes;
}.
#[export] Instance ShakeMessage_IMessage : IMessage ShakeMessage := {
  GetMessageType _ := MessageTypes.Shake;
  SerializeBody m s :=
    let s := AppendU32 (shake_version m) s in
    let s := Serialize (shake_capabilities m) s in
    let s := AppendU64 (shake_totalDifficulty m) s in
    let s := AppendVarStr (shake_userAgent m) s in
    mret (AppendBigInteger (shake_hash m) s);
}.
Definition ShakeMessage_Deserialize : reader ShakeMessage :=
  version ← ReadU32;
  capabilities ← Deserialize;
  totalDifficulty ← ReadU64;
  userAgent ← ReadVarStr;
  hash ← ReadBigInteger 32;
  mret (mkShakeMessage version capabilities hash totalDifficulty userAgent).

Record PingMessage := mkPingMessage { ping_totalDifficulty : Z; ping_height : Z }.
#[export] Instance PingMessage_IMessage : IMessage PingMessage := {
  GetMessageType _ := MessageTypes.Ping;
  SerializeBody m s := mret (AppendU64 (ping_height m) (AppendU64 (ping_totalDifficulty m) s));
}.
Definition PingMessage_Deserialize : reader PingMessage :=
  totalDifficulty ← ReadU64; height ← ReadU64; mret (mkPingMessage totalDifficulty height).

Record PongMessage := mkPongMessage { pong_totalDifficulty : Z; pong_height : Z }.
#[export] Instance PongMessage_IMessage : IMessage PongMessage := {
  GetMessageType _ := MessageTypes.Pong;
  SerializeBody m s := mret (AppendU64 (pong_height m) (AppendU64 (pong_totalDifficulty m) s));
}.
Definition PongMessage_Deserialize : reader PongMessage :=
  totalDifficulty ← ReadU64; height ← ReadU64; mret (mkPongMessage totalDifficulty height).

Record GetPeerAddressesMessage := mkGetPeerAddressesMessage { gpa_capabilities : Capabilities }.
#[export] Instance GetPeerAddressesMessage_IMessage : IMessage GetPeerAddressesMessage := {
  GetMessageType _ := MessageTypes.GetPeerAddrs;
  SerializeBody m s := mret (Serialize (gpa_capabilities m) s);
}.
Definition GetPeerAddressesMessage_Deserialize : reader GetPeerAddressesMessage :=
  capabilities ← Deserialize; mret (mkGetPeerAddressesMessage capabilities).

Record PeerAddressesMessage := mkPeerAddressesMessage { pa_peerAddresses : list SocketAddress }.
#[export] Instance PeerAddressesMessage_IMessage : IMessage PeerAddressesMessage := {
  GetMessageType _ := MessageTypes.PeerAddrs;
  SerializeBody m s := mret (append_all Serialize (pa_peerAddresses m) (AppendU32 (uint 32 (length (pa_peerAddresses m))) s));
}.
Definition PeerAddressesMessage_Deserialize : reader PeerAddressesMessage :=
  numAddresses ← ReadU32;
  peerAddresses ← read_list (Z.to_nat numAddresses) Deserialize;
  mret (mkPeerAddressesMessage peerAddresses).

Record GetHeadersMessage := mkGetHeadersMessage { gh_hashes : list Hash }.
#[export] Instance GetHeadersMessage_IMessage : IMessage GetHeadersMessage := {
  GetMessageType _ := MessageTypes.GetHeaders;
  SerializeBody m s := mret (append_all AppendBigInteger (gh_hashes m) (AppendU8 (uint 8 (length (gh_hashes m))) s));
}.
Definition GetHeadersMessage_Deserialize : reader GetHeadersMessage :=
  numHashes ← ReadU8;
  hashes ← read_list (Z.to_nat numHashes) (ReadBigInteger 32);
  mret (mkGetHeadersMessage hashes).

Record HeaderMessage := mkHeaderMessage { hm_header : BlockHeader }.
#[export] Instance HeaderMessage_IMessage : IMessage HeaderMessage := {
  GetMessageType _ := MessageTypes.Header;
  SerializeBody m s := BlockHeader_Serialize (hm_header m) s;
}.

(** The loops over headers, which may throw. *)
Fixpoint append_headers (headers : list BlockHeader) (s : Serializer) : result Serializer :=
  match headers with
  | [] => mret s
  | header :: headers => s ← BlockHeader_Serialize header s; append_headers headers s
  end.

Record HeadersMessage := mkHeadersMessage { hsm_headers : list BlockHeader }.
#[export] Instance HeadersMessage_IMessage : IMessage HeadersMessage := {
  GetMessageType _ := MessageTypes.Headers;
  SerializeBody m s := append_headers (hsm_headers m) (AppendU16 (uint 16 (length (hsm_headers m))) s);
}.

Record GetBlockMessage := mkGetBlockMessage { gb_hash : Hash }.
#[export] Instance GetBlockMessage_IMessage : IMessage GetBlockMessage := {
  GetMessageType _ := MessageTypes.GetBlock;
  SerializeBody m s := mret (AppendBigInteger (gb_hash m) s);
}.
Definition GetBlockMessage_Deserialize : reader GetBlockMessage := hash ← ReadBigInteger 32; mret (mkGetBlockMessage hash).

Record BlockMessage := mkBlockMessage { bm_block : FullBlock }.
#[export] Instance BlockMessage_IMessage : IMessage BlockMessage := {
  GetMessageType _ := MessageTypes.Block;
  SerializeBody m s := FullBlock_Serialize (bm_block m) s;
}.

Record GetCompactBlockMessage := mkGetCompactBlockMessage { gcb_hash : Hash }.
#[export] Instance GetCompactBlockMessage_IMessage : IMessage GetCompactBlockMessage := {
  GetMessageType _ := MessageTypes.GetCompactBlock;
  SerializeBody m s := mret (AppendBigInteger (gcb_hash m) s);
}.
Definition GetCompactBlockMessage_Deserialize : reader GetCompactBlockMessage :=
  hash ← ReadBigInteger 32; mret (mkGetCompactBlockMessage hash).

Record CompactBlockMessage := mkCompactBlockMessage { cbm_block : CompactBlock }.
#[export] Instance CompactBlockMessage_IMessage : IMessage CompactBlockMessage := {
  GetMessageType _ := MessageTypes.CompactBlockMsg;
  SerializeBody m s := CompactBlock_Serialize (cbm_block m) s;
}.

Record StemTransactionMessage := mkStemTransactionMessage { stm_transaction : Transaction }.
#[export] Instance StemTransactionMessage_IMessage : IMessage StemTransactionMessage := {
  GetMessageType _ := MessageTypes.StemTransaction;
  SerializeBody m s := mret (Transaction_Serialize (stm_transaction m) s);
}.

Record TransactionMessage := mkTransactionMessage { tm_transaction : Transaction }.
#[export] Instance TransactionMessage_IMessage : IMessage TransactionMessage := {
  GetMessageType _ := MessageTypes.TransactionMsg;
  SerializeBody m s := mret (Transaction_Serialize (tm_transaction m) s);
}.

Record TxHashSetRequestMessage := mkTxHashSetRequestMessage { thr_blockHash : Hash; thr_blockHeight : Z }.
#[export] Instance TxHashSetRequestMessage_IMessage : IMessage TxHashSetRequestMessage := {
  GetMessageType _ := MessageTypes.TxHashSetRequest;
  SerializeBody m s := mret (AppendU64 (thr_blockHeight m) (AppendBigInteger (thr_blockHash m) s));
}.
Definition TxHashSetRequestMessage_Deserialize : reader TxHashSetRequestMessage :=
  blockHash ← ReadBigInteger 32; blockHeight ← ReadU64; mret (mkTxHashSetRequestMessage blockHash blockHeight).

Record TxHashSetArchiveMessage := mkTxHashSetArchiveMessage { tha_blockHash : Hash; tha_blockHeight : Z; tha_zippedDataSize : Z }.
#[export] Instance TxHashSetArchiveMessage_IMessage : IMessage TxHashSetArchiveMessage := {
  GetMessageType _ := MessageTypes.TxHashSetArchive;
  SerializeBody m s := mret (AppendU64 (tha_zippedDataSize m) (AppendU64 (tha_blockHeight m) (AppendBigInteger (tha_blockHash m) s)));
}.
Definition TxHashSetArchiveMessage_Deserialize : reader TxHashSetArchiveMessage :=
  blockHash ← ReadBigInteger 32;
  blockHeight ← ReadU64;
  zippedDataSize ← ReadU64;
  mret (mkTxHashSetArchiveMessage blockHash blockHeight zippedDataSize).

Record BanReasonMessage := mkBanReasonMessage { br_banReason : Z }.
#[export] Instance BanReasonMessage_IMessage : IMessage BanReasonMessage := {
  GetMessageType _ := MessageTypes.BanReasonMsg;
  SerializeBody m s := mret (AppendU32 (br_banReason m) s);
}.
Definition BanReasonMessage_Deserialize : reader BanReasonMessage := banReason ← ReadU32; mret (mkBanReasonMessage banReason).

Record GetTransactionMessage := mkGetTransactionMessage { gt_kernelHash : Hash }.
#[export] Instance GetTransactionMessage_IMessage : IMessage GetTransactionMessage := {
  GetMessageType _ := MessageTypes.GetTransactionMsg;
  SerializeBody m s := mret (AppendBigInteger (gt_kernelHash m) s);
}.
Definition GetTransactionMessage_Deserialize : reader GetTransactionMessage :=
  kernelHash ← ReadBigInteger 32; mret (mkGetTransactionMessage kernelHash).

Record TransactionKernelMessage := mkTransactionKernelMessage { tkm_kernelHash : Hash }.
#[export] Instance TransactionKernelMessage_IMessage : IMessage TransactionKernelMessage := {
  GetMessageType _ := MessageTypes.TransactionKernelMsg;
  SerializeBody m s := mret (AppendBigInteger (tkm_kernelHash m) s);
}.
Definition TransactionKernelMessage_Deserialize : reader TransactionKernelMessage :=
  kernelHash ← ReadBigInteger 32; mret (mkTransactionKernelMessage kernelHash).

(** The four requests for segments are one template over their type. *)
Inductive SegmentKind := BitmapKind | OutputKind | RangeProofKind | KernelKind.
#[export] Instance SegmentKind_eq_dec : EqDecision SegmentKind.
Proof. solve_decision. Defined.
Definition request_type (kind : SegmentKind) : EMessageType :=
  match kind with
  | BitmapKind => MessageTypes.GetOutputBitmapSegment
  | OutputKind => MessageTypes.GetOutputSegment
  | RangeProofKind => MessageTypes.GetRangeProofSegment
  | KernelKind => MessageTypes.GetKernelSegment
  end.

Record SegmentRequestMessage (kind : SegmentKind) := mkSegmentRequestMessage { sr_blockHash : Hash; sr_identifier : SegmentIdentifier }.
Arguments mkSegmentRequestMessage {kind}.
Arguments sr_blockHash {kind}.
Arguments sr_identifier {kind}.
#[export] Instance SegmentRequestMessage_IMessage kind : IMessage (SegmentRequestMessage kind) := {
  GetMessageType _ := request_type kind;
  SerializeBody m s := mret (Serialize (sr_identifier m) (AppendBigInteger (sr_blockHash m) s));
}.
Definition SegmentRequestMessage_Deserialize kind : reader (SegmentRequestMessage kind) :=
  blockHash ← ReadBigInteger 32; identifier ← Deserialize; mret (mkSegmentRequestMessage blockHash identifier).

Record RangeProofSegmentMessage := mkRangeProofSegmentMessage { rps_blockHash : Hash; rps_segment : Segment RangeProof }.
#[export] Instance RangeProofSegmentMessage_IMessage : IMessage RangeProofSegmentMessage := {
  GetMessageType _ := MessageTypes.RangeProofSegment;
  SerializeBody m s := mret (Serialize (rps_segment m) (AppendBigInteger (rps_blockHash m) s));
}.
Definition RangeProofSegmentMessage_Deserialize : reader RangeProofSegmentMessage :=
  blockHash ← ReadBigInteger 32; segment ← Deserialize; mret (mkRangeProofSegmentMessage blockHash segment).

Record KernelSegmentMessage := mkKernelSegmentMessage { ks_blockHash : Hash; ks_segment : Segment TransactionKernel }.
#[export] Instance KernelSegmentMessage_IMessage : IMessage KernelSegmentMessage := {
  GetMessageType _ := MessageTypes.KernelSegment;
  SerializeBody m s := mret (Serialize (ks_segment m) (AppendBigInteger (ks_blockHash m) s));
}.
Definition KernelSegmentMessage_Deserialize : reader KernelSegmentMessage :=
  blockHash ← ReadBigInteger 32; segment ← Deserialize; mret (mkKernelSegmentMessage blockHash segment).

Record OutputSegmentMessage := mkOutputSegmentMessage { os_blockHash : Hash; os_segment : Segment OutputIdentifier; os_outputBitmapRoot : Hash }.
#[export] Instance OutputSegmentMessage_IMessage : IMessage OutputSegmentMessage := {
  GetMessageType _ := MessageTypes.OutputSegment;
  SerializeBody m s := mret (AppendBigInteger (os_outputBitmapRoot m) (Serialize (os_segment m) (AppendBigInteger (os_blockHash m) s)));
}.
Definition OutputSegmentMessage_Deserialize : reader OutputSegmentMessage :=
  blockHash ← ReadBigInteger 32;
  segment ← Deserialize;
  bitmapRoot ← ReadBigInteger 32;
  mret (mkOutputSegmentMessage blockHash segment bitmapRoot).

Record OutputBitmapSegmentMessage := mkOutputBitmapSegmentMessage { obs_blockHash : Hash; obs_segment : BitmapSegment; obs_outputRoot : Hash }.
#[export] Instance OutputBitmapSegmentMessage_IMessage : IMessage OutputBitmapSegmentMessage := {
  GetMessageType _ := MessageTypes.OutputBitmapSegment;
  SerializeBody m s := mret (AppendBigInteger (obs_outputRoot m) (Serialize (obs_segment m) (AppendBigInteger (obs_blockHash m) s)));
}.
Definition OutputBitmapSegmentMessage_Deserialize : reader OutputBitmapSegmentMessage :=
  blockHash ← ReadBigInteger 32;
  segment ← Deserialize;
  outputRoot ← ReadBigInteger 32;
  mret (mkOutputBitmapSegmentMessage blockHash segment outputRoot).

Record GetHeaderSegmentMessage := mkGetHeaderSegmentMessage { ghs_identifier : SegmentIdentifier }.
#[export] Instance GetHeaderSegmentMessage_IMessage : IMessage GetHeaderSegmentMessage := {
  GetMessageType _ := MessageTypes.GetHeaderSegment;
  SerializeBody m s := mret (Serialize (ghs_identifier m) s);
}.
Definition GetHeaderSegmentMessage_Deserialize : reader GetHeaderSegmentMessage :=
  identifier ← Deserialize; mret (mkGetHeaderSegmentMessage identifier).

Record HeaderSegmentMessage := mkHeaderSegmentMessage { hsg_identifier : SegmentIdentifier; hsg_headers : list BlockHeader }.
#[export] Instance HeaderSegmentMessage_IMessage : IMessage HeaderSegmentMessage := {
  GetMessageType _ := MessageTypes.HeaderSegment;
  SerializeBody m s := append_headers (hsg_headers m) (AppendU16 (uint 16 (length (hsg_headers m))) (Serialize (hsg_identifier m) s));
}.

(** The bodies with headers, which need the hash of proofs of work and, for
    inputs, the coin view. *)
Section hashing.
Context (Blake2b : bytes -> Hash) (GetOutputType : Commitment -> Z).

Definition HeaderMessage_Deserialize : reader HeaderMessage :=
  header ← BlockHeader_Deserialize Blake2b; mret (mkHeaderMessage header).

Definition HeadersMessage_Deserialize : reader HeadersMessage :=
  numHeaders ← ReadU16;
  headers ← read_list (Z.to_nat numHeaders) (BlockHeader_Deserialize Blake2b);
  mret (mkHeadersMessage headers).

Definition HeaderSegmentMessage_Deserialize : reader HeaderSegmentMessage :=
  identifier ← Deserialize;
  numHeaders ← ReadU16;
  headers ← read_list (Z.to_nat numHeaders) (BlockHeader_Deserialize Blake2b);
  mret (mkHeaderSegmentMessage identifier headers).

Definition BlockMessage_Deserialize : reader BlockMessage :=
  block ← FullBlock_Deserialize Blake2b GetOutputType; mret (mkBlockMessage block).

Definition CompactBlockMessage_Deserialize : reader CompactBlockMessage :=
  block ← CompactBlock_Deserialize Blake2b; mret (mkCompactBlockMessage block).

Definition StemTransactionMessage_Deserialize : reader StemTransactionMessage :=
  transaction ← Transaction_Deserialize Blake2b GetOutputType; mret (mkStemTransactionMessage transaction).

Definition TransactionMessage_Deserialize : reader TransactionMessage :=
  transaction ← Transaction_Deserialize Blake2b GetOutputType; mret (mkTransactionMessage transaction).
End hashing.

(** ** [IMessagePtr]: a message of some type *)
Inductive IMessagePtr :=
| PError (m : ErrorMessage) | PHand (m : HandMessage) | PShake (m : ShakeMessage) | PPing (m : PingMessage) | PPong (m : PongMessage)
| PGetPeerAddrs (m : GetPeerAddressesMessage) | PPeerAddrs (m : PeerAddressesMessage)
| PGetHeaders (m : GetHeadersMessage) | PHeader (m : HeaderMessage) | PHeaders (m : HeadersMessage)
| PGetBlock (m : GetBlockMessage) | PBlock (m : BlockMessage) | PGetCompactBlock (m : GetCompactBlockMessage) | PCompactBlock (m : CompactBlockMessage)
| PStemTransaction (m : StemTransactionMessage) | PTransaction (m : TransactionMessage)
| PTxHashSetRequest (m : TxHashSetRequestMessage) | PTxHashSetArchive (m : TxHashSetArchiveMessage) | PBanReason (m : BanReasonMessage)
| PGetTransaction (m : GetTransactionMessage) | PTransactionKernel (m : TransactionKernelMessage)
| PGetSegment (kind : SegmentKind) (m : SegmentRequestMessage kind)
| POutputBitmapSegment (m : OutputBitmapSegmentMessage) | POutputSegment (m : OutputSegmentMessage)
| PRangeProofSegment (m : RangeProofSegmentMessage) | PKernelSegment (m : KernelSegmentMessage)
| PGetHeaderSegment (m : GetHeaderSegmentMessage) | PHeaderSegment (m : HeaderSegmentMessage).

(** A call through the base class. *)
Definition with_message {T} (f : forall A, IMessage A -> A -> T) (p : IMessagePtr) : T :=
  match p with
  | PError m => f _ _ m | PHand m => f _ _ m | PShake m => f _ _ m | PPing m => f _ _ m | PPong m => f _ _ m
  | PGetPeerAddrs m => f _ _ m | PPeerAddrs m => f _ _ m
  | PGetHeaders m => f _ _ m | PHeader m => f _ _ m | PHeaders m => f _ _ m
  | PGetBlock m => f _ _ m | PBlock m => f _ _ m | PGetCompactBlock m => f _ _ m | PCompactBlock m => f _ _ m
  | PStemTransaction m => f _ _ m | PTransaction m => f _ _ m
  | PTxHashSetRequest m => f _ _ m | PTxHashSetArchive m => f _ _ m | PBanReason m => f _ _ m
  | PGetTransaction m => f _ _ m | PTransactionKernel m => f _ _ m
  | PGetSegment kind m => f _ _ m
  | POutputBitmapSegment m => f _ _ m | POutputSegment m => f _ _ m
  | PRangeProofSegment m => f _ _ m | PKernelSegment m => f _ _ m
  | PGetHeaderSegment m => f _ _ m | PHeaderSegment m => f _ _ m
  end.
#[export] Instance IMessagePtr_IMessage : IMessage IMessagePtr := {
  GetMessageType := with_message (fun A _ m => GetMessageType m);
  SerializeBody := with_message (fun A _ m => SerializeBody m);
}.
