(* ===== verification/MessageSpec.v ===== *)
(** * Messages survive the wire

    The laws of the bodies, for every type of message, and the frame around
    them. *)
From S2P Require Import Prelude BitUtil MMRIndex Serial BigInteger File Roaring MMRHash SegmentId SegmentProof Segment BitmapSegment Consensus Transaction Header Block BlockSpec TxHashSet TxHashSetSpec HeaderSync Message.
Import MessageTypes (EMessageType, GetMaximumSize).

(** ** The parts of bodies *)
Definition IPAddress_wf (_ : EProtocolVersion) (a : IPAddress) : Prop :=
  match a with V4 address => length address = 4%nat | V6 address => length address = 16%nat end.

#[export] Instance IPAddress_laws : SerializableLaws IPAddress IPAddress_wf.
Proof.
  constructor.
  - intros [address|address] s; unfold Serialized; cbn [Serialize IPAddress_Serializable]; serialize_bytes; done.
  - intros v [address|address] Ha; cbn [IPAddress_wf] in Ha; unfold Serialized; cbn [Serialize Deserialize IPAddress_Serializable]; serialize_bytes;
      read_be 1%nat; cbn [Z.eqb]; [apply (reads_map _ _ _ _ V4)|apply (reads_map _ _ _ _ V6)]; apply reads_bytes; by rewrite Ha.
Qed.

Lemma IPAddress_length v a : IPAddress_wf v a -> length (Serialized v a) <= 17.
Proof.
  intros Ha. unfold Serialized. destruct a; cbn [Serialize IPAddress_Serializable IPAddress_wf] in *; serialize_bytes;
    rewrite length_app, length_be_bytes, Ha; lia.
Qed.

Definition SocketAddress_wf (v : EProtocolVersion) (a : SocketAddress) : Prop := IPAddress_wf v (sa_ipAddress a) /\ is_uint 16 (sa_port a).

#[export] Instance SocketAddress_laws : SerializableLaws SocketAddress SocketAddress_wf.
Proof.
  constructor.
  - intros a s. unfold Serialized. cbn [Serialize SocketAddress_Serializable]. rewrite !(serialize_appends (A := IPAddress)). serialize_bytes. done.
  - intros v [ip port] [Hip Hport]. cbn [sa_ipAddress sa_port] in *. unfold Serialized.
    cbn [Serialize Deserialize SocketAddress_Serializable sa_ipAddress sa_port]. rewrite serialize_appends. serialize_bytes.
    eapply reads_bind; [by apply deserialize_reads|cbv beta].
    apply (reads_map _ ReadU16 _ _ (mkSocketAddress ip)). apply reads_be. uint_bytes 2%nat.
Qed.

Lemma SocketAddress_length v a : SocketAddress_wf v a -> length (Serialized v a) <= 19.
Proof.
  intros [Ha _]. unfold Serialized. cbn [Serialize SocketAddress_Serializable]. rewrite serialize_appends. serialize_bytes.
  rewrite length_app, length_be_bytes. pose proof (IPAddress_length v _ Ha). lia.
Qed.

Definition Capabilities_wf (_ : EProtocolVersion) (c : Capabilities) : Prop := is_uint 32 (cap_value c).

#[export] Instance Capabilities_laws : SerializableLaws Capabilities Capabilities_wf.
Proof.
  constructor.
  - intros c s. unfold Serialized. cbn [Serialize Capabilities_Serializable]. serialize_bytes. done.
  - intros v [value] Hv. unfold Capabilities_wf in Hv. cbn [cap_value] in Hv. unfold Serialized.
    cbn [Serialize Deserialize Capabilities_Serializable cap_value]. serialize_bytes.
    apply (reads_map _ ReadU32 _ _ mkCapabilities). apply reads_be. uint_bytes 4%nat.
Qed.

Lemma Capabilities_length v c : length (Serialized v c) = 4%nat.
Proof. unfold Serialized. cbn [Serialize Capabilities_Serializable]. serialize_bytes. by rewrite length_be_bytes. Qed.

Lemma SegmentIdentifier_length v (id : SegmentIdentifier) : length (Serialized v id) = 9%nat.
Proof. unfold Serialized. cbn [Serialize SegmentIdentifier_Serializable]. serialize_bytes. by rewrite length_app, !length_be_bytes. Qed.

Lemma concat_length_le {A} (enc : A -> bytes) (n : Z) l : Forall (fun a => length (enc a) <= n) l -> length (concat (map enc l)) <= n * length l.
Proof. induction 1 as [|a l Ha Hl IH]; cbn [map concat length]; [lia|]. rewrite length_app. nia. Qed.

(** ** What a type of message promises *)
Definition body_of `{IMessage A} (v : EProtocolVersion) (m : A) : bytes :=
  match SerializeBody m (Serializer_new v) with Ok s => s_bytes s | Throw _ => [] end.

Class MessageLaws (A : Type) `{IMessage A} (wf : EProtocolVersion -> A -> Prop) (rd : reader A) :=
  message_reads v m : wf v m -> SerializeBody m (Serializer_new v) = Ok (mkSerializer v (body_of v m)) /\ reads v rd (body_of v m) m.

Lemma message_ok `{IMessage A} v (m : A) enc rd : SerializeBody m (Serializer_new v) = Ok (mkSerializer v enc) -> reads v rd enc m ->
  SerializeBody m (Serializer_new v) = Ok (mkSerializer v (body_of v m)) /\ reads v rd (body_of v m) m.
Proof. intros E Hr. unfold body_of. by rewrite E. Qed.

(** The bytes of a body, and what reads them. *)
Ltac head_of t := match t with ?f _ => head_of f | _ => t end.
Ltac unfold_body :=
  match goal with |- context [@SerializeBody _ ?i _ _] => let h := head_of i in unfold h end;
  cbn [SerializeBody mret result_ret result_bind mbind].
Ltac body_bytes := unfold_body; rewrite ?serialize_appends; unfold AppendVarStr; serialize_bytes; reflexivity.
Ltac message_law := eapply message_ok; [body_bytes|].

Ltac read_sub := eapply reads_bind; [by apply deserialize_reads|cbv beta].
Ltac read_str := rewrite app_assoc; eapply reads_bind; [by apply reads_VarStr|cbv beta].
Ltac read_hashed := eapply reads_bind; [apply reads_bytes; lia|cbv beta].

#[export] Instance HandMessage_laws : MessageLaws HandMessage (fun v m =>
  is_uint 32 (hand_version m) /\ Capabilities_wf v (hand_capabilities m) /\ is_uint 64 (hand_nonce m) /\ length (hand_hash m) = 32%nat /\
  is_uint 64 (hand_totalDifficulty m) /\ SocketAddress_wf v (hand_senderAddress m) /\ SocketAddress_wf v (hand_receiverAddress m) /\
  length (hand_userAgent m) < 2 ^ 64) HandMessage_Deserialize.
Proof.
  intros v m (H1 & H2 & H3 & H4 & H5 & H6 & H7 & H8). message_law. destruct m as [version cap nonce hash td sender receiver agent].
  cbn [hand_version hand_capabilities hand_nonce hand_hash hand_totalDifficulty hand_senderAddress hand_receiverAddress hand_userAgent] in *.
  unfold HandMessage_Deserialize. read_be 4%nat. read_sub. do 2 read_be 8%nat. do 2 read_sub. read_str.
  apply (reads_map _ (ReadBigInteger 32) _ _ (fun hash => mkHandMessage version cap nonce hash td sender receiver agent)). apply reads_bytes. by rewrite H4.
Qed.

#[export] Instance ShakeMessage_laws : MessageLaws ShakeMessage (fun v m =>
  is_uint 32 (shake_version m) /\ Capabilities_wf v (shake_capabilities m) /\ length (shake_hash m) = 32%nat /\
  is_uint 64 (shake_totalDifficulty m) /\ length (shake_userAgent m) < 2 ^ 64) ShakeMessage_Deserialize.
Proof.
  intros v m (H1 & H2 & H3 & H4 & H5). message_law. destruct m as [version cap hash td agent].
  cbn [shake_version shake_capabilities shake_hash shake_totalDifficulty shake_userAgent] in *.
  unfold ShakeMessage_Deserialize. read_be 4%nat. read_sub. read_be 8%nat. read_str.
  apply (reads_map _ (ReadBigInteger 32) _ _ (fun hash => mkShakeMessage version cap hash td agent)). apply reads_bytes. by rewrite H3.
Qed.

#[export] Instance PingMessage_laws : MessageLaws PingMessage (fun _ m => is_uint 64 (ping_totalDifficulty m) /\ is_uint 64 (ping_height m)) PingMessage_Deserialize.
Proof.
  intros v m [H1 H2]. message_law. destruct m as [td h]. cbn [ping_totalDifficulty ping_height] in *.
  unfold PingMessage_Deserialize. read_be 8%nat. apply (reads_map _ ReadU64). apply reads_be. uint_bytes 8%nat.
Qed.

#[export] Instance PongMessage_laws : MessageLaws PongMessage (fun _ m => is_uint 64 (pong_totalDifficulty m) /\ is_uint 64 (pong_height m)) PongMessage_Deserialize.
Proof.
  intros v m [H1 H2]. message_law. destruct m as [td h]. cbn [pong_totalDifficulty pong_height] in *.
  unfold PongMessage_Deserialize. read_be 8%nat. apply (reads_map _ ReadU64). apply reads_be. uint_bytes 8%nat.
Qed.

#[export] Instance GetPeerAddressesMessage_laws : MessageLaws GetPeerAddressesMessage (fun v m => Capabilities_wf v (gpa_capabilities m)) GetPeerAddressesMessage_Deserialize.
Proof. intros v [c] H. message_law. apply (reads_map _ Deserialize). by apply deserialize_reads. Qed.

#[export] Instance PeerAddressesMessage_laws : MessageLaws PeerAddressesMessage (fun v m =>
  Forall (SocketAddress_wf v) (pa_peerAddresses m) /\ is_uint 32 (length (pa_peerAddresses m))) PeerAddressesMessage_Deserialize.
Proof.
  intros v m [H1 H2]. eapply message_ok.
  { unfold_body. rewrite (append_all_version (@Serialize SocketAddress _) Serialized) by (intros; apply serialize_appends). serialize_bytes. reflexivity. }
  destruct m as [l]. cbn [pa_peerAddresses] in *. rewrite uint_small by done. unfold PeerAddressesMessage_Deserialize. read_be 4%nat. rewrite Nat2Z.id.
  apply (reads_map _ (read_list _ _)). apply reads_list. eapply Forall_impl; [apply H1|]. intros. by apply deserialize_reads.
Qed.

#[export] Instance GetHeadersMessage_laws : MessageLaws GetHeadersMessage (fun _ m =>
  hashes_ok (gh_hashes m) /\ is_uint 8 (length (gh_hashes m))) GetHeadersMessage_Deserialize.
Proof.
  intros v m [H1 H2]. eapply message_ok.
  { unfold_body. rewrite (append_all_bytes AppendBigInteger (fun x => x)) by done. serialize_bytes. reflexivity. }
  destruct m as [l]. cbn [gh_hashes] in *. rewrite uint_small by done. unfold GetHeadersMessage_Deserialize. read_be 1%nat. rewrite Nat2Z.id.
  apply (reads_map _ (read_list _ _)). apply reads_list. eapply Forall_impl; [apply H1|]. cbn. intros x Hx. apply reads_bytes. by rewrite Hx.
Qed.

(** The bodies that are one hash. *)
Ltac hash_law := intros v [h] H; message_law; apply (reads_map _ (ReadBigInteger 32)); apply reads_bytes; cbn in H |- *; by rewrite H.

#[export] Instance GetBlockMessage_laws : MessageLaws GetBlockMessage (fun _ m => length (gb_hash m) = 32%nat) GetBlockMessage_Deserialize.
Proof. hash_law. Qed.
#[export] Instance GetCompactBlockMessage_laws : MessageLaws GetCompactBlockMessage (fun _ m => length (gcb_hash m) = 32%nat) GetCompactBlockMessage_Deserialize.
Proof. hash_law. Qed.
#[export] Instance GetTransactionMessage_laws : MessageLaws GetTransactionMessage (fun _ m => length (gt_kernelHash m) = 32%nat) GetTransactionMessage_Deserialize.
Proof. hash_law. Qed.
#[export] Instance TransactionKernelMessage_laws : MessageLaws TransactionKernelMessage (fun _ m => length (tkm_kernelHash m) = 32%nat) TransactionKernelMessage_Deserialize.
Proof. hash_law. Qed.

#[export] Instance TxHashSetRequestMessage_laws : MessageLaws TxHashSetRequestMessage (fun _ m =>
  length (thr_blockHash m) = 32%nat /\ is_uint 64 (thr_blockHeight m)) TxHashSetRequestMessage_Deserialize.
Proof.
  intros v m [H1 H2]. message_law. destruct m as [h height]. cbn [thr_blockHash thr_blockHeight] in *.
  unfold TxHashSetRequestMessage_Deserialize. read_raw. apply (reads_map _ ReadU64). apply reads_be. uint_bytes 8%nat.
Qed.

#[export] Instance TxHashSetArchiveMessage_laws : MessageLaws TxHashSetArchiveMessage (fun _ m =>
  length (tha_blockHash m) = 32%nat /\ is_uint 64 (tha_blockHeight m) /\ is_uint 64 (tha_zippedDataSize m)) TxHashSetArchiveMessage_Deserialize.
Proof.
  intros v m (H1 & H2 & H3). message_law. destruct m as [h height size]. cbn [tha_blockHash tha_blockHeight tha_zippedDataSize] in *.
  unfold TxHashSetArchiveMessage_Deserialize. read_raw. read_be 8%nat. apply (reads_map _ ReadU64). apply reads_be. uint_bytes 8%nat.
Qed.

#[export] Instance BanReasonMessage_laws : MessageLaws BanReasonMessage (fun _ m => is_uint 32 (br_banReason m)) BanReasonMessage_Deserialize.
Proof. intros v [r] H. message_law. apply (reads_map _ ReadU32). apply reads_be. cbn in H |- *. uint_bytes 4%nat. Qed.

(** The bodies that are a hash and a serializable value. *)
#[export] Instance SegmentRequestMessage_laws kind : MessageLaws (SegmentRequestMessage kind) (fun v m =>
  length (sr_blockHash m) = 32%nat /\ SegmentIdentifier_wf v (sr_identifier m)) (SegmentRequestMessage_Deserialize kind).
Proof.
  intros v m [H1 H2]. message_law. destruct m as [h id]. cbn [sr_blockHash sr_identifier] in *.
  unfold SegmentRequestMessage_Deserialize. read_raw. apply (reads_map _ Deserialize). by apply deserialize_reads.
Qed.

#[export] Instance RangeProofSegmentMessage_laws : MessageLaws RangeProofSegmentMessage (fun v m =>
  length (rps_blockHash m) = 32%nat /\ Segment_wf (wf := RangeProof_wf) v (rps_segment m)) RangeProofSegmentMessage_Deserialize.
Proof.
  intros v m [H1 H2]. message_law. destruct m as [h segment]. cbn [rps_blockHash rps_segment] in *.
  unfold RangeProofSegmentMessage_Deserialize. read_raw. apply (reads_map _ Deserialize). by apply deserialize_reads.
Qed.

#[export] Instance KernelSegmentMessage_laws : MessageLaws KernelSegmentMessage (fun v m =>
  length (ks_blockHash m) = 32%nat /\ Segment_wf (wf := TransactionKernel_wf) v (ks_segment m)) KernelSegmentMessage_Deserialize.
Proof.
  intros v m [H1 H2]. message_law. destruct m as [h segment]. cbn [ks_blockHash ks_segment] in *.
  unfold KernelSegmentMessage_Deserialize. read_raw. apply (reads_map _ Deserialize). by apply deserialize_reads.
Qed.

#[export] Instance OutputSegmentMessage_laws : MessageLaws OutputSegmentMessage (fun v m =>
  length (os_blockHash m) = 32%nat /\ Segment_wf (wf := OutputIdentifier_wf) v (os_segment m) /\ length (os_outputBitmapRoot m) = 32%nat) OutputSegmentMessage_Deserialize.
Proof.
  intros v m (H1 & H2 & H3). message_law. destruct m as [h segment root]. cbn [os_blockHash os_segment os_outputBitmapRoot] in *.
  unfold OutputSegmentMessage_Deserialize. read_raw. read_sub. apply (reads_map _ (ReadBigInteger 32)). apply reads_bytes. by rewrite H3.
Qed.

#[export] Instance OutputBitmapSegmentMessage_laws : MessageLaws OutputBitmapSegmentMessage (fun v m =>
  length (obs_blockHash m) = 32%nat /\ BitmapSegment_wf v (obs_segment m) /\ length (obs_outputRoot m) = 32%nat) OutputBitmapSegmentMessage_Deserialize.
Proof.
  intros v m (H1 & H2 & H3). message_law. destruct m as [h segment root]. cbn [obs_blockHash obs_segment obs_outputRoot] in *.
  unfold OutputBitmapSegmentMessage_Deserialize. read_raw. read_sub. apply (reads_map _ (ReadBigInteger 32)). apply reads_bytes. by rewrite H3.
Qed.

#[export] Instance GetHeaderSegmentMessage_laws : MessageLaws GetHeaderSegmentMessage (fun v m => SegmentIdentifier_wf v (ghs_identifier m)) GetHeaderSegmentMessage_Deserialize.
Proof. intros v [id] H. message_law. apply (reads_map _ Deserialize). by apply deserialize_reads. Qed.

Section hashing.
Context (Blake2b : bytes -> Hash) (GetOutputType : Commitment -> Z).
Hypothesis Blake2b_length : forall x, length (Blake2b x) = 32%nat.
Hypothesis Blake2b_byte : forall x, Forall is_byte (Blake2b x).
Local Abbreviation header_wf := (BlockHeader_wf Blake2b).

Lemma append_headers_bytes headers s : Forall header_wf headers ->
  append_headers headers s = Ok (mkSerializer (s_version s) (s_bytes s ++ concat (map header_bytes headers))).
Proof.
  intros H. revert s. induction H as [|h headers Hh _ IH]; intros s; cbn [append_headers map concat].
  - rewrite app_nil_r. by destruct s.
  - rewrite (BlockHeader_Serialize_bytes Blake2b) by done. cbn [mbind result_bind]. rewrite IH. cbn [s_version s_bytes]. by rewrite app_assoc.
Qed.

Lemma reads_headers v headers : Forall header_wf headers -> reads v (read_list (length headers) (BlockHeader_Deserialize Blake2b)) (concat (map header_bytes headers)) headers.
Proof. intros H. apply reads_list. eapply Forall_impl; [apply H|]. intros h Hh. by apply reads_BlockHeader. Qed.

Lemma reads_Transaction v t : length (tx_offset t) = 32%nat -> TransactionBody_wf Blake2b GetOutputType v (tx_body t) ->
  reads v (Transaction_Deserialize Blake2b GetOutputType) (tx_offset t ++ body_bytes v (tx_body t)) t.
Proof.
  intros Hl Hb. destruct t as [offset body]. cbn [tx_offset tx_body] in *. unfold Transaction_Deserialize. read_raw.
  apply (reads_map _ (TransactionBody_Deserialize Blake2b GetOutputType) _ _ (mkTransaction offset)). by apply reads_TransactionBody.
Qed.

Definition Transaction_wf (v : EProtocolVersion) (t : Transaction) : Prop :=
  length (tx_offset t) = 32%nat /\ TransactionBody_wf Blake2b GetOutputType v (tx_body t).

#[export] Instance HeaderMessage_laws : MessageLaws HeaderMessage (fun _ m => header_wf (hm_header m)) (HeaderMessage_Deserialize Blake2b).
Proof.
  intros v [h] H. eapply message_ok; [unfold_body; cbn [hm_header]; by rewrite (BlockHeader_Serialize_bytes Blake2b)|].
  apply (reads_map _ (BlockHeader_Deserialize Blake2b)). by apply reads_BlockHeader.
Qed.

#[export] Instance HeadersMessage_laws : MessageLaws HeadersMessage (fun _ m =>
  Forall header_wf (hsm_headers m) /\ is_uint 16 (length (hsm_headers m))) (HeadersMessage_Deserialize Blake2b).
Proof.
  intros v m [H1 H2]. eapply message_ok; [unfold_body; rewrite append_headers_bytes by done; serialize_bytes; reflexivity|].
  destruct m as [l]. cbn [hsm_headers] in *. rewrite uint_small by done. unfold HeadersMessage_Deserialize. read_be 2%nat. rewrite Nat2Z.id.
  apply (reads_map _ (read_list _ _)). by apply reads_headers.
Qed.

#[export] Instance HeaderSegmentMessage_laws : MessageLaws HeaderSegmentMessage (fun v m =>
  SegmentIdentifier_wf v (hsg_identifier m) /\ Forall header_wf (hsg_headers m) /\ is_uint 16 (length (hsg_headers m))) (HeaderSegmentMessage_Deserialize Blake2b).
Proof.
  intros v m (H1 & H2 & H3). eapply message_ok; [unfold_body; rewrite append_headers_bytes by done; rewrite serialize_appends; serialize_bytes; reflexivity|].
  destruct m as [id l]. cbn [hsg_identifier hsg_headers] in *. rewrite uint_small by done. unfold HeaderSegmentMessage_Deserialize.
  read_sub. read_be 2%nat. rewrite Nat2Z.id. apply (reads_map _ (read_list _ _)). by apply reads_headers.
Qed.

#[export] Instance BlockMessage_laws : MessageLaws BlockMessage (fun v m => FullBlock_wf Blake2b GetOutputType v (bm_block m)) (BlockMessage_Deserialize Blake2b GetOutputType).
Proof.
  intros v [b] H. destruct (reads_FullBlock Blake2b GetOutputType Blake2b_length Blake2b_byte v b H) as (enc & E & Hr).
  eapply message_ok; [exact E|]. by apply (reads_map _ (FullBlock_Deserialize Blake2b GetOutputType)).
Qed.

#[export] Instance CompactBlockMessage_laws : MessageLaws CompactBlockMessage (fun v m => CompactBlock_wf Blake2b v (cbm_block m)) (CompactBlockMessage_Deserialize Blake2b).
Proof.
  intros v [b] H. destruct (reads_CompactBlock Blake2b v b H) as (enc & E & Hr).
  eapply message_ok; [exact E|]. by apply (reads_map _ (CompactBlock_Deserialize Blake2b)).
Qed.

#[export] Instance StemTransactionMessage_laws : MessageLaws StemTransactionMessage (fun v m => Transaction_wf v (stm_transaction m)) (StemTransactionMessage_Deserialize Blake2b GetOutputType).
Proof.
  intros v [t] [H1 H2]. eapply message_ok; [unfold_body; unfold Transaction_Serialize; rewrite TransactionBody_Serialize_bytes; serialize_bytes; reflexivity|].
  apply (reads_map _ (Transaction_Deserialize Blake2b GetOutputType)). by apply reads_Transaction.
Qed.

#[export] Instance TransactionMessage_laws : MessageLaws TransactionMessage (fun v m => Transaction_wf v (tm_transaction m)) (TransactionMessage_Deserialize Blake2b GetOutputType).
Proof.
  intros v [t] [H1 H2]. eapply message_ok; [unfold_body; unfold Transaction_Serialize; rewrite TransactionBody_Serialize_bytes; serialize_bytes; reflexivity|].
  apply (reads_map _ (Transaction_Deserialize Blake2b GetOutputType)). by apply reads_Transaction.
Qed.
End hashing.

(** ** Any message *)
Section any.
Context (Blake2b : bytes -> Hash) (GetOutputType : Commitment -> Z).

(** What a receiver reads under a type. *)
Definition read_message (t : EMessageType) : reader IMessagePtr :=
  match t with
  | MessageTypes.Error => m ← ErrorMessage_Deserialize; mret (PError m)
  | MessageTypes.Hand => m ← HandMessage_Deserialize; mret (PHand m)
  | MessageTypes.Shake => m ← ShakeMessage_Deserialize; mret (PShake m)
  | MessageTypes.Ping => m ← PingMessage_Deserialize; mret (PPing m)
  | MessageTypes.Pong => m ← PongMessage_Deserialize; mret (PPong m)
  | MessageTypes.GetPeerAddrs => m ← GetPeerAddressesMessage_Deserialize; mret (PGetPeerAddrs m)
  | MessageTypes.PeerAddrs => m ← PeerAddressesMessage_Deserialize; mret (PPeerAddrs m)
  | MessageTypes.GetHeaders => m ← GetHeadersMessage_Deserialize; mret (PGetHeaders m)
  | MessageTypes.Header => m ← HeaderMessage_Deserialize Blake2b; mret (PHeader m)
  | MessageTypes.Headers => m ← HeadersMessage_Deserialize Blake2b; mret (PHeaders m)
  | MessageTypes.GetBlock => m ← GetBlockMessage_Deserialize; mret (PGetBlock m)
  | MessageTypes.Block => m ← BlockMessage_Deserialize Blake2b GetOutputType; mret (PBlock m)
  | MessageTypes.GetCompactBlock => m ← GetCompactBlockMessage_Deserialize; mret (PGetCompactBlock m)
  | MessageTypes.CompactBlockMsg => m ← CompactBlockMessage_Deserialize Blake2b; mret (PCompactBlock m)
  | MessageTypes.StemTransaction => m ← StemTransactionMessage_Deserialize Blake2b GetOutputType; mret (PStemTransaction m)
  | MessageTypes.TransactionMsg => m ← TransactionMessage_Deserialize Blake2b GetOutputType; mret (PTransaction m)
  | MessageTypes.TxHashSetRequest => m ← TxHashSetRequestMessage_Deserialize; mret (PTxHashSetRequest m)
  | MessageTypes.TxHashSetArchive => m ← TxHashSetArchiveMessage_Deserialize; mret (PTxHashSetArchive m)
  | MessageTypes.BanReasonMsg => m ← BanReasonMessage_Deserialize; mret (PBanReason m)
  | MessageTypes.GetTransactionMsg => m ← GetTransactionMessage_Deserialize; mret (PGetTransaction m)
  | MessageTypes.TransactionKernelMsg => m ← TransactionKernelMessage_Deserialize; mret (PTransactionKernel m)
  | MessageTypes.GetOutputBitmapSegment => m ← SegmentRequestMessage_Deserialize BitmapKind; mret (PGetSegment BitmapKind m)
  | MessageTypes.OutputBitmapSegment => m ← OutputBitmapSegmentMessage_Deserialize; mret (POutputBitmapSegment m)
  | MessageTypes.GetOutputSegment => m ← SegmentRequestMessage_Deserialize OutputKind; mret (PGetSegment OutputKind m)
  | MessageTypes.OutputSegment => m ← OutputSegmentMessage_Deserialize; mret (POutputSegment m)
  | MessageTypes.GetRangeProofSegment => m ← SegmentRequestMessage_Deserialize RangeProofKind; mret (PGetSegment RangeProofKind m)
  | MessageTypes.RangeProofSegment => m ← RangeProofSegmentMessage_Deserialize; mret (PRangeProofSegment m)
  | MessageTypes.GetKernelSegment => m ← SegmentRequestMessage_Deserialize KernelKind; mret (PGetSegment KernelKind m)
  | MessageTypes.KernelSegment => m ← KernelSegmentMessage_Deserialize; mret (PKernelSegment m)
  | MessageTypes.GetHeaderSegment => m ← GetHeaderSegmentMessage_Deserialize; mret (PGetHeaderSegment m)
  | MessageTypes.HeaderSegment => m ← HeaderSegmentMessage_Deserialize Blake2b; mret (PHeaderSegment m)
  | MessageTypes.Unnamed _ => reader_throw DeserializationException
  end.

(** What is read of a message that is written: the message, but of an error only
    the code, as its text is gone with the reader's variable. *)
Definition received (p : IMessagePtr) : IMessagePtr :=
  match p with PError m => PError (mkErrorMessage (em_errorCode m) Dangling) | _ => p end.

(** The well-formed messages of each type. *)
Definition wf_of {A} `{MessageLaws A wf rd} (v : EProtocolVersion) (m : A) : Prop := wf v m.

Definition message_wf (v : EProtocolVersion) (p : IMessagePtr) : Prop :=
  match p with
  | PError m => is_uint 32 (em_errorCode m) /\ exists text, em_message m = Bound text /\ length text < 2 ^ 63
  | PHand m => wf_of v m | PShake m => wf_of v m | PPing m => wf_of v m | PPong m => wf_of v m
  | PGetPeerAddrs m => wf_of v m | PPeerAddrs m => wf_of v m | PGetHeaders m => wf_of v m
  | PHeader m => BlockHeader_wf Blake2b (hm_header m)
  | PHeaders m => Forall (BlockHeader_wf Blake2b) (hsm_headers m) /\ is_uint 16 (length (hsm_headers m))
  | PGetBlock m => wf_of v m
  | PBlock m => FullBlock_wf Blake2b GetOutputType v (bm_block m)
  | PGetCompactBlock m => wf_of v m
  | PCompactBlock m => CompactBlock_wf Blake2b v (cbm_block m)
  | PStemTransaction m => Transaction_wf Blake2b GetOutputType v (stm_transaction m)
  | PTransaction m => Transaction_wf Blake2b GetOutputType v (tm_transaction m)
  | PTxHashSetRequest m => wf_of v m | PTxHashSetArchive m => wf_of v m | PBanReason m => wf_of v m
  | PGetTransaction m => wf_of v m | PTransactionKernel m => wf_of v m
  | PGetSegment kind m => wf_of v m
  | POutputBitmapSegment m => wf_of v m | POutputSegment m => wf_of v m
  | PRangeProofSegment m => wf_of v m | PKernelSegment m => wf_of v m
  | PGetHeaderSegment m => wf_of v m
  | PHeaderSegment m => SegmentIdentifier_wf v (hsg_identifier m) /\ Forall (BlockHeader_wf Blake2b) (hsg_headers m) /\ is_uint 16 (length (hsg_headers m))
  end.

Hypothesis Blake2b_length : forall x, length (Blake2b x) = 32%nat.
Hypothesis Blake2b_byte : forall x, Forall is_byte (Blake2b x).

Lemma ptr_reads {A} `{MessageLaws A wf rd} v (m : A) (p : IMessagePtr) (k : A -> IMessagePtr) : wf v m ->
  SerializeBody p (Serializer_new v) = SerializeBody m (Serializer_new v) -> p = k m ->
  SerializeBody p (Serializer_new v) = Ok (mkSerializer v (body_of v p)) /\ reads v (m ← rd; mret (k m)) (body_of v p) p.
Proof.
  intros Hwf E ->. destruct (message_reads v m Hwf) as [Em Hr]. unfold body_of in *. rewrite E, Em in *. split; [done|]. by apply (reads_map _ rd).
Qed.

Definition error_body (errorCode : Z) (text : bytes) : bytes := be_bytes 4 errorCode ++ be_bytes 8 (length text) ++ text.

Lemma error_SerializeBody v errorCode text :
  SerializeBody (mkErrorMessage errorCode (Bound text)) (Serializer_new v) = Ok (mkSerializer v (error_body errorCode text)).
Proof. cbn [SerializeBody ErrorMessage_IMessage em_message em_errorCode]. unfold AppendVarStr. serialize_bytes. unfold error_body. by rewrite <- ?app_assoc. Qed.

Lemma error_ptr_reads v errorCode text : is_uint 32 errorCode -> length text < 2 ^ 63 ->
  let p := PError (mkErrorMessage errorCode (Bound text)) in
  SerializeBody p (Serializer_new v) = Ok (mkSerializer v (body_of v p)) /\
  reads v (read_message MessageTypes.Error) (body_of v p) (PError (mkErrorMessage errorCode Dangling)).
Proof.
  intros He Ht p. assert (body_of v p = error_body errorCode text) as Eb by (unfold body_of, p; cbn [SerializeBody IMessagePtr_IMessage with_message]; by rewrite error_SerializeBody).
  rewrite Eb. split; [apply error_SerializeBody|]. cbn [read_message]. unfold ErrorMessage_Deserialize, error_body.
  apply (reads_map v _ _ _ PError). read_be 4%nat. rewrite <- (app_nil_r (be_bytes 8 _ ++ text)). eapply reads_bind; [apply reads_VarStr; lia|]. apply reads_ret.
Qed.

Lemma message_ptr_reads v (p : IMessagePtr) : message_wf v p ->
  SerializeBody p (Serializer_new v) = Ok (mkSerializer v (body_of v p)) /\ reads v (read_message (GetMessageType p)) (body_of v p) (received p).
Proof.
  intros Hwf. destruct p as [[errorCode message]| | | | | | | | | | | | | | | | | | | | | | | | | | |]; cbn [message_wf received] in *.
  { destruct Hwf as (He & text & [= ->] & Ht). by apply error_ptr_reads. }
  all: try match goal with |- context [PGetSegment ?k _] => destruct k end.
  all: try (by eapply ptr_reads; [exact Hwf|reflexivity|reflexivity]).
  - pose proof (BlockMessage_laws Blake2b GetOutputType Blake2b_length Blake2b_byte). by eapply ptr_reads; [exact Hwf|reflexivity|reflexivity].
  - pose proof (StemTransactionMessage_laws Blake2b GetOutputType Blake2b_length Blake2b_byte). by eapply ptr_reads; [exact Hwf|reflexivity|reflexivity].
  - pose proof (TransactionMessage_laws Blake2b GetOutputType Blake2b_length Blake2b_byte). by eapply ptr_reads; [exact Hwf|reflexivity|reflexivity].
Qed.
End any.

(** ** The frame *)
Section frame.
Context (env : Environment).

Definition named_type (t : EMessageType) : Prop := match t with MessageTypes.Unnamed _ => False | _ => True end.

Lemma of_to_u8 t : named_type t -> MessageTypes.of_u8 (MessageTypes.to_u8 t) = t /\ is_uint 8 (MessageTypes.to_u8 t).
Proof. by destruct t. Qed.

Definition frame_bytes (t : EMessageType) (n : Z) : bytes := GetMagicBytes env ++ be_bytes 1 (MessageTypes.to_u8 t) ++ be_bytes 8 n.

Lemma frame_length t n : length (frame_bytes t n) = HEADER_LENGTH :> Z.
Proof. unfold frame_bytes. rewrite !length_app, !length_be_bytes. by destruct env. Qed.

Lemma MessageHeader_Serialize_bytes h s :
  MessageHeader_Serialize env h s = mkSerializer (s_version s) (s_bytes s ++ frame_bytes (mh_type h) (mh_length h)).
Proof.
  unfold MessageHeader_Serialize. serialize_bytes. unfold frame_bytes, magic_byte.
  by destruct env.
Qed.

Lemma GetMaximumSize_range t : 0 <= GetMaximumSize t * 4 < 2 ^ 64.
Proof. destruct t; by vm_compute. Qed.

Lemma reads_frame v t n : named_type t -> is_uint 64 n -> n <= GetMaximumSize t * 4 ->
  reads v (MessageHeader_Deserialize env) (frame_bytes t n) (mkMessageHeader (GetMagicBytes env) t n).
Proof.
  intros Ht Hn Hmax. destruct (of_to_u8 t Ht) as [Et Hu]. unfold MessageHeader_Deserialize, frame_bytes.
  assert (exists a b, GetMagicBytes env = [a; b] /\ is_uint 8 a /\ is_uint 8 b /\ magic_byte env 0 = a /\ magic_byte env 1 = b) as (a & b & E & Ha & Hb & Ea & Eb)
    by (unfold magic_byte; destruct env; eexists _, _; done).
  rewrite E, Ea, Eb. assert ([a; b] = be_bytes 1 a ++ be_bytes 1 b) as Eab by (unfold be_bytes; cbn [le_bytes rev app]; rewrite !Z.mod_small by (unfold is_uint in *; lia); done).
  rewrite Eab at 1. rewrite <- app_assoc. do 2 read_be 1%nat. rewrite !Z.eqb_refl. cbn [negb orb]. read_be 1%nat.
  rewrite <- (app_nil_r (be_bytes 8 n)). read_be 8%nat. rewrite Et. rewrite uint_small by apply GetMaximumSize_range.
  destruct (Z.gtb_spec n (GetMaximumSize t * 4)); [lia|]. apply reads_ret.
Qed.

Lemma reads_then {A B} v (r : reader A) (k : A -> reader B) pre e1 post a : reads v r e1 a -> length (pre ++ e1 ++ post) < 2 ^ 64 ->
  (r ≫= k) (mkByteBuffer (length pre) (pre ++ e1 ++ post) v) = k a (mkByteBuffer (length (pre ++ e1)) ((pre ++ e1) ++ post) v).
Proof. intros Hr Hl. unfold mbind, reader_bind. rewrite (Hr pre post) by done. by rewrite <- app_assoc, (length_app pre e1), Nat2Z.inj_add. Qed.

Ltac next_be v n t := rewrite (reads_then v (ReadBigEndian_on false n) _ _ (be_bytes n t) _ t); [|apply reads_be; uint_bytes n|rewrite !length_app, !length_be_bytes; cbn [length]; lia].

(** A body of more than four times the maximum of its type is refused. *)
Lemma frame_refused v t n : named_type t -> is_uint 64 n -> GetMaximumSize t * 4 < n ->
  MessageHeader_Deserialize env (ByteBuffer_new (frame_bytes t n) v) = Throw DeserializationException.
Proof.
  intros Ht Hn Hmax. destruct (of_to_u8 t Ht) as [Et Hu]. unfold MessageHeader_Deserialize, frame_bytes, magic_byte.
  assert (exists a b, GetMagicBytes env = [a; b] /\ is_uint 8 a /\ is_uint 8 b) as (a & b & E & Ha & Hb) by (destruct env; eexists _, _; done).
  rewrite E. cbn [nth]. assert ([a; b] = be_bytes 1 a ++ be_bytes 1 b) as Eab by (unfold be_bytes; cbn [le_bytes rev app]; rewrite !Z.mod_small by (unfold is_uint in *; lia); done).
  rewrite Eab at 1. rewrite <- app_assoc. rewrite <- (app_nil_r (be_bytes 8 n)). change (ByteBuffer_new ?l v) with (mkByteBuffer (length (@nil Z)) ([] ++ l) v).
  next_be v 1%nat a. next_be v 1%nat b. rewrite !Z.eqb_refl. cbn [negb orb]. next_be v 1%nat (MessageTypes.to_u8 t). next_be v 8%nat n.
  rewrite Et, uint_small by apply GetMaximumSize_range. destruct (Z.gtb_spec n (GetMaximumSize t * 4)); [done|lia].
Qed.
End frame.

(** ** Sizes *)
Section sizes.
Context (Blake2b : bytes -> Hash) (GetOutputType : Commitment -> Z).
Hypothesis Blake2b_length : forall x, length (Blake2b x) = 32%nat.

(** A header's proof of work has at most 63 bits per nonce. *)
Lemma header_bytes_length h : BlockHeader_wf Blake2b h -> length (header_bytes h) <= 4 * 365.
Proof.
  intros [_ _ _ Hh _ Hp]. destruct (cycle_bytes_length Blake2b _ Hp) as (_ & _ & Hc). repeat (apply Forall_cons in Hh as [? Hh]).
  unfold header_bytes, pre_pow_bytes. rewrite !length_app, !length_be_bytes. lia.
Qed.

Lemma headers_bytes_length headers : Forall (BlockHeader_wf Blake2b) headers -> length (concat (map header_bytes headers)) <= 4 * 365 * length headers.
Proof. intros H. apply concat_length_le. eapply Forall_impl; [apply H|]. apply header_bytes_length. Qed.

(** The weights of the consensus rules bound the size of a body. *)
Definition body_weight (body : TransactionBody) : Z :=
  length (tb_inputs body) * INPUT_WEIGHT + length (tb_outputs body) * OUTPUT_WEIGHT + length (tb_kernels body) * KERNEL_WEIGHT.

Lemma body_bytes_length v body : TransactionBody_wf Blake2b GetOutputType v body -> length (body_bytes v body) <= 24 + 38 * body_weight body.
Proof.
  intros [Hi Ho Hk _ _ _ _]. unfold body_bytes, body_weight. rewrite !length_app, !length_be_bytes.
  assert (length (concat (map (input_bytes v) (tb_inputs body))) <= 34 * length (tb_inputs body)) as H1.
  { apply concat_length_le. eapply Forall_impl; [apply Hi|]. cbn beta. intros i (_ & Hc & _). unfold input_bytes. rewrite length_app, Hc.
    destruct (at_least_V3 v); cbn [length]; rewrite ?length_be_bytes; lia. }
  assert (length (concat (map (Serialized v) (tb_outputs body))) <= 717 * length (tb_outputs body)) as H2.
  { apply concat_length_le. eapply Forall_impl; [apply Ho|]. cbn beta. intros o (_ & Hc & Hp). unfold Serialized. cbn [Serialize TransactionOutput_Serializable].
    unfold Commitment_Serialize, RangeProof_Serialize. serialize_bytes. rewrite !length_app, !length_be_bytes, Hc, Hp. lia. }
  assert (length (concat (map (Serialized v) (tb_kernels body))) <= 114 * length (tb_kernels body)) as H3.
  { apply concat_length_le. eapply Forall_impl; [apply Hk|]. cbn beta. intros k Hwf. unfold Serialized. rewrite TransactionKernel_Serialize_bytes.
    cbn [s_bytes s_version Serializer_new app]. pose proof (kernel_bytes_wf v k Hwf). lia. }
  unfold INPUT_WEIGHT, OUTPUT_WEIGHT, KERNEL_WEIGHT. lia.
Qed.

(** The messages the code sends: lists within the limits of the protocol,
    bodies within the weight of a block, user agents of a few hundred bytes. *)
Definition within_limits (p : IMessagePtr) : Prop :=
  match p with
  | PError _ => False
  | PHand m => length (hand_userAgent m) <= 400
  | PShake m => length (shake_userAgent m) <= 290
  | PPeerAddrs m => length (pa_peerAddresses m) <= MAX_PEER_ADDRS
  | PGetHeaders m => length (gh_hashes m) <= MAX_LOCATORS
  | PHeaders m => length (hsm_headers m) <= MAX_BLOCK_HEADERS
  | PHeaderSegment m => length (hsg_headers m) <= MAX_BLOCK_HEADERS
  | PBlock m => body_weight (fb_body (bm_block m)) <= MAX_BLOCK_WEIGHT
  | PStemTransaction m => body_weight (tx_body (stm_transaction m)) <= MAX_BLOCK_WEIGHT
  | PTransaction m => body_weight (tx_body (tm_transaction m)) <= MAX_BLOCK_WEIGHT
  | PCompactBlock _ | POutputBitmapSegment _ | POutputSegment _ | PRangeProofSegment _ | PKernelSegment _ => False
  | _ => True
  end.

Ltac body_length :=
  unfold body_of; cbn [SerializeBody IMessagePtr_IMessage with_message]; unfold_body; rewrite ?serialize_appends; unfold AppendVarStr; serialize_bytes;
  rewrite ?length_app, ?length_be_bytes, ?Capabilities_length, ?SegmentIdentifier_length.

Ltac max_size := match goal with |- _ <= GetMaximumSize ?t * 4 => let n := eval vm_compute in (GetMaximumSize t) in change (GetMaximumSize t) with n end.

Ltac transaction_length Hb Hl Hlim :=
  unfold body_of; cbn [SerializeBody IMessagePtr_IMessage with_message]; unfold_body; unfold Transaction_Serialize; rewrite TransactionBody_Serialize_bytes; serialize_bytes;
  rewrite length_app, Hl; pose proof (body_bytes_length _ _ Hb); unfold MAX_BLOCK_WEIGHT in Hlim; lia.
Ltac body_of_list E := unfold body_of; cbn [SerializeBody IMessagePtr_IMessage with_message]; unfold_body; rewrite E by (done || (intros; apply serialize_appends)); serialize_bytes.

Lemma list_body_length {A} (enc : A -> bytes) (n : Z) (k : nat) t l : Forall (fun a => length (enc a) <= n) l -> 
  length (be_bytes k t ++ concat (map enc l)) <= k + n * length l.
Proof. intros H. rewrite length_app, length_be_bytes. pose proof (concat_length_le enc n l H). lia. Qed.

Lemma within_limits_fit v p : message_wf Blake2b GetOutputType v p -> within_limits p -> length (body_of v p) <= GetMaximumSize (GetMessageType p) * 4.
Proof.
  intros Hwf Hlim.
  destruct p as [m|m|m|m|m|m|m|m|m|m|m|m|m|m|m|m|m|m|m|m|m|kind m|m|m|m|m|m|m]; cbn [message_wf within_limits] in Hwf, Hlim; unfold wf_of in Hwf; try done; max_size.
  - destruct Hwf as (_ & _ & _ & Hh & _ & Hs & Hr & _). body_length.
    pose proof (SocketAddress_length v _ Hs). pose proof (SocketAddress_length v _ Hr). lia.
  - destruct Hwf as (_ & _ & Hh & _). body_length. lia.
  - destruct Hwf as [Ha _]. body_of_list (append_all_version (@Serialize SocketAddress _) Serialized).
    etrans; [apply (list_body_length (Serialized v) 19); eapply Forall_impl; [apply Ha|]; apply SocketAddress_length|].
    unfold MAX_PEER_ADDRS in Hlim. lia.
  - destruct Hwf as [Hh _]. body_of_list (append_all_bytes AppendBigInteger (fun x => x)).
    etrans; [apply (list_body_length (fun x : Hash => x) 32); eapply Forall_impl; [apply Hh|]; cbn; lia|].
    unfold MAX_LOCATORS in Hlim. lia.
  - unfold body_of. cbn [SerializeBody IMessagePtr_IMessage with_message]. unfold_body. rewrite (BlockHeader_Serialize_bytes Blake2b) by done.
    cbn [s_bytes Serializer_new app]. by apply header_bytes_length.
  - destruct Hwf as [Hh _]. unfold body_of. cbn [SerializeBody IMessagePtr_IMessage with_message]. unfold_body. rewrite (append_headers_bytes Blake2b) by done.
    serialize_bytes. etrans; [apply (list_body_length header_bytes (4 * 365)); eapply Forall_impl; [apply Hh|]; apply header_bytes_length|].
    unfold MAX_BLOCK_HEADERS in Hlim. lia.
  - unfold wf_of in Hwf. body_length. cbn in Hwf. lia.
  - destruct Hwf as [Hh Hb]. unfold body_of. cbn [SerializeBody IMessagePtr_IMessage with_message]. unfold_body. unfold FullBlock_Serialize.
    rewrite (BlockHeader_Serialize_bytes Blake2b) by done. cbn [mbind result_bind mret result_ret]. rewrite TransactionBody_Serialize_bytes.
    cbn [s_bytes s_version Serializer_new app]. rewrite length_app. pose proof (header_bytes_length _ Hh). pose proof (body_bytes_length v _ Hb).
    unfold MAX_BLOCK_WEIGHT in Hlim. lia.
  - body_length. cbn in Hwf. lia.
  - destruct Hwf as [Hl Hb]. transaction_length Hb Hl Hlim.
  - destruct Hwf as [Hl Hb]. transaction_length Hb Hl Hlim.
  - destruct Hwf as [Hh _]. body_length. lia.
  - destruct Hwf as [Hh _]. body_length. lia.
  - body_length. cbn in Hwf. lia.
  - body_length. cbn in Hwf. lia.
  - destruct Hwf as [Hh _]. body_length. rewrite Hh. by destruct kind.
  - destruct Hwf as (_ & Hh & _). unfold body_of. cbn [SerializeBody IMessagePtr_IMessage with_message]. unfold_body. rewrite (append_headers_bytes Blake2b) by done.
    rewrite serialize_appends. serialize_bytes. rewrite length_app, SegmentIdentifier_length.
    pose proof (list_body_length header_bytes (4 * 365) 2 (uint 16 (length (hsg_headers m))) (hsg_headers m)) as Hl.
    assert (Forall (fun h => length (header_bytes h) <= 4 * 365) (hsg_headers m)) as Hf by (eapply Forall_impl; [apply Hh|]; apply header_bytes_length).
    specialize (Hl Hf). unfold MAX_BLOCK_HEADERS in Hlim. lia.
Qed.
End sizes.

Section roundtrip.
Context (Blake2b : bytes -> Hash) (GetOutputType : Commitment -> Z).
Hypothesis Blake2b_length : forall x, length (Blake2b x) = 32%nat.
Hypothesis Blake2b_byte : forall x, Forall is_byte (Blake2b x).

Lemma Message_Serialize_bytes env v p : message_wf Blake2b GetOutputType v p ->
  Message_Serialize env v p = Ok (frame_bytes env (GetMessageType p) (length (body_of v p)) ++ body_of v p).
Proof.
  intros Hwf. destruct (message_ptr_reads Blake2b GetOutputType Blake2b_length Blake2b_byte v p Hwf) as [E _].
  unfold Message_Serialize. rewrite E. cbn [mbind result_bind s_bytes]. serialize_bytes. unfold frame_bytes. by rewrite <- !app_assoc.
Qed.

Lemma message_named v p : message_wf Blake2b GetOutputType v p -> named_type (GetMessageType p).
Proof. destruct p; try done. by destruct kind. Qed.

Lemma error_body_nonempty v p : message_wf Blake2b GetOutputType v p -> GetMessageType p = MessageTypes.Error ->
  GetMaximumSize MessageTypes.Error * 4 < length (body_of v p).
Proof.
  destruct p as [[errorCode message]| | | | | | | | | | | | | | | | | | | | |[]| | | | | |]; try done.
  intros (He & text & [= ->] & Ht) _. cbn [em_errorCode] in He. unfold body_of. cbn [SerializeBody IMessagePtr_IMessage with_message].
  rewrite error_SerializeBody. cbn [s_bytes]. unfold error_body. rewrite !length_app, !length_be_bytes. change (GetMaximumSize MessageTypes.Error * 4) with 0. lia.
Qed.

(** The frame of another network. *)
Lemma frame_foreign env env' v t n : GetMagicBytes env' <> GetMagicBytes env ->
  MessageHeader_Deserialize env' (ByteBuffer_new (frame_bytes env t n) v) = Throw DeserializationException.
Proof. intros Hne. by destruct env, env'. Qed.

(** C16: what [Serialize] makes of a message is its frame and its body.  The
    receiver reads the frame's type and length, unless the body is longer than
    four times the maximum of the type, which no message within the limits of
    the protocol is, and every error message; a node of another network refuses
    it.  Under the type the receiver reads back the message in every protocol
    version, whatever it is but an error, of which only the code is left. *)
Theorem Message_roundtrip env v p :
  message_wf Blake2b GetOutputType v p -> length (body_of v p) < 2 ^ 64 ->
  exists header body, Message_Serialize env v p = Ok (header ++ body) /\ length header = HEADER_LENGTH :> Z /\
    MessageHeader_Deserialize env (ByteBuffer_new header V1) =
      (if length body <=? GetMaximumSize (GetMessageType p) * 4
       then Ok (mkMessageHeader (GetMagicBytes env) (GetMessageType p) (length body), mkByteBuffer HEADER_LENGTH header V1)
       else Throw DeserializationException) /\
    (within_limits p -> length body <= GetMaximumSize (GetMessageType p) * 4) /\
    (GetMessageType p = MessageTypes.Error -> MessageHeader_Deserialize env (ByteBuffer_new header V1) = Throw DeserializationException) /\
    (forall env', GetMagicBytes env' <> GetMagicBytes env -> MessageHeader_Deserialize env' (ByteBuffer_new header V1) = Throw DeserializationException) /\
    read_message Blake2b GetOutputType (GetMessageType p) (ByteBuffer_new body v) =
      Ok (match p with PError m => PError (mkErrorMessage (em_errorCode m) Dangling) | _ => p end, mkByteBuffer (length body) body v).
Proof.
  intros Hwf Hl. pose proof (message_named v p Hwf) as Hn. exists (frame_bytes env (GetMessageType p) (length (body_of v p))), (body_of v p).
  assert (MessageHeader_Deserialize env (ByteBuffer_new (frame_bytes env (GetMessageType p) (length (body_of v p))) V1) =
      (if length (body_of v p) <=? GetMaximumSize (GetMessageType p) * 4
       then Ok (mkMessageHeader (GetMagicBytes env) (GetMessageType p) (length (body_of v p)), mkByteBuffer HEADER_LENGTH (frame_bytes env (GetMessageType p) (length (body_of v p))) V1)
       else Throw DeserializationException)) as Ef.
  { destruct (Z.leb_spec (length (body_of v p)) (GetMaximumSize (GetMessageType p) * 4)) as [Hle|Hgt].
    - rewrite <- (frame_length env (GetMessageType p) (length (body_of v p))). apply reads_whole; [apply reads_frame; [done|unfold is_uint; lia|done]|]. rewrite frame_length. done.
    - apply frame_refused; [done|unfold is_uint; lia|done]. }
  split; [by apply Message_Serialize_bytes|]. split; [apply frame_length|]. split; [exact Ef|]. split; [by apply (within_limits_fit Blake2b GetOutputType)|].
  split; [|split; [intros; by apply frame_foreign|]].
  - intros Et. rewrite Ef, (proj2 (Z.leb_gt _ _)); [done|]. rewrite Et. by apply error_body_nonempty.
  - change (match p with PError m => _ | _ => p end) with (received p). apply reads_whole; [|done]. by apply message_ptr_reads.
Qed.
End roundtrip.

(** A message with two headers. *)
Lemma Message_roundtrip_witness :
  exists header body, Message_Serialize FLOONET V2 (PHeaders (mkHeadersMessage [example_header; example_header])) = Ok (header ++ body) /\
    read_message byte_hash (fun _ => 0) MessageTypes.Headers (ByteBuffer_new body V2) =
      Ok (PHeaders (mkHeadersMessage [example_header; example_header]), mkByteBuffer (length body) body V2).
Proof.
  destruct (Message_roundtrip byte_hash (fun _ => 0) byte_hash_length byte_hash_byte FLOONET V2 (PHeaders (mkHeadersMessage [example_header; example_header])))
    as (header & body & E & _ & _ & _ & _ & _ & R).
  - split; [repeat constructor; apply example_header_wf|by vm_compute].
  - vm_compute. reflexivity.
  - exists header, body. split; [exact E|exact R].
Defined.
