(* ===== verification/Pipes.v ===== *)
(** * Blocks and transactions that wait ([src/P2P/Pipeline])

    [BlockPipe] and [TransactionPipe] queue what peers send, without repetitions,
    and threads hand it to the block chain one at a time: here a turn of a thread
    is an operation.  The state is that of everything the peers of a node reach:
    the chain with the cache of headers, the queues, what is known of the
    connections, and the calls that were made on the way, in order.  Connections
    are numbers; logging, sleeping and all locks but that of a connection are
    left out. *)
From S2P Require Import Prelude BitUtil Serial BigInteger File Roaring MMRHash SegmentId Consensus Transaction Crypto Header Block BlockDB Validation Chain OrphanPool TxPool ChainState HeaderProcessor BlockProcessor BlockChain HeaderSync Message.

(** ** [ConcurrentQueue] *)
Section queue.
Context {T : Type}.
Implicit Types (q : list T).

Definition push_back_unique (same : T -> T -> bool) (item : T) q : bool * list T :=
  if existsb (fun queued => same queued item) q then (false, q) else (true, q ++ [item]).

(** The loop for the best item so far, with its index: the first of those that
    are allowed and that no other comes before. *)
Fixpoint find_best (allowed : T -> bool) (before : T -> T -> bool) (i : nat) (best : option (nat * T)) q : option (nat * T) :=
  match q with
  | [] => best
  | item :: q =>
      find_best allowed before (S i)
        (if negb (allowed item) then best
         else match best with
              | None => Some (i, item)
              | Some (_, b) => if before item b then Some (i, item) else best
              end) q
  end.

Definition pop_best_if (allowed : T -> bool) (before : T -> T -> bool) q : option (T * list T) :=
  match find_best allowed before 0 None q with
  | None => None
  | Some (i, item) => Some (item, delete i q)
  end.
End queue.

(** ** The state *)
Inductive ESyncStatus :=
| SYNCING_HEADERS | SYNCING_TXHASHSET | SYNCING_TXHASHSET_PIBD | PROCESSING_TXHASHSET | TXHASHSET_PIBD_LEAFSET_UPDATE
| TXHASHSET_SETUP | TXHASHSET_KERNEL_HISTORY_VALIDATION | TXHASHSET_NRD_KERNELS_VALIDATION | TXHASHSET_KERNEL_SUMS_VALIDATION
| TXHASHSET_RANGE_PROOFS_VALIDATION | TXHASHSET_KERNEL_SIGNATURES_VALIDATION | TXHASHSET_SAVE | TXHASHSET_DONE
| TXHASHSET_SYNC_FAILED | SYNCING_BLOCKS | WAITING_FOR_PEERS | NOT_SYNCING.
#[export] Instance ESyncStatus_eq_dec : EqDecision ESyncStatus.
Proof. solve_decision. Defined.

(** A connection with what is known of its peer: whether it was disconnected,
    whether its socket is open, and whether the thread at work holds its mutex. *)
Record Connection := mkConnection {
  cn_totalDifficulty : Z;
  cn_height : Z;
  cn_capabilities : Capabilities;
  cn_version : Z;
  cn_disconnected : bool;
  cn_open : bool;
  cn_locked : bool;
}.
Definition cn_set_totals (totalDifficulty height : Z) (c : Connection) : Connection :=
  mkConnection totalDifficulty height (cn_capabilities c) (cn_version c) (cn_disconnected c) (cn_open c) (cn_locked c).
Definition cn_set_closed (disconnected : bool) (c : Connection) : Connection :=
  mkConnection (cn_totalDifficulty c) (cn_height c) (cn_capabilities c) (cn_version c) disconnected false (cn_locked c).
Definition cn_set_locked (locked : bool) (c : Connection) : Connection :=
  mkConnection (cn_totalDifficulty c) (cn_height c) (cn_capabilities c) (cn_version c) (cn_disconnected c) (cn_open c) locked.

(** What is asked of other parts: messages, the pipe of hash sets, the peer
    manager, and peers that are banned while their connection goes on. *)
Inductive Call :=
| SendAsync (connection : Z) (message : IMessagePtr)
| BroadcastMessage (message : IMessagePtr) (sourceId : Z)
| SendTxHashSet (connection : Z) (blockHash : Hash)
| ReceiveTxHashSet (connection : Z) (message : TxHashSetArchiveMessage)
| SendSegment (connection : Z) (kind : SegmentKind) (blockHash : Hash) (identifier : SegmentIdentifier)
| ReceiveSegment (connection : Z) (message : IMessagePtr)
| AddFreshPeers (addresses : list SocketAddress)
| Ban (peer : Z).

Record BlockEntry := mkBlockEntry { ben_peer : Z; ben_block : FullBlock }.
Record TxEntry := mkTxEntry { ten_connection : Z; ten_transaction : TransactionPtr; ten_poolType : EPoolType }.

Record P2PState {S : Type} := mkP2PState {
  p2p_sync : HeaderSyncState S;
  p2p_blocks : list BlockEntry;
  p2p_transactions : list TxEntry;
  p2p_peers : gmap Z Connection;
  p2p_calls : list Call;
}.
Arguments P2PState : clear implicits.
Arguments mkP2PState {S}.

Section state.
Context {S : Type}.
Implicit Types (x : P2PState S).

Definition p2p_chain x : S := hs_chain (p2p_sync x).
Definition set_sync (y : HeaderSyncState S) x : P2PState S := mkP2PState y (p2p_blocks x) (p2p_transactions x) (p2p_peers x) (p2p_calls x).
Definition set_chain (s : S) x : P2PState S := set_sync (mkHeaderSyncState (m_batches (p2p_sync x)) s (hs_banned (p2p_sync x))) x.
Definition set_blocks (q : list BlockEntry) x : P2PState S := mkP2PState (p2p_sync x) q (p2p_transactions x) (p2p_peers x) (p2p_calls x).
Definition set_transactions (q : list TxEntry) x : P2PState S := mkP2PState (p2p_sync x) (p2p_blocks x) q (p2p_peers x) (p2p_calls x).
Definition set_peers (m : gmap Z Connection) x : P2PState S := mkP2PState (p2p_sync x) (p2p_blocks x) (p2p_transactions x) m (p2p_calls x).
Definition add_call (c : Call) x : P2PState S := mkP2PState (p2p_sync x) (p2p_blocks x) (p2p_transactions x) (p2p_peers x) (p2p_calls x ++ [c]).


(** A connection that is not known is closed. *)
Definition connection_of (peer : Z) x : Connection := default (mkConnection 0 0 (mkCapabilities 0) 0 true false false) (p2p_peers x !! peer).
Definition on_connection (peer : Z) (f : Connection -> Connection) : ST (P2PState S) unit :=
  st_modify (fun x => set_peers (<[peer := f (connection_of peer x)]> (p2p_peers x)) x).

Definition in_chain_state {A} (m : ST S A) : ST (P2PState S) A := st_zoom p2p_chain set_chain m.
Definition in_header_cache {A} (m : ST (HeaderSyncState S) A) : ST (P2PState S) A := st_zoom p2p_sync set_sync m.
Definition call (c : Call) : ST (P2PState S) unit := st_modify (add_call c).

(** ** [Connection] *)
Definition UpdateTotals (peer totalDifficulty height : Z) : ST (P2PState S) unit := on_connection peer (cn_set_totals totalDifficulty height).
Definition BanPeer (peer : Z) : ST (P2PState S) unit := in_header_cache (ban (Some peer)).
Definition CloseSocket (peer : Z) : ST (P2PState S) unit := on_connection peer (fun c => cn_set_closed (cn_disconnected c) c).

(** [m_terminate] is set when a connection is disconnected and when its peer is
    banned. *)
Definition m_terminate (peer : Z) x : bool := cn_disconnected (connection_of peer x) || bool_decide (peer ∈ hs_banned (p2p_sync x)).

(** Locking a mutex that the thread holds already is undefined. *)
Definition Connection_lock (peer : Z) : ST (P2PState S) unit :=
  x ← st_get;
  if cn_locked (connection_of peer x) then st_throw UB else on_connection peer (cn_set_locked true).
Definition Connection_unlock (peer : Z) : ST (P2PState S) unit := on_connection peer (cn_set_locked false).

Definition Connection_Disconnect (peer : Z) : ST (P2PState S) unit :=
  _ ← Connection_lock peer;
  x ← st_get;
  _ ← (if m_terminate peer x then mret tt else on_connection peer (cn_set_closed true));
  Connection_unlock peer.
End state.

Section pipes.
Context {F : Type} `{HF : HashFile F} {R : Type} `{HR : Roaring R} {B : Type} `{HB : IBlockDB B}.
Context {P : Type} {SP : Secp256k1 P} {C : Type} {HC : LRUCache Hash BlockHeader C} {L : Type} {HL : LRUCache Commitment Commitment L}.
Context (Blake2b : bytes -> Hash) (env : Environment) (pow_fuel : nat).
Local Abbreviation CS := (ChainState F R B C L).

(** ** [BlockPipe] *)
Definition AddBlockToProcess (pPeer : Z) (block : FullBlock) : ST (P2PState CS) bool :=
  x ← st_get;
  let s := p2p_chain x in
  if HasBlock (FullBlock_GetHeight block) (FullBlock_GetHash block) s || HasOrphan (FullBlock_GetHash block) s then mret false
  else
    let '(added, q) := push_back_unique (fun e1 e2 => BigInteger_eq (FullBlock_GetHash (ben_block e1)) (FullBlock_GetHash (ben_block e2)))
                         (mkBlockEntry pPeer block) (p2p_blocks x) in
    _ ← st_modify (set_blocks q);
    mret added.

Definition ProcessNewBlock (now : Z) (fuel : nat) (blockEntry : BlockEntry) : ST (P2PState CS) unit :=
  st_try
    (status ← in_chain_state (BlockChain_AddBlock Blake2b env pow_fuel now fuel (ben_block blockEntry));
     if bool_decide (status = INVALID) then call (Ban (ben_peer blockEntry)) else mret tt)
    (call (Ban (ben_peer blockEntry))).

(** A turn of the thread: the lowest block that may be the next one. *)
Definition Thread_ProcessNewBlocks (now : Z) (fuel : nat) : ST (P2PState CS) unit :=
  x ← st_get;
  let nextHeight := (GetHeight CONFIRMED (p2p_chain x) + 1)%u64 in
  match pop_best_if (fun e => FullBlock_GetHeight (ben_block e) <=? nextHeight)
          (fun lhs rhs => FullBlock_GetHeight (ben_block lhs) <? FullBlock_GetHeight (ben_block rhs)) (p2p_blocks x) with
  | None => mret tt
  | Some (blockEntry, q) => _ ← st_modify (set_blocks q); ProcessNewBlock now fuel blockEntry
  end.

Definition Thread_PostProcessBlocks (now : Z) (fuel : nat) : ST (P2PState CS) unit :=
  _ ← in_chain_state (ProcessNextOrphanBlock Blake2b env pow_fuel now fuel); mret tt.

(** ** [TransactionPipe] *)
Definition AddTransactionToProcess (connection : Z) (pTransaction : TransactionPtr) (poolType : EPoolType) : ST (P2PState CS) bool :=
  x ← st_get;
  let '(added, q) := push_back_unique
    (fun e1 e2 => BigInteger_eq (Transaction_GetHash Blake2b (tp_tx (ten_transaction e1))) (Transaction_GetHash Blake2b (tp_tx (ten_transaction e2))))
    (mkTxEntry connection pTransaction poolType) (p2p_transactions x) in
  _ ← st_modify (set_transactions q);
  mret added.

Fixpoint broadcast_kernels (kernels : list TransactionKernel) (sourceId : Z) : ST (P2PState CS) unit :=
  match kernels with
  | [] => mret tt
  | kernel :: kernels =>
      _ ← call (BroadcastMessage (PTransactionKernel (mkTransactionKernelMessage (TransactionKernel_GetHash Blake2b kernel))) sourceId);
      broadcast_kernels kernels sourceId
  end.

(** A turn of the thread: the entry leaves the queue when it has been handled,
    and an exception leaves it where it is. *)
Definition Thread_ProcessTransactions (now random stemProbability : Z) : ST (P2PState CS) unit :=
  st_try
    (x ← st_get;
     match p2p_transactions x with
     | [] => mret tt
     | pTxEntry :: _ =>
         status ← in_chain_state (BlockChain_AddTransaction Blake2b env now random stemProbability (ten_transaction pTxEntry) (ten_poolType pTxEntry));
         _ ← (if bool_decide (status = SUCCESS) && match ten_poolType pTxEntry with MEMPOOL => true | STEMPOOL => false end
              then broadcast_kernels (tb_kernels (tx_body (tp_tx (ten_transaction pTxEntry)))) (ten_connection pTxEntry)
              else if bool_decide (status = INVALID) then call (Ban (ten_connection pTxEntry))
              else mret tt);
         st_modify (fun x => set_transactions (tail (p2p_transactions x)) x)
     end)
    (mret tt).
End pipes.
