(* ===== verification/MessageProcessor.v ===== *)
(** * What a node does with messages ([src/P2P/MessageProcessor.cpp])

    The dispatch of a received body by its type, with every answer, and the
    exceptions it ends with; and the frame of a message as [Connection.cpp] reads
    it.  What is decided outside - random numbers, the status of the sync, the
    answer of the peer manager, addresses of new objects - comes with the
    message. *)
From S2P Require Import Prelude BitUtil Serial BigInteger File Roaring MMRHash SegmentId Segment BitmapSegment Consensus Transaction Crypto Header Block BlockDB Validation Chain OrphanPool TxPool ChainState HeaderProcessor BlockProcessor BlockChain HeaderSync Message Pipes.
Import MessageTypes (EMessageType, GetMaximumSize).

Record Inputs := mkInputs {
  in_now : Z;
  in_fuel : nat;
  in_status : ESyncStatus;
  in_nonce : Z;
  in_address : Z;
  in_peers : list SocketAddress;
  in_p2pPort : Z;
}.
Definition not_syncing (i : Inputs) : bool := bool_decide (in_status i = NOT_SYNCING).

(** The heights of the headers of a segment follow each other. *)
Fixpoint consecutive (height : Z) (headers : list BlockHeader) : bool :=
  match headers with
  | [] => true
  | header :: headers => (bh_height header =? height) && consecutive (bh_height header + 1)%u64 headers
  end.

Section processor.
Context {F : Type} `{HF : HashFile F} {R : Type} `{HR : Roaring R} {B : Type} `{HB : IBlockDB B}.
Context {P : Type} {SP : Secp256k1 P} {C : Type} {HC : LRUCache Hash BlockHeader C} {L : Type} {HL : LRUCache Commitment Commitment L}.
(** [GetOutputType] is that of the coin view. *)
Context (Blake2b : bytes -> Hash) (SipHash24 : Z -> Z -> bytes -> Z) (GetOutputType : Commitment -> Z) (env : Environment) (pow_fuel : nat).
Local Abbreviation CS := (ChainState F R B C L).
Local Abbreviation node_chain i := (ChainState_HeaderChain (F := F) (R := R) (B := B) (C := C) (L := L) Blake2b env pow_fuel (in_now i)).
Implicit Types (i : Inputs) (peer : Z) (byteBuffer : ByteBuffer).

(** [X::Deserialize(byteBuffer)]; what is left of the buffer is not looked at. *)
Definition deserialize {A} (r : reader A) byteBuffer : ST (P2PState CS) A :=
  st_lift (match r byteBuffer with Ok (a, _) => Ok a | Throw e => Throw e end).

(** ** One definition per kind of message that reaches the chain *)
Definition on_Ping peer byteBuffer : ST (P2PState CS) unit :=
  pingMessage ← deserialize PingMessage_Deserialize byteBuffer;
  _ ← UpdateTotals peer (ping_totalDifficulty pingMessage) (ping_height pingMessage);
  x ← st_get;
  tip ← st_lift (GetTipBlockHeader CONFIRMED (p2p_chain x));
  header ← st_lift (of_option UB tip);
  call (SendAsync peer (PPong (mkPongMessage (bh_totalDifficulty header) (bh_height header)))).

Definition on_GetPeerAddrs i peer byteBuffer : ST (P2PState CS) unit :=
  _ ← deserialize GetPeerAddressesMessage_Deserialize byteBuffer;
  call (SendAsync peer (PPeerAddrs (mkPeerAddressesMessage
    (map (fun a => mkSocketAddress (sa_ipAddress a) (if sa_port a >? 0 then sa_port a else in_p2pPort i)) (in_peers i))))).

Definition on_GetHeaders i peer byteBuffer : ST (P2PState CS) unit :=
  message ← deserialize GetHeadersMessage_Deserialize byteBuffer;
  x ← st_get;
  let blockHeaders := LocateHeaders (HC := node_chain i) (gh_hashes message) (p2p_chain x) in
  call (SendAsync peer (PHeaders (mkHeadersMessage blockHeaders))).

Definition on_Header i peer byteBuffer : ST (P2PState CS) unit :=
  message ← deserialize (HeaderMessage_Deserialize Blake2b) byteBuffer;
  let header := hm_header message in
  x ← st_get;
  _ ← (if bh_totalDifficulty header >? cn_totalDifficulty (connection_of peer x)
       then UpdateTotals peer (bh_totalDifficulty header) (bh_height header) else mret tt);
  if negb (not_syncing i) then mret tt
  else
    status ← in_chain_state (AddBlockHeader Blake2b env pow_fuel (in_now i) (in_fuel i) header);
    match status with
    | SUCCESS | ALREADY_EXISTS | ORPHANED =>
        x ← st_get;
        if negb (HasBlock (bh_height header) (BlockHeader_GetHash header) (p2p_chain x))
        then call (SendAsync peer (PGetCompactBlock (mkGetCompactBlockMessage (BlockHeader_GetHash header))))
        else mret tt
    | INVALID => BanPeer peer
    | _ => mret tt
    end.

Definition on_Headers i peer byteBuffer : ST (P2PState CS) unit :=
  message ← deserialize (HeadersMessage_Deserialize Blake2b) byteBuffer;
  in_header_cache (AddHeaders (HC := node_chain i) (Some peer) (hsm_headers message) LegacyHeaders).

Definition on_GetHeaderSegment i peer byteBuffer : ST (P2PState CS) unit :=
  message ← deserialize GetHeaderSegmentMessage_Deserialize byteBuffer;
  x ← st_get;
  if negb (HasCapability (cn_capabilities (connection_of peer x)) PIHD_HIST) then mret tt
  else
    let identifier := ghs_identifier message in
    if negb (seg_height identifier =? PIHD_HEADER_SEGMENT_HEIGHT) then mret tt
    else
      let startHeight := (GetLeafOffset identifier + 1)%u64 in
      let endHeight := Z.min (startHeight + GetSegmentCapacity identifier - 1)%u64 (GetHeight CANDIDATE (p2p_chain x)) in
      let blockHeaders :=
        if startHeight <=? endHeight
        then headers_from (HC := node_chain i) (Z.to_nat (endHeight - startHeight + 1)) startHeight (p2p_chain x) else [] in
      call (SendAsync peer (PHeaderSegment (mkHeaderSegmentMessage identifier blockHeaders))).

Definition on_HeaderSegment i peer byteBuffer : ST (P2PState CS) unit :=
  message ← deserialize (HeaderSegmentMessage_Deserialize Blake2b) byteBuffer;
  let identifier := hsg_identifier message in
  if negb (seg_height identifier =? PIHD_HEADER_SEGMENT_HEIGHT) then mret tt
  else
    if negb (consecutive (GetLeafOffset identifier + 1)%u64 (hsg_headers message)) then mret tt
    else in_header_cache (AddHeaders (HC := node_chain i) (Some peer) (hsg_headers message) PIHDSegment).

Definition on_GetBlock peer byteBuffer : ST (P2PState CS) unit :=
  message ← deserialize GetBlockMessage_Deserialize byteBuffer;
  x ← st_get;
  match GetBlockByHash (gb_hash message) (p2p_chain x) with
  | Some block => call (SendAsync peer (PBlock (mkBlockMessage block)))
  | None => mret tt
  end.

Definition on_Block i peer byteBuffer : ST (P2PState CS) unit :=
  message ← deserialize (BlockMessage_Deserialize Blake2b GetOutputType) byteBuffer;
  let block := bm_block message in
  if bool_decide (in_status i = SYNCING_BLOCKS) then _ ← AddBlockToProcess peer block; mret tt
  else
    added ← in_chain_state (BlockChain_AddBlock Blake2b env pow_fuel (in_now i) (in_fuel i) block);
    match added with
    | SUCCESS => call (BroadcastMessage (PHeader (mkHeaderMessage (fb_header block))) peer)
    | ORPHANED =>
        x ← st_get;
        totalDifficulty ← st_lift (GetTotalDifficulty CONFIRMED (p2p_chain x));
        if bh_totalDifficulty (fb_header block) >? totalDifficulty
        then call (SendAsync peer (PGetCompactBlock (mkGetCompactBlockMessage (FullBlock_GetPreviousHash block))))
        else mret tt
    | _ => mret tt
    end.

Definition on_GetCompactBlock i peer byteBuffer : ST (P2PState CS) unit :=
  message ← deserialize GetCompactBlockMessage_Deserialize byteBuffer;
  x ← st_get;
  compactBlock ← st_lift (GetCompactBlockByHash Blake2b SipHash24 (in_nonce i) (gcb_hash message) (p2p_chain x));
  match compactBlock with
  | Some block => call (SendAsync peer (PCompactBlock (mkCompactBlockMessage block)))
  | None => mret tt
  end.

Definition on_CompactBlock i peer byteBuffer : ST (P2PState CS) unit :=
  message ← deserialize (CompactBlockMessage_Deserialize Blake2b) byteBuffer;
  let compactBlock := cbm_block message in
  added ← in_chain_state (AddCompactBlock Blake2b SipHash24 env pow_fuel (in_now i) (in_fuel i) compactBlock);
  match added with
  | SUCCESS => call (BroadcastMessage (PHeader (mkHeaderMessage (cb_header compactBlock))) peer)
  | TRANSACTIONS_MISSING => call (SendAsync peer (PGetBlock (mkGetBlockMessage (CompactBlock_GetHash compactBlock))))
  | ORPHANED =>
      x ← st_get;
      if bh_height (cb_header compactBlock) <? (GetHeight CONFIRMED (p2p_chain x) + 100)%u64 then
        totalDifficulty ← st_lift (GetTotalDifficulty CONFIRMED (p2p_chain x));
        if bh_totalDifficulty (cb_header compactBlock) >? totalDifficulty
        then call (SendAsync peer (PGetCompactBlock (mkGetCompactBlockMessage (bh_previousBlockHash (cb_header compactBlock)))))
        else mret tt
      else mret tt
  | _ => mret tt
  end.

Definition on_transaction i peer (r : reader Transaction) (poolType : EPoolType) byteBuffer : ST (P2PState CS) unit :=
  if not_syncing i then
    transaction ← deserialize r byteBuffer;
    _ ← AddTransactionToProcess Blake2b peer (mkPtr (in_address i) transaction) poolType;
    mret tt
  else mret tt.

Definition on_GetTransaction peer byteBuffer : ST (P2PState CS) unit :=
  message ← deserialize GetTransactionMessage_Deserialize byteBuffer;
  x ← st_get;
  match FindTransactionByKernelHash Blake2b (gt_kernelHash message) (m_pTransactionPool (p2p_chain x)) with
  | Some transaction => call (SendAsync peer (PTransaction (mkTransactionMessage (tp_tx transaction))))
  | None => mret tt
  end.

Definition on_TransactionKernel i peer byteBuffer : ST (P2PState CS) unit :=
  if negb (not_syncing i) then mret tt
  else
    message ← deserialize TransactionKernelMessage_Deserialize byteBuffer;
    x ← st_get;
    match FindTransactionByKernelHash Blake2b (tkm_kernelHash message) (m_pTransactionPool (p2p_chain x)) with
    | None => call (SendAsync peer (PGetTransaction (mkGetTransactionMessage (tkm_kernelHash message))))
    | Some _ => mret tt
    end.

Definition on_GetSegment peer (kind : SegmentKind) byteBuffer : ST (P2PState CS) unit :=
  message ← deserialize (SegmentRequestMessage_Deserialize kind) byteBuffer;
  call (SendSegment peer kind (sr_blockHash message) (sr_identifier message)).

(** ** The dispatch *)
Definition ProcessMessageInternal i peer (messageType : EMessageType) (payload : bytes) : ST (P2PState CS) unit :=
  x ← st_get;
  let byteBuffer := ByteBuffer_new payload (ProtocolVersion_ToEnum (cn_version (connection_of peer x))) in
  match messageType with
  | MessageTypes.Error =>
      (* the text is logged *)
      errorMessage ← deserialize ErrorMessage_Deserialize byteBuffer;
      match em_message errorMessage with Bound _ => mret tt | Dangling => st_throw UB end
  | MessageTypes.BanReasonMsg => _ ← deserialize BanReasonMessage_Deserialize byteBuffer; mret tt
  | MessageTypes.Ping => on_Ping peer byteBuffer
  | MessageTypes.Pong =>
      pongMessage ← deserialize PongMessage_Deserialize byteBuffer;
      UpdateTotals peer (pong_totalDifficulty pongMessage) (pong_height pongMessage)
  | MessageTypes.GetPeerAddrs => on_GetPeerAddrs i peer byteBuffer
  | MessageTypes.PeerAddrs =>
      message ← deserialize PeerAddressesMessage_Deserialize byteBuffer;
      call (AddFreshPeers (pa_peerAddresses message))
  | MessageTypes.GetHeaders => on_GetHeaders i peer byteBuffer
  | MessageTypes.Header => on_Header i peer byteBuffer
  | MessageTypes.Headers => on_Headers i peer byteBuffer
  | MessageTypes.GetHeaderSegment => on_GetHeaderSegment i peer byteBuffer
  | MessageTypes.HeaderSegment => on_HeaderSegment i peer byteBuffer
  | MessageTypes.GetBlock => on_GetBlock peer byteBuffer
  | MessageTypes.Block => on_Block i peer byteBuffer
  | MessageTypes.GetCompactBlock => on_GetCompactBlock i peer byteBuffer
  | MessageTypes.CompactBlockMsg => on_CompactBlock i peer byteBuffer
  | MessageTypes.StemTransaction =>
      on_transaction i peer (m ← StemTransactionMessage_Deserialize Blake2b GetOutputType; mret (stm_transaction m)) STEMPOOL byteBuffer
  | MessageTypes.TransactionMsg =>
      on_transaction i peer (m ← TransactionMessage_Deserialize Blake2b GetOutputType; mret (tm_transaction m)) MEMPOOL byteBuffer
  | MessageTypes.TxHashSetRequest =>
      message ← deserialize TxHashSetRequestMessage_Deserialize byteBuffer;
      call (SendTxHashSet peer (thr_blockHash message))
  | MessageTypes.TxHashSetArchive =>
      message ← deserialize TxHashSetArchiveMessage_Deserialize byteBuffer;
      call (ReceiveTxHashSet peer message)
  | MessageTypes.GetTransactionMsg => on_GetTransaction peer byteBuffer
  | MessageTypes.TransactionKernelMsg => on_TransactionKernel i peer byteBuffer
  | MessageTypes.GetOutputBitmapSegment => on_GetSegment peer BitmapKind byteBuffer
  | MessageTypes.GetOutputSegment => on_GetSegment peer OutputKind byteBuffer
  | MessageTypes.GetRangeProofSegment => on_GetSegment peer RangeProofKind byteBuffer
  | MessageTypes.GetKernelSegment => on_GetSegment peer KernelKind byteBuffer
  | MessageTypes.OutputBitmapSegment =>
      message ← deserialize OutputBitmapSegmentMessage_Deserialize byteBuffer; call (ReceiveSegment peer (POutputBitmapSegment message))
  | MessageTypes.OutputSegment =>
      message ← deserialize OutputSegmentMessage_Deserialize byteBuffer; call (ReceiveSegment peer (POutputSegment message))
  | MessageTypes.RangeProofSegment =>
      message ← deserialize RangeProofSegmentMessage_Deserialize byteBuffer; call (ReceiveSegment peer (PRangeProofSegment message))
  | MessageTypes.KernelSegment =>
      message ← deserialize KernelSegmentMessage_Deserialize byteBuffer; call (ReceiveSegment peer (PKernelSegment message))
  | MessageTypes.Hand | MessageTypes.Shake | MessageTypes.Unnamed _ => mret tt
  end.

(** Bad data bans the peer, whatever reason it comes with; an exception of the
    chain is logged; any other ends the connection. *)
Definition ProcessMessage i peer (messageType : EMessageType) (payload : bytes) : ST (P2PState CS) unit := fun x =>
  match ProcessMessageInternal i peer messageType payload x with
  | (Throw BadDataException, x) => BanPeer peer x
  | (Throw BlockChainException, x) => (Ok tt, x)
  | (Throw e, x) => if is_std e then Connection_Disconnect peer x else (Throw e, x)
  | (Ok _, x) => (Ok tt, x)
  end.

(** ** [HandleReceivedHeader] and [HandleReceivedBody]

    A frame of eleven bytes, and the body it announces, which are read while the
    socket is open; what is wrong closes it.  The mutex of the connection is held
    in both, and given back however they end.  [received] is what arrived. *)
Definition unlocking {A} peer (m : ST (P2PState CS) A) : ST (P2PState CS) A := fun x =>
  match m x with
  | (Throw e, x') => if is_std e then (Throw e, (Connection_unlock peer x').2) else (Throw e, x')
  | (Ok a, x') => (Ok a, (Connection_unlock peer x').2)
  end.
Definition with_lock {A} peer (m : ST (P2PState CS) A) : ST (P2PState CS) A := _ ← Connection_lock peer; unlocking peer m.

Definition HandleReceivedHeader peer (received : bytes) : ST (P2PState CS) (option MessageHeader) :=
  with_lock peer
    (x ← st_get;
     let failed := _ ← CloseSocket peer; mret None in
     if cn_open (connection_of peer x) && (length received =? HEADER_LENGTH) then
       match MessageHeader_Deserialize env (ByteBuffer_new received V1) with
       | Ok (messageHeader, _) => mret (Some messageHeader)
       | Throw e => if is_std e then failed else st_throw e
       end
     else failed).

Definition HandleReceivedBody i peer (messageHeader : MessageHeader) (received : bytes) : ST (P2PState CS) unit :=
  with_lock peer
    (x ← st_get;
     if cn_open (connection_of peer x) && (length received =? mh_length messageHeader) then
       st_try (ProcessMessage i peer (mh_type messageHeader) received) (CloseSocket peer)
     else CloseSocket peer).

(** A whole message: the next one is waited for while the socket is open. *)
Definition ReceiveMessage i peer (header body : bytes) : ST (P2PState CS) unit :=
  messageHeader ← HandleReceivedHeader peer header;
  match messageHeader with
  | Some messageHeader => HandleReceivedBody i peer messageHeader body
  | None => mret tt
  end.
End processor.
