(* ===== verification/MessageProcessorSpec.v ===== *)
(** * What messages cannot break

    Whatever arrives on the connections of a node, in whatever order with the
    turns of its threads: the node stays as valid as [NodeSpec] says, the cache
    of headers and the queues stay what they are; and what a message that cannot
    be read, or a ban, does to a connection. *)
From S2P Require Import Prelude BitUtil MMRIndex MMRUtil Serial BigInteger File Roaring PruneList MMRHash SegmentId SegmentProof Segment BitmapSegment PruneableMMR Consensus Transaction Crypto Header Block BlockSpec BlockDB TxHashSet UtxoSpec TxHashSetSpec Validation ValidationSpec Chain OrphanPool HeaderMMR TxPool TxPoolSpec Difficulty Cuckoo ChainState HeaderProcessor BlockProcessor BlockChain ChainStateSpec HeaderSpec BlockHistory BlockProcessorSpec NodeSpec HeaderSync HeaderSyncSpec Message MessageSpec Pipes MessageProcessor.
Import MessageTypes (EMessageType, GetMaximumSize).

(** ** Queues *)
Section queue.
Context {T : Type} (same : T -> T -> bool).
Implicit Types (q : list T).

Definition all_different q : Prop := forall i j a b, (i < j)%nat -> q !! i = Some a -> q !! j = Some b -> same a b = false.

Lemma push_back_unique_ok item q : all_different q -> all_different (push_back_unique same item q).2.
Proof.
  intros Hq. unfold push_back_unique. destruct (existsb _ q) eqn:E; [done|]. cbn [snd]. intros i j a b Hij Ha Hb.
  apply lookup_app_Some in Hb as [Hb|[Hl Hb]].
  - rewrite lookup_app_l in Ha by (apply lookup_lt_Some in Hb; lia). by apply (Hq i j).
  - apply list_lookup_singleton_Some in Hb as [Hj <-]. rewrite lookup_app_l in Ha by lia.
    destruct (same a item) eqn:Es; [|done]. rewrite <- not_true_iff_false in E. destruct E. apply existsb_exists. exists a. split; [|done].
    apply list_elem_of_In. by apply list_elem_of_lookup_2 in Ha.
Qed.

Lemma delete_ok i q : all_different q -> all_different (delete i q).
Proof.
  intros Hq j k a b Hjk Ha Hb. rewrite list_lookup_delete in Ha, Hb.
  revert Ha Hb. repeat case_decide; intros Ha Hb; try (by apply (Hq j k a b)); try (by apply (Hq (S j) (S k) a b); [lia|..]); try (by apply (Hq j (S k) a b); [lia|..]); lia.
Qed.
Lemma find_best_Some (allowed : T -> bool) before q0 q (k : nat) best i item : find_best allowed before k best q = Some (i, item) ->
  (forall j b, best = Some (j, b) -> q0 !! j = Some b) -> (forall j b, q !! j = Some b -> q0 !! (k + j)%nat = Some b) -> q0 !! i = Some item.
Proof.
  revert k best. induction q as [|a q IH]; intros k best E Hb Hq; cbn [find_best] in E; [by apply Hb|].
  apply (IH _ _ E).
  - intros j b. destruct (allowed a); cbn [negb]; [|by apply Hb]. pose proof (Hq 0%nat a eq_refl) as Ha. rewrite Nat.add_0_r in Ha.
    destruct best as [[j' b']|]; [destruct (before a b')|]; (by intros [= <- <-]) || (by apply Hb).
  - intros j b Hj. replace (S k + j)%nat with (k + S j)%nat by lia. by apply Hq.
Qed.

Lemma pop_best_if_Some allowed before q item rest : pop_best_if allowed before q = Some (item, rest) -> exists i, q !! i = Some item /\ rest = delete i q.
Proof.
  unfold pop_best_if. destruct (find_best _ _ _ _ _) as [[i a]|] eqn:E; [|done]. intros [= <- <-]. exists i. split; [|done].
  by apply (find_best_Some _ _ q q _ _ _ _ E).
Qed.
End queue.

Section spec.
Context {F : Type} {HF : HashFile F} {HFL : HashFileLaws F} {R : Type} {HR : Roaring R} {HRL : RoaringLaws R}.
Context {B : Type} {HB : IBlockDB B} {db_wf : DBEntry -> Prop} {db_repr : DBTables -> DBTables -> B -> Prop} {HBL : IBlockDBLaws B db_wf db_repr}.
Context {P : Type} {SP : Secp256k1 P} {G : Type} {AG : AbelianGroup G} {SL : Secp256k1Laws P G}.
Context {C : Type} {HC : LRUCache Hash BlockHeader C} {HCL : LRUCacheLaws Hash BlockHeader C}.
Context {L : Type} {HL : LRUCache Commitment Commitment L} {HLL : LRUCacheLaws Commitment Commitment L}.
Context (Blake2b : bytes -> Hash) (SipHash24 : Z -> Z -> bytes -> Z) (GetOutputType : Commitment -> Z) (env : Environment) (pow_fuel : nat).
Local Abbreviation CS := (ChainState F R B C L).
Implicit Types (s : CS) (c : NState) (x : P2PState CS) (i : Inputs) (peer : Z).
Hypothesis Blake2b_length : forall y, length (Blake2b y) = 32%nat.
Hypothesis Blake2b_nonzero : forall y, Blake2b y <> ZERO_HASH.
Hypothesis db_location : forall l, location_ok l -> db_wf (ELocation l).
Hypothesis db_spent : forall l, length l < 2 ^ 16 ->
  Forall (fun o => length (so_commitment o) = 33%nat /\ location_ok (so_location o)) l -> db_wf (ESpent l).
Hypothesis db_sums : forall sums, is_commitment (bs_outputSum sums) -> is_commitment (bs_kernelSum sums) -> db_wf (ESums sums).
Context (g : BlockHeader) (x0 : TState * Positions) (known : BlockHeader -> Prop) (K : list FullBlock).
Hypothesis Hof : offered (db_wf := db_wf) known.
Hypothesis Hob : offered_blocks (db_wf := db_wf) x0 known K.
Hypothesis Hge : genesis_ok g x0 known.
Local Abbreviation node_ok := (node_ok (db_repr := db_repr) (G := G) Blake2b env pow_fuel g x0 known K).
Local Abbreviation keeps_node := (keeps_node (F := F) (R := R) (B := B) (C := C) (L := L) (db_repr := db_repr) (G := G) Blake2b env pow_fuel g x0 known K).
Local Abbreviation grows := (grows env).
Local Abbreviation good_headers := (good_headers known).
Local Abbreviation same_block := (fun e1 e2 => BigInteger_eq (FullBlock_GetHash (ben_block e1)) (FullBlock_GetHash (ben_block e2))).
Local Abbreviation same_transaction :=
  (fun e1 e2 => BigInteger_eq (Transaction_GetHash Blake2b (tp_tx (ten_transaction e1))) (Transaction_GetHash Blake2b (tp_tx (ten_transaction e2)))).

(** ** What is kept *)
Record p2p_ok c x : Prop := {
  po_node : node_ok c (p2p_chain x);
  po_cache : (length (m_batches (p2p_sync x)) <= 16)%nat;
  po_batches : Forall (fun b => good_headers (hb_headers b)) (m_batches (p2p_sync x));
  po_blocks : Forall (fun e => ben_block e ∈ K) (p2p_blocks x);
  po_blocks_once : all_different same_block (p2p_blocks x);
  po_transactions_once : all_different same_transaction (p2p_transactions x);
}.

(** From a state [c0] of the chains on. *)
Definition p2p_from c0 x : Prop := exists c, p2p_ok c x /\ grows c0 c.
Definition keeps {A} (m : ST (P2PState CS) A) : Prop := forall c0, st_keeps (p2p_from c0) m.

Lemma keeps_then {A A'} (m : ST (P2PState CS) A) (f : A -> ST (P2PState CS) A') : keeps m -> (forall a, keeps (f a)) -> keeps (m ≫= f).
Proof. intros Hm Hf c0. apply st_keeps_bind; [apply Hm|intros a; apply Hf]. Qed.
Lemma keeps_mret {A} (a : A) : keeps (mret a).
Proof. intros c0. apply st_keeps_ret. Qed.
Lemma keeps_get : keeps st_get.
Proof. intros c0. apply st_keeps_get. Qed.
Lemma keeps_throw {A} e : keeps (st_throw (A := A) e).
Proof. intros c0. apply st_keeps_throw. Qed.
Lemma keeps_lift {A} (r : result A) : keeps (st_lift r).
Proof. intros c0. apply st_keeps_lift. Qed.
Lemma keeps_try {A} (m h : ST (P2PState CS) A) : keeps m -> keeps h -> keeps (st_try m h).
Proof. intros Hm Hh c0. by apply st_keeps_try. Qed.

(** What neither touches the chain, the cache nor the queues. *)
Lemma keeps_modify f : (forall x, p2p_chain (f x) = p2p_chain x /\ m_batches (p2p_sync (f x)) = m_batches (p2p_sync x) /\
    p2p_blocks (f x) = p2p_blocks x /\ p2p_transactions (f x) = p2p_transactions x) -> keeps (st_modify f).
Proof.
  intros Hf c0. apply st_keeps_modify. intros x (c & [H1 H2 H3 H4 H5 H6] & Hg). destruct (Hf x) as (E1 & E2 & E3 & E4).
  exists c. split; [|done]. constructor; rewrite ?E1, ?E2, ?E3, ?E4; done.
Qed.

Lemma keeps_call k : keeps (call k).
Proof. by apply keeps_modify. Qed.
Lemma keeps_on_connection peer f : keeps (on_connection peer f).
Proof. by apply keeps_modify. Qed.
Lemma keeps_BanPeer peer : keeps (BanPeer peer).
Proof.
  intros c0 x (c & [H1 H2 H3 H4 H5 H6] & Hg). exists c. split; [|done]. by constructor.
Qed.

Lemma grows_trans c1 c2 c3 : grows c1 c2 -> grows c2 c3 -> grows c1 c3.
Proof. intros [E1 D1] [E2 D2]. split; [destruct E1, E2|destruct D1, D2]; (by left) || (right; lia). Qed.
Lemma grows_refl c : grows c c.
Proof. split; right; lia. Qed.

Lemma keeps_in_chain {A} (m : ST CS A) : keeps_node m -> keeps (in_chain_state m).
Proof.
  intros Hm c0 x (c & [H1 H2 H3 H4 H5 H6] & Hg). destruct (Hm c _ H1) as (r & c' & s' & E & Hn & Hg').
  unfold in_chain_state, st_zoom. rewrite E. exists c'. split; [by constructor|]. by eapply grows_trans.
Qed.

Local Abbreviation cache_chain now := (ChainState_HeaderChain (F := F) (R := R) (B := B) (C := C) (L := L) Blake2b env pow_fuel now).

Local Abbreviation node_args f now := (f Blake2b env pow_fuel now Blake2b_length Blake2b_nonzero db_location db_spent db_sums g x0 known K Hof Hob Hge).

Lemma keeps_AddHeaders now con headers source : good_headers headers -> keeps (in_header_cache (AddHeaders (HC := cache_chain now) con headers source)).
Proof using All.
  intros Hh c0 x (c & [H1 H2 H3 H4 H5 H6] & Hg).
  destruct (AddHeaders_ok (HC := cache_chain now) good_headers (node_args (good_suffix (db_wf := db_wf) (db_repr := db_repr) (G := G)) now)
    (node_args (good_join (db_wf := db_wf) (db_repr := db_repr) (G := G)) now) (fun s => exists c', node_ok c' s /\ grows c0 c'))
    with (con := con) (headers := headers) (source := source) (x := p2p_sync x)
    as (r & y & E & Hy); [|done|done|by exists c|done|].
  - intros hs s [c1 [Hc1 Hg1]] [Hc Hk] _ _. cbn [hc_AddBlockHeaders ChainState_HeaderChain].
    destruct (AddBlockHeaders_maintains (db_wf := db_wf) Blake2b env pow_fuel Blake2b_length Blake2b_nonzero db_location db_spent db_sums
      g x0 known K Hof Hob Hge now hs Hk Hc c1 s Hc1) as (r & c2 & s1 & E & Hc2 & Hg2). exists c2. rewrite E. split; [done|]. by eapply grows_trans.
  - unfold in_header_cache, st_zoom. rewrite E. cbn [snd]. destruct Hy as [[-> ->]|(Hl & Hb & [c' [Hc' Hg']] & _)].
    + exists c. split; [by constructor|done].
    + exists c'. split; [by constructor|done].
Qed.

(** ** Queues *)
Lemma keeps_with {A} (f : P2PState CS -> ST (P2PState CS) A) : (forall c0 x, p2p_from c0 x -> p2p_from c0 (f x x).2) -> keeps (x ← st_get; f x).
Proof. intros Hf c0 x Hx. unfold mbind, ST_bind, st_get. by apply Hf. Qed.

Lemma keeps_AddBlockToProcess peer block : block ∈ K -> keeps (AddBlockToProcess peer block).
Proof.
  intros Hb. apply keeps_with. intros c0 x Hx. destruct (_ || _); [done|]. destruct Hx as (c & [H1 H2 H3 H4 H5 H6] & Hg).
  pose proof (push_back_unique_ok same_block (mkBlockEntry peer block) (p2p_blocks x) H5) as Hq.
  assert (Forall (fun e => ben_block e ∈ K) (push_back_unique same_block (mkBlockEntry peer block) (p2p_blocks x)).2) as Hk.
  { unfold push_back_unique. destruct (existsb _ _); [done|]. apply Forall_app. split; [done|]. by repeat constructor. }
  destruct (push_back_unique _ _ _) as [added q]. cbn [snd] in *. exists c. split; [by constructor|done].
Qed.

Lemma keeps_AddTransactionToProcess peer transaction poolType : keeps (AddTransactionToProcess Blake2b peer transaction poolType).
Proof.
  apply keeps_with. intros c0 x (c & [H1 H2 H3 H4 H5 H6] & Hg).
  pose proof (push_back_unique_ok same_transaction (mkTxEntry peer transaction poolType) (p2p_transactions x) H6) as Hq.
  destruct (push_back_unique _ _ _) as [added q]. cbn [snd] in *. exists c. split; [by constructor|done].
Qed.

Lemma keeps_ProcessNewBlock now fuel e : ben_block e ∈ K -> keeps (ProcessNewBlock Blake2b env pow_fuel now fuel e).
Proof using All.
  intros He. apply keeps_try; [|apply keeps_call]. apply keeps_then; [|intros status; destruct (bool_decide _); [apply keeps_call|apply keeps_mret]].
  apply keeps_in_chain. by apply (ProcessBlock_maintains (db_wf := db_wf)).

Qed.

Lemma keeps_Thread_ProcessNewBlocks now fuel : keeps (Thread_ProcessNewBlocks Blake2b env pow_fuel now fuel).
Proof using All.
  apply keeps_with. intros c0 x Hx. destruct (pop_best_if _ _ _) as [[e q]|] eqn:E; [|done]. apply pop_best_if_Some in E as (k & Hk & ->).
  destruct Hx as (c & [H1 H2 H3 H4 H5 H6] & Hg). assert (ben_block e ∈ K) as He by (rewrite Forall_forall in H4; apply H4; by eapply list_elem_of_lookup_2).
  erewrite st_bind_ok by reflexivity. apply keeps_ProcessNewBlock; [done|]. exists c. split; [|done]. constructor; try done.
  - by apply Forall_delete.
  - by apply delete_ok.
Qed.

Lemma keeps_Thread_PostProcessBlocks now fuel : keeps (Thread_PostProcessBlocks Blake2b env pow_fuel now fuel).
Proof using All.
  apply keeps_then; [|intros; apply keeps_mret]. apply keeps_in_chain. by apply (ProcessNextOrphanBlock_maintains (db_wf := db_wf)).
Qed.

Lemma keeps_broadcast_kernels kernels peer : keeps (broadcast_kernels Blake2b kernels peer).
Proof. induction kernels as [|k kernels IH]; cbn [broadcast_kernels]; [apply keeps_mret|]. apply keeps_then; [apply keeps_call|done]. Qed.

Lemma keeps_pop_transaction : keeps (st_modify (fun x => set_transactions (tail (p2p_transactions x)) x)).
Proof.
  intros c0 x (c & [H1 H2 H3 H4 H5 H6] & Hg). exists c. split; [|done]. constructor; try done. cbn.
  assert (tail (p2p_transactions x) = delete 0%nat (p2p_transactions x)) as -> by (by destruct (p2p_transactions x)). by apply delete_ok.
Qed.

Lemma keeps_Thread_ProcessTransactions now random probability : keeps (Thread_ProcessTransactions Blake2b env now random probability).
Proof using All.
  apply keeps_try; [|apply keeps_mret]. apply keeps_then; [apply keeps_get|intros x]. destruct (p2p_transactions x) as [|e q]; [apply keeps_mret|].
  apply keeps_then; [apply keeps_in_chain; by apply (BlockChain_AddTransaction_maintains (db_wf := db_wf))|intros status].
  apply keeps_then; [|intros; apply keeps_pop_transaction].
  destruct (_ && _); [apply keeps_broadcast_kernels|]. destruct (bool_decide _); [apply keeps_call|apply keeps_mret].
Qed.
(** ** Messages *)

(** What a body has to offer: headers and blocks of those the invariants are
    about, headers that follow each other, and compact blocks that the pool
    completes to such blocks. *)
Definition read_as {A} (r : reader A) (payload : bytes) (v : EProtocolVersion) (Q : A -> Prop) : Prop := forall a b, r (ByteBuffer_new payload v) = Ok (a, b) -> Q a.
Definition body_offered (messageType : EMessageType) (payload : bytes) (v : EProtocolVersion) s : Prop :=
  match messageType with
  | MessageTypes.Header => read_as (HeaderMessage_Deserialize Blake2b) payload v (fun m => known (hm_header m))
  | MessageTypes.Headers => read_as (HeadersMessage_Deserialize Blake2b) payload v (fun m => good_headers (hsm_headers m))
  | MessageTypes.HeaderSegment => read_as (HeaderSegmentMessage_Deserialize Blake2b) payload v (fun m => good_headers (hsg_headers m))
  | MessageTypes.Block => read_as (BlockMessage_Deserialize Blake2b GetOutputType) payload v (fun m => bm_block m ∈ K)
  | MessageTypes.CompactBlockMsg => read_as (CompactBlockMessage_Deserialize Blake2b) payload v (fun m => forall block,
      Hydrate Blake2b (pool_by_short_id Blake2b SipHash24 (m_pTransactionPool s)) (cbm_block m) = Ok (Some block) -> block ∈ K)
  | _ => True
  end.

Definition version_of peer x : EProtocolVersion := ProtocolVersion_ToEnum (cn_version (connection_of peer x)).

Lemma keeps_deserialize {A A'} (r : reader A) payload v (f : A -> ST (P2PState CS) A') :
  (forall a b, r (ByteBuffer_new payload v) = Ok (a, b) -> keeps (f a)) -> keeps (deserialize r (ByteBuffer_new payload v) ≫= f).
Proof.
  intros Hf c0 x Hx. unfold deserialize. destruct (r _) as [[a b]|e] eqn:E; [|done]. rewrite (st_lift_ok _ _ _ _ eq_refl). by apply (Hf a b).
Qed.

Lemma AddCompactBlock_keeps now fuel compactBlock c s : node_ok c s ->
  (forall block, Hydrate Blake2b (pool_by_short_id Blake2b SipHash24 (m_pTransactionPool s)) compactBlock = Ok (Some block) -> block ∈ K) ->
  exists r c' s', AddCompactBlock Blake2b SipHash24 env pow_fuel now fuel compactBlock s = (r, s') /\ node_ok c' s' /\ grows c c'.
Proof using All.
  intros Hn Hh. pose proof (grows_refl c) as Hg. unfold AddCompactBlock. erewrite st_bind_ok by reflexivity.
  destruct (match GetByHeight _ _ with Some _ => _ | None => _ end); [by exists (Ok ALREADY_EXISTS), c, s|].
  unfold st_try_except. destruct (Hydrate _ _ compactBlock) as [[block|]|e] eqn:E.
  - specialize (Hh block eq_refl). rewrite (st_lift_ok _ _ _ _ eq_refl).
    assert (keeps_node (BlockChain_AddBlock Blake2b env pow_fuel now fuel block)) as Hk by (apply (ProcessBlock_maintains (db_wf := db_wf)); done).
    destruct (Hk c s Hn) as (r & c' & s' & E' & Hn' & Hg'). destruct r as [status|e].
    + erewrite st_bind_ok by exact E'. by eexists _, c', s'.
    + erewrite st_bind_throw by exact E'. destruct (_ && _); by eexists _, c', s'.
  - rewrite (st_lift_ok _ _ _ _ eq_refl). by eexists _, c, s.
  - erewrite st_bind_throw by reflexivity. destruct (is_std e && _); by eexists _, c, s.
Qed.

Lemma from_bind {A A'} (m : ST (P2PState CS) A) (f : A -> ST (P2PState CS) A') c0 x : p2p_from c0 (m x).2 -> (forall a, keeps (f a)) -> p2p_from c0 ((m ≫= f) x).2.
Proof. intros Hm Hf. unfold mbind, ST_bind. destruct (m x) as [[a|e] x']; [by apply Hf|done]. Qed.

(** The parts of a handler, one after the other. *)
Ltac keep :=
  repeat first
    [ match goal with |- keeps (let _ := _ in _) => cbv zeta end
    | match goal with |- keeps (_ ≫= _) => apply keeps_then; [|intros ?] end
    | apply keeps_mret | apply keeps_get | apply keeps_throw | apply keeps_lift | apply keeps_call | apply keeps_on_connection | apply keeps_BanPeer
    | match goal with |- keeps (match ?a with _ => _ end) => destruct a end ].

Lemma keeps_on_CompactBlock i peer payload v c0 x : body_offered MessageTypes.CompactBlockMsg payload v (p2p_chain x) -> p2p_from c0 x ->
  p2p_from c0 (on_CompactBlock Blake2b SipHash24 env pow_fuel i peer (ByteBuffer_new payload v) x).2.
Proof using All.
  intros Ho Hx. unfold on_CompactBlock, deserialize. destruct (CompactBlockMessage_Deserialize _ _) as [[m b]|e] eqn:E; [|done].
  rewrite (st_lift_ok _ _ _ _ eq_refl). specialize (Ho _ _ E). apply from_bind.
  - destruct Hx as (c & [H1 H2 H3 H4 H5 H6] & Hg). destruct (AddCompactBlock_keeps (in_now i) (in_fuel i) (cbm_block m) c _ H1 Ho) as (r & c' & s' & Ec & Hn & Hg').
    unfold in_chain_state, st_zoom. rewrite Ec. exists c'. split; [by constructor|]. by eapply grows_trans.
  - intros added. keep.
Qed.

Lemma keeps_on_Header i peer payload v : read_as (HeaderMessage_Deserialize Blake2b) payload v (fun m => known (hm_header m)) ->
  keeps (on_Header Blake2b env pow_fuel i peer (ByteBuffer_new payload v)).
Proof using All.
  intros Ho. apply keeps_deserialize. intros m b E. specialize (Ho _ _ E). keep.
  apply keeps_in_chain. apply node_maintains_try_except, (maintains_headers (db_wf := db_wf)); try done.
  by apply (ProcessSingleHeader_maintains (db_wf := db_wf)).
Qed.

Lemma keeps_on_Block i peer payload v : read_as (BlockMessage_Deserialize Blake2b GetOutputType) payload v (fun m => bm_block m ∈ K) ->
  keeps (on_Block Blake2b GetOutputType env pow_fuel i peer (ByteBuffer_new payload v)).
Proof using All.
  intros Ho. apply keeps_deserialize. intros m b E. specialize (Ho _ _ E). keep.
  - by apply keeps_AddBlockToProcess.
  - apply keeps_in_chain. by apply (ProcessBlock_maintains (db_wf := db_wf)).
Qed.

Lemma keeps_on_transaction i peer r poolType byteBuffer : keeps (on_transaction Blake2b i peer r poolType byteBuffer).
Proof. unfold on_transaction, deserialize. keep. apply keeps_AddTransactionToProcess. Qed.

Lemma ProcessMessageInternal_keeps i peer messageType payload c0 x : body_offered messageType payload (version_of peer x) (p2p_chain x) -> p2p_from c0 x ->
  p2p_from c0 (ProcessMessageInternal Blake2b SipHash24 GetOutputType env pow_fuel i peer messageType payload x).2.
Proof using All.
  intros Ho Hx. unfold ProcessMessageInternal. erewrite st_bind_ok by reflexivity.
  fold (version_of peer x). set (v := version_of peer x) in *. clearbody v.
  assert (messageType = MessageTypes.CompactBlockMsg \/ messageType <> MessageTypes.CompactBlockMsg) as [->|Hne] by (destruct messageType; (by left) || by right).
  { by apply keeps_on_CompactBlock. }
  match goal with |- p2p_from _ (?m _).2 => enough (keeps m) as Hk by exact (Hk c0 x Hx) end. clear c0 Hx.
  destruct messageType; try done; cbn [body_offered] in Ho; clear Hne.
  all: try (unfold on_Ping, on_GetPeerAddrs, on_GetHeaders, on_GetHeaderSegment, on_GetBlock, on_GetCompactBlock, on_GetTransaction, on_TransactionKernel,
    on_GetSegment, UpdateTotals, deserialize; by keep).
  - by apply keeps_on_Header.
  - unfold on_Headers. apply keeps_deserialize. intros m b E. apply keeps_AddHeaders. by apply (Ho _ _ E).
  - by apply keeps_on_Block.
  - apply keeps_on_transaction.
  - apply keeps_on_transaction.
  - unfold on_HeaderSegment. apply keeps_deserialize. intros m b E. keep. apply keeps_AddHeaders. by apply (Ho _ _ E).
Qed.

Lemma keeps_Disconnect peer : keeps (Connection_Disconnect peer).
Proof. unfold Connection_Disconnect, Connection_lock, Connection_unlock. keep. Qed.

Lemma ProcessMessage_keeps i peer messageType payload c0 x : body_offered messageType payload (version_of peer x) (p2p_chain x) -> p2p_from c0 x ->
  p2p_from c0 (ProcessMessage Blake2b SipHash24 GetOutputType env pow_fuel i peer messageType payload x).2.
Proof using All.
  intros Ho Hx. pose proof (ProcessMessageInternal_keeps i peer messageType payload c0 x Ho Hx) as Hk. unfold ProcessMessage.
  destruct (ProcessMessageInternal _ _ _ _ _ _ _ _ _ x) as [[u|e] x']; [done|].
  destruct e; try done; try (by apply keeps_BanPeer); by apply keeps_Disconnect.
Qed.

Lemma connection_of_on peer f x : connection_of peer (on_connection peer f x).2 = f (connection_of peer x).
Proof. unfold connection_of at 1. cbn. by rewrite lookup_insert_eq. Qed.

(** What only changes a connection leaves the chain as it is. *)
Lemma with_lock_from {A} peer (m : ST (P2PState CS) A) c0 x :
  (forall x', p2p_chain x' = p2p_chain x -> version_of peer x' = version_of peer x -> p2p_from c0 x' -> p2p_from c0 (m x').2) -> p2p_from c0 x -> p2p_from c0 (with_lock peer m x).2.
Proof.
  intros Hm Hx. unfold with_lock, Connection_lock, mbind, ST_bind, st_get. destruct (cn_locked _); [done|].
  assert (p2p_from c0 (on_connection peer (cn_set_locked true) x).2) as Hx1 by (by apply keeps_on_connection).
  specialize (Hm (on_connection peer (cn_set_locked true) x).2 eq_refl ltac:(unfold version_of; by rewrite connection_of_on) Hx1). cbn [on_connection st_modify snd] in *. unfold unlocking. destruct (m _) as [[a|e] x'].
  - by apply (keeps_on_connection peer (cn_set_locked false)).
  - destruct (is_std e); [by apply (keeps_on_connection peer (cn_set_locked false))|done].
Qed.

Lemma HandleReceivedBody_keeps i peer messageHeader body c0 x : body_offered (mh_type messageHeader) body (version_of peer x) (p2p_chain x) -> p2p_from c0 x ->
  p2p_from c0 (HandleReceivedBody Blake2b SipHash24 GetOutputType env pow_fuel i peer messageHeader body x).2.
Proof using All.
  intros Ho. apply with_lock_from. intros x' Ex Ev Hx. erewrite st_bind_ok by reflexivity. destruct (_ && _); [|by apply keeps_on_connection].
  rewrite <- Ex, <- Ev in Ho. pose proof (ProcessMessage_keeps i peer (mh_type messageHeader) body c0 x' Ho Hx) as Hk. unfold st_try.
  destruct (ProcessMessage _ _ _ _ _ _ _ _ _ x') as [[u|e] x2]; [done|]. destruct (is_std e); [by apply keeps_on_connection|done].
Qed.

Lemma keeps_HandleReceivedHeader peer received : keeps (HandleReceivedHeader env peer received).
Proof.
  intros c0 x. apply with_lock_from. intros x' _ _. revert c0 x'. change (keeps (x ← st_get; let failed := _ ← CloseSocket peer; mret None in
    if cn_open (connection_of peer x) && (length received =? HEADER_LENGTH) then
      match MessageHeader_Deserialize env (ByteBuffer_new received V1) with
      | Ok (messageHeader, _) => mret (Some messageHeader)
      | Throw e => if is_std e then failed else st_throw e
      end
    else failed)). unfold CloseSocket. keep.
Qed.

Lemma HandleReceivedHeader_Some peer received x h x' : HandleReceivedHeader env peer received x = (Ok (Some h), x') ->
  p2p_chain x' = p2p_chain x /\ version_of peer x' = version_of peer x /\ exists b, MessageHeader_Deserialize env (ByteBuffer_new received V1) = Ok (h, b).
Proof.
  unfold HandleReceivedHeader, with_lock, Connection_lock, unlocking, CloseSocket, mbind, ST_bind, st_get, on_connection, st_modify, mret, ST_ret.
  destruct (cn_locked _); [done|]. destruct (_ && _); [|done]. destruct (MessageHeader_Deserialize _ _) as [[h' b]|e].
  - intros [= <- <-]. split; [done|]. split; [|by exists b].
    unfold version_of, connection_of. cbn. by rewrite lookup_insert_eq; cbn; rewrite lookup_insert_eq.
  - by destruct (is_std e) eqn:E; cbn; rewrite ?E.
Qed.
Definition message_offered peer (header body : bytes) x : Prop := forall h b,
  MessageHeader_Deserialize env (ByteBuffer_new header V1) = Ok (h, b) -> body_offered (mh_type h) body (version_of peer x) (p2p_chain x).

Lemma ReceiveMessage_keeps i peer header body c0 x : message_offered peer header body x -> p2p_from c0 x ->
  p2p_from c0 (ReceiveMessage Blake2b SipHash24 GetOutputType env pow_fuel i peer header body x).2.
Proof using All.
  intros Ho Hx. pose proof (keeps_HandleReceivedHeader peer header c0 x Hx) as H1. unfold ReceiveMessage, mbind, ST_bind.
  destruct (HandleReceivedHeader env peer header x) as [[[h|]|e] x1] eqn:E; [|done|done].
  destruct (HandleReceivedHeader_Some _ _ _ _ _ E) as (Ec & Ev & b & Eh). apply HandleReceivedBody_keeps; [|done]. rewrite Ec, Ev. by apply (Ho _ b).
Qed.

(** ** Runs *)

(** A message that arrives, a turn of a thread, or a connection that is pruned. *)
Inductive P2PStep :=
| MessageStep (i : Inputs) (peer : Z) (header body : bytes)
| BlockStep (now : Z) (fuel : nat)
| OrphanStep (now : Z) (fuel : nat)
| TransactionStep (now random probability : Z)
| PruneStep (peer : Z).

Definition p2p_step (o : P2PStep) : ST (P2PState CS) unit :=
  match o with
  | MessageStep i peer header body => ReceiveMessage Blake2b SipHash24 GetOutputType env pow_fuel i peer header body
  | BlockStep now fuel => Thread_ProcessNewBlocks Blake2b env pow_fuel now fuel
  | OrphanStep now fuel => Thread_PostProcessBlocks Blake2b env pow_fuel now fuel
  | TransactionStep now random probability => Thread_ProcessTransactions Blake2b env now random probability
  | PruneStep peer => Connection_Disconnect peer
  end.

(** What the messages offer, in the state they find. *)
Fixpoint steps_offered (steps : list P2PStep) x : Prop :=
  match steps with
  | [] => True
  | o :: steps =>
      match o with MessageStep _ peer header body => message_offered peer header body x | _ => True end /\ steps_offered steps (p2p_step o x).2
  end.

Lemma run_from steps : forall c0 x, steps_offered steps x -> p2p_from c0 x -> exists rs x', run p2p_step steps x = (rs, x') /\ p2p_from c0 x'.
Proof using All.
  induction steps as [|o steps IH]; intros c0 x Ho Hx; [by exists [], x|]. destruct Ho as [Ho Hos]. cbn [run].
  assert (p2p_from c0 (p2p_step o x).2) as H1.
  { destruct o; cbn [p2p_step].
    - by apply ReceiveMessage_keeps.
    - by apply keeps_Thread_ProcessNewBlocks.
    - by apply keeps_Thread_PostProcessBlocks.
    - by apply keeps_Thread_ProcessTransactions.
    - by apply keeps_Disconnect. }
  destruct (IH c0 _ Hos H1) as (rs & x' & E & Hx'). destruct (p2p_step o x) as [r x1]. cbn [snd] in E. rewrite E. by exists (r :: rs), x'.
Qed.

(** C3: as long as the headers and blocks that are read from the bytes of the
    messages are of those the invariants of a node are about (a hash names one
    header and one block, headers count what their blocks add, headers of one
    message follow each other, sizes fit the bounds), whatever else the bytes are,
    unreadable ones included, on whatever connections and in whatever order with
    the turns of the threads that work off the queues, with every exception on
    the way: the chains, the database and the hash set of the node stay valid,
    no chain loses difficulty, at most 16 batches of headers are kept, each of
    headers that follow each other, and no block and no transaction waits twice. *)
Theorem p2p_invariant steps c x : p2p_ok c x -> steps_offered steps x ->
  exists rs c' x', run p2p_step steps x = (rs, x') /\ p2p_ok c' x' /\ grows c c'.
Proof using All.
  intros Hx Ho. destruct (run_from steps c x Ho) as (rs & x' & E & c' & Hx' & Hg); [by exists c; split; [|apply grows_refl]|]. by exists rs, c', x'.
Qed.

(** ** Connections *)

(** The types whose bodies are read whatever the status of the sync. *)
Definition read_at_once (messageType : EMessageType) : bool :=
  match messageType with
  | MessageTypes.Hand | MessageTypes.Shake | MessageTypes.StemTransaction | MessageTypes.TransactionMsg | MessageTypes.TransactionKernelMsg
  | MessageTypes.Unnamed _ => false
  | _ => true
  end.

Lemma ProcessMessageInternal_unread i peer messageType payload x e :
  read_at_once messageType = true ->
  read_message Blake2b GetOutputType messageType (ByteBuffer_new payload (ProtocolVersion_ToEnum (cn_version (connection_of peer x)))) = Throw e ->
  ProcessMessageInternal Blake2b SipHash24 GetOutputType env pow_fuel i peer messageType payload x = (Throw e, x).
Proof.
  intros Ht. unfold ProcessMessageInternal. erewrite st_bind_ok by reflexivity. set (v := ProtocolVersion_ToEnum _). clearbody v.
  destruct messageType; try done; cbn [read_message]; unfold mbind at 1, reader_bind;
    unfold on_Ping, on_GetPeerAddrs, on_GetHeaders, on_Header, on_Headers, on_GetHeaderSegment, on_HeaderSegment, on_GetBlock, on_Block, on_GetCompactBlock,
      on_CompactBlock, on_GetTransaction, on_GetSegment, deserialize;
    match goal with |- (match ?r with Ok _ => _ | Throw _ => _ end) = _ -> _ => destruct r as [[m b]|e'] end; (by intros [= ->]) || done.
Qed.

(** C29: the mutex of a connection is held while a body is processed, and the
    connection is disconnected, which takes it again, when the body cannot be
    read: what the thread of the network does then is undefined. *)
Theorem malformed_body_locks_twice i peer messageType body x e :
  read_at_once messageType = true ->
  read_message Blake2b GetOutputType messageType (ByteBuffer_new body (ProtocolVersion_ToEnum (cn_version (connection_of peer x)))) = Throw e ->
  is_std e = true -> e <> BadDataException -> e <> BlockChainException ->
  cn_open (connection_of peer x) = true -> cn_locked (connection_of peer x) = false ->
  (HandleReceivedBody Blake2b SipHash24 GetOutputType env pow_fuel i peer (mkMessageHeader (GetMagicBytes env) messageType (length body)) body x).1 = Throw UB.
Proof.
  intros Ht Er He Hb Hc Hopen Hlock. unfold HandleReceivedBody, with_lock, Connection_lock. 
  erewrite st_bind_ok; [|erewrite st_bind_ok by reflexivity; rewrite Hlock; reflexivity].
  set (x1 := set_peers _ x). assert (connection_of peer x1 = cn_set_locked true (connection_of peer x)) as Ec by (unfold x1, connection_of; cbn; by rewrite lookup_insert_eq).
  unfold unlocking. erewrite st_bind_ok by reflexivity. rewrite Ec. cbn [cn_set_locked cn_open mh_length mh_type]. rewrite Hopen, Z.eqb_refl. cbn [andb].
  unfold st_try, ProcessMessage. rewrite (ProcessMessageInternal_unread i peer messageType body x1 e Ht) by (rewrite Ec; exact Er).
  assert (Connection_Disconnect peer x1 = (Throw UB, x1)) as Ed.
  { unfold Connection_Disconnect. apply st_bind_throw. unfold Connection_lock. erewrite st_bind_ok by reflexivity. by rewrite Ec. }
  destruct e; try done; by rewrite Ed.
Qed.
(** C30: a peer that was banned stays connected: its connection counts as
    disconnected already, so that disconnecting it leaves the socket open, which
    is all that is asked before a message is processed; any other is closed. *)
Theorem banned_peer_stays_connected peer x :
  cn_locked (connection_of peer x) = false ->
  (let x' := (BanPeer peer x).2 in
   exists x'', Connection_Disconnect peer x' = (Ok tt, x'') /\ peer ∈ hs_banned (p2p_sync x'') /\ cn_open (connection_of peer x'') = cn_open (connection_of peer x)) /\
  (peer ∉ hs_banned (p2p_sync x) -> cn_disconnected (connection_of peer x) = false ->
   exists x'', Connection_Disconnect peer x = (Ok tt, x'') /\ cn_open (connection_of peer x'') = false).
Proof.
  intros Hl.
  assert (forall y : P2PState CS, cn_locked (connection_of peer y) = false -> exists y', Connection_Disconnect peer y = (Ok tt, y') /\ p2p_sync y' = p2p_sync y /\
    cn_open (connection_of peer y') = if m_terminate peer y then cn_open (connection_of peer y) else false) as Hd.
  { intros y Hy. set (y1 := (on_connection peer (cn_set_locked true) y).2).
    assert (connection_of peer y1 = cn_set_locked true (connection_of peer y)) as E1 by apply connection_of_on.
    set (y2 := if m_terminate peer y then y1 else (on_connection peer (cn_set_closed true) y1).2).
    exists (Connection_unlock peer y2).2. split; [|split; [unfold y2; by destruct (m_terminate peer y)|]].
    - unfold Connection_Disconnect, Connection_lock. erewrite st_bind_ok; [|erewrite st_bind_ok by reflexivity; rewrite Hy; reflexivity].
      fold y1. erewrite st_bind_ok by reflexivity. assert (m_terminate peer y1 = m_terminate peer y) as Em by (unfold m_terminate; by rewrite E1).
      change (set_peers _ y) with y1. rewrite Em. unfold y2. by destruct (m_terminate peer y).
    - unfold Connection_unlock. rewrite connection_of_on. unfold y2. destruct (m_terminate peer y); [by rewrite E1|by rewrite connection_of_on]. }
  split.
  - cbn zeta. destruct (Hd (BanPeer peer x).2 Hl) as (y & E & Es & Eo). exists y. split; [done|]. split; [rewrite Es; apply list_elem_of_here|].
    rewrite Eo. unfold m_terminate. cbn. rewrite bool_decide_eq_true_2 by apply list_elem_of_here. by rewrite orb_true_r.
  - intros Hn Hc. destruct (Hd x Hl) as (y & E & _ & Eo). exists y. split; [done|]. rewrite Eo. unfold m_terminate. rewrite Hc, bool_decide_eq_false_2 by done. done.
Qed.
End spec.

(** ** Evaluation *)
Definition toy_inputs : Inputs := mkInputs 0 5 NOT_SYNCING 0 0 [] 3414.
Definition toy_p2p : P2PState ToyNode := mkP2PState toy_sync [] [] {[7 := mkConnection 0 0 (mkCapabilities 0) 1 false true false]} [].
Definition framed (p : IMessagePtr) : bytes * bytes :=
  match Message_Serialize AUTOMATED_TESTING V1 p with Ok data => (take 11 data, drop 11 data) | Throw _ => ([], []) end.
Definition message_step (peer : Z) (p : IMessagePtr) : P2PStep := MessageStep toy_inputs peer (framed p).1 (framed p).2.
Local Abbreviation toy_step := (p2p_step (F := DataFile) (R := list Z) (B := MapDB) (C := list (Hash * BlockHeader)) (L := list (Commitment * Commitment)) toy_hash (fun _ _ _ => 0) (fun _ => 0) AUTOMATED_TESTING 0).
Definition toy_steps : list P2PStep := [message_step 7 (PHeaders (mkHeadersMessage [fork_header1])); message_step 7 (PBlock (mkBlockMessage fork_block1)); PruneStep 7].

Lemma read_as_eval {A} (r : reader A) payload v (Q : A -> Prop) a b : r (ByteBuffer_new payload v) = Ok (a, b) -> Q a -> read_as r payload v Q.
Proof. intros Hr Hq a' b' E. rewrite Hr in E. by injection E as <- _. Qed.

Local Abbreviation toy_known := (fun h => h ∈ node_headers).
Local Abbreviation toy_p2p_ok := (p2p_ok (db_repr := MapDB_repr) (G := toy_group) toy_hash AUTOMATED_TESTING 0 node_genesis node_x0 toy_known node_blocks).

Lemma toy_p2p_start : toy_p2p_ok node_start toy_p2p.
Proof.
  constructor; [exact node_start_ok|cbn; lia| |constructor|by intros i|by intros i].
  constructor; [|constructor]. split; [done|]. repeat constructor.
Qed.

Lemma toy_steps_offered : steps_offered toy_hash (fun _ _ _ => 0) (fun _ => 0) AUTOMATED_TESTING 0 toy_known node_blocks toy_steps toy_p2p.
Proof.
  split; [|split; [|done]]; intros h b E.
  - assert (mh_type h = MessageTypes.Headers) as -> by (vm_compute in E; by injection E as <- _).
    eapply (read_as_eval _ _ _ _ (mkHeadersMessage [fork_header1])); [vm_compute; reflexivity|].
    split; [done|]. repeat constructor.
  - assert (mh_type h = MessageTypes.Block) as -> by (vm_compute in E; by injection E as <- _).
    eapply (read_as_eval _ _ _ _ (mkBlockMessage fork_block1)); [vm_compute; reflexivity|].
    by repeat constructor.
Qed.

(** The headers of a fork and a block of it arrive; its header is passed on. *)
Lemma p2p_invariant_witness :
  let x' := (run toy_step toy_steps toy_p2p).2 in
  (run toy_step toy_steps toy_p2p).1 = [Ok tt; Ok tt; Ok tt] /\
  p2p_calls x' = [BroadcastMessage (PHeader (mkHeaderMessage fork_header1)) 7] /\ GetHeight CANDIDATE (p2p_chain x') = 2 /\
  cn_open (connection_of 7 x') = false /\ exists c', toy_p2p_ok c' x' /\ grows AUTOMATED_TESTING node_start c'.
Proof.
  cbn zeta. split; [vm_compute; reflexivity|]. split; [vm_compute; reflexivity|]. split; [vm_compute; reflexivity|]. split; [vm_compute; reflexivity|].
  destruct (p2p_invariant (db_wf := fun _ => True) toy_hash (fun _ _ _ => 0) (fun _ => 0) AUTOMATED_TESTING 0 toy_hash_length toy_hash_nonzero
    (fun _ _ => I) (fun _ _ _ => I) (fun _ _ _ => I) node_genesis node_x0 toy_known node_blocks node_offered node_offered_blocks node_genesis_ok
    toy_steps node_start toy_p2p toy_p2p_start toy_steps_offered) as (rs & c' & x' & E & Hx & Hg).
  exists c'. rewrite E. by split.
Defined.

(** A ping without a body. *)
Lemma malformed_body_locks_twice_witness :
  MessageHeader_Deserialize AUTOMATED_TESTING (ByteBuffer_new [83; 59; 3; 0; 0; 0; 0; 0; 0; 0; 0] V1) =
    Ok (mkMessageHeader [83; 59] MessageTypes.Ping 0, mkByteBuffer 11 [83; 59; 3; 0; 0; 0; 0; 0; 0; 0; 0] V1) /\
  (HandleReceivedBody toy_hash (fun _ _ _ => 0) (fun _ => 0) AUTOMATED_TESTING 0 toy_inputs 7 (mkMessageHeader [83; 59] MessageTypes.Ping 0) [] toy_p2p).1 = Throw UB.
Proof.
  split; [vm_compute; reflexivity|].
  apply (malformed_body_locks_twice toy_hash (fun _ _ _ => 0) (fun _ => 0) AUTOMATED_TESTING 0 toy_inputs 7 MessageTypes.Ping [] toy_p2p DeserializationException);
    [reflexivity|vm_compute; reflexivity|reflexivity|discriminate|discriminate|vm_compute; reflexivity|vm_compute; reflexivity].
Defined.

(** The peer is banned, its connection is pruned, and its next message is still
    answered. *)
Lemma banned_peer_stays_connected_witness :
  let x' := (BanPeer 7 toy_p2p).2 in
  (exists x'', Connection_Disconnect 7 x' = (Ok tt, x'') /\ 7 ∈ hs_banned (p2p_sync x'') /\ cn_open (connection_of 7 x'') = true) /\
  p2p_calls (run toy_step [PruneStep 7; message_step 7 (PGetHeaders (mkGetHeadersMessage [BlockHeader_GetHash node_genesis]))] x').2 =
    [SendAsync 7 (PHeaders (mkHeadersMessage []))].
Proof.
  cbn zeta. split; [|vm_compute; reflexivity]. apply (banned_peer_stays_connected 7 toy_p2p). vm_compute. reflexivity.
Defined.
